(* ===== verification/_CoqProject ===== *)
-Q . S2P
Prelude.v
GoTime.v
GoStrings.v
GoHash.v
GoFmt.v
GoTimeFmt.v
GoQuote.v
GoJson.v
Signal.v
PullFailure.v
Filter.v
Routing.v
Repeat.v
Dedup.v
DedupSpec.v
DedupJoin.v
DedupFile.v
Recovery.v
Storm.v
StormSpec.v
Effects.v
Wire.v
WireFit.v
Triage.v
Watchboard.v
Payloads.v
Dispatch.v
DispatchSpec.v
DispatchRows.v
DispatchFlow.v
GoSort.v
GraphTypes.v
GraphChanges.v
GraphCodec.v
GraphWriter.v
GraphReplay.v
GraphReplaySpec.v
GraphQuery.v
GraphAdjacency.v
GraphRebuild.v
GraphRebuildSpec.v
GraphIncremental.v
GraphHistory.v
LeewayTopology.v
DriftInventory.v
DriftState.v
DriftCensus.v
DriftStateSpec.v
DriftVerify.v
GoFloatMath.v
LeewayApportion.v
LeewayIntent.v
LeewayEligible.v
LeewayScore.v
LeewayScoreSpec.v
DriftScore.v
DriftPolicy.v
DriftPredicate.v
DriftInfer.v
DriftDefaults.v
LeewayScaleUp.v
LeewayAlert.v
DriftAlerts.v
DriftAlertStore.v
DriftClearance.v
DriftCoalesce.v
Findings.v
FindingsRuns.v
AxNames.v
AxSink.v
AxSinkSpec.v
AxDispatch.v
CronSched.v
Workload.v
WorkloadSpec.v
Logfmt.v
EmitWriter.v
Report.v
Exempt.v
PosturePolicy.v
