(* ===== verification/Prelude.v ===== *)
(** * k8s-lookout: a verification development

    k8s-lookout watches a Kubernetes cluster and opens sessions with an agent about
    what goes wrong in it. This development models the watch path from a signal to
    the sink, the topology graph the path consults, two of the sources that feed it (the
    placement drift of replicated workloads, and Jobs and CronJobs), one of the sinks behind
    it, and the report path of the read-only commands; and it proves what an operator
    relies on: an open incident keeps its one session, nothing is lost or said twice,
    everything fits the sink's limits, the graph is the graph of the cluster, what a source
    reports is so, and what a report says is what is read back from it.

    ** The program and its parts

    A source (informer or poller) emits a [Signal]. The dispatcher
    (src/internal/watch/dispatch.go) takes it through the engine's stages
    (src/pkg/engine): the filter drops noise; the dedup cache decides whether it opens
    an incident, is a duplicate of one or repeats into one; the storm correlator
    gathers incidents that share a blast radius; severity routing and the triage
    overrides decide where it goes. A per-incident signal opens a session of the
    sink (src/pkg/inject) or is appended to one; a warning is batched on the watchboard;
    everything is recorded in the store. The recovery tracker watches bound incidents
    and emits outcome signals, which take the same path back. The topology graph
    (src/pkg/graph) ingests the cluster's objects, publishes immutable snapshots,
    answers the storm correlator's and the enrichers' queries, and keeps a history as a
    snapshot file and a log of effects.

    The topologydrift source (src/pkg/sources/topologydrift over src/pkg/leeway) counts
    pods per domain of a topology, compares the counts with what a policy, the pod's own
    constraints or the cluster's defaults ask for, and turns lasting verdicts into
    findings through an alert machine. The workload source
    (src/pkg/sources/workload over src/pkg/cronsched) mirrors Jobs and CronJobs and reports
    failures and runs that did not happen. The Agent Executor sink (src/internal/axsink)
    runs an incident in a task of its own and holds reminders for a task that sleeps.
    The read-only commands write findings through one writer (src/pkg/emit) that applies
    exemptions (src/pkg/exempt) and a posture policy (src/pkg/policy); the findings diff
    (src/pkg/findings) reads such a report back and says what changed since the last.

    ** Which file models which part

    Foundations. This file: notations, tactics, hints and generic lemmas. GoTime:
    [time] and float64. GoStrings: [strings]. GoHash: FNV and SHA-256. GoFmt: formatting.
    GoTimeFmt: dates written and read. GoQuote: quoted strings. GoJson: JSON documents,
    structs with field tags, marshalled and unmarshalled. GoSort: binary search, varints
    and [container/heap]. GoFloatMath: rounding of float64. Effects: the state monad of the
    handlers.

    The engine, src/pkg/engine. Signal: signal.go, event.go, fingerprint.go,
    quotadraft.go, the reason families of dedup.go. PullFailure: pullfailure.go. Filter:
    filter.go. Routing: routing.go. Repeat: repeat.go and the entries of dedup.go. Dedup:
    dedup.go, with DedupSpec and DedupJoin its properties, and DedupFile: its snapshot file.
    Recovery: recovery.go. Storm:
    storm.go, external.go, mined.go, with StormSpec its properties. The mutable object of
    each component is a [Record]; a method is a function from the record before to the
    record after and the result; a mutex section is one step; the clock is the argument
    [now].

    The dispatcher, src/internal/watch, and the sink, src/pkg/inject. Wire: payload.go,
    fit.go, sink.go, with WireFit the properties of the fitting. Triage: triage.go.
    Watchboard: watchboard.go. Payloads: what the handlers put on the wire. Dispatch: the
    handlers of dispatch.go, storm.go, reattach.go, recovery.go and session_open.go, with
    DispatchSpec, DispatchRows and DispatchFlow their properties. A handler is a
    computation over [Dispatch.world]: the components' states, the calls the sink
    received, the dry run's output and the store's rows.

    The topology graph, src/pkg/graph. GraphTypes: types.go, interner.go. GraphChanges:
    changes.go. GraphCodec: the byte format. GraphWriter: writer.go, derive.go, graph.go,
    snapshot.go. GraphReplay: replay.go. GraphQuery: query.go and its properties.
    GraphHistory: history.go and its properties. GraphReplaySpec: replay against the live
    graph. GraphAdjacency, GraphRebuild, GraphRebuildSpec, GraphIncremental: the
    incremental graph against a rebuild.

    Placement drift. LeewayTopology, DriftInventory, DriftState: the distributions, the
    node inventory and the pod index with every handler; DriftCensus, DriftStateSpec,
    DriftVerify: the index against a census, and the rolling verifier. LeewayApportion,
    LeewayIntent, LeewayEligible, LeewayScore, LeewayScoreSpec, DriftScore, LeewayScaleUp:
    expectation, intent, eligibility and verdict. DriftPolicy, DriftPredicate, DriftInfer,
    DriftDefaults: where an intent comes from. LeewayAlert, DriftAlerts, DriftAlertStore,
    DriftClearance: the alert machine, the pass over every episode, its rows and its
    clearance verdicts. DriftCoalesce: the evaluation queue.

    The workload source. CronSched: cronsched.go. Workload: workload.go; WorkloadSpec: the
    history of one CronJob, and what the source says against it.

    The Agent Executor sink. AxNames, AxSink: src/internal/axsink; AxSinkSpec its
    properties, AxDispatch the dispatcher over it.

    Reports. Logfmt: the records; EmitWriter: finding.go, writer.go and findings_format.go of
    src/pkg/emit with its account; Report: report.go of src/pkg/findings. Exempt:
    exempt.go and the audit of the file. PosturePolicy: src/pkg/policy. Findings: the diff and
    its rows, the store open, writable and of the current schema; FindingsRuns: runs of it.

    Iteration over a Go map has no order: the class [RangeOrder] (below) permutes it
    arbitrarily per loop, and the theorems hold for every instance.

    ** What the theorems show

    Sessions. [DedupSpec.open_incident_keeps_session] and, through the whole dispatcher,
    [DispatchFlow.open_incident_keeps_its_session]: while an incident is open every one of
    its events goes to its one session. [DispatchFlow.unbound_incident_is_retried]: one
    whose open failed gets a session at its next event.
    [DispatchSpec.no_append_without_session], [DispatchSpec.outcome_opens_no_session],
    [DispatchSpec.dry_run_makes_no_call]: what the sink is never asked.
    [DispatchFlow.folded_group_resolves_once]: a folded group says once that it is fixed.
    [DispatchRows.one_row_per_signal]: the store's rows.

    Memory. [DedupFile.snapshot_survives_restart]: what a snapshot writes as JSON, field by
    field, the next process reads as it was; [DedupFile.dedup_cache_bounded],
    [DedupSpec.replay_never_opens], [DedupSpec.sweep_forgets_what_is_over],
    [DedupSpec.eviction_takes_least_valuable], [DedupJoin.join_announced_once].

    Repeats. [Repeat.Schedule.repeat_follows_history]: what each occurrence becomes, as a
    function of the occurrences before it and of what was told of them;
    [Repeat.reminder_budget] bounds what is told; [Repeat.pending_change_never_swallowed].

    Recovery. [Recovery.tick_refines_lifecycle]: the tracker refines a four-state
    lifecycle; [Recovery.resolved_means_stable], [Recovery.clear_incident_resolves],
    [Recovery.reverted_within_window]: what a resolution means, that it comes, and what
    takes it back.

    Storms. [StormSpec.storm_books_balance]: the correlator's books in every reachable
    state; [StormSpec.storm_forms_over_shared_key];
    [StormSpec.storm_resolves_with_last_member].

    The wire. [WireFit.fit_delivers_with_identity]: a fitted payload is under the sink's
    ceiling or has nothing left to shed, and keeps its identity.
    [Watchboard.digests_in_order]: a session's digests are complete and in order.

    The graph. [GraphIncremental.incremental_is_rebuild]: after any history of deltas
    the edges are those derived from the objects that exist.
    [GraphIncremental.snapshot_well_formed]: the invariant of the snapshots a writer that
    logs publishes, and that compacting one without a dangling edge keeps it and the graph.
    [GraphReplaySpec.replay_reconstructs_live]: a snapshot with the logged effects
    replayed is the live graph. [GraphHistory.snapshot_file_round_trip]: the file restores
    the snapshot. [GraphQuery.radius_exact], [GraphQuery.common_ancestors_exact],
    [GraphQuery.pods_under_total_exact]: the queries answer exactly what a distance, an
    ancestor or an ownership is.

    Placement drift. [DriftVerify.drift_counts_are_census]: after any history of pod and node
    events the counters are those of a count from scratch, and
    [DriftVerify.verifier_finds_no_drift]. [LeewayApportion.apportionment_is_exact]: shares
    computed in floating point sum to what was shared. [DriftScore.declared_skew_decides],
    [DriftScore.even_spread_is_no_drift]: when a placement is a breach and when it never is.
    [DriftPolicy.governing_policy], [DriftInfer.own_constraint_is_enforced]: which intent
    governs. [LeewayAlert.alert_machine_is_hysteresis],
    [DriftAlerts.episodes_follow_their_verdicts], [DriftAlertStore.rows_mirror_episodes]: the
    alert machine refines its hysteresis, through the pass, from the records a process read
    at its start, and in the rows it leaves for the next one.
    [DriftCoalesce.queue_takes_what_is_due]: nothing due is left out or put off without
    limit.

    Batch workloads. [CronSched.missed_since_counts]: the walk counts the activations of a
    stretch of time. [WorkloadSpec.sweep_reports_missed_runs]: a sweep reports exactly the
    runs that are overdue; [WorkloadSpec.misses_are_called_once]: none twice, and when a row
    of them is critical; [WorkloadSpec.recovery_follows_the_miss]: what a recovery means;
    [WorkloadSpec.job_failure_signalled_once].

    The executor. [AxSinkSpec.reminders_are_accounted_for],
    [AxSinkSpec.real_payload_follows_reminders], [AxSinkSpec.reminder_never_wakes],
    [AxSinkSpec.open_reports_what_happened], [AxDispatch.dispatcher_over_executor].

    Reports. [EmitWriter.findings_are_accounted_for]: every finding offered is written or
    counted as what became of it. [Report.report_round_trip]: what a command writes in logfmt
    is what the differ reads. [Exempt.most_specific_live_exemption]: which exemption
    annotates, and that no expired one does. [PosturePolicy.policy_decision_is_layered]: the
    policy's precedence. [FindingsRuns.runs_report_what_changed]: each run of the diff tells
    each subject once, against what was last told.

    Where the code does not do what it means to, a theorem about a concrete run says so
    (for example [GraphHistory.Saved.dangling_snapshot_unreadable],
    [DedupJoin.downgraded_sibling_never_lapses],
    [DispatchFlow.late_pull_member_opens_own_session],
    [DriftDefaults.Fleet.declared_default_bound_lost],
    [Report.Piped.trailing_space_rune_is_lost],
    [GraphIncremental.Shop.compaction_merges_dangling_ends],
    [DriftClearance.Asked.restored_finding_reads_as_recovered],
    [DedupFile.Restart.null_entry_is_restored]).

    ** Bounds and fuel

    Durations saturate at 64 bits as Go's do (GoTime); ids are 32-bit and lengths are
    checked where the code checks them; counters that grow by one per event are
    unbounded. Loops that are not structural run on fuel that is shown sufficient: the
    binary searches on the length of what they search ([WireFit], [GoSort]), the interval
    doubling on the step number, the graph walks on the number of nodes (a node is
    expanded once: [GraphQuery.pods_under_total_exact] and the walks' exactness have no
    hypothesis on fuel), varints on the ten bytes of 64 bits, the readers of logfmt and of
    quoted strings on the length of the text, the scanner of JSON on that and on the depth
    the package allows (GoJson). The walk over activations is the code's own cap
    of ten thousand; its exactness is stated for a stretch of the five years the cron library
    searches. The scoring theorems are stated for up to 2^31 objects, 2^16 domains and
    weights between 2^-400 and 2^400, in which the floating point sums are bounded; the
    alert theorems for a dwell of a third of an int64 at most. The rows mirror the episodes
    under a clock that does not go back, each from a restart that reads the table until a
    write it was due fails, and again from the next that succeeds.

    ** What is a parameter

    encoding/json of the payloads ([Wire.JSON], sizes only), strconv's text of a float64
    ([GoJson.FloatText], which is read back as it was), the masking of pkg/emit ([Payloads.Masking]),
    the sink ([Wire.Sink]), Unicode case mapping ([Payloads] and GoStrings'
    [UnicodeCase]), label selectors of k8s.io/apimachinery ([GraphChanges.LabelLib]) and
    compress/gzip ([GraphHistory.Gzip], whose one law is that reading gives what was
    written). Label selectors of policies ([DriftPolicy.SelectorLib]); the conversion of an
    out-of-range float64 ([GoFloatMath.FloatToInt]); the cron library ([CronSched.CronLib], with
    [later] the documented behaviour of every schedule's Next and [finds_first] that of a
    schedule with fixed activations, asked only of the CronJob a theorem is about); the executor's
    API, its clock included, as arbitrary functions of the calls made before
    ([AxSink.Executor]); the decoders of YAML and JSON ([Exempt.ExemptionFile],
    [PosturePolicy.PolicyFile], [Report.JsonObject]); the output of a command
    ([EmitWriter.Output]); path.Match ([PosturePolicy.Glob]); the tables of package unicode
    ([GoQuote.UnicodePrint], [EmitWriter.UnicodeUpper]). Nothing else is assumed of them.

    ** What is not modelled, and why

    The other sources, cloud and Kubernetes clients, the SQLite store, the HTTP and gRPC
    clients, the MCP server, telemetry and the command line are I/O or wiring: their answers
    are arguments. The informers and goroutines that call the handlers, and the per-key
    locks that order concurrent dispatches (acquireKey, stormReady), are not modelled: a
    handler is one step. Metrics and log lines are left out: nothing reads them back. The
    enrichers' contents, the one-shot checks of src/pkg/checks but for the findings diff
    and the audit of exemptions, and the redaction of src/pkg/emit/sanitize.go (regular
    expressions; the writer takes its sanitizer as a function) are not modelled, nor are the
    learned baselines and preference ranks of src/pkg/leeway. A writer of the graph that
    does not log compacts at its flushes; the theorems about snapshots are stated for
    writers that log. A restored file with a null entry is a cache with a nil pointer: the
    operations are modelled for caches without one.

    ** What remains

    Writers that compact as they flush; concurrent dispatches as an interleaving of steps; the graph feed (src/internal/watch/graphfeed.go) as the
    storm correlator's topology; the baselines and preference ranks of src/pkg/leeway; the
    other sources, the rollout and object-state ones first. *)
From Stdlib Require Export ZArith Lia.
From coqutil Require Export Datatypes.RecordSettersUsingExistingGetters.
From stdpp Require Export base gmap sets list strings numbers.

Open Scope string_scope.
Open Scope list_scope.
Open Scope Z_scope.

(** A field update reduces to its new value. *)
#[global] Arguments RecordSettersUsingExistingGetters.const {E} newValue / _.
#[global] Arguments String.append !_ _ / : simpl nomatch.

(** ** Notations of the development *)

Declare Scope lookout_scope.
Delimit Scope lookout_scope with lookout.
Open Scope lookout_scope.

(** Go's string equality test, executable and decidable. *)
Notation "s ==s t" := (bool_decide (s =@{string} t)) (at level 70) : lookout_scope.
Notation "s <>s t" := (negb (bool_decide (s =@{string} t))) (at level 70) : lookout_scope.

(** ** Tactics *)

(** Turn every boolean test of the context into the proposition it decides. *)
Ltac btrue :=
  repeat match goal with
  | H : andb _ _ = true |- _ => apply andb_true_iff in H as [? ?]
  | H : orb _ _ = false |- _ => apply orb_false_iff in H as [? ?]
  | H : negb _ = true |- _ => apply negb_true_iff in H
  | H : negb _ = false |- _ => apply negb_false_iff in H
  | H : bool_decide _ = true |- _ => apply bool_decide_eq_true in H
  | H : bool_decide _ = false |- _ => apply bool_decide_eq_false in H
  | H : (_ <? _) = true |- _ => apply Z.ltb_lt in H
  | H : (_ <? _) = false |- _ => apply Z.ltb_ge in H
  | H : (_ <=? _) = true |- _ => apply Z.leb_le in H
  | H : (_ <=? _) = false |- _ => apply Z.leb_gt in H
  | H : (_ =? _) = true |- _ => apply Z.eqb_eq in H
  | H : (_ =? _) = false |- _ => apply Z.eqb_neq in H
  | H : is_Some _ |- _ => let x := fresh "x" in destruct H as [x H]
  end.

(** Split on the next [if] or [match] of the goal (of a hypothesis), keeping the
    equation, and clean the boolean tests it leaves. *)
Ltac case_goal :=
  match goal with
  | |- context [match ?x with _ => _ end] =>
      lazymatch x with
      | context [match _ with _ => _ end] => fail
      | _ => let E := fresh "E" in destruct x eqn:E
      end
  end; btrue; simplify_eq/=.

Ltac case_hyp H :=
  match type of H with
  | context [match ?x with _ => _ end] =>
      lazymatch x with
      | context [match _ with _ => _ end] => fail
      | _ => let E := fresh "E" in destruct x eqn:E
      end
  end; btrue; simplify_eq/=.

(** ** Hint databases *)

Create HintDb lookout.

(** ** Machine integers

    Go's [int], [int64] and [time.Duration] are 64-bit two's-complement. *)

Definition int64_min : Z := - 2 ^ 63.
Definition int64_max : Z := 2 ^ 63 - 1.

Definition in_int64 (z : Z) : Prop := int64_min <= z <= int64_max.

Definition wrap64 (z : Z) : Z := (z + 2 ^ 63) mod 2 ^ 64 - 2 ^ 63.

Lemma wrap64_id z : in_int64 z -> wrap64 z = z.
Proof. unfold in_int64, wrap64, int64_min, int64_max. intros. rewrite Z.mod_small; lia. Qed.

Lemma wrap64_range z : in_int64 (wrap64 z).
Proof.
  unfold in_int64, wrap64, int64_min, int64_max.
  pose proof (Z.mod_pos_bound (z + 2 ^ 63) (2 ^ 64) ltac:(lia)). lia.
Qed.

Lemma pow2_ge1 k : 0 <= k -> 1 <= 2 ^ k.
Proof. intros. pose proof (Z.pow_pos_nonneg 2 k ltac:(lia) ltac:(lia)). lia. Qed.

Lemma NoDup_snoc {A} (l : list A) x : NoDup l -> x ∉ l -> NoDup (l ++ [x]).
Proof.
  intros. apply list.NoDup_app. repeat split; [done| |apply NoDup_singleton].
  intros y Hy ->%list_elem_of_singleton. done.
Qed.

(** *** Boolean filters *)

Lemma elem_of_lfilter {A} (f : A -> bool) (l : list A) x : x ∈ List.filter f l <-> x ∈ l /\ f x = true.
Proof. by rewrite !list_elem_of_In, List.filter_In. Qed.

Lemma filter_both {A} (f g : A -> bool) (l : list A) : List.filter g (List.filter f l) = List.filter (fun x => f x && g x) l.
Proof. induction l as [|x l IH]; [done|]. cbn. destruct (f x); cbn; [destruct (g x)|]; by rewrite IH. Qed.

#[global] Instance lfilter_perm {A} (f : A -> bool) : Proper ((≡ₚ) ==> (≡ₚ)) (List.filter f).
Proof. induction 1 as [|x l l' _ IH|x y l|l1 l2 l3 _ IH1 _ IH2]; cbn; repeat case_match; try (by constructor); by etrans. Qed.

Lemma Forall_lfilter {A} (P : A -> Prop) (f : A -> bool) (l : list A) : Forall P l -> Forall P (List.filter f l).
Proof. rewrite !list.Forall_forall. intros Hl x Hx%elem_of_lfilter. apply Hl, Hx. Qed.

(** ** Go's map iteration

    [for k, v := range m] visits every entry once in an order the runtime picks
    anew for each loop. The order is an argument of the model: an operation that
    ranges over a map is stated for every [RangeOrder], [visit] distinguishing the
    loops of one operation. *)

Class RangeOrder := {
  range : forall {K V : Type} `{Countable K}, nat -> gmap K V -> list (K * V);
  range_perm : forall {K V : Type} `{Countable K} (visit : nat) (m : gmap K V),
    range visit m ≡ₚ map_to_list m
}.

(** The instance the witnesses run: the order of [map_to_list]. *)
Definition plain_range : RangeOrder :=
  {| range := fun K V _ _ _ m => map_to_list m;
     range_perm := fun K V _ _ _ m => Permutation_refl _ |}.

Section range_facts.
Context `{RangeOrder} {K V : Type} `{Countable K}.
Implicit Types m : gmap K V.

Lemma elem_of_range visit m k v : (k, v) ∈ range visit m <-> m !! k = Some v.
Proof. rewrite range_perm. apply elem_of_map_to_list. Qed.

Lemma length_range visit m : length (range visit m) = size m.
Proof. rewrite range_perm. apply length_map_to_list. Qed.

Lemma NoDup_fst_range visit m : NoDup (range visit m).*1.
Proof. rewrite range_perm. apply NoDup_fst_map_to_list. Qed.

Lemma range_nonempty visit m : m <> ∅ -> range visit m <> [].
Proof.
  intros Hm Hr. apply Hm, map_to_list_empty_iff.
  apply Permutation_nil_r. rewrite <- (range_perm visit m), Hr. done.
Qed.
End range_facts.

(** A Go loop that deletes the current entry on a test, as one fold: the loop
    body sees the map as the earlier iterations left it. *)
Fixpoint range_loop {K V S : Type} (body : K -> V -> S -> S) (l : list (K * V)) (s : S) : S :=
  match l with
  | [] => s
  | (k, v) :: l => range_loop body l (body k v s)
  end.

Lemma range_loop_inv {K V S : Type} (body : K -> V -> S -> S) (P : S -> Prop) l s :
  P s -> (forall k v s, (k, v) ∈ l -> P s -> P (body k v s)) -> P (range_loop body l s).
Proof.
  revert s; induction l as [|[k v] l IH]; intros s Hs Hb; simpl; [done|].
  apply IH; [apply Hb; [set_solver|done]|].
  intros; apply Hb; [set_solver|done].
Qed.

(** A loop whose body, at key [k], changes no other key of the map it ranges over:
    every iteration sees its entry as the loop started with it. *)
Lemma range_loop_own {K V S : Type} `{Countable K} (body : K -> V -> S -> S) (get : S -> gmap K V)
    (P : S -> Prop) l s :
  NoDup l.*1 -> (forall k v, (k, v) ∈ l -> get s !! k = Some v) -> P s ->
  (forall k v s, get s !! k = Some v -> P s ->
     P (body k v s) /\ forall k', k' <> k -> get (body k v s) !! k' = get s !! k') ->
  P (range_loop body l s).
Proof.
  revert s; induction l as [|[k v] l IH]; intros s Hnd Hl Hs Hb; simpl; [done|].
  apply list.NoDup_cons in Hnd as [Hk Hnd].
  destruct (Hb k v s (Hl k v ltac:(set_solver)) Hs) as [Hp Ho].
  apply IH; [done| |done|done].
  intros k' v' Hin. rewrite Ho; [apply Hl; set_solver|].
  intros ->. apply Hk. apply list_elem_of_fmap. by exists (k, v').
Qed.

(** *** Victim scans

    The eviction loops keep the best candidate seen so far: the lowest tier, the
    oldest timestamp within a tier, starting from a sentinel tier no entry has. *)
Section scan_min.
Context {A : Type} (tier ts : A -> Z).

Definition scan_step (acc : A * Z * Z) (x : A) : A * Z * Z :=
  let '(v, vtier, vts) := acc in
  if (tier x <? vtier) || ((tier x =? vtier) && (ts x <? vts))
  then (x, tier x, ts x) else acc.

Definition scan_min (init : A * Z * Z) (l : list A) : A * Z * Z :=
  fold_left scan_step l init.

Lemma scan_min_spec l v vt vts :
  let '(v', vt', vts') := scan_min (v, vt, vts) l in
  ((v', vt', vts') = (v, vt, vts) \/ (v' ∈ l /\ vt' = tier v' /\ vts' = ts v')) /\
  (vt' < vt \/ (vt' = vt /\ vts' <= vts)) /\
  (forall x, x ∈ l -> vt' < tier x \/ (vt' = tier x /\ vts' <= ts x)).
Proof.
  revert v vt vts; induction l as [|a l IH]; intros v vt vts; simpl.
  - split; [auto|split; [lia|set_solver]].
  - destruct (_ || _) eqn:E.
    + specialize (IH a (tier a) (ts a)). destruct (scan_min _ _) as [[v' vt'] vts'] eqn:Hs.
      destruct IH as (Ho & Hle & Hmin).
      assert (tier a < vt \/ (tier a = vt /\ ts a < vts))
        by (apply orb_true_iff in E as [|]; btrue; lia).
      split; [|split; [lia|]].
      * right. destruct Ho as [Ho|Ho]; simplify_eq; set_solver.
      * intros x [->|Hx]%elem_of_cons; [lia|by apply Hmin].
    + specialize (IH v vt vts). destruct (scan_min _ _) as [[v' vt'] vts'] eqn:Hs.
      destruct IH as (Ho & Hle & Hmin).
      assert (vt < tier a \/ (vt = tier a /\ vts <= ts a)).
      { apply orb_false_iff in E as [? E]; apply andb_false_iff in E as [|]; btrue; lia. }
      split; [|split; [done|]].
      * destruct Ho; set_solver.
      * intros x [->|Hx]%elem_of_cons; [lia|by apply Hmin].
Qed.

Lemma scan_min_elem l v vt vts :
  l <> [] -> (forall x, x ∈ l -> tier x < vt) ->
  (scan_min (v, vt, vts) l).1.1 ∈ l.
Proof.
  intros Hl Ht. pose proof (scan_min_spec l v vt vts) as H.
  destruct (scan_min _ _) as [[v' vt'] vts']. destruct H as ([|] & Hle & Hmin); simplify_eq/=.
  - destruct l as [|a l]; [done|].
    destruct (Hmin a) as [|]; [set_solver| |]; specialize (Ht a ltac:(set_solver)); lia.
  - tauto.
Qed.
End scan_min.

(** The loops written with a [first] flag: [None] is [first = true]. *)
Section scan_oldest.
Context {A : Type} (ts : A -> Z).

Definition oldest_step (acc : option A) (x : A) : option A :=
  match acc with
  | None => Some x
  | Some v => if ts x <? ts v then Some x else Some v
  end.

Definition scan_oldest (l : list A) : option A := fold_left oldest_step l None.

Lemma fold_oldest_Some l v :
  exists w, fold_left oldest_step l (Some v) = Some w /\ (w = v \/ w ∈ l) /\
    ts w <= ts v /\ forall x, x ∈ l -> ts w <= ts x.
Proof.
  revert v; induction l as [|a l IH]; intros v; simpl.
  - exists v. repeat split; auto; [lia|set_solver].
  - destruct (ts a <? ts v) eqn:E; btrue;
      [destruct (IH a) as (w & -> & Hw & ? & Hm)|destruct (IH v) as (w & -> & Hw & ? & Hm)];
      exists w; repeat split; try lia;
      try (destruct Hw; set_solver);
      intros x [->|Hx]%elem_of_cons; try lia; by apply Hm.
Qed.

Lemma scan_oldest_spec l :
  l <> [] -> exists w, scan_oldest l = Some w /\ w ∈ l /\ forall x, x ∈ l -> ts w <= ts x.
Proof.
  destruct l as [|a l]; [done|]. intros _. unfold scan_oldest. simpl.
  destruct (fold_oldest_Some l a) as (w & -> & Hw & ? & Hm).
  exists w. repeat split; [destruct Hw; set_solver|].
  intros x [->|Hx]%elem_of_cons; [lia|by apply Hm].
Qed.
End scan_oldest.
