(* ===== verification/GoTime.v ===== *)
(** Go's [time] package and its float64 as the engine uses them.

    A [time.Time] is a count of nanoseconds from the zero [Time] (January 1, year
    1), so [IsZero] is the test against 0; the monotonic reading is not modelled.
    A [time.Duration] is a 64-bit count of nanoseconds, and [Time.Sub] saturates
    at its bounds instead of wrapping. *)
From S2P Require Import Prelude.
From Stdlib Require Import SpecFloat.

Notation Time := Z (only parsing).
Notation Duration := Z (only parsing).

Definition zero_time : Time := 0.

Definition Nanosecond : Duration := 1.
Definition Second : Duration := 1000000000.
Definition Minute : Duration := 60 * Second.
Definition Hour : Duration := 60 * Minute.

Definition IsZero (t : Time) : bool := t =? zero_time.
Definition After (t u : Time) : bool := u <? t.
Definition Before (t u : Time) : bool := t <? u.
Definition Add (t : Time) (d : Duration) : Time := t + d.

(** [t.Sub(u)], saturating at the bounds of an int64. *)
Definition Sub (t u : Time) : Duration := Z.max int64_min (Z.min int64_max (t - u)).

Ltac unfold_time :=
  unfold IsZero, After, Before, Add, Sub, zero_time, int64_min, int64_max, in_int64 in *.

(** Below the saturation bound, comparing a difference is comparing the instants. *)
Lemma Sub_le t u d : d < int64_max -> int64_min <= d -> Sub t u <= d <-> t - u <= d.
Proof. unfold_time. lia. Qed.

Lemma Sub_gt t u d : d < int64_max -> int64_min <= d -> d < Sub t u <-> d < t - u.
Proof. unfold_time. lia. Qed.

Lemma Sub_ge t u d : d <= int64_max -> int64_min < d -> d <= Sub t u <-> d <= t - u.
Proof. unfold_time. lia. Qed.

Lemma Sub_mono t t' u : t <= t' -> Sub t u <= Sub t' u.
Proof. unfold_time. lia. Qed.

Lemma Sub_anti t u u' : u <= u' -> Sub t u' <= Sub t u.
Proof. unfold_time. lia. Qed.

Lemma Sub_diag t : Sub t t = 0.
Proof. unfold_time. lia. Qed.

#[export] Hint Resolve Sub_mono Sub_anti : lookout.
#[export] Hint Rewrite Sub_diag : lookout.

(** ** float64

    IEEE 754 binary64, round to nearest even, computed by Rocq's specification floats (no
    primitive floats and no axioms). *)
Notation float64 := spec_float (only parsing).

Definition f64_zero : float64 := S754_zero false.

(** [float64(n)] for an integer [n]. *)
Definition f64_of_Z (z : Z) : float64 := binary_normalize 53 1024 z 0 false.

Definition f64_add (x y : float64) : float64 := SFadd 53 1024 x y.
Definition f64_mul (x y : float64) : float64 := SFmul 53 1024 x y.
Definition f64_div (x y : float64) : float64 := SFdiv 53 1024 x y.

(** Go's [<=] and [<] on float64; false on a NaN. *)
Definition f64_le (x y : float64) : bool := SFleb x y.
Definition f64_lt (x y : float64) : bool := SFltb x y.

(** The constant 0.20 converted to float64: the nearest of the two neighbours. *)
Definition f64_0_20 : float64 := f64_div (f64_of_Z 1) (f64_of_Z 5).

(** [int(math.Ceil(x))] for a finite [x]; Go leaves the conversion of a NaN, an
    infinity or an out-of-range value implementation-specific: no result. *)
Definition int_ceil (x : float64) : option Z :=
  match x with
  | S754_zero _ => Some 0
  | S754_finite s m e =>
      let v := if s then Zneg m else Zpos m in
      let c := if 0 <=? e then v * 2 ^ e else - ((- v) / 2 ^ (- e)) in
      if (int64_min <=? c) && (c <=? int64_max) then Some c else None
  | _ => None
  end.

(** [Duration.Hours]: whole hours plus the remaining nanoseconds over an hour. *)
Definition Hours (d : Duration) : float64 :=
  f64_add (f64_of_Z (Z.quot d Hour)) (f64_div (f64_of_Z (Z.rem d Hour)) (f64_of_Z Hour)).

Example Hours_90m : Hours (90 * Minute) = f64_div (f64_of_Z 3) (f64_of_Z 2).
Proof. reflexivity. Qed.

Example int_ceil_ex :
  int_ceil (f64_mul (f64_of_Z 31) f64_0_20) = Some 7 /\
  int_ceil (f64_mul (f64_of_Z 30) f64_0_20) = Some 6.
Proof. vm_compute. done. Qed.
