(* ===== verification/GoStrings.v ===== *)
(** Go's [strings] package as the engine uses it.

    A Go string is a sequence of bytes; the model is Stdlib's [string], whose
    [ascii] is a byte. An index result [(i, ok)] that the source only uses to
    slice is modelled by the slices themselves. *)
From S2P Require Import Prelude.
From Stdlib Require OrderedTypeEx.
From Stdlib Require Import Ascii.

Definition byte_of (n : nat) : ascii := Ascii.ascii_of_nat n.

Fixpoint string_rev_append (s acc : string) : string :=
  match s with
  | EmptyString => acc
  | String c s => string_rev_append s (String c acc)
  end.
Definition string_rev (s : string) : string := string_rev_append s "".

(** [strings.HasPrefix], with the rest of the string. *)
Fixpoint strip_prefix (p s : string) : option string :=
  match p, s with
  | EmptyString, _ => Some s
  | String a p, String b s => if Ascii.eqb a b then strip_prefix p s else None
  | String _ _, EmptyString => None
  end.

Definition HasPrefix (s p : string) : bool :=
  match strip_prefix p s with Some _ => true | None => false end.

Definition HasSuffix (s p : string) : bool := HasPrefix (string_rev s) (string_rev p).

Definition TrimPrefix (s p : string) : string :=
  match strip_prefix p s with Some r => r | None => s end.

(** [strings.Index], as the text before and after the first occurrence. *)
Fixpoint cut_string (sub s : string) : option (string * string) :=
  match strip_prefix sub s with
  | Some r => Some (EmptyString, r)
  | None =>
      match s with
      | EmptyString => None
      | String c s => match cut_string sub s with
                      | Some (a, b) => Some (String c a, b)
                      | None => None
                      end
      end
  end.

Definition Contains (s sub : string) : bool :=
  match cut_string sub s with Some _ => true | None => false end.

(** [strings.IndexByte], as the text before and after the first occurrence. *)
Fixpoint cut_byte (c : ascii) (s : string) : option (string * string) :=
  match s with
  | EmptyString => None
  | String d s => if Ascii.eqb c d then Some (EmptyString, s)
                  else match cut_byte c s with
                       | Some (a, b) => Some (String d a, b)
                       | None => None
                       end
  end.

(** [strings.LastIndexByte], as the text before and after the last occurrence. *)
Fixpoint cut_last_byte (c : ascii) (s : string) : option (string * string) :=
  match s with
  | EmptyString => None
  | String d s => match cut_last_byte c s with
                  | Some (a, b) => Some (String d a, b)
                  | None => if Ascii.eqb c d then Some (EmptyString, s) else None
                  end
  end.

Fixpoint contains_byte (c : ascii) (s : string) : bool :=
  match s with
  | EmptyString => false
  | String d s => Ascii.eqb c d || contains_byte c s
  end.

(** [strings.ContainsAny] for a set of ASCII bytes. *)
Fixpoint ContainsAny (s chars : string) : bool :=
  match chars with
  | EmptyString => false
  | String c chars => contains_byte c s || ContainsAny s chars
  end.

(** [strings.ReplaceAll] with a non-empty [old]: left to right, no overlap;
    [skip] counts the bytes of the occurrence just replaced. *)
Fixpoint replace_from (old new : string) (skip : nat) (s : string) : string :=
  match s with
  | EmptyString => EmptyString
  | String c s' =>
      match skip with
      | S skip => replace_from old new skip s'
      | O => if HasPrefix s old
             then new +:+ replace_from old new (String.length old - 1) s'
             else String c (replace_from old new 0 s')
      end
  end.
Definition ReplaceAll (s old new : string) : string := replace_from old new 0 s.

(** A [strings.Replacer] whose old strings are single bytes. *)
Fixpoint replace_bytes (f : ascii -> string) (s : string) : string :=
  match s with
  | EmptyString => EmptyString
  | String c s => f c +:+ replace_bytes f s
  end.

Fixpoint map_bytes (f : ascii -> ascii) (s : string) : string :=
  match s with
  | EmptyString => EmptyString
  | String c s => String (f c) (map_bytes f s)
  end.

Fixpoint forall_bytes (p : ascii -> bool) (s : string) : bool :=
  match s with
  | EmptyString => true
  | String c s => p c && forall_bytes p s
  end.

(** [strings.ToLower]: the ASCII fast path is written out; a string with a byte
    at or above 0x80 goes through the Unicode case tables, which are an argument. *)
Class UnicodeCase := unicode_lower : string -> string.

Definition is_ascii (c : ascii) : bool := Nat.ltb (Ascii.nat_of_ascii c) 128.

Definition ascii_lower (c : ascii) : ascii :=
  let n := Ascii.nat_of_ascii c in
  if (Nat.leb 65 n && Nat.leb n 90)%bool then byte_of (n + 32) else c.

Definition ToLower `{UnicodeCase} (s : string) : string :=
  if forall_bytes is_ascii s then map_bytes ascii_lower s else unicode_lower s.

(** [strings.TrimSpace]: the bytes of every rune with the Unicode White_Space
    property, in UTF-8. *)
Definition string_of_bytes (l : list nat) : string :=
  foldr (fun n s => String (byte_of n) s) "" l.

Definition spaces : list string :=
  map string_of_bytes
    ([[9]; [10]; [11]; [12]; [13]; [32]; [194; 133]; [194; 160]; [225; 154; 128];
      [226; 128; 128]; [226; 128; 129]; [226; 128; 130]; [226; 128; 131];
      [226; 128; 132]; [226; 128; 133]; [226; 128; 134]; [226; 128; 135];
      [226; 128; 136]; [226; 128; 137]; [226; 128; 138]; [226; 128; 168];
      [226; 128; 169]; [226; 128; 175]; [226; 129; 159]; [227; 128; 128]]%nat).

Fixpoint strip_any (ps : list string) (s : string) : option string :=
  match ps with
  | [] => None
  | p :: ps => match strip_prefix p s with
               | Some r => Some r
               | None => strip_any ps s
               end
  end.

Fixpoint trim_left (ps : list string) (fuel : nat) (s : string) : string :=
  match fuel with
  | O => s
  | S fuel => match strip_any ps s with
              | Some r => trim_left ps fuel r
              | None => s
              end
  end.

Definition TrimSpace (s : string) : string :=
  let l := trim_left spaces (String.length s) s in
  string_rev (trim_left (map string_rev spaces) (String.length l) (string_rev l)).

(** [strings.Split] on a one-byte separator, and [strings.Cut]. *)
Fixpoint SplitByte (c : ascii) (s : string) : list string :=
  match s with
  | EmptyString => [""]
  | String d s => if Ascii.eqb c d then "" :: SplitByte c s
                  else match SplitByte c s with
                       | [] => [String d ""]
                       | x :: xs => String d x :: xs
                       end
  end.

Definition CutByte (c : ascii) (s : string) : string * string * bool :=
  match cut_byte c s with
  | Some (a, b) => (a, b, true)
  | None => (s, "", false)
  end.

(** ** Facts *)

Lemma strip_prefix_Some p s r : strip_prefix p s = Some r <-> s = p +:+ r.
Proof.
  revert s; induction p as [|a p IH]; intros s; cbn; [split; congruence|].
  destruct s as [|b s]; [split; congruence|].
  destruct (Ascii.eqb_spec a b) as [->|Hne].
  - rewrite IH. split; congruence.
  - split; congruence.
Qed.

Lemma strip_prefix_app p r : strip_prefix p (p +:+ r) = Some r.
Proof. by apply strip_prefix_Some. Qed.

Lemma HasPrefix_spec s p : HasPrefix s p = true <-> exists r, s = p +:+ r.
Proof.
  unfold HasPrefix. destruct (strip_prefix p s) eqn:E.
  - apply strip_prefix_Some in E. naive_solver.
  - split; [done|]. intros [r ->]. by rewrite strip_prefix_app in E.
Qed.

Lemma cut_string_Some sub s a b : cut_string sub s = Some (a, b) -> s = a +:+ sub +:+ b.
Proof.
  revert a b; induction s as [|c s IH]; intros a b; cbn [cut_string];
    destruct (strip_prefix sub _) eqn:E; intros Hc.
  1, 3: apply strip_prefix_Some in E; by simplify_eq.
  - done.
  - destruct (cut_string sub s) as [[a' b']|] eqn:E'; [|done]. simplify_eq.
    cbn. f_equal. by apply IH.
Qed.

Lemma cut_string_None sub s : cut_string sub s = None -> forall a b, s <> a +:+ sub +:+ b.
Proof.
  induction s as [|c s IH]; cbn [cut_string]; destruct (strip_prefix sub _) eqn:E; intros Hc a b Heq;
    try done.
  - destruct a as [|? a]; [|done]. cbn in Heq. rewrite Heq, strip_prefix_app in E. done.
  - destruct (cut_string sub s) as [[a' b']|] eqn:E'; [done|].
    destruct a as [|? a]; cbn in Heq.
    + rewrite Heq, strip_prefix_app in E. done.
    + simplify_eq. by eapply (IH eq_refl).
Qed.

(** [Contains] decides the substring relation. *)
Lemma Contains_spec s sub : Contains s sub = true <-> exists a b, s = a +:+ sub +:+ b.
Proof.
  unfold Contains. destruct (cut_string sub s) as [[a b]|] eqn:E.
  - apply cut_string_Some in E. naive_solver.
  - split; [done|]. intros (a & b & Hab). by destruct (cut_string_None _ _ E a b).
Qed.

Lemma cut_byte_Some c s a b :
  cut_byte c s = Some (a, b) <-> s = a +:+ String c b /\ contains_byte c a = false.
Proof.
  revert a b; induction s as [|d s IH]; intros a b; cbn [cut_byte].
  - split; [done|]. intros [H _]. by destruct a.
  - destruct (Ascii.eqb_spec c d) as [->|Hne].
    + split; intros H; [by simplify_eq|]. destruct H as [H Hc].
      destruct a as [|e a]; cbn in H; simplify_eq; [done|].
      cbn in Hc. by rewrite Ascii.eqb_refl in Hc.
    + split; intros H.
      * destruct (cut_byte c s) as [[a' b']|] eqn:E; [|done]. simplify_eq.
        destruct (proj1 (IH _ _) eq_refl) as [-> Hc]. split; [done|]. cbn.
        destruct (Ascii.eqb_spec c d); [congruence|done].
      * destruct H as [H Hc]. destruct a as [|e a]; cbn in H; simplify_eq.
        cbn in Hc. apply orb_false_iff in Hc as [_ Hc].
        destruct (IH a b) as [_ IH']. rewrite IH' by done. done.
Qed.

Lemma cut_byte_None c s : cut_byte c s = None <-> contains_byte c s = false.
Proof.
  induction s as [|d s IH]; cbn; [done|].
  destruct (Ascii.eqb_spec c d); cbn; [done|].
  rewrite <- IH. destruct (cut_byte c s) as [[]|]; split; congruence.
Qed.

Lemma contains_byte_app c a b : contains_byte c (a +:+ b) = contains_byte c a || contains_byte c b.
Proof. induction a as [|d a IH]; cbn; [done|]. rewrite IH. by rewrite orb_assoc. Qed.

Lemma app_assoc_string (a b c : string) : (a +:+ b) +:+ c = a +:+ b +:+ c.
Proof. induction a; cbn; congruence. Qed.

Lemma length_string_app (a b : string) : String.length (a +:+ b) = (String.length a + String.length b)%nat.
Proof. induction a; cbn; congruence. Qed.

Lemma string_app_nil_r (a : string) : a +:+ "" = a.
Proof. induction a; cbn; congruence. Qed.

Lemma string_rev_append_app s acc : string_rev_append s acc = string_rev s +:+ acc.
Proof.
  unfold string_rev. revert acc; induction s as [|c s IH]; intros acc; cbn; [done|].
  rewrite IH, (IH (String c "")), app_assoc_string. done.
Qed.

Lemma string_rev_cons c s : string_rev (String c s) = string_rev s +:+ String c "".
Proof. unfold string_rev at 1. cbn. apply string_rev_append_app. Qed.

Lemma string_rev_app a b : string_rev (a +:+ b) = string_rev b +:+ string_rev a.
Proof.
  induction a as [|c a IH]; cbn [String.append]; [by rewrite string_app_nil_r|].
  by rewrite !string_rev_cons, IH, app_assoc_string.
Qed.

Lemma string_rev_involutive s : string_rev (string_rev s) = s.
Proof.
  induction s as [|c s IH]; [done|]. rewrite string_rev_cons, string_rev_app, IH. done.
Qed.

(** ** Splitting what was joined *)

Lemma SplitByte_one c s : contains_byte c s = false -> SplitByte c s = [s].
Proof.
  induction s as [|d s IH]; [done|]. cbn [contains_byte SplitByte]. intros [Hd Hs]%orb_false_elim. by rewrite Hd, (IH Hs).
Qed.

Lemma SplitByte_app c a b : contains_byte c a = false -> SplitByte c (a +:+ String c b) = a :: SplitByte c b.
Proof.
  induction a as [|d a IH]; [intros _; cbn; by rewrite Ascii.eqb_refl|]. cbn [contains_byte]. intros [Hd Ha]%orb_false_elim.
  change (String d a +:+ String c b) with (String d (a +:+ String c b)). cbn [SplitByte]. by rewrite Hd, (IH Ha).
Qed.

Lemma SplitByte_concat c l : l <> [] -> Forall (fun s => contains_byte c s = false) l ->
  SplitByte c (String.concat (String c "") l) = l.
Proof.
  induction l as [|a l IH]; [done|]. intros _ Hl. inversion_clear Hl as [|? ? Ha Hl']. destruct l as [|b l]; [by apply SplitByte_one|].
  change (String.concat (String c "") (a :: b :: l)) with (a +:+ String c (String.concat (String c "") (b :: l))).
  rewrite SplitByte_app by done. f_equal. by apply IH.
Qed.

Lemma SplitByte_nonempty c s : SplitByte c s <> [].
Proof. destruct s; cbn; [done|]. destruct (Ascii.eqb c a); [done|]. by destruct (SplitByte c s). Qed.

Lemma concat_SplitByte c s : String.concat (String c "") (SplitByte c s) = s.
Proof.
  induction s as [|d s IH]; [done|]. cbn [SplitByte]. destruct (Ascii.eqb c d) eqn:E.
  - apply Ascii.eqb_eq in E as ->. pose proof (SplitByte_nonempty d s). destruct (SplitByte d s); [done|]. cbn in IH |- *. by rewrite IH.
  - destruct (SplitByte c s) as [|x xs]; cbn in IH; [by subst|]. destruct xs; cbn; by rewrite <- IH.
Qed.

(** ** The byte-wise order of strings *)

Lemma ltb_lt (a b : string) : String.ltb a b = true <-> OrderedTypeEx.String_as_OT.lt a b.
Proof.
  rewrite <- OrderedTypeEx.String_as_OT.cmp_lt. unfold String.ltb, OrderedTypeEx.String_as_OT.cmp.
  by destruct (String.compare a b).
Qed.

Lemma ltb_trans (a b d : string) :
  String.ltb a b = true -> String.ltb b d = true -> String.ltb a d = true.
Proof. rewrite !ltb_lt. apply OrderedTypeEx.String_as_OT.lt_trans. Qed.

Lemma ltb_total (a b : string) : String.ltb a b = false -> String.ltb b a = false -> a = b.
Proof.
  unfold String.ltb. rewrite (String.compare_antisym b a).
  destruct (String.compare a b) eqn:E; simpl; try done. intros. by apply String.compare_eq_iff.
Qed.

Definition string_le (a b : string) : Prop := String.ltb b a = false.

#[global] Instance string_le_dec a b : Decision (string_le a b).
Proof. unfold string_le. apply _. Defined.

#[global] Instance string_le_trans : Transitive string_le.
Proof.
  intros a b c Hab Hbc. unfold string_le in *. destruct (String.ltb c a) eqn:E; [|done]. exfalso.
  destruct (String.ltb a b) eqn:E'; [|pose proof (ltb_total _ _ E' Hab); congruence]. pose proof (ltb_trans _ _ _ E E'). congruence.
Qed.

#[global] Instance string_le_total : Total string_le.
Proof.
  intros a b. unfold string_le. destruct (String.ltb b a) eqn:E; [|by left]. right. destruct (String.ltb a b) eqn:E'; [|done].
  pose proof (ltb_trans _ _ _ E E') as H. apply ltb_lt in H. by apply OrderedTypeEx.String_as_OT.lt_not_eq in H.
Qed.

#[global] Instance string_le_antisym : AntiSymm (=) string_le.
Proof. intros a b Hab Hba. by apply ltb_total. Qed.
