(* ===== verification/GoHash.v ===== *)
(** The hashes of Go's standard library the engine uses: [hash/fnv] New64a with
    [strconv.FormatUint] base 16, and [crypto/sha256] with [encoding/hex]. *)
From S2P Require Import Prelude GoStrings.
From Stdlib Require Import Ascii.

Definition bytes_of (s : string) : list Z :=
  map (fun c => Z.of_nat (Ascii.nat_of_ascii c)) (String.list_ascii_of_string s).

Definition hex_digit (n : Z) : ascii :=
  byte_of (Z.to_nat (if n <? 10 then 48 + n else 87 + n)).

(** ** FNV-1a, 64 bits *)

Definition fnv64a_offset : Z := 14695981039346656037.
Definition fnv64a_prime : Z := 1099511628211.

Definition fnv64a (bs : list Z) : Z :=
  fold_left (fun h b => (Z.lxor h b * fnv64a_prime) mod 2 ^ 64) bs fnv64a_offset.

(** [strconv.FormatUint(z, 16)]; 16 digits are enough for a uint64. *)
Fixpoint format_hex_fuel (fuel : nat) (z : Z) (acc : string) : string :=
  match fuel with
  | O => acc
  | S fuel =>
      let acc := String (hex_digit (z mod 16)) acc in
      if z <? 16 then acc else format_hex_fuel fuel (z / 16) acc
  end.
Definition FormatUint16 (z : Z) : string := format_hex_fuel 16 z "".

Example fnv64a_empty : FormatUint16 (fnv64a []) = "cbf29ce484222325".
Proof. vm_compute. done. Qed.
Example fnv64a_a : FormatUint16 (fnv64a (bytes_of "a")) = "af63dc4c8601ec8c".
Proof. vm_compute. done. Qed.

(** ** SHA-256 (FIPS 180-4) *)

Module SHA256.

Definition w32 (z : Z) : Z := z mod 2 ^ 32.
Definition rotr (x n : Z) : Z := Z.lor (Z.shiftr x n) (w32 (Z.shiftl x (32 - n))).
Definition Ch (x y z : Z) : Z := Z.lxor (Z.land x y) (Z.land (2 ^ 32 - 1 - x) z).
Definition Maj (x y z : Z) : Z := Z.lxor (Z.lxor (Z.land x y) (Z.land x z)) (Z.land y z).
Definition Sigma0 (x : Z) : Z := Z.lxor (Z.lxor (rotr x 2) (rotr x 13)) (rotr x 22).
Definition Sigma1 (x : Z) : Z := Z.lxor (Z.lxor (rotr x 6) (rotr x 11)) (rotr x 25).
Definition sigma0 (x : Z) : Z := Z.lxor (Z.lxor (rotr x 7) (rotr x 18)) (Z.shiftr x 3).
Definition sigma1 (x : Z) : Z := Z.lxor (Z.lxor (rotr x 17) (rotr x 19)) (Z.shiftr x 10).

(** FIPS 180-4 takes its constants from the primes: the first 32 bits of the
    fractional parts of their cube roots (round constants) and of the square roots
    of the first eight (initial hash value). *)
Definition prime (n : Z) : bool :=
  forallb (fun d => negb (n mod Z.of_nat d =? 0)) (seq 2 (Z.to_nat (n - 2))).

Definition primes_below (n : nat) : list Z := filter (fun z => prime z = true) (Z.of_nat <$> seq 2 (n - 2)).

(** The integer cube root, one bit per step from bit [n] down. *)
Fixpoint cbrt_bits (n : nat) (acc x : Z) : Z :=
  match n with
  | O => acc
  | S n =>
      let acc' := acc + 2 ^ Z.of_nat n in
      cbrt_bits n (if acc' * acc' * acc' <=? x then acc' else acc) x
  end.

Definition K : list Z :=
  Eval vm_compute in (fun p => w32 (cbrt_bits 36 0 (p * 2 ^ 96))) <$> primes_below 312.

Definition H0 : list Z :=
  Eval vm_compute in (fun p => w32 (Z.sqrt (p * 2 ^ 64))) <$> primes_below 20.

(** Big-endian bytes of [z], [n] of them. *)
Fixpoint be_bytes (n : nat) (z : Z) : list Z :=
  match n with
  | O => []
  | S n => (z / 2 ^ (8 * Z.of_nat n)) mod 256 :: be_bytes n z
  end.

Definition pad (bs : list Z) : list Z :=
  let len := Z.of_nat (length bs) in
  bs ++ [128] ++ repeat 0 (Z.to_nat ((55 - len) mod 64)) ++ be_bytes 8 (8 * len).

Fixpoint words (bs : list Z) : list Z :=
  match bs with
  | a :: b :: c :: d :: bs => a * 2 ^ 24 + b * 2 ^ 16 + c * 2 ^ 8 + d :: words bs
  | _ => []
  end.

(** The message schedule, newest word first. *)
Fixpoint schedule (fuel : nat) (w : list Z) : list Z :=
  match fuel with
  | O => w
  | S fuel =>
      let s1 := sigma1 (nth 1 w 0) in
      let s0 := sigma0 (nth 14 w 0) in
      schedule fuel (w32 (s1 + nth 6 w 0 + s0 + nth 15 w 0) :: w)
  end.

Definition round (st : list Z) (kw : Z * Z) : list Z :=
  match st with
  | [a; b; c; d; e; f; g; h] =>
      let t1 := h + Sigma1 e + Ch e f g + kw.1 + kw.2 in
      let t2 := Sigma0 a + Maj a b c in
      [w32 (t1 + t2); a; b; c; w32 (d + t1); e; f; g]
  | _ => st
  end.

Definition compress (h block : list Z) : list Z :=
  let w := rev (schedule 48 (rev block)) in
  map (fun p => w32 (p.1 + p.2)) (combine h (fold_left round (combine K w) h)).

Fixpoint blocks (fuel : nat) (ws h : list Z) : list Z :=
  match fuel, ws with
  | S fuel, _ :: _ => blocks fuel (drop 16 ws) (compress h (take 16 ws))
  | _, _ => h
  end.

Definition sum (bs : list Z) : list Z :=
  let ws := words (pad bs) in
  concat (map (be_bytes 4) (blocks (length ws) ws H0)).

End SHA256.

Definition hex_encode (bs : list Z) : string :=
  foldr (fun b s => String (hex_digit (b / 16)) (String (hex_digit (b mod 16)) s)) "" bs.

Example sha256_abc :
  hex_encode (SHA256.sum (bytes_of "abc")) =
  "ba7816bf8f01cfea414140de5dae2223b00361a396177a9cb410ff61f20015ad".
Proof. vm_compute. done. Qed.
