(* ===== verification/GoFmt.v ===== *)
(** What the dispatcher uses of Go's formatting: [%d] of [fmt], the runes of a
    string, and [time.Duration.String]. *)
From stdpp Require Import pretty.
From S2P Require Import Prelude GoTime GoStrings.
From Stdlib Require Import Ascii.

(** [%d] *)
Definition itoa (n : Z) : string := pretty n.

(** [strconv.ParseInt(s, 10, 64)]: a sign, then at least one digit, in range. *)
Fixpoint parse_digits (s : string) (acc : Z) : option Z :=
  match s with
  | EmptyString => Some acc
  | String c s =>
      let n := Z.of_nat (Ascii.nat_of_ascii c) - 48 in
      if (0 <=? n) && (n <=? 9) then parse_digits s (acc * 10 + n) else None
  end.

Definition ParseInt (s : string) : option Z :=
  let '(sign, digits) :=
    match s with
    | String c rest => if Ascii.eqb c "-" then (-1, rest) else if Ascii.eqb c "+" then (1, rest) else (1, s)
    | EmptyString => (1, "")
    end in
  if digits ==s "" then None
  else match parse_digits digits 0 with
       | Some n => let z := sign * n in if (int64_min <=? z) && (z <=? int64_max) then Some z else None
       | None => None
       end.

(** What [%d] writes is read back. *)
Definition is_digit (c : ascii) : bool := let n := Ascii.nat_of_ascii c in Nat.leb 48 n && Nat.leb n 57.

Lemma pretty_N_char_digit (x : N) : (x < 10)%N ->
  Z.of_nat (Ascii.nat_of_ascii (pretty_N_char x)) - 48 = Z.of_N x /\ is_digit (pretty_N_char x) = true.
Proof.
  intros Hx. assert (x = 0 \/ x = 1 \/ x = 2 \/ x = 3 \/ x = 4 \/ x = 5 \/ x = 6 \/ x = 7 \/ x = 8 \/ x = 9)%N as Hin by lia.
  destruct_or?; subst; done.
Qed.

Lemma parse_digits_pretty (x : N) (s : string) : parse_digits (pretty_N_go x s) 0 = parse_digits s (Z.of_N x).
Proof.
  revert s. induction (N.lt_wf_0 x) as [x _ IH]. intros s. destruct (decide (x = 0)%N) as [->|Hx]; [done|].
  rewrite pretty_N_go_step by lia. rewrite IH by (apply N.div_lt; lia). cbn [parse_digits].
  destruct (pretty_N_char_digit (x mod 10)) as [-> _]; [apply N.mod_lt; lia|].
  assert (x mod 10 < 10)%N as H by (apply N.mod_lt; lia). pose proof (N.div_mod x 10) as Hdm.
  revert Hdm H. generalize (x / 10)%N (x mod 10)%N. intros q d Hdm Hd.
  rewrite (proj2 (Z.leb_le 0 _)), (proj2 (Z.leb_le _ 9)) by lia. cbn [andb]. f_equal. lia.
Qed.

Lemma pretty_digits (x : N) (s : string) : forall_bytes is_digit s = true -> forall_bytes is_digit (pretty_N_go x s) = true.
Proof.
  revert s. induction (N.lt_wf_0 x) as [x _ IH]. intros s Hs. destruct (decide (x = 0)%N) as [->|Hx]; [done|].
  rewrite pretty_N_go_step by lia. apply IH; [apply N.div_lt; lia|]. cbn.
  destruct (pretty_N_char_digit (x mod 10)) as [_ ->]; [apply N.mod_lt; lia|done].
Qed.

Lemma itoa_digits n : 0 <= n -> forall_bytes is_digit (itoa n) = true /\ parse_digits (itoa n) 0 = Some n.
Proof.
  intros Hn. destruct n as [|p|p]; [done| |lia]. change (itoa (Z.pos p)) with (pretty_N_go (N.pos p) "").
  split; [by apply pretty_digits|]. by rewrite parse_digits_pretty.
Qed.

Lemma ParseInt_itoa n : 0 <= n <= int64_max -> ParseInt (itoa n) = Some n.
Proof.
  intros Hn. destruct (itoa_digits n) as [Hd Hp]; [lia|]. unfold ParseInt.
  destruct (itoa n) as [|c r] eqn:E; [by injection Hp as <-|].
  cbn in Hd. apply andb_prop in Hd as [Hc _].
  destruct (Ascii.eqb c "-") eqn:E1; [apply Ascii.eqb_eq in E1 as ->; done|].
  destruct (Ascii.eqb c "+") eqn:E2; [apply Ascii.eqb_eq in E2 as ->; done|].
  rewrite bool_decide_eq_false_2 by done. rewrite Hp, Z.mul_1_l. unfold int64_min, int64_max in *.
  destruct ((_ <=? n) && (n <=? _)) eqn:Er; [done|lia].
Qed.

(** ** Runes

    [[]rune(s)] decodes UTF-8 and [string(r)] encodes it again: every maximal valid
    encoding is one rune, every other byte is the rune U+FFFD. A rune is kept as the
    bytes it is encoded by. *)
Definition rune_error : string := string_of_bytes [239%nat; 191%nat; 189%nat].

Definition byte_in (lo hi : nat) (c : ascii) : bool :=
  let n := Ascii.nat_of_ascii c in Nat.leb lo n && Nat.leb n hi.

(** How many continuation bytes the lead byte announces, and the range of the
    first of them (which excludes overlong forms and surrogates). *)
Definition rune_lead (c : ascii) : option (nat * nat * nat) :=
  let n := Ascii.nat_of_ascii c in
  if Nat.ltb n 128 then Some (0, 0, 0)%nat
  else if byte_in 194 223 c then Some (1, 128, 191)%nat
  else if Nat.eqb n 224 then Some (2, 160, 191)%nat
  else if Nat.eqb n 237 then Some (2, 128, 159)%nat
  else if byte_in 225 239 c then Some (2, 128, 191)%nat
  else if Nat.eqb n 240 then Some (3, 144, 191)%nat
  else if byte_in 241 243 c then Some (3, 128, 191)%nat
  else if Nat.eqb n 244 then Some (3, 128, 143)%nat
  else None.

(** Take [n] continuation bytes, the first in [lo..hi]. *)
Fixpoint take_cont (n lo hi : nat) (s : string) : option string :=
  match n, s with
  | O, _ => Some ""
  | S n, String c s =>
      if byte_in lo hi c then String c <$> take_cont n 128 191 s else None
  | S _, EmptyString => None
  end.

(** [skip] bytes of [s] belong to the rune before it. *)
Fixpoint runes_from (skip : nat) (s : string) : list string :=
  match s with
  | EmptyString => []
  | String c s =>
      match skip with
      | S skip => runes_from skip s
      | O =>
          match rune_lead c with
          | Some (n, lo, hi) =>
              match take_cont n lo hi s with
              | Some t => String c t :: runes_from n s
              | None => rune_error :: runes_from 0 s
              end
          | None => rune_error :: runes_from 0 s
          end
      end
  end.

Definition Runes (s : string) : list string := runes_from 0 s.
Definition of_runes (l : list string) : string := foldr String.append "" l.

Example runes_ex : Runes ("a" +:+ "§" +:+ String (byte_of 255) "") = ["a"; "§"; rune_error].
Proof. reflexivity. Qed.

(** ** [time.Duration.String] *)

(** [fmtFrac]: the digits of [v / 10^prec] after the point, written in front of
    [acc], without trailing zeros; the quotient is left over. *)
Fixpoint fmtFrac (prec : nat) (v : Z) (print : bool) (acc : string) : string * Z :=
  match prec with
  | O => (if print then "." +:+ acc else acc, v)
  | S prec =>
      let digit := v mod 10 in
      let print := print || negb (digit =? 0) in
      fmtFrac prec (v / 10) print (if print then itoa digit +:+ acc else acc)
  end.

Definition Microsecond : Duration := 1000.
Definition Millisecond : Duration := 1000000.

Definition Duration_String (d : Duration) : string :=
  let u := Z.abs d in
  let body :=
    if u <? Second then
      if u =? 0 then "0s"
      else
        let '(acc, u) :=
          if u <? Microsecond then fmtFrac 0 u false "ns"
          else if u <? Millisecond then fmtFrac 3 u false "µs"
          else fmtFrac 6 u false "ms" in
        itoa u +:+ acc
    else
      let '(acc, u) := fmtFrac 9 u false "s" in
      let acc := itoa (u mod 60) +:+ acc in
      let u := u / 60 in
      if 0 <? u then
        let acc := itoa (u mod 60) +:+ "m" +:+ acc in
        let u := u / 60 in
        if 0 <? u then itoa u +:+ "h" +:+ acc else acc
      else acc in
  if d <? 0 then "-" +:+ body else body.

Example Duration_String_ex :
  Duration_String <$> [0; 5 * Minute; 90 * Second + 500 * Millisecond; 1500; Hour; - (2 * Second)]
  = ["0s"; "5m0s"; "1m30.5s"; "1.5µs"; "1h0m0s"; "-2s"].
Proof. reflexivity. Qed.
