(* ===== verification/GoTimeFmt.v ===== *)
(** What the program uses of Go's [time.Format] and [time.Parse]: an instant in UTC as RFC 3339,
    and the layouts [2006-01-02] and RFC 3339 read.

    The fast path of [Parse] for RFC 3339 accepts a part of what the general parser accepts,
    with the same result; the general one is written out. *)
From S2P Require Import Prelude GoTime GoStrings GoFmt.
From Stdlib Require Import Ascii.
Open Scope Z_scope.
Open Scope lookout_scope.

(** ** Calendar dates

    Days are counted from January 1, year 1 of the proleptic Gregorian calendar. *)

Definition day_length : Duration := 24 * Hour.

Definition is_leap (year : Z) : bool :=
  (year mod 4 =? 0) && (negb (year mod 100 =? 0) || (year mod 400 =? 0)).

Definition month_length (year : Z) (month : nat) : Z :=
  match month with
  | 2%nat => if is_leap year then 29 else 28
  | 4%nat | 6%nat | 9%nat | 11%nat => 30
  | _ => 31
  end.

(** The months from [month] on, [fuel] of them, less the one the day [d] is in. *)
Fixpoint month_of (year : Z) (fuel : nat) (month : nat) (d : Z) : nat * Z :=
  match fuel with
  | O => (month, d)
  | S fuel =>
      if d <? month_length year month then (month, d)
      else month_of year fuel (S month) (d - month_length year month)
  end.

(** Year, month and day of the month; the last century of four and the last year of four
    are a day longer. *)
Definition civil (days : Z) : Z * nat * Z :=
  let n400 := days / 146097 in
  let d := days mod 146097 in
  let n100 := Z.min 3 (d / 36524) in
  let d := d - 36524 * n100 in
  let n4 := d / 1461 in
  let d := d - 1461 * n4 in
  let n1 := Z.min 3 (d / 365) in
  let d := d - 365 * n1 in
  let year := 400 * n400 + 100 * n100 + 4 * n4 + n1 + 1 in
  let '(month, d) := month_of year 11 1 d in
  (year, month, d + 1).

(** Days before January 1 of [year]. *)
Definition days_before_year (year : Z) : Z :=
  let y := year - 1 in 365 * y + y / 4 - y / 100 + y / 400.

Fixpoint days_before_month (year : Z) (month : nat) : Z :=
  match month with
  | O | 1%nat => 0
  | S m => days_before_month year m + month_length year m
  end.

Definition days_of (year : Z) (month : nat) (day : Z) : Z :=
  days_before_year year + days_before_month year month + (day - 1).

(** ** [t.UTC().Format(time.RFC3339)] *)

Fixpoint zeros (n : nat) : string := match n with O => "" | S n => "0" +:+ zeros n end.

Definition pad (width : nat) (n : Z) : string :=
  let s := itoa n in zeros (width - String.length s) +:+ s.

Definition RFC3339_utc (t : Time) : string :=
  let '(year, month, day) := civil (t / day_length) in
  let sec := (t mod day_length) / Second in
  pad 4 year +:+ "-" +:+ pad 2 (Z.of_nat month) +:+ "-" +:+ pad 2 day +:+ "T" +:+
  pad 2 (sec / 3600) +:+ ":" +:+ pad 2 (sec / 60 mod 60) +:+ ":" +:+ pad 2 (sec mod 60) +:+ "Z".

Definition at_utc (year : Z) (month : nat) (day hour minute second : Z) : Time :=
  days_of year month day * day_length + ((hour * 60 + minute) * 60 + second) * Second.

Example RFC3339_ex :
  RFC3339_utc <$> [at_utc 2026 8 7 9 5 0; at_utc 2024 2 29 23 59 59; at_utc 2000 12 31 0 0 0; at_utc 1900 3 1 12 0 0]
  = ["2026-08-07T09:05:00Z"; "2024-02-29T23:59:59Z"; "2000-12-31T00:00:00Z"; "1900-03-01T12:00:00Z"].
Proof. reflexivity. Qed.

(** ** [time.Parse] *)

Definition digit (c : ascii) : option Z := if is_digit c then Some (Z.of_nat (Ascii.nat_of_ascii c) - 48) else None.

(** [n] digits, as a number. *)
Fixpoint fixed_digits (n : nat) (acc : Z) (s : string) : option (Z * string) :=
  match n, s with
  | O, _ => Some (acc, s)
  | S n, String c s => d ← digit c; fixed_digits n (acc * 10 + d) s
  | S _, EmptyString => None
  end.

(** [getnum(value, false)]: one digit or two. *)
Definition getnum (s : string) : option (Z * string) :=
  match fixed_digits 2 0 s with
  | Some r => Some r
  | None => fixed_digits 1 0 s
  end.

Definition literal (c : ascii) (s : string) : option string :=
  match s with String d s => if Ascii.eqb c d then Some s else None | EmptyString => None end.

(** Year, month and day, and what follows; the day is checked against the month at the end. *)
Definition parse_date (s : string) : option (Z * nat * Z * string) :=
  '(year, s) ← fixed_digits 4 0 s; s ← literal "-" s;
  '(month, s) ← fixed_digits 2 0 s; s ← literal "-" s;
  '(day, s) ← fixed_digits 2 0 s;
  if (1 <=? month) && (month <=? 12) then Some (year, Z.to_nat month, day, s) else None.

Definition day_ok (year : Z) (month : nat) (day : Z) : bool := (1 <=? day) && (day <=? month_length year month).

(** [time.Parse("2006-01-02", s)] *)
Definition Parse_date (s : string) : option Time :=
  '(year, month, day, s) ← parse_date s;
  if day_ok year month day && (s ==s "") then Some (days_of year month day * day_length) else None.

(** The digits of a fraction: nanoseconds of the first nine. *)
Fixpoint fraction (scale : Z) (acc : Z) (s : string) : Z * string :=
  match s with
  | String c rest => match digit c with Some d => fraction (scale / 10) (acc + d * scale) rest | None => (acc, s) end
  | EmptyString => (acc, s)
  end.

(** A dot or a comma with a digit after it, behind the seconds. *)
Definition parse_fraction (s : string) : Z * string :=
  match s with
  | String p (String c _ as rest) =>
      if (Ascii.eqb p "." || Ascii.eqb p ",") && is_digit c then fraction 100000000 0 rest else (0, s)
  | _ => (0, s)
  end.

(** The zone [Z07:00]: seconds east of UTC. *)
Definition parse_zone (s : string) : option (Z * string) :=
  match s with
  | String c rest =>
      if Ascii.eqb c "Z" then Some (0, rest)
      else
        sign ← (if Ascii.eqb c "+" then Some 1 else if Ascii.eqb c "-" then Some (-1) else None);
        '(hr, rest) ← fixed_digits 2 0 rest; rest ← literal ":" rest; '(mm, rest) ← fixed_digits 2 0 rest;
        if (24 <? hr) || (60 <? mm) then None else Some (sign * (hr * 60 + mm) * 60, rest)
  | EmptyString => None
  end.

(** [time.Parse(time.RFC3339, s)] *)
Definition Parse_RFC3339 (s : string) : option Time :=
  '(year, month, day, s) ← parse_date s;
  s ← literal "T" s;
  '(hour, s) ← getnum s; s ← literal ":" s;
  '(minute, s) ← fixed_digits 2 0 s; s ← literal ":" s;
  '(second, s) ← fixed_digits 2 0 s;
  let '(nsec, s) := parse_fraction s in
  '(offset, s) ← parse_zone s;
  if (hour <? 24) && (minute <? 60) && (second <? 60) && day_ok year month day && (s ==s "")
  then Some (at_utc year month day hour minute second + nsec - offset * Second) else None.

Example Parse_ex :
  Parse_date "2026-12-31" = Some (at_utc 2026 12 31 0 0 0) /\ Parse_date "2026-02-30" = None /\
  Parse_RFC3339 "2026-12-31T05:04:03.5+02:00" = Some (at_utc 2026 12 31 3 4 3 + 500000000) /\
  Parse_RFC3339 "2026-12-31T05:04:03" = None /\ Parse_RFC3339 "2026-12-31T24:00:00Z" = None.
Proof. vm_compute. done. Qed.

(** ** [t.MarshalJSON]: RFC 3339 with the fraction of a second

    The zone is a whole number of minutes east of UTC, as the text has no finer. *)

(** The digits of [n / 10^k] after the point, without trailing zeros. *)
Fixpoint frac_digits (k : nat) (n : Z) : string :=
  match k with
  | O => ""
  | S k => if n =? 0 then "" else itoa (n / 10 ^ Z.of_nat k) +:+ frac_digits k (n mod 10 ^ Z.of_nat k)
  end.

Definition frac_text (nsec : Z) : string := if nsec =? 0 then "" else "." +:+ frac_digits 9 nsec.

Definition zone_text (minutes : Z) : string :=
  if minutes =? 0 then "Z"
  else (if minutes <? 0 then "-" else "+") +:+ pad 2 (Z.abs minutes / 60) +:+ ":" +:+ pad 2 (Z.abs minutes mod 60).

Definition RFC3339Nano (minutes : Z) (t : Time) : string :=
  let local := t + minutes * Minute in
  let '(year, month, day) := civil (local / day_length) in
  let sec := (local mod day_length) / Second in
  pad 4 year +:+ "-" +:+ pad 2 (Z.of_nat month) +:+ "-" +:+ pad 2 day +:+ "T" +:+
  pad 2 (sec / 3600) +:+ ":" +:+ pad 2 (sec / 60 mod 60) +:+ ":" +:+ pad 2 (sec mod 60) +:+
  frac_text (local mod Second) +:+ zone_text minutes.

(** The year has four digits and the zone is less than a day. *)
Definition strict_RFC3339 (minutes : Z) (t : Time) : bool :=
  let '(year, _, _) := civil ((t + minutes * Minute) / day_length) in
  (0 <=? year) && (year <=? 9999) && (Z.abs minutes <? 24 * 60).

Example RFC3339Nano_ex :
  RFC3339Nano 0 (at_utc 2026 8 7 9 5 0 + 120) = "2026-08-07T09:05:00.00000012Z" /\
  RFC3339Nano (-330) (at_utc 2026 1 1 2 0 7) = "2025-12-31T20:30:07-05:30" /\
  RFC3339Nano 120 zero_time = "0001-01-01T02:00:00+02:00".
Proof. vm_compute. done. Qed.

(** *** Dates *)

Lemma days_before_year_parts a b c e : 0 <= b <= 3 -> 0 <= c <= 24 -> 0 <= e <= 3 ->
  days_before_year (400 * a + 100 * b + 4 * c + e + 1) = 146097 * a + 36524 * b + 1461 * c + 365 * e.
Proof.
  intros Hb Hc He. unfold days_before_year. replace (400 * a + 100 * b + 4 * c + e + 1 - 1) with (400 * a + 100 * b + 4 * c + e) by lia.
  rewrite <- (Z.div_unique (400 * a + 100 * b + 4 * c + e) 4 (100 * a + 25 * b + c) e) by lia.
  rewrite <- (Z.div_unique (400 * a + 100 * b + 4 * c + e) 100 (4 * a + b) (4 * c + e)) by lia.
  rewrite <- (Z.div_unique (400 * a + 100 * b + 4 * c + e) 400 a (100 * b + 4 * c + e)) by lia. lia.
Qed.

Lemma is_leap_parts a b c e : 0 <= b <= 3 -> 0 <= c <= 24 -> 0 <= e <= 3 ->
  is_leap (400 * a + 100 * b + 4 * c + e + 1) = (e =? 3) && (negb (c =? 24) || (b =? 3)).
Proof.
  intros Hb Hc He. unfold is_leap. set (y := 400 * a + 100 * b + 4 * c + e + 1).
  assert ((y mod 4 =? 0) = (e =? 3)) as ->.
  { apply eq_true_iff_eq. rewrite !Z.eqb_eq. unfold y. Z.to_euclidean_division_equations. lia. }
  destruct (e =? 3) eqn:E3; [|done]. apply Z.eqb_eq in E3. cbn [andb].
  assert ((y mod 100 =? 0) = (c =? 24)) as ->.
  { apply eq_true_iff_eq. rewrite !Z.eqb_eq. unfold y. Z.to_euclidean_division_equations. lia. }
  destruct (c =? 24) eqn:E24; [|done]. apply Z.eqb_eq in E24. cbn [negb orb].
  apply eq_true_iff_eq. rewrite !Z.eqb_eq. unfold y. Z.to_euclidean_division_equations. lia.
Qed.

Lemma month_of_spec year fuel month d : 0 <= d -> (1 <= month)%nat ->
  let '(m, r) := month_of year fuel month d in
  days_before_month year m + r = days_before_month year month + d /\ 0 <= r /\ (month <= m <= month + fuel)%nat /\
  (m = (month + fuel)%nat \/ r < month_length year m).
Proof.
  revert month d. induction fuel as [|fuel IH]; intros month d Hd Hm; cbn [month_of]; [split_and!; [done|done|lia..]|].
  destruct (Z.ltb_spec d (month_length year month)); [split_and!; [done|done|lia|lia|by right]|].
  specialize (IH (S month) (d - month_length year month)). destruct (month_of _ _ _ _) as [m r].
  destruct IH as (Hsum & Hr & Hle & Hend); [lia|lia|]. destruct month as [|month]; [lia|]. cbn [days_before_month] in *.
  split_and!; [lia|lia|lia|lia|]. destruct Hend as [->|]; [left; lia|by right].
Qed.

(** The calendar and the count of days agree. *)
Lemma civil_days days : let '(year, month, day) := civil days in
  days_of year month day = days /\ (1 <= month <= 12)%nat /\ day_ok year month day = true.
Proof.
  unfold civil. set (a := days / 146097). set (d0 := days mod 146097).
  set (b := Z.min 3 (d0 / 36524)). set (d1 := d0 - 36524 * b). set (c := d1 / 1461). set (d2 := d1 - 1461 * c).
  set (e := Z.min 3 (d2 / 365)). set (d3 := d2 - 365 * e).
  assert (days = 146097 * a + d0 /\ 0 <= d0 < 146097) as [Ha H0] by (unfold a, d0; Z.to_euclidean_division_equations; lia).
  assert (0 <= b <= 3 /\ 0 <= d1 /\ d1 <= 36524 /\ (d1 = 36524 -> b = 3)) as (Hb & H1 & H1' & Hb3) by (unfold b, d1; Z.to_euclidean_division_equations; lia).
  assert (0 <= c <= 24 /\ 0 <= d2 < 1461 /\ (c = 24 -> d2 <= 1460 /\ (d2 = 1460 -> d1 = 36524))) as (Hc & H2 & Hc24) by (unfold c, d2; Z.to_euclidean_division_equations; lia).
  assert (0 <= e <= 3 /\ 0 <= d3 <= 365 /\ (d3 = 365 -> e = 3 /\ d2 = 1460)) as (He & H3 & He3) by (unfold e, d3; Z.to_euclidean_division_equations; lia).
  set (year := 400 * a + 100 * b + 4 * c + e + 1).
  pose proof (days_before_year_parts a b c e Hb Hc He) as Hy. pose proof (is_leap_parts a b c e Hb Hc He) as Hl. fold year in Hy, Hl.
  pose proof (month_of_spec year 11 1 d3 ltac:(lia) ltac:(lia)) as Hm. destruct (month_of year 11 1 d3) as [m r].
  destruct Hm as (Hsum & Hr & Hm & Hend). change (days_before_month year 1) with 0 in Hsum. unfold days_of, day_ok. split_and!; [unfold d3, d2, d1 in *; lia|lia|lia|].
  apply andb_true_intro. split; [lia|]. apply Z.leb_le. destruct Hend as [->|]; [|lia].
  cbn [days_before_month month_length Nat.add] in *. destruct (is_leap year); [lia|]. enough (d3 < 365) by lia.
  destruct (decide (d3 = 365)) as [E|]; [|lia]. destruct (He3 E) as [-> E2]. symmetry in Hl. cbn in Hl. apply orb_false_elim in Hl as [Hl1 Hl2].
  apply negb_false_iff, Z.eqb_eq in Hl1. apply Z.eqb_neq in Hl2. destruct (Hc24 Hl1) as [_ Hd1]. specialize (Hd1 E2). specialize (Hb3 Hd1). lia.
Qed.

(** *** Digits *)

Lemma fixed_digits_app n acc s v X : fixed_digits n acc s = Some (v, "") -> fixed_digits n acc (s +:+ X) = Some (v, X).
Proof.
  revert acc s. induction n as [|n IH]; intros acc s; [by intros [= -> ->]|]. destruct s as [|c s]; [done|]. cbn.
  destruct (digit c) as [d|]; [|done]. apply IH.
Qed.

(** Every number of two or of four digits, by inspection. *)
Lemma pad_two n X : 0 <= n < 100 -> fixed_digits 2 0 (pad 2 n +:+ X) = Some (n, X).
Proof.
  intros Hn. apply fixed_digits_app. assert (n ∈ seqZ 0 100) as Hin by (apply elem_of_seqZ; lia).
  assert (forallb (fun n => bool_decide (fixed_digits 2 0 (pad 2 n) = Some (n, ""))) (seqZ 0 100) = true) as Hall by (vm_compute; reflexivity).
  rewrite forallb_forall in Hall. apply list_elem_of_In, Hall in Hin. by apply bool_decide_eq_true in Hin.
Qed.

Lemma pad_four n X : 0 <= n <= 9999 -> fixed_digits 4 0 (pad 4 n +:+ X) = Some (n, X).
Proof.
  intros Hn. apply fixed_digits_app. assert (n ∈ seqZ 0 10000) as Hin by (apply elem_of_seqZ; lia).
  assert (forallb (fun n => bool_decide (fixed_digits 4 0 (pad 4 n) = Some (n, ""))) (seqZ 0 10000) = true) as Hall by (vm_compute; reflexivity).
  rewrite forallb_forall in Hall. apply list_elem_of_In, Hall in Hin. by apply bool_decide_eq_true in Hin.
Qed.

Lemma digit_back n : 0 <= n < 10 -> exists c, itoa n = String c "" /\ digit c = Some n.
Proof.
  intros Hn. assert (n ∈ seqZ 0 10) as Hin by (apply elem_of_seqZ; lia).
  assert (forallb (fun n => match itoa n with String c "" => bool_decide (digit c = Some n) | _ => false end) (seqZ 0 10) = true) as Hall by (vm_compute; reflexivity).
  rewrite forallb_forall in Hall. apply list_elem_of_In, Hall in Hin. destruct (itoa n) as [|c [|]]; try done.
  apply bool_decide_eq_true in Hin. eauto.
Qed.

(** What follows a fraction is no digit. *)
Definition no_digit (s : string) : Prop := match s with String c _ => digit c = None | EmptyString => True end.

Lemma fraction_stop scale acc X : no_digit X -> fraction scale acc X = (acc, X).
Proof. destruct X as [|c X]; [done|]. cbn. by intros ->. Qed.

Lemma fraction_back k n acc X : 0 <= n < 10 ^ Z.of_nat k -> no_digit X ->
  fraction (10 ^ (Z.of_nat k - 1)) acc (frac_digits k n +:+ X) = (acc + n, X).
Proof.
  revert n acc. induction k as [|k IH]; intros n acc Hn HX; cbn [frac_digits].
  { rewrite fraction_stop by done. f_equal. cbn in Hn. lia. }
  destruct (Z.eqb_spec n 0) as [->|Hne]; [rewrite fraction_stop by done; f_equal; lia|].
  replace (Z.of_nat (S k)) with (Z.of_nat k + 1) in * by lia. rewrite Z.pow_add_r, Z.pow_1_r in Hn by lia.
  replace (Z.of_nat k + 1 - 1) with (Z.of_nat k) by lia. assert (0 < 10 ^ Z.of_nat k) as Hp by (apply Z.pow_pos_nonneg; lia).
  destruct (digit_back (n / 10 ^ Z.of_nat k)) as (c & -> & Hc); [split; [apply Z.div_pos; lia|apply Z.div_lt_upper_bound; lia]|].
  cbn [String.append fraction]. rewrite Hc. pose proof (Z.div_mod n (10 ^ Z.of_nat k) ltac:(lia)) as Hdm.
  assert (10 ^ Z.of_nat k / 10 = 10 ^ (Z.of_nat k - 1) \/ k = 0%nat) as [->| ->].
  { destruct k as [|k]; [by right|left]. replace (Z.of_nat (S k)) with (Z.of_nat (S k) - 1 + 1) at 1 by lia. rewrite Z.pow_add_r by lia. by apply Z.div_mul. }
  - rewrite IH; [f_equal; lia|apply Z.mod_pos_bound; lia|done].
  - cbn [frac_digits String.append]. rewrite fraction_stop by done. f_equal. change (10 ^ Z.of_nat 0) with 1. rewrite Z.div_1_r. lia.
Qed.

Lemma frac_back nsec X : 0 <= nsec < Second -> no_digit X ->
  (match X with String p _ => Ascii.eqb p "." || Ascii.eqb p "," = false | _ => True end) ->
  parse_fraction (frac_text nsec +:+ X) = (nsec, X).
Proof.
  intros Hn HX Hd. unfold frac_text. destruct (Z.eqb_spec nsec 0) as [->|Hne].
  - cbn [String.append]. unfold parse_fraction. destruct X as [|p [|c X]]; [done|done|]. by rewrite Hd.
  - cbn [String.append]. pose proof (fraction_back 9 nsec 0 X Hn HX) as Hf. change (Z.of_nat 9 - 1) with 8 in Hf. change (10 ^ 8) with 100000000 in Hf.
    rewrite Z.add_0_l in Hf. rewrite <- Hf. cbn [frac_digits]. rewrite (proj2 (Z.eqb_neq nsec 0) Hne).
    destruct (digit_back (nsec / 10 ^ Z.of_nat 8)) as (c & -> & Hc).
    { unfold Second in Hn. change (10 ^ Z.of_nat 8) with 100000000. split; [apply Z.div_pos; lia|apply Z.div_lt_upper_bound; lia]. }
    cbn [String.append parse_fraction]. unfold digit in Hc. destruct (is_digit c); done.
Qed.

Lemma zone_back minutes : Z.abs minutes < 24 * 60 -> parse_zone (zone_text minutes) = Some (minutes * 60, "") /\
  no_digit (zone_text minutes) /\ match zone_text minutes with String p _ => Ascii.eqb p "." || Ascii.eqb p "," = false | EmptyString => True end.
Proof.
  intros Hm. unfold zone_text. destruct (Z.eqb_spec minutes 0) as [->|Hne]; [done|].
  assert (0 <= Z.abs minutes / 60 < 24) as Hh by (Z.to_euclidean_division_equations; lia).
  assert (0 <= Z.abs minutes mod 60 < 60) as Hmm by (Z.to_euclidean_division_equations; lia).
  pose proof (Z.div_mod (Z.abs minutes) 60 ltac:(lia)) as Hdm.
  split; [|by destruct (minutes <? 0)]. rewrite <- (string_app_nil_r (pad 2 (Z.abs minutes mod 60))).
  destruct (Z.ltb_spec minutes 0); cbn [String.append parse_zone]; cbn [Ascii.eqb Bool.eqb]; cbn [mbind option_bind];
    rewrite pad_two by lia; cbn [mbind option_bind String.append literal Ascii.eqb Bool.eqb]; rewrite pad_two by lia; cbn [mbind option_bind];
    rewrite (proj2 (Z.ltb_ge 24 _)), (proj2 (Z.ltb_ge 60 _)) by lia; cbn [orb]; do 2 f_equal; lia.
Qed.

Lemma month_length_bound year month : month_length year month <= 31.
Proof. unfold month_length. repeat case_match; lia. Qed.

(** What [MarshalJSON] writes of an instant, in whatever zone, [Parse] reads as that instant. *)
Lemma Parse_RFC3339Nano minutes t : strict_RFC3339 minutes t = true -> Parse_RFC3339 (RFC3339Nano minutes t) = Some t.
Proof.
  unfold strict_RFC3339, RFC3339Nano. set (local := t + minutes * Minute). pose proof (civil_days (local / day_length)) as Hc.
  destruct (civil _) as [[year month] day]. destruct Hc as (Hdays & Hmonth & Hday). intros [[Hy0 Hy1]%andb_prop Hz]%andb_prop.
  apply Z.leb_le in Hy0, Hy1. apply Z.ltb_lt in Hz. destruct (zone_back minutes Hz) as (Hzone & Hnd & Hdot).
  set (sec := local mod day_length / Second). unfold day_length, Hour, Minute, Second in *.
  assert (0 <= sec < 86400) as Hsec by (unfold sec; Z.to_euclidean_division_equations; lia).
  assert (1 <= day <= 31) as Hd by (pose proof (month_length_bound year month); unfold day_ok in Hday; lia).
  unfold Parse_RFC3339, parse_date. rewrite pad_four by lia. cbn [mbind option_bind String.append literal Ascii.eqb Bool.eqb].
  rewrite pad_two by lia. cbn [mbind option_bind String.append literal Ascii.eqb Bool.eqb].
  rewrite pad_two by lia. cbn [mbind option_bind].
  rewrite (proj2 (Z.leb_le 1 _)), (proj2 (Z.leb_le _ 12)) by lia. cbn [andb mbind option_bind String.append literal Ascii.eqb Bool.eqb]. rewrite Nat2Z.id.
  unfold getnum. rewrite pad_two by (Z.to_euclidean_division_equations; lia). cbn [mbind option_bind String.append literal Ascii.eqb Bool.eqb].
  rewrite pad_two by (Z.to_euclidean_division_equations; lia). cbn [mbind option_bind String.append literal Ascii.eqb Bool.eqb].
  rewrite pad_two by (Z.to_euclidean_division_equations; lia). cbn [mbind option_bind].
  rewrite frac_back; [|unfold Second; apply Z.mod_pos_bound; lia|done|done]. rewrite Hzone. cbn [mbind option_bind].
  rewrite Hday, (proj2 (Z.ltb_lt _ 24)), !(proj2 (Z.ltb_lt _ 60)) by (Z.to_euclidean_division_equations; lia). cbn [andb].
  rewrite bool_decide_eq_true_2 by done. f_equal. unfold at_utc. rewrite Hdays. unfold day_length, Hour, Minute, Second, sec, local.
  clear. Z.to_euclidean_division_equations. lia.
Qed.
