(* ===== verification/GoQuote.v ===== *)
(** Go's quoted strings: [strconv.Quote] (the verb [%q]), [strconv.Unquote] and
    [strconv.QuotedPrefix], and that a quoted string is read back as it was. *)
From S2P Require Import Prelude GoTime GoStrings GoFmt.
From Stdlib Require Import Ascii.
Open Scope Z_scope.
Open Scope lookout_scope.

(** ** [Quote]

    [strconv.Quote]: an ASCII byte stands for itself, for its escape, or for [\x] and two
    digits; a byte of no valid encoding for the latter. Which runes past ASCII print is a
    table of package unicode: the class [UnicodePrint]. *)
Class UnicodePrint := unicode_print : string -> bool.

Section Quote.
Context `{UnicodePrint}.

Definition hex_digit (n : Z) : string :=
  if n <? 10 then itoa n else String (Ascii.ascii_of_nat (Z.to_nat (n + 87))) "".

Fixpoint hex (width : nat) (n : Z) : string :=
  match width with O => "" | S w => hex w (n / 16) +:+ hex_digit (n mod 16) end.

Definition backslash : string := String (byte_of 92) "".

Definition ascii_quoted (c : ascii) : string :=
  let n := Ascii.nat_of_ascii c in
  match n with
  | 34%nat | 92%nat => backslash +:+ String c ""
  | 7%nat => backslash +:+ "a" | 8%nat => backslash +:+ "b" | 12%nat => backslash +:+ "f"
  | 10%nat => backslash +:+ "n" | 13%nat => backslash +:+ "r" | 9%nat => backslash +:+ "t"
  | 11%nat => backslash +:+ "v"
  | _ => if Nat.leb 32 n && Nat.ltb n 127 then String c "" else backslash +:+ "x" +:+ hex 2 (Z.of_nat n)
  end.

(** The code point of a rune past ASCII from its bytes. *)
Definition code_point (lead : ascii) (cont : string) : Z :=
  let n := Z.of_nat (Ascii.nat_of_ascii lead) in
  foldl (fun acc c => acc * 64 + Z.of_nat (Ascii.nat_of_ascii c) mod 64)
    (match String.length cont with 1%nat => n mod 32 | 2%nat => n mod 16 | _ => n mod 8 end)
    (String.list_ascii_of_string cont).

Definition rune_quoted (lead : ascii) (cont : string) : string :=
  if unicode_print (String lead cont) then String lead cont
  else let r := code_point lead cont in
    if r <? 65536 then backslash +:+ "u" +:+ hex 4 r else backslash +:+ "U" +:+ hex 8 r.

Fixpoint quote_from (skip : nat) (s : string) : string :=
  match s with
  | EmptyString => ""
  | String c s =>
      match skip with
      | S skip => quote_from skip s
      | O =>
          match rune_lead c with
          | Some (O, _, _) => ascii_quoted c +:+ quote_from 0 s
          | Some (n, lo, hi) =>
              match take_cont n lo hi s with
              | Some t => rune_quoted c t +:+ quote_from n s
              | None => backslash +:+ "x" +:+ hex 2 (Z.of_nat (Ascii.nat_of_ascii c)) +:+ quote_from 0 s
              end
          | None => backslash +:+ "x" +:+ hex 2 (Z.of_nat (Ascii.nat_of_ascii c)) +:+ quote_from 0 s
          end
      end
  end.

Definition dquote : string := String (byte_of 34) "".
Definition Quote (s : string) : string := dquote +:+ quote_from 0 s +:+ dquote.
End Quote.

Example Quote_ex :
  Quote (H := fun _ => false) ("a" +:+ dquote +:+ String (byte_of 10) "é") =
  dquote +:+ "a" +:+ backslash +:+ dquote +:+ backslash +:+ "n" +:+ backslash +:+ "u00e9" +:+ dquote.
Proof. reflexivity. Qed.

(** ** [Unquote]

    [unquote] of package strconv on a double-quoted string. Its fast path, for a string
    with no escape in valid UTF-8, answers what the loop answers. *)

Definition byte_char (n : Z) : ascii := Ascii.ascii_of_nat (Z.to_nat n).

(** [utf8.AppendRune] of a valid rune. *)
Definition encode_rune (r : Z) : string :=
  if r <? 128 then String (byte_char r) ""
  else if r <? 2048 then String (byte_char (192 + r / 64)) (String (byte_char (128 + r mod 64)) "")
  else if r <? 65536 then
    String (byte_char (224 + r / 4096)) (String (byte_char (128 + r / 64 mod 64)) (String (byte_char (128 + r mod 64)) ""))
  else
    String (byte_char (240 + r / 262144)) (String (byte_char (128 + r / 4096 mod 64))
      (String (byte_char (128 + r / 64 mod 64)) (String (byte_char (128 + r mod 64)) ""))).

Definition ValidRune (r : Z) : bool := (0 <=? r) && (r <? 55296) || (57343 <? r) && (r <=? 1114111).

Definition unhex (c : ascii) : option Z :=
  let n := Z.of_nat (Ascii.nat_of_ascii c) in
  if (48 <=? n) && (n <=? 57) then Some (n - 48)
  else if (97 <=? n) && (n <=? 102) then Some (n - 87)
  else if (65 <=? n) && (n <=? 70) then Some (n - 55)
  else None.

Fixpoint read_hex (width : nat) (v : Z) (s : string) : option (Z * string) :=
  match width, s with
  | O, _ => Some (v, s)
  | S width, String c s => x ← unhex c; read_hex width (v * 16 + x) s
  | S _, EmptyString => None
  end.

Definition unoctal (c : ascii) : option Z :=
  let n := Z.of_nat (Ascii.nat_of_ascii c) in if (48 <=? n) && (n <=? 55) then Some (n - 48) else None.

(** The escape [\c], at [s] after it: the bytes it stands for and what follows. *)
Definition unescape (c : ascii) (s : string) : option (string * string) :=
  match Ascii.nat_of_ascii c with
  | 97%nat => Some (String (byte_of 7) "", s) | 98%nat => Some (String (byte_of 8) "", s)
  | 102%nat => Some (String (byte_of 12) "", s) | 110%nat => Some (String (byte_of 10) "", s)
  | 114%nat => Some (String (byte_of 13) "", s) | 116%nat => Some (String (byte_of 9) "", s)
  | 118%nat => Some (String (byte_of 11) "", s)
  | 92%nat | 34%nat => Some (String c "", s)
  | 120%nat => '(v, s) ← read_hex 2 0 s; Some (String (byte_char v) "", s)
  | 117%nat => '(v, s) ← read_hex 4 0 s; if ValidRune v then Some (encode_rune v, s) else None
  | 85%nat => '(v, s) ← read_hex 8 0 s; if ValidRune v then Some (encode_rune v, s) else None
  | _ =>
      match unoctal c, s with
      | Some x, String d (String e s) =>
          y ← unoctal d; z ← unoctal e;
          let v := (x * 8 + y) * 8 + z in if 255 <? v then None else Some (String (byte_char v) "", s)
      | _, _ => None
      end
  end.

Definition is_byte (n : nat) (c : ascii) : bool := Nat.eqb (Ascii.nat_of_ascii c) n.

Fixpoint drop_bytes (n : nat) (s : string) : string :=
  match n, s with S n, String _ s => drop_bytes n s | _, _ => s end.

(** [UnquoteChar] at a byte that is no quote. *)
Definition UnquoteChar (c : ascii) (s : string) : option (string * string) :=
  if is_byte 92 c then match s with String d s => unescape d s | EmptyString => None end
  else match rune_lead c with
  | Some (n, lo, hi) =>
      match take_cont n lo hi s with
      | Some t => Some (String c t, drop_bytes n s)
      | None => Some (rune_error, s)
      end
  | None => Some (rune_error, s)
  end.

(** The loop, after the opening quote: the value and what follows the closing one. *)
Fixpoint unquote_loop (fuel : nat) (s : string) : option (string * string) :=
  match fuel, s with
  | S fuel, String c s =>
      if is_byte 34 c then Some ("", s)
      else if is_byte 10 c then None
      else '(p, s) ← UnquoteChar c s; '(v, rem) ← unquote_loop fuel s; Some (p +:+ v, rem)
  | _, _ => None
  end.

(** [QuotedPrefix] and [Unquote] of that prefix: the value and what follows it. *)
Definition read_quoted (s : string) : option (string * string) :=
  match s with
  | String c s => if is_byte 34 c then unquote_loop (String.length s) s else None
  | EmptyString => None
  end.

Definition Unquote (s : string) : option string :=
  match read_quoted s with Some (v, EmptyString) => Some v | _ => None end.

Example Unquote_ex :
  read_quoted (Quote (H := fun _ => false) ("a" +:+ dquote +:+ String (byte_of 10) "é€" +:+ String (byte_of 200) "") +:+ " x=1") =
  Some ("a" +:+ dquote +:+ String (byte_of 10) "é€" +:+ String (byte_of 200) "", " x=1").
Proof. vm_compute. reflexivity. Qed.

(** ** A quoted string is read back *)

Lemma hex_digit_back n : 0 <= n < 16 -> exists c, hex_digit n = String c "" /\ unhex c = Some n.
Proof.
  intros Hn. assert (n ∈ seqZ 0 16) as Hin by (apply elem_of_seqZ; lia).
  assert (forallb (fun n => match hex_digit n with String c "" => bool_decide (unhex c = Some n) | _ => false end) (seqZ 0 16) = true)
    as Hall by (vm_compute; reflexivity).
  rewrite forallb_forall in Hall. apply list_elem_of_In, Hall in Hin.
  destruct (hex_digit n) as [|c [|]]; try done. apply bool_decide_eq_true in Hin. eauto.
Qed.

Lemma read_hex_split w k v s : read_hex (w + k) v s = '(v, s) ← read_hex w v s; read_hex k v s.
Proof.
  revert v s. induction w as [|w IH]; intros v s; [done|]. cbn. destruct s as [|c s]; [done|].
  destruct (unhex c); [apply IH|done].
Qed.

Lemma read_hex_back width n v X : 0 <= n < 16 ^ Z.of_nat width ->
  read_hex width v (hex width n +:+ X) = Some (v * 16 ^ Z.of_nat width + n, X).
Proof.
  revert n X. induction width as [|w IH]; intros n X Hn.
  { cbn in *. repeat f_equal. lia. }
  replace (Z.of_nat (S w)) with (Z.of_nat w + 1) in * by lia. rewrite Z.pow_add_r in * by lia.
  replace (S w) with (w + 1)%nat at 1 by lia. cbn [hex]. rewrite read_hex_split, app_assoc_string.
  destruct (hex_digit_back (n mod 16)) as (c & -> & Hc); [apply Z.mod_pos_bound; lia|].
  rewrite IH; [|split; [apply Z.div_pos; lia|apply Z.div_lt_upper_bound; lia]].
  cbn [mbind option_bind]. cbn [read_hex String.append]. cbn. rewrite Hc. cbn. rewrite Z.pow_1_r.
  do 2 f_equal. pose proof (Z.div_mod n 16). lia.
Qed.

(** Every byte below 128 and every byte escape, by inspection. *)
Lemma ascii_back c X : is_ascii c = true -> exists d s, ascii_quoted c +:+ X = String d s /\
  is_byte 34 d = false /\ is_byte 10 d = false /\ UnquoteChar d s = Some (String c "", X).
Proof.
  destruct c as [[] [] [] [] [] [] [] []]; intros Hc; try discriminate Hc; clear Hc;
    (eexists _, _; split; [reflexivity|]; split; [reflexivity|]; split; [reflexivity|]; vm_compute; reflexivity).
Qed.

Lemma byte_back c X : exists s, backslash +:+ "x" +:+ hex 2 (Z.of_nat (Ascii.nat_of_ascii c)) +:+ X = String (byte_of 92) s /\
  UnquoteChar (byte_of 92) s = Some (String c "", X).
Proof.
  eexists. split; [reflexivity|]. unfold UnquoteChar. cbn [is_byte]. change (is_byte 92 (byte_of 92)) with true. cbn [String.append].
  unfold unescape. change (Ascii.nat_of_ascii "x") with 120%nat. cbv iota.
  rewrite read_hex_back by (pose proof (Ascii.nat_ascii_bounded c); cbn; lia). cbn [mbind option_bind].
  unfold byte_char. rewrite Z.mul_0_l, Z.add_0_l, Nat2Z.id, Ascii.ascii_nat_embedding. done.
Qed.

Lemma take_cont_app n lo hi s t X : take_cont n lo hi s = Some t ->
  take_cont n lo hi (t +:+ X) = Some t /\ drop_bytes n (t +:+ X) = X /\ s = t +:+ drop_bytes n s /\ String.length t = n.
Proof.
  revert lo hi s t. induction n as [|n IH]; intros lo hi s t; [intros [= <-]; done|]. destruct s as [|c s]; [done|]. cbn.
  destruct (byte_in lo hi c) eqn:Eb; [|done]. intros (t' & Ht & ->)%fmap_Some. cbn. rewrite Eb.
  destruct (IH _ _ _ _ Ht) as (-> & -> & E & El). split_and!; [done|done|by rewrite <- E|by rewrite El].
Qed.

Lemma quote_from_skip `{UnicodePrint} t s : quote_from (String.length t) (t +:+ s) = quote_from 0 s.
Proof. induction t as [|c t IH]; [done|]. exact IH. Qed.

Lemma byte_char_of v c : v = Z.of_nat (Ascii.nat_of_ascii c) -> byte_char v = c.
Proof. intros ->. unfold byte_char. by rewrite Nat2Z.id, Ascii.ascii_nat_embedding. Qed.

Lemma byte_in_bounds lo hi c : byte_in lo hi c = true ->
  Z.of_nat lo <= Z.of_nat (Ascii.nat_of_ascii c) <= Z.of_nat hi.
Proof. unfold byte_in. intros [?%Nat.leb_le ?%Nat.leb_le]%andb_prop. lia. Qed.

(** The three shapes of a lead byte. *)
Lemma rune_lead_cases c n lo hi : rune_lead c = Some (n, lo, hi) ->
  let x := Z.of_nat (Ascii.nat_of_ascii c) in
  n = 0%nat /\ x < 128 \/
  n = 1%nat /\ 194 <= x <= 223 /\ lo = 128%nat /\ hi = 191%nat \/
  n = 2%nat /\ 224 <= x <= 239 /\ (x = 224 -> lo = 160%nat) /\ (x = 237 -> hi = 159%nat) /\ (128 <= lo)%nat /\ (hi <= 191)%nat \/
  n = 3%nat /\ 240 <= x <= 244 /\ (x = 240 -> lo = 144%nat) /\ (x = 244 -> hi = 143%nat) /\ (128 <= lo)%nat /\ (hi <= 191)%nat.
Proof.
  unfold rune_lead. cbv zeta.
  repeat match goal with
  | |- context [if ?b then _ else _] => destruct b eqn:?
  end; intros [= <- <- <-];
  repeat match goal with
  | H : Nat.ltb _ _ = true |- _ => apply Nat.ltb_lt in H
  | H : Nat.ltb _ _ = false |- _ => apply Nat.ltb_ge in H
  | H : Nat.eqb _ _ = true |- _ => apply Nat.eqb_eq in H
  | H : Nat.eqb _ _ = false |- _ => apply Nat.eqb_neq in H
  | H : byte_in _ _ _ = true |- _ => apply byte_in_bounds in H
  | H : byte_in _ _ _ = false |- _ => clear H
  end; lia.
Qed.

Ltac divmod := Z.to_euclidean_division_equations; lia.

Lemma rune_code_back c n lo hi s t : rune_lead c = Some (S n, lo, hi) -> take_cont (S n) lo hi s = Some t ->
  let r := code_point c t in
  ValidRune r = true /\ encode_rune r = String c t /\ 0 <= r < 2097152.
Proof.
  intros Hc Ht. cbv zeta. destruct (take_cont_app _ _ _ _ _ "" Ht) as (Ht' & _ & _ & Hl). clear Ht s.
  pose proof (rune_lead_cases c (S n) lo hi Hc) as Hcases. cbv zeta in Hcases. clear Hc.
  unfold code_point. destruct t as [|b1 t]; [done|]. cbn in Ht', Hl.
  destruct (byte_in lo hi b1) eqn:E1; [|done]. apply byte_in_bounds in E1.
  destruct t as [|b2 t]; cbn in Ht', Hl |- *.
  { set (x := Z.of_nat (Ascii.nat_of_ascii c)) in *. set (y := Z.of_nat (Ascii.nat_of_ascii b1)) in *.
    assert (0 <= x mod 32 * 64 + y mod 64 < 2048 /\ 128 <= x mod 32 * 64 + y mod 64) as Hr by divmod.
    unfold encode_rune, ValidRune. rewrite (proj2 (Z.ltb_ge _ 128)), (proj2 (Z.ltb_lt _ 2048)) by lia.
    split_and!; [lia| |lia|lia].
    rewrite (byte_char_of _ c), (byte_char_of _ b1); [done|fold y; divmod|fold x; divmod]. }
  injection Hl as Hl. destruct n as [|n]; [done|]. cbn in Ht'. destruct (byte_in 128 191 b2) eqn:E2; [|done]. apply byte_in_bounds in E2.
  destruct t as [|b3 t]; cbn in Ht', Hl |- *.
  { set (x := Z.of_nat (Ascii.nat_of_ascii c)) in *. set (y := Z.of_nat (Ascii.nat_of_ascii b1)) in *.
    set (z := Z.of_nat (Ascii.nat_of_ascii b2)) in *.
    set (r := (x mod 16 * 64 + y mod 64) * 64 + z mod 64).
    assert (2048 <= r < 65536 /\ (r < 55296 \/ 57343 < r)) as Hr by (unfold r; divmod).
    unfold encode_rune, ValidRune. rewrite (proj2 (Z.ltb_ge r 128)), (proj2 (Z.ltb_ge r 2048)), (proj2 (Z.ltb_lt r 65536)) by lia.
    split_and!; [lia| |lia|lia].
    rewrite (byte_char_of _ c), (byte_char_of _ b1), (byte_char_of _ b2);
      [done|fold z; unfold r; divmod|fold y; unfold r; divmod|fold x; unfold r; divmod]. }
  injection Hl as Hl. destruct n as [|n]; [done|]. cbn in Ht'. destruct (byte_in 128 191 b3) eqn:E3; [|done]. apply byte_in_bounds in E3.
  destruct t as [|b4 t]; cbn in Ht', Hl |- *; [|lia].
  set (x := Z.of_nat (Ascii.nat_of_ascii c)) in *. set (y := Z.of_nat (Ascii.nat_of_ascii b1)) in *.
  set (z := Z.of_nat (Ascii.nat_of_ascii b2)) in *. set (w := Z.of_nat (Ascii.nat_of_ascii b3)) in *.
  set (r := ((x mod 8 * 64 + y mod 64) * 64 + z mod 64) * 64 + w mod 64).
  assert (65536 <= r <= 1114111) as Hr by (unfold r; divmod).
  unfold encode_rune, ValidRune. rewrite (proj2 (Z.ltb_ge r 128)), (proj2 (Z.ltb_ge r 2048)), (proj2 (Z.ltb_ge r 65536)) by lia.
  split_and!; [lia| |lia|lia].
  rewrite (byte_char_of _ c), (byte_char_of _ b1), (byte_char_of _ b2), (byte_char_of _ b3);
    [done|fold w; unfold r; divmod|fold z; unfold r; divmod|fold y; unfold r; divmod|fold x; unfold r; divmod].
Qed.

Section Back.
Context `{UnicodePrint}.

(** [q] is the quoted form of [p]. *)
Definition reads (q p : string) : Prop := forall X, exists d s, q +:+ X = String d s /\
  is_byte 34 d = false /\ is_byte 10 d = false /\ UnquoteChar d s = Some (p, X).

Lemma quoted_rune_back c n lo hi s t :
  rune_lead c = Some (S n, lo, hi) -> take_cont (S n) lo hi s = Some t -> reads (rune_quoted c t) (String c t).
Proof.
  intros Hc Ht X. destruct (take_cont_app _ _ _ _ _ X Ht) as (Ht' & Hd & _ & _).
  pose proof (rune_lead_cases _ _ _ _ Hc) as Hcases. cbv zeta in Hcases. unfold rune_quoted.
  destruct (unicode_print (String c t)).
  - exists c, (t +:+ X). split; [done|]. unfold UnquoteChar. rewrite Hc, Ht', Hd. unfold is_byte.
    rewrite !(proj2 (Nat.eqb_neq _ _)) by lia. done.
  - destruct (rune_code_back _ _ _ _ _ _ Hc Ht) as (Hv & He & Hr). set (r := code_point c t) in *.
    destruct (r <? 65536) eqn:E; [apply Z.ltb_lt in E|]; eexists _, _; (split; [reflexivity|]); (split; [done|]); (split; [done|]);
      rewrite ?app_assoc_string; unfold UnquoteChar; change (is_byte 92 (byte_of 92)) with true; cbn [String.append]; unfold unescape;
      [change (Ascii.nat_of_ascii "u") with 117%nat|change (Ascii.nat_of_ascii "U") with 85%nat]; cbv iota;
      (rewrite read_hex_back by (cbn; lia)); cbn [mbind option_bind]; rewrite Z.mul_0_l, Z.add_0_l, Hv, He; done.
Qed.

Lemma quoted_byte_back c : reads (backslash +:+ "x" +:+ hex 2 (Z.of_nat (Ascii.nat_of_ascii c))) (String c "").
Proof. intros X. destruct (byte_back c X) as (s & E & Hs). exists (byte_of 92), s. rewrite !app_assoc_string. done. Qed.

Lemma reads_step q p Y fuel v rem : reads q p -> (String.length (q +:+ Y) <= fuel)%nat ->
  (forall fuel, (String.length Y <= fuel)%nat -> unquote_loop fuel Y = Some (v, rem)) ->
  unquote_loop fuel (q +:+ Y) = Some (p +:+ v, rem).
Proof.
  intros Hq Hl HY. destruct (Hq Y) as (d & s & E & Hd & Hn & Hu). destruct (Hq "") as (d0 & s0 & E0 & _).
  rewrite length_string_app in Hl. assert (1 <= String.length q)%nat as Hq1.
  { assert (String.length (q +:+ "") = S (String.length s0)) as Hlen by (by rewrite E0). rewrite length_string_app in Hlen. cbn in Hlen. lia. }
  rewrite E. destruct fuel as [|fuel]; [lia|]. cbn [unquote_loop]. rewrite Hd, Hn, Hu. cbn. rewrite HY by lia. done.
Qed.

(** A string as the runes and the stray bytes [Quote] writes one after the other. *)
Lemma quote_from_ind (P : string -> string -> Prop) :
  P "" "" ->
  (forall c s q, is_ascii c = true -> P s q -> P (String c s) (ascii_quoted c +:+ q)) ->
  (forall c s q, P s q -> P (String c s) ((backslash +:+ "x" +:+ hex 2 (Z.of_nat (Ascii.nat_of_ascii c))) +:+ q)) ->
  (forall c n lo hi t s q, rune_lead c = Some (S n, lo, hi) -> take_cont (S n) lo hi t = Some t ->
     P s q -> P (String c t +:+ s) (rune_quoted c t +:+ q)) ->
  forall s, P s (quote_from 0 s).
Proof.
  intros Pnil Pascii Pbyte Prune s. remember (String.length s) as k eqn:Hk. revert s Hk.
  induction (lt_wf k) as [k _ IH]. intros [|c s] Hk; [exact Pnil|]. cbn [quote_from].
  assert (forall t s', s = t +:+ s' -> P s' (quote_from 0 s')) as Hrest.
  { intros t s' ->. apply (IH (String.length s')); [|done]. rewrite Hk. cbn. rewrite length_string_app. lia. }
  assert (P (String c s) (backslash +:+ "x" +:+ hex 2 (Z.of_nat (Ascii.nat_of_ascii c)) +:+ quote_from 0 s)) as Hbad.
  { rewrite <- !app_assoc_string, (app_assoc_string backslash). by apply Pbyte, (Hrest ""). }
  destruct (rune_lead c) as [[[[|n] lo] hi]|] eqn:Ec; [| |done].
  - apply Pascii; [|by apply (Hrest "")]. pose proof (rune_lead_cases _ _ _ _ Ec) as Hcases. cbv zeta in Hcases.
    unfold is_ascii. apply Nat.ltb_lt. lia.
  - destruct (take_cont (S n) lo hi s) as [t|] eqn:Et; [|done].
    destruct (take_cont_app _ _ _ _ _ "" Et) as (Et' & _ & Es & Hlen). rewrite string_app_nil_r in Et'.
    assert (quote_from (S n) s = quote_from 0 (drop_bytes (S n) s)) as ->.
    { rewrite Es at 1. rewrite <- Hlen at 1. apply quote_from_skip. }
    assert (String c s = String c t +:+ drop_bytes (S n) s) as -> by exact (f_equal (String c) Es).
    apply (Prune c n lo hi); [done|done|]. by apply (Hrest t).
Qed.

Lemma unquote_back s X fuel : (String.length (quote_from 0 s +:+ dquote +:+ X) <= fuel)%nat ->
  unquote_loop fuel (quote_from 0 s +:+ dquote +:+ X) = Some (s, X).
Proof.
  revert s fuel. apply (quote_from_ind (fun s q => forall fuel, (String.length (q +:+ dquote +:+ X) <= fuel)%nat ->
    unquote_loop fuel (q +:+ dquote +:+ X) = Some (s, X))).
  - intros fuel Hl. by destruct fuel; [cbn in Hl; lia|].
  - intros c s q Hc IH fuel. rewrite app_assoc_string. intros Hl. apply (reads_step _ (String c "")); [|done|done].
    intros Y. by apply ascii_back.
  - intros c s q IH fuel. rewrite (app_assoc_string (backslash +:+ _)). intros Hl. apply (reads_step _ (String c "")); [apply quoted_byte_back|done|done].
  - intros c n lo hi t s q Hc Ht IH fuel. rewrite app_assoc_string. intros Hl. apply reads_step; [by eapply quoted_rune_back|done|done].
Qed.

(** What [Quote] writes, in front of anything, is read back. *)
Lemma read_quoted_Quote s X : read_quoted (Quote s +:+ X) = Some (s, X).
Proof. unfold Quote. rewrite !app_assoc_string. cbn. apply (unquote_back s X). done. Qed.

Lemma Unquote_Quote s : Unquote (Quote s) = Some s.
Proof. unfold Unquote. rewrite <- (string_app_nil_r (Quote s)), read_quoted_Quote. done. Qed.
End Back.
