(* ===== verification/GoJson.v ===== *)
(** What the program uses of Go's [encoding/json]: [json.MarshalIndent] and [json.Unmarshal] of
    structs with field tags.

    A document is kept as the scanner sees it: strings and numbers as the text between their
    delimiters, objects as their members in order. Marshalling is a value to a document to
    text, unmarshalling the text to a document to a value: the fields that are visible, the
    names and options of their tags, the exact and the case-folded match of a member's name,
    [null], type mismatches and repeated members are as the package has them. The text of a
    float64 is strconv's: the class [FloatText]. *)
From stdpp Require Import pretty sorting.
From S2P Require Import Prelude GoTime GoStrings GoFmt GoTimeFmt GoQuote.
From Stdlib Require Import Ascii SpecFloat.
Open Scope Z_scope.
Open Scope lookout_scope.

(** ** UTF-8 *)

(** [utf8.ValidString] *)
Fixpoint valid_from (skip : nat) (s : string) : bool :=
  match s with
  | EmptyString => true
  | String c s =>
      match skip with
      | S skip => valid_from skip s
      | O =>
          match rune_lead c with
          | Some (n, lo, hi) => match take_cont n lo hi s with Some _ => valid_from n s | None => false end
          | None => false
          end
      end
  end.

Definition ValidString (s : string) : bool := valid_from 0 s.

(** Bytes of no valid encoding become U+FFFD. *)
Definition coerce (s : string) : string := of_runes (Runes s).

Lemma valid_from_skip t s : valid_from (String.length t) (t +:+ s) = valid_from 0 s.
Proof. induction t as [|c t IH]; [done|]. exact IH. Qed.

Lemma runes_from_skip t s : runes_from (String.length t) (t +:+ s) = runes_from 0 s.
Proof. induction t as [|c t IH]; [done|]. exact IH. Qed.

(** A valid string is one encoding after another. *)
Lemma valid_ind (P : string -> Prop) :
  P "" ->
  (forall c s, is_ascii c = true -> P s -> P (String c s)) ->
  (forall c n lo hi t s, rune_lead c = Some (S n, lo, hi) -> take_cont (S n) lo hi t = Some t -> P s -> P (String c t +:+ s)) ->
  forall s, ValidString s = true -> P s.
Proof.
  intros Pnil Pascii Prune s. remember (String.length s) as k eqn:Hk. revert s Hk.
  induction (lt_wf k) as [k _ IH]. intros [|c s] Hk; [done|]. unfold ValidString. cbn [valid_from].
  destruct (rune_lead c) as [[[[|n] lo] hi]|] eqn:Ec; [| |done].
  - cbn [take_cont]. intros Hv. apply Pascii; [|by apply (IH (String.length s)); [subst; cbn; lia|done|]].
    pose proof (rune_lead_cases _ _ _ _ Ec) as Hc. cbv zeta in Hc. unfold is_ascii. apply Nat.ltb_lt. lia.
  - destruct (take_cont (S n) lo hi s) as [t|] eqn:Et; [|done].
    destruct (take_cont_app _ _ _ _ _ "" Et) as (Et' & _ & Es & Hlen). rewrite string_app_nil_r in Et'.
    set (r := drop_bytes (S n) s) in *. intros Hv. assert (valid_from 0 r = true) as Hr.
    { rewrite Es in Hv. rewrite <- Hlen in Hv. by rewrite valid_from_skip in Hv. }
    assert (String c s = String c t +:+ r) as -> by exact (f_equal (String c) Es).
    apply (Prune c n lo hi); [done|done|]. apply (IH (String.length r)); [|done|done].
    rewrite Hk, Es. cbn. rewrite length_string_app. lia.
Qed.

Lemma coerce_valid s : ValidString s = true -> coerce s = s.
Proof.
  revert s. apply (valid_ind (fun s => coerce s = s)); [done| |].
  - intros c s' Hc IH. unfold coerce, Runes in *. cbn [runes_from]. assert (exists lo hi, rune_lead c = Some (0%nat, lo, hi)) as (lo & hi & ->).
    { unfold rune_lead. unfold is_ascii in Hc. rewrite Hc. eauto. }
    cbn [take_cont of_runes foldr String.append]. by rewrite <- IH at 2.
  - intros c n lo hi t s' Hc Ht IH. unfold coerce, Runes in *. cbn [String.append runes_from]. rewrite Hc.
    destruct (take_cont_app _ _ _ _ _ s' Ht) as (-> & _ & _ & Hlen). cbn [of_runes foldr String.append]. f_equal.
    rewrite <- Hlen, runes_from_skip. f_equal. exact IH.
Qed.

(** ** Strings *)

Definition json_ascii (c : ascii) : string :=
  let n := Ascii.nat_of_ascii c in
  match n with
  | 34%nat | 92%nat => backslash +:+ String c ""
  | 8%nat => backslash +:+ "b" | 12%nat => backslash +:+ "f" | 10%nat => backslash +:+ "n"
  | 13%nat => backslash +:+ "r" | 9%nat => backslash +:+ "t"
  | 38%nat | 60%nat | 62%nat => backslash +:+ "u" +:+ hex 4 (Z.of_nat n)
  | _ => if Nat.leb 32 n then String c "" else backslash +:+ "u" +:+ hex 4 (Z.of_nat n)
  end.

(** The line separators are escaped, other runes past ASCII stand for themselves. *)
Definition json_rune (lead : ascii) (cont : string) : string :=
  let r := code_point lead cont in
  if (r =? 8232) || (r =? 8233) then backslash +:+ "u" +:+ hex 4 r else String lead cont.

(** [appendString], without the quotes and with HTML escaped. *)
Fixpoint json_quote_from (skip : nat) (s : string) : string :=
  match s with
  | EmptyString => ""
  | String c s =>
      match skip with
      | S skip => json_quote_from skip s
      | O =>
          match rune_lead c with
          | Some (O, _, _) => json_ascii c +:+ json_quote_from 0 s
          | Some (n, lo, hi) =>
              match take_cont n lo hi s with
              | Some t => json_rune c t +:+ json_quote_from n s
              | None => backslash +:+ "ufffd" +:+ json_quote_from 0 s
              end
          | None => backslash +:+ "ufffd" +:+ json_quote_from 0 s
          end
      end
  end.

Definition json_quote (s : string) : string := json_quote_from 0 s.

Definition is_hex (c : ascii) : bool := bool_decide (is_Some (unhex c)).

(** The scanner in a string: the text up to the closing quote, its escapes checked. *)
Fixpoint scan_string (s : string) : option (string * string) :=
  match s with
  | EmptyString => None
  | String c s =>
      if is_byte 34 c then Some ("", s)
      else if is_byte 92 c then
        match s with
        | String e s =>
            if is_byte 117 e then
              match s with
              | String a (String b (String c' (String d s))) =>
                  if is_hex a && is_hex b && is_hex c' && is_hex d
                  then '(raw, rest) ← scan_string s; Some (String c (String e (String a (String b (String c' (String d raw))))), rest)
                  else None
              | _ => None
              end
            else if existsb (fun n => is_byte n e) [98; 102; 110; 114; 116; 92; 47; 34]%nat
            then '(raw, rest) ← scan_string s; Some (String c (String e raw), rest)
            else None
        | EmptyString => None
        end
      else if Nat.ltb (Ascii.nat_of_ascii c) 32 then None
      else '(raw, rest) ← scan_string s; Some (String c raw, rest)
  end.

Definition hex4 (a b c d : ascii) : Z :=
  match read_hex 4 0 (String a (String b (String c (String d "")))) with Some (r, _) => r | None => 0 end.

(** [utf16.DecodeRune], the halves of a pair; [None] for U+FFFD. *)
Definition DecodeRune (r1 r2 : Z) : option Z :=
  if (55296 <=? r1) && (r1 <? 56320) && (56320 <=? r2) && (r2 <? 57344)
  then Some ((r1 - 55296) * 1024 + (r2 - 56320) + 65536) else None.

Definition simple_escape (e : ascii) : ascii :=
  match Ascii.nat_of_ascii e with
  | 98%nat => byte_of 8 | 102%nat => byte_of 12 | 110%nat => byte_of 10 | 114%nat => byte_of 13 | 116%nat => byte_of 9
  | _ => e
  end.

(** The escapes of a scanned string. *)
Fixpoint json_unescape (s : string) : string :=
  match s with
  | EmptyString => ""
  | String c s =>
      if is_byte 92 c then
        match s with
        | String e s =>
            if is_byte 117 e then
              match s with
              | String a (String b (String c' (String d s))) =>
                  let r := hex4 a b c' d in
                  if (55296 <=? r) && (r <? 57344) then
                    match s with
                    | String bs (String u (String a' (String b' (String c'' (String d' s'))))) =>
                        if is_byte 92 bs && is_byte 117 u then
                          match DecodeRune r (hex4 a' b' c'' d') with
                          | Some r => encode_rune r +:+ json_unescape s'
                          | None => rune_error +:+ json_unescape s
                          end
                        else rune_error +:+ json_unescape s
                    | _ => rune_error +:+ json_unescape s
                    end
                  else encode_rune r +:+ json_unescape s
              | _ => ""
              end
            else String (simple_escape e) (json_unescape s)
        | EmptyString => ""
        end
      else String c (json_unescape s)
  end.

(** [unquoteBytes] of a scanned string; an escape is a whole encoding, so bytes of none on
    either side of it can be replaced at the end. *)
Definition json_unquote (raw : string) : string := coerce (json_unescape raw).

Example json_quote_ex :
  json_quote ("<a" +:+ dquote +:+ String (byte_of 1) "é" +:+ String (byte_of 255) (string_of_bytes [226%nat; 128%nat; 168%nat])) =
  backslash +:+ "u003ca" +:+ backslash +:+ dquote +:+ backslash +:+ "u0001é" +:+ backslash +:+ "ufffd" +:+ backslash +:+ "u2028" /\
  json_unquote (backslash +:+ "ud83d" +:+ backslash +:+ "ude00" +:+ backslash +:+ "n" +:+ backslash +:+ "ud800x") =
  string_of_bytes [240%nat; 159%nat; 152%nat; 128%nat; 10%nat] +:+ rune_error +:+ "x".
Proof. vm_compute. done. Qed.

(** [q] is a way to write [p] inside a string. *)
Definition written (q p : string) : Prop := forall X,
  scan_string (q +:+ X) = ('(raw, rest) ← scan_string X; Some (q +:+ raw, rest)) /\ json_unescape (q +:+ X) = p +:+ json_unescape X.

Lemma written_app q p q' p' : written q p -> written q' p' -> written (q +:+ q') (p +:+ p').
Proof.
  intros Hq Hq' X. rewrite !app_assoc_string. destruct (Hq (q' +:+ X)) as [-> ->]. destruct (Hq' X) as [-> ->]. split; [|done].
  destruct (scan_string X) as [[raw rest]|]; [|done]. cbn. by rewrite app_assoc_string.
Qed.

Lemma json_ascii_written c : is_ascii c = true -> written (json_ascii c) (String c "").
Proof.
  destruct c as [[] [] [] [] [] [] [] []]; intros Hc; try discriminate Hc; clear Hc; intros X; (split; [|reflexivity]);
    match goal with |- context [json_ascii ?c] => let q := eval vm_compute in (json_ascii c) in change (json_ascii c) with q end;
    cbn; destruct (scan_string X) as [[raw rest]|]; reflexivity.
Qed.

Lemma high_written t : forall_bytes (fun c => negb (is_ascii c)) t = true -> written t t.
Proof.
  induction t as [|c t IH]; [intros _ X; cbn; by destruct (scan_string X) as [[]|]|]. cbn [forall_bytes]. intros [Hc Ht]%andb_prop.
  apply (written_app (String c "") (String c "") t t); [|by apply IH]. clear -Hc. unfold is_ascii in Hc. apply negb_true_iff, Nat.ltb_ge in Hc.
  intros X. cbn [String.append scan_string json_unescape]. unfold is_byte. rewrite !(proj2 (Nat.eqb_neq _ _)), (proj2 (Nat.ltb_ge _ 32)) by lia. done.
Qed.

Lemma take_cont_high n lo hi s t : (128 <= lo)%nat -> take_cont n lo hi s = Some t -> forall_bytes (fun c => negb (is_ascii c)) t = true.
Proof.
  revert lo hi s t. induction n as [|n IH]; intros lo hi s t Hlo; [intros [= <-]; done|]. destruct s as [|c s]; [done|]. cbn.
  destruct (byte_in lo hi c) eqn:Eb; [|done]. intros (t' & Ht & ->)%fmap_Some. apply andb_true_intro.
  split; [|by apply (IH 128%nat 191%nat s t'); [lia|]]. apply byte_in_bounds in Eb. apply negb_true_iff, Nat.leb_gt. lia.
Qed.

Lemma separators_written r : r = 8232 \/ r = 8233 -> written (backslash +:+ "u" +:+ hex 4 r) (encode_rune r).
Proof.
  intros [-> | ->]; match goal with |- written ?q ?p => let q' := eval vm_compute in q in let p' := eval vm_compute in p in change (written q' p') end;
    intros X; (split; [|reflexivity]); cbn; destruct (scan_string X) as [[raw rest]|]; reflexivity.
Qed.

Lemma json_rune_written c n lo hi t : rune_lead c = Some (S n, lo, hi) -> take_cont (S n) lo hi t = Some t -> written (json_rune c t) (String c t).
Proof.
  intros Hc Ht. destruct (rune_code_back _ _ _ _ _ _ Hc Ht) as (_ & He & _). unfold json_rune. cbv zeta in He. rewrite <- He at 2.
  pose proof (rune_lead_cases _ _ _ _ Hc) as Hcases. cbv zeta in Hcases.
  destruct ((_ =? 8232) || _) eqn:Er; [apply separators_written; lia|].
  rewrite He. apply high_written. apply andb_true_intro.
  split; [|by apply (take_cont_high (S n) lo hi t t); [lia|]]. apply negb_true_iff, Nat.ltb_ge. lia.
Qed.

Lemma json_quote_from_skip t s : json_quote_from (String.length t) (t +:+ s) = json_quote_from 0 s.
Proof. induction t as [|c t IH]; [done|]. exact IH. Qed.

Lemma json_quote_written s : ValidString s = true -> written (json_quote s) s.
Proof.
  revert s. apply (valid_ind (fun s => written (json_quote s) s)); [by apply (high_written "")| |].
  - intros c s Hc IH. unfold json_quote in *. cbn [json_quote_from]. assert (exists lo hi, rune_lead c = Some (0%nat, lo, hi)) as (lo & hi & ->).
    { unfold rune_lead. unfold is_ascii in Hc. rewrite Hc. eauto. }
    apply (written_app _ (String c "") _ s); [by apply json_ascii_written|done].
  - intros c n lo hi t s Hc Ht IH. unfold json_quote in *. cbn [String.append json_quote_from]. rewrite Hc.
    destruct (take_cont_app _ _ _ _ _ s Ht) as (-> & _ & _ & Hlen). rewrite <- Hlen, json_quote_from_skip.
    apply (written_app _ (String c t) _ s); [by eapply json_rune_written|done].
Qed.

(** A string is scanned to its closing quote and read back. *)
Lemma scan_json_quote s X : ValidString s = true -> scan_string (json_quote s +:+ dquote +:+ X) = Some (json_quote s, X).
Proof.
  intros Hs. destruct (json_quote_written s Hs (dquote +:+ X)) as [-> _].
  change (scan_string (dquote +:+ X)) with (Some ("", X)). cbn [mbind option_bind]. by rewrite string_app_nil_r.
Qed.

Lemma json_unquote_quote s : ValidString s = true -> json_unquote (json_quote s) = s.
Proof.
  intros Hs. unfold json_unquote. destruct (json_quote_written s Hs "") as [_ Hu]. rewrite string_app_nil_r in Hu. rewrite Hu.
  change (json_unescape "") with "". rewrite string_app_nil_r. by apply coerce_valid.
Qed.

(** ** Numbers *)

Fixpoint span_digits (s : string) : string * string :=
  match s with
  | String c r => if is_digit c then let '(ds, rest) := span_digits r in (String c ds, rest) else ("", s)
  | EmptyString => ("", "")
  end.

(** At least one digit. *)
Definition some_digits (s : string) : option (string * string) :=
  let '(ds, rest) := span_digits s in if ds ==s "" then None else Some (ds, rest).

(** A number does not start with a zero it does not need. *)
Definition scan_int (s : string) : option (string * string) :=
  match s with
  | String c r => if is_byte 48 c then Some (String c "", r) else some_digits s
  | EmptyString => None
  end.

Definition scan_fraction (s : string) : option (string * string) :=
  match s with
  | String c r => if is_byte 46 c then '(ds, rest) ← some_digits r; Some (String c ds, rest) else Some ("", s)
  | EmptyString => Some ("", "")
  end.

Definition scan_sign (ns : list nat) (s : string) : string * string :=
  match s with
  | String c r => if existsb (fun n => is_byte n c) ns then (String c "", r) else ("", s)
  | EmptyString => ("", "")
  end.

Definition scan_exponent (s : string) : option (string * string) :=
  match s with
  | String c r =>
      if is_byte 101 c || is_byte 69 c
      then let '(sign, r) := scan_sign [43; 45]%nat r in '(ds, rest) ← some_digits r; Some (String c (sign +:+ ds), rest)
      else Some ("", s)
  | EmptyString => Some ("", "")
  end.

Definition scan_number (s : string) : option (string * string) :=
  let '(sign, s) := scan_sign [45]%nat s in
  '(int, s) ← scan_int s; '(frac, s) ← scan_fraction s; '(exp, s) ← scan_exponent s;
  Some (sign +:+ int +:+ frac +:+ exp, s).

Example scan_number_ex :
  scan_number "-0.5e+10," = Some ("-0.5e+10", ",") /\ scan_number "01" = Some ("0", "1") /\ scan_number "1.e" = None /\ scan_number "-" = None.
Proof. vm_compute. done. Qed.

(** What follows a number in a document. *)
Definition number_end (s : string) : Prop :=
  match s with String c _ => is_digit c = false /\ existsb (fun n => is_byte n c) [46; 101; 69]%nat = false | EmptyString => True end.

Section number.
Variable X : string.
Hypothesis HX : number_end X.

Lemma span_digits_app s a b : span_digits s = (a, b) -> span_digits (s +:+ X) = (a, b +:+ X).
Proof.
  revert a b. induction s as [|c s IH]; intros a b; cbn [span_digits String.append].
  - intros [= <- <-]. destruct X as [|c r]; [done|]. cbn. by rewrite (proj1 HX).
  - destruct (is_digit c); [|by intros [= <- <-]]. destruct (span_digits s) as [ds rest]. intros [= <- <-]. by rewrite (IH ds rest).
Qed.

Lemma some_digits_app s a b : some_digits s = Some (a, b) -> some_digits (s +:+ X) = Some (a, b +:+ X).
Proof.
  unfold some_digits. destruct (span_digits s) as [ds rest] eqn:E. rewrite (span_digits_app _ _ _ E).
  destruct (ds ==s ""); [done|]. by intros [= <- <-].
Qed.

Lemma scan_int_app s a b : scan_int s = Some (a, b) -> scan_int (s +:+ X) = Some (a, b +:+ X).
Proof. destruct s as [|c s]; [done|]. cbn [scan_int String.append]. destruct (is_byte 48 c); [by intros [= <- <-]|]. apply (some_digits_app (String c s)). Qed.

Lemma scan_fraction_app s a b : scan_fraction s = Some (a, b) -> scan_fraction (s +:+ X) = Some (a, b +:+ X).
Proof.
  destruct s as [|c s]; cbn [scan_fraction String.append].
  - intros [= <- <-]. destruct X as [|c r]; [done|]. destruct HX as [_ He]. cbn [existsb] in He. cbn [scan_fraction String.append].
    by destruct (is_byte 46 c).
  - destruct (is_byte 46 c); [|by intros [= <- <-]]. destruct (some_digits s) as [[ds rest]|] eqn:E; [|done].
    rewrite (some_digits_app _ _ _ E). by intros [= <- <-].
Qed.

Lemma scan_sign_app ns s a b : scan_sign ns s = (a, b) -> b <> "" -> scan_sign ns (s +:+ X) = (a, b +:+ X).
Proof. destruct s as [|c s]; [by intros [= <- <-]|]. cbn [scan_sign String.append]. destruct (existsb _ ns); by intros [= <- <-]. Qed.

Lemma scan_exponent_app s a b : scan_exponent s = Some (a, b) -> scan_exponent (s +:+ X) = Some (a, b +:+ X).
Proof.
  destruct s as [|c s]; cbn [scan_exponent String.append].
  - intros [= <- <-]. destruct X as [|c r]; [done|]. destruct HX as [_ He]. cbn [existsb] in He. cbn [scan_exponent String.append].
    destruct (is_byte 46 c), (is_byte 101 c), (is_byte 69 c); done.
  - destruct (_ || _); [|by intros [= <- <-]]. destruct (scan_sign _ s) as [sign r] eqn:Es.
    destruct (some_digits r) as [[ds rest]|] eqn:E; [|done]. rewrite (scan_sign_app _ _ _ _ Es) by (intros ->; discriminate E).
    rewrite (some_digits_app _ _ _ E). by intros [= <- <-].
Qed.

Lemma scan_number_app s a b : scan_number s = Some (a, b) -> scan_number (s +:+ X) = Some (a, b +:+ X).
Proof.
  unfold scan_number. destruct (scan_sign _ s) as [sign r] eqn:Es. destruct (scan_int r) as [[int r1]|] eqn:Ei; [|done].
  rewrite (scan_sign_app _ _ _ _ Es) by (intros ->; discriminate Ei). rewrite (scan_int_app _ _ _ Ei). cbn [mbind option_bind].
  destruct (scan_fraction r1) as [[frac r2]|] eqn:Ef; [|done]. rewrite (scan_fraction_app _ _ _ Ef). cbn [mbind option_bind].
  destruct (scan_exponent r2) as [[exp r3]|] eqn:Ee; [|done]. rewrite (scan_exponent_app _ _ _ Ee). by intros [= <- <-].
Qed.
End number.

(** The text of a number, whole. *)
Definition is_number (t : string) : Prop := scan_number t = Some (t, "").

Lemma number_starts t : is_number t -> exists c r, t = String c r /\ let n := Ascii.nat_of_ascii c in n = 45%nat \/ (48 <= n <= 57)%nat.
Proof.
  unfold is_number, scan_number. destruct t as [|c r]; [done|]. exists c, r. split; [done|]. cbn [scan_sign existsb] in *.
  destruct (is_byte 45 c) eqn:E45; [left; by apply Nat.eqb_eq|right]. cbn [orb scan_int] in *. destruct (is_byte 48 c) eqn:E.
  - apply Nat.eqb_eq in E. lia.
  - unfold some_digits in *. cbn [span_digits] in *. destruct (is_digit c) eqn:Ed; [|done]. unfold is_digit in Ed.
    apply andb_prop in Ed as [?%Nat.leb_le ?%Nat.leb_le]. lia.
Qed.

Lemma itoa_starts (x : N) s : (x <> 0)%N -> exists c r, pretty_N_go x s = String c r /\ is_byte 48 c = false.
Proof.
  revert s. induction (N.lt_wf_0 x) as [x _ IH]. intros s Hx. rewrite pretty_N_go_step by lia.
  destruct (decide (x / 10 = 0)%N) as [E|Hq]; [|apply IH; [apply N.div_lt; lia|done]]. rewrite E. cbn. eexists _, _. split; [done|].
  assert (x mod 10 = x)%N as Hm by (apply N.mod_small; apply N.div_small_iff in E; lia). rewrite Hm.
  destruct (pretty_N_char_digit x) as [Hd _]; [apply N.div_small_iff in E; lia|]. unfold is_byte. apply Nat.eqb_neq. lia.
Qed.

Lemma span_all_digits s : forall_bytes is_digit s = true -> span_digits s = (s, "").
Proof. induction s as [|c s IH]; [done|]. cbn. intros [-> Hs]%andb_prop. by rewrite IH. Qed.

Lemma is_number_itoa n : is_number (itoa n).
Proof.
  assert (forall p, let t := pretty_N_go (N.pos p) "" in scan_sign [45]%nat t = ("", t) /\ scan_int t = Some (t, "")) as Hpos.
  { intros p t. destruct (itoa_digits (Z.pos p)) as [Hd _]; [lia|]. change (itoa (Z.pos p)) with t in Hd.
    destruct (itoa_starts (N.pos p) "") as (c & r & E & Hc); [lia|]. fold t in E. rewrite E in *. cbn [scan_sign scan_int existsb]. rewrite Hc.
    unfold some_digits. rewrite (span_all_digits _ Hd). split; [|done]. cbn in Hd. apply andb_prop in Hd as [Hd _].
    destruct (is_byte 45 c) eqn:E45; [|done]. apply Nat.eqb_eq in E45. unfold is_digit in Hd. by rewrite E45 in Hd. }
  destruct n as [|p|p]; [done| |].
  - change (itoa (Z.pos p)) with (pretty_N_go (N.pos p) ""). unfold is_number, scan_number. destruct (Hpos p) as [-> Hi]. rewrite Hi.
    cbn. by rewrite string_app_nil_r.
  - change (itoa (Z.neg p)) with ("-" +:+ pretty_N_go (N.pos p) ""). unfold is_number, scan_number. cbn [scan_sign String.append].
    change (existsb _ [45%nat]) with true. cbv iota. destruct (Hpos p) as [_ ->]. cbn. by rewrite string_app_nil_r.
Qed.

Lemma ParseInt_int64 n : in_int64 n -> ParseInt (itoa n) = Some n.
Proof.
  unfold in_int64. intros Hn. destruct (decide (0 <= n)) as [H0|H0]; [apply ParseInt_itoa; lia|]. destruct n as [|p|p]; [lia|lia|].
  destruct (itoa_digits (Z.pos p)) as [_ Hp]; [lia|]. change (itoa (Z.neg p)) with ("-" +:+ itoa (Z.pos p)).
  unfold ParseInt. cbn [String.append]. change (Ascii.eqb "-" "-") with true. cbv iota.
  destruct (itoa_starts (N.pos p) "") as (c & r & E & _); [lia|]. change (itoa (Z.pos p)) with (pretty_N_go (N.pos p) "") in *. rewrite E in *.
  rewrite bool_decide_eq_false_2 by done. rewrite Hp. cbn [mbind]. replace (-1 * Z.pos p) with (Z.neg p) by lia.
  rewrite (proj2 (Z.leb_le _ _)), (proj2 (Z.leb_le _ _)) by lia. done.
Qed.

(** ** Documents *)

Inductive json :=
  | JNull
  | JBool (b : bool)
  | JNum (text : string)
  | JStr (raw : string)
  | JArr (items : list json)
  | JObj (members : list (string * json)).

(** *** The text, indented by two spaces *)

Fixpoint spaces_of (n : nat) : string := match n with O => "" | S n => "  " +:+ spaces_of n end.
Definition newline (depth : nat) : string := String (byte_of 10) (spaces_of depth).

Fixpoint print (depth : nat) (j : json) : string :=
  match j with
  | JNull => "null"
  | JBool b => if b then "true" else "false"
  | JNum t => t
  | JStr raw => dquote +:+ raw +:+ dquote
  | JArr [] => "[]"
  | JArr l => "[" +:+ String.concat "," (map (fun j => newline (S depth) +:+ print (S depth) j) l) +:+ newline depth +:+ "]"
  | JObj [] => "{}"
  | JObj l =>
      "{" +:+ String.concat "," (map (fun m => newline (S depth) +:+ dquote +:+ m.1 +:+ dquote +:+ ": " +:+ print (S depth) m.2) l)
      +:+ newline depth +:+ "}"
  end.

(** *** The scanner *)

Fixpoint skip_ws (s : string) : string :=
  match s with
  | String c r => if existsb (fun n => is_byte n c) [32; 9; 13; 10]%nat then skip_ws r else s
  | EmptyString => ""
  end.

(** The byte [n], behind white space. *)
Definition expect (n : nat) (s : string) : option string :=
  match skip_ws s with String c r => if is_byte n c then Some r else None | EmptyString => None end.

Section items.
Variable A : Type.
Variable item : string -> option (A * string).
Variable close : nat.

(** Items between commas, up to the closing byte. *)
Fixpoint scan_items (fuel : nat) (s : string) : option (list A * string) :=
  match fuel with
  | O => None
  | S fuel =>
      '(x, s) ← item s;
      match expect 44 s with
      | Some s => '(xs, s) ← scan_items fuel s; Some (x :: xs, s)
      | None => s ← expect close s; Some ([x], s)
      end
  end.

(** An array or an object behind its opening byte; an item is at least a byte. *)
Definition scan_list (s : string) : option (list A * string) :=
  match expect close s with
  | Some s => Some ([], s)
  | None => scan_items (String.length s) s
  end.
End items.
#[local] Arguments scan_items {A} item close fuel s.
#[local] Arguments scan_list {A} item close s.

Definition scan_member (value : string -> option (json * string)) (s : string) : option (string * json * string) :=
  s ← expect 34 s; '(name, s) ← scan_string s; s ← expect 58 s; '(j, s) ← value s; Some (name, j, s).

(** A value behind white space; [depth] is how many arrays and objects may still open. *)
Fixpoint scan_value (depth : nat) (s : string) : option (json * string) :=
  match skip_ws s with
  | EmptyString => None
  | String c r =>
      if is_byte 34 c then '(raw, s) ← scan_string r; Some (JStr raw, s)
      else if is_byte 91 c then
        match depth with O => None | S depth => '(l, s) ← scan_list (scan_value depth) 93 r; Some (JArr l, s) end
      else if is_byte 123 c then
        match depth with O => None | S depth => '(l, s) ← scan_list (scan_member (scan_value depth)) 125 r; Some (JObj l, s) end
      else if is_byte 110 c then s ← strip_prefix "ull" r; Some (JNull, s)
      else if is_byte 116 c then s ← strip_prefix "rue" r; Some (JBool true, s)
      else if is_byte 102 c then s ← strip_prefix "alse" r; Some (JBool false, s)
      else '(t, s) ← scan_number (String c r); Some (JNum t, s)
  end.

Definition maxNestingDepth : nat := Z.to_nat 10000.

(** A document is one value and white space. *)
Definition Parse (s : string) : option json :=
  '(j, s) ← scan_value maxNestingDepth s; if skip_ws s ==s "" then Some j else None.

Example document_ex :
  let text := print 0 (JObj [("a", JArr [JNum "1"; JNull]); ("b", JObj []); ("c", JStr "x")]) in
  text = "{" +:+ String (byte_of 10) ("  " +:+ dquote +:+ "a" +:+ dquote +:+ ": [" +:+ String (byte_of 10) ("    1," +:+ String (byte_of 10)
    ("    null" +:+ String (byte_of 10) ("  ]," +:+ String (byte_of 10) ("  " +:+ dquote +:+ "b" +:+ dquote +:+ ": {}," +:+ String (byte_of 10)
    ("  " +:+ dquote +:+ "c" +:+ dquote +:+ ": " +:+ dquote +:+ "x" +:+ dquote +:+ String (byte_of 10) "}")))))) /\
  Parse text = Some (JObj [("a", JArr [JNum "1"; JNull]); ("b", JObj []); ("c", JStr "x")]) /\
  Parse "[1,]" = None /\ Parse "[1] 2" = None /\ Parse " [ ] " = Some (JArr []).
Proof. vm_compute. done. Qed.

(** *** What is printed is scanned *)

(** A document of at most [k] arrays and objects one inside the other, with numbers and
    strings as the scanner takes them. *)
Inductive good : nat -> json -> Prop :=
  | good_null k : good k JNull
  | good_bool k b : good k (JBool b)
  | good_num k t : is_number t -> good k (JNum t)
  | good_str k raw : (forall X, scan_string (raw +:+ dquote +:+ X) = Some (raw, X)) -> good k (JStr raw)
  | good_arr k l : Forall (good k) l -> good (S k) (JArr l)
  | good_obj k l : Forall (fun m => (forall X, scan_string (m.1 +:+ dquote +:+ X) = Some (m.1, X)) /\ good k m.2) l -> good (S k) (JObj l).

Lemma skip_ws_newline d s : skip_ws (newline d +:+ s) = skip_ws s.
Proof. unfold newline. change (skip_ws (spaces_of d +:+ s) = skip_ws s). induction d as [|d IH]; [done|]. exact IH. Qed.

Lemma expect_newline n d s : expect n (newline d +:+ s) = expect n s.
Proof. unfold expect. by rewrite skip_ws_newline. Qed.

Lemma scan_value_ws k s s' : skip_ws s = skip_ws s' -> scan_value k s = scan_value k s'.
Proof. intros E. destruct k; cbn [scan_value]; by rewrite E. Qed.

Lemma newline_end d X : number_end (newline d +:+ X).
Proof. done. Qed.

Section items_back.
Context {A : Type} (item : string -> option (A * string)) (show : A -> string) (close : nat) (end_ : ascii) (d d' : nat).
Hypothesis Hclose : is_byte close end_ = true.
Hypothesis Hend : existsb (fun n => is_byte n end_) [32; 9; 13; 10; 44]%nat = false.

Definition shown (l : list A) : string := String.concat "," (map (fun x => newline d +:+ show x) l).

Definition item_back (x : A) : Prop :=
  (forall X, number_end X -> item (newline d +:+ show x +:+ X) = Some (x, X)) /\ (forall Y, expect close (show x +:+ Y) = None).

Lemma expect_end n X : expect n (String end_ X) = if is_byte n end_ then Some X else None.
Proof.
  unfold expect. cbn [skip_ws]. cbn [existsb] in *. by destruct (is_byte 32 end_), (is_byte 9 end_), (is_byte 13 end_), (is_byte 10 end_).
Qed.

Lemma end_no_comma : is_byte 44 end_ = false.
Proof. cbn [existsb] in Hend. destruct (is_byte 44 end_); [|done]. by rewrite !orb_true_r in Hend. Qed.

Lemma scan_items_back l fuel X : Forall item_back l -> l <> [] -> (length l <= fuel)%nat ->
  scan_items item close fuel (shown l +:+ newline d' +:+ String end_ X) = Some (l, X).
Proof.
  revert fuel. induction l as [|x l IH]; intros fuel Hl Hne Hf; [done|]. destruct fuel as [|fuel]; [cbn in Hf; lia|]. cbn [scan_items].
  apply Forall_cons_1 in Hl as [[Hx _] Hl]. destruct l as [|y l].
  - change (shown [x]) with (newline d +:+ show x). rewrite app_assoc_string, Hx by apply newline_end. cbn [mbind option_bind].
    by rewrite !expect_newline, !expect_end, end_no_comma, Hclose.
  - change (shown (x :: y :: l)) with ((newline d +:+ show x) +:+ "," +:+ shown (y :: l)). rewrite !app_assoc_string, Hx by done. cbn [mbind option_bind].
    change (expect 44 ("," +:+ ?s)) with (Some s). cbv beta iota. rewrite (IH fuel Hl) by (done || (cbn [length] in *; lia)). done.
Qed.

Lemma shown_length l : (length l <= String.length (shown l))%nat.
Proof.
  induction l as [|x [|y l] IH]; [done|cbn; lia|]. change (shown (x :: y :: l)) with ((newline d +:+ show x) +:+ "," +:+ shown (y :: l)).
  rewrite !length_string_app. cbn [length] in *. change (String.length ",") with 1%nat. lia.
Qed.

Lemma scan_list_back l X : Forall item_back l -> l <> [] -> scan_list item close (shown l +:+ newline d' +:+ String end_ X) = Some (l, X).
Proof.
  intros Hl Hne. unfold scan_list. assert (expect close (shown l +:+ newline d' +:+ String end_ X) = None) as ->.
  { destruct l as [|x [|y l]]; [done| |]; apply Forall_cons_1 in Hl as [[_ Hx] _].
    - change (shown [x]) with (newline d +:+ show x). by rewrite app_assoc_string, expect_newline, Hx.
    - change (shown (x :: y :: l)) with ((newline d +:+ show x) +:+ "," +:+ shown (y :: l)). by rewrite !app_assoc_string, expect_newline, Hx. }
  apply scan_items_back; [done|done|]. rewrite length_string_app. pose proof (shown_length l). lia.
Qed.
End items_back.

(** A printed value starts with a byte that is neither white space nor a closing bracket. *)
Lemma print_expect k d j Y : good k j -> expect 93 (print d j +:+ Y) = None.
Proof.
  intros Hj. destruct Hj as [k|k b|k t Ht|k raw _|k l _|k l _]; cbn [print]; try done; [by destruct b| |by destruct l|by destruct l].
  destruct (number_starts t Ht) as (c & r & -> & Hc). cbv zeta in Hc. unfold expect. cbn [String.append skip_ws].
  assert (existsb (fun n => is_byte n c) [32; 9; 13; 10; 93]%nat = false) as He.
  { unfold is_byte. cbn [existsb]. rewrite !(proj2 (Nat.eqb_neq _ _)) by lia. done. }
  cbn [existsb] in *. destruct (is_byte 32 c), (is_byte 9 c), (is_byte 13 c), (is_byte 10 c); try done. cbn in *. by destruct (is_byte 93 c).
Qed.

Lemma scan_number_value k t X : is_number t -> number_end X -> scan_value k (t +:+ X) = Some (JNum t, X).
Proof.
  intros Ht HX. pose proof (scan_number_app X HX t t "" Ht) as Hs. destruct (number_starts t Ht) as (c & r & -> & Hc). cbv zeta in Hc. cbn [String.append] in *.
  assert (existsb (fun n => is_byte n c) [32; 9; 13; 10]%nat = false) as He.
  { unfold is_byte. cbn [existsb]. rewrite !(proj2 (Nat.eqb_neq _ _)) by lia. done. }
  assert (is_byte 34 c = false /\ is_byte 91 c = false /\ is_byte 123 c = false /\ is_byte 110 c = false /\ is_byte 116 c = false /\ is_byte 102 c = false)
    as (H1 & H2 & H3 & H4 & H5 & H6) by (unfold is_byte; rewrite !(proj2 (Nat.eqb_neq _ _)) by lia; done).
  destruct k; cbn [scan_value skip_ws]; rewrite He, H1, H2, H3, H4, H5, H6, Hs; done.
Qed.

Lemma scan_print k j d X : good k j -> number_end X -> scan_value k (print d j +:+ X) = Some (j, X).
Proof.
  revert j d X. induction k as [|k IH]; intros j d X Hj HX.
  { inversion Hj; subst; cbn [print]; [done|by destruct b|by apply scan_number_value|].
    rewrite !app_assoc_string. change (scan_value 0 (dquote +:+ ?w)) with ('(raw, s) ← scan_string w; Some (JStr raw, s)). by rewrite H. }
  inversion Hj as [|? b|? t Ht|? raw Hr|? l Hl|? l Hl]; subst; cbn [print]; [done|by destruct b|by apply scan_number_value| | |].
  - rewrite !app_assoc_string. change (scan_value (S k) (dquote +:+ ?w)) with ('(raw, s) ← scan_string w; Some (JStr raw, s)). by rewrite Hr.
  - destruct l as [|j l]; [done|]. rewrite !app_assoc_string.
    change (scan_value (S k) ("[" +:+ ?w)) with ('(l, s) ← scan_list (scan_value k) 93 w; Some (JArr l, s)).
    match goal with |- context [scan_list ?item ?close ?text] => assert (scan_list item close text = Some (j :: l, X)) as -> end; [|done].
    apply (scan_list_back (scan_value k) (print (S d)) 93 "]" (S d) d); [done|done| |done].
    eapply list.Forall_impl; [exact Hl|]. intros x Hx. split; [|intros Y; by eapply print_expect].
    intros Y HY. rewrite (scan_value_ws _ _ (print (S d) x +:+ Y)) by apply skip_ws_newline. by apply IH.
  - destruct l as [|j l]; [done|]. rewrite !app_assoc_string.
    change (scan_value (S k) ("{" +:+ ?w)) with ('(l, s) ← scan_list (scan_member (scan_value k)) 125 w; Some (JObj l, s)).
    match goal with |- context [scan_list ?item ?close ?text] => assert (scan_list item close text = Some (j :: l, X)) as -> end; [|done].
    apply (scan_list_back (scan_member (scan_value k)) (fun m => dquote +:+ m.1 +:+ dquote +:+ ": " +:+ print (S d) m.2) 125 "}" (S d) d); [done|done| |done].
    eapply list.Forall_impl; [exact Hl|]. intros [name x] [Hn Hx]. split; [|done]. cbn [fst snd] in *.
    intros Y HY. unfold scan_member. rewrite expect_newline, !app_assoc_string. change (expect 34 (dquote +:+ ?s)) with (Some s).
    cbn [mbind option_bind]. rewrite Hn. cbn [mbind option_bind]. change (expect 58 (": " +:+ ?s)) with (Some (" " +:+ s)). cbn [mbind option_bind].
    rewrite (scan_value_ws _ _ (print (S d) x +:+ Y)) by done. rewrite IH by done. done.
Qed.

Lemma good_mono k k' j : (k <= k')%nat -> good k j -> good k' j.
Proof.
  revert k' j. induction k as [|k IH]; intros k' j Hk Hj; [inversion Hj; subst; by constructor|].
  destruct k' as [|k']; [lia|]. inversion Hj; subst; constructor; try done;
    (eapply list.Forall_impl; [eassumption|]); [intros x; apply IH; lia|intros m [? ?]; split; [done|]; apply (IH k'); [lia|done]].
Qed.

(** A document is read back from its text. *)
Lemma Parse_print k j : good k j -> (k <= maxNestingDepth)%nat -> Parse (print 0 j) = Some j.
Proof.
  intros Hj Hk. unfold Parse. rewrite <- (string_app_nil_r (print 0 j)), (scan_print _ _ _ "" (good_mono _ _ _ Hk Hj)) by done. done.
Qed.

(** ** Values *)

(** What marshalling a field yields: an error, nothing ([omitempty], [omitzero]), a value. *)
Inductive encoded := EncError | Omitted | Encoded (j : json).

(** Marshalling is told the zone each instant is kept in, unmarshalling the value the target
    holds; [None] is an error. *)
Record codec (A : Type) := mkCodec { cd_enc : (Time -> Z) -> A -> encoded; cd_dec : json -> A -> option A }.
#[global] Arguments mkCodec {A}.
#[global] Arguments cd_enc {A}.
#[global] Arguments cd_dec {A}.

(** [,omitempty] or [,omitzero] *)
Definition omit_if {A} (empty : A -> bool) (c : codec A) : codec A :=
  mkCodec (fun zone a => if empty a then Omitted else cd_enc c zone a) (cd_dec c).

Definition string_codec : codec string :=
  mkCodec (fun _ s => Encoded (JStr (json_quote s)))
    (fun j old => match j with JStr raw => Some (json_unquote raw) | JNull => Some old | _ => None end).

Definition bool_codec : codec bool :=
  mkCodec (fun _ b => Encoded (JBool b)) (fun j old => match j with JBool b => Some b | JNull => Some old | _ => None end).

Definition int_codec : codec Z :=
  mkCodec (fun _ n => Encoded (JNum (itoa n))) (fun j old => match j with JNum t => ParseInt t | JNull => Some old | _ => None end).

(** A [[]string] keeps the element a [null] stands for. *)
Fixpoint string_items (js : list json) (old : list string) : option (list string) :=
  match js with
  | [] => Some []
  | j :: js => s ← cd_dec string_codec j (default "" (head old)); l ← string_items js (tail old); Some (s :: l)
  end.

Definition strings_codec : codec (list string) :=
  mkCodec (fun _ l => Encoded (JArr (map (fun s => JStr (json_quote s)) l)))
    (fun j old => match j with JArr js => string_items js old | JNull => Some [] | _ => None end).

(** A [time.Time]: its own text, not the unquoted one, is parsed. *)
Definition time_codec : codec Time :=
  mkCodec (fun zone t => if strict_RFC3339 (zone t) t then Encoded (JStr (RFC3339Nano (zone t) t)) else EncError)
    (fun j old => match j with JStr raw => Parse_RFC3339 raw | JNull => Some old | _ => None end).

(** A float64 that is a number; the others are an error. *)
Definition f64_finite (x : float64) : bool :=
  match x with S754_zero _ => true | S754_finite _ _ _ => valid_binary 53 1024 x | S754_infinity _ | S754_nan => false end.

(** strconv's text of a float64: the shortest number that parses as it. *)
Class FloatText := {
  float_text : float64 -> string;
  ParseFloat : string -> option float64;
  float_text_back : forall x, f64_finite x = true -> is_number (float_text x) /\ ParseFloat (float_text x) = Some x
}.

Definition float_codec `{FloatText} : codec float64 :=
  mkCodec (fun _ x => if f64_finite x then Encoded (JNum (float_text x)) else EncError)
    (fun j old => match j with JNum t => ParseFloat t | JNull => Some old | _ => None end).

Definition f64_is_zero (x : float64) : bool := match x with S754_zero _ => true | _ => false end.

(** ** Structs *)

(** A field: its name in the document, how deep the struct it comes from is embedded. *)
Record field (T : Type) := Field {
  fd_type : Type; fd_name : string; fd_depth : nat; fd_codec : codec fd_type; fd_get : T -> fd_type; fd_set : fd_type -> T -> T
}.
#[global] Arguments Field {T fd_type}.
#[global] Arguments fd_type {T}.
#[global] Arguments fd_name {T}.
#[global] Arguments fd_depth {T}.
#[global] Arguments fd_codec {T}.
#[global] Arguments fd_get {T}.
#[global] Arguments fd_set {T}.

(** [foldName]: the two runes past ASCII that fold to a letter, and the letters. *)
Definition fold_rune (r : string) : string :=
  match r with
  | String c EmptyString => if byte_in 97 122 c then String (byte_of (Ascii.nat_of_ascii c - 32)) "" else r
  | _ => if r ==s string_of_bytes [197%nat; 191%nat] then "S" else if r ==s string_of_bytes [226%nat; 132%nat; 170%nat] then "K" else r
  end.

Definition foldName (s : string) : string := of_runes (map fold_rune (Runes s)).

Section struct.
Context {T : Type}.
Implicit Types fs : list (field T).

(** [typeFields]: of the fields of one name the least embedded counts, and none when
    there are two of them. *)
Definition visible fs : list (field T) :=
  List.filter (fun f => Nat.eqb (length (List.filter (fun g => (fd_name g ==s fd_name f) && Nat.leb (fd_depth g) (fd_depth f)) fs)) 1) fs.

(** The members a struct is marshalled to; [None] is an error. *)
Fixpoint members_of (zone : Time -> Z) fs (x : T) : option (list (string * json)) :=
  match fs with
  | [] => Some []
  | f :: fs =>
      match cd_enc (fd_codec f) zone (fd_get f x) with
      | EncError => None
      | Omitted => members_of zone fs x
      | Encoded j => l ← members_of zone fs x; Some ((json_quote (fd_name f), j) :: l)
      end
  end.

Definition find_field fs (name : string) : option (field T) :=
  match List.find (fun f => fd_name f ==s name) fs with
  | Some f => Some f
  | None => List.find (fun f => foldName (fd_name f) ==s foldName name) fs
  end.

(** A member sets its field, over what the members before it left there; members of no
    field are ignored. *)
Fixpoint apply_members fs (ms : list (string * json)) (x : T) : option T :=
  match ms with
  | [] => Some x
  | (name, j) :: ms =>
      match find_field fs (json_unquote name) with
      | None => apply_members fs ms x
      | Some f => a ← cd_dec (fd_codec f) j (fd_get f x); apply_members fs ms (fd_set f a x)
      end
  end.

(** A pointer to a struct: a member of an object is set in the struct already there. *)
Definition pointer_codec fs (zero : T) : codec (option T) :=
  mkCodec
    (fun zone p => match p with
              | None => Encoded JNull
              | Some x => match members_of zone (visible fs) x with Some ms => Encoded (JObj ms) | None => EncError end
              end)
    (fun j old => match j with
                  | JNull => Some None
                  | JObj ms => Some <$> apply_members (visible fs) ms (default zero old)
                  | _ => None
                  end).
End struct.

(** The fields of an embedded struct, a level deeper. *)
Definition embed {T U : Type} (get : T -> U) (set : U -> T -> T) (f : field U) : field T :=
  Field (fd_name f) (S (fd_depth f)) (fd_codec f) (fun x => fd_get f (get x)) (fun a x => set (fd_set f a (get x)) x).

Definition opt_string : codec string := omit_if (fun s => s ==s "") string_codec.
Definition opt_bool : codec bool := omit_if negb bool_codec.
Definition opt_int : codec Z := omit_if (fun n => n =? 0) int_codec.
Definition opt_strings : codec (list string) := omit_if (fun l => match l with [] => true | _ => false end) strings_codec.
Definition opt_float `{FloatText} : codec float64 := omit_if f64_is_zero float_codec.
Definition opt_time : codec Time := omit_if IsZero time_codec.

Definition is_nil {A} (p : option A) : bool := match p with Some _ => false | None => true end.

(** ** Maps with string keys

    The keys of a map are marshalled in order; a key that comes again replaces the value. *)

Definition by_key {A} (x y : string * A) : Prop := string_le x.1 y.1.

#[global] Instance by_key_dec {A} (x y : string * A) : Decision (by_key x y).
Proof. unfold by_key. apply _. Defined.

Section maps.
Context {A : Type} (c : codec A) (zero : A).

Fixpoint map_members (zone : Time -> Z) (l : list (string * A)) : option (list (string * json)) :=
  match l with
  | [] => Some []
  | (key, a) :: l =>
      match cd_enc c zone a with
      | Encoded j => ms ← map_members zone l; Some ((json_quote key, j) :: ms)
      | EncError | Omitted => None
      end
  end.

(** [json.MarshalIndent(m, "", "  ")] *)
Definition MarshalIndent (zone : Time -> Z) (m : gmap string A) : option string :=
  ms ← map_members zone (merge_sort by_key (map_to_list m)); Some (print 0 (JObj ms)).

Fixpoint members_map (ms : list (string * json)) (m : gmap string A) : option (gmap string A) :=
  match ms with
  | [] => Some m
  | (name, j) :: ms => a ← cd_dec c j zero; members_map ms (<[json_unquote name := a]> m)
  end.

(** [json.Unmarshal(data, &m)] of a nil [m]. *)
Definition Unmarshal (data : string) : option (gmap string A) :=
  j ← Parse data;
  match j with
  | JNull => Some ∅
  | JObj ms => members_map ms ∅
  | _ => None
  end.
End maps.

(** ** What is marshalled is unmarshalled *)

(** The value [a] comes back over [old], when it can be marshalled at all. *)
Definition comes_back {A} (zone : Time -> Z) (k : nat) (c : codec A) (old a : A) : Prop :=
  match cd_enc c zone a with
  | EncError => True
  | Omitted => old = a
  | Encoded j => good k j /\ cd_dec c j old = Some a
  end.

Lemma back_omit {A} zone k (c : codec A) empty old a : (empty a = true -> old = a) -> comes_back zone k c old a -> comes_back zone k (omit_if empty c) old a.
Proof. unfold comes_back. cbn. destruct (empty a); auto. Qed.

Lemma good_quote k s : ValidString s = true -> good k (JStr (json_quote s)).
Proof. intros Hs. constructor. intros X. by apply scan_json_quote. Qed.

Lemma back_string zone k old s : ValidString s = true -> comes_back zone k string_codec old s.
Proof. intros Hs. split; [by apply good_quote|]. cbn. by rewrite json_unquote_quote. Qed.

Lemma back_bool zone k old b : comes_back zone k bool_codec old b.
Proof. split; [constructor|done]. Qed.

Lemma back_int zone k old n : in_int64 n -> comes_back zone k int_codec old n.
Proof. intros Hn. split; [constructor; apply is_number_itoa|]. cbn. by rewrite ParseInt_int64. Qed.

Lemma back_strings zone k old l : Forall (fun s => ValidString s = true) l -> comes_back zone (S k) strings_codec old l.
Proof.
  intros Hl. split.
  - constructor. induction Hl; constructor; [by apply good_quote|done].
  - cbn. revert old. induction Hl as [|s l Hs Hl IH]; intros old; [done|]. cbn. rewrite json_unquote_quote by done. cbn. by rewrite IH.
Qed.

Lemma back_float `{FloatText} zone k old x : comes_back zone k float_codec old x.
Proof.
  unfold comes_back. cbn. destruct (f64_finite x) eqn:E; [|done]. destruct (float_text_back x E). split; [by constructor|done].
Qed.

(** Text with nothing to escape. *)
Definition plain (c : ascii) : bool := byte_in 32 126 c && negb (is_byte 34 c) && negb (is_byte 92 c).

Lemma scan_plain s X : forall_bytes plain s = true -> scan_string (s +:+ dquote +:+ X) = Some (s, X).
Proof.
  induction s as [|c s IH]; [done|]. intros [[[Hb H34]%andb_prop H92]%andb_prop Hs]%andb_prop. cbn [String.append scan_string].
  apply negb_true_iff in H34, H92. rewrite H34, H92, IH by done. apply byte_in_bounds in Hb. rewrite (proj2 (Nat.ltb_ge _ 32)) by lia. done.
Qed.

Lemma plain_app a b : forall_bytes plain (a +:+ b) = forall_bytes plain a && forall_bytes plain b.
Proof. induction a as [|c a IH]; [done|]. cbn [forall_bytes String.append]. rewrite IH. apply andb_assoc. Qed.

Lemma plain_digits s : forall_bytes is_digit s = true -> forall_bytes plain s = true.
Proof.
  induction s as [|c s IH]; [done|]. cbn [forall_bytes]. intros [Hc Hs]%andb_prop. rewrite IH by done. unfold is_digit in Hc.
  apply andb_prop in Hc as [?%Nat.leb_le ?%Nat.leb_le]. unfold plain, byte_in, is_byte.
  rewrite !(proj2 (Nat.eqb_neq _ _)), !(proj2 (Nat.leb_le _ _)) by lia. done.
Qed.

Lemma plain_itoa n : forall_bytes plain (itoa n) = true.
Proof.
  destruct n as [|p|p]; [done| |]; [|change (itoa (Z.neg p)) with ("-" +:+ itoa (Z.pos p)); rewrite plain_app]; cbn [forall_bytes];
    apply plain_digits; by destruct (itoa_digits (Z.pos p)); [lia|].
Qed.

Lemma plain_pad w n : forall_bytes plain (pad w n) = true.
Proof. unfold pad. rewrite plain_app, plain_itoa, andb_true_r. generalize (w - String.length (itoa n))%nat. intros k. induction k as [|k IH]; done. Qed.

Lemma plain_frac n : forall_bytes plain (frac_text n) = true.
Proof.
  unfold frac_text. destruct (n =? 0); [done|]. rewrite plain_app. change (forall_bytes plain ".") with true. cbn [andb]. generalize 9%nat. intros k. revert n.
  induction k as [|k IH]; intros n; [done|]. cbn [frac_digits]. destruct (n =? 0); [done|]. by rewrite plain_app, plain_itoa, IH.
Qed.

Lemma plain_time minutes t : forall_bytes plain (RFC3339Nano minutes t) = true.
Proof.
  unfold RFC3339Nano, zone_text. destruct (civil _) as [[year month] day]. rewrite !plain_app, !plain_pad, plain_frac.
  destruct (minutes =? 0); [done|]. rewrite !plain_app, !plain_pad. by destruct (minutes <? 0).
Qed.

Lemma back_time zone k old t : comes_back zone k time_codec old t.
Proof.
  unfold comes_back. cbn. destruct (strict_RFC3339 (zone t) t) eqn:E; [|done]. split; [|by apply Parse_RFC3339Nano].
  constructor. intros X. apply scan_plain, plain_time.
Qed.

Section struct_back.
Context {T : Type}.

(** Every field of [x] comes back, one after the other, over the values of [y]. *)
Fixpoint fills (zone : Time -> Z) (k : nat) (fs : list (field T)) (x y : T) : Prop :=
  match fs with
  | [] => y = x
  | f :: fs => comes_back zone k (fd_codec f) (fd_get f y) (fd_get f x) /\ fills zone k fs x (fd_set f (fd_get f x) y)
  end.

(** Names that tell the fields apart, and setting a field to what it is changes nothing. *)
Record fields_ok (fs : list (field T)) : Prop := {
  fo_names : NoDup (fd_name (T := T) <$> fs);
  fo_valid : Forall (fun f => ValidString (fd_name f) = true) fs;
  fo_lens : Forall (fun f => forall y, fd_set f (fd_get f y) y = y) fs
}.

Lemma find_field_own fs f : NoDup (fd_name (T := T) <$> fs) -> f ∈ fs -> find_field fs (fd_name f) = Some f.
Proof.
  intros Hnd Hf. unfold find_field. enough (List.find (fun g => fd_name g ==s fd_name f) fs = Some f) as -> by done.
  induction fs as [|g fs IH]; [by apply elem_of_nil in Hf|]. apply list.NoDup_cons in Hnd as [Hg Hnd]. cbn [List.find].
  apply elem_of_cons in Hf as [->|Hf]; [by rewrite bool_decide_eq_true_2|].
  rewrite bool_decide_eq_false_2; [by apply IH|]. intros E. apply Hg. cbn. rewrite E. by apply list_elem_of_fmap_2.
Qed.

Lemma members_back zone all k fs x y ms : fields_ok all -> fs ⊆ all -> fills zone k fs x y -> members_of zone fs x = Some ms ->
  good (S k) (JObj ms) /\ apply_members all ms y = Some x.
Proof.
  intros [Hnd Hv Hlens]. revert y ms. induction fs as [|f fs IH]; intros y ms Hsub Hfill; cbn [members_of fills] in *.
  { intros [= <-]. subst. split; [by constructor|done]. }
  destruct Hfill as [Hf Hfill]. unfold comes_back in Hf. assert (f ∈ all) as Hin by set_solver.
  rewrite list.Forall_forall in Hv, Hlens. destruct (cd_enc _ _ _) as [| |j]; [done| |].
  - rewrite <- Hf, (Hlens f Hin) in Hfill. apply IH; [set_solver|done].
  - destruct (members_of zone fs x) as [l|] eqn:El; [|done]. intros [= <-]. destruct Hf as [Hg Hd].
    destruct (IH _ l ltac:(set_solver) Hfill eq_refl) as [Hgood Happ]. split.
    + inversion Hgood; subst. constructor. constructor; [|done]. split; [intros X; by apply scan_json_quote, Hv|done].
    + cbn [apply_members]. rewrite json_unquote_quote by (by apply Hv). rewrite (find_field_own all f Hnd Hin), Hd. exact Happ.
Qed.

(** A struct can be marshalled when each of its fields can. *)
Lemma members_of_Some zone (fs : list (field T)) x :
  is_Some (members_of zone fs x) <-> Forall (fun f => cd_enc (fd_codec f) zone (fd_get f x) <> EncError) fs.
Proof.
  induction fs as [|f fs IH]; [split; [constructor|by eexists]|]. rewrite list.Forall_cons. cbn [members_of].
  destruct (cd_enc _ _ _) as [| |j]; rewrite <- IH.
  - split; [intros [? ?]; done|intros [[] _]; done].
  - split; [done|by intros [_ ?]].
  - destruct (members_of zone fs x); split; [done| |intros [? ?]; done|intros [_ [? ?]]; done]. intros _. by eexists.
Qed.

Lemma back_pointer zone k fs zero x : fields_ok (visible fs) -> fills zone k (visible fs) x zero -> comes_back zone (S k) (pointer_codec fs zero) None (Some x).
Proof.
  intros Hok Hf. unfold comes_back. cbn. destruct (members_of zone _ x) as [ms|] eqn:E; [|done].
  destruct (members_back zone _ k _ x zero ms Hok ltac:(done) Hf E) as [Hg Ha]. split; [done|]. by rewrite Ha.
Qed.

Lemma back_nil zone k fs (zero : T) : comes_back zone k (pointer_codec fs zero) None None.
Proof. split; [constructor|done]. Qed.
End struct_back.

Section maps_back.
Context {A : Type} (c : codec A) (zero : A) (zone : Time -> Z) (k : nat).

Lemma members_map_back l ms m : Forall (fun x => ValidString x.1 = true /\ comes_back zone k c zero x.2) l -> map_members c zone l = Some ms ->
  good (S k) (JObj ms) /\ members_map c zero ms m = Some (foldl (fun m x => <[x.1 := x.2]> m) m l).
Proof.
  intros Hl. revert ms m. induction Hl as [|[key a] l [Hv Ha] Hl IH]; intros ms m; cbn [map_members].
  { intros [= <-]. split; [by constructor|done]. }
  unfold comes_back in Ha. cbn [fst snd] in *. destruct (cd_enc c zone a) as [| |j]; [done|done|]. destruct Ha as [Hg Hd].
  destruct (map_members c zone l) as [ms'|]; [|done]. intros [= <-]. destruct (IH ms' (<[key := a]> m) eq_refl) as [Hgood Hm]. split.
  - inversion Hgood; subst. constructor. constructor; [|done]. split; [intros X; by apply scan_json_quote|done].
  - cbn [members_map]. rewrite Hd. cbn [mbind option_bind]. by rewrite json_unquote_quote.
Qed.

Lemma map_members_Some l : is_Some (map_members c zone l) <-> Forall (fun x => exists j, cd_enc c zone x.2 = Encoded j) l.
Proof.
  induction l as [|[key a] l IH]; [split; [constructor|by eexists]|]. rewrite list.Forall_cons. cbn [map_members snd].
  destruct (cd_enc c zone a) as [| |j]; rewrite <- IH.
  - split; [intros [? ?]; done|intros [[? ?] _]; done].
  - split; [intros [? ?]; done|intros [[? ?] _]; done].
  - destruct (map_members c zone l); split; [intros _; eauto|intros _; by eexists|intros [? ?]; done|intros [_ [? ?]]; done].
Qed.

Lemma Marshal_Some m : is_Some (MarshalIndent c zone m) <-> map_Forall (fun _ a => exists j, cd_enc c zone a = Encoded j) m.
Proof.
  unfold MarshalIndent. transitivity (is_Some (map_members c zone (merge_sort by_key (map_to_list m)))).
  { destruct (map_members _ _ _); split; intros [? ?]; try done; by eexists. }
  rewrite map_members_Some, merge_sort_Permutation, map_Forall_to_list. apply Forall_proper; [|done]. by intros [].
Qed.

Lemma inserted_in_order (l : list (string * A)) :
  foldl (fun (m : gmap string A) x => <[x.1 := x.2]> m) ∅ l = list_to_map (reverse l).
Proof.
  induction l as [|[key a] l IH] using rev_ind; [done|]. rewrite foldl_app, reverse_app. cbn. by rewrite IH.
Qed.

(** A map is read back from its text, whatever it was marshalled in. *)
Lemma Unmarshal_Marshal (m : gmap string A) data : (k < maxNestingDepth)%nat ->
  map_Forall (fun key a => ValidString key = true /\ comes_back zone k c zero a) m ->
  MarshalIndent c zone m = Some data -> Unmarshal c zero data = Some m.
Proof.
  intros Hk Hm. unfold MarshalIndent. set (l := merge_sort by_key (map_to_list m)). assert (l ≡ₚ map_to_list m) as Hp by apply merge_sort_Permutation.
  destruct (map_members c zone l) as [ms|] eqn:E; [|done]. cbn [mbind option_bind]. intros Hdata%Some_inj. rewrite <- Hdata.
  assert (Forall (fun x => ValidString x.1 = true /\ comes_back zone k c zero x.2) l) as Hl.
  { rewrite Hp. apply list.Forall_forall. intros [key a] Hin%elem_of_map_to_list. exact (Hm key a Hin). }
  destruct (members_map_back l ms ∅ Hl E) as [Hg Hback]. unfold Unmarshal. rewrite (Parse_print _ _ Hg) by lia. cbn [mbind option_bind]. rewrite Hback.
  f_equal. rewrite <- (list_to_map_to_list m). rewrite <- (list_to_map_proper (reverse l) (map_to_list m)).
  - apply inserted_in_order.
  - rewrite reverse_Permutation, Hp. apply NoDup_fst_map_to_list.
  - by rewrite reverse_Permutation, Hp.
Qed.
End maps_back.

#[global] Arguments comes_back : simpl never.
