(* ===== verification/Signal.v ===== *)
(** The data every stage of the watch-path shares (src/pkg/engine/event.go,
    signal.go, quotadraft.go, the types of recovery.go and pullfailure.go), the
    reason families (dedup.go) and the incident-class fingerprint
    (fingerprint.go). *)
From S2P Require Import Prelude GoTime GoStrings GoHash.
From Stdlib Require Import Ascii.

(** ** Identity of an incident *)

Record EventKey := mkEventKey { UID : string; Reason : string }.

#[global] Instance EventKey_eq_dec : EqDecision EventKey.
Proof. solve_decision. Defined.
#[global] Instance EventKey_countable : Countable EventKey.
Proof.
  apply (inj_countable' (fun k => (UID k, Reason k)) (fun p => mkEventKey p.1 p.2)).
  by intros [].
Defined.

(** Go's zero value [EventKey{}]. *)
Definition zero_key : EventKey := mkEventKey "" "".

(** ** Kinds, sources, severities *)

Definition KindK8sEvent := "k8s-event".
Definition KindK8sEventFollowup := "k8s-event-followup".
Definition KindResolved := "resolved".
Definition KindResolvedReverted := "resolved.reverted".
Definition KindStorm := "storm".
Definition SourceSentinel := "sentinel".
Definition SourceScan := "scan".

Notation Severity := string (only parsing).
Definition SeverityCritical : Severity := "critical".
Definition SeverityWarning : Severity := "warning".
Definition SeverityInfo : Severity := "info".

(** [Severity.Valid] *)
Definition Severity_Valid (s : Severity) : bool :=
  (s ==s SeverityCritical) || (s ==s SeverityWarning) || (s ==s SeverityInfo).

(** ** Attachments *)

Record Forecast := mkForecast { fc_ETA : Time; fc_ConfidenceBasis : string }.
Record Enrichment := mkEnrichment { en_Bundle : string }.

Record QuotaIncreaseDraft := mkQuotaIncreaseDraft {
  qd_QuotaID : string;
  qd_Region : string;
  qd_Unit : string;
  qd_CurrentUsage : float64;
  qd_CurrentLimit : float64;
  qd_SuggestedLimit : float64;
  qd_SlopePerDay : float64;
  qd_Justification : string
}.

Notation Resolution := string (only parsing).
Definition ResolutionRecovered : Resolution := "recovered".
Definition ResolutionObjectDeleted : Resolution := "object_deleted".

Record Recovery := mkRecovery {
  ClearedAfter : Duration;
  ObservedStableFor : Duration;
  rec_Resolution : Resolution;
  ResolvedAt : Time;
  RevertedAfter : Duration
}.

(** The image-pull failure class; [PullClassNA] is the zero value. *)
Inductive PullClass := PullClassNA | PullClassTerminal | PullClassRetryable | PullClassUnknown.

#[global] Instance PullClass_eq_dec : EqDecision PullClass.
Proof. solve_decision. Defined.

(** [PullClass.String] *)
Definition PullClass_String (c : PullClass) : string :=
  match c with
  | PullClassTerminal => "terminal"
  | PullClassRetryable => "retryable"
  | PullClassUnknown => "unknown"
  | PullClassNA => "n/a"
  end.

(** ** Signals *)

Record TriageEvent := mkTriageEvent {
  te_Key : EventKey;
  te_Namespace : string;
  te_KindOfObject : string;
  te_Name : string;
  te_Container : string;
  te_Message : string;
  te_FirstSeen : Time;
  te_LastSeen : Time;
  te_ControllerRef : string;
  te_Node : string;
  te_Labels : gmap string string;
  te_Count : Z;
  te_Type : string
}.

Record Signal := mkSignal {
  sig_Kind : string;
  sig_Source : string;
  sig_Severity : Severity;
  sig_Fingerprint : string;
  sig_Cluster : string;
  sig_Project : string;
  sig_Region : string;
  sig_Zone : string;
  sig_Event : TriageEvent;
  sig_PullClass : PullClass;
  sig_PullCause : string;
  sig_Forecast : option Forecast;
  sig_Enrichment : option Enrichment;
  sig_Recovery : option Recovery;
  sig_QuotaDraft : option QuotaIncreaseDraft
}.

(** The identity of a bound incident that outlives its signal. *)
Record IncidentRef := mkIncidentRef {
  ir_Namespace : string;
  ir_KindOfObject : string;
  ir_Name : string;
  ir_Container : string;
  ir_ControllerRef : string;
  ir_Fingerprint : string;
  ir_Cluster : string
}.

Definition zero_ref : IncidentRef := mkIncidentRef "" "" "" "" "" "" "".

(** [Signal.IncidentRef] *)
Definition Signal_IncidentRef (s : Signal) : IncidentRef := {|
  ir_Namespace := te_Namespace (sig_Event s);
  ir_KindOfObject := te_KindOfObject (sig_Event s);
  ir_Name := te_Name (sig_Event s);
  ir_Container := te_Container (sig_Event s);
  ir_ControllerRef := te_ControllerRef (sig_Event s);
  ir_Fingerprint := sig_Fingerprint s;
  ir_Cluster := sig_Cluster s |}.

(** Go's zero values, for the composite literals that name few fields. *)
Definition zero_event : TriageEvent :=
  mkTriageEvent zero_key "" "" "" "" "" zero_time zero_time "" "" ∅ 0 "".
Definition zero_signal : Signal :=
  mkSignal "" "" "" "" "" "" "" "" zero_event PullClassNA "" None None None None.

(** ** The reason families *)

Definition reasonCanonical_list : list (string * string) :=
  [ ("ErrImagePull", "ImagePullBackOff");
    ("BackOff", "CrashLoopBackOff");
    ("node_notready", "NodeNotReady");
    ("restart_burst", "CrashLoopBackOff");
    ("pending", "FailedScheduling");
    ("pending-aged", "FailedScheduling");
    ("quota_blocked", "QuotaExhausted");
    ("quota_forecast", "QuotaExhausted") ].

Definition reasonCanonical : gmap string string := list_to_map reasonCanonical_list.

Definition CanonicalReason (reason : string) : string :=
  match reasonCanonical !! reason with
  | Some canonical => canonical
  | None => reason
  end.

Definition CanonicalReasonForEvent (reason message : string) : string :=
  if reason ==s "BackOff" then
    if Contains message "pulling image" then "ImagePullBackOff" else "CrashLoopBackOff"
  else if reason ==s "Failed" then
    if Contains message "Failed to pull image" || Contains message "ErrImagePull"
       || Contains message "ImagePullBackOff"
    then "ImagePullBackOff" else reason
  else CanonicalReason reason.

(** The event kinds the reason allow-list was designed for; the empty kind is an
    alias of k8s-event. *)
Definition isK8sEventKind (kind : string) : bool :=
  (kind ==s KindK8sEvent) || (kind ==s KindK8sEventFollowup) || (kind ==s "").

Definition ReasonClass (kind reason message : string) : string :=
  if (kind ==s KindK8sEvent) || (kind ==s KindK8sEventFollowup) || (kind ==s "")
  then CanonicalReasonForEvent reason message
  else let canonical := CanonicalReason reason in
       if canonical <>s reason then canonical else "".

(** [key.Reason = CanonicalReason(key.Reason)], the first line of every cache
    operation. *)
Definition canonical_key (k : EventKey) : EventKey :=
  mkEventKey (UID k) (CanonicalReason (Reason k)).

(** [TriageEvent.CanonicalKey] *)
Definition CanonicalKey (t : TriageEvent) : EventKey :=
  mkEventKey (UID (te_Key t)) (CanonicalReasonForEvent (Reason (te_Key t)) (te_Message t)).

(** [SourceFamily]: the prefix before a first dot that is not the first byte. *)
Definition SourceFamily (kind : string) : string :=
  match cut_byte "."%char kind with
  | Some (a, _) => if a ==s "" then kind else a
  | None => kind
  end.

(** [serializeKey] / [deserializeKey] *)
Definition serializeKey (k : EventKey) : string := UID k +:+ "|" +:+ Reason k.

Definition deserializeKey (s : string) : option EventKey :=
  match cut_byte "|"%char s with
  | Some (a, b) => Some (mkEventKey a b)
  | None => None
  end.

(** ** Fingerprints *)

(** The bytes hashed: the four fields separated by NUL. *)
Definition NUL : string := String (byte_of 0) "".
Definition fingerprint_input (kind reasonClass objectClass zone : string) : string :=
  kind +:+ NUL +:+ reasonClass +:+ NUL +:+ objectClass +:+ NUL +:+ zone.

Definition Fingerprint (kind reasonClass objectClass zone : string) : string :=
  "sha256:" +:+ hex_encode (SHA256.sum (bytes_of (fingerprint_input kind reasonClass objectClass zone))).

Definition FailureDomain (region zone : string) : string :=
  if zone <>s "" then zone else region.

Definition ScanFingerprint (reason objectClass zone : string) : string :=
  Fingerprint KindK8sEvent (CanonicalReason reason) objectClass zone.

Definition PostureFingerprint (kind reason objectClass : string) : string :=
  Fingerprint kind reason objectClass "".

(** The vectors the repository pins. *)
Example fingerprint_pin_zone :
  Fingerprint "k8s-event" "CrashLoopBackOff" "Pod" "us-east1-b" =
  "sha256:82fbc19ad7e86147ed4e0cb80bcab970bc75195e8db75df9d3bec4f66fe2153d".
Proof. vm_compute. done. Qed.
Example fingerprint_pin_empty :
  Fingerprint "" "" "" "" =
  "sha256:709e80c88487a2411e1ee4dfb9f22a861492d20c4765150c0c794abd70f8147c".
Proof. vm_compute. done. Qed.
Example fingerprint_pin_posture :
  PostureFingerprint "audit.no_pdb" "NoPodDisruptionBudget" "Deployment" =
  "sha256:7fe356f9a64f75392625206434494ed78e8fd020d5d35459c93fe96db64390ec".
Proof. vm_compute. done. Qed.

(** ** Lemmas *)

Lemma CanonicalReason_cases r :
  (exists c, (r, c) ∈ reasonCanonical_list /\ CanonicalReason r = c) \/ CanonicalReason r = r.
Proof.
  unfold CanonicalReason. destruct (reasonCanonical !! r) as [c|] eqn:E; [|by right].
  left. exists c. split; [|done]. by apply elem_of_list_to_map_2.
Qed.

(** No canonical name is itself an alias. *)
Lemma canonical_fixed c : c ∈ reasonCanonical_list.*2 -> CanonicalReason c = c.
Proof.
  intros Hc. simpl in Hc. set_unfold in Hc.
  repeat destruct Hc as [->|Hc]; try (vm_compute; reflexivity). done.
Qed.

Lemma CanonicalReason_idem r : CanonicalReason (CanonicalReason r) = CanonicalReason r.
Proof.
  destruct (CanonicalReason_cases r) as [(c & Hc & E)|E]; rewrite E; [|done].
  apply canonical_fixed, list_elem_of_fmap. by exists (r, c).
Qed.
#[export] Hint Rewrite CanonicalReason_idem : lookout.

Lemma canonical_key_idem k : canonical_key (canonical_key k) = canonical_key k.
Proof. unfold canonical_key. simpl. by rewrite CanonicalReason_idem. Qed.
#[export] Hint Rewrite canonical_key_idem : lookout.

Lemma ForEvent_cases r m :
  CanonicalReasonForEvent r m ∈ ["ImagePullBackOff"; "CrashLoopBackOff"; "Failed"] \/
  CanonicalReasonForEvent r m = CanonicalReason r.
Proof.
  unfold CanonicalReasonForEvent. repeat case_bool_decide; subst; repeat case_goal; set_solver.
Qed.

(** The pipeline canonicalizes a key twice, once with the event's message in
    hand and once more, without it, at the entry of every cache operation. The
    second pass changes nothing: a message-aware canonical reason is a fixed point
    of the messageless mapping and, for the same message, of the message-aware one,
    so every stage agrees on the incident an event belongs to. *)
Theorem canonical_reason_fixed_point (reason message : string) :
  CanonicalReason (CanonicalReasonForEvent reason message) = CanonicalReasonForEvent reason message /\
  CanonicalReasonForEvent (CanonicalReasonForEvent reason message) message
  = CanonicalReasonForEvent reason message.
Proof.
  unfold CanonicalReasonForEvent.
  destruct (decide (reason = "BackOff")) as [->|Hb]; simpl.
  { destruct (Contains message "pulling image"); split; vm_compute; done. }
  destruct (decide (reason = "Failed")) as [->|Hf].
  { rewrite (bool_decide_eq_false_2 ("Failed" = "BackOff")) by done. simpl.
    destruct (_ || _ || _); split; vm_compute; done. }
  rewrite !(bool_decide_eq_false_2 (reason = _)) by done.
  rewrite CanonicalReason_idem. split; [done|].
  destruct (CanonicalReason_cases reason) as [(c & Hc & ->)| ->].
  - assert (Hc2 : c ∈ reasonCanonical_list.*2) by (apply list_elem_of_fmap; by exists (reason, c)).
    simpl in Hc2. set_unfold in Hc2. destruct_or!; subst; done || vm_compute; done.
  - by rewrite !(bool_decide_eq_false_2 (reason = _)) by done.
Qed.

Lemma deserialize_key_serialize s k :
  deserializeKey s = Some k -> s = serializeKey k /\ contains_byte "|"%char (UID k) = false.
Proof.
  unfold deserializeKey, serializeKey. destruct (cut_byte "|" s) as [[a b]|] eqn:E; [|done].
  apply cut_byte_Some in E as [-> Ha]. intros; by simplify_eq.
Qed.

(** The on-disk key of a snapshot entry is decoded back to exactly the key it
    encodes: a string decodes to [k] if and only if it is [k]'s encoding and [k]'s
    UID holds no separator, which no Kubernetes UID does. *)
Theorem deserialize_serialize_key (s : string) (k : EventKey) :
  deserializeKey s = Some k <-> s = serializeKey k /\ contains_byte "|"%char (UID k) = false.
Proof.
  unfold deserializeKey, serializeKey. destruct k as [u r]; simpl.
  destruct (cut_byte "|" s) as [[a b]|] eqn:E.
  - apply cut_byte_Some in E as [-> Ha]. split.
    + intros; by simplify_eq.
    + intros [Heq Hu]. change (String "|" r) with ("|" +:+ r) in Heq.
      assert (cut_byte "|" (a +:+ String "|" b) = Some (u, r)) as E1 by (by apply cut_byte_Some).
      assert (cut_byte "|" (a +:+ String "|" b) = Some (a, b)) as E2 by (by apply cut_byte_Some).
      congruence.
  - split; [done|]. intros [-> Hu]. apply cut_byte_None in E.
    rewrite contains_byte_app in E. apply orb_false_iff in E as [_ E]. done.
Qed.

Lemma app_nul_inj (a a' b b' : string) :
  contains_byte (byte_of 0) a = false -> contains_byte (byte_of 0) a' = false ->
  a +:+ NUL +:+ b = a' +:+ NUL +:+ b' -> a = a' /\ b = b'.
Proof.
  intros Ha Ha' H.
  assert (cut_byte (byte_of 0) (a +:+ NUL +:+ b) = Some (a, b)) as E1 by (by apply cut_byte_Some).
  assert (cut_byte (byte_of 0) (a +:+ NUL +:+ b) = Some (a', b')) as E2.
  { rewrite H. by apply cut_byte_Some. }
  by simplify_eq.
Qed.

(** The text a fingerprint hashes determines the incident class: two signals
    whose kind, reason class and object class hold no NUL byte and whose hash
    inputs agree have the same kind, reason class, object class and failure domain,
    so distinct classes collide only if SHA-256 does. *)
Theorem fingerprint_input_injective (k r o z k' r' o' z' : string)
    (Hk : contains_byte (byte_of 0) k = false) (Hk' : contains_byte (byte_of 0) k' = false)
    (Hr : contains_byte (byte_of 0) r = false) (Hr' : contains_byte (byte_of 0) r' = false)
    (Ho : contains_byte (byte_of 0) o = false) (Ho' : contains_byte (byte_of 0) o' = false)
    (Heq : fingerprint_input k r o z = fingerprint_input k' r' o' z') :
  k = k' /\ r = r' /\ o = o' /\ z = z'.
Proof.
  unfold fingerprint_input in Heq.
  apply app_nul_inj in Heq as [-> Heq]; [|done..].
  apply app_nul_inj in Heq as [-> Heq]; [|done..].
  apply app_nul_inj in Heq as [-> ->]; done.
Qed.

Lemma fingerprint_input_injective_witness :
  "k8s-event" = "k8s-event" /\ "OOMKilled" = "OOMKilled" /\ "Pod" = "Pod" /\ "z" = "z".
Proof. apply (fingerprint_input_injective "k8s-event" "OOMKilled" "Pod" "z"); reflexivity. Defined.
