(* ===== verification/PullFailure.v ===== *)
(** Image-pull failures (src/pkg/engine/pullfailure.go): the classifier that
    reads a cause out of kubelet's message, and the memo that carries a cause to
    the causeless events behind it. *)
From stdpp Require Import pretty.
From S2P Require Import Prelude GoTime GoStrings Signal.
From Stdlib Require Import Ascii.

Section pull_failure.
Context `{UnicodeCase}.

Definition pullTerminalMarkers : list string :=
  [ "manifest unknown"; "not found"; "notfound"; "repository does not exist"; "denied";
    "unauthorized"; "authentication required"; "401 unauthorized"; "403 forbidden";
    "invalid reference format"; "invalidimagename"; "errimageneverpull";
    "no space left on device" ].

Definition pullRetryableMarkers : list string :=
  [ "toomanyrequests"; "too many requests"; "quota exceeded"; "500 internal server error";
    "502 bad gateway"; "503 service unavailable"; "504 gateway timeout"; "i/o timeout";
    "tls handshake timeout"; "connection reset by peer"; "connection refused";
    "unexpected eof"; "context deadline exceeded"; "temporary failure in name resolution" ].

Definition quote : string := String (byte_of 34) "".

(** The first double-quoted, non-empty token after the word [image]. *)
Definition quotedImageRef (message : string) : option string :=
  match cut_string ("image " +:+ quote) message with
  | None => None
  | Some (_, rest) =>
      match cut_byte (byte_of 34) rest with
      | Some (ref, _) => if ref ==s "" then None else Some ref
      | None => None
      end
  end.

Definition LastIndexByte (s : string) (c : ascii) : Z :=
  match cut_last_byte c s with
  | Some (a, _) => Z.of_nat (String.length a)
  | None => -1
  end.

Definition refTokens (ref : string) : list string :=
  let '(name, digest) :=
    match cut_byte "@"%char ref with Some (a, b) => (a, b) | None => (ref, "") end in
  let '(repo, tag) :=
    match cut_last_byte ":"%char name with
    | Some (a, b) => if LastIndexByte name "/"%char <? Z.of_nat (String.length a)
                     then (a, b) else (name, "")
    | None => (name, "")
    end in
  [ref; name; repo]
  ++ (match cut_byte "/"%char repo with Some (_, b) => [b] | None => [] end)
  ++ (if digest <>s "" then [digest] else [])
  ++ (if tag <>s "" then [tag] else []).

Definition refPathEscaper (c : ascii) : string :=
  if Ascii.eqb c "/"%char then "%2f"
  else if Ascii.eqb c ":"%char then "%3a"
  else if Ascii.eqb c "@"%char then "%40"
  else String c "".

(** One pass of the token loop: a token shorter than three bytes is skipped. *)
Definition blank_token (m tok : string) : string :=
  if Nat.ltb (String.length tok) 3 then m else
  let m := ReplaceAll m tok " " in
  let enc := replace_bytes refPathEscaper tok in
  if enc <>s tok then ReplaceAll m enc " " else m.

Definition classificationText (message : string) : string :=
  let m := ToLower message in
  match quotedImageRef message with
  | None => m
  | Some ref => fold_left blank_token (refTokens (ToLower ref)) m
  end.

Definition ClassifyPullFailure (message : string) : PullClass :=
  let m := classificationText message in
  if existsb (Contains m) pullTerminalMarkers then PullClassTerminal
  else if existsb (Contains m) pullRetryableMarkers then PullClassRetryable
  else PullClassUnknown.

Definition dockerHubHost : string := "docker.io".

Definition RegistryHost (message : string) : string :=
  match quotedImageRef message with
  | None => ""
  | Some ref =>
      match cut_byte "/"%char ref with
      | None => dockerHubHost
      | Some (head, _) =>
          if (head ==s "localhost") || ContainsAny head ".:" then head else dockerHubHost
      end
  end.

Definition PullCause (message : string) : string :=
  match quotedImageRef message with
  | None => ""
  | Some ref =>
      match cut_string (quote +:+ ref +:+ quote) message with
      | None => ""
      | Some (_, rest) => TrimSpace (TrimPrefix (TrimSpace rest) ":")
      end
  end.

(** ** The memo *)

Inductive scopeKind := scopeObject | scopeRegistryHost.

Record causeScope := mkCauseScope { cs_kind : scopeKind; cs_id : string }.

#[global] Instance scopeKind_eq_dec : EqDecision scopeKind.
Proof. solve_decision. Defined.
#[global] Instance causeScope_eq_dec : EqDecision causeScope.
Proof. solve_decision. Defined.
#[global] Instance causeScope_countable : Countable causeScope.
Proof.
  apply (inj_countable'
    (fun s => (bool_decide (cs_kind s = scopeObject), cs_id s))
    (fun p => mkCauseScope (if p.1 : bool then scopeObject else scopeRegistryHost) p.2)).
  by intros [[] id].
Defined.

Record pullMemoEntry := mkPullMemoEntry {
  pm_class : PullClass;
  pm_cause : string;
  pm_at : Time;
  pm_ttl : Duration
}.

Record PullClassMemo := mkPullClassMemo {
  pm_entries : gmap causeScope pullMemoEntry;
  pm_max : Z
}.

Definition defaultPullMemoTTL : Duration := 10 * Minute.
Definition hostPullMemoTTL : Duration := 2 * Minute.
Definition maxPullMemoEntries : Z := 4096.

Definition NewPullClassMemo : PullClassMemo := mkPullClassMemo ∅ maxPullMemoEntries.

Definition memo_expired (now : Time) (e : pullMemoEntry) : bool := pm_ttl e <? Sub now (pm_at e).

(** [lookup]: an aged-out entry is dropped and does not answer. *)
Definition memo_lookup (s : causeScope) (now : Time) (m : PullClassMemo)
  : option pullMemoEntry * PullClassMemo :=
  match pm_entries m !! s with
  | None => (None, m)
  | Some prior => if memo_expired now prior
                  then (None, m <| pm_entries ::= delete s |>)
                  else (Some prior, m)
  end.

Context `{RangeOrder}.

(** [PullClassMemo.evictIfFull] *)
Definition memo_drop_expired (now : Time) (entries : gmap causeScope pullMemoEntry) :=
  range_loop (fun s e acc => if memo_expired now e then delete s acc else acc)
    (range 0 entries) entries.

Definition memo_evictIfFull (now : Time) (m : PullClassMemo) : PullClassMemo :=
  if Z.of_nat (size (pm_entries m)) <? pm_max m then m else
  let entries := memo_drop_expired now (pm_entries m) in
  if Z.of_nat (size entries) <? pm_max m then m <| pm_entries := entries |> else
  match scan_oldest (fun p => pm_at p.2) (range 1 entries) with
  | Some (oldest, _) => m <| pm_entries := delete oldest entries |>
  | None => m <| pm_entries := entries |>
  end.

(** [Resolve] on a non-nil memo: the class, the inherited cause, the memo after. *)
Definition Resolve (now : Time) (sig : Signal) (m : PullClassMemo) : PullClass * string * PullClassMemo :=
  let ev := sig_Event sig in
  if CanonicalReasonForEvent (Reason (te_Key ev)) (te_Message ev) <>s "ImagePullBackOff"
  then (PullClassNA, "", m) else
  let class := ClassifyPullFailure (te_Message ev) in
  let cause := PullCause (te_Message ev) in
  let object := mkCauseScope scopeObject (UID (te_Key ev)) in
  let host := let h := RegistryHost (te_Message ev) in
              if h <>s "" then Some (mkCauseScope scopeRegistryHost h) else None in
  if bool_decide (class ≠ PullClassUnknown) || (cause <>s "") then
    let m := memo_evictIfFull now m in
    let m := m <| pm_entries ::= insert object (mkPullMemoEntry class cause now defaultPullMemoTTL) |> in
    let m := match host with
             | Some h => if bool_decide (class = PullClassRetryable)
                         then m <| pm_entries ::= insert h (mkPullMemoEntry class cause now hostPullMemoTTL) |>
                         else m
             | None => m
             end in
    (class, "", m)
  else
    let '(prior, m) := memo_lookup object now m in
    let '(class, cause) := match prior with
                           | Some p => (pm_class p, pm_cause p)
                           | None => (class, cause)
                           end in
    match host with
    | Some h =>
        if bool_decide (class = PullClassUnknown) then
          let '(prior, m) := memo_lookup h now m in
          match prior with
          | Some p => (pm_class p, (if cause ==s "" then pm_cause p else cause), m)
          | None => (class, cause, m)
          end
        else (class, cause, m)
    | None => (class, cause, m)
    end.

(** [Resolve] on a memo that may be nil: message-only, no carry-forward. *)
Definition Resolve_opt (now : Time) (sig : Signal) (m : option PullClassMemo)
  : PullClass * string * option PullClassMemo :=
  match m with
  | Some m => let '(class, cause, m) := Resolve now sig m in (class, cause, Some m)
  | None =>
      let ev := sig_Event sig in
      if CanonicalReasonForEvent (Reason (te_Key ev)) (te_Message ev) <>s "ImagePullBackOff"
      then (PullClassNA, "", None)
      else (ClassifyPullFailure (te_Message ev), "", None)
  end.

End pull_failure.

(** The messages kubelet emits, on small inputs. *)
Section examples.
Local Instance ascii_only : UnicodeCase := fun s => s.

Definition failed_msg (ref err : string) : string :=
  "Failed to pull image " +:+ quote +:+ ref +:+ quote +:+ ": " +:+ err.
Definition backoff_msg (ref : string) : string :=
  "Back-off pulling image " +:+ quote +:+ ref +:+ quote.

Example classify_ex :
  ClassifyPullFailure (failed_msg "gcr.io/denied-team/app:v429" "rpc error: 429 Too Many Requests")
    = PullClassRetryable /\
  ClassifyPullFailure (failed_msg "gcr.io/p/app:v1" "manifest unknown, then i/o timeout")
    = PullClassTerminal /\
  ClassifyPullFailure (backoff_msg "gcr.io/p/app:v1") = PullClassUnknown /\
  RegistryHost (backoff_msg "nginx:1.25") = "docker.io" /\
  RegistryHost (backoff_msg "localhost/app") = "localhost" /\
  PullCause (failed_msg "r.io/a@sha256:00" "  dial tcp: i/o timeout ") = "dial tcp: i/o timeout".
Proof. vm_compute. done. Qed.
End examples.

(** ** Properties *)

Section memo_properties.
Context `{UnicodeCase} `{RangeOrder}.

(** A run of the memo over the signals of a stream, each with its clock reading. *)
Fixpoint resolve_all (l : list (Time * Signal)) (m : PullClassMemo) : PullClassMemo :=
  match l with
  | [] => m
  | (now, sig) :: l => resolve_all l (Resolve now sig m).2
  end.

(** A signal of the image-pull family whose message states no cause. *)
Definition causeless (sig : Signal) : bool :=
  (CanonicalReasonForEvent (Reason (te_Key (sig_Event sig))) (te_Message (sig_Event sig))
     ==s "ImagePullBackOff")
  && bool_decide (ClassifyPullFailure (te_Message (sig_Event sig)) = PullClassUnknown)
  && (PullCause (te_Message (sig_Event sig)) ==s "").

(** A signal of the family whose message the classifier recognizes. *)
Definition classified (sig : Signal) (c : PullClass) : bool :=
  (CanonicalReasonForEvent (Reason (te_Key (sig_Event sig))) (te_Message (sig_Event sig))
     ==s "ImagePullBackOff")
  && bool_decide (ClassifyPullFailure (te_Message (sig_Event sig)) = c)
  && bool_decide (c ≠ PullClassUnknown).

Definition object_scope (sig : Signal) : causeScope :=
  mkCauseScope scopeObject (UID (te_Key (sig_Event sig))).

Lemma classified_spec sig c :
  classified sig c = true ->
  CanonicalReasonForEvent (Reason (te_Key (sig_Event sig))) (te_Message (sig_Event sig)) = "ImagePullBackOff" /\
  ClassifyPullFailure (te_Message (sig_Event sig)) = c /\ c ≠ PullClassUnknown.
Proof.
  unfold classified. intros [[?%bool_decide_eq_true ?%bool_decide_eq_true]%andb_true_iff
    ?%bool_decide_eq_true]%andb_true_iff. done.
Qed.

Lemma causeless_spec sig :
  causeless sig = true ->
  CanonicalReasonForEvent (Reason (te_Key (sig_Event sig))) (te_Message (sig_Event sig)) = "ImagePullBackOff" /\
  ClassifyPullFailure (te_Message (sig_Event sig)) = PullClassUnknown /\
  PullCause (te_Message (sig_Event sig)) = "".
Proof.
  unfold causeless. intros [[?%bool_decide_eq_true ?%bool_decide_eq_true]%andb_true_iff
    ?%bool_decide_eq_true]%andb_true_iff. done.
Qed.

Lemma Resolve_classified now sig c m :
  classified sig c = true ->
  exists m', Resolve now sig m = (c, "", m') /\
    pm_entries m' !! object_scope sig
    = Some (mkPullMemoEntry c (PullCause (te_Message (sig_Event sig))) now defaultPullMemoTTL) /\
    (c = PullClassRetryable -> RegistryHost (te_Message (sig_Event sig)) ≠ "" ->
     pm_entries m' !! mkCauseScope scopeRegistryHost (RegistryHost (te_Message (sig_Event sig)))
     = Some (mkPullMemoEntry c (PullCause (te_Message (sig_Event sig))) now hostPullMemoTTL)).
Proof.
  intros (Hf & Hc & Hn)%classified_spec. unfold Resolve, object_scope.
  rewrite Hf, Hc, (bool_decide_eq_true_2 (c ≠ PullClassUnknown)) by done. simpl.
  destruct (decide (RegistryHost (te_Message (sig_Event sig)) = "")) as [Hh|Hh].
  - rewrite (bool_decide_eq_true_2 _ Hh). simpl. eexists. split; [done|]. simpl.
    by rewrite lookup_insert_eq.
  - rewrite (bool_decide_eq_false_2 _ Hh). simpl. case_bool_decide; eexists; (split; [done|]); simpl.
    + by rewrite lookup_insert_ne, !lookup_insert_eq by done.
    + by rewrite lookup_insert_eq.
Qed.

Lemma memo_lookup_fresh s now m e :
  pm_entries m !! s = Some e -> Sub now (pm_at e) <= pm_ttl e -> memo_lookup s now m = (Some e, m).
Proof.
  intros Hs Hf. unfold memo_lookup, memo_expired. rewrite Hs.
  by rewrite (proj2 (Z.ltb_ge _ _) Hf).
Qed.

(** A cause stated once speaks for the causeless events behind it. After a
    message the classifier recognizes, every causeless image-pull message of the
    same object within ten minutes resolves to the same class and carries that
    message's cause; and when the class is retryable, so does every causeless
    message of an object without evidence of its own that pulls from the same
    registry host within two minutes. *)
Theorem Resolve_carries_cause (t0 t : Time) (sig1 sig2 : Signal) (c : PullClass) (m : PullClassMemo)
    (Hsig1 : classified sig1 c = true) (Hsig2 : causeless sig2 = true)
    (m1 := (Resolve t0 sig1 m).2)
    (Hscope :
       (object_scope sig2 = object_scope sig1 /\ Sub t t0 <= defaultPullMemoTTL) \/
       (c = PullClassRetryable /\ pm_entries m1 !! object_scope sig2 = None /\
        RegistryHost (te_Message (sig_Event sig2)) = RegistryHost (te_Message (sig_Event sig1)) /\
        RegistryHost (te_Message (sig_Event sig1)) ≠ "" /\ Sub t t0 <= hostPullMemoTTL)) :
  Resolve t sig2 m1 = (c, PullCause (te_Message (sig_Event sig1)), m1).
Proof.
  destruct (Resolve_classified t0 sig1 c m Hsig1) as (m' & HR & Hobj & Hhost).
  subst m1. rewrite HR in *. simpl in *.
  apply classified_spec in Hsig1 as (_ & _ & Hnu).
  apply causeless_spec in Hsig2 as (Hf & Hc & Hp). unfold Resolve. rewrite Hf, Hc, Hp. simpl.
  fold (object_scope sig2).
  destruct Hscope as [[Hs Ht]|(-> & Hnone & Hh & Hne & Ht)].
  - rewrite Hs, (memo_lookup_fresh _ _ _ _ Hobj) by done. simpl.
    rewrite (bool_decide_eq_false_2 (c = PullClassUnknown)) by done.
    by case_bool_decide.
  - unfold memo_lookup at 1. rewrite Hnone. simpl. rewrite Hh.
    rewrite (bool_decide_eq_false_2 (RegistryHost _ = "")) by done. simpl.
    rewrite (memo_lookup_fresh _ _ _ _ (Hhost eq_refl Hne)) by done. done.
Qed.

(** Every host-wide entry is retryable evidence. *)
Definition host_retryable (m : PullClassMemo) : Prop :=
  map_Forall (fun s e => cs_kind s = scopeRegistryHost -> pm_class e = PullClassRetryable) (pm_entries m).

Lemma memo_drop_expired_sub now entries : memo_drop_expired now entries ⊆ entries.
Proof.
  unfold memo_drop_expired. apply range_loop_inv; [done|]. intros k v s _ Hs.
  case_match; [|done]. etrans; [apply delete_subseteq|done].
Qed.

Lemma memo_evictIfFull_sub now m : pm_entries (memo_evictIfFull now m) ⊆ pm_entries m.
Proof.
  unfold memo_evictIfFull. repeat case_match; simpl; try done; try apply memo_drop_expired_sub.
  etrans; [apply delete_subseteq|apply memo_drop_expired_sub].
Qed.

Lemma memo_lookup_sub s now m :
  pm_entries (memo_lookup s now m).2 ⊆ pm_entries m.
Proof. unfold memo_lookup. repeat case_match; simpl; try done. apply delete_subseteq. Qed.

Lemma host_retryable_sub m m' : pm_entries m' ⊆ pm_entries m -> host_retryable m -> host_retryable m'.
Proof. intros Hs Hm s e He. apply (Hm s e). by eapply lookup_weaken. Qed.

Lemma host_retryable_insert s e m :
  (cs_kind s = scopeRegistryHost -> pm_class e = PullClassRetryable) ->
  host_retryable m -> host_retryable (m <| pm_entries ::= insert s e |>).
Proof. intros He Hm. apply map_Forall_insert_2; done. Qed.

Lemma Resolve_host_retryable now sig m : host_retryable m -> host_retryable (Resolve now sig m).2.
Proof.
  intros Hm. unfold Resolve. case_bool_decide as Hfam; simpl; [|done].
  destruct (bool_decide (_ ≠ PullClassUnknown) || _) eqn:E; simpl.
  - assert (host_retryable (memo_evictIfFull now m)) as He
      by (eapply host_retryable_sub; [apply memo_evictIfFull_sub|done]).
    clear E. destruct (RegistryHost _ <>s ""); [case_bool_decide|];
      repeat first [exact He | apply host_retryable_insert; [simpl; congruence|]].
  - destruct (memo_lookup _ _ _) as [prior m1] eqn:E1.
    assert (host_retryable m1) as Hm1.
    { eapply host_retryable_sub; [|done]. replace m1 with (prior, m1).2 by done.
      rewrite <- E1. apply memo_lookup_sub. }
    destruct (match prior with Some p => (pm_class p, pm_cause p) | None => _ end) as [c cause].
    clear E. destruct (RegistryHost _ <>s ""); [case_bool_decide|]; try done;
      destruct (memo_lookup _ _ m1) as [pr m2] eqn:E2;
      (assert (host_retryable m2) by
        (eapply host_retryable_sub; [|exact Hm1]; replace m2 with (pr, m2).2 by done;
         rewrite <- E2; apply memo_lookup_sub));
      by destruct pr.
Qed.

Lemma resolve_all_host_retryable l m : host_retryable m -> host_retryable (resolve_all l m).
Proof.
  revert m; induction l as [|[now sig] l IH]; intros m Hm; simpl; [done|].
  by apply IH, Resolve_host_retryable.
Qed.

(** Only retryable causes speak for a whole registry host. From the empty memo,
    after any stream of signals, every host-wide entry holds the retryable class, so
    a bad tag or a denied pull of one workload is never inherited by another. *)
Theorem host_scope_only_retryable (l : list (Time * Signal)) (h : string) (e : pullMemoEntry)
    (He : pm_entries (resolve_all l NewPullClassMemo) !! mkCauseScope scopeRegistryHost h = Some e) :
  pm_class e = PullClassRetryable.
Proof.
  apply (resolve_all_host_retryable l NewPullClassMemo (map_Forall_empty _) _ _ He). done.
Qed.

Lemma memo_drop_expired_none now entries :
  map_Forall (fun _ e => memo_expired now e = false) entries -> memo_drop_expired now entries = entries.
Proof.
  intros Hf. unfold memo_drop_expired.
  apply (range_loop_inv _ (fun acc => acc = entries)); [done|].
  intros k v s Hk ->. by rewrite (Hf k v) by (by apply elem_of_range in Hk).
Qed.

(** The memo is not held to its bound. One eviction makes room for two inserts,
    the object's evidence and the host's, so a rate-limited pull of a new pod from a
    new registry host grows a full memo of unexpired entries by one, whatever the
    bound: churn is limited by the entries' lifetimes only, not by
    [maxPullMemoEntries]. *)
Theorem pull_memo_grows_past_cap (now : Time) (sig : Signal) (m : PullClassMemo)
    (host := mkCauseScope scopeRegistryHost (RegistryHost (te_Message (sig_Event sig))))
    (Hsig : classified sig PullClassRetryable = true)
    (Hhost : RegistryHost (te_Message (sig_Event sig)) ≠ "")
    (Hnewo : pm_entries m !! object_scope sig = None) (Hnewh : pm_entries m !! host = None)
    (Hfull : pm_max m <= Z.of_nat (size (pm_entries m))) (Hne : pm_entries m ≠ ∅)
    (Hfresh : map_Forall (fun _ e => memo_expired now e = false) (pm_entries m)) :
  size (pm_entries (Resolve now sig m).2) = S (size (pm_entries m)).
Proof.
  apply classified_spec in Hsig as (Hf & Hc & _). unfold Resolve. rewrite Hf, Hc. simpl.
  rewrite (bool_decide_eq_false_2 _ Hhost). simpl.
  unfold memo_evictIfFull. rewrite (proj2 (Z.ltb_ge _ _) Hfull), memo_drop_expired_none by done.
  rewrite (proj2 (Z.ltb_ge _ _) Hfull).
  destruct (scan_oldest_spec (fun p : causeScope * pullMemoEntry => pm_at p.2) (range 1 (pm_entries m)))
    as ([k e] & -> & Hk & _); [by apply range_nonempty|].
  apply elem_of_range in Hk. simpl. fold (object_scope sig) host.
  rewrite map_size_insert_None
    by (rewrite lookup_insert_ne by done; apply lookup_delete_None; by right).
  rewrite map_size_insert_None by (apply lookup_delete_None; by right).
  rewrite map_size_delete_Some by (by eexists).
  assert (size (pm_entries m) ≠ 0%nat) by (by intros ?%map_size_empty_iff). lia.
Qed.
End memo_properties.

(** *** Witnesses *)

Section memo_witnesses.
Local Existing Instance ascii_only.
Local Existing Instance plain_range.

(** An event of reason [Failed] or [BackOff] on the pod [uid]. *)
Definition pull_signal (uid reason message : string) : Signal :=
  zero_signal <| sig_Kind := KindK8sEvent |>
    <| sig_Event := zero_event <| te_Key := mkEventKey uid reason |> <| te_Message := message |> |>.

Definition throttled (uid host : string) : Signal :=
  pull_signal uid "Failed" (failed_msg (host +:+ "/a") "toomanyrequests").

Lemma Resolve_carries_cause_witness :
  let m1 := (Resolve 100 (throttled "u1" "r.io") NewPullClassMemo).2 in
  Resolve (100 + Minute) (pull_signal "u2" "BackOff" (backoff_msg "r.io/b")) m1
  = (PullClassRetryable, "toomanyrequests", m1).
Proof.
  apply (Resolve_carries_cause 100 (100 + Minute) (throttled "u1" "r.io")
    (pull_signal "u2" "BackOff" (backoff_msg "r.io/b")) PullClassRetryable NewPullClassMemo);
    [vm_compute; done..|].
  right. vm_compute. repeat split; done.
Defined.

Lemma host_scope_only_retryable_witness :
  pm_class (mkPullMemoEntry PullClassRetryable "toomanyrequests" 100 hostPullMemoTTL) = PullClassRetryable.
Proof.
  apply (host_scope_only_retryable [(100, throttled "u1" "r.io")] "r.io"). vm_compute. done.
Defined.

(** A memo at a bound of two, holding one pod's evidence and its host's. *)
Definition small_memo : PullClassMemo :=
  resolve_all [(100, throttled "u1" "r1.io")] (NewPullClassMemo <| pm_max := 2 |>).

Lemma pull_memo_grows_past_cap_witness :
  size (pm_entries (Resolve 100 (throttled "u2" "r2.io") small_memo).2) = 3%nat.
Proof.
  transitivity (S (size (pm_entries small_memo))); [|vm_compute; reflexivity].
  apply (pull_memo_grows_past_cap 100 (throttled "u2" "r2.io") small_memo).
  1-5: vm_compute; done.
  - intros E%(f_equal size). vm_compute in E. done.
  - apply map_Forall_to_list. vm_compute. repeat constructor.
Defined.
End memo_witnesses.
