(* ===== verification/Filter.v ===== *)
(** The filter stage (src/pkg/engine/filter.go): the reason allow-list, the
    namespace rules and the leading-edge debounces. *)
From S2P Require Import Prelude GoTime GoStrings Signal PullFailure.

Definition defaultReasons : list string :=
  [ "CrashLoopBackOff"; "ImagePullBackOff"; "ErrImagePull"; "OOMKilled"; "FailedMount";
    "FailedScheduling"; "BackOff"; "Unhealthy"; "NetworkNotReady"; "NodeNotReady"; "Evicted" ].

(** A nil map is [None]: the allow-list tests for nil, the namespace rules for
    emptiness. *)
Record FilterConfig := mkFilterConfig {
  allowedReasons : option (gset string);
  allowedNamespaces : option (gset string);
  excludedNamespaces : option (gset string);
  unhealthyMinCount : Z;
  backoffMinCount : Z;
  imagePullTransientMinCount : Z
}.

(** [stringSet]: nil for no strings at all; the empty string is skipped. *)
Definition stringSet (xs : list string) : option (gset string) :=
  match xs with
  | [] => None
  | _ => Some (fold_left (fun out x => if x ==s "" then out else {[x]} ∪ out) xs ∅)
  end.

Definition NewFilterConfig (reasons allowNamespaces excludeNamespaces : list string)
    (unhealthyMin backoffMin imagePullMin : Z) : FilterConfig :=
  let reasons := match reasons with [] => defaultReasons | _ => reasons end in
  let unhealthyMin := if unhealthyMin <=? 0 then 3 else unhealthyMin in
  let backoffMin := if backoffMin <=? 0 then 3 else backoffMin in
  let imagePullMin := if imagePullMin <=? 0 then 3 else imagePullMin in
  mkFilterConfig (stringSet reasons) (stringSet allowNamespaces) (stringSet excludeNamespaces)
    unhealthyMin backoffMin imagePullMin.

(** Membership in a possibly nil map, and its length. *)
Definition in_set (x : string) (s : option (gset string)) : bool :=
  match s with Some s => bool_decide (x ∈ s) | None => false end.
Definition set_nonempty (s : option (gset string)) : bool :=
  match s with Some s => bool_decide (s ≠ ∅) | None => false end.

Inductive Gate :=
| GateReasonNotAllowed | GateNamespaceExcluded | GateNamespaceNotAllowed
| GateUnhealthyDebounce | GateCrashLoopDebounce | GatePullTransient.

Definition Gate_String (g : Gate) : string :=
  match g with
  | GateReasonNotAllowed => "reason_not_allowed"
  | GateNamespaceExcluded => "namespace_excluded"
  | GateNamespaceNotAllowed => "namespace_not_allowed"
  | GateUnhealthyDebounce => "unhealthy_debounce"
  | GateCrashLoopDebounce => "crashloop_debounce"
  | GatePullTransient => "imagepull_transient_debounce"
  end.

(** The debounce switch of [Decide], on the canonical reason. *)
Definition debounce (cfg : FilterConfig) (sig : Signal) : option Gate :=
  let ev := sig_Event sig in
  let r := CanonicalReasonForEvent (Reason (te_Key ev)) (te_Message ev) in
  if r ==s "Unhealthy" then
    if te_Count ev <? unhealthyMinCount cfg then Some GateUnhealthyDebounce else None
  else if r ==s "CrashLoopBackOff" then
    if te_Count ev <? backoffMinCount cfg then Some GateCrashLoopDebounce else None
  else if r ==s "ImagePullBackOff" then
    if bool_decide (sig_PullClass sig = PullClassRetryable)
       && (te_Count ev <? imagePullTransientMinCount cfg)
    then Some GatePullTransient else None
  else None.

(** [Filter.Decide] on a non-nil filter: [None] accepts, [Some g] rejects by [g]. *)
Definition Decide (cfg : FilterConfig) (sig : Signal) : option Gate :=
  let ev := sig_Event sig in
  let eventKind := isK8sEventKind (sig_Kind sig) in
  if eventKind && bool_decide (allowedReasons cfg ≠ None)
     && negb (in_set (Reason (te_Key ev)) (allowedReasons cfg))
  then Some GateReasonNotAllowed
  else if set_nonempty (excludedNamespaces cfg) && in_set (te_Namespace ev) (excludedNamespaces cfg)
  then Some GateNamespaceExcluded
  else if set_nonempty (allowedNamespaces cfg)
          && negb (in_set (te_Namespace ev) (allowedNamespaces cfg))
          && (eventKind || (te_Namespace ev <>s ""))
  then Some GateNamespaceNotAllowed
  else if eventKind then debounce cfg sig
  else None.

(** [Filter.Decide] and [Filter.Accept]; a nil filter accepts everything. *)
Definition Decide_opt (f : option FilterConfig) (sig : Signal) : option Gate :=
  match f with Some cfg => Decide cfg sig | None => None end.
Definition Accept (f : option FilterConfig) (sig : Signal) : bool :=
  match Decide_opt f sig with None => true | Some _ => false end.

(** ** Properties *)

Lemma elem_of_stringSet x xs s : stringSet xs = Some s -> x ∈ s <-> x ∈ xs /\ x ≠ "".
Proof.
  unfold stringSet. destruct xs as [|y ys]; [done|]. generalize (y :: ys). intros l [= <-].
  assert (forall acc : gset string,
    x ∈ fold_left (fun out x => if x ==s "" then out else {[x]} ∪ out) l acc
    <-> x ∈ acc \/ (x ∈ l /\ x ≠ "")) as ->; [|set_solver].
  induction l as [|z l IH]; intros acc; simpl; [set_solver|]. rewrite IH.
  case_bool_decide; subst; set_solver.
Qed.

(** The signal with another repeat count. *)
Definition with_count (n : Z) (sig : Signal) : Signal :=
  sig <| sig_Event ::= fun ev => ev <| te_Count := n |> |>.

Lemma debounce_mono cfg sig n n' :
  n <= n' -> debounce cfg (with_count n sig) = None -> debounce cfg (with_count n' sig) = None.
Proof.
  intros Hn. unfold debounce, with_count. simpl. repeat case_bool_decide; simpl; try done;
    repeat match goal with |- context [?a <? ?b] => destruct (Z.ltb_spec a b) end; done || lia.
Qed.

(** The debounces only ever wait. Once a filter accepts a signal at one repeat
    count it accepts the same signal at every higher count, and there is a count from
    which on it does, unless a rule that does not look at the count rejects it. *)
Theorem filter_debounce_only_delays (f : option FilterConfig) (sig : Signal) :
  (forall n n', n <= n' -> Accept f (with_count n sig) = true -> Accept f (with_count n' sig) = true) /\
  exists n0, Accept f (with_count n0 sig) = true \/
    forall n, exists g, Decide_opt f (with_count n sig) = Some g /\
      g ∈ [GateReasonNotAllowed; GateNamespaceExcluded; GateNamespaceNotAllowed].
Proof.
  unfold Accept. destruct f as [cfg|]; simpl; [|split; [done|exists 0; by left]].
  unfold Decide. simpl.
  set (b1 := _ && negb (in_set (Reason _) _)). set (b2 := _ && in_set _ _).
  set (b3 := _ && (_ || _)).
  destruct b1; [split; [done|]; exists 0; right; intros; eexists; split; [done|set_solver]|].
  destruct b2; [split; [done|]; exists 0; right; intros; eexists; split; [done|set_solver]|].
  destruct b3; [split; [done|]; exists 0; right; intros; eexists; split; [done|set_solver]|].
  destruct (isK8sEventKind _); [|split; [done|]; exists 0; by left].
  split.
  - intros n n' Hn. destruct (debounce cfg (with_count n sig)) eqn:E; [done|].
    by rewrite (debounce_mono cfg sig n n' Hn E).
  - exists (Z.max (unhealthyMinCount cfg) (Z.max (backoffMinCount cfg) (imagePullTransientMinCount cfg))).
    left. unfold debounce, with_count. simpl. repeat case_bool_decide; simpl; try done;
      repeat match goal with |- context [?a <? ?b] => destruct (Z.ltb_spec a b) end; done || lia.
Qed.

Lemma Decide_pull_gate cfg sig :
  Decide cfg sig = Some GatePullTransient ->
  CanonicalReasonForEvent (Reason (te_Key (sig_Event sig))) (te_Message (sig_Event sig)) = "ImagePullBackOff" /\
  te_Count (sig_Event sig) < imagePullTransientMinCount cfg /\ sig_PullClass sig = PullClassRetryable.
Proof.
  unfold Decide. do 3 (destruct (_ && _); [discriminate|]). destruct (isK8sEventKind _); [|done].
  unfold debounce.
  destruct (_ ==s "Unhealthy"); [destruct (_ <? _); discriminate|].
  destruct (_ ==s "CrashLoopBackOff"); [destruct (_ <? _); discriminate|].
  destruct (_ ==s "ImagePullBackOff") eqn:Er; [|done].
  destruct (_ && _) eqn:Ec; [|done]. btrue. done.
Qed.

Lemma ClassifyPullFailure_retryable `{UnicodeCase} msg :
  ClassifyPullFailure msg = PullClassRetryable ->
  (exists mk a b, mk ∈ pullRetryableMarkers /\ classificationText msg = a +:+ mk +:+ b) /\
  forall mk a b, mk ∈ pullTerminalMarkers -> classificationText msg ≠ a +:+ mk +:+ b.
Proof.
  unfold ClassifyPullFailure. destruct (existsb _ pullTerminalMarkers) eqn:Et; [done|].
  destruct (existsb _ pullRetryableMarkers) eqn:Er; [|done]. intros _. split.
  - apply existsb_exists in Er as (mk & Hmk%list_elem_of_In & (a & b & Hab)%Contains_spec).
    by exists mk, a, b.
  - intros mk a b Hmk Heq. apply not_true_iff_false in Et. apply Et, existsb_exists.
    exists mk. split; [by apply list_elem_of_In|]. apply Contains_spec. eauto.
Qed.

(** The transient image-pull gate holds back only what is recognized as
    self-clearing. When the filter rejects a signal by that gate, after the memo
    stamped it, the signal is an image-pull event below the threshold and its class
    is retryable; if the memo is off, that means the registry's own words (the image
    reference blanked out) contain a retryable marker and no terminal one. *)
Theorem pull_gate_only_transient `{UnicodeCase} `{RangeOrder} (now : Time) (cfg : FilterConfig)
    (sig : Signal) (memo : option PullClassMemo)
    (stamped := sig <| sig_PullClass := (Resolve_opt now sig memo).1.1 |>)
    (Hgate : Decide cfg stamped = Some GatePullTransient) :
  let msg := te_Message (sig_Event sig) in
  CanonicalReasonForEvent (Reason (te_Key (sig_Event sig))) msg = "ImagePullBackOff" /\
  te_Count (sig_Event sig) < imagePullTransientMinCount cfg /\
  (Resolve_opt now sig memo).1.1 = PullClassRetryable /\
  (memo = None ->
   (exists mk a b, mk ∈ pullRetryableMarkers /\ classificationText msg = a +:+ mk +:+ b) /\
   forall mk a b, mk ∈ pullTerminalMarkers -> classificationText msg ≠ a +:+ mk +:+ b).
Proof.
  apply Decide_pull_gate in Hgate as (Hr & Hc & Hp). simpl in *.
  split; [done|]. split; [done|]. split; [done|]. intros ->.
  apply ClassifyPullFailure_retryable. simpl in Hp. by rewrite Hr in Hp.
Qed.

Lemma pull_gate_only_transient_witness :
  let cfg := NewFilterConfig ["Failed"] [] [] 0 0 0 in
  let sig := with_count 2 (throttled "u1" "r.io") in
  CanonicalReasonForEvent "Failed" (te_Message (sig_Event sig)) = "ImagePullBackOff" /\
  2 < imagePullTransientMinCount cfg.
Proof.
  destruct (@pull_gate_only_transient ascii_only plain_range 7
    (NewFilterConfig ["Failed"] [] [] 0 0 0) (with_count 2 (throttled "u1" "r.io")) None)
    as (H1 & H2 & _ & _); [vm_compute; done|]. split; [exact H1|exact H2].
Defined.
