(* ===== verification/Routing.v ===== *)
(** Severity routing (src/pkg/engine/routing.go): the route of a severity class,
    the per-kind overrides and the [--severity] flag parser. *)
From S2P Require Import Prelude GoTime GoStrings Signal.
From Stdlib Require Import Ascii.

Inductive Route := RoutePerIncident | RouteWatchboard | RouteStore.

#[global] Instance Route_eq_dec : EqDecision Route.
Proof. solve_decision. Defined.

(** [Route.String] *)
Definition Route_String (r : Route) : string :=
  match r with
  | RouteWatchboard => "watchboard"
  | RouteStore => "store"
  | RoutePerIncident => "per-incident"
  end.

Definition RouteFor (sev : Severity) : Route :=
  if sev ==s SeverityWarning then RouteWatchboard
  else if sev ==s SeverityInfo then RouteStore
  else RoutePerIncident.

(** A nil override map and an empty one behave alike: lookups miss. *)
Record RoutingPolicy := mkRoutingPolicy { overrides : gmap string Severity }.

Definition NewRoutingPolicy (o : gmap string Severity) : RoutingPolicy := mkRoutingPolicy o.

(** [RoutingPolicy.Classify]; the policy may be nil. *)
Definition Classify (p : option RoutingPolicy) (sig : Signal) : Severity :=
  match p with
  | Some p =>
      match overrides p !! sig_Kind sig with
      | Some sev => sev
      | None => if Severity_Valid (sig_Severity sig) then sig_Severity sig else SeverityCritical
      end
  | None => if Severity_Valid (sig_Severity sig) then sig_Severity sig else SeverityCritical
  end.

(** The three errors of the parser, with the values their messages print. *)
Inductive OverrideError :=
| ErrMalformed (pair : string)
| ErrLevel (pair : string)
| ErrTwice (kind prev sev : string).

Definition parse_pair (out : gmap string Severity) (pair : string)
  : OverrideError + gmap string Severity :=
  let pair := TrimSpace pair in
  if pair ==s "" then inr out else
  let '(kind, level, ok) := CutByte "="%char pair in
  let kind := TrimSpace kind in
  let sev := TrimSpace level in
  if negb ok || (kind ==s "") then inl (ErrMalformed pair)
  else if negb (Severity_Valid sev) then inl (ErrLevel pair)
  else match out !! kind with
       | Some prev => inl (ErrTwice kind prev sev)
       | None => inr (<[kind := sev]> out)
       end.

Fixpoint parse_pairs (pairs : list string) (out : gmap string Severity)
  : OverrideError + gmap string Severity :=
  match pairs with
  | [] => inr out
  | p :: pairs => match parse_pair out p with
                  | inl e => inl e
                  | inr out => parse_pairs pairs out
                  end
  end.

(** [ParseSeverityOverrides]: the pairs of all occurrences, left to right. *)
Definition ParseSeverityOverrides (entries : list string) : OverrideError + gmap string Severity :=
  parse_pairs (entries ≫= SplitByte ","%char) ∅.

Example parse_ex :
  ParseSeverityOverrides ["a.b=info, c=warning"; ""; " d = critical "]
  = inr {["a.b" := "info"; "c" := "warning"; "d" := "critical"]} /\
  ParseSeverityOverrides ["a=info,a=info"] = inl (ErrTwice "a" "info" "info") /\
  ParseSeverityOverrides ["a=loud"] = inl (ErrLevel "a=loud") /\
  ParseSeverityOverrides ["=info"] = inl (ErrMalformed "=info").
Proof. vm_compute. done. Qed.

(** ** Properties *)

Lemma Severity_Valid_spec s :
  Severity_Valid s = true <-> s = SeverityCritical \/ s = SeverityWarning \/ s = SeverityInfo.
Proof.
  unfold Severity_Valid. rewrite !orb_true_iff, !bool_decide_eq_true. tauto.
Qed.

(** *** Printing overrides, and reading them back *)

(** A kind the flag can name: non-empty, without the two delimiters and without
    white space at its ends. *)
Definition plain_kind (k : string) : bool :=
  (k <>s "") && negb (contains_byte "="%char k) && negb (contains_byte ","%char k)
  && match strip_any spaces k, strip_any (map string_rev spaces) (string_rev k) with
     | None, None => true | _, _ => false end.

Definition print_override (p : string * Severity) : string := p.1 +:+ "=" +:+ p.2.

Fixpoint join (sep : string) (l : list string) : string :=
  match l with
  | [] => ""
  | [x] => x
  | x :: l => x +:+ sep +:+ join sep l
  end.

Lemma strip_prefix_stop p a c b r :
  contains_byte c p = false -> strip_prefix p (a +:+ String c b) = Some r -> strip_prefix p a <> None.
Proof.
  revert a; induction p as [|d p IH]; intros a Hc Hs; cbn in *; [done|].
  apply orb_false_iff in Hc as [Hd Hc].
  destruct a as [|e a]; cbn in *.
  - destruct (Ascii.eqb_spec d c) as [->|]; [|done]. by rewrite Ascii.eqb_refl in Hd.
  - destruct (Ascii.eqb d e); [|done]. by eapply IH.
Qed.

Lemma strip_any_stop ps a c b :
  forallb (fun p => negb (contains_byte c p)) ps = true ->
  strip_any ps a = None -> strip_any ps (a +:+ String c b) = None.
Proof.
  induction ps as [|p ps IH]; simpl; [done|]. intros [Hp Hps]%andb_true_iff. btrue.
  destruct (strip_prefix p a) eqn:E; [done|]. intros Ha.
  destruct (strip_prefix p (a +:+ String c b)) eqn:E'; [|by apply IH].
  by destruct (strip_prefix_stop p a c b s Hp E').
Qed.

Lemma TrimSpace_no_outer s :
  strip_any spaces s = None -> strip_any (map string_rev spaces) (string_rev s) = None ->
  TrimSpace s = s.
Proof.
  intros Hl Hr. unfold TrimSpace.
  assert (forall ps n s, strip_any ps s = None -> trim_left ps n s = s) as Ht.
  { intros ps n t Hn. destruct n; simpl; [done|by rewrite Hn]. }
  rewrite !(Ht _ _ _ Hl), Ht by done. apply string_rev_involutive.
Qed.

Lemma plain_kind_spec k :
  plain_kind k = true ->
  k <> "" /\ contains_byte "="%char k = false /\ contains_byte ","%char k = false /\
  strip_any spaces k = None /\ strip_any (map string_rev spaces) (string_rev k) = None.
Proof.
  unfold plain_kind. intros H. btrue.
  destruct (strip_any spaces k); [done|]. destruct (strip_any _ (string_rev k)); done.
Qed.

Lemma parse_print_pair out k sev :
  plain_kind k = true -> Severity_Valid sev = true -> out !! k = None ->
  parse_pair out (print_override (k, sev)) = inr (<[k := sev]> out).
Proof.
  intros (Hne & He & _ & Hl & Hr)%plain_kind_spec Hv Hk. unfold print_override, parse_pair. simpl.
  assert (TrimSpace (k +:+ String "=" sev) = k +:+ String "=" sev) as ->.
  { apply TrimSpace_no_outer; [by apply strip_any_stop|].
    rewrite string_rev_app. apply Severity_Valid_spec in Hv as [->|[->| ->]]; vm_compute; done. }
  rewrite (bool_decide_eq_false_2 (k +:+ String "=" sev = "")) by (by destruct k).
  unfold CutByte. rewrite (proj2 (cut_byte_Some "=" (k +:+ String "=" sev) k sev)) by done.
  rewrite (TrimSpace_no_outer k) by done.
  assert (TrimSpace sev = sev) as -> by (apply Severity_Valid_spec in Hv as [->|[->| ->]]; vm_compute; done).
  rewrite (bool_decide_eq_false_2 (k = "")), Hv, Hk by done. done.
Qed.

Lemma parse_pairs_print l out :
  Forall (fun p => plain_kind p.1 = true /\ Severity_Valid p.2 = true) l ->
  NoDup l.*1 -> (forall k, k ∈ l.*1 -> out !! k = None) ->
  parse_pairs (print_override <$> l) out = inr (list_to_map l ∪ out).
Proof.
  revert out; induction l as [|[k sev] l IH]; intros out Hf Hnd Hout.
  { simpl. by rewrite map_empty_union. }
  apply Forall_cons_iff in Hf as [[Hk Hv] Hf]. apply list.NoDup_cons in Hnd as [Hnk Hnd]. simpl.
  rewrite parse_print_pair by (done || apply Hout; set_solver).
  rewrite IH; [|done|done|].
  - f_equal. rewrite <- insert_union_r; [by rewrite insert_union_l|].
    by apply not_elem_of_list_to_map_1.
  - intros k' Hk'. rewrite lookup_insert_ne by (intros ->; done). apply Hout. simpl. set_solver.
Qed.

Lemma SplitByte_join l :
  l <> [] -> Forall (fun s => contains_byte ","%char s = false) l -> SplitByte ","%char (join "," l) = l.
Proof.
  induction l as [|x l IH]; [done|]. intros _ [Hx Hl]%Forall_cons_iff.
  destruct l as [|y l]; [by apply SplitByte_one|].
  change (join "," (x :: y :: l)) with (x +:+ String "," (join "," (y :: l))).
  rewrite SplitByte_app by done. by rewrite IH.
Qed.

(** The [--severity] flag reads back what it writes. Printing any set of per-kind
    overrides with distinct plain kinds and valid levels as one comma-separated flag
    value, and parsing it, gives exactly that override map. *)
Theorem severity_overrides_round_trip (l : list (string * Severity))
    (Hne : l <> [])
    (Hl : Forall (fun p => plain_kind p.1 = true /\ Severity_Valid p.2 = true) l)
    (Hnd : NoDup l.*1) :
  ParseSeverityOverrides [join "," (print_override <$> l)] = inr (list_to_map l).
Proof.
  unfold ParseSeverityOverrides. simpl. rewrite app_nil_r, SplitByte_join.
  - rewrite parse_pairs_print by (done || intros; apply lookup_empty). by rewrite map_union_empty.
  - by destruct l.
  - apply Forall_fmap. eapply Forall_impl; [|exact Hl]. intros [k sev] [Hk Hv]. simpl in *.
    apply plain_kind_spec in Hk as (_ & _ & Hc & _). unfold print_override. simpl.
    rewrite !contains_byte_app, Hc. simpl.
    apply Severity_Valid_spec in Hv as [->|[->| ->]]; done.
Qed.

Lemma severity_overrides_round_trip_witness :
  ParseSeverityOverrides ["objectstate.restart_burst=info,k8s-event=warning"]
  = inr (list_to_map [("objectstate.restart_burst", "info"); ("k8s-event", "warning")]).
Proof.
  apply (severity_overrides_round_trip
    [("objectstate.restart_burst", "info"); ("k8s-event", "warning")]).
  - done.
  - repeat constructor; vm_compute; done.
  - repeat constructor; set_solver.
Defined.

Lemma parse_pairs_valid pairs out m :
  parse_pairs pairs out = inr m ->
  map_Forall (fun k sev => k <> "" /\ Severity_Valid sev = true) out ->
  map_Forall (fun k sev => k <> "" /\ Severity_Valid sev = true) m.
Proof.
  revert out; induction pairs as [|p pairs IH]; intros out; simpl; [intros; by simplify_eq|].
  unfold parse_pair. destruct (TrimSpace p ==s ""); [apply IH|].
  destruct (CutByte _ _) as [[kind level] ok].
  destruct (negb ok || _) eqn:Ek; [done|]. destruct (negb (Severity_Valid _)) eqn:Ev; [done|].
  destruct (out !! _) eqn:Eo; [done|]. intros Hp Hout. eapply IH; [exact Hp|].
  btrue. apply map_Forall_insert_2; done.
Qed.

(** Routing fails toward paging. Whatever overrides the parser accepted and
    whatever severity a source stamped, the effective severity is one of the three
    classes, and a signal leaves the per-incident route only when its kind is
    overridden to, or its source stamped, exactly warning or info. *)
Theorem routing_fails_toward_paging (entries : list string) (m : gmap string Severity) (sig : Signal)
    (Hparse : ParseSeverityOverrides entries = inr m) :
  let sev := Classify (Some (NewRoutingPolicy m)) sig in
  Severity_Valid sev = true /\
  (RouteFor sev <> RoutePerIncident ->
   (sev = SeverityWarning \/ sev = SeverityInfo) /\
   (m !! sig_Kind sig = Some sev \/ (m !! sig_Kind sig = None /\ sig_Severity sig = sev))).
Proof.
  pose proof (parse_pairs_valid _ _ _ Hparse (map_Forall_empty _)) as Hv.
  unfold Classify, NewRoutingPolicy, RouteFor. simpl.
  destruct (m !! sig_Kind sig) as [sev|] eqn:E.
  - split; [by apply (Hv (sig_Kind sig))|]. repeat case_bool_decide; naive_solver.
  - destruct (Severity_Valid (sig_Severity sig)) eqn:Es.
    + split; [done|]. repeat case_bool_decide; naive_solver.
    + split; [done|]. repeat case_bool_decide; naive_solver.
Qed.

Lemma routing_fails_toward_paging_witness :
  Severity_Valid (Classify (Some (NewRoutingPolicy {["rollout.stall" := "info"]})) zero_signal) = true.
Proof.
  apply (routing_fails_toward_paging ["rollout.stall=info"] {["rollout.stall" := "info"]} zero_signal).
  vm_compute. done.
Defined.
