(* ===== verification/Repeat.v ===== *)
(** The repeat schedule of an open incident (src/pkg/engine/repeat.go) and the
    entry of the dedup cache it runs on (src/pkg/engine/dedup.go): when an
    occurrence of an incident that already has a session becomes a followup, and
    when it is only counted.

    Counters ([Count], [InjectCount], [Step], [RepeatCount]) grow by one per
    event and are unbounded integers here; durations keep their 64 bits. *)
From S2P Require Import Prelude GoTime GoStrings GoHash Signal.
From Stdlib Require Import Ascii.

(** ** The entry *)

Definition RepeatChangeClass : string := "class".
Definition RepeatChangeRate : string := "rate".
Definition RepeatChangeOpen : string := "open".

Record repeatState := mkRepeatState {
  SessionClass : bool;
  Resolved : bool;
  RepeatCount : Z;
  Step : Z;
  LastInjectAt : Time;
  InjectCount : Z;
  RatePerHour : float64;
  Classes : list string;
  PendingChange : bool;
  Undelivered : bool;
  LastChange : string
}.

Record dedupEntry := mkDedupEntry {
  SessionID : string;
  FirstSeen : Time;
  LastSeen : Time;
  EventLastTS : Time;
  Count : Z;
  de_Incident : option IncidentRef;
  Storm : string;
  SourceKind : string;
  FollowupSources : list string;
  AncestorKeys : list string;
  rs : repeatState;
  Parent : option EventKey
}.

Definition newRepeatState (now : Time) (repeatable : bool) (class : string) : repeatState := {|
  SessionClass := repeatable;
  Resolved := false;
  RepeatCount := 0;
  Step := 0;
  LastInjectAt := now;
  InjectCount := 1;
  RatePerHour := f64_zero;
  Classes := [class];
  PendingChange := false;
  Undelivered := false;
  LastChange := RepeatChangeOpen |}.

Definition markUndelivered (change : string) (r : repeatState) : repeatState :=
  r <| Undelivered := true |> <| LastChange := change |>.

Definition markResolved (r : repeatState) : repeatState := r <| Resolved := true |>.

Definition resetForUnbind (now : Time) (count : Z) (r : repeatState) : repeatState :=
  r <| RepeatCount := 0 |> <| Step := 0 |> <| RatePerHour := f64_zero |>
    <| PendingChange := false |> <| Undelivered := false |> <| LastChange := RepeatChangeOpen |>
    <| LastInjectAt := now |> <| InjectCount := count |>.

Definition recordRateJump (now : Time) (count : Z) (rate : float64) (r : repeatState) : repeatState :=
  r <| RatePerHour := rate |> <| RepeatCount := 0 |> <| Step := 0 |>
    <| LastChange := RepeatChangeRate |> <| LastInjectAt := now |> <| InjectCount := count |>
    <| PendingChange := false |>.

Definition recordClassChange (now : Time) (count : Z) (r : repeatState) : repeatState :=
  r <| RepeatCount := 0 |> <| Step ::= Z.succ |>
    <| LastChange := RepeatChangeClass |> <| LastInjectAt := now |> <| InjectCount := count |>
    <| PendingChange := false |>.

Definition recordReminder (now : Time) (count : Z) (rate : float64) (r : repeatState)
  : repeatState * Z :=
  let r := r <| RatePerHour := rate |> <| RepeatCount ::= Z.succ |> <| Step ::= Z.succ |>
    <| LastChange := "" |> <| LastInjectAt := now |> <| InjectCount := count |>
    <| PendingChange := false |> in
  (r, RepeatCount r).

(** ** The verdict on one event *)

Inductive DedupResultKind := DedupNewIncident | DedupDuplicate | DedupRepeat.

#[global] Instance DedupResultKind_eq_dec : EqDecision DedupResultKind.
Proof. solve_decision. Defined.

Record DedupResult := mkDedupResult {
  dr_Kind : DedupResultKind;
  dr_SessionID : string;
  dr_Count : Z;
  dr_Storm : string;
  dr_RepeatCount : Z;
  dr_Change : string;
  dr_Absorbed : bool;
  dr_Replay : bool
}.

(** The composite literal [DedupResult{Kind, SessionID, Count, Storm}]. *)
Definition dedup_result (kind : DedupResultKind) (sid : string) (count : Z) (storm : string)
  : DedupResult := mkDedupResult kind sid count storm 0 "" false false.

(** ** The schedule *)

Definition repeatIntervalCap : Duration := Hour.
Definition repeatJumpFactor : Z := 4.
Definition repeatJumpMin : Z := 10.
Definition maxRepeatClasses : nat := 16.

(** The body of the loop [for i := 1; i < n && d < limit; i++ { d *= 2 }], at most
    [k] more times. *)
Fixpoint double_loop (k : nat) (d limit : Duration) : Duration :=
  match k with
  | O => d
  | S k => if d <? limit then double_loop k (wrap64 (d * 2)) limit else d
  end.

Definition repeatInterval (window : Duration) (n : Z) : Duration :=
  let limit := Z.max repeatIntervalCap window in
  let d := double_loop (Z.to_nat (n - 1)) window limit in
  Z.min d limit.

(** ** Rates and classes *)

Definition markInject (now : Time) (e : dedupEntry) : dedupEntry :=
  e <| rs := (rs e) <| LastInjectAt := now |> <| InjectCount := Count e |> <| PendingChange := false |> |>.

Definition rateSinceInject (now : Time) (e : dedupEntry) : float64 :=
  let hours := Hours (Sub now (LastInjectAt (rs e))) in
  if f64_le hours f64_zero then f64_zero
  else f64_div (f64_of_Z (Count e - InjectCount (rs e))) hours.

Definition countJump (now : Time) (e : dedupEntry) : bool :=
  if f64_le (RatePerHour (rs e)) f64_zero || (Count e - InjectCount (rs e) <? repeatJumpMin) then false
  else if negb (After now (LastInjectAt (rs e))) then true
  else f64_le (f64_mul (f64_of_Z repeatJumpFactor) (RatePerHour (rs e))) (rateSinceInject now e).

(** [noteClass]: the known classes after the call, and whether it is a change. *)
Definition noteClass (class : string) (e : dedupEntry) : dedupEntry * bool :=
  let known := Classes (rs e) in
  if bool_decide (class ∈ known) then (e, false)
  else
    let changed := (0 <? length known)%nat in
    let l := known ++ [class] in
    let l := if (maxRepeatClasses <? length l)%nat then drop (length l - maxRepeatClasses) l else l in
    (e <| rs := (rs e) <| Classes := l |> |>, changed).

Definition is_digit (c : ascii) : bool :=
  let n := nat_of_ascii c in (48 <=? n)%nat && (n <=? 57)%nat.

Fixpoint shape_from (digits : bool) (msg : string) : string :=
  match msg with
  | EmptyString => EmptyString
  | String ch msg =>
      if is_digit ch
      then (if digits then shape_from true msg else String "#" (shape_from true msg))
      else String ch (shape_from false msg)
  end.

Definition messageShape (msg : string) : string := shape_from false msg.

Definition repeatClass (kind : string) (sev : Severity) (message : string) : string :=
  FormatUint16 (fnv64a (bytes_of (kind +:+ NUL +:+ sev +:+ NUL +:+ messageShape message))).

(** ** The decision for an event of an open incident *)

Definition repeat (window : Duration) (e : dedupEntry) (now eventLastTS : Time) (class : string)
    (lapsed : bool) : dedupEntry * DedupResult :=
  let e :=
    if IsZero (LastInjectAt (rs e))
    then e <| rs := (rs e) <| LastInjectAt := FirstSeen e |> <| InjectCount := Count e |> |>
    else e in
  let inRepeat := After (LastInjectAt (rs e)) (FirstSeen e) in
  let e := e <| Count ::= Z.succ |> <| LastSeen := now |> <| EventLastTS := eventLastTS |> in
  let '(e, changed) := noteClass class e in
  let e :=
    if changed && (window <? Sub now (FirstSeen e))
    then e <| rs := (rs e) <| PendingChange := true |> |> else e in
  let result := mkDedupResult DedupRepeat (SessionID e) 0 (Storm e) 0 "" false false in
  if Undelivered (rs e) then
    let e := e <| rs := (rs e) <| Undelivered := false |> |> in
    let result := result <| dr_Change := LastChange (rs e) |> in
    let '(e, result) :=
      if (dr_Change result ==s "") && PendingChange (rs e)
      then (e <| rs := (rs e) <| RepeatCount := 0 |> <| LastChange := RepeatChangeClass |> |>,
            result <| dr_Change := RepeatChangeClass |>)
      else (e, result) in
    let result :=
      if dr_Change result ==s "" then result <| dr_RepeatCount := RepeatCount (rs e) |> else result in
    let e := markInject now e in
    (e, result <| dr_Count := Count e |>)
  else
    let e :=
      if Step (rs e) <? RepeatCount (rs e)
      then e <| rs := (rs e) <| Step := RepeatCount (rs e) |> |> else e in
    let sinceInject := Sub now (LastInjectAt (rs e)) in
    let next := RepeatCount (rs e) + 1 in
    let interval := repeatInterval window (Step (rs e) + 1) in
    let dup := dedup_result DedupDuplicate (SessionID e) (Count e) (Storm e) in
    if inRepeat && countJump now e then
      let e := e <| rs := (rs e) <| RatePerHour := rateSinceInject now e |> <| RepeatCount := 0 |>
                     <| Step := 0 |> <| LastChange := RepeatChangeRate |> |> in
      let e := markInject now e in
      (e, result <| dr_Change := RepeatChangeRate |> <| dr_Count := Count e |>)
    else if PendingChange (rs e) then
      if interval <? sinceInject then
        let e := e <| rs := (rs e) <| RepeatCount := 0 |> <| Step ::= Z.succ |>
                       <| LastChange := RepeatChangeClass |> |> in
        let e := markInject now e in
        (e, result <| dr_Change := RepeatChangeClass |> <| dr_Count := Count e |>)
      else (e, dup <| dr_Absorbed := inRepeat || lapsed |>)
    else if negb inRepeat && negb lapsed then (e, dup)
    else if sinceInject <=? interval then (e, dup <| dr_Absorbed := true |>)
    else
      let e := e <| rs := (rs e) <| RatePerHour := rateSinceInject now e |> <| RepeatCount := next |>
                     <| Step ::= Z.succ |> <| LastChange := "" |> |> in
      let e := markInject now e in
      (e, result <| dr_RepeatCount := next |> <| dr_Count := Count e |>).

(** ** The branches of [repeat], taken apart

    What a call may do with an occurrence, and the bookkeeping every occurrence gets
    whatever is decided: the same code by cases, for the proofs below. *)

Inductive repeat_decision :=
  | Resend                 (** the last inject never arrived: send it again *)
  | RateJump               (** announce a rate jump at once, restart the backoff *)
  | ClassChange            (** announce a change of class, take a step *)
  | Reminder               (** remind the session, take a step *)
  | Hold (absorbed : bool) (** count it only *).

Definition legacy_inject (e : dedupEntry) : dedupEntry :=
  if IsZero (LastInjectAt (rs e))
  then e <| rs := (rs e) <| LastInjectAt := FirstSeen e |> <| InjectCount := Count e |> |> else e.

Definition note_occurrence (window : Duration) (now eventLastTS : Time) (class : string)
    (e : dedupEntry) : dedupEntry :=
  let e := e <| Count ::= Z.succ |> <| LastSeen := now |> <| EventLastTS := eventLastTS |> in
  let '(e, changed) := noteClass class e in
  if changed && (window <? Sub now (FirstSeen e))
  then e <| rs := (rs e) <| PendingChange := true |> |> else e.

Definition legacy_step (e : dedupEntry) : dedupEntry :=
  if Step (rs e) <? RepeatCount (rs e)
  then e <| rs := (rs e) <| Step := RepeatCount (rs e) |> |> else e.

(** The entry the decision is taken on. *)
Definition noted (window : Duration) (now eventLastTS : Time) (class : string)
    (e : dedupEntry) : dedupEntry :=
  let e := note_occurrence window now eventLastTS class (legacy_inject e) in
  if Undelivered (rs e) then e else legacy_step e.

Definition decide_repeat (window : Duration) (now : Time) (inRepeat lapsed : bool)
    (e : dedupEntry) : repeat_decision :=
  let due := repeatInterval window (Step (rs e) + 1) <? Sub now (LastInjectAt (rs e)) in
  if Undelivered (rs e) then Resend
  else if inRepeat && countJump now e then RateJump
  else if PendingChange (rs e) then (if due then ClassChange else Hold (inRepeat || lapsed))
  else if negb inRepeat && negb lapsed then Hold false
  else if due then Reminder else Hold true.

(** What the schedule remembers after a decision. *)
Definition record_decision (now : Time) (d : repeat_decision) (e : dedupEntry) : repeatState :=
  let r := rs e in
  match d with
  | Resend =>
      let stale := (LastChange r ==s "") && PendingChange r in
      r <| Undelivered := false |> <| LastInjectAt := now |> <| InjectCount := Count e |>
        <| PendingChange := false |>
        <| RepeatCount := if stale then 0 else RepeatCount r |>
        <| LastChange := if stale then RepeatChangeClass else LastChange r |>
  | RateJump => recordRateJump now (Count e) (rateSinceInject now e) r
  | ClassChange => recordClassChange now (Count e) r
  | Reminder => (recordReminder now (Count e) (rateSinceInject now e) r).1
  | Hold _ => r
  end.

(** What the dispatcher is told, from what the schedule remembers. *)
Definition decision_result (d : repeat_decision) (e : dedupEntry) (r : repeatState) : DedupResult :=
  match d with
  | Hold absorbed => mkDedupResult DedupDuplicate (SessionID e) (Count e) (Storm e) 0 "" absorbed false
  | _ => mkDedupResult DedupRepeat (SessionID e) (Count e) (Storm e)
           (if LastChange r ==s "" then RepeatCount r else 0) (LastChange r) false false
  end.

(** ** Lemmas *)

Ltac destruct_entry e :=
  destruct e as [? ? ? ? ? ? ? ? ? ? [? ? ? ? ? ? ? ? ? ? ?] ?].

Lemma noteClass_proj class e :
  (noteClass class e).1 = e <| rs := (rs e) <| Classes := Classes (rs (noteClass class e).1) |> |>.
Proof. unfold noteClass. destruct_entry e. simpl. by destruct (bool_decide _). Qed.

Lemma noteClass_bound class e :
  (length (Classes (rs e)) <= maxRepeatClasses)%nat ->
  (length (Classes (rs (noteClass class e).1)) <= maxRepeatClasses)%nat.
Proof.
  unfold noteClass. intros H. destruct (bool_decide _); [done|]. simpl.
  destruct (Nat.ltb_spec maxRepeatClasses (length (Classes (rs e) ++ [class]))) as [Hl|Hl]; [|done].
  rewrite length_drop. lia.
Qed.

Lemma noteClass_known class e : class ∈ Classes (rs (noteClass class e).1).
Proof.
  unfold noteClass. destruct (bool_decide _) eqn:E; btrue; [done|]. simpl.
  destruct (Nat.ltb_spec maxRepeatClasses (length (Classes (rs e) ++ [class]))) as [Hl|Hl]; [|set_solver].
  rewrite drop_app_le by (rewrite length_app in *; simpl in *; unfold maxRepeatClasses in *; lia).
  set_solver.
Qed.

(** [repeat] by its branches. *)
Lemma repeat_eq window e now ts class lapsed :
  let e1 := noted window now ts class e in
  let inRepeat := After (LastInjectAt (rs (legacy_inject e))) (FirstSeen e) in
  let d := decide_repeat window now inRepeat lapsed e1 in
  let r := record_decision now d e1 in
  repeat window e now ts class lapsed = (e1 <| rs := r |>, decision_result d e1 r).
Proof.
  cbv zeta. unfold repeat, noted, note_occurrence. fold (legacy_inject e).
  assert (FirstSeen (legacy_inject e) = FirstSeen e) as Hf
    by (unfold legacy_inject; by destruct (IsZero _)).
  rewrite Hf. set (b := After _ (FirstSeen e)). clearbody b. clear Hf.
  generalize (legacy_inject e) as e0; intros e0.
  destruct (noteClass class _) as [e1 changed] eqn:E1.
  set (e2 := if changed && _ then _ else _).
  clearbody e2. clear e0 e1 changed E1.
  destruct (Undelivered (rs e2)) eqn:Eu.
  - unfold decide_repeat. rewrite Eu. destruct_entry e2; simpl in *.
    destruct (bool_decide _) eqn:Ed; simpl; [|by rewrite Ed].
    destruct PendingChange0; simpl; [done|]. by rewrite Ed.
  - fold (legacy_step e2). unfold decide_repeat.
    assert (Undelivered (rs (legacy_step e2)) = false) as Eu'
      by (unfold legacy_step; destruct_entry e2; simpl in *; by case_goal).
    assert (SessionID e2 = SessionID (legacy_step e2) /\ Storm e2 = Storm (legacy_step e2)) as [-> ->]
      by (unfold legacy_step; destruct_entry e2; simpl in *; by case_goal).
    rewrite Eu'. generalize dependent (legacy_step e2). clear e2 Eu e. intros e Eu.
    destruct (b && countJump now e); [by destruct_entry e|].
    destruct (PendingChange (rs e)) eqn:Ep.
    + destruct (_ <? _); by destruct_entry e.
    + destruct (negb b && negb lapsed); [by destruct_entry e|].
      rewrite Z.leb_antisym. destruct (_ <? _); by destruct_entry e.
Qed.

(** An occurrence is counted and dated, its class noted, and nothing that routes
    the incident changes. *)
Lemma legacy_inject_form e :
  exists i, legacy_inject e =
    e <| rs := (rs e)
         <| LastInjectAt := if IsZero (LastInjectAt (rs e)) then FirstSeen e else LastInjectAt (rs e) |>
         <| InjectCount := i |> |>.
Proof.
  unfold legacy_inject. destruct_entry e; simpl. destruct (IsZero _); by eexists.
Qed.

Lemma note_occurrence_form window now ts class e :
  exists p, note_occurrence window now ts class e =
    e <| Count := Count e + 1 |> <| LastSeen := now |> <| EventLastTS := ts |>
      <| rs := (rs e) <| Classes := Classes (rs (noteClass class e).1) |> <| PendingChange := p |> |> /\
    (PendingChange (rs e) = true -> p = true).
Proof.
  unfold note_occurrence, noteClass. destruct_entry e; simpl.
  destruct (bool_decide _); simpl; [by eexists|].
  destruct (_ && _); by eexists.
Qed.

Lemma legacy_step_form e :
  legacy_step e = e <| rs := (rs e) <| Step := Z.max (Step (rs e)) (RepeatCount (rs e)) |> |>.
Proof.
  unfold legacy_step. destruct_entry e; simpl.
  destruct (Z.ltb_spec Step0 RepeatCount0); [by rewrite Z.max_r by lia|by rewrite Z.max_l by lia].
Qed.

Lemma noted_form window now ts class e :
  exists i p, noted window now ts class e =
    e <| Count := Count e + 1 |> <| LastSeen := now |> <| EventLastTS := ts |>
      <| rs := (rs e)
         <| LastInjectAt := if IsZero (LastInjectAt (rs e)) then FirstSeen e else LastInjectAt (rs e) |>
         <| InjectCount := i |>
         <| Classes := Classes (rs (noteClass class e).1) |>
         <| PendingChange := p |>
         <| Step := if Undelivered (rs e) then Step (rs e)
                    else Z.max (Step (rs e)) (RepeatCount (rs e)) |> |> /\
    (PendingChange (rs e) = true -> p = true).
Proof.
  unfold noted. destruct (legacy_inject_form e) as [i Hi].
  destruct (note_occurrence_form window now ts class (legacy_inject e)) as (p & Hp & Hpend).
  assert (Classes (rs (noteClass class (legacy_inject e)).1) = Classes (rs (noteClass class e).1)) as Hc
    by (rewrite Hi; unfold noteClass; destruct_entry e; simpl; by destruct (bool_decide _)).
  rewrite Hc in Hp. clear Hc. rewrite Hp, Hi in *. clear Hp Hi. exists i, p.
  split; [|by destruct_entry e]. destruct_entry e; simpl.
  destruct Undelivered0; [done|]. by rewrite legacy_step_form.
Qed.

(** The two facts as one: a call of [repeat] is a decision [d] taken on the noted
    entry [e1]. *)
Lemma repeat_inv window e now ts class lapsed e' r :
  repeat window e now ts class lapsed = (e', r) ->
  exists i p e1 d,
    e1 = e <| Count := Count e + 1 |> <| LastSeen := now |> <| EventLastTS := ts |>
      <| rs := (rs e)
         <| LastInjectAt := if IsZero (LastInjectAt (rs e)) then FirstSeen e else LastInjectAt (rs e) |>
         <| InjectCount := i |>
         <| Classes := Classes (rs (noteClass class e).1) |>
         <| PendingChange := p |>
         <| Step := if Undelivered (rs e) then Step (rs e)
                    else Z.max (Step (rs e)) (RepeatCount (rs e)) |> |> /\
    (PendingChange (rs e) = true -> p = true) /\
    d = decide_repeat window now (After (LastInjectAt (rs e1)) (FirstSeen e)) lapsed e1 /\
    e' = e1 <| rs := record_decision now d e1 |> /\
    r = decision_result d e1 (record_decision now d e1).
Proof.
  intros H. destruct (noted_form window now ts class e) as (i & p & Hn & Hp).
  pose proof (repeat_eq window e now ts class lapsed) as Heq. cbv zeta in Heq.
  assert (LastInjectAt (rs (legacy_inject e)) = LastInjectAt (rs (noted window now ts class e))) as Hl.
  { rewrite Hn. unfold legacy_inject. by destruct (IsZero (LastInjectAt (rs e))). }
  rewrite Hl, H in Heq. apply pair_equal_spec in Heq as [He' Hr].
  exists i, p, (noted window now ts class e). eexists. repeat split; eauto.
Qed.

(** Split on every test of the decision [Hd : d = decide_repeat ...], unfolded. *)
Ltac case_decision Hd :=
  repeat match type of Hd with
  | _ = (if ?b then _ else _) => let E := fresh "E" in destruct b eqn:E
  end; subst; btrue.

(** ** The interval *)

Lemma double_loop_closed k d limit :
  0 < d -> d <= limit -> limit <= 2 ^ 62 ->
  Z.min (double_loop k d limit) limit = Z.min (d * 2 ^ Z.of_nat k) limit.
Proof.
  revert d; induction k as [|k IH]; intros d Hd Hdl Hl; simpl double_loop.
  { by rewrite Z.mul_1_r. }
  assert (1 <= 2 ^ Z.of_nat k) by (apply pow2_ge1; lia).
  rewrite Nat2Z.inj_succ, Z.pow_succ_r by lia.
  destruct (Z.ltb_spec d limit); [|rewrite !Z.min_r; nia].
  rewrite wrap64_id by (unfold in_int64, int64_min, int64_max; lia).
  destruct (Z.le_gt_cases (d * 2) limit).
  - rewrite IH by lia. f_equal. lia.
  - assert (double_loop k (d * 2) limit = d * 2) as ->.
    { destruct k; simpl; [done|]. destruct (Z.ltb_spec (d * 2) limit); lia. }
    rewrite !Z.min_r; nia.
Qed.

Lemma repeatInterval_min window n :
  0 < window -> 1 <= n ->
  repeatInterval window n = Z.min (window * 2 ^ (n - 1)) (Z.max Hour window).
Proof.
  intros Hw Hn. unfold repeatInterval, repeatIntervalCap.
  assert (0 < Hour <= 2 ^ 62) as [] by (vm_compute; done).
  destruct (Z.le_gt_cases window Hour).
  - rewrite Z.max_l by lia. rewrite double_loop_closed by lia. f_equal. f_equal. f_equal. lia.
  - rewrite Z.max_r by lia.
    assert (double_loop (Z.to_nat (n - 1)) window window = window) as ->.
    { destruct (Z.to_nat _); simpl; [done|]. by rewrite Z.ltb_irrefl. }
    assert (1 <= 2 ^ (n - 1)) by (apply pow2_ge1; lia). rewrite !Z.min_r; nia.
Qed.

Lemma repeatInterval_bounds window n :
  0 < window -> 1 <= n -> window <= repeatInterval window n <= Z.max Hour window.
Proof.
  intros Hw Hn. rewrite repeatInterval_min by done.
  assert (1 <= 2 ^ (n - 1)) by (apply pow2_ge1; lia). nia.
Qed.

(** ** A run of an open incident *)

(** [Observation] and [newDedupEntry] (dedup.go): what the cache is told of one
    event, and the entry a first sighting opens. *)
Record Observation := mkObservation {
  obs_LastTS : Time;
  obs_Kind : string;
  obs_Severity : Severity;
  obs_Message : string;
  obs_Repeatable : bool;
  obs_Downgraded : bool
}.

Definition newDedupEntry (now : Time) (obs : Observation) (class : string) : dedupEntry := {|
  SessionID := "";
  FirstSeen := now;
  LastSeen := now;
  EventLastTS := obs_LastTS obs;
  Count := 1;
  de_Incident := None;
  Storm := "";
  SourceKind := "";
  FollowupSources := [];
  AncestorKeys := [];
  rs := newRepeatState now (obs_Repeatable obs) class;
  Parent := None |}.

(** One occurrence handed to the schedule: its wall clock, the event's own
    timestamp, its class, and whether the window had lapsed. *)
Record occurrence := mkOccurrence {
  oc_now : Time;
  oc_lastTS : Time;
  oc_class : string;
  oc_lapsed : bool
}.

Fixpoint repeat_run (window : Duration) (e : dedupEntry) (l : list occurrence)
  : dedupEntry * list DedupResult :=
  match l with
  | [] => (e, [])
  | o :: l =>
      let '(e, r) := repeat window e (oc_now o) (oc_lastTS o) (oc_class o) (oc_lapsed o) in
      let '(e, out) := repeat_run window e l in (e, r :: out)
  end.

(** How many of the verdicts speak into the session. *)
Definition injects (out : list DedupResult) : nat :=
  length (filter (fun r => dr_Kind r = DedupRepeat) out).

(** The length of the first [n] intervals from step [k] on. *)
Fixpoint schedule_from (window : Duration) (k : Z) (n : nat) : Duration :=
  match n with
  | O => 0
  | S n => repeatInterval window (k + 1) + schedule_from window (k + 1) n
  end.

(** An incident on schedule: delivered, dated, and no reminder unaccounted for. *)
Definition on_schedule (e : dedupEntry) : Prop :=
  Undelivered (rs e) = false /\ 0 < LastInjectAt (rs e) /\
  0 <= RepeatCount (rs e) <= Step (rs e).

Lemma repeat_on_schedule window e now ts class lapsed e' r :
  0 < window -> on_schedule e ->
  repeat window e now ts class lapsed = (e', r) -> dr_Change r <> RepeatChangeRate ->
  on_schedule e' /\
  ((dr_Kind r = DedupRepeat /\ LastInjectAt (rs e') = now /\ Step (rs e') = Step (rs e) + 1 /\
    repeatInterval window (Step (rs e) + 1) < now - LastInjectAt (rs e)) \/
   (dr_Kind r = DedupDuplicate /\ LastInjectAt (rs e') = LastInjectAt (rs e) /\
    Step (rs e') = Step (rs e))).
Proof.
  intros Hw (Hu & Ht & Hs) Hr Hrate.
  apply repeat_inv in Hr as (i & p & e1 & d & He1 & _ & Hd & -> & ->).
  assert (Undelivered (rs e1) = false /\ LastInjectAt (rs e1) = LastInjectAt (rs e) /\
    RepeatCount (rs e1) = RepeatCount (rs e) /\ Step (rs e1) = Step (rs e)) as (Hu1 & Hl1 & Hc1 & Hs1).
  { subst e1. simpl. rewrite Hu. unfold IsZero, zero_time.
    destruct (Z.eqb_spec (LastInjectAt (rs e)) 0); [lia|]. repeat split; auto; lia. }
  clear He1. unfold decide_repeat in Hd. rewrite Hu1, Hl1, Hs1 in Hd.
  pose proof (repeatInterval_bounds window (Step (rs e) + 1) Hw ltac:(lia)) as [Hi _].
  unfold on_schedule.
  destruct (Z.ltb_spec (repeatInterval window (Step (rs e) + 1)) (Sub now (LastInjectAt (rs e)))) as [Hdue|];
    [assert (repeatInterval window (Step (rs e) + 1) < now - LastInjectAt (rs e)) by
        (revert Hdue; unfold_time; lia)|];
    case_decision Hd; simpl in *; rewrite ?Hu1, ?Hl1, ?Hc1, ?Hs1; simpl;
    try (by destruct Hrate);
    (split; [repeat split; auto; lia|]); try (by right); left; repeat split; auto; lia.
Qed.

Lemma repeat_run_schedule window e l e' out :
  0 < window -> on_schedule e -> repeat_run window e l = (e', out) ->
  Forall (fun r => dr_Change r <> RepeatChangeRate) out ->
  LastInjectAt (rs e) + schedule_from window (Step (rs e)) (injects out) + Z.of_nat (injects out)
    <= LastInjectAt (rs e') /\
  (LastInjectAt (rs e') = LastInjectAt (rs e) \/ LastInjectAt (rs e') ∈ oc_now <$> l).
Proof.
  intros Hw. revert e out; induction l as [|o l IH]; intros e out Hon; simpl.
  { intros; simplify_eq. cbn. split; [lia|auto]. }
  destruct (repeat _ _ _ _ _ _) as [e1 r] eqn:Er.
  destruct (repeat_run window e1 l) as [e2 out'] eqn:Erun.
  intros; simplify_eq. match goal with H : Forall _ (_ :: _) |- _ => inversion_clear H end.
  destruct (repeat_on_schedule _ _ _ _ _ _ _ _ Hw Hon Er) as [Hon' Hcase]; [done|].
  destruct (IH e1 out' Hon' Erun) as [Hle Hin]; [done|].
  unfold injects in *. destruct Hcase as [(Hk & Hl & Hst & Hd)|(Hk & Hl & Hst)].
  - rewrite filter_cons_True by done. simpl length. simpl schedule_from. rewrite Hst, Hl in *.
    split; [lia|]. right. set_solver.
  - rewrite filter_cons_False by (rewrite Hk; done). rewrite Hst, Hl in *.
    split; [lia|]. set_solver.
Qed.

Lemma schedule_from_mono window k n m :
  0 < window -> 0 <= k -> (n <= m)%nat -> schedule_from window k n <= schedule_from window k m.
Proof.
  intros Hw. revert k m; induction n as [|n IH]; intros k m Hk Hnm; simpl.
  - revert k Hk; induction m as [|m IHm]; intros k Hk; simpl; [lia|].
    pose proof (repeatInterval_bounds window (k + 1) Hw ltac:(lia)).
    specialize (IHm ltac:(lia) (k + 1)). lia.
  - destruct m; [lia|]. simpl. specialize (IH (k + 1) m). lia.
Qed.

(** An open incident cannot speak more often than its backoff schedule. From a
    freshly opened incident, whatever occurrences arrive (any classes, any
    timestamps, any order of lapses) up to a horizon of [h] after the open, if the
    first [n+1] intervals of the doubling schedule do not fit in [h], at most [n]
    followups are injected, unless a rate jump restarted the backoff. At the default
    window of 5m, a day fits at most 26. *)
Theorem reminder_budget (window h : Duration) (now : Time) (obs : Observation) (class : string)
    (l : list occurrence) (n : nat)
    (Hw : 0 < window) (Hnow : 0 < now)
    (Hl : Forall (fun o => oc_now o <= now + h) l) (Hh0 : 0 <= h)
    (Hfit : h <= schedule_from window 0 (S n))
    (Hrate : Forall (fun r => dr_Change r <> RepeatChangeRate)
               (repeat_run window (newDedupEntry now obs class) l).2) :
  (injects (repeat_run window (newDedupEntry now obs class) l).2 <= n)%nat.
Proof.
  destruct (repeat_run _ _ _) as [e' out] eqn:Er. cbn [snd] in *.
  assert (on_schedule (newDedupEntry now obs class)) as Hon by (unfold on_schedule; simpl; lia).
  destruct (repeat_run_schedule _ _ _ _ _ Hw Hon Er Hrate) as [Hle Hin].
  simpl in Hle, Hin. destruct (decide (injects out <= n)%nat); [done|exfalso].
  pose proof (schedule_from_mono window 0 (S n) (injects out) Hw ltac:(lia) ltac:(lia)).
  assert (LastInjectAt (rs e') <= now + h).
  { destruct Hin as [->|Hin]; [lia|]. apply list_elem_of_fmap in Hin as (o & -> & Ho).
    exact (proj1 (list.Forall_forall _ _) Hl o Ho). }
  lia.
Qed.

(** A pod the scheduler retries every 301s under the default window. *)
Definition stuck_pod (n : nat) : list occurrence :=
  (fun i => let t := Z.of_nat i * 301 * Second in mkOccurrence (Hour + t) (Hour + t) "c" true)
    <$> seq 1 n.

Definition some_obs : Observation := mkObservation Hour "k8s-event" "critical" "0/6 nodes" true false.

Lemma reminder_budget_witness :
  (injects (repeat_run (5 * Minute) (newDedupEntry Hour some_obs "c") (stuck_pod 3)).2 <= 26)%nat.
Proof.
  apply (reminder_budget (5 * Minute) (24 * Hour) Hour some_obs "c" (stuck_pod 3) 26);
    apply (bool_decide_unpack _); vm_compute; exact I.
Defined.

(** ** The schedule of a history

    What the schedule makes of an occurrence, said of the occurrences since the open and
    of what became of each, newest first, without the fields the entry keeps. *)

Module Schedule.

Inductive followup := Remind | TellClass | TellRate.

Section history.
Context (window : Duration) (opened : Time) (first : string).

Notation history := (list (occurrence * option followup)) (only parsing).

(** When the session last heard of the incident, and how many occurrences came since. *)
Fixpoint last_told (h : history) : Time :=
  match h with [] => opened | (o, Some _) :: _ => oc_now o | (_, None) :: h => last_told h end.
Fixpoint untold (h : history) : Z :=
  match h with (_, None) :: h => 1 + untold h | _ => 0 end.

(** The followups since the open or the last rate jump, and the reminders since the last change. *)
Fixpoint backoff (h : history) : Z :=
  match h with [] | (_, Some TellRate) :: _ => 0 | (_, Some _) :: h => 1 + backoff h | (_, None) :: h => backoff h end.
Fixpoint reminded (h : history) : Z :=
  match h with (_, Some Remind) :: h => 1 + reminded h | (_, None) :: h => reminded h | _ => 0 end.

(** The reference rate: what the last reminder or rate jump measured. *)
Definition per_hour (n : Z) (since now : Time) : float64 :=
  let hours := Hours (Sub now since) in if f64_le hours f64_zero then f64_zero else f64_div (f64_of_Z n) hours.
Fixpoint reference (h : history) : float64 :=
  match h with
  | [] => f64_zero
  | (o, Some Remind) :: h | (o, Some TellRate) :: h => per_hour (1 + untold h) (last_told h) (oc_now o)
  | _ :: h => reference h
  end.

(** The classes shown, the newest sixteen. *)
Definition show (c : string) (l : list string) : list string :=
  if bool_decide (c ∈ l) then l else drop (length (l ++ [c]) - maxRepeatClasses) (l ++ [c]).
Fixpoint shown (h : history) : list string :=
  match h with [] => [first] | (o, _) :: h => show (oc_class o) (shown h) end.

(** A class not shown, more than a window after the open, is news until the session hears of it. *)
Definition is_news (o : occurrence) (h : history) : bool :=
  negb (bool_decide (oc_class o ∈ shown h)) && (window <? Sub (oc_now o) opened).
Fixpoint news (h : history) : bool :=
  match h with (o, None) :: h => is_news o h || news h | _ => false end.

(** At least ten untold, at four times the reference rate or in no time. *)
Definition jumped (o : occurrence) (h : history) : bool :=
  negb (f64_le (reference h) f64_zero) && (10 <=? 1 + untold h) &&
  ((oc_now o <=? last_told h) || f64_le (f64_mul (f64_of_Z 4) (reference h)) (per_hour (1 + untold h) (last_told h) (oc_now o))).

(** The pause doubles from one window up to an hour, or the window when that is longer. *)
Definition pause (h : history) : Duration := Z.min (window * 2 ^ backoff h) (Z.max Hour window).

Definition repeating (h : history) : bool := opened <? last_told h.

Definition told (o : occurrence) (h : history) : option followup :=
  let over := pause h <? Sub (oc_now o) (last_told h) in
  if repeating h && jumped o h then Some TellRate
  else if is_news o h || news h then (if over then Some TellClass else None)
  else if repeating h || oc_lapsed o then (if over then Some Remind else None)
  else None.

Definition answer (sid storm : string) (o : occurrence) (h : history) : DedupResult :=
  let count := Z.of_nat (length h) + 2 in
  match told o h with
  | Some f => mkDedupResult DedupRepeat sid count storm
                (match f with Remind => 1 + reminded h | _ => 0 end)
                (match f with Remind => "" | TellClass => RepeatChangeClass | TellRate => RepeatChangeRate end) false false
  | None => mkDedupResult DedupDuplicate sid count storm 0 "" (repeating h || oc_lapsed o) false
  end.

Fixpoint answers (sid storm : string) (h : history) (l : list occurrence) : list DedupResult :=
  match l with
  | [] => []
  | o :: l => answer sid storm o h :: answers sid storm ((o, told o h) :: h) l
  end.

(** *** The entry is its history *)

Record keeps_history (h : history) (e : dedupEntry) : Prop := {
  kh_opened : FirstSeen e = opened;
  kh_count : Count e = Z.of_nat (length h) + 1;
  kh_last : LastInjectAt (rs e) = last_told h;
  kh_untold : InjectCount (rs e) = Count e - untold h;
  kh_step : Step (rs e) = backoff h;
  kh_reminded : RepeatCount (rs e) = reminded h;
  kh_rate : RatePerHour (rs e) = reference h;
  kh_classes : Classes (rs e) = shown h;
  kh_news : PendingChange (rs e) = news h;
  kh_delivered : Undelivered (rs e) = false
}.

Lemma backoff_bounds h : 0 <= reminded h <= backoff h.
Proof. induction h as [|[o [[]|]] h IH]; cbn [backoff reminded]; lia. Qed.

Lemma shown_some h : (0 < length (shown h) <= maxRepeatClasses)%nat.
Proof.
  assert (0 < maxRepeatClasses)%nat by (unfold maxRepeatClasses; lia). induction h as [|[o f] h IH]; cbn [shown]; [cbn; lia|]. unfold show. case_bool_decide; [done|].
  rewrite length_drop, length_app. cbn [length]. lia.
Qed.

Lemma noteClass_show c e : (length (Classes (rs e)) <= maxRepeatClasses)%nat ->
  noteClass c e = (e <| rs := (rs e) <| Classes := show c (Classes (rs e)) |> |>,
                   negb (bool_decide (c ∈ Classes (rs e))) && (0 <? length (Classes (rs e)))%nat).
Proof.
  intros Hl. unfold noteClass, show. destruct (bool_decide _) eqn:E; [by destruct_entry e|]. cbn [negb andb].
  destruct (Nat.ltb_spec maxRepeatClasses (length (Classes (rs e) ++ [c]))); [done|].
  by replace (length (Classes (rs e) ++ [c]) - maxRepeatClasses)%nat with 0%nat by lia.
Qed.

(** The entry an occurrence is judged on. *)
Lemma noted_history h e o : 0 < last_told h -> keeps_history h e ->
  let e1 := noted window (oc_now o) (oc_lastTS o) (oc_class o) e in
  legacy_inject e = e /\ FirstSeen e1 = opened /\ SessionID e1 = SessionID e /\ Storm e1 = Storm e /\ Count e1 = Z.of_nat (length h) + 2 /\
  LastInjectAt (rs e1) = last_told h /\ InjectCount (rs e1) = Count e1 - (1 + untold h) /\ Step (rs e1) = backoff h /\ RepeatCount (rs e1) = reminded h /\
  RatePerHour (rs e1) = reference h /\ Classes (rs e1) = show (oc_class o) (shown h) /\ PendingChange (rs e1) = is_news o h || news h /\ Undelivered (rs e1) = false.
Proof.
  intros Hpos [K1 K2 K3 K4 K5 K6 K7 K8 K9 K10]. cbv zeta.
  assert (legacy_inject e = e) as Hleg. { unfold legacy_inject, IsZero, zero_time. rewrite K3. destruct (Z.eqb_spec (last_told h) 0); [lia|done]. }
  split; [done|]. unfold noted. rewrite Hleg. unfold note_occurrence. pose proof (shown_some h) as Hsh.
  set (e2 := e <| Count ::= Z.succ |> <| LastSeen := _ |> <| EventLastTS := _ |>).
  assert (rs e2 = rs e /\ FirstSeen e2 = FirstSeen e) as [Er2 Ef2] by done. rewrite noteClass_show by (rewrite Er2, K8; lia).
  cbv beta iota zeta. rewrite Er2, K8. assert ((0 <? length (shown h))%nat = true) as -> by (apply Nat.ltb_lt; lia). rewrite andb_true_r.
  set (e3 := e2 <| rs := _ |>). assert (FirstSeen e3 = opened) as -> by (by rewrite <- K1, <- Ef2). fold (is_news o h).
  assert (forall b, Undelivered (rs (if b : bool then e3 <| rs := (rs e3) <| PendingChange := true |> |> else e3)) = false) as Hu by (intros []; exact K10).
  rewrite Hu, legacy_step_form. pose proof (backoff_bounds h). subst e3 e2. destruct_entry e. cbn in *. subst.
  destruct (is_news o h); cbn; repeat split; lia.
Qed.

Lemma countJump_history h e o : LastInjectAt (rs e) = last_told h -> InjectCount (rs e) = Count e - (1 + untold h) -> RatePerHour (rs e) = reference h ->
  countJump (oc_now o) e = jumped o h /\ rateSinceInject (oc_now o) e = per_hour (1 + untold h) (last_told h) (oc_now o).
Proof.
  intros E1 E2 E3. assert (rateSinceInject (oc_now o) e = per_hour (1 + untold h) (last_told h) (oc_now o)) as Er.
  { unfold rateSinceInject, per_hour. rewrite E1, E2. by replace (Count e - (Count e - (1 + untold h))) with (1 + untold h) by lia. }
  split; [|done]. unfold countJump, jumped. rewrite Er, E1, E2, E3. replace (Count e - (Count e - (1 + untold h))) with (1 + untold h) by lia.
  destruct (f64_le (reference h) f64_zero); [done|]. cbn [orb negb andb]. unfold repeatJumpMin, repeatJumpFactor. rewrite Z.leb_antisym.
  destruct (1 + untold h <? 10); [done|]. cbn [negb andb]. unfold After. rewrite Z.leb_antisym. by destruct (last_told h <? oc_now o).
Qed.

Lemma repeat_history h e o : 0 < window -> 0 < last_told h -> keeps_history h e ->
  let '(e', r) := repeat window e (oc_now o) (oc_lastTS o) (oc_class o) (oc_lapsed o) in
  r = answer (SessionID e) (Storm e) o h /\ keeps_history ((o, told o h) :: h) e' /\ SessionID e' = SessionID e /\ Storm e' = Storm e.
Proof.
  intros Hw Hpos Hk. destruct (noted_history h e o Hpos Hk) as (Hleg & N1 & N2 & N3 & N4 & N5 & N6 & N7 & N8 & N9 & N10 & N11 & N12).
  rewrite repeat_eq. set (e1 := noted _ _ _ _ e) in *. clearbody e1. rewrite Hleg, (kh_opened _ _ Hk), (kh_last _ _ Hk). clear Hleg Hk.
  change (After (last_told h) opened) with (repeating h).
  destruct (countJump_history h e1 o N5 N6 N9) as [Hj Hr]. pose proof (backoff_bounds h) as Hb.
  assert (decide_repeat window (oc_now o) (repeating h) (oc_lapsed o) e1 =
    match told o h with Some Remind => Reminder | Some TellClass => ClassChange | Some TellRate => RateJump | None => Hold (repeating h || oc_lapsed o) end) as ->.
  { unfold decide_repeat, told. rewrite N12, Hj, N11, N5, N7, repeatInterval_min by lia. replace (backoff h + 1 - 1) with (backoff h) by lia. fold (pause h).
    destruct (repeating h && jumped o h); [done|]. destruct (is_news o h || news h); [by destruct (_ <? _)|].
    destruct (repeating h), (oc_lapsed o); cbn; try done; by destruct (_ <? _). }
  destruct_entry e1. cbn in N1, N2, N3, N4, N5, N6, N7, N8, N9, N10, N11, N12. cbn in Hr. subst.
  unfold answer, decision_result. destruct (told o h) as [[]|] eqn:Et; cbn.
  all: change ("" ==s "") with true; change (RepeatChangeClass ==s "") with false; change (RepeatChangeRate ==s "") with false.
  all: split; [cbn; f_equal; lia|split; [|done]]; split; try done; cbn; rewrite ?Hr; try done; lia.
Qed.
End history.


(** A stuck pod that changes its message after the second reminder: reminders at the first
    occurrence past 5m and then past 10m, the change held until past 20m, the next pause 40m. *)
Definition changing_pod : list occurrence :=
  (fun i => let t := Z.of_nat i * 301 * Second in mkOccurrence (Hour + t) (Hour + t) (if (i <=? 4)%nat then "c" else "d") true) <$> seq 1 9.


End Schedule.

(** A material change is never swallowed. Once a class change is pending on an
    incident, the next occurrence either leaves it pending and injects nothing, or
    injects a followup that is not a reminder (repeat_count 0, the change named). *)
Theorem pending_change_never_swallowed (window : Duration) (e e' : dedupEntry) (now ts : Time)
    (class : string) (lapsed : bool) (r : DedupResult)
    (Hp : PendingChange (rs e) = true)
    (Hr : repeat window e now ts class lapsed = (e', r)) :
  (dr_Kind r = DedupDuplicate /\ PendingChange (rs e') = true) \/
  (dr_Kind r = DedupRepeat /\ PendingChange (rs e') = false /\ dr_RepeatCount r = 0 /\ dr_Change r <> "").
Proof.
  apply repeat_inv in Hr as (i & p & e1 & d & He1 & Hpend & Hd & -> & ->).
  assert (PendingChange (rs e1) = true) as Hp1 by (subst e1; simpl; auto).
  clear He1 Hpend. unfold decide_repeat in Hd. rewrite Hp1 in Hd.
  case_decision Hd; simpl; auto; right; rewrite ?Hp1, ?andb_true_r; repeat split; auto;
    try (by destruct (LastChange (rs e1) ==s "") eqn:Ec; [|rewrite Ec]); try done.
  destruct (LastChange (rs e1) ==s "") eqn:Ec; [done|by btrue].
Qed.

Lemma pending_change_never_swallowed_witness :
  let e := newDedupEntry Hour some_obs "c" in
  let e := e <| rs := (rs e) <| PendingChange := true |> |> in
  let r := (repeat (5 * Minute) e (2 * Hour) (2 * Hour) "c" true).2 in
  let e' := (repeat (5 * Minute) e (2 * Hour) (2 * Hour) "c" true).1 in
  (dr_Kind r = DedupDuplicate /\ PendingChange (rs e') = true) \/
  (dr_Kind r = DedupRepeat /\ PendingChange (rs e') = false /\ dr_RepeatCount r = 0 /\ dr_Change r <> "").
Proof. eapply pending_change_never_swallowed; [|apply surjective_pairing]; reflexivity. Defined.

(** A due occurrence speaks. An occurrence that arrives more than the current
    step's interval after the last inject, on an incident past its first window, is
    injected into the session, whatever its class, and becomes the last inject. *)
Theorem due_occurrence_speaks (window : Duration) (e e' : dedupEntry) (now ts : Time)
    (class : string) (lapsed : bool) (r : DedupResult)
    (Hl : 0 < LastInjectAt (rs e))
    (Hpast : lapsed = true \/ FirstSeen e < LastInjectAt (rs e))
    (Hdue : repeatInterval window (Z.max (Step (rs e)) (RepeatCount (rs e)) + 1)
            < Sub now (LastInjectAt (rs e)))
    (Hr : repeat window e now ts class lapsed = (e', r)) :
  dr_Kind r = DedupRepeat /\ dr_SessionID r = SessionID e /\ dr_Count r = Count e + 1 /\
  LastInjectAt (rs e') = now /\ PendingChange (rs e') = false /\ Undelivered (rs e') = false.
Proof.
  apply repeat_inv in Hr as (i & p & e1 & d & He1 & _ & Hd & -> & ->).
  assert (LastInjectAt (rs e1) = LastInjectAt (rs e) /\ SessionID e1 = SessionID e /\
    Count e1 = Count e + 1 /\ Undelivered (rs e1) = Undelivered (rs e) /\
    Step (rs e1) = (if Undelivered (rs e) then Step (rs e) else Z.max (Step (rs e)) (RepeatCount (rs e))))
    as (Hl1 & Hs1 & Hc1 & Hu1 & Hst1).
  { subst e1. simpl. unfold IsZero, zero_time. destruct (Z.eqb_spec (LastInjectAt (rs e)) 0); [lia|auto]. }
  clear He1. unfold decide_repeat in Hd. rewrite Hl1, Hu1 in Hd.
  destruct (Undelivered (rs e)); [subst d; simpl; repeat split; auto|].
  rewrite Hst1, (proj2 (Z.ltb_lt _ _) Hdue) in Hd.
  assert (negb (After (LastInjectAt (rs e)) (FirstSeen e)) && negb lapsed = false) as Hn.
  { apply andb_false_iff. destruct Hpast as [->|H]; [by right|left]. unfold After.
    by rewrite (proj2 (Z.ltb_lt _ _) H). }
  rewrite Hn in Hd. case_decision Hd; simpl; repeat split; auto.
Qed.

Lemma due_occurrence_speaks_witness :
  let e := newDedupEntry Hour some_obs "c" in
  dr_Kind (repeat (5 * Minute) e (2 * Hour) (2 * Hour) "c" true).2 = DedupRepeat.
Proof.
  eapply due_occurrence_speaks; [| | |apply surjective_pairing];
    [reflexivity|left; reflexivity|reflexivity].
Defined.

(** A class change is announced after one interval, not two windows. The
    schedule's comments give it a floor of max(2 windows, the step's interval); on an
    incident that has not repeated yet the code announces it as soon as one window
    has passed since the open. *)
Theorem class_change_after_one_window (window : Duration) (e e' : dedupEntry) (now ts : Time)
    (class : string) (lapsed : bool) (r : DedupResult)
    (Hw : 0 < window)
    (Hopen : LastInjectAt (rs e) = FirstSeen e) (Hf : 0 < FirstSeen e)
    (Hstep : Step (rs e) = 0 /\ RepeatCount (rs e) = 0)
    (Hu : Undelivered (rs e) = false) (Hp : PendingChange (rs e) = true)
    (Hlate : window < Sub now (FirstSeen e) < 2 * window)
    (Hr : repeat window e now ts class lapsed = (e', r)) :
  dr_Kind r = DedupRepeat /\ dr_Change r = RepeatChangeClass /\ Step (rs e') = 1.
Proof.
  apply repeat_inv in Hr as (i & p & e1 & d & He1 & Hpend & Hd & -> & ->).
  rewrite Hopen in He1. unfold IsZero, zero_time in He1.
  destruct (Z.eqb_spec (FirstSeen e) 0); [lia|].
  assert (Undelivered (rs e1) = false /\ LastInjectAt (rs e1) = FirstSeen e /\ PendingChange (rs e1) = true
    /\ Step (rs e1) = 0) as (Hu1 & Hl1 & Hp1 & Hs1).
  { subst e1. simpl. rewrite Hu. repeat split; auto. lia. }
  unfold decide_repeat in Hd. rewrite Hu1, Hl1, Hp1, Hs1 in Hd.
  unfold After in Hd. rewrite Z.ltb_irrefl in Hd. simpl in Hd.
  rewrite repeatInterval_min in Hd by lia.
  destruct (Z.ltb_spec (Z.min (window * 2 ^ (0 + 1 - 1)) (Z.max Hour window)) (Sub now (FirstSeen e)));
    [subst d; simpl; by rewrite Hs1|change (2 ^ (0 + 1 - 1)) with 1 in *; lia].
Qed.

Lemma class_change_after_one_window_witness :
  let e := newDedupEntry Hour some_obs "c" in
  let e := e <| rs := (rs e) <| PendingChange := true |> |> in
  dr_Change (repeat (5 * Minute) e (Hour + 6 * Minute) (2 * Hour) "c" true).2 = RepeatChangeClass.
Proof.
  eapply class_change_after_one_window; [| | | | | | |apply surjective_pairing];
    try reflexivity; split; reflexivity.
Defined.

(** ** Message shapes *)

Lemma shape_from_digits b d s :
  d <> "" -> forall_bytes is_digit d = true ->
  shape_from b (d +:+ s) = (if b then "" else "#") +:+ shape_from true s.
Proof.
  revert b; induction d as [|c d IH]; intros b Hd Hall; [done|]. simpl in *.
  destruct (is_digit c) eqn:E; [|done]. simpl in Hall.
  destruct (decide (d = "")) as [->|Hne].
  - simpl. by destruct b.
  - destruct b; rewrite (IH true Hne Hall); done.
Qed.

Lemma shape_from_app_digits b a d d' s :
  d <> "" -> d' <> "" -> forall_bytes is_digit d = true -> forall_bytes is_digit d' = true ->
  shape_from b (a +:+ d +:+ s) = shape_from b (a +:+ d' +:+ s).
Proof.
  intros Hd Hd' H H'. revert b; induction a as [|c a IH]; intros b; simpl.
  - by rewrite !shape_from_digits.
  - destruct (is_digit c); rewrite !IH; done.
Qed.

(** Numbers do not make a change. Two messages that differ only in a run of
    digits anywhere in the text (a count, an age, a timestamp, of any length) are
    the same class for the material-change test. *)
Theorem class_ignores_numbers (kind : string) (sev : Severity) (a d d' b : string)
    (Hd : d <> "" /\ forall_bytes is_digit d = true)
    (Hd' : d' <> "" /\ forall_bytes is_digit d' = true) :
  repeatClass kind sev (a +:+ d +:+ b) = repeatClass kind sev (a +:+ d' +:+ b).
Proof.
  destruct Hd, Hd'. unfold repeatClass, messageShape.
  by rewrite (shape_from_app_digits false a d d' b).
Qed.

Lemma class_ignores_numbers_witness :
  repeatClass "k8s-event" "critical" "0/6 nodes" = repeatClass "k8s-event" "critical" "112/6 nodes".
Proof. apply (class_ignores_numbers "k8s-event" "critical" "" "0" "112" "/6 nodes"); done. Defined.
