(* ===== verification/Dedup.v ===== *)
(** The rolling-window dedup cache (src/pkg/engine/dedup.go): which events open an
    incident, which are suppressed, which speak into an open one, and what the
    cache forgets.

    A cache is a value and an operation maps it to the next one; an entry is only
    reached through its key, so writing it back under that key is the mutation of
    the shared [*dedupEntry], also where a sibling's root is the entry itself. The
    clock is the argument [now], the recovery tracker's predicate the argument
    [isOpen] ([None] is nil); the mutex makes every operation atomic. *)
From S2P Require Import Prelude GoTime GoStrings GoHash Signal Repeat.
From Stdlib Require Import Ascii.

Record tombstone := mkTombstone { tb_EventLastTS : Time; tb_LastSeen : Time }.

Record DedupCache := mkDedupCache {
  entries : gmap EventKey dedupEntry;
  tombstones : gmap EventKey tombstone;
  window : Duration;
  max : Z;
  lastSweep : Time
}.

Definition maxDedupEntries : Z := 10000.

Definition zero_entry : dedupEntry :=
  newDedupEntry 0 (mkObservation 0 "" "" "" false false) "".

(** [len(m)] *)
Definition len {K V} `{Countable K} (m : gmap K V) : Z := Z.of_nat (size m).

Section cache.
Context `{RangeOrder}.

(** ** Expiry and eviction *)

Definition replayTTL (c : DedupCache) : Duration := Z.max Hour (wrap64 (4 * window c)).

Definition retireLocked (k : EventKey) (e : dedupEntry) (c : DedupCache) : DedupCache :=
  let c := c <| entries ::= delete k |> in
  let c :=
    if bool_decide (tombstones c !! k = None) && (max c <=? len (tombstones c)) then
      match scan_oldest (fun kt => tb_LastSeen kt.2) (range 1 (tombstones c)) with
      | Some (oldest, _) => c <| tombstones ::= delete oldest |>
      | None => c <| tombstones ::= delete zero_key |>
      end
    else c in
  c <| tombstones ::= <[k := mkTombstone (EventLastTS e) (LastSeen e)]> |>.

Definition isGroupOpenLocked (isOpen : option (EventKey -> bool)) (rootKey : EventKey)
    (root : dedupEntry) (c : DedupCache) : bool :=
  match isOpen with
  | None => false
  | Some open =>
      open rootKey ||
      existsb (fun '(k, e) =>
        bool_decide (k <> rootKey) && bool_decide (Parent e = Some rootKey) &&
        negb (Resolved (rs e)) && (SessionID e ==s SessionID root) && open k)
        (range 2 (entries c))
  end.

(** An entry recovery tracking keeps: session-class, bound, its group open. *)
Definition kept_open (isOpen : option (EventKey -> bool)) (k : EventKey) (e : dedupEntry)
    (c : DedupCache) : bool :=
  SessionClass (rs e) && (SessionID e <>s "") && bool_decide (de_Incident e <> None) &&
  isGroupOpenLocked isOpen k e c.

(** The body of the sweep's loop over the entries; the count is what it removed. *)
Definition sweep_entry (isOpen : option (EventKey -> bool)) (now : Time) (k : EventKey)
    (e : dedupEntry) (st : DedupCache * Z) : DedupCache * Z :=
  let '(c, removed) := st in
  let age := Sub now (LastSeen e) in
  if age <=? window c then (c, removed)
  else if Resolved (rs e) then (retireLocked k e c, removed + 1)
  else if kept_open isOpen k e c then (c, removed)
  else if replayTTL c <? age then (c <| entries ::= delete k |>, removed + 1)
  else (c, removed).

Definition sweep_tombstone (now : Time) (k : EventKey) (t : tombstone) (c : DedupCache) : DedupCache :=
  if replayTTL c <? Sub now (tb_LastSeen t) then c <| tombstones ::= delete k |> else c.

Definition sweepExpiredLocked (isOpen : option (EventKey -> bool)) (now : Time) (c : DedupCache)
  : DedupCache * Z :=
  let c := c <| lastSweep := now |> in
  if window c <=? 0 then (c, 0)
  else
    let '(c, removed) := range_loop (sweep_entry isOpen now) (range 0 (entries c)) (c, 0) in
    (range_loop (sweep_tombstone now) (range 3 (tombstones c)) c, removed).

(** [Sweep] *)
Definition Sweep (isOpen : option (EventKey -> bool)) (now : Time) (c : DedupCache)
  : DedupCache * Z := sweepExpiredLocked isOpen now c.

Definition maybeSweepLocked (isOpen : option (EventKey -> bool)) (now : Time) (c : DedupCache)
  : DedupCache :=
  if window c <=? 0 then c
  else if negb (IsZero (lastSweep c)) && (Sub now (lastSweep c) <? window c) then c
  else (sweepExpiredLocked isOpen now c).1.

Definition evictionTierLocked (isOpen : option (EventKey -> bool)) (now : Time) (c : DedupCache)
    (k : EventKey) (e : dedupEntry) : Z :=
  let expired := (0 <? window c) && (window c <? Sub now (LastSeen e)) in
  if Resolved (rs e) || expired then 0
  else if (SessionID e ==s "") || negb (SessionClass (rs e)) then 1
  else match isOpen with
       | None => 2
       | Some open => if negb (open k) then 2 else 3
       end.

Definition evict_victim (isOpen : option (EventKey -> bool)) (now : Time) (c : DedupCache) : EventKey :=
  let tier (ke : EventKey * dedupEntry) := evictionTierLocked isOpen now c ke.1 ke.2 in
  let ts (ke : EventKey * dedupEntry) := LastSeen ke.2 in
  (scan_min tier ts ((zero_key, zero_entry), 99, zero_time) (range 4 (entries c))).1.1.1.

Definition evictIfFull (isOpen : option (EventKey -> bool)) (now : Time) (c : DedupCache) : DedupCache :=
  if len (entries c) <? max c then c
  else
    let c := (sweepExpiredLocked isOpen now c).1 in
    if len (entries c) <? max c then c
    else
      let victimKey := evict_victim isOpen now c in
      match entries c !! victimKey with
      | Some victim =>
          if Resolved (rs victim) then retireLocked victimKey victim c
          else c <| entries ::= delete victimKey |>
      | None => c <| entries ::= delete victimKey |>
      end.

(** ** Sibling groups *)

(** The loop of [resolveParentLocked]: at most [steps] more parents. *)
Fixpoint walk_parents (steps : nat) (curKey : EventKey) (cur : dedupEntry) (c : DedupCache)
  : EventKey * dedupEntry :=
  match steps, Parent cur with
  | S steps, Some nextKey =>
      match entries c !! nextKey with
      | Some next => walk_parents steps nextKey next c
      | None => (curKey, cur)
      end
  | _, _ => (curKey, cur)
  end.

Definition resolveParentLocked (entry : dedupEntry) (c : DedupCache) : option (EventKey * dedupEntry) :=
  match Parent entry with
  | None => None
  | Some curKey =>
      match entries c !! curKey with
      | None => None
      | Some cur => Some (walk_parents 8 curKey cur c)
      end
  end.

(** ** Observing an event *)

(** [entry.Count++; entry.LastSeen = now; entry.EventLastTS = ts] *)
Definition advance (now ts : Time) (e : dedupEntry) : dedupEntry :=
  e <| Count ::= Z.succ |> <| LastSeen := now |> <| EventLastTS := ts |>.

Definition bump_inject (e : dedupEntry) : dedupEntry :=
  e <| rs := (rs e) <| InjectCount ::= Z.succ |> |>.

Definition note_pending (win : Duration) (now : Time) (class : string) (e : dedupEntry) : dedupEntry :=
  let '(e, changed) := noteClass class e in
  if changed && (win <? Sub now (FirstSeen e))
  then e <| rs := (rs e) <| PendingChange := true |> |> else e.

Definition put (k : EventKey) (e : dedupEntry) (c : DedupCache) : DedupCache :=
  c <| entries ::= <[k := e]> |>.

(** The sibling branch once the group is known to be open: the child has been
    advanced, [root] is read after that. [None] falls through to the entry's own
    cases. *)
Definition observe_root (now : Time) (obs : Observation) (class : string) (rootKey : EventKey)
    (root : dedupEntry) (c : DedupCache) : DedupCache * option DedupResult :=
  let parentLapsed := window c <? Sub now (LastSeen root) in
  if obs_Repeatable obs then
    let lastInject :=
      if IsZero (LastInjectAt (rs root)) then FirstSeen root else LastInjectAt (rs root) in
    let step := Z.max (Step (rs root)) (RepeatCount (rs root)) in
    let due := Undelivered (rs root)
               || (repeatInterval (window c) (step + 1) <? Sub now lastInject) in
    if due then
      let '(root, r) := repeat (window c) root now (obs_LastTS obs) class parentLapsed in
      (put rootKey root c, Some r)
    else
      let root := bump_inject (advance now (obs_LastTS obs) root) in
      let root := note_pending (window c) now class root in
      (put rootKey root c,
       Some (mkDedupResult DedupDuplicate (SessionID root) (Count root) (Storm root) 0 ""
               (After lastInject (FirstSeen root) || parentLapsed) false))
  else if negb (obs_Downgraded obs) && (obs_Kind obs <>s SourceKind root) then
    let root := bump_inject (advance now (obs_LastTS obs) root) in
    (put rootKey root c,
     Some (mkDedupResult DedupDuplicate (SessionID root) (Count root) (Storm root) 0 "" true false))
  else (c, None).

(** The sibling branch: the cache, the entry as the branch leaves it, and the
    verdict unless it falls through. A group's root may be the entry itself: then it
    is read after the entry has been advanced. *)
Definition observe_sibling (isOpen : option (EventKey -> bool)) (now : Time) (key : EventKey)
    (obs : Observation) (class : string) (entry : dedupEntry) (c : DedupCache)
  : DedupCache * dedupEntry * option DedupResult :=
  match resolveParentLocked entry c with
  | None => (c, entry, None)
  | Some (rootKey, root) =>
      if (Storm root ==s "") && negb (Resolved (rs root)) && (SessionID root <>s "")
         && (SessionID root ==s SessionID entry) && isGroupOpenLocked isOpen rootKey root c
      then
        let entry := advance now (obs_LastTS obs) entry in
        let c := put key entry c in
        let root := if bool_decide (rootKey = key) then entry else root in
        let '(c, r) := observe_root now obs class rootKey root c in
        (c, entry, r)
      else (c, entry, None)
  end.

(** The entry's own cases: 2 (still open), 3 (reopen) and 4 (duplicate). *)
Definition observe_own (isOpen : option (EventKey -> bool)) (now : Time) (key : EventKey)
    (obs : Observation) (class : string) (entry : dedupEntry) (c : DedupCache)
  : DedupCache * DedupResult :=
  let lapsed := window c <? Sub now (LastSeen entry) in
  let reopen_or_dup :=
    if lapsed then
      let c := evictIfFull isOpen now c in
      (put key (newDedupEntry now obs class) c, dedup_result DedupNewIncident "" 1 "")
    else
      let entry := note_pending (window c) now class (advance now (obs_LastTS obs) entry) in
      (put key entry c,
       dedup_result DedupDuplicate (SessionID entry) (Count entry) (Storm entry)) in
  if SessionClass (rs entry) && negb (Resolved (rs entry)) && (SessionID entry <>s "")
     && bool_decide (de_Incident entry <> None) && isGroupOpenLocked isOpen key entry c
  then
    if obs_Repeatable obs then
      let '(entry, r) := repeat (window c) entry now (obs_LastTS obs) class lapsed in
      (put key entry c, r)
    else if negb (obs_Downgraded obs) && (obs_Kind obs <>s SourceKind entry) then
      let entry := advance now (obs_LastTS obs) entry in
      (put key entry c,
       mkDedupResult DedupDuplicate (SessionID entry) (Count entry) (Storm entry) 0 "" true false)
    else reopen_or_dup
  else reopen_or_dup.

Definition ObserveSignal (isOpen : option (EventKey -> bool)) (now : Time) (key : EventKey)
    (obs : Observation) (c : DedupCache) : DedupCache * DedupResult :=
  let key := canonical_key key in
  let class := repeatClass (obs_Kind obs) (obs_Severity obs) (obs_Message obs) in
  let c := maybeSweepLocked isOpen now c in
  match entries c !! key with
  | None =>
      match tombstones c !! key with
      | Some tomb =>
          if negb (After (obs_LastTS obs) (tb_EventLastTS tomb)) then
            (c, mkDedupResult DedupDuplicate "" 1 "" 0 "" false true)
          else
            let c := c <| tombstones ::= delete key |> in
            (put key (newDedupEntry now obs class) (evictIfFull isOpen now c),
             dedup_result DedupNewIncident "" 1 "")
      | None =>
          (put key (newDedupEntry now obs class) (evictIfFull isOpen now c),
           dedup_result DedupNewIncident "" 1 "")
      end
  | Some entry =>
      if negb (After (obs_LastTS obs) (EventLastTS entry)) then
        let entry := entry <| Count ::= Z.succ |> in
        (put key entry c,
         dedup_result DedupDuplicate (SessionID entry) (Count entry) (Storm entry))
      else
        let '(c, entry, r) := observe_sibling isOpen now key obs class entry c in
        match r with
        | Some r => (c, r)
        | None => observe_own isOpen now key obs class entry c
        end
  end.

(** [Observe]: an observation that is not repeatable. *)
Definition Observe (isOpen : option (EventKey -> bool)) (now : Time) (key : EventKey)
    (eventLastTS : Time) (c : DedupCache) : DedupCache * DedupResult :=
  ObserveSignal isOpen now key (mkObservation eventLastTS "" "" "" false false) c.

(** ** Binding and marking *)

(** [if entry, ok := c.entries[key]; ok { ... }] *)
Definition with_entry (key : EventKey) (f : dedupEntry -> dedupEntry) (c : DedupCache) : DedupCache :=
  match entries c !! key with
  | Some e => put key (f e) c
  | None => c
  end.

Definition MarkUndelivered (key : EventKey) (change : string) (c : DedupCache) : DedupCache :=
  with_entry (canonical_key key) (fun e => e <| rs ::= markUndelivered change |>) c.

Definition Unbind (now : Time) (key : EventKey) (c : DedupCache) : DedupCache :=
  with_entry (canonical_key key) (fun e =>
    let e := e <| SessionID := "" |> <| Parent := None |> <| FirstSeen := now |> in
    e <| rs ::= resetForUnbind now (Count e) |>) c.

Definition MarkResolved (key : EventKey) (c : DedupCache) : DedupCache :=
  with_entry (canonical_key key) (fun e => e <| rs ::= markResolved |>) c.

Definition BindSession (key : EventKey) (sessionID : string) (c : DedupCache) : DedupCache :=
  with_entry (canonical_key key) (fun e => e <| SessionID := sessionID |>) c.

Definition BindIncident (key : EventKey) (sessionID : string) (ref : IncidentRef) (c : DedupCache)
  : DedupCache :=
  let key := canonical_key key in
  match entries c !! key with
  | None => c
  | Some e =>
      let e := e <| SessionID := sessionID |> <| de_Incident := Some ref |> in
      let c := put key e c in
      match Parent e with
      | None => c
      | Some p =>
          let keep := match entries c !! p with
                      | Some parent => SessionID parent ==s sessionID
                      | None => false
                      end in
          if keep then c else put key (e <| Parent := None |>) c
      end
  end.

Definition AttachToStorm (key : EventKey) (sessionID stormFingerprint : string) (ref : IncidentRef)
    (c : DedupCache) : DedupCache :=
  with_entry (canonical_key key) (fun e =>
    let e := e <| SessionID := sessionID |> <| Storm := stormFingerprint |> <| Parent := None |> in
    match de_Incident e with
    | None => e <| de_Incident := Some ref |>
    | Some _ => e
    end) c.

Definition NoteIncidentKind (key : EventKey) (kind : string) (c : DedupCache) : DedupCache :=
  with_entry (canonical_key key) (fun e => e <| SourceKind := kind |> <| FollowupSources := [] |>) c.

Definition NoteAncestors (key : EventKey) (keys : list string) (c : DedupCache) : DedupCache :=
  match keys with
  | [] => c
  | _ => with_entry (canonical_key key) (fun e => e <| AncestorKeys := keys |>) c
  end.

(** ** Lookups *)

Record BoundIncident := mkBoundIncident {
  bi_Key : EventKey;
  bi_SessionID : string;
  bi_FirstSeen : Time;
  bi_Ref : IncidentRef
}.

Definition LookupBinding (key : EventKey) (c : DedupCache) : option BoundIncident :=
  let key := canonical_key key in
  match entries c !! key with
  | Some e =>
      if SessionID e ==s "" then None
      else match de_Incident e with
           | Some ref => Some (mkBoundIncident key (SessionID e) (FirstSeen e) ref)
           | None => None
           end
  | None => None
  end.

Definition LookupSession (key : EventKey) (c : DedupCache) : option string :=
  match entries c !! canonical_key key with
  | Some e => if SessionID e ==s "" then None else Some (SessionID e)
  | None => None
  end.

(** The inner loop of the two session searches: the most recently active eligible
    entry, then the lowest UID. *)
Definition better (x best : EventKey * dedupEntry) : bool :=
  After (LastSeen x.2) (LastSeen best.2)
  || ((LastSeen x.2 =? LastSeen best.2) && String.ltb (UID x.1) (UID best.1)).

Definition best_step (eligible : EventKey * dedupEntry -> bool) (acc : option (EventKey * dedupEntry))
    (x : EventKey * dedupEntry) : option (EventKey * dedupEntry) :=
  if negb (eligible x) then acc
  else match acc with
       | None => Some x
       | Some best => if better x best then Some x else acc
       end.

Definition find_best (eligible : EventKey * dedupEntry -> bool) (l : list (EventKey * dedupEntry))
  : option (EventKey * dedupEntry) := fold_left (best_step eligible) l None.

Definition ancestor_eligible (self : EventKey) (cand : string) (ke : EventKey * dedupEntry) : bool :=
  let '(k, e) := ke in
  negb (bool_decide (k = self) || (SessionID e ==s "") || (Storm e <>s ""))
  && bool_decide (cand ∈ AncestorKeys e).

Fixpoint ancestor_search (self : EventKey) (candidates : list string) (family : string) (c : DedupCache)
  : DedupCache * option (string * string) :=
  match candidates with
  | [] => (c, None)
  | cand :: rest =>
      match find_best (ancestor_eligible self cand) (range (length rest) (entries c)) with
      | None => ancestor_search self rest family c
      | Some (bestKey, best) =>
          if bool_decide (family ∈ FollowupSources best) then (c, None)
          else (put bestKey (best <| FollowupSources ::= fun l => l ++ [family] |>) c,
                Some (SessionID best, cand))
      end
  end.

Definition SessionForAncestors (self : EventKey) (candidates : list string) (family : string)
    (c : DedupCache) : DedupCache * option (string * string) :=
  ancestor_search (canonical_key self) candidates family c.

Definition sibling_eligible (now : Time) (win : Duration) (self : EventKey) (kind cand : string)
    (ke : EventKey * dedupEntry) : bool :=
  let '(k, e) := ke in
  negb (bool_decide (k = self) || (Reason k <>s Reason self) || (SourceKind e <>s kind)
        || (SessionID e ==s "") || (Storm e <>s "") || (win <? Sub now (LastSeen e)))
  && bool_decide (cand ∈ AncestorKeys e).

(** Folding [self] onto the group of [best]. *)
Definition fold_sibling (self bestKey : EventKey) (best : dedupEntry) (c : DedupCache) : DedupCache :=
  let rootKey := match Parent best with Some p => p | None => bestKey end in
  let c := with_entry self (fun e => e <| Parent := Some rootKey |>) c in
  with_entry rootKey (fun e => bump_inject (e <| Count ::= Z.succ |>)) c.

Fixpoint sibling_search (now : Time) (self : EventKey) (kind : string) (candidates : list string)
    (c : DedupCache) : DedupCache * option (string * string) :=
  match candidates with
  | [] => (c, None)
  | cand :: rest =>
      match find_best (sibling_eligible now (window c) self kind cand)
              (range (length rest) (entries c)) with
      | None => sibling_search now self kind rest c
      | Some (bestKey, best) => (fold_sibling self bestKey best c, Some (SessionID best, cand))
      end
  end.

Definition SessionForSibling (now : Time) (self : EventKey) (kind : string) (candidates : list string)
    (c : DedupCache) : DedupCache * option (string * string) :=
  sibling_search now (canonical_key self) kind candidates c.

Definition SiblingGroup (key : EventKey) (c : DedupCache) : option (EventKey * list EventKey) :=
  let key := canonical_key key in
  match entries c !! key with
  | None => None
  | Some entry =>
      if (SessionID entry ==s "") || (Storm entry <>s "") then None
      else
        let rootKey :=
          match Parent entry with
          | None => Some key
          | Some _ =>
              match resolveParentLocked entry c with
              | None => None
              | Some (rk, r) =>
                  if (SessionID r <>s SessionID entry) || (Storm r <>s "") then None else Some rk
              end
          end in
        match rootKey with
        | None => None
        | Some rootKey =>
            let group := rootKey ::
              (filter (fun '(k, e) => k <> rootKey /\ Parent e = Some rootKey /\
                 SessionID e = SessionID entry /\ Storm e = "") (range 0 (entries c))).*1 in
            if (length group <? 2)%nat then None else Some (rootKey, group)
        end
  end.

Definition CrossSourceJoin (key : EventKey) (kind : string) (c : DedupCache)
  : DedupCache * option string :=
  let key := canonical_key key in
  let family := SourceFamily kind in
  match entries c !! key with
  | None => (c, None)
  | Some entry =>
      if (SourceKind entry ==s "") || (SourceFamily (SourceKind entry) ==s family) then (c, None)
      else if bool_decide (family ∈ FollowupSources entry) then (c, None)
      else (put key (entry <| FollowupSources ::= fun l => l ++ [family] |>) c,
            Some (SourceFamily (SourceKind entry)))
  end.

(** [Bindings], the loop body: the cache and the list built so far. *)
Definition bindings_entry (now : Time) (k : EventKey) (e : dedupEntry)
    (st : DedupCache * list BoundIncident) : DedupCache * list BoundIncident :=
  let '(c, out) := st in
  if Resolved (rs e) then
    if (0 <? window c) && (window c <? Sub now (LastSeen e)) then (retireLocked k e c, out) else (c, out)
  else if SessionID e ==s "" then (c, out)
  else match de_Incident e with
       | None => (c, out)
       | Some ref => (c, out ++ [mkBoundIncident k (SessionID e) (FirstSeen e) ref])
       end.

Definition Bindings (now : Time) (c : DedupCache) : DedupCache * list BoundIncident :=
  range_loop (bindings_entry now) (range 0 (entries c)) (c, []).

Definition ActiveBoundCount (isOpen : option (EventKey -> bool)) (now : Time) (c : DedupCache) : Z :=
  Z.of_nat (length (filter (fun '(k, e) =>
    Resolved (rs e) = false /\
    ((window c <=? 0) || (Sub now (LastSeen e) <=? window c) || kept_open isOpen k e c) = true)
    (range 0 (entries c)))).

Definition Len (c : DedupCache) : Z := len (entries c).

End cache.

#[global] Arguments retireLocked : simpl never.
#[global] Arguments isGroupOpenLocked : simpl never.

(** ** The cache as a state machine: every operation that changes it *)

Section ops.
Context `{RangeOrder}.

Inductive cache_op :=
  | OpObserve (isOpen : option (EventKey -> bool)) (now : Time) (key : EventKey) (obs : Observation)
  | OpMarkUndelivered (key : EventKey) (change : string)
  | OpUnbind (now : Time) (key : EventKey)
  | OpMarkResolved (key : EventKey)
  | OpBindSession (key : EventKey) (sid : string)
  | OpBindIncident (key : EventKey) (sid : string) (ref : IncidentRef)
  | OpAttachToStorm (key : EventKey) (sid fp : string) (ref : IncidentRef)
  | OpNoteIncidentKind (key : EventKey) (kind : string)
  | OpNoteAncestors (key : EventKey) (keys : list string)
  | OpSessionForAncestors (self : EventKey) (candidates : list string) (family : string)
  | OpSessionForSibling (now : Time) (self : EventKey) (kind : string) (candidates : list string)
  | OpCrossSourceJoin (key : EventKey) (kind : string)
  | OpBindings (now : Time)
  | OpSweep (isOpen : option (EventKey -> bool)) (now : Time).

Definition run_op (op : cache_op) (c : DedupCache) : DedupCache :=
  match op with
  | OpObserve isOpen now key obs => (ObserveSignal isOpen now key obs c).1
  | OpMarkUndelivered key change => MarkUndelivered key change c
  | OpUnbind now key => Unbind now key c
  | OpMarkResolved key => MarkResolved key c
  | OpBindSession key sid => BindSession key sid c
  | OpBindIncident key sid ref => BindIncident key sid ref c
  | OpAttachToStorm key sid fp ref => AttachToStorm key sid fp ref c
  | OpNoteIncidentKind key kind => NoteIncidentKind key kind c
  | OpNoteAncestors key keys => NoteAncestors key keys c
  | OpSessionForAncestors self candidates family => (SessionForAncestors self candidates family c).1
  | OpSessionForSibling now self kind candidates => (SessionForSibling now self kind candidates c).1
  | OpCrossSourceJoin key kind => (CrossSourceJoin key kind c).1
  | OpBindings now => (Bindings now c).1
  | OpSweep isOpen now => (Sweep isOpen now c).1
  end.

Inductive reachable (c0 : DedupCache) : DedupCache -> Prop :=
  | reach_init : reachable c0 c0
  | reach_step c op : reachable c0 c -> reachable c0 (run_op op c).

End ops.

(** ** Well-formed caches

    Both maps within the cap, every key canonical, every entry's known classes
    within their cap and its source families spoken for at most once. *)

Definition entry_ok (e : dedupEntry) : Prop :=
  (length (Classes (rs e)) <= maxRepeatClasses)%nat /\ NoDup (FollowupSources e).

Record cache_ok (c : DedupCache) : Prop := {
  ok_window : 0 < window c;
  ok_max : 0 < max c;
  ok_entries : len (entries c) <= max c;
  ok_tombstones : len (tombstones c) <= max c;
  ok_keys : map_Forall (fun k _ => canonical_key k = k) (entries c);
  ok_entry : map_Forall (fun _ e => entry_ok e) (entries c)
}.

(** Forgetting: entries may only leave, tombstones stay within the cap. *)
Record shrinks (c c' : DedupCache) : Prop := {
  sh_entries : entries c' ⊆ entries c;
  sh_window : window c' = window c;
  sh_max : max c' = max c;
  sh_tombstones : 0 < max c -> len (tombstones c) <= max c -> len (tombstones c') <= max c
}.

#[global] Instance shrinks_preorder : PreOrder shrinks.
Proof.
  split.
  - intros c. by split.
  - intros c1 c2 c3 [] []. split; [by etrans|congruence|congruence|].
    intros. rewrite <- sh_max0 in *. auto.
Qed.

Lemma len_insert_le {V} (m : gmap EventKey V) k v : len (<[k:=v]> m) <= len m + 1.
Proof. unfold len. rewrite map_size_insert. destruct (m !! k); simpl; lia. Qed.

Lemma len_insert_Some {V} (m : gmap EventKey V) k v : is_Some (m !! k) -> len (<[k:=v]> m) = len m.
Proof. intros [x E]. unfold len. by rewrite map_size_insert, E. Qed.

Lemma len_delete_Some {V} (m : gmap EventKey V) k : is_Some (m !! k) -> len (delete k m) = len m - 1.
Proof.
  intros [x E]. unfold len. rewrite map_size_delete, E.
  assert (size m <> 0%nat) by (intros H0; apply map_size_empty_inv in H0; by simplify_map_eq). lia.
Qed.

Lemma len_delete_le {V} (m : gmap EventKey V) k : len (delete k m) <= len m.
Proof. unfold len. rewrite map_size_delete. destruct (m !! k); simpl; lia. Qed.

Lemma len_subseteq {V} (m1 m2 : gmap EventKey V) : m1 ⊆ m2 -> len m1 <= len m2.
Proof. intros. unfold len. apply Nat2Z.inj_le. by apply map_subseteq_size. Qed.

Lemma put_put k e e' c : put k e (put k e' c) = put k e c.
Proof.
  destruct c. change (mkDedupCache (<[k:=e]> (<[k:=e']> entries0)) tombstones0 window0 max0 lastSweep0
    = mkDedupCache (<[k:=e]> entries0) tombstones0 window0 max0 lastSweep0).
  by rewrite insert_insert_eq.
Qed.

Section facts.
Context `{RangeOrder}.

Lemma retireLocked_shrinks k e c : shrinks c (retireLocked k e c).
Proof.
  unfold retireLocked. split; simpl.
  - destruct (_ && _); [destruct (scan_oldest _ _) as [[]|]|]; simpl; apply delete_subseteq.
  - destruct (_ && _); [destruct (scan_oldest _ _) as [[]|]|]; done.
  - destruct (_ && _); [destruct (scan_oldest _ _) as [[]|]|]; done.
  - intros Hmax Hlen. destruct (bool_decide _) eqn:Ek; simpl; btrue.
    + destruct (Z.leb_spec (max c) (len (tombstones c))) as [Hf|Hf]; simpl.
      * destruct (scan_oldest_spec (fun kt => tb_LastSeen kt.2) (range 1 (tombstones c)))
          as ([k0 t0] & -> & Hin & _).
        { apply range_nonempty. intros Hemp. rewrite Hemp in Hf. unfold len in Hf.
          rewrite map_size_empty in Hf. lia. }
        apply elem_of_range in Hin. simpl.
        etrans; [apply len_insert_le|]. rewrite len_delete_Some by (by eexists). lia.
      * etrans; [apply len_insert_le|]. lia.
    + apply not_eq_None_Some in Ek. by rewrite len_insert_Some.
Qed.

Lemma delete_shrinks k c : shrinks c (c <| entries ::= delete k |>).
Proof. split; simpl; auto. apply delete_subseteq. Qed.

Lemma sweep_entry_shrinks isOpen now k e c n : shrinks c (sweep_entry isOpen now k e (c, n)).1.
Proof.
  unfold sweep_entry. repeat case_goal; try done; [apply retireLocked_shrinks|apply delete_shrinks].
Qed.

Lemma sweep_loop_shrinks isOpen now l c n :
  shrinks c (range_loop (sweep_entry isOpen now) l (c, n)).1.
Proof.
  apply (range_loop_inv _ (fun st => shrinks c st.1)); [done|].
  intros k e [c' n'] _ Hs. etrans; [exact Hs|]. apply sweep_entry_shrinks.
Qed.

Lemma sweep_tombstones_entries now l c :
  let c' := range_loop (sweep_tombstone now) l c in
  entries c' = entries c /\ window c' = window c /\ max c' = max c /\ lastSweep c' = lastSweep c /\
  tombstones c' ⊆ tombstones c.
Proof.
  apply (range_loop_inv _ (fun c' => entries c' = entries c /\ window c' = window c /\
    max c' = max c /\ lastSweep c' = lastSweep c /\ tombstones c' ⊆ tombstones c)); [done|].
  intros k t c' _ (?&?&?&?&?). unfold sweep_tombstone. destruct (_ <? _); [|done]. simpl.
  repeat split; auto. etrans; [apply delete_subseteq|done].
Qed.

Lemma sweepExpiredLocked_shrinks isOpen now c : shrinks c (sweepExpiredLocked isOpen now c).1.
Proof.
  unfold sweepExpiredLocked. cbv zeta. destruct (_ <=? 0); [by split|].
  destruct (range_loop (sweep_entry isOpen now) _ _) as [c1 n] eqn:E. simpl.
  assert (shrinks (c <| lastSweep := now |>) c1) as Hs.
  { pose proof (sweep_loop_shrinks isOpen now (range 0 (entries (c <| lastSweep := now |>)))
      (c <| lastSweep := now |>) 0) as Hs. by rewrite E in Hs. }
  assert (shrinks c c1) as Hs1 by (by destruct Hs; split).
  destruct (sweep_tombstones_entries now (range 3 (tombstones c1)) c1) as (He & Hw & Hm & _ & Ht).
  etrans; [exact Hs1|]. split; [by rewrite He|done|done|].
  intros _ Hl. apply len_subseteq in Ht. lia.
Qed.

Lemma maybeSweepLocked_shrinks isOpen now c : shrinks c (maybeSweepLocked isOpen now c).
Proof.
  unfold maybeSweepLocked. repeat case_goal; try done. apply sweepExpiredLocked_shrinks.
Qed.

Lemma evictionTier_lt isOpen now c k e : evictionTierLocked isOpen now c k e < 99.
Proof. unfold evictionTierLocked. cbv zeta. repeat case_goal; lia. Qed.

Lemma evict_victim_in isOpen now c :
  entries c <> ∅ -> is_Some (entries c !! evict_victim isOpen now c).
Proof.
  intros Hne. unfold evict_victim.
  pose proof (scan_min_elem (fun ke => evictionTierLocked isOpen now c ke.1 ke.2)
    (fun ke => LastSeen ke.2) (range 4 (entries c)) (zero_key, zero_entry) 99 zero_time
    (range_nonempty _ _ Hne)) as Hin.
  destruct (scan_min _ _ _ _) as [[[k e] ?] ?]. simpl in *.
  exists e. apply (elem_of_range 4), Hin. intros [??] _. apply evictionTier_lt.
Qed.

Lemma len_pos_nonempty {V} (m : gmap EventKey V) n : 0 < n -> n <= len m -> m <> ∅.
Proof. unfold len. intros Hn Hl ->. rewrite map_size_empty in Hl. lia. Qed.

Lemma evictIfFull_shrinks isOpen now c : shrinks c (evictIfFull isOpen now c).
Proof.
  unfold evictIfFull. destruct (_ <? _); [done|]. etrans; [apply sweepExpiredLocked_shrinks|].
  destruct (_ <? _); [done|]. destruct (_ !! _) as [v|]; [|apply delete_shrinks].
  destruct (Resolved _); [apply retireLocked_shrinks|apply delete_shrinks].
Qed.

Lemma retireLocked_entries k e c : entries (retireLocked k e c) = delete k (entries c).
Proof. unfold retireLocked. destruct (_ && _); [destruct (scan_oldest _ _) as [[]|]|]; done. Qed.

Lemma evictIfFull_room isOpen now c :
  0 < max c -> len (entries c) <= max c -> len (entries (evictIfFull isOpen now c)) < max c.
Proof.
  intros Hmax Hle. unfold evictIfFull. destruct (Z.ltb_spec (len (entries c)) (max c)); [done|].
  pose proof (sweepExpiredLocked_shrinks isOpen now c) as [Hsub _ Hm _].
  destruct (sweepExpiredLocked isOpen now c) as [c1 n]. simpl in *.
  destruct (Z.ltb_spec (len (entries c1)) (max c1)); [lia|].
  destruct (evict_victim_in isOpen now c1) as [v Hv]; [apply (len_pos_nonempty _ (max c1)); lia|].
  apply len_subseteq in Hsub. rewrite Hv.
  assert (len (delete (evict_victim isOpen now c1) (entries c1)) = len (entries c1) - 1)
    by (apply len_delete_Some; by eexists).
  destruct (Resolved _); rewrite ?retireLocked_entries; simpl; lia.
Qed.

Lemma shrinks_ok c c' : shrinks c c' -> cache_ok c -> cache_ok c'.
Proof.
  intros [Hsub Hw Hm Ht] []. apply len_subseteq in Hsub as Hl.
  split; rewrite ?Hw, ?Hm; auto; try lia.
  - intros k e He. exact (ok_keys0 k e (lookup_weaken _ _ _ _ He Hsub)).
  - intros k e He. exact (ok_entry0 k e (lookup_weaken _ _ _ _ He Hsub)).
Qed.

(** Writing an entry back, or a new one where there is room. *)
Lemma put_ok k e c :
  cache_ok c -> canonical_key k = k -> entry_ok e ->
  (is_Some (entries c !! k) \/ len (entries c) < max c) -> cache_ok (put k e c).
Proof.
  intros [] Hk He Hroom. split; simpl; auto.
  - destruct Hroom as [Hs|Hlt]; [by rewrite len_insert_Some|].
    pose proof (len_insert_le (entries c) k e). lia.
  - by apply map_Forall_insert_2.
  - by apply map_Forall_insert_2.
Qed.

Lemma with_entry_ok k f c :
  cache_ok c -> (forall e, entry_ok e -> entry_ok (f e)) -> cache_ok (with_entry k f c).
Proof.
  intros Hok Hf. unfold with_entry. destruct (entries c !! k) as [e|] eqn:E; [|done].
  apply put_ok; [done|exact (ok_keys _ Hok k e E)| |left; by eexists].
  apply Hf. exact (ok_entry _ Hok k e E).
Qed.

Lemma walk_parents_in n k e c :
  entries c !! k = Some e ->
  entries c !! (walk_parents n k e c).1 = Some (walk_parents n k e c).2.
Proof.
  revert k e; induction n as [|n IH]; intros k e He; simpl; [done|].
  destruct (Parent e) as [p|]; [|done]. destruct (entries c !! p) as [e'|] eqn:Ep; [|done].
  by apply IH.
Qed.

Lemma resolveParentLocked_in e c rk r :
  resolveParentLocked e c = Some (rk, r) -> entries c !! rk = Some r.
Proof.
  unfold resolveParentLocked. destruct (Parent e) as [p|]; [|done].
  destruct (entries c !! p) as [cur|] eqn:E; [|done]. intros Hs.
  pose proof (walk_parents_in 8 _ _ _ E) as Hw.
  destruct (walk_parents 8 p cur c) as [k' e']; simpl in Hw; by simplify_eq.
Qed.

(** What routes an incident, and what the invariant reads, through the updates of
    an observation. *)
Lemma note_pending_fields win now class e :
  exists p, note_pending win now class e =
    e <| rs := (rs e) <| Classes := Classes (rs (noteClass class e).1) |> <| PendingChange := p |> |>.
Proof.
  unfold note_pending, noteClass. destruct_entry e; simpl.
  destruct (bool_decide _); simpl; [by eexists|]. destruct (_ && _); by eexists.
Qed.

(** The fields an observation never touches. *)
Definition same_binding (e e' : dedupEntry) : Prop :=
  SessionID e' = SessionID e /\ de_Incident e' = de_Incident e /\ Storm e' = Storm e /\
  SourceKind e' = SourceKind e /\ FollowupSources e' = FollowupSources e /\
  AncestorKeys e' = AncestorKeys e /\ Parent e' = Parent e /\ FirstSeen e' = FirstSeen e /\
  SessionClass (rs e') = SessionClass (rs e) /\ Resolved (rs e') = Resolved (rs e).

Lemma repeat_binding win e now ts class lapsed :
  let '(e', r) := repeat win e now ts class lapsed in
  same_binding e e' /\ (entry_ok e -> entry_ok e') /\
  dr_Kind r <> DedupNewIncident /\ dr_SessionID r = SessionID e /\ dr_Storm r = Storm e /\
  dr_Replay r = false /\ LastSeen e' = now /\ EventLastTS e' = ts /\ Count e' = Count e + 1.
Proof.
  destruct (repeat _ _ _ _ _ _) as [e' r] eqn:E.
  apply repeat_inv in E as (i & p & e1 & d & He1 & _ & _ & -> & ->).
  assert (Classes (rs e1) = Classes (rs (noteClass class e).1)) as Hc by (by subst e1).
  assert (same_binding e e1 /\ LastSeen e1 = now /\ EventLastTS e1 = ts /\ Count e1 = Count e + 1)
    as (Hb & Hls & Hts & Hct) by (subst e1; by destruct_entry e).
  clear He1. destruct Hb as (?&?&?&?&?&?&?&?&?&?). unfold same_binding, entry_ok.
  assert (forall d, Classes (rs (e1 <| rs := record_decision now d e1 |>)) = Classes (rs e1)) as Hcl
    by (by intros []).
  rewrite Hcl, Hc. pose proof (noteClass_bound class e).
  destruct d; simpl; (split; [repeat split; congruence|]);
    (split; [intros [? ?]; split; [auto|congruence]|]); repeat split; congruence.
Qed.

Lemma advance_ok now ts e : entry_ok e -> entry_ok (advance now ts e).
Proof. done. Qed.
Lemma bump_inject_ok e : entry_ok e -> entry_ok (bump_inject e).
Proof. done. Qed.
Lemma note_pending_ok win now class e : entry_ok e -> entry_ok (note_pending win now class e).
Proof.
  destruct (note_pending_fields win now class e) as [p ->]. intros [Hc Hf].
  split; simpl; [by apply noteClass_bound|done].
Qed.
Lemma newDedupEntry_ok now obs class : entry_ok (newDedupEntry now obs class).
Proof. split; simpl; [unfold maxRepeatClasses; lia|constructor]. Qed.
Hint Resolve advance_ok bump_inject_ok note_pending_ok newDedupEntry_ok : lookout.

Lemma observe_root_ok now obs class rk root c :
  cache_ok c -> entries c !! rk = Some root -> cache_ok (observe_root now obs class rk root c).1.
Proof.
  intros Hok Hr. pose proof (ok_entry _ Hok rk root Hr) as He. simpl in He.
  pose proof (ok_keys _ Hok rk root Hr) as Hk. simpl in Hk.
  assert (is_Some (entries c !! rk)) by (by eexists).
  unfold observe_root. destruct (obs_Repeatable obs).
  - destruct (_ || _).
    + pose proof (repeat_binding (window c) root now (obs_LastTS obs) class
        (window c <? Sub now (LastSeen root))) as Hb.
      destruct (repeat _ _ _ _ _ _) as [e' r]. apply put_ok; tauto.
    + apply put_ok; auto with lookout.
  - destruct (_ && _); [apply put_ok; auto with lookout|done].
Qed.

Lemma observe_sibling_ok isOpen now key obs class entry c :
  cache_ok c -> entries c !! key = Some entry ->
  cache_ok (observe_sibling isOpen now key obs class entry c).1.1.
Proof.
  intros Hok He. unfold observe_sibling.
  destruct (resolveParentLocked entry c) as [[rk root]|] eqn:Er; [|done].
  destruct (_ && _); [|done].
  apply resolveParentLocked_in in Er.
  set (c1 := put key _ c).
  assert (cache_ok c1) as Hok1.
  { apply put_ok; [done|exact (ok_keys _ Hok _ _ He)|exact (ok_entry _ Hok _ _ He)|left; by eexists]. }
  assert (entries c1 !! rk = Some (if bool_decide (rk = key) then advance now (obs_LastTS obs) entry else root)) as Hr.
  { unfold c1, put; simpl. case_bool_decide; subst; by simplify_map_eq. }
  pose proof (observe_root_ok now obs class rk _ c1 Hok1 Hr).
  by destruct (observe_root _ _ _ _ _ _).
Qed.

Lemma open_entry_ok isOpen now key obs class c :
  cache_ok c -> canonical_key key = key ->
  cache_ok (put key (newDedupEntry now obs class) (evictIfFull isOpen now c)).
Proof.
  intros Hok Hk. pose proof (evictIfFull_shrinks isOpen now c) as Hs.
  pose proof (evictIfFull_room isOpen now c (ok_max _ Hok) (ok_entries _ Hok)).
  apply put_ok; [by apply (shrinks_ok c)|done|apply newDedupEntry_ok|].
  right. by rewrite (sh_max _ _ Hs).
Qed.

Lemma observe_sibling_entry isOpen now key obs class entry c c' entry' :
  entries c !! key = Some entry ->
  observe_sibling isOpen now key obs class entry c = (c', entry', None) ->
  entries c' !! key = Some entry' /\
  ((c', entry') = (c, entry) \/
   entry' = advance now (obs_LastTS obs) entry /\ c' = put key entry' c).
Proof.
  intros He. unfold observe_sibling, observe_root.
  destruct (resolveParentLocked entry c) as [[rk root]|] eqn:Er; [|intros; simplify_eq; auto].
  destruct (_ && _); [|intros; simplify_eq; auto].
  destruct (obs_Repeatable obs); [destruct (_ || _); [destruct (repeat _ _ _ _ _ _)|]; done|].
  destruct (_ && _); [done|]. intros; simplify_eq. split; [|by right].
  unfold put; simpl. by rewrite lookup_insert_eq.
Qed.

Lemma observe_own_ok isOpen now key obs class entry c :
  cache_ok c -> entries c !! key = Some entry ->
  cache_ok (observe_own isOpen now key obs class entry c).1.
Proof.
  intros Hok Hr. pose proof (ok_entry _ Hok key entry Hr) as He. simpl in He.
  pose proof (ok_keys _ Hok key entry Hr) as Hk. simpl in Hk.
  assert (is_Some (entries c !! key)) by (by eexists).
  unfold observe_own.
  assert (cache_ok (put key (advance now (obs_LastTS obs) entry) c)) by (apply put_ok; auto with lookout).
  assert (cache_ok (put key (note_pending (window c) now class (advance now (obs_LastTS obs) entry)) c))
    by (apply put_ok; auto with lookout).
  pose proof (open_entry_ok isOpen now key obs class c Hok Hk).
  pose proof (repeat_binding (window c) entry now (obs_LastTS obs) class
    (window c <? Sub now (LastSeen entry))) as Hb.
  destruct (_ && _); [|destruct (_ <? _); done].
  destruct (obs_Repeatable obs); [|destruct (negb _ && _); [done|destruct (_ <? _); done]].
  destruct (repeat _ _ _ _ _ _) as [e' r]. apply put_ok; tauto.
Qed.

Lemma ObserveSignal_ok isOpen now key obs c :
  cache_ok c -> cache_ok (ObserveSignal isOpen now key obs c).1.
Proof.
  intros Hok0. unfold ObserveSignal. cbv zeta.
  pose proof (shrinks_ok _ _ (maybeSweepLocked_shrinks isOpen now c) Hok0) as Hok. clear Hok0.
  revert Hok. generalize (maybeSweepLocked isOpen now c). clear c. intros c Hok.
  pose proof (canonical_key_idem key) as Hk. revert Hk. generalize (canonical_key key). clear key.
  intros key Hk. set (class := repeatClass _ _ _). clearbody class.
  destruct (entries c !! key) as [entry|] eqn:E.
  - destruct (negb _).
    + apply put_ok; [done|done|exact (ok_entry _ Hok _ _ E)|left; by eexists].
    + pose proof (observe_sibling_ok isOpen now key obs class entry c Hok E) as Hs.
      destruct (observe_sibling _ _ _ _ _ _ _) as [[c' entry'] [r|]] eqn:Es; [done|].
      apply observe_sibling_entry in Es as [He' _]; [|done]. by apply observe_own_ok.
  - destruct (tombstones c !! key) as [t|] eqn:Et; [|by apply open_entry_ok].
    destruct (negb _); [done|]. apply open_entry_ok; [|done]. destruct Hok; split; simpl; auto.
    etrans; [apply len_delete_le|done].
Qed.

Lemma BindIncident_ok key sid ref c : cache_ok c -> cache_ok (BindIncident key sid ref c).
Proof.
  intros Hok. unfold BindIncident. cbv zeta. set (k := canonical_key key).
  destruct (entries c !! k) as [e|] eqn:E; [|done].
  pose proof (ok_entry _ Hok _ _ E) as He. pose proof (ok_keys _ Hok _ _ E) as Hk. simpl in He, Hk.
  assert (forall e', entry_ok e' -> cache_ok (put k e' c)) as Hput
    by (intros; apply put_ok; auto; left; by eexists).
  destruct (Parent _) as [p|]; [|by apply Hput].
  destruct (match _ with Some _ => _ | None => _ end); [by apply Hput|].
  rewrite put_put. by apply Hput.
Qed.

Lemma find_best_in eligible l acc x :
  fold_left (best_step eligible) l acc = Some x -> acc = Some x \/ (x ∈ l /\ eligible x = true).
Proof.
  revert acc; induction l as [|a l IH]; intros acc; simpl; [auto|].
  intros Hf. destruct (IH _ Hf) as [Ha|[? ?]]; [|right; split; [set_solver|done]].
  unfold best_step in Ha. destruct (eligible a) eqn:Ea; simpl in Ha; [|auto].
  destruct acc as [b|]; [destruct (better a b)|]; simplify_eq; auto; right; split; auto; set_solver.
Qed.

Lemma ancestor_search_ok self cands family c :
  cache_ok c -> cache_ok (ancestor_search self cands family c).1.
Proof.
  intros Hok. induction cands as [|cand rest IH]; simpl; [done|].
  destruct (find_best _ _) as [[bk b]|] eqn:Eb; [|done].
  apply find_best_in in Eb as [|[Hin _]]; [done|]. apply elem_of_range in Hin.
  destruct (bool_decide _) eqn:Ef; btrue; [done|].
  destruct (ok_entry _ Hok _ _ Hin) as [Hc Hn].
  apply put_ok; [done|exact (ok_keys _ Hok _ _ Hin)| |left; by eexists].
  split; simpl; [done|by apply NoDup_snoc].
Qed.

Lemma fold_sibling_ok self bk b c : cache_ok c -> cache_ok (fold_sibling self bk b c).
Proof. intros Hok. unfold fold_sibling. by apply with_entry_ok; [apply with_entry_ok|]. Qed.

Lemma sibling_search_ok now self kind cands c :
  cache_ok c -> cache_ok (sibling_search now self kind cands c).1.
Proof.
  intros Hok. induction cands as [|cand rest IH]; simpl; [done|].
  destruct (find_best _ _) as [[bk b]|]; [by apply fold_sibling_ok|done].
Qed.

Lemma CrossSourceJoin_ok key kind c : cache_ok c -> cache_ok (CrossSourceJoin key kind c).1.
Proof.
  intros Hok. unfold CrossSourceJoin. destruct (entries c !! _) as [e|] eqn:E; [|done].
  destruct (_ || _); [done|]. destruct (bool_decide _) eqn:Ef; btrue; [done|].
  destruct (ok_entry _ Hok _ _ E) as [Hc Hn].
  apply put_ok; [done|apply canonical_key_idem| |left; by eexists].
  split; simpl; [done|by apply NoDup_snoc].
Qed.

Lemma Bindings_shrinks now c : shrinks c (Bindings now c).1.
Proof.
  unfold Bindings. apply (range_loop_inv _ (fun st => shrinks c st.1)); [done|].
  intros k e [c' out] _ Hs. simpl in *. unfold bindings_entry.
  destruct (Resolved _); [|destruct (_ ==s _); [done|by destruct (de_Incident e)]].
  destruct (_ && _); [|done]. etrans; [exact Hs|apply retireLocked_shrinks].
Qed.

Lemma run_op_ok op c : cache_ok c -> cache_ok (run_op op c).
Proof.
  intros Hok. destruct op; simpl;
    try (apply with_entry_ok; [done|]; intros e0 []; done).
  - by apply ObserveSignal_ok.
  - by apply BindIncident_ok.
  - apply with_entry_ok; [done|]. intros e0 []. simpl. by destruct (de_Incident e0).
  - apply with_entry_ok; [done|]. intros e0 []. split; simpl; [done|constructor].
  - destruct keys; [done|]. by apply with_entry_ok.
  - by apply ancestor_search_ok.
  - by apply sibling_search_ok.
  - by apply CrossSourceJoin_ok.
  - by apply (shrinks_ok c), Hok; apply Bindings_shrinks.
  - by apply (shrinks_ok c), Hok; apply sweepExpiredLocked_shrinks.
Qed.

Lemma reachable_ok c0 c : cache_ok c0 -> reachable c0 c -> cache_ok c.
Proof. induction 2; [done|by apply run_op_ok]. Qed.

(** *** The configuration never changes *)

Definition same_cfg (c c' : DedupCache) : Prop := window c' = window c /\ max c' = max c.

#[local] Instance same_cfg_preorder : PreOrder same_cfg.
Proof. split; [done|]. intros ??? [] []. split; congruence. Qed.

Lemma shrinks_cfg c c' : shrinks c c' -> same_cfg c c'.
Proof. by intros []. Qed.
Lemma put_cfg k e c : same_cfg c (put k e c).
Proof. done. Qed.
Lemma with_entry_cfg k f c : same_cfg c (with_entry k f c).
Proof. unfold with_entry. by destruct (_ !! _). Qed.

Lemma observe_sibling_cfg isOpen now key obs class e c :
  same_cfg c (observe_sibling isOpen now key obs class e c).1.1.
Proof.
  unfold observe_sibling, observe_root. destruct (resolveParentLocked _ _) as [[rk r]|]; [|done].
  destruct (_ && _); [|done]. destruct (obs_Repeatable obs); [|by destruct (negb _ && _)].
  destruct (_ || _); [|done]. by destruct (repeat _ _ _ _ _ _).
Qed.

Lemma observe_own_cfg isOpen now key obs class e c :
  same_cfg c (observe_own isOpen now key obs class e c).1.
Proof.
  unfold observe_own.
  assert (same_cfg c (evictIfFull isOpen now c)) by apply shrinks_cfg, evictIfFull_shrinks.
  destruct (_ && _); [|by destruct (_ <? _)].
  destruct (obs_Repeatable obs); [by destruct (repeat _ _ _ _ _ _)|].
  destruct (negb _ && _); [done|by destruct (_ <? _)].
Qed.

Lemma ObserveSignal_cfg isOpen now key obs c : same_cfg c (ObserveSignal isOpen now key obs c).1.
Proof.
  unfold ObserveSignal. cbv zeta.
  etrans; [apply (shrinks_cfg _ _ (maybeSweepLocked_shrinks isOpen now c))|].
  generalize (maybeSweepLocked isOpen now c). clear c. intros c.
  assert (forall c', same_cfg c' (evictIfFull isOpen now c')) as Hev
    by (intros; apply shrinks_cfg, evictIfFull_shrinks).
  destruct (entries c !! _) as [e|].
  - destruct (negb _); [done|].
    pose proof (observe_sibling_cfg isOpen now (canonical_key key) obs
      (repeatClass (obs_Kind obs) (obs_Severity obs) (obs_Message obs)) e c) as Hs.
    destruct (observe_sibling _ _ _ _ _ _ _) as [[c' e'] [r|]]; [done|].
    etrans; [exact Hs|apply observe_own_cfg].
  - destruct (tombstones c !! _) as [t|]; [|etrans; [apply Hev|apply put_cfg]].
    destruct (negb _); [done|].
    etrans; [|apply put_cfg]. by etrans; [|apply Hev].
Qed.

Lemma run_op_cfg op c : same_cfg c (run_op op c).
Proof.
  destruct op; simpl; try apply with_entry_cfg.
  - apply ObserveSignal_cfg.
  - unfold BindIncident. destruct (_ !! _) as [e|]; [|done].
    destruct (Parent _); [|done]. by destruct (match _ with Some _ => _ | None => _ end).
  - destruct keys; [done|apply with_entry_cfg].
  - unfold SessionForAncestors. induction candidates as [|x l IH]; simpl; [done|].
    destruct (find_best _ _) as [[]|]; [|done]. by destruct (bool_decide _).
  - unfold SessionForSibling. induction candidates as [|x l IH]; simpl; [done|].
    destruct (find_best _ _) as [[]|]; [|done]. simpl. unfold fold_sibling.
    etrans; apply with_entry_cfg.
  - unfold CrossSourceJoin. destruct (_ !! _); [|done]. destruct (_ || _); [done|].
    by destruct (bool_decide _).
  - apply shrinks_cfg, Bindings_shrinks.
  - apply shrinks_cfg, sweepExpiredLocked_shrinks.
Qed.

Lemma reachable_cfg c0 c : reachable c0 c -> same_cfg c0 c.
Proof. induction 1; [done|]. etrans; [done|apply run_op_cfg]. Qed.

End facts.

Definition cold_cache : DedupCache := mkDedupCache ∅ ∅ (5 * Minute) maxDedupEntries zero_time.
