(* ===== verification/DedupSpec.v ===== *)
(** What the dedup cache promises its callers (src/pkg/engine/dedup.go): replays
    never open an incident, an open incident keeps its one session, a lapsed closed
    one reopens, the sweep forgets only what is over, joins are announced once, and
    a restart loses nothing. *)
From S2P Require Import Prelude GoTime GoStrings GoHash Signal Repeat Dedup.
From Stdlib Require Import Ascii.

Section spec.
Context `{RangeOrder}.
Implicit Types (c : DedupCache) (k : EventKey) (e : dedupEntry).

(** ** The sweep, key by key *)

Lemma len_pos {V} (m : gmap EventKey V) k : is_Some (m !! k) -> 0 < len m.
Proof.
  intros [v Hv]. unfold len. destruct (size m) eqn:E; [|lia].
  apply map_size_empty_inv in E. subst. by apply lookup_empty_Some in Hv.
Qed.

Lemma retireLocked_tombstones k e c :
  tombstones (retireLocked k e c) !! k = Some (mkTombstone (EventLastTS e) (LastSeen e)).
Proof. unfold retireLocked. cbv zeta. simpl. by rewrite lookup_insert_eq. Qed.

(** With room for it, a new tombstone displaces no other. *)
Lemma retireLocked_tombstones_ne k k' e c :
  len (tombstones c) < max c -> k' <> k ->
  tombstones (retireLocked k e c) !! k' = tombstones c !! k'.
Proof.
  intros Hroom Hne. unfold retireLocked. cbv zeta. simpl.
  destruct (Z.leb_spec (max c) (len (tombstones c))); [lia|]. rewrite andb_false_r.
  simpl. by rewrite lookup_insert_ne.
Qed.

Lemma retireLocked_total k e c :
  is_Some (entries c !! k) -> len (entries c) + len (tombstones c) <= max c -> 0 < max c ->
  len (entries (retireLocked k e c)) + len (tombstones (retireLocked k e c)) <= max c.
Proof.
  intros Hs Hle Hm. rewrite retireLocked_entries, len_delete_Some by done.
  pose proof (len_pos _ _ Hs).
  unfold retireLocked. cbv zeta. simpl.
  destruct (Z.leb_spec (max c) (len (tombstones c))); [lia|]. rewrite andb_false_r. simpl.
  pose proof (len_insert_le (tombstones c) k (mkTombstone (EventLastTS e) (LastSeen e))). lia.
Qed.

Lemma sweep_entry_other isOpen now k e c n k' :
  k' <> k -> entries (sweep_entry isOpen now k e (c, n)).1 !! k' = entries c !! k'.
Proof.
  intros Hne. unfold sweep_entry. cbv zeta.
  destruct (_ <=? _); [done|]. destruct (Resolved _).
  { cbn [fst]. by rewrite retireLocked_entries, lookup_delete_ne. }
  destruct (kept_open _ _ _ _); [done|]. destruct (_ <? _); [|done]. simpl.
  by rewrite lookup_delete_ne.
Qed.

(** Facts about one key through the sweep's loop over the entries. *)
Lemma sweep_loop_key isOpen now c (P : DedupCache -> Prop) n :
  P c ->
  (forall k e c' n', entries c' !! k = Some e -> P c' -> same_cfg c c' ->
     P (sweep_entry isOpen now k e (c', n')).1) ->
  P (range_loop (sweep_entry isOpen now) (range 0 (entries c)) (c, n)).1.
Proof.
  intros Hp Hb.
  apply (range_loop_own _ (fun st => entries st.1) (fun st => P st.1 /\ same_cfg c st.1)).
  - apply NoDup_fst_range.
  - intros k v. apply elem_of_range.
  - done.
  - intros k v [c' n'] Hk [Hp' Hc]. split.
    + split; [by apply Hb|]. pose proof (sweep_entry_shrinks isOpen now k v c' n') as [_ ? ? _].
      destruct Hc; split; simpl in *; congruence.
    + intros k' Hne. by apply sweep_entry_other.
Qed.

Lemma sweep_tombstone_loop now c k t :
  tombstones c !! k = Some t -> Sub now (tb_LastSeen t) <= replayTTL c ->
  tombstones (range_loop (sweep_tombstone now) (range 3 (tombstones c)) c) !! k = Some t.
Proof.
  intros Ht Hfresh.
  apply (range_loop_inv _ (fun c' => same_cfg c c' /\ tombstones c' !! k = Some t)); [done|].
  intros k' t' c' Hin [[Hw Hm] Hc']. apply elem_of_range in Hin. unfold sweep_tombstone.
  assert (replayTTL c' = replayTTL c) as -> by (unfold replayTTL; by rewrite Hw).
  destruct (Z.ltb_spec (replayTTL c) (Sub now (tb_LastSeen t'))) as [Hlt|]; [|done].
  split; [done|]. simpl. rewrite lookup_delete_ne; [done|]. intros ->. simplify_eq. lia.
Qed.

Lemma replayTTL_cfg c c' : same_cfg c c' -> replayTTL c' = replayTTL c.
Proof. intros [Hw _]. unfold replayTTL. by rewrite Hw. Qed.

(** An incident the cache has handled up to an event time, at a wall clock: its
    entry says so, or the tombstone it left. *)
Definition handled c k (ts seen : Time) : Prop :=
  (exists e, entries c !! k = Some e /\ EventLastTS e = ts /\ LastSeen e = seen) \/
  (entries c !! k = None /\ exists t, tombstones c !! k = Some t /\
     tb_EventLastTS t = ts /\ tb_LastSeen t = seen).

Definition roomy c : Prop := len (entries c) + len (tombstones c) <= max c.

Lemma sweep_entry_handled isOpen now k e c n k0 ts seen :
  entries c !! k = Some e -> 0 < max c -> Sub now seen <= replayTTL c ->
  roomy c -> handled c k0 ts seen ->
  roomy (sweep_entry isOpen now k e (c, n)).1 /\ handled (sweep_entry isOpen now k e (c, n)).1 k0 ts seen.
Proof.
  intros He Hmax Hfresh Hroom Hh. unfold sweep_entry. cbv zeta.
  pose proof (len_pos (entries c) k ltac:(by eexists)) as Hpos.
  destruct (_ <=? _); [done|]. destruct (Resolved _).
  - split; [unfold roomy; cbn [fst]; rewrite (sh_max _ _ (retireLocked_shrinks k e c));
            apply retireLocked_total; [by eexists|done|done]|].
    unfold handled. cbn [fst]. rewrite retireLocked_entries.
    destruct (decide (k0 = k)) as [->|Hne].
    + right. rewrite lookup_delete_eq, retireLocked_tombstones. split; [done|].
      eexists; split; [done|]. destruct Hh as [(e' & He' & <- & <-)|[Hn _]]; simplify_eq; done.
    + rewrite lookup_delete_ne by done. rewrite retireLocked_tombstones_ne by (unfold roomy in *; lia || done).
      exact Hh.
  - destruct (kept_open _ _ _ _); [done|].
    destruct (Z.ltb_spec (replayTTL c) (Sub now (LastSeen e))) as [Hold|]; [|done]. simpl.
    split; [unfold roomy in *; simpl; pose proof (len_delete_le (entries c) k); lia|].
    unfold handled. simpl. destruct (decide (k0 = k)) as [->|Hne].
    + destruct Hh as [(e' & He' & <- & <-)|[Hn _]]; simplify_eq; lia.
    + by rewrite lookup_delete_ne.
Qed.

Lemma sweep_handled isOpen now c k ts seen :
  0 < max c -> Sub now seen <= replayTTL c -> roomy c -> handled c k ts seen ->
  roomy (sweepExpiredLocked isOpen now c).1 /\ handled (sweepExpiredLocked isOpen now c).1 k ts seen.
Proof.
  intros Hmax Hfresh Hroom Hh. unfold sweepExpiredLocked. cbv zeta.
  destruct (_ <=? 0); [done|]. set (c0 := c <| lastSweep := now |>).
  pose proof (sweep_loop_key isOpen now c0 (fun c' => roomy c' /\ handled c' k ts seen) 0) as Hk.
  pose proof (sweep_loop_shrinks isOpen now (range 0 (entries c0)) c0 0) as Hsh.
  destruct (range_loop (sweep_entry isOpen now) _ _) as [c1 n]. simpl in *.
  destruct Hk as [Hroom1 Hh1]; [done| |].
  { intros k' e' c' n' He' [Hr' Hh'] Hcfg. apply sweep_entry_handled; [done| | |done|done].
    - destruct Hcfg as [_ ->]. done.
    - by rewrite (replayTTL_cfg _ _ Hcfg). }
  destruct (sweep_tombstones_entries now (range 3 (tombstones c1)) c1) as (He & _ & Hm & _ & Ht).
  split; [unfold roomy in *; rewrite He, Hm; apply len_subseteq in Ht; lia|].
  unfold handled. rewrite He. destruct Hh1 as [?|[Hn (t & Htk & Hts & Hseen)]]; [by left|right].
  split; [done|]. exists t. split; [|done]. apply sweep_tombstone_loop; [done|].
  assert (replayTTL c1 = replayTTL c) as ->; [|by subst].
  unfold replayTTL. by rewrite (sh_window _ _ Hsh).
Qed.

Lemma maybeSweep_handled isOpen now c k ts seen :
  0 < max c -> Sub now seen <= replayTTL c -> roomy c -> handled c k ts seen ->
  roomy (maybeSweepLocked isOpen now c) /\ handled (maybeSweepLocked isOpen now c) k ts seen.
Proof.
  intros. unfold maybeSweepLocked. destruct (_ <=? 0); [done|]. destruct (_ && _); [done|].
  by apply sweep_handled.
Qed.

Lemma observe_replay isOpen now key obs c ts seen :
  0 < max c -> roomy c -> handled c (canonical_key key) ts seen ->
  obs_LastTS obs <= ts -> Sub now seen <= replayTTL c ->
  let '(c', r) := ObserveSignal isOpen now key obs c in
  dr_Kind r = DedupDuplicate /\ roomy c' /\ handled c' (canonical_key key) ts seen /\ same_cfg c c'.
Proof.
  intros Hmax Hroom Hh Hts Hfresh.
  pose proof (ObserveSignal_cfg isOpen now key obs c) as Hcfg. unfold ObserveSignal in *. cbv zeta in *.
  destruct (maybeSweep_handled isOpen now c _ _ _ Hmax Hfresh Hroom Hh) as [Hr1 Hh1].
  generalize dependent (maybeSweepLocked isOpen now c). intros c1 Hcfg Hr1 Hh1.
  assert (forall u, u = ts -> negb (After (obs_LastTS obs) u) = true) as Hnot.
  { intros u ->. unfold After. by destruct (Z.ltb_spec ts (obs_LastTS obs)); [lia|]. }
  destruct Hh1 as [(e & He & Hets & Hseen)|[Hn (t & Htk & Hts' & Hseen)]].
  - rewrite He in *. rewrite (Hnot _ Hets) in *. repeat split; [| |apply Hcfg..].
    + unfold roomy, put in *. simpl. rewrite len_insert_Some by (by eexists). done.
    + left. unfold put; simpl. rewrite lookup_insert_eq. eexists; split; [done|by simpl].
  - rewrite Hn, Htk in *. rewrite (Hnot _ Hts') in *. repeat split; [done| |apply Hcfg..].
    right. split; [done|]. by exists t.
Qed.
End spec.

(** A sequence of observations of one key, each with its clock and the tracker's
    answers at that moment. *)
Fixpoint observe_all `{RangeOrder} (key : EventKey)
    (l : list (option (EventKey -> bool) * Time * Observation)) (c : DedupCache)
  : DedupCache * list DedupResult :=
  match l with
  | [] => (c, [])
  | (isOpen, now, obs) :: l =>
      let '(c, r) := ObserveSignal isOpen now key obs c in
      let '(c, out) := observe_all key l c in (c, r :: out)
  end.

(** A replay never opens an incident. Once the cache has handled a key's
    activity up to an event time, whether its entry is still there or was resolved
    and retired, any number of re-deliveries carrying no later timestamp, within
    the replay horizon of the last real activity, are all suppressed, and none of
    them moves the incident's last-seen or event time. *)
Theorem replay_never_opens `{RangeOrder} (c : DedupCache) (key : EventKey) (ts seen : Time)
    (l : list (option (EventKey -> bool) * Time * Observation))
    (Hmax : 0 < max c) (Hroom : roomy c)
    (Hh : handled c (canonical_key key) ts seen)
    (Hl : Forall (fun '(_, now, obs) => obs_LastTS obs <= ts /\ Sub now seen <= replayTTL c) l) :
  let '(c', out) := observe_all key l c in
  Forall (fun r => dr_Kind r = DedupDuplicate) out /\ handled c' (canonical_key key) ts seen.
Proof.
  revert c Hmax Hroom Hh Hl; induction l as [|[[isOpen now] obs] l IH]; intros c Hmax Hroom Hh Hl; simpl.
  { split; [constructor|done]. }
  apply Forall_cons_iff in Hl as [[Hts Hfresh] Hl].
  pose proof (observe_replay isOpen now key obs c ts seen Hmax Hroom Hh Hts Hfresh) as Hobs.
  destruct (ObserveSignal isOpen now key obs c) as [c1 r]. destruct Hobs as (Hk & Hr1 & Hh1 & Hcfg).
  specialize (IH c1). destruct (observe_all key l c1) as [c2 out].
  destruct IH as [Hout Hh2]; [|done|done| |by split; [constructor|]].
  - destruct Hcfg as [_ ->]. done.
  - eapply Forall_impl; [|exact Hl]. intros [[??]?] ?. by rewrite (replayTTL_cfg _ _ Hcfg).
Qed.

(** A resolved incident, retired by the sweep of the first re-delivery. *)
Definition resolved_entry : dedupEntry :=
  (newDedupEntry Hour some_obs "c") <| SessionID := "s" |>
    <| rs := (newRepeatState Hour true "c") <| Resolved := true |> |>.
Definition resolved_key : EventKey := mkEventKey "u" "CrashLoopBackOff".
Definition resolved_cache : DedupCache := cold_cache <| entries := {[resolved_key := resolved_entry]} |>.

Lemma replay_never_opens_witness :
  Forall (fun r => dr_Kind r = DedupDuplicate)
    (observe_all (H := plain_range) (mkEventKey "u" "BackOff")
      [(None, Hour + 30 * Minute, some_obs); (None, Hour + 50 * Minute, some_obs)] resolved_cache).2.
Proof.
  pose proof (replay_never_opens (H := plain_range) resolved_cache (mkEventKey "u" "BackOff") Hour Hour
    [(None, Hour + 30 * Minute, some_obs); (None, Hour + 50 * Minute, some_obs)]) as Hw.
  destruct (observe_all _ _ _) as [c' out]. apply Hw; clear.
  - reflexivity.
  - vm_compute. congruence.
  - left. exists resolved_entry. repeat split.
  - repeat constructor; vm_compute; congruence.
Defined.

(** ** An open incident *)

Section open.
Context `{RangeOrder}.

(** A session-class incident bound to a session and not resolved. *)
Definition bound (e : dedupEntry) : Prop :=
  SessionClass (rs e) = true /\ Resolved (rs e) = false /\ SessionID e <> "" /\ de_Incident e <> None.

(** The observations case 2 keeps away from the lapse: session-class ones, and
    another source's lower-class angle. *)
Definition keeps_open (e : dedupEntry) (obs : Observation) : Prop :=
  obs_Repeatable obs = true \/ (obs_Downgraded obs = false /\ obs_Kind obs <> SourceKind e).

#[local] Instance same_binding_preorder : PreOrder same_binding.
Proof.
  split; [by repeat split|]. unfold same_binding. intros x y z ? ?. destruct_and!. repeat split; congruence.
Qed.

Lemma same_binding_bound e e' : same_binding e e' -> bound e -> bound e'.
Proof. unfold same_binding, bound. intros ? ?. destruct_and!. repeat split; congruence. Qed.

Lemma isGroupOpen_self open k e c : open k = true -> isGroupOpenLocked (Some open) k e c = true.
Proof. intros Ho. unfold isGroupOpenLocked. by rewrite Ho. Qed.

Lemma bound_kept open k e c : open k = true -> bound e -> kept_open (Some open) k e c = true.
Proof.
  intros Ho (Hs & Hr & Hsid & Hi). unfold kept_open. rewrite Hs, isGroupOpen_self by done.
  by rewrite (bool_decide_eq_false_2 (SessionID e = "")), (bool_decide_eq_true_2 (de_Incident e <> None)).
Qed.

Lemma maybeSweep_bound open now c k e :
  open k = true -> bound e -> entries c !! k = Some e ->
  entries (maybeSweepLocked (Some open) now c) !! k = Some e.
Proof.
  intros Ho Hb He. unfold maybeSweepLocked. destruct (_ <=? 0) eqn:Ew; [done|].
  destruct (_ && _); [done|]. unfold sweepExpiredLocked. cbv zeta. simpl. rewrite Ew.
  set (c0 := c <| lastSweep := now |>).
  pose proof (sweep_loop_key (Some open) now c0 (fun c' => entries c' !! k = Some e) 0 He) as Hk.
  destruct (range_loop (sweep_entry (Some open) now) _ _) as [c1 n]. cbn [fst] in *.
  destruct (sweep_tombstones_entries now (range 3 (tombstones c1)) c1) as (-> & _).
  apply Hk. clear Hk. intros k' e' c' n' He' Hke _.
  destruct (decide (k' = k)) as [->|Hne]; [|by rewrite sweep_entry_other].
  simplify_eq. unfold sweep_entry. cbv zeta.
  destruct (Sub _ _ <=? _); [done|]. destruct Hb as (? & Hr & ? & ?). rewrite Hr.
  rewrite bound_kept by (done || by repeat split). done.
Qed.

Lemma note_pending_binding win now class e : same_binding e (note_pending win now class e).
Proof. destruct (note_pending_fields win now class e) as [p ->]. by repeat split. Qed.

(** The verdicts that stay with the incident. *)
Definition stays (key : EventKey) (e : dedupEntry) (out : DedupCache * DedupResult) : Prop :=
  dr_Kind out.2 <> DedupNewIncident /\ dr_SessionID out.2 = SessionID e /\
  exists e', entries out.1 !! key = Some e' /\ same_binding e e'.

Lemma put_stays key e e' c r :
  same_binding e e' -> dr_Kind r <> DedupNewIncident -> dr_SessionID r = SessionID e ->
  stays key e (put key e' c, r).
Proof.
  intros Hb Hk Hs. split; [done|]; split; [done|]. exists e'. split; [|done].
  unfold put; simpl. by rewrite lookup_insert_eq.
Qed.

Lemma observe_root_stays now obs class rk root key e c c' r :
  entries c !! key = Some e -> (rk = key -> root = e) -> SessionID root = SessionID e ->
  observe_root now obs class rk root c = (c', Some r) -> stays key e (c', r).
Proof.
  intros He Hrk Hsid.
  assert (forall root' r, same_binding root root' -> dr_Kind r <> DedupNewIncident ->
    dr_SessionID r = SessionID root -> stays key e (put rk root' c, r)) as Hput.
  { intros root' r' Hb Hk Hs. destruct (decide (rk = key)) as [->|Hne].
    - specialize (Hrk eq_refl). subst root. by apply put_stays.
    - split; [done|]; split; [simpl; congruence|]. exists e. split; [|done].
      unfold put; simpl. by rewrite lookup_insert_ne. }
  unfold observe_root. destruct (obs_Repeatable obs).
  - destruct (_ || _).
    + pose proof (repeat_binding (window c) root now (obs_LastTS obs) class
        (window c <? Sub now (LastSeen root))) as Hb.
      destruct (repeat _ _ _ _ _ _) as [root' r']. intros; simplify_eq. apply Hput; tauto.
    + intros; simplify_eq. apply Hput; simpl; [|done|].
      * etrans; [|apply note_pending_binding]. by repeat split.
      * by destruct (note_pending_binding (window c) now class
          (bump_inject (advance now (obs_LastTS obs) root))) as [-> _].
  - destruct (_ && _); [|done]. intros; simplify_eq. apply Hput; by repeat split.
Qed.

Lemma observe_own_stays open now key obs class e c :
  open key = true -> bound e -> keeps_open e obs ->
  stays key e (observe_own (Some open) now key obs class e c).
Proof.
  intros Ho Hb Hkeep. pose proof (bound_kept open key e c Ho Hb) as Hk.
  unfold kept_open in Hk. btrue. destruct Hb as (Hsc & Hr & Hsid & Hi). unfold observe_own.
  rewrite Hsc, Hr, isGroupOpen_self by done.
  rewrite (bool_decide_eq_false_2 (SessionID e = "")), (bool_decide_eq_true_2 (de_Incident e <> None)) by done.
  simpl. destruct (obs_Repeatable obs) eqn:Er.
  - pose proof (repeat_binding (window c) e now (obs_LastTS obs) class
      (window c <? Sub now (LastSeen e))) as Hb.
    destruct (repeat _ _ _ _ _ _) as [e' r']. apply put_stays; tauto.
  - destruct Hkeep as [|[Hd Hkd]]; [congruence|]. rewrite Hd, bool_decide_eq_false_2 by done. simpl.
    apply put_stays; by repeat split.
Qed.

Lemma observe_stays open now key obs c e :
  let k := canonical_key key in
  entries c !! k = Some e -> bound e -> open k = true -> keeps_open e obs ->
  stays k e (ObserveSignal (Some open) now key obs c).
Proof.
  cbv zeta. intros He Hb Ho Hkeep. unfold ObserveSignal. cbv zeta.
  pose proof (maybeSweep_bound open now c _ e Ho Hb He) as He1.
  generalize dependent (maybeSweepLocked (Some open) now c). clear c He. intros c He.
  revert He Ho. generalize (canonical_key key). clear key. intros key He Ho. rewrite He.
  set (class := repeatClass _ _ _). clearbody class.
  destruct (negb _); [apply put_stays; by repeat split|].
  destruct (observe_sibling _ _ _ _ _ _ _) as [[c' e'] [r|]] eqn:Es.
  - unfold observe_sibling in Es. destruct (resolveParentLocked e c) as [[rk root]|] eqn:Er; [|done].
    destruct (_ && _) eqn:Ec; [|done]. btrue.
    destruct (observe_root _ _ _ _ _ _) as [c1 r1] eqn:Eo. simplify_eq.
    pose proof (resolveParentLocked_in _ _ _ _ Er) as Hrk.
    assert (stays key (advance now (obs_LastTS obs) e) (c', r)) as (Hk & Hs & e1 & He1 & Hb1).
    { eapply observe_root_stays; [| | |exact Eo].
      - unfold put; simpl. by rewrite lookup_insert_eq.
      - intros ->. by rewrite bool_decide_eq_true_2.
      - destruct (bool_decide (rk = key)); [done|]. simpl. congruence. }
    split; [done|]; split; [done|]. exists e1. split; [done|]. etrans; [|exact Hb1]. by repeat split.
  - apply observe_sibling_entry in Es as [He' [Heq|[-> ->]]]; [| |done].
    + simplify_eq. by apply observe_own_stays.
    + pose proof (observe_own_stays open now key obs class (advance now (obs_LastTS obs) e)
        (put key (advance now (obs_LastTS obs) e) c) Ho) as Hst.
      destruct Hst as (Hk & Hs & e1 & He1 & Hb1); [done|done|].
      split; [done|]; split; [done|]. exists e1. split; [done|]. etrans; [|exact Hb1]. by repeat split.
Qed.
End open.

(** C1: one open incident, one session. While an incident's entry is bound and the
    recovery tracker says it is open, no sequence of observations of it (replays,
    lapses of any length, lower-class angles of other sources, occurrences folded
    onto a sibling's schedule) ever opens a second incident: every verdict names the
    bound session, and the binding is intact afterwards. *)
Theorem open_incident_keeps_session `{RangeOrder} (c : DedupCache) (key : EventKey) (e : dedupEntry)
    (l : list ((EventKey -> bool) * Time * Observation))
    (He : entries c !! canonical_key key = Some e) (Hb : bound e)
    (Hl : Forall (fun '(open, _, obs) => open (canonical_key key) = true /\ keeps_open e obs) l) :
  let '(c', out) := observe_all key ((fun '(open, now, obs) => (Some open, now, obs)) <$> l) c in
  Forall (fun r => dr_Kind r <> DedupNewIncident /\ dr_SessionID r = SessionID e) out /\
  exists e', entries c' !! canonical_key key = Some e' /\ same_binding e e'.
Proof.
  revert c e He Hb Hl; induction l as [|[[open now] obs] l IH]; intros c e He Hb Hl; simpl.
  { split; [constructor|]. exists e. split; [done|]. by repeat split. }
  apply Forall_cons_iff in Hl as [[Ho Hkeep] Hl].
  destruct (observe_stays open now key obs c e He Hb Ho Hkeep) as (Hk & Hs & e1 & He1 & Hb1).
  destruct (ObserveSignal (Some open) now key obs c) as [c1 r]. simpl in *.
  specialize (IH c1 e1 He1 (same_binding_bound _ _ Hb1 Hb)).
  destruct (observe_all key _ c1) as [c2 out].
  destruct Hb1 as (Hsid & ? & ? & Hsk & Hrest). destruct IH as [Hout (e2 & He2 & Hb2)].
  - eapply Forall_impl; [|exact Hl]. intros [[??]?] [? Hko]. split; [done|].
    unfold keeps_open in *. by rewrite Hsk.
  - split; [|exists e2; split; [done|]; unfold same_binding in *; destruct_and!; repeat split; congruence].
    constructor; [done|]. eapply Forall_impl; [|exact Hout]. intros r' [? ?]. split; [done|congruence].
Qed.

Definition open_entry : dedupEntry :=
  (newDedupEntry Hour some_obs "c") <| SessionID := "s" |> <| de_Incident := Some zero_ref |>.
Definition open_cache : DedupCache := cold_cache <| entries := {[resolved_key := open_entry]} |>.
Definition later_obs : Observation := some_obs <| obs_LastTS := 4 * Hour |>.

Lemma open_incident_keeps_session_witness :
  Forall (fun r => dr_Kind r <> DedupNewIncident /\ dr_SessionID r = "s")
    (observe_all (H := plain_range) (mkEventKey "u" "BackOff")
      [(Some (fun _ => true), 4 * Hour, later_obs)] open_cache).2.
Proof.
  pose proof (open_incident_keeps_session (H := plain_range) open_cache (mkEventKey "u" "BackOff") open_entry
    [(fun _ => true, 4 * Hour, later_obs)]) as Hw. cbn [fmap list_fmap] in Hw.
  destruct (observe_all _ _ _) as [c' out]. apply Hw; clear.
  - reflexivity.
  - repeat split; discriminate.
  - repeat constructor.
Defined.

(** ** What the sweep forgets *)

Section sweep.
Context `{RangeOrder}.

Lemma existsb_subset {A} (f : A -> bool) (l l' : list A) :
  (forall x, x ∈ l -> x ∈ l') -> existsb f l = true -> existsb f l' = true.
Proof.
  intros Hsub. rewrite !existsb_exists. intros (x & Hx & Hf). exists x. split; [|done].
  by apply list_elem_of_In, Hsub, list_elem_of_In.
Qed.

Lemma kept_open_mono isOpen k e c c' :
  entries c' ⊆ entries c -> kept_open isOpen k e c' = true -> kept_open isOpen k e c = true.
Proof.
  intros Hsub. unfold kept_open. rewrite !andb_true_iff. intros [? Hg]. split; [done|].
  unfold isGroupOpenLocked in *. destruct isOpen as [open|]; [|done].
  apply orb_true_iff in Hg as [->|Hg]; [done|]. apply orb_true_iff. right.
  eapply existsb_subset; [|exact Hg]. intros [k' e'] Hin%elem_of_range.
  apply elem_of_range. by eapply lookup_weaken.
Qed.

Lemma sweep_entries_loop isOpen now c :
  0 < window c ->
  entries (Sweep isOpen now c).1 =
  entries (range_loop (sweep_entry isOpen now) (range 0 (entries c)) (c <| lastSweep := now |>, 0)).1.
Proof.
  intros Hw. unfold Sweep, sweepExpiredLocked. cbv zeta. simpl.
  destruct (Z.leb_spec (window c) 0); [lia|].
  destruct (range_loop (sweep_entry isOpen now) _ _) as [c1 n]. cbn [fst].
  by destruct (sweep_tombstones_entries now (range 3 (tombstones c1)) c1) as (-> & _).
Qed.

(** What a visit of the loop leaves of the entry it visits. *)
Lemma sweep_entry_at isOpen now k e c n :
  entries c !! k = Some e ->
  entries (sweep_entry isOpen now k e (c, n)).1 !! k =
  if (Sub now (LastSeen e) <=? window c) ||
     negb (Resolved (rs e)) && (kept_open isOpen k e c || (Sub now (LastSeen e) <=? replayTTL c))
  then Some e else None.
Proof.
  intros He. unfold sweep_entry. cbv zeta. destruct (_ <=? window c); [done|]. cbn [orb].
  destruct (Resolved _); cbn [negb andb fst].
  { by rewrite retireLocked_entries, lookup_delete_eq. }
  destruct (kept_open _ _ _ _); [done|]. simpl. rewrite Z.leb_antisym.
  destruct (_ <? _); simpl; [by rewrite lookup_delete_eq|done].
Qed.

Lemma sweep_loop_not_in isOpen now l c n k :
  k ∉ l.*1 -> entries (range_loop (sweep_entry isOpen now) l (c, n)).1 !! k = entries c !! k.
Proof.
  revert c n; induction l as [|[k2 e2] l IH]; intros c n Hk; [done|]. cbn [range_loop].
  rewrite fmap_cons in Hk. apply not_elem_of_cons in Hk as [Hne Hk].
  pose proof (sweep_entry_other isOpen now k2 e2 c n k Hne) as Ho.
  destruct (sweep_entry isOpen now k2 e2 (c, n)) as [c2 n2]. cbn [fst] in Ho. rewrite <- Ho.
  by apply IH.
Qed.

(** The loop's result for one key: decided when it is visited. *)
Lemma sweep_loop_at isOpen now c k e l n :
  NoDup l.*1 -> (forall k' e', (k', e') ∈ l -> entries c !! k' = Some e') -> (k, e) ∈ l ->
  exists c', entries c' ⊆ entries c /\ same_cfg c c' /\
    entries (range_loop (sweep_entry isOpen now) l (c, n)).1 !! k =
    if (Sub now (LastSeen e) <=? window c) ||
       negb (Resolved (rs e)) && (kept_open isOpen k e c' || (Sub now (LastSeen e) <=? replayTTL c))
    then Some e else None.
Proof.
  revert c n; induction l as [|[k1 e1] l IH]; intros c n Hnd Hl Hin; [set_solver|].
  apply list.NoDup_cons in Hnd as [Hk1 Hnd]. cbn [range_loop].
  pose proof (sweep_entry_shrinks isOpen now k1 e1 c n) as Hsh.
  assert (forall k' e', (k', e') ∈ l -> k' <> k1) as Hne.
  { intros k' e' Hi ->. apply Hk1, list_elem_of_fmap. by exists (k1, e'). }
  assert (forall k' e', (k', e') ∈ l ->
    entries (sweep_entry isOpen now k1 e1 (c, n)).1 !! k' = Some e') as Hl'.
  { intros k' e' Hi. rewrite sweep_entry_other by (by eapply Hne). apply Hl. set_solver. }
  destruct (sweep_entry isOpen now k1 e1 (c, n)) as [c1 n1] eqn:Es. cbn [fst] in *.
  apply elem_of_cons in Hin as [Heq|Hin].
  - simplify_eq. exists c. split; [done|]. split; [done|].
    pose proof (sweep_entry_at isOpen now k1 e1 c n (Hl k1 e1 ltac:(set_solver))) as Hat.
    rewrite Es in Hat. cbn [fst] in Hat. rewrite <- Hat. by apply sweep_loop_not_in.
  - destruct (IH c1 n1 Hnd Hl' Hin) as (c' & Hsub & Hcfg & Heq). exists c'.
    destruct Hsh as [Hs1 Hw1 Hm1 _].
    split; [by etrans|]. split; [destruct Hcfg; split; congruence|].
    rewrite Heq, Hw1, (replayTTL_cfg c c1) by done. done.
Qed.
End sweep.

(** The sweep forgets exactly what is over. Whatever order the runtime visits
    the map in, an entry inside its window stays, and so does an unresolved one that
    is tracked as open or still within the replay horizon; an entry past its window
    goes if it is resolved, or if neither recovery tracking (of it or a sibling)
    nor the replay horizon keeps it. *)
Theorem sweep_forgets_what_is_over `{RangeOrder} (isOpen : option (EventKey -> bool)) (now : Time)
    (c : DedupCache) (k : EventKey) (e : dedupEntry)
    (Hw : 0 < window c) (He : entries c !! k = Some e) :
  let age := Sub now (LastSeen e) in
  let c' := (Sweep isOpen now c).1 in
  (age <= window c \/
   (Resolved (rs e) = false /\
     ((exists open, isOpen = Some open /\ open k = true /\ bound e) \/ age <= replayTTL c)) ->
   entries c' !! k = Some e) /\
  (window c < age ->
   (Resolved (rs e) = true \/ (kept_open isOpen k e c = false /\ replayTTL c < age)) ->
   entries c' !! k = None).
Proof.
  cbv zeta. rewrite sweep_entries_loop by done.
  destruct (sweep_loop_at isOpen now (c <| lastSweep := now |>) k e (range 0 (entries c)) 0)
    as (c1 & Hsub & Hcfg & ->).
  { apply NoDup_fst_range. } { intros k' e'. apply elem_of_range. } { by apply elem_of_range. }
  change (window (c <| lastSweep := now |>)) with (window c).
  change (replayTTL (c <| lastSweep := now |>)) with (replayTTL c). split.
  - intros [Ha|[Hr [(open & -> & Ho & Hb)|Ha]]].
    + by rewrite (proj2 (Z.leb_le _ _) Ha).
    + rewrite Hr, bound_kept by done. simpl. by rewrite orb_true_r.
    + rewrite Hr, (proj2 (Z.leb_le _ _) Ha), orb_true_r. simpl. by rewrite orb_true_r.
  - intros Ha Hover. rewrite (proj2 (Z.leb_gt _ _) Ha). simpl.
    destruct Hover as [->|[Hk Ht]]; [done|]. rewrite (proj2 (Z.leb_gt _ _) Ht), orb_false_r.
    destruct (kept_open isOpen k e c1) eqn:E1; [|by rewrite andb_false_r].
    apply (kept_open_mono isOpen k e (c <| lastSweep := now |>) c1 Hsub) in E1.
    exfalso. revert Hk E1. unfold kept_open, isGroupOpenLocked. simpl. congruence.
Qed.

Lemma sweep_forgets_what_is_over_witness :
  entries (Sweep (H := plain_range) None (Hour + 6 * Minute) resolved_cache).1 !! resolved_key = None.
Proof.
  apply (sweep_forgets_what_is_over (H := plain_range) None (Hour + 6 * Minute) resolved_cache
    resolved_key resolved_entry); [reflexivity|reflexivity|reflexivity|left; reflexivity].
Defined.

(** ** Reopening, and eviction *)

Section reopen.
Context `{RangeOrder}.

Lemma retireLocked_tombstones_sub k k' e c :
  k' <> k ->
  tombstones (retireLocked k e c) !! k' = tombstones c !! k' \/ tombstones (retireLocked k e c) !! k' = None.
Proof.
  intros Hne. unfold retireLocked. cbv zeta. simpl.
  destruct (_ && _); [|left; simpl; by rewrite lookup_insert_ne].
  assert (forall k0 (m : gmap EventKey tombstone), delete k0 m !! k' = m !! k' \/ delete k0 m !! k' = None).
  { intros k0 m. destruct (decide (k0 = k')) as [->|]; [right; by rewrite lookup_delete_eq|].
    left. by rewrite lookup_delete_ne. }
  destruct (scan_oldest _ _) as [[]|]; simpl; rewrite lookup_insert_ne by done; auto.
Qed.

(** An entry with no tombstone, or what the sweep may have left of it. *)
Definition entry_or_tomb (c : DedupCache) (k : EventKey) (e : dedupEntry) : Prop :=
  (entries c !! k = Some e /\ tombstones c !! k = None) \/
  (entries c !! k = None /\
   (tombstones c !! k = None \/
    tombstones c !! k = Some (mkTombstone (EventLastTS e) (LastSeen e)))).

Lemma sweep_entry_or_tomb isOpen now k' e' c n k e :
  entries c !! k' = Some e' -> entry_or_tomb c k e ->
  entry_or_tomb (sweep_entry isOpen now k' e' (c, n)).1 k e.
Proof.
  intros He' Het. unfold sweep_entry. cbv zeta. destruct (_ <=? _); [done|].
  destruct (Resolved _); cbn [fst].
  - unfold entry_or_tomb. rewrite retireLocked_entries. destruct (decide (k' = k)) as [->|Hne].
    + right. rewrite lookup_delete_eq, retireLocked_tombstones. split; [done|].
      destruct Het as [[? ?]|[? ?]]; simplify_eq. by right.
    + rewrite lookup_delete_ne by done.
      destruct (retireLocked_tombstones_sub k' k e' c) as [->| ->]; [done|exact Het|].
      destruct Het as [[? ?]|[? ?]]; auto.
  - destruct (kept_open _ _ _ _); [done|]. destruct (_ <? _); [|done]. cbn [fst].
    unfold entry_or_tomb. simpl. destruct (decide (k' = k)) as [->|Hne].
    + rewrite lookup_delete_eq. destruct Het as [[? ?]|[? ?]]; auto.
    + by rewrite lookup_delete_ne.
Qed.

Lemma sweepExpired_or_tomb isOpen now c k e :
  entry_or_tomb c k e -> entry_or_tomb (sweepExpiredLocked isOpen now c).1 k e.
Proof.
  intros Het. unfold sweepExpiredLocked. cbv zeta. destruct (_ <=? 0); [done|].
  set (c0 := c <| lastSweep := now |>).
  pose proof (sweep_loop_key isOpen now c0 (fun c' => entry_or_tomb c' k e) 0 Het) as Hk.
  destruct (range_loop (sweep_entry isOpen now) _ _) as [c1 n]. cbn [fst] in *.
  assert (entry_or_tomb c1 k e) as Het1.
  { apply Hk. intros k' e' c' n' He' Hc' _. by apply sweep_entry_or_tomb. }
  destruct (sweep_tombstones_entries now (range 3 (tombstones c1)) c1) as (He & _ & _ & _ & Ht).
  unfold entry_or_tomb in *. rewrite He.
  destruct (tombstones (range_loop _ _ c1) !! k) as [t|] eqn:Et.
  - apply (lookup_weaken _ _ _ _ Et) in Ht. rewrite Ht in Het1. naive_solver.
  - naive_solver.
Qed.
End reopen.

(** The retry safety net. When a standalone incident's window has lapsed, its
    event carries new activity, and nothing says the incident is open (recovery off,
    resolved, or never of session class), the event opens a fresh incident: the
    verdict is a new incident and the key's entry starts over, unbound. *)
Theorem closed_lapse_reopens `{RangeOrder} (isOpen : option (EventKey -> bool)) (now : Time)
    (key : EventKey) (obs : Observation) (c : DedupCache) (e : dedupEntry)
    (He : entries c !! canonical_key key = Some e) (Ht : tombstones c !! canonical_key key = None)
    (Hp : Parent e = None) (Hnew : EventLastTS e < obs_LastTS obs)
    (Hlapsed : window c < Sub now (LastSeen e))
    (Hclosed : isOpen = None \/ Resolved (rs e) = true \/ SessionClass (rs e) = false) :
  let '(c', r) := ObserveSignal isOpen now key obs c in
  dr_Kind r = DedupNewIncident /\ dr_SessionID r = "" /\
  entries c' !! canonical_key key =
    Some (newDedupEntry now obs (repeatClass (obs_Kind obs) (obs_Severity obs) (obs_Message obs))).
Proof.
  unfold ObserveSignal. cbv zeta. set (class := repeatClass _ _ _). set (k := canonical_key key) in *.
  assert (entry_or_tomb (maybeSweepLocked isOpen now c) k e) as Het.
  { assert (entry_or_tomb c k e) by (by left). unfold maybeSweepLocked.
    destruct (_ <=? 0); [done|]. destruct (_ && _); [done|]. by apply sweepExpired_or_tomb. }
  pose proof (sh_window _ _ (maybeSweepLocked_shrinks isOpen now c)) as Hw.
  destruct (maybeSweepLocked isOpen now c) as [en tb w m ls] eqn:Ec. rewrite <- Ec in *.
  assert (After (obs_LastTS obs) (EventLastTS e) = true) as Hafter by (by apply Z.ltb_lt).
  destruct Het as [[-> _]|[-> [->| ->]]].
  - rewrite Hafter. cbn [negb]. unfold observe_sibling, resolveParentLocked. rewrite Hp.
    unfold observe_own. rewrite Hw, (proj2 (Z.ltb_lt _ _) Hlapsed).
    replace (SessionClass (rs e) && negb (Resolved (rs e)) && (SessionID e <>s "")
      && bool_decide (de_Incident e <> None) && isGroupOpenLocked isOpen k e (maybeSweepLocked isOpen now c))
      with false.
    2:{ symmetry. destruct Hclosed as [->|[->| ->]]; [|by rewrite andb_false_r|done].
        by rewrite andb_false_r. }
    repeat split. unfold put; simpl. by rewrite lookup_insert_eq.
  - repeat split. unfold put; simpl. by rewrite lookup_insert_eq.
  - cbn [tb_EventLastTS]. rewrite Hafter. cbn [negb]. repeat split.
    unfold put; simpl. by rewrite lookup_insert_eq.
Qed.

Lemma closed_lapse_reopens_witness :
  dr_Kind (ObserveSignal (H := plain_range) (Some (fun _ => false)) (4 * Hour) (mkEventKey "u" "BackOff")
    later_obs resolved_cache).2 = DedupNewIncident.
Proof.
  pose proof (closed_lapse_reopens (H := plain_range) (Some (fun _ => false)) (4 * Hour)
    (mkEventKey "u" "BackOff") later_obs resolved_cache resolved_entry) as Hw.
  destruct (ObserveSignal _ _ _ _ _) as [c' r]. apply Hw; clear; try reflexivity.
  right. left. reflexivity.
Defined.

(** Eviction takes the least valuable entry. When the cache is still full after
    a sweep, exactly one entry leaves, and no remaining entry was cheaper to lose:
    resolved or expired ones go before unbound ones, those before closed ones, those
    before open bound incidents, the longest quiet first within a tier. *)
Theorem eviction_takes_least_valuable `{RangeOrder} (isOpen : option (EventKey -> bool)) (now : Time)
    (c : DedupCache)
    (Hmax : 0 < max c) (Hfull : max c <= len (entries c))
    (Hstill : max c <= len (entries (Sweep isOpen now c).1)) :
  let c1 := (Sweep isOpen now c).1 in
  exists kv v, entries c1 !! kv = Some v /\
    entries (evictIfFull isOpen now c) = delete kv (entries c1) /\
    forall k e, entries c1 !! k = Some e ->
      let tv := evictionTierLocked isOpen now c1 kv v in
      let t := evictionTierLocked isOpen now c1 k e in
      tv < t \/ (tv = t /\ LastSeen v <= LastSeen e).
Proof.
  cbv zeta. unfold Sweep in *. unfold evictIfFull. rewrite (proj2 (Z.ltb_ge _ _) Hfull).
  pose proof (sh_max _ _ (sweepExpiredLocked_shrinks isOpen now c)) as Hm.
  destruct (sweepExpiredLocked isOpen now c) as [c1 n]. cbn [fst] in *.
  rewrite Hm, (proj2 (Z.ltb_ge _ _) Hstill).
  assert (entries c1 <> ∅) as Hne by (apply (len_pos_nonempty _ (max c)); lia).
  pose proof (evict_victim_in isOpen now c1 Hne) as [v Hv].
  pose proof (scan_min_spec (fun ke => evictionTierLocked isOpen now c1 ke.1 ke.2)
    (fun ke => LastSeen ke.2) (range 4 (entries c1)) (zero_key, zero_entry) 99 zero_time) as Hscan.
  unfold evict_victim in *. destruct (scan_min _ _ _ _) as [[[kv v'] tv] sv] eqn:Es. cbn [fst] in *.
  destruct Hscan as (Horig & _ & Hmin). exists kv, v. split; [done|].
  rewrite Hv. split; [by destruct (Resolved _); rewrite ?retireLocked_entries|].
  intros k e He. specialize (Hmin (k, e) (proj2 (elem_of_range 4 _ _ _) He)). simpl in Hmin.
  destruct Horig as [Horig|(Hin & -> & ->)].
  - simplify_eq. pose proof (evictionTier_lt isOpen now c1 k e). lia.
  - apply elem_of_range in Hin. simpl in *. by simplify_eq.
Qed.

(** A full cache of two open incidents and an unbound one. *)
Definition full_cache : DedupCache := {|
  entries := {[ mkEventKey "a" "OOMKilled" := open_entry;
                mkEventKey "b" "OOMKilled" := newDedupEntry Hour some_obs "c" ]};
  tombstones := ∅; window := 5 * Minute; max := 2; lastSweep := Hour |}.

Lemma eviction_takes_least_valuable_witness :
  exists kv v, entries (Sweep (H := plain_range) None Hour full_cache).1 !! kv = Some v.
Proof.
  destruct (eviction_takes_least_valuable (H := plain_range) None Hour full_cache) as (kv & v & Hv & _);
    [reflexivity|vm_compute; congruence..|by exists kv, v].
Defined.
