(* ===== verification/DedupJoin.v ===== *)
(** How the dedup cache joins incidents (src/pkg/engine/dedup.go): the cross-source
    budget and the sibling fold. *)
From Stdlib Require OrderedTypeEx.
From S2P Require Import Prelude GoTime GoStrings GoHash Signal Repeat Dedup DedupSpec.
From Stdlib Require Import Ascii.

(** ** One announcement per source family *)

(** The two operations that draw on the budget. *)
Inductive join_call :=
  | Join (key : EventKey) (kind : string)
  | Reattach (self : EventKey) (candidates : list string) (family : string).

Section joins.
Context `{RangeOrder}.
Implicit Types (c : DedupCache) (k : EventKey).

(** How many of the calls announced family [f] to incident [k]. *)
Fixpoint announced k (f : string) (calls : list join_call) c : nat :=
  match calls with
  | [] => 0
  | Join key kind :: calls =>
      let '(c', r) := CrossSourceJoin key kind c in
      (if bool_decide (canonical_key key = k /\ SourceFamily kind = f /\ r <> None) then 1 else 0)
      + announced k f calls c'
  | Reattach self cands family :: calls =>
      announced k f calls (SessionForAncestors self cands family c).1
  end%nat.

Definition spoken k (f : string) c : Prop :=
  exists e, entries c !! k = Some e /\ f ∈ FollowupSources e.

(** Marking a family only ever adds to what has been spoken. *)
Lemma mark_spoken k f c k' e' family :
  entries c !! k' = Some e' -> spoken k f c ->
  spoken k f (put k' (e' <| FollowupSources ::= fun l => l ++ [family] |>) c).
Proof.
  intros He' (e & He & Hf). unfold spoken, put; simpl. destruct (decide (k' = k)) as [->|Hne].
  - rewrite lookup_insert_eq. eexists; split; [done|]. simplify_eq. simpl. set_solver.
  - rewrite lookup_insert_ne by done. by exists e.
Qed.

Lemma CrossSourceJoin_spoken key kind k f c :
  spoken k f c ->
  spoken k f (CrossSourceJoin key kind c).1 /\
  (canonical_key key = k -> SourceFamily kind = f -> (CrossSourceJoin key kind c).2 = None).
Proof.
  intros Hs. unfold CrossSourceJoin. destruct (entries c !! _) as [e|] eqn:E; [|done].
  destruct (_ || _); [done|]. destruct (bool_decide _) eqn:Ef; [done|]. btrue.
  split; [by apply mark_spoken|]. intros <- <-. destruct Hs as (e' & He' & Hf). by simplify_eq.
Qed.

Lemma CrossSourceJoin_marks key kind c c' opener :
  CrossSourceJoin key kind c = (c', Some opener) -> spoken (canonical_key key) (SourceFamily kind) c'.
Proof.
  unfold CrossSourceJoin. destruct (entries c !! _) as [e|] eqn:E; [|done].
  destruct (_ || _); [done|]. destruct (bool_decide _); [done|]. intros; simplify_eq.
  unfold spoken, put; simpl. rewrite lookup_insert_eq. eexists; split; [done|]. simpl. set_solver.
Qed.

Lemma Reattach_spoken self cands family k f c :
  spoken k f c -> spoken k f (SessionForAncestors self cands family c).1.
Proof.
  intros Hs. unfold SessionForAncestors. induction cands as [|cand rest IH]; simpl; [done|].
  destruct (find_best _ _) as [[bk b]|] eqn:Eb; [|done].
  apply find_best_in in Eb as [|[Hin _]]; [done|]. apply elem_of_range in Hin.
  destruct (bool_decide _); [done|]. by apply mark_spoken.
Qed.

Lemma announced_spoken k f calls c : spoken k f c -> announced k f calls c = 0%nat.
Proof.
  revert c; induction calls as [|[key kind|self cands family] calls IH]; intros c Hs; simpl; [done| |].
  - destruct (CrossSourceJoin_spoken key kind k f c Hs) as [Hs' Hn].
    destruct (CrossSourceJoin key kind c) as [c' r]. simpl in *. rewrite IH by done.
    by rewrite bool_decide_eq_false_2 by naive_solver.
  - by apply IH, Reattach_spoken.
Qed.
End joins.

(** A cross-source join is announced at most once per source family. Over any
    interleaving of joins and reattachments, from any cache, in any map order, at
    most one join of a given source family into a given incident is answered
    positively until its window rolls. *)
Theorem join_announced_once `{RangeOrder} (k : EventKey) (f : string) (calls : list join_call)
    (c : DedupCache) :
  (announced k f calls c <= 1)%nat.
Proof.
  revert c; induction calls as [|[key kind|self cands family] calls IH]; intros c; simpl; [lia| |done].
  destruct (CrossSourceJoin key kind c) as [c' r] eqn:Ej.
  case_bool_decide as Hd; [|apply IH]. destruct Hd as (<- & <- & Hr). destruct r as [opener|]; [|done].
  apply CrossSourceJoin_marks in Ej. rewrite announced_spoken by done. lia.
Qed.

(** ** The sibling fold does not depend on map order *)

Lemma better_trans x y z : better x y = true -> better y z = true -> better x z = true.
Proof.
  unfold better, After. rewrite !orb_true_iff, !andb_true_iff, !Z.ltb_lt, !Z.eqb_eq.
  intros [?|[? Hxy]] [?|[? Hyz]]; [left; lia..|]. right. split; [lia|]. by eapply ltb_trans.
Qed.

Lemma better_total x y :
  better x y = false -> better y x = false -> LastSeen x.2 = LastSeen y.2 /\ UID x.1 = UID y.1.
Proof.
  unfold better, After. rewrite !orb_false_iff, !andb_false_iff, !Z.ltb_ge, !Z.eqb_neq.
  intros [? Hx] [? Hy]. assert (LastSeen x.2 = LastSeen y.2) by lia.
  split; [done|]. destruct Hx as [|Hx]; [lia|]. destruct Hy as [|Hy]; [lia|]. by apply ltb_total.
Qed.

Lemma better_asym x y : better x y = true -> better y x = false.
Proof.
  intros Hxy. destruct (better y x) eqn:Hyx; [|done].
  pose proof (better_trans _ _ _ Hxy Hyx) as Hxx. revert Hxx.
  unfold better, After, String.ltb. rewrite Z.ltb_irrefl, Z.eqb_refl. simpl.
  by rewrite (proj2 (OrderedTypeEx.String_as_OT.cmp_eq _ _) eq_refl).
Qed.

(** The scan keeps an entry no eligible one is better than. *)
Lemma find_best_fold eligible l acc :
  match fold_left (best_step eligible) l acc with
  | None => acc = None /\ forall y, y ∈ l -> eligible y = false
  | Some x => forall y, (y ∈ l /\ eligible y = true) \/ acc = Some y -> y = x \/ better y x = false
  end.
Proof.
  revert acc; induction l as [|a l IH]; intros acc; simpl.
  { destruct acc; [intros y [[Hy _]|?]; [by apply elem_of_nil in Hy|left; congruence]|].
    split; [done|set_solver]. }
  specialize (IH (best_step eligible acc a)).
  destruct (fold_left _ l _) as [x|]; unfold best_step in IH; destruct (eligible a) eqn:Ea; simpl in IH.
  - intros y Hy. destruct acc as [b|]; [|set_solver].
    destruct (better a b) eqn:Eab.
    + destruct Hy as [[Hin He]|?]; [set_solver|]. simplify_eq.
      destruct (IH a (or_intror eq_refl)) as [->|Hax]; [right; by apply better_asym|].
      right. destruct (better y x) eqn:Eyx; [|done]. by rewrite (better_trans a y x) in Hax.
    + destruct Hy as [[[->|Hin]%elem_of_cons He]|?]; [|set_solver..].
      destruct (IH b (or_intror eq_refl)) as [->|Hbx]; [by right|].
      right. destruct (better a x) eqn:Eax; [|done].
      destruct (better b a) eqn:Eba; [by rewrite (better_trans b a x) in Hbx|].
      destruct (better_total _ _ Eab Eba) as [Hls Hu]. revert Eax Hbx. unfold better.
      rewrite Hls, Hu. congruence.
  - intros y [[[->|Hin]%elem_of_cons He]|?]; [congruence|set_solver..].
  - destruct acc as [b|]; [destruct (better a b)|]; by destruct IH.
  - destruct IH as [-> Hl]. split; [done|]. intros y [->|Hin]%elem_of_cons; [done|by apply Hl].
Qed.

(** The best entry is the same for every order of the same map, when the eligible
    ones differ by UID. *)
Lemma find_best_perm eligible l l' :
  l ≡ₚ l' ->
  (forall x y, x ∈ l -> y ∈ l -> eligible x = true -> eligible y = true -> UID x.1 = UID y.1 -> x = y) ->
  find_best eligible l = find_best eligible l'.
Proof.
  intros Hp Huniq. unfold find_best.
  pose proof (find_best_fold eligible l None) as H1. pose proof (find_best_fold eligible l' None) as H2.
  destruct (fold_left _ l None) as [x|] eqn:E1, (fold_left _ l' None) as [y|] eqn:E2.
  - apply find_best_in in E1 as [|[Hx Ex]]; [done|]. apply find_best_in in E2 as [|[Hy Ey]]; [done|].
    f_equal. rewrite <- Hp in Hy. destruct (H1 y) as [->|Hyx]; [by left|done|].
    destruct (H2 x) as [->|Hxy]; [left; by rewrite <- Hp|done|].
    apply Huniq; auto. by apply better_total.
  - apply find_best_in in E1 as [|[Hx Ex]]; [done|]. destruct H2 as [_ H2].
    rewrite H2 in Ex; [done|]. by rewrite <- Hp.
  - apply find_best_in in E2 as [|[Hy Ey]]; [done|]. destruct H1 as [_ H1].
    rewrite H1 in Ey; [done|]. by rewrite Hp.
  - done.
Qed.

(** The sibling fold is deterministic. Two siblings competing for a fold share
    their reason, so the most recently active one, then the lowest UID, is unique:
    the session an event folds into, the workload key that matched and the cache
    left behind are the same for every order the runtime may visit the map in. *)
Theorem sibling_fold_deterministic (R1 R2 : RangeOrder) (now : Time) (self : EventKey) (kind : string)
    (candidates : list string) (c : DedupCache) :
  SessionForSibling (H := R1) now self kind candidates c =
  SessionForSibling (H := R2) now self kind candidates c.
Proof.
  unfold SessionForSibling. induction candidates as [|cand rest IH]; simpl; [done|].
  rewrite (find_best_perm _ (range (RangeOrder := R1) (length rest) (entries c))
             (range (RangeOrder := R2) (length rest) (entries c))).
  - destruct (find_best _ _) as [[]|]; done.
  - by rewrite !range_perm.
  - intros [k1 e1] [k2 e2] Hx Hy Ex Ey Hu. apply elem_of_range in Hx, Hy. simpl in *. btrue.
    destruct k1, k2; simpl in *. assert (Reason0 = Reason) by congruence. by simplify_eq.
Qed.

(** A visiting order other than the plain one. *)
Definition reverse_range : RangeOrder :=
  {| range := fun K V _ _ _ m => reverse (map_to_list m);
     range_perm := fun K V _ _ _ m => reverse_Permutation (map_to_list m) |}.

(** Two incidents of one pod, opened at the same instant under one Deployment. *)
Definition tied_entry (sid : string) : dedupEntry :=
  open_entry <| SessionID := sid |> <| AncestorKeys := ["Deployment/default/web"] |>.
Definition tied_cache : DedupCache :=
  cold_cache <| entries := {[ mkEventKey "pod" "OOMKilled" := tied_entry "s1";
                              mkEventKey "pod" "Unhealthy" := tied_entry "s2" ]} |>.

(** The reattachment tie-break is not total. The search's comment promises a
    deterministic answer (most recent, then by UID), but two incidents of one object
    under different reasons have the same UID: when they were last active at the same
    instant, the session a warning reattaches to depends on the map's order. *)
Theorem reattachment_tie_depends_on_order :
  (SessionForAncestors (H := plain_range) (mkEventKey "dep" "x") ["Deployment/default/web"] "capacity" tied_cache).2
  <> (SessionForAncestors (H := reverse_range) (mkEventKey "dep" "x") ["Deployment/default/web"] "capacity" tied_cache).2.
Proof. vm_compute. congruence. Qed.

(** ** Behaviours of the sibling fold the code's comments do not describe *)

(** A downgraded sibling never lapses and counts twice. A downgraded signal (or
    the opener's own kind re-classed) on an open incident is documented to take the
    legacy lapse; on an entry folded onto an open group, the sibling branch first
    refreshes the entry's LastSeen and count and then falls through, so the lapse test
    that follows can no longer succeed and the one event is counted a second time. *)
Theorem downgraded_sibling_never_lapses `{RangeOrder} (isOpen : option (EventKey -> bool)) (now : Time)
    (key rootKey : EventKey) (obs : Observation) (c : DedupCache) (e root : dedupEntry)
    (Hswept : lastSweep c <> 0 /\ Sub now (lastSweep c) < window c)
    (He : entries c !! canonical_key key = Some e)
    (Hroot : resolveParentLocked e c = Some (rootKey, root))
    (Hdistinct : rootKey <> canonical_key key)
    (Hlive : Storm root = "" /\ Resolved (rs root) = false /\ SessionID root <> "" /\
             SessionID root = SessionID e)
    (Hgroup : isGroupOpenLocked isOpen rootKey root c = true)
    (Hnew : EventLastTS e < obs_LastTS obs)
    (Hrep : obs_Repeatable obs = false)
    (Hdown : obs_Downgraded obs = true \/ obs_Kind obs = SourceKind root /\ obs_Kind obs = SourceKind e)
    (Hw : 0 < window c) :
  let '(c', r) := ObserveSignal isOpen now key obs c in
  dr_Kind r = DedupDuplicate /\ dr_Count r = Count e + 2.
Proof.
  unfold ObserveSignal, maybeSweepLocked. cbv zeta.
  destruct (Z.leb_spec (window c) 0); [lia|]. destruct Hswept as [Hz Hs].
  unfold IsZero, zero_time. rewrite (proj2 (Z.eqb_neq _ _) Hz), (proj2 (Z.ltb_lt _ _) Hs). cbn [negb andb].
  rewrite He. unfold After at 1. rewrite (proj2 (Z.ltb_lt _ _) Hnew). cbn [negb].
  unfold observe_sibling. rewrite Hroot, Hgroup. destruct Hlive as (Hst & Hr & Hsid & Heq).
  rewrite Hst, Hr, Heq, !bool_decide_eq_true_2, (bool_decide_eq_false_2 (SessionID e = "")) by congruence.
  cbn [negb andb]. rewrite (bool_decide_eq_false_2 (rootKey = canonical_key key)) by done. unfold observe_root. rewrite Hrep.
  assert (forall x : dedupEntry, x = root \/ x = advance now (obs_LastTS obs) e ->
    negb (obs_Downgraded obs) && (obs_Kind obs <>s SourceKind x) = false) as Hfall.
  { intros x Hx. destruct Hdown as [->|[Hk1 Hk2]]; [done|].
    rewrite bool_decide_eq_true_2 by (destruct Hx as [->| ->]; simpl; congruence). apply andb_false_r. }
  rewrite Hfall by auto. rewrite (bool_decide_eq_true_2 (SessionID e = SessionID e)) by done. cbv beta iota zeta delta [andb]. unfold observe_own. cbv beta iota zeta. rewrite Hrep, Hfall by auto.
  assert (window (put (canonical_key key) (advance now (obs_LastTS obs) e) c)
    <? Sub now (LastSeen (advance now (obs_LastTS obs) e)) = false) as ->.
  { simpl. rewrite Sub_diag. apply Z.ltb_ge. lia. }
  destruct (note_pending_fields (window (put (canonical_key key) (advance now (obs_LastTS obs) e) c)) now
    (repeatClass (obs_Kind obs) (obs_Severity obs) (obs_Message obs))
    (advance now (obs_LastTS obs) (advance now (obs_LastTS obs) e))) as [p ->].
  destruct (_ && _); simpl; split; auto; lia.
Qed.

(** A rolling deployment: the old pod opens, the new one folds onto it. *)
Definition old_pod : EventKey := mkEventKey "old" "CrashLoopBackOff".
Definition new_pod : EventKey := mkEventKey "new" "CrashLoopBackOff".
Definition crash (ts : Time) (down : bool) : Observation :=
  mkObservation ts "k8s-event" "critical" "back-off" (negb down) down.
Definition always_open : option (EventKey -> bool) := Some (fun _ => true).
Definition web : list string := ["Deployment/default/web"].

#[local] Existing Instance plain_range.

Definition rollout_ops : list cache_op :=
  [ OpObserve always_open (10 * Hour) old_pod (crash (10 * Hour) false);
    OpNoteIncidentKind old_pod "k8s-event";
    OpBindIncident old_pod "s1" zero_ref;
    OpNoteAncestors old_pod web;
    OpObserve always_open (10 * Hour + Minute) new_pod (crash (9 * Hour + 50 * Minute) false);
    OpNoteIncidentKind new_pod "k8s-event";
    OpSessionForSibling (10 * Hour + Minute) new_pod "k8s-event" web;
    OpBindIncident new_pod "s1" zero_ref;
    OpNoteAncestors new_pod web ].

Definition run_ops (ops : list cache_op) (c : DedupCache) : DedupCache :=
  fold_left (fun c op => run_op op c) ops c.

Definition rollout : DedupCache := run_ops rollout_ops cold_cache.

Example rollout_folded :
  Parent <$> entries rollout !! new_pod = Some (Some old_pod) /\
  LookupSession new_pod rollout = Some "s1".
Proof. vm_compute. done. Qed.

Lemma downgraded_sibling_never_lapses_witness :
  let '(c', r) := ObserveSignal always_open (10 * Hour + 2 * Minute) new_pod
    (crash (10 * Hour) true) rollout in
  dr_Kind r = DedupDuplicate /\ dr_Count r = 3.
Proof.
  assert (exists e root, entries rollout !! canonical_key new_pod = Some e /\ Count e = 1 /\
    resolveParentLocked e rollout = Some (old_pod, root) /\
    (Storm root = "" /\ Resolved (rs root) = false /\ SessionID root <> "" /\ SessionID root = SessionID e) /\
    isGroupOpenLocked always_open old_pod root rollout = true /\ EventLastTS e = 9 * Hour + 50 * Minute)
    as (e & root & He & Hc & Hr & Hl & Hg & Ht).
  { do 2 eexists. split; [vm_compute; reflexivity|]. split; [reflexivity|]. split; [vm_compute; reflexivity|].
    split; [vm_compute; repeat split; discriminate|]. split; [vm_compute; reflexivity|vm_compute; reflexivity]. }
  pose proof (downgraded_sibling_never_lapses always_open (10 * Hour + 2 * Minute) new_pod old_pod
    (crash (10 * Hour) true) rollout e root) as Hw.
  destruct (ObserveSignal _ _ _ _ _) as [c' r]. rewrite Hc, Ht in Hw.
  refine (Hw _ He Hr _ Hl Hg _ eq_refl (or_introl eq_refl) _); clear.
  - split; [vm_compute; discriminate|vm_compute; reflexivity].
  - intros Heq. vm_compute in Heq. discriminate.
  - reflexivity.
  - vm_compute. reflexivity.
Defined.

(** A sibling's event can turn a replay into new activity. The group's root takes
    over the event time of every sibling occurrence; when the sibling's event is older
    than the root's own, re-delivering the root's unchanged event is no longer
    recognised as a replay and reaches the repeat schedule: here the relist of an event
    already handled injects a reminder into the session. *)
Theorem sibling_event_unmasks_replay :
  let c := run_ops [ OpObserve always_open (10 * Hour + 2 * Minute) new_pod
                       (crash (9 * Hour + 55 * Minute) false) ] rollout in
  EventLastTS <$> entries rollout !! old_pod = Some (10 * Hour) /\
  EventLastTS <$> entries c !! old_pod = Some (9 * Hour + 55 * Minute) /\
  dr_Kind (ObserveSignal always_open (10 * Hour + 8 * Minute) old_pod (crash (10 * Hour) false) c).2
  = DedupRepeat.
Proof. vm_compute. done. Qed.

(** An incident can become its own parent, and then counts every event twice.
    When the group's root resolves while a sibling is still live and then recurs, its
    new entry folds onto the sibling, whose parent is that same key: the entry's parent
    is itself, and one new occurrence advances the same entry once as the sibling and
    once as the root. *)
Theorem recurring_root_becomes_own_parent :
  let c := run_ops [ OpMarkResolved old_pod;
                     OpObserve always_open (10 * Hour + 8 * Minute) new_pod
                       (crash (10 * Hour + 8 * Minute) false);
                     OpObserve always_open (10 * Hour + 9 * Minute) old_pod
                       (crash (10 * Hour + 9 * Minute) false);
                     OpNoteIncidentKind old_pod "k8s-event";
                     OpSessionForSibling (10 * Hour + 9 * Minute) old_pod "k8s-event" web;
                     OpBindIncident old_pod "s1" zero_ref ] rollout in
  let c' := run_ops [ OpObserve always_open (10 * Hour + 10 * Minute) old_pod
                        (crash (10 * Hour + 10 * Minute) false) ] c in
  Parent <$> entries c !! old_pod = Some (Some old_pod) /\
  (Count <$> entries c !! old_pod) = Some 2 /\ (Count <$> entries c' !! old_pod) = Some 4.
Proof. vm_compute. done. Qed.
