(* ===== verification/DedupFile.v ===== *)
(** The snapshot the dedup cache survives a restart by (src/pkg/engine/dedup.go): the JSON
    document of the entries, writing it, and constructing a cache from the file.

    The fields of the document are the structs' fields with their tags; [encoding/json] is
    GoJson. The zone a process keeps its instants in is an argument of [Snapshot]. The file
    is what a reader of [persistPath] finds; the temporary file beside it is not read. *)
From S2P Require Import Prelude GoTime GoStrings GoHash GoFmt GoTimeFmt GoQuote GoJson Signal Repeat Dedup DedupSpec.
From Stdlib Require Import Ascii SpecFloat.
Open Scope Z_scope.
Open Scope lookout_scope.

(** ** The document *)

Definition zero_incident : IncidentRef := mkIncidentRef "" "" "" "" "" "" "".
Definition zero_repeatState : repeatState := mkRepeatState false false 0 0 zero_time 0 f64_zero [] false false "".
Definition zero_dedupEntry : dedupEntry := mkDedupEntry "" zero_time zero_time zero_time 0 None "" "" [] [] zero_repeatState None.

Definition incident_fields : list (field IncidentRef) := [
  Field "namespace" 0 opt_string ir_Namespace (fun v x => x <| ir_Namespace := v |>);
  Field "kind_of_object" 0 opt_string ir_KindOfObject (fun v x => x <| ir_KindOfObject := v |>);
  Field "name" 0 opt_string ir_Name (fun v x => x <| ir_Name := v |>);
  Field "container" 0 opt_string ir_Container (fun v x => x <| ir_Container := v |>);
  Field "controller_ref" 0 opt_string ir_ControllerRef (fun v x => x <| ir_ControllerRef := v |>);
  Field "fingerprint" 0 opt_string ir_Fingerprint (fun v x => x <| ir_Fingerprint := v |>);
  Field "cluster" 0 opt_string ir_Cluster (fun v x => x <| ir_Cluster := v |>)
].

(** [EventKey] has no tags. *)
Definition eventKey_fields : list (field EventKey) := [
  Field "UID" 0 string_codec UID (fun v x => x <| UID := v |>);
  Field "Reason" 0 string_codec Reason (fun v x => x <| Reason := v |>)
].

Section document.
Context `{FloatText}.

Definition repeat_fields : list (field repeatState) := [
  Field "session_class" 0 opt_bool SessionClass (fun v x => x <| SessionClass := v |>);
  Field "resolved" 0 opt_bool Resolved (fun v x => x <| Resolved := v |>);
  Field "repeat_count" 0 opt_int RepeatCount (fun v x => x <| RepeatCount := v |>);
  Field "step" 0 opt_int Step (fun v x => x <| Step := v |>);
  Field "last_inject_at" 0 opt_time LastInjectAt (fun v x => x <| LastInjectAt := v |>);
  Field "inject_count" 0 opt_int InjectCount (fun v x => x <| InjectCount := v |>);
  Field "rate_per_hour" 0 opt_float RatePerHour (fun v x => x <| RatePerHour := v |>);
  Field "classes" 0 opt_strings Classes (fun v x => x <| Classes := v |>);
  Field "pending_change" 0 opt_bool PendingChange (fun v x => x <| PendingChange := v |>);
  Field "undelivered" 0 opt_bool Undelivered (fun v x => x <| Undelivered := v |>);
  Field "last_change" 0 opt_string LastChange (fun v x => x <| LastChange := v |>)
].

Definition entry_fields : list (field dedupEntry) := [
  Field "session_id" 0 string_codec SessionID (fun v x => x <| SessionID := v |>);
  Field "first_seen" 0 time_codec FirstSeen (fun v x => x <| FirstSeen := v |>);
  Field "last_seen" 0 time_codec LastSeen (fun v x => x <| LastSeen := v |>);
  Field "event_last_ts" 0 time_codec EventLastTS (fun v x => x <| EventLastTS := v |>);
  Field "count" 0 int_codec Count (fun v x => x <| Count := v |>);
  Field "incident" 0 (omit_if is_nil (pointer_codec incident_fields zero_incident)) de_Incident (fun v x => x <| de_Incident := v |>);
  Field "storm" 0 opt_string Storm (fun v x => x <| Storm := v |>);
  Field "source_kind" 0 opt_string SourceKind (fun v x => x <| SourceKind := v |>);
  Field "followup_sources" 0 opt_strings FollowupSources (fun v x => x <| FollowupSources := v |>);
  Field "ancestor_keys" 0 opt_strings AncestorKeys (fun v x => x <| AncestorKeys := v |>)
  ] ++ map (embed rs (fun v x => x <| rs := v |>)) repeat_fields ++ [
  Field "parent" 0 (omit_if is_nil (pointer_codec eventKey_fields zero_key)) Parent (fun v x => x <| Parent := v |>)
].

(** A [*dedupEntry]. *)
Definition entry_codec : codec (option dedupEntry) := pointer_codec entry_fields zero_dedupEntry.
End document.

(** ** The file *)

Inductive persisted :=
  | FileMissing
  | FileUnreadable (err : string)
  | FileData (data : string).

Section file.
Context `{RangeOrder} `{FloatText}.

Definition snapshot_of (c : DedupCache) : gmap string (option dedupEntry) :=
  range_loop (fun k e (m : gmap string (option dedupEntry)) => <[serializeKey k := Some e]> m) (range 0 (entries c)) ∅.

(** [write] and [rename]: the errors of [os.WriteFile] and [os.Rename], if any. The answer
    is the error returned and the file after the call. *)
Definition Snapshot (zone : Time -> Z) (persistPath : string) (write rename : option string) (c : DedupCache) (file : persisted)
  : option string * persisted :=
  if persistPath ==s "" then (None, file)
  else
    match MarshalIndent entry_codec zone (snapshot_of c) with
    | None => (Some "dedup: marshal snapshot", file)
    | Some data =>
        let tmp := persistPath +:+ ".tmp" in
        match write with
        | Some err => (Some ("dedup: write " +:+ tmp +:+ ": " +:+ err), file)
        | None =>
            match rename with
            | Some err => (Some ("dedup: rename " +:+ tmp +:+ " → " +:+ persistPath +:+ ": " +:+ err), file)
            | None => (None, FileData data)
            end
        end
    end.

(** An entry of the file; a [null] is a key whose entry is a nil pointer. *)
Definition restore_entry (keyStr : string) (p : option dedupEntry) (st : DedupCache * list EventKey) : DedupCache * list EventKey :=
  let '(c, nils) := st in
  match deserializeKey keyStr with
  | None => st
  | Some key => match p with Some e => (put key e c, nils) | None => (c, key :: nils) end
  end.

Definition restore (persistPath : string) (file : persisted) (c : DedupCache) : string + (DedupCache * list EventKey) :=
  match file with
  | FileMissing => inr (c, [])
  | FileUnreadable err => inl ("dedup: read " +:+ persistPath +:+ ": " +:+ err)
  | FileData data =>
      match Unmarshal entry_codec None data with
      | None => inr (c, [])
      | Some snapshot => inr (range_loop restore_entry (range 0 snapshot) (c, []))
      end
  end.

(** The error, or the cache and the keys it holds a nil entry under. *)
Definition NewDedupCache (win : Duration) (persistPath : string) (file : persisted) : string + (DedupCache * list EventKey) :=
  if win <=? 0 then inl ("dedup: window must be > 0 (got " +:+ Duration_String win +:+ ")")
  else
    let c := mkDedupCache ∅ ∅ win maxDedupEntries zero_time in
    if persistPath <>s "" then
      match restore persistPath file c with
      | inl err => inl ("dedup: restore from " +:+ persistPath +:+ ": " +:+ err)
      | inr built => inr built
      end
    else inr (c, []).
End file.

(** ** What an entry must be to be written and to be read back *)

Definition incident_texts (r : IncidentRef) : list string :=
  [ir_Namespace r; ir_KindOfObject r; ir_Name r; ir_Container r; ir_ControllerRef r; ir_Fingerprint r; ir_Cluster r].

Definition entry_texts (k : EventKey) (e : dedupEntry) : list string :=
  [UID k; Reason k; SessionID e; Storm e; SourceKind e; LastChange (rs e)] ++ FollowupSources e ++ AncestorKeys e ++ Classes (rs e) ++
  match de_Incident e with Some r => incident_texts r | None => [] end ++
  match Parent e with Some p => [UID p; Reason p] | None => [] end.

(** Strings in UTF-8, counts within an int, a rate that is not the negative zero, no
    separator in the UID. *)
Definition storable (k : EventKey) (e : dedupEntry) : Prop :=
  contains_byte "|" (UID k) = false /\ Forall (fun s => ValidString s = true) (entry_texts k e) /\
  Forall in_int64 [Count e; RepeatCount (rs e); Step (rs e); InjectCount (rs e)] /\ RatePerHour (rs e) <> S754_zero true.

(** Years of four digits in a zone of less than a day, and a rate that is a number. *)
Definition writable (zone : Time -> Z) (e : dedupEntry) : Prop :=
  Forall (fun t => strict_RFC3339 (zone t) t = true)
    ([FirstSeen e; LastSeen e; EventLastTS e] ++ if IsZero (LastInjectAt (rs e)) then [] else [LastInjectAt (rs e)]) /\
  f64_finite (RatePerHour (rs e)) = true.

(** ** Reading back *)

Ltac each_field tac := repeat (apply Forall_cons_2; [tac|]); apply Forall_nil_2.

Ltac lens := let x := fresh in intros x; destruct x; try reflexivity; match goal with r : repeatState |- _ => destruct r; reflexivity end.

Ltac fields_ok := split; [apply (bool_decide_unpack _); vm_compute; exact I|each_field ltac:(reflexivity)|each_field ltac:(lens)].

Lemma incident_fields_ok : visible incident_fields = incident_fields /\ fields_ok incident_fields.
Proof. split; [reflexivity|]. unfold incident_fields. fields_ok. Qed.

Lemma eventKey_fields_ok : visible eventKey_fields = eventKey_fields /\ fields_ok eventKey_fields.
Proof. split; [reflexivity|]. unfold eventKey_fields. fields_ok. Qed.

Section back.
Context `{FloatText} (zone : Time -> Z).

(** The names of the embedded struct's fields and the entry's own do not collide. *)
Lemma entry_fields_ok : visible entry_fields = entry_fields /\ fields_ok entry_fields.
Proof. split; [reflexivity|]. unfold entry_fields. cbn [map app repeat_fields]. fields_ok. Qed.

Lemma back_opt_string k s : ValidString s = true -> comes_back zone k opt_string "" s.
Proof. intros Hs. apply back_omit; [|by apply back_string]. by intros ->%bool_decide_eq_true. Qed.

Lemma back_opt_bool k b : comes_back zone k opt_bool false b.
Proof. apply back_omit; [by destruct b|apply back_bool]. Qed.

Lemma back_opt_int k n : in_int64 n -> comes_back zone k opt_int 0 n.
Proof. intros Hn. apply back_omit; [by intros ->%Z.eqb_eq|by apply back_int]. Qed.

Lemma back_opt_strings k l : Forall (fun s => ValidString s = true) l -> comes_back zone (S k) opt_strings [] l.
Proof. intros Hl. apply back_omit; [by destruct l|by apply back_strings]. Qed.

Lemma back_opt_float k x : x <> S754_zero true -> comes_back zone k opt_float f64_zero x.
Proof. intros Hx. apply back_omit; [|apply back_float]. by destruct x as [[]|[]| |[]]. Qed.

Lemma back_opt_time k t : comes_back zone k opt_time zero_time t.
Proof. apply back_omit; [by intros ->%Z.eqb_eq|apply back_time]. Qed.

Lemma back_incident k p : Forall (fun s => ValidString s = true) (match p with Some r => incident_texts r | None => [] end) ->
  comes_back zone (S k) (omit_if is_nil (pointer_codec incident_fields zero_incident)) None p.
Proof.
  intros Hp. apply back_omit; [by destruct p|]. destruct p as [[]|]; [|apply back_nil]. destruct incident_fields_ok as [Hvis Hok].
  apply back_pointer; rewrite Hvis; [done|]. unfold incident_texts in Hp. rewrite !list.Forall_cons in Hp. destruct_and! Hp.
  cbn. repeat (split; [by auto using back_opt_string|]). reflexivity.
Qed.

Lemma back_parent k p : Forall (fun s => ValidString s = true) (match p with Some p => [UID p; Reason p] | None => [] end) ->
  comes_back zone (S k) (omit_if is_nil (pointer_codec eventKey_fields zero_key)) None p.
Proof.
  intros Hp. apply back_omit; [by destruct p|]. destruct p as [[]|]; [|apply back_nil]. destruct eventKey_fields_ok as [Hvis Hok].
  apply back_pointer; rewrite Hvis; [done|]. cbn in Hp. rewrite !list.Forall_cons in Hp. destruct_and! Hp. cbn. repeat (split; [by auto using back_string|]). reflexivity.
Qed.

Hint Resolve back_string back_time back_int back_opt_string back_opt_bool back_opt_int back_opt_strings back_opt_float back_opt_time
  back_incident back_parent : back.

(** An entry comes back from its document. *)
Lemma entry_back k e : storable k e -> comes_back zone 2 entry_codec None (Some e).
Proof.
  intros (_ & Ht & Hn & Hr). destruct entry_fields_ok as [Hvis Hok]. apply back_pointer; rewrite Hvis; [done|].
  unfold entry_texts in Ht. rewrite !list.Forall_app, !list.Forall_cons in Ht. rewrite !list.Forall_cons in Hn. destruct_and! Ht. destruct_and! Hn.
  clear Hvis Hok. destruct e as [? ? ? ? ? ? ? ? ? ? [] ?]. cbn -[in_int64] in *. repeat (split; [solve [auto with back]|]). reflexivity.
Qed.

(** ** Which entries can be written *)

Lemma pointer_encodes {T} (fs : list (field T)) zero p : Forall (fun f => forall x, cd_enc (fd_codec f) zone (fd_get f x) <> EncError) (visible fs) ->
  cd_enc (omit_if is_nil (pointer_codec fs zero)) zone p <> EncError.
Proof.
  intros Hfs. destruct p as [x|]; [|done]. cbn. assert (is_Some (members_of zone (visible fs) x)) as [ms ->]; [|done].
  apply members_of_Some. eapply list.Forall_impl; [exact Hfs|]. intros f Hf. apply Hf.
Qed.

Lemma time_encodes t : cd_enc time_codec zone t <> EncError <-> strict_RFC3339 (zone t) t = true.
Proof. cbn. by destruct (strict_RFC3339 _ _). Qed.

Lemma float_encodes x : cd_enc opt_float zone x <> EncError <-> f64_finite x = true.
Proof. destruct x as [[]|[]| |s m e]; try done. cbn -[f64_finite]. by destruct (f64_finite _). Qed.

Lemma omit_encodes {A} (c : codec A) empty a : (forall a, cd_enc c zone a <> EncError) -> cd_enc (omit_if empty c) zone a <> EncError.
Proof. intros Hc. cbn. by destruct (empty a). Qed.

Lemma incident_encodes p : cd_enc (omit_if is_nil (pointer_codec incident_fields zero_incident)) zone p <> EncError.
Proof.
  apply pointer_encodes. destruct incident_fields_ok as [-> _]. unfold incident_fields. each_field ltac:(intros x; by apply omit_encodes).
Qed.

Lemma parent_encodes p : cd_enc (omit_if is_nil (pointer_codec eventKey_fields zero_key)) zone p <> EncError.
Proof. apply pointer_encodes. destruct eventKey_fields_ok as [-> _]. unfold eventKey_fields. each_field ltac:(done). Qed.

Lemma opt_time_encodes t : cd_enc opt_time zone t <> EncError <-> Forall (fun t => strict_RFC3339 (zone t) t = true) (if IsZero t then [] else [t]).
Proof.
  cbn. destruct (IsZero t); [by split; [constructor|]|]. rewrite list.Forall_singleton. by destruct (strict_RFC3339 _ _).
Qed.

Lemma entry_encodes e : (exists j, cd_enc entry_codec zone (Some e) = Encoded j) <-> writable zone e.
Proof.
  transitivity (is_Some (members_of zone entry_fields e)).
  { unfold entry_codec, pointer_codec. cbn [cd_enc]. destruct entry_fields_ok as [-> _]. destruct (members_of _ _ _); split; intros [? ?]; try done; by eexists. }
  rewrite members_of_Some. unfold writable. rewrite list.Forall_app. unfold entry_fields. cbn [map app repeat_fields]. rewrite !list.Forall_cons.
  cbn [fd_codec fd_get embed]. rewrite !time_encodes, opt_time_encodes, float_encodes.
  split; [intros HF; destruct_and! HF; by split_and!|]. intros Hw; destruct_and! Hw. split_and!; try done;
    first [apply incident_encodes|apply parent_encodes|by apply omit_encodes].
Qed.
End back.

(** ** A restart *)

Lemma key_back k : contains_byte "|" (UID k) = false -> deserializeKey (serializeKey k) = Some k.
Proof.
  intros Hk. unfold deserializeKey, serializeKey. destruct k as [u r]; simpl in *.
  assert (cut_byte "|"%char (u +:+ String "|" r) = Some (u, r)) as -> by (by apply cut_byte_Some). done.
Qed.

Section persist.
Context `{RangeOrder}.

Definition encodable (m : gmap EventKey dedupEntry) : Prop := map_Forall (fun k _ => contains_byte "|" (UID k) = false) m.

Notation add_entry := (fun k e (m : gmap string (option dedupEntry)) => <[serializeKey k := Some e]> m).

(** The document holds each entry under its serialized key, and nothing else. *)
Lemma snapshot_loop l m :
  NoDup l.*1 -> Forall (fun ke => contains_byte "|" (UID ke.1) = false) l -> (forall k e, (k, e) ∈ l -> m !! serializeKey k = None) ->
  forall s p, range_loop add_entry l m !! s = Some p <-> m !! s = Some p \/ exists k e, (k, e) ∈ l /\ s = serializeKey k /\ p = Some e.
Proof.
  revert m. induction l as [|[k1 e1] l IH]; intros m Hnd Hall Hm s p; cbn [range_loop foldl].
  { split; [by left|]. intros [?|(k & e & Hin & _)]; [done|by apply elem_of_nil in Hin]. }
  apply list.NoDup_cons in Hnd as [Hk1 Hnd]. apply Forall_cons_1 in Hall as [Hu1 Hall]. cbn [fst] in *.
  rewrite IH; [|done|done|].
  - destruct (decide (s = serializeKey k1)) as [->|Hne].
    + rewrite lookup_insert_eq. pose proof (Hm k1 e1 ltac:(set_solver)) as Hn. split.
      * intros [[= <-]|(k & e & Hin & Hs & ->)]; right; [exists k1, e1|exists k, e]; (split; [set_solver|done]).
      * intros [Hs|(k & e & [[= -> ->]|Hin]%elem_of_cons & Hs & ->)]; [congruence|by left|right; eauto].
    + rewrite lookup_insert_ne by done. split.
      * intros [?|(k & e & Hin & ? & ?)]; [by left|right; exists k, e; split; [set_solver|done]].
      * intros [?|(k & e & [[= -> ->]|Hin]%elem_of_cons & ? & ?)]; [by left|done|right; eauto].
  - intros k e Hin. rewrite lookup_insert_ne; [by apply (Hm k e); set_solver|]. intros E. apply Hk1.
    apply (f_equal deserializeKey) in E. rewrite list.Forall_forall in Hall. rewrite !key_back in E by (done || by apply (Hall (k, e))).
    injection E as ->. by apply (list_elem_of_fmap_2 fst l (k, e)).
Qed.

Lemma snapshot_spec c : encodable (entries c) -> forall s p, snapshot_of c !! s = Some p <-> exists k e, entries c !! k = Some e /\ s = serializeKey k /\ p = Some e.
Proof.
  intros Henc s p. unfold snapshot_of. rewrite snapshot_loop; [|apply NoDup_fst_range| |intros; apply lookup_empty].
  - split; [intros [Hs|(k & e & Hin & ?)]; [by rewrite lookup_empty in Hs|exists k, e; by rewrite <- (elem_of_range 0)]|].
    intros (k & e & Hin & ?). right. exists k, e. by rewrite (elem_of_range 0).
  - apply list.Forall_forall. intros [k e] Hin%elem_of_range. exact (Henc k e Hin).
Qed.

(** What the loop over the restored document leaves: the configuration, the tombstones, and
    under each key the entry of its document key. *)
Lemma restore_loop l c nils :
  let '(c', nils') := range_loop restore_entry l (c, nils) in
  tombstones c' = tombstones c /\ same_cfg c c' /\ len (entries c') <= len (entries c) + Z.of_nat (length l) /\
  (forall k e, entries c' !! k = Some e -> entries c !! k = Some e \/ contains_byte "|" (UID k) = false /\ (serializeKey k, Some e) ∈ l) /\
  (Forall (fun x => x.2 <> None) l -> nils' = nils).
Proof.
  revert c nils. induction l as [|[s p] l IH]; intros c nils; cbn [range_loop foldl]; [split_and!; [done|done|cbn; lia|by left|done]|].
  unfold restore_entry at 2. destruct (deserializeKey s) as [k|] eqn:Ek.
  - apply deserialize_key_serialize in Ek as [-> Hk]. destruct p as [e|].
    + specialize (IH (put k e c) nils). destruct (range_loop _ _ _) as [c' nils']. destruct IH as (Ht & Hc & Hl & Hin & Hn). split_and!.
      * by rewrite Ht.
      * exact Hc.
      * etrans; [exact Hl|]. unfold put. cbn. pose proof (len_insert_le (entries c) k e). lia.
      * intros k' e' [Hput|[? ?]]%Hin; [|right; set_solver]. unfold put in Hput; cbn in Hput. destruct (decide (k' = k)) as [->|Hne].
        { rewrite lookup_insert_eq in Hput. injection Hput as <-. right. set_solver. }
        rewrite lookup_insert_ne in Hput by done. by left.
      * intros [_ Hall]%Forall_cons_1. by apply Hn.
    + specialize (IH c (k :: nils)). destruct (range_loop _ _ _) as [c' nils']. destruct IH as (Ht & Hc & Hl & Hin & Hn).
      split_and!; [done|done|cbn in *; lia|intros k' e' [?|[? ?]]%Hin; [by left|right; set_solver]|intros [[] _]%Forall_cons_1; done].
  - specialize (IH c nils). destruct (range_loop _ _ _) as [c' nils']. destruct IH as (Ht & Hc & Hl & Hin & Hn).
    split_and!; [done|done|cbn in *; lia|intros k' e' [?|[? ?]]%Hin; [by left|right; set_solver]|intros [_ Hall]%Forall_cons_1; by apply Hn].
Qed.

Lemma restore_keeps l st k : is_Some (entries st.1 !! k) -> is_Some (entries (range_loop restore_entry l st).1 !! k).
Proof.
  intros Hk. apply (range_loop_inv _ (fun st : DedupCache * list EventKey => is_Some (entries st.1 !! k))); [done|].
  intros s p [c nils] _ Hc. unfold restore_entry. destruct (deserializeKey s) as [k'|]; [|done]. destruct p as [e|]; [|done]. cbn in *.
  destruct (decide (k = k')) as [->|Hne]; [rewrite lookup_insert_eq|rewrite lookup_insert_ne by done]; [by eexists|done].
Qed.

Lemma restore_reaches l st k e : contains_byte "|" (UID k) = false -> (serializeKey k, Some e) ∈ l ->
  is_Some (entries (range_loop restore_entry l st).1 !! k).
Proof.
  intros Hk. revert st. induction l as [|[s p] l IH]; intros st Hin; [by apply elem_of_nil in Hin|]. cbn [range_loop].
  apply elem_of_cons in Hin as [[= <- <-]|Hin]; [|by apply IH]. apply restore_keeps. destruct st as [c nils]. unfold restore_entry.
  rewrite key_back by done. cbn. rewrite lookup_insert_eq. by eexists.
Qed.
End persist.

Section round_trip.
Context `{FloatText} (zone : Time -> Z) (R1 R2 : RangeOrder).

Lemma valid_app a b : ValidString a = true -> ValidString b = true -> ValidString (a +:+ b) = true.
Proof.
  intros Ha Hb. revert a Ha. apply (valid_ind (fun a => ValidString (a +:+ b) = true)); [done| |].
  - intros c s Hc IH. unfold ValidString in *. cbn [String.append valid_from].
    assert (exists lo hi, rune_lead c = Some (0%nat, lo, hi)) as (lo & hi & ->); [|done]. unfold rune_lead. unfold is_ascii in Hc. rewrite Hc. eauto.
  - intros c n lo hi t s Hc Ht IH. unfold ValidString in *. rewrite app_assoc_string. cbn [String.append valid_from]. rewrite Hc.
    destruct (take_cont_app _ _ _ _ _ (s +:+ b) Ht) as (-> & _ & _ & Hlen). by rewrite <- Hlen, valid_from_skip.
Qed.

(** The document the cache is written to is read as it was. *)
Lemma document_back c data : map_Forall storable (entries c) ->
  MarshalIndent entry_codec zone (snapshot_of (H := R1) c) = Some data -> Unmarshal entry_codec None data = Some (snapshot_of (H := R1) c).
Proof.
  intros Hs. apply (Unmarshal_Marshal entry_codec None zone 2).
  - unfold maxNestingDepth. lia.
  - intros s p (k & e & He & -> & ->)%snapshot_spec; [|intros k e He; apply (Hs k e He)]. pose proof (Hs k e He) as Hke. split; [|by eapply entry_back].
    destruct Hke as (_ & Ht & _). apply Forall_cons_1 in Ht as [Hu Ht]. apply Forall_cons_1 in Ht as [Hr _].
    unfold serializeKey. apply valid_app; [done|]. by apply (valid_app "|").
Qed.

Lemma written_iff c : encodable (entries c) ->
  is_Some (MarshalIndent entry_codec zone (snapshot_of (H := R1) c)) <-> map_Forall (fun _ e => writable zone e) (entries c).
Proof.
  intros Henc. rewrite Marshal_Some. split.
  - intros Hall k e He. apply entry_encodes, (Hall (serializeKey k) (Some e)). apply snapshot_spec; [done|]. eauto.
  - intros Hall s p (k & e & He & -> & ->)%snapshot_spec; [|done]. apply entry_encodes, (Hall k e He).
Qed.

(** The loop over the document of a cache rebuilds the cache's entries. *)
Lemma restored_entries c c0 : encodable (entries c) -> entries c0 = ∅ ->
  exists c', range_loop restore_entry (range (RangeOrder := R2) 0 (snapshot_of (H := R1) c)) (c0, []) = (c', []) /\
    entries c' = entries c /\ tombstones c' = tombstones c0 /\ same_cfg c0 c'.
Proof.
  intros Henc H0. set (l := range 0 _). pose proof (restore_loop l c0 []) as Hl. pose proof (fun k e => restore_reaches l (c0, []) k e) as Hreach.
  assert (forall s p, (s, p) ∈ l <-> exists k e, entries c !! k = Some e /\ s = serializeKey k /\ p = Some e) as Hin.
  { intros s p. unfold l. rewrite elem_of_range. by apply snapshot_spec. }
  destruct (range_loop restore_entry l (c0, [])) as [c' nils]. destruct Hl as (Ht & Hc & _ & Hback & Hnils). cbn [fst] in *.
  assert (forall k e, entries c' !! k = Some e -> entries c !! k = Some e) as Hsub.
  { intros k e [Hn|[Hk (k' & e' & He & Hs & [= ->])%Hin]]%Hback; [by rewrite H0, lookup_empty in Hn|].
    apply (f_equal deserializeKey) in Hs. rewrite (key_back k Hk), (key_back k' (Henc _ _ He)) in Hs. congruence. }
  assert (nils = []) as ->.
  { apply Hnils, list.Forall_forall. intros [s p] (k & e & _ & _ & ->)%Hin. done. }
  exists c'. split; [done|]. split; [|done]. apply map_eq. intros k. apply option_eq. intros e. split; [apply Hsub|].
  intros He. destruct (Hreach k e (Henc _ _ He)) as [e' He']; [apply Hin; eauto|]. pose proof (Hsub _ _ He') as He2. congruence.
Qed.
End round_trip.

(** C40: a restart loses no incident. A snapshot is either an error that leaves the file as it
    was, or a file from which the next process constructs a cache with exactly the entries
    the snapshot was taken of, with no tombstone and its configured window: through the JSON
    text and back, whatever map orders the two processes see and whatever zones (of whole
    minutes) they keep their instants in, for entries whose strings are UTF-8, whose counts
    fit an int, whose rate is not the negative zero and whose UID has no separator. It is an
    error exactly when the write or the rename fails, a rate is no number, or an instant's
    year has not four digits or its zone is off by a day. *)
Theorem snapshot_survives_restart `{FloatText} (R1 R2 : RangeOrder) (zone : Time -> Z) (win : Duration) (path : string)
    (write rename : option string) (c : DedupCache) (file : persisted)
    (Hwin : 0 < win) (Hpath : path <> "") (Hstore : map_Forall storable (entries c)) :
  let '(err, file') := Snapshot (H := R1) zone path write rename c file in
  (err = None <-> write = None /\ rename = None /\ map_Forall (fun _ e => writable zone e) (entries c)) /\
  match err with
  | Some _ => file' = file
  | None => exists c', NewDedupCache (H := R2) win path file' = inr (c', []) /\
      entries c' = entries c /\ tombstones c' = ∅ /\ window c' = win
  end.
Proof.
  assert (encodable (entries c)) as Henc by (intros k e He; apply (Hstore k e He)).
  pose proof (written_iff zone R1 c Henc) as Hw. unfold Snapshot. rewrite bool_decide_eq_false_2 by done.
  destruct (MarshalIndent entry_codec zone (snapshot_of c)) as [data|] eqn:Ed.
  2: { split; [|done]. split; [done|]. intros (_ & _ & Hall). apply Hw in Hall as [? ?]. done. }
  assert (map_Forall (fun _ e => writable zone e) (entries c)) as Hall by (apply Hw; by eexists).
  destruct write as [err|]; [split; [|done]; split; [done|by intros (? & _)]|].
  destruct rename as [err|]; [split; [|done]; split; [done|by intros (_ & ? & _)]|]. split; [done|].
  unfold NewDedupCache. destruct (Z.leb_spec win 0); [lia|]. rewrite bool_decide_eq_false_2 by done. cbn [negb restore].
  rewrite (document_back zone R1 c data Hstore Ed). destruct (restored_entries R1 R2 c (mkDedupCache ∅ ∅ win maxDedupEntries zero_time) Henc) as (c' & -> & He & Ht & [Hcw _]); [done|].
  exists c'. by rewrite Ht, Hcw.
Qed.

(** ** A snapshot, evaluated *)

Module Restart.

(** A text for each float64, and its reading. *)
Definition float_code (x : float64) : bool + bool * positive * Z :=
  match x with S754_finite s m e => inr (s, m, e) | S754_zero s => inl s | _ => inl false end.

Definition code_float (y : bool + bool * positive * Z) : float64 :=
  match y with inl s => S754_zero s | inr (s, m, e) => S754_finite s m e end.

Definition coded_floats : FloatText.
Proof.
  refine {| float_text := fun x => itoa (Zpos (encode (float_code x)));
            ParseFloat := fun t => n ← parse_digits t 0; code_float <$> decode (Z.to_pos n) |}.
  intros x Hx. split; [apply is_number_itoa|]. destruct (itoa_digits (Zpos (encode (float_code x)))) as [_ ->]; [lia|].
  cbn [mbind option_bind Z.to_pos]. rewrite decode_encode. by destruct x.
Defined.

#[local] Existing Instance coded_floats.
#[local] Existing Instance plain_range.

Definition root : EventKey := mkEventKey "6f1c" "BackOff".
Definition sibling : EventKey := mkEventKey "77aa" "BackOff".

Definition root_entry : dedupEntry :=
  mkDedupEntry "s1" Hour (Hour + 5) Hour 3 (Some (mkIncidentRef "shop" "Pod" "web-0" "" "Deployment/web" "fp<1>" "")) "" "event" ["metrics"] ["Node/n1"]
    (mkRepeatState true false 2 1 (Hour + Second) 1 (f64_of_Z 7) ["é"] false true "2→3") None.

Definition sibling_entry : dedupEntry := zero_dedupEntry <| SessionID := "s1" |> <| Parent := Some root |>.

Definition cache : DedupCache := cold_cache <| entries := {[root := root_entry; sibling := sibling_entry]} |>.

(** The text of the sibling's entry. *)
Example sibling_text :
  MarshalIndent entry_codec (fun _ => 0) {["k" := Some sibling_entry]} =
  Some (String.concat (String (byte_of 10) "") (map (fun l => replace_bytes (fun c => if Ascii.eqb c "'" then dquote else String c "") l)
    ["{"; "  'k': {"; "    'session_id': 's1',"; "    'first_seen': '0001-01-01T00:00:00Z',"; "    'last_seen': '0001-01-01T00:00:00Z',";
     "    'event_last_ts': '0001-01-01T00:00:00Z',"; "    'count': 0,"; "    'parent': {"; "      'UID': '6f1c',"; "      'Reason': 'BackOff'"; "    }"; "  }"; "}"])).
Proof. vm_compute. reflexivity. Qed.

Lemma cache_cases k e : entries cache !! k = Some e -> k = root /\ e = root_entry \/ k = sibling /\ e = sibling_entry.
Proof.
  change (entries cache) with (<[root := root_entry]> {[sibling := sibling_entry]} : gmap EventKey dedupEntry).
  intros [[<- <-]|[_ [<- <-]%lookup_singleton_Some]]%lookup_insert_Some; auto.
Qed.

Lemma snapshot_survives_restart_witness :
  let '(err, file) := Snapshot (fun _ => -330) "/var/dedup.json" None None cache FileMissing in
  err = None /\ exists c', NewDedupCache (5 * Minute) "/var/dedup.json" file = inr (c', []) /\ entries c' = entries cache.
Proof.
  assert (map_Forall storable (entries cache)) as Hs.
  { intros k e [[-> ->]|[-> ->]]%cache_cases; (split; [reflexivity|]); (split; [repeat constructor|]);
      (split; [repeat constructor; unfold int64_min, int64_max; cbn; lia|discriminate]). }
  assert (map_Forall (fun _ e => writable (fun _ => -330) e) (entries cache)) as Hw.
  { intros k e [[-> ->]|[-> ->]]%cache_cases; split; repeat constructor. }
  pose proof (snapshot_survives_restart plain_range plain_range (fun _ => -330) (5 * Minute) "/var/dedup.json" None None cache FileMissing
    eq_refl ltac:(discriminate) Hs) as Hr.
  destruct (Snapshot _ _ _ _ _ _) as [err file]. destruct Hr as [He Hr]. assert (err = None) as E by (apply He; done). rewrite E in *.
  destruct Hr as (c' & Hc & Hentries & _). split; [done|]. exists c'. done.
Defined.

(** A file with a [null] entry is no corrupt file: the cache is constructed with a nil
    entry, which the first sweep of the entries dereferences. *)
Lemma null_entry_is_restored :
  NewDedupCache (5 * Minute) "/var/dedup.json" (FileData ("{" +:+ dquote +:+ "u|BackOff" +:+ dquote +:+ ": null}")) =
  inr (cold_cache, [mkEventKey "u" "BackOff"]).
Proof. vm_compute. reflexivity. Qed.
End Restart.

(** ** The cap, across restarts *)

Section bounded.
Context `{RangeOrder} `{FloatText}.

(** What a file must hold for the cap to survive a restart: what this program wrote. *)
Definition persisted_ok (file : persisted) : Prop :=
  match file with
  | FileData data => forall m, Unmarshal entry_codec None data = Some m ->
      Z.of_nat (size m) <= maxDedupEntries /\
      forall k e, m !! serializeKey k = Some (Some e) -> entry_ok e /\ canonical_key k = k
  | FileMissing | FileUnreadable _ => True
  end.

Lemma NewDedupCache_ok win path file c0 nils : persisted_ok file -> NewDedupCache win path file = inr (c0, nils) ->
  cache_ok c0 /\ max c0 = maxDedupEntries /\ window c0 = win.
Proof.
  unfold NewDedupCache. intros Hf. destruct (Z.leb_spec win 0); [done|]. cbv zeta. set (c := mkDedupCache _ _ _ _ _).
  assert (cache_ok c) as Hc by (split; simpl; auto; try done; try (apply map_Forall_empty)).
  destruct (_ <>s _); [|intros [= <- <-]; done]. destruct file as [|err|data]; cbn [restore]; [intros [= <- <-]; done|done|].
  destruct (Unmarshal _ _ _) as [m|] eqn:Em; [|intros [= <- <-]; done]. destruct (Hf m Em) as [Hsize Hall].
  pose proof (restore_loop (range 0 m) c []) as Hl. destruct (range_loop _ _ _) as [c' nils']. intros [= <- <-].
  destruct Hl as (Ht & [Hw Hm] & Hl & Hin & _). rewrite length_range in Hl.
  assert (forall k e, entries c' !! k = Some e -> entry_ok e /\ canonical_key k = k) as Hent.
  { intros k e [He|[_ He%elem_of_range]]%Hin; [exact (False_ind _ (lookup_empty_Some k e He))|by apply Hall]. }
  split; [|by rewrite Hw, Hm]. split.
  - by rewrite Hw.
  - by rewrite Hm.
  - rewrite Hm. simpl in *. unfold len in Hl at 2. rewrite map_size_empty in Hl. lia.
  - by rewrite Hm, Ht.
  - intros k e He. by apply (Hent k e).
  - intros k e He. by apply (Hent k e).
Qed.

(** The dedup cache is bounded. From a cache constructed with any window, cold or restored
    from a snapshot this program wrote, and after any sequence of operations, in any
    map-iteration order: at most 10,000 entries and 10,000 tombstones, every key canonical,
    at most 16 classes remembered per incident, and no source family recorded twice as
    having spoken into an incident. *)
Theorem dedup_cache_bounded (win : Duration) (path : string) (file : persisted) (c0 c : DedupCache)
    (Hfile : persisted_ok file) (Hnew : NewDedupCache win path file = inr (c0, [])) (Hreach : reachable c0 c) :
  len (entries c) <= maxDedupEntries /\ len (tombstones c) <= maxDedupEntries /\
  forall k e, entries c !! k = Some e ->
    canonical_key k = k /\ (length (Classes (rs e)) <= maxRepeatClasses)%nat /\ NoDup (FollowupSources e).
Proof.
  destruct (NewDedupCache_ok _ _ _ _ _ Hfile Hnew) as (Hok0 & Hmax & _). pose proof (reachable_cfg _ _ Hreach) as [_ Hm].
  pose proof (reachable_ok _ _ Hok0 Hreach) as Hok. pose proof (ok_entries c Hok). pose proof (ok_tombstones c Hok).
  rewrite <- Hmax, <- Hm. split; [done|]. split; [done|]. intros k e He. split; [exact (ok_keys c Hok k e He)|exact (ok_entry c Hok k e He)].
Qed.
End bounded.

Lemma dedup_cache_bounded_witness :
  len (entries (run_op (H := plain_range) (OpObserve None Hour (mkEventKey "u" "BackOff") some_obs) cold_cache)) <= maxDedupEntries.
Proof.
  exact (proj1 (dedup_cache_bounded (H := plain_range) (H0 := Restart.coded_floats) (5 * Minute) "" FileMissing cold_cache _
    I eq_refl (reach_step (H := plain_range) _ _ _ (reach_init (H := plain_range) _)))).
Defined.
