(* ===== verification/Recovery.v ===== *)
(** The recovery tracker (src/pkg/engine/recovery.go): the state machine that
    decides when a bound incident's symptom is gone for good, and when a fix did not
    stick.

    The observers are the sources' code; a tick takes their answers of that moment as
    functions. The clock is the argument [now]. *)
From S2P Require Import Prelude GoTime GoStrings GoHash Signal.
From Stdlib Require Import Ascii.

Record Incident := mkIncident {
  inc_Key : EventKey;
  inc_SessionID : string;
  inc_FirstSeen : Time;
  inc_Ref : IncidentRef
}.

Record Clearance := mkClearance {
  Cleared : bool;
  StableSince : Time;
  cl_Resolution : Resolution
}.

(** The interface [ClearanceObserver]: no verdict when it cannot judge. *)
Notation ClearanceObserver := (Incident -> option Clearance) (only parsing).

Inductive recoveryState := stateSymptomatic | stateClearing | stateResolved.

#[global] Instance recoveryState_eq_dec : EqDecision recoveryState.
Proof. solve_decision. Defined.

Record trackedIncident := mkTracked {
  ti_inc : Incident;
  ti_state : recoveryState;
  ti_stabilityStart : Time;
  ti_resolvedAt : Time;
  ti_recovery : Recovery;
  ti_trackedAt : Time;
  ti_judged : bool
}.

Definition zero_recovery : Recovery := mkRecovery 0 0 "" zero_time 0.

Record RecoveryTracker := mkTracker {
  incidents : gmap EventKey trackedIncident;
  stableFor : Duration;
  revertWindow : Duration;
  uncoveredTTL : Duration
}.

Definition defaultUncoveredTTL : Duration := Hour.
Definition maxTrackedIncidents : Z := 10000.

Definition NewRecoveryTracker (stable : Duration) : RecoveryTracker :=
  mkTracker ∅ stable stable defaultUncoveredTTL.

(** ** Judging and dating *)

Fixpoint judge (observers : list ClearanceObserver) (inc : Incident) : option Clearance :=
  match observers with
  | [] => None
  | o :: observers =>
      match o inc with
      | Some verdict => Some verdict
      | None => judge observers inc
      end
  end.

Definition stabilityStart (inc : Incident) (verdict : Clearance) (now : Time) : Time :=
  let s := StableSince verdict in
  let s := if IsZero s || After s now then now else s in
  if Before s (inc_FirstSeen inc) then inc_FirstSeen inc else s.

Definition resolvedSignal (kind : string) (inc : Incident) (rec : Recovery) : Signal :=
  zero_signal
    <| sig_Kind := kind |> <| sig_Source := SourceSentinel |> <| sig_Severity := SeverityInfo |>
    <| sig_Fingerprint := ir_Fingerprint (inc_Ref inc) |> <| sig_Cluster := ir_Cluster (inc_Ref inc) |>
    <| sig_Event := zero_event
         <| te_Key := inc_Key inc |> <| te_Namespace := ir_Namespace (inc_Ref inc) |>
         <| te_KindOfObject := ir_KindOfObject (inc_Ref inc) |> <| te_Name := ir_Name (inc_Ref inc) |>
         <| te_Container := ir_Container (inc_Ref inc) |>
         <| te_ControllerRef := ir_ControllerRef (inc_Ref inc) |>
         <| te_FirstSeen := inc_FirstSeen inc |> |>
    <| sig_Recovery := Some rec |>.

(** ** One incident through one tick

    The body of the loop of [Tick]: what is tracked afterwards ([None] is the
    deletion) and what it emits. *)
Definition tick_one (t : RecoveryTracker) (now : Time) (verdict : option Clearance)
    (ti : trackedIncident) : option trackedIncident * list Signal :=
  match verdict with
  | None =>
      if negb (ti_judged ti) && (uncoveredTTL t <? Sub now (ti_trackedAt ti))
      then (None, []) else (Some ti, [])
  | Some verdict =>
      let ti := ti <| ti_judged := true |> in
      match ti_state ti with
      | stateSymptomatic =>
          if Cleared verdict
          then (Some (ti <| ti_state := stateClearing |>
                         <| ti_stabilityStart := stabilityStart (ti_inc ti) verdict now |>), [])
          else (Some ti, [])
      | stateClearing =>
          if negb (Cleared verdict) then (Some (ti <| ti_state := stateSymptomatic |>), [])
          else
            let ti :=
              if negb (IsZero (StableSince verdict)) then
                let s := stabilityStart (ti_inc ti) verdict now in
                if After s (ti_stabilityStart ti) then ti <| ti_stabilityStart := s |> else ti
              else ti in
            if stableFor t <=? Sub now (ti_stabilityStart ti) then
              let rec := mkRecovery (Sub (ti_stabilityStart ti) (inc_FirstSeen (ti_inc ti)))
                           (Sub now (ti_stabilityStart ti)) (cl_Resolution verdict) now 0 in
              (Some (ti <| ti_state := stateResolved |> <| ti_resolvedAt := now |> <| ti_recovery := rec |>),
               [resolvedSignal KindResolved (ti_inc ti) rec])
            else (Some ti, [])
      | stateResolved =>
          if negb (Cleared verdict) && (Sub now (ti_resolvedAt ti) <=? revertWindow t) then
            let rec := (ti_recovery ti) <| RevertedAfter := Sub now (ti_resolvedAt ti) |> in
            (Some (ti <| ti_state := stateSymptomatic |>),
             [resolvedSignal KindResolvedReverted (ti_inc ti) rec])
          else if revertWindow t <? Sub now (ti_resolvedAt ti) then (None, [])
          else (Some ti, [])
      end
  end.

Section tracker.
Context `{RangeOrder}.

Definition evict_tier (t : RecoveryTracker) (now : Time) (ti : trackedIncident) : Z :=
  if bool_decide (ti_state ti = stateResolved) then 0
  else if negb (ti_judged ti) && (uncoveredTTL t <? Sub now (ti_trackedAt ti)) then 0
  else if bool_decide (ti_state ti = stateClearing) then 1
  else 2.

Definition zero_tracked : trackedIncident :=
  mkTracked (mkIncident zero_key "" zero_time zero_ref) stateSymptomatic zero_time zero_time
    zero_recovery zero_time false.

Definition evictOneLocked (now : Time) (t : RecoveryTracker) : RecoveryTracker :=
  let victim :=
    (scan_min (fun kt => evict_tier t now kt.2) (fun kt => ti_trackedAt kt.2)
       ((zero_key, zero_tracked), 99, zero_time) (range 0 (incidents t))).1.1.1 in
  t <| incidents ::= delete victim |>.

Definition Track (now : Time) (inc : Incident) (t : RecoveryTracker) : RecoveryTracker :=
  let inc := inc <| inc_Key ::= canonical_key |> in
  let inc := if IsZero (inc_FirstSeen inc) then inc <| inc_FirstSeen := now |> else inc in
  let t :=
    if bool_decide (incidents t !! inc_Key inc = None)
       && (maxTrackedIncidents <=? Z.of_nat (size (incidents t)))
    then evictOneLocked now t else t in
  t <| incidents ::= <[inc_Key inc :=
    mkTracked inc stateSymptomatic zero_time zero_time zero_recovery now false]> |>.

(** [Len] *)
Definition Len (t : RecoveryTracker) : Z := Z.of_nat (size (incidents t)).

Definition Open (t : RecoveryTracker) (key : EventKey) : bool :=
  match incidents t !! canonical_key key with
  | Some ti => bool_decide (ti_state ti <> stateResolved)
  | None => false
  end.

Definition RequeueResolved (key : EventKey) (t : RecoveryTracker) : RecoveryTracker :=
  match incidents t !! canonical_key key with
  | Some ti =>
      if bool_decide (ti_state ti = stateResolved)
      then t <| incidents ::= <[canonical_key key := ti <| ti_state := stateClearing |>]> |>
      else t
  | None => t
  end.

Definition tick_entry (observers : list ClearanceObserver) (now : Time) (key : EventKey)
    (ti : trackedIncident) (st : RecoveryTracker * list Signal) : RecoveryTracker * list Signal :=
  let '(t, emits) := st in
  let '(ti', out) := tick_one t now (judge observers (ti_inc ti)) ti in
  (match ti' with
   | Some ti' => t <| incidents ::= <[key := ti']> |>
   | None => t <| incidents ::= delete key |>
   end, emits ++ out).

Definition Tick (observers : list ClearanceObserver) (now : Time) (t : RecoveryTracker)
  : RecoveryTracker * list Signal :=
  range_loop (tick_entry observers now) (range 0 (incidents t)) (t, []).

End tracker.

(** ** The documented state machine *)

Inductive lifecycle := Untracked | Symptomatic | Clearing | Resolved.

Inductive outcome := Silent | EmitResolved | EmitReverted.

Inductive life_step (judged cleared : bool) : lifecycle -> outcome -> lifecycle -> Prop :=
  | life_clear : judged = true -> cleared = true ->
      life_step judged cleared Symptomatic Silent Clearing
  | life_flap : judged = true -> cleared = false ->
      life_step judged cleared Clearing Silent Symptomatic
  | life_resolve : judged = true -> cleared = true ->
      life_step judged cleared Clearing EmitResolved Resolved
  | life_revert : judged = true -> cleared = false ->
      life_step judged cleared Resolved EmitReverted Symptomatic
  | life_final : judged = true -> life_step judged cleared Resolved Silent Untracked
  | life_uncovered s : judged = false -> life_step judged cleared s Silent Untracked
  | life_stay s : life_step judged cleared s Silent s.

Definition life_of (ti : option trackedIncident) : lifecycle :=
  match ti with
  | None => Untracked
  | Some ti => match ti_state ti with
               | stateSymptomatic => Symptomatic
               | stateClearing => Clearing
               | stateResolved => Resolved
               end
  end.

Definition outcome_of (out : list Signal) : option outcome :=
  match out with
  | [] => Some Silent
  | [s] => if sig_Kind s ==s KindResolved then Some EmitResolved
           else if sig_Kind s ==s KindResolvedReverted then Some EmitReverted else None
  | _ => None
  end.

(** The tracker implements the documented state machine. Every tick of every
    incident, whatever its record and the observers' answer, is one step of the
    lifecycle (symptomatic, clearing, resolved, untracked), with exactly the emission
    that step has: resolved only out of clearing, reverted only out of resolved, and
    nothing else ever emitted. *)
Theorem tick_refines_lifecycle (t : RecoveryTracker) (now : Time) (verdict : option Clearance)
    (ti : trackedIncident) :
  let '(ti', out) := tick_one t now verdict ti in
  let judged := match verdict with Some _ => true | None => false end in
  let cleared := match verdict with Some v => Cleared v | None => false end in
  exists o, outcome_of out = Some o /\ life_step judged cleared (life_of (Some ti)) o (life_of ti').
Proof.
  unfold tick_one. destruct verdict as [v|]; simpl.
  - destruct (Cleared v) eqn:Ec, (ti_state ti) eqn:Es; simpl; rewrite ?Es; simpl;
      repeat case_goal; rewrite ?Es; simpl;
      eexists; (split; [reflexivity|]); try rewrite Es; econstructor; done.
  - destruct (_ && _); eexists; (split; [reflexivity|]); [by apply life_uncovered|apply life_stay].
Qed.

(** ** Ticks act incident by incident *)

Definition tracker_cfg (t t' : RecoveryTracker) : Prop :=
  stableFor t' = stableFor t /\ revertWindow t' = revertWindow t /\ uncoveredTTL t' = uncoveredTTL t.

Lemma tick_one_cfg t t' now v ti : tracker_cfg t t' -> tick_one t' now v ti = tick_one t now v ti.
Proof. intros (Hs & Hr & Hu). unfold tick_one. by rewrite Hs, Hr, Hu. Qed.

Lemma tick_entry_spec observers now k ti t emits :
  let '(t', emits') := tick_entry observers now k ti (t, emits) in
  tracker_cfg t t' /\ emits' = emits ++ (tick_one t now (judge observers (ti_inc ti)) ti).2 /\
  incidents t' !! k = (tick_one t now (judge observers (ti_inc ti)) ti).1 /\
  forall k', k' <> k -> incidents t' !! k' = incidents t !! k'.
Proof.
  unfold tick_entry. destruct (tick_one _ _ _ _) as [[ti'|] out]; simpl; (split; [done|]); (split; [done|]).
  - rewrite lookup_insert_eq. split; [done|]. intros. by rewrite lookup_insert_ne.
  - rewrite lookup_delete_eq. split; [done|]. intros. by rewrite lookup_delete_ne.
Qed.

(** The loop over a list of entries: every listed incident is ticked once, the
    others are untouched, and the emissions are those of the list in order. *)
Lemma tick_loop observers now l t emits :
  NoDup l.*1 ->
  let '(t', emits') := range_loop (tick_entry observers now) l (t, emits) in
  tracker_cfg t t' /\
  emits' = emits ++ (l ≫= fun '(_, ti) => (tick_one t now (judge observers (ti_inc ti)) ti).2) /\
  (forall k, k ∉ l.*1 -> incidents t' !! k = incidents t !! k) /\
  (forall k ti, (k, ti) ∈ l -> incidents t' !! k = (tick_one t now (judge observers (ti_inc ti)) ti).1).
Proof.
  revert t emits; induction l as [|[k ti] l IH]; intros t emits Hnd; cbn [range_loop].
  { split; [done|]. split; [by rewrite app_nil_r|]. split; [done|]. intros; set_solver. }
  rewrite fmap_cons in Hnd. apply list.NoDup_cons in Hnd as [Hk Hnd]. simpl in Hk.
  pose proof (tick_entry_spec observers now k ti t emits) as He.
  destruct (tick_entry observers now k ti (t, emits)) as [t1 e1].
  destruct He as (Hc1 & -> & Hk1 & Ho1). specialize (IH t1 (emits ++ (tick_one t now (judge observers (ti_inc ti)) ti).2) Hnd).
  destruct (range_loop _ l _) as [t2 e2]. destruct IH as (Hc2 & -> & Hout & Hin).
  split; [unfold tracker_cfg in *; destruct_and!; repeat split; congruence|].
  split.
  { rewrite <- app_assoc. f_equal. simpl. f_equal. apply list_bind_ext; [|done].
    intros [k' ti']. by rewrite (tick_one_cfg t t1). }
  split.
  - intros k' Hni. rewrite fmap_cons in Hni. apply not_elem_of_cons in Hni as [? ?].
    rewrite Hout by done. by apply Ho1.
  - intros k' ti' [?|Hin']%elem_of_cons.
    + simplify_eq. by rewrite Hout.
    + rewrite (Hin k' ti') by done. by rewrite (tick_one_cfg t t1).
Qed.

Lemma Tick_spec `{RangeOrder} observers now t :
  let '(t', emits) := Tick observers now t in
  (forall k, incidents t' !! k =
     match incidents t !! k with
     | Some ti => (tick_one t now (judge observers (ti_inc ti)) ti).1
     | None => None
     end) /\
  emits = range 0 (incidents t) ≫= fun '(_, ti) => (tick_one t now (judge observers (ti_inc ti)) ti).2.
Proof.
  unfold Tick. pose proof (tick_loop observers now (range 0 (incidents t)) t [] (NoDup_fst_range _ _)) as Hl.
  destruct (range_loop _ _ _) as [t' emits]. destruct Hl as (_ & -> & Hout & Hin). split; [|done].
  intros k. destruct (incidents t !! k) as [ti|] eqn:E.
  - apply Hin. by apply elem_of_range.
  - rewrite Hout; [done|]. intros (kt & -> & Hkt)%list_elem_of_fmap. destruct kt as [k' ti].
    apply elem_of_range in Hkt. simpl in E. congruence.
Qed.

(** A tick treats every incident on its own. Whatever order the tracker's map is
    visited in, after a tick each incident is what its own record and its observers
    make of it, incidents that were not tracked stay untracked, and the emitted
    signals are, up to order, the union of what each incident emits. *)
Theorem tick_is_per_incident `{RangeOrder} (observers : list (Incident -> option Clearance)) (now : Time)
    (t : RecoveryTracker) :
  let '(t', emits) := Tick observers now t in
  (forall k, incidents t' !! k =
     match incidents t !! k with
     | Some ti => (tick_one t now (judge observers (ti_inc ti)) ti).1
     | None => None
     end) /\
  emits ≡ₚ (map_to_list (incidents t) ≫= fun '(_, ti) => (tick_one t now (judge observers (ti_inc ti)) ti).2).
Proof.
  pose proof (Tick_spec observers now t) as Ht. destruct (Tick observers now t) as [t' emits].
  destruct Ht as [Hl ->]. split; [done|]. by rewrite range_perm.
Qed.

(** ** The tracker is bounded *)

Definition tracker_ok (t : RecoveryTracker) : Prop :=
  Z.of_nat (size (incidents t)) <= maxTrackedIncidents.

Inductive tracker_op :=
  | OpTrack (now : Time) (inc : Incident)
  | OpRequeue (key : EventKey)
  | OpTick (observers : list ClearanceObserver) (now : Time).

Definition run_tracker_op `{RangeOrder} (op : tracker_op) (t : RecoveryTracker) : RecoveryTracker :=
  match op with
  | OpTrack now inc => Track now inc t
  | OpRequeue key => RequeueResolved key t
  | OpTick observers now => (Tick observers now t).1
  end.

Section bounded.
Context `{RangeOrder}.

Lemma evict_tier_lt t now ti : evict_tier t now ti < 99.
Proof. unfold evict_tier. repeat case_goal; lia. Qed.

Lemma evictOne_size now t :
  incidents t <> ∅ -> (size (incidents (evictOneLocked now t)) < size (incidents t))%nat.
Proof.
  intros Hne. unfold evictOneLocked.
  pose proof (scan_min_elem (fun kt => evict_tier t now kt.2) (fun kt => ti_trackedAt kt.2)
    (range 0 (incidents t)) (zero_key, zero_tracked) 99 zero_time (range_nonempty _ _ Hne)
    ltac:(intros [] _; apply evict_tier_lt)) as Hin.
  destruct (scan_min _ _ _ _) as [[[k ti] ?] ?]. simpl in *. apply elem_of_range in Hin.
  rewrite map_size_delete, Hin.
  assert (size (incidents t) <> 0%nat) by (intros H0; by apply map_size_empty_inv in H0). lia.
Qed.

Lemma Track_ok now inc t : tracker_ok t -> tracker_ok (Track now inc t).
Proof.
  unfold tracker_ok, Track. cbv zeta. set (inc' := if IsZero _ then _ else _). clearbody inc'. intros Hok.
  destruct (bool_decide _) eqn:Ek; btrue; cbn [andb].
  - destruct (Z.leb_spec maxTrackedIncidents (Z.of_nat (size (incidents t)))) as [Hf|Hf].
    + assert (incidents t <> ∅) as Hne.
      { intros Hem. rewrite Hem, map_size_empty in Hf. unfold maxTrackedIncidents in Hf. lia. }
      pose proof (evictOne_size now t Hne) as Hs. revert Hs. generalize (evictOneLocked now t).
      intros t1 Hs. simpl. rewrite map_size_insert. destruct (incidents t1 !! _); simpl; lia.
    + simpl. rewrite map_size_insert, Ek. lia.
  - simpl. rewrite map_size_insert. by destruct (incidents t !! _).
Qed.

Lemma Tick_size observers now t : (size (incidents (Tick observers now t).1) <= size (incidents t))%nat.
Proof.
  pose proof (Tick_spec observers now t) as Ht. destruct (Tick observers now t) as [t' out].
  destruct Ht as [Hl _]. simpl. rewrite <- !size_dom. apply subseteq_size. intros k.
  rewrite !elem_of_dom, Hl. destruct (incidents t !! k); [by eexists|by intros [? ?]].
Qed.
End bounded.

(** The tracker is bounded. Starting empty, after any sequence of tracking,
    requeueing and ticking, it holds at most 10,000 incidents: tracking a new one when
    it is full first drops one. *)
Theorem tracker_bounded `{RangeOrder} (stable : Duration) (ops : list tracker_op) :
  Len (fold_left (fun t op => run_tracker_op op t) ops (NewRecoveryTracker stable)) <= maxTrackedIncidents.
Proof.
  assert (forall ops t, tracker_ok t -> tracker_ok (fold_left (fun t op => run_tracker_op op t) ops t)) as Hrun.
  { clear. induction ops as [|op ops IH]; intros t Hok; simpl; [done|]. apply IH.
    destruct op as [now inc|key|obs now]; simpl.
    - by apply Track_ok.
    - unfold RequeueResolved, tracker_ok in *. destruct (incidents t !! _) eqn:E; [|done].
      destruct (bool_decide _); [|done]. simpl. by rewrite map_size_insert, E.
    - unfold tracker_ok in *. pose proof (Tick_size obs now t). lia. }
  apply Hrun. unfold tracker_ok. simpl. rewrite map_size_empty. vm_compute. congruence.
Qed.

(** ** A tracked incident over time *)

(** The ticks of one incident: their clocks and the verdicts. The list of emissions
    has one element per tick the incident was still tracked at. *)
Fixpoint tick_run (t : RecoveryTracker) (ti : trackedIncident) (h : list (Time * option Clearance))
  : option trackedIncident * list (list Signal) :=
  match h with
  | [] => (Some ti, [])
  | (now, v) :: h =>
      match tick_one t now v ti with
      | (Some ti, out) => let '(r, outs) := tick_run t ti h in (r, out :: outs)
      | (None, out) => (None, [out])
      end
  end.

(** What a verdict bounds the start of the clear streak by. *)
Definition observed_clear (now : Time) (v : Clearance) : Time := Z.min now (StableSince v).

(** A clear streak [h] from its first clear observation, with start [s]. *)
Definition streak (inc : Incident) (s : Time) (h : list (Time * option Clearance)) : Prop :=
  inc_FirstSeen inc <= s /\
  (exists n0 v0 h', h = (n0, Some v0) :: h' /\ (StableSince v0 = 0 -> n0 <= s)) /\
  forall n v, (n, Some v) ∈ h -> Cleared v = true /\ (StableSince v <> 0 -> observed_clear n v <= s).

Lemma stabilityStart_ge inc v now :
  inc_FirstSeen inc <= stabilityStart inc v now /\
  (StableSince v <> 0 -> observed_clear now v <= stabilityStart inc v now) /\
  (StableSince v = 0 -> now <= stabilityStart inc v now).
Proof.
  unfold stabilityStart, observed_clear, IsZero, After, Before, zero_time. cbv zeta.
  destruct (Z.eqb_spec (StableSince v) 0), (Z.ltb_spec now (StableSince v)); simpl;
    match goal with |- context [?a <? inc_FirstSeen inc] => destruct (Z.ltb_spec a (inc_FirstSeen inc)) end;
    repeat split; intros; lia.
Qed.

Lemma streak_more inc s s' h n v :
  streak inc s h -> s <= s' ->
  (forall c, v = Some c -> Cleared c = true /\ (StableSince c <> 0 -> observed_clear n c <= s')) ->
  streak inc s' (h ++ [(n, v)]).
Proof.
  intros (Hf & (n0 & v0 & h' & -> & Hz) & Hall) Hs Hv. split; [lia|]. split.
  - exists n0, v0, (h' ++ [(n, v)]). split; [done|]. intros Hz0. specialize (Hz Hz0). lia.
  - intros n1 v1 [Hin|Hin]%elem_of_app.
    + destruct (Hall _ _ Hin) as [? Hb]. split; [done|]. intros Hne. specialize (Hb Hne). lia.
    + apply list_elem_of_singleton in Hin. simplify_eq. by apply Hv.
Qed.

(** What the history since tracking began says of the record. *)
Definition record_ok (inc : Incident) (h : list (Time * option Clearance)) (ti : trackedIncident) : Prop :=
  ti_inc ti = inc /\
  (ti_state ti = stateClearing -> exists h1 h2, h = h1 ++ h2 /\ streak inc (ti_stabilityStart ti) h2).

Lemma tick_one_record t now v ti inc h :
  record_ok inc h ti ->
  match (tick_one t now v ti).1 with
  | Some ti' => record_ok inc (h ++ [(now, v)]) ti'
  | None => True
  end.
Proof.
  intros [Hinc Hc]. unfold tick_one. destruct v as [v|]; simpl.
  - destruct (ti_state ti) eqn:Es; simpl; rewrite ?Es.
    + destruct (Cleared v) eqn:Ec; simpl; [|split; [done|]; simpl; rewrite Es; done].
      split; [done|]. intros _. exists h, [(now, Some v)]. split; [done|]. simpl.
      pose proof (stabilityStart_ge (ti_inc ti) v now) as (Hf & Hn & Hz). rewrite Hinc in *.
      split; [done|]. split; [by exists now, v, []|].
      intros n1 v1 Hin%list_elem_of_singleton. simplify_eq. done.
    + destruct (Hc eq_refl) as (h1 & h2 & -> & Hst). destruct (Cleared v) eqn:Ec; simpl; [|done].
      pose proof (stabilityStart_ge (ti_inc ti) v now) as (Hf & Hn & Hz).
      set (ti2 := if negb (IsZero (StableSince v)) then _ else _).
      assert (ti_inc ti2 = inc /\ ti_state ti2 = stateClearing /\ ti_stabilityStart ti <= ti_stabilityStart ti2 /\
        (StableSince v <> 0 -> observed_clear now v <= ti_stabilityStart ti2)) as (Hi2 & Hs2 & Hle & Hb).
      { unfold ti2, IsZero, After, zero_time. destruct (Z.eqb_spec (StableSince v) 0); simpl.
        - repeat split; auto; [lia|done].
        - destruct (Z.ltb_spec (ti_stabilityStart ti) (stabilityStart (ti_inc ti) v now)); simpl;
            repeat split; auto; try lia; intros; specialize (Hn n); lia. }
      clearbody ti2. destruct (_ <=? _); [split; [done|done]|].
      split; [done|]. intros _. exists h1, (h2 ++ [(now, Some v)]). split; [by rewrite app_assoc|].
      eapply streak_more; [exact Hst|done|]. intros c Hcc. simplify_eq. done.
    + repeat case_goal; try done; (split; [done|]); simpl; rewrite ?Es; done.
  - destruct (_ && _); [done|]. split; [done|]. intros Hs. destruct (Hc Hs) as (h1 & h2 & -> & Hst).
    exists h1, (h2 ++ [(now, None)]). split; [by rewrite app_assoc|]. by eapply streak_more.
Qed.

(** The record [Track] starts an incident with. *)
Definition fresh (inc : Incident) (now : Time) : trackedIncident :=
  mkTracked inc stateSymptomatic zero_time zero_time zero_recovery now false.

Lemma tick_run_record t ti h ti' outs inc h0 :
  record_ok inc h0 ti -> tick_run t ti h = (Some ti', outs) -> record_ok inc (h0 ++ h) ti'.
Proof.
  revert ti outs h0; induction h as [|[now v] h IH]; intros ti outs h0 Hr; simpl.
  { intros; simplify_eq. by rewrite app_nil_r. }
  pose proof (tick_one_record t now v ti inc h0 Hr) as H1.
  destruct (tick_one t now v ti) as [[ti1|] out]; simpl in *; [|done].
  destruct (tick_run t ti1 h) as [r outs'] eqn:E. intros; simplify_eq.
  rewrite cons_middle, app_assoc. by eapply IH.
Qed.

(** A resolved signal leaves the clearing state, with the streak's start moved up to
    the last observation. *)
Lemma tick_one_resolves t now v ti s :
  s ∈ (tick_one t now v ti).2 -> sig_Kind s = KindResolved ->
  exists c start rec, v = Some c /\ Cleared c = true /\ ti_state ti = stateClearing /\
    s = resolvedSignal KindResolved (ti_inc ti) rec /\
    ti_stabilityStart ti <= start /\ (StableSince c <> 0 -> observed_clear now c <= start) /\
    stableFor t <= Sub now start /\ rec_Resolution rec = cl_Resolution c /\
    ObservedStableFor rec = Sub now start /\ ClearedAfter rec = Sub start (inc_FirstSeen (ti_inc ti)).
Proof.
  unfold tick_one. destruct v as [v|]; [|destruct (_ && _); simpl; by intros ?%elem_of_nil].
  cbv zeta. simpl. destruct (ti_state ti) eqn:Es.
  - destruct (Cleared v); simpl; by intros ?%elem_of_nil.
  - destruct (Cleared v) eqn:Ec; simpl; [|by intros ?%elem_of_nil].
    pose proof (stabilityStart_ge (ti_inc ti) v now) as (_ & Hn & _).
    set (ti2 := if negb (IsZero (StableSince v)) then _ else _).
    assert (ti_inc ti2 = ti_inc ti /\ ti_stabilityStart ti <= ti_stabilityStart ti2 /\
      (StableSince v <> 0 -> observed_clear now v <= ti_stabilityStart ti2)) as (Hi2 & Hle & Hb).
    { unfold ti2, IsZero, After, zero_time. destruct (Z.eqb_spec (StableSince v) 0); simpl.
      - repeat split; auto; [lia|done].
      - destruct (Z.ltb_spec (ti_stabilityStart ti) (stabilityStart (ti_inc ti) v now)); simpl;
          repeat split; auto; try lia; intros; specialize (Hn n); lia. }
    clearbody ti2. destruct (Z.leb_spec (stableFor t) (Sub now (ti_stabilityStart ti2))); simpl;
      [|by intros ?%elem_of_nil].
    intros ->%list_elem_of_singleton _. rewrite Hi2 in *.
    do 3 eexists. repeat split; eauto.
  - destruct (_ && _); simpl; [intros ->%list_elem_of_singleton; done|].
    destruct (_ <? _); simpl; by intros ?%elem_of_nil.
Qed.

(** C37: resolved means stable. When a tracked incident is declared resolved, the
    history of its ticks ends in an unbroken clear streak of at least one earlier
    clear observation. Every verdict of the streak was clear; every instant an observer
    dated the clearing at, and the incident's own start, lie at least the stability
    window back; where the streak's first verdict dated nothing, the tick that observed
    it does too (where it did date the clearing, the window counts from that date, and
    the tick may be younger than the window); and the signal carries the incident's
    fingerprint and key. *)
Theorem resolved_means_stable (t : RecoveryTracker) (inc : Incident) (now0 now : Time)
    (h : list (Time * option Clearance)) (ti : trackedIncident) (outs : list (list Signal))
    (v : option Clearance) (s : Signal)
    (Hst : 0 < stableFor t)
    (Hrun : tick_run t (fresh inc now0) h = (Some ti, outs))
    (Hemit : s ∈ (tick_one t now v ti).2) (Hkind : sig_Kind s = KindResolved) :
  exists h1 n0 v0 h2, h = h1 ++ (n0, Some v0) :: h2 /\
    (forall n c, (n, Some c) ∈ (n0, Some v0) :: h2 ++ [(now, v)] ->
       Cleared c = true /\ (StableSince c <> 0 -> observed_clear n c + stableFor t <= now)) /\
    (StableSince v0 = 0 -> n0 + stableFor t <= now) /\
    inc_FirstSeen inc + stableFor t <= now /\
    sig_Fingerprint s = ir_Fingerprint (inc_Ref inc) /\ te_Key (sig_Event s) = inc_Key inc.
Proof.
  assert (record_ok inc [] (fresh inc now0)) as H0 by (by split).
  pose proof (tick_run_record _ _ _ _ _ _ _ H0 Hrun) as [Hinc Hc]. simpl in Hc.
  destruct (tick_one_resolves _ _ _ _ _ Hemit Hkind)
    as (c & start & rec & -> & Hcl & Hs & -> & Hle & Hb & Hstable & _).
  destruct (Hc Hs) as (h1 & h2 & -> & Hstreak).
  assert (streak inc start (h2 ++ [(now, Some c)])) as (Hf & (n0 & v0 & h' & Heq & Hz) & Hall).
  { eapply streak_more; [exact Hstreak|done|]. intros ? ?. by simplify_eq. }
  assert (start + stableFor t <= now) as Hstart by (revert Hstable; unfold_time; lia).
  destruct h2 as [|x h2]; [destruct Hstreak as (_ & (? & ? & ? & [=] & _) & _)|].
  simpl in Heq. simplify_eq. exists h1, n0, v0, h2. split; [done|].
  split; [|repeat split; [intros Hz0; specialize (Hz Hz0); lia|lia|simpl; congruence..]].
  intros n c' Hin. destruct (Hall n c' Hin) as [? Hn]. split; [done|]. intros Hne. specialize (Hn Hne). lia.
Qed.

(** A pod ready since two minutes after its incident, under a five-minute window. *)
Definition demo_incident : Incident := mkIncident (mkEventKey "u" "CrashLoopBackOff") "s" Hour zero_ref.
Definition ready_since : Clearance := mkClearance true (Hour + 2 * Minute) ResolutionRecovered.
Definition demo_tracker : RecoveryTracker := NewRecoveryTracker (5 * Minute).

Lemma resolved_means_stable_witness :
  exists h1 n0 v0 h2, [(Hour + 6 * Minute, Some ready_since)] = h1 ++ (n0, Some v0) :: h2 /\
    (StableSince v0 = 0 -> n0 + 5 * Minute <= Hour + 8 * Minute).
Proof.
  destruct (tick_run demo_tracker (fresh demo_incident Hour) [(Hour + 6 * Minute, Some ready_since)])
    as [[ti|] outs] eqn:E; [|exfalso; vm_compute in E; discriminate].
  destruct (resolved_means_stable demo_tracker demo_incident Hour (Hour + 8 * Minute)
    [(Hour + 6 * Minute, Some ready_since)] ti outs (Some ready_since)
    (resolvedSignal KindResolved demo_incident
       (mkRecovery (2 * Minute) (6 * Minute) ResolutionRecovered (Hour + 8 * Minute) 0)))
    as (h1 & n0 & v0 & h2 & Heq & _ & Hz & _).
  - reflexivity.
  - exact E.
  - vm_compute in E. simplify_eq. apply list_elem_of_singleton. vm_compute. reflexivity.
  - reflexivity.
  - exists h1, n0, v0, h2. split; [exact Heq|exact Hz].
Defined.

(** ** A clear incident resolves *)

Definition emits_resolved (outs : list (list Signal)) : Prop :=
  exists out s, out ∈ outs /\ s ∈ out /\ sig_Kind s = KindResolved.

Lemma clearing_resolves t ti h n2 v2 B r outs :
  ti_state ti = stateClearing -> ti_stabilityStart ti <= B ->
  Forall (fun '(n, v) => forall c, v = Some c -> Cleared c = true /\
    (StableSince c <> 0 -> stabilityStart (ti_inc ti) c n <= B)) h ->
  Cleared v2 = true -> (StableSince v2 <> 0 -> stabilityStart (ti_inc ti) v2 n2 <= B) ->
  stableFor t <= Sub n2 B -> ti_judged ti = true ->
  tick_run t ti (h ++ [(n2, Some v2)]) = (r, outs) -> emits_resolved outs.
Proof.
  assert (forall ti c n, ti_state ti = stateClearing -> ti_stabilityStart ti <= B -> Cleared c = true ->
    (StableSince c <> 0 -> stabilityStart (ti_inc ti) c n <= B) ->
    match tick_one t n (Some c) ti with
    | (Some ti', out) => (ti_state ti' = stateClearing /\ ti_stabilityStart ti' <= B /\
        ti_inc ti' = ti_inc ti /\ ti_judged ti' = true /\ Sub n B < stableFor t) \/
        (exists s, s ∈ out /\ sig_Kind s = KindResolved)
    | (None, _) => False
    end) as Hone.
  { clear. intros ti c n Hs Hb Hc Hst. unfold tick_one. cbv zeta. simpl. rewrite Hs, Hc. simpl.
    set (ti2 := if negb (IsZero (StableSince c)) then _ else _).
    assert (ti_inc ti2 = ti_inc ti /\ ti_state ti2 = stateClearing /\ ti_stabilityStart ti2 <= B /\
      ti_judged ti2 = true) as (Hi2 & Hs2 & Hb2 & Hj2).
    { unfold ti2, IsZero, After, zero_time. destruct (Z.eqb_spec (StableSince c) 0); simpl; [done|].
      destruct (_ <? _); simpl; auto. }
    clearbody ti2. destruct (Z.leb_spec (stableFor t) (Sub n (ti_stabilityStart ti2))) as [Hle|Hlt].
    - right. eexists. split; [by apply list_elem_of_singleton|done].
    - left. repeat split; auto. pose proof (Sub_anti n _ _ Hb2). lia. }
  intros Hs Hb Hall Hc2 Hst2 Hlong Hj. revert ti r outs Hs Hb Hall Hst2 Hj.
  induction h as [|[n v] h IH]; intros ti r outs Hs Hb Hall Hst2 Hj; cbn [app tick_run].
  - pose proof (Hone ti v2 n2 Hs Hb Hc2 Hst2) as H1.
    destruct (tick_one t n2 (Some v2) ti) as [[ti'|] out]; [|done].
    intros; simplify_eq. destruct H1 as [?|(s & Hin & Hk)]; [lia|]. exists out, s. split; [|done]. set_solver.
  - apply Forall_cons_iff in Hall as [Hv Hall]. destruct v as [c|].
    + destruct (Hv c eq_refl) as [Hcc Hstc]. pose proof (Hone ti c n Hs Hb Hcc Hstc) as H1.
      destruct (tick_one t n (Some c) ti) as [[ti'|] out]; [|done].
      destruct (tick_run t ti' _) as [r' outs'] eqn:E. intros; simplify_eq.
      destruct H1 as [(? & ? & Hi & ? & _)|(s & Hin & Hk)].
      * destruct (IH ti' r outs') as (o & s & ? & ? & ?); rewrite ?Hi; auto. exists o, s. set_solver.
      * exists out, s. split; [set_solver|done].
    + unfold tick_one at 1. rewrite Hj. cbn [negb andb].
      destruct (tick_run t ti _) as [r' outs'] eqn:E. intros; simplify_eq.
      destruct (IH ti r outs') as (o & s & ? & ? & ?); auto. exists o, s. set_solver.
Qed.

(** A clear incident resolves. From a symptomatic incident, once a tick sees it
    clear and every later verdict is clear and dates the clearing no later than [B]
    (or dates nothing: an observer with no timestamp to give never holds the window
    open), the resolved signal has been emitted by any tick the stability window
    after [B]. Ticks no observer can judge do not matter. *)
Theorem clear_incident_resolves (t : RecoveryTracker) (ti : trackedIncident) (n1 n2 B : Time)
    (v1 v2 : Clearance) (h : list (Time * option Clearance))
    (Hs : ti_state ti = stateSymptomatic)
    (Hc1 : Cleared v1 = true) (HB1 : stabilityStart (ti_inc ti) v1 n1 <= B)
    (Hall : Forall (fun '(n, v) => forall c, v = Some c -> Cleared c = true /\
       (StableSince c <> 0 -> stabilityStart (ti_inc ti) c n <= B)) h)
    (Hc2 : Cleared v2 = true) (HB2 : StableSince v2 <> 0 -> stabilityStart (ti_inc ti) v2 n2 <= B)
    (Hlong : stableFor t <= Sub n2 B) :
  emits_resolved (tick_run t ti ((n1, Some v1) :: h ++ [(n2, Some v2)])).2.
Proof.
  cbn [tick_run]. unfold tick_one. simpl. rewrite Hs, Hc1.
  destruct (tick_run t _ (h ++ _)) as [r outs] eqn:E.
  apply (clearing_resolves _ _ _ _ _ B) in E as (o & s & ? & ? & ?); [|done..].
  exists o, s. split; [|done]. simpl. set_solver.
Qed.

(** A deleted object: no timestamp to give, at every tick. *)
Definition object_gone : Clearance := mkClearance true 0 ResolutionObjectDeleted.

Lemma clear_incident_resolves_witness :
  emits_resolved (tick_run demo_tracker (fresh demo_incident Hour)
    [(2 * Hour, Some object_gone); (2 * Hour + 3 * Minute, Some object_gone);
     (2 * Hour + 5 * Minute, Some object_gone)]).2.
Proof.
  refine (clear_incident_resolves demo_tracker (fresh demo_incident Hour) (2 * Hour)
    (2 * Hour + 5 * Minute) (2 * Hour) object_gone object_gone
    [(2 * Hour + 3 * Minute, Some object_gone)] eq_refl eq_refl _ _ eq_refl _ _).
  - vm_compute. congruence.
  - constructor; [|constructor]. intros c [= <-]. split; [reflexivity|]. intros Hne. by destruct Hne.
  - intros Hne. by destruct Hne.
  - vm_compute. congruence.
Defined.

(** A fix that did not stick is reported once, in time. A reverted signal is
    emitted only for an incident that was resolved, on a verdict that the symptom is
    back, no later than the revert window after the resolution; it carries the
    resolution's record, and the incident is open again. *)
Theorem reverted_within_window (t : RecoveryTracker) (now : Time) (v : option Clearance)
    (ti : trackedIncident) (s : Signal)
    (Hemit : s ∈ (tick_one t now v ti).2) (Hkind : sig_Kind s = KindResolvedReverted) :
  exists c, v = Some c /\ Cleared c = false /\ ti_state ti = stateResolved /\
    Sub now (ti_resolvedAt ti) <= revertWindow t /\
    sig_Recovery s = Some ((ti_recovery ti) <| RevertedAfter := Sub now (ti_resolvedAt ti) |>) /\
    sig_Fingerprint s = ir_Fingerprint (inc_Ref (ti_inc ti)) /\
    ti_state <$> (tick_one t now v ti).1 = Some stateSymptomatic.
Proof.
  revert Hemit. unfold tick_one. destruct v as [v|]; [|destruct (_ && _); simpl; by intros ?%elem_of_nil].
  cbv zeta. simpl. destruct (ti_state ti) eqn:Es; simpl.
  - destruct (Cleared v); simpl; by intros ?%elem_of_nil.
  - destruct (Cleared v); simpl; [|by intros ?%elem_of_nil].
    destruct (_ <=? _); simpl; [intros ->%list_elem_of_singleton; done|by intros ?%elem_of_nil].
  - destruct (Cleared v) eqn:Ec; simpl; [destruct (_ <? _); simpl; by intros ?%elem_of_nil|].
    destruct (Z.leb_spec (Sub now (ti_resolvedAt ti)) (revertWindow t)); simpl;
      [|destruct (_ <? _); simpl; by intros ?%elem_of_nil].
    intros ->%list_elem_of_singleton. exists v. repeat split; auto.
Qed.

Definition resolved_ti : trackedIncident :=
  (fresh demo_incident Hour) <| ti_state := stateResolved |> <| ti_resolvedAt := 2 * Hour |>.
Definition symptom_back : Clearance := mkClearance false 0 "".

Lemma reverted_within_window_witness :
  Sub (2 * Hour + 4 * Minute) (ti_resolvedAt resolved_ti) <= revertWindow demo_tracker.
Proof.
  destruct (reverted_within_window demo_tracker (2 * Hour + 4 * Minute) (Some symptom_back) resolved_ti
    (resolvedSignal KindResolvedReverted demo_incident
      (zero_recovery <| RevertedAfter := 4 * Minute |>))) as (c & _ & _ & _ & Hle & _);
    [apply list_elem_of_singleton; vm_compute; reflexivity|reflexivity|exact Hle].
Defined.

(** The clear streak may begin before the tracker saw it. The record's comment
    dates the streak from the later of the first clear observation and the
    observer's StableSince; the code takes an observed StableSince as it is, so an
    incident first seen clear at one tick can be resolved at the very next one, by
    time that passed before the tracker had observed any clearance. *)
Theorem streak_may_predate_observation (t : RecoveryTracker) (ti : trackedIncident) (n1 n2 : Time)
    (v1 v2 : Clearance)
    (Hs : ti_state ti = stateSymptomatic) (Hc1 : Cleared v1 = true)
    (Hss : inc_FirstSeen (ti_inc ti) <= StableSince v1 <= n1) (Hpos : 0 < StableSince v1)
    (Hc2 : Cleared v2 = true) (Hz2 : StableSince v2 = 0)
    (Hlong : stableFor t <= Sub n2 (StableSince v1)) :
  (ti_stabilityStart <$> (tick_one t n1 (Some v1) ti).1) = Some (StableSince v1) /\
  emits_resolved (tick_run t ti [(n1, Some v1); (n2, Some v2)]).2.
Proof.
  assert (stabilityStart (ti_inc ti) v1 n1 = StableSince v1) as Hst.
  { unfold stabilityStart, IsZero, After, Before, zero_time. cbv zeta.
    destruct (Z.eqb_spec (StableSince v1) 0); [lia|]. destruct (Z.ltb_spec n1 (StableSince v1)); [lia|].
    simpl. destruct (Z.ltb_spec (StableSince v1) (inc_FirstSeen (ti_inc ti))); [lia|done]. }
  cbn [tick_run]. unfold tick_one. simpl. rewrite Hs, Hc1. simpl. rewrite Hst. split; [done|].
  rewrite Hc2. simpl. unfold IsZero, zero_time. rewrite Hz2. simpl.
  rewrite (proj2 (Z.leb_le _ _) Hlong). unfold emits_resolved. cbn [snd]. do 2 eexists.
  split; [apply elem_of_cons; right; apply list_elem_of_singleton; reflexivity|].
  split; [apply list_elem_of_singleton; reflexivity|done].
Qed.

Lemma streak_may_predate_observation_witness :
  emits_resolved (tick_run demo_tracker (fresh demo_incident Hour)
    [(2 * Hour, Some ready_since); (2 * Hour + Second, Some object_gone)]).2.
Proof.
  refine (proj2 (streak_may_predate_observation demo_tracker (fresh demo_incident Hour) (2 * Hour)
    (2 * Hour + Second) ready_since object_gone eq_refl eq_refl _ eq_refl eq_refl eq_refl _)).
  - split; vm_compute; congruence.
  - vm_compute. congruence.
Defined.
