(* ===== verification/Storm.v ===== *)
(** Storm correlation (src/pkg/engine/storm.go) with its two signal-derived key
    tiers (src/pkg/engine/external.go, mined.go): many incidents that share a
    blast-radius key become one storm.

    The correlator is a value; the topology index and the fleet-size callback are the
    sentinel's other components, and their answers of the moment are the argument
    [env]. The clock is the argument [now]. *)
From S2P Require Import Prelude GoTime GoStrings GoHash Signal PullFailure.
From Stdlib Require Import Ascii.

(** ** Blast-radius keys *)

Record ObjectRef := mkObjectRef { or_Kind : string; or_Namespace : string; or_Name : string }.
Record Ancestor := mkAncestor { an_Kind : string; an_Namespace : string; an_Name : string }.

#[global] Instance Ancestor_eq_dec : EqDecision Ancestor.
Proof. solve_decision. Defined.

(** [Ancestor.Key] *)
Definition Ancestor_Key (a : Ancestor) : string :=
  an_Kind a +:+ "/" +:+ an_Namespace a +:+ "/" +:+ an_Name a.

(** [Ancestor.Display] *)
Definition Ancestor_Display (a : Ancestor) : string :=
  if an_Namespace a ==s "" then an_Kind a +:+ " " +:+ an_Name a
  else an_Kind a +:+ " " +:+ an_Namespace a +:+ "/" +:+ an_Name a.

Record ExternalAncestor := mkExternal { ea_Name : string; ea_Extract : Signal -> option Ancestor }.

Definition KeySourceTopology : string := "topology".
Definition KeySourceRegistry : string := "registry-host".
Definition KeySourceSimultaneity : string := "simultaneity".
Definition AncestorKindRegistry : string := "Registry".
Definition ClusterAncestorKind : string := "Cluster".
Definition unnamedCluster : string := "unnamed".

Definition registryAncestor (sig : Signal) : option Ancestor :=
  if negb (bool_decide (sig_PullClass sig = PullClassRetryable)) then None
  else
    let host := RegistryHost (te_Message (sig_Event sig)) in
    if host ==s "" then None else Some (mkAncestor AncestorKindRegistry "" host).

Definition DefaultExternalAncestors : list ExternalAncestor :=
  [mkExternal KeySourceRegistry registryAncestor].

(** The candidates of the extractors, each with its extractor's name. *)
Fixpoint externalKeys (extractors : list ExternalAncestor) (sig : Signal) : list (Ancestor * string) :=
  match extractors with
  | [] => []
  | e :: rest =>
      match ea_Extract e sig with
      | None => externalKeys rest sig
      | Some a => (a, ea_Name e) :: externalKeys rest sig
      end
  end.

(** ** Discovered keys *)

(** [md_Value] is [None] where the Go field is a nil function. *)
Record MinedDimension := mkDimension {
  md_Name : string;
  md_Kind : string;
  md_Value : option (Signal -> string)
}.

Definition DefaultMinedMin : Z := 5.

Definition DefaultMinedDimensions : list MinedDimension :=
  [ mkDimension "image" "Image" (Some (fun sig =>
      match quotedImageRef (te_Message (sig_Event sig)) with Some ref => ref | None => "" end));
    mkDimension "node" "Node" (Some (fun sig => te_Node (sig_Event sig)));
    mkDimension "container" "Container" (Some (fun sig => te_Container (sig_Event sig))) ].

Inductive mined_error :=
  | NameRequired (i : nat)
  | KindRequired (name : string)
  | ValueRequired (name : string)
  | DuplicateName (name : string).

Fixpoint validate_from (i : nat) (seen : gset string) (dims : list MinedDimension) : option mined_error :=
  match dims with
  | [] => None
  | d :: rest =>
      if md_Name d ==s "" then Some (NameRequired i)
      else if md_Kind d ==s "" then Some (KindRequired (md_Name d))
      else if match md_Value d with None => true | Some _ => false end then Some (ValueRequired (md_Name d))
      else if bool_decide (md_Name d ∈ seen) then Some (DuplicateName (md_Name d))
      else validate_from (S i) ({[md_Name d]} ∪ seen) rest
  end.

Definition ValidateMinedDimensions (dims : list MinedDimension) : option mined_error :=
  validate_from 0 ∅ dims.

Definition MinedKeySource (dimension : string) : string := "mined:" +:+ dimension.

(** [d.Value(sig)]; calling a nil function panics, which validation excludes. *)
Definition dim_value (d : MinedDimension) (sig : Signal) : string :=
  match md_Value d with Some f => f sig | None => "" end.

Definition minedValues (dims : list MinedDimension) (sig : Signal) : gmap string string :=
  fold_left (fun (out : gmap string string) d =>
    let v := dim_value d sig in if v <>s "" then <[md_Name d := v]> out else out) dims ∅.

Definition minedAncestors (dims : list MinedDimension) (vals : gmap string string) : list Ancestor :=
  omap (fun d =>
    match vals !! md_Name d with
    | Some v => if v <>s "" then Some (mkAncestor (md_Kind d) "" v) else None
    | None => None
    end) dims.

(** ** State *)

Record StormMember := mkStormMember {
  sm_Key : EventKey;
  sm_Fingerprint : string;
  sm_Namespace : string;
  sm_KindOfObject : string;
  sm_Name : string;
  sm_Reason : string;
  sm_ReasonClass : string;
  sm_SessionID : string;
  sm_FirstSeen : Time
}.

Record StormInfo := mkStormInfo {
  si_ID : string;
  si_Ancestor : Ancestor;
  si_Fingerprint : string;
  si_Reason : string;
  si_Severity : Severity;
  si_SessionID : string;
  si_KeySource : string;
  si_AffectedCount : Z;
  si_NamespaceCount : Z;
  si_FirstSeen : Time;
  si_LastSeen : Time;
  si_Representatives : list StormMember;
  si_MemberFingerprints : list string
}.

Record StormSizeUpdate := mkSizeUpdate {
  su_AffectedCount : Z;
  su_NamespaceCount : Z;
  su_NewSinceLast : Z
}.

Inductive StormVerdict :=
  | StormNone
  | StormFormed (storm : StormInfo) (members : list StormMember) (member : StormMember)
  | StormAttached (storm : StormInfo) (member : StormMember) (update : option StormSizeUpdate).

Definition DefaultStormWindow : Duration := 60 * Second.
Definition DefaultStormMin : Z := 3.
Definition stormRepresentatives : nat := 3.
Definition stormEscalateSize : Z := 10.
Definition stormUpdateGrowth : Z := 10.
Definition stormUpdateMinInterval : Duration := Minute.
Definition stormIdleTTL : Duration := 30 * Minute.
Definition simultaneityWindow : Duration := 20 * Second.
Definition simultaneityIdleTTL : Duration := 5 * Minute.
Definition simultaneityMinMembers : Z := 3.
Definition maxStormMembers : nat := 1000.

Record pendingIncident := mkPending {
  pi_at : Time;
  pi_member : StormMember;
  pi_severity : Severity;
  pi_zone : string;
  pi_seen : Time;
  pi_mined : gmap string string;
  pi_keys : gmap string Ancestor;
  pi_source : gmap string string;
  pi_order : list string
}.

Record stormState := mkStorm {
  st_id : string;
  st_ancestor : Ancestor;
  st_fingerprint : string;
  st_reason : string;
  st_keySource : string;
  st_sessionID : string;
  st_maxSeverity : Severity;
  st_firstSeen : Time;
  st_lastSeen : Time;
  st_lastActive : Time;
  st_members : list StormMember;
  st_memberCount : Z;
  st_namespaces : gset string;
  st_fingerprints : list string;
  st_resolved : gmap EventKey bool;
  st_unresolved : Z;
  st_idleTTL : Duration;
  st_reportedCount : Z;
  st_reportedAt : Time
}.

Record StormCorrelator := mkCorrelator {
  sc_window : Duration;
  sc_min : Z;
  sc_external : list ExternalAncestor;
  sc_mined : list MinedDimension;
  sc_minedMin : Z;
  sc_fallback : bool; (** [fleetSize] is installed *)
  sc_pending : list pendingIncident;
  sc_storms : gmap string stormState;
  sc_byKey : gmap EventKey string
}.

(** What the topology index and the fleet-size callback answer during one call. *)
Record storm_env := mkEnv { env_resolver : ObjectRef -> list Ancestor; env_fleet : Z }.

(** [resolver == nil] is the [false]. *)
Definition NewStormCorrelator (window : Duration) (min : Z) (resolver : bool) : string + StormCorrelator :=
  if window <=? 0 then inl "storm: window must be > 0"
  else if min <? 2 then inl "storm: min must be >= 2"
  else if negb resolver then inl "storm: resolver is required"
  else inr (mkCorrelator window min DefaultExternalAncestors [] 0 false [] ∅ ∅).

Definition EnableMining (dims : list MinedDimension) (min : Z) (c : StormCorrelator)
  : string + StormCorrelator :=
  match dims with
  | [] => inl "storm: mining needs at least one dimension"
  | _ =>
      match ValidateMinedDimensions dims with
      | Some _ => inl "storm: mined dimension"
      | None =>
          if min <? sc_min c then inl "storm: mined min must be >= --storm-min"
          else inr (c <| sc_mined := dims |> <| sc_minedMin := min |>)
      end
  end.

(** [fleetSize == nil] is the [false]. *)
Definition EnableClusterFallback (fleetSize : bool) (c : StormCorrelator) : string + StormCorrelator :=
  if fleetSize then inr (c <| sc_fallback := true |>)
  else inl "storm: cluster fallback needs a fleet-size function".

(** ** One storm *)

Definition severityRank (s : Severity) : Z :=
  if s ==s SeverityCritical then 2 else if s ==s SeverityWarning then 1 else 0.

Definition recordMember (m : StormMember) (st : stormState) : stormState :=
  let st := st <| st_memberCount ::= Z.succ |> in
  let st := if sm_Namespace m <>s "" then st <| st_namespaces ::= union {[sm_Namespace m]} |> else st in
  if (length (st_members st) <? maxStormMembers)%nat
  then st <| st_members ::= fun l => l ++ [m] |>
          <| st_fingerprints ::= fun l => l ++ [sm_Fingerprint m] |>
  else st.

Definition raise_severity (sev : Severity) (st : stormState) : stormState :=
  if severityRank (st_maxSeverity st) <? severityRank sev then st <| st_maxSeverity := sev |> else st.

Definition see (seen : Time) (st : stormState) : stormState :=
  if After seen (st_lastSeen st) then st <| st_lastSeen := seen |> else st.

Definition arm (k : EventKey) (st : stormState) : stormState :=
  st <| st_resolved ::= <[k := false]> |> <| st_unresolved ::= Z.succ |>.

Definition addMember (m : StormMember) (sev : Severity) (seen now : Time) (st : stormState) : stormState :=
  let st := see seen st in
  let st := st <| st_lastActive := now |> in
  let st := raise_severity sev st in
  match (st_resolved st !! sm_Key m : option bool) with
  | Some cleared => if cleared then arm (sm_Key m) st else st
  | None => arm (sm_Key m) (recordMember m st)
  end.

Definition maybeSizeUpdate (now : Time) (st : stormState) : stormState * option StormSizeUpdate :=
  let count := st_memberCount st in
  let grew := count - st_reportedCount st in
  if (count <? 2 * st_reportedCount st) && (count <? st_reportedCount st + stormUpdateGrowth)
  then (st, None)
  else if Sub now (st_reportedAt st) <? stormUpdateMinInterval then (st, None)
  else (st <| st_reportedCount := count |> <| st_reportedAt := now |>,
        Some (mkSizeUpdate count (Z.of_nat (size (st_namespaces st))) grew)).

(** [stormState.info] *)
Definition storm_info (st : stormState) : StormInfo := {|
  si_ID := st_id st;
  si_Ancestor := st_ancestor st;
  si_Fingerprint := st_fingerprint st;
  si_Reason := st_reason st;
  si_Severity := if (st_maxSeverity st ==s SeverityWarning) && (stormEscalateSize <=? st_memberCount st)
                 then SeverityCritical else st_maxSeverity st;
  si_SessionID := st_sessionID st;
  si_KeySource := st_keySource st;
  si_AffectedCount := st_memberCount st;
  si_NamespaceCount := Z.of_nat (size (st_namespaces st));
  si_FirstSeen := st_firstSeen st;
  si_LastSeen := st_lastSeen st;
  si_Representatives := take stormRepresentatives (st_members st);
  si_MemberFingerprints := st_fingerprints st |}.

(** ** The correlator *)

Section correlator.
Context `{RangeOrder}.

(** [close]: the storm and every member index entry it owns. *)
Definition close (id : string) (c : StormCorrelator) : StormCorrelator :=
  c <| sc_byKey ::= filter (fun '(_, owner) => owner <> id) |> <| sc_storms ::= delete id |>.

Definition prune_storm (now : Time) (id : string) (st : stormState) (c : StormCorrelator) : StormCorrelator :=
  let ttl := if st_idleTTL st <=? 0 then stormIdleTTL else st_idleTTL st in
  if ttl <? Sub now (st_lastActive st) then close id c else c.

Definition prune (now : Time) (c : StormCorrelator) : StormCorrelator :=
  let cutoff := Add now (- sc_window c) in
  let c := c <| sc_pending ::= filter (fun q => After (pi_at q) cutoff = true) |> in
  range_loop (prune_storm now) (range 0 (sc_storms c)) c.

Definition clusterCandidate (c : StormCorrelator) (sig : Signal) (cands : list Ancestor) : option Ancestor :=
  if negb (sc_fallback c) || (te_KindOfObject (sig_Event sig) <>s "Node") then None
  else if existsb (fun a => an_Kind a <>s "Node") cands then None
  else Some (mkAncestor ClusterAncestorKind ""
               (if sig_Cluster sig ==s "" then unnamedCluster else sig_Cluster sig)).

(** [int(math.Ceil(float64(fleet) * simultaneityFleetFraction))] *)
Definition fleet_share (fleet : Z) : option Z := int_ceil (f64_mul (f64_of_Z fleet) f64_0_20).

Definition simultaneityMin (c : StormCorrelator) (env : storm_env) : option Z :=
  if negb (sc_fallback c) then None
  else if env_fleet env <=? 0 then None
  else match fleet_share (env_fleet env) with
       | Some share => Some (Z.max (Z.max (sc_min c) simultaneityMinMembers) share)
       | None => None
       end.

Definition zero_member : StormMember := mkStormMember zero_key "" "" "" "" "" "" "" zero_time.
Definition zero_pending : pendingIncident :=
  mkPending zero_time zero_member "" "" zero_time ∅ ∅ ∅ [].

(** The body of [form]'s loop over the group, on the new storm. *)
Definition form_member (st : stormState) (q : pendingIncident) : stormState :=
  let st := recordMember (pi_member q) st in
  let st := arm (sm_Key (pi_member q)) st in
  let st := raise_severity (pi_severity q) st in
  let st := if Before (sm_FirstSeen (pi_member q)) (st_firstSeen st)
            then st <| st_firstSeen := sm_FirstSeen (pi_member q) |> else st in
  see (pi_seen q) st.

(** [form]; the callers pass a group of at least [min] >= 2 incidents, so [group[0]]
    exists. *)
Definition form (ancestor : Ancestor) (keySource : string) (group : list pendingIncident) (now : Time)
    (c : StormCorrelator) : StormCorrelator * stormState :=
  let first := hd zero_pending group in
  let idleTTL := if keySource ==s KeySourceSimultaneity then simultaneityIdleTTL else stormIdleTTL in
  let st := {|
    st_id := Ancestor_Key ancestor;
    st_ancestor := ancestor;
    st_fingerprint := Fingerprint KindStorm (Reason (sm_Key (pi_member first))) (an_Kind ancestor)
                        (pi_zone first);
    st_reason := Reason (sm_Key (pi_member first));
    st_keySource := keySource;
    st_sessionID := "";
    st_maxSeverity := SeverityInfo;
    st_firstSeen := sm_FirstSeen (pi_member first);
    st_lastSeen := pi_seen first;
    st_lastActive := now;
    st_members := [];
    st_memberCount := 0;
    st_namespaces := ∅;
    st_fingerprints := [];
    st_resolved := ∅;
    st_unresolved := 0;
    st_idleTTL := idleTTL;
    st_reportedCount := 0;
    st_reportedAt := zero_time |} in
  let st := fold_left form_member group st in
  let inGroup := (fun q => sm_Key (pi_member q)) <$> group in
  let byKey := fold_left (fun (m : gmap EventKey string) k => <[k := st_id st]> m) inGroup (sc_byKey c) in
  let st := st <| st_reportedCount := st_memberCount st |> <| st_reportedAt := now |> in
  (c <| sc_byKey := byKey |>
     <| sc_pending ::= filter (fun q => sm_Key (pi_member q) ∉ inGroup) |>
     <| sc_storms ::= <[st_id st := st]> |>, st).

Definition mined_group (c : StormCorrelator) (name v : string) : list pendingIncident :=
  filter (fun q => pi_mined q !! name = Some v) (sc_pending c).

(** [mineKey] over the dimensions still to try. *)
Fixpoint mine_dims (c : StormCorrelator) (dims : list MinedDimension) (p : pendingIncident)
  : option (Ancestor * string * list pendingIncident) :=
  match dims with
  | [] => None
  | d :: rest =>
      match pi_mined p !! md_Name d with
      | None => mine_dims c rest p
      | Some v =>
          if v ==s "" then mine_dims c rest p
          else
            let group := mined_group c (md_Name d) v in
            if Z.of_nat (length group) <? sc_minedMin c then mine_dims c rest p
            else Some (mkAncestor (md_Kind d) "" v, md_Name d, group)
      end
  end.

Definition mineKey (c : StormCorrelator) (p : pendingIncident)
  : option (Ancestor * string * list pendingIncident) := mine_dims c (sc_mined c) p.

(** The declared candidates of a signal with their sources, best first. *)
Definition candidates (c : StormCorrelator) (env : storm_env) (sig : Signal) : list (Ancestor * string) :=
  let ev := sig_Event sig in
  let cands := externalKeys (sc_external c) sig in
  let topo := env_resolver env (mkObjectRef (te_KindOfObject ev) (te_Namespace ev) (te_Name ev)) in
  let cands := cands ++ ((fun a => (a, KeySourceTopology)) <$> topo) in
  match clusterCandidate c sig cands.*1 with
  | Some a => cands ++ [(a, KeySourceSimultaneity)]
  | None => cands
  end.

(** The first key an open storm owns. *)
Fixpoint find_open (storms : gmap string stormState) (l : list Ancestor) : option (string * stormState) :=
  match l with
  | [] => None
  | a :: l =>
      match storms !! Ancestor_Key a with
      | Some st => Some (Ancestor_Key a, st)
      | None => find_open storms l
      end
  end.

Definition window_key (p : pendingIncident) (cand : Ancestor * string) : pendingIncident :=
  let k := Ancestor_Key cand.1 in
  match pi_keys p !! k with
  | Some _ => p
  | None => p <| pi_keys ::= <[k := cand.1]> |> <| pi_source ::= <[k := cand.2]> |>
              <| pi_order ::= fun l => l ++ [k] |>
  end.

(** Replace the first windowed entry of the same key, or append. *)
Fixpoint window_put (p : pendingIncident) (l : list pendingIncident) : list pendingIncident :=
  match l with
  | [] => [p]
  | q :: l =>
      if bool_decide (sm_Key (pi_member q) = sm_Key (pi_member p)) then p :: l
      else q :: window_put p l
  end.

Definition key_group (c : StormCorrelator) (k : string) (cutoff : Time) : list pendingIncident :=
  filter (fun q => pi_keys q !! k <> None /\ After (pi_at q) cutoff = true) (sc_pending c).

(** The formation loop over the observed incident's keys still to try. *)
Fixpoint form_keys (c : StormCorrelator) (env : storm_env) (now : Time) (p : pendingIncident)
    (order : list string) : option (Ancestor * string * list pendingIncident) :=
  match order with
  | [] => None
  | k :: rest =>
      let source := default "" (pi_source p !! k) in
      let rule :=
        if source ==s KeySourceSimultaneity
        then match simultaneityMin c env with
             | Some m => Some (m, simultaneityWindow)
             | None => None
             end
        else Some (sc_min c, sc_window c) in
      match rule with
      | None => form_keys c env now p rest
      | Some (min, window) =>
          let group := key_group c k (Add now (- window)) in
          if Z.of_nat (length group) <? min then form_keys c env now p rest
          else Some (default (mkAncestor "" "" "") (pi_keys p !! k), source, group)
      end
  end.

Definition observe_member (now : Time) (sig : Signal) : StormMember :=
  let ev := sig_Event sig in
  {| sm_Key := CanonicalKey ev;
     sm_Fingerprint := sig_Fingerprint sig;
     sm_Namespace := te_Namespace ev;
     sm_KindOfObject := te_KindOfObject ev;
     sm_Name := te_Name ev;
     sm_Reason := Reason (te_Key ev);
     sm_ReasonClass := ReasonClass (sig_Kind sig) (Reason (te_Key ev)) (te_Message ev);
     sm_SessionID := "";
     sm_FirstSeen := if IsZero (te_FirstSeen ev) then now else te_FirstSeen ev |}.

Definition formed (now : Time) (member : StormMember) (key : Ancestor) (source : string)
    (group : list pendingIncident) (c : StormCorrelator) : StormCorrelator * StormVerdict :=
  let '(c, st) := form key source group now c in
  (c, StormFormed (storm_info st) (st_members st) member).

Definition Observe (env : storm_env) (now : Time) (sig : Signal) (c : StormCorrelator)
  : StormCorrelator * StormVerdict :=
  let ev := sig_Event sig in
  let key := CanonicalKey ev in
  let member := observe_member now sig in
  let seen := if IsZero (te_LastSeen ev) then now else te_LastSeen ev in
  let c := prune now c in
  let cands := candidates c env sig in
  let minedVals := minedValues (sc_mined c) sig in
  let attach := cands.*1 ++ minedAncestors (sc_mined c) minedVals in
  match find_open (sc_storms c) attach with
  | Some (id, st) =>
      let st := addMember member (sig_Severity sig) seen now st in
      let info := storm_info st in
      let '(st, update) := maybeSizeUpdate now st in
      (c <| sc_storms ::= <[id := st]> |> <| sc_byKey ::= <[key := st_id st]> |>,
       StormAttached info member update)
  | None =>
      if (length cands =? 0)%nat && bool_decide (minedVals = ∅) then (c, StormNone)
      else
        let p := fold_left window_key cands
                   (mkPending now member (sig_Severity sig) (sig_Zone sig) seen minedVals ∅ ∅ []) in
        let c := c <| sc_pending ::= window_put p |> in
        match form_keys c env now p (pi_order p) with
        | Some (a, source, group) => formed now member a source group c
        | None =>
            match mineKey c p with
            | Some (a, dim, group) => formed now member a (MinedKeySource dim) group c
            | None => (c, StormNone)
            end
        end
  end.

(** ** Reports from the dispatcher *)

Fixpoint note_session (key : EventKey) (sessionID : string) (l : list pendingIncident)
  : list pendingIncident :=
  match l with
  | [] => []
  | q :: l =>
      if bool_decide (sm_Key (pi_member q) = key)
      then (q <| pi_member := (pi_member q) <| sm_SessionID := sessionID |> |>) :: l
      else q :: note_session key sessionID l
  end.

Definition NoteMemberSession (key : EventKey) (sessionID : string) (c : StormCorrelator) : StormCorrelator :=
  c <| sc_pending ::= note_session (canonical_key key) sessionID |>.

(** [c.storms[c.byKey[key]]]; a key with no owner reads the zero ID. *)
Definition owner_storm (key : EventKey) (c : StormCorrelator) : option (string * stormState) :=
  let id := default "" (sc_byKey c !! key) in
  match sc_storms c !! id with Some st => Some (id, st) | None => None end.

Definition NoteMemberActivity (now : Time) (key : EventKey) (seen : Time) (c : StormCorrelator)
  : StormCorrelator :=
  match owner_storm (canonical_key key) c with
  | None => c
  | Some (id, st) => c <| sc_storms ::= <[id := see seen (st <| st_lastActive := now |>)]> |>
  end.

Definition BindStormSession (id sessionID : string) (c : StormCorrelator) : StormCorrelator :=
  match sc_storms c !! id with
  | Some st => c <| sc_storms ::= <[id := st <| st_sessionID := sessionID |>]> |>
  | None => c
  end.

Definition clear_member_session (dead : string) (m : StormMember) : StormMember :=
  if sm_SessionID m ==s dead then m <| sm_SessionID := "" |> else m.

Fixpoint clear_session (fp dead : string) (l : list (string * stormState)) (c : StormCorrelator)
  : StormCorrelator * option StormInfo :=
  match l with
  | [] => (c, None)
  | (id, st) :: l =>
      if ((fp <>s "") && (st_fingerprint st ==s fp)) || ((dead <>s "") && (st_sessionID st ==s dead)) then
        let st := if (dead ==s "") || (st_sessionID st ==s dead) then st <| st_sessionID := "" |> else st in
        let st := st <| st_members ::= map (clear_member_session dead) |> in
        (c <| sc_storms ::= <[id := st]> |>, Some (storm_info st))
      else clear_session fp dead l c
  end.

Definition ClearStormSession (fp deadSessionID : string) (c : StormCorrelator)
  : StormCorrelator * option StormInfo :=
  clear_session fp deadSessionID (range 1 (sc_storms c)) c.

Definition StormMembers (id : string) (c : StormCorrelator) : option (list StormMember) :=
  st_members <$> sc_storms c !! id.

(** The result is [None] for [ok = false]; the flag is [done]. *)
Definition MemberResolved (key : EventKey) (c : StormCorrelator)
  : StormCorrelator * option (StormInfo * bool) :=
  let key := canonical_key key in
  match sc_byKey c !! key with
  | None => (c, None)
  | Some id =>
      match sc_storms c !! id with
      | None => (c <| sc_byKey ::= delete key |>, None)
      | Some st =>
          let st :=
            if bool_decide (st_resolved st !! key = Some false)
            then st <| st_resolved ::= <[key := true]> |> <| st_unresolved ::= Z.pred |> else st in
          if 0 <? st_unresolved st
          then (c <| sc_storms ::= <[id := st]> |>, Some (storm_info st, false))
          else (close id c, Some (storm_info st, true))
      end
  end.

Definition MemberReverted (now : Time) (key : EventKey) (c : StormCorrelator) : StormCorrelator :=
  let key := canonical_key key in
  match sc_byKey c !! key with
  | None => c
  | Some id =>
      match sc_storms c !! id with
      | None => c
      | Some st =>
          if bool_decide (st_resolved st !! key = Some true)
          then c <| sc_storms ::= <[id := (arm key st) <| st_lastActive := now |>]> |>
          else c
      end
  end.

Definition ActiveStorms (c : StormCorrelator) : Z := Z.of_nat (size (sc_storms c)).

End correlator.
