(* ===== verification/StormSpec.v ===== *)
(** What the storm correlator guarantees (src/pkg/engine/storm.go): its books
    balance in every reachable state, a storm forms only over enough incidents that
    really share its key, and it resolves exactly when its last member does. *)
From S2P Require Import Prelude GoTime GoStrings GoHash Signal PullFailure Storm.
From Stdlib Require Import Ascii.

(** ** The books of one storm *)

Definition unresolved_of (m : gmap EventKey bool) : nat := size (filter (fun '(_, b) => b = false) m).

Record storm_ok (id : string) (st : stormState) : Prop := {
  so_id : st_id st = id;
  so_count : st_memberCount st = Z.of_nat (size (st_resolved st));
  so_unresolved : st_unresolved st = Z.of_nat (unresolved_of (st_resolved st));
  so_members : length (st_members st) = Nat.min (size (st_resolved st)) maxStormMembers;
  so_known : Forall (fun m => is_Some (st_resolved st !! sm_Key m)) (st_members st);
  so_distinct : NoDup (sm_Key <$> st_members st);
  so_fingerprints : st_fingerprints st = sm_Fingerprint <$> st_members st
}.

Lemma unresolved_arm m k :
  m !! k <> Some false -> unresolved_of (<[k := false]> m) = S (unresolved_of m).
Proof.
  intros Hk. unfold unresolved_of. rewrite map_filter_insert_True by done.
  rewrite map_size_insert_None; [done|]. apply map_lookup_filter_None. right. intros b Hb. congruence.
Qed.

Lemma unresolved_clear m k :
  m !! k = Some false -> S (unresolved_of (<[k := true]> m)) = unresolved_of m.
Proof.
  intros Hk. unfold unresolved_of. rewrite map_filter_insert_False by done.
  rewrite map_filter_delete.
  assert (filter (fun '(_, b) => b = false) m !! k = Some false) as Hf by (by apply map_lookup_filter_Some).
  rewrite map_size_delete_Some by (by eexists).
  assert (size (filter (fun '(_, b) => b = false) m) <> 0%nat).
  { intros H0. apply map_size_empty_inv in H0. rewrite H0 in Hf. by apply lookup_empty_Some in Hf. }
  lia.
Qed.

(** Nothing unresolved: every member's own flag is set. *)
Lemma unresolved_zero m : unresolved_of m = 0%nat <-> forall k b, m !! k = Some b -> b = true.
Proof.
  unfold unresolved_of. rewrite map_size_empty_iff. split.
  - intros Hf k b Hb. destruct b; [done|].
    assert (filter (fun '(_, b) => b = false) m !! k = Some false) as Hk by (by apply map_lookup_filter_Some).
    rewrite Hf in Hk. by apply lookup_empty_Some in Hk.
  - intros Ht. apply map_empty. intros k. apply map_lookup_filter_None. right.
    intros b Hb Hf. specialize (Ht k b Hb). congruence.
Qed.

Lemma see_ok id seen st : storm_ok id st -> storm_ok id (see seen st).
Proof. intros []. unfold see. destruct (After _ _); by split. Qed.
Lemma raise_severity_ok id sev st : storm_ok id st -> storm_ok id (raise_severity sev st).
Proof. intros []. unfold raise_severity. destruct (_ <? _); by split. Qed.

Lemma see_resolved seen st : st_resolved (see seen st) = st_resolved st.
Proof. unfold see. by destruct (After _ _). Qed.
Lemma raise_severity_resolved sev st : st_resolved (raise_severity sev st) = st_resolved st.
Proof. unfold raise_severity. by destruct (_ <? _). Qed.
Lemma recordMember_resolved m st : st_resolved (recordMember m st) = st_resolved st.
Proof. unfold recordMember. destruct (_ <>s _); simpl; by destruct (_ <? _)%nat. Qed.
#[local] Hint Rewrite see_resolved raise_severity_resolved recordMember_resolved : storm.

(** Re-arming a member known and cleared. *)
Lemma rearm_ok id k st :
  storm_ok id st -> st_resolved st !! k = Some true -> storm_ok id (arm k st).
Proof.
  intros [] Hk. split; simpl; auto.
  - rewrite map_size_insert, Hk. done.
  - rewrite unresolved_arm by congruence. lia.
  - by rewrite map_size_insert, Hk.
  - eapply Forall_impl; [|exact so_known0]. intros m [b Hb]. simpl.
    destruct (decide (sm_Key m = k)) as [->|]; [rewrite lookup_insert_eq|rewrite lookup_insert_ne by done];
      by eexists.
Qed.

(** Taking in a new member. *)
Lemma record_arm_ok id m st :
  storm_ok id st -> st_resolved st !! sm_Key m = None ->
  storm_ok id (arm (sm_Key m) (recordMember m st)).
Proof.
  intros [] Hk.
  assert (forall l, Forall (fun m => is_Some (st_resolved st !! sm_Key m)) l ->
    Forall (fun m0 => is_Some (<[sm_Key m := false]> (st_resolved st) !! sm_Key m0)) l) as Hmono.
  { intros l Hl. eapply Forall_impl; [|exact Hl]. intros m0 [b Hb]. simpl.
    destruct (decide (sm_Key m0 = sm_Key m)) as [->|Hne];
      [rewrite lookup_insert_eq|rewrite lookup_insert_ne by done]; by eexists. }
  unfold recordMember. set (st1 := if _ <>s _ then _ else _).
  assert (st_id st1 = st_id st /\ st_memberCount st1 = Z.succ (st_memberCount st) /\
    st_resolved st1 = st_resolved st /\ st_unresolved st1 = st_unresolved st /\
    st_members st1 = st_members st /\ st_fingerprints st1 = st_fingerprints st)
    as (Hi & Hc & Hr & Hu & Hm & Hf) by (unfold st1; by destruct (_ <>s _)).
  clearbody st1. unfold arm.
  destruct (Nat.ltb_spec (length (st_members st1)) maxStormMembers) as [Hlt|Hge];
    split; simpl; rewrite ?Hi, ?Hc, ?Hr, ?Hu, ?Hm, ?Hf in *; auto;
    rewrite ?map_size_insert_None, ?unresolved_arm by congruence;
    rewrite ?length_app; cbn [length]; try lia.
  - apply Forall_app_2; [by apply Hmono|]. constructor; [|constructor].
    rewrite lookup_insert_eq. by eexists.
  - rewrite fmap_app. apply list.NoDup_app. split_and!; [done| |apply NoDup_singleton].
    intros k (m0 & -> & Hm0)%list_elem_of_fmap Heq%list_elem_of_singleton.
    rewrite list.Forall_forall in so_known0. destruct (so_known0 m0 Hm0) as [b Hb]. congruence.
  - rewrite fmap_app. simpl. congruence.
Qed.

Lemma addMember_ok id m sev seen now st :
  storm_ok id st -> storm_ok id (addMember m sev seen now st) /\
  is_Some (st_resolved (addMember m sev seen now st) !! sm_Key m) /\
  (forall k, is_Some (st_resolved st !! k) -> is_Some (st_resolved (addMember m sev seen now st) !! k)).
Proof.
  intros Hok. unfold addMember. cbv zeta.
  set (st1 := raise_severity sev _).
  assert (storm_ok id st1 /\ st_resolved st1 = st_resolved st) as [Hok1 Hr1].
  { split; [|unfold st1; rewrite raise_severity_resolved; simpl; apply see_resolved].
    apply raise_severity_ok. apply (see_ok _ seen) in Hok. by destruct Hok; split. }
  clearbody st1. destruct (st_resolved st1 !! sm_Key m) as [b|] eqn:E.
  - destruct b; (split; [|split]); rewrite <- ?Hr1; auto; try (by eexists); simpl.
    + by apply rearm_ok.
    + rewrite lookup_insert_eq. by eexists.
    + intros k Hk. rewrite lookup_insert_is_Some. destruct (decide (k = sm_Key m)); auto.
  - split; [by apply record_arm_ok|]. simpl. rewrite recordMember_resolved, <- Hr1. split.
    + rewrite lookup_insert_eq. by eexists.
    + intros k Hk. rewrite lookup_insert_is_Some. destruct (decide (k = sm_Key m)); auto.
Qed.

(** ** The correlator *)

Definition pending_keys (l : list pendingIncident) : list EventKey := (fun q => sm_Key (pi_member q)) <$> l.

(** Every windowed incident's keys: what its map says, in its order. *)
Definition pending_ok (p : pendingIncident) : Prop :=
  forall k, k ∈ pi_order p -> exists a, pi_keys p !! k = Some a /\ Ancestor_Key a = k.

Record correlator_ok (c : StormCorrelator) : Prop := {
  co_min : 2 <= sc_min c;
  co_mined : sc_mined c <> [] -> sc_min c <= sc_minedMin c;
  co_pending : NoDup (pending_keys (sc_pending c));
  co_storms : map_Forall storm_ok (sc_storms c);
  co_byKey : forall k id, sc_byKey c !! k = Some id ->
    exists st, sc_storms c !! id = Some st /\ is_Some (st_resolved st !! k)
}.

Lemma NoDup_fmap_filter {A B} (f : A -> B) (P : A -> Prop) `{forall x, Decision (P x)} l :
  NoDup (f <$> l) -> NoDup (f <$> filter P l).
Proof.
  induction l as [|x l IH]; [done|]. rewrite fmap_cons. intros [Hx Hl]%list.NoDup_cons.
  rewrite filter_cons. destruct (decide (P x)); [|auto]. rewrite fmap_cons.
  apply list.NoDup_cons. split; [|auto]. intros (y & Heq & Hy)%list_elem_of_fmap.
  apply list_elem_of_filter in Hy as [_ Hy]. apply Hx. rewrite Heq. apply list_elem_of_fmap. by exists y.
Qed.

Section facts.
Context `{RangeOrder}.

Lemma close_ok id c : correlator_ok c -> correlator_ok (close id c).
Proof.
  intros []. split; simpl; auto.
  - intros i st Hi. apply lookup_delete_Some in Hi as [_ Hi]. exact (co_storms0 i st Hi).
  - intros k i Hi. apply map_lookup_filter_Some in Hi as [Hi Hne]. simpl in Hne.
    destruct (co_byKey0 k i Hi) as (st & Hst & Hk). exists st. split; [|done].
    by rewrite lookup_delete_ne.
Qed.

Lemma prune_loop_ok now l c :
  correlator_ok c -> correlator_ok (range_loop (prune_storm now) l c).
Proof.
  intros Hok. apply range_loop_inv; [done|]. intros id st c' _ Hc'. unfold prune_storm.
  destruct (_ <? Sub _ _); [by apply close_ok|done].
Qed.

Lemma filter_pending_ok (P : pendingIncident -> Prop) `{forall x, Decision (P x)} c :
  correlator_ok c -> correlator_ok (c <| sc_pending ::= filter P |>).
Proof.
  intros []. split; simpl; auto. unfold pending_keys.
  by apply NoDup_fmap_filter.
Qed.

Lemma prune_ok now c : correlator_ok c -> correlator_ok (prune now c).
Proof. intros Hok. unfold prune. apply prune_loop_ok. by apply filter_pending_ok. Qed.

(** Pruning closes storms and drops windowed incidents, and adds none. *)
Lemma prune_shrinks now c :
  sc_storms (prune now c) ⊆ sc_storms c /\ sc_byKey (prune now c) ⊆ sc_byKey c /\
  sc_pending (prune now c) = filter (fun q => After (pi_at q) (Add now (- sc_window c)) = true) (sc_pending c) /\
  sc_min (prune now c) = sc_min c /\ sc_window (prune now c) = sc_window c /\
  sc_mined (prune now c) = sc_mined c /\ sc_minedMin (prune now c) = sc_minedMin c /\
  sc_external (prune now c) = sc_external c /\ sc_fallback (prune now c) = sc_fallback c.
Proof.
  unfold prune. cbv zeta. set (c0 := c <| sc_pending ::= _ |>).
  apply (range_loop_inv _ (fun c' => sc_storms c' ⊆ sc_storms c /\ sc_byKey c' ⊆ sc_byKey c /\
    sc_pending c' = sc_pending c0 /\ sc_min c' = sc_min c /\ sc_window c' = sc_window c /\
    sc_mined c' = sc_mined c /\ sc_minedMin c' = sc_minedMin c /\
    sc_external c' = sc_external c /\ sc_fallback c' = sc_fallback c)); [split_and!; done|].
  intros id st c' _ (H1 & H2 & Hrest). unfold prune_storm. destruct (_ <? Sub _ _); [|done].
  split; [simpl; etrans; [apply delete_subseteq|done]|].
  split; [simpl; etrans; [apply map_filter_subseteq|done]|exact Hrest].
Qed.

Lemma window_put_keys p l :
  NoDup (pending_keys l) ->
  NoDup (pending_keys (window_put p l)) /\
  forall k, k ∈ pending_keys (window_put p l) <-> k ∈ pending_keys l \/ k = sm_Key (pi_member p).
Proof.
  induction l as [|q l IH]; intros Hnd; simpl.
  { split; [apply NoDup_singleton|]. intros k. set_solver. }
  unfold pending_keys in *. rewrite fmap_cons in Hnd. apply list.NoDup_cons in Hnd as [Hq Hnd].
  case_bool_decide as Hk; rewrite !fmap_cons.
  - split; [apply list.NoDup_cons; split; [by rewrite <- Hk|done]|]. intros k. rewrite !elem_of_cons, Hk. tauto.
  - destruct (IH Hnd) as [Hn Hin]. split; [|intros k; rewrite !elem_of_cons, Hin; tauto].
    apply list.NoDup_cons. split; [|done]. rewrite Hin. intros [?|?]; [by apply Hq|congruence].
Qed.

Lemma note_session_keys key sid l : pending_keys (note_session key sid l) = pending_keys l.
Proof.
  unfold pending_keys. induction l as [|q l IH]; cbn [note_session]; [done|].
  case_bool_decide; rewrite !fmap_cons; [done|by rewrite IH].
Qed.

(** [window_key] keeps the keys and their order in step. *)
Lemma window_key_ok p cand : pending_ok p -> pending_ok (window_key p cand).
Proof.
  intros Hp. unfold window_key. destruct (pi_keys p !! _) as [x|] eqn:E; [done|].
  intros k. simpl. intros [Hk|Hk]%elem_of_app.
  - destruct (Hp k Hk) as (a & Ha & Hka). exists a. split; [|done].
    rewrite lookup_insert_ne; [done|]. intros <-. congruence.
  - apply list_elem_of_singleton in Hk as ->. exists cand.1. by rewrite lookup_insert_eq.
Qed.

Lemma window_keys_ok cands p : pending_ok p -> pending_ok (fold_left window_key cands p).
Proof. revert p; induction cands as [|x l IH]; intros p Hp; simpl; [done|]. by apply IH, window_key_ok. Qed.

Lemma window_key_member p cand : pi_member (window_key p cand) = pi_member p /\ pi_at (window_key p cand) = pi_at p
  /\ pi_mined (window_key p cand) = pi_mined p.
Proof. unfold window_key. by destruct (_ !! _). Qed.

Lemma window_keys_member cands p :
  pi_member (fold_left window_key cands p) = pi_member p /\ pi_at (fold_left window_key cands p) = pi_at p /\
  pi_mined (fold_left window_key cands p) = pi_mined p.
Proof.
  revert p; induction cands as [|x l IH]; intros p; simpl; [done|].
  destruct (IH (window_key p x)) as (-> & -> & ->). apply window_key_member.
Qed.

(** The keys of a windowed incident are its candidates'. *)
Lemma window_keys_order cands p k :
  k ∈ pi_order (fold_left window_key cands p) -> k ∈ pi_order p \/ k ∈ (fun x => Ancestor_Key x.1) <$> cands.
Proof.
  revert p; induction cands as [|x l IH]; intros p; simpl; [auto|].
  intros [Hk|Hk]%IH; [|set_solver]. unfold window_key in Hk. destruct (_ !! _); [set_solver|].
  simpl in Hk. set_solver.
Qed.

(** *** Forming *)

Lemma form_member_ok id st q :
  storm_ok id st -> st_resolved st !! sm_Key (pi_member q) = None ->
  storm_ok id (form_member st q) /\
  st_resolved (form_member st q) = <[sm_Key (pi_member q) := false]> (st_resolved st).
Proof.
  intros Hok Hk. unfold form_member. cbv zeta.
  set (st1 := raise_severity _ _).
  assert (storm_ok id st1 /\ st_resolved st1 = <[sm_Key (pi_member q) := false]> (st_resolved st)) as [Hok1 Hr1].
  { split; [apply raise_severity_ok; by apply record_arm_ok|].
    unfold st1. rewrite raise_severity_resolved. simpl. by rewrite recordMember_resolved. }
  clearbody st1. rewrite see_resolved. destruct (Before _ _); [|split; [by apply see_ok|done]].
  split; [apply see_ok; by destruct Hok1; split|done].
Qed.

Lemma form_group_ok id group st :
  storm_ok id st -> NoDup (pending_keys group) ->
  (forall k, k ∈ pending_keys group -> st_resolved st !! k = None) ->
  storm_ok id (fold_left form_member group st) /\
  (forall k, is_Some (st_resolved (fold_left form_member group st) !! k) <->
     is_Some (st_resolved st !! k) \/ k ∈ pending_keys group) /\
  size (st_resolved (fold_left form_member group st)) = (size (st_resolved st) + length group)%nat.
Proof.
  unfold pending_keys.
  revert st; induction group as [|q group IH]; intros st Hok Hnd Hfresh; simpl fold_left.
  { split; [done|]. split; [set_solver|]. simpl. lia. }
  rewrite fmap_cons in Hnd, Hfresh. apply list.NoDup_cons in Hnd as [Hq Hnd].
  destruct (form_member_ok id st q Hok) as [Hok1 Hr1]; [apply Hfresh; set_solver|].
  destruct (IH (form_member st q) Hok1 Hnd) as (Hok2 & Hdom & Hsize).
  { intros k Hk. rewrite Hr1, lookup_insert_ne by (intros <-; done). apply Hfresh. set_solver. }
  split; [done|]. split.
  - intros k. rewrite Hdom, Hr1, lookup_insert_is_Some', fmap_cons, elem_of_cons.
    split; intros; destruct_or!; subst; auto.
  - rewrite Hsize, Hr1, map_size_insert_None by (apply Hfresh; set_solver). simpl. lia.
Qed.

Lemma insert_all_lookup (id : string) ks (m : gmap EventKey string) k :
  fold_left (fun (m : gmap EventKey string) k => <[k := id]> m) ks m !! k =
  if decide (k ∈ ks) then Some id else m !! k.
Proof.
  revert m; induction ks as [|k1 ks IH]; intros m; simpl.
  { by destruct (decide (k ∈ [])) as [?%elem_of_nil|]. }
  rewrite IH. destruct (decide (k ∈ ks)), (decide (k ∈ k1 :: ks)); try set_solver.
  - assert (k = k1) as -> by set_solver. by rewrite lookup_insert_eq.
  - by rewrite lookup_insert_ne by set_solver.
Qed.

Lemma form_spec a source group now c :
  correlator_ok c -> NoDup (pending_keys group) -> sc_storms c !! Ancestor_Key a = None ->
  let '(c', st) := form a source group now c in
  correlator_ok c' /\ sc_storms c' !! Ancestor_Key a = Some st /\ st_id st = Ancestor_Key a /\
  st_keySource st = source /\ st_ancestor st = a /\
  st_memberCount st = Z.of_nat (length group) /\
  (forall k, is_Some (st_resolved st !! k) <-> k ∈ pending_keys group) /\
  (forall k, k ∈ pending_keys group -> sc_byKey c' !! k = Some (Ancestor_Key a)) /\
  (forall q, q ∈ sc_pending c' <-> q ∈ sc_pending c /\ sm_Key (pi_member q) ∉ pending_keys group) /\
  (forall id, id <> Ancestor_Key a -> sc_storms c' !! id = sc_storms c !! id).
Proof.
  intros Hok Hnd Hfresh. unfold form. cbv zeta.
  set (st0 := mkStorm _ _ _ _ _ _ _ _ _ _ _ _ _ _ _ _ _ _ _).
  assert (storm_ok (Ancestor_Key a) st0) as Hok0.
  { split; simpl; try done; try (by rewrite map_size_empty); try (constructor). }
  destruct (form_group_ok (Ancestor_Key a) group st0 Hok0 Hnd) as (Hok1 & Hdom & Hsize).
  { intros. apply lookup_empty. }
  assert (st_keySource (fold_left form_member group st0) = source /\
          st_ancestor (fold_left form_member group st0) = a) as [Hks Ha].
  { assert (st_keySource st0 = source /\ st_ancestor st0 = a) as H0 by done. revert H0.
    generalize st0. clear. induction group as [|q group IH]; intros st H0; simpl; [done|]. apply IH.
    unfold form_member, see, raise_severity, recordMember. cbv zeta. simpl.
    destruct (_ <>s _), (_ <? _)%nat; simpl; destruct (severityRank _ <? _); simpl;
      destruct (Before _ _); simpl; destruct (After _ _); done. }
  set (st := fold_left form_member group st0) in *. clearbody st.
  assert (forall k, is_Some (st_resolved st !! k) <-> k ∈ pending_keys group) as Hdom'.
  { intros k. rewrite Hdom. simpl. rewrite lookup_empty. split; [intros [[? ?]|]; done|auto]. }
  destruct Hok1 as [Hid Hc Hu Hm Hkn Hdi Hfp]. rewrite Hid.
  assert (st_memberCount st = Z.of_nat (length group)) as Hcount
    by (rewrite Hc, Hsize; simpl; by rewrite map_size_empty).
  split_and!; try done.
  - destruct Hok as [H1 H2 H3 H4 H5]. split; simpl; auto.
    + by apply NoDup_fmap_filter.
    + apply map_Forall_insert_2; [|done]. by split.
    + intros k id. rewrite insert_all_lookup. fold (pending_keys group). rewrite Hid. case_decide as Hin.
      * intros [= <-]. eexists. rewrite lookup_insert_eq. split; [done|]. simpl. by apply Hdom'.
      * intros (st' & Hst' & Hk')%H5. exists st'. rewrite lookup_insert_ne by congruence. done.
  - simpl. by rewrite Hid, lookup_insert_eq.
  - intros k Hk. simpl. rewrite insert_all_lookup. fold (pending_keys group). by rewrite decide_True.
  - intros q. simpl. rewrite list_elem_of_filter. fold (pending_keys group). tauto.
  - intros id Hne. simpl. by rewrite Hid, lookup_insert_ne.
Qed.

(** The threshold and the window a key's source sets. *)
Definition formation_rule (c : StormCorrelator) (env : storm_env) (source : string) (min : Z)
    (window : Duration) : Prop :=
  (source <> KeySourceSimultaneity /\ min = sc_min c /\ window = sc_window c) \/
  (source = KeySourceSimultaneity /\ simultaneityMin c env = Some min /\ window = simultaneityWindow).

Lemma form_keys_spec c env now p order a source group :
  pending_ok p -> (forall k, k ∈ order -> k ∈ pi_order p) ->
  form_keys c env now p order = Some (a, source, group) ->
  exists min window, Ancestor_Key a ∈ order /\ source = default "" (pi_source p !! Ancestor_Key a) /\
    formation_rule c env source min window /\
    group = key_group c (Ancestor_Key a) (Add now (- window)) /\ min <= Z.of_nat (length group).
Proof.
  intros Hp. induction order as [|k order IH]; intros Hsub; cbn [form_keys]; [done|]. cbv zeta.
  assert (forall k, k ∈ order -> k ∈ pi_order p) as Hsub' by (intros; apply Hsub; set_solver).
  assert (form_keys c env now p order = Some (a, source, group) ->
    exists min window, Ancestor_Key a ∈ k :: order /\ source = default "" (pi_source p !! Ancestor_Key a) /\
    formation_rule c env source min window /\
    group = key_group c (Ancestor_Key a) (Add now (- window)) /\ min <= Z.of_nat (length group)) as Hrest.
  { intros Hf. destruct (IH Hsub' Hf) as (m & w & Hin & Hr). exists m, w. split; [set_solver|done]. }
  destruct (Hp k (Hsub k ltac:(set_solver))) as (a' & Ha' & Hk).
  set (src := default "" (pi_source p !! k)).
  destruct (src ==s KeySourceSimultaneity) eqn:Es; btrue.
  - destruct (simultaneityMin c env) as [m|] eqn:Em; [|done].
    destruct (Z.ltb_spec (Z.of_nat (length (key_group c k (Add now (- simultaneityWindow))))) m); [done|].
    intros Hf. rewrite Ha' in Hf. simplify_eq/=. exists m, simultaneityWindow.
    split_and!; [set_solver|done|by right|done|done].
  - destruct (Z.ltb_spec (Z.of_nat (length (key_group c k (Add now (- sc_window c))))) (sc_min c)); [done|].
    intros Hf. rewrite Ha' in Hf. simplify_eq/=. exists (sc_min c), (sc_window c).
    split_and!; [set_solver|done|by left|done|done].
Qed.

Lemma mine_dims_spec c dims p a dim group :
  mine_dims c dims p = Some (a, dim, group) ->
  exists d v, d ∈ dims /\ md_Name d = dim /\ v <> "" /\ pi_mined p !! dim = Some v /\
    a = mkAncestor (md_Kind d) "" v /\ group = mined_group c dim v /\
    sc_minedMin c <= Z.of_nat (length group).
Proof.
  induction dims as [|d dims IH]; cbn [mine_dims]; [done|].
  assert (mine_dims c dims p = Some (a, dim, group) ->
    exists d0 v, d0 ∈ d :: dims /\ md_Name d0 = dim /\ v <> "" /\ pi_mined p !! dim = Some v /\
    a = mkAncestor (md_Kind d0) "" v /\ group = mined_group c dim v /\
    sc_minedMin c <= Z.of_nat (length group)) as Hrest.
  { intros Hf. destruct (IH Hf) as (d0 & v & Hin & Hr). exists d0, v. split; [set_solver|done]. }
  destruct (pi_mined p !! md_Name d) as [v|] eqn:Ev; [|done].
  destruct (v ==s "") eqn:E0; [done|]. cbv zeta. btrue.
  destruct (Z.ltb_spec (Z.of_nat (length (mined_group c (md_Name d) v))) (sc_minedMin c)); [done|].
  intros; simplify_eq. exists d, v. split_and!; auto. set_solver.
Qed.

Lemma find_open_None storms l a :
  find_open storms l = None -> a ∈ l -> storms !! Ancestor_Key a = None.
Proof.
  induction l as [|b l IH]; simpl; [set_solver|]. destruct (storms !! Ancestor_Key b) eqn:E; [done|].
  intros Hf [->|Hin]%elem_of_cons; auto.
Qed.

Lemma find_open_Some storms l id st :
  find_open storms l = Some (id, st) -> storms !! id = Some st /\ exists a, a ∈ l /\ id = Ancestor_Key a.
Proof.
  induction l as [|b l IH]; simpl; [done|]. destruct (storms !! Ancestor_Key b) as [s|] eqn:E.
  - intros; simplify_eq. split; [done|]. exists b. split; [set_solver|done].
  - intros (? & a & ? & ?)%IH. split; [done|]. exists a. split; [set_solver|done].
Qed.

Lemma minedAncestors_in dims vals d v :
  d ∈ dims -> vals !! md_Name d = Some v -> v <> "" ->
  mkAncestor (md_Kind d) "" v ∈ minedAncestors dims vals.
Proof.
  intros Hd Hv Hne. unfold minedAncestors. apply list_elem_of_omap. exists d. split; [done|].
  by rewrite Hv, bool_decide_eq_false_2.
Qed.

(** The incident an observation windows. *)
Definition windowed (c : StormCorrelator) (env : storm_env) (now : Time) (sig : Signal) : pendingIncident :=
  let ev := sig_Event sig in
  fold_left window_key (candidates c env sig)
    (mkPending now (observe_member now sig) (sig_Severity sig) (sig_Zone sig)
       (if IsZero (te_LastSeen ev) then now else te_LastSeen ev) (minedValues (sc_mined c) sig) ∅ ∅ []).

Lemma windowed_ok c env now sig : pending_ok (windowed c env now sig).
Proof. unfold windowed. apply window_keys_ok. intros k. simpl. set_solver. Qed.

(** What a formation found: the key no open storm owns, the group that shares it and
    the rule it met. *)
Inductive forms (c : StormCorrelator) (env : storm_env) (now : Time) (p : pendingIncident)
  : Ancestor -> string -> list pendingIncident -> Prop :=
  | forms_declared a source min window :
      sc_storms c !! Ancestor_Key a = None -> pi_keys p !! Ancestor_Key a <> None ->
      formation_rule c env source min window ->
      min <= Z.of_nat (length (key_group c (Ancestor_Key a) (Add now (- window)))) ->
      forms c env now p a source (key_group c (Ancestor_Key a) (Add now (- window)))
  | forms_mined d v :
      d ∈ sc_mined c -> v <> "" -> pi_mined p !! md_Name d = Some v ->
      sc_storms c !! Ancestor_Key (mkAncestor (md_Kind d) "" v) = None ->
      sc_minedMin c <= Z.of_nat (length (mined_group c (md_Name d) v)) ->
      forms c env now p (mkAncestor (md_Kind d) "" v) (MinedKeySource (md_Name d))
        (mined_group c (md_Name d) v).

Lemma Observe_cases env now sig c :
  let c1 := prune now c in
  let p := windowed c1 env now sig in
  let c2 := c1 <| sc_pending ::= window_put p |> in
  let member := observe_member now sig in
  (exists id st, sc_storms c1 !! id = Some st /\
     let st1 := addMember member (sig_Severity sig)
       (if IsZero (te_LastSeen (sig_Event sig)) then now else te_LastSeen (sig_Event sig)) now st in
     Observe env now sig c =
       (c1 <| sc_storms ::= <[id := (maybeSizeUpdate now st1).1]> |>
           <| sc_byKey ::= <[CanonicalKey (sig_Event sig) := st_id (maybeSizeUpdate now st1).1]> |>,
        StormAttached (storm_info st1) member (maybeSizeUpdate now st1).2)) \/
  (Observe env now sig c = (c1, StormNone)) \/
  (Observe env now sig c = (c2, StormNone)) \/
  (exists a source group, forms c2 env now p a source group /\
     Observe env now sig c = formed now member a source group c2).
Proof.
  cbv zeta. unfold Observe. cbv zeta. fold (windowed (prune now c) env now sig).
  set (c1 := prune now c). set (p := windowed c1 env now sig).
  destruct (find_open (sc_storms c1) _) as [[id st]|] eqn:Ef.
  { left. apply find_open_Some in Ef as [Hst _]. exists id, st. split; [done|].
    by destruct (maybeSizeUpdate _ _). }
  right. destruct (_ && _); [by left|right].
  set (c2 := c1 <| sc_pending ::= window_put p |>).
  assert (forall a, a ∈ (candidates c1 env sig).*1 ++ minedAncestors (sc_mined c1) (minedValues (sc_mined c1) sig) ->
    sc_storms c2 !! Ancestor_Key a = None) as Hnone by (intros; by eapply find_open_None).
  destruct (form_keys c2 env now p (pi_order p)) as [[[a source] group]|] eqn:Efk.
  { right. exists a, source, group. split; [|done].
    apply form_keys_spec in Efk as (min & window & Hin & _ & Hrule & -> & Hlen); [|apply windowed_ok|done].
    destruct (windowed_ok c1 env now sig _ Hin) as (a1 & Ha1 & _).
    apply forms_declared with min; auto; [|unfold p; by rewrite Ha1].
    apply window_keys_order in Hin as [Hin|Hin]; [by apply elem_of_nil in Hin|].
    apply list_elem_of_fmap in Hin as ([a' s'] & Hk & Hin). rewrite Hk. apply Hnone.
    apply elem_of_app. left. apply list_elem_of_fmap. by exists (a', s'). }
  destruct (mineKey c2 p) as [[[a dim] group]|] eqn:Em; [|by left].
  right. exists a, (MinedKeySource dim), group. split; [|done].
  apply mine_dims_spec in Em as (d & v & Hd & <- & Hv & Hpv & -> & -> & Hlen).
  apply forms_mined; auto. apply Hnone, elem_of_app. right. apply minedAncestors_in; [done| |done].
  unfold p, windowed in Hpv. by destruct (window_keys_member (candidates c1 env sig)
    (mkPending now (observe_member now sig) (sig_Severity sig) (sig_Zone sig)
       (if IsZero (te_LastSeen (sig_Event sig)) then now else te_LastSeen (sig_Event sig))
       (minedValues (sc_mined c1) sig) ∅ ∅ [])) as (_ & _ & Hm); rewrite Hm in Hpv.
Qed.

Lemma maybeSizeUpdate_ok id now st :
  storm_ok id st -> storm_ok id (maybeSizeUpdate now st).1 /\
  st_resolved (maybeSizeUpdate now st).1 = st_resolved st.
Proof.
  intros []. unfold maybeSizeUpdate. cbv zeta. destruct (_ && _); [by split|].
  destruct (_ <? _); by split.
Qed.

(** Writing back a storm that keeps its members, and indexing one of them. *)
Lemma put_storm_ok id st st' c :
  correlator_ok c -> sc_storms c !! id = Some st -> storm_ok id st' ->
  (forall k, is_Some (st_resolved st !! k) -> is_Some (st_resolved st' !! k)) ->
  correlator_ok (c <| sc_storms ::= <[id := st']> |>).
Proof.
  intros [] Hst Hok' Hmono. split; simpl; auto.
  - by apply map_Forall_insert_2.
  - intros k i (st1 & Hst1 & Hk1)%co_byKey0. destruct (decide (i = id)) as [->|Hne].
    + simplify_eq. exists st'. rewrite lookup_insert_eq. split; [done|auto].
    + exists st1. by rewrite lookup_insert_ne.
Qed.

Lemma index_ok k id st c :
  correlator_ok c -> sc_storms c !! id = Some st -> is_Some (st_resolved st !! k) ->
  correlator_ok (c <| sc_byKey ::= <[k := id]> |>).
Proof.
  intros [] Hst Hk. split; simpl; auto. intros k' i. rewrite lookup_insert_Some.
  intros [[<- <-]|[_ ?]]; [by exists st|auto].
Qed.

Lemma window_ok p c : correlator_ok c -> correlator_ok (c <| sc_pending ::= window_put p |>).
Proof. intros []. split; simpl; auto. by apply window_put_keys. Qed.

Lemma forms_group c env now p a source group :
  correlator_ok c -> forms c env now p a source group ->
  NoDup (pending_keys group) /\ sc_storms c !! Ancestor_Key a = None.
Proof.
  intros Hok Hf. destruct Hf; (split; [|done]); apply NoDup_fmap_filter, (co_pending _ Hok).
Qed.

Lemma Observe_ok env now sig c : correlator_ok c -> correlator_ok (Observe env now sig c).1.
Proof.
  intros Hok0. pose proof (prune_ok now c Hok0) as Hok.
  destruct (Observe_cases env now sig c) as [(id & st & Hst & ->)|[->|[->|(a & source & group & Hf & ->)]]].
  - simpl. pose proof (co_storms _ Hok _ _ Hst) as Hso. simpl in Hso.
    set (seen := if IsZero _ then _ else _).
    destruct (addMember_ok id (observe_member now sig) (sig_Severity sig) seen now st Hso) as (Hso1 & Hin & Hmono).
    set (st1 := addMember _ _ _ _ _) in *.
    destruct (maybeSizeUpdate_ok id now st1 Hso1) as [Hso2 Hr2].
    rewrite (so_id _ _ Hso2). apply (index_ok _ id (maybeSizeUpdate now st1).1).
    + apply (put_storm_ok id st); [done|done|done|]. intros k Hk. rewrite Hr2. auto.
    + simpl. by rewrite lookup_insert_eq.
    + by rewrite Hr2.
  - done.
  - by apply window_ok.
  - set (p := windowed _ _ _ _) in *. set (c2 := _ <| sc_pending ::= window_put p |>) in *.
    assert (correlator_ok c2) as Hok2 by (by apply window_ok).
    destruct (forms_group _ _ _ _ _ _ _ Hok2 Hf) as [Hnd Hnone]. unfold formed.
    pose proof (form_spec a source group now c2 Hok2 Hnd Hnone) as Hform.
    destruct (form a source group now c2) as [c' st]. by destruct Hform.
Qed.

Lemma storm_member_known c k id st :
  correlator_ok c -> sc_byKey c !! k = Some id -> sc_storms c !! id = Some st ->
  is_Some (st_resolved st !! k).
Proof. intros Hok Hk Hst. destruct (co_byKey _ Hok _ _ Hk) as (st' & ? & ?). by simplify_eq. Qed.

(** A member's flag flipped to resolved. *)
Definition mark_resolved (key : EventKey) (st : stormState) : stormState :=
  if bool_decide (st_resolved st !! key = Some false)
  then st <| st_resolved ::= <[key := true]> |> <| st_unresolved ::= Z.pred |> else st.

Lemma mark_resolved_ok id key st :
  storm_ok id st -> storm_ok id (mark_resolved key st) /\
  (forall k, is_Some (st_resolved st !! k) -> is_Some (st_resolved (mark_resolved key st) !! k)).
Proof.
  intros Hok. unfold mark_resolved. case_bool_decide as Hk; [|done]. destruct Hok. split.
  - pose proof (unresolved_clear _ _ Hk) as Hu. split; simpl; auto.
    + by rewrite map_size_insert, Hk.
    + lia.
    + by rewrite map_size_insert, Hk.
    + eapply Forall_impl; [|exact so_known0]. intros m Hm. simpl. rewrite lookup_insert_is_Some.
      destruct (decide (sm_Key m = key)); auto.
  - intros k Hk'. simpl. rewrite lookup_insert_is_Some. destruct (decide (k = key)); auto.
Qed.

Lemma MemberResolved_ok key c : correlator_ok c -> correlator_ok (MemberResolved key c).1.
Proof.
  intros Hok. unfold MemberResolved. cbv zeta. set (k := canonical_key key).
  destruct (sc_byKey c !! k) as [id|] eqn:Ek; [|done].
  destruct (sc_storms c !! id) as [st|] eqn:Es.
  - fold (mark_resolved k st).
    destruct (mark_resolved_ok id k st (co_storms _ Hok _ _ Es)) as [Hso Hmono].
    destruct (_ <? _); [by apply (put_storm_ok id st)|by apply close_ok].
  - destruct (co_byKey _ Hok _ _ Ek) as (st' & ? & _). congruence.
Qed.

Lemma MemberReverted_ok now key c : correlator_ok c -> correlator_ok (MemberReverted now key c).
Proof.
  intros Hok. unfold MemberReverted. cbv zeta. set (k := canonical_key key).
  destruct (sc_byKey c !! k) as [id|] eqn:Ek; [|done].
  destruct (sc_storms c !! id) as [st|] eqn:Es; [|done].
  case_bool_decide as Hk; [|done]. apply (put_storm_ok id st); [done|done| |].
  - pose proof (rearm_ok id k st (co_storms _ Hok _ _ Es) Hk) as []. by split.
  - intros k' Hk'. simpl. rewrite lookup_insert_is_Some. destruct (decide (k' = k)); auto.
Qed.

Lemma clear_session_ok fp dead l c :
  correlator_ok c -> (forall id st, (id, st) ∈ l -> sc_storms c !! id = Some st) ->
  correlator_ok (clear_session fp dead l c).1.
Proof.
  intros Hok. induction l as [|[id st] l IH]; intros Hl; cbn [clear_session]; [done|].
  destruct (_ || _); [|apply IH; intros; apply Hl; set_solver]. cbv zeta. cbn [fst].
  assert (sc_storms c !! id = Some st) as Hst by (apply Hl; set_solver).
  pose proof (co_storms _ Hok _ _ Hst) as Hso. simpl in Hso.
  apply (put_storm_ok id st); [done|done| |by destruct (_ || _)].
  assert (forall (m : StormMember), sm_Key (clear_member_session dead m) = sm_Key m /\
    sm_Fingerprint (clear_member_session dead m) = sm_Fingerprint m) as Hcm
    by (intros m; unfold clear_member_session; by destruct (_ ==s _)).
  assert (forall st0, storm_ok id st0 -> storm_ok id (st0 <| st_members ::= map (clear_member_session dead) |>)) as Hmap.
  { intros st0 []. split; simpl; auto.
    - by rewrite length_map.
    - clear -so_known0 Hcm. induction so_known0 as [|m ms Hm Hms IHm]; simpl; constructor; [|done].
      by destruct (Hcm m) as [-> _].
    - erewrite <- (list_fmap_compose (clear_member_session dead) sm_Key), list_fmap_ext; [exact so_distinct0|].
      intros i m _. apply Hcm.
    - rewrite so_fingerprints0. clear -Hcm. induction (st_members st0) as [|m ms IHm]; [done|].
      simpl map. rewrite !fmap_cons. destruct (Hcm m) as [_ ->]. by rewrite IHm. }
  apply Hmap. destruct (_ || _); [by destruct Hso; split|done].
Qed.

Inductive storm_op :=
  | OpObserve (env : storm_env) (now : Time) (sig : Signal)
  | OpEnableMining (dims : list MinedDimension) (min : Z)
  | OpEnableClusterFallback (installed : bool)
  | OpNoteMemberSession (key : EventKey) (sid : string)
  | OpNoteMemberActivity (now : Time) (key : EventKey) (seen : Time)
  | OpBindStormSession (id sid : string)
  | OpClearStormSession (fp dead : string)
  | OpMemberResolved (key : EventKey)
  | OpMemberReverted (now : Time) (key : EventKey).

(** A rejected configuration leaves the correlator as it was. *)
Definition run_storm_op (op : storm_op) (c : StormCorrelator) : StormCorrelator :=
  match op with
  | OpObserve env now sig => (Observe env now sig c).1
  | OpEnableMining dims min => match EnableMining dims min c with inr c' => c' | inl _ => c end
  | OpEnableClusterFallback b => match EnableClusterFallback b c with inr c' => c' | inl _ => c end
  | OpNoteMemberSession key sid => NoteMemberSession key sid c
  | OpNoteMemberActivity now key seen => NoteMemberActivity now key seen c
  | OpBindStormSession id sid => BindStormSession id sid c
  | OpClearStormSession fp dead => (ClearStormSession fp dead c).1
  | OpMemberResolved key => (MemberResolved key c).1
  | OpMemberReverted now key => MemberReverted now key c
  end.

Definition run_storm_ops (ops : list storm_op) (c : StormCorrelator) : StormCorrelator :=
  fold_left (fun c op => run_storm_op op c) ops c.

Lemma run_storm_op_ok op c : correlator_ok c -> correlator_ok (run_storm_op op c).
Proof.
  intros Hok. destruct op; cbn [run_storm_op].
  - by apply Observe_ok.
  - unfold EnableMining. destruct dims; [done|]. destruct (ValidateMinedDimensions _); [done|].
    destruct (Z.ltb_spec min (sc_min c)); [done|]. destruct Hok. split; simpl; auto.
  - destruct installed; simpl; [|done]. by destruct Hok; split.
  - destruct Hok. split; simpl; auto. by rewrite note_session_keys.
  - unfold NoteMemberActivity, owner_storm. destruct (sc_storms c !! _) as [st|] eqn:Es; [|done].
    apply (put_storm_ok _ st); [done|done| |by rewrite see_resolved].
    apply see_ok. pose proof (co_storms _ Hok _ _ Es) as []. by split.
  - unfold BindStormSession. destruct (sc_storms c !! id) as [st|] eqn:Es; [|done].
    apply (put_storm_ok _ st); [done|done| |done]. pose proof (co_storms _ Hok _ _ Es) as []. by split.
  - apply clear_session_ok; [done|]. intros id st. apply elem_of_range.
  - by apply MemberResolved_ok.
  - by apply MemberReverted_ok.
Qed.

Lemma run_storm_ops_ok ops c : correlator_ok c -> correlator_ok (run_storm_ops ops c).
Proof.
  revert c; induction ops as [|op ops IH]; intros c Hok; simpl; [done|]. by apply IH, run_storm_op_ok.
Qed.
End facts.

Lemma NewStormCorrelator_ok window min resolver c :
  NewStormCorrelator window min resolver = inr c -> correlator_ok c.
Proof.
  unfold NewStormCorrelator. destruct (_ <=? _); [done|]. destruct (Z.ltb_spec min 2); [done|].
  destruct resolver; simpl; [|done]. intros; simplify_eq. split; simpl; try done.
  constructor.
Qed.

(** ** Members stay in the order they came *)

Definition member_keys (st : stormState) : list EventKey := sm_Key <$> st_members st.

(** The storm [id] is not closed as idle by the pruning an observation starts with. *)
Definition outlives `{RangeOrder} (op : storm_op) (c : StormCorrelator) (id : string) : Prop :=
  match op with OpObserve _ now _ => sc_storms (prune now c) !! id = sc_storms c !! id | _ => True end.

Lemma see_members seen st : member_keys (see seen st) = member_keys st.
Proof. unfold see. by destruct (After _ _). Qed.

Lemma addMember_members m sev seen now st : member_keys st `prefix_of` member_keys (addMember m sev seen now st).
Proof.
  unfold addMember, raise_severity, see, recordMember, member_keys. cbv zeta.
  repeat case_match; simpl; try done; repeat (case_match; simpl); try done; rewrite fmap_app; by apply prefix_app_r.
Qed.

Lemma sizeUpdate_members now st : member_keys (maybeSizeUpdate now st).1 = member_keys st.
Proof. unfold maybeSizeUpdate. cbv zeta. destruct (_ && _); [done|]. by destruct (_ <? _). Qed.

(** A storm written back over itself, its members a prefix of the new ones. *)
Lemma put_members id st new c k old old' : sc_storms c !! id = Some st -> member_keys st `prefix_of` member_keys new ->
  sc_storms c !! k = Some old -> <[id := new]> (sc_storms c) !! k = Some old' -> member_keys old `prefix_of` member_keys old'.
Proof.
  intros Hst Hp Hk. destruct (decide (id = k)) as [<-|Hne]; [rewrite lookup_insert_eq|rewrite lookup_insert_ne by done]; intros; by simplify_eq.
Qed.

Section order.
Context `{RangeOrder}.

Lemma Observe_members env now sig c id st st' : correlator_ok c ->
  sc_storms (prune now c) !! id = Some st -> sc_storms (Observe env now sig c).1 !! id = Some st' ->
  member_keys st `prefix_of` member_keys st'.
Proof.
  intros Hok0 Hst. pose proof (prune_ok now c Hok0) as Hok.
  destruct (Observe_cases env now sig c) as [(i & sti & Hsti & ->)|[->|[->|(a & source & group & Hf & ->)]]].
  - apply (put_members i sti); [done|rewrite sizeUpdate_members; apply addMember_members|done].
  - cbn [fst]. intros; by simplify_eq.
  - cbn. intros; by simplify_eq.
  - set (p := windowed _ _ _ _) in *. set (c2 := _ <| sc_pending ::= window_put p |>) in *.
    assert (correlator_ok c2) as Hok2 by (by apply window_ok).
    destruct (forms_group _ _ _ _ _ _ _ Hok2 Hf) as [Hnd Hnone]. unfold formed.
    pose proof (form_spec a source group now c2 Hok2 Hnd Hnone) as Hform.
    destruct (form a source group now c2) as [c' st1]. destruct Hform as (_ & _ & _ & _ & _ & _ & _ & _ & _ & Hrest).
    cbn [fst]. rewrite Hrest; [change (sc_storms c2) with (sc_storms (prune now c)); intros; by simplify_eq|].
    intros ->. change (sc_storms c2) with (sc_storms (prune now c)) in Hnone. congruence.
Qed.

Lemma clear_members fp dead l c id st st' : (forall i s, (i, s) ∈ l -> sc_storms c !! i = Some s) ->
  sc_storms c !! id = Some st -> sc_storms (clear_session fp dead l c).1 !! id = Some st' -> member_keys st `prefix_of` member_keys st'.
Proof.
  induction l as [|[i s] l IH]; intros Hl Hst; cbn [clear_session fst]; [intros; by simplify_eq|].
  destruct (_ || _); [|apply IH; [intros; apply Hl; set_solver|done]]. cbv zeta. simpl.
  apply (put_members i s); [apply Hl; set_solver| |done]. unfold member_keys.
  assert (forall l0 : list StormMember, sm_Key <$> map (clear_member_session dead) l0 = sm_Key <$> l0) as Hk.
  { intros l0. rewrite <- (list_fmap_compose (clear_member_session dead) sm_Key). apply list_fmap_ext.
    intros j m _. simpl. unfold clear_member_session. by destruct (_ ==s _). }
  destruct (_ || _); simpl; by rewrite Hk.
Qed.

(** Members are only ever added at the end, while the storm is open. *)
Lemma run_storm_op_members op c id st st' : correlator_ok c -> outlives op c id ->
  sc_storms c !! id = Some st -> sc_storms (run_storm_op op c) !! id = Some st' -> member_keys st `prefix_of` member_keys st'.
Proof.
  intros Hok Hout Hst. destruct op; cbn [run_storm_op outlives] in *.
  - apply Observe_members; [done|congruence].
  - unfold EnableMining. destruct dims; [cbn; intros; by simplify_eq|]. destruct (ValidateMinedDimensions _); [cbn; intros; by simplify_eq|].
    destruct (min <? sc_min c); cbn; intros; by simplify_eq.
  - destruct installed; simpl; intros; by simplify_eq.
  - simpl. intros; by simplify_eq.
  - unfold NoteMemberActivity, owner_storm. destruct (sc_storms c !! default "" _) as [s|] eqn:Es; [|intros; by simplify_eq].
    simpl. apply (put_members _ s); [done| |done]. by rewrite see_members.
  - unfold BindStormSession. destruct (sc_storms c !! id0) as [s|] eqn:Es; [|intros; by simplify_eq]. by apply (put_members id0 s).
  - apply clear_members; [|done]. intros i s. apply elem_of_range.
  - unfold MemberResolved. cbv zeta. destruct (sc_byKey c !! _) as [i|]; [|cbn; intros; by simplify_eq].
    destruct (sc_storms c !! i) as [s|] eqn:Es; [|cbn; intros; by simplify_eq]. fold (mark_resolved (canonical_key key) s).
    destruct (_ <? _); simpl.
    + apply (put_members i s); [done| |done]. unfold mark_resolved. by case_bool_decide.
    + intros Hd%lookup_delete_Some. destruct Hd as [_ Hd]. by simplify_eq.
  - unfold MemberReverted. cbv zeta. destruct (sc_byKey c !! _) as [i|]; [|intros; by simplify_eq].
    destruct (sc_storms c !! i) as [s|] eqn:Es; [|intros; by simplify_eq]. case_bool_decide; [|intros; by simplify_eq].
    by apply (put_members i s).
Qed.
End order.

(** C38: a storm's books balance. After any sequence of observations, session
    reports, resolutions, reversions and reconfigurations, in any map order: every
    open storm is filed under its own key, counts exactly its distinct members, counts
    exactly the ones not yet resolved, and lists distinct members with their
    fingerprints in step, all of them up to 1,000 and 1,000 of them beyond; every
    indexed incident belongs to an open storm that knows it, and no incident is windowed
    twice. And while a storm stays open its list only grows at its end, whatever the
    next operation is, so the members listed are the first ones. *)
Theorem storm_books_balance `{RangeOrder} (window : Duration) (min : Z) (resolver : bool)
    (c0 : StormCorrelator) (ops : list storm_op)
    (Hnew : NewStormCorrelator window min resolver = inr c0) :
  let c := run_storm_ops ops c0 in
  (forall id st, sc_storms c !! id = Some st ->
     st_id st = id /\ st_memberCount st = Z.of_nat (size (st_resolved st)) /\
     st_unresolved st = Z.of_nat (unresolved_of (st_resolved st)) /\
     length (st_members st) = Nat.min (size (st_resolved st)) maxStormMembers /\
     Forall (fun m => is_Some (st_resolved st !! sm_Key m)) (st_members st) /\
     NoDup (member_keys st) /\
     st_fingerprints st = sm_Fingerprint <$> st_members st) /\
  (forall k id, sc_byKey c !! k = Some id ->
     exists st, sc_storms c !! id = Some st /\ is_Some (st_resolved st !! k)) /\
  NoDup (pending_keys (sc_pending c)) /\ (sc_mined c <> [] -> sc_min c <= sc_minedMin c) /\
  (forall op id st st', outlives op c id -> sc_storms c !! id = Some st -> sc_storms (run_storm_op op c) !! id = Some st' ->
     member_keys st `prefix_of` member_keys st').
Proof.
  pose proof (run_storm_ops_ok ops c0 (NewStormCorrelator_ok _ _ _ _ Hnew)) as Hok. pose proof Hok as [].
  split; [|split_and!; [done..|]].
  - intros id st Hst. by destruct (co_storms0 id st Hst).
  - intros op id st st'. by apply run_storm_op_members.
Qed.

Definition demo_correlator : StormCorrelator :=
  mkCorrelator DefaultStormWindow DefaultStormMin DefaultExternalAncestors [] 0 false [] ∅ ∅.

(** Three pods of one node failing within a minute, and a fourth later. *)
Definition pod_signal (uid : string) (kind : string) : Signal :=
  zero_signal <| sig_Kind := KindK8sEvent |> <| sig_Severity := SeverityWarning |>
    <| sig_Event := zero_event <| te_Key := mkEventKey uid "OOMKilled" |> <| te_KindOfObject := kind |>
                               <| te_Namespace := "default" |> <| te_Name := uid |> |>.
Definition on_node : storm_env := mkEnv (fun _ => [mkAncestor "Node" "" "n1"]) 0.
Definition two_observed : list storm_op :=
  [OpObserve on_node Hour (pod_signal "a" "Pod"); OpObserve on_node (Hour + Second) (pod_signal "b" "Pod")].
Definition three_observed : list storm_op := two_observed ++ [OpObserve on_node (Hour + 2 * Second) (pod_signal "c" "Pod")].
Definition fourth_observed : storm_op := OpObserve on_node (Hour + 2 * Minute) (pod_signal "d" "Pod").

(** The storm counts three members, the first one resolved and still listed, and then four. *)
Lemma storm_books_balance_witness :
  let c := run_storm_ops (H := plain_range) (three_observed ++ [OpMemberResolved (mkEventKey "a" "OOMKilled")]) demo_correlator in
  exists st st', sc_storms c !! "Node//n1" = Some st /\ st_memberCount st = 3 /\ st_unresolved st = 2 /\
    st_memberCount st = Z.of_nat (size (st_resolved st)) /\ NoDup (member_keys st) /\
    sc_storms (run_storm_op (H := plain_range) fourth_observed c) !! "Node//n1" = Some st' /\
    (length (st_members st') = 4)%nat /\ member_keys st `prefix_of` member_keys st'.
Proof.
  cbv zeta. set (ops := three_observed ++ _).
  pose proof (storm_books_balance (H := plain_range) DefaultStormWindow DefaultStormMin true demo_correlator ops eq_refl) as Hb.
  cbv zeta in Hb. set (c := run_storm_ops ops demo_correlator) in *. destruct Hb as (Hst & _ & _ & _ & Hpre).
  assert (exists st, sc_storms c !! "Node//n1" = Some st /\ st_memberCount st = 3 /\ st_unresolved st = 2) as (st & Es & Hc & Hu)
    by (eexists; vm_compute; split_and!; reflexivity).
  assert (exists st', sc_storms (run_storm_op (H := plain_range) fourth_observed c) !! "Node//n1" = Some st' /\ length (st_members st') = 4%nat) as (st' & Es' & Hl)
    by (eexists; vm_compute; split_and!; reflexivity).
  destruct (Hst _ _ Es) as (_ & Hcount & _ & _ & _ & Hnd & _). exists st, st'.
  split; [exact Es|]. split; [exact Hc|]. split; [exact Hu|]. split; [exact Hcount|]. split; [exact Hnd|]. split; [exact Es'|]. split; [exact Hl|].
  apply (Hpre fourth_observed "Node//n1" st st'); [|exact Es|exact Es']. vm_compute. reflexivity.
Defined.

(** ** Formation *)

(** What makes windowed incidents one storm: a declared key within its source's
    window, or an equal value of a mined dimension. *)
Definition shares (c : StormCorrelator) (env : storm_env) (now : Time) (a : Ancestor) (source : string)
    (group : list pendingIncident) : Prop :=
  (exists min window, formation_rule c env source min window /\ min <= Z.of_nat (length group) /\
     Forall (fun q => pi_keys q !! Ancestor_Key a <> None /\ now - window < pi_at q) group) \/
  (exists d, d ∈ sc_mined c /\ source = MinedKeySource (md_Name d) /\ an_Kind a = md_Kind d /\
     an_Name a <> "" /\ sc_minedMin c <= Z.of_nat (length group) /\
     Forall (fun q => pi_mined q !! md_Name d = Some (an_Name a)) group).

Lemma forms_shares c env now p a source group :
  forms c env now p a source group -> shares c env now a source group.
Proof.
  intros [a' source' min window _ _ Hrule Hlen|d v Hd Hv _ _ Hlen].
  - left. exists min, window. split_and!; [done|done|]. apply list.Forall_forall.
    intros q Hq. apply list_elem_of_filter in Hq as [[Hk Hat] _]. split; [done|].
    unfold After, Add in Hat. btrue. lia.
  - right. exists d. split_and!; [done|done|done|done|done|]. apply list.Forall_forall.
    intros q Hq. by apply list_elem_of_filter in Hq as [? _].
Qed.

Lemma window_put_in p l q : q ∈ window_put p l -> q = p \/ q ∈ l.
Proof.
  induction l as [|x l IH]; cbn [window_put]; [set_solver|].
  case_bool_decide; rewrite !elem_of_cons; [tauto|]. intros [?|?%IH]; tauto.
Qed.

Lemma window_put_self p l : p ∈ window_put p l.
Proof.
  induction l as [|x l IH]; cbn [window_put]; [set_solver|]. case_bool_decide; rewrite elem_of_cons; auto.
Qed.

(** A storm forms only over incidents that share its key. When an observation
    forms a storm, no open storm owned that key; the members are distinct windowed
    incidents, the observed one among them; either all of them carry the declared key
    and were observed within its source's window, as many as that source demands
    (never fewer than the correlator's minimum), or all carry the same non-empty value
    of a mined dimension, at least the mining threshold of them; the storm counts all
    of them, indexes all of them, and takes them out of the window. *)
Theorem storm_forms_over_shared_key `{RangeOrder} (env : storm_env) (now : Time) (sig : Signal)
    (c c' : StormCorrelator) (info : StormInfo) (members : list StormMember) (member : StormMember)
    (Hok : correlator_ok c) (Hw : 0 < sc_window c)
    (Hobs : Observe env now sig c = (c', StormFormed info members member)) :
  let p := windowed (prune now c) env now sig in
  let c2 := (prune now c) <| sc_pending ::= window_put p |> in
  exists group st, sc_storms (prune now c) !! si_ID info = None /\
    sc_storms c' !! si_ID info = Some st /\ storm_info st = info /\ st_members st = members /\
    NoDup (pending_keys group) /\ p ∈ group /\
    (forall q, q ∈ group -> q = p \/ q ∈ sc_pending (prune now c)) /\
    shares c2 env now (si_Ancestor info) (si_KeySource info) group /\
    sc_min c <= Z.of_nat (length group) /\ si_AffectedCount info = Z.of_nat (length group) /\
    (forall k, k ∈ pending_keys group -> sc_byKey c' !! k = Some (si_ID info)) /\
    (forall q, q ∈ sc_pending c' -> sm_Key (pi_member q) ∉ pending_keys group).
Proof.
  cbv zeta. pose proof (prune_ok now c Hok) as Hok1.
  destruct (prune_shrinks now c) as (_ & _ & _ & Hmin & Hwin & Hmined & Hmm & _).
  destruct (Observe_cases env now sig c) as [(id & st & _ & E)|[E|[E|(a & source & group & Hf & E)]]];
    rewrite Hobs in E; try discriminate E.
  set (p := windowed (prune now c) env now sig) in *.
  set (c2 := (prune now c) <| sc_pending ::= window_put p |>) in *.
  assert (correlator_ok c2) as Hok2 by (by apply window_ok).
  destruct (forms_group _ _ _ _ _ _ _ Hok2 Hf) as [Hnd Hnone]. unfold formed in E.
  pose proof (form_spec a source group now c2 Hok2 Hnd Hnone) as Hform.
  destruct (form a source group now c2) as [c3 st]. simplify_eq.
  destruct Hform as (_ & Hst & Hid & Hks & Ha & Hcnt & _ & Hbk & Hpend & _).
  exists group, st. simpl. rewrite Hid, Hks, Ha, Hcnt.
  assert (pi_at p = now /\ pi_mined p = minedValues (sc_mined (prune now c)) sig) as [Hat Hpm].
  { unfold p, windowed. destruct (window_keys_member (candidates (prune now c) env sig)
      (mkPending now (observe_member now sig) (sig_Severity sig) (sig_Zone sig)
        (if IsZero (te_LastSeen (sig_Event sig)) then now else te_LastSeen (sig_Event sig))
        (minedValues (sc_mined (prune now c)) sig) ∅ ∅ [])) as (_ & -> & ->). done. }
  split_and!; try done.
  - destruct Hf as [a' s' m w _ Hk Hrule _|d v Hd Hv Hpv _ _]; apply list_elem_of_filter;
      (split; [|apply window_put_self]); [|done].
    split; [done|]. unfold After, Add. rewrite Hat. apply Z.ltb_lt.
    destruct Hrule as [(_ & _ & ->)|(_ & _ & ->)]; [simpl; rewrite Hwin; lia|unfold simultaneityWindow, Second; lia].
  - intros q Hq. apply (window_put_in p). destruct Hf; by apply list_elem_of_filter in Hq as [_ Hq].
  - by eapply forms_shares.
  - destruct Hf as [a' s' m w _ _ Hrule Hlen|d v Hd _ _ _ Hlen].
    + destruct Hrule as [(_ & -> & _)|(_ & Hm & _)]; [simpl in Hlen; lia|].
      unfold simultaneityMin in Hm. repeat case_hyp Hm. simpl in Hlen. lia.
    + pose proof (co_mined _ Hok2) as Hcm. simpl in Hcm, Hlen.
      assert (sc_mined (prune now c) <> []) as Hne by (intros Hnil; simpl in Hd; rewrite Hnil in Hd; set_solver).
      specialize (Hcm Hne). lia.
  - intros q Hq. by apply Hpend.
Qed.

Definition two_pods : StormCorrelator := run_storm_ops (H := plain_range) two_observed demo_correlator.
Definition third_pod : StormCorrelator * StormVerdict :=
  Observe (H := plain_range) on_node (Hour + 2 * Second) (pod_signal "c" "Pod") two_pods.

Lemma storm_forms_over_shared_key_witness :
  exists group st, sc_storms third_pod.1 !! "Node//n1" = Some st /\ NoDup (pending_keys group) /\
    3 <= Z.of_nat (length group).
Proof.
  assert (match third_pod.2 with StormFormed info _ _ => si_ID info = "Node//n1" | _ => False end) as Hid
    by (vm_compute; reflexivity).
  destruct third_pod as [c' [|info members member|info member u]] eqn:E; cbn [fst snd] in *;
    [destruct Hid| |destruct Hid].
  assert (correlator_ok two_pods) as Hok
    by (apply run_storm_ops_ok, (NewStormCorrelator_ok DefaultStormWindow DefaultStormMin true); reflexivity).
  destruct (storm_forms_over_shared_key (H := plain_range) on_node (Hour + 2 * Second) (pod_signal "c" "Pod")
    two_pods c' info members member Hok eq_refl E) as (group & st & _ & Hst & _ & _ & Hnd & _ & _ & _ & Hmin & _).
  rewrite Hid in Hst. exists group, st. split; [exact Hst|]. split; [exact Hnd|exact Hmin].
Defined.

(** ** Resolution *)

(** A storm resolves exactly when its last member does. Reporting a member
    resolved answers with the storm's snapshot; it is final if and only if no other
    member is still unresolved, and then the storm is closed and nothing is indexed
    under it any more, so a later incident forms a fresh storm; otherwise the storm
    stays open with that member marked. *)
Theorem storm_resolves_with_last_member `{RangeOrder} (key : EventKey) (id : string) (st : stormState)
    (c : StormCorrelator)
    (Hok : correlator_ok c)
    (Hk : sc_byKey c !! canonical_key key = Some id) (Hst : sc_storms c !! id = Some st) :
  exists info last, (MemberResolved key c).2 = Some (info, last) /\
    (last = true <-> forall k', k' <> canonical_key key -> st_resolved st !! k' <> Some false) /\
    (last = true -> sc_storms (MemberResolved key c).1 !! id = None /\
       forall k', sc_byKey (MemberResolved key c).1 !! k' <> Some id) /\
    (last = false -> exists st', sc_storms (MemberResolved key c).1 !! id = Some st' /\
       st_resolved st' !! canonical_key key = Some true /\
       forall k', k' <> canonical_key key -> st_resolved st' !! k' = st_resolved st !! k').
Proof.
  unfold MemberResolved. cbv zeta. set (k := canonical_key key) in *. rewrite Hk, Hst.
  fold (mark_resolved k st).
  destruct (storm_member_known _ _ _ _ Hok Hk Hst) as [b Hb].
  destruct (mark_resolved_ok id k st (co_storms _ Hok _ _ Hst)) as [Hso _].
  assert (st_resolved (mark_resolved k st) !! k = Some true /\
    forall k', k' <> k -> st_resolved (mark_resolved k st) !! k' = st_resolved st !! k') as [Hkt Hother].
  { unfold mark_resolved. case_bool_decide as Hf; simpl.
    - rewrite lookup_insert_eq. split; [done|]. intros. by rewrite lookup_insert_ne.
    - split; [|done]. destruct b; [done|congruence]. }
  assert (st_unresolved (mark_resolved k st) <= 0 <->
    forall k', k' <> k -> st_resolved st !! k' <> Some false) as Hiff.
  { rewrite (so_unresolved _ _ Hso). split.
    - intros H0 k' Hne Hf. assert (unresolved_of (st_resolved (mark_resolved k st)) = 0%nat) as Hz by lia.
      rewrite unresolved_zero in Hz. rewrite <- Hother in Hf by done. specialize (Hz _ _ Hf). done.
    - intros Hall. enough (unresolved_of (st_resolved (mark_resolved k st)) = 0%nat) by lia.
      apply unresolved_zero. intros k' b' Hb'. destruct (decide (k' = k)) as [->|Hne]; [congruence|].
      rewrite Hother in Hb' by done. destruct b'; [done|]. by destruct (Hall k' Hne). }
  destruct (Z.ltb_spec 0 (st_unresolved (mark_resolved k st))) as [Hpos|Hzero].
  - exists (storm_info (mark_resolved k st)), false. split; [done|]. split; [split; [done|]|].
    { intros Hall. apply Hiff in Hall. lia. }
    split; [done|]. intros _. exists (mark_resolved k st). simpl. by rewrite lookup_insert_eq.
  - exists (storm_info (mark_resolved k st)), true. split; [done|]. split; [tauto|]. split; [|done].
    intros _. simpl. rewrite lookup_delete_eq. split; [done|].
    intros k' Hk'. apply map_lookup_filter_Some in Hk' as [_ Hne]. done.
Qed.

Lemma storm_resolves_with_last_member_witness :
  exists info last, (MemberResolved (mkEventKey "a" "OOMKilled") third_pod.1).2 = Some (info, last).
Proof.
  assert (match sc_storms third_pod.1 !! "Node//n1" with Some _ => True | None => False end) as Hsome
    by (vm_compute; exact I).
  destruct (sc_storms third_pod.1 !! "Node//n1") as [st|] eqn:Est; [|destruct Hsome].
  assert (correlator_ok third_pod.1) as Hok.
  { apply Observe_ok, run_storm_ops_ok, (NewStormCorrelator_ok DefaultStormWindow DefaultStormMin true).
    reflexivity. }
  destruct (storm_resolves_with_last_member (H := plain_range) (mkEventKey "a" "OOMKilled") "Node//n1" st third_pod.1)
    as (info & last & Hr & _); [exact Hok|vm_compute; reflexivity|exact Est|].
  exists info, last. exact Hr.
Defined.

(** ** Size updates *)

(** The size updates of a run of attachments to one storm, by their instants. *)
Fixpoint attach_updates (st : stormState) (l : list (StormMember * Severity * Time * Time)) : list Time :=
  match l with
  | [] => []
  | (m, sev, seen, now) :: l =>
      let '(st, u) := maybeSizeUpdate now (addMember m sev seen now st) in
      match u with
      | Some _ => now :: attach_updates st l
      | None => attach_updates st l
      end
  end.

Fixpoint spaced (gap : Duration) (t : Time) (us : list Time) : Prop :=
  match us with
  | [] => True
  | u :: us => t + gap <= u /\ spaced gap u us
  end.

Lemma addMember_reported m sev seen now st :
  st_reportedAt (addMember m sev seen now st) = st_reportedAt st /\
  st_reportedCount (addMember m sev seen now st) = st_reportedCount st.
Proof.
  unfold addMember, see, raise_severity, recordMember. cbv zeta.
  destruct (After _ _); simpl; destruct (severityRank _ <? _); simpl;
    destruct (st_resolved st !! sm_Key m) as [[]|]; simpl; try done;
    destruct (_ <>s _); simpl; by destruct (_ <? _)%nat.
Qed.

(** Size updates are rate-limited. However many members attach to a storm and
    whenever, the size updates it reports are at least a minute apart, the first one
    at least a minute after the formation report. *)
Theorem size_updates_rate_limited (st : stormState) (l : list (StormMember * Severity * Time * Time)) :
  spaced stormUpdateMinInterval (st_reportedAt st) (attach_updates st l).
Proof.
  revert st; induction l as [|[[[m sev] seen] now] l IH]; intros st; cbn [attach_updates]; [done|].
  destruct (addMember_reported m sev seen now st) as [Hat _].
  unfold maybeSizeUpdate. cbv zeta.
  destruct (_ && _); [rewrite <- Hat; apply IH|].
  destruct (Z.ltb_spec (Sub now (st_reportedAt (addMember m sev seen now st))) stormUpdateMinInterval) as [|Hge];
    [rewrite <- Hat; apply IH|].
  cbn [spaced]. split; [|match goal with |- spaced _ _ (attach_updates ?s _) => exact (IH s) end].
  rewrite Hat in Hge. revert Hge. unfold_time. unfold stormUpdateMinInterval, Minute, Second. lia.
Qed.

(** ** The cluster fallback *)

Definition share_exact (fleet : Z) : bool := bool_decide (fleet_share fleet = Some ((fleet + 4) / 5)).

Lemma shares_exact_1000 : forallb share_exact (seqZ 1 1000) = true.
Proof. vm_compute. reflexivity. Qed.

(** The cluster fallback needs a fifth of the fleet. For every fleet of up to
    1,000 nodes the float64 share is exactly the fifth rounded up, so the threshold is
    the largest of the correlator's minimum, three nodes and a fifth of the fleet; with
    no denominator the fallback is off. *)
Theorem cluster_fallback_threshold (c : StormCorrelator) (env : storm_env)
    (Hfleet : env_fleet env <= 1000) :
  simultaneityMin c env =
    if sc_fallback c && (0 <? env_fleet env)
    then Some (Z.max (Z.max (sc_min c) 3) ((env_fleet env + 4) / 5)) else None.
Proof.
  unfold simultaneityMin. destruct (sc_fallback c); simpl; [|done].
  destruct (Z.leb_spec (env_fleet env) 0), (Z.ltb_spec 0 (env_fleet env)); try lia; [done|].
  pose proof (proj1 (forallb_forall _ _) shares_exact_1000 (env_fleet env)) as Hs.
  unfold share_exact in Hs. apply bool_decide_eq_true in Hs; [by rewrite Hs|].
  apply list_elem_of_In, elem_of_seqZ. lia.
Qed.

Lemma cluster_fallback_threshold_witness :
  simultaneityMin (demo_correlator <| sc_fallback := true |>) (mkEnv (fun _ => []) 31) = Some 7.
Proof.
  exact (cluster_fallback_threshold (demo_correlator <| sc_fallback := true |>) (mkEnv (fun _ => []) 31)
    ltac:(vm_compute; congruence)).
Defined.

(** ** Mining must explain itself *)

Lemma validate_from_spec i seen dims :
  validate_from i seen dims = None <->
  Forall (fun d => md_Name d <> "" /\ md_Kind d <> "" /\ md_Value d <> None /\ md_Name d ∉ seen) dims /\
  NoDup (md_Name <$> dims).
Proof.
  revert i seen; induction dims as [|d dims IH]; intros i seen; cbn [validate_from].
  { split; [intros _; split; constructor|done]. }
  destruct (md_Name d ==s "") eqn:E1, (md_Kind d ==s "") eqn:E2; btrue;
    try (split; [done|]; intros [Hf _]; apply Forall_cons_iff in Hf as [(? & ? & _) _]; done).
  destruct (md_Value d) as [f|] eqn:E3;
    [|split; [done|]; intros [Hf _]; apply Forall_cons_iff in Hf as [(_ & _ & ? & _) _]; done].
  destruct (bool_decide (md_Name d ∈ seen)) eqn:E4; btrue;
    [split; [done|]; intros [Hf _]; apply Forall_cons_iff in Hf as [(_ & _ & _ & ?) _]; done|].
  rewrite IH. rewrite fmap_cons, list.NoDup_cons, Forall_cons_iff. split.
  - intros [Hf Hnd]. rewrite list.Forall_forall in Hf. split; [split|split; [|done]].
    + by rewrite E3.
    + apply list.Forall_forall. intros d' Hd'. destruct (Hf d' Hd') as (? & ? & ? & ?). split_and!; auto; set_solver.
    + intros (d' & Hn & Hd')%list_elem_of_fmap. destruct (Hf d' Hd') as (_ & _ & _ & Hns). set_solver.
  - intros [[_ Hf] [Hni Hnd]]. split; [|done]. rewrite list.Forall_forall in Hf |- *.
    intros d' Hd'. destruct (Hf d' Hd') as (? & ? & ? & ?). split_and!; auto.
    rewrite elem_of_union, elem_of_singleton. intros [Heq|?]; [|done].
    apply Hni, list_elem_of_fmap. by exists d'.
Qed.

(** Mining is only ever enabled with keys that explain themselves, and never
    makes a storm cheaper. Enabling succeeds exactly for a non-empty list of dimensions
    that each have a name, a kind to render the key with and an extractor, no name used
    twice, and a threshold no lower than the correlator's own; otherwise it is an error
    and nothing changes. *)
Theorem mining_is_explainable (dims : list MinedDimension) (min : Z) (c : StormCorrelator) :
  EnableMining dims min c = inr (c <| sc_mined := dims |> <| sc_minedMin := min |>) /\
  (dims <> [] /\ Forall (fun d => md_Name d <> "" /\ md_Kind d <> "" /\ md_Value d <> None) dims /\
   NoDup (md_Name <$> dims) /\ sc_min c <= min) \/
  (exists err, EnableMining dims min c = inl err) /\
  ~ (dims <> [] /\ Forall (fun d => md_Name d <> "" /\ md_Kind d <> "" /\ md_Value d <> None) dims /\
     NoDup (md_Name <$> dims) /\ sc_min c <= min).
Proof.
  pose proof (validate_from_spec 0 ∅ dims) as Hv. fold (ValidateMinedDimensions dims) in Hv.
  assert (Forall (fun d => md_Name d <> "" /\ md_Kind d <> "" /\ md_Value d <> None /\ md_Name d ∉ (∅ : gset string)) dims
    <-> Forall (fun d => md_Name d <> "" /\ md_Kind d <> "" /\ md_Value d <> None) dims) as Heq.
  { rewrite !list.Forall_forall. split; intros Hf d Hd; specialize (Hf d Hd); set_solver. }
  rewrite Heq in Hv. unfold EnableMining. destruct dims as [|d0 rest]; [right; split; [by eexists|tauto]|].
  destruct (ValidateMinedDimensions (d0 :: rest)) as [err|].
  { right. split; [by eexists|]. intros (_ & Hf & Hn & _). discriminate (proj2 Hv (conj Hf Hn)). }
  destruct (proj1 Hv eq_refl) as [Hf Hn].
  destruct (Z.ltb_spec min (sc_min c)); [right; split; [by eexists|]; intros (_ & _ & _ & ?); lia|].
  left. split; [done|]. split; [done|]. split; [done|]. split; [done|lia].
Qed.

(** ** Behaviours the comments do not describe *)

#[local] Existing Instance plain_range.

Definition key_of (uid : string) : EventKey := mkEventKey uid "OOMKilled".

(** Incidents resolve under an owner; the node key outranks it once it is known. *)
Definition under (ancestors : list Ancestor) : storm_env := mkEnv (fun _ => ancestors) 0.
Definition web_app : Ancestor := mkAncestor "Deployment" "default" "web".
Definition node1 : Ancestor := mkAncestor "Node" "" "n1".

(** A member that moves to a better storm can never be cleared from the first.
    When a storm's member fires again while a storm on a better key is open, it joins
    that one and its index moves with it; the first storm still counts it as
    unresolved, and its resolution is only ever reported to the second. Here every
    incident of both storms resolves, the better storm closes, and the first one stays
    open with one unresolved member it will never hear about. *)
Theorem moved_member_blocks_first_storm :
  let fire env t uid := OpObserve env (Hour + t * Second) (pod_signal uid "Pod") in
  let c := run_storm_ops
    [ fire (under [web_app]) 0 "a"; fire (under [web_app]) 1 "b"; fire (under [web_app]) 2 "c";
      fire (under [node1]) 3 "d"; fire (under [node1]) 4 "e"; fire (under [node1]) 5 "f";
      fire (under [node1; web_app]) 6 "a";
      OpMemberResolved (key_of "a"); OpMemberResolved (key_of "b"); OpMemberResolved (key_of "c");
      OpMemberResolved (key_of "d"); OpMemberResolved (key_of "e"); OpMemberResolved (key_of "f") ]
    demo_correlator in
  st_unresolved <$> sc_storms c !! Ancestor_Key web_app = Some 1 /\
  sc_storms c !! Ancestor_Key node1 = None /\ sc_byKey c !! key_of "a" = None.
Proof. vm_compute. done. Qed.

(** The observed incident is not always a storm's last member. The verdict's
    comment lists the members in arrival order with the observed incident last; a
    windowed incident that fires again keeps its first place, so the one whose
    observation forms the storm may be listed first. *)
Theorem forming_incident_may_be_first :
  let fire ancestors t uid := OpObserve (under ancestors) (Hour + t * Second) (pod_signal uid "Pod") in
  let c := run_storm_ops [ fire [web_app] 0 "a"; fire [node1] 1 "b"; fire [node1] 2 "c" ] demo_correlator in
  match (Observe (under [node1]) (Hour + 3 * Second) (pod_signal "a" "Pod") c).2 with
  | StormFormed _ members member =>
      sm_Key <$> members = [key_of "a"; key_of "b"; key_of "c"] /\ sm_Key member = key_of "a"
  | _ => False
  end.
Proof. vm_compute. done. Qed.
