(* ===== verification/Effects.v ===== *)
(** The state monad of the dispatcher's effects: a handler maps the world before it
    to its result and the world after it. *)
From S2P Require Import Prelude.

Definition M (W A : Type) : Type := W -> A * W.

#[global] Instance M_ret W : MRet (M W) := fun A x w => (x, w).
#[global] Instance M_bind W : MBind (M W) := fun A B f m w => let '(x, w) := m w in f x w.
#[global] Instance M_fmap W : FMap (M W) := fun A B f m w => let '(x, w) := m w in (f x, w).

Definition gets {W A} (f : W -> A) : M W A := fun w => (f w, w).
Definition modify {W} (f : W -> W) : M W unit := fun w => (tt, f w).

(** [if c { m }] *)
Definition when {W} (c : bool) (m : M W unit) : M W unit := if c then m else mret tt.

(** [for _, x := range l { body }] *)
Fixpoint for_each {W A} (l : list A) (body : A -> M W unit) : M W unit :=
  match l with
  | [] => mret tt
  | x :: l => _ ← body x; for_each l body
  end.

(** ** Reasoning: a relation every step of a handler keeps

    [keeps R m]: whatever world [m] starts in, the world it leaves is related to it. For
    a preorder [R] this composes along the code. *)
Section keeps.
Context {W : Type} (R : W -> W -> Prop) `{!PreOrder R}.

Definition keeps {A} (m : M W A) : Prop := forall w, R w (m w).2.

Lemma keeps_ret {A} (x : A) : keeps (mret x).
Proof. by intros w. Qed.
Lemma keeps_gets {A} (f : W -> A) : keeps (gets f).
Proof. by intros w. Qed.
Lemma keeps_modify f : (forall w, R w (f w)) -> keeps (modify f).
Proof. by intros H w. Qed.
Lemma keeps_bind {A B} (m : M W A) (f : A -> M W B) :
  keeps m -> (forall x, keeps (f x)) -> keeps (m ≫= f).
Proof.
  intros Hm Hf w. unfold mbind, M_bind. specialize (Hm w). destruct (m w) as [x w'].
  by etrans; [|apply Hf].
Qed.
Lemma keeps_fmap {A B} (g : A -> B) (m : M W A) : keeps m -> keeps (g <$> m).
Proof. intros Hm w. unfold fmap, M_fmap. specialize (Hm w). by destruct (m w). Qed.
Lemma keeps_when c m : keeps m -> keeps (when c m).
Proof. destruct c; [done|]. intros _. apply keeps_ret. Qed.
Lemma keeps_for_each {A} (l : list A) body : (forall x, keeps (body x)) -> keeps (for_each l body).
Proof. intros Hb. induction l; simpl; [apply keeps_ret|]. by apply keeps_bind. Qed.
Lemma keeps_if {A} (c : bool) (m1 m2 : M W A) : keeps m1 -> keeps m2 -> keeps (if c then m1 else m2).
Proof. by destruct c. Qed.
End keeps.
