(* ===== verification/Wire.v ===== *)
(** The wire (src/pkg/inject): the payload shapes of signal schema v1 (payload.go),
    the sink every inject goes through (sink.go) and the guard that fits a payload
    under the sink's byte ceiling (fit.go).

    [omitempty] labels make a nil map and an empty one the same bytes, so labels are
    a finite map. [encoding/json] is the class [JSON]: the encoder is an argument and
    nothing is assumed of it. *)
From stdpp Require Import sorting.
From S2P Require Import Prelude GoTime GoStrings GoFmt.
From Stdlib Require Import Ascii.

(** ** Payloads *)

Record PayloadContext := mkContext {
  cx_ControllerRef : string;
  cx_Node : string;
  cx_Labels : gmap string string
}.
Definition zero_context : PayloadContext := mkContext "" "" ∅.

Record PayloadEnrichment := mkPEnrichment { pe_Bundle : string }.
Record PayloadForecast := mkPForecast { pf_ETA : Time; pf_ConfidenceBasis : string }.
Record PayloadQuotaDraft := mkPQuota {
  pq_QuotaID : string;
  pq_Region : string;
  pq_Unit : string;
  pq_CurrentUsage : float64;
  pq_CurrentLimit : float64;
  pq_SuggestedLimit : float64;
  pq_SlopePerDay : float64;
  pq_Justification : string
}.

Record Payload := mkPayload {
  pl_Kind : string;
  pl_Reason : string;
  pl_Namespace : string;
  pl_KindOfObject : string;
  pl_Name : string;
  pl_Container : string;
  pl_UID : string;
  pl_Message : string;
  pl_Count : Z;
  pl_FirstSeen : Time;
  pl_LastSeen : Time;
  pl_Cluster : string;
  pl_Project : string;
  pl_Region : string;
  pl_Zone : string;
  pl_PullCause : string;
  pl_Source : string;
  pl_Severity : string;
  pl_Fingerprint : string;
  pl_Context : PayloadContext;
  pl_Type : string;
  pl_Enrichment : option PayloadEnrichment;
  pl_Forecast : option PayloadForecast;
  pl_QuotaIncreaseDraft : option PayloadQuotaDraft;
  pl_ReasonClass : string;
  pl_RepeatCount : Z
}.

Definition KindStormMember : string := "storm.member".
Definition KindStormMemberSuperseded : string := "storm.member_superseded".
Definition KindStormUpdate : string := "storm.update".
Definition KindTriageRegressed : string := "triage.regressed".
Definition KindFamilyMember : string := "family.member".
Definition FamilyMemberDesignRef : string := "DESIGN.md §10.3".
Definition KindWatchboardDigest : string := "watchboard.digest".
Definition KindWatchboardRotated : string := "watchboard.rotated".

Record StormIncidentRef := mkStormRef {
  sr_Fingerprint : string;
  sr_Reason : string;
  sr_Namespace : string;
  sr_KindOfObject : string;
  sr_Name : string;
  sr_UID : string;
  sr_SessionID : string;
  sr_ReasonClass : string
}.

Record StormPayload := mkStormPayload {
  sp_Kind : string;
  sp_Fingerprint : string;
  sp_Severity : string;
  sp_Cluster : string;
  sp_AncestorKind : string;
  sp_AncestorNamespace : string;
  sp_AncestorName : string;
  sp_Reason : string;
  sp_Message : string;
  sp_AffectedCount : Z;
  sp_NamespacesCount : Z;
  sp_FirstSeen : Time;
  sp_LastSeen : Time;
  sp_Representatives : list StormIncidentRef;
  sp_MemberFingerprints : list string;
  sp_MemberFingerprintsTruncated : bool;
  sp_Context : PayloadContext;
  sp_Enrichment : option PayloadEnrichment;
  sp_KeySource : string
}.

Record StormMemberPayload := mkStormMemberPayload {
  smp_Kind : string;
  smp_StormFingerprint : string;
  smp_StormSessionID : string;
  smp_AncestorKind : string;
  smp_AncestorNamespace : string;
  smp_AncestorName : string;
  smp_Cluster : string;
  smp_Message : string;
  smp_Incident : StormIncidentRef
}.

Record StormUpdatePayload := mkStormUpdatePayload {
  sup_Kind : string;
  sup_StormFingerprint : string;
  sup_AncestorKind : string;
  sup_AncestorNamespace : string;
  sup_AncestorName : string;
  sup_Cluster : string;
  sup_Message : string;
  sup_AffectedCount : Z;
  sup_NamespacesCount : Z;
  sup_NewMembersSinceLast : Z
}.

Record TriageRegressedPayload := mkTriageRegressed {
  trp_Kind : string;
  trp_Reason : string;
  trp_Namespace : string;
  trp_KindOfObject : string;
  trp_Name : string;
  trp_Container : string;
  trp_UID : string;
  trp_Fingerprint : string;
  trp_Cluster : string;
  trp_TriageStatus : string;
  trp_SeverityOverride : string;
  trp_TriageSession : string;
  trp_BaselineCount : Z;
  trp_Count : Z;
  trp_Factor : Z;
  trp_FirstSeen : Time;
  trp_LastSeen : Time;
  trp_Message : string;
  trp_Context : PayloadContext;
  trp_ReasonClass : string
}.

Record FamilyMemberPayload := mkFamilyMember {
  fm_Kind : string;
  fm_MemberKind : string;
  fm_Reason : string;
  fm_Severity : string;
  fm_Namespace : string;
  fm_KindOfObject : string;
  fm_Name : string;
  fm_UID : string;
  fm_Fingerprint : string;
  fm_Family : string;
  fm_OpenedBy : string;
  fm_Cluster : string;
  fm_SessionID : string;
  fm_Message : string;
  fm_DesignRef : string
}.

Record WatchboardEntry := mkBoardEntryWire {
  we_Kind : string;
  we_Fingerprint : string;
  we_Reason : string;
  we_Namespace : string;
  we_KindOfObject : string;
  we_Name : string;
  we_UID : string;
  we_Count : Z;
  we_FirstSeen : Time;
  we_LastSeen : Time;
  we_ReasonClass : string
}.

Record WatchboardDigestPayload := mkDigest {
  wd_Kind : string;
  wd_Cluster : string;
  wd_BoardGeneration : Z;
  wd_Sequence : Z;
  wd_WindowStart : Time;
  wd_WindowEnd : Time;
  wd_Entries : list WatchboardEntry;
  wd_EntriesDropped : Z
}.

Record WatchboardRotatedPayload := mkRotated {
  wr_Kind : string;
  wr_Cluster : string;
  wr_BoardGeneration : Z;
  wr_SuccessorSessionID : string;
  wr_InjectsCount : Z;
  wr_RotatedAt : Time
}.

Record ResolvedPayload := mkResolvedPayload {
  rp_Kind : string;
  rp_Reason : string;
  rp_Namespace : string;
  rp_KindOfObject : string;
  rp_Name : string;
  rp_Container : string;
  rp_UID : string;
  rp_Fingerprint : string;
  rp_Cluster : string;
  rp_FirstSeen : Time;
  rp_ResolvedAt : Time;
  rp_ClearedAfter : string;
  rp_ObservedStableFor : string;
  rp_Resolution : string;
  rp_RevertedAfter : string;
  rp_Context : PayloadContext
}.

(** The dynamic types a sink's [payload any] takes. *)
Inductive wire :=
  | WPayload (p : Payload)
  | WStorm (p : StormPayload)
  | WStormMember (p : StormMemberPayload)
  | WStormUpdate (p : StormUpdatePayload)
  | WTriageRegressed (p : TriageRegressedPayload)
  | WFamilyMember (p : FamilyMemberPayload)
  | WDigest (p : WatchboardDigestPayload)
  | WRotated (p : WatchboardRotatedPayload)
  | WResolved (p : ResolvedPayload).

(** ** The byte ceiling *)

Definition MaxInjectBytes : Z := 8192.
Definition truncMarker : string := "…[truncated]".

(** [json.Marshal] of a payload and of the message envelope; [None] is an error. *)
Class JSON := {
  Marshal : wire -> option string;
  MarshalMessage : string -> option string
}.

Section fit.
Context `{JSON}.

Definition WireSize (payload : wire) : Z :=
  match Marshal payload with
  | None => -1
  | Some body =>
      match MarshalMessage body with
      | None => -1
      | Some wrapped => Z.of_nat (String.length wrapped)
      end
  end.

(** The loop the four shrinkers share:
    [for lo <= hi { mid := (lo + hi) / 2; if fits { best, lo = mid, mid+1 } else { hi = mid-1 } }].
    Every round narrows [lo..hi], so [hi - lo + 1] rounds are enough. *)
Fixpoint bsearch (fuel : nat) (fits : Z -> bool) (lo hi best : Z) : Z :=
  match fuel with
  | O => best
  | S fuel =>
      if lo <=? hi then
        let mid := (lo + hi) / 2 in
        if fits mid then bsearch fuel fits (mid + 1) hi mid
        else bsearch fuel fits lo (mid - 1) best
      else best
  end.

Definition search (fits : Z -> bool) (n : nat) : Z := bsearch (S n) fits 0 (Z.of_nat n) (-1).

Definition sorted_keys (labels : gmap string string) : list string :=
  merge_sort String.le (map_to_list labels).*1.

(** [build(n)] of shrinkLabels: the labels of the first [n] keys. *)
Definition build_labels (labels : gmap string string) (keys : list string) (n : Z) : gmap string string :=
  list_to_map (omap (fun k => (fun v => (k, v)) <$> labels !! k) (take (Z.to_nat n) keys)).

(** The shrinkers return the value they leave behind through [set], and whether they
    changed anything; [size] measures the payload with a candidate value set. *)
Definition shrinkLabels (labels : gmap string string) (maxBytes : Z) (size : gmap string string -> Z)
  : gmap string string * bool :=
  if bool_decide (labels = ∅) then (labels, false)
  else
    let keys := sorted_keys labels in
    let best := Z.max 0 (search (fun mid => size (build_labels labels keys mid) <=? maxBytes) (length keys)) in
    (build_labels labels keys best, best <? Z.of_nat (length keys)).

Definition shrinkText (text : string) (maxBytes : Z) (size : string -> Z) : string * bool :=
  let runes := Runes text in
  let cut n := of_runes (take (Z.to_nat n) runes) +:+ truncMarker in
  let best := search (fun mid => size (cut mid) <=? maxBytes) (length runes) in
  if best <? 0 then ("", text <>s "")
  else (cut best, cut best <>s text).

Definition shrinkFingerprints (fps : list string) (maxBytes : Z) (size : list string -> Z)
  : list string * bool :=
  let best := Z.max 0 (search (fun mid => size (take (Z.to_nat mid) fps) <=? maxBytes) (length fps)) in
  (take (Z.to_nat best) fps, best <? Z.of_nat (length fps)).

(** The shape of every [FitTo]: nothing to do when the payload fits, else one stage
    after the other, [if it applies { shed; if it fits now, return }]. A stage that
    applies returns what is left of the payload and the names it shed. *)
Record stage (P : Type) := mkStage {
  applies : P -> bool;
  shrink : list string -> P -> P * list string
}.
#[global] Arguments mkStage {P}.
#[global] Arguments applies {P}.
#[global] Arguments shrink {P}.

Fixpoint run_stages {P} (size : P -> Z) (maxBytes : Z) (l : list (stage P)) (p : P) (shed : list string)
  : P * list string :=
  match l with
  | [] => (p, shed)
  | s :: l =>
      if applies s p then
        let '(p, what) := shrink s shed p in
        let shed := shed ++ what in
        if size p <=? maxBytes then (p, shed) else run_stages size maxBytes l p shed
      else run_stages size maxBytes l p shed
  end.

Definition fit_stages {P} (size : P -> Z) (maxBytes : Z) (l : list (stage P)) (p : P) : P * list string :=
  if size p <=? maxBytes then (p, []) else run_stages size maxBytes l p [].

Definition named (changed : bool) (what : string) : list string := if changed then [what] else [].

Definition is_Some_b {A} (o : option A) : bool := match o with Some _ => true | None => false end.

Definition text_stage {P} (get : P -> string) (set : string -> P -> P) (size : P -> Z) (maxBytes : Z)
  : stage P :=
  mkStage (fun p => get p <>s "")
    (fun _ p => let '(t, cut) := shrinkText (get p) maxBytes (fun t => size (set t p)) in
                (set t p, named cut "message")).

Definition labels_stage {P} (get : P -> gmap string string) (set : gmap string string -> P -> P)
    (size : P -> Z) (maxBytes : Z) : stage P :=
  mkStage (fun p => negb (bool_decide (get p = ∅)))
    (fun shed p => let '(m, cut) := shrinkLabels (get p) maxBytes (fun m => size (set m p)) in
                   (set m p, named (cut && negb (bool_decide ("labels" ∈ shed))) "labels")).

(** [Payload.FitTo] *)
Definition first128 (s : string) : string :=
  if (128 <? String.length s)%nat then String.substring 0 128 s else s.

Definition pl_Labels (p : Payload) : gmap string string := cx_Labels (pl_Context p).
Definition with_labels (m : gmap string string) (p : Payload) : Payload :=
  p <| pl_Context := (pl_Context p) <| cx_Labels := m |> |>.

(** The size the payload would have with a message of at most 128 bytes. *)
Definition short_size (p : Payload) : Z :=
  WireSize (WPayload (p <| pl_Message := first128 (pl_Message p) |>)).

Definition FitTo_payload (maxBytes : Z) (p : Payload) : Payload * list string :=
  let size p := WireSize (WPayload p) in
  fit_stages size maxBytes
    [ mkStage (fun p => is_Some_b (pl_Enrichment p))
        (fun _ p => (p <| pl_Enrichment := None |>, ["enrichment"]));
      mkStage (fun p => negb (bool_decide (pl_Labels p = ∅)) && (maxBytes <? short_size p))
        (fun _ p => let '(m, cut) := shrinkLabels (pl_Labels p) maxBytes
                      (fun m => short_size (with_labels m p)) in
                    (with_labels m p, named cut "labels"));
      text_stage pl_Message (fun t p => p <| pl_Message := t |>) size maxBytes;
      labels_stage pl_Labels with_labels size maxBytes ] p.

(** [StormPayload.FitTo] *)
Definition with_fps (full fps : list string) (p : StormPayload) : StormPayload :=
  p <| sp_MemberFingerprints := fps |>
    <| sp_MemberFingerprintsTruncated := (length fps <? length full)%nat |>.

Definition sp_Labels (p : StormPayload) : gmap string string := cx_Labels (sp_Context p).
Definition with_storm_labels (m : gmap string string) (p : StormPayload) : StormPayload :=
  p <| sp_Context := (sp_Context p) <| cx_Labels := m |> |>.

Definition FitTo_storm (maxBytes : Z) (p : StormPayload) : StormPayload * list string :=
  let size p := WireSize (WStorm p) in
  fit_stages size maxBytes
    [ mkStage (fun p => is_Some_b (sp_Enrichment p))
        (fun _ p => (p <| sp_Enrichment := None |>, ["enrichment"]));
      mkStage (fun p => negb (bool_decide (sp_MemberFingerprints p = [])))
        (fun _ p => let full := sp_MemberFingerprints p in
                    let '(fps, cut) := shrinkFingerprints full maxBytes
                      (fun fps => size (with_fps full fps p)) in
                    (with_fps full fps p, named cut "member_fingerprints"));
      labels_stage sp_Labels with_storm_labels size maxBytes;
      text_stage sp_Message (fun t p => p <| sp_Message := t |>) size maxBytes ] p.

(** [WatchboardDigestPayload.FitTo]: the newest [k] entries. *)
Definition keep_newest (full : list WatchboardEntry) (k : Z) (p : WatchboardDigestPayload)
  : WatchboardDigestPayload :=
  p <| wd_Entries := drop (length full - Z.to_nat k) full |>
    <| wd_EntriesDropped := Z.of_nat (length full) - k |>.

Definition FitTo_digest (maxBytes : Z) (p : WatchboardDigestPayload) : WatchboardDigestPayload * list string :=
  if WireSize (WDigest p) <=? maxBytes then (p, [])
  else if bool_decide (wd_Entries p = []) then (p, [])
  else
    let full := wd_Entries p in
    let best := Z.max 0
      (search (fun mid => WireSize (WDigest (keep_newest full mid p)) <=? maxBytes) (length full)) in
    let p := keep_newest full best p in
    (p, if wd_EntriesDropped p =? 0 then [] else ["entries"]).

(** [ResolvedPayload.FitTo] *)
Definition rp_Labels (p : ResolvedPayload) : gmap string string := cx_Labels (rp_Context p).
Definition with_resolved_labels (m : gmap string string) (p : ResolvedPayload) : ResolvedPayload :=
  p <| rp_Context := (rp_Context p) <| cx_Labels := m |> |>.

Definition FitTo_resolved (maxBytes : Z) : ResolvedPayload -> ResolvedPayload * list string :=
  let size p := WireSize (WResolved p) in
  fit_stages size maxBytes [ labels_stage rp_Labels with_resolved_labels size maxBytes ].

(** [TriageRegressedPayload.FitTo] *)
Definition trp_Labels (p : TriageRegressedPayload) : gmap string string := cx_Labels (trp_Context p).
Definition with_regressed_labels (m : gmap string string) (p : TriageRegressedPayload) : TriageRegressedPayload :=
  p <| trp_Context := (trp_Context p) <| cx_Labels := m |> |>.

Definition FitTo_regressed (maxBytes : Z) : TriageRegressedPayload -> TriageRegressedPayload * list string :=
  let size p := WireSize (WTriageRegressed p) in
  fit_stages size maxBytes
    [ labels_stage trp_Labels with_regressed_labels size maxBytes;
      text_stage trp_Message (fun t p => p <| trp_Message := t |>) size maxBytes ].

(** [StormMemberPayload.FitTo], [StormUpdatePayload.FitTo], [FamilyMemberPayload.FitTo] *)
Definition FitTo_member (maxBytes : Z) : StormMemberPayload -> StormMemberPayload * list string :=
  let size p := WireSize (WStormMember p) in
  fit_stages size maxBytes [ text_stage smp_Message (fun t p => p <| smp_Message := t |>) size maxBytes ].

Definition FitTo_update (maxBytes : Z) : StormUpdatePayload -> StormUpdatePayload * list string :=
  let size p := WireSize (WStormUpdate p) in
  fit_stages size maxBytes [ text_stage sup_Message (fun t p => p <| sup_Message := t |>) size maxBytes ].

Definition FitTo_family (maxBytes : Z) : FamilyMemberPayload -> FamilyMemberPayload * list string :=
  let size p := WireSize (WFamilyMember p) in
  fit_stages size maxBytes [ text_stage fm_Message (fun t p => p <| fm_Message := t |>) size maxBytes ].

Definition FitPayload (payload : wire) (maxBytes : Z) : wire * list string :=
  if maxBytes <=? 0 then (payload, [])
  else
    match payload with
    | WPayload p => let '(p, shed) := FitTo_payload maxBytes p in (WPayload p, shed)
    | WStorm p => let '(p, shed) := FitTo_storm maxBytes p in (WStorm p, shed)
    | WDigest p => let '(p, shed) := FitTo_digest maxBytes p in (WDigest p, shed)
    | WResolved p => let '(p, shed) := FitTo_resolved maxBytes p in (WResolved p, shed)
    | WTriageRegressed p => let '(p, shed) := FitTo_regressed maxBytes p in (WTriageRegressed p, shed)
    | WStormMember p => let '(p, shed) := FitTo_member maxBytes p in (WStormMember p, shed)
    | WStormUpdate p => let '(p, shed) := FitTo_update maxBytes p in (WStormUpdate p, shed)
    | WFamilyMember p => let '(p, shed) := FitTo_family maxBytes p in (WFamilyMember p, shed)
    | WRotated p => (WRotated p, [])
    end.
End fit.

(** ** Sinks *)

Inductive IncidentKeyKind := IncidentKeyIncident | IncidentKeyStorm | IncidentKeyWatchboard.

(** [IncidentKey], lookout's own identity of what it opens. *)
Record IncidentKey := mkIncidentKey { ik_Cluster : string; ik_Kind : IncidentKeyKind; ik_ID : string }.

Definition IncidentKeyKind_String (k : IncidentKeyKind) : string :=
  match k with
  | IncidentKeyIncident => "incident"
  | IncidentKeyStorm => "storm"
  | IncidentKeyWatchboard => "watchboard"
  end.

Definition IncidentKey_String (k : IncidentKey) : string :=
  IncidentKeyKind_String (ik_Kind k) +:+ "/" +:+ ik_Cluster k +:+ "/" +:+ ik_ID k.

(** An error of a sink: the HTTP status of the [*StatusError] [errors.As] finds in
    it, if there is one. *)
Record sink_error := mkSinkError { se_Code : option Z }.

(** A call a sink receives. [key] is what a keyed sink is told and any other sink is
    not. *)
Inductive call :=
  | CallOpen (key : option IncidentKey) (payload : wire)
  | CallAppend (id : string) (payload : wire)
  | CallCreate (key : option IncidentKey).

(** [Sink] with its optional capabilities ([KeyedOpener], [SessionOpener]). The
    receiver is another program: its answer to a call is an arbitrary function of
    the calls before it and the call itself. *)
Class Sink := {
  keyed : bool;
  session_opener : bool;
  OpenIncident : list call -> option IncidentKey -> wire -> string * option sink_error;
  Append : list call -> string -> wire -> option sink_error;
  CreateSession : list call -> option IncidentKey -> string * option sink_error
}.

Definition sessionGone (err : sink_error) : bool :=
  match se_Code err with
  | Some code => (code =? 404) || (code =? 410)
  | None => false
  end.
