(* ===== verification/WireFit.v ===== *)
(** What the byte ceiling guarantees (src/pkg/inject/fit.go): a fitted payload is
    under the ceiling or carries nothing more to shed, and its identity is never
    touched. *)
From stdpp Require Import sorting.
From S2P Require Import Prelude GoTime GoStrings GoFmt Wire.
From Stdlib Require Import Ascii.

(** ** The binary search *)

(** What it returns was measured to fit. *)
Lemma bsearch_fits fuel fits lo hi best :
  0 <= lo <= hi + 1 -> best < lo -> (best = -1 \/ 0 <= best /\ fits best = true) ->
  let r := bsearch fuel fits lo hi best in
  r = -1 \/ (0 <= r <= hi /\ fits r = true).
Proof.
  revert lo hi best. induction fuel as [|fuel IH]; intros lo hi best Hlo Hlt Hb; simpl; [naive_solver lia|].
  destruct (Z.leb_spec lo hi); [|naive_solver lia].
  assert (lo <= (lo + hi) / 2 <= hi) as Hmid
    by (split; [apply Z.div_le_lower_bound|apply Z.div_le_upper_bound]; lia).
  destruct (fits ((lo + hi) / 2)) eqn:E.
  - apply IH; [lia|lia|right; split; [lia|done]].
  - destruct (IH lo ((lo + hi) / 2 - 1) best) as [?|[? ?]]; [lia|done|done|by left|right; split; [lia|done]].
Qed.

(** When fitting is closed under taking less, it is the most that fits; the fuel of
    [search] is enough for the loop to finish. *)
Lemma bsearch_most fuel fits n lo hi best :
  (forall j k, 0 <= j <= k -> k <= n -> fits k = true -> fits j = true) ->
  0 <= lo <= hi + 1 -> best < lo -> lo <= best + 1 -> hi <= n -> hi - lo + 1 <= Z.of_nat fuel ->
  (forall k, hi < k <= n -> fits k = false) ->
  forall k, 0 <= k <= n -> fits k = true -> k <= bsearch fuel fits lo hi best.
Proof.
  intros Hmono. revert lo hi best.
  induction fuel as [|fuel IH]; intros lo hi best Hlo Hlt Hb Hn Hf Hout k Hk Hfit; simpl.
  { destruct (decide (hi < k)); [by rewrite Hout in Hfit by lia|lia]. }
  destruct (Z.leb_spec lo hi).
  2:{ destruct (decide (hi < k)); [by rewrite Hout in Hfit by lia|lia]. }
  assert (lo <= (lo + hi) / 2 <= hi) as Hmid
    by (split; [apply Z.div_le_lower_bound|apply Z.div_le_upper_bound]; lia).
  destruct (fits ((lo + hi) / 2)) eqn:E.
  - apply IH; auto; lia.
  - apply IH; auto; [lia..|]. intros j Hj. destruct (fits j) eqn:Ej; [|done].
    rewrite (Hmono ((lo + hi) / 2) j) in E by (done || lia). done.
Qed.

Lemma search_fits fits n :
  search fits n = -1 \/ (0 <= search fits n <= Z.of_nat n /\ fits (search fits n) = true).
Proof. apply bsearch_fits; [lia..|by left]. Qed.

Lemma search_most fits n :
  (forall j k, 0 <= j <= k -> k <= Z.of_nat n -> fits k = true -> fits j = true) ->
  forall k, 0 <= k <= Z.of_nat n -> fits k = true -> k <= search fits n.
Proof. intros Hm. apply (bsearch_most _ _ (Z.of_nat n)); [done|lia..|]. intros; lia. Qed.

(** ** The shrinkers *)

Lemma shrinkText_fits text max size :
  size (shrinkText text max size).1 <= max \/ (shrinkText text max size).1 = "".
Proof.
  unfold shrinkText. destruct (search_fits (fun mid =>
    size (of_runes (take (Z.to_nat mid) (Runes text)) +:+ truncMarker) <=? max) (length (Runes text)))
    as [->|[Hr Hf]]; [by right|].
  destruct (Z.ltb_spec (search (fun mid =>
    size (of_runes (take (Z.to_nat mid) (Runes text)) +:+ truncMarker) <=? max) (length (Runes text))) 0); [lia|].
  left. simpl. by apply Z.leb_le in Hf.
Qed.

Lemma build_labels_0 labels keys : build_labels labels keys 0 = ∅.
Proof. done. Qed.

Lemma build_labels_sub labels keys n : build_labels labels keys n ⊆ labels.
Proof.
  apply map_subseteq_spec. intros k v Hk. unfold build_labels in Hk.
  apply elem_of_list_to_map_2, list_elem_of_omap in Hk as (k' & _ & Hk').
  apply fmap_Some in Hk' as (v' & Hv & [= -> ->]). done.
Qed.

Lemma shrinkLabels_fits labels max size :
  labels <> ∅ ->
  size (shrinkLabels labels max size).1 <= max \/ (shrinkLabels labels max size).1 = ∅.
Proof.
  intros Hne. unfold shrinkLabels. rewrite bool_decide_eq_false_2 by done.
  destruct (search_fits (fun mid => size (build_labels labels (sorted_keys labels) mid) <=? max)
    (length (sorted_keys labels))) as [->|[Hr Hf]]; [by right|].
  rewrite Z.max_r by lia. left. simpl. by apply Z.leb_le in Hf.
Qed.

Lemma shrinkLabels_sub labels max size : (shrinkLabels labels max size).1 ⊆ labels.
Proof. unfold shrinkLabels. case_bool_decide; [done|]. apply build_labels_sub. Qed.

Lemma shrinkFps_fits fps max size :
  size (shrinkFingerprints fps max size).1 <= max \/ (shrinkFingerprints fps max size).1 = [].
Proof.
  unfold shrinkFingerprints. destruct (search_fits (fun mid => size (take (Z.to_nat mid) fps) <=? max)
    (length fps)) as [->|[Hr Hf]]; [by right|].
  rewrite Z.max_r by lia. left. simpl. by apply Z.leb_le in Hf.
Qed.

(** ** Fitting a payload *)

(** What fitting may take away, blanked: the rest is identity and routing. *)
Definition strip (w : wire) : wire :=
  match w with
  | WPayload p => WPayload (with_labels ∅ (p <| pl_Enrichment := None |> <| pl_Message := "" |>))
  | WStorm p => WStorm (with_storm_labels ∅ (p <| sp_Enrichment := None |> <| sp_Message := "" |>
                  <| sp_MemberFingerprints := [] |> <| sp_MemberFingerprintsTruncated := false |>))
  | WDigest p => WDigest (p <| wd_Entries := [] |> <| wd_EntriesDropped := 0 |>)
  | WResolved p => WResolved (p <| rp_Context := (rp_Context p) <| cx_Labels := ∅ |> |>)
  | WTriageRegressed p => WTriageRegressed (p <| trp_Message := "" |>
                            <| trp_Context := (trp_Context p) <| cx_Labels := ∅ |> |>)
  | WStormMember p => WStormMember (p <| smp_Message := "" |>)
  | WStormUpdate p => WStormUpdate (p <| sup_Message := "" |>)
  | WFamilyMember p => WFamilyMember (p <| fm_Message := "" |>)
  | WRotated p => WRotated p
  end.

(** Nothing left to shed. *)
Definition bare (w : wire) : Prop :=
  match w with
  | WPayload p => pl_Enrichment p = None /\ pl_Message p = "" /\ cx_Labels (pl_Context p) = ∅
  | WStorm p => sp_Enrichment p = None /\ sp_Message p = "" /\ sp_MemberFingerprints p = [] /\
                cx_Labels (sp_Context p) = ∅
  | WDigest p => wd_Entries p = []
  | WResolved p => cx_Labels (rp_Context p) = ∅
  | WTriageRegressed p => trp_Message p = "" /\ cx_Labels (trp_Context p) = ∅
  | WStormMember p => smp_Message p = ""
  | WStormUpdate p => sup_Message p = ""
  | WFamilyMember p => fm_Message p = ""
  | WRotated _ => True
  end.

(** ** Stages

    [I] is kept by every stage; [K] is what has been shed before it, [K'] after it,
    unless the payload fits by then. *)
Section stages.
Context {P : Type} (size : P -> Z) (max : Z) (I : P -> Prop).

Definition stage_ok (K K' : P -> Prop) (s : stage P) : Prop :=
  forall p shed, I p -> K p ->
    if applies s p then
      let p' := (shrink s shed p).1 in I p' /\ (size p' <= max \/ K' p')
    else K' p.

Inductive stages_ok : (P -> Prop) -> list (stage P) -> (P -> Prop) -> Prop :=
  | stages_nil K : stages_ok K [] K
  | stages_cons K K' K'' s l : stage_ok K K' s -> stages_ok K' l K'' -> stages_ok K (s :: l) K''.

Lemma run_stages_ok K l K' p shed :
  stages_ok K l K' -> I p -> K p ->
  let r := (run_stages size max l p shed).1 in I r /\ (size r <= max \/ K' r).
Proof.
  intros Hl. revert p shed. induction Hl as [K|K K' K'' s l Hs Hl IH]; intros p shed HI HK; simpl; [by auto|].
  specialize (Hs p shed HI HK). destruct (applies s p); [|by apply IH].
  destruct (shrink s shed p) as [p' what]. simpl in Hs.
  destruct (Z.leb_spec (size p') max); [naive_solver|]. apply IH; [naive_solver|]. naive_solver lia.
Qed.

Lemma text_stage_ok (K K' : P -> Prop) get set :
  (forall t p, I p -> I (set t p)) ->
  (forall p, K p -> get p = "" -> K' p) -> (forall p, K p -> K' (set "" p)) ->
  stage_ok K K' (text_stage get set size max).
Proof.
  intros HI Hnone Hset p shed Hp HK. simpl. case_bool_decide; simpl; [by apply Hnone|].
  pose proof (shrinkText_fits (get p) max (fun t => size (set t p))) as Hs.
  destruct (shrinkText _ _ _) as [t cut]. simpl in *. split; [by apply HI|].
  destruct Hs as [?| ->]; [by left|right; by apply Hset].
Qed.

Lemma labels_stage_ok (K K' : P -> Prop) get set :
  (forall m p, I p -> I (set m p)) ->
  (forall p, K p -> get p = ∅ -> K' p) -> (forall p, K p -> K' (set ∅ p)) ->
  stage_ok K K' (labels_stage get set size max).
Proof.
  intros HI Hnone Hset p shed Hp HK. simpl. case_bool_decide as Hl; simpl; [by apply Hnone|].
  pose proof (shrinkLabels_fits (get p) max (fun t => size (set t p)) Hl) as Hs.
  destruct (shrinkLabels _ _ _) as [t cut]. simpl in *. split; [by apply HI|].
  destruct Hs as [?| ->]; [by left|right; by apply Hset].
Qed.
End stages.

#[global] Hint Resolve text_stage_ok labels_stage_ok stages_nil stages_cons : fit.

Section fit_spec.
Context `{JSON}.

(** The guarantee of one fit: in the end it fits or is bare, its identity is that of
    the original, and what already fits is left alone. *)
Definition fit_ok (max : Z) (w w' : wire) (shed : list string) : Prop :=
  (WireSize w' <= max \/ bare w') /\ strip w' = strip w /\
  (WireSize w <= max -> w' = w /\ shed = []).

Lemma fit_stages_ok {P} (inj : P -> wire) max l p :
  stages_ok (fun p => WireSize (inj p)) max (fun q => strip (inj q) = strip (inj p))
    (fun _ => True) l (fun q => bare (inj q)) ->
  let r := fit_stages (fun p => WireSize (inj p)) max l p in fit_ok max (inj p) (inj r.1) r.2.
Proof.
  intros Hl. unfold fit_stages, fit_ok. destruct (Z.leb_spec (WireSize (inj p)) max); [by auto|].
  destruct (run_stages_ok _ _ _ _ _ _ p [] Hl) as [HI HK]; [done..|]. repeat split; [done..|lia|lia].
Qed.

Ltac stages Ks :=
  lazymatch Ks with
  | (?K, ?Ks) => apply (stages_cons _ _ _ _ K); [|stages Ks]
  | ?K => apply (stages_cons _ _ _ _ K); [|apply stages_nil]
  end.

Lemma FitTo_payload_ok max p :
  let r := FitTo_payload max p in fit_ok max (WPayload p) (WPayload r.1) r.2.
Proof.
  apply (fit_stages_ok WPayload).
  stages ((fun p => pl_Enrichment p = None), ((fun p => pl_Enrichment p = None),
    ((fun p => pl_Enrichment p = None /\ pl_Message p = ""), (fun p => bare (WPayload p))))).
  - intros q shed HI _. simpl. destruct (pl_Enrichment q) eqn:E; simpl; [|done].
    split; [exact HI|by right].
  - intros q shed HI HK. simpl. case_match; [|done].
    destruct (shrinkLabels _ _ _) as [m cut]. simpl. split; [exact HI|by right].
  - apply text_stage_ok; simpl; [intros t q HI; exact HI|naive_solver..].
  - apply labels_stage_ok; simpl; [intros t q HI; exact HI|naive_solver..].
Qed.

Lemma FitTo_storm_ok max p :
  let r := FitTo_storm max p in fit_ok max (WStorm p) (WStorm r.1) r.2.
Proof.
  apply (fit_stages_ok WStorm).
  stages ((fun p => sp_Enrichment p = None), ((fun p => sp_Enrichment p = None /\ sp_MemberFingerprints p = []),
    ((fun p => sp_Enrichment p = None /\ sp_MemberFingerprints p = [] /\ sp_Labels p = ∅),
     (fun p => bare (WStorm p))))).
  - intros q shed HI _. simpl. destruct (sp_Enrichment q) eqn:E; simpl; [|done].
    split; [exact HI|by right].
  - intros q shed HI HK. cbn [applies shrink]. case_bool_decide; cbn [negb]; [done|].
    pose proof (shrinkFps_fits (sp_MemberFingerprints q) max
      (fun fps => WireSize (WStorm (with_fps (sp_MemberFingerprints q) fps q)))) as Hs.
    destruct (shrinkFingerprints _ _ _) as [fps cut]. cbn [fst] in *. split; [exact HI|].
    destruct Hs as [?| ->]; [by left|by right].
  - apply labels_stage_ok; simpl; [intros t q HI; exact HI|naive_solver..].
  - apply text_stage_ok; unfold sp_Labels; simpl; [intros t q HI; exact HI|intros q (? & ? & ?) ?; done|intros q (? & ? & ?); done].
Qed.

Lemma FitTo_regressed_ok max p :
  let r := FitTo_regressed max p in fit_ok max (WTriageRegressed p) (WTriageRegressed r.1) r.2.
Proof.
  apply (fit_stages_ok WTriageRegressed).
  stages ((fun p => trp_Labels p = ∅), (fun p => bare (WTriageRegressed p))).
  - apply labels_stage_ok; simpl; [intros t q HI; exact HI|naive_solver..].
  - apply text_stage_ok; simpl; [intros t q HI; exact HI|by unfold trp_Labels..].
Qed.

(** The one-stage payloads. *)
Lemma fit_text_ok {P} (inj : P -> wire) get set max p :
  (forall t p, strip (inj (set t p)) = strip (inj p)) ->
  (forall p, get p = "" -> bare (inj p)) -> (forall p, bare (inj (set "" p))) ->
  let size p := WireSize (inj p) in
  let r := fit_stages size max [text_stage get set size max] p in fit_ok max (inj p) (inj r.1) r.2.
Proof.
  intros Hs Hb Hb'. apply fit_stages_ok. stages (fun p => bare (inj p)).
  apply text_stage_ok; [intros; by rewrite Hs|auto..].
Qed.

Lemma FitTo_resolved_ok max p :
  let r := FitTo_resolved max p in fit_ok max (WResolved p) (WResolved r.1) r.2.
Proof.
  apply (fit_stages_ok WResolved). stages (fun p => bare (WResolved p)).
  apply labels_stage_ok; simpl; [intros t q HI; exact HI|naive_solver..].
Qed.

Lemma FitTo_member_ok max p :
  let r := FitTo_member max p in fit_ok max (WStormMember p) (WStormMember r.1) r.2.
Proof. by apply (fit_text_ok WStormMember). Qed.

Lemma FitTo_update_ok max p :
  let r := FitTo_update max p in fit_ok max (WStormUpdate p) (WStormUpdate r.1) r.2.
Proof. by apply (fit_text_ok WStormUpdate). Qed.

Lemma FitTo_family_ok max p :
  let r := FitTo_family max p in fit_ok max (WFamilyMember p) (WFamilyMember r.1) r.2.
Proof. by apply (fit_text_ok WFamilyMember). Qed.

(** The newest entries that fit, counted. *)
Lemma FitTo_digest_ok max p :
  let r := FitTo_digest max p in
  fit_ok max (WDigest p) (WDigest r.1) r.2 /\
  exists k, 0 <= k <= Z.of_nat (length (wd_Entries p)) /\
    (WDigest r.1 = WDigest p \/ r.1 = keep_newest (wd_Entries p) k p).
Proof.
  unfold FitTo_digest, fit_ok. destruct (Z.leb_spec (WireSize (WDigest p)) max).
  { split; [by auto|]. exists 0. split; [lia|by left]. }
  case_bool_decide as He; [split; [by auto with lia|]; exists 0; split; [lia|by left]|].
  destruct (search_fits (fun mid => WireSize (WDigest (keep_newest (wd_Entries p) mid p)) <=? max)
    (length (wd_Entries p))) as [->|[Hr Hf]].
  - split; [|exists 0; split; [lia|by right]]. simpl. split; [right|split; [done|lia]].
    rewrite Nat.sub_0_r. apply drop_all.
  - rewrite Z.max_r by lia. split; [|eexists; split; [exact Hr|by right]].
    simpl. split; [left; by apply Z.leb_le|split; [done|lia]].
Qed.
End fit_spec.

(** C5: a payload over the ceiling is delivered, not dropped. For every payload
    shape and every positive ceiling, the fitted payload is within the ceiling or has
    nothing left to shed; kind, reason, uid, fingerprint, cluster, counts, timestamps
    and every other identity field are those of the original; and a payload that
    already fits is not touched. This holds whatever sizes the JSON encoder produces. *)
Theorem fit_delivers_with_identity `{JSON} (w : wire) (maxBytes : Z) (Hmax : 0 < maxBytes) :
  let '(w', shed) := FitPayload w maxBytes in
  (WireSize w' <= maxBytes \/ bare w') /\ strip w' = strip w /\
  (WireSize w <= maxBytes -> w' = w /\ shed = []).
Proof.
  unfold FitPayload. destruct (Z.leb_spec maxBytes 0); [lia|]. destruct w as [p|p|p|p|p|p|p|p|p].
  - pose proof (FitTo_payload_ok maxBytes p). by destruct (FitTo_payload _ _).
  - pose proof (FitTo_storm_ok maxBytes p). by destruct (FitTo_storm _ _).
  - pose proof (FitTo_member_ok maxBytes p). by destruct (FitTo_member _ _).
  - pose proof (FitTo_update_ok maxBytes p). by destruct (FitTo_update _ _).
  - pose proof (FitTo_regressed_ok maxBytes p). by destruct (FitTo_regressed _ _).
  - pose proof (FitTo_family_ok maxBytes p). by destruct (FitTo_family _ _).
  - pose proof (FitTo_digest_ok maxBytes p) as [? _]. by destruct (FitTo_digest _ _).
  - split; [by right|done].
  - pose proof (FitTo_resolved_ok maxBytes p). by destruct (FitTo_resolved _ _).
Qed.

(** An oversized digest loses only its oldest warnings, and no more than it
    must. When the encoder never makes a digest with fewer entries bigger, a digest
    over the ceiling keeps exactly the newest entries, as many as fit, and says how
    many it dropped. *)
Theorem digest_drops_oldest_only `{JSON} (maxBytes : Z) (p : WatchboardDigestPayload)
    (Hover : maxBytes < WireSize (WDigest p)) (Hdropped : wd_EntriesDropped p = 0)
    (Hmono : forall j k, 0 <= j <= k -> k < Z.of_nat (length (wd_Entries p)) ->
       WireSize (WDigest (keep_newest (wd_Entries p) j p)) <=
       WireSize (WDigest (keep_newest (wd_Entries p) k p))) :
  exists old new, wd_Entries p = old ++ new /\
    wd_Entries (FitTo_digest maxBytes p).1 = new /\
    wd_EntriesDropped (FitTo_digest maxBytes p).1 = Z.of_nat (length old) /\
    forall k, 0 <= k <= Z.of_nat (length (wd_Entries p)) ->
      WireSize (WDigest (keep_newest (wd_Entries p) k p)) <= maxBytes ->
      k <= Z.of_nat (length new).
Proof.
  set (full := wd_Entries p) in *.
  set (fits := fun mid => WireSize (WDigest (keep_newest full mid p)) <=? maxBytes).
  assert (fits (Z.of_nat (length full)) = false) as Hn.
  { unfold fits, keep_newest. rewrite Nat2Z.id, Nat.sub_diag, Z.sub_diag, drop_0.
    destruct p; simpl in *; subst. by apply Z.leb_gt. }
  assert (forall k, 0 <= k <= Z.of_nat (length full) -> fits k = true -> k <= search fits (length full)) as Hmost.
  { apply search_most. intros j k Hj Hk Hf.
    destruct (decide (k = Z.of_nat (length full))) as [->|]; [by rewrite Hf in Hn|].
    unfold fits in *. btrue. apply Z.leb_le. specialize (Hmono j k). lia. }
  destruct (decide (full = [])) as [Hnil|Hne].
  { exists [], []. unfold FitTo_digest. fold full. destruct (Z.leb_spec (WireSize (WDigest p)) maxBytes); [lia|].
    rewrite bool_decide_eq_true_2 by done. simpl. fold full. rewrite Hnil. repeat split; [done..|]. simpl. lia. }
  set (best := Z.max 0 (search fits (length full))).
  assert (0 <= best <= Z.of_nat (length full)) as Hb by (destruct (search_fits fits (length full)); lia).
  assert ((FitTo_digest maxBytes p).1 = keep_newest full best p) as ->.
  { unfold FitTo_digest. fold full. destruct (Z.leb_spec (WireSize (WDigest p)) maxBytes); [lia|].
    by rewrite bool_decide_eq_false_2. }
  exists (take (length full - Z.to_nat best) full), (drop (length full - Z.to_nat best) full).
  split; [by rewrite take_drop|]. simpl. rewrite length_take, length_drop. split; [done|split; [lia|]].
  intros k Hk Hf. specialize (Hmost k Hk ltac:(by apply Z.leb_le)). lia.
Qed.

(** An encoder for the examples: ten bytes per digest entry, the message and the
    bundle of an incident as they are. *)
Definition toy_json : JSON := {|
  Marshal := fun w =>
    match w with
    | WDigest p => Some (of_runes ((fun _ => "0123456789") <$> wd_Entries p))
    | WPayload p => Some (pl_Message p +:+ match pl_Enrichment p with Some e => pe_Bundle e | None => "" end)
    | _ => None
    end;
  MarshalMessage := Some |}.

Definition big_payload : Payload :=
  mkPayload "k8s-event" "BackOff" "shop" "Pod" "web-1" "" "u" "back-off restarting failed container" 3 0 0
    "prod" "" "" "" "" "" "" "" zero_context "Warning" (Some (mkPEnrichment "bundle")) None None "" 0.

Lemma fit_delivers_with_identity_witness :
  0 < 30 /\
  let '(w', shed) := FitPayload (H := toy_json) (WPayload big_payload) 30 in
  (WireSize (H := toy_json) w' <= 30 \/ bare w') /\ strip w' = strip (WPayload big_payload).
Proof.
  split; [reflexivity|].
  pose proof (fit_delivers_with_identity (H := toy_json) (WPayload big_payload) 30 eq_refl) as Hf.
  revert Hf. destruct (FitPayload (H := toy_json) (WPayload big_payload) 30) as [w' shed].
  intros (Hb & Hs & _). exact (conj Hb Hs).
Defined.

Definition digest_of (n : nat) : WatchboardDigestPayload :=
  mkDigest KindWatchboardDigest "prod" 1 1 0 0
    ((fun i => mkBoardEntryWire "k" "" "" "" "Pod" "" (itoa (Z.of_nat i)) 1 0 0 "") <$> seq 0 n) 0.

Lemma toy_digest_size j :
  0 <= j < 5 -> WireSize (H := toy_json) (WDigest (keep_newest (wd_Entries (digest_of 5)) j (digest_of 5))) = 10 * j.
Proof. intros. assert (j = 0 \/ j = 1 \/ j = 2 \/ j = 3 \/ j = 4) as H' by lia. destruct_or! H'; subst; reflexivity. Qed.

Lemma digest_drops_oldest_only_witness :
  30 < WireSize (H := toy_json) (WDigest (digest_of 5)) /\
  exists old new, wd_Entries (digest_of 5) = old ++ new /\
    wd_Entries (FitTo_digest (H := toy_json) 30 (digest_of 5)).1 = new /\ length new = 3%nat.
Proof.
  split; [reflexivity|].
  destruct (digest_drops_oldest_only (H := toy_json) 30 (digest_of 5) eq_refl eq_refl) as (old & new & Hsplit & Hnew & _).
  - intros j k Hj Hk. change (Z.of_nat (length (wd_Entries (digest_of 5)))) with 5 in Hk.
    rewrite !toy_digest_size by lia. lia.
  - exists old, new. split; [exact Hsplit|]. split; [exact Hnew|]. rewrite <- Hnew. reflexivity.
Defined.
