(* ===== verification/Triage.v ===== *)
(** Triage-status overrides (src/internal/watch/triage.go, with the record of
    src/pkg/memory/triage.go): what the severity routing takes from the records an
    agent wrote, and when a downgraded incident is reported as regressed.

    The store is SQLite: what its two queries answer is an argument. The clock is
    the argument [now]. *)
From S2P Require Import Prelude GoTime GoStrings GoHash Signal.
From Stdlib Require Import Ascii.

Notation TriageStatus := string (only parsing).
Definition StatusEscalated : TriageStatus := "escalated".

Record TriageStatusRecord := mkTriageRecord {
  tsr_Fingerprint : string;
  tsr_ResourceKey : string;
  tsr_Session : string;
  tsr_Status : TriageStatus;
  tsr_RootCauseHypothesis : string;
  tsr_SeverityOverride : string;
  tsr_Action : string;
  tsr_CanonicalReason : string;
  tsr_Cluster : string;
  tsr_RecordedBy : string;
  tsr_Updated : Time
}.

Definition ResourceKey (kindOfObject namespace name : string) : string :=
  kindOfObject +:+ "/" +:+ namespace +:+ "/" +:+ name.

Definition MatchesResource (r : TriageStatusRecord) (key : string) : bool :=
  (tsr_ResourceKey r ==s key) || HasSuffix (tsr_ResourceKey r) ("/" +:+ key).

(** ** State *)

Definition triageRefreshInterval : Duration := 30 * Second.
Definition maxRegressEntries : Z := 4096.

Record regressState := mkRegress { rg_baseline : Z; rg_fired : bool }.

Record triageOverrides := mkTriage {
  regressFactor : Z;
  tg_loaded : Time;
  tg_records : list TriageStatusRecord;
  tg_regress : gmap EventKey regressState
}.

Definition newTriageOverrides (factor : Z) : triageOverrides := mkTriage factor zero_time [] ∅.

(** ** Matching *)

Definition severityWeight (s : Severity) : Z :=
  if s ==s SeverityCritical then 2 else if s ==s SeverityWarning then 1 else 0.

Definition signalResourceKeys (sig : Signal) : list string :=
  let ev := sig_Event sig in
  ResourceKey (te_KindOfObject ev) (te_Namespace ev) (te_Name ev) ::
  match cut_byte "/"%char (te_ControllerRef ev) with
  | Some (kind, name) =>
      if (kind <>s "") && (name <>s "") then [ResourceKey kind (te_Namespace ev) name] else []
  | None => []
  end.

(** The refresh of the cached view: [open] is the store's answer, [None] an error. *)
Definition refresh (now : Time) (open : option (list TriageStatusRecord)) (t : triageOverrides)
  : triageOverrides :=
  if IsZero (tg_loaded t) || (triageRefreshInterval <=? Sub now (tg_loaded t)) then
    match open with
    | Some recs => t <| tg_records := recs |> <| tg_loaded := now |>
    | None => t
    end
  else t.

Definition record_matches (sig : Signal) (rec : TriageStatusRecord) : bool :=
  (tsr_Fingerprint rec ==s sig_Fingerprint sig)
  && existsb (MatchesResource rec) (signalResourceKeys sig).

(** [match]: the first open record of the refreshed view that is the signal's. *)
Definition match_record (now : Time) (open : option (list TriageStatusRecord)) (sig : Signal)
    (t : triageOverrides) : triageOverrides * option TriageStatusRecord :=
  if sig_Fingerprint sig ==s "" then (t, None)
  else
    let t := refresh now open t in
    (t, List.find (record_matches sig) (tg_records t)).

(** [Apply]: the effective severity, and the record when it downgrades. *)
Definition override (rec : TriageStatusRecord) (sev : Severity) : Severity * option TriageStatusRecord :=
  if tsr_Status rec ==s StatusEscalated then (SeverityCritical, None)
  else if tsr_SeverityOverride rec ==s "" then (sev, None)
  else
    let next := tsr_SeverityOverride rec in
    if negb (Severity_Valid next) then (sev, None)
    else if severityWeight next <? severityWeight sev then (next, Some rec)
    else if severityWeight sev <? severityWeight next then (next, None)
    else (sev, None).

Definition Apply (now : Time) (open : option (list TriageStatusRecord)) (sig : Signal)
    (t : triageOverrides) : triageOverrides * (Severity * option TriageStatusRecord) :=
  let '(t, rec) := match_record now open sig t in
  (t, match rec with
      | None => (sig_Severity sig, None)
      | Some rec => override rec (sig_Severity sig)
      end).

(** ** Regression *)

Section regression.
Context `{RangeOrder}.

(** The full map drops the entry the runtime happens to visit first. *)
Definition drop_one (m : gmap EventKey regressState) : gmap EventKey regressState :=
  if maxRegressEntries <=? Z.of_nat (size m) then
    match range 0 m with
    | (k, _) :: _ => delete k m
    | [] => m
    end
  else m.

Definition noteRegression (key : EventKey) (count : Z) (t : triageOverrides)
  : triageOverrides * (Z * bool) :=
  if regressFactor t <=? 0 then (t, (0, false))
  else
    let key := canonical_key key in
    match tg_regress t !! key with
    | None =>
        let count := Z.max 1 count in
        (t <| tg_regress := <[key := mkRegress count false]> (drop_one (tg_regress t)) |>, (count, false))
    | Some st =>
        if rg_fired st || (count <? wrap64 (rg_baseline st * regressFactor t))
        then (t, (rg_baseline st, false))
        else (t <| tg_regress := <[key := st <| rg_fired := true |>]> (tg_regress t) |>,
              (rg_baseline st, true))
    end.
End regression.

Definition windowRolled (key : EventKey) (t : triageOverrides) : triageOverrides :=
  t <| tg_regress := delete (canonical_key key) (tg_regress t) |>.

(** [resolve]: [flip] is the store's [ResolveTriageStatus], [None] an error. *)
Definition resolve (flip : string -> list string -> option Z) (sig : Signal) (t : triageOverrides)
  : triageOverrides :=
  match flip (sig_Fingerprint sig) (signalResourceKeys sig) with
  | None => t
  | Some 0 => t
  | Some _ => t <| tg_loaded := zero_time |>
  end.

(** ** What holds of it *)

Lemma HasSuffix_spec s p : HasSuffix s p = true <-> exists r, s = r +:+ p.
Proof.
  unfold HasSuffix. rewrite HasPrefix_spec. split.
  - intros [r Hr]. exists (string_rev r).
    by rewrite <- (string_rev_involutive s), Hr, string_rev_app, string_rev_involutive.
  - intros [r ->]. exists (string_rev r). by rewrite string_rev_app.
Qed.

(** A triage record steers only its own incident. The severity routing changes a
    signal's class only on account of a record that is in the view it just consulted,
    has the signal's fingerprint and names its object or its controller (up to a
    group/version prefix); the class it routes at is then valid, critical when the
    record is escalated, and a record is reported as a downgrade only when it lowers
    the class. *)
Theorem triage_steers_own_incident (now : Time) (open : option (list TriageStatusRecord)) (sig : Signal)
    (t t' : triageOverrides) (sev : Severity) (down : option TriageStatusRecord)
    (Happly : Apply now open sig t = (t', (sev, down))) (Hchanged : sev <> sig_Severity sig) :
  exists rec key pre, rec ∈ tg_records t' /\ tsr_Fingerprint rec = sig_Fingerprint sig /\
    key ∈ signalResourceKeys sig /\ (tsr_ResourceKey rec = key \/ tsr_ResourceKey rec = pre +:+ "/" +:+ key) /\
    Severity_Valid sev = true /\
    (tsr_Status rec = StatusEscalated -> sev = SeverityCritical) /\
    (down <> None -> down = Some rec /\ severityWeight sev < severityWeight (sig_Severity sig)).
Proof.
  unfold Apply, match_record in Happly.
  destruct (sig_Fingerprint sig ==s ""); [by simplify_eq|].
  destruct (List.find _ _) as [rec|] eqn:Hfind; [|by simplify_eq].
  apply find_some in Hfind as [Hin Hm]. unfold record_matches in Hm. btrue.
  apply existsb_exists in H0 as (key & Hkey & Hres). apply list_elem_of_In in Hkey.
  exists rec, key.
  assert (exists pre, tsr_ResourceKey rec = key \/ tsr_ResourceKey rec = pre +:+ "/" +:+ key) as [pre Hpre].
  { apply orb_true_iff in Hres as [?|Hs]; btrue; [exists ""; by left|].
    apply HasSuffix_spec in Hs as [r ->]. exists r. by right. }
  exists pre. injection Happly as <- Hov. unfold override in Hov.
  split; [by apply list_elem_of_In|]. split; [done|split; [done|split; [done|]]].
  repeat case_match; simplify_eq/=; btrue; repeat split; naive_solver.
Qed.

Section regression_spec.
Context `{RangeOrder}.

(** A run of duplicates of downgraded incidents within one dedup window. *)
Fixpoint regress_run (t : triageOverrides) (l : list (EventKey * Z)) : triageOverrides * list (EventKey * bool) :=
  match l with
  | [] => (t, [])
  | (k, n) :: l =>
      let '(t, (_, due)) := noteRegression k n t in
      let '(t, out) := regress_run t l in
      (t, (canonical_key k, due) :: out)
  end.

Definition fired (k : EventKey) (t : triageOverrides) : bool :=
  match tg_regress t !! k with Some st => rg_fired st | None => false end.

Definition dues (k : EventKey) (out : list (EventKey * bool)) : nat :=
  length (filter (fun kd => kd = (k, true)) out).

Lemma drop_one_room m : Z.of_nat (size m) < maxRegressEntries -> drop_one m = m.
Proof. intros. unfold drop_one. by rewrite (proj2 (Z.leb_gt _ _)). Qed.

Lemma noteRegression_step k k' n t :
  Z.of_nat (size (tg_regress t)) < maxRegressEntries ->
  let '(t', (_, due)) := noteRegression k' n t in
  (size (tg_regress t') <= S (size (tg_regress t)))%nat /\
  (if fired k t then fired k t' = true /\ (canonical_key k' = k -> due = false)
   else canonical_key k' = k -> due = true -> fired k t' = true).
Proof.
  intros Hroom. unfold noteRegression, fired. destruct (_ <=? 0).
  { split; [lia|]. case_match; [case_match|]; done. }
  rewrite drop_one_room by done.
  destruct (decide (canonical_key k' = k)) as [<-|Hne].
  - destruct (tg_regress t !! canonical_key k') as [st|] eqn:E.
    + destruct (rg_fired st) eqn:Ef; simpl.
      * rewrite E, Ef. split; [lia|done].
      * destruct (_ <? _); simpl; [rewrite E, Ef; split; [lia|done]|].
        rewrite lookup_insert_eq, map_size_insert_Some by done. split; [lia|done].
    + simpl. rewrite map_size_insert_None by done. split; [lia|done].
  - destruct (tg_regress t !! canonical_key k') as [st|] eqn:E.
    + destruct (rg_fired st || _); simpl; [split; [lia|]; case_match; [case_match|]; done|].
      rewrite lookup_insert_ne, map_size_insert_Some by done. split; [lia|].
      case_match; [case_match|]; done.
    + simpl. rewrite lookup_insert_ne, map_size_insert_None by done. split; [lia|].
      case_match; [case_match|]; done.
Qed.

Lemma regress_run_dues k l t :
  Z.of_nat (size (tg_regress t) + length l) < maxRegressEntries ->
  (dues k (regress_run t l).2 <= if fired k t then 0 else 1)%nat.
Proof.
  revert t. induction l as [|[k' n] l IH]; intros t Hroom; cbn [regress_run];
    [by destruct (fired k t); auto with arith|].
  pose proof (noteRegression_step k k' n t) as Hstep.
  destruct (noteRegression k' n t) as [t' [b due]]. cbn [length] in Hroom.
  destruct Hstep as [Hsize Hstep]; [lia|]. specialize (IH t' ltac:(lia)).
  destruct (regress_run t' l) as [t'' out]. cbn [snd] in *. unfold dues in *. rewrite filter_cons.
  destruct (fired k t).
  - destruct Hstep as [Hf Hd]. rewrite Hf in IH. case_decide; simplify_eq/=; [naive_solver|done].
  - case_decide as Hk; simpl; [|destruct (fired k t'); lia].
    injection Hk as Hk ->. rewrite Hstep in IH by done. lia.
Qed.
End regression_spec.

(** A regression is evidence, once. However many duplicates of downgraded
    incidents arrive within a dedup window, in any interleaving, at most one of them
    reports a given incident as regressed, while the bookkeeping is within its bound. *)
Theorem regression_reported_once `{RangeOrder} (key : EventKey) (l : list (EventKey * Z)) (t : triageOverrides)
    (Hroom : Z.of_nat (size (tg_regress t) + length l) < maxRegressEntries) :
  (dues key (regress_run t l).2 <= 1)%nat.
Proof. pose proof (regress_run_dues key l t Hroom). case_match; lia. Qed.

Definition demo_key : EventKey := mkEventKey "u" "CrashLoopBackOff".

Definition four_events : list (EventKey * Z) :=
  [(demo_key, 2); (demo_key, 6); (demo_key, 7); (demo_key, 20)].

Lemma regression_reported_once_witness :
  Z.of_nat (0 + 4) < maxRegressEntries /\
  (dues demo_key (regress_run (H := plain_range) (newTriageOverrides 3)
     four_events).2 <= 1)%nat /\
  regress_run (H := plain_range) (newTriageOverrides 3) [(demo_key, 2); (demo_key, 6); (demo_key, 7)] =
  (mkTriage 3 0 [] {[ demo_key := mkRegress 2 true ]},
   [(demo_key, false); (demo_key, true); (demo_key, false)]).
Proof.
  split; [reflexivity|]. split; [|vm_compute; reflexivity].
  exact (regression_reported_once (H := plain_range) demo_key
    four_events (newTriageOverrides 3) eq_refl).
Defined.

Definition downgrade : TriageStatusRecord :=
  mkTriageRecord "fp" "apps/v1/Deployment/shop/web" "s9" "triaged" "" "info" "" "" "" "" 0.
Definition web_signal : Signal :=
  zero_signal <| sig_Severity := SeverityCritical |> <| sig_Fingerprint := "fp" |>
    <| sig_Event := mkTriageEvent demo_key "shop" "Pod" "web-1" "" "" 0 0 "Deployment/web" "" ∅ 1 "Warning" |>.

Lemma triage_steers_own_incident_witness :
  SeverityInfo <> sig_Severity web_signal /\
  exists rec key pre, rec ∈ [downgrade] /\ key ∈ signalResourceKeys web_signal /\
    (tsr_ResourceKey rec = key \/ tsr_ResourceKey rec = pre +:+ "/" +:+ key).
Proof.
  split; [discriminate|].
  destruct (triage_steers_own_incident Hour (Some [downgrade]) web_signal (newTriageOverrides 3)
    (mkTriage 3 Hour [downgrade] ∅) SeverityInfo (Some downgrade) eq_refl ltac:(discriminate))
    as (rec & key & pre & Hrec & _ & Hkey & Hpre & _).
  exists rec, key, pre. exact (conj Hrec (conj Hkey Hpre)).
Defined.

(** A resolved record can keep routing. Flipping a record to resolved marks the
    cached view stale, "a routing decision between here and the next refresh must not
    honor a resolved record"; but a refresh that fails keeps the previous view, so the
    recurrence of a resolved, downgraded incident is still routed at the downgraded
    class. *)
Theorem resolved_record_still_routes (now : Time) (flip : string -> list string -> option Z) (sig : Signal)
    (rec : TriageStatusRecord) (l : list TriageStatusRecord) (t : triageOverrides)
    (Hview : tg_records t = rec :: l) (Hmatch : record_matches sig rec = true)
    (Hfp : sig_Fingerprint sig <> "")
    (Hflip : flip (sig_Fingerprint sig) (signalResourceKeys sig) = Some 1) :
  (Apply now None sig (resolve flip sig t)).2 = override rec (sig_Severity sig).
Proof.
  unfold resolve. rewrite Hflip. unfold Apply, match_record. rewrite bool_decide_eq_false_2 by done.
  unfold refresh. simpl. rewrite Hview. simpl. by rewrite Hmatch.
Qed.

Lemma resolved_record_still_routes_witness :
  (Apply (2 * Hour) None web_signal
     (resolve (fun _ _ => Some 1) web_signal (mkTriage 3 Hour [downgrade] ∅))).2 = (SeverityInfo, Some downgrade).
Proof.
  exact (resolved_record_still_routes (2 * Hour) (fun _ _ => Some 1) web_signal downgrade []
    (mkTriage 3 Hour [downgrade] ∅) eq_refl eq_refl ltac:(discriminate) eq_refl).
Defined.
