(* ===== verification/Watchboard.v ===== *)
(** The watchboard (src/internal/watch/watchboard.go): warning-class signals batched
    into rolling digests on a session of its own, opened lazily and rotated after a
    number of digests.

    The board runs on an interface, [BoardOps]: the sink's verbs, and the two
    callbacks the dispatcher installs ([bind], [reattach]). The callbacks do not call
    back into the board, so its own state is threaded explicitly. A flush runs under
    [flushMu] and is one step; the clock is the argument [now]. *)
From S2P Require Import Prelude GoTime GoStrings GoHash GoFmt Signal Effects Wire.
From Stdlib Require Import Ascii Sorted.

Record watchboardConfig := mkBoardConfig {
  wb_cluster : string;
  wb_dryRun : bool;
  wb_batch : Z;
  wb_flushInterval : Duration;
  wb_rotateAfter : Z;
  wb_injectMaxBytes : Z
}.

Record boardEntry := mkEntry { be_sig : Signal; be_count : Z }.

Record watchboard := mkBoard {
  wb_sid : string;
  wb_generation : Z;
  wb_injects : Z;
  wb_buffer : list boardEntry;
  wb_opened : Time
}.

Definition newWatchboard : watchboard := mkBoard "" 0 0 [] zero_time.

(** [None] of [op_create] is a stateless sink, [None] of [op_reattach] a nil callback. *)
Class BoardOps (W : Type) := {
  op_append : string -> wire -> M W (option sink_error);
  op_open : wire -> M W (string * option sink_error);
  op_create : option (M W (string * option sink_error));
  op_reattach : option (Signal -> Z -> M W bool);
  op_bind : Signal -> string -> M W unit;
  op_print : string -> wire -> M W unit
}.

Section board.
Context `{JSON} {W : Type} {ops : BoardOps W} (cfg : watchboardConfig).

Definition digest_entry (e : boardEntry) : WatchboardEntry :=
  let sig := be_sig e in
  let ev := sig_Event sig in {|
  we_Kind := sig_Kind sig;
  we_Fingerprint := sig_Fingerprint sig;
  we_Reason := Reason (te_Key ev);
  we_Namespace := te_Namespace ev;
  we_KindOfObject := te_KindOfObject ev;
  we_Name := te_Name ev;
  we_UID := UID (te_Key ev);
  we_Count := be_count e;
  we_FirstSeen := te_FirstSeen ev;
  we_LastSeen := te_LastSeen ev;
  we_ReasonClass := ReasonClass (sig_Kind sig) (Reason (te_Key ev)) (te_Message ev) |}.

Definition digestPayload (now windowStart : Time) (gen injects : Z) (raw : list boardEntry)
  : WatchboardDigestPayload :=
  let payload := {|
    wd_Kind := KindWatchboardDigest;
    wd_Cluster := wb_cluster cfg;
    wd_BoardGeneration := gen;
    wd_Sequence := injects + 1;
    wd_WindowStart := windowStart;
    wd_WindowEnd := now;
    wd_Entries := digest_entry <$> raw;
    wd_EntriesDropped := 0 |} in
  if 0 <? wb_injectMaxBytes cfg then (FitTo_digest (wb_injectMaxBytes cfg) payload).1 else payload.

Definition rotatedPayload (now : Time) (gen injects : Z) (newSid : string) : WatchboardRotatedPayload := {|
  wr_Kind := KindWatchboardRotated;
  wr_Cluster := wb_cluster cfg;
  wr_BoardGeneration := gen;
  wr_SuccessorSessionID := newSid;
  wr_InjectsCount := injects;
  wr_RotatedAt := now |}.

Definition finishFlush (entries : list boardEntry) (sid : string) : M W unit :=
  for_each entries (fun e => op_bind (be_sig e) sid).

Fixpoint reattachBatch (entries : list boardEntry) : M W (list boardEntry) :=
  match op_reattach, entries with
  | Some reattach, e :: entries =>
      taken ← reattach (be_sig e) (be_count e);
      kept ← reattachBatch entries;
      mret (if taken : bool then kept else e :: kept)
  | _, _ => mret entries
  end.

(** [openSession]: the session, generation and inject count to go on with, and
    whether there is a session at all. *)
Definition openSession (create : M W (string * option sink_error)) (now : Time)
    (sid : string) (gen injects : Z) : M W (string * Z * Z * bool) :=
  let rotating := sid <>s "" in
  '(newSid, err) ← create;
  match err with
  | Some _ => mret (sid, gen, injects, rotating)
  | None =>
      _ ← when rotating (_ ← op_append sid (WRotated (rotatedPayload now gen injects newSid)); mret tt);
      mret (newSid, gen + 1, 0, true)
  end.

(** [openStateless]: a sink without an empty session opens the successor with the
    digest itself. *)
Definition openStateless (now windowStart : Time) (entries : list boardEntry) (prevSid : string)
    (prevGen prevInjects : Z) : M W (string * Z * Z) :=
  let rotating := prevSid <>s "" in
  let nextGen := prevGen + 1 in
  '(newSid, err) ← op_open (WDigest (digestPayload now windowStart nextGen 0 entries));
  if newSid ==s "" then
    if rotating then
      aerr ← op_append prevSid (WDigest (digestPayload now windowStart prevGen prevInjects entries));
      match aerr with
      | Some aerr => mret (if sessionGone aerr then ("", prevGen, 0) else (prevSid, prevGen, prevInjects))
      | None => _ ← finishFlush entries prevSid; mret (prevSid, prevGen, prevInjects + 1)
      end
    else mret (prevSid, prevGen, prevInjects)
  else
    _ ← when rotating
      (_ ← op_append prevSid (WRotated (rotatedPayload now prevGen prevInjects newSid)); mret tt);
    match err with
    | Some _ => mret (newSid, nextGen, 0)
    | None => _ ← finishFlush entries newSid; mret (newSid, nextGen, 1)
    end.

(** [recoverGoneSession]: the session was lost; open another and retry once. *)
Definition recoverGoneSession (now windowStart : Time) (entries : list boardEntry) (gen : Z)
  : M W (string * Z * Z * bool) :=
  match op_create with
  | None =>
      '(newSid, newGen, newInjects) ← openStateless now windowStart entries "" gen 0;
      mret (newSid, newGen, newInjects, false)
  | Some create =>
      '(newSid, newGen, newInjects, okOpen) ← openSession create now "" gen 0;
      if negb (okOpen : bool) then mret ("", gen, 0, false)
      else
        rerr ← op_append newSid (WDigest (digestPayload now windowStart newGen newInjects entries));
        match rerr with
        | Some rerr => mret (if sessionGone rerr then ("", newGen, 0, false) else (newSid, newGen, newInjects, false))
        | None => mret (newSid, newGen, newInjects + 1, true)
        end
  end.

(** [b.sid, b.generation, b.injects = sid, gen, injects] *)
Definition set_session (sid : string) (gen injects : Z) (b : watchboard) : watchboard :=
  b <| wb_sid := sid |> <| wb_generation := gen |> <| wb_injects := injects |>.

(** The delivery half of a flush, on a session that is there. *)
Definition deliver (now windowStart : Time) (entries : list boardEntry) (sid : string) (gen injects : Z)
    (b : watchboard) : M W watchboard :=
  err ← op_append sid (WDigest (digestPayload now windowStart gen injects entries));
  match err with
  | Some err =>
      if sessionGone err then
        '(newSid, newGen, newInjects, delivered) ← recoverGoneSession now windowStart entries gen;
        _ ← when delivered (finishFlush entries newSid);
        mret (set_session newSid newGen newInjects b)
      else mret (set_session sid gen injects b)
  | None =>
      _ ← finishFlush entries sid;
      mret (set_session sid gen (injects + 1) b)
  end.

Definition flush (now : Time) (b : watchboard) : M W watchboard :=
  if bool_decide (wb_buffer b = []) then mret b
  else
    let windowStart := wb_opened b in
    let '(sid, gen, injects) := (wb_sid b, wb_generation b, wb_injects b) in
    entries ← reattachBatch (wb_buffer b);
    let b := b <| wb_buffer := [] |> in
    if bool_decide (entries = []) then mret b
    else if wb_dryRun cfg then
      let gen := if gen =? 0 then 1 else gen in
      _ ← op_print sid (WDigest (digestPayload now windowStart gen injects entries));
      _ ← finishFlush entries sid;
      mret (set_session sid gen (injects + 1) b)
    else if (sid ==s "") || (wb_rotateAfter cfg <=? injects) then
      match op_create with
      | None =>
          '(newSid, newGen, newInjects) ← openStateless now windowStart entries sid gen injects;
          mret (set_session newSid newGen newInjects b)
      | Some create =>
          '(sid, gen, injects, okOpen) ← openSession create now sid gen injects;
          if negb (okOpen : bool) then mret (set_session sid gen injects b)
          else deliver now windowStart entries sid gen injects b
      end
    else deliver now windowStart entries sid gen injects b.

Definition Add (now : Time) (sig : Signal) (count : Z) (b : watchboard) : M W watchboard :=
  let b := if bool_decide (wb_buffer b = []) then b <| wb_opened := now |> else b in
  let b := b <| wb_buffer := wb_buffer b ++ [mkEntry sig count] |> in
  if wb_batch cfg <=? Z.of_nat (length (wb_buffer b)) then flush now b else mret b.

Definition Tick (now : Time) (b : watchboard) : M W watchboard :=
  if negb (bool_decide (wb_buffer b = [])) && (wb_flushInterval cfg <=? Sub now (wb_opened b))
  then flush now b else mret b.

Definition FlushNow (now : Time) (b : watchboard) : M W watchboard :=
  if negb (bool_decide (wb_buffer b = [])) then flush now b else mret b.
End board.

(** ** What holds of it *)

(** The position a digest announces: its generation and its sequence in it. *)
Definition digest_pos (p : wire) : list (Z * Z) :=
  match p with WDigest d => [(wd_BoardGeneration d, wd_Sequence d)] | _ => [] end.

(** What the board needs of its surroundings to be reasoned about: [log] lists the
    positions of the digests that were delivered, and only the two delivering verbs
    add to it. *)
Class BoardLaws (W : Type) `{BoardOps W} (log : W -> list (Z * Z)) := {
  law_append sid p w :
    log (op_append sid p w).2 = log w ++ match (op_append sid p w).1 with None => digest_pos p | Some _ => [] end;
  law_open p w :
    log (op_open p w).2 = log w ++
      match (op_open p w).1 with (sid, None) => if sid ==s "" then [] else digest_pos p | _ => [] end;
  law_create create w : op_create = Some create -> log (create w).2 = log w;
  law_reattach reattach sig n w : op_reattach = Some reattach -> log (reattach sig n w).2 = log w;
  law_bind sig sid w : log (op_bind sig sid w).2 = log w;
  law_print sid p w : log (op_print sid p w).2 = log w
}.

Definition pos_lt (p q : Z * Z) : Prop := p.1 < q.1 \/ (p.1 = q.1 /\ p.2 < q.2).

(** [chain o l o']: [l] increases from after [o] on and ends at [o']. *)
Inductive chain : option (Z * Z) -> list (Z * Z) -> option (Z * Z) -> Prop :=
  | chain_nil o : chain o [] o
  | chain_first p l o : chain (Some p) l o -> chain None (p :: l) o
  | chain_next q p l o : pos_lt q p -> chain (Some p) l o -> chain (Some q) (p :: l) o.

Lemma chain_app o l o' l' o'' : chain o l o' -> chain o' l' o'' -> chain o (l ++ l') o''.
Proof. induction 1; simpl; [done|constructor; auto..]. Qed.

#[global] Instance pos_lt_trans : Transitive pos_lt.
Proof. unfold pos_lt. intros p q r. naive_solver lia. Qed.

Lemma chain_above o l o' :
  chain o l o' -> match o with Some q => Forall (pos_lt q) l | None => True end.
Proof.
  induction 1 as [[]|p l o Hc IH|q p l o Hlt Hc IH]; [done..|].
  constructor; [done|]. eapply Forall_impl; [|exact IH]. intros r Hr. by trans p.
Qed.

Lemma chain_sorted o l o' : chain o l o' -> StronglySorted pos_lt l.
Proof. induction 1 as [|p l o Hc IH|q p l o Hlt Hc IH]; constructor; auto; by apply chain_above in Hc. Qed.

Section board_spec.
Context `{JSON} {W : Type} {ops : BoardOps W} (log : W -> list (Z * Z)) {laws : BoardLaws W log}.
Context (cfg : watchboardConfig).
Implicit Types (o : option (Z * Z)).

(** The last delivered position is behind the next one of (gen, injects) ... *)
Definition behind o (gen injects : Z) : Prop :=
  match o with None => True | Some p => p.1 < gen \/ (p.1 = gen /\ p.2 <= injects) end.

(** ... or at least behind the generation the next session will have. *)
Definition behind_next o (gen : Z) : Prop :=
  match o with None => True | Some p => p.1 <= gen end.

Definition board_inv o (sid : string) (gen injects : Z) : Prop :=
  if sid ==s "" then behind_next o gen else behind o gen injects.

Lemma behind_weaken o gen injects : behind o gen injects -> behind_next o gen.
Proof. destruct o; simpl; lia. Qed.
Lemma behind_next_open o gen : behind_next o gen -> behind o (gen + 1) 0.
Proof. destruct o; simpl; lia. Qed.
Lemma inv_next o sid gen injects : board_inv o sid gen injects -> behind_next o gen.
Proof. unfold board_inv. case_bool_decide; eauto using behind_weaken. Qed.
Lemma behind_inv o sid gen injects : behind o gen injects -> board_inv o sid gen injects.
Proof. unfold board_inv. case_bool_decide; eauto using behind_weaken. Qed.
Lemma chain_one o gen injects :
  behind o gen injects -> chain o [(gen, injects + 1)] (Some (gen, injects + 1)).
Proof. destruct o as [q|]; intros Hb; constructor; try apply chain_nil. unfold pos_lt. simpl in *. lia. Qed.
Lemma behind_self gen injects : behind (Some (gen, injects + 1)) gen (injects + 1).
Proof. simpl. lia. Qed.

#[local] Hint Resolve behind_weaken behind_next_open inv_next behind_inv chain_one behind_self chain_nil : board.

(** [m] delivers an increasing run of digests after [o]. *)
Definition delivers {A} o (m : M W A) (Q : A -> option (Z * Z) -> Prop) : Prop :=
  forall w, exists l o', log (m w).2 = log w ++ l /\ chain o l o' /\ Q (m w).1 o'.

Lemma delivers_ret {A} o (x : A) (Q : A -> option (Z * Z) -> Prop) : Q x o -> delivers o (mret x) Q.
Proof. intros HQ w. exists [], o. rewrite app_nil_r. auto with board. Qed.

Lemma delivers_bind {A B} o (m : M W A) (f : A -> M W B) Q Q' :
  delivers o m Q -> (forall x o', Q x o' -> delivers o' (f x) Q') -> delivers o (m ≫= f) Q'.
Proof.
  intros Hm Hf w. destruct (Hm w) as (l & o' & Hl & Hc & HQ). unfold mbind, M_bind.
  destruct (m w) as [x w']. simpl in *. destruct (Hf x o' HQ w') as (l' & o'' & Hl' & Hc' & HQ').
  exists (l ++ l'), o''. rewrite Hl', Hl, <- app_assoc. eauto using chain_app.
Qed.

(** A step that delivers no digest. *)
Lemma delivers_quiet {A} o (m : M W A) : (forall w, log (m w).2 = log w) -> delivers o m (fun _ o' => o' = o).
Proof. intros Hm w. exists [], o. rewrite Hm, app_nil_r. auto with board. Qed.

Lemma delivers_bind_quiet {A B} o (m : M W A) (f : A -> M W B) Q :
  (forall w, log (m w).2 = log w) -> (forall x, delivers o (f x) Q) -> delivers o (m ≫= f) Q.
Proof. intros Hm Hf. eapply delivers_bind; [by apply delivers_quiet|]. by intros x o' ->. Qed.

Lemma digestPayload_pos now ws gen injects raw :
  digest_pos (WDigest (digestPayload cfg now ws gen injects raw)) = [(gen, injects + 1)].
Proof.
  unfold digestPayload. destruct (_ <? _); [|done]. unfold FitTo_digest. cbn zeta.
  destruct (_ <=? _); [done|]. case_bool_decide; done.
Qed.

Lemma append_digest o sid now ws gen injects raw :
  behind o gen injects ->
  delivers o (op_append sid (WDigest (digestPayload cfg now ws gen injects raw)))
    (fun err o' => match err with None => o' = Some (gen, injects + 1) | Some _ => o' = o end).
Proof.
  intros Hb w. rewrite law_append. rewrite digestPayload_pos.
  destruct (op_append _ _ w).1; eexists _, _; (split; [reflexivity|]); auto with board.
Qed.

Lemma append_rotated o sid now gen injects newSid :
  delivers o (_ ← op_append sid (WRotated (rotatedPayload cfg now gen injects newSid)); mret tt)
    (fun _ o' => o' = o).
Proof.
  apply delivers_bind_quiet; [|intros; by apply delivers_ret]. intros w. rewrite law_append.
  destruct (op_append _ _ w).1; by rewrite app_nil_r.
Qed.

Lemma when_rotated o c sid now gen injects newSid :
  delivers o (when c (_ ← op_append sid (WRotated (rotatedPayload cfg now gen injects newSid)); mret tt))
    (fun _ o' => o' = o).
Proof. destruct c; [apply append_rotated|by apply delivers_ret]. Qed.

Lemma finishFlush_quiet entries sid w : log (finishFlush entries sid w).2 = log w.
Proof.
  unfold finishFlush. revert w. induction entries as [|e entries IH]; intros w; [done|]. simpl.
  unfold mbind, M_bind. pose proof (law_bind (be_sig e) sid w) as Hb.
  destruct (op_bind _ _ w) as [u w']. simpl in *. by rewrite IH.
Qed.

Lemma reattachBatch_quiet entries w : log (reattachBatch entries w).2 = log w.
Proof.
  revert w. induction entries as [|e entries IH]; intros w; simpl; destruct op_reattach as [r|] eqn:E; try done.
  unfold mbind, M_bind. pose proof (law_reattach r (be_sig e) (be_count e) w E) as Hr.
  destruct (r _ _ w) as [t w']. simpl in *. specialize (IH w').
  destruct (reattachBatch entries w') as [kept w'']. simpl in *. by rewrite IH.
Qed.

Lemma openSession_spec o create now sid gen injects :
  op_create = Some create -> board_inv o sid gen injects ->
  delivers o (openSession cfg create now sid gen injects)
    (fun '(sid', gen', injects', ok) o' =>
       o' = o /\ if (ok : bool) then behind o' gen' injects' else board_inv o' sid' gen' injects').
Proof.
  intros Hc Hinv. unfold openSession. apply delivers_bind_quiet; [by intros; apply law_create|].
  intros [newSid [err|]].
  - apply delivers_ret. split; [done|]. revert Hinv. unfold board_inv. case_bool_decide; simpl; done.
  - eapply delivers_bind; [apply when_rotated|]. intros _ o' ->. apply delivers_ret.
    eauto with board.
Qed.

Lemma openStateless_spec o now ws entries sid gen injects :
  board_inv o sid gen injects ->
  delivers o (openStateless cfg now ws entries sid gen injects)
    (fun '(sid', gen', injects') o' => board_inv o' sid' gen' injects').
Proof.
  intros Hinv. unfold openStateless.
  eapply (delivers_bind _ _ _ (fun r o' =>
    match r with
    | (newSid, None) => if newSid ==s "" then o' = o else o' = Some (gen + 1, 0 + 1)
    | (_, Some _) => o' = o
    end)).
  { intros w. rewrite law_open, digestPayload_pos.
    destruct (op_open _ w).1 as [newSid [err|]]; [|case_bool_decide];
      eexists _, _; (split; [reflexivity|]); eauto with board. }
  intros [newSid err] o' Ho'. cbn beta iota. case_bool_decide as Hn.
  - assert (o' = o) as -> by (destruct err; done). case_bool_decide as Hs; cbn [negb].
    + by apply delivers_ret.
    + assert (behind o gen injects) as Hb by (revert Hinv; unfold board_inv; by rewrite bool_decide_eq_false_2).
      eapply delivers_bind; [by apply append_digest|]. intros [aerr|] o'' Ho''; subst.
      * apply delivers_ret. destruct (sessionGone aerr); [|by apply behind_inv].
        unfold board_inv. rewrite bool_decide_eq_true_2 by done. eauto with board.
      * apply delivers_bind_quiet; [apply finishFlush_quiet|]. intros _. apply delivers_ret. auto with board.
  - eapply delivers_bind; [apply when_rotated|]. intros _ o'' ->. destruct err as [err|]; subst.
    + apply delivers_ret. eauto with board.
    + apply delivers_bind_quiet; [apply finishFlush_quiet|]. intros _. apply delivers_ret.
      apply behind_inv. apply (behind_self _ 0).
Qed.

Lemma recoverGoneSession_spec o now ws entries gen :
  behind_next o gen ->
  delivers o (recoverGoneSession cfg now ws entries gen)
    (fun '(sid', gen', injects', _) o' => board_inv o' sid' gen' injects').
Proof.
  intros Hb. unfold recoverGoneSession. destruct op_create as [create|] eqn:Ec.
  - eapply delivers_bind; [by apply openSession_spec|].
    intros [[[newSid newGen] newInjects] ok] o' [-> Hok]. destruct ok; cbn [negb].
    + eapply delivers_bind; [by apply append_digest|]. intros [rerr|] o'' ->.
      * apply delivers_ret. destruct (sessionGone rerr); [|by apply behind_inv].
        unfold board_inv. rewrite bool_decide_eq_true_2 by done. eauto with board.
      * apply delivers_ret. auto with board.
    + by apply delivers_ret.
  - eapply delivers_bind; [by apply openStateless_spec|].
    intros [[newSid newGen] newInjects] o' Ho'. by apply delivers_ret.
Qed.

Definition board_ok (b : watchboard) o : Prop := board_inv o (wb_sid b) (wb_generation b) (wb_injects b).

Lemma deliver_spec o now ws entries sid gen injects b :
  behind o gen injects ->
  delivers o (deliver cfg now ws entries sid gen injects b) board_ok.
Proof.
  intros Hb. unfold deliver. eapply delivers_bind; [by apply append_digest|]. intros [err|] o' ->.
  - destruct (sessionGone err); [|apply delivers_ret; by apply behind_inv].
    eapply delivers_bind; [apply recoverGoneSession_spec; eauto with board|].
    intros [[[newSid newGen] newInjects] delivered] o' Ho'.
    apply delivers_bind_quiet; [|intros _; by apply delivers_ret].
    intros w. destruct delivered; [apply finishFlush_quiet|done].
  - apply delivers_bind_quiet; [apply finishFlush_quiet|]. intros _. apply delivers_ret.
    unfold board_ok. simpl. auto with board.
Qed.

Lemma flush_spec o now b :
  wb_dryRun cfg = false -> board_ok b o -> delivers o (flush cfg now b) board_ok.
Proof.
  intros Hdry Hb. unfold flush. case_bool_decide; [by apply delivers_ret|]. cbn beta iota zeta.
  apply delivers_bind_quiet; [apply reattachBatch_quiet|]. intros entries.
  case_bool_decide; [by apply delivers_ret|]. rewrite Hdry.
  destruct (_ || _) eqn:Eopen.
  - destruct op_create as [create|] eqn:Ec.
    + eapply delivers_bind; [by apply openSession_spec|].
      intros [[[sid gen] injects] ok] o' [-> Hok]. destruct ok; cbn [negb]; [by apply deliver_spec|by apply delivers_ret].
    + eapply delivers_bind; [by apply openStateless_spec|].
      intros [[sid gen] injects] o' Ho'. by apply delivers_ret.
  - apply deliver_spec. apply orb_false_iff in Eopen as [Es _]. revert Hb. unfold board_ok, board_inv. by rewrite Es.
Qed.

(** ** Runs of the board *)

Inductive board_op :=
  | OpAdd (now : Time) (sig : Signal) (count : Z)
  | OpTick (now : Time)
  | OpFlushNow (now : Time).

Definition run_board_op (op : board_op) (b : watchboard) : M W watchboard :=
  match op with
  | OpAdd now sig count => Add cfg now sig count b
  | OpTick now => Tick cfg now b
  | OpFlushNow now => FlushNow cfg now b
  end.

Fixpoint run_board (l : list board_op) (b : watchboard) : M W watchboard :=
  match l with
  | [] => mret b
  | op :: l => b ← run_board_op op b; run_board l b
  end.

Lemma run_board_op_spec o op b :
  wb_dryRun cfg = false -> board_ok b o -> delivers o (run_board_op op b) board_ok.
Proof.
  intros Hdry Hb. destruct op as [now sig count|now|now]; simpl.
  - unfold Add. cbn zeta. case_bool_decide; (destruct (_ <=? _); [by apply flush_spec|by apply delivers_ret]).
  - unfold Tick. destruct (_ && _); [by apply flush_spec|by apply delivers_ret].
  - unfold FlushNow. destruct (negb _); [by apply flush_spec|by apply delivers_ret].
Qed.

Lemma run_board_spec o l b :
  wb_dryRun cfg = false -> board_ok b o -> delivers o (run_board l b) board_ok.
Proof.
  intros Hdry. revert o b. induction l as [|op l IH]; intros o b Hb; simpl; [by apply delivers_ret|].
  eapply delivers_bind; [by apply run_board_op_spec|]. intros b' o' Hb'. by apply IH.
Qed.
End board_spec.

(** ** The buffer *)

Section buffer.
Context `{JSON} {W : Type} {ops : BoardOps W} (cfg : watchboardConfig).

Lemma deliver_buffer now ws entries sid gen injects b w :
  wb_buffer (deliver cfg now ws entries sid gen injects b w).1 = wb_buffer b.
Proof.
  unfold deliver, mbind, M_bind. destruct (op_append _ _ w) as [[err|] w1].
  - destruct (sessionGone err); [|done]. destruct (recoverGoneSession _ _ _ _ _ w1) as [[[[? ?] ?] d] w2].
    by destruct (when _ _ w2).
  - by destruct (finishFlush _ _ w1).
Qed.

(** A flush empties the buffer, whatever becomes of its entries. *)
Lemma flush_buffer now b w : wb_buffer (flush cfg now b w).1 = [].
Proof.
  unfold flush. case_bool_decide; [done|]. cbn beta iota zeta. unfold mbind, M_bind.
  destruct (reattachBatch _ w) as [entries w1]. case_bool_decide; [done|]. destruct (wb_dryRun cfg).
  - destruct (op_print _ _ w1) as [? w2]. by destruct (finishFlush _ _ w2).
  - destruct (_ || _); [|apply deliver_buffer]. destruct op_create as [create|].
    + destruct (openSession _ _ _ _ _ _ w1) as [[[[? ?] ?] ok] w2].
      destruct ok; cbn [negb]; [apply deliver_buffer|done].
    + by destruct (openStateless _ _ _ _ _ _ _ w1) as [[[? ?] ?] w2].
Qed.

Lemma run_board_buffer l b w :
  0 < wb_batch cfg -> Z.of_nat (length (wb_buffer b)) < wb_batch cfg ->
  Z.of_nat (length (wb_buffer (run_board cfg l b w).1)) < wb_batch cfg.
Proof.
  intros Hbatch. revert b w. induction l as [|op l IH]; intros b w Hb; simpl; [done|].
  unfold mbind, M_bind. destruct (run_board_op cfg op b w) as [b' w'] eqn:E. apply IH.
  change b' with (b', w').1. rewrite <- E. destruct op as [now sig count|now|now]; simpl.
  - unfold Add. cbn zeta.
    match goal with |- context [if ?c <=? ?n then _ else _] => destruct (Z.leb_spec c n) end;
      [by rewrite flush_buffer|done].
  - unfold Tick. destruct (_ && _); [by rewrite flush_buffer|done].
  - unfold FlushNow. destruct (negb _); [by rewrite flush_buffer|done].
Qed.
End buffer.

(** ** The digests a sink received *)

Section delivered.
Context `{Sink}.

Definition delivered_one (h : list call) (c : call) : list (Z * Z) :=
  match c with
  | CallAppend id p => match Append h id p with None => digest_pos p | Some _ => [] end
  | CallOpen key p =>
      match OpenIncident h key p with (sid, None) => if sid ==s "" then [] else digest_pos p | _ => [] end
  | CallCreate _ => []
  end.

(** Replays the calls [l] against the sink, which has seen [h]. *)
Fixpoint delivered_from (h l : list call) : list (Z * Z) :=
  match l with
  | [] => []
  | c :: l => delivered_one h c ++ delivered_from (h ++ [c]) l
  end.

Definition delivered : list call -> list (Z * Z) := delivered_from [].

Lemma delivered_from_snoc h l c :
  delivered_from h (l ++ [c]) = delivered_from h l ++ delivered_one (h ++ l) c.
Proof.
  revert h. induction l as [|c' l IH]; intros h; simpl; [by rewrite !app_nil_r|].
  by rewrite IH, <- !app_assoc.
Qed.

Lemma delivered_snoc l c : delivered (l ++ [c]) = delivered l ++ delivered_one l c.
Proof. apply delivered_from_snoc. Qed.

(** A board on its own: the world is what the sink has seen, and nothing reattaches. *)
Definition sink_ops (cluster : string) : BoardOps (list call) := {|
  op_append := fun id p h => (Append h id p, h ++ [CallAppend id p]);
  op_open := fun p h => (OpenIncident h None p, h ++ [CallOpen None p]);
  op_create :=
    if keyed then
      let key := Some (mkIncidentKey cluster IncidentKeyWatchboard "") in
      Some (fun h => (CreateSession h key, h ++ [CallCreate key]))
    else if session_opener then Some (fun h => (CreateSession h None, h ++ [CallCreate None]))
    else None;
  op_reattach := None;
  op_bind := fun _ _ => mret tt;
  op_print := fun _ _ => mret tt |}.

Lemma sink_ops_laws cluster : BoardLaws (H := sink_ops cluster) (list call) delivered.
Proof.
  split; simpl; intros; try (rewrite delivered_snoc; simpl); try done.
  repeat case_match; simplify_eq/=; rewrite delivered_snoc; simpl; by rewrite app_nil_r.
Qed.
End delivered.

(** C4: digests arrive in order and the buffer is bounded. Over any run of warnings,
    ticks and shutdown flushes, against any sink (stateless, session-opening or
    keyed; failing, losing sessions, or half-opening them), the digests that were
    delivered carry strictly increasing (generation, sequence) pairs, never two with
    the same one; and the buffer never holds a full batch. *)
Theorem digests_in_order `{JSON} {W : Type} {ops : BoardOps W} (log : W -> list (Z * Z))
    {laws : BoardLaws W log} (cfg : watchboardConfig) (l : list board_op) (w : W)
    (Hlive : wb_dryRun cfg = false) (Hbatch : 0 < wb_batch cfg) :
  (exists ps, log (run_board cfg l newWatchboard w).2 = log w ++ ps /\ StronglySorted pos_lt ps) /\
  Z.of_nat (length (wb_buffer (run_board cfg l newWatchboard w).1)) < wb_batch cfg.
Proof.
  split; [|by apply run_board_buffer].
  destruct (run_board_spec log cfg None l newWatchboard Hlive I w) as (ps & o & Hps & Hc & _).
  exists ps. split; [done|by eapply chain_sorted].
Qed.

(** A webhook that loses its session after the third call. *)
Definition flaky_webhook : Sink := {|
  keyed := false;
  session_opener := false;
  OpenIncident := fun h _ _ => ("s" +:+ itoa (Z.of_nat (length h)), None);
  Append := fun h _ _ => if (2 <? length h)%nat then Some (mkSinkError (Some 410)) else None;
  CreateSession := fun _ _ => ("", None) |}.

Definition no_json : JSON := {| Marshal := fun _ => None; MarshalMessage := fun _ => None |}.

Lemma digests_in_order_witness :
  exists ps, delivered (H := flaky_webhook)
    (run_board (H := no_json) (ops := sink_ops (H := flaky_webhook) "prod") (mkBoardConfig "prod" false 1 Minute 2 0)
       (OpAdd 1 zero_signal 1 :: OpAdd 2 zero_signal 1 :: OpAdd 3 zero_signal 1 :: OpAdd 4 zero_signal 1 :: [])
       newWatchboard []).2 = ps /\ StronglySorted pos_lt ps /\ ps = [(1, 1); (1, 2); (2, 1); (3, 1)].
Proof.
  destruct (digests_in_order (H := no_json) (ops := sink_ops (H := flaky_webhook) "prod")
    (delivered (H := flaky_webhook)) (laws := sink_ops_laws (H := flaky_webhook) "prod")
    (mkBoardConfig "prod" false 1 Minute 2 0)
    (OpAdd 1 zero_signal 1 :: OpAdd 2 zero_signal 1 :: OpAdd 3 zero_signal 1 :: OpAdd 4 zero_signal 1 :: [])
    [] eq_refl eq_refl) as [(ps & Hps & Hs) _].
  exists ps. split; [exact Hps|]. split; [exact Hs|]. rewrite <- (app_nil_l ps). change [] with (delivered (H := flaky_webhook) []) at 1.
  rewrite <- Hps. vm_compute. reflexivity.
Defined.
