(* ===== verification/Payloads.v ===== *)
(** Payload composition (the pure half of src/internal/watch/dispatch.go, storm.go,
    reattach.go, session_open.go): what each handler puts on the wire, and the
    ancestor keys an incident is joined by.

    Masking (pkg/emit) is the class [Masking]: the two functions are arguments and
    nothing is assumed of them. *)
From S2P Require Import Prelude GoTime GoStrings GoHash GoFmt Signal PullFailure Filter Routing.
From S2P Require Import Repeat Dedup Recovery Storm Effects Wire Triage.
From Stdlib Require Import Ascii.

Class Masking := {
  maskString : string -> string;
  maskLabels : gmap string string -> gmap string string
}.

(** ** Incidents *)

(** [stampIdentity] *)
Definition stampIdentity (sig : Signal) (p : Payload) : Payload :=
  let p := p <| pl_Project := sig_Project sig |> <| pl_Region := sig_Region sig |> <| pl_Zone := sig_Zone sig |> in
  if (pl_Kind p ==s KindK8sEvent) || (pl_Kind p ==s KindK8sEventFollowup) then p
  else p <| pl_Source := sig_Source sig |> <| pl_Severity := sig_Severity sig |>
         <| pl_Fingerprint := sig_Fingerprint sig |>.

Definition quota_wire (q : QuotaIncreaseDraft) : PayloadQuotaDraft :=
  mkPQuota (qd_QuotaID q) (qd_Region q) (qd_Unit q) (qd_CurrentUsage q) (qd_CurrentLimit q)
    (qd_SuggestedLimit q) (qd_SlopePerDay q) (qd_Justification q).

Section payloads.
Context `{Masking}.

Definition payload_context (sig : Signal) : PayloadContext :=
  let ev := sig_Event sig in
  mkContext (te_ControllerRef ev) (te_Node ev) (maskLabels (te_Labels ev)).

Definition incidentPayload (sig : Signal) (result : DedupResult) : Payload :=
  let ev := sig_Event sig in
  let payload := {|
    pl_Kind := sig_Kind sig;
    pl_Reason := Reason (te_Key ev);
    pl_Namespace := te_Namespace ev;
    pl_KindOfObject := te_KindOfObject ev;
    pl_Name := te_Name ev;
    pl_Container := te_Container ev;
    pl_UID := UID (te_Key ev);
    pl_Message := maskString (te_Message ev);
    pl_Count := dr_Count result;
    pl_FirstSeen := te_FirstSeen ev;
    pl_LastSeen := te_LastSeen ev;
    pl_Cluster := sig_Cluster sig;
    pl_Project := "";
    pl_Region := "";
    pl_Zone := "";
    pl_PullCause := maskString (sig_PullCause sig);
    pl_Source := "";
    pl_Severity := "";
    pl_Fingerprint := "";
    pl_Context := payload_context sig;
    pl_Type := te_Type ev;
    pl_Enrichment := None;
    pl_Forecast := None;
    pl_QuotaIncreaseDraft := None;
    pl_ReasonClass := ReasonClass (sig_Kind sig) (Reason (te_Key ev)) (te_Message ev);
    pl_RepeatCount := 0 |} in
  let payload := stampIdentity sig payload in
  payload <| pl_Enrichment := (fun e => mkPEnrichment (en_Bundle e)) <$> sig_Enrichment sig |>
    <| pl_Forecast := (fun f => mkPForecast (fc_ETA f) (fc_ConfidenceBasis f)) <$> sig_Forecast sig |>
    <| pl_QuotaIncreaseDraft := quota_wire <$> sig_QuotaDraft sig |>.

Definition repeatPayload (sig : Signal) (result : DedupResult) : Payload :=
  let sig := if sig_Kind sig ==s KindK8sEvent then sig <| sig_Kind := KindK8sEventFollowup |> else sig in
  let sig := sig <| sig_Enrichment := None |> in
  (incidentPayload sig result) <| pl_RepeatCount := dr_RepeatCount result |>.

(** [resolvedPayload], of a signal whose [Recovery] is attached. *)
Definition resolvedPayload (sig : Signal) (rec : Recovery) : ResolvedPayload :=
  let ev := sig_Event sig in {|
  rp_Kind := sig_Kind sig;
  rp_Reason := Reason (te_Key ev);
  rp_Namespace := te_Namespace ev;
  rp_KindOfObject := te_KindOfObject ev;
  rp_Name := te_Name ev;
  rp_Container := te_Container ev;
  rp_UID := UID (te_Key ev);
  rp_Fingerprint := sig_Fingerprint sig;
  rp_Cluster := sig_Cluster sig;
  rp_FirstSeen := te_FirstSeen ev;
  rp_ResolvedAt := ResolvedAt rec;
  rp_ClearedAfter := Duration_String (ClearedAfter rec);
  rp_ObservedStableFor := Duration_String (ObservedStableFor rec);
  rp_Resolution := rec_Resolution rec;
  rp_RevertedAfter := if sig_Kind sig ==s KindResolvedReverted then Duration_String (RevertedAfter rec) else "";
  rp_Context := payload_context sig |}.

Definition triageRegressedPayload (sig : Signal) (rec : TriageStatusRecord) (baseline factor : Z)
    (result : DedupResult) : TriageRegressedPayload :=
  let ev := sig_Event sig in {|
  trp_Kind := KindTriageRegressed;
  trp_Reason := Reason (te_Key ev);
  trp_Namespace := te_Namespace ev;
  trp_KindOfObject := te_KindOfObject ev;
  trp_Name := te_Name ev;
  trp_Container := te_Container ev;
  trp_UID := UID (te_Key ev);
  trp_Fingerprint := sig_Fingerprint sig;
  trp_Cluster := sig_Cluster sig;
  trp_TriageStatus := tsr_Status rec;
  trp_SeverityOverride := tsr_SeverityOverride rec;
  trp_TriageSession := tsr_Session rec;
  trp_BaselineCount := baseline;
  trp_Count := dr_Count result;
  trp_Factor := factor;
  trp_FirstSeen := te_FirstSeen ev;
  trp_LastSeen := te_LastSeen ev;
  trp_Message := "downgraded incident regressed: " +:+ itoa (dr_Count result) +:+
    " occurrences this dedup window vs " +:+ itoa baseline +:+ " when the " +:+ tsr_SeverityOverride rec +:+
    " override was written (" +:+ itoa factor +:+
    "x or more) — override still routing; re-triage via `lookout triage status` or escalate";
  trp_Context := payload_context sig;
  trp_ReasonClass := ReasonClass (sig_Kind sig) (Reason (te_Key ev)) (te_Message ev) |}.

(** ** Family members *)

(** The fields the three joins fill alike. *)
Definition family_member (sig : Signal) (family openedBy sid message : string) : FamilyMemberPayload :=
  let ev := sig_Event sig in {|
  fm_Kind := KindFamilyMember;
  fm_MemberKind := sig_Kind sig;
  fm_Reason := Reason (te_Key ev);
  fm_Severity := sig_Severity sig;
  fm_Namespace := te_Namespace ev;
  fm_KindOfObject := te_KindOfObject ev;
  fm_Name := te_Name ev;
  fm_UID := UID (te_Key ev);
  fm_Fingerprint := sig_Fingerprint sig;
  fm_Family := family;
  fm_OpenedBy := openedBy;
  fm_Cluster := sig_Cluster sig;
  fm_SessionID := sid;
  fm_Message := message;
  fm_DesignRef := FamilyMemberDesignRef |}.

(** [injectJoinFollowup]: a second source sees the same incident. *)
Definition joinPayload (sig : Signal) (key : EventKey) (openedBy sid : string) : FamilyMemberPayload :=
  family_member sig (Reason key) openedBy sid
    ("cross-source join: " +:+ sig_Kind sig +:+ " (" +:+ Reason (te_Key (sig_Event sig)) +:+
     ") attached to this session's " +:+ Reason key +:+ " incident, opened by the " +:+ openedBy +:+
     " source — a second observation angle on the same incident; at most one family.member per source family per window").

(** [foldSibling]: another pod of the same workload. *)
Definition siblingPayload (sig : Signal) (key : EventKey) (count : Z) (sid matched : string) : FamilyMemberPayload :=
  let ev := sig_Event sig in
  family_member sig matched (SourceFamily (sig_Kind sig)) sid
    ("same-workload join: " +:+ te_KindOfObject ev +:+ " " +:+ te_Name ev +:+ " (" +:+ Reason (te_Key ev) +:+
     ", count=" +:+ itoa count +:+ ") shows the same failure (" +:+ Reason key +:+
     ") as this session's incident under " +:+ matched +:+
     " — another pod of the same workload (a rollout's new ReplicaSet, or another replica), folded here instead of opening a second incident").

(** [injectReattachFollowup]: a warning under the same ancestor. *)
Definition reattachPayload (sig : Signal) (count : Z) (sid ancestor : string) : FamilyMemberPayload :=
  family_member sig ancestor (SourceFamily (sig_Kind sig)) sid
    ("blast-radius join: " +:+ sig_Kind sig +:+ " (" +:+ Reason (te_Key (sig_Event sig)) +:+
     ", severity=" +:+ sig_Severity sig +:+ ", count=" +:+ itoa count +:+ ") shares the ancestor " +:+ ancestor +:+
     " with this session's incident — the same failure seen from a different altitude, reattached here instead of opening a watchboard digest entry; at most one per source family per incident per window").

(** ** Storms *)

Definition stormRef (m : StormMember) : StormIncidentRef := {|
  sr_Fingerprint := sm_Fingerprint m;
  sr_Reason := sm_Reason m;
  sr_Namespace := sm_Namespace m;
  sr_KindOfObject := sm_KindOfObject m;
  sr_Name := sm_Name m;
  sr_UID := UID (sm_Key m);
  sr_SessionID := sm_SessionID m;
  sr_ReasonClass := sm_ReasonClass m |}.

Definition stormRefs (members : list StormMember) : list StormIncidentRef := stormRef <$> members.

Definition stormPayload (info : StormInfo) (cluster : string) : StormPayload :=
  let a := si_Ancestor info in {|
  sp_Kind := KindStorm;
  sp_Fingerprint := si_Fingerprint info;
  sp_Severity := si_Severity info;
  sp_Cluster := cluster;
  sp_AncestorKind := an_Kind a;
  sp_AncestorNamespace := an_Namespace a;
  sp_AncestorName := an_Name a;
  sp_Reason := si_Reason info;
  sp_Message := maskString (Ancestor_Display a +:+ ": " +:+ itoa (si_AffectedCount info) +:+
    " incidents across " +:+ itoa (si_NamespaceCount info) +:+
    " namespace(s) share this blast-radius key; " +:+ itoa (Z.of_nat (length (si_Representatives info))) +:+
    " representative incident(s) attached; member sessions are suppressed and route here");
  sp_AffectedCount := si_AffectedCount info;
  sp_NamespacesCount := si_NamespaceCount info;
  sp_FirstSeen := si_FirstSeen info;
  sp_LastSeen := si_LastSeen info;
  sp_Representatives := stormRefs (si_Representatives info);
  sp_MemberFingerprints := si_MemberFingerprints info;
  sp_MemberFingerprintsTruncated := false;
  sp_Context := if an_Kind a ==s "Node" then zero_context <| cx_Node := an_Name a |> else zero_context;
  sp_Enrichment := None;
  sp_KeySource := if si_KeySource info <>s KeySourceTopology then si_KeySource info else "" |}.

Definition stormUpdatePayload (upd : StormSizeUpdate) (info : StormInfo) (cluster : string) : StormUpdatePayload :=
  let a := si_Ancestor info in {|
  sup_Kind := KindStormUpdate;
  sup_StormFingerprint := si_Fingerprint info;
  sup_AncestorKind := an_Kind a;
  sup_AncestorNamespace := an_Namespace a;
  sup_AncestorName := an_Name a;
  sup_Cluster := cluster;
  sup_Message := maskString (Ancestor_Display a +:+ " storm grew to " +:+ itoa (su_AffectedCount upd) +:+
    " incidents across " +:+ itoa (su_NamespaceCount upd) +:+ " namespace(s) (+" +:+ itoa (su_NewSinceLast upd) +:+
    " since the last size report); the initial kind=storm payload carries formation-time counts");
  sup_AffectedCount := su_AffectedCount upd;
  sup_NamespacesCount := su_NamespaceCount upd;
  sup_NewMembersSinceLast := su_NewSinceLast upd |}.

Definition stormMemberPayload (kind : string) (m : StormMember) (info : StormInfo) (cluster : string)
  : StormMemberPayload :=
  let a := si_Ancestor info in
  let msg :=
    if kind ==s KindStormMemberSuperseded then
      "this incident was folded into the " +:+ Ancestor_Display a +:+ " storm (" +:+ itoa (si_AffectedCount info) +:+
      " incidents); further followups and the outcome record route to the storm session"
    else
      "late-arriving incident attached to the " +:+ Ancestor_Display a +:+ " storm (now " +:+
      itoa (si_AffectedCount info) +:+ " incidents)" in {|
  smp_Kind := kind;
  smp_StormFingerprint := si_Fingerprint info;
  smp_StormSessionID := si_SessionID info;
  smp_AncestorKind := an_Kind a;
  smp_AncestorNamespace := an_Namespace a;
  smp_AncestorName := an_Name a;
  smp_Cluster := cluster;
  smp_Message := maskString msg;
  smp_Incident := stormRef m |}.

(** The storm's own outcome record, of [stormResolved]. *)
Definition stormResolvedPayload (rec : Recovery) (info : StormInfo) (cluster : string) : ResolvedPayload :=
  let a := si_Ancestor info in {|
  rp_Kind := KindResolved;
  rp_Reason := "storm";
  rp_Namespace := an_Namespace a;
  rp_KindOfObject := an_Kind a;
  rp_Name := an_Name a;
  rp_Container := "";
  rp_UID := "storm:" +:+ si_ID info;
  rp_Fingerprint := si_Fingerprint info;
  rp_Cluster := cluster;
  rp_FirstSeen := si_FirstSeen info;
  rp_ResolvedAt := ResolvedAt rec;
  rp_ClearedAfter := Duration_String (Sub (ResolvedAt rec) (si_FirstSeen info));
  rp_ObservedStableFor := Duration_String (ObservedStableFor rec);
  rp_Resolution := rec_Resolution rec;
  rp_RevertedAfter := "";
  rp_Context := zero_context |}.
End payloads.

Definition isAutoInjectedAncestor (a : Ancestor) : bool :=
  (an_Kind a ==s "ConfigMap") && (an_Name a ==s "kube-root-ca.crt").

(** ** Ancestor keys *)

Definition reattachAncestorKinds : list string :=
  [ "Node"; "Deployment"; "ReplicaSet"; "StatefulSet"; "DaemonSet"; "Job"; "CronJob"; "ConfigMap"; "Secret";
    "PersistentVolumeClaim" ].
Definition declaredAncestorKinds : list string := [ "Certificate" ].
Definition siblingOwnerKinds : list string :=
  [ "Deployment"; "ReplicaSet"; "StatefulSet"; "DaemonSet"; "Job"; "CronJob" ].

Definition declaredAncestorKeys (sig : Signal) : list string :=
  let ev := sig_Event sig in
  match cut_byte "/"%char (te_ControllerRef ev) with
  | Some (kind, name) =>
      if bool_decide (kind ∈ declaredAncestorKinds) && (name <>s "")
      then [Ancestor_Key (mkAncestor kind (te_Namespace ev) name)] else []
  | None => []
  end ++
  (if bool_decide (te_KindOfObject ev ∈ declaredAncestorKinds) && (te_Name ev <>s "")
   then [Ancestor_Key (mkAncestor (te_KindOfObject ev) (te_Namespace ev) (te_Name ev))] else []).

Definition workloadOwnerKey (sig : Signal) : option string :=
  let ev := sig_Event sig in
  match cut_byte "/"%char (te_ControllerRef ev) with
  | Some (kind, name) =>
      if negb (bool_decide (kind ∈ siblingOwnerKinds)) || (name ==s "") || (te_Namespace ev ==s "") then None
      else Some (Ancestor_Key (mkAncestor kind (te_Namespace ev) name))
  | None => None
  end.

(** The keys the topology index gives for the signal's object, of the given kinds. *)
Definition resolved_keys (resolver : option (ObjectRef -> list Ancestor)) (kinds : list string) (sig : Signal)
  : list string :=
  match resolver with
  | Some ancestors =>
      let ev := sig_Event sig in
      Ancestor_Key <$> filter (fun a => an_Kind a ∈ kinds)
        (ancestors (mkObjectRef (te_KindOfObject ev) (te_Namespace ev) (te_Name ev)))
  | None => []
  end.

(** The workload owner goes last, and only when nothing named it before. *)
Definition with_owner (sig : Signal) (keys : list string) : list string :=
  match workloadOwnerKey sig with
  | Some k => if bool_decide (k ∈ keys) then keys else keys ++ [k]
  | None => keys
  end.

Definition ancestorKeysFor (resolver : option (ObjectRef -> list Ancestor)) (sig : Signal) : list string :=
  with_owner sig (declaredAncestorKeys sig ++ resolved_keys resolver reattachAncestorKinds sig).

(** The candidates of [foldSibling]. *)
Definition siblingCandidates (resolver : option (ObjectRef -> list Ancestor)) (sig : Signal) : list string :=
  with_owner sig (resolved_keys resolver siblingOwnerKinds sig).
