(* ===== verification/Dispatch.v ===== *)
(** The dispatcher (src/internal/watch/dispatch.go, storm.go, reattach.go, recovery.go,
    session_open.go): one signal through filter, dedup, storm correlation, severity
    routing, enrichment and inject.

    A handler is a computation over [world], the state of the dispatcher's components
    together with what it has done: the calls its sink received, the payloads a dry
    run printed, the rows written to the store. Metrics and log lines are left out:
    nothing reads them back. One signal is dispatched at a time and in full; the
    per-key coordination of concurrent dispatches ([acquireKey], [stormReady]) is not
    modelled. The clock, the topology index, the enrichers and the store's answers
    during one dispatch are the argument [env]. *)
From S2P Require Import Prelude GoTime GoStrings GoHash GoFmt Signal PullFailure Filter Routing.
From S2P Require Import Repeat Dedup Recovery Storm Effects Wire Triage Watchboard Payloads.
From Stdlib Require Import Ascii.

(** ** State *)

(** [store.RouteOutcome] and [store.Outcome] (src/pkg/store/record.go). *)
Inductive RouteOutcome :=
  | RouteInjected | RouteSuppressed | RouteStorm | RouteStormMember | RouteToWatchboard | RouteInfoStored
  | RouteResolved | RouteFollowup.

Record Outcome := mkOutcome { oc_Route : RouteOutcome; oc_SessionID : string; oc_StormFingerprint : string }.

Record dispatcher := mkDispatcher {
  d_filter : option FilterConfig;
  d_cluster : string;
  d_project : string;
  d_region : string;
  d_zone : string;
  d_mode : string;
  d_targetSid : string;
  d_dryRun : bool;
  d_injectMaxBytes : Z;
  d_routing : option RoutingPolicy;
  d_board : watchboardConfig;
  d_store : bool (** the store is not nil *)
}.

Record world := mkWorld {
  w_dedup : DedupCache;
  w_pull : option PullClassMemo;
  w_storm : option StormCorrelator;
  w_tracker : option RecoveryTracker;
  w_triage : option triageOverrides;
  w_board : option watchboard;
  w_calls : list call;
  w_printed : list (string * wire);
  w_records : list (Signal * Outcome)
}.

Record enricher := mkEnricher {
  enabledFor : Severity -> bool;
  enrich_Incident : Signal -> string;
  enrich_Storm : StormInfo -> string
}.

Record dispatch_env := mkDispatchEnv {
  e_now : Time;
  e_resolver : option (ObjectRef -> list Ancestor);
  e_fleet : Z;
  e_enrich : option enricher;
  e_open : option (list TriageStatusRecord);
  e_flip : string -> list string -> option Z
}.

Definition PerIncident : string := "per-incident".
Definition Shared : string := "shared".

Section dispatch.
Context `{RangeOrder} `{UnicodeCase} `{JSON} `{Masking} `{Sink}.
Context (d : dispatcher) (env : dispatch_env).
Notation now := (e_now env).
Notation D := (M world).

(** ** Effects *)

Definition dedup {A} (f : DedupCache -> DedupCache * A) : D A :=
  fun w => let '(c, r) := f (w_dedup w) in (r, w <| w_dedup := c |>).
Definition update_dedup (f : DedupCache -> DedupCache) : D unit := modify (fun w => w <| w_dedup ::= f |>).
Definition look {A} (f : DedupCache -> A) : D A := gets (fun w => f (w_dedup w)).

Definition update_storm (f : StormCorrelator -> StormCorrelator) : D unit :=
  modify (fun w => w <| w_storm ::= fmap f |>).
Definition update_triage (f : triageOverrides -> triageOverrides) : D unit :=
  modify (fun w => w <| w_triage ::= fmap f |>).

(** [if d.tracker != nil { d.tracker.Track(...) }] *)
Definition track (key : EventKey) (sid : string) (first : Time) (ref : IncidentRef) : D unit :=
  modify (fun w => w <| w_tracker ::= fmap (Track now (mkIncident key sid first ref)) |>).

(** [d.store.Record] *)
Definition Record_ (sig : Signal) (o : Outcome) : D unit :=
  when (d_store d) (modify (fun w => w <| w_records ::= fun l => l ++ [(sig, o)] |>)).

Definition append (sid : string) (payload : wire) : D (option sink_error) :=
  fun w => (Append (w_calls w) sid payload, w <| w_calls ::= fun l => l ++ [CallAppend sid payload] |>).

Definition open_incident (key : option IncidentKey) (payload : wire) : D (string * option sink_error) :=
  fun w => (OpenIncident (w_calls w) key payload, w <| w_calls ::= fun l => l ++ [CallOpen key payload] |>).

Definition create_session (key : option IncidentKey) : D (string * option sink_error) :=
  fun w => (CreateSession (w_calls w) key, w <| w_calls ::= fun l => l ++ [CallCreate key] |>).

(** The dry run's print to standard output. *)
Definition print (sid : string) (payload : wire) : D unit :=
  modify (fun w => w <| w_printed ::= fun l => l ++ [(sid, payload)] |>).

(** ** Sessions (session_open.go) *)

Definition incidentKey (k : EventKey) : IncidentKey :=
  mkIncidentKey (d_cluster d) IncidentKeyIncident (UID k +:+ "/" +:+ Reason k).

Definition stormKey (a : Ancestor) : IncidentKey :=
  mkIncidentKey (d_cluster d) IncidentKeyStorm (Ancestor_Key a).

Definition fitInject (payload : wire) : wire :=
  if d_injectMaxBytes d <=? 0 then payload
  else match payload with
       | WPayload p => WPayload (FitTo_payload (d_injectMaxBytes d) p).1
       | WStorm p => WStorm (FitTo_storm (d_injectMaxBytes d) p).1
       | _ => payload
       end.

(** [openSession]; [None] is [ok = false]. *)
Definition openSession (key : IncidentKey) (payload : wire) : D (option (string * option sink_error)) :=
  '(sid, err) ← open_incident (if keyed then Some key else None) (fitInject payload);
  mret (if sid ==s "" then None else Some (sid, err)).

Definition noteAncestors (key : EventKey) (sig : Signal) : D unit :=
  update_dedup (NoteAncestors key (ancestorKeysFor (e_resolver env) sig)).

Definition recordBoundSession (key : EventKey) (sid : string) (sig : Signal) (noteStorm : bool) : D unit :=
  _ ← update_dedup (BindIncident key sid (Signal_IncidentRef sig));
  _ ← noteAncestors key sig;
  _ ← when noteStorm (update_storm (NoteMemberSession key sid));
  track key sid (te_FirstSeen (sig_Event sig)) (Signal_IncidentRef sig).

(** The richest identity known of a member. *)
Definition member_ref (m : StormMember) (triggerKey : EventKey) (triggerRef : IncidentRef) (c : DedupCache)
  : IncidentRef :=
  if bool_decide (sm_Key m = triggerKey) then triggerRef
  else match LookupBinding (sm_Key m) c with
       | Some bound => bi_Ref bound
       | None => mkIncidentRef (sm_Namespace m) (sm_KindOfObject m) (sm_Name m) "" "" (sm_Fingerprint m) (d_cluster d)
       end.

Definition rebindStormMembers (members : list StormMember) (sid fingerprint : string) (triggerKey : EventKey)
    (triggerRef : IncidentRef) : D unit :=
  for_each members (fun m =>
    ref ← look (member_ref m triggerKey triggerRef);
    _ ← update_dedup (AttachToStorm (sm_Key m) sid fingerprint ref);
    track (sm_Key m) sid (sm_FirstSeen m) ref).

(** [if d.enrich != nil && guard && d.enrich.enabledFor(...) { ... }] *)
Definition enriched (guard : bool) (sig : Signal) : Signal :=
  match e_enrich env with
  | Some e =>
      if guard && enabledFor e (sig_Severity sig) then
        let bundle := enrich_Incident e sig in
        if bundle <>s "" then sig <| sig_Enrichment := Some (mkEnrichment bundle) |> else sig
      else sig
  | None => sig
  end.

Definition enriched_storm (guard : bool) (info : StormInfo) (p : StormPayload) : StormPayload :=
  match e_enrich env with
  | Some e =>
      if guard && enabledFor e (si_Severity info) then
        let bundle := enrich_Storm e info in
        if bundle <>s "" then p <| sp_Enrichment := Some (mkPEnrichment bundle) |> else p
      else p
  | None => p
  end.

(** ** Storms (storm.go) *)

(** Supersede pointers into the sessions members had before the storm. [send] is the
    delivery: an Append, or a print in a dry run. *)
Definition supersede (send : string -> wire -> D unit) (sid : string) (info : StormInfo)
    (members : list StormMember) : D unit :=
  for_each members (fun m =>
    if (sm_SessionID m ==s "") || (sm_SessionID m ==s sid) then mret tt
    else send (sm_SessionID m) (WStormMember (stormMemberPayload KindStormMemberSuperseded m info (d_cluster d)))).

Definition append_ (sid : string) (payload : wire) : D unit := _ ← append sid payload; mret tt.

(** An inject, or its print. *)
Definition send (sid : string) (payload : wire) : D unit :=
  if d_dryRun d then print sid payload else append_ sid payload.

Definition clearDeadStormSession (fp deadSid : string) : D (option StormInfo) :=
  storm ← gets w_storm;
  match storm with
  | None => mret None
  | Some c =>
      let '(c, info) := ClearStormSession fp deadSid c in
      _ ← update_storm (fun _ => c);
      match info with
      | None => mret None
      | Some info =>
          _ ← for_each (default [] (StormMembers (si_ID info) c)) (fun m => update_dedup (Unbind now (sm_Key m)));
          mret (Some info)
      end
  end.

(** [retryStormOpen]: the new session, empty when the open failed again. *)
Definition retryStormOpen (sig : Signal) (info : StormInfo) : D string :=
  let payload := enriched_storm true info (stormPayload info (d_cluster d)) in
  opened ← openSession (stormKey (si_Ancestor info)) (WStorm payload);
  match opened with
  | None => mret ""
  | Some (sid, _) =>
      _ ← update_storm (BindStormSession (si_ID info) sid);
      storm ← gets w_storm;
      let members := default [] (storm ≫= StormMembers (si_ID info)) in
      _ ← rebindStormMembers members sid (si_Fingerprint info) (CanonicalKey (sig_Event sig)) (Signal_IncidentRef sig);
      _ ← supersede append_ sid (info <| si_SessionID := sid |>) members;
      mret sid
  end.

Definition fit_storm (p : StormPayload) : StormPayload :=
  if 0 <? d_injectMaxBytes d then (FitTo_storm (d_injectMaxBytes d) p).1 else p.

(** The formation's bookkeeping, once there is a session. *)
Definition stormFormed_bind (sig : Signal) (info : StormInfo) (members : list StormMember) (sid : string)
    (payload : StormPayload) : D unit :=
  _ ← update_storm (BindStormSession (si_ID info) sid);
  _ ← Record_ sig (mkOutcome RouteStorm sid (si_Fingerprint info));
  _ ← rebindStormMembers members sid (si_Fingerprint info) (te_Key (sig_Event sig)) (Signal_IncidentRef sig);
  _ ← (if d_dryRun d then print sid (WStorm payload)
       else when (d_mode d ==s Shared) (append_ sid (WStorm payload)));
  supersede send sid (info <| si_SessionID := sid |>) members.

Definition stormFormed (sig : Signal) (info : StormInfo) (members : list StormMember) : D unit :=
  let payload := fit_storm (enriched_storm (d_mode d ==s PerIncident) info (stormPayload info (d_cluster d))) in
  if (d_mode d ==s PerIncident) && negb (d_dryRun d) then
    opened ← openSession (stormKey (si_Ancestor info)) (WStorm payload);
    match opened with
    | None =>
        _ ← Record_ sig (mkOutcome RouteStorm "" (si_Fingerprint info));
        update_dedup (AttachToStorm (te_Key (sig_Event sig)) "" (si_Fingerprint info) (Signal_IncidentRef sig))
    | Some (sid, _) => stormFormed_bind sig info members sid payload
    end
  else stormFormed_bind sig info members (d_targetSid d) payload.

Definition stormSizeUpdate (sid : string) (upd : StormSizeUpdate) (info : StormInfo) : D unit :=
  let payload := WStormUpdate (stormUpdatePayload upd info (d_cluster d)) in
  if d_dryRun d then print sid payload
  else
    err ← append sid payload;
    match err with
    | Some err => when (sessionGone err) (_ ← clearDeadStormSession (si_Fingerprint info) sid; mret tt)
    | None => mret tt
    end.

Definition stormAttached (sig : Signal) (storm : StormInfo) (member : StormMember)
    (update : option StormSizeUpdate) : D unit :=
  sid ← (if d_mode d ==s Shared then mret (d_targetSid d)
         else if (si_SessionID storm ==s "") && (d_mode d ==s PerIncident) && negb (d_dryRun d)
         then retryStormOpen sig storm
         else mret (si_SessionID storm));
  let ref := Signal_IncidentRef sig in
  let key := te_Key (sig_Event sig) in
  _ ← Record_ sig (mkOutcome RouteStormMember sid (si_Fingerprint storm));
  _ ← update_dedup (AttachToStorm key sid (si_Fingerprint storm) ref);
  _ ← track key sid (sm_FirstSeen member) ref;
  let mp := (stormMemberPayload KindStormMember member storm (d_cluster d)) <| smp_StormSessionID := sid |> in
  sid ←
    (if d_dryRun d then _ ← print sid (WStormMember mp); mret sid
     else if sid ==s "" then mret sid
     else
       err ← append sid (WStormMember mp);
       match err with
       | None => mret sid
       | Some err =>
           if sessionGone err then
             info ← clearDeadStormSession (si_Fingerprint storm) sid;
             match info with
             | Some info => retryStormOpen sig info
             | None => mret sid
             end
           else mret sid
       end);
  match update with
  | Some upd => when (d_dryRun d || (sid <>s "")) (stormSizeUpdate sid upd storm)
  | None => mret tt
  end.

Definition stormResolved (rec : Recovery) (info : StormInfo) : D unit :=
  let sid := if d_mode d ==s Shared then d_targetSid d else si_SessionID info in
  if sid ==s "" then mret tt
  else send sid (WResolved (stormResolvedPayload rec info (d_cluster d))).

(** The storm stage: whether it took the signal. *)
Definition correlateStormSignal (sig : Signal) : D bool :=
  storm ← gets w_storm;
  match storm with
  | None => mret false
  | Some c =>
      let '(c, v) := Storm.Observe (mkEnv (default (fun _ => []) (e_resolver env)) (e_fleet env)) now sig c in
      _ ← update_storm (fun _ => c);
      match v with
      | StormNone => mret false
      | StormFormed info members _ => _ ← stormFormed sig info members; mret true
      | StormAttached info member update =>
          bound ← look (LookupSession (te_Key (sig_Event sig)));
          let info :=
            if si_SessionID info ==s "" then
              match bound with Some sid => info <| si_SessionID := sid |> | None => info end
            else info in
          _ ← stormAttached sig info member update; mret true
      end
  end.

(** ** Joins (reattach.go) *)

(** [foldSibling]: whether the signal went into a sibling's session. *)
Definition foldSibling (sig : Signal) (key : EventKey) (count : Z) : D bool :=
  found ← dedup (SessionForSibling now key (sig_Kind sig) (siblingCandidates (e_resolver env) sig));
  match found with
  | None => mret false
  | Some (sid, matched) =>
      err ← append sid (WFamilyMember (siblingPayload sig key count sid matched));
      match err with
      | Some _ => mret false
      | None =>
          _ ← update_dedup (BindIncident key sid (Signal_IncidentRef sig));
          _ ← track key sid (te_FirstSeen (sig_Event sig)) (Signal_IncidentRef sig);
          _ ← Record_ sig (mkOutcome RouteFollowup sid "");
          mret true
      end
  end.

(** [injectReattachFollowup]: whether it was delivered. *)
Definition injectReattachFollowup (sig : Signal) (count : Z) (sid ancestor : string) : D bool :=
  let payload := WFamilyMember (reattachPayload sig count sid ancestor) in
  if d_dryRun d then _ ← print sid payload; mret true
  else err ← append sid payload; mret (bool_decide (err = None)).

(** The watchboard's reattach callback. *)
Definition reattachWatchboardEntry (sig : Signal) (count : Z) : D bool :=
  match e_resolver env with
  | None => mret false
  | Some _ =>
      let key := CanonicalKey (sig_Event sig) in
      bound ← look (LookupSession key);
      match bound with
      | Some _ => mret false
      | None =>
          found ← dedup (SessionForAncestors key (ancestorKeysFor (e_resolver env) sig) (SourceFamily (sig_Kind sig)));
          match found with
          | None => mret false
          | Some (sid, matched) =>
              ok ← injectReattachFollowup sig count sid matched;
              if negb (ok : bool) then mret false
              else
                _ ← update_dedup (BindIncident key sid (Signal_IncidentRef sig));
                _ ← track key sid (te_FirstSeen (sig_Event sig)) (Signal_IncidentRef sig);
                mret true
          end
      end
  end.

(** The watchboard's bind callback. *)
Definition bindWatchboardIncident (sig : Signal) (sid : string) : D unit :=
  let key := CanonicalKey (sig_Event sig) in
  bound ← look (LookupSession key);
  match bound with
  | Some _ => mret tt
  | None =>
      _ ← update_dedup (BindIncident key sid (Signal_IncidentRef sig));
      track key sid (te_FirstSeen (sig_Event sig)) (Signal_IncidentRef sig)
  end.

(** The watchboard's interface, as the dispatcher wires it. *)
#[local] Instance board_ops : BoardOps world := {|
  op_append := append;
  op_open := open_incident None;
  op_create :=
    if keyed then Some (create_session (Some (mkIncidentKey (wb_cluster (d_board d)) IncidentKeyWatchboard "")))
    else if session_opener then Some (create_session None)
    else None;
  op_reattach := Some reattachWatchboardEntry;
  op_bind := bindWatchboardIncident;
  op_print := print |}.

(** [d.board.Add] *)
Definition board_step (step : watchboard -> D watchboard) : D unit :=
  board ← gets w_board;
  match board with
  | None => mret tt
  | Some b => b ← step b; modify (fun w => w <| w_board := Some b |>)
  end.

(** ** Recovery (recovery.go, dispatch.go) *)

Definition update_resolve (sig : Signal) : D unit := update_triage (Triage.resolve (e_flip env) sig).

(** [deferSiblingResolved]: whether the group still has an open member, so that
    nothing is said yet. *)
Definition deferSiblingResolved (sig : Signal) (sid : string) : D bool :=
  let key := te_Key (sig_Event sig) in
  if (sig_Kind sig <>s KindResolved) || (d_mode d <>s PerIncident) then mret false
  else
    group ← look (SiblingGroup key);
    match group with
    | None => mret false
    | Some (rootKey, groupKeys) =>
        _ ← update_resolve sig;
        _ ← update_dedup (MarkResolved key);
        tracker ← gets w_tracker;
        if match tracker with Some t => existsb (Open t) groupKeys | None => false end then
          _ ← Record_ sig (mkOutcome RouteResolved sid ""); mret true
        else _ ← update_dedup (MarkResolved rootKey); mret false
    end.

Definition commitResolved (sig : Signal) (rec : Recovery) (sessionID : string) : D unit :=
  let key := te_Key (sig_Event sig) in
  let resolved := sig_Kind sig ==s KindResolved in
  _ ← when resolved (update_resolve sig);
  _ ← when resolved (update_dedup (MarkResolved key));
  _ ← Record_ sig (mkOutcome RouteResolved sessionID "");
  if resolved then
    storm ← gets w_storm;
    match storm with
    | None => mret tt
    | Some c =>
        let '(c, r) := MemberResolved key c in
        _ ← update_storm (fun _ => c);
        match r with
        | Some (info, true) => stormResolved rec info
        | _ => mret tt
        end
    end
  else when (sig_Kind sig ==s KindResolvedReverted) (update_storm (MemberReverted now key)).

Definition dispatchResolved (sig : Signal) : D unit :=
  let key := te_Key (sig_Event sig) in
  match sig_Recovery sig with
  | None => mret tt
  | Some rec =>
      bound ← look (LookupSession key);
      let target := if d_mode d ==s PerIncident then bound else Some (d_targetSid d) in
      match target with
      | None => commitResolved sig rec ""
      | Some sid =>
          deferred ← deferSiblingResolved sig sid;
          if deferred : bool then mret tt
          else
            let payload := WResolved (resolvedPayload sig rec) in
            if d_dryRun d then _ ← print sid payload; commitResolved sig rec sid
            else
              err ← append sid payload;
              match err with
              | None => commitResolved sig rec sid
              | Some err =>
                  if sessionGone err then
                    _ ← update_dedup (Unbind now key); commitResolved sig rec ""
                  else
                    when (sig_Kind sig ==s KindResolved)
                      (modify (fun w => w <| w_tracker ::= fmap (RequeueResolved key) |>))
              end
      end
  end.

(** ** The pipeline (dispatch.go) *)

Definition or_else (s t : string) : string := if s ==s "" then t else s.

Definition stampClusterIdentity (sig : Signal) : Signal :=
  sig <| sig_Cluster := or_else (sig_Cluster sig) (d_cluster d) |>
      <| sig_Project := or_else (sig_Project sig) (d_project d) |>
      <| sig_Region := or_else (sig_Region sig) (d_region d) |>
      <| sig_Zone := or_else (sig_Zone sig) (d_zone d) |>
      <| sig_Source := or_else (sig_Source sig) SourceSentinel |>.

Definition classifySignal (sig : Signal) : D (Signal * EventKey * option TriageStatusRecord) :=
  let key := CanonicalKey (sig_Event sig) in
  pull ← gets w_pull;
  let '(class, cause, pull) := Resolve_opt now sig pull in
  _ ← modify (fun w => w <| w_pull := pull |>);
  let sig := sig <| sig_PullClass := class |> <| sig_PullCause := cause |> in
  let sig := sig <| sig_Fingerprint := or_else (sig_Fingerprint sig)
    (Fingerprint (sig_Kind sig) (Reason key) (te_KindOfObject (sig_Event sig))
       (FailureDomain (sig_Region sig) (sig_Zone sig))) |> in
  let sig :=
    match d_routing d with
    | Some p => sig <| sig_Severity := Classify (Some p) sig |>
    | None => sig
    end in
  triage ← gets w_triage;
  match triage with
  | Some t =>
      if d_mode d ==s PerIncident then
        let '(t, (sev, downgraded)) := Apply now (e_open env) sig t in
        _ ← update_triage (fun _ => t);
        mret (sig <| sig_Severity := sev |>, key, downgraded)
      else mret (sig, key, None)
  | None => mret (sig, key, None)
  end.

(** [opensSessions]; [board] is whether a watchboard runs. *)
Definition opensSessions (board : bool) (sig : Signal) : bool :=
  (d_mode d ==s PerIncident)
  && (bool_decide (d_routing d = None) || negb (bool_decide (RouteFor (sig_Severity sig) = RouteStore)))
  && (negb board || negb (bool_decide (RouteFor (sig_Severity sig) = RouteWatchboard))).

Definition has_board : D bool := gets (fun w => is_Some_b (w_board w)).

(** The end of both open paths: bind, record, and mark what was not delivered. *)
Definition bind_opened (sig : Signal) (key : EventKey) (sid : string) (err : option sink_error) : D unit :=
  _ ← recordBoundSession key sid sig true;
  _ ← Record_ sig (mkOutcome RouteInjected sid "");
  match err with
  | Some _ => update_dedup (MarkUndelivered key RepeatChangeOpen)
  | None => mret tt
  end.

(** [retryIncidentOpen] *)
Definition retryIncidentOpen (sig : Signal) (result : DedupResult) (key : EventKey) : D unit :=
  bound ← look (LookupSession key);
  match bound with
  | Some sid => Record_ sig (mkOutcome RouteSuppressed sid "")
  | None =>
      let sig := enriched true sig in
      opened ← openSession (incidentKey key) (WPayload (incidentPayload sig result));
      match opened with
      | None => Record_ sig (mkOutcome RouteSuppressed "" "")
      | Some (sid, err) =>
          _ ← update_dedup (NoteIncidentKind key (sig_Kind sig));
          bind_opened sig key sid err
      end
  end.

Definition dispatchPerIncidentOpen (sig : Signal) (key : EventKey) (result : DedupResult) : D unit :=
  folded ← foldSibling sig key (dr_Count result);
  if folded : bool then
    bound ← look (LookupSession key);
    match bound with
    | Some sid => recordBoundSession key sid sig false
    | None => mret tt
    end
  else
    let sig := enriched true sig in
    opened ← openSession (incidentKey key) (WPayload (incidentPayload sig result));
    match opened with
    | None => mret tt
    | Some (sid, err) => bind_opened sig key sid err
    end.

Definition dispatchSharedOrDryRun (sig : Signal) (key : EventKey) (result : DedupResult) : D unit :=
  let sid := d_targetSid d in
  _ ← track key sid (te_FirstSeen (sig_Event sig)) (Signal_IncidentRef sig);
  let sig := enriched (d_mode d ==s PerIncident) sig in
  let payload := fitInject (WPayload (incidentPayload sig result)) in
  _ ← Record_ sig (mkOutcome RouteInjected sid "");
  send sid payload.

(** [injectRepeat]: a followup into the session of an open incident. *)
Definition injectRepeat (sig : Signal) (key : EventKey) (result : DedupResult) : D unit :=
  let reopen := dr_Change result ==s RepeatChangeOpen in
  let sig := if reopen then enriched true sig else sig in
  let payload := if reopen then fitInject (WPayload (incidentPayload sig result))
                 else WPayload (repeatPayload sig result) in
  let sid := dr_SessionID result in
  let followup := mkOutcome RouteFollowup sid "" in
  if d_dryRun d then _ ← Record_ sig followup; print sid payload
  else
    err ← append sid payload;
    match err with
    | None => Record_ sig followup
    | Some err =>
        if sessionGone err then
          _ ← update_dedup (Unbind now key);
          board ← has_board;
          if (dr_Storm result ==s "") && opensSessions board sig then retryIncidentOpen sig result key
          else
            let member sid := Record_ sig (mkOutcome RouteStormMember sid (dr_Storm result)) in
            if dr_Storm result ==s "" then member ""
            else
              info ← clearDeadStormSession (dr_Storm result) sid;
              match info with
              | Some info =>
                  if opensSessions board sig then
                    newSid ← retryStormOpen sig info;
                    member newSid
                  else member ""
              | None => member ""
              end
        else
          _ ← update_dedup (MarkUndelivered key (dr_Change result));
          Record_ sig followup
    end.

(** [injectTriageRegressed] and [injectJoinFollowup] *)
Definition injectTriageRegressed (sig : Signal) (rec : TriageStatusRecord) (baseline : Z) (result : DedupResult)
  : D unit :=
  factor ← gets (fun w => from_option regressFactor 0 (w_triage w));
  send (dr_SessionID result) (WTriageRegressed (triageRegressedPayload sig rec baseline factor result)).

Definition injectJoinFollowup (sig : Signal) (result : DedupResult) (key : EventKey) (openedBy : string) : D unit :=
  _ ← Record_ sig (mkOutcome RouteFollowup (dr_SessionID result) "");
  send (dr_SessionID result) (WFamilyMember (joinPayload sig key openedBy (dr_SessionID result))).

(** [d.triage.noteRegression], and the followup when it is due. *)
Definition note_regression (sig : Signal) (key : EventKey) (rec : TriageStatusRecord) (result : DedupResult) : D unit :=
  triage ← gets w_triage;
  match triage with
  | None => mret tt
  | Some t =>
      let '(t, (baseline, due)) := noteRegression key (dr_Count result) t in
      _ ← update_triage (fun _ => t);
      when due (injectTriageRegressed sig rec baseline result)
  end.

Definition handleDuplicateSignal (sig : Signal) (key : EventKey) (result : DedupResult)
    (downgraded : option TriageStatusRecord) : D unit :=
  let sid := dr_SessionID result in
  if dr_Replay result then Record_ sig (mkOutcome RouteSuppressed "" "")
  else
    _ ← match downgraded with
        | Some rec => when (sid <>s "") (note_regression sig key rec result)
        | None => mret tt
        end;
    join ← (if (d_mode d ==s PerIncident) && (sid <>s "") && (dr_Storm result ==s "")
            then dedup (CrossSourceJoin key (sig_Kind sig)) else mret None);
    board ← has_board;
    match join with
    | Some openedBy => injectJoinFollowup sig result key openedBy
    | None =>
        if negb (d_dryRun d) && (sid ==s "") && (dr_Storm result ==s "") && opensSessions board sig
        then retryIncidentOpen sig result key
        else if (sid ==s "") && (dr_Storm result <>s "")
        then Record_ sig (mkOutcome RouteStormMember "" (dr_Storm result))
        else Record_ sig (mkOutcome RouteSuppressed sid "")
    end.

(** Whether the signal is of the stored-only class, and stored. *)
Definition routeInfoSignal (sig : Signal) : D bool :=
  if (d_mode d <>s PerIncident) || bool_decide (d_routing d = None)
     || negb (bool_decide (RouteFor (sig_Severity sig) = RouteStore))
  then mret false
  else _ ← Record_ sig (mkOutcome RouteInfoStored "" ""); mret true.

(** A new incident, past dedup. *)
Definition dispatchNew (sig : Signal) (key : EventKey) (result : DedupResult) : D unit :=
  _ ← update_dedup (NoteIncidentKind key (sig_Kind sig));
  _ ← update_triage (windowRolled key);
  info ← routeInfoSignal sig;
  if info : bool then mret tt
  else
    storm ← correlateStormSignal sig;
    if storm : bool then mret tt
    else
      board ← has_board;
      if (d_mode d ==s PerIncident) && board && bool_decide (RouteFor (sig_Severity sig) = RouteWatchboard) then
        _ ← Record_ sig (mkOutcome RouteToWatchboard "" "");
        board_step (Watchboard.Add (d_board d) now sig (dr_Count result))
      else if (d_mode d ==s PerIncident) && negb (d_dryRun d) then dispatchPerIncidentOpen sig key result
      else dispatchSharedOrDryRun sig key result.

Definition dispatch_observed (sig : Signal) (key : EventKey) (downgraded : option TriageStatusRecord)
    (result : DedupResult) : D unit :=
  _ ← when ((dr_Storm result <>s "") && (bool_decide (dr_Kind result = DedupRepeat) || dr_Absorbed result))
        (update_storm (NoteMemberActivity now key (te_LastSeen (sig_Event sig))));
  match dr_Kind result with
  | DedupRepeat => injectRepeat sig key result
  | DedupDuplicate => handleDuplicateSignal sig key result downgraded
  | DedupNewIncident => dispatchNew sig key result
  end.

(** The recovery tracker is the dedup cache's open check (wiring.go). *)
Definition open_check (w : world) : option (EventKey -> bool) := Open <$> w_tracker w.

Definition observe (sig : Signal) (key : EventKey) (downgraded : option TriageStatusRecord) : D DedupResult :=
  board ← has_board;
  isOpen ← gets open_check;
  dedup (ObserveSignal isOpen now key
    (mkObservation (te_LastSeen (sig_Event sig)) (sig_Kind sig) (sig_Severity sig) (te_Message (sig_Event sig))
       (opensSessions board sig) (is_Some_b downgraded))).

Definition DispatchSignal (sig : Signal) : D unit :=
  let sig := stampClusterIdentity sig in
  if (sig_Kind sig ==s KindResolved) || (sig_Kind sig ==s KindResolvedReverted) then dispatchResolved sig
  else
    '(sig, key, downgraded) ← classifySignal sig;
    match Decide_opt (d_filter d) sig with
    | Some _ => mret tt
    | None =>
        result ← observe sig key downgraded;
        dispatch_observed sig key downgraded result
    end.

(** [Dispatch]: the event-shaped entry point. *)
Definition Dispatch (ev : TriageEvent) : D unit :=
  DispatchSignal (zero_signal <| sig_Kind := KindK8sEvent |> <| sig_Source := SourceSentinel |>
    <| sig_Severity := SeverityCritical |> <| sig_Event := ev |>).
End dispatch.

(** ** A sentinel to run examples on *)

Definition demo_case : UnicodeCase := fun s => s.
Definition plain_masking : Masking := {| maskString := fun s => s; maskLabels := fun m => m |}.

(** A sink that accepts everything, naming sessions by the calls before them. *)
Definition accepting_sink : Sink := {|
  keyed := false;
  session_opener := true;
  OpenIncident := fun h _ _ => ("s" +:+ itoa (Z.of_nat (length h)), None);
  Append := fun _ _ _ => None;
  CreateSession := fun h _ => ("b" +:+ itoa (Z.of_nat (length h)), None) |}.

(** A sink that is down. *)
Definition refusing_sink : Sink := {|
  keyed := false;
  session_opener := true;
  OpenIncident := fun _ _ _ => ("", Some (mkSinkError (Some 503)));
  Append := fun _ _ _ => Some (mkSinkError (Some 503));
  CreateSession := fun _ _ => ("", Some (mkSinkError (Some 503))) |}.

Definition demo_dispatcher : dispatcher :=
  mkDispatcher None "prod" "" "" "" PerIncident "" false 0 (Some (NewRoutingPolicy ∅))
    (mkBoardConfig "prod" false 2 Minute 10 0) true.

Definition demo_world : world :=
  mkWorld (mkDedupCache ∅ ∅ (5 * Minute) maxDedupEntries zero_time) (Some NewPullClassMemo) None
    (Some (NewRecoveryTracker (5 * Minute))) None (Some newWatchboard) [] [] [].

(** A pod event at time [t], of the pod [uid] of the Deployment shop/web. *)
Definition pod_event (uid reason message : string) (t : Time) : Signal :=
  zero_signal <| sig_Kind := KindK8sEvent |> <| sig_Severity := SeverityCritical |>
    <| sig_Event := mkTriageEvent (mkEventKey uid reason) "shop" "Pod" uid "" message t t "" "" ∅ 5 "Warning" |>.

Definition web_owner (o : ObjectRef) : list Ancestor := [mkAncestor "Deployment" "shop" "web"].

Definition demo_env (t : Time) : dispatch_env :=
  mkDispatchEnv t (Some web_owner) 0 None None (fun _ _ => None).
