(* ===== verification/DispatchSpec.v ===== *)
(** What the dispatcher guarantees (src/internal/watch/dispatch.go and its companions):
    no inject goes to an empty session, a dry run is silent, an outcome record never
    opens a session. *)
From S2P Require Import Prelude GoTime GoStrings GoHash GoFmt Signal PullFailure Filter Routing.
From S2P Require Import Repeat Dedup DedupSpec Recovery Storm Effects Wire Triage Watchboard Payloads Dispatch.
From Stdlib Require Import Ascii.

(** ** Verdicts and lookups name a session or none *)

Section sessions.
Context `{RangeOrder}.

Lemma LookupSession_nonempty key c sid : LookupSession key c = Some sid -> sid <> "".
Proof. unfold LookupSession. repeat case_match; intros; btrue; by simplify_eq. Qed.

Lemma ancestor_search_nonempty self cands family c c' sid matched :
  ancestor_search self cands family c = (c', Some (sid, matched)) -> sid <> "".
Proof.
  revert c. induction cands as [|cand cands IH]; intros c; simpl; [done|].
  destruct (find_best _ _) as [[k e]|] eqn:Ef; [|apply IH].
  destruct (bool_decide _); [done|]. intros [= <- <- <-].
  apply find_best_in in Ef as [?|[_ He]]; [done|]. unfold ancestor_eligible in He. by btrue.
Qed.

Lemma sibling_search_nonempty now self kind cands c c' sid matched :
  sibling_search now self kind cands c = (c', Some (sid, matched)) -> sid <> "".
Proof.
  revert c. induction cands as [|cand cands IH]; intros c; simpl; [done|].
  destruct (find_best _ _) as [[k e]|] eqn:Ef; [|apply IH].
  intros [= <- <- <-].
  apply find_best_in in Ef as [?|[_ He]]; [done|]. unfold sibling_eligible in He. by btrue.
Qed.

(** Only a bound incident repeats. *)
Definition repeats_bound (r : DedupResult) : Prop := dr_Kind r = DedupRepeat -> dr_SessionID r <> "".

Lemma repeat_bound win e now ts class lapsed :
  SessionID e <> "" -> repeats_bound (repeat win e now ts class lapsed).2.
Proof.
  intros He _. pose proof (repeat_binding win e now ts class lapsed) as Hr.
  destruct (repeat _ _ _ _ _ _) as [e' r]. destruct Hr as (_ & _ & _ & Hs & _). simpl. congruence.
Qed.

Lemma observe_own_bound isOpen now key obs class e c :
  repeats_bound (observe_own isOpen now key obs class e c).2.
Proof.
  unfold observe_own. destruct (_ && _) eqn:Eb; [|by destruct (_ <? _)].
  destruct (obs_Repeatable obs); [|destruct (negb _ && _); [done|by destruct (_ <? _)]].
  pose proof (repeat_bound (window c) e now (obs_LastTS obs) class (window c <? Sub now (LastSeen e))) as Hr.
  destruct (repeat _ _ _ _ _ _) as [e' r]. simpl in *. apply Hr. by btrue.
Qed.

Lemma observe_root_bound now obs class rk root c r :
  SessionID root <> "" -> (observe_root now obs class rk root c).2 = Some r -> repeats_bound r.
Proof.
  intros Hs. unfold observe_root.
  pose proof (repeat_bound (window c) root now (obs_LastTS obs) class (window c <? Sub now (LastSeen root)) Hs) as Hr.
  destruct (obs_Repeatable obs); [|destruct (_ && _); by intros [= <-]].
  destruct (_ || _); [|by intros [= <-]].
  destruct (repeat _ _ _ _ _ _) as [e' r']. by intros [= <-].
Qed.

Lemma repeat_is_bound isOpen now key obs c : repeats_bound (ObserveSignal isOpen now key obs c).2.
Proof.
  unfold ObserveSignal. cbv zeta. destruct (entries _ !! _) as [e|]; [|by repeat case_match].
  destruct (negb _); [done|]. unfold observe_sibling.
  destruct (resolveParentLocked _ _) as [[rk root]|]; [|apply observe_own_bound].
  destruct (_ && _) eqn:Eb; [|apply observe_own_bound].
  match goal with |- context [observe_root ?n ?o ?cl ?rk ?rt ?c] =>
    pose proof (fun r => observe_root_bound n o cl rk rt c r) as Hr end.
  destruct (observe_root _ _ _ _ _ _) as [c1 [r|]]; [|apply observe_own_bound].
  apply Hr; [|done]. btrue. destruct (bool_decide (rk = canonical_key key)); simpl; congruence.
Qed.
End sessions.

(** ** The calls a dispatch makes *)

Create HintDb calls.

Section calls.
Context `{RangeOrder} `{UnicodeCase} `{JSON} `{Masking} `{Sink}.
Context (d : dispatcher) (env : dispatch_env) (P : call -> Prop).

(** Every new call satisfies [P]. *)
Definition adds (w w' : world) : Prop := exists l, w_calls w' = w_calls w ++ l /\ Forall P l.

#[global] Instance adds_preorder : PreOrder adds.
Proof.
  split.
  - intros w. exists []. by rewrite app_nil_r.
  - intros w1 w2 w3 (l & Hl & HP) (l' & Hl' & HP'). exists (l ++ l').
    rewrite Hl', Hl, app_assoc. split; [done|by apply Forall_app].
Qed.

Lemma adds_same w w' : w_calls w' = w_calls w -> adds w w'.
Proof. intros E. exists []. by rewrite E, app_nil_r. Qed.

Lemma adds_one w w' c : w_calls w' = w_calls w ++ [c] -> P c -> adds w w'.
Proof. intros E HP. exists [c]. split; [done|by repeat constructor]. Qed.

Notation calls_of m := (keeps adds m).

(** [m] only returns what satisfies [Q]. *)
Definition returns {A} (m : M world A) (Q : A -> Prop) : Prop := forall w, Q (m w).1.

Lemma keeps_bind_returns {A B} (m : M world A) (f : A -> M world B) Q :
  calls_of m -> returns m Q -> (forall x, Q x -> calls_of (f x)) -> calls_of (m ≫= f).
Proof.
  intros Hm Hr Hf w. unfold mbind, M_bind. specialize (Hm w). specialize (Hr w). destruct (m w) as [x w'].
  etrans; [exact Hm|by apply Hf].
Qed.

Lemma keeps_quiet {A} (m : M world A) : (forall w, w_calls (m w).2 = w_calls w) -> calls_of m.
Proof. intros Hm w. by apply adds_same. Qed.

Lemma dedup_keeps {A} (f : DedupCache -> DedupCache * A) : calls_of (dedup f).
Proof. apply keeps_quiet. intros w. unfold dedup. by destruct (f _). Qed.
Lemma modify_keeps f : (forall w, w_calls (f w) = w_calls w) -> calls_of (modify f).
Proof. intros. by apply keeps_quiet. Qed.
Lemma Record_keeps sig o : calls_of (Record_ d sig o).
Proof. apply keeps_quiet. intros w. unfold Record_. by destruct (d_store d). Qed.

Lemma append_keeps sid p : P (CallAppend sid p) -> calls_of (append sid p).
Proof. intros HP w. by eapply adds_one. Qed.
Lemma open_keeps key p : P (CallOpen key p) -> calls_of (open_incident key p).
Proof. intros HP w. by eapply adds_one. Qed.
Lemma create_keeps key : P (CallCreate key) -> calls_of (create_session key).
Proof. intros HP w. by eapply adds_one. Qed.

(** Walk through a handler down to its calls; a handler already walked through is in
    the hint database. *)
Ltac step := first
  [ solve [auto 3 with calls nocore]
  | apply keeps_ret, _ | apply keeps_gets, _ | apply dedup_keeps | apply Record_keeps
  | apply modify_keeps; done
  | apply keeps_for_each; [apply _|intros]
  | apply keeps_when; [apply _|]
  | apply keeps_bind; [apply _| |intros]
  | match goal with |- keeps _ (match ?x with _ => _ end) => destruct x eqn:? end
  | match goal with |- keeps _ (let '_ := ?x in _) => destruct x eqn:? end ].
Ltac walk := repeat step.

(** What the caller may do. A dry run does none of it. *)
Context (Happend : d_dryRun d = false -> forall sid p, sid <> "" -> P (CallAppend sid p)).

Lemma append_live sid p : d_dryRun d = false -> sid <> "" -> calls_of (append sid p).
Proof. intros. by apply append_keeps, Happend. Qed.
#[local] Hint Resolve append_live : calls.

Lemma append__live sid p : d_dryRun d = false -> sid <> "" -> calls_of (append_ sid p).
Proof. intros. unfold append_. apply keeps_bind; [apply _|by apply append_live|]. intros. apply keeps_ret, _. Qed.
#[local] Hint Resolve append__live : calls.

Lemma append__keeps sid p : P (CallAppend sid p) -> calls_of (append_ sid p).
Proof. intros. unfold append_. apply keeps_bind; [apply _|by apply append_keeps|]. intros. apply keeps_ret, _. Qed.

Lemma send_may sid p : (d_dryRun d = false -> P (CallAppend sid p)) -> calls_of (send d sid p).
Proof. intros Hs. unfold send, print. case_eq (d_dryRun d); intros E; [walk|]. apply append__keeps; auto. Qed.

Lemma send_keeps sid p : (d_dryRun d = false -> sid <> "") -> calls_of (send d sid p).
Proof. intros Hs. apply send_may. auto. Qed.
#[local] Hint Resolve send_keeps : calls.

Lemma supersede_keeps snd sid info members :
  (forall sid p, sid <> "" -> calls_of (snd sid p)) -> calls_of (supersede d snd sid info members).
Proof.
  intros Hs. unfold supersede. apply keeps_for_each; [apply _|]. intros m.
  destruct (_ || _) eqn:E; [apply keeps_ret, _|]. apply orb_false_iff in E as [E _]. btrue. by apply Hs.
Qed.

Lemma supersede_append_keeps sid info members :
  d_dryRun d = false -> calls_of (supersede d append_ sid info members).
Proof. intros. apply supersede_keeps. intros. by apply append__live. Qed.
Lemma supersede_send_keeps sid info members : calls_of (supersede d (send d) sid info members).
Proof. apply supersede_keeps. intros. by apply send_keeps. Qed.
#[local] Hint Resolve supersede_append_keeps supersede_send_keeps : calls.

Lemma clearDead_keeps fp dead : calls_of (clearDeadStormSession env fp dead).
Proof. unfold clearDeadStormSession, update_storm, update_dedup. walk. Qed.
#[local] Hint Resolve clearDead_keeps : calls.

Lemma rebind_keeps members sid fp key ref : calls_of (rebindStormMembers d env members sid fp key ref).
Proof. unfold rebindStormMembers, look, update_dedup, track. walk. Qed.
#[local] Hint Resolve rebind_keeps : calls.

Lemma recordBound_keeps key sid sig note : calls_of (recordBoundSession env key sid sig note).
Proof. unfold recordBoundSession, noteAncestors, update_dedup, update_storm, track. walk. Qed.
#[local] Hint Resolve recordBound_keeps : calls.

(** ** Outcome records *)

Lemma stormResolved_keeps rec info : calls_of (stormResolved d rec info).
Proof.
  unfold stormResolved. case_bool_decide as E; simpl; [apply keeps_ret, _|]. by apply send_keeps.
Qed.
#[local] Hint Resolve stormResolved_keeps : calls.

Lemma commitResolved_keeps sig rec sid : calls_of (commitResolved d env sig rec sid).
Proof.
  unfold commitResolved, update_resolve, update_triage, update_dedup, update_storm. walk.
Qed.
#[local] Hint Resolve commitResolved_keeps : calls.

Lemma deferSibling_keeps sig sid : calls_of (deferSiblingResolved d env sig sid).
Proof. unfold deferSiblingResolved, look, update_resolve, update_triage, update_dedup. walk. Qed.
#[local] Hint Resolve deferSibling_keeps : calls.

Lemma dispatchResolved_keeps sig :
  (d_dryRun d = false -> d_mode d <> PerIncident -> forall p, P (CallAppend (d_targetSid d) p)) ->
  calls_of (dispatchResolved d env sig).
Proof.
  intros Hmode. unfold dispatchResolved. destruct (sig_Recovery sig) as [rec|]; [|apply keeps_ret, _].
  apply (keeps_bind_returns _ _ (fun r => forall sid, r = Some sid -> sid <> "")).
  { unfold look. walk. } { intros w sid. apply LookupSession_nonempty. }
  intros bound Hbound. cbv zeta.
  assert (forall sid, (if d_mode d ==s PerIncident then bound else Some (d_targetSid d)) = Some sid ->
    d_dryRun d = false -> forall p, P (CallAppend sid p)) as Hsid.
  { intros sid. case_bool_decide; [intros; apply Happend; [done|by apply Hbound]|]. intros [= <-]. auto. }
  destruct (if d_mode d ==s PerIncident then bound else Some (d_targetSid d)) as [sid|];
    [|apply commitResolved_keeps].
  apply keeps_bind; [apply _|apply deferSibling_keeps|]. intros []; [apply keeps_ret, _|].
  unfold print, update_dedup. case_eq (d_dryRun d); intros Ed; [walk|].
  apply keeps_bind; [apply _|apply append_keeps; auto|]. intros [err|]; walk.
Qed.

(** ** Opening sessions *)

Context (Hopen : d_dryRun d = false -> forall key p, P (CallOpen key p)).
Context (Hcreate : d_dryRun d = false -> forall key, P (CallCreate key)).
(** A sink that reports a created session names it. *)
Context (Hnamed : d_dryRun d = false -> forall h key sid, CreateSession h key = (sid, None) -> sid <> "").
Context (Htarget : d_dryRun d = false -> d_mode d <> PerIncident -> forall p, P (CallAppend (d_targetSid d) p)).
Context (Hboard : wb_dryRun (d_board d) = d_dryRun d).

Lemma open_live key p : d_dryRun d = false -> calls_of (open_incident key p).
Proof. intros. by apply open_keeps, Hopen. Qed.
Lemma create_live key : d_dryRun d = false -> calls_of (create_session key).
Proof. intros. by apply create_keeps, Hcreate. Qed.
#[local] Hint Resolve open_live create_live : calls.

Lemma openSession_keeps key p : d_dryRun d = false -> calls_of (Dispatch.openSession d key p).
Proof. intros. unfold Dispatch.openSession. walk. Qed.
#[local] Hint Resolve openSession_keeps : calls.

Lemma retryStormOpen_keeps sig info : d_dryRun d = false -> calls_of (retryStormOpen d env sig info).
Proof. intros. unfold retryStormOpen, update_storm. walk. Qed.
#[local] Hint Resolve retryStormOpen_keeps : calls.

Lemma stormFormed_bind_keeps sig info members sid p :
  (d_dryRun d = false -> d_mode d = Shared -> forall p, P (CallAppend sid p)) ->
  calls_of (stormFormed_bind d env sig info members sid p).
Proof.
  intros Hs. unfold stormFormed_bind, update_storm, print.
  repeat (apply keeps_bind; [apply _| |intros]); try solve [walk].
  case_eq (d_dryRun d); intros E; [walk|]. case_bool_decide; simpl; [|walk]. apply append__keeps; auto.
Qed.

Lemma stormFormed_keeps sig info members : calls_of (stormFormed d env sig info members).
Proof.
  unfold stormFormed, update_dedup. destruct (_ && _) eqn:E.
  - btrue. apply keeps_bind; [apply _|by apply openSession_keeps|]. intros [[sid err]|]; [|walk].
    apply stormFormed_bind_keeps. intros _ Hm. assert (PerIncident = Shared) by congruence. discriminate.
  - apply stormFormed_bind_keeps. intros Ed Hm. apply Htarget; [done|]. by rewrite Hm.
Qed.

Lemma sizeUpdate_keeps sid upd info :
  (d_dryRun d = false -> sid <> "") -> calls_of (stormSizeUpdate d env sid upd info).
Proof.
  intros Hs. unfold stormSizeUpdate, print. case_eq (d_dryRun d); intros E; [walk|].
  apply keeps_bind; [apply _|apply append_live; auto|]. intros [err|]; walk.
Qed.

Lemma stormAttached_keeps sig storm member upd : calls_of (stormAttached d env sig storm member upd).
Proof.
  unfold stormAttached, update_dedup, track. apply keeps_bind; [apply _| |intros sid].
  { destruct (_ ==s Shared); [walk|]. destruct (_ && _) eqn:E; [|walk]. btrue. by apply retryStormOpen_keeps. }
  repeat (apply keeps_bind; [apply _| |intros]); try solve [walk].
  - unfold print. case_eq (d_dryRun d); intros E; [walk|]. case_bool_decide; [walk|].
    apply keeps_bind; [apply _|by apply append_live|]. intros [err|]; walk.
  - destruct upd as [upd|]; [|walk]. destruct (_ || _) eqn:E; simpl; [|walk].
    apply sizeUpdate_keeps. intros Ed. rewrite Ed in E. simpl in E. by btrue.
Qed.

#[local] Hint Resolve stormFormed_keeps stormAttached_keeps : calls.

Lemma correlate_keeps sig : calls_of (correlateStormSignal d env sig).
Proof. unfold correlateStormSignal, update_storm, look. walk. Qed.
#[local] Hint Resolve correlate_keeps : calls.

(** ** The watchboard *)

Notation board := (board_ops d env).

Lemma reattach_keeps sig n : calls_of (reattachWatchboardEntry d env sig n).
Proof.
  unfold reattachWatchboardEntry, look, update_dedup, track. destruct (e_resolver env); [|walk].
  apply keeps_bind; [apply _|walk|]. intros [|]; [walk|].
  apply (keeps_bind_returns _ _ (fun r => forall sid m, r = Some (sid, m) -> sid <> "")); [walk| |].
  { intros w sid m. unfold dedup. destruct (SessionForAncestors _ _ _ _) as [c r] eqn:E. simpl. intros ->.
    by eapply ancestor_search_nonempty. }
  intros [[sid m]|] Hs; [|walk]. apply keeps_bind; [apply _| |intros; walk].
  unfold injectReattachFollowup, print. case_eq (d_dryRun d); intros Ed; [walk|].
  apply keeps_bind; [apply _|apply append_live; eauto|intros; walk].
Qed.

Lemma bind_keeps sig sid : calls_of (bindWatchboardIncident env sig sid).
Proof. unfold bindWatchboardIncident, look, update_dedup, track. walk. Qed.
#[local] Hint Resolve reattach_keeps bind_keeps : calls.

Lemma reattachBatch_keeps entries : calls_of (reattachBatch (ops := board) entries).
Proof. induction entries; simpl; walk. Qed.

Lemma finishFlush_keeps entries sid : calls_of (finishFlush (ops := board) entries sid).
Proof. unfold finishFlush. apply keeps_for_each; [apply _|]. intros e. apply bind_keeps. Qed.
#[local] Hint Resolve reattachBatch_keeps finishFlush_keeps : calls.

Lemma create_named create : op_create (BoardOps := board) = Some create -> d_dryRun d = false ->
  calls_of create /\ returns create (fun r => r.2 = None -> r.1 <> "").
Proof.
  simpl. intros Hc Ed.
  assert (forall key, calls_of (create_session key) /\ returns (create_session key) (fun r => r.2 = None -> r.1 <> "")) as Hk.
  { intros key. split; [by apply create_live|]. intros w Hn. apply (Hnamed Ed (w_calls w) key).
    unfold create_session in *. simpl in *. destruct (CreateSession _ _) as [sid e]. simpl in *. by subst. }
  destruct keyed; [by simplify_eq|]. destruct session_opener; by simplify_eq.
Qed.

Lemma board_openSession_keeps create now sid gen injects :
  op_create (BoardOps := board) = Some create -> d_dryRun d = false ->
  calls_of (Watchboard.openSession (ops := board) (d_board d) create now sid gen injects) /\
  returns (Watchboard.openSession (ops := board) (d_board d) create now sid gen injects)
    (fun r => r.2 = true -> r.1.1.1 <> "").
Proof.
  intros Hc Ed. destruct (create_named create Hc Ed) as [Hk Hr]. unfold Watchboard.openSession. split.
  - apply keeps_bind; [apply _|done|]. intros [newSid [err|]]; [walk|].
    case_bool_decide; simpl; [walk|]. apply keeps_bind; [apply _| |intros; walk].
    apply keeps_bind; [apply _|by apply append_live|intros; walk].
  - intros w. unfold mbind, M_bind. specialize (Hr w). destruct (create w) as [[newSid err] w1]. simpl in Hr.
    destruct err as [err|]; simpl; [by case_bool_decide|].
    destruct (when _ _ w1) as [u w2]. simpl. auto.
Qed.

Lemma openStateless_keeps now ws entries sid gen injects :
  d_dryRun d = false ->
  calls_of (openStateless (ops := board) (d_board d) now ws entries sid gen injects).
Proof.
  intros Ed. unfold openStateless. apply keeps_bind; [apply _|by apply open_live|]. intros [newSid err].
  case_bool_decide.
  - case_bool_decide; simpl; [walk|]. apply keeps_bind; [apply _|by apply append_live|]. intros [aerr|]; walk.
  - apply keeps_bind; [apply _| |intros; destruct err; walk].
    case_bool_decide; simpl; [walk|]. apply keeps_bind; [apply _|by apply append_live|intros; walk].
Qed.
#[local] Hint Resolve openStateless_keeps : calls.

Lemma deliver_keeps now ws entries sid gen injects b :
  d_dryRun d = false -> sid <> "" ->
  calls_of (deliver (ops := board) (d_board d) now ws entries sid gen injects b).
Proof.
  intros Ed Hs. unfold deliver. apply keeps_bind; [apply _|by apply append_live|]. intros [err|]; [|walk].
  destruct (sessionGone err); [|walk]. apply keeps_bind; [apply _| |intros; walk].
  unfold recoverGoneSession. destruct (op_create (BoardOps := board)) as [create|] eqn:Ec; [|walk].
  destruct (board_openSession_keeps create now "" gen 0 Ec Ed) as [Hk Hr].
  apply (keeps_bind_returns _ _ _ Hk Hr). intros [[[newSid newGen] newInjects] ok] Hn. simpl in Hn.
  destruct ok; simpl; [|walk]. apply keeps_bind; [apply _|apply append_live; auto|]. intros [rerr|]; walk.
Qed.

Lemma flush_keeps now b : calls_of (flush (ops := board) (d_board d) now b).
Proof.
  unfold flush. rewrite Hboard. destruct (bool_decide (wb_buffer b = [])); [walk|]. cbn beta iota zeta.
  apply keeps_bind; [apply _|apply reattachBatch_keeps|]. intros entries.
  destruct (bool_decide (entries = [])); [walk|]. case_eq (d_dryRun d); intros Ed; [simpl; unfold print; walk|].
  destruct (_ || _) eqn:Eopen.
  - destruct (op_create (BoardOps := board)) as [create|] eqn:Ec; [|walk].
    match goal with |- context [Watchboard.openSession _ _ ?n ?s ?g ?i] =>
      destruct (board_openSession_keeps create n s g i Ec Ed) as [Hk Hr] end.
    apply (keeps_bind_returns _ _ _ Hk Hr). intros [[[sid gen] injects] ok] Hn. simpl in Hn.
    destruct ok; simpl; [|walk]. apply deliver_keeps; auto.
  - apply orb_false_iff in Eopen as [Es _]. btrue. by apply deliver_keeps.
Qed.

Lemma board_step_keeps step : (forall b, calls_of (step b)) -> calls_of (board_step step).
Proof. intros Hs. unfold board_step. walk. Qed.

Lemma board_add_keeps now sig n : calls_of (board_step (Watchboard.Add (ops := board) (d_board d) now sig n)).
Proof. apply board_step_keeps. intros b. unfold Watchboard.Add. cbn zeta. destruct (_ <=? _); [apply flush_keeps|walk]. Qed.
#[local] Hint Resolve board_add_keeps : calls.

(** ** The pipeline *)

Lemma bind_opened_keeps sig key sid err : calls_of (bind_opened d env sig key sid err).
Proof. unfold bind_opened, update_dedup. walk. Qed.
#[local] Hint Resolve bind_opened_keeps : calls.

Lemma retryIncidentOpen_keeps sig result key :
  d_dryRun d = false -> calls_of (retryIncidentOpen d env sig result key).
Proof. intros. unfold retryIncidentOpen, look, update_dedup. walk. Qed.
#[local] Hint Resolve retryIncidentOpen_keeps : calls.

Lemma foldSibling_keeps sig key n : d_dryRun d = false -> calls_of (foldSibling d env sig key n).
Proof.
  intros Ed. unfold foldSibling, update_dedup, track.
  apply (keeps_bind_returns _ _ (fun r => forall sid m, r = Some (sid, m) -> sid <> "")); [walk| |].
  { intros w sid m. unfold dedup. destruct (SessionForSibling _ _ _ _ _) as [c r] eqn:E. simpl. intros ->.
    by eapply sibling_search_nonempty. }
  intros [[sid m]|] Hs; [|walk]. apply keeps_bind; [apply _|apply append_live; eauto|intros; walk].
Qed.
#[local] Hint Resolve foldSibling_keeps : calls.

Lemma perIncidentOpen_keeps sig key result :
  d_dryRun d = false -> calls_of (dispatchPerIncidentOpen d env sig key result).
Proof. intros. unfold dispatchPerIncidentOpen, look. walk. Qed.

Lemma sharedOrDryRun_keeps sig key result :
  (d_dryRun d = false -> d_mode d <> PerIncident) -> calls_of (dispatchSharedOrDryRun d env sig key result).
Proof.
  intros Hm. unfold dispatchSharedOrDryRun, track.
  repeat (apply keeps_bind; [apply _| |intros]); try solve [walk]. apply send_may. auto.
Qed.

Lemma dispatchNew_keeps sig key result : calls_of (dispatchNew d env sig key result).
Proof.
  unfold dispatchNew, update_dedup, update_triage, routeInfoSignal, has_board.
  repeat (apply keeps_bind; [apply _|solve [walk]|intros]). destruct x1; [walk|].
  apply keeps_bind; [apply _|walk|]. intros []; [walk|].
  apply keeps_bind; [apply _|walk|]. intros b.
  destruct (_ && _ && _); [walk|]. destruct (_ && _) eqn:E.
  - btrue. by apply perIncidentOpen_keeps.
  - apply sharedOrDryRun_keeps. intros Ed Hm. rewrite Ed, Hm in E. by rewrite bool_decide_eq_true_2 in E.
Qed.

Lemma injectRepeat_keeps sig key result :
  dr_SessionID result <> "" -> calls_of (injectRepeat d env sig key result).
Proof.
  intros Hs. unfold injectRepeat, has_board, update_dedup, print. cbv zeta.
  case_eq (d_dryRun d); intros Ed; [walk|].
  apply keeps_bind; [apply _|by apply append_live|]. intros [err|]; walk.
Qed.

Lemma handleDuplicate_keeps sig key result down : calls_of (handleDuplicateSignal d env sig key result down).
Proof.
  unfold handleDuplicateSignal, has_board. cbv zeta. destruct (dr_Replay result); [walk|].
  apply keeps_bind; [apply _| |intros _].
  { destruct down as [rec|]; [|walk]. case_bool_decide as Hs; simpl; [walk|].
    unfold note_regression, injectTriageRegressed, update_triage.
    repeat (step; try (by apply send_keeps)). }
  apply (keeps_bind_returns _ _ (fun r => r <> None -> dr_SessionID result <> "")); [walk| |].
  { intros w. destruct (_ && _ && _) eqn:Ej; [|done]. intros _. by btrue. }
  intros join Hj. apply keeps_bind; [apply _|walk|]. intros b. destruct join as [openedBy|].
  - unfold injectJoinFollowup. apply keeps_bind; [apply _|walk|]. intros _. apply send_keeps. auto.
  - destruct (_ && _ && _ && _) eqn:E; [|walk]. btrue. by apply retryIncidentOpen_keeps.
Qed.

Lemma DispatchSignal_keeps sig : calls_of (DispatchSignal d env sig).
Proof.
  unfold DispatchSignal. cbv zeta. destruct (_ || _).
  { by apply dispatchResolved_keeps. }
  apply keeps_bind; [apply _|unfold classifySignal, update_triage; walk|]. intros [[sig' key] down].
  destruct (Decide_opt _ _); [walk|].
  apply (keeps_bind_returns _ _ repeats_bound).
  { unfold observe, has_board. walk. }
  { intros w. unfold observe, has_board, gets, dedup, mbind, M_bind. cbn beta iota zeta.
    match goal with |- context [ObserveSignal ?o ?n ?k ?ob ?c] => pose proof (repeat_is_bound o n k ob c) end.
    by destruct (ObserveSignal _ _ _ _ _). }
  intros result Hr. unfold dispatch_observed. apply keeps_bind; [apply _|unfold update_storm; walk|]. intros _.
  destruct (dr_Kind result) eqn:Ek.
  - apply dispatchNew_keeps.
  - apply handleDuplicate_keeps.
  - apply injectRepeat_keeps. by apply Hr.
Qed.
End calls.

(** ** Runs *)

Section runs.
Context `{RangeOrder} `{UnicodeCase} `{JSON} `{Masking} `{Sink} (d : dispatcher).

(** What drives the dispatcher: signals (from the sources, and the outcome records of
    the recovery tracker), and the watchboard's timer and shutdown flush. *)
Inductive event :=
  | EvSignal (env : dispatch_env) (sig : Signal)
  | EvBoardTick (env : dispatch_env)
  | EvBoardFlush (env : dispatch_env).

Definition handle (e : event) : M world unit :=
  match e with
  | EvSignal env sig => DispatchSignal d env sig
  | EvBoardTick env => board_step (Watchboard.Tick (ops := board_ops d env) (d_board d) (e_now env))
  | EvBoardFlush env => board_step (Watchboard.FlushNow (ops := board_ops d env) (d_board d) (e_now env))
  end.

Definition run (l : list event) : M world unit := for_each l handle.

Lemma run_calls (P : call -> Prop) l
  (Happend : d_dryRun d = false -> forall sid p, sid <> "" -> P (CallAppend sid p))
  (Hopen : d_dryRun d = false -> forall key p, P (CallOpen key p))
  (Hcreate : d_dryRun d = false -> forall key, P (CallCreate key))
  (Hnamed : d_dryRun d = false -> forall h key sid, CreateSession h key = (sid, None) -> sid <> "")
  (Htarget : d_dryRun d = false -> d_mode d <> PerIncident -> forall p, P (CallAppend (d_targetSid d) p))
  (Hboard : wb_dryRun (d_board d) = d_dryRun d) :
  keeps (adds P) (run l).
Proof.
  apply keeps_for_each; [apply _|]. intros [env sig|env|env]; simpl.
  - by apply DispatchSignal_keeps.
  - apply board_step_keeps. intros b. unfold Watchboard.Tick.
    destruct (_ && _); [by apply flush_keeps|apply keeps_ret, _].
  - apply board_step_keeps. intros b. unfold FlushNow.
    destruct (negb _); [by apply flush_keeps|apply keeps_ret, _].
Qed.
End runs.

(** C3: no inject ever targets an empty session. Over any run of signals, outcome
    records and board flushes, whatever the sink answers (failed opens, lost sessions,
    half-opened ones), every Append carries a session id; assuming only that a shared
    dispatcher has a target session and that a sink naming a created session names it. *)
Theorem no_append_without_session `{RangeOrder} `{UnicodeCase} `{JSON} `{Masking} `{Sink} (d : dispatcher)
    (l : list event) (w : world)
    (Htarget : d_mode d <> PerIncident -> d_targetSid d <> "")
    (Hnamed : forall h key sid, CreateSession h key = (sid, None) -> sid <> "")
    (Hboard : wb_dryRun (d_board d) = d_dryRun d) :
  exists calls, w_calls (run d l w).2 = w_calls w ++ calls /\
    forall sid p, CallAppend sid p ∈ calls -> sid <> "".
Proof.
  assert (keeps (adds (fun c => match c with CallAppend sid _ => sid <> "" | _ => True end)) (run d l)) as Hk.
  { apply run_calls; eauto. }
  destruct (Hk w) as (calls & Hc & HP).
  exists calls. split; [done|]. intros sid p Hin. by apply (proj1 (list.Forall_forall _ _) HP) in Hin.
Qed.

(** A dry run touches nothing. A dispatcher in dry-run mode, in per-incident or
    shared mode, with or without storms, watchboard and recovery, makes no sink call
    at all: it prints. *)
Theorem dry_run_makes_no_call `{RangeOrder} `{UnicodeCase} `{JSON} `{Masking} `{Sink} (d : dispatcher)
    (l : list event) (w : world)
    (Hdry : d_dryRun d = true) (Hboard : wb_dryRun (d_board d) = true) :
  w_calls (run d l w).2 = w_calls w.
Proof.
  assert (keeps (adds (fun _ => False)) (run d l)) as Hk.
  { apply run_calls; try (rewrite Hdry; discriminate). congruence. }
  destruct (Hk w) as (calls & Hc & HP).
  destruct calls; [by rewrite Hc, app_nil_r|]. by inversion HP.
Qed.

(** Nothing is opened to say that something is fixed. An outcome record (resolved
    or reverted), of an incident, a storm's last member or a folded sibling, delivered
    or not, never opens or creates a session. *)
Theorem outcome_opens_no_session `{RangeOrder} `{UnicodeCase} `{JSON} `{Masking} `{Sink} (d : dispatcher)
    (env : dispatch_env) (sig : Signal) (w : world)
    (Hkind : sig_Kind sig = KindResolved \/ sig_Kind sig = KindResolvedReverted) :
  exists calls, w_calls (DispatchSignal d env sig w).2 = w_calls w ++ calls /\
    forall c, c ∈ calls -> exists sid p, c = CallAppend sid p.
Proof.
  assert (DispatchSignal d env sig = dispatchResolved d env (stampClusterIdentity d sig)) as ->.
  { unfold DispatchSignal. cbv zeta. change (sig_Kind (stampClusterIdentity d sig)) with (sig_Kind sig).
    by destruct Hkind as [-> | ->]. }
  set (P := fun c => exists sid p, c = CallAppend sid p).
  assert (keeps (adds P) (dispatchResolved d env (stampClusterIdentity d sig))) as Hk.
  { apply dispatchResolved_keeps; intros; by eexists _, _. }
  destruct (Hk w) as (calls & Hc & HP). exists calls. split; [done|].
  intros c Hin. by apply (proj1 (list.Forall_forall _ _) HP) in Hin.
Qed.

(** ** The theorems at work *)

Definition crash (uid : string) (t : Time) : event :=
  EvSignal (demo_env t) (pod_event uid "CrashLoopBackOff" "back-off restarting failed container" t).

Notation demo_run l w := (run (H := plain_range) (H0 := demo_case) (H1 := no_json) (H2 := plain_masking)
  (H3 := accepting_sink) demo_dispatcher l w).

Lemma accepting_names h key sid :
  CreateSession (Sink := accepting_sink) h key = (sid, None) -> sid <> "".
Proof. intros [= <-]. discriminate. Qed.

(** Three pods: the first opens a session, the others are folded into it. *)
Lemma no_append_without_session_witness :
  exists calls, w_calls (demo_run [crash "p1" Hour; crash "p2" (Hour + 1); crash "p3" (Hour + 2)] demo_world).2
      = w_calls demo_world ++ calls /\ length calls = 3%nat /\
    forall sid p, CallAppend sid p ∈ calls -> sid <> "".
Proof.
  destruct (no_append_without_session (H := plain_range) (H0 := demo_case) (H1 := no_json) (H2 := plain_masking)
    (H3 := accepting_sink) demo_dispatcher [crash "p1" Hour; crash "p2" (Hour + 1); crash "p3" (Hour + 2)] demo_world
    (fun Hm => False_ind _ (Hm eq_refl)) accepting_names eq_refl) as (calls & Hc & Hs).
  exists calls. split; [exact Hc|]. split; [|exact Hs].
  apply (f_equal (@length call)) in Hc. revert Hc. rewrite length_app. vm_compute. exact (fun Hl => eq_sym Hl).
Defined.

Lemma dry_run_makes_no_call_witness :
  let d := demo_dispatcher <| d_dryRun := true |> <| d_board := mkBoardConfig "prod" true 2 Minute 10 0 |> in
  d_dryRun d = true /\
  w_calls (run (H := plain_range) (H0 := demo_case) (H1 := no_json) (H2 := plain_masking) (H3 := accepting_sink)
    d [crash "p1" Hour; crash "p2" (Hour + 1)] demo_world).2 = [].
Proof.
  split; [reflexivity|].
  exact (dry_run_makes_no_call (H := plain_range) (H0 := demo_case) (H1 := no_json) (H2 := plain_masking)
    (H3 := accepting_sink) (demo_dispatcher <| d_dryRun := true |> <| d_board := mkBoardConfig "prod" true 2 Minute 10 0 |>)
    [crash "p1" Hour; crash "p2" (Hour + 1)] demo_world eq_refl eq_refl).
Defined.

Definition fixed_signal (uid : string) (t : Time) : Signal :=
  resolvedSignal KindResolved (mkIncident (mkEventKey uid "CrashLoopBackOff") "" Hour zero_ref)
    (mkRecovery (10 * Minute) (5 * Minute) ResolutionRecovered t 0).

Lemma outcome_opens_no_session_witness :
  let w := (demo_run [crash "p1" Hour] demo_world).2 in
  exists calls, w_calls (DispatchSignal (H := plain_range) (H0 := demo_case) (H1 := no_json) (H2 := plain_masking)
      (H3 := accepting_sink) demo_dispatcher (demo_env (2 * Hour)) (fixed_signal "p1" (2 * Hour)) w).2
    = w_calls w ++ calls /\ forall c, c ∈ calls -> exists sid p, c = CallAppend sid p.
Proof.
  exact (outcome_opens_no_session (H := plain_range) (H0 := demo_case) (H1 := no_json) (H2 := plain_masking)
    (H3 := accepting_sink) demo_dispatcher (demo_env (2 * Hour)) (fixed_signal "p1" (2 * Hour))
    (demo_run [crash "p1" Hour] demo_world).2 (or_introl eq_refl)).
Defined.
