(* ===== verification/DispatchRows.v ===== *)
(** The rows a dispatch writes to the store (src/internal/watch, the §9.1 occurrence
    records): one per signal that survives the filter, with one exception. *)
From S2P Require Import Prelude GoTime GoStrings GoHash GoFmt Signal PullFailure Filter Routing.
From S2P Require Import Repeat Dedup Recovery Storm Effects Wire Triage Watchboard Payloads Dispatch.
From Stdlib Require Import Ascii.

(** ** Handlers that write no row *)

Definition same_rows (w w' : world) : Prop := w_records w' = w_records w.

#[global] Instance same_rows_preorder : PreOrder same_rows.
Proof. unfold same_rows. split; [done|]. intros x y z H1 H2. congruence. Qed.

Notation quiet m := (keeps same_rows m).

Create HintDb rows.

Section quiet.
Context `{RangeOrder} `{UnicodeCase} `{JSON} `{Masking} `{Sink} (d : dispatcher) (env : dispatch_env).

Lemma dedup_quiet {A} (f : DedupCache -> DedupCache * A) : quiet (dedup f).
Proof. intros w. unfold dedup, same_rows. by destruct (f _). Qed.
Lemma modify_quiet f : (forall w, w_records (f w) = w_records w) -> quiet (modify f).
Proof. intros Hf w. apply Hf. Qed.
Lemma append_quiet sid p : quiet (append sid p).
Proof. by intros w. Qed.
Lemma open_quiet key p : quiet (open_incident key p).
Proof. by intros w. Qed.
Lemma create_quiet key : quiet (create_session key).
Proof. by intros w. Qed.

#[local] Hint Resolve dedup_quiet append_quiet open_quiet create_quiet : rows.

Ltac step := first
  [ solve [auto 3 with rows nocore]
  | apply keeps_ret, _ | apply keeps_gets, _
  | apply modify_quiet; done
  | apply keeps_for_each; [apply _|intros]
  | apply keeps_when; [apply _|]
  | apply keeps_bind; [apply _| |intros]
  | match goal with |- keeps _ (match ?x with _ => _ end) => destruct x eqn:? end
  | match goal with |- keeps _ (let '_ := ?x in _) => destruct x eqn:? end ].
Ltac walk := repeat step.

Lemma send_quiet sid p : quiet (send d sid p).
Proof. unfold send, print, append_. walk. Qed.
Lemma openSession_quiet key p : quiet (Dispatch.openSession d key p).
Proof. unfold Dispatch.openSession. walk. Qed.
Lemma recordBound_quiet key sid sig note : quiet (recordBoundSession env key sid sig note).
Proof. unfold recordBoundSession, noteAncestors, update_dedup, update_storm, track. walk. Qed.
Lemma rebind_quiet members sid fp key ref : quiet (rebindStormMembers d env members sid fp key ref).
Proof. unfold rebindStormMembers, look, update_dedup, track. walk. Qed.
Lemma supersede_quiet snd sid info members : (forall s p, quiet (snd s p)) -> quiet (supersede d snd sid info members).
Proof. intros. unfold supersede. walk. Qed.
Lemma append__quiet sid p : quiet (append_ sid p).
Proof. unfold append_. walk. Qed.
#[local] Hint Resolve send_quiet openSession_quiet recordBound_quiet rebind_quiet supersede_quiet append__quiet : rows.

Lemma clearDead_quiet fp dead : quiet (clearDeadStormSession env fp dead).
Proof. unfold clearDeadStormSession, update_storm, update_dedup. walk. Qed.
#[local] Hint Resolve clearDead_quiet : rows.
Lemma retryStormOpen_quiet sig info : quiet (retryStormOpen d env sig info).
Proof. unfold retryStormOpen, update_storm. walk. Qed.
Lemma sizeUpdate_quiet sid upd info : quiet (stormSizeUpdate d env sid upd info).
Proof. unfold stormSizeUpdate, print. walk. Qed.
Lemma regression_quiet sig key rec result : quiet (note_regression d sig key rec result).
Proof. unfold note_regression, injectTriageRegressed, update_triage. walk. Qed.
Lemma classify_quiet sig : quiet (classifySignal d env sig).
Proof. unfold classifySignal, update_triage. walk. Qed.
Lemma observe_quiet sig key down : quiet (observe d env sig key down).
Proof. unfold observe, has_board. walk. Qed.
#[local] Hint Resolve retryStormOpen_quiet sizeUpdate_quiet regression_quiet : rows.

Lemma reattach_quiet sig n : quiet (reattachWatchboardEntry d env sig n).
Proof. unfold reattachWatchboardEntry, injectReattachFollowup, look, update_dedup, track, print. walk. Qed.
Lemma bind_quiet sig sid : quiet (bindWatchboardIncident env sig sid).
Proof. unfold bindWatchboardIncident, look, update_dedup, track. walk. Qed.
#[local] Hint Resolve reattach_quiet bind_quiet : rows.

Notation board := (board_ops d env).

Lemma reattachBatch_quiet' entries : quiet (reattachBatch (ops := board) entries).
Proof. induction entries; simpl; walk. Qed.
Lemma finishFlush_quiet' entries sid : quiet (finishFlush (ops := board) entries sid).
Proof. unfold finishFlush. simpl. walk. Qed.
#[local] Hint Resolve reattachBatch_quiet' finishFlush_quiet' : rows.

Lemma board_create_quiet create : op_create (BoardOps := board) = Some create -> quiet create.
Proof. simpl. destruct keyed, session_opener; intros [= <-]; walk. Qed.

Lemma board_openSession_quiet create now sid gen injects :
  op_create (BoardOps := board) = Some create ->
  quiet (Watchboard.openSession (ops := board) (d_board d) create now sid gen injects).
Proof. intros Hc. pose proof (board_create_quiet _ Hc). unfold Watchboard.openSession. simpl. walk. Qed.
Lemma openStateless_quiet now ws entries sid gen injects :
  quiet (openStateless (ops := board) (d_board d) now ws entries sid gen injects).
Proof. unfold openStateless. simpl op_open. simpl op_append. walk. Qed.
#[local] Hint Resolve board_openSession_quiet openStateless_quiet : rows.

Lemma deliver_quiet now ws entries sid gen injects b :
  quiet (deliver (ops := board) (d_board d) now ws entries sid gen injects b).
Proof.
  unfold deliver, recoverGoneSession. simpl op_append.
  destruct (op_create (BoardOps := board)) as [create|] eqn:Ec; walk.
Qed.
#[local] Hint Resolve deliver_quiet : rows.

Lemma flush_quiet now b : quiet (flush (ops := board) (d_board d) now b).
Proof.
  unfold flush. simpl op_print. unfold print.
  destruct (op_create (BoardOps := board)) as [create|] eqn:Ec; walk.
Qed.

Lemma board_add_quiet now sig n : quiet (board_step (Watchboard.Add (ops := board) (d_board d) now sig n)).
Proof.
  unfold board_step, Watchboard.Add. pose proof flush_quiet. walk.
Qed.

(** ** Counting rows *)

Context (Hstore : d_store d = true).

(** [m] writes rows whose number, result and final world satisfy [Q]. *)
Definition wrote {A} (m : M world A) (Q : nat -> A -> world -> Prop) : Prop :=
  forall w, exists l, w_records (m w).2 = w_records w ++ l /\ Q (length l) (m w).1 (m w).2.

Definition exactly {A} (n : nat) : nat -> A -> world -> Prop := fun k _ _ => k = n.

Lemma wrote_quiet {A} (m : M world A) : quiet m -> wrote m (exactly 0).
Proof. intros Hm w. exists []. rewrite app_nil_r. split; [apply Hm|done]. Qed.

Lemma wrote_ret {A} (x : A) (Q : nat -> A -> world -> Prop) : (forall w, Q 0%nat x w) -> wrote (mret x) Q.
Proof. intros HQ w. exists []. rewrite app_nil_r. split; [done|apply HQ]. Qed.

Lemma wrote_weaken {A} (m : M world A) Q Q' :
  wrote m Q -> (forall n x w, Q n x w -> Q' n x w) -> wrote m Q'.
Proof. intros Hm HQ w. destruct (Hm w) as (l & Hl & Hq). eauto. Qed.

Lemma wrote_bind {A B} (m : M world A) (f : A -> M world B) Q Q' :
  wrote m Q -> (forall n x w, Q n x w -> wrote (f x) (fun k => Q' (n + k)%nat)) -> wrote (m ≫= f) Q'.
Proof.
  intros Hm Hf w. destruct (Hm w) as (l & Hl & Hq). unfold mbind, M_bind. destruct (m w) as [x w']. simpl in *.
  destruct (Hf _ _ _ Hq w') as (l' & Hl' & Hq'). exists (l ++ l').
  rewrite Hl', Hl, app_assoc, length_app. done.
Qed.

Lemma wrote_bind_quiet {A B} (m : M world A) (f : A -> M world B) Q :
  quiet m -> (forall x, wrote (f x) Q) -> wrote (m ≫= f) Q.
Proof.
  intros Hm Hf. eapply wrote_bind; [by apply wrote_quiet|]. intros n x w ->. by apply Hf.
Qed.

Lemma Record_one sig o : wrote (Record_ d sig o) (exactly 1).
Proof. intros w. unfold Record_. rewrite Hstore. by eexists [_]. Qed.

(** Record, then go on without writing. *)
Lemma wrote_record {A} sig o (f : unit -> M world A) :
  (forall x, quiet (f x)) -> wrote (Record_ d sig o ≫= f) (exactly 1).
Proof.
  intros Hf. eapply wrote_bind; [apply Record_one|]. intros n x w ->.
  eapply wrote_weaken; [apply wrote_quiet, Hf|]. by intros n' x' w' ->.
Qed.

Lemma one_wrote_bind {A B} (m : M world A) (f : A -> M world B) :
  wrote m (exactly 1) -> (forall x, quiet (f x)) -> wrote (m ≫= f) (exactly 1).
Proof.
  intros Hm Hf. eapply wrote_bind; [exact Hm|]. intros n x w ->.
  eapply wrote_weaken; [apply wrote_quiet, Hf|]. by intros n' x' w' ->.
Qed.

(** Walk to the one row: quiet steps, then the record. *)
Ltac count := repeat first
  [ solve [auto 3 with rows nocore]
  | apply Record_one
  | apply wrote_record; intros; solve [walk]
  | apply wrote_bind_quiet; [solve [walk]|intros]
  | match goal with |- wrote (match ?x with _ => _ end) _ => destruct x eqn:? end
  | match goal with |- wrote (let '_ := ?x in _) _ => destruct x eqn:? end ].

Lemma stormFormed_bind_one sig info members sid p :
  wrote (stormFormed_bind d env sig info members sid p) (exactly 1).
Proof. unfold stormFormed_bind, update_storm, print. count. Qed.
#[local] Hint Resolve stormFormed_bind_one : rows.

Lemma stormFormed_one sig info members : wrote (stormFormed d env sig info members) (exactly 1).
Proof. unfold stormFormed, update_dedup. count. Qed.

Lemma stormAttached_one sig storm member upd : wrote (stormAttached d env sig storm member upd) (exactly 1).
Proof. unfold stormAttached, update_dedup, track, print. count. Qed.
#[local] Hint Resolve stormFormed_one stormAttached_one : rows.

(** The storm stage writes a row exactly when it takes the signal. *)
Definition if_taken : nat -> bool -> world -> Prop := fun n taken _ => n = if taken then 1%nat else 0%nat.

Lemma correlate_rows sig : wrote (correlateStormSignal d env sig) if_taken.
Proof.
  unfold correlateStormSignal, update_storm, look.
  apply wrote_bind_quiet; [walk|]. intros [c|]; [|by apply wrote_ret].
  destruct (Storm.Observe _ _ _ _) as [c' v]. apply wrote_bind_quiet; [walk|]. intros _.
  assert (forall m : M world unit, wrote m (exactly 1) -> wrote (_ ← m; mret true) if_taken) as Ht.
  { intros m Hm. eapply wrote_bind; [exact Hm|]. intros n x w ->. by apply wrote_ret. }
  destruct v as [|info members member|info member upd]; [by apply wrote_ret|apply Ht; auto with rows|].
  apply wrote_bind_quiet; [walk|]. intros bound. apply Ht. auto with rows.
Qed.

Lemma routeInfo_rows sig : wrote (routeInfoSignal d sig) if_taken.
Proof.
  unfold routeInfoSignal. destruct (_ || _); [by apply wrote_ret|].
  eapply wrote_bind; [apply Record_one|]. intros n x w ->. by apply wrote_ret.
Qed.

Lemma foldSibling_rows sig key n : wrote (foldSibling d env sig key n) if_taken.
Proof.
  unfold foldSibling, update_dedup, track. apply wrote_bind_quiet; [walk|].
  intros [[sid m]|]; [|by apply wrote_ret]. apply wrote_bind_quiet; [walk|].
  intros [err|]; [by apply wrote_ret|]. do 2 (apply wrote_bind_quiet; [walk|]; intros _).
  eapply wrote_bind; [apply Record_one|]. intros k x w ->. by apply wrote_ret.
Qed.

Lemma bind_opened_one sig key sid err : wrote (bind_opened d env sig key sid err) (exactly 1).
Proof. unfold bind_opened, update_dedup. count. Qed.
#[local] Hint Resolve bind_opened_one : rows.

Lemma retryIncidentOpen_one sig result key : wrote (retryIncidentOpen d env sig result key) (exactly 1).
Proof. unfold retryIncidentOpen, look, update_dedup. count. Qed.
#[local] Hint Resolve retryIncidentOpen_one : rows.

Lemma injectRepeat_one sig key result : wrote (injectRepeat d env sig key result) (exactly 1).
Proof. unfold injectRepeat, has_board, update_dedup, print. cbv zeta. count. Qed.

Lemma handleDuplicate_one sig key result down : wrote (handleDuplicateSignal d env sig key result down) (exactly 1).
Proof. unfold handleDuplicateSignal, has_board, injectJoinFollowup. cbv zeta. count. Qed.

(** The last call of [w] is an open the sink refused. *)
Definition open_failed (w : world) : Prop :=
  exists h key p, w_calls w = h ++ [CallOpen key p] /\ (OpenIncident h key p).1 = "".

Definition one_unless_failed {A} : nat -> A -> world -> Prop :=
  fun n _ w => n = 1%nat \/ (n = 0%nat /\ open_failed w).

Lemma openSession_failed key p w :
  (Dispatch.openSession d key p w).1 = None -> open_failed (Dispatch.openSession d key p w).2.
Proof.
  unfold Dispatch.openSession, mbind, M_bind, open_incident.
  destruct (OpenIncident _ _ _) as [sid err] eqn:E. simpl. case_bool_decide; [|done]. intros _.
  eexists _, _, _. split; [done|]. by rewrite E.
Qed.

Lemma perIncidentOpen_rows sig key result :
  wrote (dispatchPerIncidentOpen d env sig key result) one_unless_failed.
Proof.
  unfold dispatchPerIncidentOpen, look. eapply wrote_bind; [apply foldSibling_rows|].
  intros n folded _ ->. destruct folded.
  - eapply wrote_weaken; [apply wrote_quiet; walk|]. intros n x w' ->. by left.
  - cbn [Nat.add]. intros w.
    set (open := Dispatch.openSession d (incidentKey d key) _).
    pose proof (openSession_quiet (incidentKey d key) (WPayload (incidentPayload (enriched env true sig) result)) w) as Hq.
    pose proof (openSession_failed (incidentKey d key) (WPayload (incidentPayload (enriched env true sig) result)) w) as Hf.
    unfold mbind, M_bind. fold open in Hq, Hf. destruct (open w) as [[[sid err]|] w']; unfold same_rows in Hq; cbn [fst snd] in *.
    + destruct (bind_opened_one (enriched env true sig) key sid err w') as (l & Hl & Hn).
      exists l. rewrite Hl, Hq. split; [done|]. by left.
    + exists []. rewrite app_nil_r. split; [exact Hq|]. right. auto.
Qed.

Lemma dispatchNew_rows sig key result : wrote (dispatchNew d env sig key result) one_unless_failed.
Proof.
  assert (forall A (m : M world A), wrote m (exactly 1) -> wrote m one_unless_failed) as Hone.
  { intros A m Hm. eapply wrote_weaken; [exact Hm|]. intros n x w ->. by left. }
  unfold dispatchNew, update_dedup, update_triage, has_board.
  do 2 (apply wrote_bind_quiet; [walk|]; intros _).
  eapply wrote_bind; [apply routeInfo_rows|]. intros n info _ ->. destruct info.
  { eapply wrote_weaken; [apply wrote_quiet, keeps_ret, _|]. intros n x w ->. by left. }
  eapply wrote_bind; [apply correlate_rows|]. intros n storm _ ->. destruct storm.
  { eapply wrote_weaken; [apply wrote_quiet, keeps_ret, _|]. intros n x w ->. by left. }
  apply wrote_bind_quiet; [walk|]. intros b. destruct (_ && _ && _).
  { apply Hone. apply wrote_record. intros _. apply board_add_quiet. }
  destruct (_ && _); [apply perIncidentOpen_rows|]. apply Hone. unfold dispatchSharedOrDryRun, track. count.
Qed.

Lemma observed_rows sig key down result :
  wrote (dispatch_observed d env sig key down result) one_unless_failed.
Proof.
  unfold dispatch_observed, update_storm. apply wrote_bind_quiet; [walk|]. intros _.
  destruct (dr_Kind result); [apply dispatchNew_rows|..]; (eapply wrote_weaken;
    [first [apply handleDuplicate_one|apply injectRepeat_one]|]; intros n x w ->; by left).
Qed.
End quiet.

(** C6: one row per signal, except for an incident that could not be opened. With a
    store, a signal that is not an outcome record and passes the filter leaves exactly
    one occurrence row, whichever of its many ways through dedup, storms, joins,
    watchboard, reopen and retry it takes, or none, and then its last call was an open
    that the sink refused. The comments promise a row for every such signal ("every
    signal that survives the filter is recorded"); the first open of a new incident
    returns without one when it fails. *)
Theorem one_row_per_signal `{RangeOrder} `{UnicodeCase} `{JSON} `{Masking} `{Sink} (d : dispatcher)
    (env : dispatch_env) (sig : Signal) (w : world)
    (Hstore : d_store d = true)
    (Hkind : sig_Kind sig <> KindResolved /\ sig_Kind sig <> KindResolvedReverted)
    (Hpass : Decide_opt (d_filter d) (classifySignal d env (stampClusterIdentity d sig) w).1.1.1 = None) :
  let w' := (DispatchSignal d env sig w).2 in
  exists rows, w_records w' = w_records w ++ rows /\
    (length rows = 1%nat \/
     rows = [] /\ exists h key p, w_calls w' = h ++ [CallOpen key p] /\ (OpenIncident h key p).1 = "").
Proof.
  cbv zeta. unfold DispatchSignal. cbv zeta. change (sig_Kind (stampClusterIdentity d sig)) with (sig_Kind sig).
  rewrite !bool_decide_eq_false_2 by tauto. cbn [orb].
  pose proof (classify_quiet d env (stampClusterIdentity d sig) w) as Hq. unfold mbind, M_bind in *.
  destruct (classifySignal _ _ _ _) as [[[sig' key] down] w1]. cbn [fst snd] in *. rewrite Hpass.
  pose proof (observe_quiet d env sig' key down w1) as Hq1. destruct (observe _ _ _ _ _ w1) as [result w2].
  cbn [snd] in Hq1. destruct (observed_rows d env Hstore sig' key down result w2) as (l & Hl & Hn).
  exists l. rewrite Hl, Hq1, Hq. split; [done|]. destruct Hn as [?|[? ?]]; [by left|right].
  split; [by apply nil_length_inv|done].
Qed.

Definition crashing : Signal := pod_event "p1" "CrashLoopBackOff" "back-off restarting failed container" Hour.

Lemma one_row_per_signal_witness :
  let w' := (DispatchSignal (H := plain_range) (H0 := demo_case) (H1 := no_json) (H2 := plain_masking)
    (H3 := accepting_sink) demo_dispatcher (demo_env Hour) crashing demo_world).2 in
  exists rows, w_records w' = w_records demo_world ++ rows /\ length rows = 1%nat.
Proof.
  assert (Decide_opt (d_filter demo_dispatcher) (classifySignal (H := plain_range) (H0 := demo_case) demo_dispatcher
    (demo_env Hour) (stampClusterIdentity demo_dispatcher crashing) demo_world).1.1.1 = None) as Hpass
    by (vm_compute; reflexivity).
  assert (sig_Kind crashing <> KindResolved /\ sig_Kind crashing <> KindResolvedReverted) as Hkind
    by (split; discriminate).
  pose proof (one_row_per_signal (H := plain_range) (H0 := demo_case) (H1 := no_json) (H2 := plain_masking)
    (H3 := accepting_sink) demo_dispatcher (demo_env Hour) crashing demo_world eq_refl Hkind Hpass) as Hone.
  cbv zeta in Hone. destruct Hone as (rows & Hrows & _).
  exists rows. split; [exact Hrows|]. apply (f_equal (@length (Signal * Outcome))) in Hrows.
  revert Hrows. rewrite length_app. vm_compute. exact (fun Hl => eq_sym Hl).
Defined.

(** The exception, on a sink that is down. *)
Example failed_open_leaves_no_row :
  let w' := (DispatchSignal (H := plain_range) (H0 := demo_case) (H1 := no_json) (H2 := plain_masking)
    (H3 := refusing_sink) demo_dispatcher (demo_env Hour) crashing demo_world).2 in
  w_records w' = [] /\ length (w_calls w') = 1%nat.
Proof. vm_compute. done. Qed.
