(* ===== verification/DispatchFlow.v ===== *)
(** The dispatcher end to end (src/internal/watch): an open incident keeps its one
    session, an incident without one gets it at its next event, a folded group says
    once that it is fixed, and what the frozen wire kinds carry. *)
From S2P Require Import Prelude GoTime GoStrings GoHash GoFmt Signal PullFailure Filter Routing.
From S2P Require Import Repeat Dedup DedupSpec Recovery Storm Effects Wire Triage Watchboard Payloads Dispatch DispatchSpec.
From Stdlib Require Import Ascii.

(** ** What does not touch a binding *)

Lemma LookupSession_with_entry key k f c :
  (forall e, SessionID (f e) = SessionID e) -> LookupSession key (with_entry k f c) = LookupSession key c.
Proof.
  intros Hf. unfold LookupSession, with_entry. destruct (entries c !! k) as [e|] eqn:E; [|done]. simpl.
  destruct (decide (canonical_key key = k)) as [<-|]; [|by rewrite lookup_insert_ne].
  by rewrite lookup_insert_eq, E, Hf.
Qed.

Lemma LookupSession_join key k kind c : LookupSession key (CrossSourceJoin k kind c).1 = LookupSession key c.
Proof.
  unfold CrossSourceJoin. destruct (entries c !! canonical_key k) as [e|] eqn:E; [|done].
  destruct (_ || _); [done|]. destruct (bool_decide _); [done|]. unfold LookupSession. simpl.
  destruct (decide (canonical_key key = canonical_key k)) as [->|]; [|by rewrite lookup_insert_ne].
  by rewrite lookup_insert_eq, E.
Qed.

Section flow.
Context `{RangeOrder} `{UnicodeCase} `{JSON} `{Masking} `{Sink} (d : dispatcher) (env : dispatch_env).

(** Classification touches neither the cache nor the tracker, and keys the signal by
    its canonical reason. *)
Lemma classify_frame sig w :
  let r := classifySignal d env sig w in
  w_dedup r.2 = w_dedup w /\ w_tracker r.2 = w_tracker w /\ w_board r.2 = w_board w /\ w_calls r.2 = w_calls w /\
  r.1.1.2 = CanonicalKey (sig_Event sig) /\ sig_Kind r.1.1.1 = sig_Kind sig.
Proof.
  unfold classifySignal, mbind, M_bind, gets, modify. simpl.
  destruct (Resolve_opt _ _ _) as [[class cause] pull]. simpl.
  destruct (w_triage w) as [t|]; [|by destruct (d_routing d)].
  destruct (d_mode d ==s PerIncident); [|by destruct (d_routing d)].
  destruct (Apply _ _ _ _) as [t' [sev down]]. simpl. by destruct (d_routing d).
Qed.

(** Only appends, and the session of [key] stays what it is. *)
Definition undisturbed (key : EventKey) (w w' : world) : Prop :=
  adds (fun c => exists sid p, c = CallAppend sid p) w w' /\
  LookupSession key (w_dedup w') = LookupSession key (w_dedup w).

#[global] Instance undisturbed_preorder key : PreOrder (undisturbed key).
Proof.
  split; [split; [reflexivity|done]|]. intros x y z [H1' E1] [H2' E2]. split; [by etrans|congruence].
Qed.

Section undisturbed.
Context (key : EventKey).
Notation calm m := (keeps (undisturbed key) m).

Lemma calm_same {A} (m : M world A) :
  (forall w, w_calls (m w).2 = w_calls w /\ w_dedup (m w).2 = w_dedup w) -> calm m.
Proof. intros Hm w. destruct (Hm w) as [Hc Hd]. split; [by apply adds_same|by rewrite Hd]. Qed.

Lemma calm_append sid p : calm (append sid p).
Proof. intros w. split; [|done]. eapply adds_one; [done|]. by eexists _, _. Qed.

Lemma calm_record sig o : calm (Record_ d sig o).
Proof. apply calm_same. intros w. unfold Record_. by destruct (d_store d). Qed.

Lemma calm_send sid p : calm (send d sid p).
Proof.
  unfold send. destruct (d_dryRun d); [by apply calm_same|]. unfold append_.
  apply keeps_bind; [apply _|apply calm_append|]. intros. apply keeps_ret, _.
Qed.

Lemma calm_join kind : calm (dedup (CrossSourceJoin key kind)).
Proof.
  intros w. unfold dedup. pose proof (LookupSession_join key key kind (w_dedup w)) as Hj.
  destruct (CrossSourceJoin _ _ _) as [c r]. split; [by apply adds_same|done].
Qed.

Lemma calm_undelivered change : calm (update_dedup (MarkUndelivered key change)).
Proof. intros w. split; [by apply adds_same|]. by apply LookupSession_with_entry. Qed.

Lemma calm_regression sig rec result : calm (note_regression d sig key rec result).
Proof.
  unfold note_regression, update_triage, injectTriageRegressed.
  apply keeps_bind; [apply _|by apply calm_same|]. intros [t|]; [|apply keeps_ret, _].
  destruct (noteRegression _ _ _) as [t' [b due]]. apply keeps_bind; [apply _|by apply calm_same|]. intros _.
  destruct due; [|apply keeps_ret, _]. apply keeps_bind; [apply _|by apply calm_same|]. intros. apply calm_send.
Qed.

Lemma calm_duplicate sig result down :
  dr_SessionID result <> "" -> calm (handleDuplicateSignal d env sig key result down).
Proof.
  intros Hs. unfold handleDuplicateSignal, has_board. cbv zeta. destruct (dr_Replay result); [apply calm_record|].
  apply keeps_bind; [apply _| |intros _].
  { destruct down; [|apply keeps_ret, _]. apply keeps_when; [apply _|apply calm_regression]. }
  rewrite !(bool_decide_eq_false_2 _ Hs). cbn [negb andb]. rewrite !andb_false_r.
  apply keeps_bind; [apply _|destruct (_ && _); [apply calm_join|apply keeps_ret, _]|]. intros join.
  apply keeps_bind; [apply _|by apply calm_same|]. intros b. cbn [andb].
  destruct join; [|apply calm_record]. unfold injectJoinFollowup.
  apply keeps_bind; [apply _|apply calm_record|]. intros. apply calm_send.
Qed.

Lemma calm_repeat sig result
  (Hgone : forall h sid p err, Append h sid p = Some err -> sessionGone err = false) :
  calm (injectRepeat d env sig key result).
Proof.
  unfold injectRepeat. cbv zeta. destruct (d_dryRun d).
  - apply keeps_bind; [apply _|apply calm_record|]. intros _. by apply calm_same.
  - match goal with |- context [append _ ?p] => set (payload := p) end. clearbody payload.
    intros w. unfold mbind, M_bind, append.
    destruct (Append _ _ _) as [err|] eqn:E.
    + rewrite (Hgone _ _ _ _ E). trans (w <| w_calls ::= fun l => l ++ [CallAppend (dr_SessionID result) payload] |>).
      { apply (calm_append (dr_SessionID result) payload w). }
      apply (keeps_bind _ (update_dedup (MarkUndelivered key (dr_Change result)))); [apply calm_undelivered|].
      intros _. apply calm_record.
    + trans (w <| w_calls ::= fun l => l ++ [CallAppend (dr_SessionID result) payload] |>).
      { apply (calm_append (dr_SessionID result) payload w). }
      apply calm_record.
Qed.
End undisturbed.

(** The observation of a signal, as the dispatcher makes it. *)
Definition observation (board : bool) (sig : Signal) (down : option TriageStatusRecord) : Observation :=
  mkObservation (te_LastSeen (sig_Event sig)) (sig_Kind sig) (sig_Severity sig) (te_Message (sig_Event sig))
    (opensSessions d board sig) (is_Some_b down).

Lemma observe_eq sig key down w :
  observe d env sig key down w =
  let r := ObserveSignal (open_check w) (e_now env) key (observation (is_Some_b (w_board w)) sig down) (w_dedup w) in
  (r.2, w <| w_dedup := r.1 |>).
Proof.
  unfold observe, has_board, gets, dedup, mbind, M_bind, observation. cbn beta iota zeta.
  by destruct (ObserveSignal _ _ _ _ _).
Qed.

(** A signal that is not an outcome record, up to the verdict on it. *)
Lemma DispatchSignal_eq sig w :
  sig_Kind sig <> KindResolved /\ sig_Kind sig <> KindResolvedReverted ->
  DispatchSignal d env sig w =
  let '((sig', key, down), w1) := classifySignal d env (stampClusterIdentity d sig) w in
  match Decide_opt (d_filter d) sig' with
  | Some _ => (tt, w1)
  | None =>
      let r := ObserveSignal (open_check w1) (e_now env) key (observation (is_Some_b (w_board w1)) sig' down) (w_dedup w1) in
      dispatch_observed d env sig' key down r.2 (w1 <| w_dedup := r.1 |>)
  end.
Proof.
  intros Hkind. unfold DispatchSignal. cbv zeta.
  change (sig_Kind (stampClusterIdentity d sig)) with (sig_Kind sig).
  rewrite !bool_decide_eq_false_2 by tauto. cbn [orb]. unfold mbind, M_bind.
  destruct (classifySignal _ _ _ _) as [[[sig' key] down] w1]. destruct (Decide_opt _ _); [done|].
  by rewrite observe_eq.
Qed.

Lemma bound_lookup key e c : entries c !! canonical_key key = Some e -> SessionID e <> "" ->
  LookupSession key c = Some (SessionID e).
Proof. intros He Hs. unfold LookupSession. rewrite He. by rewrite bool_decide_eq_false_2. Qed.
End flow.

(** C2: one open incident, one session, end to end. While the recovery tracker holds
    an incident open and its dedup entry is bound, dispatching another signal of it
    (session-class, or another source's lower-class angle), through the filter, dedup,
    repeats, joins and regressions, opens no session and leaves the incident bound to
    the one it has; unless the sink answers that the session is gone, the only calls
    are appends. *)
Theorem open_incident_keeps_its_session `{RangeOrder} `{UnicodeCase} `{JSON} `{Masking} `{Sink} (d : dispatcher)
    (env : dispatch_env) (sig : Signal) (w : world) (t : RecoveryTracker) (e : dedupEntry)
    (Hkind : sig_Kind sig <> KindResolved /\ sig_Kind sig <> KindResolvedReverted)
    (Htracker : w_tracker w = Some t)
    (He : entries (w_dedup w) !! canonical_key (CanonicalKey (sig_Event sig)) = Some e)
    (Hbound : bound e)
    (Hopen : Open t (canonical_key (CanonicalKey (sig_Event sig))) = true)
    (Hclass : let '((sig', _, down), _) := classifySignal d env (stampClusterIdentity d sig) w in
       opensSessions d (is_Some_b (w_board w)) sig' = true \/ (down = None /\ sig_Kind sig <> SourceKind e))
    (Hgone : forall h sid p err, Append h sid p = Some err -> sessionGone err = false) :
  let w' := (DispatchSignal d env sig w).2 in
  (exists calls, w_calls w' = w_calls w ++ calls /\ forall c, c ∈ calls -> exists sid p, c = CallAppend sid p) /\
  LookupSession (CanonicalKey (sig_Event sig)) (w_dedup w') = Some (SessionID e).
Proof.
  cbv zeta. rewrite DispatchSignal_eq by done.
  pose proof (classify_frame d env (stampClusterIdentity d sig) w) as Hf. cbv zeta in Hf.
  destruct (classifySignal _ _ _ _) as [[[sig' key] down] w1].
  cbn [fst snd] in Hf. destruct Hf as (Hd & Ht & Hb & Hc & -> & Hk).
  change (sig_Event (stampClusterIdentity d sig)) with (sig_Event sig) in *.
  change (sig_Kind (stampClusterIdentity d sig)) with (sig_Kind sig) in *.
  set (key := CanonicalKey (sig_Event sig)) in *.
  assert (LookupSession key (w_dedup w) = Some (SessionID e)) as Hlook by (apply bound_lookup; [done|apply Hbound]).
  destruct (Decide_opt _ _).
  { split; [exists []; rewrite app_nil_r; split; [done|]; by intros c ?%elem_of_nil|].
    cbn [snd]. by rewrite Hd. }
  cbv zeta.
  pose proof (observe_stays (Open t) (e_now env) key (observation d (is_Some_b (w_board w1)) sig' down) (w_dedup w) e
    He Hbound Hopen) as Hst.
  assert (open_check w1 = Some (Open t)) as -> by (unfold open_check; by rewrite Ht, Htracker).
  rewrite Hd in *. destruct Hst as (Hnew & Hsid & e' & He' & Hsame).
  { unfold keeps_open, observation. simpl. rewrite Hb, Hk. destruct Hclass as [?|[-> ?]]; [by left|by right]. }
  destruct (ObserveSignal _ _ _ _ _) as [c' r]. cbn [fst snd] in *.
  set (w2 := w1 <| w_dedup := c' |>).
  assert (keeps (undisturbed key) (dispatch_observed d env sig' key down r)) as Hcalm.
  { unfold dispatch_observed. apply keeps_bind; [apply _|by apply keeps_when; [apply _|]; apply calm_same|]. intros _.
    destruct (dr_Kind r) eqn:Er; [done|apply calm_duplicate|by apply calm_repeat].
    rewrite Hsid. apply Hbound. }
  destruct (Hcalm w2) as [(calls & Hcalls & HP) Hl]. split.
  - exists calls. split; [rewrite Hcalls; unfold w2; simpl; by rewrite Hc|]. intros c Hin.
    by apply (proj1 (list.Forall_forall _ _) HP) in Hin.
  - rewrite Hl. unfold w2. simpl. destruct Hsame as (Hs & _). rewrite <- Hs.
    apply bound_lookup; [done|]. rewrite Hs. apply Hbound.
Qed.

Notation demo_dispatch t sig w := (DispatchSignal (H := plain_range) (H0 := demo_case) (H1 := no_json)
  (H2 := plain_masking) (H3 := accepting_sink) demo_dispatcher (demo_env t) sig w).2.

Definition crashing (uid : string) (t : Time) : Signal :=
  pod_event uid "CrashLoopBackOff" "back-off restarting failed container" t.

(** p1 has crashed once, and has its session. *)
Definition opened_world : world := demo_dispatch Hour (crashing "p1" Hour) demo_world.
Definition opened_tracker : RecoveryTracker := default (NewRecoveryTracker 0) (w_tracker opened_world).

Lemma open_incident_keeps_its_session_witness :
  let w' := demo_dispatch (2 * Hour) (crashing "p1" (2 * Hour)) opened_world in
  length (w_calls opened_world) = 1%nat /\ length (w_calls w') = 2%nat /\
  LookupSession (CanonicalKey (sig_Event (crashing "p1" (2 * Hour)))) (w_dedup w') = Some "s0".
Proof.
  cbv zeta. split; [vm_compute; reflexivity|]. split; [vm_compute; reflexivity|].
  assert (exists e, entries (w_dedup opened_world) !! canonical_key (CanonicalKey (sig_Event (crashing "p1" (2 * Hour))))
      = Some e /\ SessionID e = "s0") as (e & He & Hs) by (vm_compute; eexists; split; reflexivity).
  assert (w_tracker opened_world = Some opened_tracker) as Ht by (vm_compute; reflexivity).
  assert (bound e) as Hb.
  { revert He. vm_compute. intros [= <-]. vm_compute. repeat split; discriminate. }
  assert (Open opened_tracker (canonical_key (CanonicalKey (sig_Event (crashing "p1" (2 * Hour))))) = true) as Ho by (vm_compute; reflexivity).
  assert (let '((sig', _, down), _) := classifySignal (H := plain_range) (H0 := demo_case) demo_dispatcher
      (demo_env (2 * Hour)) (stampClusterIdentity demo_dispatcher (crashing "p1" (2 * Hour))) opened_world in
    opensSessions demo_dispatcher (is_Some_b (w_board opened_world)) sig' = true \/
    (down = None /\ sig_Kind (crashing "p1" (2 * Hour)) <> SourceKind e)) as Hc
    by (vm_compute; left; reflexivity).
  assert (sig_Kind (crashing "p1" (2 * Hour)) <> KindResolved /\
    sig_Kind (crashing "p1" (2 * Hour)) <> KindResolvedReverted) as Hk by (split; discriminate).
  assert (forall h sid p err, Append (Sink := accepting_sink) h sid p = Some err -> sessionGone err = false) as Hg
    by discriminate.
  pose proof (open_incident_keeps_its_session (H := plain_range) (H0 := demo_case) (H1 := no_json)
    (H2 := plain_masking) (H3 := accepting_sink) demo_dispatcher (demo_env (2 * Hour)) (crashing "p1" (2 * Hour))
    opened_world opened_tracker e Hk Ht He Hb Ho Hc Hg) as Hkept.
  cbv zeta in Hkept. destruct Hkept as [_ Hl]. rewrite Hs in Hl. exact Hl.
Defined.

(** ** An incident without a session *)

Section unbound.
Context `{RangeOrder} `{UnicodeCase} `{JSON} `{Masking} `{Sink} (d : dispatcher) (env : dispatch_env).

Lemma observe_root_session now obs class rk root c r :
  (observe_root now obs class rk root c).2 = Some r -> dr_SessionID r = SessionID root.
Proof.
  unfold observe_root.
  pose proof (repeat_binding (window c) root now (obs_LastTS obs) class (window c <? Sub now (LastSeen root))) as Hr.
  destruct (obs_Repeatable obs); [|destruct (_ && _); by intros [= <-]].
  destruct (_ || _).
  - destruct (repeat _ _ _ _ _ _) as [e' r']. intros [= <-]. tauto.
  - intros [= <-]. simpl.
    by destruct (note_pending_binding (window c) now class (bump_inject (advance now (obs_LastTS obs) root))) as [-> _].
Qed.

(** What a verdict without a session says of the cache. *)
Definition unbound_duplicate (k : EventKey) (res : DedupCache * DedupResult) : Prop :=
  dr_Kind res.2 = DedupDuplicate -> dr_Replay res.2 = false -> dr_SessionID res.2 = "" ->
  exists e, entries res.1 !! k = Some e /\ SessionID e = "".

Lemma observe_own_unbound isOpen now k obs class e c :
  unbound_duplicate k (observe_own isOpen now k obs class e c).
Proof.
  assert (forall c0 (r : DedupResult) e', SessionID e' = dr_SessionID r -> unbound_duplicate k (put k e' c0, r)) as Hput.
  { intros c0 r e' Hs _ _ Hr. exists e'. unfold put. simpl. rewrite lookup_insert_eq. split; [done|]. simpl in Hr. congruence. }
  assert (forall c0, unbound_duplicate k (put k (note_pending (window c) now class (advance now (obs_LastTS obs) e)) c0,
    dedup_result DedupDuplicate (SessionID (note_pending (window c) now class (advance now (obs_LastTS obs) e)))
      (Count (note_pending (window c) now class (advance now (obs_LastTS obs) e)))
      (Storm (note_pending (window c) now class (advance now (obs_LastTS obs) e))))) as Hdup by (intros; by apply Hput).
  unfold observe_own. destruct (_ && _); [|by destruct (_ <? _)].
  destruct (obs_Repeatable obs).
  - pose proof (repeat_binding (window c) e now (obs_LastTS obs) class (window c <? Sub now (LastSeen e))) as Hr.
    destruct (repeat _ _ _ _ _ _) as [e' r]. apply Hput. destruct Hr as ((Hs & _) & _ & _ & Hr & _). congruence.
  - destruct (_ && _); [by apply Hput|by destruct (_ <? _)].
Qed.

Lemma observe_unbound isOpen now key obs c :
  unbound_duplicate (canonical_key key) (ObserveSignal isOpen now key obs c).
Proof.
  unfold ObserveSignal. cbv zeta. destruct (entries _ !! _) as [e|] eqn:E; [|by repeat case_match].
  destruct (negb _).
  { intros _ _ Hs. eexists. unfold put. simpl. rewrite lookup_insert_eq. split; [done|exact Hs]. }
  unfold observe_sibling. destruct (resolveParentLocked _ _) as [[rk root]|]; [|apply observe_own_unbound].
  destruct (_ && _) eqn:Eb; [|apply observe_own_unbound].
  match goal with |- context [observe_root ?n ?o ?cl ?k ?rt ?c] =>
    pose proof (fun r => observe_root_session n o cl k rt c r) as Hr end.
  destruct (observe_root _ _ _ _ _ _) as [c1 [r|]]; [|apply observe_own_unbound].
  intros _ _ Hs. cbn [fst snd] in Hs. rewrite (Hr r) in Hs by done. btrue.
  destruct (bool_decide (rk = canonical_key key)); simpl in Hs; congruence.
Qed.

Lemma Open_track now inc t : Open (Track now inc t) (inc_Key inc) = true.
Proof.
  unfold Open, Track. cbv zeta. set (i := if IsZero _ then _ else _).
  assert (inc_Key i = canonical_key (inc_Key inc)) as -> by (unfold i; by destruct (IsZero _)).
  simpl. by rewrite lookup_insert_eq.
Qed.

Lemma LookupSession_bind key sid ref e c :
  entries c !! canonical_key key = Some e -> sid <> "" -> LookupSession key (BindIncident key sid ref c) = Some sid.
Proof.
  intros He Hs. unfold LookupSession, BindIncident. rewrite He. cbv zeta.
  assert (forall e' c0, SessionID e' = sid ->
    match entries (put (canonical_key key) e' c0) !! canonical_key key with
    | Some e => if SessionID e ==s "" then None else Some (SessionID e) | None => None end = Some sid) as Hput.
  { intros e' c0 <-. unfold put. simpl. rewrite lookup_insert_eq. by rewrite bool_decide_eq_false_2. }
  destruct (Parent _); [|by apply Hput].
  match goal with |- context [if ?b then _ else _] => destruct b end; by apply Hput.
Qed.

(** Binding an opened session: no call, the binding, and the tracking. *)
Lemma bind_opened_binds sig key sid err w e :
  entries (w_dedup w) !! canonical_key key = Some e -> sid <> "" ->
  let w' := (bind_opened d env sig key sid err w).2 in
  w_calls w' = w_calls w /\ LookupSession key (w_dedup w') = Some sid /\
  (is_Some (w_tracker w) -> exists t, w_tracker w' = Some t /\ Open t key = true).
Proof.
  intros He Hs. cbv zeta.
  unfold bind_opened, recordBoundSession, noteAncestors, Record_, update_dedup, update_storm, track, modify, when,
    mbind, M_bind, mret, M_ret. cbn [snd].
  assert (forall f c, (forall e, SessionID (f e) = SessionID e) ->
    LookupSession key c = Some sid -> LookupSession key (with_entry (canonical_key key) f c) = Some sid) as Hwith.
  { intros f c Hf <-. by apply LookupSession_with_entry. }
  set (c := BindIncident key sid (Signal_IncidentRef sig) (w_dedup w)).
  assert (LookupSession key c = Some sid) as Hc by by eapply LookupSession_bind.
  assert (LookupSession key (NoteAncestors key (ancestorKeysFor (e_resolver env) sig) c) = Some sid) as Hn.
  { unfold NoteAncestors. destruct (ancestorKeysFor _ _); [done|]. by apply Hwith. }
  assert (forall w0 : world, w_tracker w0 = Track (e_now env) (mkIncident key sid (te_FirstSeen (sig_Event sig))
      (Signal_IncidentRef sig)) <$> w_tracker w -> is_Some (w_tracker w) -> exists t, w_tracker w0 = Some t /\ Open t key = true) as Ht.
  { intros w0 -> [t ->]. eexists. split; [done|]. apply (Open_track (e_now env) (mkIncident key sid _ _)). }
  destruct (d_store d), err; cbn [snd]; (split; [done|split; [|by apply Ht]]); [by apply Hwith|done|by apply Hwith|done].
Qed.

Lemma openSession_eq key payload w :
  let k := if keyed then Some key else None in
  let p := fitInject d payload in
  let sid := (OpenIncident (w_calls w) k p).1 in
  Dispatch.openSession d key payload w =
    (if sid ==s "" then None else Some (sid, (OpenIncident (w_calls w) k p).2),
     w <| w_calls ::= fun l => l ++ [CallOpen k p] |>).
Proof.
  cbv zeta. unfold Dispatch.openSession, open_incident, mbind, M_bind. cbn beta iota zeta.
  by destruct (OpenIncident _ _ _) as [sid err].
Qed.

(** A duplicate of an incident without a session goes to the retry. *)
Lemma duplicate_retries sig key result down w :
  d_dryRun d = false -> dr_Replay result = false -> dr_SessionID result = "" -> dr_Storm result = "" ->
  opensSessions d (is_Some_b (w_board w)) sig = true ->
  handleDuplicateSignal d env sig key result down w = retryIncidentOpen d env sig result key w.
Proof.
  intros Hlive Hr Hs Hst Ho. unfold handleDuplicateSignal. cbv zeta. rewrite Hr, Hs, Hst.
  rewrite !(bool_decide_eq_true_2 (@eq string "" "")) by done. cbn [negb].
  unfold when, mbind, M_bind, has_board, gets, mret, M_ret. destruct down; cbn beta iota zeta;
    rewrite andb_false_r, Hlive; cbn [negb andb]; by rewrite Ho.
Qed.

Lemma retry_opens sig key result w e :
  entries (w_dedup w) !! canonical_key key = Some e -> SessionID e = "" ->
  let w' := (retryIncidentOpen d env sig result key w).2 in
  let k := if keyed then Some (incidentKey d key) else None in
  let p := fitInject d (WPayload (incidentPayload (enriched env true sig) result)) in
  let sid := (OpenIncident (w_calls w) k p).1 in
  w_calls w' = w_calls w ++ [CallOpen k p] /\
  LookupSession key (w_dedup w') = (if sid ==s "" then None else Some sid) /\
  (sid <> "" -> is_Some (w_tracker w) -> exists t, w_tracker w' = Some t /\ Open t key = true).
Proof.
  intros He Hs. cbv zeta. unfold retryIncidentOpen.
  assert (LookupSession key (w_dedup w) = None) as Hl by (unfold LookupSession; by rewrite He, Hs).
  unfold look, gets, mbind, M_bind. rewrite Hl. cbv zeta. rewrite openSession_eq. cbv zeta.
  set (k := if keyed then _ else _). set (p := fitInject _ _). set (w1 := w <| w_calls ::= _ |>).
  destruct (OpenIncident (w_calls w) k p) as [sid err]. cbn [fst snd].
  destruct (bool_decide_reflect (sid = "")) as [->|Hne].
  - unfold Record_, when, modify, mret, M_ret. destruct (d_store d); done.
  - unfold update_dedup, modify. cbn beta iota zeta.
    pose proof (bind_opened_binds (enriched env true sig) key sid err
      (w1 <| w_dedup ::= NoteIncidentKind key (sig_Kind (enriched env true sig)) |>)
      (e <| SourceKind := sig_Kind (enriched env true sig) |> <| FollowupSources := [] |>)) as Hb.
    destruct Hb as (Hc & Hl' & Ht); [|done|].
    { unfold w1. simpl. unfold NoteIncidentKind, with_entry. rewrite He. unfold put. simpl. by rewrite lookup_insert_eq. }
    split; [exact Hc|split; [exact Hl'|intros _; exact Ht]].
Qed.
End unbound.

(** C7: an incident that could not be opened is opened at its next event. When dedup
    answers "duplicate" for an incident that has no session and no storm (its open
    failed, or its session was lost), the signal opens one: a single open, keyed by
    the incident, carrying the incident; if the sink names a session the incident is
    bound to it and tracked for recovery, and otherwise it stays unbound, for the event
    after. *)
Theorem unbound_incident_is_retried `{RangeOrder} `{UnicodeCase} `{JSON} `{Masking} `{Sink} (d : dispatcher)
    (env : dispatch_env) (sig sig' : Signal) (key : EventKey) (down : option TriageStatusRecord) (w w1 : world)
    (Hkind : sig_Kind sig <> KindResolved /\ sig_Kind sig <> KindResolvedReverted)
    (Hlive : d_dryRun d = false)
    (Hsig : classifySignal d env (stampClusterIdentity d sig) w = ((sig', key, down), w1))
    (Hpass : Decide_opt (d_filter d) sig' = None)
    (Hopens : opensSessions d (is_Some_b (w_board w)) sig' = true)
    (r := (ObserveSignal (open_check w) (e_now env) key (observation d (is_Some_b (w_board w)) sig' down) (w_dedup w)).2)
    (Hdup : dr_Kind r = DedupDuplicate /\ dr_Replay r = false)
    (Hunbound : dr_SessionID r = "" /\ dr_Storm r = "") :
  let w' := (DispatchSignal d env sig w).2 in
  let k := if keyed then Some (incidentKey d key) else None in
  let p := fitInject d (WPayload (incidentPayload (enriched env true sig') r)) in
  let sid := (OpenIncident (w_calls w) k p).1 in
  w_calls w' = w_calls w ++ [CallOpen k p] /\
  LookupSession key (w_dedup w') = (if sid ==s "" then None else Some sid) /\
  (sid <> "" -> is_Some (w_tracker w) -> exists t, w_tracker w' = Some t /\ Open t key = true).
Proof.
  cbv zeta. rewrite DispatchSignal_eq by done.
  pose proof (classify_frame d env (stampClusterIdentity d sig) w) as Hf. cbv zeta in Hf.
  rewrite Hsig in *. cbn [fst snd] in Hf. destruct Hf as (Hd & Ht & Hb & Hc & _ & _).
  rewrite Hpass. cbv zeta. assert (open_check w1 = open_check w) as Hoc by (unfold open_check; by rewrite Ht).
  rewrite Hoc, Hd, Hb in *.
  pose proof (observe_unbound (open_check w) (e_now env) key (observation d (is_Some_b (w_board w)) sig' down) (w_dedup w)) as Hu.
  subst r. destruct (ObserveSignal _ _ _ _ _) as [c r]. cbn [fst snd] in *.
  destruct Hdup as [Hk Hr], Hunbound as [Hs Hst]. destruct (Hu Hk Hr Hs) as (e & He & Hes). cbn [fst] in He.
  set (w2 := w1 <| w_dedup := c |>).
  assert (dispatch_observed d env sig' key down r w2 = retryIncidentOpen d env sig' r key w2) as ->.
  { unfold dispatch_observed. rewrite Hk, Hst. apply duplicate_retries; [done..|]. unfold w2. simpl. by rewrite Hb. }
  pose proof (retry_opens d env sig' key r w2 e He Hes) as Hret. cbv zeta in Hret.
  change (w_calls w2) with (w_calls w1) in Hret. change (w_tracker w2) with (w_tracker w1) in Hret.
  by rewrite Hc, Ht in Hret.
Qed.

(** p1 crashed while the sink was down. *)
Definition failed_world : world :=
  (DispatchSignal (H := plain_range) (H0 := demo_case) (H1 := no_json) (H2 := plain_masking) (H3 := refusing_sink)
    demo_dispatcher (demo_env Hour) (crashing "p1" Hour) demo_world).2.

Definition next_crash : Signal := crashing "p1" (Hour + Minute).
Notation next_class := (classifySignal (H := plain_range) (H0 := demo_case) demo_dispatcher (demo_env (Hour + Minute))
  (stampClusterIdentity demo_dispatcher next_crash) failed_world).

Lemma classified_eta (x : Signal * EventKey * option TriageStatusRecord * world) :
  x = ((x.1.1.1, x.1.1.2, x.1.2), x.2).
Proof. by destruct x as [[[? ?] ?] ?]. Qed.

Lemma unbound_incident_is_retried_witness :
  let w' := demo_dispatch (Hour + Minute) next_crash failed_world in
  LookupSession next_class.1.1.2 (w_dedup failed_world) = None /\
  length (w_calls w') = 2%nat /\ LookupSession next_class.1.1.2 (w_dedup w') = Some "s1".
Proof.
  cbv zeta. split; [vm_compute; reflexivity|].
  assert (sig_Kind next_crash <> KindResolved /\ sig_Kind next_crash <> KindResolvedReverted) as Hk by (split; discriminate).
  assert (next_class = ((next_class.1.1.1, next_class.1.1.2, next_class.1.2), next_class.2)) as Hc
    by apply classified_eta.
  assert (Decide_opt (d_filter demo_dispatcher) next_class.1.1.1 = None) as Hp by (vm_compute; reflexivity).
  assert (opensSessions demo_dispatcher (is_Some_b (w_board failed_world)) next_class.1.1.1 = true) as Ho
    by (vm_compute; reflexivity).
  pose (r := (ObserveSignal (H := plain_range) (open_check failed_world) (e_now (demo_env (Hour + Minute))) next_class.1.1.2
    (observation demo_dispatcher (is_Some_b (w_board failed_world)) next_class.1.1.1 next_class.1.2)
    (w_dedup failed_world)).2).
  assert (dr_Kind r = DedupDuplicate /\ dr_Replay r = false) as Hd by (vm_compute; split; reflexivity).
  assert (dr_SessionID r = "" /\ dr_Storm r = "") as Hu by (vm_compute; split; reflexivity).
  pose proof (unbound_incident_is_retried (H := plain_range) (H0 := demo_case) (H1 := no_json) (H2 := plain_masking)
    (H3 := accepting_sink) demo_dispatcher (demo_env (Hour + Minute)) next_crash next_class.1.1.1 next_class.1.1.2
    next_class.1.2 failed_world next_class.2 Hk eq_refl Hc Hp Ho Hd Hu) as Hr.
  cbv zeta in Hr. destruct Hr as (Hcalls & Hlook & _). split.
  - rewrite Hcalls, length_app. vm_compute. reflexivity.
  - rewrite Hlook. vm_compute. reflexivity.
Defined.

(** ** A folded group *)

(** C8: a folded group says once that it is fixed. Pods of one workload that were folded
    into one session clear one by one: while the tracker holds another member of the
    group open, a member's resolution makes no sink call at all and leaves one store
    row naming the session; when none is open any more, the resolution of the last one
    is the next thing the session hears. *)
Theorem folded_group_resolves_once `{RangeOrder} `{UnicodeCase} `{JSON} `{Masking} `{Sink} (d : dispatcher)
    (env : dispatch_env) (sig : Signal) (rec : Recovery) (w : world) (t : RecoveryTracker) (sid : string)
    (root : EventKey) (group : list EventKey)
    (Hkind : sig_Kind sig = KindResolved)
    (Hrec : sig_Recovery sig = Some rec)
    (Hlive : d_dryRun d = false)
    (Hmode : d_mode d = PerIncident)
    (Htracker : w_tracker w = Some t)
    (Hbound : LookupSession (te_Key (sig_Event sig)) (w_dedup w) = Some sid)
    (Hgroup : SiblingGroup (te_Key (sig_Event sig)) (w_dedup w) = Some (root, group)) :
  let w' := (DispatchSignal d env sig w).2 in
  let sig' := stampClusterIdentity d sig in
  if existsb (Open t) group then
    w_calls w' = w_calls w /\
    w_records w' = w_records w ++ (if d_store d then [(sig', mkOutcome RouteResolved sid "")] else [])
  else
    exists more, w_calls w' = w_calls w ++ CallAppend sid (WResolved (resolvedPayload sig' rec)) :: more.
Proof.
  cbv zeta.
  assert (DispatchSignal d env sig = dispatchResolved d env (stampClusterIdentity d sig)) as ->.
  { unfold DispatchSignal. cbv zeta. change (sig_Kind (stampClusterIdentity d sig)) with (sig_Kind sig). by rewrite Hkind. }
  unfold dispatchResolved, deferSiblingResolved.
  change (te_Key (sig_Event (stampClusterIdentity d sig))) with (te_Key (sig_Event sig)).
  change (sig_Kind (stampClusterIdentity d sig)) with (sig_Kind sig).
  change (sig_Recovery (stampClusterIdentity d sig)) with (sig_Recovery sig).
  set (sig' := stampClusterIdentity d sig). rewrite Hrec, Hkind, Hmode. cbv zeta.
  rewrite !bool_decide_eq_true_2 by done. cbn [negb orb].
  unfold look, gets, mbind, M_bind, update_resolve, update_triage, update_dedup, modify. cbn beta iota zeta.
  rewrite Hbound. cbn beta iota zeta. rewrite Hgroup. cbn beta iota zeta.
  set (w1 := w <| w_triage ::= _ |> <| w_dedup ::= _ |>).
  assert (w_tracker w1 = Some t) as -> by exact Htracker.
  destruct (existsb (Open t) group).
  - unfold Record_, when, modify, mret, M_ret. destruct (d_store d); split; try done. by rewrite app_nil_r.
  - unfold mret, M_ret. rewrite Hlive. unfold append. cbn beta iota zeta.
    match goal with |- context [match Append ?h ?s ?p with _ => _ end ?w2] => set (w3 := w2); set (a := Append h s p) end.
    match goal with |- context [(?m w3).2] => assert (keeps (adds (fun _ => True)) m) as Hk end.
    { clearbody a. intros w4. destruct a as [err|]; [destruct (sessionGone err)|].
      - destruct (commitResolved_keeps d env (fun _ => True) ltac:(done) sig' rec ""
          (w4 <| w_dedup ::= Unbind (e_now env) (te_Key (sig_Event sig)) |>)) as (l & Hl & _).
        exists l. split; [exact Hl|]. apply list.Forall_forall. done.
      - by apply adds_same.
      - by apply commitResolved_keeps. }
    destruct (Hk w3) as (more & Hmore & _). exists more. rewrite Hmore. unfold w3, w1. simpl. by rewrite <- app_assoc.
Qed.

(** p1 and p2 of one Deployment, folded into one session; then p1 clears. *)
Definition folded_world : world := demo_dispatch (Hour + 1) (crashing "p2" (Hour + 1)) opened_world.
Definition fixed_p1 : Signal := fixed_signal "p1" (2 * Hour).
Definition folded_group : EventKey * list EventKey :=
  default (mkEventKey "" "", []) (SiblingGroup (H := plain_range) (te_Key (sig_Event fixed_p1)) (w_dedup folded_world)).

Lemma folded_group_resolves_once_witness :
  length folded_group.2 = 2%nat /\
  w_calls (demo_dispatch (2 * Hour) fixed_p1 folded_world) = w_calls folded_world.
Proof.
  split; [vm_compute; reflexivity|].
  assert (w_tracker folded_world = Some (default (NewRecoveryTracker 0) (w_tracker folded_world))) as Ht
    by (vm_compute; reflexivity).
  assert (LookupSession (te_Key (sig_Event fixed_p1)) (w_dedup folded_world) = Some "s0") as Hl
    by (vm_compute; reflexivity).
  assert (SiblingGroup (H := plain_range) (te_Key (sig_Event fixed_p1)) (w_dedup folded_world)
    = Some (folded_group.1, folded_group.2)) as Hg by (vm_compute; reflexivity).
  assert (existsb (Open (default (NewRecoveryTracker 0) (w_tracker folded_world))) folded_group.2 = true) as Ho
    by (vm_compute; reflexivity).
  pose proof (folded_group_resolves_once (H := plain_range) (H0 := demo_case) (H1 := no_json) (H2 := plain_masking)
    (H3 := accepting_sink) demo_dispatcher (demo_env (2 * Hour)) fixed_p1
    (mkRecovery (10 * Minute) (5 * Minute) ResolutionRecovered (2 * Hour) 0) folded_world
    (default (NewRecoveryTracker 0) (w_tracker folded_world)) "s0" folded_group.1 folded_group.2
    eq_refl eq_refl eq_refl eq_refl Ht Hl Hg) as Hr.
  cbv zeta in Hr. rewrite Ho in Hr. destruct Hr as [Hc _]. exact Hc.
Defined.

(** ** Late storm members *)

Definition storm_world : world := demo_world <| w_storm := match NewStormCorrelator Minute 3 true with inr c => Some c | inl _ => None end |>.

(** p1, p2 and p3 of one Deployment fail in a row and form a storm, p4 joins it late;
    then p4 fails once more. [message] and [reason] are the same for all. *)
Definition storm_story (reason message : string) : world :=
  let fail uid t w := demo_dispatch t (pod_event uid reason message t) w in
  fail "p4" (Hour + 5 * Second) (fail "p4" (Hour + 4 * Second) (fail "p3" (Hour + 3 * Second)
    (fail "p2" (Hour + 2 * Second) (fail "p1" (Hour + Second) storm_world)))).

(** The incident sessions opened for one pod. *)
Definition opened_for (uid : string) (calls : list call) : nat :=
  length (List.filter (fun c => match c with CallOpen _ (WPayload p) => pl_UID p ==s uid | _ => false end) calls).

(** A late storm member whose key is canonicalized by its message is not bound to
    the storm. The storm handlers bind a member by the signal's raw key, and dedup
    completes that key's reason but not by message; an image-pull BackOff lives under
    ImagePullBackOff instead, so its entry stays without the storm's session and the
    pod's next event opens a session of its own, for an object whose storm has one.
    With a reason that is already canonical the same story opens none. *)
Theorem late_pull_member_opens_own_session :
  let pulls := storm_story "BackOff" "Back-off pulling image registry.example/web:1" in
  let crashes := storm_story "CrashLoopBackOff" "back-off restarting failed container" in
  opened_for "p4" (w_calls pulls) = 1%nat /\ opened_for "p4" (w_calls crashes) = 0%nat /\
  LookupSession (mkEventKey "p4" "CrashLoopBackOff") (w_dedup crashes) = Some "s2".
Proof. vm_compute. done. Qed.
