(* ===== verification/GoSort.v ===== *)
(** Go's [sort], [encoding/binary] and [container/heap] packages as the program uses them:
    binary search, unsigned varints, and a binary heap in a slice. *)
From S2P Require Import Prelude GoStrings.
From Stdlib Require Import Ascii.

(** ** [sort.Search]

    [i, j := 0, n; for i < j { h := (i+j)/2; if !f(h) { i = h+1 } else { j = h } }];
    the interval shrinks at every turn, so [n] turns are enough. *)
Fixpoint search_loop (fuel : nat) (f : nat -> bool) (i j : nat) : nat :=
  match fuel with
  | O => i
  | S fuel =>
      if (i <? j)%nat then
        let h := ((i + j) / 2)%nat in
        if negb (f h) then search_loop fuel f (S h) j else search_loop fuel f i h
      else i
  end.

Definition Search (n : nat) (f : nat -> bool) : nat := search_loop n f 0 n.

Lemma search_loop_spec fuel f i j :
  (j - i <= fuel)%nat -> (i <= j)%nat ->
  (forall a b, (i <= a)%nat -> (a <= b)%nat -> (b < j)%nat -> f a = true -> f b = true) ->
  let r := search_loop fuel f i j in
  (i <= r <= j)%nat /\ (forall k, (i <= k)%nat -> (k < r)%nat -> f k = false) /\
  (forall k, (r <= k)%nat -> (k < j)%nat -> f k = true).
Proof.
  revert i j; induction fuel as [|fuel IH]; intros i j Hf Hij Hmono; cbn [search_loop]; cbv zeta.
  - repeat split; intros; lia.
  - destruct (Nat.ltb_spec i j); [|repeat split; intros; lia].
    set (h := ((i + j) / 2)%nat) in *.
    assert (i <= h < j)%nat as Hh.
    { unfold h. split; [apply Nat.div_le_lower_bound; lia|apply Nat.Div0.div_lt_upper_bound; lia]. }
    destruct (f h) eqn:E; cbn [negb].
    + destruct (IH i h) as (Hr & Hlo & Hhi); [lia|lia| |].
      { intros a b ????. apply (Hmono a b); auto; lia. }
      split; [lia|]. split; [auto|]. intros k Hk Hkj.
      destruct (Nat.lt_ge_cases k h); [by apply Hhi|]. apply (Hmono h k); auto; lia.
    + destruct (IH (S h) j) as (Hr & Hlo & Hhi); [lia|lia| |].
      { intros a b ????. apply (Hmono a b); auto; lia. }
      split; [lia|]. split; [|auto]. intros k Hk Hkr.
      destruct (Nat.lt_ge_cases h k); [by apply Hlo|].
      destruct (f k) eqn:Ek; [|done]. rewrite (Hmono k h) in E; auto; lia.
Qed.

(** The least index at which a monotone test holds. *)
Lemma Search_spec n f :
  (forall a b, (a <= b)%nat -> (b < n)%nat -> f a = true -> f b = true) ->
  (Search n f <= n)%nat /\ (forall k, (k < Search n f)%nat -> f k = false) /\
  (forall k, (Search n f <= k)%nat -> (k < n)%nat -> f k = true).
Proof.
  intros Hm. destruct (search_loop_spec n f 0 n) as (Hr & Hlo & Hhi); [lia|lia| |].
  { intros a b ????. by apply (Hm a b). }
  unfold Search. split; [lia|]. split; [|intros; apply Hhi; lia]. intros; apply Hlo; lia.
Qed.

(** ** Unsigned varints

    Bytes are [Z]s below 256. [binary.AppendUvarint] writes seven bits at a time,
    low ones first; a [uint64] takes at most ten bytes. *)

Definition MaxVarintLen64 : nat := 10.

Fixpoint put_uvarint (fuel : nat) (x : Z) : list Z :=
  match fuel with
  | O => [x]
  | S fuel => if 128 <=? x then Z.lor (Z.land x 127) 128 :: put_uvarint fuel (Z.shiftr x 7) else [x]
  end.

Definition AppendUvarint (buf : list Z) (x : Z) : list Z := buf ++ put_uvarint 9 x.

(** [binary.Uvarint]: the value and the rest of the buffer, [None] when the buffer is
    truncated or the value overflows 64 bits ([n <= 0]). *)
Fixpoint read_uvarint (i : nat) (x s : Z) (buf : list Z) : option (Z * list Z) :=
  match buf with
  | [] => None
  | b :: buf =>
      if (i =? MaxVarintLen64)%nat then None
      else if b <? 128 then
        if (i =? MaxVarintLen64 - 1)%nat && (1 <? b) then None
        else Some (Z.lor x (Z.shiftl b s), buf)
      else read_uvarint (S i) (Z.lor x (Z.shiftl (Z.land b 127) s)) (s + 7) buf
  end.

Definition Uvarint (buf : list Z) : option (Z * list Z) := read_uvarint 0 0 0 buf.

Lemma lor_low_high x y s : 0 <= s -> 0 <= x < 2 ^ s -> 0 <= y -> Z.lor x (Z.shiftl y s) = x + y * 2 ^ s.
Proof.
  intros Hs Hx Hy. rewrite <- Z.shiftl_mul_pow2 by lia. symmetry. apply Z.add_nocarry_lor.
  apply Z.bits_inj'; intros n Hn. rewrite Z.land_spec, Z.bits_0.
  destruct (Z.ltb_spec n s); [rewrite Z.shiftl_spec_low by lia; apply andb_false_r|].
  destruct (Z.eq_dec x 0) as [->|]; [by rewrite Z.bits_0|].
  rewrite (Z.bits_above_log2 x n), andb_false_l; [done|lia|]. apply Z.log2_lt_pow2; [lia|].
  eapply Z.lt_le_trans; [apply Hx|]; apply Z.pow_le_mono_r; lia.
Qed.

(** Reading back what was written, whatever follows it. *)
Lemma read_put_uvarint fuel i x acc rest :
  (i + fuel = 9)%nat -> 0 <= x < 2 ^ (64 - 7 * Z.of_nat i) -> 0 <= acc < 2 ^ (7 * Z.of_nat i) ->
  read_uvarint i acc (7 * Z.of_nat i) (put_uvarint fuel x ++ rest) = Some (acc + x * 2 ^ (7 * Z.of_nat i), rest).
Proof.
  revert i x acc; induction fuel as [|fuel IH]; intros i x acc Hi Hx Ha.
  - assert (i = 9)%nat as -> by lia. simpl in *. unfold MaxVarintLen64.
    assert (2 ^ 1 = 2) as E1 by reflexivity. 
    destruct (Z.ltb_spec x 128); [|lia]. destruct (Z.ltb_spec 1 x); [lia|]. simpl.
    f_equal. f_equal. apply lor_low_high; lia.
  - simpl put_uvarint. destruct (Z.leb_spec 128 x) as [Hbig|Hsmall].
    + cbn [app read_uvarint]. unfold MaxVarintLen64.
      destruct (Nat.eqb_spec i 10); [lia|].
      set (lo := Z.land x 127).
      assert (lo = x mod 128) as Hlo by (unfold lo; change 127 with (Z.ones 7); by rewrite Z.land_ones).
      assert (Z.lor lo 128 = lo + 128) as ->.
      { pose proof (Z.mod_pos_bound x 128 ltac:(lia)).
        change 128 with (Z.shiftl 1 7) at 1. rewrite lor_low_high; [done|lia|change (2 ^ 7) with 128; lia|lia]. }
      pose proof (Z.mod_pos_bound x 128 ltac:(lia)).
      destruct (Z.ltb_spec (lo + 128) 128); [lia|].
      assert (Z.land (lo + 128) 127 = lo) as ->.
      { change 127 with (Z.ones 7). rewrite Z.land_ones by lia. change (2 ^ 7) with 128.
        rewrite Hlo. rewrite Z.add_mod, Z.mod_same, Z.add_0_r, !Z.mod_mod by lia. done. }
      assert (7 * Z.of_nat i + 7 = 7 * Z.of_nat (S i)) as -> by lia.
      assert (2 ^ (7 * Z.of_nat (S i)) = 2 ^ (7 * Z.of_nat i) * 128) as Hp.
      { replace (7 * Z.of_nat (S i)) with (7 * Z.of_nat i + 7) by lia. rewrite Z.pow_add_r by lia. done. }
      assert (0 < 2 ^ (7 * Z.of_nat i)) by (apply Z.pow_pos_nonneg; lia).
      rewrite lor_low_high by lia. rewrite Z.shiftr_div_pow2 by lia. change (2 ^ 7) with 128.
      rewrite IH; [|lia| |nia].
      * f_equal. f_equal. rewrite Hp. pose proof (Z.div_mod x 128 ltac:(lia)). nia.
      * replace (64 - 7 * Z.of_nat i) with (64 - 7 * Z.of_nat (S i) + 7) in Hx by lia.
        rewrite Z.pow_add_r in Hx by lia. change (2 ^ 7) with 128 in Hx.
        split; [apply Z.div_pos; lia|]. apply Z.div_lt_upper_bound; lia.
    + cbn [app read_uvarint]. unfold MaxVarintLen64.
      destruct (Nat.eqb_spec i 10); [lia|]. destruct (Z.ltb_spec x 128); [|lia].
      assert ((i =? 10 - 1)%nat = false) as -> by (apply Nat.eqb_neq; lia). cbn [andb].
      rewrite lor_low_high by lia. done.
Qed.

Lemma Uvarint_append x rest : 0 <= x < 2 ^ 64 -> Uvarint (put_uvarint 9 x ++ rest) = Some (x, rest).
Proof.
  intros Hx. unfold Uvarint.
  pose proof (read_put_uvarint 9 0 x 0 rest eq_refl Hx ltac:(change (2 ^ (7 * Z.of_nat 0)) with 1; lia)) as Hr.
  change (7 * Z.of_nat 0) with 0 in Hr. rewrite Hr. change (2 ^ 0) with 1. by rewrite Z.mul_1_r.
Qed.

(** ** [container/heap]

    A binary heap in a slice, as the standard library sifts it. [less] is the caller's order.
    A slice is a list; a sift looks only at indexes inside it, so the total lookup never
    falls back on its default. *)
Module Heap.
Open Scope nat_scope.

Section heap.
Context {A : Type} `{Inhabited A} (less : A -> A -> bool).
Implicit Types h : list A.

Definition swap (i j : nat) h : list A := <[i := h !!! j]> (<[j := h !!! i]> h).

Definition parent (j : nat) : nat := (j - 1) / 2.

(** [up]: at most [fuel] levels; the index halves each time. *)
Fixpoint up (fuel : nat) (j : nat) h : list A :=
  match fuel with
  | O => h
  | S fuel =>
      let i := parent j in
      if (i =? j) || negb (less (h !!! j) (h !!! i)) then h else up fuel i (swap i j h)
  end.

(** [down] on the first [n] elements. *)
Fixpoint down (fuel : nat) (i n : nat) h : list A :=
  match fuel with
  | O => h
  | S fuel =>
      let j1 := 2 * i + 1 in
      if n <=? j1 then h
      else
        let j2 := j1 + 1 in
        let j := if (j2 <? n) && less (h !!! j2) (h !!! j1) then j2 else j1 in
        if negb (less (h !!! j) (h !!! i)) then h else down fuel j n (swap i j h)
  end.

Definition heap_Push (x : A) h : list A := let h := h ++ [x] in up (length h) (length h - 1) h.

Definition heap_Pop h : list A := let n := length h - 1 in take n (down (length h) 0 n (swap 0 n h)).

(** ** Swapping *)

Lemma length_swap i j h : length (swap i j h) = length h.
Proof. unfold swap. by rewrite !length_insert. Qed.

Lemma swap_lookup i j k h : i < length h -> j < length h ->
  swap i j h !!! k = if decide (k = i) then h !!! j else if decide (k = j) then h !!! i else h !!! k.
Proof.
  intros Hi Hj. unfold swap. destruct (decide (k = i)) as [->|Hki]; [by rewrite list_lookup_total_insert_eq by (by rewrite length_insert)|].
  rewrite list_lookup_total_insert_ne by done. destruct (decide (k = j)) as [->|Hkj]; [by rewrite list_lookup_total_insert_eq|].
  by rewrite list_lookup_total_insert_ne.
Qed.

Lemma swap_perm i j h : i < length h -> j < length h -> swap i j h ≡ₚ h.
Proof.
  intros Hi Hj. unfold swap. apply Permutation_insert_swap; by apply list_lookup_lookup_total_lt.
Qed.

Lemma up_perm fuel j h : j < length h -> up fuel j h ≡ₚ h /\ length (up fuel j h) = length h.
Proof.
  revert j h. induction fuel as [|fuel IH]; intros j h Hj; [done|]. cbn [up]. case_match; [done|].
  assert (parent j < length h) as Hi by (unfold parent; pose proof (Nat.Div0.div_le_upper_bound (j - 1) 2 j); lia).
  destruct (IH (parent j) (swap (parent j) j h)) as [Hp Hl]; [by rewrite length_swap|]. split; [rewrite Hp; by apply swap_perm|by rewrite Hl, length_swap].
Qed.

Lemma down_perm fuel i n h : i < n -> n <= length h ->
  down fuel i n h ≡ₚ h /\ length (down fuel i n h) = length h /\ forall k, n <= k -> down fuel i n h !!! k = h !!! k.
Proof.
  revert i h. induction fuel as [|fuel IH]; intros i h Hi Hn; [done|]. cbn [down]. destruct (n <=? 2 * i + 1) eqn:Hj1; [done|]. apply Nat.leb_gt in Hj1.
  set (j := if _ && _ then 2 * i + 1 + 1 else 2 * i + 1). assert (i < j < n) as Hj by (unfold j; case_match eqn:E; [apply andb_prop in E as [E _]; apply Nat.ltb_lt in E|]; lia).
  case_match; [done|]. destruct (IH j (swap i j h)) as (Hp & Hl & Hk); [lia|by rewrite length_swap|]. split; [rewrite Hp; apply swap_perm; lia|].
  split; [by rewrite Hl, length_swap|]. intros k Hk'. rewrite Hk, swap_lookup by lia. repeat (rewrite decide_False by lia). done.
Qed.

(** ** Order *)

(** [less] is a strict weak order: [le] below is a total preorder. *)
Definition le (a b : A) : Prop := less b a = false.

Context (le_trans : forall a b c, le a b -> le b c -> le a c) (less_le : forall a b, less a b = true -> le a b).

(** No element of the first [n] is less than its parent. *)
Definition is_heap (n : nat) h : Prop := forall k, 0 < k < n -> le (h !!! parent k) (h !!! k).

Lemma parent_lt k : 0 < k -> parent k < k.
Proof. intros Hk. unfold parent. pose proof (Nat.Div0.div_lt_upper_bound (k - 1) 2 k). lia. Qed.

Lemma parent_child k i : 0 < k -> parent k = i <-> k = 2 * i + 1 \/ k = 2 * i + 2.
Proof. intros Hk. unfold parent. pose proof (Nat.div_mod_eq (k - 1) 2). pose proof (Nat.mod_upper_bound (k - 1) 2). lia. Qed.

Lemma le_refl a : le a a.
Proof. unfold le. destruct (less a a) eqn:E; [|done]. apply less_le in E as E'. unfold le in E'. congruence. Qed.

(** The root is the least. *)
Lemma heap_root n h k : is_heap n h -> k < n -> le (h !!! 0) (h !!! k).
Proof.
  intros Hh. induction k as [k IH] using lt_wf_ind. intros Hk. destruct (decide (k = 0)) as [->|Hk0]; [apply le_refl|].
  eapply le_trans; [|apply Hh; lia]. apply IH; [apply parent_lt; lia|]. pose proof (parent_lt k). lia.
Qed.

(** A heap but at [j], whose children are above its parent. *)
Definition heap_but_up (j : nat) h : Prop :=
  (forall k, 0 < k < length h -> k <> j -> le (h !!! parent k) (h !!! k)) /\
  (forall k, 0 < k < length h -> 0 < j -> parent k = j -> le (h !!! parent j) (h !!! k)).

Lemma up_heap fuel j h : j < fuel -> j < length h -> heap_but_up j h -> is_heap (length h) (up fuel j h).
Proof.
  revert j h. induction fuel as [|fuel IH]; intros j h Hf Hj [Hh Hg]; [lia|]. cbn [up].
  destruct (decide (j = 0)) as [->|Hj0].
  { rewrite (proj2 (Nat.eqb_eq _ _)) by done. cbn. intros k Hk. apply Hh; lia. }
  pose proof (parent_lt j ltac:(lia)) as Hlt. rewrite (proj2 (Nat.eqb_neq _ _)) by lia. cbn [orb]. destruct (less (h !!! j) (h !!! parent j)) eqn:Hless; cbn [negb].
  - rewrite <- (length_swap (parent j) j h). apply IH; [lia|rewrite length_swap; lia|]. apply less_le in Hless.
    assert (forall k, swap (parent j) j h !!! k = if decide (k = parent j) then h !!! j else if decide (k = j) then h !!! parent j else h !!! k) as Hs
      by (intros; apply swap_lookup; lia).
    unfold heap_but_up. rewrite length_swap. split.
    + intros k Hk Hki. rewrite !Hs. rewrite (decide_False (P := k = parent j)) by done. destruct (decide (k = j)) as [->|Hkj]; [by rewrite decide_True|].
      destruct (decide (parent k = parent j)) as [Hp|Hp]; [eapply le_trans; [done|]; rewrite <- Hp; by apply Hh|].
      destruct (decide (parent k = j)); [apply Hg; auto with lia|]. by apply Hh.
    + intros k Hk Hi Hp. rewrite !Hs. pose proof (parent_lt (parent j) Hi). pose proof (parent_lt k ltac:(lia)).
      rewrite (decide_False (P := parent (parent j) = parent j)), (decide_False (P := parent (parent j) = j)), (decide_False (P := k = parent j)) by lia.
      assert (le (h !!! parent (parent j)) (h !!! parent j)) as Hpp by (apply Hh; lia).
      destruct (decide (k = j)) as [->|Hkj]; [done|]. eapply le_trans; [exact Hpp|]. rewrite <- Hp. by apply Hh.
  - intros k Hk. destruct (decide (k = j)) as [->|Hkj]; [done|]. by apply Hh.
Qed.

(** A heap but below [i], whose children are above its parent. *)
Definition heap_but_down (i n : nat) h : Prop :=
  (forall k, 0 < k < n -> parent k <> i -> le (h !!! parent k) (h !!! k)) /\
  (forall k, 0 < k < n -> 0 < i -> parent k = i -> le (h !!! parent i) (h !!! k)).

Lemma down_heap fuel i n h : n <= fuel + i -> i < n -> n <= length h -> heap_but_down i n h -> is_heap n (down fuel i n h).
Proof.
  revert i h. induction fuel as [|fuel IH]; intros i h Hf Hi Hn [Hh Hg]; [lia|]. cbn [down].
  destruct (n <=? 2 * i + 1) eqn:Hj1.
  { apply Nat.leb_le in Hj1. intros k Hk. apply Hh; [done|]. intros Hp. apply parent_child in Hp; lia. }
  apply Nat.leb_gt in Hj1. set (j := if _ && _ then 2 * i + 1 + 1 else 2 * i + 1).
  assert (i < j < n /\ parent j = i /\ forall k, 0 < k < n -> parent k = i -> le (h !!! j) (h !!! k)) as (Hj & Hpj & Hmin).
  { unfold j. destruct (2 * i + 1 + 1 <? n) eqn:Hj2; cbn [andb].
    - apply Nat.ltb_lt in Hj2. destruct (less _ _) eqn:Hl.
      + split; [lia|]. split; [apply parent_child; lia|]. intros k Hk [->| ->]%parent_child; [by apply less_le|replace (2 * i + 2) with (2 * i + 1 + 1) by lia; apply le_refl|lia].
      + split; [lia|]. split; [apply parent_child; lia|]. intros k Hk [->| ->]%parent_child; [apply le_refl|replace (2 * i + 2) with (2 * i + 1 + 1) by lia; done|lia].
    - apply Nat.ltb_ge in Hj2. split; [lia|]. split; [apply parent_child; lia|]. intros k Hk [->| ->]%parent_child; [apply le_refl|lia..]. }
  clearbody j. destruct (less (h !!! j) (h !!! i)) eqn:Hless; cbn [negb].
  - apply IH; [lia..|rewrite length_swap; lia|]. apply less_le in Hless.
    assert (forall k, swap i j h !!! k = if decide (k = i) then h !!! j else if decide (k = j) then h !!! i else h !!! k) as Hs by (intros; apply swap_lookup; lia).
    split.
    + intros k Hk Hki. rewrite !Hs. pose proof (parent_lt k ltac:(lia)). rewrite (decide_False (P := parent k = j)) by done.
      destruct (decide (parent k = i)) as [Hp|Hp].
      * rewrite (decide_False (P := k = i)) by lia. destruct (decide (k = j)); [done|]. by apply Hmin.
      * destruct (decide (k = i)) as [->|Hki']; [apply Hg; [lia|lia|done]|]. destruct (decide (k = j)) as [->|Hkj]; [done|]. by apply Hh.
    + intros k Hk _ Hp. rewrite !Hs, Hpj. pose proof (parent_lt k ltac:(lia)). rewrite (decide_True (P := i = i)), (decide_False (P := k = i)), (decide_False (P := k = j)) by lia.
      rewrite <- Hp. apply Hh; lia.
  - intros k Hk. destruct (decide (parent k = i)) as [Hp|Hp]; [|by apply Hh]. rewrite Hp. eapply le_trans; [|by apply Hmin]. done.
Qed.

(** ** The operations *)

(** [heap.Push] adds the element and keeps the heap. *)
Lemma heap_Push_ok x h : is_heap (length h) h -> heap_Push x h ≡ₚ x :: h /\ is_heap (length (heap_Push x h)) (heap_Push x h).
Proof.
  intros Hh. unfold heap_Push. set (h' := h ++ [x]). assert (length h' = S (length h)) as Hl by (unfold h'; rewrite length_app; cbn; lia).
  destruct (up_perm (length h') (length h' - 1) h' ltac:(lia)) as [Hp Hup]. rewrite Hup. split; [rewrite Hp; unfold h'; by rewrite Permutation_app_comm|].
  apply up_heap; [lia..|]. rewrite Hl. replace (S (length h) - 1) with (length h) by lia. unfold heap_but_up. rewrite Hl. split.
  - intros k Hk Hne. pose proof (parent_lt k ltac:(lia)). unfold h'. rewrite !lookup_total_app_l by lia. apply Hh. lia.
  - intros k Hk _ Hp'. pose proof (parent_lt k ltac:(lia)). lia.
Qed.

(** [heap.Pop] takes the root out and keeps the heap. *)
Lemma heap_Pop_ok x h : is_heap (length (x :: h)) (x :: h) -> heap_Pop (x :: h) ≡ₚ h /\ is_heap (length (heap_Pop (x :: h))) (heap_Pop (x :: h)).
Proof.
  intros Hh. unfold heap_Pop. cbn [length]. replace (S (length h) - 1) with (length h) by lia. set (n := length h).
  destruct (decide (n = 0)) as [Hn|Hn]; [apply nil_length_inv in Hn as Hn'; rewrite Hn; subst h; cbn; split; [done|]; intros k Hk; lia|].
  set (h' := swap 0 n (x :: h)). assert (length h' = S n) as Hl by (unfold h'; by rewrite length_swap).
  destruct (down_perm (S n) 0 n h' ltac:(lia) ltac:(lia)) as (Hp & Hlen & Hk).
  assert (take n (down (S n) 0 n h') ++ [x] ≡ₚ x :: h) as Hperm.
  { transitivity h'; [|apply swap_perm; cbn; unfold n; lia]. transitivity (down (S n) 0 n h'); [|done]. rewrite <- (take_drop n (down (S n) 0 n h')) at 2.
    replace (drop n (down (S n) 0 n h')) with [x]; [done|]. pose proof (Hk n ltac:(lia)) as Hx. unfold h' in Hx at 2. rewrite swap_lookup in Hx by (cbn; unfold n; lia).
    rewrite decide_False, decide_True in Hx by lia. change ((x :: h) !!! 0) with x in Hx. rewrite (drop_S _ x n); [rewrite drop_ge by lia; done|]. rewrite <- Hx. apply list_lookup_lookup_total_lt. lia. }
  split; [rewrite Permutation_app_comm in Hperm; by apply Permutation_cons_inv in Hperm|].
  rewrite length_take, Hlen, Hl. replace (n `min` S n) with n by lia.
  assert (is_heap n (down (S n) 0 n h')) as Hd.
  { apply down_heap; [lia..|]. split; [|lia]. intros k Hk' Hp0. unfold h'. pose proof (parent_lt k ltac:(lia)). rewrite !swap_lookup by (cbn; unfold n in *; lia).
    rewrite !(decide_False) by lia. apply Hh. cbn. unfold n in *. lia. }
  intros k Hk'. pose proof (parent_lt k ltac:(lia)). rewrite !lookup_total_take, !decide_True by lia. by apply Hd.
Qed.
End heap.
End Heap.
