(* ===== verification/GraphTypes.v ===== *)
(** Identities of the topology graph (src/pkg/graph/types.go, interner.go): typed kinds,
    identity keys, interned NodeIDs. *)
From S2P Require Import Prelude GoStrings.
From Stdlib Require Import Ascii.

(** ** Kinds *)

(** Compact node identity; the interner hands out 1, 2, 3, ... and refuses (panics)
    before the numbers outgrow 32 bits, so they are not wrapped. *)
Notation NodeID := Z (only parsing).
Definition NoNode : NodeID := 0.

Inductive NodeKind :=
  | KindUnknown | KindNamespace | KindNode | KindZone | KindPod | KindContainer | KindService | KindEndpointSlice
  | KindIngress | KindNetworkPolicy | KindConfigMap | KindSecret | KindPersistentVolumeClaim | KindDeployment
  | KindReplicaSet | KindStatefulSet | KindDaemonSet | KindJob | KindCronJob.

Definition all_node_kinds : list NodeKind :=
  [KindUnknown; KindNamespace; KindNode; KindZone; KindPod; KindContainer; KindService; KindEndpointSlice;
   KindIngress; KindNetworkPolicy; KindConfigMap; KindSecret; KindPersistentVolumeClaim; KindDeployment;
   KindReplicaSet; KindStatefulSet; KindDaemonSet; KindJob; KindCronJob].

(** The kind's number (a [uint8] counted by [iota]) and back. *)
Definition kind_byte (k : NodeKind) : Z :=
  match k with
  | KindUnknown => 0 | KindNamespace => 1 | KindNode => 2 | KindZone => 3 | KindPod => 4 | KindContainer => 5
  | KindService => 6 | KindEndpointSlice => 7 | KindIngress => 8 | KindNetworkPolicy => 9 | KindConfigMap => 10
  | KindSecret => 11 | KindPersistentVolumeClaim => 12 | KindDeployment => 13 | KindReplicaSet => 14
  | KindStatefulSet => 15 | KindDaemonSet => 16 | KindJob => 17 | KindCronJob => 18
  end.
Definition numNodeKinds : Z := 19.
Definition kind_of_byte (b : Z) : option NodeKind := if b <? 0 then None else all_node_kinds !! Z.to_nat b.

#[global] Instance NodeKind_eq_dec : EqDecision NodeKind.
Proof. solve_decision. Defined.

Lemma kind_of_byte_byte k : kind_of_byte (kind_byte k) = Some k.
Proof. by destruct k. Qed.

#[global] Program Instance NodeKind_countable : Countable NodeKind :=
  inj_countable kind_byte kind_of_byte _.
Next Obligation. apply kind_of_byte_byte. Qed.

Definition NodeKind_String (k : NodeKind) : string :=
  match k with
  | KindUnknown => "Unknown" | KindNamespace => "Namespace" | KindNode => "Node" | KindZone => "Zone"
  | KindPod => "Pod" | KindContainer => "Container" | KindService => "Service"
  | KindEndpointSlice => "EndpointSlice" | KindIngress => "Ingress" | KindNetworkPolicy => "NetworkPolicy"
  | KindConfigMap => "ConfigMap" | KindSecret => "Secret" | KindPersistentVolumeClaim => "PersistentVolumeClaim"
  | KindDeployment => "Deployment" | KindReplicaSet => "ReplicaSet" | KindStatefulSet => "StatefulSet"
  | KindDaemonSet => "DaemonSet" | KindJob => "Job" | KindCronJob => "CronJob"
  end.

Definition AllKinds : list NodeKind := drop 1 all_node_kinds.

Inductive EdgeKind :=
  | EdgeInvalid | EdgeRoutesTo | EdgeSelects | EdgeGoverns | EdgeRunsOn | EdgeContains | EdgeMounts | EdgeOwns.

Definition all_edge_kinds : list EdgeKind :=
  [EdgeInvalid; EdgeRoutesTo; EdgeSelects; EdgeGoverns; EdgeRunsOn; EdgeContains; EdgeMounts; EdgeOwns].

Definition edge_byte (k : EdgeKind) : Z :=
  match k with
  | EdgeInvalid => 0 | EdgeRoutesTo => 1 | EdgeSelects => 2 | EdgeGoverns => 3 | EdgeRunsOn => 4
  | EdgeContains => 5 | EdgeMounts => 6 | EdgeOwns => 7
  end.
Definition edge_of_byte (b : Z) : option EdgeKind := if b <? 0 then None else all_edge_kinds !! Z.to_nat b.

#[global] Instance EdgeKind_eq_dec : EqDecision EdgeKind.
Proof. solve_decision. Defined.

Lemma edge_of_byte_byte k : edge_of_byte (edge_byte k) = Some k.
Proof. by destruct k. Qed.
Lemma edge_byte_inj k k' : edge_byte k = edge_byte k' -> k = k'.
Proof. by destruct k, k'. Qed.

#[global] Program Instance EdgeKind_countable : Countable EdgeKind :=
  inj_countable edge_byte edge_of_byte _.
Next Obligation. apply edge_of_byte_byte. Qed.

(** An adjacency entry: of [out], "this node --Kind--> To"; of [in], "To --Kind--> this
    node". *)
Record Edge := mkEdge { ed_To : NodeID; ed_Kind : EdgeKind }.
#[global] Instance Edge_eq_dec : EqDecision Edge.
Proof. solve_decision. Defined.

Record Ref := mkRef {
  ref_ID : NodeID;
  ref_Kind : NodeKind;
  ref_Namespace : string;
  ref_Name : string;
  ref_Observed : bool
}.

Record nodeInfo := mkNodeInfo { ni_kind : NodeKind; ni_observed : bool; ni_ns : NodeID }.
Definition zero_info : nodeInfo := mkNodeInfo KindUnknown false NoNode.

(** ** Identity keys *)

Definition nodeKey (kind : NodeKind) (namespace name : string) : string :=
  NodeKind_String kind +:+ "/" +:+ namespace +:+ "/" +:+ name.

Definition splitKey (key : string) : string * string :=
  match cut_byte "/" key with
  | None => ("", key)
  | Some (_, rest) =>
      match cut_byte "/" rest with
      | None => ("", rest)
      | Some (namespace, name) => (namespace, name)
      end
  end.

Definition no_slash (s : string) : Prop := contains_byte "/" s = false.

Lemma cut_slash a b : no_slash a -> cut_byte "/" (a +:+ "/" +:+ b) = Some (a, b).
Proof. intros Ha. by apply cut_byte_Some. Qed.

Lemma kind_no_slash k : no_slash (NodeKind_String k).
Proof. by destruct k. Qed.

Lemma splitKey_nodeKey kind namespace name :
  no_slash namespace -> splitKey (nodeKey kind namespace name) = (namespace, name).
Proof.
  intros Hn. unfold splitKey, nodeKey. rewrite cut_slash by apply kind_no_slash.
  by rewrite cut_slash.
Qed.

(** A key names one identity. *)
Lemma nodeKey_inj k k' ns ns' n n' : no_slash ns -> no_slash ns' ->
  nodeKey k ns n = nodeKey k' ns' n' -> k = k' /\ ns = ns' /\ n = n'.
Proof.
  intros Hns Hns' E.
  assert (NodeKind_String k = NodeKind_String k') as Ek.
  { pose proof (cut_slash (NodeKind_String k) (ns +:+ "/" +:+ n) (kind_no_slash k)) as H1.
    pose proof (cut_slash (NodeKind_String k') (ns' +:+ "/" +:+ n') (kind_no_slash k')) as H2.
    unfold nodeKey in E. rewrite E, H2 in H1. congruence. }
  split; [by destruct k, k'|].
  pose proof (splitKey_nodeKey k ns n Hns) as H1. pose proof (splitKey_nodeKey k' ns' n' Hns') as H2.
  rewrite E, H2 in H1. by simplify_eq.
Qed.

Lemma nodeKey_nonempty k ns n : nodeKey k ns n <> "".
Proof. by destruct k. Qed.

(** ** The interner *)

Record interner := mkInterner {
  in_ids : gmap string NodeID;
  in_keys : list string;
  in_epoch : Z
}.
Definition zero_interner : interner := mkInterner ∅ [] 0.

Definition intern (key : string) (i : interner) : NodeID * interner :=
  match in_ids i !! key with
  | Some id => (id, i)
  | None =>
      let id := Z.of_nat (length (in_keys i)) + 1 in
      (id, i <| in_ids ::= <[key := id]> |> <| in_keys ::= fun l => l ++ [key] |>)
  end.

(** [s.keys[id-1]] *)
Definition key_at (keys : list string) (id : NodeID) : option string :=
  if id <? 1 then None else keys !! Z.to_nat (id - 1).

(** The two directions of the table agree. *)
Definition interner_ok (i : interner) : Prop :=
  forall key id, in_ids i !! key = Some id <-> key_at (in_keys i) id = Some key.

Lemma key_at_snoc keys key id :
  key_at (keys ++ [key]) id =
  if bool_decide (id = Z.of_nat (length keys) + 1) then Some key else key_at keys id.
Proof.
  unfold key_at. destruct (Z.ltb_spec id 1) as [|Hid]; case_bool_decide as E; [lia|done| |].
  - rewrite list_lookup_middle; [done|lia].
  - destruct (decide (Z.to_nat (id - 1) < length keys)%nat); [by apply lookup_app_l|].
    rewrite !lookup_ge_None_2; [done|lia|rewrite length_app; simpl; lia].
Qed.

Lemma key_at_range keys id key : key_at keys id = Some key -> 1 <= id <= Z.of_nat (length keys).
Proof. unfold key_at. destruct (Z.ltb_spec id 1); [done|]. intros ?%lookup_lt_Some. lia. Qed.

Lemma key_at_is_Some keys id : 1 <= id <= Z.of_nat (length keys) -> is_Some (key_at keys id).
Proof. intros. unfold key_at. destruct (Z.ltb_spec id 1); [lia|]. apply lookup_lt_is_Some_2. lia. Qed.

Lemma zero_interner_ok : interner_ok zero_interner.
Proof. intros key id. simpl. rewrite lookup_empty. unfold key_at. destruct (_ <? _); done. Qed.

(** Interning a key: it has the id it gets, the table stays in agreement and earlier
    identities keep theirs. *)
Lemma intern_spec key i : interner_ok i ->
  let r := intern key i in
  interner_ok r.2 /\ in_ids r.2 !! key = Some r.1 /\
  (forall k id, in_ids i !! k = Some id -> in_ids r.2 !! k = Some id) /\
  in_keys r.2 = (if bool_decide (in_ids i !! key = None) then in_keys i ++ [key] else in_keys i).
Proof.
  intros Hok. unfold intern. destruct (in_ids i !! key) as [id|] eqn:E; simpl.
  - auto.
  - split; [|split; [by rewrite lookup_insert_eq|split; [|done]]].
    + intros k id. simpl. rewrite key_at_snoc. case_bool_decide as Ei; subst.
      * destruct (decide (k = key)) as [->|Hne]; [by rewrite lookup_insert_eq|].
        rewrite lookup_insert_ne by done. split; [|congruence]. intros Hk.
        apply Hok, key_at_range in Hk. lia.
      * destruct (decide (k = key)) as [->|Hne].
        { rewrite lookup_insert_eq. split; [congruence|]. intros Hk%Hok. congruence. }
        rewrite lookup_insert_ne by done. apply Hok.
    + intros k id Hk. rewrite lookup_insert_ne; [done|]. intros ->. congruence.
Qed.
