(* ===== verification/GraphChanges.v ===== *)
(** The objects the topology graph ingests and the changed-field summaries it logs
    (src/pkg/graph/changes.go).

    The objects are the Kubernetes API types of k8s.io/api, with the fields the graph
    reads. Label selectors are k8s.io/apimachinery's: their matching is the class
    [LabelLib], of which nothing is assumed. *)
From S2P Require Import Prelude GoStrings GoHash GoFmt GraphTypes.
From stdpp Require Import sorting.
From Stdlib Require Import Ascii.
Open Scope Z_scope.
Open Scope lookout_scope.

Notation Labels := (gmap string string) (only parsing).

(** A label selector is what it matches. [AsSelector] is
    [metav1.LabelSelectorAsSelector] (None: an unparseable selector), [FromSet] is
    [labels.SelectorFromSet]. *)
Class LabelLib := {
  LabelSelector : Type;
  AsSelector : LabelSelector -> option (Labels -> bool);
  FromSet : Labels -> Labels -> bool
}.

(** ** Objects *)

Record OwnerReference := mkOwner { or_Kind : string; or_Name : string }.

Record ObjectMeta := mkMeta {
  om_Namespace : string;
  om_Name : string;
  om_UID : string;
  om_Labels : Labels;
  om_OwnerReferences : list OwnerReference
}.

(** References by name; a nil pointer is [None]. *)
Record ConfigRefs := mkRefs { cr_ConfigMap : option string; cr_Secret : option string }.

Record Container := mkContainer {
  ct_Name : string;
  ct_Image : string;
  ct_Env : list (option ConfigRefs); (** per variable, its ValueFrom *)
  ct_EnvFrom : list ConfigRefs
}.

Record Volume := mkVolume {
  vo_ConfigMap : option string;
  vo_Secret : option string;
  vo_PersistentVolumeClaim : option string;
  vo_Projected : option (list ConfigRefs)
}.

Record PodSpec := mkPodSpec {
  ps_NodeName : string;
  ps_InitContainers : list Container;
  ps_Containers : list Container;
  ps_Volumes : list Volume
}.

(** An endpoint's targetRef: kind and name. *)
Notation TargetRef := (option (string * string)) (only parsing).
(** A backend's service name; [None] when the backend or its service is nil. *)
Notation Backend := (option string) (only parsing).

Inductive kobj `{LabelLib} :=
  | OPod (m : ObjectMeta) (spec : PodSpec)
  | OService (m : ObjectMeta) (selector : Labels)
  | ONode (m : ObjectMeta) (unschedulable : bool)
  | ONamespace (m : ObjectMeta)
  | OConfigMap (m : ObjectMeta) (data binaryData : gmap string string)
  | OSecret (m : ObjectMeta) (data stringData : gmap string string)
  | OPersistentVolumeClaim (m : ObjectMeta)
  | ODeployment (m : ObjectMeta) (replicas : option Z)
  | OReplicaSet (m : ObjectMeta) (replicas : option Z)
  | OStatefulSet (m : ObjectMeta) (replicas : option Z)
  | ODaemonSet (m : ObjectMeta)
  | OJob (m : ObjectMeta)
  | OCronJob (m : ObjectMeta)
  | OEndpointSlice (m : ObjectMeta) (endpoints : list TargetRef)
  | OIngress (m : ObjectMeta) (defaultBackend : Backend) (rules : list (option (list Backend)))
  | ONetworkPolicy (m : ObjectMeta) (podSelector : LabelSelector).

Section objects.
Context `{LabelLib}.

Definition obj_meta (o : kobj) : ObjectMeta :=
  match o with
  | OPod m _ | OService m _ | ONode m _ | ONamespace m | OConfigMap m _ _ | OSecret m _ _
  | OPersistentVolumeClaim m | ODeployment m _ | OReplicaSet m _ | OStatefulSet m _ | ODaemonSet m | OJob m
  | OCronJob m | OEndpointSlice m _ | OIngress m _ _ | ONetworkPolicy m _ => m
  end.

Definition obj_kind (o : kobj) : NodeKind :=
  match o with
  | OPod _ _ => KindPod
  | OService _ _ => KindService
  | ONode _ _ => KindNode
  | ONamespace _ => KindNamespace
  | OConfigMap _ _ _ => KindConfigMap
  | OSecret _ _ _ => KindSecret
  | OPersistentVolumeClaim _ => KindPersistentVolumeClaim
  | ODeployment _ _ => KindDeployment
  | OReplicaSet _ _ => KindReplicaSet
  | OStatefulSet _ _ => KindStatefulSet
  | ODaemonSet _ => KindDaemonSet
  | OJob _ => KindJob
  | OCronJob _ => KindCronJob
  | OEndpointSlice _ _ => KindEndpointSlice
  | OIngress _ _ _ => KindIngress
  | ONetworkPolicy _ _ => KindNetworkPolicy
  end.

(** [objectIdentity]: kind, namespace, name, UID. *)
Definition objectIdentity (o : kobj) : NodeKind * string * string * string :=
  let m := obj_meta o in (obj_kind o, om_Namespace m, om_Name m, om_UID m).
End objects.

(** ** Deltas and change records *)

Inductive Op := OpAdd | OpUpdate | OpDelete.
#[global] Instance Op_eq_dec : EqDecision Op.
Proof. solve_decision. Defined.

Definition Op_String (op : Op) : string :=
  match op with OpAdd => "add" | OpUpdate => "update" | OpDelete => "delete" end.

Record FieldChange := mkFieldChange { fch_Path : string; fch_From : string; fch_To : string }.

Record ChangeRecord := mkChangeRecord {
  ch_At : Z;
  ch_Generation : Z;
  ch_Op : Op;
  ch_Kind : NodeKind;
  ch_Namespace : string;
  ch_Name : string;
  ch_UID : string;
  ch_FieldChanges : list FieldChange;
  ch_Effect : list Z
}.

(** ** The tracked fingerprint of an object *)

Record trackedState := mkTracked {
  ts_labels : gmap string string;
  ts_images : gmap string string;
  ts_mounts : gmap string bool;
  ts_replicas : Z;
  ts_hasReplicas : bool;
  ts_unschedulable : bool;
  ts_hasSched : bool;
  ts_contentHash : string
}.

(** [fnv.New32a] *)
Definition fnv32a (bs : list Z) : Z :=
  fold_left (fun h b => (Z.lxor h b * 16777619) mod 2 ^ 32) bs 2166136261.

Definition shortHash (v : string) : string := hex_encode (SHA256.be_bytes 4 (fnv32a (bytes_of v))).
Definition hashLabels (labels : Labels) : gmap string string := shortHash <$> labels.

Definition replicasOrDefault (r : option Z) : Z := default 1 r.

(** The content hash of two data maps under the prefixes [p] and [q]. *)
Definition content_hash (p q : string) (data more : gmap string string) : string :=
  let entries := ((fun '(k, v) => (p +:+ k, v)) <$> map_to_list data) ++
                 ((fun '(k, v) => (q +:+ k, v)) <$> map_to_list more) in
  let sorted := merge_sort (fun a b => String.le a.1 b.1) entries in
  String.substring 0 16 (hex_encode (SHA256.sum
    (concat ((fun '(k, v) => bytes_of k ++ [0] ++ bytes_of v ++ [0]) <$> sorted)))).

Definition hashConfigMap (data binaryData : gmap string string) : string := content_hash "d:" "b:" data binaryData.
Definition hashSecret (data stringData : gmap string string) : string := content_hash "d:" "s:" data stringData.

(** The ConfigMap and Secret of one reference pair, in the order the code visits them. *)
Definition ref_mounts (r : ConfigRefs) : list (NodeKind * string) :=
  (match cr_ConfigMap r with Some n => [(KindConfigMap, n)] | None => [] end) ++
  (match cr_Secret r with Some n => [(KindSecret, n)] | None => [] end).

(** What one container references: env, then envFrom. *)
Definition container_refs (c : Container) : list (NodeKind * string) :=
  concat ((fun vf => match vf with Some r => ref_mounts r | None => [] end) <$> ct_Env c) ++
  concat (ref_mounts <$> ct_EnvFrom c).

(** What one volume references. *)
Definition volume_refs (v : Volume) : list (NodeKind * string) :=
  match vo_ConfigMap v, vo_Secret v, vo_PersistentVolumeClaim v, vo_Projected v with
  | Some n, _, _, _ => [(KindConfigMap, n)]
  | None, Some n, _, _ => [(KindSecret, n)]
  | None, None, Some n, _ => [(KindPersistentVolumeClaim, n)]
  | None, None, None, Some srcs => concat (ref_mounts <$> srcs)
  | None, None, None, None => []
  end.

Definition pod_containers (spec : PodSpec) : list Container := ps_InitContainers spec ++ ps_Containers spec.

Definition podMountRefs (spec : PodSpec) : gmap string bool :=
  let refs := concat (container_refs <$> pod_containers spec) ++ concat (volume_refs <$> ps_Volumes spec) in
  foldl (fun m '(k, n) => if n <>s "" then <[NodeKind_String k +:+ "/" +:+ n := true]> m else m) ∅ refs.

Definition newTrackedState `{LabelLib} (o : kobj) : trackedState :=
  let st := mkTracked (hashLabels (om_Labels (obj_meta o))) ∅ ∅ 0 false false false "" in
  match o with
  | OPod _ spec =>
      st <| ts_images := foldl (fun m c => <[ct_Name c := ct_Image c]> m) ∅ (pod_containers spec) |>
         <| ts_mounts := podMountRefs spec |>
  | ODeployment _ r | OReplicaSet _ r | OStatefulSet _ r =>
      st <| ts_replicas := replicasOrDefault r |> <| ts_hasReplicas := true |>
  | ONode _ u => st <| ts_unschedulable := u |> <| ts_hasSched := true |>
  | OConfigMap _ d b => st <| ts_contentHash := hashConfigMap d b |>
  | OSecret _ d s => st <| ts_contentHash := hashSecret d s |>
  | _ => st
  end.

(** ** Differences *)

Definition sortedKeyUnion {V} (a b : gmap string V) : list string :=
  merge_sort String.le (elements (dom a ∪ dom b)).

Definition get (m : gmap string string) (k : string) : string := default "" (m !! k).
Definition has (m : gmap string bool) (k : string) : bool := default false (m !! k).

Definition diff_strings (path : string -> string) (old cur : gmap string string) : list FieldChange :=
  omap (fun k => if get old k <>s get cur k then Some (mkFieldChange (path k) (get old k) (get cur k)) else None)
    (sortedKeyUnion old cur).

Definition FormatBool (b : bool) : string := if b then "true" else "false".

Definition diffTracked (old cur : trackedState) : list FieldChange :=
  diff_strings (fun k => "label/" +:+ k) (ts_labels old) (ts_labels cur) ++
  diff_strings (fun n => "container/" +:+ n +:+ "/image") (ts_images old) (ts_images cur) ++
  omap (fun ref =>
      if has (ts_mounts old) ref && negb (has (ts_mounts cur) ref)
      then Some (mkFieldChange ("mount/" +:+ ref) "mounted" "")
      else if negb (has (ts_mounts old) ref) && has (ts_mounts cur) ref
      then Some (mkFieldChange ("mount/" +:+ ref) "" "mounted")
      else None)
    (sortedKeyUnion (ts_mounts old) (ts_mounts cur)) ++
  (if ts_hasReplicas old && ts_hasReplicas cur && negb (ts_replicas old =? ts_replicas cur)
   then [mkFieldChange "replicas" (itoa (ts_replicas old)) (itoa (ts_replicas cur))] else []) ++
  (if ts_hasSched old && ts_hasSched cur && negb (Bool.eqb (ts_unschedulable old) (ts_unschedulable cur))
   then [mkFieldChange "unschedulable" (FormatBool (ts_unschedulable old)) (FormatBool (ts_unschedulable cur))]
   else []) ++
  (if ts_contentHash old <>s ts_contentHash cur
   then [mkFieldChange "data" (ts_contentHash old) (ts_contentHash cur)] else []).
