(* ===== verification/GraphCodec.v ===== *)
(** The bytes of the graph's history (src/pkg/graph/history.go, replay.go): strings and
    ids as varints, the decoder that reads them back, and the effect log in which the
    writer records what one delta did.

    The decoder's error is sticky: after the first one every read answers zero and
    every caller ends in an error. The model stops at the first one. *)
From S2P Require Import Prelude GoStrings GoHash GoSort GraphTypes.
From Stdlib Require Import Ascii.

(** ** Writing *)

Definition uvarint_bytes (x : Z) : list Z := put_uvarint 9 x.
Definition string_bytes (s : string) : list Z := uvarint_bytes (Z.of_nat (String.length s)) ++ bytes_of s.
Definition appendString (b : list Z) (s : string) : list Z := b ++ string_bytes s.
Definition boolByte (v : bool) : Z := if v then 1 else 0.

(** ** Reading *)

(** A reader takes the bytes it wants and leaves the rest. *)
Definition Dec (A : Type) : Type := list Z -> option (A * list Z).
#[global] Instance Dec_ret : MRet Dec := fun A x buf => Some (x, buf).
#[global] Instance Dec_bind : MBind Dec := fun A B f m buf =>
  match m buf with Some (x, buf) => f x buf | None => None end.

Definition bad {A} : Dec A := fun _ => None.
(** [if !c { return an error }] *)
Definition ensure (c : bool) : Dec unit := if c then mret tt else bad.
Definition of_option {A} (o : option A) : Dec A := match o with Some x => mret x | None => bad end.
(** [for range n] *)
Fixpoint times {A} (n : nat) (m : Dec A) : Dec (list A) :=
  match n with
  | O => mret []
  | S n => x ← m; l ← times n m; mret (x :: l)
  end.

Definition MaxUint32 : Z := 2 ^ 32 - 1.
Definition maxRestoreStringLen : Z := 2 ^ 12.

Definition d_uvarint : Dec Z := Uvarint.
Definition d_byte : Dec Z := fun buf => match buf with b :: buf => Some (b, buf) | [] => None end.
Definition d_id : Dec NodeID := v ← d_uvarint; _ ← ensure (v <=? MaxUint32); mret v.

Definition string_of_bytes (l : list Z) : string :=
  String.string_of_list_ascii (map (fun b => Ascii.ascii_of_nat (Z.to_nat b)) l).

(** Counts are kept as numbers until they are known to fit the buffer. *)
Definition d_take (n : Z) : Dec string := fun buf =>
  if (maxRestoreStringLen <? n) || (Z.of_nat (length buf) <? n) then None
  else Some (string_of_bytes (take (Z.to_nat n) buf), drop (Z.to_nat n) buf).

Definition d_str : Dec string := n ← d_uvarint; d_take n.

(** ** Round trips of the primitives *)

(** [m] reads [x] off the front of anything that starts with [bs]. *)
Definition reads {A} (m : Dec A) (bs : list Z) (x : A) : Prop := forall rest, m (bs ++ rest) = Some (x, rest).

Lemma reads_ret {A} (x : A) : reads (mret x) [] x.
Proof. done. Qed.
Lemma reads_bind {A B} (m : Dec A) (f : A -> Dec B) bs bs' x y :
  reads m bs x -> reads (f x) bs' y -> reads (m ≫= f) (bs ++ bs') y.
Proof. intros Hm Hf rest. unfold mbind, Dec_bind. rewrite <- app_assoc, Hm. apply Hf. Qed.
Lemma reads_ensure (c : bool) {A} (m : Dec A) bs x : c = true -> reads m bs x -> reads (_ ← ensure c; m) bs x.
Proof. intros -> Hm rest. apply Hm. Qed.
Lemma reads_of_option {A B} (o : option A) a (f : A -> Dec B) bs x :
  o = Some a -> reads (f a) bs x -> reads (a ← of_option o; f a) bs x.
Proof. intros -> Hm rest. apply Hm. Qed.
Lemma reads_times {A} (m : Dec A) (enc : A -> list Z) l :
  (forall x, x ∈ l -> reads m (enc x) x) -> reads (times (length l) m) (concat (enc <$> l)) l.
Proof.
  induction l as [|x l IH]; intros Hl; [apply reads_ret|]. simpl.
  eapply reads_bind; [apply Hl; set_solver|]. rewrite <- (app_nil_r (concat _)).
  eapply reads_bind; [apply IH; set_solver|]. apply reads_ret.
Qed.

Lemma reads_uvarint x : 0 <= x < 2 ^ 64 -> reads d_uvarint (uvarint_bytes x) x.
Proof. intros Hx rest. by apply Uvarint_append. Qed.

Lemma reads_byte b : reads d_byte [b] b.
Proof. done. Qed.

Lemma reads_id x : 0 <= x <= MaxUint32 -> reads d_id (uvarint_bytes x) x.
Proof.
  intros Hx. unfold d_id. rewrite <- (app_nil_r (uvarint_bytes x)). unfold MaxUint32 in *.
  eapply reads_bind; [apply reads_uvarint; lia|]. apply reads_ensure; [|apply reads_ret].
  apply Z.leb_le. unfold MaxUint32. lia.
Qed.

Lemma bytes_of_length s : length (bytes_of s) = String.length s.
Proof.
  unfold bytes_of. rewrite length_map. induction s; simpl; [done|]. by f_equal.
Qed.

Lemma string_of_bytes_of s : string_of_bytes (bytes_of s) = s.
Proof.
  unfold string_of_bytes, bytes_of. rewrite map_map.
  rewrite (map_ext _ (fun c => c)), map_id; [apply String.string_of_list_ascii_of_string|].
  intros c. by rewrite Nat2Z.id, Ascii.ascii_nat_embedding.
Qed.

Definition short_string (s : string) : Prop := Z.of_nat (String.length s) <= maxRestoreStringLen.

Lemma reads_str s : short_string s -> reads d_str (string_bytes s) s.
Proof.
  intros Hs. unfold d_str, string_bytes. unfold short_string, maxRestoreStringLen in Hs.
  eapply reads_bind; [apply reads_uvarint; lia|].
  intros rest. unfold d_take. rewrite length_app, bytes_of_length.
  destruct (Z.ltb_spec maxRestoreStringLen (Z.of_nat (String.length s))) as [Hl|_];
    [unfold maxRestoreStringLen in Hl; lia|].
  destruct (Z.ltb_spec (Z.of_nat (String.length s + length rest)) (Z.of_nat (String.length s))); [lia|].
  simpl. rewrite Nat2Z.id, <- bytes_of_length, take_app_length, drop_app_length.
  by rewrite string_of_bytes_of.
Qed.

(** ** The effect log *)

Record halfEdge := mkHalf { he_From : NodeID; he_To : NodeID; he_Kind : EdgeKind }.
#[global] Instance halfEdge_eq_dec : EqDecision halfEdge.
Proof. solve_decision. Defined.
#[global] Program Instance halfEdge_countable : Countable halfEdge :=
  inj_countable' (fun e => (he_From e, he_To e, he_Kind e)) (fun '(f, t, k) => mkHalf f t k) _.
Next Obligation. by intros []. Qed.

Definition effectVersion : Z := 1.
Definition effNodeNew : Z := 1.
Definition effObserve : Z := 2.
Definition effUnobserve : Z := 3.
Definition effGC : Z := 4.
Definition effEdgeAdd : Z := 5.
Definition effEdgeRemove : Z := 6.

Record effectLog := mkEffectLog { el_buf : list Z; el_n : Z }.
Definition zero_log : effectLog := mkEffectLog [] 0.

(** One more entry. *)
Definition log_entry (bytes : list Z) (l : effectLog) : effectLog :=
  mkEffectLog (el_buf l ++ bytes) (el_n l + 1).

Definition log_nodeNew (id : NodeID) (kind : NodeKind) (key : string) : effectLog -> effectLog :=
  log_entry (effNodeNew :: uvarint_bytes id ++ [kind_byte kind] ++ string_bytes key).
Definition log_observe (id : NodeID) (kind : NodeKind) : effectLog -> effectLog :=
  log_entry (effObserve :: uvarint_bytes id ++ [kind_byte kind]).
Definition log_unobserve (id : NodeID) : effectLog -> effectLog := log_entry (effUnobserve :: uvarint_bytes id).
Definition log_gc (id : NodeID) : effectLog -> effectLog := log_entry (effGC :: uvarint_bytes id).
Definition log_edge (op : Z) (e : halfEdge) : effectLog -> effectLog :=
  log_entry (op :: uvarint_bytes (he_From e) ++ uvarint_bytes (he_To e) ++ [edge_byte (he_Kind e)]).

(** [encode]: nothing when nothing happened. *)
Definition log_encode (l : effectLog) : list Z :=
  if el_n l =? 0 then [] else effectVersion :: uvarint_bytes (el_n l) ++ el_buf l.
