(* ===== verification/GraphWriter.v ===== *)
(** The single writer of the topology graph (src/pkg/graph/writer.go, derive.go,
    graph.go, snapshot.go): deltas of Kubernetes objects become nodes and typed edges,
    batched into immutable snapshots.

    [gstate] is the writer's incremental state together with the batch it is building;
    an operation is a computation over it. The writer's mutexes make its methods
    atomic; the swap timer is a flush that may come at any time. *)
From S2P Require Import Prelude GoStrings GoHash GoFmt GoSort Effects GraphTypes GraphCodec GraphChanges.
From stdpp Require Import sorting.
From Stdlib Require Import Ascii.
Open Scope Z_scope.
Open Scope lookout_scope.

(** ** Adjacency *)

Definition edgeLess (a b : Edge) : bool :=
  if bool_decide (ed_Kind a = ed_Kind b) then ed_To a <? ed_To b
  else edge_byte (ed_Kind a) <? edge_byte (ed_Kind b).

Definition zero_edge : Edge := mkEdge NoNode EdgeInvalid.

Definition findEdge (s : list Edge) (e : Edge) : nat * bool :=
  let i := Search (length s) (fun i => negb (edgeLess (nth i s zero_edge) e)) in
  (i, (i <? length s)%nat && bool_decide (nth i s zero_edge = e)).

Definition insertEdge (s : list Edge) (e : Edge) : list Edge * bool :=
  let '(i, present) := findEdge s e in
  if present then (s, false) else (take i s ++ e :: drop i s, true).

Definition deleteEdge (s : list Edge) (e : Edge) : list Edge * bool :=
  let '(i, present) := findEdge s e in
  if present then (take i s ++ drop (S i) s, true) else (s, false).

Notation adjacency := (gmap NodeID (list Edge)) (only parsing).

Definition edges_of (m : adjacency) (id : NodeID) : list Edge := default [] (m !! id).

Definition storeEdges (id : NodeID) (edges : list Edge) (m : adjacency) : adjacency :=
  match edges with [] => delete id m | _ => <[id := edges]> m end.

(** ** State *)

Record selEntry := mkSel { se_sel : Labels -> bool; se_kind : EdgeKind }.

Record gstate := mkG {
  g_intern : interner;
  g_declared : gmap NodeID (list halfEdge);
  g_refcnt : gmap NodeID Z;
  g_podLabels : gmap string (gmap NodeID Labels);
  g_selectors : gmap string (gmap NodeID selEntry);
  g_rec : option effectLog;
  g_nodes : gmap NodeID nodeInfo;
  g_out : adjacency;
  g_in : adjacency;
  g_edges : Z
}.

Notation W := (M gstate).

(** [if w.rec != nil { w.rec. ... }] *)
Definition record (f : effectLog -> effectLog) : W unit := modify (fun g => g <| g_rec ::= fmap f |>).

Definition refcnt (g : gstate) (id : NodeID) : Z := default 0 (g_refcnt g !! id).
Definition bump (id : NodeID) (by_ : Z) (m : gmap NodeID Z) : gmap NodeID Z :=
  <[id := default 0 (m !! id) + by_]> m.

(** ** Nodes *)

Definition intern_key (key : string) : W NodeID :=
  fun g => let '(id, i) := intern key (g_intern g) in (id, g <| g_intern := i |>).

(** [node] once the namespace's node is known. *)
Definition node_in (nsID : NodeID) (kind : NodeKind) (namespace name : string) : W NodeID :=
  let key := nodeKey kind namespace name in
  id ← intern_key key;
  nodes ← gets g_nodes;
  _ ← (if bool_decide (nodes !! id = None) then
         _ ← modify (fun g => g <| g_nodes ::= <[id := mkNodeInfo kind (bool_decide (kind = KindNamespace)) nsID]> |>);
         record (log_nodeNew id kind key)
       else mret tt);
  mret id.

(** [node]: the recursion creates the namespace's node, which has none itself. *)
Definition node (kind : NodeKind) (namespace name : string) : W NodeID :=
  nsID ← (if namespace <>s "" then node_in NoNode KindNamespace "" namespace else mret NoNode);
  node_in nsID kind namespace name.

Definition observe (id : NodeID) (kind : NodeKind) : W unit :=
  _ ← modify (fun g =>
        let info := default zero_info (g_nodes g !! id) in
        g <| g_nodes ::= <[id := info <| ni_kind := kind |> <| ni_observed := true |>]> |>);
  record (log_observe id kind).

Definition maybeGC (id : NodeID) : W unit :=
  g ← gets (fun g => g);
  if 0 <? refcnt g id then mret tt
  else match g_nodes g !! id with
       | None => mret tt
       | Some info =>
           if bool_decide (ni_kind info = KindNamespace) then mret tt
           else if ni_observed info && negb (bool_decide (ni_kind info = KindContainer))
                   && negb (bool_decide (ni_kind info = KindZone)) then mret tt
           else
             _ ← modify (fun g => g <| g_nodes ::= delete id |> <| g_refcnt ::= delete id |>);
             record (log_gc id)
       end.

Definition markDeleted (id : NodeID) : W unit :=
  nodes ← gets g_nodes;
  match nodes !! id with
  | None => mret tt
  | Some info =>
      _ ← modify (fun g => g <| g_nodes ::= <[id := info <| ni_observed := false |>]> |>);
      _ ← record (log_unobserve id);
      maybeGC id
  end.

(** ** Edges *)

Definition addEdge (e : halfEdge) : W unit :=
  fun g =>
    let '(out, added) := insertEdge (edges_of (g_out g) (he_From e)) (mkEdge (he_To e) (he_Kind e)) in
    if negb added then (tt, g)
    else
      let '(in_, _) := insertEdge (edges_of (g_in g) (he_To e)) (mkEdge (he_From e) (he_Kind e)) in
      record (log_edge effEdgeAdd e)
        (g <| g_out ::= <[he_From e := out]> |> <| g_in ::= <[he_To e := in_]> |>
           <| g_refcnt ::= fun m => bump (he_To e) 1 (bump (he_From e) 1 m) |> <| g_edges ::= Z.succ |>).

(** The edge taken out of the adjacency, before its endpoints are looked at. *)
Definition dropEdge (e : halfEdge) : W bool :=
  fun g =>
    let '(out, removed) := deleteEdge (edges_of (g_out g) (he_From e)) (mkEdge (he_To e) (he_Kind e)) in
    if negb removed then (false, g)
    else
      let '(in_, _) := deleteEdge (edges_of (g_in g) (he_To e)) (mkEdge (he_From e) (he_Kind e)) in
      (true, (record (log_edge effEdgeRemove e)
        (g <| g_out ::= storeEdges (he_From e) out |> <| g_in ::= storeEdges (he_To e) in_ |>
           <| g_refcnt ::= fun m => bump (he_To e) (-1) (bump (he_From e) (-1) m) |> <| g_edges ::= Z.pred |>)).2).

Definition removeEdge (e : halfEdge) : W unit :=
  removed ← dropEdge e;
  if removed : bool then _ ← maybeGC (he_From e); maybeGC (he_To e) else mret tt.

(** [want] without its repetitions, first occurrences in order. *)
Fixpoint uniq (seen : list halfEdge) (l : list halfEdge) : list halfEdge :=
  match l with
  | [] => []
  | e :: l => if bool_decide (e ∈ seen) then uniq seen l else e :: uniq (e :: seen) l
  end.

Definition declared_by (g : gstate) (src : NodeID) : list halfEdge := default [] (g_declared g !! src).

Definition store_declared (src : NodeID) (l : list halfEdge) : W unit :=
  modify (fun g => g <| g_declared ::= match l with [] => delete src | _ => <[src := l]> end |>).

Definition setDeclared (src : NodeID) (want : list halfEdge) : W unit :=
  old ← gets (fun g => declared_by g src);
  match old, want with
  | [], [] => mret tt
  | _, _ =>
      let u := uniq [] want in
      _ ← for_each old (fun e => if bool_decide (e ∈ want) then mret tt else removeEdge e);
      _ ← for_each u (fun e => if bool_decide (e ∈ old) then mret tt else addEdge e);
      store_declared src u
  end.

(** [cur[i] = cur[len(cur)-1]; cur = cur[:len(cur)-1]] *)
Definition swap_remove (i : nat) (l : list halfEdge) : list halfEdge :=
  match last l with
  | Some e => take (length l - 1) (<[i := e]> l)
  | None => []
  end.

Definition setSelectorEdge (src pod : NodeID) (kind : EdgeKind) (want : bool) : W unit :=
  let e := mkHalf src pod kind in
  cur ← gets (fun g => declared_by g src);
  match list_find (fun e' => e' = e) cur with
  | None => if want then _ ← addEdge e; store_declared src (cur ++ [e]) else mret tt
  | Some (i, _) => if want then mret tt else _ ← removeEdge e; store_declared src (swap_remove i cur)
  end.

(** ** Edge derivation (derive.go) *)

Definition ownerNodeKinds (kind : string) : option NodeKind :=
  if kind ==s "Deployment" then Some KindDeployment
  else if kind ==s "ReplicaSet" then Some KindReplicaSet
  else if kind ==s "StatefulSet" then Some KindStatefulSet
  else if kind ==s "DaemonSet" then Some KindDaemonSet
  else if kind ==s "Job" then Some KindJob
  else if kind ==s "CronJob" then Some KindCronJob
  else if kind ==s "Service" then Some KindService
  else if kind ==s "Node" then Some KindNode
  else if kind ==s "Pod" then Some KindPod
  else None.

(** A loop that appends what its body returns. *)
Fixpoint collect {A} (l : list A) (body : A -> W (list halfEdge)) : W (list halfEdge) :=
  match l with
  | [] => mret []
  | x :: l => d ← body x; rest ← collect l body; mret (d ++ rest)
  end.

Definition ownerEdges (refs : list OwnerReference) (namespace : string) (self : NodeID) : W (list halfEdge) :=
  collect refs (fun r =>
    match ownerNodeKinds (or_Kind r) with
    | None => mret []
    | Some kind =>
        let ownerNS := if bool_decide (kind = KindNode) then "" else namespace in
        owner ← node kind ownerNS (or_Name r);
        mret [mkHalf owner self EdgeOwns]
    end).

(** [mount] *)
Definition mounts (ns : string) (pod : NodeID) (refs : list (NodeKind * string)) : W (list halfEdge) :=
  collect refs (fun '(kind, name) => id ← node kind ns name; mret [mkHalf pod id EdgeMounts]).

Definition containerMounts (ns : string) (pod : NodeID) (c : Container) : W (list halfEdge) :=
  mounts ns pod (container_refs c).

Definition volumeMounts (ns : string) (pod : NodeID) (vols : list Volume) : W (list halfEdge) :=
  mounts ns pod (concat (volume_refs <$> vols)).

(** A deleted object: its edges go, and its node unless something still points at it. *)
Definition applyDelete (id : NodeID) : W unit := _ ← setDeclared id []; markDeleted id.

Definition applyPlain (op : Op) (kind : NodeKind) (namespace name : string) (refs : list OwnerReference) : W unit :=
  id ← node kind namespace name;
  if bool_decide (op = OpDelete) then applyDelete id
  else
    _ ← observe id kind;
    decl ← ownerEdges refs namespace id;
    setDeclared id decl.

(** [w.podLabels[ns]], [w.selectors[ns]] *)
Definition pods_of (g : gstate) (ns : string) : gmap NodeID Labels := default ∅ (g_podLabels g !! ns).
Definition selectors_of (g : gstate) (ns : string) : gmap NodeID selEntry := default ∅ (g_selectors g !! ns).

Definition setSelector (ns : string) (src : NodeID) (ent : selEntry) : W unit :=
  modify (fun g => g <| g_selectors ::= <[ns := <[src := ent]> (selectors_of g ns)]> |>).

Definition dropSelector (ns : string) (src : NodeID) : W unit :=
  modify (fun g =>
    match g_selectors g !! ns with
    | None => g
    | Some m =>
        let m := delete src m in
        if bool_decide (m = ∅) then g <| g_selectors ::= delete ns |> else g <| g_selectors ::= <[ns := m]> |>
    end).

Definition drop_pod (ns : string) (id : NodeID) : W unit :=
  modify (fun g =>
    match g_podLabels g !! ns with
    | None => g
    | Some pods =>
        let pods := delete id pods in
        if bool_decide (pods = ∅) then g <| g_podLabels ::= delete ns |> else g <| g_podLabels ::= <[ns := pods]> |>
    end).

Section derive.
Context `{LabelLib} `{RangeOrder}.

(** [for src, ent := range w.selectors[ns]] *)
Definition for_selectors (ns : string) (body : NodeID -> selEntry -> W unit) : W unit :=
  sels ← gets (fun g => selectors_of g ns);
  for_each (range 0 sels) (fun '(src, ent) => body src ent).

(** The pods of the namespace a selector matches. *)
Definition selected (ns : string) (id : NodeID) (sel : Labels -> bool) (kind : EdgeKind) : W (list halfEdge) :=
  pods ← gets (fun g => pods_of g ns);
  mret (concat ((fun '(pod, pl) => if sel pl then [mkHalf id pod kind] else []) <$> range 1 pods)).

Definition applyPod (op : Op) (m : ObjectMeta) (spec : PodSpec) : W unit :=
  let ns := om_Namespace m in
  id ← node KindPod ns (om_Name m);
  if bool_decide (op = OpDelete) then
    _ ← setDeclared id [];
    _ ← for_selectors ns (fun src ent => setSelectorEdge src id (se_kind ent) false);
    _ ← drop_pod ns id;
    markDeleted id
  else
    _ ← observe id KindPod;
    owners ← ownerEdges (om_OwnerReferences m) ns id;
    runs ← (if ps_NodeName spec <>s "" then
              n ← node KindNode "" (ps_NodeName spec); mret [mkHalf id n EdgeRunsOn]
            else mret []);
    conts ← collect (pod_containers spec) (fun c =>
      cid ← node KindContainer ns (om_Name m +:+ "/" +:+ ct_Name c);
      _ ← observe cid KindContainer;
      ms ← containerMounts ns id c;
      mret (mkHalf id cid EdgeContains :: ms));
    vols ← volumeMounts ns id (ps_Volumes spec);
    _ ← setDeclared id (owners ++ runs ++ conts ++ vols);
    _ ← modify (fun g => g <| g_podLabels ::= <[ns := <[id := om_Labels m]> (pods_of g ns)]> |>);
    for_selectors ns (fun src ent => setSelectorEdge src id (se_kind ent) (se_sel ent (om_Labels m))).

(** The selector half of [applyService] and [applyNetworkPolicy]: [None] when the
    object selects nothing. *)
Definition applySelector (ns : string) (id : NodeID) (sel : option (Labels -> bool)) (kind : EdgeKind)
  : W (list halfEdge) :=
  match sel with
  | Some sel => _ ← setSelector ns id (mkSel sel kind); selected ns id sel kind
  | None => _ ← dropSelector ns id; mret []
  end.

Definition applyService (op : Op) (m : ObjectMeta) (selector : Labels) : W unit :=
  let ns := om_Namespace m in
  id ← node KindService ns (om_Name m);
  if bool_decide (op = OpDelete) then _ ← dropSelector ns id; applyDelete id
  else
    _ ← observe id KindService;
    owners ← ownerEdges (om_OwnerReferences m) ns id;
    sels ← applySelector ns id (if bool_decide (selector = ∅) then None else Some (FromSet selector)) EdgeSelects;
    setDeclared id (owners ++ sels).

Definition applyNetworkPolicy (op : Op) (m : ObjectMeta) (podSelector : LabelSelector) : W unit :=
  let ns := om_Namespace m in
  id ← node KindNetworkPolicy ns (om_Name m);
  if bool_decide (op = OpDelete) then _ ← dropSelector ns id; applyDelete id
  else
    _ ← observe id KindNetworkPolicy;
    owners ← ownerEdges (om_OwnerReferences m) ns id;
    sels ← applySelector ns id (AsSelector podSelector) EdgeGoverns;
    setDeclared id (owners ++ sels).

(** [discoveryv1.LabelServiceName], [corev1.LabelTopologyZone],
    [corev1.LabelFailureDomainBetaZone] *)
Definition LabelServiceName : string := "kubernetes.io/service-name".
Definition LabelTopologyZone : string := "topology.kubernetes.io/zone".
Definition LabelFailureDomainBetaZone : string := "failure-domain.beta.kubernetes.io/zone".

Definition applyEndpointSlice (op : Op) (m : ObjectMeta) (endpoints : list TargetRef) : W unit :=
  let ns := om_Namespace m in
  id ← node KindEndpointSlice ns (om_Name m);
  if bool_decide (op = OpDelete) then applyDelete id
  else
    _ ← observe id KindEndpointSlice;
    owners ← ownerEdges (om_OwnerReferences m) ns id;
    let svcName := get (om_Labels m) LabelServiceName in
    svc ← (if svcName <>s "" then
             s ← node KindService ns svcName; mret [mkHalf s id EdgeRoutesTo]
           else mret []);
    pods ← collect endpoints (fun ref =>
      match ref with
      | Some (kind, name) =>
          if (kind <>s "Pod") || (name ==s "") then mret []
          else pod ← node KindPod ns name; mret [mkHalf id pod EdgeRoutesTo]
      | None => mret []
      end);
    setDeclared id (owners ++ svc ++ pods).

Definition applyIngress (op : Op) (m : ObjectMeta) (defaultBackend : Backend) (rules : list (option (list Backend)))
  : W unit :=
  let ns := om_Namespace m in
  id ← node KindIngress ns (om_Name m);
  if bool_decide (op = OpDelete) then applyDelete id
  else
    _ ← observe id KindIngress;
    owners ← ownerEdges (om_OwnerReferences m) ns id;
    routes ← collect (defaultBackend :: concat (default [] <$> rules)) (fun backend =>
      match backend with
      | Some name => if name ==s "" then mret []
                     else s ← node KindService ns name; mret [mkHalf id s EdgeRoutesTo]
      | None => mret []
      end);
    setDeclared id (owners ++ routes).

Definition applyNode (op : Op) (m : ObjectMeta) : W unit :=
  id ← node KindNode "" (om_Name m);
  if bool_decide (op = OpDelete) then applyDelete id
  else
    _ ← observe id KindNode;
    owners ← ownerEdges (om_OwnerReferences m) "" id;
    let zone := if get (om_Labels m) LabelTopologyZone ==s "" then get (om_Labels m) LabelFailureDomainBetaZone
                else get (om_Labels m) LabelTopologyZone in
    zones ← (if zone <>s "" then
               zid ← node KindZone "" zone;
               _ ← observe zid KindZone;
               mret [mkHalf id zid EdgeRunsOn]
             else mret []);
    setDeclared id (owners ++ zones).

Definition applyDelta (op : Op) (o : kobj) : W unit :=
  let m := obj_meta o in
  let plain kind := applyPlain op kind (om_Namespace m) (om_Name m) (om_OwnerReferences m) in
  match o with
  | OPod m spec => applyPod op m spec
  | OService m selector => applyService op m selector
  | ONode m _ => applyNode op m
  | ONamespace m => applyPlain op KindNamespace "" (om_Name m) (om_OwnerReferences m)
  | OEndpointSlice m endpoints => applyEndpointSlice op m endpoints
  | OIngress m b rules => applyIngress op m b rules
  | ONetworkPolicy m sel => applyNetworkPolicy op m sel
  | OConfigMap _ _ _ | OSecret _ _ _ | OPersistentVolumeClaim _ | ODeployment _ _ | OReplicaSet _ _
  | OStatefulSet _ _ | ODaemonSet _ | OJob _ | OCronJob _ => plain (obj_kind o)
  end.
End derive.

(** ** Snapshots *)

(** [ids] is the writer's shared table, of which a snapshot can only see more than at
    its swap; [Lookup] ignores what is not a node of the snapshot. *)
Record Snapshot := mkSnapshot {
  sn_nodes : gmap NodeID nodeInfo;
  sn_out : adjacency;
  sn_in : adjacency;
  sn_edges : Z;
  sn_keys : list string;
  sn_ids : gmap string NodeID;
  sn_watched : option (gset NodeKind);
  sn_generation : Z
}.

Definition Out (s : Snapshot) (id : NodeID) : list Edge := edges_of (sn_out s) id.
Definition In_ (s : Snapshot) (id : NodeID) : list Edge := edges_of (sn_in s) id.

Definition Lookup_node (s : Snapshot) (kind : NodeKind) (namespace name : string) : option NodeID :=
  match sn_ids s !! nodeKey kind namespace name with
  | None => None
  | Some id => if bool_decide (sn_nodes s !! id = None) then None else Some id
  end.

Definition Resolve_node (s : Snapshot) (id : NodeID) : option Ref :=
  match sn_nodes s !! id with
  | None => None
  | Some info =>
      let '(namespace, name) := splitKey (default "" (key_at (sn_keys s) id)) in
      Some (mkRef id (ni_kind info) namespace name (ni_observed info))
  end.

Definition CountKind (s : Snapshot) (kind : NodeKind) : Z :=
  Z.of_nat (length (List.filter (fun '(_, info) => bool_decide (ni_kind info = kind)) (map_to_list (sn_nodes s)))).

Definition Watches (s : Snapshot) (kind : NodeKind) : bool :=
  match sn_watched s with None => true | Some w => bool_decide (kind ∈ w) end.

Definition declaredBy : list (NodeKind * list NodeKind) :=
  [(KindNode, [KindNode; KindPod]); (KindZone, [KindNode]); (KindPod, [KindPod; KindEndpointSlice]);
   (KindContainer, [KindPod]); (KindService, [KindService; KindEndpointSlice; KindIngress]);
   (KindEndpointSlice, [KindEndpointSlice]); (KindIngress, [KindIngress]);
   (KindNetworkPolicy, [KindNetworkPolicy]); (KindConfigMap, [KindConfigMap; KindPod]);
   (KindSecret, [KindSecret; KindPod]);
   (KindPersistentVolumeClaim, [KindPersistentVolumeClaim; KindPod]);
   (KindDeployment, [KindDeployment; KindReplicaSet]); (KindReplicaSet, [KindReplicaSet; KindPod]);
   (KindStatefulSet, [KindStatefulSet; KindPod]); (KindDaemonSet, [KindDaemonSet; KindPod]);
   (KindJob, [KindJob; KindPod]); (KindCronJob, [KindCronJob; KindJob])].

Definition Unrecorded (s : Snapshot) : list NodeKind :=
  match sn_watched s with
  | None => []
  | Some _ =>
      merge_sort (fun a b => String.le (NodeKind_String a) (NodeKind_String b))
        (omap (fun '(kind, decl) => if existsb (Watches s) decl then None else Some kind) declaredBy)
  end.

(** ** The writer *)

Record Writer := mkWriter {
  wr_g : gstate;
  wr_gen : Z;
  wr_watched : option (gset NodeKind);
  wr_onChange : bool; (** a delta log is wanted *)
  wr_tracked : gmap NodeID trackedState;
  wr_snap : option Snapshot; (** what [Graph.Snapshot] answers; [None] is ErrNotReady *)
  wr_emitted : list ChangeRecord (** what the OnChange hook has received *)
}.

Definition empty_g : gstate := mkG zero_interner ∅ ∅ ∅ ∅ None ∅ ∅ ∅ 0.

(** [New]: an empty WatchedKinds means that everything is watched. *)
Definition New (watchedKinds : list NodeKind) (onChange : bool) : Writer :=
  mkWriter empty_g 0 (match watchedKinds with [] => None | l => Some (list_to_set l) end) onChange ∅ None [].

(** [newBatch]: the batch starts as the current snapshot. *)
Definition newBatch (w : Writer) : gstate :=
  match wr_snap w with
  | None => (wr_g w) <| g_nodes := ∅ |> <| g_out := ∅ |> <| g_in := ∅ |> <| g_edges := 0 |>
  | Some s => (wr_g w) <| g_nodes := sn_nodes s |> <| g_out := sn_out s |> <| g_in := sn_in s |>
                     <| g_edges := sn_edges s |>
  end.

Definition publish (g : gstate) (w : Writer) : Writer :=
  let gen := wr_gen w + 1 in
  w <| wr_g := g |> <| wr_gen := gen |>
    <| wr_snap := Some (mkSnapshot (g_nodes g) (g_out g) (g_in g) (g_edges g) (in_keys (g_intern g))
         (in_ids (g_intern g)) (wr_watched w) gen) |>.

(** *** Compaction *)

Definition remap_edges (remap : NodeID -> NodeID) (l : list Edge) : list Edge :=
  (fun e => mkEdge (remap (ed_To e)) (ed_Kind e)) <$> l.

(** [for oldID, v := range m { if newID, ok := remap[oldID]; ok { next[newID] = v } }] *)
Definition remap_keys {V} (remap : gmap NodeID NodeID) (m : gmap NodeID V) : gmap NodeID V :=
  list_to_map (omap (fun '(id, v) => (fun id' => (id', v)) <$> remap !! id) (map_to_list m)).

(** The same where the source reads [remap] without the check; a missing id is NoNode. *)
Definition remap_all {V} (remap : NodeID -> NodeID) (m : gmap NodeID V) : gmap NodeID V :=
  list_to_map ((fun '(id, v) => (remap id, v)) <$> map_to_list m).

Definition remap_declared (remap : gmap NodeID NodeID) (l : list halfEdge) : list halfEdge :=
  omap (fun e => (fun to => mkHalf (default NoNode (remap !! he_From e)) to (he_Kind e)) <$> remap !! he_To e) l.

Definition dense_ids (ids : list NodeID) : gmap NodeID NodeID :=
  list_to_map (zip ids ((fun n => Z.of_nat n + 1) <$> seq 0 (length ids))).

Definition compactBatchLocked (g : gstate) : gstate * gmap NodeID NodeID :=
  let oldIDs := merge_sort Z.le (map_to_list (g_nodes g)).*1 in
  let remap := dense_ids oldIDs in
  let at_ id := default NoNode (remap !! id) in
  let keys := (fun id => default "" (key_at (in_keys (g_intern g)) id)) <$> oldIDs in
  let intern := mkInterner (list_to_map (zip keys ((fun n => Z.of_nat n + 1) <$> seq 0 (length oldIDs)))) keys
    (in_epoch (g_intern g) + 1) in
  (mkG intern
     (remap_declared remap <$> remap_keys remap (g_declared g))
     (remap_keys remap (g_refcnt g))
     (remap_keys remap <$> g_podLabels g)
     (remap_keys remap <$> g_selectors g)
     (g_rec g)
     (remap_all at_ ((fun info => if ni_ns info =? NoNode then info else info <| ni_ns ::= at_ |>) <$> g_nodes g))
     (remap_all at_ (remap_edges at_ <$> g_out g))
     (remap_all at_ (remap_edges at_ <$> g_in g))
     (g_edges g), remap).

Definition compact (w : Writer) (g : gstate) : gstate * Writer :=
  let '(g, remap) := compactBatchLocked g in
  (g, if wr_onChange w then w <| wr_tracked ::= remap_keys remap |> else w).

(** *** Deltas *)

Section flush.
Context `{LabelLib} `{RangeOrder}.

(** A queued delta; [dl_sync] marks initial sync. *)
Record pendingDelta := mkDelta { dl_Op : Op; dl_Object : kobj; dl_sync : bool }.

Definition object_key (o : kobj) : string :=
  let '(kind, ns, name, _) := objectIdentity o in nodeKey kind ns name.

(** [trackChange]: the record's shell and the tracked state; interns the identity. *)
Definition trackChange (now : Z) (d : pendingDelta) (w : Writer) (g : gstate) : ChangeRecord * Writer * gstate :=
  let o := dl_Object d in
  let '(kind, ns, name, uid) := objectIdentity o in
  let '(id, g) := intern_key (object_key o) g in
  let rec changes := mkChangeRecord now 0 (dl_Op d) kind ns name uid changes [] in
  if bool_decide (dl_Op d = OpDelete) then (rec [], w <| wr_tracked ::= delete id |>, g)
  else
    let st := newTrackedState o in
    let changes := match wr_tracked w !! id with Some old => diffTracked old st | None => [] end in
    (rec changes, w <| wr_tracked ::= <[id := st]> |>, g).

Definition trackSeed (o : kobj) (w : Writer) (g : gstate) : Writer * gstate :=
  let '(id, g) := intern_key (object_key o) g in
  (w <| wr_tracked ::= <[id := newTrackedState o]> |>, g).

(** One queued delta of [flushLocked]: the record it leaves, if any. *)
Definition flush_one (now : Z) (d : pendingDelta) (w : Writer) (g : gstate) : option ChangeRecord * Writer * gstate :=
  if negb (wr_onChange w) then (None, w, (applyDelta (dl_Op d) (dl_Object d) g).2)
  else
    let '(rec, w, g) := trackChange now d w g in
    if dl_sync d then (None, w, (applyDelta (dl_Op d) (dl_Object d) g).2)
    else
      let g := (applyDelta (dl_Op d) (dl_Object d) (g <| g_rec := Some zero_log |>)).2 in
      let rec := rec <| ch_Effect := log_encode (default zero_log (g_rec g)) |> in
      let g := g <| g_rec := None |> in
      match ch_FieldChanges rec, ch_Effect rec with
      | [], [] => (None, w, g)
      | _, _ => (Some rec, w, g)
      end.

Fixpoint flush_all (now : Z) (l : list pendingDelta) (w : Writer) (g : gstate) : list ChangeRecord * Writer * gstate :=
  match l with
  | [] => ([], w, g)
  | d :: l =>
      let '(rec, w, g) := flush_one now d w g in
      let '(recs, w, g) := flush_all now l w g in
      (match rec with Some r => r :: recs | None => recs end, w, g)
  end.

(** [flushLocked] on a drained queue. *)
Definition flushLocked (now : Z) (pending : list pendingDelta) (w : Writer) : Writer :=
  match pending, wr_snap w with
  | [], Some _ => w
  | _, _ =>
      let '(recs, w, g) := flush_all now pending w (newBatch w) in
      let '(g, w) :=
        if negb (wr_onChange w) && (Z.of_nat (size (g_nodes g)) <? Z.of_nat (length (in_keys (g_intern g))))
        then compact w g else (g, w) in
      let w := publish g w in
      w <| wr_emitted ::= fun l => l ++ ((fun r => r <| ch_Generation := wr_gen w |>) <$> recs) |>
  end.

(** [FromObjects] on a validated stream. *)
Fixpoint load_all (l : list kobj) (w : Writer) (g : gstate) : Writer * gstate :=
  match l with
  | [] => (w, g)
  | o :: l =>
      let '(w, g) := if wr_onChange w then trackSeed o w g else (w, g) in
      load_all l w (applyDelta OpAdd o g).2
  end.

Definition FromObjects (objs : list kobj) (w : Writer) : Writer :=
  let '(w, g) := load_all objs w (newBatch w) in publish g w.

(** [Compact], its queue drained. *)
Definition Compact (now : Z) (pending : list pendingDelta) (w : Writer) : Writer :=
  let w := flushLocked now pending w in
  match wr_snap w with
  | Some s =>
      if Z.of_nat (size (sn_nodes s)) <? Z.of_nat (length (in_keys (g_intern (wr_g w)))) then
        let '(g, w) := compact w (newBatch w) in publish g w
      else w
  | None => w
  end.

(** *** The queue (graph.go) *)

(** A delta as a caller submits it: an invalid operation, a nil or unsupported object
    is [None]. *)
Notation submitted := (option Op * option kobj)%type (only parsing).

Record Ingest := mkIngest { ig_writer : Writer; ig_pending : list pendingDelta; ig_closed : bool }.

Definition validate (sync : bool) (d : submitted) : option pendingDelta :=
  match d with
  | (Some op, Some o) => Some (mkDelta op o sync)
  | _ => None
  end.

(** [queue]: [None] is an error, and then nothing was queued. *)
Definition queue (deltas : list submitted) (sync : bool) (i : Ingest) : option Ingest :=
  match mapM (validate sync) deltas with
  | None => None
  | Some l => if ig_closed i then None else Some (i <| ig_pending ::= fun p => p ++ l |>)
  end.

Definition Apply_ (deltas : list submitted) (i : Ingest) : option Ingest := queue deltas false i.
Definition ApplyInitial (deltas : list submitted) (i : Ingest) : option Ingest := queue deltas true i.

Definition Flush (now : Z) (i : Ingest) : option Ingest :=
  if ig_closed i then None
  else Some (i <| ig_writer := flushLocked now (ig_pending i) (ig_writer i) |> <| ig_pending := [] |>).

(** [timedFlush] *)
Definition timedFlush (now : Z) (i : Ingest) : Ingest := default i (Flush now i).

Definition Close (i : Ingest) : Ingest := i <| ig_closed := true |> <| ig_pending := [] |>.

Definition Ingest_FromObjects (objs : list (option kobj)) (i : Ingest) : option Ingest :=
  match mapM id objs with
  | None => None
  | Some l => if ig_closed i then None else Some (i <| ig_writer ::= FromObjects l |>)
  end.

Definition Ingest_Compact (now : Z) (i : Ingest) : Ingest :=
  if ig_closed i then i
  else i <| ig_writer := Compact now (ig_pending i) (ig_writer i) |> <| ig_pending := [] |>.
End flush.

(** A small shop: the concrete graph the examples of the topology graph run on. *)
Module ShopGraph.
(** Selectors that are sets of labels; [None] is one that does not parse. *)
Definition labels : LabelLib :=
  {| LabelSelector := option (gmap string string); AsSelector := fmap (fun set l => bool_decide (set ⊆ l));
     FromSet := fun set l => bool_decide (set ⊆ l) |}.
#[local] Existing Instance labels.
#[local] Existing Instance plain_range.

Definition meta (ns name : string) (owners : list OwnerReference) : ObjectMeta :=
  mkMeta ns name (name +:+ "-uid") {["app" := "web"]} owners.
Definition pod (name node : string) : kobj :=
  OPod (meta "shop" name [mkOwner "ReplicaSet" "web-1"])
    (mkPodSpec node [] [mkContainer "main" "img" [] [mkRefs (Some "conf") None]] []).
Definition rs : kobj := OReplicaSet (meta "shop" "web-1" [mkOwner "Deployment" "web"]) (Some 2).
Definition svc : kobj := OService (meta "shop" "front" []) {["app" := "web"]}.

Definition loaded : Writer := FromObjects [rs; pod "web-a" "n1"] (New [] true).

Definition snap (w : Writer) : Snapshot := default (mkSnapshot ∅ ∅ ∅ 0 [] ∅ None 0) (wr_snap w).
End ShopGraph.
