(* ===== verification/GraphReplay.v ===== *)
(** Point-in-time reconstruction (src/pkg/graph/replay.go): the effects the writer logged
    after a snapshot, replayed on top of it, rebuild the live graph. *)
From S2P Require Import Prelude GoStrings GoHash GoFmt GoSort Effects GraphTypes GraphCodec GraphChanges GraphWriter.
From stdpp Require Import sorting.
From Stdlib Require Import Ascii.
Open Scope Z_scope.
Open Scope lookout_scope.

(** ** The replayer *)

Record Replayer := mkReplayer {
  rp_nodes : gmap NodeID nodeInfo;
  rp_out : gmap NodeID (list Edge);
  rp_in : gmap NodeID (list Edge);
  rp_edges : Z;
  rp_keys : list string;
  rp_ids : gmap string NodeID;
  rp_watched : option (gset NodeKind);
  rp_gen : Z
}.

(** [for i, k := range keys { ids[k] = NodeID(i + 1) }] *)
Definition index_keys (keys : list string) : gmap string NodeID :=
  foldl (fun m '(i, k) => <[k := Z.of_nat i + 1]> m) ∅ (zip (seq 0 (length keys)) keys).

Definition NewReplayer (base : Snapshot) : Replayer :=
  mkReplayer (sn_nodes base) (sn_out base) (sn_in base) (sn_edges base) (sn_keys base) (index_keys (sn_keys base))
    (sn_watched base) (sn_generation base).

(** [Snapshot]; a replayer is not used after it. *)
Definition Replayer_Snapshot (r : Replayer) : Snapshot :=
  mkSnapshot (rp_nodes r) (rp_out r) (rp_in r) (rp_edges r) (rp_keys r) (index_keys (rp_keys r)) (rp_watched r) (rp_gen r).

Definition maxIDGap : Z := 2 ^ 20.

(** The identity table of [nodeNew]: [None] is an error. *)
Definition replay_key (id : NodeID) (key : string) (r : Replayer) : option Replayer :=
  let have := Z.of_nat (length (rp_keys r)) in
  if id =? NoNode then None
  else if have <? id then
    if (key ==s "") || (maxIDGap <? id - have) then None
    else Some (r <| rp_keys ::= fun l => l ++ replicate (Z.to_nat (id - 1 - have)) "" ++ [key] |>
                 <| rp_ids ::= <[key := id]> |>)
  else match key_at (rp_keys r) id with
       | Some k =>
           if k ==s "" then Some (r <| rp_keys ::= <[Z.to_nat (id - 1) := key]> |> <| rp_ids ::= <[key := id]> |>)
           else if k <>s key then None
           else Some r
       | None => None
       end.

Definition replay_nodeNew (id : NodeID) (kind : NodeKind) (key : string) (r : Replayer) : option Replayer :=
  r ← replay_key id key r;
  match rp_nodes r !! id with
  | Some _ => Some r
  | None =>
      let '(ns, _) := splitKey key in
      nsID ← (if ns <>s "" then rp_ids r !! nodeKey KindNamespace "" ns else Some NoNode);
      Some (r <| rp_nodes ::= <[id := mkNodeInfo kind (bool_decide (kind = KindNamespace)) nsID]> |>)
  end.

Definition replay_observe (id : NodeID) (kind : NodeKind) (r : Replayer) : option Replayer :=
  info ← rp_nodes r !! id;
  Some (r <| rp_nodes ::= <[id := info <| ni_kind := kind |> <| ni_observed := true |>]> |>).

Definition replay_unobserve (id : NodeID) (r : Replayer) : option Replayer :=
  info ← rp_nodes r !! id;
  Some (r <| rp_nodes ::= <[id := info <| ni_observed := false |>]> |>).

Definition replay_gc (id : NodeID) (r : Replayer) : option Replayer :=
  _ ← rp_nodes r !! id;
  Some (r <| rp_nodes ::= delete id |>).

Definition replay_edge (op : Z) (e : halfEdge) (r : Replayer) : Replayer :=
  let fwd := mkEdge (he_To e) (he_Kind e) in
  let back := mkEdge (he_From e) (he_Kind e) in
  if op =? effEdgeAdd then
    let '(out, added) := insertEdge (edges_of (rp_out r) (he_From e)) fwd in
    if negb added then r
    else
      let '(in_, _) := insertEdge (edges_of (rp_in r) (he_To e)) back in
      r <| rp_out ::= <[he_From e := out]> |> <| rp_in ::= <[he_To e := in_]> |> <| rp_edges ::= Z.succ |>
  else
    let '(out, removed) := deleteEdge (edges_of (rp_out r) (he_From e)) fwd in
    if negb removed then r
    else
      let '(in_, _) := deleteEdge (edges_of (rp_in r) (he_To e)) back in
      r <| rp_out ::= storeEdges (he_From e) out |> <| rp_in ::= storeEdges (he_To e) in_ |> <| rp_edges ::= Z.pred |>.

(** One entry read and replayed. *)
Definition replay_entry (r : Replayer) : Dec Replayer :=
  op ← d_byte;
  if op =? effNodeNew then
    id ← d_id; kb ← d_byte; key ← d_str;
    kind ← of_option (kind_of_byte kb);
    of_option (replay_nodeNew id kind key r)
  else if op =? effObserve then
    id ← d_id; kb ← d_byte;
    kind ← of_option (kind_of_byte kb);
    of_option (replay_observe id kind r)
  else if op =? effUnobserve then id ← d_id; of_option (replay_unobserve id r)
  else if op =? effGC then id ← d_id; of_option (replay_gc id r)
  else if (op =? effEdgeAdd) || (op =? effEdgeRemove) then
    from ← d_id; to ← d_id; kb ← d_byte;
    kind ← of_option (edge_of_byte kb);
    _ ← ensure (negb (bool_decide (kind = EdgeInvalid)));
    mret (replay_edge op (mkHalf from to kind) r)
  else bad.

Fixpoint replay_entries (n : nat) (r : Replayer) : Dec Replayer :=
  match n with
  | O => mret r
  | S n => r ← replay_entry r; replay_entries n r
  end.

(** [Apply]: [None] is an error. An entry takes a byte at least, so a count beyond the
    bytes there are ends in one. *)
Definition Replayer_Apply (generation : Z) (effect : list Z) (r : Replayer) : option Replayer :=
  let r := if rp_gen r <=? generation then r <| rp_gen := generation |> else r in
  match effect with
  | [] => Some r
  | v :: buf =>
      if negb (v =? effectVersion) then None
      else match d_uvarint buf with
           | Some (n, buf) =>
               if Z.of_nat (length buf) <? n then None
               else match replay_entries (Z.to_nat n) r buf with
                    | Some (r, []) => Some r
                    | _ => None
                    end
           | None => None
           end
  end.

(** The records of a history, in the order the store returns them. *)
Fixpoint replay_records (recs : list ChangeRecord) (r : Replayer) : option Replayer :=
  match recs with
  | [] => Some r
  | rec :: recs => r ← Replayer_Apply (ch_Generation rec) (ch_Effect rec) r; replay_records recs r
  end.

(** ** Effects *)

(** What an entry says, and its bytes. *)
Inductive effect :=
  | ENodeNew (id : NodeID) (kind : NodeKind) (key : string)
  | EObserve (id : NodeID) (kind : NodeKind)
  | EUnobserve (id : NodeID)
  | EGC (id : NodeID)
  | EAdd (e : halfEdge)
  | ERemove (e : halfEdge).

Definition effect_bytes (e : effect) : list Z :=
  match e with
  | ENodeNew id kind key => effNodeNew :: uvarint_bytes id ++ [kind_byte kind] ++ string_bytes key
  | EObserve id kind => effObserve :: uvarint_bytes id ++ [kind_byte kind]
  | EUnobserve id => effUnobserve :: uvarint_bytes id
  | EGC id => effGC :: uvarint_bytes id
  | EAdd e => effEdgeAdd :: uvarint_bytes (he_From e) ++ uvarint_bytes (he_To e) ++ [edge_byte (he_Kind e)]
  | ERemove e => effEdgeRemove :: uvarint_bytes (he_From e) ++ uvarint_bytes (he_To e) ++ [edge_byte (he_Kind e)]
  end.

Definition replay_effect (e : effect) (r : Replayer) : option Replayer :=
  match e with
  | ENodeNew id kind key => replay_nodeNew id kind key r
  | EObserve id kind => replay_observe id kind r
  | EUnobserve id => replay_unobserve id r
  | EGC id => replay_gc id r
  | EAdd e => Some (replay_edge effEdgeAdd e r)
  | ERemove e => Some (replay_edge effEdgeRemove e r)
  end.

Fixpoint replay_effects (l : list effect) (r : Replayer) : option Replayer :=
  match l with
  | [] => Some r
  | e :: l => r ← replay_effect e r; replay_effects l r
  end.

(** Numbers the format can carry. *)
Definition id_ok (id : NodeID) : Prop := 0 <= id <= MaxUint32.
Definition effect_ok (e : effect) : Prop :=
  match e with
  | ENodeNew id _ key => id_ok id /\ short_string key
  | EObserve id _ | EUnobserve id | EGC id => id_ok id
  | EAdd e | ERemove e => id_ok (he_From e) /\ id_ok (he_To e) /\ he_Kind e <> EdgeInvalid
  end.

Lemma reads_entry e r r' : effect_ok e -> replay_effect e r = Some r' -> reads (replay_entry r) (effect_bytes e) r'.
Proof.
  intros Hok Hr. unfold replay_entry, effect_bytes.
  destruct e as [id kind key|id kind|id|id|e|e]; simpl in Hok, Hr;
    match goal with |- reads _ (?b :: ?l) _ => change (b :: l) with ([b] ++ l) end;
    (eapply reads_bind; [apply reads_byte|]); cbn beta; simpl Z.eqb; cbn [orb].
  - destruct Hok as [Hid Hk]. eapply reads_bind; [by apply reads_id|].
    eapply reads_bind; [apply reads_byte|]. rewrite <- (app_nil_r (string_bytes key)).
    eapply reads_bind; [by apply reads_str|]. eapply reads_of_option; [apply kind_of_byte_byte|].
    rewrite Hr. apply reads_ret.
  - eapply reads_bind; [by apply reads_id|]. rewrite <- (app_nil_r [_]). eapply reads_bind; [apply reads_byte|].
    eapply reads_of_option; [apply kind_of_byte_byte|]. rewrite Hr. apply reads_ret.
  - rewrite <- (app_nil_r (uvarint_bytes id)). eapply reads_bind; [by apply reads_id|]. rewrite Hr. apply reads_ret.
  - rewrite <- (app_nil_r (uvarint_bytes id)). eapply reads_bind; [by apply reads_id|]. rewrite Hr. apply reads_ret.
  - destruct Hok as (Hf & Ht & Hk). simplify_eq. eapply reads_bind; [by apply reads_id|].
    eapply reads_bind; [by apply reads_id|]. rewrite <- (app_nil_r [_]). eapply reads_bind; [apply reads_byte|].
    eapply reads_of_option; [apply edge_of_byte_byte|]. apply reads_ensure; [by rewrite bool_decide_eq_false_2|].
    destruct e. apply reads_ret.
  - destruct Hok as (Hf & Ht & Hk). simplify_eq. eapply reads_bind; [by apply reads_id|].
    eapply reads_bind; [by apply reads_id|]. rewrite <- (app_nil_r [_]). eapply reads_bind; [apply reads_byte|].
    eapply reads_of_option; [apply edge_of_byte_byte|]. apply reads_ensure; [by rewrite bool_decide_eq_false_2|].
    destruct e. apply reads_ret.
Qed.

Lemma reads_entries l r r' : Forall effect_ok l -> replay_effects l r = Some r' ->
  reads (replay_entries (length l) r) (concat (effect_bytes <$> l)) r'.
Proof.
  intros Hl; revert r; induction Hl as [|e l He Hl IH]; intros r; simpl.
  - intros [= <-]. apply reads_ret.
  - destruct (replay_effect e r) as [r1|] eqn:E; [|done]. simpl. intros Hr.
    eapply reads_bind; [by apply reads_entry|]. by apply IH.
Qed.

(** A log that is a list of effects. *)
Definition log_of (l : list effect) : effectLog :=
  mkEffectLog (concat (effect_bytes <$> l)) (Z.of_nat (length l)).

Lemma log_of_snoc l e : log_entry (effect_bytes e) (log_of l) = log_of (l ++ [e]).
Proof.
  unfold log_entry, log_of. simpl. rewrite fmap_app, concat_app, length_app. simpl. rewrite app_nil_r.
  f_equal. lia.
Qed.

Lemma effect_bytes_nonempty e : (1 <= length (effect_bytes e))%nat.
Proof. destruct e; simpl; lia. Qed.

Lemma effects_length l : (length l <= length (concat (effect_bytes <$> l)))%nat.
Proof.
  induction l as [|e l IH]; [simpl; lia|]. rewrite fmap_cons. cbn [concat length]. rewrite length_app.
  pose proof (effect_bytes_nonempty e). lia.
Qed.

(** The blob of a log replays its effects. *)
Lemma Apply_log gen l r r' : Forall effect_ok l -> Z.of_nat (length (log_encode (log_of l))) < 2 ^ 64 ->
  rp_gen r <= gen -> replay_effects l (r <| rp_gen := gen |>) = Some r' ->
  Replayer_Apply gen (log_encode (log_of l)) r = Some r'.
Proof.
  intros Hok Hlen Hgen Hr. unfold Replayer_Apply.
  assert ((rp_gen r <=? gen) = true) as -> by (apply Z.leb_le; lia).
  pose proof (effects_length l) as Hn. pose proof (reads_entries l _ _ Hok Hr []) as He. rewrite app_nil_r in He.
  unfold log_encode, log_of in *. cbn [el_n el_buf] in *. set (bs := concat (effect_bytes <$> l)) in *. clearbody bs.
  destruct (Z.eqb_spec (Z.of_nat (length l)) 0) as [E|E].
  - destruct l; [|done]. done.
  - cbn [length] in Hlen. rewrite length_app in Hlen. cbn [negb Z.eqb].
    pose proof (reads_uvarint (Z.of_nat (length l)) ltac:(lia) bs) as Hu.
    rewrite Hu. destruct (Z.ltb_spec (Z.of_nat (length bs)) (Z.of_nat (length l))); [lia|].
    rewrite Nat2Z.id. by rewrite He.
Qed.
