(* ===== verification/GraphReplaySpec.v ===== *)
(** Snapshot plus replayed effects is the live graph (src/pkg/graph: writer.go, derive.go,
    replay.go), by simulation: every step of the writer logs effects that take a
    replayer in agreement with the writer before the step to one in agreement with it
    after the step. *)
From S2P Require Import Prelude GoStrings GoHash GoFmt GoSort Effects GraphTypes GraphCodec GraphChanges GraphWriter.
From S2P Require Import GraphReplay.
Import ShopGraph.
From stdpp Require Import sorting.
From Stdlib Require Import Ascii.
Open Scope Z_scope.
Open Scope lookout_scope.

(** ** What the writer's ids are *)

Notation keys_of g := (in_keys (g_intern g)).

Definition valid_id (g : gstate) (id : NodeID) : Prop := is_Some (key_at (keys_of g) id).
Definition valid_edge (g : gstate) (e : halfEdge) : Prop :=
  valid_id g (he_From e) /\ valid_id g (he_To e) /\ he_Kind e <> EdgeInvalid.

(** Every id the writer holds is an interned one. *)
Record ids_ok (g : gstate) : Prop := {
  io_intern : interner_ok (g_intern g);
  io_keys : forall id key, key_at (keys_of g) id = Some key -> key <> "";
  io_nodes : forall id, is_Some (g_nodes g !! id) -> valid_id g id;
  io_declared : forall src e, e ∈ declared_by g src -> valid_edge g e;
  io_pods : forall ns id, is_Some (pods_of g ns !! id) -> valid_id g id;
  io_selectors : forall ns id ent, selectors_of g ns !! id = Some ent -> valid_id g id /\ se_kind ent <> EdgeInvalid
}.

(** ** Agreement of a replayer with the writer

    [p] is an identity the writer may have interned without the replayer knowing yet:
    the one of the object being tracked; [0] when there is none. *)
Record sim (p : NodeID) (g : gstate) (r : Replayer) : Prop := {
  sim_nodes : rp_nodes r = g_nodes g;
  sim_out : rp_out r = g_out g;
  sim_in : rp_in r = g_in g;
  sim_edges : rp_edges r = g_edges g;
  sim_len : (length (rp_keys r) <= length (keys_of g))%nat;
  sim_keys : forall id, id <> p -> key_at (rp_keys r) id = key_at (keys_of g) id;
  sim_known : forall id, is_Some (g_nodes g !! id) -> key_at (rp_keys r) id = key_at (keys_of g) id;
  sim_pending : forall k, key_at (rp_keys r) p = Some k -> k = "" \/ key_at (keys_of g) p = Some k;
  sim_ids : forall key id, key <> "" -> rp_ids r !! key = Some id <-> key_at (rp_keys r) id = Some key
}.

(** What replay leaves alone. *)
Definition same_header (r r' : Replayer) : Prop := rp_gen r' = rp_gen r /\ rp_watched r' = rp_watched r.

#[global] Instance same_header_preorder : PreOrder same_header.
Proof. split; [done|]. intros ??? [] []. split; congruence. Qed.

(** The format can carry the ids and keys of [g]. *)
Definition carried (keys : list string) : Prop :=
  Z.of_nat (length keys) <= MaxUint32 /\ Forall short_string keys.

(** One or more steps of the writer, from [p] to [p'] unknown to the replayer. *)
Definition steps_to (p p' : NodeID) (g g' : gstate) : Prop :=
  ids_ok g -> ids_ok g' /\ keys_of g `prefix_of` keys_of g' /\ (g_rec g = None -> g_rec g' = None) /\
  forall l, g_rec g = Some (log_of l) -> exists es, g_rec g' = Some (log_of (l ++ es)) /\
    (carried (keys_of g') -> Forall effect_ok es) /\
    forall r, sim p g r -> exists r', replay_effects es r = Some r' /\ sim p' g' r' /\ same_header r r'.

Notation steps := (steps_to 0 0).

Lemma replay_effects_app l l' r :
  replay_effects (l ++ l') r = replay_effects l r ≫= replay_effects l'.
Proof.
  revert r; induction l as [|e l IH]; intros r; simpl; [done|].
  destruct (replay_effect e r); simpl; [apply IH|done].
Qed.

Lemma carried_prefix keys keys' : keys `prefix_of` keys' -> carried keys' -> carried keys.
Proof.
  intros [l ->] [Hlen Hs]. rewrite length_app in Hlen. apply Forall_app in Hs as [? ?].
  split; [lia|done].
Qed.

Lemma steps_trans p p' p'' g g' g'' : steps_to p p' g g' -> steps_to p' p'' g' g'' -> steps_to p p'' g g''.
Proof.
  intros H1 H2 Hok. destruct (H1 Hok) as (Hok' & Hk & Hn & Hr). destruct (H2 Hok') as (Hok'' & Hk' & Hn' & Hr').
  split; [done|]. split; [by etrans|]. split; [by auto|]. intros l Hl.
  destruct (Hr l Hl) as (es & Hes & Hc & Hsim). destruct (Hr' _ Hes) as (es' & Hes' & Hc' & Hsim').
  exists (es ++ es'). rewrite app_assoc. split; [done|]. split.
  - intros Hb. apply Forall_app. split; [apply Hc; by eapply carried_prefix|by apply Hc'].
  - intros r Hs. destruct (Hsim r Hs) as (r1 & Hr1 & Hs1 & Hh1). destruct (Hsim' r1 Hs1) as (r2 & Hr2 & Hs2 & Hh2).
    exists r2. rewrite replay_effects_app, Hr1. split; [done|]. split; [done|by etrans].
Qed.

#[global] Instance steps_preorder : PreOrder steps.
Proof.
  split.
  - intros g Hok. split; [done|]. split; [done|]. split; [done|]. intros l Hl. exists [].
    rewrite app_nil_r. split; [done|]. split; [by constructor|]. intros r Hs. by exists r.
  - intros ???. apply steps_trans.
Qed.

(** Steps that log nothing and leave the graph and the identities alone. *)
Lemma steps_silent g g' : g_rec g' = g_rec g -> g_nodes g' = g_nodes g -> g_out g' = g_out g -> g_in g' = g_in g ->
  g_edges g' = g_edges g -> g_intern g' = g_intern g -> (ids_ok g -> ids_ok g') -> steps g g'.
Proof.
  intros Hrec Hn Ho Hi He Hk Hok' Hok. split; [by apply Hok'|]. rewrite Hk. split; [done|]. split; [congruence|].
  intros l Hl. exists []. rewrite app_nil_r, Hrec. split; [done|]. split; [by constructor|].
  intros r [????????]. exists r. split; [done|]. split; [|done].
  split; rewrite ?Hn, ?Ho, ?Hi, ?He, ?Hk; done.
Qed.

(** Steps that log one effect and intern nothing. *)
Lemma steps_one g g' e :
  g_rec g' = log_entry (effect_bytes e) <$> g_rec g -> g_intern g' = g_intern g ->
  (ids_ok g -> ids_ok g') -> (ids_ok g -> carried (keys_of g) -> effect_ok e) ->
  (forall r, ids_ok g -> sim 0 g r -> exists r', replay_effect e r = Some r' /\ sim 0 g' r' /\ same_header r r') ->
  steps g g'.
Proof.
  intros Hrec Hk Hok' Hc Hs Hok. split; [by apply Hok'|]. rewrite Hk. split; [done|]. split; [by rewrite Hrec; intros ->|].
  intros l Hl. exists [e]. rewrite Hrec, Hl. simpl. rewrite log_of_snoc. split; [done|]. split.
  - intros Hb. by repeat constructor; apply Hc.
  - intros r Hr. destruct (Hs r Hok Hr) as (r' & Hr' & ? & ?). exists r'. simpl. by rewrite Hr'.
Qed.

Lemma valid_id_ok g id : valid_id g id -> carried (keys_of g) -> id_ok id.
Proof. intros [k Hk%key_at_range] [Hl _]. unfold id_ok. lia. Qed.

Lemma valid_edge_ok g e : valid_edge g e -> carried (keys_of g) ->
  id_ok (he_From e) /\ id_ok (he_To e) /\ he_Kind e <> EdgeInvalid.
Proof. intros (Hf & Ht & Hk) Hc. split; [by eapply valid_id_ok|]. split; [by eapply valid_id_ok|done]. Qed.

(** [ids_ok] only looks at some fields. *)
Lemma ids_ok_frame g g' : g_intern g' = g_intern g -> g_declared g' = g_declared g -> g_podLabels g' = g_podLabels g ->
  g_selectors g' = g_selectors g -> (forall id, is_Some (g_nodes g' !! id) -> is_Some (g_nodes g !! id)) ->
  ids_ok g -> ids_ok g'.
Proof.
  intros Hi Hd Hp Hs Hn [????? ?]. split; unfold declared_by, pods_of, selectors_of, valid_edge, valid_id in *;
    rewrite ?Hi, ?Hd, ?Hp, ?Hs; auto.
Qed.

(** ** The primitives *)

Lemma addEdge_steps e g : valid_edge g e -> steps g (addEdge e g).2.
Proof.
  intros He. unfold addEdge.
  destruct (insertEdge (edges_of (g_out g) (he_From e)) _) as [out added] eqn:Eo. destruct added; [|reflexivity].
  destruct (insertEdge (edges_of (g_in g) (he_To e)) _) as [in_ b] eqn:Ei. simpl.
  apply (steps_one _ _ (EAdd e)); [done|done|by apply ids_ok_frame| |].
  - intros _ Hc. by eapply valid_edge_ok.
  - intros r _ [Hn Ho Hi Hed ?????]. eexists. split; [done|]. split; [|split].
    1: split; try done.
    all: unfold replay_edge; simpl; rewrite ?Ho, ?Hi, Eo, Ei; simpl; rewrite ?Hn, ?Ho, ?Hi, ?Hed; done.
Qed.

Lemma dropEdge_steps e g : valid_edge g e -> steps g (dropEdge e g).2.
Proof.
  intros He. unfold dropEdge.
  destruct (deleteEdge (edges_of (g_out g) (he_From e)) _) as [out removed] eqn:Eo. destruct removed; [|reflexivity].
  destruct (deleteEdge (edges_of (g_in g) (he_To e)) _) as [in_ b] eqn:Ei. simpl.
  apply (steps_one _ _ (ERemove e)); [done|done|by apply ids_ok_frame| |].
  - intros _ Hc. by eapply valid_edge_ok.
  - intros r _ [Hn Ho Hi Hed ?????]. eexists. split; [done|]. split; [|split].
    1: split; try done.
    all: unfold replay_edge; simpl; rewrite ?Ho, ?Hi, Eo, Ei; simpl; rewrite ?Hn, ?Ho, ?Hi, ?Hed; done.
Qed.

Lemma maybeGC_steps id g : steps g (maybeGC id g).2.
Proof.
  unfold maybeGC, gets, mbind, M_bind. cbn beta iota zeta. destruct (_ <? _); [reflexivity|].
  destruct (g_nodes g !! id) as [info|] eqn:E; [|reflexivity].
  destruct (bool_decide _); [reflexivity|]. destruct (_ && _); [reflexivity|].
  apply (steps_one _ _ (EGC id)); [done|done|..].
  - apply ids_ok_frame; try done. simpl. intros id' [i Hi]. apply lookup_delete_Some in Hi as [_ Hi]. by eexists.
  - intros Hok Hc. simpl. eapply valid_id_ok; [|done]. apply (io_nodes _ Hok). by eexists.
  - intros r _ [Hn Ho Hi Hed ? ? Hkn ? ?]. simpl. unfold replay_gc. rewrite Hn, E. simpl.
    eexists. split; [done|]. split; [|done]. split; try done; simpl; [by rewrite Hn|].
    intros id' [i Hid]. apply lookup_delete_Some in Hid as [_ Hid]. apply Hkn. by eexists.
Qed.

Lemma markDeleted_steps id g : steps g (markDeleted id g).2.
Proof.
  unfold markDeleted, gets, mbind, M_bind. cbn beta iota zeta.
  destruct (g_nodes g !! id) as [info|] eqn:E; [|reflexivity]. cbn beta iota zeta.
  etrans; [|apply maybeGC_steps]. apply (steps_one _ _ (EUnobserve id)); [done|done|..].
  - apply ids_ok_frame; try done. simpl. intros id' [i Hi]. destruct (decide (id' = id)) as [->|]; [by eexists|].
    rewrite lookup_insert_ne in Hi by done. by eexists.
  - intros Hok Hc. simpl. eapply valid_id_ok; [|done]. apply (io_nodes _ Hok). by eexists.
  - intros r _ [Hn Ho Hi Hed ? ? Hkn ? ?]. simpl. unfold replay_unobserve. rewrite Hn, E. simpl.
    eexists. split; [done|]. split; [|done]. split; try done; simpl; [by rewrite Hn|].
    intros id' [i Hid]. apply Hkn. destruct (decide (id' = id)) as [->|]; [by eexists|].
    rewrite lookup_insert_ne in Hid by done. by eexists.
Qed.

Lemma observe_steps id kind g : is_Some (g_nodes g !! id) -> steps g (observe id kind g).2.
Proof.
  intros [info E]. unfold observe, modify, mbind, M_bind. cbn beta iota zeta.
  apply (steps_one _ _ (EObserve id kind)); [done|done|..].
  - apply ids_ok_frame; try done. simpl. intros id' [i Hi]. destruct (decide (id' = id)) as [->|]; [by eexists|].
    rewrite lookup_insert_ne in Hi by done. by eexists.
  - intros Hok Hc. simpl. eapply valid_id_ok; [|done]. apply (io_nodes _ Hok). by eexists.
  - intros r _ [Hn Ho Hi Hed ? ? Hkn ? ?]. simpl. unfold replay_observe. rewrite Hn, E. simpl.
    eexists. split; [done|]. split; [|done]. split; try done; simpl; [by rewrite Hn|].
    intros id' [i Hid]. apply Hkn. destruct (decide (id' = id)) as [->|]; [by eexists|].
    rewrite lookup_insert_ne in Hid by done. by eexists.
Qed.

(** *** Creating a node *)

Definition pending_after (p id : NodeID) : NodeID := if bool_decide (id = p) then 0 else p.

(** The state once [key] is interned. *)
Definition interned (key : string) (g : gstate) : gstate := g <| g_intern := (intern key (g_intern g)).2 |>.
Definition id_of (key : string) (g : gstate) : NodeID := (intern key (g_intern g)).1.

Lemma interned_ok key g : ids_ok g -> key <> "" ->
  ids_ok (interned key g) /\ keys_of g `prefix_of` keys_of (interned key g) /\
  key_at (keys_of (interned key g)) (id_of key g) = Some key.
Proof.
  intros Hok Hne. destruct (intern_spec key (g_intern g) (io_intern _ Hok)) as (Hi & Hid & Hold & Hkeys).
  assert (keys_of g `prefix_of` keys_of (interned key g)) as Hp.
  { unfold interned. simpl. rewrite Hkeys. case_bool_decide; [by apply prefix_app_r|done]. }
  assert (forall id, valid_id g id -> valid_id (interned key g) id) as Hv.
  { intros id [k Hk]. destruct Hp as [l Hl]. exists k. unfold valid_id. rewrite Hl. unfold key_at in *.
    destruct (id <? 1); [done|]. by apply lookup_app_l_Some. }
  split; [|split; [done|by apply Hi]]. destruct Hok as [H1 H2 H3 H4 H5 H6]. split.
  - done.
  - unfold interned. simpl. rewrite Hkeys. case_bool_decide; [|done]. intros id k. rewrite key_at_snoc.
    case_bool_decide; [by intros [= <-]|apply H2].
  - intros id Hid'. apply Hv, H3, Hid'.
  - intros src e He. destruct (H4 src e He) as (? & ? & ?). split; [by apply Hv|]. split; [by apply Hv|done].
  - intros ns id Hp'. eapply Hv, H5, Hp'.
  - intros ns id ent Hs. destruct (H6 ns id ent Hs) as [? ?]. split; [by apply Hv|done].
Qed.

Lemma key_at_inj g id id' key : ids_ok g -> key_at (keys_of g) id = Some key -> key_at (keys_of g) id' = Some key -> id = id'.
Proof. intros Hok H1 H2. apply (io_intern _ Hok) in H1, H2. congruence. Qed.

(** Tables grown by [nodeNew]. *)
Lemma key_at_grow l n key i :
  key_at (l ++ replicate n "" ++ [key]) i =
  if bool_decide (i = Z.of_nat (length l + n) + 1) then Some key
  else if bool_decide (Z.of_nat (length l) < i <= Z.of_nat (length l + n)) then Some "" else key_at l i.
Proof.
  rewrite app_assoc, key_at_snoc, length_app, length_replicate. case_bool_decide; [done|].
  unfold key_at. destruct (Z.ltb_spec i 1) as [|Hi]; [by rewrite bool_decide_eq_false_2 by lia|].
  case_bool_decide.
  - rewrite lookup_app_r by lia.
    apply lookup_replicate_2. lia.
  - destruct (decide (Z.to_nat (i - 1) < length l)%nat); [by rewrite lookup_app_l|].
    rewrite !lookup_ge_None_2; [done|lia|]. rewrite length_app, length_replicate. lia.
Qed.

Lemma key_at_set l id key i : 1 <= id <= Z.of_nat (length l) ->
  key_at (<[Z.to_nat (id - 1) := key]> l) i = if bool_decide (i = id) then Some key else key_at l i.
Proof.
  intros Hid. unfold key_at. destruct (Z.ltb_spec i 1); [by rewrite bool_decide_eq_false_2 by lia|].
  case_bool_decide; [subst; apply list_lookup_insert_eq; lia|]. apply list_lookup_insert_ne. lia.
Qed.

(** The replayer lacks the pending identity at most. *)
Lemma sim_gap p g r : sim p g r ->
  length (rp_keys r) = length (keys_of g) \/
  (S (length (rp_keys r)) = length (keys_of g) /\ p = Z.of_nat (length (keys_of g))).
Proof.
  intros Hs. pose proof (sim_len _ _ _ Hs). set (have := length (rp_keys r)) in *. set (n := length (keys_of g)) in *.
  assert (forall i, Z.of_nat have < i <= Z.of_nat n -> i = p) as Hmiss.
  { intros i Hi. destruct (decide (i = p)); [done|]. pose proof (sim_keys _ _ _ Hs i n0) as Hk.
    destruct (key_at_is_Some (keys_of g) i) as [k Hk']; [lia|]. rewrite Hk' in Hk. apply key_at_range in Hk. lia. }
  destruct (decide (have = n)); [by left|right].
  pose proof (Hmiss (Z.of_nat n) ltac:(lia)). pose proof (Hmiss (Z.of_nat have + 1) ltac:(lia)). lia.
Qed.

(** The replayer's table after it has learnt [key]. *)
Definition learns (p : NodeID) (key : string) (g : gstate) (r r' : Replayer) : Prop :=
  let id := id_of key g in
  replay_key id key r = Some r' /\ sim (pending_after p id) (interned key g) r' /\ same_header r r' /\
  rp_ids r' !! key = Some id /\ forall k i, k <> "" -> rp_ids r !! k = Some i -> rp_ids r' !! k = Some i.

Lemma learn_new p key g r : ids_ok g -> key <> "" -> sim p g r -> in_ids (g_intern g) !! key = None ->
  exists r', learns p key g r r'.
Proof.
  intros Hok Hne Hs Hnew.
  assert (id_of key g = Z.of_nat (length (keys_of g)) + 1) as Hid by (unfold id_of, intern; by rewrite Hnew).
  assert (keys_of (interned key g) = keys_of g ++ [key]) as Hkeys by (unfold interned, intern; simpl; by rewrite Hnew).
  assert (forall i, key_at (keys_of g) i <> Some key) as Hnokey.
  { intros i Hi. apply (io_intern _ Hok) in Hi. congruence. }
  pose proof (sim_gap _ _ _ Hs) as Hgap. pose proof (sim_len _ _ _ Hs) as Hlen.
  set (n := length (keys_of g)) in *. set (have := length (rp_keys r)) in *.
  unfold learns. rewrite Hid.
  set (ks := rp_keys r ++ replicate (n - have) "" ++ [key]).
  exists (r <| rp_keys := ks |> <| rp_ids ::= <[key := Z.of_nat n + 1]> |>).
  assert (forall i, key_at ks i = if bool_decide (i = Z.of_nat n + 1) then Some key
    else if bool_decide (Z.of_nat have < i <= Z.of_nat n) then Some "" else key_at (rp_keys r) i) as Hks.
  { intros i. unfold ks. rewrite key_at_grow. fold have. replace (have + (n - have))%nat with n by lia. done. }
  assert (forall i, key_at (rp_keys r) i <> Some key) as Hnor.
  { intros i Hi. destruct (decide (i = p)) as [->|Hip].
    - destruct (sim_pending _ _ _ Hs key Hi) as [?|?]; [done|]. by eapply Hnokey.
    - rewrite (sim_keys _ _ _ Hs i Hip) in Hi. by eapply Hnokey. }
  split; [|split; [|split; [done|split; [simpl; by rewrite lookup_insert_eq|]]]].
  - unfold replay_key. fold have. destruct (Z.eqb_spec (Z.of_nat n + 1) NoNode); [unfold NoNode in *; lia|].
    destruct (Z.ltb_spec (Z.of_nat have) (Z.of_nat n + 1)); [|lia].
    rewrite (bool_decide_eq_false_2 _ Hne). unfold maxIDGap.
    destruct (Z.ltb_spec (2 ^ 20) (Z.of_nat n + 1 - Z.of_nat have)); [lia|]. simpl.
    assert (Z.to_nat (Z.of_nat n + 1 - 1 - Z.of_nat have) = (n - have)%nat) as -> by lia. done.
  - destruct Hs as [S1 S2 S3 S4 S5 S6 S7 S8 S9]. split; try done; rewrite ?Hkeys; simpl.
    + unfold ks. rewrite !length_app, length_replicate. simpl. fold have n. lia.
    + intros i Hi. rewrite Hks, key_at_snoc. fold n. case_bool_decide as E1; [done|].
      assert (i <> p) as Hip by (intros ->; unfold pending_after in Hi; case_bool_decide; [lia|done]).
      case_bool_decide as E2; [|by apply S6]. destruct Hgap as [?|[? ->]]; lia.
    + intros i Hi. rewrite Hks, key_at_snoc. fold n. pose proof (S7 i Hi) as Hk.
      destruct (io_nodes _ Hok i Hi) as [k Hk']. pose proof (key_at_range _ _ _ Hk'). fold n in H.
      rewrite Hk' in Hk. pose proof (key_at_range _ _ _ Hk). fold have in H0.
      rewrite !bool_decide_eq_false_2 by lia. by rewrite Hk, Hk'.
    + intros k. unfold pending_after. rewrite Hks, key_at_snoc. fold n.
      destruct (decide (Z.of_nat n + 1 = p)) as [E1|E1].
      { rewrite (bool_decide_eq_true_2 _ E1), !bool_decide_eq_false_2 by lia. done. }
      rewrite (bool_decide_eq_false_2 _ E1), !(bool_decide_eq_false_2 (p = _)) by lia.
      case_bool_decide; [intros [= <-]; by left|apply S8].
    + intros k i Hk. rewrite Hks. destruct (decide (k = key)) as [->|Hkk].
      * rewrite lookup_insert_eq. case_bool_decide; [subst; done|].
        split; [congruence|]. case_bool_decide; [congruence|]. intros Hi. by destruct (Hnor i).
      * rewrite lookup_insert_ne by done. rewrite S9 by done. case_bool_decide as E1.
        { split; [|congruence]. intros Hi. apply key_at_range in Hi. fold have in Hi. lia. }
        case_bool_decide; [|done]. split; [|congruence]. intros Hi%key_at_range. fold have in Hi. lia.
  - intros k i Hk Hi. simpl. rewrite lookup_insert_ne; [done|]. intros <-.
    apply (sim_ids _ _ _ Hs) in Hi; [|done]. by destruct (Hnor i).
Qed.

(** A table that knows the pending identity. *)
Lemma sim_learnt p id key g r : sim p g r -> key_at (keys_of g) id = Some key -> key_at (rp_keys r) id = Some key ->
  sim (pending_after p id) g r.
Proof.
  intros [S1 S2 S3 S4 S5 S6 S7 S8 S9] Hk Hk'. split; try done; unfold pending_after.
  - intros i Hi. case_bool_decide as E; [|by apply S6]. subst p.
    destruct (decide (i = id)) as [->|]; [by rewrite Hk, Hk'|by apply S6].
  - intros k. case_bool_decide; [|apply S8]. done.
Qed.

(** The pending identity [p] enters the table. *)
Lemma learn_pending p key g r ks : ids_ok g -> key <> "" -> sim p g r -> key_at (keys_of g) p = Some key ->
  (forall k, key_at (rp_keys r) p = Some k -> k = "") ->
  (forall i, key_at ks i = if bool_decide (i = p) then Some key else key_at (rp_keys r) i) ->
  (length ks <= length (keys_of g))%nat ->
  let r' := r <| rp_keys := ks |> <| rp_ids ::= <[key := p]> |> in
  sim 0 g r' /\ same_header r r' /\ rp_ids r' !! key = Some p /\
  forall k i, k <> "" -> rp_ids r !! k = Some i -> rp_ids r' !! k = Some i.
Proof.
  intros Hok Hne Hs Hk Hempty Hks Hlen. cbv zeta.
  assert (forall i, key_at (rp_keys r) i <> Some key) as Hnor.
  { intros i Hi. destruct (decide (i = p)) as [->|Hip]; [by apply Hempty in Hi|].
    rewrite (sim_keys _ _ _ Hs i Hip) in Hi. apply Hip. by eapply key_at_inj. }
  split; [|split; [done|split; [simpl; by rewrite lookup_insert_eq|]]].
  - assert (sim (pending_after p p) g (r <| rp_keys := ks |> <| rp_ids ::= <[key := p]> |>)) as Hsim.
    { eapply sim_learnt; [|exact Hk|simpl; by rewrite Hks, bool_decide_eq_true_2].
      destruct Hs as [S1 S2 S3 S4 S5 S6 S7 S8 S9]. split; try done; simpl.
      - intros i Hi. rewrite Hks, bool_decide_eq_false_2 by done. by apply S6.
      - intros i Hi. rewrite Hks. case_bool_decide; [by subst|by apply S7].
      - intros k. rewrite Hks, bool_decide_eq_true_2 by done. intros [= <-]. by right.
      - intros k i Hne'. rewrite Hks. destruct (decide (k = key)) as [->|Hkk'].
        + rewrite lookup_insert_eq. case_bool_decide; [by subst|]. split; [congruence|]. intros Hi. by destruct (Hnor i).
        + rewrite lookup_insert_ne by done. rewrite S9 by done. case_bool_decide; [|done]. subst i.
          split; [|congruence]. intros Hi. pose proof (Hempty _ Hi). congruence. }
    unfold pending_after in Hsim. by rewrite bool_decide_eq_true_2 in Hsim.
  - intros k i Hk' Hi. simpl. rewrite lookup_insert_ne; [done|]. intros <-.
    apply (sim_ids _ _ _ Hs) in Hi; [|done]. by destruct (Hnor i).
Qed.

Lemma learn_known p key g r : ids_ok g -> key <> "" -> sim p g r -> is_Some (in_ids (g_intern g) !! key) ->
  exists r', learns p key g r r'.
Proof.
  intros Hok Hne Hs [id Hold].
  assert (id_of key g = id) as Hid by (unfold id_of, intern; by rewrite Hold).
  assert (interned key g = g) as Hg by (unfold interned, intern; rewrite Hold; by destruct g).
  pose proof (proj1 (io_intern _ Hok key id) Hold) as Hk. pose proof (key_at_range _ _ _ Hk) as Hrange.
  unfold learns. rewrite Hid, Hg.
  assert (id =? NoNode = false) as Hz by (apply Z.eqb_neq; unfold NoNode; lia).
  unfold replay_key. rewrite Hz.
  assert (key_at (rp_keys r) id <> Some key -> id = p) as Hpend.
  { intros Hno. destruct (decide (id = p)) as [|Hip]; [done|]. rewrite (sim_keys _ _ _ Hs id Hip) in Hno. congruence. }
  destruct (key_at (rp_keys r) id) as [k|] eqn:Er.
  - pose proof (key_at_range _ _ _ Er) as Hr'.
    destruct (Z.ltb_spec (Z.of_nat (length (rp_keys r))) id); [lia|].
    destruct (decide (k = key)) as [->|Hkk].
    { exists r. rewrite (bool_decide_eq_false_2 _ Hne), bool_decide_eq_true_2 by done.
      split; [done|]. split; [by eapply sim_learnt|]. split; [done|]. split; [by apply (sim_ids _ _ _ Hs)|done]. }
    assert (id = p) as -> by (apply Hpend; congruence).
    destruct (sim_pending _ _ _ Hs k Er) as [->|?]; [|congruence].
    eexists. split; [done|]. unfold pending_after. rewrite (bool_decide_eq_true_2 (p = p)) by done.
    apply (learn_pending p key g r (<[Z.to_nat (p - 1) := key]> (rp_keys r))); try done.
    + intros k Hk'. congruence.
    + intros i. by apply key_at_set.
    + pose proof (list.length_insert (rp_keys r) (Z.to_nat (p - 1)) key) as Hlen.
      etrans; [apply Nat.eq_le_incl; exact Hlen|apply (sim_len _ _ _ Hs)].
  - assert (id = p) as -> by (apply Hpend; congruence).
    destruct (sim_gap _ _ _ Hs) as [Hgap|[Hgap Hp]].
    { destruct (key_at_is_Some (rp_keys r) p) as [? ?]; [lia|congruence]. }
    destruct (Z.ltb_spec (Z.of_nat (length (rp_keys r))) p); [|lia].
    rewrite (bool_decide_eq_false_2 _ Hne). unfold maxIDGap.
    destruct (Z.ltb_spec (2 ^ 20) (p - Z.of_nat (length (rp_keys r)))); [lia|].
    assert (Z.to_nat (p - 1 - Z.of_nat (length (rp_keys r))) = 0%nat) as -> by lia. cbn [orb replicate app].
    eexists. split; [done|]. unfold pending_after. rewrite (bool_decide_eq_true_2 (p = p)) by done.
    apply (learn_pending p key g r (rp_keys r ++ [key])); try done.
    + intros k Hk'. congruence.
    + intros i. rewrite key_at_snoc. by replace (Z.of_nat (length (rp_keys r)) + 1) with p by lia.
    + rewrite length_app. simpl. lia.
Qed.

Lemma learn p key g r : ids_ok g -> key <> "" -> sim p g r -> exists r', learns p key g r r'.
Proof.
  intros. destruct (in_ids (g_intern g) !! key) eqn:E; [by apply learn_known; [..|eexists]|by apply learn_new].
Qed.

(** *** [node] *)

(** The namespace node a node of namespace [ns] hangs under. *)
Definition ns_known (g : gstate) (ns : string) (nsID : NodeID) : Prop :=
  (ns = "" /\ nsID = NoNode) \/
  (ns <> "" /\ no_slash ns /\ in_ids (g_intern g) !! nodeKey KindNamespace "" ns = Some nsID /\
   is_Some (g_nodes g !! nsID)).

Lemma node_in_eq nsID kind ns name g :
  let key := nodeKey kind ns name in
  let id := id_of key g in
  let g1 := interned key g in
  node_in nsID kind ns name g =
  (id, if bool_decide (g_nodes g !! id = None)
       then g1 <| g_nodes ::= <[id := mkNodeInfo kind (bool_decide (kind = KindNamespace)) nsID]> |>
               <| g_rec ::= fmap (log_nodeNew id kind key) |>
       else g1).
Proof.
  cbv zeta. unfold node_in, intern_key, gets, modify, record, mbind, M_bind, mret, M_ret. cbn beta zeta.
  unfold id_of, interned. destruct (intern _ _) as [id i]. cbn beta iota zeta. simpl.
  case_bool_decide; done.
Qed.

Lemma node_in_steps p nsID kind ns name g :
  ids_ok g -> ns_known g ns nsID ->
  let r := node_in nsID kind ns name g in
  steps_to p (pending_after p r.1) g r.2 /\ is_Some (g_nodes r.2 !! r.1) /\
  in_ids (g_intern r.2) !! nodeKey kind ns name = Some r.1.
Proof.
  intros Hok Hns. rewrite node_in_eq. set (key := nodeKey kind ns name). cbv zeta.
  pose proof (nodeKey_nonempty kind ns name) as Hne. fold key in Hne. cbn [fst snd].
  destruct (interned_ok key g Hok Hne) as (Hok1 & Hpre & Hkey).
  set (id := id_of key g) in *. set (g1 := interned key g) in *.
  assert (in_ids (g_intern g1) !! key = Some id) as Hid by by apply (io_intern _ Hok1).
  case_bool_decide as Enew.
  - split; [|split; [simpl; rewrite lookup_insert_eq; by eexists|exact Hid]].
    intros _. split; [|split; [exact Hpre|split; [simpl; by intros ->|]]].
    + destruct Hok1 as [H1 H2 H3 H4 H5 H6]. split; try done. simpl. intros i [x Hi].
      destruct (decide (i = id)) as [->|]; [by eexists|]. rewrite lookup_insert_ne in Hi by done. apply H3. by eexists.
    + intros l Hl. exists [ENodeNew id kind key]. split; [|split].
      * simpl. unfold g1, interned. simpl. rewrite Hl. simpl.
        change (Some (log_entry (effect_bytes (ENodeNew id kind key)) (log_of l)) = Some (log_of (l ++ [ENodeNew id kind key]))).
        by rewrite log_of_snoc.
      * intros Hc. constructor; [|constructor]. split.
        -- eapply valid_id_ok; [by eexists|exact Hc].
        -- destruct Hc as [_ Hs]. rewrite Forall_forall in Hs. apply Hs.
           unfold key_at in Hkey. destruct (id <? 1); [done|]. by eapply list_elem_of_lookup_2.
      * intros r Hs. destruct (learn p key g r Hok Hne Hs) as (r1 & Hr1 & Hs1 & Hh & Hi1 & Hold).
        fold id in Hr1, Hs1, Hi1. fold g1 in Hs1. cbn [replay_effects replay_effect]. unfold replay_nodeNew.
        rewrite Hr1. cbn [mbind option_bind]. rewrite (sim_nodes _ _ _ Hs1). change (g_nodes g1) with (g_nodes g).
        rewrite Enew. unfold key at 1.
        assert (exists nm, splitKey (nodeKey kind ns name) = (ns, nm)) as [nm ->].
        { destruct Hns as [[-> _]|(_ & Hsl & _)]; eexists; by apply splitKey_nodeKey. }
        assert ((if ns <>s "" then rp_ids r1 !! nodeKey KindNamespace "" ns else Some NoNode) = Some nsID) as ->.
        { destruct Hns as [[-> ->]|(Hn0 & _ & Hin & Hpres)]; [done|]. rewrite bool_decide_eq_false_2 by done. cbn [negb].
          apply Hold; [apply nodeKey_nonempty|]. apply (sim_ids _ _ _ Hs); [apply nodeKey_nonempty|].
          rewrite (sim_known _ _ _ Hs) by done. by apply (io_intern _ Hok). }
        eexists. split; [done|]. split; [|done].
        destruct Hs1 as [S1 S2 S3 S4 S5 S6 S7 S8 S9]. split; try done; simpl.
        -- by rewrite S1.
        -- intros i [x Hi]. destruct (decide (i = id)) as [->|Hii].
           ++ transitivity (Some key); [by apply S9|symmetry; exact Hkey].
           ++ rewrite lookup_insert_ne in Hi by done. apply S7. by eexists.
  - assert (is_Some (g_nodes g !! id)) as Hpres by (destruct (g_nodes g !! id); [by eexists|done]).
    split; [|split; [exact Hpres|exact Hid]]. intros _. split; [done|]. split; [done|]. split; [done|].
    intros l Hl. exists []. rewrite app_nil_r. split; [exact Hl|]. split; [by constructor|].
    intros r Hs. exists r. split; [done|]. split; [|done].
    assert (g1 = g) as Hg.
    { unfold g1, interned, intern. destruct (in_ids (g_intern g) !! key) eqn:E; [by destruct g|]. exfalso.
      destruct (io_nodes _ Hok id Hpres) as [k Hk%key_at_range].
      unfold id, id_of, intern in Hk. rewrite E in Hk. simpl in Hk. lia. }
    rewrite Hg in *. eapply sim_learnt; [done|exact Hkey|]. rewrite (sim_known _ _ _ Hs) by done. exact Hkey.
Qed.

Definition name_ok (ns : string) : Prop := ns = "" \/ no_slash ns.

Lemma pending_0 id : pending_after 0 id = 0.
Proof. unfold pending_after. by case_bool_decide. Qed.

(** Creating a node takes the pending identity off the replayer's ignorance when it is
    the one created. *)
Lemma node_steps p kind ns name g :
  ids_ok g -> name_ok ns ->
  let r := node kind ns name g in
  (p = 0 \/ r.1 = p -> steps_to p 0 g r.2) /\
  is_Some (g_nodes r.2 !! r.1) /\ in_ids (g_intern r.2) !! nodeKey kind ns name = Some r.1 /\ ids_ok r.2 /\
  keys_of g `prefix_of` keys_of r.2.
Proof.
  intros Hok Hns. unfold node. cbv zeta. destruct (decide (ns = "")) as [->|Hne].
  - rewrite bool_decide_eq_true_2 by done. cbn [negb]. unfold mbind, M_bind, mret, M_ret.
    destruct (node_in_steps p NoNode kind "" name g Hok) as (Hst & Hpres & Hid); [by left|].
    destruct (node_in NoNode kind "" name g) as [id g1]. cbn [fst snd] in *.
    destruct (Hst Hok) as (Hok1 & Hpre & _). split; [|split; [done|split; [done|split; done]]].
    intros [-> | ->]; [by rewrite pending_0 in Hst|]. unfold pending_after in Hst. by rewrite bool_decide_eq_true_2 in Hst.
  - rewrite bool_decide_eq_false_2 by done. cbn [negb]. unfold mbind, M_bind.
    assert (no_slash ns) as Hsl by (destruct Hns; done).
    destruct (node_in_steps p NoNode KindNamespace "" ns g Hok) as (Hst & Hpres & Hid); [by left|].
    destruct (node_in NoNode KindNamespace "" ns g) as [nsID g1]. cbn [fst snd] in *.
    destruct (Hst Hok) as (Hok1 & Hpre & _).
    destruct (node_in_steps (pending_after p nsID) nsID kind ns name g1 Hok1) as (Hst1 & Hpres1 & Hid1).
    { right. done. }
    destruct (node_in nsID kind ns name g1) as [id g2]. cbn [fst snd] in *.
    destruct (Hst1 Hok1) as (Hok2 & Hpre1 & _). split; [|split; [done|split; [done|split; [done|by etrans]]]].
    intros Hp. eapply steps_trans; [exact Hst|].
    assert (pending_after (pending_after p nsID) id = 0) as Hz.
    { destruct Hp as [->| ->]; [by rewrite !pending_0|]. unfold pending_after at 2.
      case_bool_decide; [by rewrite pending_0|]. unfold pending_after. by rewrite bool_decide_eq_true_2. }
    by rewrite Hz in Hst1.
Qed.

(** ** Composing steps

    [does P m Q]: from a state with [P], [m] makes logged steps and ends with [Q]. The
    facts passed along are stable: identities are never taken back. *)

Class Stable (P : gstate -> Prop) : Prop :=
  stable : forall g g', keys_of g `prefix_of` keys_of g' -> P g -> P g'.

Lemma valid_prefix g g' id : keys_of g `prefix_of` keys_of g' -> valid_id g id -> valid_id g' id.
Proof.
  intros [l Hl] [k Hk]. exists k. rewrite Hl. unfold key_at in *. destruct (id <? 1); [done|].
  by apply lookup_app_l_Some.
Qed.

#[global] Instance stable_pure (P : Prop) : Stable (fun _ => P).
Proof. by intros ???. Qed.
#[global] Instance stable_and P Q `{!Stable P} `{!Stable Q} : Stable (fun g => P g /\ Q g).
Proof. intros g g' Hp [? ?]. split; by eapply stable. Qed.
#[global] Instance stable_valid id : Stable (fun g => valid_id g id).
Proof. intros g g' Hp. by apply valid_prefix. Qed.
#[global] Instance stable_edge e : Stable (fun g => valid_edge g e).
Proof. intros g g' Hp (? & ? & ?). split; [by eapply valid_prefix|]. split; [by eapply valid_prefix|done]. Qed.
#[global] Instance stable_forall {A} (P : A -> gstate -> Prop) l `{!forall x, Stable (P x)} :
  Stable (fun g => Forall (fun x => P x g) l).
Proof. intros g g' Hp Hl. eapply Forall_impl; [exact Hl|]. intros x. simpl. by apply stable. Qed.

Definition does {A} (P : gstate -> Prop) (m : W A) (Q : A -> gstate -> Prop) : Prop :=
  forall g, ids_ok g -> P g -> steps g (m g).2 /\ Q (m g).1 (m g).2.

Notation done_ := (fun _ _ => True).
Notation edges_valid := (fun (l : list halfEdge) (g : gstate) => Forall (fun e => valid_edge g e) l).

Lemma does_ret {A} (P : gstate -> Prop) (x : A) (Q : A -> gstate -> Prop) : (forall g, P g -> Q x g) -> does P (mret x) Q.
Proof. intros HQ g Hok HP. split; [reflexivity|by apply HQ]. Qed.

Lemma does_bind {A B} P (m : W A) Q (f : A -> W B) Q' `{!Stable P} :
  does P m Q -> (forall x, does (fun g => P g /\ Q x g) (f x) Q') -> does P (m ≫= f) Q'.
Proof.
  intros Hm Hf g Hok HP. unfold mbind, M_bind. destruct (Hm g Hok HP) as [Hs HQ].
  destruct (m g) as [x g1]. cbn [fst snd] in *. destruct (Hs Hok) as (Hok1 & Hpre & _).
  destruct (Hf x g1 Hok1) as [Hs' HQ']; [split; [by eapply stable|done]|].
  split; [by etrans|done].
Qed.

Lemma does_weaken {A} (P P' : gstate -> Prop) (m : W A) (Q Q' : A -> gstate -> Prop) :
  does P' m Q -> (forall g, P g -> P' g) -> (forall x g, Q x g -> Q' x g) -> does P m Q'.
Proof. intros Hm HP HQ g Hok Hg. destruct (Hm g Hok (HP g Hg)). split; [done|by apply HQ]. Qed.

Lemma does_for_each {A} P (l : list A) body `{!Stable P} :
  (forall x, x ∈ l -> does P (body x) done_) -> does P (for_each l body) done_.
Proof.
  induction l as [|x l IH]; intros Hb; simpl; [by apply does_ret|].
  eapply does_bind; [apply _|apply Hb; set_solver|]. intros u.
  eapply does_weaken; [apply IH; set_solver|by intros ? []|done].
Qed.

Lemma does_collect {A} P (l : list A) body `{!Stable P} :
  (forall x, x ∈ l -> does P (body x) edges_valid) -> does P (collect l body) edges_valid.
Proof.
  induction l as [|x l IH]; intros Hb; simpl; [apply does_ret; constructor|].
  eapply does_bind; [apply _|apply Hb; set_solver|]. intros d.
  eapply does_bind; [apply _| |intros rest; apply does_ret].
  - eapply does_weaken; [apply IH; set_solver|by intros ? []|done].
  - intros g [[_ Hd] Hr]. by apply Forall_app.
Qed.

Lemma does_step {A} (m : W A) (P : gstate -> Prop) : (forall g, ids_ok g -> P g -> steps g (m g).2) -> does P m done_.
Proof. intros Hm g Hok HP. split; [by apply Hm|done]. Qed.

Lemma node_does P kind ns name : name_ok ns -> does P (node kind ns name) (fun id g => valid_id g id).
Proof.
  intros Hns g Hok _. destruct (node_steps 0 kind ns name g Hok Hns) as (Hst & Hpres & Hid & Hok1 & Hpre).
  split; [by apply Hst; left|]. by apply (io_nodes _ Hok1).
Qed.

(** A node and its observation. *)
Lemma node_observe_does {A} P kind ns name (f : NodeID -> W A) Q `{!Stable P} : name_ok ns ->
  (forall id, does (fun g => P g /\ valid_id g id) (f id) Q) ->
  does P (id ← node kind ns name; _ ← observe id kind; f id) Q.
Proof.
  intros Hns Hf g Hok HP. destruct (node_steps 0 kind ns name g Hok Hns) as (Hst & Hpres & Hid & Hok1 & Hpre).
  specialize (Hst (or_introl eq_refl)). unfold mbind, M_bind. destruct (node kind ns name g) as [id g1]. cbn [fst snd] in *.
  pose proof (observe_steps id kind g1 Hpres) as Ho. destruct (observe id kind g1) as [u g2]. cbn [fst snd] in *.
  destruct (Ho Hok1) as (Hok2 & Hpre2 & _). assert (keys_of g `prefix_of` keys_of g2) by by etrans.
  destruct (Hf id g2 Hok2) as [Hs HQ].
  { split; [by eapply stable|]. apply (stable (P := fun g => valid_id g id) g1 g2); [done|]. by apply (io_nodes _ Hok1). }
  split; [|done]. etrans; [exact Hst|]. by etrans.
Qed.

(** ** Declared edges *)

Lemma removeEdge_does e : does (fun g => valid_edge g e) (removeEdge e) done_.
Proof.
  apply does_step. intros g Hok He. unfold removeEdge, mbind, M_bind.
  pose proof (dropEdge_steps e g He) as Hd. destruct (dropEdge e g) as [[] g1]; [|exact Hd]. cbn [snd] in Hd.
  pose proof (maybeGC_steps (he_From e) g1) as Hf. destruct (maybeGC (he_From e) g1) as [[] g2].
  etrans; [exact Hd|]. etrans; [exact Hf|apply maybeGC_steps].
Qed.

Lemma addEdge_does e : does (fun g => valid_edge g e) (addEdge e) done_.
Proof. apply does_step. intros g _. apply addEdge_steps. Qed.

Lemma declared_store src l g src' :
  declared_by (store_declared src l g).2 src' = if bool_decide (src' = src) then l else declared_by g src'.
Proof.
  unfold store_declared, modify, declared_by. simpl. case_bool_decide as E.
  - subst. destruct l; simpl; [by rewrite lookup_delete_eq|by rewrite lookup_insert_eq].
  - destruct l; simpl; [by rewrite lookup_delete_ne|by rewrite lookup_insert_ne].
Qed.

Lemma store_declared_does src l : does (edges_valid l) (store_declared src l) done_.
Proof.
  apply does_step. intros g _ Hl. apply steps_silent; try done. intros [H1 H2 H3 H4 H5 H6]. split; try done.
  intros src' e. rewrite declared_store. case_bool_decide; [|apply H4]. intros He.
  by apply (proj1 (list.Forall_forall _ _) Hl) in He.
Qed.

Lemma elem_of_uniq seen l e : e ∈ uniq seen l <-> e ∈ l /\ e ∉ seen.
Proof.
  revert seen; induction l as [|x l IH]; intros seen; simpl; [set_solver|].
  case_bool_decide as E; rewrite ?list.elem_of_cons, IH.
  - destruct (decide (e = x)) as [->|]; set_solver.
  - destruct (decide (e = x)) as [->|]; set_solver.
Qed.

(** Each edge of the list is valid: read off one. *)
Lemma valid_elem l e g : Forall (fun e => valid_edge g e) l -> e ∈ l -> valid_edge g e.
Proof. intros Hl. by apply (proj1 (list.Forall_forall _ _) Hl). Qed.

Lemma setDeclared_does src want : does (edges_valid want) (setDeclared src want) done_.
Proof.
  intros g Hok Hw. unfold setDeclared, gets. unfold mbind at 1, M_bind at 1. cbn beta iota zeta.
  set (old := declared_by g src).
  assert (edges_valid old g) as Ho.
  { apply list.Forall_forall. intros e. apply (io_declared _ Hok). }
  assert (does (fun g => edges_valid old g /\ edges_valid want g)
    (_ ← for_each old (fun e => if bool_decide (e ∈ want) then mret tt else removeEdge e);
     _ ← for_each (uniq [] want) (fun e => if bool_decide (e ∈ old) then mret tt else addEdge e);
     store_declared src (uniq [] want)) done_) as Hrun.
  { eapply does_bind; [apply _|apply does_for_each; [apply _|]|].
    { intros e He. case_bool_decide; [by apply does_ret|]. eapply does_weaken; [apply removeEdge_does| |done].
      intros ? [? _]. by eapply valid_elem. }
    intros u. eapply does_bind; [apply _|apply does_for_each; [apply _|]|].
    { intros e [He _]%elem_of_uniq. case_bool_decide; [by apply does_ret|].
      eapply does_weaken; [apply addEdge_does| |done]. intros ? [[_ ?] _]. by eapply valid_elem. }
    intros u'. eapply does_weaken; [apply store_declared_does| |done]. intros g1 [[[_ Hv] _] _].
    apply list.Forall_forall. intros e [He _]%elem_of_uniq. by eapply valid_elem. }
  destruct old, want; [split; [reflexivity|done]|..]; by apply Hrun.
Qed.

Lemma swap_remove_elem i l e : e ∈ swap_remove i l -> e ∈ l.
Proof.
  unfold swap_remove. destruct (last l) as [x|] eqn:El; [|set_solver].
  intros He%elem_of_take. destruct He as (j & Hj & _). apply list_lookup_insert_Some in Hj as [(_ & <- & _)|(_ & Hj)].
  - apply last_Some in El as [l' ->]. set_solver.
  - by eapply list_elem_of_lookup_2.
Qed.

Lemma setSelectorEdge_does src pod kind want :
  does (fun g => valid_edge g (mkHalf src pod kind)) (setSelectorEdge src pod kind want) done_.
Proof.
  intros g Hok He. unfold setSelectorEdge, gets. cbv zeta. unfold mbind at 1, M_bind at 1. cbn beta iota zeta.
  set (cur := declared_by g src).
  assert (edges_valid cur g) as Ho by (apply list.Forall_forall; intros e; apply (io_declared _ Hok)).
  destruct (list_find _ cur) as [[i e']|]; destruct want; try (split; [reflexivity|done]).
  - assert (does (fun g => edges_valid cur g /\ valid_edge g (mkHalf src pod kind))
      (_ ← removeEdge (mkHalf src pod kind); store_declared src (swap_remove i cur)) done_) as Hrun; [|by apply Hrun].
    eapply does_bind; [apply _|eapply does_weaken; [apply removeEdge_does|by intros ? []|done]|].
    intros u. eapply does_weaken; [apply store_declared_does| |done]. intros g1 [[Hv _] _].
    apply list.Forall_forall. intros e Hin%swap_remove_elem. by eapply valid_elem.
  - assert (does (fun g => edges_valid cur g /\ valid_edge g (mkHalf src pod kind))
      (_ ← addEdge (mkHalf src pod kind); store_declared src (cur ++ [mkHalf src pod kind])) done_) as Hrun; [|by apply Hrun].
    eapply does_bind; [apply _|eapply does_weaken; [apply addEdge_does|by intros ? []|done]|].
    intros u. eapply does_weaken; [apply store_declared_does| |done]. intros g1 [[Hv ?] _].
    apply Forall_app. split; [done|by constructor].
Qed.

(** ** Selectors and pods *)

Lemma pods_of_insert ns pods g ns' :
  pods_of (g <| g_podLabels ::= <[ns := pods]> |>) ns' = if bool_decide (ns' = ns) then pods else pods_of g ns'.
Proof.
  unfold pods_of. simpl. case_bool_decide; [subst; by rewrite lookup_insert_eq|by rewrite lookup_insert_ne].
Qed.

Lemma drop_pod_of ns id g ns' :
  pods_of (drop_pod ns id g).2 ns' = if bool_decide (ns' = ns) then delete id (pods_of g ns') else pods_of g ns'.
Proof.
  unfold drop_pod, modify. cbn [snd]. unfold pods_of. destruct (g_podLabels g !! ns) as [pods|] eqn:E.
  - cbv zeta. case_bool_decide as Ed; simpl; case_bool_decide as En; subst; rewrite ?lookup_delete_eq, ?lookup_insert_eq,
      ?lookup_delete_ne, ?lookup_insert_ne by done; rewrite ?E; simpl; by rewrite ?Ed.
  - case_bool_decide; [subst|done]. rewrite E. simpl. by rewrite delete_empty.
Qed.

Lemma setSelector_of ns src ent g ns' :
  selectors_of (setSelector ns src ent g).2 ns' =
  if bool_decide (ns' = ns) then <[src := ent]> (selectors_of g ns') else selectors_of g ns'.
Proof.
  unfold setSelector, modify, selectors_of. simpl.
  case_bool_decide; [subst; by rewrite lookup_insert_eq|by rewrite lookup_insert_ne].
Qed.

Lemma dropSelector_of ns src g ns' :
  selectors_of (dropSelector ns src g).2 ns' =
  if bool_decide (ns' = ns) then delete src (selectors_of g ns') else selectors_of g ns'.
Proof.
  unfold dropSelector, modify. cbn [snd]. unfold selectors_of. destruct (g_selectors g !! ns) as [m|] eqn:E.
  - cbv zeta. case_bool_decide as Ed; simpl; case_bool_decide as En; subst; rewrite ?lookup_delete_eq, ?lookup_insert_eq,
      ?lookup_delete_ne, ?lookup_insert_ne by done; rewrite ?E; simpl; by rewrite ?Ed.
  - case_bool_decide; [subst|done]. rewrite E. simpl. by rewrite delete_empty.
Qed.

(** The index updates leave everything else alone. *)
Lemma drop_pod_frame ns id g : exists m, (drop_pod ns id g).2 = g <| g_podLabels := m |>.
Proof.
  unfold drop_pod, modify. cbn [snd]. destruct (g_podLabels g !! ns); [|exists (g_podLabels g); by destruct g].
  cbv zeta. case_bool_decide; by eexists.
Qed.

Lemma dropSelector_frame ns src g : exists m, (dropSelector ns src g).2 = g <| g_selectors := m |>.
Proof.
  unfold dropSelector, modify. cbn [snd]. destruct (g_selectors g !! ns); [|exists (g_selectors g); by destruct g].
  cbv zeta. case_bool_decide; by eexists.
Qed.

Lemma steps_pods g m : (ids_ok g -> forall ns id, is_Some (pods_of (g <| g_podLabels := m |>) ns !! id) -> valid_id g id) ->
  steps g (g <| g_podLabels := m |>).
Proof.
  intros Hm. apply steps_silent; try done. intros Hok. specialize (Hm Hok). destruct Hok. by split.
Qed.

Lemma steps_selectors g m :
  (ids_ok g -> forall ns id ent, selectors_of (g <| g_selectors := m |>) ns !! id = Some ent ->
     valid_id g id /\ se_kind ent <> EdgeInvalid) ->
  steps g (g <| g_selectors := m |>).
Proof.
  intros Hm. apply steps_silent; try done. intros Hok. specialize (Hm Hok). destruct Hok. by split.
Qed.

Lemma drop_pod_does ns id P : does P (drop_pod ns id) done_.
Proof.
  apply does_step. intros g _ _. pose proof (drop_pod_of ns id g) as Ho. destruct (drop_pod_frame ns id g) as [m Hm].
  rewrite Hm in *. apply steps_pods. intros Hok ns' id'. rewrite Ho. case_bool_decide; [|apply (io_pods _ Hok)].
  intros [x [_ Hx]%lookup_delete_Some]. apply (io_pods _ Hok ns'). by eexists.
Qed.

Lemma dropSelector_does ns src P : does P (dropSelector ns src) done_.
Proof.
  apply does_step. intros g _ _. pose proof (dropSelector_of ns src g) as Ho.
  destruct (dropSelector_frame ns src g) as [m Hm].
  rewrite Hm in *. apply steps_selectors. intros Hok ns' id' ent. rewrite Ho. case_bool_decide; [|apply (io_selectors _ Hok)].
  intros [_ Hx]%lookup_delete_Some. by apply (io_selectors _ Hok ns').
Qed.

Lemma setSelector_does ns src ent : se_kind ent <> EdgeInvalid ->
  does (fun g => valid_id g src) (setSelector ns src ent) done_.
Proof.
  intros Hk. apply does_step. intros g _ Hv. pose proof (setSelector_of ns src ent g) as Ho.
  unfold setSelector, modify in *. cbn [snd] in *. apply steps_selectors. intros Hok ns' id' ent'.
  intros Hl'. assert ((if bool_decide (ns' = ns) then <[src := ent]> (selectors_of g ns') else selectors_of g ns') !! id'
    = Some ent') as Hl by (rewrite <- Ho; exact Hl'). clear Hl'.
  case_bool_decide; [|by apply (io_selectors _ Hok) in Hl].
  apply lookup_insert_Some in Hl as [[<- <-]|[_ Hl]]; [done|by apply (io_selectors _ Hok) in Hl].
Qed.

(** ** Objects *)

Section derive_steps.
Context `{LabelLib} `{RangeOrder}.

Lemma ownerEdges_does refs ns self : name_ok ns ->
  does (fun g => valid_id g self) (ownerEdges refs ns self) edges_valid.
Proof.
  intros Hns. apply does_collect; [apply _|]. intros r _.
  destruct (ownerNodeKinds (or_Kind r)) as [kind|]; [|by apply does_ret]. cbv zeta.
  eapply does_bind; [apply _|apply node_does; by destruct (bool_decide _); [left|]|].
  intros id. apply does_ret. intros g [? ?]. by repeat constructor.
Qed.

Lemma mounts_does ns pod refs : name_ok ns -> does (fun g => valid_id g pod) (mounts ns pod refs) edges_valid.
Proof.
  intros Hns. apply does_collect; [apply _|]. intros [kind name] _.
  eapply does_bind; [apply _|by apply node_does|]. intros id. apply does_ret. intros g [? ?]. by repeat constructor.
Qed.

Lemma applyDelete_does id P : does P (applyDelete id) done_.
Proof.
  unfold applyDelete. intros g Hok _. assert (does (fun _ => True) (_ ← setDeclared id []; markDeleted id) done_) as Hd;
    [|by apply Hd].
  eapply does_bind; [apply _|eapply does_weaken; [apply setDeclared_does|by constructor|done]|].
  intros u. apply does_step. intros. apply markDeleted_steps.
Qed.

Lemma for_selectors_does ns pod (want : selEntry -> bool) :
  does (fun g => valid_id g pod) (for_selectors ns (fun src ent => setSelectorEdge src pod (se_kind ent) (want ent))) done_.
Proof.
  intros g Hok Hpod. unfold for_selectors, gets. unfold mbind at 1, M_bind at 1. cbn beta iota zeta.
  set (sels := range 0 (selectors_of g ns)).
  assert (does (fun g => Forall (fun se : NodeID * selEntry => valid_edge g (mkHalf se.1 pod (se_kind se.2))) sels)
    (for_each sels (fun '(src, ent) => setSelectorEdge src pod (se_kind ent) (want ent))) done_) as Hrun.
  { apply does_for_each; [apply _|]. intros [src ent] Hin. eapply does_weaken; [apply setSelectorEdge_does| |done].
    intros g' Hall. by apply (proj1 (list.Forall_forall _ _) Hall (src, ent)). }
  apply Hrun; [done|]. apply list.Forall_forall. intros [src ent] Hin%elem_of_range.
  destruct (io_selectors _ Hok _ _ _ Hin). by split_and!.
Qed.

Lemma selected_does ns id sel kind : kind <> EdgeInvalid ->
  does (fun g => valid_id g id) (selected ns id sel kind) edges_valid.
Proof.
  intros Hk g Hok Hid. unfold selected, gets, mbind, M_bind, mret, M_ret. cbn [fst snd]. split; [reflexivity|].
  apply list.Forall_forall. intros e He. apply list_elem_of_In, in_concat in He as (l & Hl & He).
  apply list_elem_of_In in Hl, He. apply list_elem_of_fmap in Hl as ([pod pl] & -> & Hin%elem_of_range).
  destruct (sel pl); [|set_solver]. apply list_elem_of_singleton in He as ->.
  split_and!; [done| |done]. simpl. apply (io_pods _ Hok ns). by eexists.
Qed.

Lemma applySelector_does ns id sel kind : kind <> EdgeInvalid ->
  does (fun g => valid_id g id) (applySelector ns id sel kind) edges_valid.
Proof.
  intros Hk. destruct sel as [sel|]; simpl.
  - eapply does_bind; [apply _|by apply setSelector_does|]. intros u.
    eapply does_weaken; [by apply selected_does|by intros ? []|done].
  - eapply does_bind; [apply _|apply dropSelector_does|]. intros u. apply does_ret. by constructor.
Qed.

(** *** The handlers, their node known *)

Definition present (id : NodeID) (g : gstate) : Prop := is_Some (g_nodes g !! id).

(** The observation of a handler's own node. *)
Lemma observe_then {A} id kind (m : W A) Q :
  does (fun g => valid_id g id) m Q -> does (present id) (_ ← observe id kind; m) Q.
Proof.
  intros Hm g Hok Hp. unfold mbind, M_bind. pose proof (observe_steps id kind g Hp) as Ho.
  destruct (observe id kind g) as [u g1]. cbn [fst snd] in *. destruct (Ho Hok) as (Hok1 & Hpre & _).
  destruct (Hm g1 Hok1) as [Hs HQ]; [eapply valid_prefix; [done|by apply (io_nodes _ Hok)]|]. split; [by etrans|done].
Qed.

(** An edge to a node named by an optional field. *)
Lemma optional_does (c : bool) kind ns name P (f : NodeID -> halfEdge) `{!Stable P} :
  name_ok ns -> (forall g id, P g -> valid_id g id -> valid_edge g (f id)) ->
  does P (if c then n ← node kind ns name; mret [f n] else mret []) edges_valid.
Proof.
  intros Hns Hf. destruct c; [|by apply does_ret; constructor].
  eapply does_bind; [apply _|by apply node_does|]. intros id. apply does_ret. intros g [? ?].
  constructor; [by apply Hf|constructor].
Qed.

Ltac next lem :=
  eapply does_bind; [apply _|eapply does_weaken; [apply lem; first [done|by left]|intros; naive_solver|intros; eassumption]|intros ?].

(** A handler: it creates the node of [key], the pending identity if there is one. *)
Definition handles (key : string) (m : W unit) : Prop :=
  forall p g, ids_ok g -> p = 0 \/ in_ids (g_intern g) !! key = Some p -> steps_to p 0 g (m g).2.

Lemma node_handles kind ns name (body : NodeID -> W unit) : name_ok ns ->
  (forall id, does (present id) (body id) done_) -> handles (nodeKey kind ns name) (node kind ns name ≫= body).
Proof.
  intros Hns Hb p g Hok Hp. destruct (node_steps p kind ns name g Hok Hns) as (Hst & Hpres & Hid & Hok1 & Hpre).
  unfold mbind, M_bind. destruct (node kind ns name g) as [id g1]. cbn [fst snd] in *.
  eapply steps_trans; [apply Hst|by apply Hb]. destruct Hp as [->|Hp]; [by left|right].
  apply (io_intern _ Hok) in Hp. destruct Hpre as [l Hl].
  assert (key_at (keys_of g1) p = Some (nodeKey kind ns name)) as Hk.
  { rewrite Hl. unfold key_at in *. destruct (p <? 1); [done|]. by apply lookup_app_l_Some. }
  apply (io_intern _ Hok1) in Hk. congruence.
Qed.

Lemma applyPlain_handles op kind ns name refs : name_ok ns ->
  handles (nodeKey kind ns name) (applyPlain op kind ns name refs).
Proof.
  intros Hns. apply node_handles; [done|]. intros id. case_bool_decide; [apply applyDelete_does|]. apply observe_then.
  next ownerEdges_does. eapply does_weaken; [apply setDeclared_does|by intros ? []|done].
Qed.

Lemma applySelecting_does ns id kind sel ek refs : name_ok ns -> ek <> EdgeInvalid ->
  does (present id) (_ ← observe id kind; owners ← ownerEdges refs ns id; sels ← applySelector ns id sel ek;
                     setDeclared id (owners ++ sels)) done_.
Proof.
  intros Hns Hk. apply observe_then. next ownerEdges_does. next applySelector_does.
  eapply does_weaken; [apply setDeclared_does|intros g [[_ ?] ?]; by apply Forall_app|done].
Qed.

Lemma drop_delete_does ns id P : does P (_ ← dropSelector ns id; applyDelete id) done_.
Proof.
  intros g Hok _. assert (does (fun _ => True) (_ ← dropSelector ns id; applyDelete id) done_) as Hd; [|by apply Hd].
  eapply does_bind; [apply _|apply dropSelector_does|]. intros u. apply applyDelete_does.
Qed.

Lemma applyService_handles op m sel : name_ok (om_Namespace m) ->
  handles (nodeKey KindService (om_Namespace m) (om_Name m)) (applyService op m sel).
Proof.
  intros Hns. apply node_handles; [done|]. intros id. case_bool_decide; [apply drop_delete_does|].
  by apply applySelecting_does.
Qed.

Lemma applyNetworkPolicy_handles op m sel : name_ok (om_Namespace m) ->
  handles (nodeKey KindNetworkPolicy (om_Namespace m) (om_Name m)) (applyNetworkPolicy op m sel).
Proof.
  intros Hns. apply node_handles; [done|]. intros id. case_bool_decide; [apply drop_delete_does|].
  by apply applySelecting_does.
Qed.

Lemma applyNode_handles op m : handles (nodeKey KindNode "" (om_Name m)) (applyNode op m).
Proof.
  apply node_handles; [by left|]. intros id. case_bool_decide; [apply applyDelete_does|]. apply observe_then.
  next ownerEdges_does. cbv zeta.
  eapply (does_bind _ _ edges_valid); [apply _| |intros zs].
  - destruct (negb _); [|by apply does_ret; constructor].
    apply node_observe_does; [apply _|by left|]. intros zid. apply does_ret. intros g [[? _] ?]. by repeat constructor.
  - eapply does_weaken; [apply setDeclared_does|intros g [[_ ?] ?]; by apply Forall_app|done].
Qed.

Lemma applyIngress_handles op m b rules : name_ok (om_Namespace m) ->
  handles (nodeKey KindIngress (om_Namespace m) (om_Name m)) (applyIngress op m b rules).
Proof.
  intros Hns. apply node_handles; [done|]. intros id. case_bool_decide; [apply applyDelete_does|]. apply observe_then.
  next ownerEdges_does. eapply (does_bind _ _ edges_valid); [apply _|apply does_collect; [apply _|]|intros routes].
  - intros [name|] _; [|by apply does_ret; constructor].
    case_bool_decide; [by apply does_ret; constructor|].
    apply (optional_does true); [apply _|done|]. intros g s [? _] ?. by split_and!.
  - eapply does_weaken; [apply setDeclared_does|intros g [[_ ?] ?]; by apply Forall_app|done].
Qed.

Lemma applyEndpointSlice_handles op m eps : name_ok (om_Namespace m) ->
  handles (nodeKey KindEndpointSlice (om_Namespace m) (om_Name m)) (applyEndpointSlice op m eps).
Proof.
  intros Hns. apply node_handles; [done|]. intros id. case_bool_decide; [apply applyDelete_does|]. apply observe_then.
  next ownerEdges_does. cbv zeta.
  eapply (does_bind _ _ edges_valid); [apply _|apply optional_does; [apply _|done|]|intros svc].
  { intros g s [? _] ?. by split_and!. }
  eapply (does_bind _ _ edges_valid); [apply _|apply does_collect; [apply _|]|intros pods].
  - intros [[kind name]|] _; [|by apply does_ret; constructor].
    destruct (_ || _); [by apply does_ret; constructor|].
    apply (optional_does true); [apply _|done|]. intros g s [[? _] _] ?. by split_and!.
  - eapply does_weaken; [apply setDeclared_does|intros g [[[_ ?] ?] ?]; rewrite !Forall_app; naive_solver|done].
Qed.

Lemma store_pod_does ns id labels :
  does (fun g => valid_id g id) (modify (fun g => g <| g_podLabels ::= <[ns := <[id := labels]> (pods_of g ns)]> |>)) done_.
Proof.
  apply does_step. intros g _ Hv. unfold modify. cbn [snd].
  change (steps g (g <| g_podLabels := <[ns := <[id := labels]> (pods_of g ns)]> (g_podLabels g) |>)).
  apply steps_pods. intros Hok ns' id'.
  change (is_Some (pods_of (g <| g_podLabels ::= <[ns := <[id := labels]> (pods_of g ns)]> |>) ns' !! id') -> valid_id g id').
  rewrite pods_of_insert. case_bool_decide; [|apply (io_pods _ Hok)].
  intros [x [[<- _]|[_ Hx]]%lookup_insert_Some]; [done|]. apply (io_pods _ Hok ns). by eexists.
Qed.

Lemma pod_deleted_does ns id : does (fun g => valid_id g id)
  (_ ← setDeclared id []; _ ← for_selectors ns (fun src ent => setSelectorEdge src id (se_kind ent) false);
   _ ← drop_pod ns id; markDeleted id) done_.
Proof.
  eapply does_bind; [apply _|eapply does_weaken; [apply setDeclared_does|intros; by apply list.Forall_nil|done]|intros ?].
  next (for_selectors_does ns id (fun _ => false)). next (drop_pod_does ns id (fun _ => True)).
  apply does_step. intros. apply markDeleted_steps.
Qed.

Lemma containers_does ns pod podName l : name_ok ns ->
  does (fun g => valid_id g pod)
    (collect l (fun c =>
      cid ← node KindContainer ns (podName +:+ "/" +:+ ct_Name c);
      _ ← observe cid KindContainer;
      ms ← containerMounts ns pod c;
      mret (mkHalf pod cid EdgeContains :: ms))) edges_valid.
Proof.
  intros Hns. apply does_collect; [apply _|]. intros c _. apply node_observe_does; [apply _|done|]. intros cid.
  eapply does_bind; [apply _|eapply does_weaken; [by apply mounts_does|by intros ? []|done]|].
  intros ms. apply does_ret. intros g [[? ?] ?]. constructor; [by split_and!|done].
Qed.

Lemma applyPod_handles op m spec : name_ok (om_Namespace m) ->
  handles (nodeKey KindPod (om_Namespace m) (om_Name m)) (applyPod op m spec).
Proof.
  intros Hns. apply node_handles; [done|]. intros id. case_bool_decide.
  { intros g Hok Hp. apply pod_deleted_does; [done|]. by apply (io_nodes _ Hok). }
  apply observe_then. next ownerEdges_does.
  eapply (does_bind _ _ edges_valid); [apply _|apply optional_does; [apply _|by left|]|intros runs].
  { intros g s [? _] ?. by split_and!. }
  next containers_does. next mounts_does.
  eapply does_bind; [apply _|eapply does_weaken; [apply setDeclared_does| |done]|intros ?].
  { intros g [[[[_ ?] ?] ?] ?]. rewrite !Forall_app. naive_solver. }
  next store_pod_does. eapply does_weaken; [apply for_selectors_does|naive_solver|done].
Qed.

(** An object as the API server admits it: namespaces hold no slash, and Nodes and
    Namespaces are cluster-scoped. *)
Definition admitted (o : kobj) : Prop :=
  name_ok (om_Namespace (obj_meta o)) /\
  (obj_kind o = KindNode \/ obj_kind o = KindNamespace -> om_Namespace (obj_meta o) = "").

Lemma applyDelta_handles op o : admitted o -> handles (object_key o) (applyDelta op o).
Proof.
  intros [Hns Hcl]. unfold object_key, objectIdentity.
  destruct o; cbn [obj_meta obj_kind] in *; simpl; try by apply applyPlain_handles.
  - by apply applyPod_handles.
  - by apply applyService_handles.
  - rewrite Hcl by naive_solver. apply applyNode_handles.
  - rewrite Hcl by naive_solver. apply applyPlain_handles. by left.
  - by apply applyEndpointSlice_handles.
  - by apply applyIngress_handles.
  - by apply applyNetworkPolicy_handles.
Qed.
End derive_steps.

(** ** Flushes *)

Lemma sim_intern key g r : ids_ok g -> key <> "" -> sim 0 g r -> sim (id_of key g) (interned key g) r.
Proof.
  intros Hok Hne [S1 S2 S3 S4 S5 S6 S7 S8 S9].
  destruct (intern_spec key (g_intern g) (io_intern _ Hok)) as (Hi & Hid & Hold & Hkeys).
  pose proof (interned_ok key g Hok Hne) as (Hok1 & Hpre & Hk). pose proof (key_at_range _ _ _ Hk) as Hr.
  assert (forall id, valid_id g id -> key_at (keys_of (interned key g)) id = key_at (keys_of g) id) as Hsame.
  { intros id [k Hk']. destruct Hpre as [l ->]. rewrite Hk'. unfold key_at in *. destruct (id <? 1); [done|].
    by apply lookup_app_l_Some. }
  split; try done.
  - etrans; [exact S5|]. destruct Hpre as [l ->]. rewrite length_app. lia.
  - intros id Hne'. destruct (decide (id = 0)) as [->|]; [done|]. rewrite S6 by done.
    unfold interned in *. cbn in *. rewrite Hkeys in *. case_bool_decide as E; [|done].
    unfold id_of, intern in Hne'. rewrite E in Hne'. cbn in Hne'. rewrite key_at_snoc, bool_decide_eq_false_2; done.
  - intros id Hp. cbn in Hp. rewrite Hsame by by apply (io_nodes _ Hok). by apply S7.
  - intros k Hk'. rewrite S6 in Hk' by lia. right. rewrite Hsame; [done|by eexists].
Qed.

Lemma key_at_ext l l' : (forall id, id <> 0 -> key_at l id = key_at l' id) -> l = l'.
Proof.
  intros Hk. apply list_eq. intros i. specialize (Hk (Z.of_nat i + 1) ltac:(lia)). unfold key_at in Hk.
  destruct (Z.ltb_spec (Z.of_nat i + 1) 1); [lia|].
  by replace (Z.to_nat (Z.of_nat i + 1 - 1)) with i in Hk by lia.
Qed.

Lemma index_keys_snoc l k : index_keys (l ++ [k]) = <[k := Z.of_nat (length l) + 1]> (index_keys l).
Proof.
  unfold index_keys. rewrite length_app, Nat.add_1_r, seq_S, zip_with_app by by rewrite length_seq.
  by rewrite foldl_app.
Qed.

Lemma index_keys_spec (i : interner) : interner_ok i -> index_keys (in_keys i) = in_ids i.
Proof.
  intros Hok. assert (NoDup (in_keys i)) as Hnd.
  { apply NoDup_alt. intros a b k Ha Hb.
    assert (forall n, in_keys i !! n = Some k -> in_ids i !! k = Some (Z.of_nat n + 1)) as Hn.
    { intros n Hn. apply Hok. unfold key_at. destruct (Z.ltb_spec (Z.of_nat n + 1) 1); [lia|].
      by replace (Z.to_nat (Z.of_nat n + 1 - 1)) with n by lia. }
    pose proof (Hn _ Ha). pose proof (Hn _ Hb). simplify_eq. lia. }
  assert (forall keys, NoDup keys -> forall k id, index_keys keys !! k = Some id <-> key_at keys id = Some k) as Hix.
  { clear. intros keys. induction keys as [|x keys IH] using rev_ind; intros Hnd k id.
    - unfold index_keys, key_at. simpl. rewrite lookup_empty. destruct (id <? 1); done.
    - apply NoDup_app in Hnd as (Hnd & Hx & _). rewrite index_keys_snoc, key_at_snoc. destruct (decide (k = x)) as [->|].
      + rewrite lookup_insert_eq. case_bool_decide; [naive_solver|]. split; [congruence|].
        intros Hk. exfalso. unfold key_at in Hk. destruct (id <? 1); [done|].
        apply list_elem_of_lookup_2 in Hk. specialize (Hx _ Hk). set_solver.
      + rewrite lookup_insert_ne by done. rewrite IH by done. case_bool_decide; [|done]. split; [|congruence].
        intros Hk%key_at_range. lia. }
  apply map_eq. intros k. apply option_eq. intros id. rewrite Hix by done. symmetry. apply Hok.
Qed.

Section flushes.
Context `{LabelLib} `{RangeOrder}.

(** The writer between deltas: its ids are interned, nothing is being logged. *)
Definition rested (g : gstate) : Prop := ids_ok g /\ g_rec g = None.

Lemma ids_ok_rec g o : ids_ok g -> ids_ok (g <| g_rec := o |>).
Proof. by apply ids_ok_frame. Qed.
Lemma sim_rec p g r o : sim p g r -> sim p (g <| g_rec := o |>) r.
Proof. by intros []. Qed.

(** A delta whose object's identity has been interned, with or without a log. *)
Lemma tracked_steps op o g log : admitted o -> ids_ok g -> let g1 := (interned (object_key o) g) <| g_rec := log |> in
  ids_ok g1 /\ keys_of g `prefix_of` keys_of g1 /\ steps_to (id_of (object_key o) g) 0 g1 (applyDelta op o g1).2 /\
  forall r, sim 0 g r -> sim (id_of (object_key o) g) g1 r.
Proof.
  intros Ha Hok. cbv zeta.
  assert (object_key o <> "") as Hne by apply nodeKey_nonempty.
  destruct (interned_ok (object_key o) g Hok Hne) as (Hok1 & Hpre & Hk).
  split; [by apply ids_ok_rec|]. split; [exact Hpre|]. split.
  - apply applyDelta_handles; [done|by apply ids_ok_rec|right]. by apply (io_intern _ Hok1).
  - intros r Hs. by apply sim_rec, sim_intern.
Qed.

Lemma log_encode_nil l : log_encode (log_of l) = [] -> l = [].
Proof.
  unfold log_encode, log_of. cbn [el_n el_buf]. destruct (Z.eqb_spec (Z.of_nat (length l)) 0); [|done].
  destruct l; [done|]. simpl in *. lia.
Qed.

(** Records as [flushLocked] stamps them. *)
Definition stamp (gen : Z) (recs : list ChangeRecord) : list ChangeRecord :=
  (fun c => c <| ch_Generation := gen |>) <$> recs.

Definition short_effect (c : ChangeRecord) : Prop := Z.of_nat (length (ch_Effect c)) < 2 ^ 64.

(** Replaying [recs] follows the writer from [g] to [g']. *)
Definition follows (recs : list ChangeRecord) (g g' : gstate) : Prop :=
  carried (keys_of g') -> Forall short_effect recs ->
  forall gen r, rp_gen r <= gen -> sim 0 g r ->
  exists r', replay_records (stamp gen recs) r = Some r' /\ sim 0 g' r' /\ rp_watched r' = rp_watched r /\
    rp_gen r' = (match recs with [] => rp_gen r | _ => gen end).

Lemma sim_gen p g r gen : sim p g r -> sim p g (r <| rp_gen := gen |>).
Proof. by intros []. Qed.

Lemma follows_effects c es p g g1 g' : ch_Effect c = log_encode (log_of es) ->
  (carried (keys_of g') -> Forall effect_ok es) ->
  (forall r, sim 0 g r -> sim p g1 r) ->
  (forall r, sim p g1 r -> exists r', replay_effects es r = Some r' /\ sim 0 g' r' /\ same_header r r') ->
  follows [c] g g'.
Proof.
  intros Hc Hok H1 H2 Hcar Hsh gen r Hgen Hs.
  destruct (H2 (r <| rp_gen := gen |>)) as (r' & Hr' & Hs' & Hg & Hw); [by apply H1, sim_gen|].
  exists r'. split; [|done]. unfold stamp. cbn [fmap list_fmap replay_records]. inversion_clear Hsh as [|? ? Hlen _].
  unfold short_effect in Hlen. rewrite Hc in Hlen.
  change (ch_Effect (c <| ch_Generation := gen |>)) with (ch_Effect c). rewrite Hc.
  change (ch_Generation (c <| ch_Generation := gen |>)) with gen. by rewrite (Apply_log gen es r r') by auto.
Qed.

Definition delta_ok (d : pendingDelta) : Prop := admitted (dl_Object d).

Lemma trackChange_eq now d w g : exists c t,
  trackChange now d w g = (c, w <| wr_tracked := t |>, interned (object_key (dl_Object d)) g) /\ ch_Effect c = [].
Proof.
  unfold trackChange, intern_key, interned. destruct (objectIdentity _) as [[[kind ns] name] uid].
  destruct (intern _ _) as [id i]. cbn [snd]. destruct (bool_decide _); eexists _, _; split; done.
Qed.

Lemma flush_one_spec now d w g : delta_ok d -> rested g -> wr_onChange w = true ->
  let '(rec, w', g') := flush_one now d w g in
  rested g' /\ keys_of g `prefix_of` keys_of g' /\ (exists t, w' = w <| wr_tracked := t |>) /\
  (dl_sync d = false -> follows (option_list rec) g g').
Proof.
  intros Ha [Hok Hrec] Hon. unfold flush_one. rewrite Hon. cbn [negb].
  destruct (trackChange_eq now d w g) as (c & t & -> & Hc). destruct (dl_sync d).
  - destruct (tracked_steps (dl_Op d) (dl_Object d) g None Ha Hok) as (Hok1 & Hpre & Hst & _).
    set (g1 := (interned _ g) <| g_rec := None |>) in *.
    assert (interned (object_key (dl_Object d)) g = g1) as -> by (unfold g1, interned; rewrite <- Hrec; by destruct g).
    destruct (Hst Hok1) as (Hok2 & Hpre2 & Hn & _).
    split; [split; [done|by apply Hn]|]. split; [by etrans|]. split; [by eexists|done].
  - destruct (tracked_steps (dl_Op d) (dl_Object d) g (Some zero_log) Ha Hok) as (Hok1 & Hpre & Hst & Hsim).
    set (g1 := (interned _ g) <| g_rec := Some zero_log |>) in *.
    destruct (Hst Hok1) as (Hok2 & Hpre2 & _ & Hl). destruct (Hl []) as (es & Hes & Hcar & Hrep); [done|].
    destruct (applyDelta _ _ g1) as [u g2]. cbn [snd] in *. rewrite Hes. cbn [default app id].
    set (g' := g2 <| g_rec := None |>). set (c' := c <| ch_Effect := log_encode (log_of es) |>).
    assert (follows [c'] g g') as Hf.
    { eapply (follows_effects c' es); [done|done|exact Hsim|]. intros r Hr. destruct (Hrep r Hr) as (r' & ? & ? & ?).
      exists r'. split; [done|]. split; [by apply sim_rec|done]. }
    assert (rested g' /\ keys_of g `prefix_of` keys_of g' /\ exists t', w <| wr_tracked := t |> = w <| wr_tracked := t' |>)
      as (? & ? & ?) by (split; [split; [by apply ids_ok_rec|done]|]; split; [by etrans|by eexists]).
    destruct (ch_FieldChanges c') eqn:Efc; [destruct (ch_Effect c') eqn:Eef|]; cbn [option_list]; try by (do 3 (split; [done|])).
    do 3 (split; [done|]). intros _. apply log_encode_nil in Eef as ->. intros Hc' _ gen r Hgen Hs.
    destruct (Hrep r (Hsim r Hs)) as (r' & [= <-] & ? & ? & ?). exists r. split; [done|]. split; [by apply sim_rec|done].
Qed.

Lemma replay_records_app l l' r : replay_records (l ++ l') r = replay_records l r ≫= replay_records l'.
Proof.
  revert r; induction l as [|e l IH]; intros r; simpl; [done|]. destruct (Replayer_Apply _ _ r); simpl; [apply IH|done].
Qed.

Lemma follows_app l l' g g' g'' : keys_of g' `prefix_of` keys_of g'' ->
  follows l g g' -> follows l' g' g'' -> follows (l ++ l') g g''.
Proof.
  intros Hpre H1 H2 Hcar Hsh gen r Hgen Hs. apply Forall_app in Hsh as [Hsh Hsh'].
  destruct (H1 (carried_prefix _ _ Hpre Hcar) Hsh gen r Hgen Hs) as (r1 & Hr1 & Hs1 & Hw1 & Hg1).
  destruct (H2 Hcar Hsh' gen r1) as (r2 & Hr2 & Hs2 & Hw2 & Hg2); [|done|].
  { rewrite Hg1. destruct l; lia. }
  exists r2. unfold stamp. rewrite fmap_app, replay_records_app. unfold stamp in *. rewrite Hr1. split; [done|].
  split; [done|]. split; [congruence|]. rewrite Hg2. destruct l, l'; done.
Qed.

Lemma flush_all_spec now l : forall w g, Forall delta_ok l -> rested g -> wr_onChange w = true ->
  let '(recs, w', g') := flush_all now l w g in
  rested g' /\ keys_of g `prefix_of` keys_of g' /\ (exists t, w' = w <| wr_tracked := t |>) /\
  (Forall (fun d => dl_sync d = false) l -> follows recs g g').
Proof.
  induction l as [|d l IH]; intros w g Hl Hg Hon; cbn [flush_all].
  { split; [done|]. split; [done|]. split; [exists (wr_tracked w); by destruct w|].
    intros _ _ _ gen r _ Hs. by exists r. }
  inversion_clear Hl as [|? ? Hd Hl']. pose proof (flush_one_spec now d w g Hd Hg Hon) as H1.
  destruct (flush_one now d w g) as [[rec w1] g1]. destruct H1 as (Hg1 & Hp1 & [t1 ->] & Hf1).
  set (w1 := w <| wr_tracked := t1 |>). specialize (IH w1 g1 Hl' Hg1 Hon).
  destruct (flush_all now l w1 g1) as [[recs w2] g2]. destruct IH as (Hg2 & Hp2 & [t2 ->] & Hf2).
  split; [done|]. split; [by etrans|]. split; [by eexists|]. intros Hns. inversion_clear Hns as [|? ? Hd' Hl''].
  destruct rec; [eapply (follows_app [c])|eapply (follows_app [])]; eauto.
Qed.

(** *** Histories of a logging writer *)

(** What [publish] publishes of a state. *)
Definition snapshot_of (w : Writer) : Snapshot :=
  let g := wr_g w in
  mkSnapshot (g_nodes g) (g_out g) (g_in g) (g_edges g) (in_keys (g_intern g)) (in_ids (g_intern g))
    (wr_watched w) (wr_gen w).

Record writer_ok (w : Writer) : Prop := {
  wo_rested : rested (newBatch w);
  wo_logs : wr_onChange w = true;
  wo_snap : wr_snap w = None \/ wr_snap w = Some (snapshot_of w)
}.

(** A run of flushes, each with its clock reading and the queue it drains. *)
Fixpoint run_flushes (l : list (Z * list pendingDelta)) (w : Writer) : Writer :=
  match l with
  | [] => w
  | (now, pending) :: l => run_flushes l (flushLocked now pending w)
  end.

Lemma newBatch_snap w : wr_snap w = Some (snapshot_of w) -> newBatch w = wr_g w.
Proof. unfold newBatch. intros ->. by destruct w as [[]]. Qed.

(** A flush that has something to do, or nothing to answer with yet. *)
Lemma flushLocked_eq now pending w : wr_onChange w = true -> Forall delta_ok pending -> rested (newBatch w) ->
  (pending <> [] \/ wr_snap w = None) ->
  let '(recs, _, g) := flush_all now pending w (newBatch w) in
  let w' := flushLocked now pending w in
  wr_g w' = g /\ wr_gen w' = wr_gen w + 1 /\ wr_watched w' = wr_watched w /\ wr_onChange w' = true /\
  wr_snap w' = Some (snapshot_of w') /\ wr_emitted w' = wr_emitted w ++ stamp (wr_gen w + 1) recs.
Proof.
  intros Hon Hl Hg Hdo. pose proof (flush_all_spec now pending w _ Hl Hg Hon) as Hf. unfold flushLocked.
  destruct (flush_all now pending w (newBatch w)) as [[recs w1] g]. destruct Hf as (_ & _ & [t ->] & _).
  change (wr_onChange (w <| wr_tracked := t |>)) with (wr_onChange w). rewrite Hon. cbn [negb andb].
  destruct pending, (wr_snap w); try done. destruct Hdo; done.
Qed.

Lemma flushLocked_ok now pending w : writer_ok w -> Forall delta_ok pending -> writer_ok (flushLocked now pending w).
Proof.
  intros [Hg Hon Hsn] Hl. destruct (decide (pending <> [] \/ wr_snap w = None)) as [Hdo|Hno].
  - pose proof (flushLocked_eq now pending w Hon Hl Hg Hdo) as He. pose proof (flush_all_spec now pending w _ Hl Hg Hon) as Hf.
    destruct (flush_all now pending w (newBatch w)) as [[recs w1] g]. destruct Hf as (Hg' & _).
    destruct He as (Eg & _ & _ & Eon & Esn & _). split; [|done|by right]. rewrite newBatch_snap by done. by rewrite Eg.
  - unfold flushLocked. destruct pending; [|by destruct Hno; left]. destruct (wr_snap w) eqn:E; [|by destruct Hno; right].
    by split; rewrite ?E.
Qed.

Lemma load_all_spec objs : forall w g, Forall admitted objs -> rested g -> wr_onChange w = true ->
  let '(w', g') := load_all objs w g in
  rested g' /\ exists t, w' = w <| wr_tracked := t |>.
Proof.
  induction objs as [|o objs IH]; intros w g Hl Hg Hon; cbn [load_all].
  { split; [done|]. exists (wr_tracked w). by destruct w. }
  inversion_clear Hl as [|? ? Ho Hl']. rewrite Hon. unfold trackSeed. destruct Hg as [Hok Hrec].
  destruct (tracked_steps OpAdd o g None Ho Hok) as (Hok1 & _ & Hst & _).
  destruct (Hst Hok1) as (Hok2 & _ & Hn & _).
  assert (interned (object_key o) g = (interned (object_key o) g) <| g_rec := None |>) as Ei
    by (unfold interned; rewrite <- Hrec; by destruct g).
  rewrite <- Ei in *. unfold intern_key, interned in *. destruct (intern (object_key o) (g_intern g)) as [id i].
  cbn [snd] in *. set (w1 := w <| wr_tracked ::= _ |>). specialize (IH w1 _ Hl' (conj Hok2 (Hn Hrec)) Hon).
  destruct (load_all objs w1 _) as [w2 g2]. destruct IH as [? [t ->]]. split; [done|by eexists].
Qed.

Lemma FromObjects_ok objs w : writer_ok w -> Forall admitted objs -> writer_ok (FromObjects objs w).
Proof.
  intros [Hg Hon Hsn] Hl. unfold FromObjects. pose proof (load_all_spec objs w _ Hl Hg Hon) as Hf.
  destruct (load_all objs w (newBatch w)) as [w1 g]. destruct Hf as [Hg' [t ->]].
  split; [|done|by right]. by rewrite newBatch_snap.
Qed.

Lemma New_ok watched : writer_ok (New watched true).
Proof.
  split; [|done|by left]. split; [|done]. split; [apply zero_interner_ok|..]; unfold newBatch, New, empty_g; cbn.
  - intros id key Hk%key_at_range. simpl in Hk. lia.
  - intros id [? ?]. by rewrite lookup_empty in *.
  - intros src e He. unfold declared_by in He. simpl in He. rewrite lookup_empty in He. set_solver.
  - intros ns id [? Hx]. unfold pods_of in Hx. simpl in Hx. by rewrite !lookup_empty in Hx.
  - intros ns id ent Hx. unfold selectors_of in Hx. simpl in Hx. by rewrite !lookup_empty in Hx.
Qed.

(** The writers a logging process can have: loaded, synced and flushed. *)
Inductive reached (watched : list NodeKind) : Writer -> Prop :=
  | reached_new : reached watched (New watched true)
  | reached_load w objs : reached watched w -> Forall admitted objs -> reached watched (FromObjects objs w)
  | reached_flush w now pending : reached watched w -> Forall delta_ok pending ->
      reached watched (flushLocked now pending w).

Lemma reached_ok watched w : reached watched w -> writer_ok w.
Proof. induction 1; [apply New_ok|by apply FromObjects_ok|by apply flushLocked_ok]. Qed.

Definition live_batch (b : Z * list pendingDelta) : Prop :=
  Forall delta_ok b.2 /\ Forall (fun d => dl_sync d = false) b.2.

Lemma flushLocked_idle now w s : wr_snap w = Some s -> flushLocked now [] w = w.
Proof. intros Hs. unfold flushLocked. by rewrite Hs. Qed.

(** One flush of live deltas, followed by a replayer. *)
Lemma flush_follows now pending w : writer_ok w -> wr_snap w = Some (snapshot_of w) -> live_batch (now, pending) ->
  let w' := flushLocked now pending w in
  exists recs, wr_emitted w' = wr_emitted w ++ stamp (wr_gen w') recs /\ wr_watched w' = wr_watched w /\
    wr_snap w' = Some (snapshot_of w') /\ wr_gen w <= wr_gen w' /\ keys_of (wr_g w) `prefix_of` keys_of (wr_g w') /\
    follows recs (wr_g w) (wr_g w').
Proof.
  intros [Hg Hon _] Hsn [Hl Hlive]. cbn [snd] in *. cbv zeta. destruct (decide (pending = [])) as [->|Hne].
  { rewrite (flushLocked_idle _ _ _ Hsn). exists []. rewrite app_nil_r. do 5 (split; [done|]).
    intros _ _ gen r _ Hs. by exists r. }
  pose proof (flushLocked_eq now pending w Hon Hl Hg (or_introl Hne)) as He.
  pose proof (flush_all_spec now pending w _ Hl Hg Hon) as Hf. rewrite (newBatch_snap w Hsn) in *.
  destruct (flush_all now pending w (wr_g w)) as [[recs w1] g]. destruct Hf as (_ & Hpre & _ & Hfol).
  destruct He as (Eg & Egen & Ew & _ & Esn & Eem). exists recs. rewrite Eg, Egen.
  split; [done|]. split; [done|]. split; [done|]. split; [lia|]. split; [done|by apply Hfol].
Qed.

Lemma last_stamp gen recs : ch_Generation <$> last (stamp gen recs) = match recs with [] => None | _ => Some gen end.
Proof. unfold stamp. rewrite fmap_last. destruct recs as [|c recs]; [done|]. by destruct (last (c :: recs)) eqn:E; [|apply last_None in E]. Qed.

Lemma last_app_gen {A} (f : A -> Z) l l' d :
  default d (f <$> last (l ++ l')) = default (default d (f <$> last l)) (f <$> last l').
Proof. rewrite last_app. by destruct (last l'). Qed.

Lemma run_follows l : forall w, writer_ok w -> wr_snap w = Some (snapshot_of w) -> Forall live_batch l ->
  let w' := run_flushes l w in
  wr_snap w' = Some (snapshot_of w') /\ writer_ok w' /\ keys_of (wr_g w) `prefix_of` keys_of (wr_g w') /\
  exists recs, wr_emitted w' = wr_emitted w ++ recs /\
    (carried (keys_of (wr_g w')) -> Forall short_effect recs ->
     forall r, sim 0 (wr_g w) r -> rp_gen r <= wr_gen w ->
     exists r', replay_records recs r = Some r' /\ sim 0 (wr_g w') r' /\ rp_watched r' = rp_watched r /\
       rp_gen r' = default (rp_gen r) (ch_Generation <$> last recs)).
Proof.
  induction l as [|[now pending] l IH]; intros w Hok Hsn Hl; cbn [run_flushes].
  { do 3 (split; [done|]). exists []. rewrite app_nil_r. split; [done|]. intros _ _ r Hs _. by exists r. }
  inversion_clear Hl as [|? ? Hb Hl']. pose proof (flushLocked_ok now pending w Hok (proj1 Hb)) as Hok1.
  destruct (flush_follows now pending w Hok Hsn Hb) as (recs1 & Eem & _ & Esn & Hgen & Hpre & Hf).
  set (w1 := flushLocked now pending w) in *.
  destruct (IH w1 Hok1 Esn Hl') as (Hsn' & Hok' & Hpre' & recs2 & Eem2 & Hf2). cbv zeta.
  split; [done|]. split; [done|]. split; [by etrans|]. exists (stamp (wr_gen w1) recs1 ++ recs2).
  split; [by rewrite app_assoc, <- Eem|]. intros Hcar Hsh r Hs Hr. apply Forall_app in Hsh as [Hsh1 Hsh2].
  assert (Forall short_effect recs1) as Hsh1' by (unfold stamp in Hsh1; by rewrite Forall_fmap in Hsh1).
  destruct (Hf (carried_prefix _ _ Hpre' Hcar) Hsh1' (wr_gen w1) r ltac:(lia) Hs) as (r1 & Hr1 & Hs1 & Hw1 & Hg1).
  destruct (Hf2 Hcar Hsh2 r1 Hs1) as (r2 & Hr2 & Hs2 & Hw2 & Hg2); [rewrite Hg1; destruct recs1; lia|].
  exists r2. rewrite replay_records_app, Hr1. split; [done|]. split; [done|]. split; [congruence|].
  rewrite Hg2, Hg1, last_app_gen, last_stamp. by destruct recs1.
Qed.

Lemma sim_start w : writer_ok w -> sim 0 (wr_g w) (NewReplayer (snapshot_of w)).
Proof.
  intros [[Hok _] _ Hsn]. assert (interner_ok (g_intern (wr_g w))) as Hi.
  { pose proof (io_intern _ Hok) as Hi. unfold newBatch in Hi. by destruct (wr_snap w). }
  split; try done.
  intros key id _. change (index_keys (keys_of (wr_g w)) !! key = Some id <-> key_at (keys_of (wr_g w)) id = Some key).
  rewrite (index_keys_spec _ Hi). apply Hi.
Qed.

(** A replayer in agreement answers with the live snapshot. *)
Lemma sim_snapshot w r : writer_ok w -> wr_snap w = Some (snapshot_of w) -> sim 0 (wr_g w) r ->
  rp_watched r = wr_watched w -> Replayer_Snapshot r = (snapshot_of w) <| sn_generation := rp_gen r |>.
Proof.
  intros [[Hok _] _ _] Hsn [S1 S2 S3 S4 S5 S6 S7 S8 S9] Hw. rewrite newBatch_snap in Hok by done.
  pose proof (key_at_ext _ _ S6) as Ek. unfold Replayer_Snapshot, snapshot_of. cbn.
  by rewrite S1, S2, S3, S4, Ek, Hw, (index_keys_spec _ (io_intern _ Hok)).
Qed.

Lemma run_watched l : forall w, writer_ok w -> wr_snap w = Some (snapshot_of w) -> Forall live_batch l ->
  wr_watched (run_flushes l w) = wr_watched w.
Proof.
  induction l as [|[now pending] l IH]; intros w Hok Hsn Hl; cbn [run_flushes]; [done|].
  inversion_clear Hl as [|? ? Hb Hl']. pose proof (flushLocked_ok now pending w Hok (proj1 Hb)) as Hok1.
  destruct (flush_follows now pending w Hok Hsn Hb) as (recs1 & _ & Ew & Esn & _). by rewrite IH.
Qed.

(** C17: whatever a logging writer ingested before its snapshot [base], the change records
    it emitted for the live deltas flushed since, replayed in order over [base], rebuild
    the live snapshot exactly: nodes, both adjacencies, edge count, identity table and
    watched kinds; the generation is the last record's. The identities must fit the
    format (ids of 32 bits, keys of at most 4096 bytes). *)
Theorem replay_reconstructs_live watched w batches base live recs :
  reached watched w -> Forall live_batch batches -> wr_snap w = Some base ->
  let w' := run_flushes batches w in
  wr_snap w' = Some live -> wr_emitted w' = wr_emitted w ++ recs ->
  carried (sn_keys live) -> Forall short_effect recs ->
  exists r, replay_records recs (NewReplayer base) = Some r /\
    Replayer_Snapshot r = live <| sn_generation := default (sn_generation base) (ch_Generation <$> last recs) |>.
Proof.
  intros Hw Hl Hb w' Hlive Hem Hcar Hsh. pose proof (reached_ok _ _ Hw) as Hok.
  assert (wr_snap w = Some (snapshot_of w)) as Hsn by (destruct (wo_snap _ Hok) as [E|E]; congruence).
  assert (base = snapshot_of w) as -> by congruence.
  destruct (run_follows batches w Hok Hsn Hl) as (Hsn' & Hok' & _ & recs' & Hem' & Hf). fold w' in Hsn', Hok', Hem', Hf.
  assert (live = snapshot_of w') as -> by congruence. assert (recs' = recs) as -> by (apply (app_inv_head (wr_emitted w)); congruence).
  destruct (Hf Hcar Hsh _ (sim_start w Hok)) as (r & Hr & Hs & Hwt & Hg); [done|].
  exists r. split; [done|]. rewrite (sim_snapshot w' r Hok' Hsn' Hs); [by rewrite Hg|].
  rewrite Hwt. unfold w'. by rewrite run_watched.
Qed.
End flushes.

(** ** A concrete history *)

Lemma forallb_Forall {A} (f : A -> bool) (P : A -> Prop) l : (forall x, f x = true -> P x) -> forallb f l = true -> Forall P l.
Proof. intros Hf Hl. apply list.Forall_forall. intros x Hx%list_elem_of_In. apply Hf. by apply (proj1 (forallb_forall f l) Hl). Qed.

Module Example_.
#[local] Existing Instance labels.
#[local] Existing Instance plain_range.

(** A service comes, a pod moves, another one goes. *)
Definition history : list (Z * list pendingDelta) :=
  [(1, [mkDelta OpAdd svc false; mkDelta OpAdd (pod "web-b" "n1") false]); (2, []);
   (3, [mkDelta OpUpdate (pod "web-b" "n2") false; mkDelta OpDelete (pod "web-a" "n1") false])].

Lemma replay_reconstructs_live_witness :
  let w := run_flushes history loaded in
  length (wr_emitted w) = 4%nat /\ sn_edges (snap loaded) <> sn_edges (snap w) /\
  exists r, replay_records (wr_emitted w) (NewReplayer (snap loaded)) = Some r /\
    Replayer_Snapshot r = (snap w) <| sn_generation := default (sn_generation (snap loaded))
      (ch_Generation <$> last (wr_emitted w)) |>.
Proof.
  cbv zeta. split; [vm_compute; reflexivity|]. split; [vm_compute; discriminate|].
  apply (replay_reconstructs_live [] loaded history (snap loaded) (snap (run_flushes history loaded))).
  - apply reached_load; [apply reached_new|]. repeat constructor; try (right; vm_compute; reflexivity); intros [? | ?]; discriminate.
  - repeat constructor; try (right; vm_compute; reflexivity); intros [? | ?]; discriminate.
  - vm_compute; reflexivity.
  - vm_compute; reflexivity.
  - vm_compute; reflexivity.
  - split; [vm_compute; discriminate|]. apply (forallb_Forall (fun k => Z.of_nat (String.length k) <=? maxRestoreStringLen)).
    { intros k. apply Z.leb_le. }
    vm_compute; reflexivity.
  - apply (forallb_Forall (fun c => Z.of_nat (length (ch_Effect c)) <? 2 ^ 64)); [intros k; apply Z.ltb_lt|].
    vm_compute; reflexivity.
Defined.
End Example_.
