(* ===== verification/GraphQuery.v ===== *)
(** Traversals of a topology snapshot (src/pkg/graph/query.go): blast radius, owner
    chains, common ancestors, the pods and the dependency edges of a workload.

    The breadth-first walks are shown exact: a node is reported iff its distance from
    the origin is within the limit, with that distance. *)
From S2P Require Import Prelude GoStrings GoHash GoFmt GoSort Effects GraphTypes GraphCodec GraphChanges GraphWriter.
Import ShopGraph.
From stdpp Require Import sorting.
Open Scope Z_scope.
Open Scope lookout_scope.

(** ** Breadth-first search

    The loop of [directedBFS] and [ancestorDepths], over the edges [succ] of a node, each
    with a label. *)
Section bfs.
Context {L : Type} (succ : NodeID -> list (NodeID * L)).

(** A node reached: its depth and the label that reached it first. *)
Notation reached_ := (NodeID * (Z * L))%type (only parsing).

Record walk_st := mkWalk { wk_visited : gset NodeID; wk_hits : list reached_; wk_next : list NodeID }.

Definition visit (depth : Z) (st : walk_st) (e : NodeID * L) : walk_st :=
  if bool_decide (e.1 ∈ wk_visited st) then st
  else mkWalk ({[ e.1 ]} ∪ wk_visited st) (wk_hits st ++ [(e.1, (depth, e.2))]) (wk_next st ++ [e.1]).

Definition bfs_level (depth : Z) (st : walk_st) : walk_st :=
  foldl (fun st n => foldl (visit depth) st (succ n)) (st <| wk_next := [] |>) (wk_next st).

(** [for depth := 1; depth <= maxDepth && len(frontier) > 0; depth++], [limit] levels left. *)
Fixpoint bfs_loop (limit : nat) (depth : Z) (st : walk_st) : walk_st :=
  match limit, wk_next st with
  | O, _ | _, [] => st
  | S limit, _ => bfs_loop limit (depth + 1) (bfs_level depth st)
  end.

Definition bfs (origin : NodeID) (maxDepth : Z) : list reached_ :=
  wk_hits (bfs_loop (Z.to_nat maxDepth) 1 (mkWalk {[ origin ]} [] [origin])).
End bfs.
Arguments walk_st : clear implicits.

(** ** Blast radius *)

Record Hit := mkHit { hit_ID : NodeID; hit_Depth : Z; hit_Via : EdgeKind; hit_Anchor : NodeID }.
Record RadiusResult := mkRadius { rr_Origin : NodeID; rr_Up : list Hit; rr_Down : list Hit; rr_Lateral : list Hit }.

Definition lateralKinds (k : NodeKind) : bool :=
  match k with
  | KindNode | KindZone | KindConfigMap | KindSecret | KindPersistentVolumeClaim => true
  | _ => false
  end.

Definition along (adj : gmap NodeID (list Edge)) (n : NodeID) : list (NodeID * EdgeKind) :=
  (fun e => (ed_To e, ed_Kind e)) <$> edges_of adj n.

Definition directedBFS (origin : NodeID) (maxDepth : Z) (adj : gmap NodeID (list Edge)) : list Hit :=
  (fun '(id, (depth, via)) => mkHit id depth via NoNode) <$> bfs (along adj) origin maxDepth.

Definition hit_le (a b : Hit) : Prop :=
  hit_Depth a < hit_Depth b \/ (hit_Depth a = hit_Depth b /\ hit_ID a <= hit_ID b).
#[global] Instance hit_le_dec : RelDecision hit_le.
Proof. intros a b. unfold hit_le. apply _. Defined.

Definition sortHits (hits : list Hit) : list Hit := merge_sort hit_le hits.

Section queries.
Variable s : Snapshot.

Definition kind_of (id : NodeID) : NodeKind := ni_kind (default zero_info (sn_nodes s !! id)).

(** The co-tenants of one shared node. *)
Definition lateral_edge (h : Hit) (st : gset NodeID * list Hit) (e : Edge) : gset NodeID * list Hit :=
  let '(seen, lat) := st in
  if negb (bool_decide (ed_Kind e = EdgeRunsOn)) && negb (bool_decide (ed_Kind e = EdgeMounts)) then (seen, lat)
  else if bool_decide (ed_To e ∈ seen) then (seen, lat)
  else ({[ ed_To e ]} ∪ seen, lat ++ [mkHit (ed_To e) (hit_Depth h + 1) (ed_Kind e) (hit_ID h)]).

Definition laterals (st : gset NodeID * list Hit) (h : Hit) : gset NodeID * list Hit :=
  if negb (lateralKinds (kind_of (hit_ID h))) then st
  else foldl (lateral_edge h) st (edges_of (sn_in s) (hit_ID h)).

Definition Radius (origin : NodeID) (maxDepth : Z) : RadiusResult :=
  if (maxDepth <=? 0) || bool_decide (sn_nodes s !! origin = None) then mkRadius origin [] [] []
  else
    let up := directedBFS origin maxDepth (sn_in s) in
    let down := directedBFS origin maxDepth (sn_out s) in
    let seen := {[ origin ]} ∪ list_to_set (hit_ID <$> up) ∪ list_to_set (hit_ID <$> down) in
    mkRadius origin (sortHits up) (sortHits down) (sortHits (foldl laterals (seen, []) down).2).

(** ** Owners *)

Definition ownerChainMax : nat := 16.

(** The lowest owner; [NoNode] when there is none. *)
Definition lowest_owner (cur : NodeID) : NodeID :=
  foldl (fun owner e =>
    if negb (bool_decide (ed_Kind e = EdgeOwns)) then owner
    else if (owner =? NoNode) || (ed_To e <? owner) then ed_To e else owner) NoNode (edges_of (sn_in s) cur).

Fixpoint owner_loop (limit : nat) (visited : gset NodeID) (cur : NodeID) : list NodeID :=
  match limit with
  | O => []
  | S limit =>
      let owner := lowest_owner cur in
      if owner =? NoNode then []
      else if bool_decide (owner ∈ visited) then []
      else owner :: owner_loop limit ({[ owner ]} ∪ visited) owner
  end.

Definition OwnerChain (id : NodeID) : list NodeID := owner_loop ownerChainMax {[ id ]} id.

(** ** Ancestors *)

Definition ancestorMaxDepth : Z := 8.

(** What [visit] is called on for one node: owners, placement and configuration, namespace. *)
Definition ancestors (n : NodeID) : list NodeID :=
  List.filter (fun m => negb (m =? NoNode))
    ((ed_To <$> List.filter (fun e => bool_decide (ed_Kind e = EdgeOwns)) (edges_of (sn_in s) n)) ++
     (ed_To <$> List.filter (fun e => bool_decide (ed_Kind e = EdgeRunsOn) || bool_decide (ed_Kind e = EdgeMounts))
        (edges_of (sn_out s) n)) ++
     [ni_ns (default zero_info (sn_nodes s !! n))]).

(** [depths] is what the walk has visited, each node with its depth. *)
Definition ancestorDepths (id : NodeID) : gmap NodeID Z :=
  if bool_decide (sn_nodes s !! id = None) then ∅
  else list_to_map ((id, 0) :: ((fun '(n, (depth, _)) => (n, depth)) <$>
         bfs (fun n => (fun m => (m, tt)) <$> ancestors n) id ancestorMaxDepth)).

(** What the inputs after the first leave of [common]. *)
Definition narrow (common : gmap NodeID Z) (id : NodeID) : gmap NodeID Z :=
  if bool_decide (common = ∅) then common
  else merge (fun d nd => match d, nd with Some d, Some nd => Some (if d <? nd then nd else d) | _, _ => None end)
         common (ancestorDepths id).

Definition near_le (a b : Z * NodeID) : Prop := a.1 < b.1 \/ (a.1 = b.1 /\ a.2 <= b.2).
#[global] Instance near_le_dec : RelDecision near_le.
Proof. intros a b. unfold near_le. apply _. Defined.

Definition CommonAncestors (ids : list NodeID) : list NodeID :=
  match ids with
  | [] => []
  | id :: ids =>
      let common := foldl narrow (ancestorDepths id) ids in
      (merge_sort near_le ((fun '(n, d) => (d, n)) <$> map_to_list common)).*2
  end.

(** ** Workloads *)

Record pods_st := mkPods { pu_visited : gset NodeID; pu_stack : list NodeID; pu_pods : list NodeID }.

Definition pods_edge (st : pods_st) (e : Edge) : pods_st :=
  if negb (bool_decide (ed_Kind e = EdgeOwns)) then st
  else if bool_decide (ed_To e ∈ pu_visited st) then st
  else
    let st := st <| pu_visited ::= union {[ ed_To e ]} |> in
    if bool_decide (kind_of (ed_To e) = KindPod) then st <| pu_pods ::= fun l => l ++ [ed_To e] |>
    else st <| pu_stack ::= cons (ed_To e) |>.

(** [None]: out of fuel. The stack's top is the list's head. *)
Fixpoint pods_loop (fuel : nat) (st : pods_st) : option (list NodeID) :=
  match pu_stack st with
  | [] => Some (pu_pods st)
  | n :: stack =>
      match fuel with
      | O => None
      | S fuel => pods_loop fuel (foldl pods_edge (st <| pu_stack := stack |>) (edges_of (sn_out s) n))
      end
  end.

(** A node is pushed once, when an edge first reaches it. *)
Definition edge_bound : nat := S (length (concat (map_to_list (sn_out s)).*2)).

Definition PodsUnder (id : NodeID) : option (list NodeID) :=
  match sn_nodes s !! id with
  | None => Some []
  | Some info =>
      if bool_decide (ni_kind info = KindPod) then Some [id]
      else merge_sort Z.le <$> pods_loop edge_bound (mkPods {[ id ]} [id] [])
  end.

Record WorkloadEdge := mkWEdge { we_From : NodeID; we_To : NodeID; we_Kind : EdgeKind }.

#[global] Instance WorkloadEdge_eq_dec : EqDecision WorkloadEdge.
Proof. solve_decision. Defined.

Definition we_le (a b : WorkloadEdge) : Prop :=
  edge_byte (we_Kind a) < edge_byte (we_Kind b) \/
  (we_Kind a = we_Kind b /\ (we_From a < we_From b \/ (we_From a = we_From b /\ we_To a <= we_To b))).
#[global] Instance we_le_dec : RelDecision we_le.
Proof. intros a b. unfold we_le. apply _. Defined.

(** What one pod [p] of the workload adds. *)
Definition pod_edges (id p : NodeID) : list WorkloadEdge :=
  ((fun e => mkWEdge id (ed_To e) (ed_Kind e)) <$>
     List.filter (fun e => negb (bool_decide (ed_Kind e = EdgeContains))) (edges_of (sn_out s) p)) ++
  concat ((fun e =>
    mkWEdge (ed_To e) id (ed_Kind e) ::
    ((fun e2 => mkWEdge (ed_To e2) (ed_To e) EdgeRoutesTo) <$>
       List.filter (fun e2 => bool_decide (ed_Kind e2 = EdgeRoutesTo)) (edges_of (sn_in s) (ed_To e)))) <$>
    List.filter (fun e => bool_decide (ed_Kind e ∈ [EdgeSelects; EdgeGoverns; EdgeRoutesTo])) (edges_of (sn_in s) p)).

Definition WorkloadEdges (id : NodeID) : option (list WorkloadEdge) :=
  match sn_nodes s !! id with
  | None => Some []
  | Some _ =>
      pods ← PodsUnder id;
      let pods := match pods with [] => [id] | _ => pods end in
      Some (merge_sort we_le (remove_dups (concat (pod_edges id <$> pods))))
  end.
End queries.

(** ** The walks are exact *)

(** The loops keep, of the candidates in order, each first one of a key not seen yet. *)
Section once.
Context {A : Type} (key : A -> NodeID).

Definition once_step (st : gset NodeID * list A) (x : A) : gset NodeID * list A :=
  if bool_decide (key x ∈ st.1) then st else ({[ key x ]} ∪ st.1, st.2 ++ [x]).

Lemma foldl_once cands : forall seen l, exists new,
  (foldl once_step (seen, l) cands).2 = l ++ new /\
  (forall x, x ∈ (foldl once_step (seen, l) cands).1 <-> x ∈ seen \/ x ∈ key <$> cands) /\
  NoDup (key <$> new) /\ (forall x, x ∈ key <$> new <-> x ∈ key <$> cands /\ x ∉ seen) /\
  (forall c, c ∈ new -> c ∈ cands).
Proof.
  induction cands as [|c cands IH]; intros seen l; cbn [foldl].
  { exists []. rewrite app_nil_r. split; [done|]. split; [set_solver|]. split; [constructor|set_solver]. }
  unfold once_step at 2 4. cbn [fst snd]. case_bool_decide as Hc.
  - destruct (IH seen l) as (new & E1 & E2 & E3 & E4 & E5). exists new. split; [done|].
    setoid_rewrite E2. setoid_rewrite E4. rewrite fmap_cons. split; [set_solver|]. split; [done|set_solver].
  - destruct (IH ({[ key c ]} ∪ seen) (l ++ [c])) as (new & E1 & E2 & E3 & E4 & E5). exists (c :: new).
    rewrite E1, <- app_assoc. split; [done|]. setoid_rewrite E2. rewrite !fmap_cons. split; [set_solver|].
    split; [constructor; [rewrite E4; set_solver|done]|]. split; [|set_solver].
    intros x. rewrite !list.elem_of_cons, E4. destruct (decide (x = key c)); set_solver.
Qed.
End once.

Section bfs_spec.
Context {L : Type} (succ : NodeID -> list (NodeID * L)) (o : NodeID).

(** A walk of [n] edges from the origin. *)
Fixpoint walk (n : nat) (x : NodeID) : Prop :=
  match n with
  | O => x = o
  | S n => exists y l, walk n y /\ (x, l) ∈ succ y
  end.

(** [x] is [d] edges away and no fewer. *)
Definition dist (x : NodeID) (d : nat) : Prop := walk d x /\ forall k, (k < d)%nat -> ~ walk k x.

Lemma dist_step x d : dist x (S d) <-> (exists y l, dist y d /\ (x, l) ∈ succ y) /\ forall k, (k <= d)%nat -> ~ walk k x.
Proof.
  split.
  - intros [(y & l & Hy & He) Hno]. split; [|intros k ?; apply Hno; lia].
    exists y, l. split; [split; [done|]|done]. intros k Hk Hw. apply (Hno (S k)); [lia|]. by exists y, l.
  - intros [(y & l & [Hy _] & He) Hno]. split; [by exists y, l|]. intros k ?. apply Hno. lia.
Qed.

Lemma dist_inj x d d' : dist x d -> dist x d' -> d = d'.
Proof.
  intros [H1 H2] [H1' H2']. destruct (Nat.lt_trichotomy d d') as [Hlt|[|Hlt]]; [|done|].
  - by destruct (H2' _ Hlt).
  - by destruct (H2 _ Hlt).
Qed.

(** Every level up to a reached one is inhabited. *)
Lemma dist_below x k d : (d <= k)%nat -> dist x k -> exists y, dist y d.
Proof.
  intros Hle; revert x; induction Hle as [|k Hle IH]; intros x Hx; [by exists x|].
  apply dist_step in Hx as [(y & l & Hy & _) _]. by apply (IH y).
Qed.

Lemma visit_once depth (es : list (NodeID * L)) : forall st : walk_st L,
  let cands := (fun e => (e.1, (depth, e.2))) <$> es in
  let r := foldl (once_step fst) (wk_visited st, []) cands in
  foldl (visit depth) st es = mkWalk r.1 (wk_hits st ++ r.2) (wk_next st ++ r.2.*1).
Proof.
  cbv zeta. induction es as [|[x l] es IH] using rev_ind; intros st; simpl; [by rewrite !app_nil_r; destruct st|].
  rewrite fmap_app, !foldl_app, IH. simpl. set (r := foldl _ _ _). unfold visit, once_step. simpl.
  case_bool_decide; simpl; [done|]. by rewrite fmap_app, !app_assoc.
Qed.

Lemma visit_all depth (es : list (NodeID * L)) (st : walk_st L) : exists new,
  let st' := foldl (visit depth) st es in
  wk_hits st' = wk_hits st ++ new /\ wk_next st' = wk_next st ++ new.*1 /\
  (forall x, x ∈ wk_visited st' <-> x ∈ wk_visited st \/ x ∈ es.*1) /\
  NoDup new.*1 /\ (forall x, x ∈ new.*1 <-> x ∈ es.*1 /\ x ∉ wk_visited st) /\
  (forall h, h ∈ new -> h.2.1 = depth /\ (h.1, h.2.2) ∈ es).
Proof.
  rewrite visit_once. set (cands := (fun e => (e.1, (depth, e.2))) <$> es).
  assert (cands.*1 = es.*1) as Ec by (unfold cands; rewrite <- list_fmap_compose; by apply list_fmap_ext).
  destruct (foldl_once fst cands (wk_visited st) []) as (new & E1 & E2 & E3 & E4 & E5). rewrite E1, Ec in *.
  exists new. simpl. split; [done|]. split; [done|]. split; [done|]. split; [done|]. split; [done|].
  intros h Hh%E5. apply list_elem_of_fmap in Hh as ([x l] & -> & Hx). done.
Qed.

(** The state of the walk once [d] levels are done. *)
Record walked (d : nat) (st : walk_st L) : Prop := {
  wd_visited : forall x, x ∈ wk_visited st <-> exists k, (k <= d)%nat /\ walk k x;
  wd_next : forall x, x ∈ wk_next st <-> dist x d;
  wd_once : NoDup (wk_hits st).*1;
  wd_all : forall x, x ∈ (wk_hits st).*1 <-> exists k, (1 <= k <= d)%nat /\ dist x k;
  wd_sound : forall h, h ∈ wk_hits st -> exists k y, h.2.1 = Z.of_nat (S k) /\ dist h.1 (S k) /\ dist y k /\ (h.1, h.2.2) ∈ succ y
}.

Lemma walked_start : walked 0 (mkWalk {[ o ]} [] [o]).
Proof.
  split; simpl.
  - intros x. rewrite elem_of_singleton. split; [intros ->; by exists 0%nat|]. intros (k & Hk & Hw).
    by destruct k; [|lia].
  - intros x. rewrite list_elem_of_singleton. split; [intros ->; split; [done|lia]|by intros [? _]].
  - constructor.
  - intros x. split; [set_solver|]. intros (k & ? & _). lia.
  - set_solver.
Qed.

Lemma level_edges depth l : forall st : walk_st L,
  foldl (fun st n => foldl (visit depth) st (succ n)) st l = foldl (visit depth) st (concat (succ <$> l)).
Proof. induction l as [|n l IH]; intros st; simpl; [done|]. by rewrite IH, foldl_app. Qed.

Lemma elem_of_level x l : x ∈ (concat (succ <$> l)).*1 <-> exists y lb, y ∈ l /\ (x, lb) ∈ succ y.
Proof.
  rewrite list_elem_of_fmap. split.
  - intros ([x' lb] & -> & Hin). apply list_elem_of_In, in_concat in Hin as (es & Hes & Hx).
    apply list_elem_of_In in Hes, Hx. apply list_elem_of_fmap in Hes as (y & -> & Hy). by exists y, lb.
  - intros (y & lb & Hy & Hx). exists (x, lb). split; [done|]. apply list_elem_of_In, in_concat. exists (succ y).
    split; apply list_elem_of_In; [|done]. apply list_elem_of_fmap. by exists y.
Qed.

Lemma bfs_level_walked d st : walked d st -> walked (S d) (bfs_level succ (Z.of_nat (S d)) st).
Proof.
  intros [H1 H2 H3 H4 H5]. unfold bfs_level. rewrite level_edges.
  destruct (visit_all (Z.of_nat (S d)) (concat (succ <$> wk_next st)) (st <| wk_next := [] |>)) as (new & E1 & E2 & E3 & E4 & E5 & E6).
  set (st' := foldl _ _ _) in *. cbv zeta in *. simpl in *.
  assert (forall x, x ∈ (concat (succ <$> wk_next st)).*1 <-> exists y lb, dist y d /\ (x, lb) ∈ succ y) as He.
  { intros x. rewrite elem_of_level. by setoid_rewrite H2. }
  assert (forall x, x ∈ new.*1 <-> dist x (S d)) as Hnew.
  { intros x. rewrite E5, He, dist_step, H1. split; intros [? Hno]; (split; [done|]); [|by intros (k & ? & ?); eapply Hno].
    intros k Hk Hw. apply Hno. by exists k. }
  split.
  - intros x. rewrite E3, H1, He. split.
    + intros [(k & Hk & Hw)|(y & lb & [Hy _] & Hx)]; [exists k; split; [lia|done]|]. exists (S d). split; [done|by exists y, lb].
    + intros (k & Hk & Hw). destruct (decide (k <= d)%nat); [left; by exists k|]. assert (k = S d) as -> by lia.
      destruct (decide (x ∈ wk_visited st)) as [Hv|Hno]; [left; by apply H1|right].
      apply (dist_step x d). split; [done|]. intros k Hlt Hk'. apply Hno, H1. exists k. split; [lia|done].
  - intros x. by rewrite E2.
  - rewrite E1, fmap_app. apply NoDup_app. split; [done|]. split; [|done]. intros x Hx Hx'.
    apply H4 in Hx as (k & Hk & Hd). apply Hnew in Hx'. pose proof (dist_inj _ _ _ Hd Hx'). lia.
  - intros x. rewrite E1, fmap_app, elem_of_app, H4, Hnew. split.
    + intros [(k & ? & ?)|?]; [exists k|exists (S d)]; split; try done; lia.
    + intros (k & Hk & Hd). destruct (decide (k = S d)) as [->|]; [by right|left; exists k; split; [lia|done]].
  - intros h. rewrite E1, elem_of_app. intros [Hh|Hh]; [by apply H5|]. destruct (E6 h Hh) as [Hz Hin].
    assert (h.1 ∈ new.*1) as Hx by by apply list_elem_of_fmap_2.
    apply Hnew in Hx.
    assert (exists y, dist y d /\ (h.1, h.2.2) ∈ succ y) as (y & Hy & Hs).
    { apply list_elem_of_In, in_concat in Hin as (es & Hes & Hin). apply list_elem_of_In in Hes, Hin.
      apply list_elem_of_fmap in Hes as (y & -> & Hy). exists y. split; [by apply H2|done]. }
    exists d, y. by rewrite Hz.
Qed.

(** Where the loop stops: at the limit, or with nothing further away. *)
Lemma bfs_loop_walked limit : forall d st, walked d st -> exists d',
  walked d' (bfs_loop succ limit (Z.of_nat (S d)) st) /\ (d <= d' <= d + limit)%nat /\
  (d' = (d + limit)%nat \/ forall x k, (d' <= k)%nat -> ~ dist x k).
Proof.
  induction limit as [|limit IH]; intros d st Hst; [exists d; split; [done|]; split; [lia|left; lia]|]. simpl.
  destruct (wk_next st) as [|n next] eqn:E.
  - exists d. split; [done|]. split; [lia|]. right. intros x k Hk Hx.
    destruct (dist_below x k d Hk Hx) as [y Hy%(wd_next _ _ Hst)]. rewrite E in Hy. set_solver.
  - destruct (IH (S d) _ (bfs_level_walked d st Hst)) as (d' & Hw & Hle & Hend).
    replace (Z.of_nat (S d) + 1) with (Z.of_nat (S (S d))) by lia. exists d'. split; [done|]. split; [lia|].
    destruct Hend; [left; lia|by right].
Qed.

(** The hits of a search: every node at distance 1 to [maxDepth], once, at its distance,
    with the label of an edge from a node one step nearer. *)
Lemma bfs_exact maxDepth :
  NoDup (bfs succ o maxDepth).*1 /\
  (forall x, x ∈ (bfs succ o maxDepth).*1 <-> exists k, (1 <= k)%nat /\ Z.of_nat k <= maxDepth /\ dist x k) /\
  (forall x z lb, (x, (z, lb)) ∈ bfs succ o maxDepth ->
     exists k y, z = Z.of_nat (S k) /\ dist x (S k) /\ dist y k /\ (x, lb) ∈ succ y).
Proof.
  unfold bfs. destruct (bfs_loop_walked (Z.to_nat maxDepth) 0 _ walked_start) as (d & Hw & Hle & Hend).
  change (Z.of_nat 1) with 1 in Hw. split; [apply Hw|]. split; [|intros x z lb Hh; by apply (wd_sound _ _ Hw) in Hh].
  intros x. rewrite (wd_all _ _ Hw). split.
  - intros (k & Hk & Hd). exists k. split; [lia|]. split; [lia|done].
  - intros (k & Hk & Hm & Hd). exists k. split; [|done]. destruct Hend as [->|Hno]; [lia|].
    destruct (decide (d <= k)%nat) as [Hdk|]; [by destruct (Hno x k Hdk)|lia].
Qed.
End bfs_spec.

#[global] Instance hit_le_total : Total hit_le.
Proof. intros a b. unfold hit_le. lia. Qed.
#[global] Instance near_le_total : Total near_le.
Proof. intros a b. unfold near_le. lia. Qed.

Section radius.
Variable s : Snapshot.

(** The co-tenants of a shared node, as hits. *)
Definition cotenant (e : Edge) : bool := bool_decide (ed_Kind e = EdgeRunsOn) || bool_decide (ed_Kind e = EdgeMounts).
Definition cotenants (h : Hit) : list Hit :=
  if lateralKinds (kind_of s (hit_ID h))
  then (fun e => mkHit (ed_To e) (hit_Depth h + 1) (ed_Kind e) (hit_ID h)) <$> List.filter cotenant (edges_of (sn_in s) (hit_ID h))
  else [].

Lemma laterals_once down : forall st, foldl (laterals s) st down = foldl (once_step hit_ID) st (concat (cotenants <$> down)).
Proof.
  induction down as [|h down IH]; intros st; simpl; [done|]. rewrite foldl_app, IH. f_equal.
  unfold laterals, cotenants. destruct (lateralKinds _); simpl; [|done].
  generalize (edges_of (sn_in s) (hit_ID h)) as es. intros es; revert st; induction es as [|e es IHe]; intros [seen lat]; simpl; [done|].
  rewrite IHe. unfold cotenant. destruct (bool_decide (ed_Kind e = EdgeRunsOn)), (bool_decide (ed_Kind e = EdgeMounts)); simpl; try done.
  all: unfold once_step; simpl; by case_bool_decide.
Qed.

Lemma elem_of_cotenants h c : c ∈ cotenants h <->
  lateralKinds (kind_of s (hit_ID h)) = true /\ hit_Depth c = hit_Depth h + 1 /\ hit_Anchor c = hit_ID h /\
  mkEdge (hit_ID c) (hit_Via c) ∈ edges_of (sn_in s) (hit_ID h) /\ (hit_Via c = EdgeRunsOn \/ hit_Via c = EdgeMounts).
Proof.
  unfold cotenants. destruct (lateralKinds _); [|split; [set_solver|naive_solver]].
  rewrite list_elem_of_fmap. unfold cotenant. split.
  - intros (e & -> & He%list_elem_of_In%filter_In). destruct He as [He Hk]. apply list_elem_of_In in He. simpl.
    split; [done|]. split; [done|]. split; [done|]. split; [by destruct e|].
    apply orb_prop in Hk as [Hk|Hk]; apply bool_decide_eq_true in Hk; auto.
  - intros (_ & Hd & Ha & He & Hk). exists (mkEdge (hit_ID c) (hit_Via c)). destruct c; simpl in *. subst. split; [done|].
    apply list_elem_of_In, filter_In. split; [by apply list_elem_of_In|]. simpl.
    destruct Hk as [-> | ->]; reflexivity.
Qed.

(** What a direction of the radius reports. *)
Definition reports (adj : gmap NodeID (list Edge)) (origin : NodeID) (maxDepth : Z) (hits : list Hit) : Prop :=
  NoDup (hit_ID <$> hits) /\ Sorted hit_le hits /\
  (forall x, x ∈ hit_ID <$> hits <-> exists k, (1 <= k)%nat /\ Z.of_nat k <= maxDepth /\ dist (along adj) origin x k) /\
  (forall h, h ∈ hits -> hit_Anchor h = NoNode /\ exists k y, hit_Depth h = Z.of_nat (S k) /\
     dist (along adj) origin (hit_ID h) (S k) /\ dist (along adj) origin y k /\ mkEdge (hit_ID h) (hit_Via h) ∈ edges_of adj y).

Lemma directedBFS_reports adj origin maxDepth : reports adj origin maxDepth (sortHits (directedBFS origin maxDepth adj)).
Proof.
  destruct (bfs_exact (along adj) origin maxDepth) as (Hnd & Hall & Hs).
  unfold sortHits. set (hits := directedBFS origin maxDepth adj).
  pose proof (merge_sort_Permutation hit_le hits) as Hp.
  assert (hit_ID <$> hits = (bfs (along adj) origin maxDepth).*1) as Hid.
  { unfold hits, directedBFS. rewrite <- list_fmap_compose. apply list_fmap_ext. by intros ? [? [? ?]]. }
  split; [by rewrite Hp, Hid|]. split; [apply Sorted_merge_sort; apply _|]. split.
  - intros x. by rewrite Hp, Hid, Hall.
  - intros h. rewrite Hp. unfold hits, directedBFS. rewrite list_elem_of_fmap. intros ([x [z via]] & -> & Hh). simpl.
    split; [done|]. destruct (Hs x z via Hh) as (k & y & -> & Hx & Hy & He). exists k, y. do 3 (split; [done|]).
    unfold along in He. apply list_elem_of_fmap in He as ([to kind] & [= <- <-] & He). done.
Qed.

(** C18: the blast radius of a known node is exact. Up and Down list, nearest first and
    each once, precisely the nodes within [maxDepth] edges against and along the edges,
    with their distance and an edge from one step nearer. Lateral lists, each once, the
    objects that run on or mount a shared node of Down and are in neither list, one
    step beyond the shared node that anchors them. *)
Theorem radius_exact origin maxDepth : is_Some (sn_nodes s !! origin) -> 0 < maxDepth ->
  let r := Radius s origin maxDepth in
  reports (sn_in s) origin maxDepth (rr_Up r) /\ reports (sn_out s) origin maxDepth (rr_Down r) /\
  NoDup (hit_ID <$> rr_Lateral r) /\ Sorted hit_le (rr_Lateral r) /\
  (forall c, c ∈ rr_Lateral r -> exists h, h ∈ rr_Down r /\ c ∈ cotenants h) /\
  (forall x, x ∈ hit_ID <$> rr_Lateral r <->
     (exists h c, h ∈ rr_Down r /\ c ∈ cotenants h /\ hit_ID c = x) /\
     x <> origin /\ x ∉ hit_ID <$> rr_Up r /\ x ∉ hit_ID <$> rr_Down r).
Proof.
  intros [info Ho] Hm. unfold Radius. destruct (Z.leb_spec maxDepth 0); [lia|]. rewrite Ho. cbn.
  split; [apply directedBFS_reports|]. split; [apply directedBFS_reports|].
  set (up := directedBFS origin maxDepth (sn_in s)). set (down := directedBFS origin maxDepth (sn_out s)).
  rewrite laterals_once. destruct (foldl_once hit_ID (concat (cotenants <$> down))
    ({[ origin ]} ∪ list_to_set (hit_ID <$> up) ∪ list_to_set (hit_ID <$> down)) []) as (lat & E1 & _ & E3 & E4 & E5).
  rewrite E1. simpl. unfold sortHits. pose proof (merge_sort_Permutation hit_le lat) as Hp.
  pose proof (merge_sort_Permutation hit_le up) as Hpu. pose proof (merge_sort_Permutation hit_le down) as Hpd.
  assert (forall c, c ∈ concat (cotenants <$> down) <-> exists h, h ∈ down /\ c ∈ cotenants h) as Hc.
  { intros c. rewrite list_elem_of_In, in_concat. setoid_rewrite <- list_elem_of_In. setoid_rewrite list_elem_of_fmap. naive_solver. }
  split; [by rewrite Hp|]. split; [apply Sorted_merge_sort; apply _|]. split.
  - intros c. rewrite Hp. intros Hin%E5%Hc. by setoid_rewrite Hpd.
  - intros x. rewrite Hp, Hpu, Hpd, E4, list_elem_of_fmap. setoid_rewrite Hc. setoid_rewrite Hpd.
    rewrite !not_elem_of_union, !elem_of_list_to_set, elem_of_singleton. naive_solver.
Qed.
End radius.

Section common.
Variable s : Snapshot.

Notation ancestry := (fun n => (fun m => (m, tt)) <$> ancestors s n).

(** [n] is an ancestor of [id], [d] steps away and within the search's depth. *)
Definition ancestor (id n : NodeID) (d : Z) : Prop :=
  is_Some (sn_nodes s !! id) /\ exists k, d = Z.of_nat k /\ d <= ancestorMaxDepth /\ dist ancestry id n k.

Lemma ancestor_inj id n d d' : ancestor id n d -> ancestor id n d' -> d = d'.
Proof. intros (_ & k & -> & _ & H1) (_ & k' & -> & _ & H2). by rewrite (dist_inj _ _ _ _ _ H1 H2). Qed.

Lemma ancestorDepths_spec id n d : ancestorDepths s id !! n = Some d <-> ancestor id n d.
Proof.
  unfold ancestorDepths, ancestor. case_bool_decide as Hid.
  { rewrite lookup_empty. split; [done|]. rewrite Hid. intros [[? ?] _]. done. }
  destruct (bfs_exact ancestry id ancestorMaxDepth) as (Hnd & Hall & Hs). set (hits := bfs _ id ancestorMaxDepth) in *.
  set (l := (fun '(n, (depth, _)) => (n, depth)) <$> hits).
  assert (l.*1 = hits.*1) as El by (unfold l; rewrite <- list_fmap_compose; apply list_fmap_ext; by intros ? [? [? ?]]).
  assert (dist ancestry id id 0) as H0 by (split; [done|lia]).
  assert (NoDup ((id, 0) :: l).*1) as Hnd'.
  { rewrite fmap_cons, El. constructor; [|done]. intros (k & Hk & _ & Hd)%Hall. pose proof (dist_inj _ _ _ _ _ H0 Hd). lia. }
  rewrite <- elem_of_list_to_map by done. rewrite list.elem_of_cons. split.
  - intros [[= -> ->]|Hin].
    + split; [by destruct (sn_nodes s !! id); [eexists|]|]. exists 0%nat. split; [done|]. split; [done|exact H0].
    + split; [by destruct (sn_nodes s !! id); [eexists|]|].
      assert (n ∈ hits.*1) as (k & Hk & Hle & Hd)%Hall by (rewrite <- El; apply list_elem_of_fmap; by exists (n, d)).
      unfold l in Hin. apply list_elem_of_fmap in Hin as ([n' [z []]] & [= -> ->] & Hh).
      destruct (Hs n' z tt Hh) as (k' & y & -> & Hd' & _). exists (S k'). split; [done|].
      rewrite (dist_inj _ _ _ _ _ Hd' Hd). done.
  - intros (_ & k & -> & Hle & Hd). destruct (decide (k = 0%nat)) as [->|Hk].
    + left. destruct Hd as [-> _]. done.
    + right. assert (n ∈ hits.*1) as Hin by (apply Hall; exists k; split; [lia|done]).
      apply list_elem_of_fmap in Hin as ([n' [z []]] & -> & Hh). destruct (Hs _ _ _ Hh) as (k' & y & -> & Hd' & _).
      simpl in Hd. rewrite (dist_inj _ _ _ _ _ Hd Hd'). unfold l. apply list_elem_of_fmap. by exists (n', (Z.of_nat (S k'), tt)).
Qed.

(** [d] is the largest distance any of [ids] has to their shared ancestor [n]. *)
Definition shared (ids : list NodeID) (n : NodeID) (d : Z) : Prop :=
  (forall id, id ∈ ids -> exists d', ancestor id n d' /\ d' <= d) /\ exists id, id ∈ ids /\ ancestor id n d.

Lemma shared_one id n d : shared [id] n d <-> ancestor id n d.
Proof.
  split.
  - intros [_ (i & ->%list_elem_of_singleton & Ha)]. done.
  - intros Ha. split; [|exists id; set_solver]. intros i ->%list_elem_of_singleton. by exists d.
Qed.

Lemma shared_inj ids n d d' : shared ids n d -> shared ids n d' -> d = d'.
Proof.
  intros [H1 (i & Hi & Ha)] [H2 (j & Hj & Hb)]. destruct (H1 j Hj) as (x & Hx & ?). destruct (H2 i Hi) as (y & Hy & ?).
  rewrite (ancestor_inj _ _ _ _ Hb Hx), (ancestor_inj _ _ _ _ Ha Hy) in *. lia.
Qed.

Lemma shared_max ids id n d1 d2 : shared ids n d1 -> ancestor id n d2 -> shared (ids ++ [id]) n (Z.max d1 d2).
Proof.
  intros [H1 (i & Hi & Ha)] H2. split.
  - intros j [Hj| ->%list_elem_of_singleton]%elem_of_app; [|exists d2; split; [done|lia]].
    destruct (H1 j Hj) as (dj & ? & ?). exists dj. split; [done|lia].
  - destruct (Z.max_spec d1 d2) as [[_ ->]|[_ ->]]; [exists id|exists i]; set_solver.
Qed.

Lemma shared_exists ids n : ids <> [] -> (forall id, id ∈ ids -> exists d, ancestor id n d) -> exists d, shared ids n d.
Proof.
  induction ids as [|id ids IH] using rev_ind; [done|]. intros _ Hall.
  destruct (Hall id) as [d2 H2]; [set_solver|]. destruct (decide (ids = [])) as [->|Hne].
  - exists d2. by apply shared_one.
  - destruct IH as [d1 H1]; [done|set_solver|]. eexists. by apply shared_max.
Qed.

Lemma narrow_spec ids common id : ids <> [] -> (forall n d, common !! n = Some d <-> shared ids n d) ->
  forall n d, narrow s common id !! n = Some d <-> shared (ids ++ [id]) n d.
Proof.
  intros Hne Hc n d.
  assert (forall d, shared (ids ++ [id]) n d -> exists d1 d2, common !! n = Some d1 /\ ancestorDepths s id !! n = Some d2) as Hsub.
  { intros d' [Hall _]. destruct (shared_exists ids n Hne) as [d1 H1].
    { intros i Hi. destruct (Hall i) as (di & ? & _); [set_solver|by exists di]. }
    destruct (Hall id) as (d2 & H2 & _); [set_solver|]. exists d1, d2. by rewrite Hc, ancestorDepths_spec. }
  unfold narrow. case_bool_decide as He.
  - rewrite He, lookup_empty. split; [done|]. intros (d1 & d2 & H1 & _)%Hsub. by rewrite He, lookup_empty in H1.
  - rewrite lookup_merge. destruct (common !! n) as [d1|] eqn:E1, (ancestorDepths s id !! n) as [d2|] eqn:E2; simpl.
    2-4: split; [done|by intros (? & ? & ? & ?)%Hsub].
    apply Hc in E1. apply ancestorDepths_spec in E2. pose proof (shared_max _ _ _ _ _ E1 E2) as Hm.
    assert ((if d1 <? d2 then d2 else d1) = Z.max d1 d2) as -> by (destruct (Z.ltb_spec d1 d2); lia).
    split; [by intros [= <-]|]. intros Hd. by rewrite (shared_inj _ _ _ _ Hd Hm).
Qed.

Lemma common_spec ids : forall pre common, pre <> [] -> (forall n d, common !! n = Some d <-> shared pre n d) ->
  forall n d, foldl (narrow s) common ids !! n = Some d <-> shared (pre ++ ids) n d.
Proof.
  induction ids as [|id ids IH]; intros pre common Hne Hc n d; simpl; [by rewrite app_nil_r|].
  replace (pre ++ id :: ids) with ((pre ++ [id]) ++ ids) by by rewrite <- app_assoc.
  apply IH; [by destruct pre|]. by apply narrow_spec.
Qed.

(** What the inputs share: a node is answered, once, iff every input is a node of the
    graph and has it among its ancestors (owners, placement, mounted configuration,
    namespace) within eight steps; the nearest come first, by the largest distance any
    input has, then by id. *)
Theorem common_ancestors_exact ids : ids <> [] ->
  exists ranked, CommonAncestors s ids = ranked.*2 /\ NoDup ranked.*2 /\ Sorted near_le ranked /\
    (forall n d, (d, n) ∈ ranked <-> shared ids n d) /\
    (forall n, n ∈ CommonAncestors s ids <-> forall id, id ∈ ids -> exists d, ancestor id n d).
Proof.
  destruct ids as [|id ids]; [done|]. intros _. unfold CommonAncestors.
  pose proof (common_spec ids [id] (ancestorDepths s id)) as Hc. set (common := foldl _ _ _) in *.
  set (pairs := (fun '(n, d) => (d, n)) <$> map_to_list common). exists (merge_sort near_le pairs).
  pose proof (merge_sort_Permutation near_le pairs) as Hp.
  assert (forall n d, common !! n = Some d <-> shared (id :: ids) n d) as Hc'.
  { apply Hc; [done|]. intros n d. by rewrite shared_one, ancestorDepths_spec. }
  assert (forall n d, (d, n) ∈ merge_sort near_le pairs <-> shared (id :: ids) n d) as Hin.
  { intros n d. rewrite Hp, <- Hc', <- elem_of_map_to_list. unfold pairs. rewrite list_elem_of_fmap. split.
    - by intros ([n' d'] & [= -> ->] & ?).
    - intros ?. by exists (n, d). }
  split; [done|]. split; [|split; [apply Sorted_merge_sort; apply _|split; [done|]]].
  - rewrite Hp. unfold pairs. rewrite <- list_fmap_compose.
    replace (snd ∘ _ <$> _) with ((map_to_list common).*1); [apply NoDup_fst_map_to_list|].
    apply list_fmap_ext. by intros ? [? ?].
  - intros n. rewrite list_elem_of_fmap. split.
    + intros ([d n'] & -> & Hr%Hin) i Hi. destruct Hr as [Hall _]. destruct (Hall i Hi) as (d' & ? & _). by exists d'.
    + intros Hall. destruct (shared_exists (id :: ids) n) as [d Hd]; [done|done|]. exists (d, n). split; [done|by apply Hin].
Qed.
End common.

Section pods.
Variable s : Snapshot.

Definition owns (n m : NodeID) : Prop := mkEdge m EdgeOwns ∈ edges_of (sn_out s) n.

(** Reached from [id] along ownership without passing through a pod. *)
Inductive holds (id : NodeID) : NodeID -> Prop :=
  | holds_self : holds id id
  | holds_step n m : holds id n -> owns n m -> kind_of s m <> KindPod -> holds id m.

Definition is_pod (n : NodeID) : bool := bool_decide (kind_of s n = KindPod).
Definition owned_by (n : NodeID) : list NodeID :=
  ed_To <$> List.filter (fun e => bool_decide (ed_Kind e = EdgeOwns)) (edges_of (sn_out s) n).

Lemma elem_of_owned n m : m ∈ owned_by n <-> owns n m.
Proof.
  unfold owned_by, owns. rewrite list_elem_of_fmap. split.
  - intros ([to kind] & -> & He). apply list_elem_of_In, filter_In in He as [He Hk%bool_decide_eq_true].
    apply list_elem_of_In in He. simpl in *. by subst.
  - intros He. exists (mkEdge m EdgeOwns). split; [done|]. apply list_elem_of_In, filter_In. split; [by apply list_elem_of_In|done].
Qed.

Lemma pods_edges_once es : forall st,
  let r := foldl (once_step id) (pu_visited st, []) (ed_To <$> List.filter (fun e => bool_decide (ed_Kind e = EdgeOwns)) es) in
  foldl (pods_edge s) st es =
  mkPods r.1 (reverse (List.filter (fun n => negb (is_pod n)) r.2) ++ pu_stack st) (pu_pods st ++ List.filter is_pod r.2).
Proof.
  cbv zeta. induction es as [|e es IH] using rev_ind; intros st; [simpl; rewrite app_nil_r; by destruct st|].
  rewrite List.filter_app, fmap_app, !foldl_app, IH. cbn [foldl List.filter]. unfold pods_edge. case_bool_decide; [|done].
  cbn [negb fmap list_fmap foldl]. set (r := foldl _ _ _). unfold once_step. cbn [pu_visited pu_stack pu_pods id].
  case_bool_decide; [done|]. cbn [fst snd]. rewrite !List.filter_app. cbn [List.filter].
  change (bool_decide (kind_of s (ed_To e) = KindPod)) with (is_pod (ed_To e)).
  destruct (is_pod (ed_To e)); cbn [negb]; rewrite ?app_nil_r, ?reverse_app, ?app_assoc; reflexivity.
Qed.

(** The search with [id], not a pod, at its root. *)
Record searching (root : NodeID) (st : pods_st) : Prop := {
  se_root : root ∈ pu_visited st;
  se_seen : forall x, x ∈ pu_visited st -> (kind_of s x <> KindPod -> holds root x) /\
                       (kind_of s x = KindPod -> exists n, holds root n /\ owns n x);
  se_pods : forall x, x ∈ pu_pods st <-> x ∈ pu_visited st /\ kind_of s x = KindPod;
  se_once : NoDup (pu_pods st);
  se_stack : forall x, x ∈ pu_stack st -> x ∈ pu_visited st /\ kind_of s x <> KindPod;
  se_done : forall n m, n ∈ pu_visited st -> kind_of s n <> KindPod -> n ∉ pu_stack st -> owns n m -> m ∈ pu_visited st
}.

Definition targets : gset NodeID := list_to_set (ed_To <$> concat (map_to_list (sn_out s)).*2).

Lemma owns_target n m : owns n m -> m ∈ targets.
Proof.
  unfold owns, targets, edges_of. intros He. apply elem_of_list_to_set, list_elem_of_fmap. exists (mkEdge m EdgeOwns).
  split; [done|]. destruct (sn_out s !! n) as [es|] eqn:E; [|simpl in He; set_solver]. simpl in He.
  apply list_elem_of_In, in_concat. exists es. split; apply list_elem_of_In; [|done].
  apply list_elem_of_fmap. exists (n, es). split; [done|by apply elem_of_map_to_list].
Qed.

Definition todo (st : pods_st) : nat := length (pu_stack st) + size (targets ∖ pu_visited st).

Lemma elem_of_keep (f : NodeID -> bool) x l : x ∈ List.filter f l <-> x ∈ l /\ f x = true.
Proof. by rewrite !list_elem_of_In, filter_In. Qed.

Lemma size_targets : (size targets <= length (concat (map_to_list (sn_out s)).*2))%nat.
Proof.
  unfold targets. rewrite <- (length_fmap ed_To). generalize (ed_To <$> concat (map_to_list (sn_out s)).*2) as l.
  induction l as [|x l IH]; simpl; [done|]. rewrite size_union_alt, size_singleton.
  assert (size (list_to_set l ∖ {[x]} : gset NodeID) <= size (list_to_set l : gset NodeID))%nat
    by (apply subseteq_size; set_solver). lia.
Qed.

(** One iteration keeps the search's invariant and shortens what is left of it. *)
Lemma pods_step root n stack st : searching root st -> pu_stack st = n :: stack ->
  let st' := foldl (pods_edge s) (st <| pu_stack := stack |>) (edges_of (sn_out s) n) in
  searching root st' /\ (todo st' < todo st)%nat.
Proof.
  intros [H1 H2 H3 H4 H5 H6] Hst. cbv zeta. rewrite pods_edges_once.
  change (ed_To <$> _) with (owned_by n). cbn [pu_visited pu_stack pu_pods].
  destruct (foldl_once id (owned_by n) (pu_visited st) []) as (new & E1 & E2 & E3 & E4 & E5).
  change (pu_visited (st <| pu_stack := stack |>)) with (pu_visited st).
  change (pu_pods (st <| pu_stack := stack |>)) with (pu_pods st).
  set (r := foldl _ _ _) in *. rewrite E1. cbn [app].
  pose proof (list_fmap_id (A := NodeID)) as Eid. rewrite Eid in E3.
  assert (n ∈ pu_visited st /\ kind_of s n <> KindPod) as [Hn Hnp] by (apply H5; rewrite Hst; set_solver).
  assert (holds root n) as Hh by by apply H2.
  assert (forall x, x ∈ new <-> owns n x /\ x ∉ pu_visited st) as Enew.
  { intros x. specialize (E4 x). rewrite !Eid in E4. by rewrite E4, elem_of_owned. }
  assert (forall x, x ∈ r.1 <-> x ∈ pu_visited st \/ x ∈ new) as Evis.
  { intros x. rewrite E2, Eid, Enew, elem_of_owned. destruct (decide (x ∈ pu_visited st)); naive_solver. }
  assert (forall x, is_pod x = true <-> kind_of s x = KindPod) as Ep by (intros; apply bool_decide_eq_true).
  split; [split; cbn [pu_visited pu_stack pu_pods]|].
  - apply Evis. by left.
  - intros x [Hx|Hx]%Evis; [by apply H2|]. apply Enew in Hx as [Ho _].
    split; [intros Hk; by eapply holds_step|intros _; by exists n].
  - intros x. rewrite elem_of_app, elem_of_keep, H3, Evis, Ep. naive_solver.
  - apply NoDup_app. split; [done|]. split; [|by apply NoDup_ListNoDup, List.NoDup_filter, NoDup_ListNoDup].
    intros x [Hv _]%H3 [[_ Hno]%Enew _]%elem_of_keep. done.
  - intros x. rewrite elem_of_app, elem_of_reverse, elem_of_keep, Evis, negb_true_iff.
    intros [[Hx Hp]|Hx]; [split; [by right|]|].
    + intros Hk%Ep. congruence.
    + destruct (H5 x) as [? ?]; [rewrite Hst; set_solver|]. split; [by left|done].
  - intros x m Hx Hk Hns Ho. rewrite elem_of_app, elem_of_reverse, elem_of_keep, negb_true_iff in Hns.
    assert (x ∉ new) as Hnew.
    { intros Hin. apply Hns. left. split; [done|]. apply not_true_iff_false. by rewrite Ep. }
    apply Evis in Hx as [Hx|]; [|done]. apply Evis. destruct (decide (x = n)) as [->|Hxn].
    + destruct (decide (m ∈ pu_visited st)); [by left|right; by apply Enew].
    + left. apply (H6 x m); [done|done| |done]. rewrite Hst. set_solver.
  - unfold todo. cbn [pu_visited pu_stack]. rewrite Hst, length_app, length_reverse. cbn [length].
    assert (size (targets ∖ r.1) + length new <= size (targets ∖ pu_visited st))%nat as Hsz.
    { assert (size (list_to_set new : gset NodeID) = length new) as <- by by apply size_list_to_set.
      rewrite <- size_union; [|set_solver]. apply subseteq_size. intros x. rewrite !elem_of_union, !elem_of_difference, elem_of_list_to_set, Evis, Enew.
      intros [[? ?]|[Ho ?]]; [naive_solver|]. split; [by eapply owns_target|done]. }
    pose proof (filter_length_le (fun n => negb (is_pod n)) new) as Hle. simpl. simpl in Hle. lia.
Qed.

Lemma pods_loop_ends root fuel : forall st, searching root st -> (todo st <= fuel)%nat ->
  exists st', pods_loop s fuel st = Some (pu_pods st') /\ searching root st' /\ pu_stack st' = [].
Proof.
  induction fuel as [|fuel IH]; intros st Hs Hf; cbn [pods_loop]; destruct (pu_stack st) as [|n stack] eqn:E; try by exists st.
  - unfold todo in Hf. rewrite E in Hf. simpl in Hf. lia.
  - destruct (pods_step root n stack st Hs E) as [Hs' Hlt]. apply IH; [done|lia].
Qed.

Lemma searching_complete root st n : searching root st -> pu_stack st = [] -> kind_of s root <> KindPod ->
  holds root n -> n ∈ pu_visited st /\ kind_of s n <> KindPod.
Proof.
  intros [H1 H2 H3 H4 H5 H6] Hst Hr. induction 1 as [|n m _ [IH IHk] Ho Hk]; [done|]. split; [|done].
  apply (H6 n m); [done|done|rewrite Hst; set_solver|done].
Qed.

(** C36: [PodsUnder] always answers, whatever the graph, ownership cycles included: the
    search pops a node at most once per edge. The answer is sorted, without
    repetitions, and is exactly the pods owned by something that is reached from the
    workload through owners that are not pods themselves. *)
Theorem pods_under_total_exact id info : sn_nodes s !! id = Some info -> ni_kind info <> KindPod ->
  exists pods, PodsUnder s id = Some pods /\ Sorted Z.le pods /\ NoDup pods /\
    forall x, x ∈ pods <-> kind_of s x = KindPod /\ exists n, holds id n /\ owns n x.
Proof.
  intros Hid Hk. unfold PodsUnder. rewrite Hid, bool_decide_eq_false_2 by done.
  assert (kind_of s id <> KindPod) as Hk' by by unfold kind_of; rewrite Hid.
  set (st := mkPods {[ id ]} [id] []). assert (searching id st) as Hs.
  { split; simpl; try set_solver.
    - intros x ->%elem_of_singleton. split; [intros _; constructor|done].
    - constructor. }
  destruct (pods_loop_ends id (edge_bound s) st Hs) as (st' & -> & Hs' & Hst).
  { unfold todo, edge_bound. simpl. apply le_n_S. etrans; [apply subseteq_size, subseteq_difference_l; reflexivity|].
    apply size_targets. }
  simpl. pose proof (merge_sort_Permutation Z.le (pu_pods st')) as Hp. eexists. split; [done|].
  split; [apply Sorted_merge_sort; apply _|]. split; [rewrite Hp; apply Hs'|].
  intros x. rewrite Hp, (se_pods _ _ Hs'). split.
  - intros [Hv Hx]. split; [done|]. by apply (se_seen _ _ Hs' x Hv).
  - intros (Hx & n & Hn & Ho). split; [|done]. destruct (searching_complete id st' n Hs' Hst Hk' Hn) as [Hv Hnp].
    apply (se_done _ _ Hs' n x); [done|done|rewrite Hst; set_solver|done].
Qed.
End pods.

(** ** Owner chains *)

Section chain.
Variable s : Snapshot.

Definition owner_of (n m : NodeID) : Prop := mkEdge m EdgeOwns ∈ edges_of (sn_in s) n.

(** The owner the chain goes on with: the lowest one, none iff there is none. *)
Definition lowest (n m : NodeID) : Prop := owner_of n m /\ forall m', owner_of n m' -> m <= m'.

Lemma lowest_owner_spec n : (forall m, owner_of n m -> 0 < m) ->
  (lowest_owner s n = NoNode /\ forall m, ~ owner_of n m) \/ lowest n (lowest_owner s n) /\ lowest_owner s n <> NoNode.
Proof.
  unfold lowest_owner, lowest, owner_of. generalize (edges_of (sn_in s) n) as es.
  induction es as [|e es IH] using rev_ind; intros Hpos; [left; split; [done|set_solver]|].
  rewrite foldl_app. simpl. set (r := foldl _ _ _) in *.
  assert (forall m, mkEdge m EdgeOwns ∈ es ++ [e] <-> mkEdge m EdgeOwns ∈ es \/ e = mkEdge m EdgeOwns) as Hin
    by (intros m; rewrite elem_of_app, list_elem_of_singleton; naive_solver).
  setoid_rewrite Hin in Hpos. setoid_rewrite Hin. unfold NoNode in *. case_bool_decide as Hk; simpl.
  - destruct e as [to k]. simpl in Hk. subst k. assert (0 < to) as Hto by (apply Hpos; by right). simpl. right.
    destruct IH as [[Hr Hno]|[[Hr Hmin] Hnz]]; [naive_solver|rewrite Hr|].
    + simpl. split; [|lia]. split; [by right|]. intros m [Hm|[= <-]]; [by destruct (Hno m)|lia].
    + destruct (Z.eqb_spec r 0); [done|]. destruct (Z.ltb_spec to r); simpl; (split; [|lia]); split.
      * by right.
      * intros m [Hm%Hmin|[= <-]]; lia.
      * by left.
      * intros m [Hm%Hmin|[= <-]]; lia.
  - destruct IH as [[Hr Hno]|[[Hr Hmin] Hnz]]; [naive_solver|left|right].
    + split; [done|]. intros m [Hm| ->]; [by apply (Hno m)|done].
    + split; [|done]. split; [by left|]. intros m [Hm| ->]; [by apply Hmin|done].
Qed.

(** A chain from [cur] that has not met [visited]: it goes on until the limit, a node
    without owners, or a cycle. *)
Lemma owner_loop_spec limit : forall visited cur,
  let chain := owner_loop s limit visited cur in
  (length chain <= limit)%nat /\ NoDup chain /\ (forall x, x ∈ chain -> x ∉ visited) /\
  (forall i a b, (cur :: chain) !! i = Some a -> chain !! i = Some b -> b = lowest_owner s a /\ b <> NoNode) /\
  ((length chain < limit)%nat ->
     let stop := lowest_owner s (default cur (last chain)) in stop = NoNode \/ stop ∈ visited \/ stop ∈ chain).
Proof.
  induction limit as [|limit IH]; intros visited cur; cbn [owner_loop].
  { split; [done|]. split; [constructor|]. split; [set_solver|]. split; [done|]. simpl. lia. }
  set (o := lowest_owner s cur). destruct (Z.eqb_spec o NoNode) as [E|E].
  { split; [simpl; lia|]. split; [constructor|]. split; [set_solver|]. split; [done|]. intros _. by left. }
  case_bool_decide as Hv.
  { split; [simpl; lia|]. split; [constructor|]. split; [set_solver|]. split; [done|]. intros _. right. by left. }
  destruct (IH ({[ o ]} ∪ visited) o) as (H1 & H2 & H3 & H4 & H5). set (chain := owner_loop s limit _ o) in *. simpl.
  split; [lia|]. split; [constructor; [intros Ho%H3; set_solver|done]|]. split; [intros x [->|Hx%H3]%list.elem_of_cons; set_solver|].
  split.
  - intros [|i] a b; simpl; [by intros [= <-] [= <-]|apply H4].
  - intros Hlt. specialize (H5 ltac:(lia)). cbv zeta in *.
    replace (default cur (last (o :: chain))) with (default o (last chain)); [set_solver|].
    rewrite last_cons. by destruct (last chain).
Qed.

(** An owner chain has at most sixteen nodes and never meets itself or its start,
    cycles of owner references included; each node is the lowest owner of the one
    before it, and the chain ends only at the cap, at a node without owners, or where
    it would close a cycle. *)
Theorem owner_chain_simple id : (forall n m, owner_of n m -> 0 < m) ->
  let chain := OwnerChain s id in
  (length chain <= ownerChainMax)%nat /\ NoDup (id :: chain) /\
  (forall i a b, (id :: chain) !! i = Some a -> chain !! i = Some b -> lowest a b) /\
  ((length chain < ownerChainMax)%nat -> forall m, lowest (default id (last chain)) m -> m ∈ id :: chain).
Proof.
  intros Hpos. unfold OwnerChain. destruct (owner_loop_spec ownerChainMax {[ id ]} id) as (H1 & H2 & H3 & H4 & H5).
  set (chain := owner_loop _ _ _ _) in *. cbv zeta. split; [done|]. split; [constructor; [intros Hi%H3; set_solver|done]|].
  split.
  - intros i a b Ha Hb. destruct (H4 i a b Ha Hb) as [-> Hne].
    destruct (lowest_owner_spec a (Hpos a)) as [[? _]|[? _]]; done.
  - intros Hlt m [Hm Hmin]. specialize (H5 Hlt). cbv zeta in H5. set (z := default id (last chain)) in *.
    destruct (lowest_owner_spec z (Hpos z)) as [[_ Hno]|[[Ho Hlo] Hne]]; [by destruct (Hno m)|].
    pose proof (Hmin _ Ho). pose proof (Hlo _ Hm). assert (lowest_owner s z = m) as E by lia. rewrite E in H5.
    destruct H5 as [?|[?|?]]; [congruence|set_solver|set_solver].
Qed.
End chain.

(** ** The shop, queried *)

Module Queried.
#[local] Existing Instance labels.
#[local] Existing Instance plain_range.

Definition shop : Snapshot := Eval vm_compute in snap (FromObjects [rs; pod "web-a" "n1"; pod "web-b" "n1"; svc] (New [] true)).

(** The pod web-a (4): its service and controller above it, web-b (8) beside it. *)
Lemma radius_exact_witness :
  hit_ID <$> rr_Lateral (Radius shop 4 2) = [8] /\ reports (sn_in shop) 4 2 (rr_Up (Radius shop 4 2)).
Proof.
  split; [vm_compute; reflexivity|].
  apply (radius_exact shop 4 2); [eexists; vm_compute; reflexivity|reflexivity].
Defined.

(** Both pods share the replica set, its deployment, the node, the configuration and the namespace. *)
Lemma common_ancestors_exact_witness :
  CommonAncestors shop [4; 8] = [1; 2; 5; 7; 3] /\
  (forall n, n ∈ CommonAncestors shop [4; 8] <-> forall id, id ∈ [4; 8] -> exists d, ancestor shop id n d).
Proof.
  split; [vm_compute; reflexivity|]. destruct (common_ancestors_exact shop [4; 8]) as (_ & _ & _ & _ & _ & H); [discriminate|].
  exact H.
Defined.

Lemma pods_under_total_exact_witness :
  exists pods, PodsUnder shop 3 = Some pods /\ pods = [4; 8] /\ kind_of shop 8 = KindPod.
Proof.
  destruct (pods_under_total_exact shop 3 (mkNodeInfo KindDeployment false 2)) as (pods & Hp & _); [vm_compute; reflexivity|discriminate|].
  exists pods. split; [exact Hp|]. vm_compute in Hp |- *. injection Hp as <-. split; reflexivity.
Defined.
End Queried.
