(* ===== verification/GraphAdjacency.v ===== *)
(** The adjacency of the topology graph stays sound (src/pkg/graph/writer.go): lists
    sorted and without repetitions, the two directions dual, the edge count and the
    reference counts exact, after any delta. *)
From S2P Require Import Prelude GoStrings GoHash GoFmt GoSort Effects GraphTypes GraphCodec GraphChanges GraphWriter.
From stdpp Require Import sorting.
Open Scope Z_scope.
Open Scope lookout_scope.

(** ** Sorted edge lists *)

Definition edge_lt (a b : Edge) : Prop := edgeLess a b = true.

Lemma edge_lt_spec a b : edge_lt a b <->
  edge_byte (ed_Kind a) < edge_byte (ed_Kind b) \/ (ed_Kind a = ed_Kind b /\ ed_To a < ed_To b).
Proof.
  unfold edge_lt, edgeLess. case_bool_decide as E.
  - rewrite E, Z.ltb_lt. intuition lia.
  - rewrite Z.ltb_lt. intuition congruence.
Qed.

#[global] Instance edge_lt_trans : Transitive edge_lt.
Proof. intros a b c. rewrite !edge_lt_spec. intros [?|[E ?]] [?|[E' ?]]; rewrite ?E, ?E' in *; try (left; lia). right. split; [done|lia]. Qed.

Lemma edge_lt_irrefl a : ~ edge_lt a a.
Proof. rewrite edge_lt_spec. intros [?|[_ ?]]; lia. Qed.

Lemma edge_lt_total a b : edge_lt a b \/ a = b \/ edge_lt b a.
Proof.
  rewrite !edge_lt_spec. destruct (Z.lt_trichotomy (edge_byte (ed_Kind a)) (edge_byte (ed_Kind b))) as [?|[E|?]]; auto.
  apply edge_byte_inj in E. destruct (Z.lt_trichotomy (ed_To a) (ed_To b)) as [?|[?|?]]; auto.
  right. left. destruct a, b; simpl in *. by subst.
Qed.

Notation sorted := (StronglySorted edge_lt).

(** The binary search splits a sorted list around the edge. *)
Lemma findEdge_split s e : sorted s -> exists l1 l2, s = l1 ++ l2 /\
  Forall (fun x => edge_lt x e) l1 /\ Forall (fun x => ~ edge_lt x e) l2 /\
  findEdge s e = (length l1, bool_decide (head l2 = Some e)).
Proof.
  intros Hs. unfold findEdge. set (f := fun i => negb (edgeLess (nth i s zero_edge) e)).
  assert (forall i x, s !! i = Some x -> nth i s zero_edge = x) as Hnth by (intros i x; apply nth_lookup_Some).
  destruct (Search_spec (length s) f) as (Hle & Hlo & Hhi).
  { intros a b Hab Hb. unfold f. rewrite !negb_true_iff, <- !not_true_iff_false. intros Ha Hlt. apply Ha.
    destruct (decide (a = b)) as [->|]; [done|]. destruct (lookup_lt_is_Some_2 s b Hb) as [y Hy].
    destruct (lookup_lt_is_Some_2 s a) as [x Hx]; [lia|]. rewrite (Hnth _ _ Hx). rewrite (Hnth _ _ Hy) in Hlt.
    change (edge_lt x e). transitivity y; [|exact Hlt]. eapply (StronglySorted_app_1_elem_of edge_lt (take b s) (drop b s)); [by rewrite take_drop|..].
    - apply (list_elem_of_lookup_2 _ a). apply lookup_take_Some. split; [done|lia].
    - apply (list_elem_of_lookup_2 _ 0). by rewrite lookup_drop, Nat.add_0_r. }
  set (r := Search (length s) f) in *. exists (take r s), (drop r s).
  split; [by rewrite take_drop|]. split; [|split].
  - apply Forall_lookup. intros i x Hi. apply lookup_take_Some in Hi as [Hi Hir].
    specialize (Hlo i Hir). unfold f in Hlo. rewrite (Hnth _ _ Hi) in Hlo. by apply negb_false_iff in Hlo.
  - apply Forall_lookup. intros i x Hi. rewrite lookup_drop in Hi. pose proof (lookup_lt_Some _ _ _ Hi).
    specialize (Hhi (r + i)%nat ltac:(lia) ltac:(lia)). unfold f in Hhi. rewrite (Hnth _ _ Hi) in Hhi.
    apply negb_true_iff in Hhi. unfold edge_lt. by rewrite Hhi.
  - rewrite length_take, Nat.min_l by done. f_equal. rewrite head_lookup, lookup_drop, Nat.add_0_r.
    destruct (Nat.ltb_spec r (length s)) as [Hlt|Hge].
    + destruct (lookup_lt_is_Some_2 s r Hlt) as [x Hx]. rewrite (Hnth _ _ Hx), Hx. apply bool_decide_ext. naive_solver.
    + rewrite lookup_ge_None_2 by done. done.
Qed.

Lemma sorted_head l1 l2 e : sorted (l1 ++ l2) -> Forall (fun x => edge_lt x e) l1 -> Forall (fun x => ~ edge_lt x e) l2 ->
  (e ∈ l1 ++ l2 <-> head l2 = Some e) /\ (head l2 <> Some e -> Forall (fun x => edge_lt e x) l2).
Proof.
  intros Hs H1 H2. apply StronglySorted_app in Hs as (_ & _ & Hs2).
  assert (e ∉ l1) as Hn1.
  { intros He. apply (proj1 (list.Forall_forall _ _) H1) in He. by apply edge_lt_irrefl in He. }
  destruct l2 as [|x l2]; simpl; [split; [|by constructor]; rewrite app_nil_r; split; [done|discriminate]|].
  apply StronglySorted_inv in Hs2 as [_ Hx]. inversion_clear H2 as [|? ? Hxe _].
  destruct (edge_lt_total x e) as [?|[->|Hex]]; [done|..].
  - split; [|done]. split; [done|]. intros _. set_solver.
  - assert (Forall (fun y => edge_lt e y) (x :: l2)) as Hall.
    { constructor; [done|]. eapply Forall_impl; [exact Hx|]. intros y ?. by transitivity x. }
    split; [|done]. split; [|intros [= ->]; by apply edge_lt_irrefl in Hex].
    intros [?|He]%elem_of_app; [done|]. apply (proj1 (list.Forall_forall _ _) Hall) in He. by apply edge_lt_irrefl in He.
Qed.

Lemma insertEdge_spec s e : sorted s -> let '(s', added) := insertEdge s e in
  sorted s' /\ (forall x, x ∈ s' <-> x = e \/ x ∈ s) /\ (added = true <-> e ∉ s) /\
  length s' = (length s + if added then 1 else 0)%nat /\ (added = false -> s' = s).
Proof.
  intros Hs. unfold insertEdge. destruct (findEdge_split s e Hs) as (l1 & l2 & -> & H1 & H2 & ->).
  destruct (sorted_head l1 l2 e Hs H1 H2) as [Hin Hgt]. case_bool_decide as Hh.
  - split; [done|]. split; [|split; [|split; [lia|done]]].
    + intros x. split; [by right|]. intros [->|?]; [by apply Hin|done].
    + split; [done|]. intros Hno. destruct Hno. by apply Hin.
  - rewrite take_app_length, drop_app_length. apply StronglySorted_app in Hs as (H12 & Hs1 & Hs2). split.
    + apply StronglySorted_app. split; [|split; [done|constructor; [done|by apply Hgt]]].
      intros x y Hx [->|Hy]%list.elem_of_cons; [by apply (proj1 (list.Forall_forall _ _) H1)|by apply H12].
    + split; [set_solver|]. split; [split; [|done]; intros _ ?; by apply Hh, Hin|]. split; [rewrite !length_app; simpl; lia|done].
Qed.

Lemma deleteEdge_spec s e : sorted s -> let '(s', removed) := deleteEdge s e in
  sorted s' /\ (forall x, x ∈ s' <-> x ∈ s /\ x <> e) /\ (removed = true <-> e ∈ s) /\
  (length s = length s' + if removed then 1 else 0)%nat /\ (removed = false -> s' = s).
Proof.
  intros Hs. unfold deleteEdge. destruct (findEdge_split s e Hs) as (l1 & l2 & -> & H1 & H2 & ->).
  destruct (sorted_head l1 l2 e Hs H1 H2) as [Hin Hgt]. case_bool_decide as Hh.
  - destruct l2 as [|x l2]; [done|]. injection Hh as ->. rewrite take_app_length.
    assert (drop (S (length l1)) (l1 ++ e :: l2) = l2) as ->.
    { change (e :: l2) with ([e] ++ l2). rewrite app_assoc. apply drop_app_length'. rewrite length_app. simpl. lia. }
    apply StronglySorted_app in Hs as (H12 & Hs1 & [Hs2 He2]%StronglySorted_inv). split.
    + apply StronglySorted_app. split; [|done]. intros y z ? ?. apply H12; set_solver.
    + split; [|split; [split; [intros _; by apply Hin|done]|split; [rewrite !length_app; simpl; lia|done]]].
      intros y. rewrite !elem_of_app, list.elem_of_cons. split; [|naive_solver].
      intros [Hy|Hy]; (split; [auto|]); intros ->.
      * apply (proj1 (list.Forall_forall _ _) H1) in Hy. by apply edge_lt_irrefl in Hy.
      * apply (proj1 (list.Forall_forall _ _) He2) in Hy. by apply edge_lt_irrefl in Hy.
  - split; [done|]. split; [|split; [split; [done|]; intros He; by apply Hin in He|split; [lia|done]]].
    intros x. split; [|by intros [? _]]. intros Hx. split; [done|]. intros ->. by apply Hh, Hin.
Qed.

(** ** The invariant *)

(** Total length of the lists of one direction. *)
Definition edge_total (m : gmap NodeID (list Edge)) : nat := sum_list (length <$> (map_to_list m).*2).

Lemma edge_total_delete m id : edge_total m = (length (edges_of m id) + edge_total (delete id m))%nat.
Proof.
  unfold edges_of. destruct (m !! id) as [l|] eqn:E; simpl; [|by rewrite delete_id].
  unfold edge_total. by rewrite <- (map_to_list_delete _ _ _ E).
Qed.

Lemma edge_total_insert m id l : (edge_total (<[id := l]> m) + length (edges_of m id) = edge_total m + length l)%nat.
Proof.
  rewrite (edge_total_delete (<[id := l]> m) id), delete_insert_eq, (edge_total_delete m id). unfold edges_of at 1.
  rewrite lookup_insert_eq. simpl. lia.
Qed.

Lemma edges_of_insert m id l id' : edges_of (<[id := l]> m) id' = if bool_decide (id' = id) then l else edges_of m id'.
Proof. unfold edges_of. case_bool_decide; [subst; by rewrite lookup_insert_eq|by rewrite lookup_insert_ne]. Qed.

Lemma edges_of_store m id l id' : edges_of (storeEdges id l m) id' = if bool_decide (id' = id) then l else edges_of m id'.
Proof.
  destruct l; simpl; [|apply edges_of_insert]. unfold edges_of.
  case_bool_decide; [subst; by rewrite lookup_delete_eq|by rewrite lookup_delete_ne].
Qed.

Lemma edge_total_store m id l : (edge_total (storeEdges id l m) + length (edges_of m id) = edge_total m + length l)%nat.
Proof. destruct l; [|apply edge_total_insert]. simpl. rewrite (edge_total_delete m id). lia. Qed.

Record adj_ok (g : gstate) : Prop := {
  ao_out : forall id, sorted (edges_of (g_out g) id);
  ao_in : forall id, sorted (edges_of (g_in g) id);
  ao_dual : forall a b k, mkEdge b k ∈ edges_of (g_out g) a <-> mkEdge a k ∈ edges_of (g_in g) b;
  ao_count : g_edges g = Z.of_nat (edge_total (g_out g));
  ao_refcnt : forall id, refcnt g id = Z.of_nat (length (edges_of (g_out g) id) + length (edges_of (g_in g) id));
  ao_stored : forall id, g_out g !! id <> Some [] /\ g_in g !! id <> Some []
}.

Definition has_edge (g : gstate) (e : halfEdge) : Prop := mkEdge (he_To e) (he_Kind e) ∈ edges_of (g_out g) (he_From e).

#[global] Instance has_edge_dec g e : Decision (has_edge g e).
Proof. unfold has_edge. apply _. Defined.

Lemma refcnt_bump m id by_ id' : default 0 (bump id by_ m !! id') = default 0 (m !! id') + (if bool_decide (id' = id) then by_ else 0).
Proof.
  unfold bump. case_bool_decide; [subst; by rewrite lookup_insert_eq|rewrite lookup_insert_ne by done; lia].
Qed.

(** The state with both lists of an edge replaced. *)
Lemma stored_insert (m : gmap NodeID (list Edge)) id l : l <> [] -> (forall i, m !! i <> Some []) -> forall i, <[id := l]> m !! i <> Some [].
Proof. intros Hl Hm i. destruct (decide (i = id)) as [->|]; [rewrite lookup_insert_eq; congruence|by rewrite lookup_insert_ne]. Qed.

Lemma stored_store (m : gmap NodeID (list Edge)) id l : (forall i, m !! i <> Some []) -> forall i, storeEdges id l m !! i <> Some [].
Proof.
  intros Hm i. destruct l; simpl; [|by apply stored_insert]. intros Hi. apply lookup_delete_Some in Hi as [_ Hi]. by apply (Hm i).
Qed.

Lemma addEdge_adj e g : adj_ok g -> let g' := (addEdge e g).2 in
  adj_ok g' /\ forall x, has_edge g' x <-> x = e \/ has_edge g x.
Proof.
  intros [H1 H2 H3 H4 H5 H6]. destruct e as [a b k]. unfold addEdge, has_edge. cbn [he_From he_To he_Kind].
  pose proof (insertEdge_spec _ (mkEdge b k) (H1 a)) as Ho. pose proof (insertEdge_spec _ (mkEdge a k) (H2 b)) as Hi.
  destruct (insertEdge (edges_of (g_out g) a) _) as [out added]. destruct (insertEdge (edges_of (g_in g) b) _) as [in_ added'].
  destruct Ho as (O1 & O2 & O3 & O4 & _). destruct Hi as (I1 & I2 & I3 & I4 & _).
  assert (added' = added) as ->.
  { apply eq_true_iff_eq. rewrite O3, I3. by rewrite H3. }
  destruct added; cbn [negb].
  - split; [split; cbn|].
    + intros id. rewrite edges_of_insert. case_bool_decide; [done|apply H1].
    + intros id. rewrite edges_of_insert. case_bool_decide; [done|apply H2].
    + intros a' b' k'. rewrite !edges_of_insert. repeat case_bool_decide; subst; rewrite ?O2, ?I2; try naive_solver.
      all: rewrite H3; naive_solver.
    + pose proof (edge_total_insert (g_out g) a out). lia.
    + intros id. unfold refcnt. cbn. rewrite !refcnt_bump. fold (refcnt g id). rewrite H5, !edges_of_insert.
      repeat case_bool_decide; subst; lia.
    + intros id. split.
      * apply stored_insert; [|intros; apply H6]. intros ->. simpl in O4. lia.
      * apply stored_insert; [|intros; apply H6]. intros ->. simpl in I4. lia.
    + intros [a' b' k']. cbn. rewrite edges_of_insert. case_bool_decide; [subst|]; rewrite ?O2; naive_solver.
  - split; [by split|]. assert (mkEdge b k ∈ edges_of (g_out g) a) as Hin.
    { destruct (decide (mkEdge b k ∈ edges_of (g_out g) a)); [done|]. by apply O3 in n. }
    intros x. split; [by right|]. by intros [->|?].
Qed.

Lemma dropEdge_adj e g : adj_ok g -> let '(removed, g') := dropEdge e g in
  adj_ok g' /\ (forall x, has_edge g' x <-> has_edge g x /\ x <> e) /\ (removed = true <-> has_edge g e).
Proof.
  intros [H1 H2 H3 H4 H5 H6]. destruct e as [a b k]. unfold dropEdge, has_edge. cbn [he_From he_To he_Kind].
  pose proof (deleteEdge_spec _ (mkEdge b k) (H1 a)) as Ho. pose proof (deleteEdge_spec _ (mkEdge a k) (H2 b)) as Hi.
  destruct (deleteEdge (edges_of (g_out g) a) _) as [out removed]. destruct (deleteEdge (edges_of (g_in g) b) _) as [in_ removed'].
  destruct Ho as (O1 & O2 & O3 & O4 & O5). destruct Hi as (I1 & I2 & I3 & I4 & _).
  assert (removed' = removed) as ->.
  { apply eq_true_iff_eq. rewrite O3, I3. by rewrite H3. }
  destruct removed; cbn [negb].
  - split; [split; cbn|split; [|by rewrite <- O3]].
    + intros id. rewrite edges_of_store. case_bool_decide; [done|apply H1].
    + intros id. rewrite edges_of_store. case_bool_decide; [done|apply H2].
    + intros a' b' k'. rewrite !edges_of_store. repeat case_bool_decide; subst; rewrite ?O2, ?I2; try naive_solver.
      all: rewrite H3; naive_solver.
    + pose proof (edge_total_store (g_out g) a out). lia.
    + intros id. unfold refcnt. cbn. rewrite !refcnt_bump. fold (refcnt g id). rewrite H5, !edges_of_store.
      repeat case_bool_decide; subst; lia.
    + intros id. split; (apply stored_store; intros; apply H6).
    + intros [a' b' k']. cbn. rewrite edges_of_store. case_bool_decide; [subst|]; rewrite ?O2; naive_solver.
  - split; [by split|]. split; [|by rewrite O3]. intros x. split; [|by intros [? _]]. intros Hx. split; [done|]. intros ->.
    by apply O3 in Hx.
Qed.

(** Steps that leave the adjacency alone. *)
Definition same_adj (g g' : gstate) : Prop :=
  g_out g' = g_out g /\ g_in g' = g_in g /\ g_edges g' = g_edges g /\ forall id, refcnt g' id = refcnt g id.

#[global] Instance same_adj_preorder : PreOrder same_adj.
Proof. split; [done|]. intros ??? (?&?&?&E) (?&?&?&E'). do 3 (split; [congruence|]). intros. by rewrite E', E. Qed.

Lemma same_adj_ok g g' : same_adj g g' -> adj_ok g -> adj_ok g'.
Proof.
  intros (Ho & Hi & He & Hr) [H1 H2 H3 H4 H5 H6]. split; rewrite ?Ho, ?Hi, ?He; try done. intros id. by rewrite Hr.
Qed.
Lemma same_adj_edge g g' e : same_adj g g' -> has_edge g' e <-> has_edge g e.
Proof. intros (Ho & _). unfold has_edge. by rewrite Ho. Qed.

(** Garbage collection only takes what nothing points at. *)
Lemma maybeGC_adj id g : adj_ok g -> same_adj g (maybeGC id g).2.
Proof.
  intros Hok. unfold maybeGC, gets, mbind, M_bind. cbn beta iota zeta. destruct (Z.ltb_spec 0 (refcnt g id)); [reflexivity|].
  destruct (g_nodes g !! id); [|reflexivity]. destruct (bool_decide _); [reflexivity|]. destruct (_ && _); [reflexivity|].
  split; [done|]. split; [done|]. split; [done|]. intros id'. unfold refcnt in *. cbn.
  destruct (decide (id' = id)) as [->|]; [|by rewrite lookup_delete_ne].
  rewrite lookup_delete_eq. pose proof (ao_refcnt _ Hok id) as Hr. unfold refcnt in Hr. simpl. lia.
Qed.

Lemma removeEdge_adj e g : adj_ok g -> let g' := (removeEdge e g).2 in
  adj_ok g' /\ forall x, has_edge g' x <-> has_edge g x /\ x <> e.
Proof.
  intros Hok. unfold removeEdge, mbind, M_bind. pose proof (dropEdge_adj e g Hok) as Hd. destruct (dropEdge e g) as [[] g1].
  - destruct Hd as (Hok1 & He & _). pose proof (maybeGC_adj (he_From e) g1 Hok1) as Hf.
    destruct (maybeGC (he_From e) g1) as [[] g2]. cbn [snd] in *. pose proof (same_adj_ok _ _ Hf Hok1) as Hok2.
    pose proof (maybeGC_adj (he_To e) g2 Hok2) as Ht. split; [by eapply same_adj_ok|].
    intros x. rewrite (same_adj_edge _ _ _ Ht), (same_adj_edge _ _ _ Hf). apply He.
  - destruct Hd as (Hok1 & He & _). split; [done|apply He].
Qed.

(** ** Compaction

    Compaction renumbers the nodes densely, in the order of their old ids. Over a graph
    whose edges all end in nodes it is an injective, increasing renaming, so everything
    above stays true. *)

Lemma remap_all_Some {V} (r : NodeID -> NodeID) (m : gmap NodeID V) x v :
  (forall a b, is_Some (m !! a) -> is_Some (m !! b) -> r a = r b -> a = b) ->
  remap_all r m !! x = Some v <-> exists id, m !! id = Some v /\ r id = x.
Proof.
  intros Hinj. unfold remap_all. assert (NoDup ((fun '(id, v) => (r id, v)) <$> map_to_list m).*1) as Hnd.
  { rewrite <- list_fmap_compose. apply NoDup_fmap_2_strong; [|apply NoDup_map_to_list].
    intros [a va] [b vb] Ha%elem_of_map_to_list Hb%elem_of_map_to_list. cbn. intros Hr.
    assert (a = b) as -> by (apply Hinj; [by eexists..|done]). congruence. }
  rewrite <- elem_of_list_to_map by done. rewrite list_elem_of_fmap. split.
  - intros ([id v'] & [= -> ->] & Hin%elem_of_map_to_list). eauto.
  - intros (id & Hid & <-). exists (id, v). split; [done|]. by apply elem_of_map_to_list.
Qed.

Lemma remap_keys_Some {V} (remap : gmap NodeID NodeID) (m : gmap NodeID V) x v :
  (forall a b c, remap !! a = Some c -> remap !! b = Some c -> a = b) ->
  remap_keys remap m !! x = Some v <-> exists id, m !! id = Some v /\ remap !! id = Some x.
Proof.
  intros Hinj. unfold remap_keys. set (l := omap _ _).
  assert (forall x v, (x, v) ∈ l <-> exists id, m !! id = Some v /\ remap !! id = Some x) as Hl.
  { intros y u. unfold l. rewrite list_elem_of_omap. split.
    - intros ([id v'] & Hin%elem_of_map_to_list & Hr). cbn in Hr. destruct (remap !! id) eqn:E; [|done]. injection Hr as -> ->. eauto.
    - intros (id & Hid & Hr). exists (id, u). split; [by apply elem_of_map_to_list|]. cbn. by rewrite Hr. }
  assert (NoDup l.*1) as Hnd.
  { unfold l. clear Hl l. pose proof (NoDup_fst_map_to_list m) as Hm. induction (map_to_list m) as [|[id v'] ml IH]; [constructor|]. cbn [fmap list_fmap fst] in Hm.
    apply list.NoDup_cons in Hm as [Hid Hm]. cbn [omap list_omap]. destruct (remap !! id) as [c|] eqn:E; cbn; [|by apply IH]. constructor; [|by apply IH].
    intros ([y u] & -> & Hin)%list_elem_of_fmap. apply list_elem_of_omap in Hin as ([id2 u2] & Hin & Hr). cbn in Hr. destruct (remap !! id2) as [c2|] eqn:E2; [|done].
    injection Hr as <- <-. cbn in E. apply Hid. rewrite (Hinj _ _ _ E E2). apply list_elem_of_fmap. by exists (id2, u2). }
  by rewrite <- elem_of_list_to_map, Hl.
Qed.

Lemma dense_ids_lookup ids i id : NoDup ids -> ids !! i = Some id -> dense_ids ids !! id = Some (Z.of_nat i + 1).
Proof.
  intros Hnd Hi. unfold dense_ids. apply elem_of_list_to_map_1.
  - rewrite fst_zip; [done|]. by rewrite length_fmap, length_seq.
  - apply list_elem_of_lookup. exists i. apply lookup_zip_Some. split; [done|]. rewrite list_lookup_fmap, lookup_seq_lt; [done|]. by eapply lookup_lt_Some.
Qed.

Lemma dense_ids_None ids id : id ∉ ids -> dense_ids ids !! id = None.
Proof.
  intros Hid. unfold dense_ids. apply not_elem_of_list_to_map_1. rewrite fst_zip; [done|]. by rewrite length_fmap, length_seq.
Qed.

Section compaction.
Context (g : gstate).
Hypothesis (Hadj : adj_ok g).
Hypothesis (Hclosed : forall a e, e ∈ edges_of (g_out g) a -> is_Some (g_nodes g !! a) /\ is_Some (g_nodes g !! ed_To e)).

Definition old_ids : list NodeID := merge_sort Z.le (map_to_list (g_nodes g)).*1.
Definition new_ids : gmap NodeID NodeID := dense_ids old_ids.
Definition new_id (id : NodeID) : NodeID := default NoNode (new_ids !! id).

Lemma elem_of_old id : id ∈ old_ids <-> is_Some (g_nodes g !! id).
Proof.
  unfold old_ids. rewrite (merge_sort_Permutation Z.le), list_elem_of_fmap. split.
  - intros ([i v] & -> & Hin%elem_of_map_to_list). by eexists.
  - intros [v Hv]. exists (id, v). split; [done|]. by apply elem_of_map_to_list.
Qed.

Lemma old_ids_NoDup : NoDup old_ids.
Proof. unfold old_ids. rewrite (merge_sort_Permutation Z.le). apply NoDup_fst_map_to_list. Qed.

Lemma new_id_at id : is_Some (g_nodes g !! id) -> exists i, old_ids !! i = Some id /\ new_ids !! id = Some (Z.of_nat i + 1) /\ new_id id = Z.of_nat i + 1.
Proof.
  intros [i Hi]%elem_of_old%list_elem_of_lookup. exists i. pose proof (dense_ids_lookup _ _ _ old_ids_NoDup Hi) as E. unfold new_id, new_ids. by rewrite E.
Qed.

Lemma new_ids_node id c : new_ids !! id = Some c -> is_Some (g_nodes g !! id) /\ new_id id = c.
Proof.
  intros E. unfold new_id. rewrite E. split; [|done]. destruct (decide (id ∈ old_ids)) as [|Hn]; [by apply elem_of_old|].
  unfold new_ids in E. by rewrite dense_ids_None in E.
Qed.

Lemma new_id_lt a b : is_Some (g_nodes g !! a) -> is_Some (g_nodes g !! b) -> a < b -> new_id a < new_id b.
Proof.
  intros (i & Hi & _ & ->)%new_id_at (j & Hj & _ & ->)%new_id_at Hab. destruct (decide (i < j)%nat) as [|Hij]; [lia|exfalso].
  destruct (decide (i = j)) as [->|Hne]; [rewrite Hi in Hj; injection Hj as ->; lia|].
  assert (Sorted.StronglySorted Z.le old_ids) as Hs by (apply StronglySorted_merge_sort; [intros ?????; lia|intros ??; lia]).
  assert (b <= a); [|lia]. eapply (StronglySorted_app_1_elem_of Z.le (take i old_ids) (drop i old_ids)); [by rewrite take_drop|..].
  - apply (list_elem_of_lookup_2 _ j). apply lookup_take_Some. split; [done|lia].
  - apply (list_elem_of_lookup_2 _ 0). by rewrite lookup_drop, Nat.add_0_r.
Qed.

Lemma new_id_inj a b : is_Some (g_nodes g !! a) -> is_Some (g_nodes g !! b) -> new_id a = new_id b -> a = b.
Proof.
  intros Ha Hb E. destruct (Z.lt_trichotomy a b) as [Hl|[?|Hl]]; [|done|]; [pose proof (new_id_lt a b Ha Hb Hl)|pose proof (new_id_lt b a Hb Ha Hl)]; lia.
Qed.

Lemma out_keys a : is_Some (g_out g !! a) -> is_Some (g_nodes g !! a).
Proof.
  intros [es E]. destruct es as [|e es]; [by destruct (ao_stored _ Hadj a)|]. apply (Hclosed a e). unfold edges_of. rewrite E. set_solver.
Qed.

Lemma in_closed b e : e ∈ edges_of (g_in g) b -> is_Some (g_nodes g !! b) /\ is_Some (g_nodes g !! ed_To e).
Proof. destruct e as [a k]. intros He%(ao_dual _ Hadj). destruct (Hclosed _ _ He). done. Qed.

Lemma in_keys_nodes b : is_Some (g_in g !! b) -> is_Some (g_nodes g !! b).
Proof.
  intros [es E]. destruct es as [|e es]; [by destruct (ao_stored _ Hadj b)|]. apply (in_closed b e). unfold edges_of. rewrite E. set_solver.
Qed.

(** A renamed direction: the lists of the renamed nodes, renamed. *)
Lemma renamed_edges (m : adjacency) x : (forall a, is_Some (m !! a) -> is_Some (g_nodes g !! a)) ->
  let m' := remap_all new_id (remap_edges new_id <$> m) in
  (exists a, is_Some (g_nodes g !! a) /\ x = new_id a /\ m' !! x = remap_edges new_id <$> m !! a) \/
  ((forall a, is_Some (g_nodes g !! a) -> new_id a <> x) /\ m' !! x = None).
Proof.
  intros Hm. cbn zeta. assert (forall v, remap_all new_id (remap_edges new_id <$> m) !! x = Some v <-> exists id, (remap_edges new_id <$> m) !! id = Some v /\ new_id id = x) as Hl.
  { intros v. apply remap_all_Some. intros a b. rewrite !lookup_fmap, !fmap_is_Some. intros. apply new_id_inj; auto. }
  destruct (decide (x ∈ new_id <$> old_ids)) as [Hx|Hx].
  - apply list_elem_of_fmap in Hx as (a & -> & Ha%elem_of_old). left. exists a. split; [done|]. split; [done|]. apply option_eq. intros v. rewrite Hl. split.
    + intros (b & Hb & Eb). rewrite lookup_fmap in Hb. assert (is_Some (m !! b)) as Hmb by (destruct (m !! b); [by eexists|done]).
      by rewrite <- (new_id_inj b a (Hm b Hmb) Ha Eb).
    + intros Hv. exists a. by rewrite lookup_fmap.
  - right. assert (forall a, is_Some (g_nodes g !! a) -> new_id a <> x) as Hno.
    { intros a Ha <-. apply Hx, list_elem_of_fmap. exists a. split; [done|]. by apply elem_of_old. }
    split; [done|]. apply eq_None_not_Some. intros [v Hv]. apply Hl in Hv as (b & Hb & Eb). rewrite lookup_fmap in Hb.
    apply (Hno b); [|done]. apply Hm. destruct (m !! b); [by eexists|done].
Qed.

Lemma remap_sorted l : Forall (fun e => is_Some (g_nodes g !! ed_To e)) l -> sorted l -> sorted (remap_edges new_id l).
Proof.
  intros Hn. induction 1 as [|e l Hl IH He]; [constructor|]. apply list.Forall_cons in Hn as [He' Hn]. cbn. constructor; [by apply IH|].
  apply list.Forall_fmap. apply list.Forall_forall. intros e2 H2. cbn. rewrite list.Forall_forall in He, Hn. specialize (He e2 H2). specialize (Hn e2 H2).
  rewrite edge_lt_spec in *. cbn. destruct He as [?|[? ?]]; [by left|right]. split; [done|]. by apply new_id_lt.
Qed.

Notation renamed m := (remap_all new_id (remap_edges new_id <$> m)) (only parsing).

Lemma renamed_at (m : adjacency) a : (forall a, is_Some (m !! a) -> is_Some (g_nodes g !! a)) -> is_Some (g_nodes g !! a) ->
  edges_of (renamed m) (new_id a) = remap_edges new_id (edges_of m a).
Proof.
  intros Hm Ha. unfold edges_of. destruct (renamed_edges m (new_id a) Hm) as [(b & Hb & E & ->)|[Hno _]]; [|by destruct (Hno a Ha)].
  rewrite <- (new_id_inj a b Ha Hb E). by destruct (m !! a).
Qed.

Lemma elem_of_renamed (m : adjacency) x y k : (forall a, is_Some (m !! a) -> is_Some (g_nodes g !! a)) ->
  mkEdge y k ∈ edges_of (renamed m) x <-> exists a b, is_Some (g_nodes g !! a) /\ x = new_id a /\ y = new_id b /\ mkEdge b k ∈ edges_of m a.
Proof.
  intros Hm. split.
  - destruct (renamed_edges m x Hm) as [(a & Ha & -> & _)|[_ E]]; [|unfold edges_of; rewrite E; intros H; by apply not_elem_of_nil in H].
    rewrite renamed_at by done. intros ([b k'] & [= -> ->] & He)%list_elem_of_fmap. by exists a, b.
  - intros (a & b & Ha & -> & -> & He). rewrite renamed_at by done. apply list_elem_of_fmap. by exists (mkEdge b k).
Qed.

Lemma renamed_sorted (m : adjacency) x : (forall a, is_Some (m !! a) -> is_Some (g_nodes g !! a)) ->
  (forall a e, e ∈ edges_of m a -> is_Some (g_nodes g !! ed_To e)) -> (forall a, sorted (edges_of m a)) ->
  (forall a, m !! a <> Some []) -> sorted (edges_of (renamed m) x) /\ renamed m !! x <> Some [].
Proof.
  intros Hm He Hs Hst. destruct (renamed_edges m x Hm) as [(a & Ha & -> & E)|[_ E]].
  - split; [rewrite renamed_at by done; apply remap_sorted; [|done]; apply list.Forall_forall; eauto|].
    rewrite E. specialize (Hst a). destruct (m !! a) as [[|e es]|]; done.
  - unfold edges_of. rewrite E. split; [constructor|done].
Qed.

Lemma renamed_total (m : adjacency) : (forall a, is_Some (m !! a) -> is_Some (g_nodes g !! a)) -> edge_total (renamed m) = edge_total m.
Proof.
  intros Hm. unfold edge_total, remap_all. rewrite map_to_list_to_map.
  - rewrite map_to_list_fmap, <- !list_fmap_compose. f_equal. apply list_fmap_ext. intros i [a es] _. cbn. unfold remap_edges. by rewrite length_fmap.
  - rewrite map_to_list_fmap, <- !list_fmap_compose. apply NoDup_fmap_2_strong; [|apply NoDup_map_to_list].
    intros [a va] [b vb] Ha%elem_of_map_to_list Hb%elem_of_map_to_list. cbn. intros Hr.
    assert (a = b) as -> by (apply new_id_inj; [apply Hm; by eexists..|done]). congruence.
Qed.

(** Compaction keeps the adjacency sound. *)
Lemma compact_adj : adj_ok (compactBatchLocked g).1.
Proof.
  assert (forall a e, e ∈ edges_of (g_out g) a -> is_Some (g_nodes g !! ed_To e)) as Hto by (intros a e He; by apply (Hclosed a e)).
  assert (forall a e, e ∈ edges_of (g_in g) a -> is_Some (g_nodes g !! ed_To e)) as Hfrom by (intros a e He; by apply (in_closed a e)).
  pose proof (fun x => renamed_sorted (g_out g) x out_keys Hto (ao_out _ Hadj) (fun a => proj1 (ao_stored _ Hadj a))) as Hso.
  pose proof (fun x => renamed_sorted (g_in g) x in_keys_nodes Hfrom (ao_in _ Hadj) (fun a => proj2 (ao_stored _ Hadj a))) as Hsi.
  unfold compactBatchLocked. fold old_ids. fold new_ids. change (fun id => default NoNode (new_ids !! id)) with new_id. split; cbn [g_out g_in g_edges fst].
  - intros x. apply Hso.
  - intros x. apply Hsi.
  - intros x y k. rewrite !elem_of_renamed by (exact out_keys || exact in_keys_nodes). split.
    + intros (a & b & Ha & -> & -> & He). exists b, a. destruct (Hclosed _ _ He). split; [done|]. split; [done|]. split; [done|]. by apply (ao_dual _ Hadj).
    + intros (b & a & Hb & -> & -> & He). exists a, b. destruct (in_closed _ _ He). split; [done|]. split; [done|]. split; [done|]. by apply (ao_dual _ Hadj).
  - rewrite renamed_total by apply out_keys. apply (ao_count _ Hadj).
  - intros x. unfold refcnt. cbn [g_refcnt].
    assert (forall v, remap_keys new_ids (g_refcnt g) !! x = Some v <-> exists id, g_refcnt g !! id = Some v /\ new_ids !! id = Some x) as Hl.
    { intros v. apply remap_keys_Some. intros a b c [Ha Ea]%new_ids_node [Hb Eb]%new_ids_node. apply new_id_inj; [done..|congruence]. }
    destruct (renamed_edges (g_out g) x out_keys) as [(a & Ha & -> & _)|[Hno E]].
    + rewrite !renamed_at by (exact out_keys || exact in_keys_nodes || done). unfold remap_edges. rewrite !length_fmap, <- (ao_refcnt _ Hadj a). unfold refcnt. f_equal.
      apply option_eq. intros v. rewrite Hl. destruct (new_id_at a Ha) as (i & _ & Hn & En). split.
      * intros (b & Hb & [Hbn Eb]%new_ids_node). by rewrite <- (new_id_inj b a Hbn Ha Eb).
      * intros Hv. exists a. split; [done|]. congruence.
    + assert (remap_keys new_ids (g_refcnt g) !! x = None) as ->.
      { apply eq_None_not_Some. intros [v (id & _ & [Hid Eid]%new_ids_node)%Hl]. by apply (Hno id). }
      destruct (renamed_edges (g_in g) x in_keys_nodes) as [(a & Ha & -> & _)|[_ E']]; [by destruct (Hno a Ha)|].
      unfold edges_of. by rewrite E, E'.
  - intros x. split; [apply Hso|apply Hsi].
Qed.

(** It keeps the names of the nodes, and their edges. *)
Lemma compact_key a : is_Some (g_nodes g !! a) -> is_Some (key_at (in_keys (g_intern g)) a) ->
  key_at (in_keys (g_intern (compactBatchLocked g).1)) (new_id a) = key_at (in_keys (g_intern g)) a.
Proof.
  intros (i & Hi & _ & ->)%new_id_at [k Hk]. unfold compactBatchLocked. fold old_ids. cbn [fst g_intern in_keys]. unfold key_at at 1.
  destruct (Z.ltb_spec (Z.of_nat i + 1) 1); [lia|]. replace (Z.to_nat (Z.of_nat i + 1 - 1)) with i by lia.
  rewrite list_lookup_fmap, Hi. cbn. by rewrite Hk.
Qed.

Lemma compact_edge x y k : mkEdge y k ∈ edges_of (g_out (compactBatchLocked g).1) x <->
  exists a b, x = new_id a /\ y = new_id b /\ mkEdge b k ∈ edges_of (g_out g) a.
Proof.
  unfold compactBatchLocked. fold old_ids. fold new_ids. change (fun id => default NoNode (new_ids !! id)) with new_id. cbn [fst g_out].
  rewrite elem_of_renamed by apply out_keys. split; [intros (a & b & _ & ?); eauto|]. intros (a & b & -> & -> & He). exists a, b. by destruct (Hclosed _ _ He).
Qed.
End compaction.
