(* ===== verification/GraphRebuild.v ===== *)
(** Incremental maintenance is a rebuild (src/pkg/graph: writer.go, derive.go): after any
    history of deltas the edges of the graph are those a fresh derivation from the
    objects that exist gives. *)
From S2P Require Import Prelude GoStrings GoHash GoFmt GoSort Effects GraphTypes GraphCodec GraphChanges GraphWriter.
From S2P Require Import GraphReplay GraphReplaySpec GraphAdjacency.
Import ShopGraph.
From stdpp Require Import sorting.
Open Scope Z_scope.
Open Scope lookout_scope.

(** ** The reference: what the objects of a cluster imply *)

(** An edge between identities. *)
Record kedge := mkKE { ke_From : string; ke_To : string; ke_Kind : EdgeKind }.
#[global] Instance kedge_eq_dec : EqDecision kedge.
Proof. solve_decision. Defined.

Section reference.
Context `{LabelLib}.

Definition owner_kedges (refs : list OwnerReference) (ns self : string) : list kedge :=
  concat ((fun r =>
    match ownerNodeKinds (or_Kind r) with
    | None => []
    | Some kind => [mkKE (nodeKey kind (if bool_decide (kind = KindNode) then "" else ns) (or_Name r)) self EdgeOwns]
    end) <$> refs).

Definition mount_kedges (ns self : string) (refs : list (NodeKind * string)) : list kedge :=
  (fun '(kind, name) => mkKE self (nodeKey kind ns name) EdgeMounts) <$> refs.

Definition zone_of (labels : gmap string string) : string :=
  if get labels LabelTopologyZone ==s "" then get labels LabelFailureDomainBetaZone else get labels LabelTopologyZone.

(** The edges an object implies on its own. *)
Definition own_kedges (o : kobj) : list kedge :=
  let m := obj_meta o in
  let ns := om_Namespace m in
  let self := object_key o in
  owner_kedges (om_OwnerReferences m) ns self ++
  match o with
  | OPod m spec =>
      (if ps_NodeName spec <>s "" then [mkKE self (nodeKey KindNode "" (ps_NodeName spec)) EdgeRunsOn] else []) ++
      concat ((fun c => mkKE self (nodeKey KindContainer ns (om_Name m +:+ "/" +:+ ct_Name c)) EdgeContains ::
                        mount_kedges ns self (container_refs c)) <$> pod_containers spec) ++
      mount_kedges ns self (concat (volume_refs <$> ps_Volumes spec))
  | ONode m _ => if zone_of (om_Labels m) <>s "" then [mkKE self (nodeKey KindZone "" (zone_of (om_Labels m))) EdgeRunsOn] else []
  | OEndpointSlice m endpoints =>
      (if get (om_Labels m) LabelServiceName <>s ""
       then [mkKE (nodeKey KindService ns (get (om_Labels m) LabelServiceName)) self EdgeRoutesTo] else []) ++
      concat ((fun ref =>
        match ref with
        | Some (kind, name) => if (kind <>s "Pod") || (name ==s "") then [] else [mkKE self (nodeKey KindPod ns name) EdgeRoutesTo]
        | None => []
        end) <$> endpoints)
  | OIngress m b rules =>
      concat ((fun backend =>
        match backend with
        | Some name => if name ==s "" then [] else [mkKE self (nodeKey KindService ns name) EdgeRoutesTo]
        | None => []
        end) <$> b :: concat (default [] <$> rules))
  | _ => []
  end.

(** The selector of an object, and the labels of a pod. *)
Definition selects (o : kobj) : option selEntry :=
  match o with
  | OService _ selector => if bool_decide (selector = ∅) then None else Some (mkSel (FromSet selector) EdgeSelects)
  | ONetworkPolicy _ selector => (fun f => mkSel f EdgeGoverns) <$> AsSelector selector
  | _ => None
  end.
Definition pod_labels (o : kobj) : option (gmap string string) :=
  match o with OPod m _ => Some (om_Labels m) | _ => None end.
Definition obj_ns (o : kobj) : string := om_Namespace (obj_meta o).

Notation cluster := (gmap string kobj) (only parsing).

(** The pods a selector picks in its namespace. *)
Definition selected_edge (objs : cluster) (o : kobj) (x : kedge) : Prop :=
  exists ent key p labels, selects o = Some ent /\ objs !! key = Some p /\ obj_ns p = obj_ns o /\
    pod_labels p = Some labels /\ se_sel ent labels = true /\ x = mkKE (object_key o) key (se_kind ent).

Definition declares (objs : cluster) (key : string) (x : kedge) : Prop :=
  exists o, objs !! key = Some o /\ (x ∈ own_kedges o \/ selected_edge objs o x).

(** The cluster after a delta. *)
Definition upsert (op : Op) (o : kobj) (objs : cluster) : cluster :=
  if bool_decide (op = OpDelete) then delete (object_key o) objs else <[object_key o := o]> objs.

(** *** Each edge has one declarer *)

Definition declarer (x : kedge) : string :=
  match ke_Kind x with
  | EdgeOwns => ke_To x
  | EdgeRoutesTo => if HasPrefix (ke_From x) "Service/" then ke_To x else ke_From x
  | _ => ke_From x
  end.

Lemma owner_declarer refs ns self : Forall (fun x => declarer x = self) (owner_kedges refs ns self).
Proof.
  unfold owner_kedges. induction refs as [|r refs IH]; simpl; [constructor|]. apply Forall_app. split; [|done].
  destruct (ownerNodeKinds _); repeat constructor.
Qed.

Lemma mount_declarer ns self refs : Forall (fun x => declarer x = self) (mount_kedges ns self refs).
Proof. unfold mount_kedges. apply Forall_fmap. induction refs as [|[] refs IH]; by constructor. Qed.

Lemma Forall_concat_fmap {A B} (P : B -> Prop) (f : A -> list B) l : (forall x, Forall P (f x)) -> Forall P (concat (f <$> l)).
Proof. intros Hf. induction l; simpl; [constructor|]. by apply Forall_app. Qed.

Lemma own_declarer o : Forall (fun x => declarer x = object_key o) (own_kedges o).
Proof.
  unfold own_kedges. apply Forall_app. split; [apply owner_declarer|].
  destruct o; try constructor.
  - repeat (apply Forall_app; split).
    + destruct (negb _); repeat constructor.
    + apply Forall_concat_fmap. intros c. constructor; [done|]. apply mount_declarer.
    + apply mount_declarer.
  - destruct (negb _); repeat constructor.
  - apply Forall_app. split; [destruct (negb _); [by constructor|constructor]|]. apply Forall_concat_fmap.
    intros [[kind name]|]; [|constructor]. destruct (_ || _); repeat constructor.
  - apply Forall_concat_fmap. intros [name|]; [|constructor]. destruct (bool_decide _); repeat constructor.
Qed.
Definition keyed (objs : cluster) : Prop := forall key o, objs !! key = Some o -> key = object_key o /\ admitted o.

Lemma declares_declarer objs key x : keyed objs -> declares objs key x -> declarer x = key.
Proof.
  intros Hk (o & Ho & Hx). destruct (Hk _ _ Ho) as [-> _]. destruct Hx as [Hx|Hx].
  - by apply (proj1 (list.Forall_forall _ _) (own_declarer o)).
  - destruct Hx as (ent & kp & p & l & He & _ & _ & _ & _ & ->). unfold declarer. simpl.
    destruct o; simpl in He; try done; [by destruct (bool_decide _); simplify_eq|].
    destruct (AsSelector podSelector); simplify_eq/=. done.
Qed.
End reference.

(** ** Names *)

Definition named (g : gstate) (id : NodeID) (key : string) : Prop := key_at (keys_of g) id = Some key.

Definition denotes (g : gstate) (e : halfEdge) (x : kedge) : Prop :=
  named g (he_From e) (ke_From x) /\ named g (he_To e) (ke_To x) /\ he_Kind e = ke_Kind x.

(** A list of edges is a set of named ones. *)
Definition matches (g : gstate) (l : list halfEdge) (P : kedge -> Prop) : Prop :=
  (forall e, e ∈ l -> exists x, denotes g e x /\ P x) /\ (forall x, P x -> exists e, e ∈ l /\ denotes g e x).

Lemma named_inj g id id' key : ids_ok g -> named g id key -> named g id' key -> id = id'.
Proof. apply key_at_inj. Qed.
Lemma named_fun g id key key' : named g id key -> named g id key' -> key = key'.
Proof. unfold named. congruence. Qed.

Lemma denotes_inj g e e' x : ids_ok g -> denotes g e x -> denotes g e' x -> e = e'.
Proof.
  intros Hok (H1 & H2 & H3) (H1' & H2' & H3'). destruct e, e'; simpl in *.
  f_equal; [by eapply named_inj|by eapply named_inj|congruence].
Qed.
Lemma denotes_fun g e x x' : denotes g e x -> denotes g e x' -> x = x'.
Proof.
  intros (H1 & H2 & H3) (H1' & H2' & H3'). destruct x, x'; simpl in *.
  f_equal; [by eapply named_fun|by eapply named_fun|congruence].
Qed.

#[global] Instance stable_named id key : Stable (fun g => named g id key).
Proof.
  intros g g' [l Hl] Hn. unfold named in *. rewrite Hl. unfold key_at in *. destruct (id <? 1); [done|].
  by apply lookup_app_l_Some.
Qed.
#[global] Instance stable_denotes e x : Stable (fun g => denotes g e x).
Proof. intros g g' Hp (? & ? & ?). split; [by eapply stable_named|]. split; [by eapply stable_named|done]. Qed.
#[global] Instance stable_forall2 l xs : Stable (fun g => Forall2 (denotes g) l xs).
Proof. intros g g' Hp Hl. eapply Forall2_impl; [exact Hl|]. intros e x. by apply stable_denotes. Qed.

Lemma matches_prefix g g' l P : keys_of g `prefix_of` keys_of g' -> matches g l P -> matches g' l P.
Proof.
  intros Hp [H1 H2]. split.
  - intros e He. destruct (H1 e He) as (x & Hx & ?). exists x. split; [by eapply stable_denotes|done].
  - intros x Hx. destruct (H2 x Hx) as (e & ? & He). exists e. split; [done|by eapply stable_denotes].
Qed.

Lemma matches_ext g l l' P P' : (forall e, e ∈ l <-> e ∈ l') -> (forall x, P x <-> P' x) -> matches g l P -> matches g l' P'.
Proof.
  intros Hl HP [H1 H2]. split.
  - intros e He%Hl. destruct (H1 e He) as (x & ? & ?%HP). by exists x.
  - intros x Hx%HP. destruct (H2 x Hx) as (e & ?%Hl & ?). by exists e.
Qed.

Lemma matches_forall2 g l xs : Forall2 (denotes g) l xs -> matches g l (fun x => x ∈ xs).
Proof.
  intros Hl. split.
  - intros e [i Hi]%list_elem_of_lookup. destruct (Forall2_lookup_l _ _ _ _ _ Hl Hi) as (x & Hx & ?).
    exists x. split; [done|by eapply list_elem_of_lookup_2].
  - intros x [i Hi]%list_elem_of_lookup. destruct (Forall2_lookup_r _ _ _ _ _ Hl Hi) as (e & He & ?).
    exists e. split; [by eapply list_elem_of_lookup_2|done].
Qed.

(** ** Declarations *)

(** The edges of [g] are the declared ones, and what the object of each key declares is
    [D key]. *)
Record declared_ok (D : string -> kedge -> Prop) (g : gstate) : Prop := {
  do_ids : ids_ok g;
  do_adj : adj_ok g;
  do_edges : forall e, has_edge g e <-> exists src, e ∈ declared_by g src;
  do_once : forall src, NoDup (declared_by g src);
  do_src : forall src e, e ∈ declared_by g src -> valid_id g src;
  do_match : forall src key, named g src key -> matches g (declared_by g src) (D key);
  do_key : forall key x, D key x -> declarer x = key /\ exists src, named g src key
}.

Lemma declared_ext D D' g : (forall key x, D key x <-> D' key x) -> declared_ok D g -> declared_ok D' g.
Proof.
  intros HD [H1 H2 H3 H4 H5 H6 H7]. split; try done.
  - intros src key Hn. eapply matches_ext; [done| |by apply H6]. intros x. apply HD.
  - intros key x Hx%HD. by apply H7.
Qed.

(** What a declared edge of [src] is called, and that nothing else declares it. *)
Lemma declared_name D g src e : declared_ok D g -> e ∈ declared_by g src ->
  exists key x, named g src key /\ denotes g e x /\ D key x /\ declarer x = key.
Proof.
  intros Hd He. destruct (do_src _ _ Hd _ _ He) as [key Hk]. destruct (do_match _ _ Hd _ _ Hk) as [H1 _].
  destruct (H1 e He) as (x & Hx & HD). exists key, x. split; [done|]. split; [done|]. split; [done|]. by apply (do_key _ _ Hd).
Qed.

Lemma declared_excl D g src src' e : declared_ok D g -> e ∈ declared_by g src -> e ∈ declared_by g src' -> src = src'.
Proof.
  intros Hd He He'. destruct (declared_name _ _ _ _ Hd He) as (k & x & Hk & Hx & _ & <-).
  destruct (declared_name _ _ _ _ Hd He') as (k' & x' & Hk' & Hx' & _ & <-).
  rewrite (denotes_fun _ _ _ _ Hx Hx') in Hk. eapply named_inj; [apply Hd|done|done].
Qed.

(** *** Steps that declare nothing *)

Definition quiet (g g' : gstate) : Prop :=
  same_adj g g' /\ g_declared g' = g_declared g /\ g_podLabels g' = g_podLabels g /\ g_selectors g' = g_selectors g.

#[global] Instance quiet_preorder : PreOrder quiet.
Proof.
  split; [by intros g|]. intros ??? (A&?&?&?) (A'&?&?&?). split; [by etrans|]. split; [congruence|]. split; congruence.
Qed.

Lemma declared_quiet D g g' : declared_ok D g -> ids_ok g' -> keys_of g `prefix_of` keys_of g' -> same_adj g g' ->
  g_declared g' = g_declared g -> declared_ok D g'.
Proof.
  intros Hd Hok Hp Ha Hdec. assert (forall src, declared_by g' src = declared_by g src) as Hby by (intros; unfold declared_by; by rewrite Hdec).
  split; [done|by eapply same_adj_ok, do_adj|..].
  - intros e. rewrite (same_adj_edge _ _ _ Ha), (do_edges _ _ Hd). by setoid_rewrite Hby.
  - intros src. rewrite Hby. apply Hd.
  - intros src e. rewrite Hby. intros He. eapply valid_prefix; [exact Hp|by eapply do_src].
  - intros src key Hn. rewrite Hby. destruct (decide (declared_by g src = [])) as [E|E].
    + rewrite E. split; [set_solver|]. intros x Hx. destruct (do_key _ _ Hd _ _ Hx) as [_ [src' Hs]].
      assert (src' = src) as -> by (eapply named_inj; [exact Hok|by eapply stable_named|done]).
      destruct (do_match _ _ Hd _ _ Hs) as [_ H2]. destruct (H2 x Hx) as (e & He & _). rewrite E in He. set_solver.
    + destruct (declared_by g src) as [|e l] eqn:El; [done|]. destruct (do_src _ _ Hd src e) as [k Hk]; [rewrite El; set_solver|].
      assert (k = key) as -> by (eapply named_fun; [by eapply (stable_named src k g g')|done]).
      rewrite <- El. eapply matches_prefix; [exact Hp|by apply (do_match _ _ Hd)].
  - intros key x Hx. destruct (do_key _ _ Hd _ _ Hx) as [? [src Hs]]. split; [done|]. exists src. by eapply stable_named.
Qed.

(** *** Editing edges *)

(** What adding and removing edges leaves alone. *)
Definition framed (g g' : gstate) : Prop :=
  g_intern g' = g_intern g /\ g_declared g' = g_declared g /\ g_podLabels g' = g_podLabels g /\ g_selectors g' = g_selectors g.

#[global] Instance framed_preorder : PreOrder framed.
Proof. split; [by intros g|]. intros ??? (?&?&?&?) (?&?&?&?). split_and!; congruence. Qed.

Lemma addEdge_framed e g : framed g (addEdge e g).2.
Proof. unfold addEdge. destruct (insertEdge _ _) as [out []]; simpl; [|done]. by destruct (insertEdge _ _). Qed.

Lemma maybeGC_framed id g : framed g (maybeGC id g).2.
Proof.
  unfold maybeGC, gets, mbind, M_bind. cbn beta iota zeta. destruct (_ <? _); [done|].
  destruct (g_nodes g !! id); [|done]. destruct (bool_decide _); [done|]. by destruct (_ && _).
Qed.

Lemma removeEdge_framed e g : framed g (removeEdge e g).2.
Proof.
  unfold removeEdge, mbind, M_bind. assert (framed g (dropEdge e g).2) as Hd.
  { unfold dropEdge. destruct (deleteEdge _ _) as [out []]; simpl; [|done]. by destruct (deleteEdge _ _). }
  destruct (dropEdge e g) as [[] g1]; [|done]. cbn [snd] in *. pose proof (maybeGC_framed (he_From e) g1) as Hf.
  destruct (maybeGC (he_From e) g1) as [[] g2]. cbn [snd] in *. etrans; [exact Hd|]. etrans; [exact Hf|apply maybeGC_framed].
Qed.

Lemma remove_loop (keep : halfEdge -> bool) l : forall g, adj_ok g ->
  let g' := (for_each l (fun e => if keep e then mret tt else removeEdge e) g).2 in
  adj_ok g' /\ framed g g' /\ forall x, has_edge g' x <-> has_edge g x /\ ~ (x ∈ l /\ keep x = false).
Proof.
  induction l as [|e l IH]; intros g Hok; simpl; [split; [done|]; split; [done|]; intros x; rewrite list.elem_of_nil; tauto|].
  unfold mbind, M_bind. destruct (keep e) eqn:Ek.
  - destruct (IH g Hok) as (? & ? & He). split; [done|]. split; [done|]. intros x. rewrite He, list.elem_of_cons.
    destruct (decide (x = e)) as [->|]; [rewrite Ek|]; intuition congruence.
  - destruct (removeEdge_adj e g Hok) as [Hok1 H1]. pose proof (removeEdge_framed e g) as Hf.
    destruct (removeEdge e g) as [[] g1]. cbn [snd] in *. destruct (IH g1 Hok1) as (? & Hf' & He).
    split; [done|]. split; [by etrans|]. intros x. rewrite He, H1, list.elem_of_cons.
    destruct (decide (x = e)) as [->|]; [rewrite Ek|]; tauto.
Qed.

Lemma add_loop (skip : halfEdge -> bool) l : forall g, adj_ok g ->
  let g' := (for_each l (fun e => if skip e then mret tt else addEdge e) g).2 in
  adj_ok g' /\ framed g g' /\ forall x, has_edge g' x <-> has_edge g x \/ (x ∈ l /\ skip x = false).
Proof.
  induction l as [|e l IH]; intros g Hok; simpl; [split; [done|]; split; [done|]; intros x; rewrite list.elem_of_nil; tauto|].
  unfold mbind, M_bind. destruct (skip e) eqn:Ek.
  - destruct (IH g Hok) as (? & ? & He). split; [done|]. split; [done|]. intros x. rewrite He, list.elem_of_cons.
    destruct (decide (x = e)) as [->|]; [rewrite Ek|]; intuition congruence.
  - destruct (addEdge_adj e g Hok) as [Hok1 H1]. pose proof (addEdge_framed e g) as Hf.
    destruct (addEdge e g) as [[] g1]. cbn [snd] in *. destruct (IH g1 Hok1) as (? & Hf' & He).
    split; [done|]. split; [by etrans|]. intros x. rewrite He, H1, list.elem_of_cons.
    destruct (decide (x = e)) as [->|]; [rewrite Ek|]; tauto.
Qed.

Lemma uniq_once seen l : NoDup (uniq seen l).
Proof.
  revert seen; induction l as [|x l IH]; intros seen; simpl; [constructor|]. case_bool_decide; [apply IH|].
  constructor; [|apply IH]. rewrite elem_of_uniq. set_solver.
Qed.

(** The parts of the state a declaration does not touch. *)
Definition same_index (g g' : gstate) : Prop :=
  g_intern g' = g_intern g /\ g_podLabels g' = g_podLabels g /\ g_selectors g' = g_selectors g.

#[global] Instance same_index_preorder : PreOrder same_index.
Proof. split; [by intros g|]. intros ??? (?&?&?) (?&?&?). split_and!; congruence. Qed.

Lemma store_declared_adj src l g : same_adj g (store_declared src l g).2 /\ same_index g (store_declared src l g).2.
Proof. by split. Qed.

Lemma setDeclared_effect src want g : adj_ok g -> (forall e, e ∈ declared_by g src -> has_edge g e) ->
  let g' := (setDeclared src want g).2 in
  adj_ok g' /\ same_index g g' /\
  (forall src', declared_by g' src' = if bool_decide (src' = src) then uniq [] want else declared_by g src') /\
  (forall x, has_edge g' x <-> (has_edge g x /\ x ∉ declared_by g src) \/ x ∈ want).
Proof.
  intros Hok Hold. set (old := declared_by g src) in *.
  set (rest := fun g => ((_ ← for_each old (fun e => if bool_decide (e ∈ want) then mret tt else removeEdge e);
       _ ← for_each (uniq [] want) (fun e => if bool_decide (e ∈ old) then mret tt else addEdge e);
       store_declared src (uniq [] want) : W unit) g).2).
  assert ((setDeclared src want g).2 = match old, want with [], [] => g | _, _ => rest g end) as ->.
  { unfold setDeclared, gets, rest, mbind, M_bind. fold old. by destruct old, want. }
  assert (let g' := rest g in adj_ok g' /\ same_index g g' /\
    (forall src', declared_by g' src' = if bool_decide (src' = src) then uniq [] want else declared_by g src') /\
    (forall x, has_edge g' x <-> (has_edge g x /\ x ∉ old) \/ x ∈ want)) as Hrun.
  { unfold rest, mbind, M_bind. destruct (remove_loop (fun e => bool_decide (e ∈ want)) old g Hok) as (Hok1 & Hf1 & He1).
    destruct (for_each old _ g) as [[] g1]. cbn [snd] in *.
    destruct (add_loop (fun e => bool_decide (e ∈ old)) (uniq [] want) g1 Hok1) as (Hok2 & Hf2 & He2).
    destruct (for_each (uniq [] want) _ g1) as [[] g2]. cbn [snd] in *.
    destruct (store_declared_adj src (uniq [] want) g2) as [Ha Hi]. destruct (framed_preorder.(PreOrder_Transitive) _ _ _ Hf1 Hf2) as (Hi1 & Hd & Hp & Hs).
    split; [by eapply same_adj_ok|]. split; [etrans; [|exact Hi]; by split_and!|]. split.
    - intros src'. rewrite declared_store. unfold declared_by. by rewrite Hd.
    - intros x. rewrite (same_adj_edge _ _ _ Ha), He2, He1, elem_of_uniq, !bool_decide_eq_false.
      pose proof (Hold x). pose proof (not_elem_of_nil x). destruct (decide (x ∈ old)), (decide (x ∈ want)); tauto. }
  destruct old as [|e es] eqn:Eo, want as [|e' want]; try exact Hrun.
  split; [done|]. split; [reflexivity|]. split.
  - intros src'. case_bool_decide; [subst; exact Eo|done].
  - intros x. rewrite !list.elem_of_nil. tauto.
Qed.

(** *** An object declares anew *)

Definition redeclare (D : string -> kedge -> Prop) (key : string) (P : kedge -> Prop) (k : string) (x : kedge) : Prop :=
  (k = key /\ P x) \/ (k <> key /\ D k x).

Lemma redeclared D g g' src key l P : declared_ok D g -> ids_ok g' -> adj_ok g' -> same_index g g' -> named g src key ->
  (forall src', declared_by g' src' = if bool_decide (src' = src) then l else declared_by g src') ->
  NoDup l -> matches g l P -> (forall x, P x -> declarer x = key) ->
  (forall x, has_edge g' x <-> (has_edge g x /\ x ∉ declared_by g src) \/ x ∈ l) ->
  declared_ok (redeclare D key P) g'.
Proof.
  intros Hd Hok Hadj (Hi & _) Hn Hby Hl Hm Hdec He.
  assert (forall P, matches g l P -> matches g' l P) as Hmat by (intros ?; apply matches_prefix; by rewrite Hi).
  split; [done|done|..].
  - intros x. rewrite He. split.
    + intros [[Hx Hno]|Hx]; [|exists src; by rewrite Hby, bool_decide_eq_true_2].
      apply (do_edges _ _ Hd) in Hx as [src' Hs]. exists src'. rewrite Hby, bool_decide_eq_false_2; [done|].
      intros ->. done.
    + intros [src' Hs]. rewrite Hby in Hs. case_bool_decide; [by right|left].
      split; [apply (do_edges _ _ Hd); by exists src'|]. intros Hx. by pose proof (declared_excl _ _ _ _ _ Hd Hs Hx).
  - intros src'. rewrite Hby. case_bool_decide; [done|apply Hd].
  - intros src' e. rewrite Hby. unfold valid_id. rewrite Hi. case_bool_decide; [subst; intros _; by exists key|apply (do_src _ _ Hd)].
  - intros src' key' Hn'. assert (named g src' key') as Hng by (unfold named in *; by rewrite Hi in Hn'). rewrite Hby.
    case_bool_decide as E; [assert (key' = key) as -> by (eapply named_fun; [exact Hng|]; by rewrite E)|].
    + eapply matches_ext; [done| |by apply Hmat]. unfold redeclare. intuition congruence.
    + assert (key' <> key) as Hne by (intros ->; apply E; eapply named_inj; [apply Hd|done|done]).
      apply (matches_prefix g); [by rewrite Hi|]. apply (matches_ext g (declared_by g src') _ (D key')); [done| |by apply (do_match _ _ Hd)].
      unfold redeclare. intuition congruence.
  - intros k x [[-> Hx]|[_ Hx]].
    + split; [by apply Hdec|]. exists src. unfold named. by rewrite Hi.
    + destruct (do_key _ _ Hd _ _ Hx) as [? [src' Hs]]. split; [done|]. exists src'. unfold named. by rewrite Hi.
Qed.

(** Edges with the kinds the graph derives. *)
Definition sound_for (key : string) (P : kedge -> Prop) : Prop :=
  forall x, P x -> declarer x = key /\ ke_Kind x <> EdgeInvalid.

Lemma matches_valid g l P key : matches g l P -> sound_for key P -> Forall (fun e => valid_edge g e) l.
Proof.
  intros [Hm _] Hs. apply list.Forall_forall. intros e He. destruct (Hm e He) as (x & (H1 & H2 & H3) & Hx).
  split; [by eexists|]. split; [by eexists|]. rewrite H3. by apply Hs.
Qed.

Lemma setDeclared_ok D g src key want P : declared_ok D g -> named g src key -> matches g want P -> sound_for key P ->
  let g' := (setDeclared src want g).2 in declared_ok (redeclare D key P) g' /\ same_index g g'.
Proof.
  intros Hd Hn Hm Hs. pose proof (do_ids _ _ Hd) as Hok.
  destruct (setDeclared_does src want g Hok (matches_valid _ _ _ _ Hm Hs)) as [Hst _].
  destruct (Hst Hok) as (Hok' & _).
  destruct (setDeclared_effect src want g (do_adj _ _ Hd)) as (Hadj & Hi & Hby & He).
  { intros e He. apply (do_edges _ _ Hd). by exists src. }
  cbv zeta. split; [|done]. assert (forall e, e ∈ uniq [] want <-> e ∈ want) as Hu by (intros; rewrite elem_of_uniq; set_solver).
  eapply (redeclared D g _ src key (uniq [] want) P); try done.
  - apply uniq_once.
  - eapply matches_ext; [|done|exact Hm]. intros e. by rewrite Hu.
  - intros x Hx. by apply Hs.
  - intros x. by rewrite He, Hu.
Qed.

Lemma swap_remove_perm i l e : l !! i = Some e -> l ≡ₚ e :: swap_remove i l.
Proof.
  intros Hi. unfold swap_remove. destruct (last l) as [y|] eqn:El; [|apply last_None in El as ->; done].
  apply last_Some in El as [l0 ->]. rewrite length_app. cbn [length]. replace (length l0 + 1 - 1)%nat with (length l0) by lia.
  apply lookup_app_Some in Hi as [Hi|[Hlen Hi]].
  - rewrite insert_app_l by by eapply lookup_lt_Some.
    apply list_elem_of_split_length in Hi as (a & b & -> & ->). rewrite insert_app_r_alt, Nat.sub_diag by done. cbn [insert list_insert].
    rewrite take_app_le by (rewrite !length_app; simpl; lia). rewrite take_ge by (rewrite !length_app; simpl; lia). solve_Permutation.
  - apply list_lookup_singleton_Some in Hi as [Hz ->]. assert (i = length l0) as -> by lia.
    rewrite insert_app_r_alt, Nat.sub_diag by done. cbn [insert list_insert]. rewrite take_app_length. solve_Permutation.
Qed.

Lemma swap_remove_spec i l e : l !! i = Some e -> NoDup l ->
  NoDup (swap_remove i l) /\ forall y, y ∈ swap_remove i l <-> y ∈ l /\ y <> e.
Proof.
  intros Hi Hnd. pose proof (swap_remove_perm i l e Hi) as Hp. generalize dependent (swap_remove i l). intros l' Hp.
  rewrite Hp in Hnd. apply NoDup_cons in Hnd as [Hnin Hnd]. split; [done|]. intros y. rewrite Hp, list.elem_of_cons.
  split; [intros Hy; split; [by right|by intros ->]|]. by intros [[->|?] ?].
Qed.

(** One edge more, or one less. *)
Lemma declare_one D g g' src key e0 x0 : declared_ok D g -> named g src key -> denotes g e0 x0 -> declarer x0 = key ->
  e0 ∉ declared_by g src -> ids_ok g' -> adj_ok g' -> same_index g g' ->
  (forall src', declared_by g' src' = if bool_decide (src' = src) then declared_by g src ++ [e0] else declared_by g src') ->
  (forall x, has_edge g' x <-> x = e0 \/ has_edge g x) ->
  declared_ok (redeclare D key (fun x => x = x0 \/ D key x)) g'.
Proof.
  intros Hd Hn Hden Hx0 Hnin Hok Hadj Hidx Hby He. destruct (do_match _ _ Hd _ _ Hn) as [Hm1 Hm2].
  eapply (redeclared D g _ src key (declared_by g src ++ [e0])); try done.
  - apply NoDup_app. split; [apply Hd|]. split; [|apply NoDup_singleton]. by intros y Hy ->%list_elem_of_singleton.
  - split.
    + intros y [Hy| ->%list_elem_of_singleton]%elem_of_app; [|exists x0; auto].
      destruct (Hm1 y Hy) as (x & Hx & HD). exists x. auto.
    + intros x [->|HD]; [exists e0; set_solver|]. destruct (Hm2 x HD) as (y & Hy & Hx). exists y. set_solver.
  - intros x [->|HD]; [done|by apply (do_key _ _ Hd)].
  - intros x. rewrite He, elem_of_app, list_elem_of_singleton.
    assert (x ∈ declared_by g src -> has_edge g x) by (intros; apply (do_edges _ _ Hd); by exists src).
    destruct (decide (x ∈ declared_by g src)); tauto.
Qed.

Lemma undeclare_one D g g' src key i e0 x0 : declared_ok D g -> named g src key -> denotes g e0 x0 ->
  declared_by g src !! i = Some e0 -> ids_ok g' -> adj_ok g' -> same_index g g' ->
  (forall src', declared_by g' src' = if bool_decide (src' = src) then swap_remove i (declared_by g src) else declared_by g src') ->
  (forall x, has_edge g' x <-> has_edge g x /\ x <> e0) ->
  declared_ok (redeclare D key (fun x => x <> x0 /\ D key x)) g'.
Proof.
  intros Hd Hn Hden Hi Hok Hadj Hidx Hby He. destruct (do_match _ _ Hd _ _ Hn) as [Hm1 Hm2].
  destruct (swap_remove_spec i _ e0 Hi (do_once _ _ Hd src)) as [Hnd Hel].
  eapply (redeclared D g _ src key (swap_remove i (declared_by g src))); try done.
  - split.
    + intros y [Hy Hne]%Hel. destruct (Hm1 y Hy) as (x & Hx & HD). exists x. split; [done|]. split; [|done].
      intros ->. apply Hne. by apply (denotes_inj g _ _ x0 (do_ids _ _ Hd)).
    + intros x [Hne HD]. destruct (Hm2 x HD) as (y & Hy & Hx). exists y. split; [|done]. apply Hel. split; [done|].
      intros ->. apply Hne. by apply (denotes_fun g e0).
  - intros x [_ HD]. by apply (do_key _ _ Hd).
  - intros x. rewrite He, Hel. assert (forall x, x ∈ declared_by g src -> has_edge g x) as Hold
      by (intros; apply (do_edges _ _ Hd); by exists src).
    pose proof (Hold x). pose proof (list_elem_of_lookup_2 _ _ _ Hi) as Hin.
    destruct (decide (x ∈ declared_by g src)), (decide (x = e0)); subst; tauto.
Qed.

Lemma redeclare_same D key P k x : (forall x, P x <-> D key x) -> redeclare D key P k x <-> D k x.
Proof. intros HP. unfold redeclare. destruct (decide (k = key)) as [->|]; [rewrite HP|]; intuition congruence. Qed.

Lemma redeclare_ext D key P P' k x : (forall x, P x <-> P' x) -> redeclare D key P k x <-> redeclare D key P' k x.
Proof. intros HP. unfold redeclare. by rewrite HP. Qed.

(** The edge of a selector to a pod, set to what the selector wants. *)
Lemma setSelectorEdge_ok D g src key pod kp kind want : declared_ok D g -> named g src key -> named g pod kp ->
  sound_for key (fun x => x = mkKE key kp kind) ->
  let g' := (setSelectorEdge src pod kind want g).2 in
  declared_ok (redeclare D key (fun x => if bool_decide (x = mkKE key kp kind) then want = true else D key x)) g' /\
  same_index g g'.
Proof.
  intros Hd Hn Hp Hs. cbv zeta. set (x0 := mkKE key kp kind) in *. set (e0 := mkHalf src pod kind).
  assert (denotes g e0 x0) as Hden by (unfold denotes; by split_and!).
  pose proof (do_ids _ _ Hd) as Hok. destruct (Hs x0 eq_refl) as [Hx0 Hk0].
  destruct (setSelectorEdge_does src pod kind want g Hok) as [Hst _]; [split_and!; [by eexists|by eexists|done]|].
  destruct (Hst Hok) as (Hok' & _). revert Hok'. clear Hst. destruct (do_match _ _ Hd _ _ Hn) as [Hm1 Hm2].
  unfold setSelectorEdge, gets, mbind, M_bind. fold e0. cbn beta iota zeta.
  destruct (list_find _ (declared_by g src)) as [[i e]|] eqn:Ef.
  - apply list_find_Some in Ef as (Hi & -> & _). destruct want; cbn [snd]; intros Hok'.
    + split; [|reflexivity]. eapply declared_ext; [|exact Hd]. intros k x. symmetry. apply redeclare_same. intros y.
      case_bool_decide as E; [|done]. subst y. split; [intros _|done].
      destruct (Hm1 e0) as (x' & Hx' & HD); [by eapply list_elem_of_lookup_2|]. by rewrite <- (denotes_fun _ _ _ _ Hx' Hden).
    + destruct (removeEdge_adj e0 g (do_adj _ _ Hd)) as [Hadj He]. destruct (removeEdge_framed e0 g) as (F1 & F2 & F3 & F4).
      destruct (removeEdge e0 g) as [[] g1]. cbn [snd] in *. set (l := swap_remove i _) in *.
      destruct (store_declared_adj src l g1) as [Ha Hi']. split; [|etrans; [|exact Hi']; by split_and!].
      eapply declared_ext; [|eapply (undeclare_one D g _ src key i e0 x0); try done].
      * intros k x. apply redeclare_ext. intros y. case_bool_decide; intuition congruence.
      * by eapply same_adj_ok.
      * intros src'. rewrite declared_store. unfold declared_by. by rewrite F2.
  - apply list_find_None in Ef. assert (e0 ∉ declared_by g src) as Hnin.
    { intros Hin. by apply (proj1 (list.Forall_forall _ _) Ef) in Hin. }
    destruct want; cbn [snd]; intros Hok'.
    + destruct (addEdge_adj e0 g (do_adj _ _ Hd)) as [Hadj He]. destruct (addEdge_framed e0 g) as (F1 & F2 & F3 & F4).
      destruct (addEdge e0 g) as [[] g1]. cbn [snd] in *. set (l := declared_by g src ++ [e0]) in *.
      destruct (store_declared_adj src l g1) as [Ha Hi']. split; [|etrans; [|exact Hi']; by split_and!].
      eapply declared_ext; [|eapply (declare_one D g _ src key e0 x0); try done].
      * intros k x. apply redeclare_ext. intros y. case_bool_decide; intuition congruence.
      * by eapply same_adj_ok.
      * intros src'. rewrite declared_store. unfold declared_by. by rewrite F2.
    + split; [|reflexivity]. eapply declared_ext; [|exact Hd]. intros k x. symmetry. apply redeclare_same. intros y.
      case_bool_decide as E; [|done]. subst y. split; [done|]. intros HD. destruct (Hm2 _ HD) as (y & Hy & Hx).
      by rewrite (denotes_inj _ _ _ _ Hok Hx Hden) in Hy.
Qed.
