(* ===== verification/GraphRebuildSpec.v ===== *)
(** The edges of the topology graph are those of a rebuild (src/pkg/graph), part two: the
    handlers of derive.go keep the graph in agreement with the cluster's objects. *)
From S2P Require Import Prelude GoStrings GoHash GoFmt GoSort Effects GraphTypes GraphCodec GraphChanges GraphWriter.
From S2P Require Import GraphReplay GraphReplaySpec GraphAdjacency GraphRebuild.
Import ShopGraph.
From stdpp Require Import sorting.
Open Scope Z_scope.
Open Scope lookout_scope.

(** ** The indexes *)

Section index.
Context `{LabelLib}.

Notation cluster := (gmap string kobj) (only parsing).

Record index_ok (objs : cluster) (g : gstate) : Prop := {
  ix_pods : forall ns id l, pods_of g ns !! id = Some l <->
    exists key o, named g id key /\ objs !! key = Some o /\ obj_ns o = ns /\ pod_labels o = Some l;
  ix_sels : forall ns id ent, selectors_of g ns !! id = Some ent <->
    exists key o, named g id key /\ objs !! key = Some o /\ obj_ns o = ns /\ selects o = Some ent;
  ix_known : forall key o, objs !! key = Some o -> exists id, named g id key
}.

Lemma index_quiet objs g g' : index_ok objs g -> ids_ok g' -> keys_of g `prefix_of` keys_of g' ->
  g_podLabels g' = g_podLabels g -> g_selectors g' = g_selectors g -> index_ok objs g'.
Proof.
  intros [H1 H2 H3] Hok Hp Hpl Hse.
  assert (forall id key, named g id key -> named g' id key) as Hup by (intros; by eapply stable_named).
  assert (forall id key o, named g' id key -> objs !! key = Some o -> named g id key) as Hdown.
  { intros id key o Hn Ho. destruct (H3 key o Ho) as [id' Hid]. by rewrite (named_inj g' id id' key Hok Hn (Hup _ _ Hid)). }
  split.
  - intros ns id l. unfold pods_of. rewrite Hpl. fold (pods_of g ns). rewrite H1. split; intros (key & o & ? & ? & ?); exists key, o; eauto.
  - intros ns id ent. unfold selectors_of. rewrite Hse. fold (selectors_of g ns). rewrite H2.
    split; intros (key & o & ? & ? & ?); exists key, o; eauto.
  - intros key o Ho. destruct (H3 key o Ho) as [id Hid]. exists id. by apply Hup.
Qed.

(** The graph follows the cluster [objs]. *)
Record tracks (objs : cluster) (g : gstate) : Prop := {
  tr_keyed : keyed objs;
  tr_declared : declared_ok (declares objs) g;
  tr_index : index_ok objs g
}.

(** *** Objects of one key *)

Lemma object_key_inj o o' : admitted o -> admitted o' -> object_key o = object_key o' ->
  obj_kind o = obj_kind o' /\ obj_ns o = obj_ns o'.
Proof.
  intros [Hn _] [Hn' _] E. unfold object_key, objectIdentity in E.
  assert (forall ns, name_ok ns -> no_slash ns) as Hs by (intros ns [->|?]; done).
  destruct (nodeKey_inj _ _ _ _ _ _ (Hs _ Hn) (Hs _ Hn') E) as (? & ? & _). done.
Qed.

Lemma pod_labels_kind o : is_Some (pod_labels o) <-> obj_kind o = KindPod.
Proof. destruct o; simpl; split; try done; by intros [? ?]. Qed.

Lemma selects_kind o ent : selects o = Some ent -> se_kind ent = EdgeSelects \/ se_kind ent = EdgeGoverns.
Proof.
  destruct o; simpl; try done; [destruct (bool_decide _); [done|]; intros [= <-]; by left|].
  destruct (AsSelector podSelector); simpl; [intros [= <-]; by right|done].
Qed.

Lemma selects_not_pod o : is_Some (selects o) -> obj_kind o <> KindPod.
Proof. destruct o; simpl; try done; by intros [? ?]. Qed.

Lemma selector_sound o ent kp : selects o = Some ent ->
  sound_for (object_key o) (fun x => x = mkKE (object_key o) kp (se_kind ent)).
Proof. intros He x ->. unfold declarer. simpl. by destruct (selects_kind o ent He) as [-> | ->]. Qed.

(** The pods are those of [objs] when an object that is none comes or goes. *)
Lemma selected_other (objs objs' : cluster) o x :
  (forall key p, is_Some (pod_labels p) -> objs' !! key = Some p <-> objs !! key = Some p) ->
  selected_edge objs' o x <-> selected_edge objs o x.
Proof.
  intros Hp. unfold selected_edge. split; intros (ent & key & p & l & ? & Ho & ? & Hl & ? & ?); exists ent, key, p, l;
    (split; [done|]; split; [apply Hp; [by eexists|done]|done]).
Qed.

Lemma declares_other (objs objs' : cluster) key k x :
  (forall key p, is_Some (pod_labels p) -> objs' !! key = Some p <-> objs !! key = Some p) ->
  k <> key -> objs' !! k = objs !! k -> declares objs' k x <-> declares objs k x.
Proof. intros Hp Hne Hk. unfold declares. rewrite Hk. by setoid_rewrite (selected_other objs objs' _ x Hp). Qed.
End index.

(** ** What the derivations yield *)

Section yields.
Context `{LabelLib} `{RangeOrder}.

Notation yields P m xs := (does P m (fun l g => Forall2 (denotes g) l xs)).

Lemma node_names P kind ns name : name_ok ns -> does P (node kind ns name) (fun id g => named g id (nodeKey kind ns name)).
Proof.
  intros Hns g Hok _. destruct (node_steps 0 kind ns name g Hok Hns) as (Hst & _ & Hid & Hok1 & _).
  split; [by apply Hst; left|]. by apply (io_intern _ Hok1).
Qed.

(** A node and its observation. *)
Lemma node_observe_names {A} P kind ns name (f : NodeID -> W A) Q `{!Stable P} : name_ok ns ->
  (forall id, does (fun g => P g /\ named g id (nodeKey kind ns name)) (f id) Q) ->
  does P (id ← node kind ns name; _ ← observe id kind; f id) Q.
Proof.
  intros Hns Hf g Hok HP. destruct (node_steps 0 kind ns name g Hok Hns) as (Hst & Hpres & Hid & Hok1 & Hpre).
  specialize (Hst (or_introl eq_refl)). unfold mbind, M_bind. destruct (node kind ns name g) as [id g1]. cbn [fst snd] in *.
  pose proof (observe_steps id kind g1 Hpres) as Ho. assert (keys_of (observe id kind g1).2 = keys_of g1) as Hk by done.
  destruct (observe id kind g1) as [u g2]. cbn [fst snd] in *. destruct (Ho Hok1) as (Hok2 & _).
  destruct (Hf id g2 Hok2) as [Hs HQ].
  { split; [eapply (stable (P := P) g); [by rewrite Hk|done]|]. unfold named. rewrite Hk. by apply (io_intern _ Hok1). }
  split; [|done]. etrans; [exact Hst|]. by etrans.
Qed.

Lemma collect_names {A} P (l : list A) body f `{!Stable P} :
  (forall x, yields P (body x) (f x)) -> yields P (collect l body) (concat (f <$> l)).
Proof.
  intros Hb. induction l as [|x l IH]; simpl; [by apply does_ret|].
  eapply does_bind; [apply _|apply Hb|]. intros d.
  eapply does_bind; [apply _| |intros rest; apply does_ret].
  - eapply does_weaken; [apply IH|by intros ? []|done].
  - intros g [[_ Hd] Hr]. by apply Forall2_app.
Qed.

Lemma optional_names (c : bool) kind ns name P (f : NodeID -> halfEdge) x `{!Stable P} :
  name_ok ns -> (forall g id, P g -> named g id (nodeKey kind ns name) -> denotes g (f id) x) ->
  yields P (if c then n ← node kind ns name; mret [f n] else mret []) (if c then [x] else []).
Proof.
  intros Hns Hf. destruct c; [|by apply does_ret].
  eapply does_bind; [apply _|by apply node_names|]. intros id. apply does_ret. intros g [? ?].
  constructor; [by apply Hf|constructor].
Qed.

Lemma ownerEdges_names refs ns self key : name_ok ns ->
  yields (fun g => named g self key) (ownerEdges refs ns self) (owner_kedges refs ns key).
Proof.
  intros Hns. apply collect_names; [apply _|]. intros r. destruct (ownerNodeKinds (or_Kind r)) as [kind|]; [|by apply does_ret].
  cbv zeta. apply (optional_names true); [apply _|by destruct (bool_decide _); [left|]|]. intros g id ? ?. done.
Qed.

Lemma mounts_names ns pod key refs : name_ok ns ->
  yields (fun g => named g pod key) (mounts ns pod refs) (mount_kedges ns key refs).
Proof.
  intros Hns. unfold mount_kedges. replace (_ <$> refs) with (concat ((fun '(kind, name) => [mkKE key (nodeKey kind ns name) EdgeMounts]) <$> refs)).
  - apply collect_names; [apply _|]. intros [kind name]. apply (optional_names true); [apply _|done|]. intros g id ? ?. done.
  - induction refs as [|[kind name] refs IH]; [done|]. rewrite !fmap_cons. cbn [concat app]. by rewrite IH.
Qed.
End yields.

(** ** Quiet steps *)

Lemma node_in_quiet nsID kind ns name : keeps quiet (node_in nsID kind ns name).
Proof. intros g. rewrite node_in_eq. cbn [snd]. case_bool_decide; (split; [by split_and!|by split_and!]). Qed.

Lemma node_quiet kind ns name : keeps quiet (node kind ns name).
Proof. apply keeps_bind; [apply _|apply keeps_if; [apply node_in_quiet|(apply keeps_ret; apply _)]|]. intros. apply node_in_quiet. Qed.

Lemma observe_node_quiet id kind : keeps quiet (observe id kind).
Proof. intros g. split; by split_and!. Qed.

Lemma collect_quiet {A} (l : list A) body : (forall x, keeps quiet (body x)) -> keeps quiet (collect l body).
Proof.
  intros Hb. induction l as [|x l IH]; simpl; [(apply keeps_ret; apply _)|].
  apply keeps_bind; [apply _|done|]. intros d. apply keeps_bind; [apply _|done|]. intros. (apply keeps_ret; apply _).
Qed.

Lemma optional_quiet {A} (c : bool) kind ns name (f : NodeID -> A) d :
  keeps quiet (if c then n ← node kind ns name; mret (f n) else mret d).
Proof.
  destruct c; [|(apply keeps_ret; apply _)]. apply keeps_bind; [apply _|apply node_quiet|]. intros. (apply keeps_ret; apply _).
Qed.

Lemma ownerEdges_quiet refs ns self : keeps quiet (ownerEdges refs ns self).
Proof.
  apply collect_quiet. intros r. destruct (ownerNodeKinds _) as [kind|]; [|(apply keeps_ret; apply _)].
  apply (optional_quiet true kind _ _ _ []).
Qed.

Lemma mounts_quiet ns pod refs : keeps quiet (mounts ns pod refs).
Proof. apply collect_quiet. intros [kind name]. apply (optional_quiet true kind _ _ _ []). Qed.

Section states.
Context `{LabelLib} `{RangeOrder}.

Notation cluster := (gmap string kobj) (only parsing).

(** The state between two steps of a handler: the graph declares [D], the indexes are
    those of [objs]. *)
Definition state_ok (D : string -> kedge -> Prop) (objs : cluster) (g : gstate) : Prop :=
  declared_ok D g /\ index_ok objs g.

Lemma state_quiet D objs g g' : state_ok D objs g -> ids_ok g' -> keys_of g `prefix_of` keys_of g' -> quiet g g' ->
  state_ok D objs g'.
Proof.
  intros [Hd Hi] Hok Hp (Ha & Hdec & Hpl & Hse). split; [by eapply declared_quiet|by eapply index_quiet].
Qed.

Lemma state_does {A} D objs g (m : W A) P Q : does P m Q -> keeps quiet m -> state_ok D objs g -> P g ->
  let '(x, g') := m g in state_ok D objs g' /\ keys_of g `prefix_of` keys_of g' /\ Q x g'.
Proof.
  intros Hm Hq Hs HP. specialize (Hq g). destruct (Hm g (do_ids _ _ (proj1 Hs)) HP) as [Hst HQ].
  destruct (m g) as [x g']. cbn [fst snd] in *. destruct (Hst (do_ids _ _ (proj1 Hs))) as (Hok & Hp & _).
  split; [by eapply state_quiet|done].
Qed.

Lemma node_state D objs g kind ns name : name_ok ns -> state_ok D objs g ->
  let '(id, g') := node kind ns name g in
  state_ok D objs g' /\ named g' id (nodeKey kind ns name) /\ present id g'.
Proof.
  intros Hns Hs. pose proof (node_quiet kind ns name g) as Hq.
  destruct (node_steps 0 kind ns name g (do_ids _ _ (proj1 Hs)) Hns) as (_ & Hpres & Hid & Hok1 & Hp).
  destruct (node kind ns name g) as [id g']. cbn [fst snd] in *.
  split; [by eapply state_quiet|]. split; [by apply (io_intern _ Hok1)|done].
Qed.

Lemma observe_state D objs g id kind : state_ok D objs g -> present id g ->
  state_ok D objs (observe id kind g).2 /\ keys_of (observe id kind g).2 = keys_of g.
Proof.
  intros Hs Hp. split; [|done]. destruct (observe_steps id kind g Hp (do_ids _ _ (proj1 Hs))) as (Hok & Hpre & _).
  eapply state_quiet; [done|done|done|]. apply observe_node_quiet.
Qed.

Lemma setDeclared_state D objs g src key want P : state_ok D objs g -> named g src key -> matches g want P -> sound_for key P ->
  state_ok (redeclare D key P) objs (setDeclared src want g).2 /\ keys_of (setDeclared src want g).2 = keys_of g.
Proof.
  intros [Hd Hi] Hn Hm Hs. destruct (setDeclared_ok D g src key want P Hd Hn Hm Hs) as [Hd' (Hin & Hpl & Hse)].
  split; [|by rewrite Hin]. split; [done|]. eapply index_quiet; [done|apply Hd'|by rewrite Hin|done|done].
Qed.

Lemma markDeleted_state D objs g id : state_ok D objs g ->
  state_ok D objs (markDeleted id g).2 /\ keys_of (markDeleted id g).2 = keys_of g.
Proof.
  intros Hs. pose proof (do_ids _ _ (proj1 Hs)) as Hok. destruct (markDeleted_steps id g Hok) as (Hok' & Hp & _).
  assert (quiet g (markDeleted id g).2 /\ keys_of (markDeleted id g).2 = keys_of g) as [Hq Hk];
    [|split; [by eapply state_quiet|done]].
  clear Hok' Hp. unfold markDeleted, record, modify, gets, mbind, M_bind. cbn beta iota zeta.
  destruct (g_nodes g !! id) as [info|]; [|by split; [reflexivity|]]. cbn beta iota zeta.
  match goal with |- context [maybeGC id ?h] => set (g1 := h) end.
  assert (same_adj g g1) as Ha by done. assert (adj_ok g1) as Hadj by (eapply same_adj_ok; [exact Ha|apply Hs]).
  pose proof (maybeGC_adj id g1 Hadj) as Hgc. destruct (maybeGC_framed id g1) as (F1 & F2 & F3 & F4).
  split; [split; [by etrans|]; by split_and!|]. by rewrite F1.
Qed.

(** A deleted object declares nothing any more. *)
Lemma applyDelete_state D objs g id key : state_ok D objs g -> named g id key ->
  state_ok (redeclare D key (fun _ => False)) objs (applyDelete id g).2 /\ keys_of (applyDelete id g).2 = keys_of g.
Proof.
  intros Hs Hn. unfold applyDelete, mbind, M_bind.
  destruct (setDeclared_state D objs g id key [] (fun _ => False) Hs Hn) as [Hs1 Hk1]; [by split; [set_solver|]|done|].
  destruct (setDeclared id [] g) as [[] g1]. cbn [snd] in *. destruct (markDeleted_state _ objs g1 id Hs1) as [Hs2 Hk2].
  split; [done|congruence].
Qed.

(** *** Running a handler *)

Lemma node_bind D objs g kind ns name f (G : gstate -> Prop) : name_ok ns -> state_ok D objs g ->
  (forall id g', state_ok D objs g' -> named g' id (nodeKey kind ns name) -> present id g' -> G (f id g').2) ->
  G ((node kind ns name ≫= f) g : unit * gstate).2.
Proof.
  intros Hns Hs Hf. unfold mbind, M_bind. pose proof (node_state D objs g kind ns name Hns Hs) as Hn.
  destruct (node kind ns name g) as [id g1]. destruct Hn as (? & ? & ?). by apply Hf.
Qed.

Lemma observe_bind D objs g id key kind (f : W unit) (G : gstate -> Prop) : state_ok D objs g -> named g id key -> present id g ->
  (forall g', state_ok D objs g' -> named g' id key -> G (f g').2) -> G ((_ ← observe id kind; f) g).2.
Proof.
  intros Hs Hn Hp Hf. unfold mbind, M_bind. destruct (observe_state D objs g id kind Hs Hp) as [Hs2 Hk2].
  destruct (observe id kind g) as [[] g2]. cbn [snd] in *. apply Hf; [done|]. unfold named. by rewrite Hk2.
Qed.

Lemma quiet_bind {A} D objs g (m : W A) f P Q (G : gstate -> Prop) : does P m Q -> keeps quiet m -> state_ok D objs g -> P g ->
  (forall x g', state_ok D objs g' -> keys_of g `prefix_of` keys_of g' -> Q x g' -> G (f x g').2) -> G ((m ≫= f) g : unit * gstate).2.
Proof.
  intros Hm Hq Hs HP Hf. unfold mbind, M_bind. pose proof (state_does D objs g m P Q Hm Hq Hs HP) as Hd.
  destruct (m g) as [x g']. destruct Hd as (? & ? & ?). by apply Hf.
Qed.
End states.

(** ** The cluster changes at one key *)

Section change.
Context `{LabelLib} `{RangeOrder}.

Notation cluster := (gmap string kobj) (only parsing).

Definition set_key (key : string) (new : option kobj) (objs : cluster) : cluster := partial_alter (fun _ => new) key objs.

Lemma lookup_set_key key new objs k : set_key key new objs !! k = if bool_decide (k = key) then new else objs !! k.
Proof.
  unfold set_key. case_bool_decide; [subst; by rewrite lookup_partial_alter_eq|by rewrite lookup_partial_alter_ne].
Qed.

Lemma upsert_set op o objs :
  upsert op o objs = set_key (object_key o) (if bool_decide (op = OpDelete) then None else Some o) objs.
Proof. unfold upsert. by case_bool_decide. Qed.

Lemma keyed_set key new objs : keyed objs -> (forall o, new = Some o -> key = object_key o /\ admitted o) ->
  keyed (set_key key new objs).
Proof. intros Hk Hn k o. rewrite lookup_set_key. case_bool_decide; [subst; by apply Hn|apply Hk]. Qed.

(** What the indexes hold of the object [new] at its id. *)
Definition in_ns {A} (f : kobj -> option A) (new : option kobj) (ns : string) : option A :=
  match new with Some o => if bool_decide (obj_ns o = ns) then f o else None | None => None end.

Lemma index_update objs g g' id key new : ids_ok g' -> index_ok objs g -> g_intern g' = g_intern g -> named g id key ->
  (forall ns id', pods_of g' ns !! id' = if bool_decide (id' = id) then in_ns pod_labels new ns else pods_of g ns !! id') ->
  (forall ns id', selectors_of g' ns !! id' = if bool_decide (id' = id) then in_ns selects new ns else selectors_of g ns !! id') ->
  index_ok (set_key key new objs) g'.
Proof.
  intros Hok Hx Hi Hn Hp Hs. assert (forall i k, named g' i k <-> named g i k) as Hnm by (intros; unfold named; by rewrite Hi).
  assert (forall A (f : kobj -> option A) old ns i (a : A),
    (old ns i = Some a <-> exists k o, named g i k /\ objs !! k = Some o /\ obj_ns o = ns /\ f o = Some a) ->
    (if bool_decide (i = id) then in_ns f new ns else old ns i) = Some a <->
    exists k o, named g' i k /\ set_key key new objs !! k = Some o /\ obj_ns o = ns /\ f o = Some a) as Hboth.
  { intros A f old ns i a Hold. setoid_rewrite Hnm. setoid_rewrite lookup_set_key. case_bool_decide as E.
    - subst i. unfold in_ns. split.
      + destruct new as [o|]; [|done]. case_bool_decide as Ens; [|done]. intros Hf. exists key, o. by rewrite bool_decide_eq_true_2.
      + intros (k & o & Hk & Ho & Ens & Hf). rewrite (named_fun _ _ _ _ Hk Hn), bool_decide_eq_true_2 in Ho by done.
        rewrite Ho, bool_decide_eq_true_2 by done. done.
    - rewrite Hold. assert (forall k, named g i k -> k <> key) as Hkk.
      { intros k Hk ->. apply E. eapply (named_inj g'); [done|by apply Hnm|by apply Hnm]. }
      split; intros (k & o & Hk & Ho & ?); pose proof (Hkk k Hk); exists k, o; (split; [done|]); by case_bool_decide. }
  split.
  - intros ns i l. rewrite Hp. apply (Hboth _ pod_labels (fun ns i => pods_of g ns !! i)). apply Hx.
  - intros ns i ent. rewrite Hs. apply (Hboth _ selects (fun ns i => selectors_of g ns !! i)). apply Hx.
  - intros k o. rewrite lookup_set_key. setoid_rewrite Hnm. case_bool_decide; [subst; intros _; by exists id|apply Hx].
Qed.

(** The indexes hold an object under its own namespace, and only what it has. *)
Lemma pods_elsewhere objs g id o ns l : keyed objs -> index_ok objs g -> admitted o -> named g id (object_key o) ->
  pods_of g ns !! id = Some l -> obj_kind o = KindPod /\ obj_ns o = ns.
Proof.
  intros Hk Hx Ha Hn Hl. apply (ix_pods _ _ Hx) in Hl as (key & p & Hn' & Hp & Hns & Hlab).
  destruct (Hk _ _ Hp) as [-> Hap]. destruct (object_key_inj o p Ha Hap) as [Ek Ens]; [by eapply named_fun|].
  rewrite Ek, Ens. split; [apply pod_labels_kind; by eexists|done].
Qed.

Lemma selectors_elsewhere objs g id o ns ent : keyed objs -> index_ok objs g -> admitted o -> named g id (object_key o) ->
  selectors_of g ns !! id = Some ent -> (obj_kind o = KindService \/ obj_kind o = KindNetworkPolicy) /\ obj_ns o = ns.
Proof.
  intros Hk Hx Ha Hn Hl. apply (ix_sels _ _ Hx) in Hl as (key & p & Hn' & Hp & Hns & Hsel).
  destruct (Hk _ _ Hp) as [-> Hap]. destruct (object_key_inj o p Ha Hap) as [Ek Ens]; [by eapply named_fun|].
  rewrite Ek, Ens. split; [|done]. destruct p; try done; [by left|by right].
Qed.

(** No pod moves: the declarations of the others stay. *)
Lemma declares_set key new objs P :
  (forall o, objs !! key = Some o -> obj_kind o <> KindPod) -> (forall o, new = Some o -> obj_kind o <> KindPod) ->
  (forall x, P x <-> exists o, new = Some o /\ (x ∈ own_kedges o \/ selected_edge objs o x)) ->
  forall k x, redeclare (declares objs) key P k x <-> declares (set_key key new objs) k x.
Proof.
  intros Hold Hnew HP k x.
  assert (forall k p, is_Some (pod_labels p) -> set_key key new objs !! k = Some p <-> objs !! k = Some p) as Hpods.
  { intros k' p Hp%pod_labels_kind. rewrite lookup_set_key. case_bool_decide; [subst|done].
    split; intros Ho; [by apply Hnew in Ho|by apply Hold in Ho]. }
  unfold redeclare, declares. rewrite lookup_set_key. setoid_rewrite (selected_other _ _ _ x Hpods). rewrite HP.
  case_bool_decide; [subst|]; intuition congruence.
Qed.

Lemma own_kinds o : Forall (fun x => ke_Kind x <> EdgeInvalid) (own_kedges o).
Proof.
  assert (forall ns self refs, Forall (fun x => ke_Kind x <> EdgeInvalid) (mount_kedges ns self refs)) as Hm.
  { intros. unfold mount_kedges. apply Forall_fmap. induction refs as [|[] refs IH]; by constructor. }
  unfold own_kedges. apply Forall_app. split.
  { apply Forall_concat_fmap. intros r. destruct (ownerNodeKinds _); by repeat constructor. }
  destruct o; try constructor.
  - repeat (apply Forall_app; split); [destruct (negb _); by repeat constructor| |apply Hm].
    apply Forall_concat_fmap. intros c. constructor; [done|apply Hm].
  - destruct (negb _); by repeat constructor.
  - apply Forall_app. split; [destruct (negb _); by repeat constructor|]. apply Forall_concat_fmap.
    intros [[kind name]|]; [|constructor]. destruct (_ || _); by repeat constructor.
  - apply Forall_concat_fmap. intros [name|]; [|constructor]. destruct (bool_decide _); by repeat constructor.
Qed.

Lemma own_sound o : sound_for (object_key o) (fun x => x ∈ own_kedges o).
Proof.
  intros x Hx. split; [by apply (proj1 (list.Forall_forall _ _) (own_declarer o))|
    by apply (proj1 (list.Forall_forall _ _) (own_kinds o))].
Qed.
End change.

(** ** The handlers *)

Section handlers.
Context `{LabelLib} `{RangeOrder}.

Notation cluster := (gmap string kobj) (only parsing).
Notation yields P m xs := (does P m (fun l g => Forall2 (denotes g) l xs)).

(** The node of the object at hand is known at the end. *)
Notation known g key := (exists id, named g id key).

Lemma declare_last D objs g id key l xs : state_ok D objs g -> named g id key -> Forall2 (denotes g) l xs ->
  sound_for key (fun x => x ∈ xs) ->
  state_ok (redeclare D key (fun x => x ∈ xs)) objs (setDeclared id l g).2 /\ known (setDeclared id l g).2 key.
Proof.
  intros Hs Hn Hl Hsd. destruct (setDeclared_state D objs g id key l _ Hs Hn (matches_forall2 _ _ _ Hl) Hsd) as [Hs' Hk].
  split; [done|]. exists id. unfold named. by rewrite Hk.
Qed.

Lemma delete_last D objs g id key : state_ok D objs g -> named g id key ->
  state_ok (redeclare D key (fun _ => False)) objs (applyDelete id g).2 /\ known (applyDelete id g).2 key.
Proof.
  intros Hs Hn. destruct (applyDelete_state D objs g id key Hs Hn) as [Hs' Hk]. split; [done|]. exists id. unfold named. by rewrite Hk.
Qed.

(** Objects that are neither pods nor selectors. *)
Definition plain (o : kobj) : Prop := obj_kind o ∉ [KindPod; KindService; KindNetworkPolicy].

(** What the object at [key] declares after the delta. *)
Definition after (op : Op) (o : kobj) (x : kedge) : Prop := op <> OpDelete /\ x ∈ own_kedges o.

Lemma plain_tracks op o objs g : keyed objs -> admitted o -> plain o ->
  state_ok (redeclare (declares objs) (object_key o) (after op o)) objs g -> known g (object_key o) ->
  tracks (upsert op o objs) g.
Proof.
  intros Hk Ha Hpl [Hd Hx] [id Hn]. rewrite upsert_set. set (new := if bool_decide (op = OpDelete) then None else Some o).
  assert (forall o', new = Some o' -> o' = o /\ op <> OpDelete) as Hnew by (unfold new; case_bool_decide; naive_solver).
  assert (obj_kind o <> KindPod /\ obj_kind o <> KindService /\ obj_kind o <> KindNetworkPolicy) as (Hp & Hsv & Hnp)
    by (unfold plain in Hpl; set_solver).
  assert (selects o = None /\ pod_labels o = None) as [Hse Hlb] by by destruct o.
  split.
  - apply keyed_set; [done|]. intros o' [-> _]%Hnew. done.
  - eapply declared_ext; [|exact Hd]. apply declares_set.
    + intros o' Ho. destruct (Hk _ _ Ho) as [E Ha']. by rewrite <- (proj1 (object_key_inj o o' Ha Ha' E)).
    + by intros o' [-> _]%Hnew.
    + intros x. unfold after. split.
      * intros [Hop Hx']. exists o. unfold new. rewrite bool_decide_eq_false_2 by done. auto.
      * intros (o' & [-> Hop]%Hnew & [?|Hsel]); [done|]. destruct Hsel as (ent & ? & ? & ? & Hs & _). congruence.
  - eapply (index_update objs g g id); [apply Hd|done|done|done|..].
    + intros ns id'. case_bool_decide; [subst id'|done]. transitivity (@None (gmap string string)).
      * destruct (pods_of g ns !! id) eqn:E; [|done]. by destruct (pods_elsewhere objs g id o ns _ Hk Hx Ha Hn E).
      * unfold new, in_ns. case_bool_decide; [done|]. by case_bool_decide.
    + intros ns id'. case_bool_decide; [subst id'|done]. transitivity (@None selEntry).
      * destruct (selectors_of g ns !! id) eqn:E; [|done]. by destruct (selectors_elsewhere objs g id o ns _ Hk Hx Ha Hn E) as [[?|?] _].
      * unfold new, in_ns. case_bool_decide; [done|]. by case_bool_decide.
Qed.

(** A handler of such an object: its deletion, or its edges declared anew. *)
Definition handled (op : Op) (o : kobj) (m : W unit) : Prop := forall D objs g, state_ok D objs g ->
  state_ok (redeclare D (object_key o) (after op o)) objs (m g).2 /\ known (m g).2 (object_key o).

Lemma handled_tracks op o objs g m : handled op o m -> admitted o -> plain o -> tracks objs g -> tracks (upsert op o objs) (m g).2.
Proof.
  intros Hm Ha Hp [Hk Hd Hx]. destruct (Hm (declares objs) objs g (conj Hd Hx)) as [Hs Hn]. by apply plain_tracks.
Qed.

Lemma after_delete op o P : op = OpDelete -> (forall x, P x <-> False) -> forall x, after op o x <-> P x.
Proof. intros -> HP x. rewrite HP. unfold after. tauto. Qed.

Lemma state_ext D D' objs g : (forall k x, D k x <-> D' k x) -> state_ok D objs g -> state_ok D' objs g.
Proof. intros HD [Hd Hx]. split; [by eapply declared_ext|done]. Qed.

(** The shape of a handler. *)
Lemma handled_by op o kind ns name (body : NodeID -> W unit) : object_key o = nodeKey kind ns name -> name_ok ns ->
  (forall D objs g id, state_ok D objs g -> named g id (object_key o) ->
     state_ok (redeclare D (object_key o) (fun x => x ∈ own_kedges o)) objs (body id g).2 /\ known (body id g).2 (object_key o)) ->
  handled op o (id ← node kind ns name; if bool_decide (op = OpDelete) then applyDelete id else _ ← observe id kind; body id).
Proof.
  intros Hkey Hns Hb D objs g Hs. rewrite Hkey in *. apply (node_bind D objs g kind ns name); [done|done|].
  intros id g1 Hs1 Hn1 Hp1. case_bool_decide as Hop.
  - destruct (delete_last D objs g1 id _ Hs1 Hn1) as [Hs2 Hn2]. split; [|done]. eapply state_ext; [|exact Hs2].
    intros k x. apply redeclare_ext. intros y. unfold after. tauto.
  - eapply observe_bind; [done|done|done|]. intros g2 Hs2 Hn2. destruct (Hb D objs g2 id Hs2 Hn2) as [Hs3 Hn3]. split; [|done].
    eapply state_ext; [|exact Hs3]. intros k x. apply redeclare_ext. intros y. unfold after. tauto.
Qed.

Lemma applyPlain_handled op o kind ns : object_key o = nodeKey kind ns (om_Name (obj_meta o)) -> name_ok ns ->
  own_kedges o = owner_kedges (om_OwnerReferences (obj_meta o)) ns (object_key o) ->
  handled op o (applyPlain op kind ns (om_Name (obj_meta o)) (om_OwnerReferences (obj_meta o))).
Proof.
  intros Hkey Hns Hown. apply handled_by; [done|done|]. intros D objs g id Hs Hn.
  eapply quiet_bind; [by apply ownerEdges_names|apply ownerEdges_quiet|exact Hs|exact Hn|]. intros l g1 Hs1 Hp1 Hl.
  rewrite Hown. apply declare_last; [done|by eapply stable_named|done|]. rewrite <- Hown. apply own_sound.
Qed.

Lemma zone_names id key zone : yields (fun g => named g id key)
  (if zone <>s "" then zid ← node KindZone "" zone; _ ← observe zid KindZone; mret [mkHalf id zid EdgeRunsOn] else mret [])
  (if zone <>s "" then [mkKE key (nodeKey KindZone "" zone) EdgeRunsOn] else []).
Proof.
  destruct (negb _); [|by apply does_ret]. apply node_observe_names; [apply _|by left|]. intros zid. apply does_ret.
  intros g [? ?]. by constructor.
Qed.

Lemma zone_quiet id zone : keeps quiet
  (if zone <>s "" then zid ← node KindZone "" zone; _ ← observe zid KindZone; mret [mkHalf id zid EdgeRunsOn] else mret []).
Proof.
  destruct (negb _); [|(apply keeps_ret; apply _)]. apply keeps_bind; [apply _|apply node_quiet|]. intros zid.
  apply keeps_bind; [apply _|apply observe_node_quiet|]. intros. apply keeps_ret; apply _.
Qed.

Lemma applyNode_handled op m u : om_Namespace m = "" -> handled op (ONode m u) (applyNode op m).
Proof.
  intros Hns. assert (object_key (ONode m u) = nodeKey KindNode "" (om_Name m)) as Hkey.
  { unfold object_key, objectIdentity. simpl. by rewrite Hns. }
  apply handled_by; [done|by left|]. intros D objs g id Hs Hn.
  eapply quiet_bind; [apply (ownerEdges_names _ "" id (object_key (ONode m u))); by left|apply ownerEdges_quiet|exact Hs|exact Hn|].
  intros owners g1 Hs1 Hp1 Ho. cbv zeta.
  eapply quiet_bind; [apply (zone_names id (object_key (ONode m u)))|apply zone_quiet|exact Hs1|by eapply stable_named|].
  intros zones g2 Hs2 Hp2 Hz.
  assert (own_kedges (ONode m u) = owner_kedges (om_OwnerReferences m) "" (object_key (ONode m u)) ++
    (if zone_of (om_Labels m) <>s "" then [mkKE (object_key (ONode m u)) (nodeKey KindZone "" (zone_of (om_Labels m))) EdgeRunsOn] else []))
    as Hown by (unfold own_kedges; cbn [obj_meta]; by rewrite Hns).
  rewrite Hown. apply declare_last; [done|by eapply stable_named, stable_named| |rewrite <- Hown; apply own_sound].
  apply Forall2_app; [by eapply stable_forall2|exact Hz].
Qed.

Lemma backends_names ns id key l : name_ok ns -> yields (fun g => named g id key)
  (collect l (fun backend : option string => match backend with
     | Some name => if name ==s "" then mret [] else s ← node KindService ns name; mret [mkHalf id s EdgeRoutesTo]
     | None => mret [] end))
  (concat ((fun backend => match backend with
     | Some name => if name ==s "" then [] else [mkKE key (nodeKey KindService ns name) EdgeRoutesTo] | None => [] end) <$> l)).
Proof.
  intros Hns. apply collect_names; [apply _|]. intros [name|]; [|by apply does_ret].
  case_bool_decide; [by apply does_ret|]. by apply (optional_names true); [apply _|..].
Qed.

Lemma applyIngress_handled op m b rules : name_ok (om_Namespace m) -> handled op (OIngress m b rules) (applyIngress op m b rules).
Proof.
  intros Hns. apply handled_by; [done|done|]. intros D objs g id Hs Hn.
  eapply quiet_bind; [by apply ownerEdges_names|apply ownerEdges_quiet|exact Hs|exact Hn|].
  intros owners g1 Hs1 Hp1 Ho.
  eapply quiet_bind; [by apply (backends_names _ id (object_key (OIngress m b rules)))| |exact Hs1|by eapply stable_named|].
  { apply collect_quiet. intros [name|]; [|apply keeps_ret; apply _]. case_bool_decide; [apply keeps_ret; apply _|].
    apply (optional_quiet true KindService _ _ _ []). }
  intros routes g2 Hs2 Hp2 Hr. apply declare_last; [done|by eapply stable_named, stable_named| |apply own_sound].
  apply Forall2_app; [by eapply stable_forall2|exact Hr].
Qed.

Lemma targets_names ns id key l : name_ok ns -> yields (fun g => named g id key)
  (collect l (fun ref : option (string * string) => match ref with
     | Some (kind, name) => if (kind <>s "Pod") || (name ==s "") then mret []
                            else pod ← node KindPod ns name; mret [mkHalf id pod EdgeRoutesTo]
     | None => mret [] end))
  (concat ((fun ref : option (string * string) => match ref with
     | Some (kind, name) => if (kind <>s "Pod") || (name ==s "") then [] else [mkKE key (nodeKey KindPod ns name) EdgeRoutesTo]
     | None => [] end) <$> l)).
Proof.
  intros Hns. apply collect_names; [apply _|]. intros [[kind name]|]; [|by apply does_ret].
  destruct (_ || _); [by apply does_ret|]. by apply (optional_names true); [apply _|..].
Qed.

Lemma applyEndpointSlice_handled op m eps : name_ok (om_Namespace m) -> handled op (OEndpointSlice m eps) (applyEndpointSlice op m eps).
Proof.
  intros Hns. apply handled_by; [done|done|]. intros D objs g id Hs Hn. set (key := object_key (OEndpointSlice m eps)) in *.
  eapply quiet_bind; [by apply ownerEdges_names|apply ownerEdges_quiet|exact Hs|exact Hn|].
  intros owners g1 Hs1 Hp1 Ho. cbv zeta.
  eapply quiet_bind; [apply (optional_names _ KindService (om_Namespace m) (get (om_Labels m) LabelServiceName)
      (fun g => named g id key) (fun s => mkHalf s id EdgeRoutesTo)
      (mkKE (nodeKey KindService (om_Namespace m) (get (om_Labels m) LabelServiceName)) key EdgeRoutesTo)); done
    |apply optional_quiet|exact Hs1|by eapply stable_named|].
  intros svc g2 Hs2 Hp2 Hv.
  eapply quiet_bind; [by apply (targets_names _ id key)| |exact Hs2|by eapply stable_named, stable_named|].
  { apply collect_quiet. intros [[kind name]|]; [|apply keeps_ret; apply _]. destruct (_ || _); [apply keeps_ret; apply _|].
    apply (optional_quiet true KindPod _ _ _ []). }
  intros pods g3 Hs3 Hp3 Hr. apply declare_last; [done|by eapply stable_named, stable_named, stable_named| |apply own_sound].
  apply Forall2_app; [by eapply stable_forall2, stable_forall2|]. apply Forall2_app; [by eapply stable_forall2|exact Hr].
Qed.

(** *** Selectors *)

Definition selecting (o : kobj) : Prop := obj_kind o = KindService \/ obj_kind o = KindNetworkPolicy.

(** The selector index once the entry of [id] is [ent]. *)
Lemma selector_index D objs g g' id o new : keyed objs -> state_ok D objs g -> named g id (object_key o) -> admitted o ->
  selecting o -> (new = None \/ new = Some o) -> ids_ok g' -> (exists m, g' = g <| g_selectors := m |>) ->
  (forall ns, selectors_of g' ns = if bool_decide (ns = obj_ns o) then partial_alter (fun _ => in_ns selects new ns) id (selectors_of g ns)
                                   else selectors_of g ns) ->
  state_ok D (set_key (object_key o) new objs) g'.
Proof.
  intros Hk [Hd Hx] Hn Ha Hsel Hnew Hok [m ->] Hs. split; [by eapply declared_quiet|].
  eapply (index_update objs g _ id); [done|done|done|done|..].
  - intros ns id'. case_bool_decide; [subst id'|done]. transitivity (@None (gmap string string)).
    + change (pods_of g ns !! id = None). destruct (pods_of g ns !! id) eqn:E; [|done].
      destruct (pods_elsewhere objs g id o ns _ Hk Hx Ha Hn E) as [E' _]. destruct Hsel; congruence.
    + assert (pod_labels o = None) as Hl by (destruct Hsel, o; done).
      unfold in_ns. destruct Hnew as [-> | ->]; [done|]. by case_bool_decide.
  - intros ns id'. rewrite Hs. case_bool_decide as Ens.
    + subst ns. case_bool_decide; [subst; by rewrite lookup_partial_alter_eq|by rewrite lookup_partial_alter_ne].
    + case_bool_decide; [subst id'|done]. transitivity (@None selEntry).
      * destruct (selectors_of g ns !! id) eqn:E; [|done].
        destruct (selectors_elsewhere objs g id o ns _ Hk Hx Ha Hn E) as [_ E']. congruence.
      * unfold in_ns. destruct Hnew as [-> | ->]; [done|]. by case_bool_decide.
Qed.

Lemma setSelector_state D objs g id o ent : keyed objs -> state_ok D objs g -> named g id (object_key o) -> admitted o ->
  selecting o -> selects o = Some ent -> state_ok D (set_key (object_key o) (Some o) objs) (setSelector (obj_ns o) id ent g).2.
Proof.
  intros Hk Hs Hn Ha Hsel He.
  destruct (setSelector_does (obj_ns o) id ent) with (g := g) as [Hst _]; [by destruct (selects_kind o ent He) as [-> | ->]|apply Hs|by eexists|].
  destruct (Hst (do_ids _ _ (proj1 Hs))) as (Hok & _).
  eapply (selector_index D objs g _ id o (Some o)); try done; [by right|by eexists|]. intros ns. rewrite setSelector_of.
  case_bool_decide; [subst|done]. unfold in_ns. by rewrite bool_decide_eq_true_2, He.
Qed.

Lemma dropSelector_state D objs g id o new : keyed objs -> state_ok D objs g -> named g id (object_key o) -> admitted o ->
  selecting o -> (new = None \/ (new = Some o /\ selects o = None)) ->
  state_ok D (set_key (object_key o) new objs) (dropSelector (obj_ns o) id g).2 /\
  keys_of (dropSelector (obj_ns o) id g).2 = keys_of g.
Proof.
  intros Hk Hs Hn Ha Hsel Hnew. destruct (dropSelector_does (obj_ns o) id (fun _ => True)) with (g := g) as [Hst _]; [apply Hs|done|].
  destruct (Hst (do_ids _ _ (proj1 Hs))) as (Hok & _). destruct (dropSelector_frame (obj_ns o) id g) as [m Hm].
  split; [|by rewrite Hm]. eapply (selector_index D objs g _ id o new); try done; [destruct Hnew as [?|[? _]]; auto|by exists m|].
  intros ns. rewrite dropSelector_of. case_bool_decide; [subst|done]. unfold in_ns.
  destruct Hnew as [-> | [-> Hno]]; [done|]. by rewrite bool_decide_eq_true_2, Hno.
Qed.

(** The pods selected are those of the cluster. *)
Lemma selected_matches objs D g id o f ek : state_ok D objs g -> named g id (object_key o) -> selects o = Some (mkSel f ek) ->
  matches g (selected (obj_ns o) id f ek g).1 (selected_edge objs o) /\ (selected (obj_ns o) id f ek g).2 = g.
Proof.
  intros [_ Hx] Hn He. split; [|done]. unfold selected, gets, mbind, M_bind, mret, M_ret. cbn [fst]. split.
  - intros e Hin. apply list_elem_of_In, in_concat in Hin as (l & Hl & Hin). apply list_elem_of_In in Hl, Hin.
    apply list_elem_of_fmap in Hl as ([pod pl] & -> & Hp%elem_of_range). destruct (f pl) eqn:Ef; [|set_solver].
    apply list_elem_of_singleton in Hin as ->. apply (ix_pods _ _ Hx) in Hp as (kp & p & Hnp & Hp & Hns & Hl).
    exists (mkKE (object_key o) kp ek). split; [done|]. by exists (mkSel f ek), kp, p, pl.
  - intros x (ent & kp & p & l & He' & Hp & Hns & Hl & Hm & ->). assert (ent = mkSel f ek) as -> by congruence. simpl in *.
    destruct (ix_known _ _ Hx kp p Hp) as [pod Hnp]. exists (mkHalf id pod ek). split; [|done].
    apply list_elem_of_In, in_concat. exists [mkHalf id pod ek]. split; [|by left]. apply list_elem_of_In, list_elem_of_fmap.
    exists (pod, l). split; [by rewrite Hm|]. apply elem_of_range. apply (ix_pods _ _ Hx). by exists kp, p.
Qed.

Lemma matches_app g l l' P P' : matches g l P -> matches g l' P' -> matches g (l ++ l') (fun x => P x \/ P' x).
Proof.
  intros [H1 H2] [H1' H2']. split.
  - intros e [He|He]%elem_of_app; [destruct (H1 e He) as (x & ? & ?)|destruct (H1' e He) as (x & ? & ?)]; exists x; auto.
  - intros x [Hx|Hx]; [destruct (H2 x Hx) as (e & ? & ?)|destruct (H2' x Hx) as (e & ? & ?)]; exists e; set_solver.
Qed.

Lemma selecting_not_pod o : selecting o -> obj_kind o <> KindPod.
Proof. intros [-> | ->]; done. Qed.

Lemma selecting_tracks op o objs g id : keyed objs -> admitted o -> selecting o -> named g id (object_key o) ->
  state_ok (redeclare (declares objs) (object_key o)
    (fun x => op <> OpDelete /\ (x ∈ own_kedges o \/ selected_edge objs o x))) (upsert op o objs) g ->
  tracks (upsert op o objs) g.
Proof.
  intros Hk Ha Hsel Hn [Hd Hx]. pose proof (selecting_not_pod o Hsel) as Hnp. split; [|eapply declared_ext; [|exact Hd]|done].
  - rewrite upsert_set. apply keyed_set; [done|]. intros o'. case_bool_decide; [done|]. by intros [= <-].
  - rewrite upsert_set. apply declares_set.
    + intros o' Ho. destruct (Hk _ _ Ho) as [E Ha']. by rewrite <- (proj1 (object_key_inj o o' Ha Ha' E)).
    + intros o'. case_bool_decide; [done|]. by intros [= <-].
    + intros x. case_bool_decide; split; [tauto|by intros (? & ? & _)|intros [_ ?]; by exists o|intros (o' & [= <-] & ?); done].
Qed.

Lemma selected_sound objs o : sound_for (object_key o) (selected_edge objs o).
Proof. intros x (ent & kp & p & l & He & _ & _ & _ & _ & ->). by apply (selector_sound o ent kp He). Qed.

(** What [applySelector] leaves: the index entry, and the edges to the selected pods. *)
Lemma applySelector_state D objs g id o sel ek : keyed objs -> state_ok D objs g -> named g id (object_key o) -> admitted o ->
  selecting o -> selects o = (fun f => mkSel f ek) <$> sel ->
  let '(l, g') := applySelector (obj_ns o) id sel ek g in
  state_ok D (set_key (object_key o) (Some o) objs) g' /\ keys_of g' = keys_of g /\ matches g' l (selected_edge objs o).
Proof.
  intros Hk Hs Hn Ha Hsel He. pose proof (selecting_not_pod o Hsel) as Hnp. destruct sel as [f|]; cbn [applySelector fmap option_fmap option_map] in He |- *.
  - pose proof (setSelector_state D objs g id o _ Hk Hs Hn Ha Hsel He) as Hs1. unfold mbind, M_bind.
    assert (keys_of (setSelector (obj_ns o) id (mkSel f ek) g).2 = keys_of g) as Hk1 by done.
    destruct (setSelector (obj_ns o) id (mkSel f ek) g) as [[] g1]. cbn [snd] in *.
    destruct (selected_matches _ D g1 id o f ek Hs1) as [Hm Hg]; [by unfold named; rewrite Hk1|done|].
    destruct (selected (obj_ns o) id f ek g1) as [l g2]. cbn [fst snd] in *. subst g2. split; [done|]. split; [done|].
    eapply matches_ext; [done| |exact Hm]. intros x. apply selected_other. intros k p Hp%pod_labels_kind. rewrite lookup_set_key.
    case_bool_decide; [subst|done]. split; [intros [= <-]; done|]. intros Ho. destruct (Hk _ _ Ho) as [E Ha'].
    by rewrite (proj1 (object_key_inj o p Ha Ha' E)) in Hnp.
  - destruct (dropSelector_state D objs g id o (Some o) Hk Hs Hn Ha Hsel) as [Hs1 Hk1]; [by right|]. unfold mbind, M_bind.
    destruct (dropSelector (obj_ns o) id g) as [[] g1]. cbn [fst snd mret M_ret] in *. split; [done|]. split; [done|].
    split; [set_solver|]. intros x (ent & ? & ? & ? & He' & _). congruence.
Qed.

Lemma selecting_handler op o kind name refs sel ek objs g : admitted o -> selecting o ->
  object_key o = nodeKey kind (obj_ns o) name -> own_kedges o = owner_kedges refs (obj_ns o) (object_key o) ->
  selects o = (fun f => mkSel f ek) <$> sel -> tracks objs g ->
  tracks (upsert op o objs) ((id ← node kind (obj_ns o) name;
    if bool_decide (op = OpDelete) then _ ← dropSelector (obj_ns o) id; applyDelete id
    else _ ← observe id kind; owners ← ownerEdges refs (obj_ns o) id; sels ← applySelector (obj_ns o) id sel ek;
         setDeclared id (owners ++ sels)) g).2.
Proof.
  intros Ha Hsel Hkey Hown He [Hk Hd Hx]. assert (name_ok (obj_ns o)) as Hns by apply Ha.
  eapply (node_bind (declares objs) objs); [done|by split|]. rewrite <- Hkey. intros id g1 Hs1 Hn1 Hp1. case_bool_decide as Hop.
  - destruct (dropSelector_state _ objs g1 id o None Hk Hs1 Hn1 Ha Hsel) as [Hs2 Hk2]; [by left|]. unfold mbind, M_bind.
    destruct (dropSelector (obj_ns o) id g1) as [[] g2]. cbn [snd] in *.
    assert (named g2 id (object_key o)) as Hn2 by (unfold named; by rewrite Hk2).
    destruct (applyDelete_state _ _ g2 id _ Hs2 Hn2) as [Hs3 Hk3]. apply (selecting_tracks op o objs _ id); try done.
    { unfold named. by rewrite Hk3. }
    rewrite upsert_set, bool_decide_eq_true_2 by done. eapply state_ext; [|exact Hs3]. intros k x. apply redeclare_ext. tauto.
  - eapply observe_bind; [done|done|done|]. intros g2 Hs2 Hn2.
    eapply quiet_bind; [by apply ownerEdges_names|apply ownerEdges_quiet|exact Hs2|exact Hn2|]. intros owners g3 Hs3 Hp3 Ho.
    assert (named g3 id (object_key o)) as Hn3 by by eapply stable_named. unfold mbind, M_bind.
    pose proof (applySelector_state _ objs g3 id o sel ek Hk Hs3 Hn3 Ha Hsel He) as Happ.
    destruct (applySelector (obj_ns o) id sel ek g3) as [sels g4]. destruct Happ as (Hs4 & Hk4 & Hm4).
    assert (named g4 id (object_key o)) as Hn4 by (unfold named; by rewrite Hk4).
    destruct (setDeclared_state _ _ g4 id _ (owners ++ sels) (fun x => x ∈ own_kedges o \/ selected_edge objs o x) Hs4 Hn4) as [Hs5 Hk5].
    + apply matches_app; [|done]. rewrite Hown. apply matches_forall2. apply (stable_forall2 owners _ g3 g4); [by rewrite Hk4|exact Ho].
    + intros x [Hx'|Hx']; [by apply (own_sound o)|by eapply selected_sound].
    + apply (selecting_tracks op o objs _ id); try done; [unfold named; by rewrite Hk5|].
      rewrite upsert_set, bool_decide_eq_false_2 by done. eapply state_ext; [|exact Hs5]. intros k x. apply redeclare_ext. tauto.
Qed.
End handlers.
