(* ===== verification/GraphIncremental.v ===== *)
(** The edges of the topology graph are those of a rebuild (src/pkg/graph), part three:
    pods, whose changes move the edges of every selector of their namespace, and the
    theorem for whole histories. *)
From S2P Require Import Prelude GoStrings GoHash GoFmt GoSort Effects GraphTypes GraphCodec GraphChanges GraphWriter.
From S2P Require Import GraphReplay GraphReplaySpec GraphAdjacency GraphRebuild GraphRebuildSpec.
Import ShopGraph.
From stdpp Require Import sorting.
Open Scope Z_scope.
Open Scope lookout_scope.

Section pods.
Context `{LabelLib} `{RangeOrder}.

Notation cluster := (gmap string kobj) (only parsing).

(** ** The selectors of a namespace, visited for one pod *)

(** [x] is the edge of a visited selector to the pod [kp]. *)
Definition visited_edge (g : gstate) (sels : list (NodeID * selEntry)) (kp k : string) (x : kedge) (ok : selEntry -> Prop) : Prop :=
  exists src ent, (src, ent) ∈ sels /\ named g src k /\ x = mkKE k kp (se_kind ent) /\ ok ent.

Notation any := (fun _ => True).

Lemma visited_cons g src1 ent1 sels kp k x ok : visited_edge g ((src1, ent1) :: sels) kp k x ok <->
  (named g src1 k /\ x = mkKE k kp (se_kind ent1) /\ ok ent1) \/ visited_edge g sels kp k x ok.
Proof.
  unfold visited_edge. split.
  - intros (src & ent & [[= <- <-]|Hin]%list.elem_of_cons & Hr); [by left|right]. by exists src, ent.
  - intros [?|(src & ent & Hin & ?)]; [exists src1, ent1; split; [by left|done]|exists src, ent; split; [by right|done]].
Qed.

(** The declarations once the selectors [sels] were visited. *)
Definition visited_D (g : gstate) sels kp (want : selEntry -> bool) (D : string -> kedge -> Prop) (k : string) (x : kedge) : Prop :=
  visited_edge g sels kp k x (fun ent => want ent = true) \/ (D k x /\ ~ visited_edge g sels kp k x any).

Lemma visited_D_cons g src1 ent1 k1 sels kp want D k x : ids_ok g -> named g src1 k1 -> src1 ∉ sels.*1 ->
  let x1 := mkKE k1 kp (se_kind ent1) in
  visited_D g sels kp want (redeclare D k1 (fun x => if bool_decide (x = x1) then want ent1 = true else D k1 x)) k x <->
  visited_D g ((src1, ent1) :: sels) kp want D k x.
Proof.
  intros Hok Hn Hnin x1. unfold visited_D. rewrite !visited_cons.
  assert (named g src1 k <-> k = k1) as Hk by (split; [intros Hk; by eapply named_fun|by intros ->]).
  assert (forall ok, k = k1 -> ~ visited_edge g sels kp k x ok) as Hno.
  { intros ok -> (src & ent & Hin & Hs & _). assert (src = src1) as -> by by eapply named_inj.
    apply Hnin. apply list_elem_of_fmap. by exists (src1, ent). }
  rewrite Hk. unfold redeclare. destruct (decide (k = k1)) as [->|Hne].
  - pose proof (Hno any eq_refl). pose proof (Hno (fun ent => want ent = true) eq_refl). fold x1. case_bool_decide; subst; tauto.
  - tauto.
Qed.

Lemma selectors_loop pod kp (want : selEntry -> bool) sels : forall D g, declared_ok D g -> named g pod kp -> NoDup sels.*1 ->
  (forall src ent, (src, ent) ∈ sels -> exists k, named g src k /\ sound_for k (fun x => x = mkKE k kp (se_kind ent))) ->
  let g' := (for_each sels (fun '(src, ent) => setSelectorEdge src pod (se_kind ent) (want ent)) g).2 in
  declared_ok (visited_D g sels kp want D) g' /\ same_index g g'.
Proof.
  induction sels as [|[src1 ent1] sels IH]; intros D g Hd Hp Hnd Hs; cbn [for_each].
  { split; [|reflexivity]. eapply declared_ext; [|exact Hd]. intros k x. unfold visited_D, visited_edge. set_solver. }
  destruct (Hs src1 ent1) as (k1 & Hn1 & Hs1); [by left|]. rewrite fmap_cons in Hnd. apply NoDup_cons in Hnd as [Hnin Hnd]. cbn [fst] in Hnin.
  destruct (setSelectorEdge_ok D g src1 k1 pod kp (se_kind ent1) (want ent1) Hd Hn1 Hp Hs1) as [Hd1 Hi1].
  unfold mbind, M_bind. destruct (setSelectorEdge src1 pod (se_kind ent1) (want ent1) g) as [[] g1]. cbn [snd] in *.
  assert (forall i k, named g1 i k <-> named g i k) as Hnm by (intros; unfold named; destruct Hi1 as [-> _]; done).
  destruct (IH _ g1 Hd1) as [Hd2 Hi2]; [by apply Hnm|done| |].
  { intros src ent Hin. destruct (Hs src ent) as (k & ? & ?); [by right|]. exists k. split; [by apply Hnm|done]. }
  split; [|by etrans]. eapply declared_ext; [|exact Hd2]. intros k x.
  rewrite <- (visited_D_cons g src1 ent1 k1); [|apply Hd|done|done].
  unfold visited_D, visited_edge. by setoid_rewrite Hnm.
Qed.

(** The selectors visited are those of the cluster. *)
Definition aims (objs : cluster) (o : kobj) (k : string) (x : kedge) (ok : selEntry -> Prop) : Prop :=
  exists o' ent, objs !! k = Some o' /\ obj_ns o' = obj_ns o /\ selects o' = Some ent /\
    x = mkKE k (object_key o) (se_kind ent) /\ ok ent.

Lemma visited_aims objs g o k x ok visit : index_ok objs g ->
  visited_edge g (range visit (selectors_of g (obj_ns o))) (object_key o) k x ok <-> aims objs o k x ok.
Proof.
  intros Hx. unfold visited_edge, aims. setoid_rewrite elem_of_range. setoid_rewrite (ix_sels _ _ Hx). split.
  - intros (src & ent & (k' & o' & Hn & Ho & ? & ?) & Hn' & ? & ?). rewrite (named_fun _ _ _ _ Hn Hn') in Ho. by exists o', ent.
  - intros (o' & ent & Ho & ? & ? & ? & ?). destruct (ix_known _ _ Hx k o' Ho) as [src Hn]. exists src, ent.
    split; [by exists k, o'|done].
Qed.

Lemma for_selectors_state D objs g o pod (want : selEntry -> bool) : keyed objs -> state_ok D objs g -> named g pod (object_key o) ->
  let g' := (for_selectors (obj_ns o) (fun src ent => setSelectorEdge src pod (se_kind ent) (want ent)) g).2 in
  state_ok (fun k x => aims objs o k x (fun ent => want ent = true) \/ (D k x /\ ~ aims objs o k x any)) objs g' /\
  keys_of g' = keys_of g.
Proof.
  intros Hk [Hd Hx] Hn. unfold for_selectors, gets. unfold mbind, M_bind. cbn beta iota zeta.
  destruct (selectors_loop pod (object_key o) want (range 0 (selectors_of g (obj_ns o))) D g Hd Hn) as [Hd' (Hi & Hpl & Hse)].
  - rewrite range_perm. apply NoDup_fst_map_to_list.
  - intros src ent Hin%elem_of_range. apply (ix_sels _ _ Hx) in Hin as (k & o' & Hnk & Ho & _ & Hsel).
    exists k. split; [done|]. destruct (Hk _ _ Ho) as [-> _]. by apply selector_sound.
  - split; [|by rewrite Hi]. split; [|eapply index_quiet; [done|apply Hd'|by rewrite Hi|done|done]].
    eapply declared_ext; [|exact Hd']. intros k x. unfold visited_D. by rewrite !(visited_aims objs g o k x).
Qed.

(** ** What a pod's change does to the declarations *)

Lemma own_of_selecting o x : is_Some (selects o) -> x ∈ own_kedges o -> ke_Kind x = EdgeOwns.
Proof.
  intros [ent He] Hx. unfold own_kedges in Hx. apply elem_of_app in Hx as [Hx|Hx].
  - unfold owner_kedges in Hx. apply list_elem_of_In, in_concat in Hx as (l & Hl & Hx). apply list_elem_of_In in Hl, Hx.
    apply list_elem_of_fmap in Hl as (r & -> & _). destruct (ownerNodeKinds _); [|set_solver].
    by apply list_elem_of_singleton in Hx as ->.
  - by destruct o; simpl in *; try (set_solver || done).
Qed.

Lemma declares_pod objs o new labels (want : selEntry -> bool) k x : keyed objs -> admitted o -> pod_labels o = Some labels ->
  (new = None \/ new = Some o) -> (forall ent, want ent = true <-> new = Some o /\ se_sel ent labels = true) ->
  aims objs o k x (fun ent => want ent = true) \/
  (redeclare (declares objs) (object_key o) (fun x => new = Some o /\ x ∈ own_kedges o) k x /\ ~ aims objs o k x any) <->
  declares (set_key (object_key o) new objs) k x.
Proof.
  intros Hk Ha Hl Hnew Hw. set (key := object_key o). assert (obj_kind o = KindPod) as Hpod by (apply pod_labels_kind; by eexists).
  assert (forall p, objs !! key = Some p -> obj_kind p = KindPod /\ obj_ns p = obj_ns o) as Hold.
  { intros p Hp. destruct (Hk _ _ Hp) as [E Hap]. destruct (object_key_inj o p Ha Hap E) as [<- <-]. done. }
  assert (selects o = None) as Hso by by destruct o.
  unfold declares. rewrite lookup_set_key. case_bool_decide as E.
  - subst k. assert (forall ok, ~ aims objs o key x ok) as Hno.
    { intros ok (p & ent & Hp & _ & Hs & _). destruct (Hold p Hp) as [Hpk _]. eapply selects_not_pod; [|exact Hpk]. by eexists. }
    unfold redeclare. pose proof (Hno any). pose proof (Hno (fun ent => want ent = true)). split.
    + intros [?|[[[_ [-> ?]]|[? _]] _]]; [done| |done]. exists o. auto.
    + intros (o' & -> & Hx). destruct Hnew as [?|[= ->]]; [done|]. right. split; [|done]. left. split; [done|]. split; [done|].
      destruct Hx as [?|(ent & ? & ? & ? & Hs & _)]; [done|congruence].
  - unfold redeclare. split.
    + intros [(o' & ent & Ho & Hns & Hs & -> & [-> Hm]%Hw)|[[[? _]|[_ (o' & Ho & Hx)]] Hnot]]; [|done|].
      * exists o'. split; [done|]. right. exists ent, key, o, labels. destruct (Hk _ _ Ho) as [-> _].
        by rewrite lookup_set_key, bool_decide_eq_true_2.
      * exists o'. split; [done|]. destruct Hx as [?|(ent & kp & p & l & Hs & Hp & Hns & Hlp & Hm & ->)]; [by left|right].
        exists ent, kp, p, l. destruct (Hk _ _ Ho) as [-> _]. split; [done|]. rewrite lookup_set_key. case_bool_decide; [|done].
        subst kp. destruct Hnot. exists o', ent. destruct (Hold p Hp) as [_ Hpn]. split; [done|]. split; [congruence|done].
    + intros (o' & Ho & Hx). destruct (Hk _ _ Ho) as [Eo _].
      assert (~ aims objs o k x any \/ exists ent, selects o' = Some ent /\ x = mkKE k key (se_kind ent)) as Hdec.
      { destruct (selects o') as [ent|] eqn:Es.
        - destruct (decide (x = mkKE k key (se_kind ent))) as [->|Hne]; [right; by exists ent|left].
          intros (o2 & ent2 & Ho2 & _ & Hs2 & -> & _). simplify_eq.
        - left. intros (o2 & ent2 & Ho2 & _ & Hs2 & _). simplify_eq. }
      destruct Hx as [Hx|(ent & kp & p & l & Hs & Hp & Hns & Hlp & Hm & ->)].
      * right. split; [right; split; [done|]; exists o'; auto|]. destruct Hdec as [?|(ent & Hs & ->)]; [done|].
        apply (own_of_selecting o') in Hx; [|by eexists]. simpl in Hx. by destruct (selects_kind o' ent Hs); congruence.
      * rewrite lookup_set_key in Hp. case_bool_decide as Ek.
        -- left. destruct Hnew as [?|Hn]; [congruence|]. assert (p = o) as -> by congruence. subst kp.
           exists o', ent. rewrite Eo. split; [by rewrite <- Eo|]. split; [done|]. split; [done|]. split; [done|].
           apply Hw. split; [done|]. congruence.
        -- right. split; [right; split; [done|]; exists o'; split; [done|]; right; by exists ent, kp, p, l|].
           intros (o2 & ent2 & _ & _ & _ & [= _ Ekp _] & _). done.
Qed.

(** ** Pods *)

Notation yields P m xs := (does P m (fun l g => Forall2 (denotes g) l xs)).

Definition containers_of (ns podName : string) (pod : NodeID) (c : Container) : W (list halfEdge) :=
  cid ← node KindContainer ns (podName +:+ "/" +:+ ct_Name c);
  _ ← observe cid KindContainer;
  ms ← containerMounts ns pod c;
  mret (mkHalf pod cid EdgeContains :: ms).

Lemma containers_names ns podName pod key l : name_ok ns -> yields (fun g => named g pod key)
  (collect l (containers_of ns podName pod))
  (concat ((fun c => mkKE key (nodeKey KindContainer ns (podName +:+ "/" +:+ ct_Name c)) EdgeContains ::
                     mount_kedges ns key (container_refs c)) <$> l)).
Proof.
  intros Hns. apply collect_names; [apply _|]. intros c. apply node_observe_names; [apply _|done|]. intros cid.
  eapply does_bind; [apply _|eapply does_weaken; [by apply (mounts_names ns pod key)|by intros ? []|intros ? ? Hl; exact Hl]|].
  intros ms. apply does_ret. intros g [[? ?] ?]. by constructor.
Qed.

Lemma containers_quiet ns podName pod l : keeps quiet (collect l (containers_of ns podName pod)).
Proof.
  apply collect_quiet. intros c. apply keeps_bind; [apply _|apply node_quiet|]. intros cid.
  apply keeps_bind; [apply _|apply observe_node_quiet|]. intros _. apply keeps_bind; [apply _|apply mounts_quiet|].
  intros. apply keeps_ret. apply _.
Qed.

(** The pod index once the entry of [id] is what [new] says. *)
Lemma pod_index D objs g g' id o new : keyed objs -> state_ok D objs g -> named g id (object_key o) -> admitted o ->
  obj_kind o = KindPod -> (new = None \/ new = Some o) -> ids_ok g' -> (exists m, g' = g <| g_podLabels := m |>) ->
  (forall ns, pods_of g' ns = if bool_decide (ns = obj_ns o) then partial_alter (fun _ => in_ns pod_labels new ns) id (pods_of g ns)
                              else pods_of g ns) ->
  state_ok D (set_key (object_key o) new objs) g'.
Proof.
  intros Hk [Hd Hx] Hn Ha Hpod Hnew Hok [m ->] Hp. split; [by eapply declared_quiet|].
  eapply (index_update objs g _ id); [done|done|done|done|..].
  - intros ns id'. rewrite Hp. case_bool_decide as Ens.
    + subst ns. case_bool_decide; [subst; by rewrite lookup_partial_alter_eq|by rewrite lookup_partial_alter_ne].
    + case_bool_decide; [subst id'|done]. transitivity (@None (gmap string string)).
      * destruct (pods_of g ns !! id) eqn:E; [|done]. destruct (pods_elsewhere objs g id o ns _ Hk Hx Ha Hn E) as [_ E']. congruence.
      * unfold in_ns. destruct Hnew as [-> | ->]; [done|]. by case_bool_decide.
  - intros ns id'. case_bool_decide; [subst id'|done]. transitivity (@None selEntry).
    + change (selectors_of g ns !! id = None). destruct (selectors_of g ns !! id) eqn:E; [|done].
      destruct (selectors_elsewhere objs g id o ns _ Hk Hx Ha Hn E) as [[E'|E'] _]; congruence.
    + assert (selects o = None) as Hs by (destruct o; done).
      unfold in_ns. destruct Hnew as [-> | ->]; [done|]. by case_bool_decide.
Qed.

Lemma store_pod_state D objs g id m spec : let o := OPod m spec in keyed objs -> state_ok D objs g -> named g id (object_key o) ->
  admitted o -> state_ok D (set_key (object_key o) (Some o) objs)
    (g <| g_podLabels ::= <[om_Namespace m := <[id := om_Labels m]> (pods_of g (om_Namespace m))]> |>).
Proof.
  intros o Hk Hs Hn Ha. destruct (store_pod_does (om_Namespace m) id (om_Labels m) g (do_ids _ _ (proj1 Hs))) as [Hst _]; [by eexists|].
  destruct (Hst (do_ids _ _ (proj1 Hs))) as (Hok & _).
  eapply (pod_index D objs g _ id o (Some o)); try done; [by right|by eexists|]. intros ns. rewrite pods_of_insert.
  change (obj_ns o) with (om_Namespace m). case_bool_decide; [subst|done]. unfold in_ns. by rewrite bool_decide_eq_true_2.
Qed.

Lemma drop_pod_state D objs g id o : keyed objs -> state_ok D objs g -> named g id (object_key o) ->
  admitted o -> obj_kind o = KindPod -> state_ok D (set_key (object_key o) None objs) (drop_pod (obj_ns o) id g).2 /\
  keys_of (drop_pod (obj_ns o) id g).2 = keys_of g.
Proof.
  intros Hk Hs Hn Ha Hpod. destruct (drop_pod_does (obj_ns o) id (fun _ => True) g (do_ids _ _ (proj1 Hs)) I) as [Hst _].
  destruct (Hst (do_ids _ _ (proj1 Hs))) as (Hok & _). destruct (drop_pod_frame (obj_ns o) id g) as [m Hm].
  split; [|by rewrite Hm]. eapply (pod_index D objs g _ id o None); try done; [by left|by exists m|].
  intros ns. rewrite drop_pod_of. by case_bool_decide; [subst|].
Qed.

Lemma aims_set objs o k x ok : keyed objs -> admitted o -> obj_kind o = KindPod ->
  aims (set_key (object_key o) (Some o) objs) o k x ok <-> aims objs o k x ok.
Proof.
  intros Hk Ha Hpod. unfold aims. setoid_rewrite lookup_set_key. case_bool_decide; [subst k|done].
  split; intros (p & ent & Hp & _ & Hs & _); exfalso.
  - injection Hp as <-. by eapply selects_not_pod; [eexists|].
  - destruct (Hk _ _ Hp) as [E Hap]. destruct (object_key_inj o p Ha Hap E) as [Ek _].
    eapply selects_not_pod; [by eexists|]. congruence.
Qed.

(** The end of both branches: the declarations are those of the new cluster. *)
Lemma pod_tracks objs o new labels want D g : keyed objs -> admitted o -> pod_labels o = Some labels ->
  (new = None \/ new = Some o) -> (forall ent, want ent = true <-> new = Some o /\ se_sel ent labels = true) ->
  (forall k x, D k x <-> aims objs o k x (fun ent => want ent = true) \/
     (redeclare (declares objs) (object_key o) (fun x => new = Some o /\ x ∈ own_kedges o) k x /\ ~ aims objs o k x any)) ->
  state_ok D (set_key (object_key o) new objs) g -> tracks (set_key (object_key o) new objs) g.
Proof.
  intros Hk Ha Hl Hnew Hw HD [Hd Hx]. split; [|eapply declared_ext; [|exact Hd]|done].
  - apply keyed_set; [done|]. intros o' ->. destruct Hnew as [?|[= ->]]; done.
  - intros k x. rewrite HD. by eapply declares_pod.
Qed.

Lemma pod_deleted objs g m spec id : let o := OPod m spec in let ns := om_Namespace m in
  keyed objs -> admitted o -> state_ok (declares objs) objs g -> named g id (object_key o) ->
  tracks (set_key (object_key o) None objs)
    ((_ ← setDeclared id []; _ ← for_selectors ns (fun src ent => setSelectorEdge src id (se_kind ent) false);
      _ ← drop_pod ns id; markDeleted id) g).2.
Proof.
  intros o ns Hk Ha Hs Hn. unfold mbind, M_bind.
  destruct (setDeclared_state _ objs g id _ [] (fun _ => False) Hs Hn) as [Hs1 Hk1]; [by split; [set_solver|]|done|].
  destruct (setDeclared id [] g) as [[] g1]. cbn [snd] in *.
  destruct (for_selectors_state _ objs g1 o id (fun _ => false) Hk Hs1) as [Hs2 Hk2]; [unfold named; by rewrite Hk1|].
  change (obj_ns o) with ns in Hs2, Hk2. destruct (for_selectors ns _ g1) as [[] g2]. cbn [snd] in *.
  destruct (drop_pod_state _ objs g2 id o Hk Hs2) as [Hs3 Hk3]; [unfold named; by rewrite Hk2, Hk1|done|done|].
  change (obj_ns o) with ns in Hs3, Hk3. destruct (drop_pod ns id g2) as [[] g3]. cbn [snd] in *.
  destruct (markDeleted_state _ _ g3 id Hs3) as [Hs4 _].
  eapply (pod_tracks objs o None (om_Labels m) (fun _ => false)); try done; [by left|by intros; split; [|intros []]|].
  intros k x. cbv beta. assert (forall x, False <-> @None kobj = Some o /\ x ∈ own_kedges o) as HF by (intros; split; [done|by intros []]).
  by rewrite (redeclare_ext _ _ _ _ k x HF).
Qed.

Lemma pod_upserted objs g m spec id : let o := OPod m spec in let ns := om_Namespace m in
  keyed objs -> admitted o -> state_ok (declares objs) objs g -> named g id (object_key o) -> present id g ->
  tracks (set_key (object_key o) (Some o) objs)
    ((_ ← observe id KindPod;
      owners ← ownerEdges (om_OwnerReferences m) ns id;
      runs ← (if ps_NodeName spec <>s "" then n ← node KindNode "" (ps_NodeName spec); mret [mkHalf id n EdgeRunsOn] else mret []);
      conts ← collect (pod_containers spec) (containers_of ns (om_Name m) id);
      vols ← volumeMounts ns id (ps_Volumes spec);
      _ ← setDeclared id (owners ++ runs ++ conts ++ vols);
      _ ← modify (fun g => g <| g_podLabels ::= <[ns := <[id := om_Labels m]> (pods_of g ns)]> |>);
      for_selectors ns (fun src ent => setSelectorEdge src id (se_kind ent) (se_sel ent (om_Labels m)))) g).2.
Proof.
  intros o ns Hk Ha Hs Hn Hp. set (key := object_key o) in *. assert (name_ok ns) as Hns by apply Ha.
  eapply observe_bind; [done|done|done|]. intros g1 Hs1 Hn1.
  eapply quiet_bind; [by apply (ownerEdges_names _ ns id key)|apply ownerEdges_quiet|exact Hs1|exact Hn1|]. intros owners g2 Hs2 Hp2 Ho.
  assert (named g2 id key) as Hn2 by by eapply stable_named.
  eapply quiet_bind; [apply (optional_names _ KindNode "" (ps_NodeName spec) (fun g => named g id key)
    (fun n => mkHalf id n EdgeRunsOn) (mkKE key (nodeKey KindNode "" (ps_NodeName spec)) EdgeRunsOn)); [by left|done]
    |apply optional_quiet|exact Hs2|exact Hn2|].
  intros runs g3 Hs3 Hp3 Hr. assert (named g3 id key) as Hn3 by by eapply stable_named.
  eapply quiet_bind; [by apply (containers_names ns (om_Name m) id key)|apply containers_quiet|exact Hs3|exact Hn3|].
  intros conts g4 Hs4 Hp4 Hc. assert (named g4 id key) as Hn4 by by eapply stable_named.
  eapply quiet_bind; [by apply (mounts_names ns id key)|apply mounts_quiet|exact Hs4|exact Hn4|].
  intros vols g5 Hs5 Hp5 Hv. assert (named g5 id key) as Hn5 by by eapply stable_named.
  assert (Forall2 (denotes g5) (owners ++ runs ++ conts ++ vols) (own_kedges o)) as Hall.
  { apply Forall2_app; [by eapply stable_forall2, stable_forall2, stable_forall2|].
    apply Forall2_app; [by eapply stable_forall2, stable_forall2|]. apply Forall2_app; [by eapply stable_forall2|exact Hv]. }
  unfold mbind, M_bind, modify.
  destruct (setDeclared_state _ objs g5 id key (owners ++ runs ++ conts ++ vols) _ Hs5 Hn5 (matches_forall2 _ _ _ Hall) (own_sound o))
    as [Hs6 Hk6].
  destruct (setDeclared id _ g5) as [[] g6]. cbn [snd] in *. assert (named g6 id key) as Hn6 by (unfold named; by rewrite Hk6).
  pose proof (store_pod_state _ objs g6 id m spec Hk Hs6 Hn6 Ha) as Hs7. set (g7 := g6 <| g_podLabels ::= _ |>) in *.
  assert (keyed (set_key key (Some o) objs)) as Hk' by (apply keyed_set; [done|]; by intros o' [= <-]).
  destruct (for_selectors_state _ _ g7 o id (fun ent => se_sel ent (om_Labels m)) Hk' Hs7 Hn6) as [Hs8 _].
  eapply (pod_tracks objs o (Some o) (om_Labels m) (fun ent => se_sel ent (om_Labels m))); try done.
  - by right.
  - intros ent. split; [done|by intros []].
  - intros k x. cbv beta. unfold key. rewrite !aims_set by done.
    assert (forall x, x ∈ own_kedges o <-> Some o = Some o /\ x ∈ own_kedges o) as HF by (intros; tauto).
    by rewrite (redeclare_ext _ _ _ _ k x HF).
Qed.

Lemma applyPod_tracks op m spec objs g : admitted (OPod m spec) -> tracks objs g ->
  tracks (upsert op (OPod m spec) objs) (applyPod op m spec g).2.
Proof.
  intros Ha [Hk Hd Hx]. unfold applyPod. cbv zeta. rewrite upsert_set.
  eapply (node_bind (declares objs) objs); [apply Ha|by split|]. intros id g1 Hs1 Hn1 Hp1. case_bool_decide.
  - by apply (pod_deleted objs g1 m spec id).
  - by apply (pod_upserted objs g1 m spec id).
Qed.

Lemma applyDelta_tracks op o objs g : admitted o -> tracks objs g -> tracks (upsert op o objs) (applyDelta op o g).2.
Proof.
  intros Ha Ht. pose proof Ha as [Hns Hcl].
  assert (forall kind, object_key o = nodeKey kind (obj_ns o) (om_Name (obj_meta o)) -> plain o ->
    own_kedges o = owner_kedges (om_OwnerReferences (obj_meta o)) (obj_ns o) (object_key o) ->
    tracks (upsert op o objs) (applyPlain op kind (obj_ns o) (om_Name (obj_meta o)) (om_OwnerReferences (obj_meta o)) g).2) as Hplain.
  { intros kind Hkey Hp Hown. apply handled_tracks; try done. by apply applyPlain_handled. }
  destruct o; cbn [applyDelta]; try (by apply Hplain; [done|unfold plain; simpl; set_solver|apply app_nil_r]).
  - by apply applyPod_tracks.
  - apply (selecting_handler op (OService m selector) KindService (om_Name m) (om_OwnerReferences m)
      (if bool_decide (selector = ∅) then None else Some (FromSet selector)) EdgeSelects); try done; [by left|apply app_nil_r|].
    simpl. by case_bool_decide.
  - apply handled_tracks; try done; [apply applyNode_handled; apply Hcl; by left|unfold plain; simpl; set_solver].
  - rewrite <- (Hcl (or_intror eq_refl)). apply Hplain; [done|unfold plain; simpl; set_solver|apply app_nil_r].
  - apply handled_tracks; try done; [by apply applyEndpointSlice_handled|unfold plain; simpl; set_solver].
  - apply handled_tracks; try done; [by apply applyIngress_handled|unfold plain; simpl; set_solver].
  - apply (selecting_handler op (ONetworkPolicy m podSelector) KindNetworkPolicy (om_Name m) (om_OwnerReferences m)
      (AsSelector podSelector) EdgeGoverns); try done; [by right|apply app_nil_r].
Qed.
End pods.

(** ** Histories *)

Section histories.
Context `{LabelLib} `{RangeOrder}.

Notation cluster := (gmap string kobj) (only parsing).

(** The objects that exist after a list of deltas. *)
Definition after_deltas (l : list pendingDelta) (objs : cluster) : cluster :=
  foldl (fun objs d => upsert (dl_Op d) (dl_Object d) objs) objs l.
Definition after_load (l : list kobj) (objs : cluster) : cluster := foldl (fun objs o => upsert OpAdd o objs) objs l.

Lemma tracks_quiet objs g g' : tracks objs g -> ids_ok g' -> keys_of g `prefix_of` keys_of g' -> quiet g g' -> tracks objs g'.
Proof. intros [Hk Hd Hx] Hok Hp Hq. destruct (state_quiet _ _ _ _ (conj Hd Hx) Hok Hp Hq). by split. Qed.

(** The object's identity interned, a log armed. *)
Lemma tracks_interned objs g o log : tracks objs g -> tracks objs ((interned (object_key o) g) <| g_rec := log |>).
Proof.
  intros Ht. destruct (interned_ok (object_key o) g (do_ids _ _ (tr_declared _ _ Ht))) as (Hok & Hp & _); [apply nodeKey_nonempty|].
  eapply tracks_quiet; [exact Ht|by apply ids_ok_rec|exact Hp|]. split; by split_and!.
Qed.

Lemma tracks_rec objs g log : tracks objs g -> tracks objs (g <| g_rec := log |>).
Proof. intros Ht. eapply tracks_quiet; [exact Ht|apply ids_ok_rec, Ht|done|]. split; by split_and!. Qed.

Lemma flush_one_tracks now d w g objs : delta_ok d -> wr_onChange w = true -> g_rec g = None -> tracks objs g ->
  let '(_, w', g') := flush_one now d w g in tracks (upsert (dl_Op d) (dl_Object d) objs) g'.
Proof.
  intros Hd Hon Hrec Ht. unfold flush_one. rewrite Hon. cbn [negb]. destruct (trackChange_eq now d w g) as (c & t & -> & _).
  destruct (dl_sync d).
  - pose proof (tracks_interned objs g (dl_Object d) None Ht) as Ht1.
    replace ((interned _ g) <| g_rec := None |>) with (interned (object_key (dl_Object d)) g) in Ht1
      by (unfold interned; rewrite <- Hrec; by destruct g).
    by apply applyDelta_tracks.
  - pose proof (tracks_interned objs g (dl_Object d) (Some zero_log) Ht) as Ht1.
    set (g1 := (interned _ g) <| g_rec := Some zero_log |>) in *.
    pose proof (applyDelta_tracks (dl_Op d) (dl_Object d) objs g1 Hd Ht1) as Ht2.
    destruct (applyDelta _ _ g1) as [u g2]. cbn [snd] in *. pose proof (tracks_rec _ g2 None Ht2) as Ht3.
    destruct (ch_FieldChanges _); [destruct (ch_Effect _)|]; exact Ht3.
Qed.

Lemma flush_all_tracks now l : forall w g objs, Forall delta_ok l -> wr_onChange w = true -> rested g -> tracks objs g ->
  let '(_, _, g') := flush_all now l w g in tracks (after_deltas l objs) g'.
Proof.
  induction l as [|d l IH]; intros w g objs Hl Hon Hg Ht; cbn [flush_all]; [done|].
  inversion_clear Hl as [|? ? Hd Hl']. pose proof (flush_one_spec now d w g Hd Hg Hon) as H1.
  pose proof (flush_one_tracks now d w g objs Hd Hon (proj2 Hg) Ht) as H2.
  destruct (flush_one now d w g) as [[rec w1] g1]. destruct H1 as (Hg1 & _ & [t1 ->] & _).
  set (w1 := w <| wr_tracked := t1 |>) in *. specialize (IH w1 g1 _ Hl' Hon Hg1 H2).
  by destruct (flush_all now l w1 g1) as [[recs w2] g2].
Qed.

Lemma load_all_tracks l : forall w g objs, Forall admitted l -> wr_onChange w = true -> rested g -> tracks objs g ->
  let '(_, g') := load_all l w g in tracks (after_load l objs) g'.
Proof.
  induction l as [|o l IH]; intros w g objs Hl Hon Hg Ht; cbn [load_all]; [done|].
  inversion_clear Hl as [|? ? Ho Hl']. rewrite Hon. unfold trackSeed.
  destruct (tracked_steps OpAdd o g None Ho (proj1 Hg)) as (Hok1 & _ & Hst & _). destruct (Hst Hok1) as (Hok2 & _ & Hn & _).
  pose proof (applyDelta_tracks OpAdd o objs _ Ho (tracks_interned objs g o None Ht)) as Ht1.
  assert (interned (object_key o) g = (interned (object_key o) g) <| g_rec := None |>) as Ei
    by (unfold interned; rewrite <- (proj2 Hg); by destruct g).
  rewrite <- Ei in *. unfold intern_key, interned in *. destruct (intern (object_key o) (g_intern g)) as [id i]. cbn [snd] in *.
  set (w1 := w <| wr_tracked ::= _ |>). specialize (IH w1 _ _ Hl' Hon (conj Hok2 (Hn (proj2 Hg))) Ht1).
  by destruct (load_all l w1 _).
Qed.

(** A logging writer and the objects it has been told of. *)
Inductive told (watched : list NodeKind) : Writer -> cluster -> Prop :=
  | told_new : told watched (New watched true) ∅
  | told_load w objs l : told watched w objs -> Forall admitted l -> told watched (FromObjects l w) (after_load l objs)
  | told_flush w objs now pending : told watched w objs -> Forall delta_ok pending ->
      told watched (flushLocked now pending w) (after_deltas pending objs).

Lemma told_reached watched w objs : told watched w objs -> reached watched w.
Proof. induction 1; by constructor. Qed.

Lemma tracks_start watched : tracks ∅ (newBatch (New watched true)).
Proof.
  pose proof (New_ok watched) as [[Hok _] _ _]. split; [by intros key o Ho|split|split]; try done.
  - split; try done; intros; unfold edges_of, edge_total; cbn; rewrite ?lookup_empty; simpl; try constructor; try done; set_solver.
  - intros e. unfold has_edge, edges_of. cbn. rewrite lookup_empty. unfold declared_by. cbn.
    setoid_rewrite lookup_empty. simpl. split; [set_solver|]. intros [? ?]. set_solver.
  - intros src. unfold declared_by. cbn. rewrite lookup_empty. constructor.
  - intros src e. unfold declared_by. cbn. rewrite lookup_empty. set_solver.
  - intros src key Hn. unfold named in Hn. cbn in Hn. apply key_at_range in Hn. simpl in Hn. lia.
  - intros key x (o & Ho & _). by rewrite lookup_empty in Ho.
  - intros ns id l. unfold pods_of. cbn. rewrite lookup_empty. simpl. rewrite lookup_empty. split; [done|].
    intros (key & o & _ & Ho & _). by rewrite lookup_empty in Ho.
  - intros ns id l. unfold selectors_of. cbn. rewrite lookup_empty. simpl. rewrite lookup_empty. split; [done|].
    intros (key & o & _ & Ho & _). by rewrite lookup_empty in Ho.
Qed.

Lemma told_tracks watched w objs : told watched w objs -> tracks objs (newBatch w).
Proof.
  induction 1 as [|w objs l Hw IH Hl|w objs now pending Hw IH Hl]; [apply tracks_start|..];
    pose proof (reached_ok _ _ (told_reached _ _ _ Hw)) as [Hg Hon Hsn].
  - pose proof (load_all_tracks l w _ objs Hl Hon Hg IH) as Ht. unfold FromObjects.
    pose proof (load_all_spec l w _ Hl Hg Hon) as Hf. destruct (load_all l w (newBatch w)) as [w1 g].
    destruct Hf as [_ [t ->]]. by rewrite newBatch_snap.
  - destruct (decide (pending <> [] \/ wr_snap w = None)) as [Hdo|Hno].
    + pose proof (flushLocked_eq now pending w Hon Hl Hg Hdo) as He. pose proof (flush_all_tracks now pending w _ objs Hl Hon Hg IH) as Ht.
      destruct (flush_all now pending w (newBatch w)) as [[recs w1] g]. destruct He as (Eg & _ & _ & _ & Esn & _).
      rewrite newBatch_snap by done. by rewrite Eg.
    + unfold flushLocked. destruct pending; [|by destruct Hno; left]. destruct (wr_snap w) eqn:E; [done|by destruct Hno; right].
Qed.

(** An edge of a snapshot, by the identities of its ends. *)
Definition snapshot_edge (s : Snapshot) (x : kedge) : Prop :=
  exists a b, key_at (sn_keys s) a = Some (ke_From x) /\ key_at (sn_keys s) b = Some (ke_To x) /\ mkEdge b (ke_Kind x) ∈ Out s a.

Lemma told_snapshot watched w objs s : told watched w objs -> wr_snap w = Some s ->
  tracks objs (wr_g w) /\ s = snapshot_of w.
Proof.
  intros Hw Hs. pose proof (told_tracks _ _ _ Hw) as Ht. pose proof (wo_snap _ (reached_ok _ _ (told_reached _ _ _ Hw))) as [E|E]; [congruence|].
  rewrite newBatch_snap in Ht by done. split; [done|congruence].
Qed.

(** C16: incremental maintenance is a rebuild: whatever a logging writer has loaded and
    flushed, in any order and however often objects came, changed and went, the edges
    of its snapshot are exactly those a fresh derivation gives from the objects that
    exist now (owner references, placement, containers, mounts, routes, and the pods
    every selector matches). *)
Theorem incremental_is_rebuild watched w objs s : told watched w objs -> wr_snap w = Some s ->
  forall x, snapshot_edge s x <-> exists key, declares objs key x.
Proof.
  intros Hw Hs x. destruct (told_snapshot _ _ _ _ Hw Hs) as [[Hk Hd Hx] ->]. split.
  - intros (a & b & Ha & Hb & He). assert (has_edge (wr_g w) (mkHalf a b (ke_Kind x))) as [src Hsrc]%(do_edges _ _ Hd) by done.
    destruct (declared_name _ _ _ _ Hd Hsrc) as (key & y & Hn & Hy & HD & _). exists key.
    by rewrite (denotes_fun (wr_g w) (mkHalf a b (ke_Kind x)) x y).
  - intros (key & HD). destruct (do_key _ _ Hd _ _ HD) as [_ [src Hn]]. destruct (do_match _ _ Hd _ _ Hn) as [_ Hm].
    destruct (Hm x HD) as ([a b k] & He & Ha & Hb & Hkk). exists a, b. split; [done|]. split; [done|].
    assert (has_edge (wr_g w) (mkHalf a b k)) as Hh by (apply (do_edges _ _ Hd); by exists src). simpl in Hkk. subst k. exact Hh.
Qed.

(** A snapshot's adjacency, with the writer's reference counts. *)
Record well_formed (s : Snapshot) (refs : NodeID -> Z) : Prop := {
  wf_sorted : forall id, StronglySorted edge_lt (Out s id) /\ StronglySorted edge_lt (In_ s id);
  wf_converse : forall a b k, mkEdge b k ∈ Out s a <-> mkEdge a k ∈ In_ s b;
  wf_count : sn_edges s = Z.of_nat (edge_total (sn_out s));
  wf_stored : forall id, sn_out s !! id <> Some [] /\ sn_in s !! id <> Some [];
  wf_refs : forall id, refs id = Z.of_nat (length (Out s id) + length (In_ s id))
}.

(** No edge points at something that is not a node. *)
Definition closed (s : Snapshot) : Prop :=
  forall a e, e ∈ Out s a -> is_Some (sn_nodes s !! a) /\ is_Some (sn_nodes s !! ed_To e).

Lemma adj_well_formed w : adj_ok (wr_g w) -> well_formed (snapshot_of w) (refcnt (wr_g w)).
Proof. intros [H1 H2 H3 H4 H5 H6]. split; try done. intros id. split; [apply H1|apply H2]. Qed.

(** Compacting a writer whose snapshot is closed. *)
Lemma Compact_closed now w : wr_snap w = Some (snapshot_of w) -> adj_ok (wr_g w) -> ids_ok (wr_g w) -> closed (snapshot_of w) ->
  let w' := Compact now [] w in
  wr_snap w' = Some (snapshot_of w') /\ adj_ok (wr_g w') /\ forall x, snapshot_edge (snapshot_of w') x <-> snapshot_edge (snapshot_of w) x.
Proof.
  intros Hs Hadj Hids Hcl. cbn zeta. unfold Compact. assert (flushLocked now [] w = w) as -> by (unfold flushLocked; by rewrite Hs). rewrite Hs.
  destruct (_ <? _); [|done]. rewrite (newBatch_snap w Hs). unfold compact.
  pose proof (compact_adj (wr_g w) Hadj Hcl) as Hadj'. pose proof (compact_edge (wr_g w) Hadj Hcl) as Hedge. pose proof (compact_key (wr_g w)) as Hkey.
  destruct (compactBatchLocked (wr_g w)) as [g remap]. cbn [fst] in *.
  assert (forall w1, wr_snap (publish g w1) = Some (snapshot_of (publish g w1)) /\ wr_g (publish g w1) = g) as Hpub by done.
  set (w1 := if wr_onChange w then _ else _). destruct (Hpub w1) as [-> Eg]. rewrite Eg. split; [done|]. split; [done|].
  assert (forall a, is_Some (g_nodes (wr_g w) !! a) -> key_at (in_keys (g_intern g)) (new_id (wr_g w) a) = key_at (in_keys (g_intern (wr_g w))) a) as Hk
    by (intros a Ha; apply Hkey; [done|by apply (io_nodes _ Hids)]).
  intros [from to kind]. unfold snapshot_edge, snapshot_of. rewrite Eg. cbn [sn_keys sn_out ke_From ke_To ke_Kind Out]. split.
  - intros (x & y & Hx & Hy & (a & b & -> & -> & He)%Hedge). destruct (Hcl _ _ He) as [Ha Hb]. exists a, b. rewrite <- (Hk a Ha), <- (Hk b Hb). done.
  - intros (a & b & Ha & Hb & He). destruct (Hcl _ _ He) as [Hna Hnb]. exists (new_id (wr_g w) a), (new_id (wr_g w) b).
    rewrite (Hk a Hna), (Hk b Hnb). split; [done|]. split; [done|]. apply Hedge. eauto.
Qed.

(** C19: every snapshot a writer that logs its changes publishes, until it is compacted, is
    well formed: the edge lists of both directions are strictly sorted, so without
    repetitions; [In] is the converse of [Out]; the edge count is the number of edges; no
    empty list is stored; the writer's reference counts are the nodes' degrees. When no
    edge of it dangles, compacting the writer publishes a snapshot that is well formed
    too and has the same edges between the same names. (A dangling edge is possible, and
    compaction does not survive it: [compaction_merges_dangling_ends]. A writer without a
    log compacts at every flush and is not covered.) *)
Theorem snapshot_well_formed watched w objs s : told watched w objs -> wr_snap w = Some s ->
  well_formed s (refcnt (wr_g w)) /\
  forall now, closed s -> exists s', wr_snap (Compact now [] w) = Some s' /\
    well_formed s' (refcnt (wr_g (Compact now [] w))) /\ forall x, snapshot_edge s' x <-> snapshot_edge s x.
Proof.
  intros Hw Hs. destruct (told_snapshot _ _ _ _ Hw Hs) as [[_ Hd _] ->]. split; [by apply adj_well_formed, (do_adj _ _ Hd)|].
  intros now Hcl. destruct (Compact_closed now w Hs (do_adj _ _ Hd) (do_ids _ _ Hd) Hcl) as (Hs' & Ha & He).
  eexists. split; [exact Hs'|]. split; [by apply adj_well_formed|exact He].
Qed.
End histories.

(** ** The shop again *)

Module Shop.
#[local] Existing Instance labels.
#[local] Existing Instance plain_range.

Notation moved := (flushLocked 3 [mkDelta OpUpdate (pod "web-b" "n2") false; mkDelta OpDelete (pod "web-a" "n1") false]
  (flushLocked 1 [mkDelta OpAdd svc false; mkDelta OpAdd (pod "web-b" "n1") false] loaded)) (only parsing).
Notation objects := (after_deltas [mkDelta OpUpdate (pod "web-b" "n2") false; mkDelta OpDelete (pod "web-a" "n1") false]
  (after_deltas [mkDelta OpAdd svc false; mkDelta OpAdd (pod "web-b" "n1") false] (after_load [rs; pod "web-a" "n1"] ∅))) (only parsing).

Lemma in_shop o : obj_ns o = "shop" -> obj_kind o <> KindNode -> obj_kind o <> KindNamespace -> admitted o.
Proof. intros Hns H1 H2. split; [right; unfold obj_ns in Hns; rewrite Hns; reflexivity|]. by intros [?|?]. Qed.

Ltac all_in_shop := repeat (apply List.Forall_cons || apply List.Forall_nil); by apply in_shop.

Lemma moved_told : told [] moved objects.
Proof. apply told_flush; [apply told_flush; [apply told_load; [apply told_new|]|]|]; all_in_shop. Qed.

(** The service selects the pod that came after it; the pod that left is not selected. *)
Lemma incremental_is_rebuild_witness :
  snapshot_edge (snap moved) (mkKE "Service/shop/front" "Pod/shop/web-b" EdgeSelects) /\
  ~ snapshot_edge (snap moved) (mkKE "Service/shop/front" "Pod/shop/web-a" EdgeSelects).
Proof.
  assert (wr_snap moved = Some (snap moved)) as Hs by (vm_compute; reflexivity).
  pose proof (incremental_is_rebuild [] moved objects (snap moved) moved_told Hs) as Hall. split.
  - apply Hall. exists "Service/shop/front", svc. split; [reflexivity|]. right.
    exists (mkSel (FromSet {["app" := "web"]}) EdgeSelects), "Pod/shop/web-b", (pod "web-b" "n2"), {["app" := "web"]}.
    repeat split; reflexivity.
  - intros He. apply Hall in He as (key & o & Ho & He).
    assert (declarer (mkKE "Service/shop/front" "Pod/shop/web-a" EdgeSelects) = key) as <-.
    { apply (declares_declarer objects); [exact (tr_keyed _ _ (told_tracks [] moved objects moved_told))|exists o; exact (conj Ho He)]. }
    assert (objects !! "Service/shop/front" = Some svc) as Hsvc by reflexivity.
    assert (Some svc = Some o) as [= <-] by (rewrite <- Hsvc; exact Ho). destruct He as [He|(ent & kp & p & l & _ & Hp & _ & _ & _ & [= <- _])].
    + vm_compute in He. by apply not_elem_of_nil in He.
    + assert (objects !! "Pod/shop/web-a" = None) as Hno by reflexivity. rewrite Hno in Hp. discriminate.
Defined.

Definition closedb (s : Snapshot) : bool :=
  forallb (fun '(a, es) => bool_decide (is_Some (sn_nodes s !! a)) && forallb (fun e => bool_decide (is_Some (sn_nodes s !! ed_To e))) es)
    (map_to_list (sn_out s)).

Lemma closedb_closed s : closedb s = true -> closed s.
Proof.
  intros Hb a e He. unfold Out, edges_of in He. destruct (sn_out s !! a) as [es|] eqn:Ea; [|by apply not_elem_of_nil in He].
  unfold closedb in Hb. rewrite forallb_forall in Hb. apply elem_of_map_to_list, list_elem_of_In, Hb in Ea.
  apply andb_prop in Ea as [Ha%bool_decide_eq_true Hes]. rewrite forallb_forall in Hes. split; [done|].
  by eapply bool_decide_eq_true, Hes, list_elem_of_In.
Qed.

(** The pod that left leaves two identities behind; compaction drops them and keeps the six edges. *)
Lemma snapshot_well_formed_witness :
  sn_edges (snap moved) = 6 /\ (forall a b k, mkEdge b k ∈ Out (snap moved) a <-> mkEdge a k ∈ In_ (snap moved) b) /\
  exists s', wr_snap (Compact 4 [] moved) = Some s' /\ (length (sn_keys s') < length (sn_keys (snap moved)))%nat /\ sn_edges s' = 6 /\
    (forall a b k, mkEdge b k ∈ Out s' a <-> mkEdge a k ∈ In_ s' b).
Proof.
  split; [vm_compute; reflexivity|]. assert (wr_snap moved = Some (snap moved)) as Hs by (vm_compute; reflexivity).
  destruct (snapshot_well_formed [] moved objects (snap moved) moved_told Hs) as [Hwf Hc]. split; [exact (wf_converse _ _ Hwf)|].
  destruct (Hc 4) as (s' & Es' & Hwf' & _); [apply closedb_closed; vm_compute; reflexivity|]. exists s'. split; [exact Es'|].
  assert (match wr_snap (Compact 4 [] moved) with Some s' => (length (sn_keys s') <? length (sn_keys (snap moved)))%nat && (sn_edges s' =? 6) | None => false end = true) as Hv
    by (vm_compute; reflexivity).
  rewrite Es' in Hv. apply andb_prop in Hv as [H1 H2]. split; [by apply Nat.ltb_lt|]. split; [by apply Z.eqb_eq|exact (wf_converse _ _ Hwf')].
Defined.

(** A pod whose owner is the Node it then runs on. *)
Notation owned := (OPod (mkMeta "shop" "web" "u" ∅ [mkOwner "Node" "n1"]) (mkPodSpec "" [] [] [])) (only parsing).
Notation placed := (OPod (mkMeta "shop" "web" "u" ∅ []) (mkPodSpec "n1" [] [] [])) (only parsing).
Notation replaced := (flushLocked 2 [mkDelta OpUpdate placed false] (flushLocked 1 [mkDelta OpAdd owned false] (New [] true)))
  (only parsing).

Lemma replaced_told :
  told [] replaced (after_deltas [mkDelta OpUpdate placed false] (after_deltas [mkDelta OpAdd owned false] ∅)).
Proof. apply told_flush; [apply told_flush; [apply told_new|]|]; all_in_shop. Qed.

(** An update that replaces an object's last edge to an unobserved node by another
    edge to the same node leaves that edge dangling: the old edge goes first, its end is
    garbage collected with it, and the new edge is added without the node coming back.
    The snapshot then has an edge whose end is no node of it and cannot be looked up. *)
Lemma replaced_edge_dangles :
  exists s pod node, wr_snap replaced = Some s /\ is_Some (sn_nodes s !! pod) /\
    mkEdge node EdgeRunsOn ∈ Out s pod /\ key_at (sn_keys s) node = Some (nodeKey KindNode "" "n1") /\
    sn_nodes s !! node = None /\ Lookup_node s KindNode "" "n1" = None.
Proof.
  exists (snap replaced), 1, 3. split; [vm_compute; reflexivity|]. split; [vm_compute; by eexists|].
  split; [apply (bool_decide_unpack _); vm_compute; exact I|]. repeat split; vm_compute; reflexivity.
Qed.
(** Two such pods, in one flush of a writer without a log. *)
Notation owned_by name node := (OPod (mkMeta "shop" name name ∅ [mkOwner "Node" node]) (mkPodSpec "" [] [] [])) (only parsing).
Notation placed_on name node := (OPod (mkMeta "shop" name name ∅ []) (mkPodSpec node [] [] [])) (only parsing).
Notation merged := (flushLocked 1 [mkDelta OpAdd (owned_by "web-a" "n1") false; mkDelta OpAdd (owned_by "web-b" "n2") false;
  mkDelta OpUpdate (placed_on "web-a" "n1") false; mkDelta OpUpdate (placed_on "web-b" "n2") false] (New [] false)) (only parsing).

(** Compaction merges dangling ends. It renames an end that is no node to the zero id, whatever
    it was: the pods of two different machines then run on the same one, which has no name,
    and [In] keeps only one of them. *)
Lemma compaction_merges_dangling_ends :
  exists s a b, wr_snap merged = Some s /\ a <> b /\ mkEdge NoNode EdgeRunsOn ∈ Out s a /\ mkEdge NoNode EdgeRunsOn ∈ Out s b /\
    ~ (mkEdge a EdgeRunsOn ∈ In_ s NoNode /\ mkEdge b EdgeRunsOn ∈ In_ s NoNode).
Proof.
  exists (snap merged), 2, 3. split; [vm_compute; reflexivity|]. split; [done|].
  split; [apply (bool_decide_unpack _); vm_compute; exact I|]. split; [apply (bool_decide_unpack _); vm_compute; exact I|].
  intros [Ha _]. revert Ha. apply (bool_decide_unpack _). vm_compute. exact I.
Qed.
End Shop.
