(* ===== verification/GraphHistory.v ===== *)
(** The snapshot file of the topology graph (src/pkg/graph/history.go): [Encode] and
    [Restore], and that what was encoded is restored exactly.

    compress/gzip is the class [Gzip]: its reader returns what its writer was given. *)
From S2P Require Import Prelude GoStrings GoHash GoFmt GoSort Effects GraphTypes GraphCodec GraphChanges GraphWriter.
From S2P Require Import GraphReplay GraphReplaySpec GraphAdjacency GraphRebuild GraphRebuildSpec GraphIncremental.
Import ShopGraph.
From stdpp Require Import sorting.
Open Scope Z_scope.
Open Scope lookout_scope.

Class Gzip := {
  compress : list Z -> list Z;
  decompress : list Z -> option (list Z);
  decompress_compress : forall body, decompress (compress body) = Some body
}.

Definition SnapshotFormatVersion : Z := 2.
Definition snapshotFormatV1 : Z := 1.
(** "LKGH" *)
Definition snapshotMagic : list Z := [76; 75; 71; 72].

(** ** Encode *)

(** A length, and the items. *)
Definition counted {A} (enc : A -> list Z) (l : list A) : list Z :=
  uvarint_bytes (Z.of_nat (length l)) ++ concat (enc <$> l).

Definition node_bytes (x : NodeID * nodeInfo) : list Z :=
  uvarint_bytes x.1 ++ [kind_byte (ni_kind x.2); boolByte (ni_observed x.2)] ++ uvarint_bytes (ni_ns x.2).

Definition edge_bytes (e : Edge) : list Z := [edge_byte (ed_Kind e)] ++ uvarint_bytes (ed_To e).

Definition source_bytes (x : NodeID * list Edge) : list Z := uvarint_bytes x.1 ++ counted edge_bytes x.2.

(** The entries of a map by ascending id. *)
Definition by_id {V} (m : gmap NodeID V) : list (NodeID * V) :=
  omap (fun id => (fun v => (id, v)) <$> m !! id) (merge_sort Z.le (map_to_list m).*1).

Definition watched_bytes (w : option (gset NodeKind)) : list Z :=
  match w with
  | None => [0]
  | Some w => 1 :: counted (fun k => [kind_byte k]) (List.filter (fun k => bool_decide (k ∈ w)) all_node_kinds)
  end.

Definition body_bytes (s : Snapshot) : list Z :=
  uvarint_bytes (sn_generation s) ++ counted string_bytes (sn_keys s) ++
  counted node_bytes (by_id (sn_nodes s)) ++ counted source_bytes (by_id (sn_out s)) ++ watched_bytes (sn_watched s).

Definition Encode `{Gzip} (s : Snapshot) : list Z :=
  snapshotMagic ++ [SnapshotFormatVersion] ++ compress (body_bytes s).

(** ** Restore *)

(** A count; what it counts takes a byte at least, so one beyond the bytes there are
    ends in an error. *)
Definition d_count : Dec nat := fun buf =>
  match d_uvarint buf with
  | Some (n, buf) => if Z.of_nat (length buf) <? n then None else Some (Z.to_nat n, buf)
  | None => None
  end.

Definition d_node (numKeys : Z) : Dec (NodeID * nodeInfo) :=
  id ← d_id; kb ← d_byte; observed ← d_byte; ns ← d_id;
  kind ← of_option (kind_of_byte kb);
  _ ← ensure (negb (id =? NoNode) && (id <=? numKeys) && (observed <=? 1) && ((ns =? NoNode) || (ns <=? numKeys)));
  mret (id, mkNodeInfo kind (observed =? 1) ns).

Definition is_node (nodes : gmap NodeID nodeInfo) (id : NodeID) : bool := negb (bool_decide (nodes !! id = None)).

Definition d_edge (nodes : gmap NodeID nodeInfo) : Dec Edge :=
  kb ← d_byte; to ← d_id;
  kind ← of_option (edge_of_byte kb);
  _ ← ensure (negb (bool_decide (kind = EdgeInvalid)));
  _ ← ensure (is_node nodes to);
  mret (mkEdge to kind).

Definition d_source (nodes : gmap NodeID nodeInfo) : Dec (NodeID * list Edge) :=
  src ← d_id; n ← d_count;
  _ ← ensure (is_node nodes src);
  edges ← times n (d_edge nodes);
  mret (src, edges).

Definition d_watched (version : Z) : Dec (option (gset NodeKind)) :=
  if version <? SnapshotFormatVersion then mret None
  else
    flag ← d_byte;
    if flag =? 0 then mret None
    else if flag =? 1 then
      n ← d_count;
      _ ← ensure (Z.of_nat n <=? numNodeKinds);
      kinds ← times n (kb ← d_byte; of_option (kind_of_byte kb));
      mret (Some (list_to_set kinds))
    else bad.

(** [m[k] = v], in order *)
Definition store_all {K V} `{Countable K} (l : list (K * V)) : gmap K V := foldl (fun m '(k, v) => <[k := v]> m) ∅ l.

(** [if s.keys[i] != "" { s.ids.Store(s.keys[i], NodeID(i+1)) }] *)
Definition key_ids (keys : list string) : gmap string NodeID :=
  store_all (List.filter (fun '(k, _) => k <>s "") (zip keys ((fun i => Z.of_nat i + 1) <$> seq 0 (length keys)))).

(** The edges in the order they were read. *)
Definition flat (sources : list (NodeID * list Edge)) : list (NodeID * Edge) :=
  concat ((fun x : NodeID * list Edge => (fun e : Edge => (x.1, e)) <$> x.2) <$> sources).

(** [s.in[to] = append(s.in[to], Edge{To: src, Kind: kind})] *)
Definition in_of (l : list (NodeID * Edge)) : gmap NodeID (list Edge) :=
  foldl (fun m '(src, e) => <[ed_To e := edges_of m (ed_To e) ++ [mkEdge src (ed_Kind e)]]> m) ∅ l.

Definition edge_le (a b : Edge) : Prop := ~ edge_lt b a.
#[global] Instance edge_lt_dec : RelDecision edge_lt.
Proof. intros a b. unfold edge_lt. apply _. Defined.
#[global] Instance edge_le_dec : RelDecision edge_le.
Proof. intros a b. unfold edge_le. apply _. Defined.

Definition d_body (version : Z) : Dec Snapshot :=
  generation ← d_uvarint;
  numKeys ← d_count; keys ← times numKeys d_str;
  numNodes ← d_count; _ ← ensure (numNodes <=? numKeys)%nat;
  nodeList ← times numNodes (d_node (Z.of_nat numKeys));
  let nodes := store_all nodeList in
  numSources ← d_count; sources ← times numSources (d_source nodes);
  watched ← d_watched version;
  mret (mkSnapshot nodes (store_all sources) (merge_sort edge_le <$> in_of (flat sources))
          (Z.of_nat (length (flat sources))) keys (key_ids keys) watched generation).

(** [None]: ErrBadSnapshot. *)
Definition Restore `{Gzip} (data : list Z) : option Snapshot :=
  match data with
  | m0 :: m1 :: m2 :: m3 :: version :: rest =>
      if negb (bool_decide ([m0; m1; m2; m3] = snapshotMagic)) then None
      else if negb (version =? snapshotFormatV1) && negb (version =? SnapshotFormatVersion) then None
      else match decompress rest with
           | None => None
           | Some body => match d_body version body with Some (s, []) => Some s | _ => None end
           end
  | _ => None
  end.

(** ** Reading back what was written *)

(** A count, a check on it, the items. *)
Lemma reads_counted_if {A B} (m : Dec A) (enc : A -> list Z) l (c : nat -> bool) (f : nat -> list A -> Dec B) bs y :
  (forall x, x ∈ l -> reads m (enc x) x /\ enc x <> []) -> Z.of_nat (length l) < 2 ^ 64 -> c (length l) = true ->
  reads (f (length l) l) bs y -> reads (n ← d_count; _ ← ensure (c n); l ← times n m; f n l) (counted enc l ++ bs) y.
Proof.
  intros Hm Hl Hc Hf rest. unfold counted. rewrite <- !app_assoc. unfold mbind at 1, Dec_bind at 1. unfold d_count.
  rewrite (reads_uvarint (Z.of_nat (length l)) ltac:(lia)).
  assert (length l <= length (concat (enc <$> l)))%nat as Hle.
  { clear -Hm. induction l as [|x l IH]; simpl; [lia|]. rewrite length_app.
    destruct (Hm x) as [_ Hx]; [set_solver|]. assert (length l <= length (concat (enc <$> l)))%nat by (apply IH; set_solver).
    destruct (enc x); [done|]. simpl. unfold fmap in *. lia. }
  destruct (Z.ltb_spec (Z.of_nat (length (concat (enc <$> l) ++ bs ++ rest))) (Z.of_nat (length l))) as [Hlt|_];
    [rewrite !length_app in Hlt; lia|]. rewrite Nat2Z.id.
  unfold mbind, Dec_bind. rewrite Hc. cbn [ensure mret Dec_ret]. rewrite (reads_times m enc l (fun x Hx => proj1 (Hm x Hx))). apply Hf.
Qed.

Lemma reads_counted {A B} (m : Dec A) (enc : A -> list Z) l (f : nat -> list A -> Dec B) bs y :
  (forall x, x ∈ l -> reads m (enc x) x /\ enc x <> []) -> Z.of_nat (length l) < 2 ^ 64 ->
  reads (f (length l) l) bs y -> reads (n ← d_count; l ← times n m; f n l) (counted enc l ++ bs) y.
Proof. intros Hm Hl Hf. exact (reads_counted_if m enc l (fun _ => true) f bs y Hm Hl eq_refl Hf). Qed.

Lemma uvarint_nonempty x : uvarint_bytes x <> [].
Proof. unfold uvarint_bytes. generalize 9%nat as fuel. intros [|fuel]; simpl; [done|]. by destruct (128 <=? x). Qed.

Lemma app_nonempty_l {A} (l l' : list A) : l <> [] -> l ++ l' <> [].
Proof. by destruct l. Qed.

Lemma reads_node numKeys x : numKeys <= MaxUint32 -> 1 <= x.1 <= numKeys -> 0 <= ni_ns x.2 <= numKeys ->
  reads (d_node numKeys) (node_bytes x) x /\ node_bytes x <> [].
Proof.
  intros Hk Hid Hns. split; [|apply app_nonempty_l, uvarint_nonempty]. unfold d_node, node_bytes.
  eapply reads_bind; [apply reads_id; lia|]. change [kind_byte (ni_kind x.2); boolByte (ni_observed x.2)] with ([kind_byte (ni_kind x.2)] ++ [boolByte (ni_observed x.2)]).
  rewrite <- app_assoc. eapply reads_bind; [apply reads_byte|]. eapply reads_bind; [apply reads_byte|].
  rewrite <- (app_nil_r (uvarint_bytes (ni_ns x.2))). eapply reads_bind; [apply reads_id; lia|].
  eapply reads_of_option; [apply kind_of_byte_byte|]. destruct x as [id [kind observed ns]]. simpl in *. apply reads_ensure.
  - unfold NoNode. destruct (Z.eqb_spec id 0); [lia|]. destruct (Z.leb_spec id numKeys); [|lia]. destruct (Z.leb_spec ns numKeys); [|lia].
    rewrite orb_true_r. by destruct observed.
  - destruct observed; apply reads_ret.
Qed.

Lemma reads_edge nodes e : 0 <= ed_To e <= MaxUint32 -> ed_Kind e <> EdgeInvalid -> is_Some (nodes !! ed_To e) ->
  reads (d_edge nodes) (edge_bytes e) e /\ edge_bytes e <> [].
Proof.
  intros Hto Hk [info Hn]. split; [|done]. unfold d_edge, edge_bytes. eapply reads_bind; [apply reads_byte|].
  rewrite <- (app_nil_r (uvarint_bytes (ed_To e))). eapply reads_bind; [by apply reads_id|].
  eapply reads_of_option; [apply edge_of_byte_byte|]. apply reads_ensure; [by rewrite bool_decide_eq_false_2|].
  apply reads_ensure; [unfold is_node; by rewrite Hn|]. destruct e. apply reads_ret.
Qed.

Lemma reads_source nodes x : 0 <= x.1 <= MaxUint32 -> is_Some (nodes !! x.1) -> Z.of_nat (length x.2) < 2 ^ 64 ->
  Forall (fun e => 0 <= ed_To e <= MaxUint32 /\ ed_Kind e <> EdgeInvalid /\ is_Some (nodes !! ed_To e)) x.2 ->
  reads (d_source nodes) (source_bytes x) x /\ source_bytes x <> [].
Proof.
  intros Hid [info Hn] Hl He. split; [|apply app_nonempty_l, uvarint_nonempty]. destruct x as [src es]. cbn [fst snd] in *.
  unfold d_source, source_bytes. cbn [fst snd]. eapply reads_bind; [by apply reads_id|].
  rewrite <- (app_nil_r (counted edge_bytes es)).
  apply (reads_counted_if (d_edge nodes) edge_bytes es (fun _ => is_node nodes src) (fun _ l => mret (src, l))); [|done|unfold is_node; by rewrite Hn|apply reads_ret].
  intros e Hin. apply (proj1 (list.Forall_forall _ _) He) in Hin as (? & ? & ?). by apply reads_edge.
Qed.

(** ** Maps and lists *)

Lemma by_id_perm {V} (m : gmap NodeID V) : by_id m ≡ₚ map_to_list m.
Proof.
  unfold by_id. rewrite (merge_sort_Permutation Z.le). apply reflexive_eq.
  assert (forall l : list (NodeID * V), (forall x, x ∈ l -> m !! x.1 = Some x.2) ->
    omap (fun id => (fun v => (id, v)) <$> m !! id) l.*1 = l) as Ho.
  { induction l as [|[id v] l IH]; intros Hl; simpl; [done|].
    pose proof (Hl (id, v) ltac:(set_solver)) as Hv. simpl in Hv. rewrite Hv. simpl. f_equal. apply IH. set_solver. }
  apply Ho. intros [id v] Hx. by apply elem_of_map_to_list in Hx.
Qed.

Lemma elem_of_by_id {V} (m : gmap NodeID V) id v : (id, v) ∈ by_id m <-> m !! id = Some v.
Proof. rewrite by_id_perm. apply elem_of_map_to_list. Qed.

Lemma by_id_once {V} (m : gmap NodeID V) : NoDup (by_id m).*1.
Proof. rewrite by_id_perm. apply NoDup_fst_map_to_list. Qed.

Lemma store_all_reverse {K V} `{Countable K} (l : list (K * V)) : store_all l = list_to_map (reverse l).
Proof.
  induction l as [|[k v] l IH] using rev_ind; [done|]. unfold store_all in *. rewrite foldl_app, reverse_app. simpl. by rewrite IH.
Qed.

Lemma store_all_by_id {V} (m : gmap NodeID V) : store_all (by_id m) = m.
Proof.
  rewrite store_all_reverse. transitivity (list_to_map (map_to_list m) : gmap NodeID V); [|apply list_to_map_to_list].
  apply list_to_map_proper.
  - rewrite fmap_reverse, reverse_Permutation. apply by_id_once.
  - by rewrite reverse_Permutation, by_id_perm.
Qed.

Lemma key_ids_index keys : (forall k, k ∈ keys -> k <> "") -> key_ids keys = index_keys keys.
Proof.
  induction keys as [|k keys IH] using rev_ind; intros Hne; [done|]. rewrite index_keys_snoc, <- IH by set_solver.
  unfold key_ids. rewrite length_app, Nat.add_1_r, seq_S, fmap_app, zip_with_app by by rewrite length_fmap, length_seq.
  rewrite List.filter_app. unfold store_all. rewrite foldl_app. simpl. rewrite bool_decide_eq_false_2; [done|]. apply Hne. set_solver.
Qed.

(** The inbound edges of [id] among those read. *)
Definition pick (id : NodeID) (l : list (NodeID * Edge)) : list Edge :=
  (fun x => mkEdge x.1 (ed_Kind x.2)) <$> List.filter (fun x => bool_decide (ed_To x.2 = id)) l.

Definition stored (l : list Edge) : option (list Edge) := match l with [] => None | _ => Some l end.

Lemma in_of_spec l id : in_of l !! id = stored (pick id l).
Proof.
  induction l as [|[src e] l IH] using rev_ind; [done|]. unfold in_of. rewrite foldl_app. simpl. fold (in_of l).
  unfold pick. rewrite List.filter_app, fmap_app. fold (pick id l). simpl. case_bool_decide as E.
  - subst id. rewrite lookup_insert_eq. simpl. unfold edges_of. rewrite IH. by destruct (pick (ed_To e) l).
  - rewrite lookup_insert_ne by done. rewrite IH. simpl. by rewrite app_nil_r.
Qed.

Lemma elem_of_flat srcs src e : (src, e) ∈ flat srcs <-> exists es, (src, es) ∈ srcs /\ e ∈ es.
Proof.
  unfold flat. rewrite list_elem_of_In, in_concat. setoid_rewrite <- list_elem_of_In. setoid_rewrite list_elem_of_fmap. split.
  - intros (l & ([src' es] & -> & Hin) & He). apply list_elem_of_fmap in He as (e' & [= -> ->] & He). by exists es.
  - intros (es & Hin & He). exists ((fun e => (src, e)) <$> es). split; [by exists (src, es)|]. apply list_elem_of_fmap. by exists e.
Qed.

Lemma flat_once srcs : NoDup srcs.*1 -> (forall x, x ∈ srcs -> NoDup x.2) -> NoDup (flat srcs).
Proof.
  induction srcs as [|[src es] srcs IH]; intros Hnd Hes; [constructor|]. unfold flat. rewrite fmap_cons. cbn [concat fst snd]. fold (flat srcs).
  rewrite fmap_cons in Hnd. apply NoDup_cons in Hnd as [Hnin Hnd]. apply NoDup_app. split; [|split].
  - apply NoDup_fmap_2; [by intros ? ? [= ->]|]. by apply (Hes (src, es)); left.
  - intros [src' e] He Hf. apply list_elem_of_fmap in He as (e' & [= -> ->] & _). apply elem_of_flat in Hf as (es' & Hin & _).
    apply Hnin. apply list_elem_of_fmap. by exists (src, es').
  - apply IH; [done|]. intros x Hx. apply Hes. by right.
Qed.

Lemma length_flat srcs : length (flat srcs) = sum_list (length <$> srcs.*2).
Proof.
  induction srcs as [|[src es] srcs IH]; [done|]. unfold flat in *. rewrite !fmap_cons. cbn [concat fst snd sum_list].
  by rewrite length_app, length_fmap, IH.
Qed.

#[global] Instance edge_le_total : Total edge_le.
Proof. intros a b. unfold edge_le. destruct (edge_lt_total a b) as [?|[->|?]]; [left|left|right]; intros Hb; [|by apply edge_lt_irrefl in Hb|];
  eapply edge_lt_irrefl; by etrans. Qed.
#[global] Instance edge_le_trans : Transitive edge_le.
Proof.
  intros a b c Hab Hbc Hca. unfold edge_le in *. destruct (edge_lt_total a b) as [H1|[->|?]]; [|done|done].
  apply Hbc. by transitivity a.
Qed.
#[global] Instance edge_le_antisym : AntiSymm (=) edge_le.
Proof. intros a b Hab Hba. unfold edge_le in *. by destruct (edge_lt_total a b) as [?|[?|?]]. Qed.

Lemma sorted_once l : StronglySorted edge_lt l -> NoDup l.
Proof.
  induction 1 as [|x l Hs IH Hx]; constructor; [|done]. intros Hin. apply (proj1 (list.Forall_forall _ _) Hx) in Hin.
  by apply edge_lt_irrefl in Hin.
Qed.

Lemma sorted_le l : StronglySorted edge_lt l -> StronglySorted edge_le l.
Proof.
  induction 1 as [|x l Hs IH Hx]; constructor; [done|]. apply list.Forall_forall. intros y Hy Hyx.
  apply (proj1 (list.Forall_forall _ _) Hx) in Hy. by eapply edge_lt_irrefl, transitivity.
Qed.

(** Sorting a permutation of a sorted list gives the list. *)
Lemma resort l l' : StronglySorted edge_lt l -> l' ≡ₚ l -> merge_sort edge_le l' = l.
Proof.
  intros Hl Hp. apply (StronglySorted_unique edge_le).
  - apply StronglySorted_merge_sort; apply _.
  - by apply sorted_le.
  - by rewrite (merge_sort_Permutation edge_le).
Qed.

(** ** The round trip *)

(** A snapshot the format can carry: well formed, with no edge to a node it lacks. *)
Record restorable (s : Snapshot) : Prop := {
  rs_gen : 0 <= sn_generation s < 2 ^ 64;
  rs_keys : carried (sn_keys s);
  rs_ids : key_ids (sn_keys s) = sn_ids s;
  rs_nodes : forall id info, sn_nodes s !! id = Some info ->
    1 <= id <= Z.of_nat (length (sn_keys s)) /\ 0 <= ni_ns info <= Z.of_nat (length (sn_keys s));
  rs_closed : forall a e, e ∈ Out s a -> is_Some (sn_nodes s !! a) /\ is_Some (sn_nodes s !! ed_To e) /\ ed_Kind e <> EdgeInvalid;
  rs_sorted : forall id, StronglySorted edge_lt (Out s id) /\ StronglySorted edge_lt (In_ s id);
  rs_dual : forall a b k, mkEdge b k ∈ Out s a <-> mkEdge a k ∈ In_ s b;
  rs_count : sn_edges s = Z.of_nat (edge_total (sn_out s)) /\ sn_edges s < 2 ^ 64;
  rs_stored : forall id, sn_out s !! id <> Some [] /\ sn_in s !! id <> Some []
}.

Lemma node_count s : restorable s -> (length (by_id (sn_nodes s)) <= length (sn_keys s))%nat.
Proof.
  intros Hs. rewrite <- (length_fmap fst). rewrite <- (length_seq (length (sn_keys s)) 0).
  rewrite <- (length_fmap (fun i => Z.of_nat i + 1) (seq _ _)). apply submseteq_length, NoDup_submseteq; [apply by_id_once|].
  intros id Hid. apply list_elem_of_fmap in Hid as ([id' info] & -> & Hin%elem_of_by_id). apply (rs_nodes _ Hs) in Hin as [Hr _].
  apply list_elem_of_fmap. exists (Z.to_nat (id' - 1)). simpl. split; [lia|]. apply elem_of_seq. lia.
Qed.

Lemma source_total s x : x ∈ by_id (sn_out s) -> (length x.2 <= edge_total (sn_out s))%nat.
Proof.
  destruct x as [id es]. intros Hin%elem_of_by_id. rewrite (edge_total_delete (sn_out s) id). unfold edges_of. rewrite Hin. simpl. lia.
Qed.

Lemma source_count s : restorable s -> (length (by_id (sn_out s)) <= length (sn_keys s))%nat.
Proof.
  intros Hs. etrans; [|by apply node_count]. rewrite <- !(length_fmap fst (by_id _)). apply submseteq_length, NoDup_submseteq; [apply by_id_once|].
  intros id Hid. apply list_elem_of_fmap in Hid as ([id' es] & -> & Hin%elem_of_by_id). simpl.
  assert (exists e, e ∈ Out s id') as [e He].
  { unfold Out, edges_of. rewrite Hin. destruct es as [|e es]; [by destruct (proj1 (rs_stored _ Hs id'))|]. exists e. set_solver. }
  destruct (rs_closed _ Hs _ _ He) as ([info Hi] & _). apply list_elem_of_fmap. exists (id', info). split; [done|by apply elem_of_by_id].
Qed.

Lemma reads_watched w : reads (d_watched SnapshotFormatVersion) (watched_bytes w) w.
Proof.
  unfold d_watched, watched_bytes. change (SnapshotFormatVersion <? SnapshotFormatVersion) with false. cbn match.
  destruct w as [w|]; [|exact (reads_bind d_byte _ [0] [] 0 None (reads_byte 0) (reads_ret None))].
  set (kinds := List.filter (fun k => bool_decide (k ∈ w)) all_node_kinds).
  assert (w = list_to_set kinds) as Hw.
  { apply set_eq. intros k. rewrite elem_of_list_to_set, list_elem_of_In. unfold kinds. rewrite filter_In, bool_decide_eq_true.
    split; [|by intros []]. intros Hk. split; [|done]. destruct k; simpl; tauto. }
  assert (Z.of_nat (length kinds) <= numNodeKinds) as Hlen.
  { unfold kinds, numNodeKinds. pose proof (List.filter_length_le (fun k => bool_decide (k ∈ w)) all_node_kinds) as Hle.
    change (length all_node_kinds) with 19%nat in Hle. lia. }
  change (1 :: counted (fun k => [kind_byte k]) kinds) with ([1] ++ counted (fun k => [kind_byte k]) kinds).
  eapply reads_bind; [apply reads_byte|]. change (1 =? 0) with false. change (1 =? 1) with true. cbv iota.
  rewrite <- (app_nil_r (counted _ kinds)).
  apply (reads_counted_if (kb ← d_byte; of_option (kind_of_byte kb)) (fun k => [kind_byte k]) kinds (fun n => Z.of_nat n <=? numNodeKinds)
    (fun _ kinds => mret (Some (list_to_set kinds)))).
  - intros k _. split; [|done]. intros rest. unfold mbind, Dec_bind. cbn. by rewrite kind_of_byte_byte.
  - unfold numNodeKinds in Hlen. lia.
  - by apply Z.leb_le.
  - rewrite <- Hw. apply reads_ret.
Qed.

(** The inbound lists come back as they were. *)
Lemma restored_in s : restorable s -> merge_sort edge_le <$> in_of (flat (by_id (sn_out s))) = sn_in s.
Proof.
  intros Hs. apply map_eq. intros id. rewrite lookup_fmap, in_of_spec. set (l := flat (by_id (sn_out s))).
  assert (forall src e, (src, e) ∈ l <-> e ∈ Out s src) as Hl.
  { intros src e. unfold l. rewrite elem_of_flat. setoid_rewrite elem_of_by_id. unfold Out, edges_of. split.
    - intros (es & -> & He). done.
    - destruct (sn_out s !! src) as [es|]; simpl; [by exists es|set_solver]. }
  assert (pick id l ≡ₚ In_ s id) as Hp.
  { apply NoDup_Permutation.
    - unfold pick. apply NoDup_fmap_2_strong.
      + intros [a [b k]] [a' [b' k']] H1 H2. apply list_elem_of_In, filter_In in H1 as [_ E1%bool_decide_eq_true].
        apply list_elem_of_In, filter_In in H2 as [_ E2%bool_decide_eq_true]. simpl in *. intros [= -> ->]. congruence.
      + apply NoDup_ListNoDup, List.NoDup_filter, NoDup_ListNoDup, flat_once; [apply by_id_once|].
        intros [a es] Hin%elem_of_by_id. apply sorted_once. pose proof (proj1 (rs_sorted _ Hs a)) as Hso.
        unfold Out, edges_of in Hso. by rewrite Hin in Hso.
    - apply sorted_once, (rs_sorted _ Hs).
    - intros [a k]. rewrite <- (rs_dual _ Hs). unfold pick. rewrite list_elem_of_fmap. split.
      + intros ([a' [b k']] & [= -> ->] & Hin). apply list_elem_of_In, filter_In in Hin as [Hin E%bool_decide_eq_true].
        apply list_elem_of_In, Hl in Hin. simpl in *. by subst.
      + intros Hin. exists (a, mkEdge id k). split; [done|]. apply list_elem_of_In, filter_In. split; [by apply list_elem_of_In, Hl|].
        by apply bool_decide_eq_true. }
  pose proof (resort _ _ (proj2 (rs_sorted _ Hs id)) Hp) as Hm. unfold In_, edges_of in Hm, Hp.
  destruct (sn_in s !! id) as [es|] eqn:E; simpl in Hm, Hp.
  - destruct (pick id l) as [|x p]; simpl; [|by rewrite Hm]. apply Permutation_nil in Hp as ->. by destruct (proj2 (rs_stored _ Hs id)).
  - symmetry in Hp. apply Permutation_nil in Hp as ->. done.
Qed.

Lemma body_round_trip s : restorable s -> reads (d_body SnapshotFormatVersion) (body_bytes s) s.
Proof.
  intros Hs. unfold d_body, body_bytes. pose proof (node_count s Hs) as Hn. pose proof (source_count s Hs) as Hsrc.
  destruct (rs_keys _ Hs) as [Hk Hshort]. pose proof (rs_count _ Hs) as [Hc Hc64]. unfold MaxUint32 in Hk.
  eapply reads_bind; [apply reads_uvarint, (rs_gen _ Hs)|].
  apply (reads_counted d_str string_bytes (sn_keys s) (fun numKeys keys => numNodes ← d_count; _ ← ensure (numNodes <=? numKeys)%nat; _)).
  { intros k Hin. split; [|apply app_nonempty_l, uvarint_nonempty]. apply reads_str. by apply (proj1 (list.Forall_forall _ _) Hshort). }
  { lia. }
  apply (reads_counted_if (d_node (Z.of_nat (length (sn_keys s)))) node_bytes (by_id (sn_nodes s))
    (fun n => (n <=? length (sn_keys s))%nat) (fun _ nodeList => _)).
  { intros [id info] Hin%elem_of_by_id. apply (rs_nodes _ Hs) in Hin. apply reads_node; unfold MaxUint32; simpl; lia. }
  { lia. }
  { by apply Nat.leb_le. }
  cbv zeta. rewrite store_all_by_id.
  apply (reads_counted (d_source (sn_nodes s)) source_bytes (by_id (sn_out s)) (fun _ sources => _)).
  { intros [src es] Hin. pose proof (source_total s _ Hin) as Htot. apply elem_of_by_id in Hin. simpl in Htot.
    assert (forall e, e ∈ es -> e ∈ Out s src) as Hes by (intros e; unfold Out, edges_of; by rewrite Hin).
    assert (forall id, is_Some (sn_nodes s !! id) -> 0 <= id <= MaxUint32) as Hid.
    { intros id [info Hi]. apply (rs_nodes _ Hs) in Hi. unfold MaxUint32. lia. }
    assert (is_Some (sn_nodes s !! src)) as Hsrc'.
    { destruct es as [|e es]; [by destruct (proj1 (rs_stored _ Hs src))|]. apply (rs_closed _ Hs src e), Hes. set_solver. }
    apply reads_source; [by apply Hid|done|simpl; lia|]. apply list.Forall_forall. intros e He. simpl in He.
    destruct (rs_closed _ Hs src e (Hes e He)) as (_ & ? & ?). split; [by apply Hid|done]. }
  { lia. }
  rewrite <- (app_nil_r (watched_bytes _)). eapply reads_bind; [apply reads_watched|].
  rewrite store_all_by_id, restored_in, rs_ids by done. replace (Z.of_nat (length (flat (by_id (sn_out s))))) with (sn_edges s); [by destruct s; apply reads_ret|].
  rewrite length_flat, Hc. unfold edge_total. f_equal. by rewrite by_id_perm.
Qed.

Lemma restore_encode `{Gzip} s : restorable s -> Restore (Encode s) = Some s.
Proof.
  intros Hs. unfold Restore, Encode. cbn [snapshotMagic app]. rewrite bool_decide_eq_true_2 by done. cbn [negb].
  change (SnapshotFormatVersion =? SnapshotFormatVersion) with true. rewrite andb_false_r, decompress_compress.
  pose proof (body_round_trip s Hs []) as Hb. rewrite app_nil_r in Hb. by rewrite Hb.
Qed.

(** ** Namespaces of nodes

    A node's namespace is a known identity; every step of a handler keeps it so. *)

Definition ns_ok (g : gstate) : Prop :=
  forall id info, g_nodes g !! id = Some info -> ni_ns info = NoNode \/ valid_id g (ni_ns info).

Definition grows (g g' : gstate) : Prop := interner_ok (g_intern g) ->
  interner_ok (g_intern g') /\ keys_of g `prefix_of` keys_of g' /\ (ns_ok g -> ns_ok g').

#[global] Instance grows_preorder : PreOrder grows.
Proof.
  split; [by intros g|]. intros g g' g'' H1 H2 Hi. destruct (H1 Hi) as (Hi' & Hp & Hn). destruct (H2 Hi') as (Hi'' & Hp' & Hn').
  split; [done|]. split; [by etrans|auto].
Qed.

Create HintDb grows.

(** Steps that leave identities alone and give no node another namespace. *)
Lemma grows_same g g' : g_intern g' = g_intern g ->
  (forall id info, g_nodes g' !! id = Some info ->
     ni_ns info = NoNode \/ exists info', g_nodes g !! id = Some info' /\ ni_ns info = ni_ns info') -> grows g g'.
Proof.
  intros Hi Hn Hok. rewrite Hi. split; [done|]. split; [done|]. intros Hns id info Hinfo.
  destruct (Hn id info Hinfo) as [?|(info' & H' & ->)]; [by left|]. unfold valid_id. rewrite Hi. by apply (Hns id).
Qed.

Lemma grows_frame g g' : g_intern g' = g_intern g -> g_nodes g' = g_nodes g -> grows g g'.
Proof. intros Hi Hn. apply grows_same; [done|]. rewrite Hn. eauto. Qed.

Lemma node_in_grows nsID kind ns name g : (nsID = NoNode \/ valid_id g nsID) -> grows g (node_in nsID kind ns name g).2.
Proof.
  intros Hns Hi. rewrite node_in_eq. cbn [snd]. set (key := nodeKey kind ns name).
  destruct (intern_spec key (g_intern g) Hi) as (Hi' & Hid & Hold & Hkeys).
  assert (keys_of g `prefix_of` keys_of (interned key g)) as Hp.
  { unfold interned. simpl. rewrite Hkeys. case_bool_decide; [by apply prefix_app_r|done]. }
  assert (forall id, valid_id g id -> valid_id (interned key g) id) as Hv by (intros id; by apply valid_prefix).
  assert (ns_ok g -> ns_ok (interned key g)) as Hg.
  { intros Hn id info Hinfo. destruct (Hn id info Hinfo); [by left|right; by apply Hv]. }
  destruct (bool_decide (g_nodes g !! id_of key g = None)); (split; [exact Hi'|]; split; [exact Hp|]); [|exact Hg]. intros Hn id info Hinfo. cbn in Hinfo.
  apply lookup_insert_Some in Hinfo as [[_ <-]|[_ Hinfo]]; [|by apply (Hg Hn id)]. simpl. destruct Hns; [by left|right; by apply Hv].
Qed.

Lemma node_grows kind ns name : keeps grows (node kind ns name).
Proof.
  intros g Hi. unfold node, mbind, M_bind. destruct (negb _); [|by apply node_in_grows; [left|]].
  pose proof (node_in_grows NoNode KindNamespace "" ns g (or_introl eq_refl) Hi) as (Hi1 & Hp1 & Hn1).
  assert (valid_id (node_in NoNode KindNamespace "" ns g).2 (node_in NoNode KindNamespace "" ns g).1) as Hv.
  { rewrite node_in_eq. cbn [fst snd]. destruct (intern_spec (nodeKey KindNamespace "" ns) (g_intern g) Hi) as (Hi' & Hid & _).
    unfold valid_id. case_bool_decide; eexists; by apply Hi'. }
  destruct (node_in NoNode KindNamespace "" ns g) as [nsID g1]. cbn [fst snd] in *.
  destruct (node_in_grows nsID kind ns name g1 (or_intror Hv) Hi1) as (Hi2 & Hp2 & Hn2). split; [done|]. split; [by etrans|auto].
Qed.

Lemma observe_grows id kind : keeps grows (observe id kind).
Proof.
  intros g. apply grows_same; [done|]. intros i info Hi. unfold observe, modify, record, mbind, M_bind in Hi. cbn in Hi.
  apply lookup_insert_Some in Hi as [[-> <-]|[_ Hi]]; [|eauto].
  destruct (g_nodes g !! i); simpl; eauto.
Qed.

Lemma maybeGC_grows id : keeps grows (maybeGC id).
Proof.
  intros g. unfold maybeGC, gets, mbind, M_bind. cbn beta iota zeta. destruct (_ <? _); [reflexivity|].
  destruct (g_nodes g !! id) as [info|]; [|reflexivity]. destruct (bool_decide _); [reflexivity|]. destruct (_ && _); [reflexivity|].
  apply grows_same; [done|]. cbn. intros i x Hx. apply lookup_delete_Some in Hx as [_ Hx]. eauto.
Qed.

Lemma addEdge_grows e : keeps grows (addEdge e).
Proof.
  intros g. apply grows_frame; [apply addEdge_framed|]. unfold addEdge. destruct (insertEdge _ _) as [out []]; simpl; [|done].
  by destruct (insertEdge _ _).
Qed.

Lemma dropEdge_grows e : keeps grows (dropEdge e).
Proof.
  intros g. unfold dropEdge. destruct (deleteEdge _ _) as [out []]; simpl; [|reflexivity]. destruct (deleteEdge _ _). by apply grows_frame.
Qed.

(** Updates of the other fields. *)
Lemma modify_grows f : (forall g, g_intern (f g) = g_intern g /\ g_nodes (f g) = g_nodes g) -> keeps grows (modify f).
Proof. intros Hf g. by apply grows_frame; apply Hf. Qed.

Lemma dropSelector_grows ns src : keeps grows (dropSelector ns src).
Proof. intros g. destruct (dropSelector_frame ns src g) as [m ->]. by apply grows_frame. Qed.
Lemma drop_pod_grows ns id : keeps grows (drop_pod ns id).
Proof. intros g. destruct (drop_pod_frame ns id g) as [m ->]. by apply grows_frame. Qed.

Lemma gets_grows {A} (f : gstate -> A) : keeps grows (gets f).
Proof. apply keeps_gets. apply _. Qed.
Lemma ret_grows {A} (x : A) : keeps grows (mret x).
Proof. apply keeps_ret. apply _. Qed.

#[export] Hint Resolve node_grows observe_grows maybeGC_grows addEdge_grows dropEdge_grows dropSelector_grows drop_pod_grows
  gets_grows ret_grows : grows.

(** A handler is a sequence of such steps. *)
Ltac grow := repeat first
  [ solve [auto with grows]
  | apply keeps_bind; [apply _| |intros ?]
  | apply keeps_for_each; [apply _|intros ?]
  | apply modify_grows; by intros ?
  | case_match ].

Lemma removeEdge_grows e : keeps grows (removeEdge e).
Proof. unfold removeEdge. grow. Qed.
Lemma markDeleted_grows id : keeps grows (markDeleted id).
Proof.
  intros g. unfold markDeleted, gets, mbind, M_bind. cbn beta iota zeta. destruct (g_nodes g !! id) as [info|] eqn:E; [|reflexivity].
  etrans; [|apply maybeGC_grows]. apply grows_same; [done|]. cbn. intros i x Hx.
  apply lookup_insert_Some in Hx as [[-> <-]|[_ Hx]]; eauto.
Qed.
#[export] Hint Resolve removeEdge_grows markDeleted_grows : grows.

Lemma setDeclared_grows src want : keeps grows (setDeclared src want).
Proof. unfold setDeclared, store_declared. grow. Qed.
Lemma setSelectorEdge_grows src pod kind want : keeps grows (setSelectorEdge src pod kind want).
Proof. unfold setSelectorEdge, store_declared. grow. Qed.
Lemma collect_grows {A} (l : list A) body : (forall x, keeps grows (body x)) -> keeps grows (collect l body).
Proof. intros Hb. induction l as [|x l IH]; simpl; grow. Qed.
#[export] Hint Resolve setDeclared_grows setSelectorEdge_grows : grows.

Lemma ownerEdges_grows refs ns self : keeps grows (ownerEdges refs ns self).
Proof. apply collect_grows. intros r. grow. Qed.
Lemma mounts_grows ns pod refs : keeps grows (mounts ns pod refs).
Proof. apply collect_grows. intros [kind name]. grow. Qed.
#[export] Hint Resolve ownerEdges_grows mounts_grows : grows.

Section grows_handlers.
Context `{LabelLib} `{RangeOrder}.

Lemma for_selectors_grows ns body : (forall src ent, keeps grows (body src ent)) -> keeps grows (for_selectors ns body).
Proof. intros Hb. unfold for_selectors. grow. Qed.

Lemma applySelector_grows ns id sel kind : keeps grows (applySelector ns id sel kind).
Proof. unfold applySelector, setSelector, selected. grow. Qed.

Lemma applyDelta_grows op o : keeps grows (applyDelta op o).
Proof.
  destruct o; simpl; unfold applyPod, applyService, applyNode, applyPlain, applyDelete, applyEndpointSlice, applyIngress, applyNetworkPolicy,
    containerMounts, volumeMounts; cbv zeta;
    repeat first [ solve [auto with grows] | apply applySelector_grows | apply for_selectors_grows; intros ? ?
                 | apply keeps_bind; [apply _| |intros ?] | apply collect_grows; intros ? | apply modify_grows; by intros ? | case_match ].
Qed.

Lemma interned_grows key g : grows g (interned key g).
Proof.
  intros Hi. destruct (intern_spec key (g_intern g) Hi) as (Hi' & _ & _ & Hkeys).
  assert (keys_of g `prefix_of` keys_of (interned key g)) as Hp.
  { unfold interned. simpl. rewrite Hkeys. case_bool_decide; [by apply prefix_app_r|done]. }
  split; [exact Hi'|]. split; [exact Hp|]. intros Hn id info Hinfo. destruct (Hn id info Hinfo); [by left|right; by eapply valid_prefix].
Qed.

Lemma rec_grows g log : grows g (g <| g_rec := log |>).
Proof. by apply grows_frame. Qed.

Lemma flush_one_grows now d w g : wr_onChange w = true -> let '(_, _, g') := flush_one now d w g in grows g g'.
Proof.
  intros Hon. unfold flush_one. rewrite Hon. cbn [negb]. destruct (trackChange_eq now d w g) as (c & t & -> & _).
  destruct (dl_sync d).
  - etrans; [apply interned_grows|apply applyDelta_grows].
  - set (g1 := (interned _ g) <| g_rec := Some zero_log |>). pose proof (applyDelta_grows (dl_Op d) (dl_Object d) g1) as Ha.
    destruct (applyDelta _ _ g1) as [u g2]. cbn [snd] in Ha. assert (grows g (g2 <| g_rec := None |>)) as Hg.
    { etrans; [apply (interned_grows (object_key (dl_Object d)))|]. etrans; [apply (rec_grows _ (Some zero_log))|].
      etrans; [exact Ha|apply rec_grows]. }
    destruct (ch_FieldChanges _); [destruct (ch_Effect _)|]; exact Hg.
Qed.

Lemma flush_all_grows now l : forall w g, Forall delta_ok l -> wr_onChange w = true -> rested g ->
  let '(_, _, g') := flush_all now l w g in grows g g'.
Proof.
  induction l as [|d l IH]; intros w g Hl Hon Hg; cbn [flush_all]; [reflexivity|].
  inversion_clear Hl as [|? ? Hd Hl']. pose proof (flush_one_spec now d w g Hd Hg Hon) as H1.
  pose proof (flush_one_grows now d w g Hon) as H2.
  destruct (flush_one now d w g) as [[rec w1] g1]. destruct H1 as (Hg1 & _ & [t1 ->] & _).
  set (w1 := w <| wr_tracked := t1 |>) in *. specialize (IH w1 g1 Hl' Hon Hg1).
  destruct (flush_all now l w1 g1) as [[recs w2] g2]. by etrans.
Qed.

Lemma load_all_grows l : forall w g, wr_onChange w = true -> let '(_, g') := load_all l w g in grows g g'.
Proof.
  induction l as [|o l IH]; intros w g Hon; cbn [load_all]; [reflexivity|]. rewrite Hon. unfold trackSeed.
  pose proof (interned_grows (object_key o) g) as H1. unfold intern_key, interned in *.
  destruct (intern (object_key o) (g_intern g)) as [id i]. cbn [snd] in *. set (w1 := w <| wr_tracked ::= _ |>).
  specialize (IH w1 (applyDelta OpAdd o (g <| g_intern := i |>)).2 Hon). destruct (load_all l w1 _) as [w2 g2].
  etrans; [exact H1|]. etrans; [apply applyDelta_grows|exact IH].
Qed.

Lemma told_ns watched w objs : told watched w objs -> ns_ok (newBatch w) /\ 0 <= wr_gen w.
Proof.
  induction 1 as [|w objs l Hw [IH Hgen] Hl|w objs now pending Hw [IH Hgen] Hl]; [split; [intros id info Hi; cbn in Hi; by rewrite ?lookup_empty in Hi|cbn; lia]|..];
    pose proof (reached_ok _ _ (told_reached _ _ _ Hw)) as [Hg Hon Hsn]; pose proof (io_intern _ (proj1 Hg)) as Hi.
  - pose proof (load_all_grows l w (newBatch w) Hon) as Ht. unfold FromObjects.
    pose proof (load_all_spec l w _ Hl Hg Hon) as Hf. destruct (load_all l w (newBatch w)) as [w1 g].
    destruct Hf as [_ [t ->]]. rewrite newBatch_snap by done. split; [by apply Ht|]. simpl. lia.
  - destruct (decide (pending <> [] \/ wr_snap w = None)) as [Hdo|Hno].
    + pose proof (flushLocked_eq now pending w Hon Hl Hg Hdo) as He. pose proof (flush_all_grows now pending w _ Hl Hon Hg) as Ht.
      destruct (flush_all now pending w (newBatch w)) as [[recs w1] g]. destruct He as (Eg & Egen & _ & _ & Esn & _).
      rewrite newBatch_snap by done. rewrite Eg, Egen. split; [by apply Ht|lia].
    + unfold flushLocked. destruct pending; [|by destruct Hno; left]. destruct (wr_snap w) eqn:E; [done|by destruct Hno; right].
Qed.

Lemma told_restorable watched w objs s : told watched w objs -> wr_snap w = Some s -> closed s -> carried (sn_keys s) ->
  sn_generation s < 2 ^ 64 -> sn_edges s < 2 ^ 64 -> restorable s.
Proof.
  intros Hw Hs Hcl Hk Hgen He. destruct (told_snapshot _ _ _ _ Hw Hs) as [[Hkey Hd Hx] ->]. destruct (told_ns _ _ _ Hw) as [Hns Hg0].
  rewrite newBatch_snap in Hns by done. destruct (do_adj _ _ Hd) as [H1 H2 H3 H4 H5 H6]. pose proof (do_ids _ _ Hd) as Hok.
  assert (forall id, valid_id (wr_g w) id -> 1 <= id <= Z.of_nat (length (keys_of (wr_g w)))) as Hrange
    by (intros id [k Hk']; by eapply key_at_range).
  split; try done.
  - change (key_ids (keys_of (wr_g w)) = in_ids (g_intern (wr_g w))).
    rewrite key_ids_index; [apply index_keys_spec, Hok|]. intros k [i Hi]%list_elem_of_lookup. apply (io_keys _ Hok (Z.of_nat i + 1)).
    unfold key_at. destruct (Z.ltb_spec (Z.of_nat i + 1) 1); [lia|]. by replace (Z.to_nat (Z.of_nat i + 1 - 1)) with i by lia.
  - intros id info Hi. split; [apply Hrange, (io_nodes _ Hok); by eexists|]. destruct (Hns id info Hi) as [->|Hv%Hrange]; [unfold NoNode; lia|].
    simpl. lia.
  - intros a e Hin. destruct (Hcl a e Hin) as [? ?]. split; [done|]. split; [done|]. destruct e as [b k].
    assert (has_edge (wr_g w) (mkHalf a b k)) as [src Hsrc]%(do_edges _ _ Hd) by done. by apply (io_declared _ Hok) in Hsrc as (_ & _ & ?).
  - intros id. split; [apply H1|apply H2].
Qed.
End grows_handlers.

(** C20: a published snapshot of any logging writer, encoded and restored, comes back
    exactly: nodes, both adjacencies, edge count, identities, watched kinds and
    generation. It must have no dangling edge (the format refuses one) and fit the
    format's 32-bit ids, 4096-byte keys and 64-bit counters. *)
Theorem snapshot_file_round_trip `{LabelLib} `{RangeOrder} `{Gzip} watched w objs s : told watched w objs -> wr_snap w = Some s ->
  closed s -> carried (sn_keys s) -> sn_generation s < 2 ^ 64 -> sn_edges s < 2 ^ 64 -> Restore (Encode s) = Some s.
Proof. intros. eapply restore_encode, told_restorable; eassumption. Qed.

Module Saved.
#[local] Existing Instance labels.
#[local] Existing Instance plain_range.

(** Storing without compressing. *)
Definition plain_gzip : Gzip := {| compress := id; decompress := Some; decompress_compress := fun _ => eq_refl |}.

Lemma snapshot_file_round_trip_witness :
  Restore (H := plain_gzip) (Encode (H := plain_gzip) (snap Shop.moved)) = Some (snap Shop.moved).
Proof.
  apply (snapshot_file_round_trip (H1 := plain_gzip) [] Shop.moved Shop.objects).
  - exact Shop.moved_told.
  - vm_compute; reflexivity.
  - apply Shop.closedb_closed. vm_compute; reflexivity.
  - apply (bool_decide_unpack _). vm_compute. exact I.
  - vm_compute; reflexivity.
  - vm_compute; reflexivity.
Defined.

(** The writer can publish a snapshot that its own reader refuses. An update that
    replaces an object's last edge to an unobserved node by another edge to the same
    node drops the old edge first, which garbage collects the node, and then adds the new edge
    without the node. The published edge ends in no node, and [Restore] of the encoded
    snapshot is an error, whatever the compression. *)
Theorem dangling_snapshot_unreadable `{Gzip} :
  told [] Shop.replaced (after_deltas [mkDelta OpUpdate Shop.placed false] (after_deltas [mkDelta OpAdd Shop.owned false] ∅)) /\
  exists s, wr_snap Shop.replaced = Some s /\ ~ closed s /\ Restore (Encode s) = None.
Proof.
  split; [exact Shop.replaced_told|]. exists (snap Shop.replaced). split; [vm_compute; reflexivity|]. split.
  - intros Hc. destruct (Hc 1 (mkEdge 3 EdgeRunsOn)) as [_ [? Hn]]; [|vm_compute in Hn; discriminate].
    apply (bool_decide_unpack _); vm_compute; exact I.
  - unfold Restore, Encode. cbn [app snapshotMagic]. rewrite bool_decide_eq_true_2 by done. cbn [negb].
    change (negb (SnapshotFormatVersion =? snapshotFormatV1) && negb (SnapshotFormatVersion =? SnapshotFormatVersion)) with false.
    cbn iota. rewrite decompress_compress.
    assert (d_body SnapshotFormatVersion (body_bytes (snap Shop.replaced)) = None) as ->; [vm_compute; reflexivity|done].
Qed.
End Saved.
