(* ===== verification/LeewayTopology.v ===== *)
(** Where a subject's objects are (src/pkg/leeway/topology.go, placement.go): domains,
    subjects, the per-domain counts of a distribution, and the delta arithmetic on it.

    Counters grow and shrink by one per event and are unbounded integers here. *)
From S2P Require Import Prelude GoStrings.
From stdpp Require Import sorting.
From Stdlib Require Import Ascii.
Open Scope Z_scope.
Open Scope lookout_scope.

Notation TopologyKey := string (only parsing).
Notation Domain := string (only parsing).
Notation SubjectKind := string (only parsing).

Definition DomainUnknown : Domain := "__unknown__".

Definition SubjectDeployment : SubjectKind := "Deployment".
Definition SubjectStatefulSet : SubjectKind := "StatefulSet".
Definition SubjectDaemonSet : SubjectKind := "DaemonSet".
Definition SubjectJob : SubjectKind := "Job".
Definition SubjectNodeGroup : SubjectKind := "NodeGroup".
Definition SubjectCustom : SubjectKind := "Custom".
Definition SubjectDomain : SubjectKind := "Domain".
Definition SubjectPreferenceAxis : SubjectKind := "PreferenceAxis".

(** ** Subjects *)

Record SubjectRef := mkSubject { sr_Kind : SubjectKind; sr_Namespace : string; sr_Name : string }.

#[global] Instance SubjectRef_eq_dec : EqDecision SubjectRef.
Proof. solve_decision. Defined.
#[global] Program Instance SubjectRef_countable : Countable SubjectRef :=
  inj_countable' (fun s => (sr_Kind s, sr_Namespace s, sr_Name s)) (fun '(k, ns, n) => mkSubject k ns n) _.
Next Obligation. by intros []. Qed.

Definition zero_subject : SubjectRef := mkSubject "" "" "".

Definition SubjectRef_String (s : SubjectRef) : string :=
  if sr_Namespace s ==s "" then sr_Kind s +:+ "/" +:+ sr_Name s
  else sr_Kind s +:+ "/" +:+ sr_Namespace s +:+ "/" +:+ sr_Name s.

Definition ParseSubjectRef (s : string) : option SubjectRef :=
  match SplitByte "/" s with
  | [kind; name] =>
      if (kind ==s "") || (name ==s "") then None else Some (mkSubject kind "" name)
  | [kind; ns; name] =>
      if (kind ==s "") || (ns ==s "") || (name ==s "") then None else Some (mkSubject kind ns name)
  | _ => None
  end.

(** A Kubernetes kind, namespace or name: no slash. *)
Definition segment (s : string) : Prop := contains_byte "/" s = false.

(** A rendered subject reads back as the subject it was. *)
Lemma parse_subject_string s : segment (sr_Kind s) -> segment (sr_Namespace s) -> segment (sr_Name s) ->
  sr_Kind s <> "" -> sr_Name s <> "" -> ParseSubjectRef (SubjectRef_String s) = Some s.
Proof.
  destruct s as [k ns n]. cbn [sr_Kind sr_Namespace sr_Name]. intros Hk Hns Hn Hk0 Hn0. unfold ParseSubjectRef, SubjectRef_String. cbn [sr_Kind sr_Namespace sr_Name].
  case_bool_decide as E.
  - subst ns. change (k +:+ "/" +:+ n) with (k +:+ String "/" n). rewrite SplitByte_app, SplitByte_one by done. by rewrite !bool_decide_eq_false_2.
  - change (k +:+ "/" +:+ ns +:+ "/" +:+ n) with (k +:+ String "/" (ns +:+ String "/" n)).
    rewrite !SplitByte_app, SplitByte_one by done. by rewrite !bool_decide_eq_false_2.
Qed.

(** ** Counts *)

Inductive CountState := StateRunning | StatePending | StateUnschedulable | StateTerminating.

#[global] Instance CountState_eq_dec : EqDecision CountState.
Proof. solve_decision. Defined.

Record DomainCount := mkCount {
  dc_Running : Z; dc_Pending : Z; dc_Unschedulable : Z; dc_Terminating : Z; dc_Pinned : Z
}.

#[global] Instance DomainCount_eq_dec : EqDecision DomainCount.
Proof. solve_decision. Defined.

Definition zero_count : DomainCount := mkCount 0 0 0 0 0.

(** The counter of a state moved by [by_], and the pinned counter with it. *)
Definition bump_count (by_ : Z) (state : CountState) (pinned : bool) (d : DomainCount) : DomainCount :=
  let '(mkCount r p u t pin) := d in
  let pin := if pinned then pin + by_ else pin in
  match state with
  | StateRunning => mkCount (r + by_) p u t pin
  | StatePending => mkCount r (p + by_) u t pin
  | StateUnschedulable => mkCount r p (u + by_) t pin
  | StateTerminating => mkCount r p u (t + by_) pin
  end.

Definition DomainCount_Add : CountState -> bool -> DomainCount -> DomainCount := bump_count 1.
Definition DomainCount_Sub : CountState -> bool -> DomainCount -> DomainCount := bump_count (-1).

Definition DomainCount_Total (d : DomainCount) : Z :=
  dc_Running d + dc_Pending d + dc_Unschedulable d + dc_Terminating d.

Definition DomainCount_IsZero (d : DomainCount) : bool := bool_decide (d = zero_count).

Record Distribution := mkDist { ByDomain : gmap Domain DomainCount; dist_Total : Z }.

#[global] Instance Distribution_eq_dec : EqDecision Distribution.
Proof. solve_decision. Defined.

Definition NewDistribution : Distribution := mkDist ∅ 0.

Definition NormaliseDomain (d : Domain) : Domain := if d ==s "" then DomainUnknown else d.

Definition Distribution_Add (domain : Domain) (state : CountState) (pinned : bool) (d : Distribution) : Distribution :=
  let domain := NormaliseDomain domain in
  let c := default zero_count (ByDomain d !! domain) in
  mkDist (<[domain := DomainCount_Add state pinned c]> (ByDomain d)) (dist_Total d + 1).

Definition Distribution_Remove (domain : Domain) (state : CountState) (pinned : bool) (d : Distribution) : Distribution :=
  let domain := NormaliseDomain domain in
  match ByDomain d !! domain with
  | None => d
  | Some c =>
      let c := DomainCount_Sub state pinned c in
      mkDist (if DomainCount_IsZero c then delete domain (ByDomain d) else <[domain := c]> (ByDomain d))
             (dist_Total d - 1)
  end.

(** Value equality: the totals, the number of domains, and the count of each. *)
Definition Distribution_Equal (d other : Distribution) : bool :=
  (dist_Total d =? dist_Total other) && (size (ByDomain d) =? size (ByDomain other))%nat &&
  forallb (fun '(dom, c) => bool_decide (ByDomain other !! dom = Some c)) (map_to_list (ByDomain d)).

Definition count_of (c : DomainCount) (s : CountState) : Z :=
  match s with
  | StateRunning => dc_Running c
  | StatePending => dc_Pending c
  | StateUnschedulable => dc_Unschedulable c
  | StateTerminating => dc_Terminating c
  end.

Definition sum_Z (l : list Z) : Z := foldr Z.add 0 l.

Definition Counts (d : Distribution) (domains : list Domain) (states : list CountState) : list Z :=
  (fun dom => match ByDomain d !! dom with Some c => sum_Z (count_of c <$> states) | None => 0 end) <$> domains.

(** ** Placements *)

Record Placement := mkPlacement {
  pl_NodeName : string; pl_Domains : list Domain; pl_State : CountState; pl_Pinned : bool
}.

#[global] Instance Placement_eq_dec : EqDecision Placement.
Proof. solve_decision. Defined.

Definition zero_placement : Placement := mkPlacement "" [] StateRunning false.

Definition Placement_Domain (p : Placement) (ordinal : nat) : Domain := default DomainUnknown (pl_Domains p !! ordinal).

Definition Placement_Equal (p other : Placement) : bool :=
  (pl_NodeName p ==s pl_NodeName other) && bool_decide (pl_State p = pl_State other) &&
  bool_decide (pl_Pinned p = pl_Pinned other) && bool_decide (pl_Domains p = pl_Domains other).

Lemma Placement_Equal_eq p q : Placement_Equal p q = true <-> p = q.
Proof.
  destruct p, q. unfold Placement_Equal. cbn. split; [intros; btrue; congruence|]. intros [= -> -> -> ->].
  by rewrite !bool_decide_eq_true_2.
Qed.

Lemma Distribution_Equal_eq d d' : Distribution_Equal d d' = true <-> d = d'.
Proof.
  split.
  - destruct d as [m t], d' as [m' t']. unfold Distribution_Equal. cbn. intros [[->%Z.eqb_eq Hs%Nat.eqb_eq]%andb_prop Hall]%andb_prop. f_equal. rewrite forallb_forall in Hall.
    apply map_subseteq_size_eq; [|lia]. apply map_subseteq_spec. intros dom c Hc%elem_of_map_to_list%list_elem_of_In%Hall.
    by btrue.
  - intros ->. unfold Distribution_Equal. rewrite Z.eqb_refl, Nat.eqb_refl. cbn. apply forallb_forall.
    intros [dom c] Hc%list_elem_of_In%elem_of_map_to_list. by rewrite bool_decide_eq_true_2.
Qed.

(** ** The distribution of a collection of objects *)

(** One counted object. *)
Notation tally := (Domain * CountState * bool)%type (only parsing).

Definition dist_add (x : tally) (d : Distribution) : Distribution := Distribution_Add x.1.1 x.1.2 x.2 d.
Definition dist_remove (x : tally) (d : Distribution) : Distribution := Distribution_Remove x.1.1 x.1.2 x.2 d.

(** What counting a collection from nothing gives. *)
Definition dist_of (l : list tally) : Distribution := foldr dist_add NewDistribution l.

(** No negative counter, and no row that counts nothing. *)
Definition count_ok (c : DomainCount) : Prop :=
  0 <= dc_Running c /\ 0 <= dc_Pending c /\ 0 <= dc_Unschedulable c /\ 0 <= dc_Terminating c /\ 0 <= dc_Pinned c.

Definition dist_ok (d : Distribution) : Prop := forall dom c, ByDomain d !! dom = Some c -> count_ok c /\ c <> zero_count.

Lemma add_count_ok st pin c : count_ok c -> count_ok (DomainCount_Add st pin c) /\ DomainCount_Add st pin c <> zero_count.
Proof.
  destruct c. unfold count_ok, zero_count, DomainCount_Add, bump_count. cbn. intros. destruct st, pin; cbn; (split; [lia|]); intros [=]; lia.
Qed.

Lemma sub_add_count st pin c : DomainCount_Sub st pin (DomainCount_Add st pin c) = c.
Proof. destruct c. unfold DomainCount_Sub, DomainCount_Add, bump_count. destruct st, pin; cbn; f_equal; lia. Qed.

Lemma add_count_comm st pin st' pin' c :
  DomainCount_Add st pin (DomainCount_Add st' pin' c) = DomainCount_Add st' pin' (DomainCount_Add st pin c).
Proof. destruct c. unfold DomainCount_Add, bump_count. destruct st, pin, st', pin'; cbn; f_equal; lia. Qed.

Lemma dist_add_ok x d : dist_ok d -> dist_ok (dist_add x d).
Proof.
  intros Hd dom c. unfold dist_add, Distribution_Add. cbn. rewrite lookup_insert_Some. intros [[_ <-]|[_ Hc]]; [|by apply (Hd dom)].
  apply add_count_ok. destruct (ByDomain d !! NormaliseDomain x.1.1) as [c|] eqn:E; [by apply Hd in E as []|].
  unfold count_ok. cbn. lia.
Qed.

Lemma dist_of_ok l : dist_ok (dist_of l).
Proof. induction l as [|x l IH]; [intros dom c; cbn; by rewrite lookup_empty|]. cbn. by apply dist_add_ok. Qed.

(** Removing undoes adding. *)
Lemma remove_add x d : dist_ok d -> dist_remove x (dist_add x d) = d.
Proof.
  destruct x as [[dom st] pin], d as [m t]. intros Hd. unfold dist_remove, dist_add, Distribution_Remove, Distribution_Add. cbn.
  rewrite lookup_insert_eq. rewrite sub_add_count. unfold DomainCount_IsZero. f_equal; [|lia].
  destruct (m !! NormaliseDomain dom) as [c|] eqn:E; cbn.
  - rewrite bool_decide_eq_false_2 by by apply (Hd (NormaliseDomain dom) c). rewrite insert_insert_eq. by apply insert_id.
  - rewrite bool_decide_eq_true_2 by done. by apply delete_insert_id.
Qed.

Lemma dist_add_comm x y d : dist_add x (dist_add y d) = dist_add y (dist_add x d).
Proof.
  destruct x as [[dx sx] px], y as [[dy sy] py], d as [m t]. unfold dist_add, Distribution_Add. cbn. f_equal.
  destruct (decide (NormaliseDomain dx = NormaliseDomain dy)) as [->|Hne].
  - rewrite !lookup_insert_eq, !insert_insert_eq. cbn. by rewrite add_count_comm.
  - rewrite !lookup_insert_ne by done. by rewrite insert_insert_ne.
Qed.

#[global] Instance dist_of_perm : Proper ((≡ₚ) ==> (=)) dist_of.
Proof.
  induction 1 as [|x l l' _ IH|x y l|l l' l'' _ IH1 _ IH2]; [done|exact (f_equal (dist_add x) IH)|apply dist_add_comm|congruence].
Qed.

Lemma remove_dist_of x l : dist_remove x (dist_of (x :: l)) = dist_of l.
Proof. cbn. apply remove_add, dist_of_ok. Qed.

Lemma dist_of_total l : dist_Total (dist_of l) = Z.of_nat (length l).
Proof. induction l as [|x l IH]; [done|]. cbn [dist_of foldr length]. fold (dist_of l). unfold dist_add, Distribution_Add. cbn. rewrite IH. lia. Qed.

(** How many objects of a state a distribution counts in a domain. *)
Definition counted_in (d : Distribution) (dom : Domain) (st : CountState) : Z :=
  match ByDomain d !! dom with Some c => count_of c st | None => 0 end.

Lemma count_of_add st pin st' c : count_of (DomainCount_Add st pin c) st' = count_of c st' + if decide (st = st') then 1 else 0.
Proof. destruct c, st, st'; case_decide; try done; cbn; lia. Qed.

Lemma counted_in_add dom st pin d dom' st' :
  counted_in (Distribution_Add dom st pin d) dom' st' = counted_in d dom' st' + if decide (NormaliseDomain dom = dom' /\ st = st') then 1 else 0.
Proof.
  unfold counted_in, Distribution_Add. cbn [ByDomain]. destruct (decide (NormaliseDomain dom = dom')) as [<-|Hne].
  - rewrite lookup_insert_eq, count_of_add. destruct (ByDomain d !! NormaliseDomain dom) as [c|]; cbn [default from_option id];
      destruct (decide (st = st')) as [->|Hs]; try rewrite decide_True by done; try (rewrite decide_False by naive_solver); try done; by destruct st'.
  - rewrite lookup_insert_ne by done. rewrite decide_False by naive_solver. lia.
Qed.

(** A distribution counted from nothing counts each of its objects once. *)
Lemma counted_in_dist_of l dom st :
  counted_in (dist_of l) dom st = Z.of_nat (length (List.filter (fun x => (NormaliseDomain x.1.1 ==s dom) && bool_decide (x.1.2 = st)) l)).
Proof.
  induction l as [|[[d s] p] l IH]; [done|]. cbn [dist_of foldr]. fold (dist_of l). unfold dist_add. cbn [fst snd]. rewrite counted_in_add, IH. cbn.
  destruct (decide (NormaliseDomain d = dom /\ s = st)) as [[-> ->]|Hn].
  - rewrite !bool_decide_eq_true_2 by done. cbn. lia.
  - destruct (_ && _) eqn:Eb; [|cbn; lia]. btrue. naive_solver.
Qed.
