(* ===== verification/DriftInventory.v ===== *)
(** The node inventory of the placement source (src/pkg/sources/topologydrift:
    inventory.go, intern.go, nodegroup.go): which domain a node is in on each topology
    axis, and the per-domain aggregates.

    A node is k8s.io/api's Node with the fields the inventory reads; its two allocatable
    quantities are the integers [MilliValue] and [Value] give. The sums of the aggregates
    are unbounded integers. The lock of the inventory makes a method one step, and the
    clock is the argument [now]. *)
From S2P Require Import Prelude GoTime GoStrings GoFmt LeewayTopology.
From stdpp Require Import sorting.
From Stdlib Require Import Ascii.
Open Scope Z_scope.
Open Scope lookout_scope.

(** ** Interning *)

Record interner := mkInterner {
  it_names : gmap string string; it_domains : gmap Domain Domain; it_tuples : gmap string (list Domain)
}.

Definition newInterner : interner := mkInterner ∅ ∅ ∅.

Definition intern_name (s : string) (i : interner) : string * interner :=
  if s ==s "" then ("", i)
  else match it_names i !! s with
       | Some got => (got, i)
       | None => (s, i <| it_names ::= <[s := s]> |>)
       end.

Definition intern_domain (d : Domain) (i : interner) : Domain * interner :=
  if d ==s "" then ("", i)
  else match it_domains i !! d with
       | Some got => (got, i)
       | None => (d, i <| it_domains ::= <[d := d]> |>)
       end.

Fixpoint intern_domains (l : list Domain) (i : interner) : list Domain * interner :=
  match l with
  | [] => ([], i)
  | d :: l =>
      let '(d, i) := intern_domain d i in
      let '(l, i) := intern_domains l i in
      (d :: l, i)
  end.

Definition NUL : string := String (byte_of 0) "".

Definition tuple_key (domains : list Domain) : string := String.concat NUL domains.

(** [nil] is the empty tuple. *)
Definition intern_tuple (domains : list Domain) (i : interner) : list Domain * interner :=
  match domains with
  | [] => ([], i)
  | _ =>
      match it_tuples i !! tuple_key domains with
      | Some got => (got, i)
      | None =>
          let '(canonical, i) := intern_domains domains i in
          (canonical, i <| it_tuples ::= <[tuple_key domains := canonical]> |>)
      end
  end.

Definition forget (s : string) (i : interner) : interner := i <| it_names ::= delete s |>.

(** ** Nodes *)

Record Taint := mkTaint { tn_Key : string; tn_Value : string; tn_Effect : string; tn_TimeAdded : option Time }.

#[global] Instance Taint_eq_dec : EqDecision Taint.
Proof. solve_decision. Defined.

Record Node := mkNode {
  nd_Name : string; nd_Labels : gmap string string; nd_Unschedulable : bool; nd_Taints : list Taint;
  nd_Conditions : list (string * string); nd_CPU : option Z; nd_Mem : option Z
}.

Record nodeFacts := mkFacts {
  nf_name : string; nf_domains : list Domain; nf_ready : bool; nf_schedulable : bool; nf_taints : list Taint;
  nf_labels : gmap string string; nf_cpuMilli : Z; nf_memBytes : Z;
  nf_cordonedAt : Time; nf_uncordonedAt : Time; nf_disruptedAt : Time
}.

Record DomainStats := mkStats {
  st_Nodes : Z; st_Usable : Z; st_Ready : Z; st_AllocatableCPUMilli : Z; st_AllocatableMemBytes : Z
}.

Definition zero_stats : DomainStats := mkStats 0 0 0 0 0.

Record ReadyCount := mkReady { rc_At : Time; rc_Ready : Z }.

Record Change := mkChange { ch_Added : bool; ch_Removed : bool; ch_DomainsChanged : bool; ch_EligibilityChanged : bool }.

Definition no_change : Change := mkChange false false false false.

Definition Any (c : Change) : bool := ch_Added c || ch_Removed c || ch_DomainsChanged c || ch_EligibilityChanged c.

(** The per-axis tables are indexed by the ordinal of the key. *)
Record Inventory := mkInventory {
  iv_keys : list TopologyKey; iv_intern : interner; iv_nodes : gmap string nodeFacts;
  iv_stats : list (gmap Domain DomainStats); iv_ready : list (gmap Domain (list ReadyCount));
  iv_consol : list (gmap Domain Time); iv_gen : Z
}.

Definition add_key (keys : list TopologyKey) (k : TopologyKey) : list TopologyKey :=
  if (k ==s "") || bool_decide (k ∈ keys) then keys else keys ++ [k].

Definition NewInventory (keys : list TopologyKey) : Inventory :=
  let keys := foldl add_key [] keys in
  mkInventory keys newInterner ∅ ((fun _ => ∅) <$> keys) ((fun _ => ∅) <$> keys) ((fun _ => ∅) <$> keys) 1.

Definition Ordinal (inv : Inventory) (key : TopologyKey) : option nat := fst <$> list_find (fun k => k = key) (iv_keys inv).

Definition LabelTopologyZone : string := "topology.kubernetes.io/zone".
Definition LabelTopologyRegion : string := "topology.kubernetes.io/region".
Definition LabelFailureDomainBetaZone : string := "failure-domain.beta.kubernetes.io/zone".
Definition LabelFailureDomainBetaRegion : string := "failure-domain.beta.kubernetes.io/region".

Definition betaFallback (key : TopologyKey) : option string :=
  if key ==s LabelTopologyZone then Some LabelFailureDomainBetaZone
  else if key ==s LabelTopologyRegion then Some LabelFailureDomainBetaRegion
  else None.

Definition label (labels : gmap string string) (k : string) : string := default "" (labels !! k).

Definition topologyValue (labels : gmap string string) (key : TopologyKey) : string :=
  if label labels key <>s "" then label labels key
  else match betaFallback key with
       | Some beta => label labels beta
       | None => ""
       end.

Definition NodeReady : string := "Ready".
Definition ConditionTrue : string := "True".

Definition facts_of_node (keys : list TopologyKey) (name : string) (domains : list Domain) (node : Node) : nodeFacts :=
  mkFacts name domains
    (match list_find (fun c => c.1 = NodeReady) (nd_Conditions node) with
     | Some (_, c) => c.2 ==s ConditionTrue
     | None => false
     end)
    (negb (nd_Unschedulable node)) (nd_Taints node) (nd_Labels node)
    (default 0 (nd_CPU node)) (default 0 (nd_Mem node)) zero_time zero_time zero_time.

Definition node_domains (keys : list TopologyKey) (node : Node) : list Domain :=
  (fun key => NormaliseDomain (topologyValue (nd_Labels node) key)) <$> keys.

Definition factsOf (node : Node) (inv : Inventory) : nodeFacts * Inventory :=
  let '(name, i) := intern_name (nd_Name node) (iv_intern inv) in
  let '(domains, i) := intern_tuple (node_domains (iv_keys inv) node) i in
  (facts_of_node (iv_keys inv) name domains node, inv <| iv_intern := i |>).

Definition facts_domain (n : nodeFacts) (ordinal : nat) : Domain := default DomainUnknown (nf_domains n !! ordinal).

(** ** The aggregates *)

Definition Z_of_bool (b : bool) : Z := if b then 1 else 0.

Definition fold_stats (n : nodeFacts) (sign : Z) (s : DomainStats) : DomainStats :=
  let usable := Z_of_bool (nf_ready n && nf_schedulable n) in
  mkStats (st_Nodes s + sign) (st_Usable s + sign * usable) (st_Ready s + sign * Z_of_bool (nf_ready n))
    (st_AllocatableCPUMilli s + sign * (usable * nf_cpuMilli n))
    (st_AllocatableMemBytes s + sign * (usable * nf_memBytes n)).

Definition stats_row (n : nodeFacts) (sign : Z) (ordinal : nat) (row : gmap Domain DomainStats) : gmap Domain DomainStats :=
  let d := facts_domain n ordinal in
  let put s := let s := fold_stats n sign s in if st_Nodes s <=? 0 then delete d row else <[d := s]> row in
  match row !! d with
  | Some s => put s
  | None => if sign <? 0 then row else put zero_stats
  end.

Definition addStats (n : nodeFacts) (sign : Z) (inv : Inventory) : Inventory :=
  inv <| iv_stats ::= imap (stats_row n sign) |>.

(** ** When a node was cordoned, handed back, claimed *)

Definition TaintNodeUnschedulable : string := "node.kubernetes.io/unschedulable".

Definition taintTime (taints : list Taint) : option Time :=
  match list_find (fun t => tn_Key t = TaintNodeUnschedulable /\ tn_TimeAdded t <> None) taints with
  | Some (_, t) => tn_TimeAdded t
  | None => None
  end.

Definition cordonTime (prev : option nodeFacts) (next : nodeFacts) (now : Time) : Time :=
  let prior := match prev with Some p => nf_cordonedAt p | None => zero_time end in
  if nf_schedulable next then prior
  else match taintTime (nf_taints next) with
       | Some t => t
       | None =>
           match prev with
           | None => zero_time
           | Some p => if negb (nf_schedulable p) then prior else now
           end
       end.

Definition uncordonTime (prev : option nodeFacts) (next : nodeFacts) (now : Time) : Time :=
  match prev with
  | None => zero_time
  | Some p =>
      if negb (nf_schedulable next) then zero_time
      else if negb (nf_schedulable p) then now else nf_uncordonedAt p
  end.

Definition disruptionTaints : list string :=
  ["ToBeDeletedByClusterAutoscaler"; "karpenter.sh/disrupted"; "karpenter.sh/disruption"].

Definition disruptionTaint (taints : list Taint) : option Taint :=
  snd <$> list_find (fun t => tn_Key t ∈ disruptionTaints) taints.

(** The Unix epoch in nanoseconds since the zero [Time]. *)
Definition unix_epoch : Time := 62135596800 * Second.

Definition autoscalerDeletionValue (t : Taint) : option Time :=
  match ParseInt (tn_Value t) with
  | Some secs => if secs <=? 0 then None else Some (unix_epoch + secs * Second)
  | None => None
  end.

Definition disruptionTime (prev : option nodeFacts) (next : nodeFacts) (now : Time) : Time :=
  match disruptionTaint (nf_taints next) with
  | None => zero_time
  | Some t =>
      match tn_TimeAdded t, autoscalerDeletionValue t with
      | Some at_, _ => at_
      | None, Some at_ => at_
      | None, None =>
          match prev with
          | None => zero_time
          | Some p => match disruptionTaint (nf_taints p) with Some _ => nf_disruptedAt p | None => now end
          end
      end
  end.

Definition taintsEqual (a b : list Taint) : bool :=
  bool_decide ((fun t => (tn_Key t, tn_Value t, tn_Effect t)) <$> a = (fun t => (tn_Key t, tn_Value t, tn_Effect t)) <$> b).

Definition consol_row (n : nodeFacts) (ordinal : nat) (row : gmap Domain Time) : gmap Domain Time :=
  match nf_domains n !! ordinal with
  | None => row
  | Some d => if After (default zero_time (row !! d)) (nf_disruptedAt n) then row else <[d := nf_disruptedAt n]> row
  end.

Definition recordConsolidation (n : nodeFacts) (inv : Inventory) : Inventory :=
  if IsZero (nf_disruptedAt n) then inv else inv <| iv_consol ::= imap (consol_row n) |>.

(** ** Operations *)

Definition dated (prev : option nodeFacts) (now : Time) (next : nodeFacts) : nodeFacts :=
  next <| nf_cordonedAt := cordonTime prev next now |> <| nf_uncordonedAt := uncordonTime prev next now |>
       <| nf_disruptedAt := disruptionTime prev next now |>.

Definition facts_change (prev next : nodeFacts) : Change :=
  mkChange false false (negb (bool_decide (nf_domains prev = nf_domains next)))
    (negb (bool_decide (nf_ready prev = nf_ready next)) || negb (bool_decide (nf_schedulable prev = nf_schedulable next))
     || negb (nf_cpuMilli prev =? nf_cpuMilli next) || negb (nf_memBytes prev =? nf_memBytes next)
     || negb (taintsEqual (nf_taints prev) (nf_taints next)) || negb (bool_decide (nf_labels prev = nf_labels next))).

Definition Upsert (now : Time) (node : Node) (inv : Inventory) : Inventory * Change :=
  if nd_Name node ==s "" then (inv, no_change)
  else
    let '(next, inv) := factsOf node inv in
    match iv_nodes inv !! nf_name next with
    | None =>
        let next := dated None now next in
        ((addStats next 1 (inv <| iv_nodes ::= <[nf_name next := next]> |>)) <| iv_gen ::= Z.succ |>,
         mkChange true false true true)
    | Some prev =>
        let next := dated (Some prev) now next in
        let ch := facts_change prev next in
        if negb (Any ch) then (inv, ch)
        else
          let inv := addStats prev (-1) inv in
          let inv := inv <| iv_nodes ::= <[nf_name next := next]> |> in
          ((addStats next 1 inv) <| iv_gen ::= Z.succ |>, ch)
    end.

Definition Remove (name : string) (inv : Inventory) : Inventory * Change :=
  match iv_nodes inv !! name with
  | None => (inv, no_change)
  | Some prev =>
      let inv := addStats prev (-1) (recordConsolidation prev inv) in
      (inv <| iv_nodes ::= delete name |> <| iv_intern ::= forget (nf_name prev) |> <| iv_gen ::= Z.succ |>,
       mkChange false true true true)
  end.

(** [nil] is the empty tuple. *)
Definition DomainsOf (inv : Inventory) (nodeName : string) : list Domain :=
  match iv_nodes inv !! nodeName with Some n => nf_domains n | None => [] end.

Definition unknowns (keys : list TopologyKey) : list Domain := (fun _ => DomainUnknown) <$> keys.

Definition UnknownTuple (inv : Inventory) : list Domain * Inventory :=
  let '(t, i) := intern_tuple (unknowns (iv_keys inv)) (iv_intern inv) in (t, inv <| iv_intern := i |>).

Definition Stats (inv : Inventory) (key : TopologyKey) : option (gmap Domain DomainStats) :=
  ordinal ← Ordinal inv key; iv_stats inv !! ordinal.

(** ** Histories *)

Definition DefaultReadyRetention : Duration := 30 * Minute.

Fixpoint pruneReady (h : list ReadyCount) (cutoff : Time) : list ReadyCount :=
  match h with
  | x :: h' => if negb (After (rc_At x) cutoff) then pruneReady h' cutoff else h
  | [] => []
  end.

Definition sample_axis (now cutoff : Time) (stats : gmap Domain DomainStats) (hist : gmap Domain (list ReadyCount))
  : gmap Domain (list ReadyCount) :=
  merge (fun s h =>
    match s with
    | Some s => Some (pruneReady (default [] h) cutoff ++ [mkReady now (st_Ready s)])
    | None => match pruneReady (default [] h) cutoff with [] => None | h => Some h end
    end) stats hist.

Definition SampleReady (now : Time) (retain : Duration) (inv : Inventory) : Inventory :=
  let retain := if retain <=? 0 then DefaultReadyRetention else retain in
  inv <| iv_ready := zip_with (sample_axis now (now - retain)) (iv_stats inv) (iv_ready inv) |>.

Definition ReadyHistory (inv : Inventory) (key : TopologyKey) (d : Domain) : list ReadyCount :=
  match Ordinal inv key with
  | None => []
  | Some ordinal => default [] (iv_ready inv !! ordinal ≫= fun hist => hist !! d)
  end.

Definition LastDrainIn (inv : Inventory) (key : TopologyKey) (domains : list Domain) : Time :=
  match Ordinal inv key with
  | None => zero_time
  | Some ordinal =>
      foldr (fun n last =>
        if IsZero (nf_cordonedAt n) || negb (bool_decide (facts_domain n ordinal ∈ domains)) then last
        else if After (nf_cordonedAt n) last then nf_cordonedAt n else last)
        zero_time (map_to_list (iv_nodes inv)).*2
  end.

Definition drain_counts (since until : Time) (n : nodeFacts) : bool :=
  negb (IsZero (nf_cordonedAt n)) &&
  negb (nf_schedulable n && negb (IsZero since) && Before (nf_uncordonedAt n) since) &&
  negb (negb (IsZero until) && After (nf_cordonedAt n) until).

Definition DrainTimes (inv : Inventory) (key : TopologyKey) (domains : list Domain) (since until : Time) : gmap Domain Time :=
  match Ordinal inv key with
  | None => ∅
  | Some ordinal =>
      foldr (fun n out =>
        let d := facts_domain n ordinal in
        if drain_counts since until n && bool_decide (d ∈ domains) && After (nf_cordonedAt n) (default zero_time (out !! d))
        then <[d := nf_cordonedAt n]> out else out)
        ∅ (map_to_list (iv_nodes inv)).*2
  end.

Definition PruneConsolidations (now : Time) (retain : Duration) (inv : Inventory) : Inventory :=
  if retain <=? 0 then inv
  else inv <| iv_consol ::= fmap (filter (fun x => After x.2 (now - retain) = true)) |>.

Definition ConsolidationTimes (inv : Inventory) (key : TopologyKey) (domains : list Domain) : gmap Domain Time :=
  match Ordinal inv key ≫= fun ordinal => iv_consol inv !! ordinal with
  | None => ∅
  | Some row => filter (fun x => x.1 ∈ domains) row
  end.

(** ** Node groups *)

Fixpoint nodeGroupOf (labels : gmap string string) (keys : list string) : option string :=
  match keys with
  | [] => None
  | key :: keys => if label labels key <>s "" then Some (label labels key) else nodeGroupOf labels keys
  end.

Definition group_node (keys : list TopologyKey) (n : nodeFacts) (byKey : gmap TopologyKey Distribution)
  : gmap TopologyKey Distribution :=
  let state := if nf_ready n && nf_schedulable n then StateRunning else StateUnschedulable in
  foldl (fun m '(ordinal, key) =>
    <[key := Distribution_Add (facts_domain n ordinal) state false (default NewDistribution (m !! key))]> m)
    byKey (imap pair keys).

Definition NodeGroups (labelKeys : list string) (inv : Inventory) : gmap string (gmap TopologyKey Distribution) :=
  foldr (fun n out =>
    match nodeGroupOf (nf_labels n) labelKeys with
    | None => out
    | Some group => <[group := group_node (iv_keys inv) n (default ∅ (out !! group))]> out
    end) ∅ (map_to_list (iv_nodes inv)).*2.

(** ** Interning returns what it is given *)

(** A Kubernetes label value holds no NUL. *)
Definition clean (s : string) : Prop := contains_byte (byte_of 0) s = false.

Record intern_ok (i : interner) : Prop := {
  ik_names : forall s t, it_names i !! s = Some t -> t = s;
  ik_domains : forall s t, it_domains i !! s = Some t -> t = s;
  ik_tuples : forall k t, it_tuples i !! k = Some t -> tuple_key t = k /\ Forall clean t /\ t <> []
}.

Lemma newInterner_ok : intern_ok newInterner.
Proof. by split; intros ? ?; cbn; rewrite lookup_empty. Qed.

Lemma tuple_key_inj a b : Forall clean a -> Forall clean b -> a <> [] -> b <> [] -> tuple_key a = tuple_key b -> a = b.
Proof. intros Ha Hb Ha0 Hb0 He. rewrite <- (SplitByte_concat (byte_of 0) a), <- (SplitByte_concat (byte_of 0) b) by done. unfold tuple_key, NUL in He. by rewrite He. Qed.

Lemma intern_name_same s i : intern_ok i -> (intern_name s i).1 = s /\ intern_ok (intern_name s i).2.
Proof.
  intros Hi. unfold intern_name. case_bool_decide as Hs; [by subst|]. destruct (it_names i !! s) as [t|] eqn:E.
  - by apply (ik_names _ Hi) in E as ->.
  - split; [done|]. destruct Hi as [H1 H2 H3]. split; [|done|done]. cbn. intros s' t [[-> ->]|[_ Ht]]%lookup_insert_Some; [done|by apply H1].
Qed.

Lemma intern_domain_same d i : intern_ok i -> (intern_domain d i).1 = d /\ intern_ok (intern_domain d i).2.
Proof.
  intros Hi. unfold intern_domain. case_bool_decide as Hs; [by subst|]. destruct (it_domains i !! d) as [t|] eqn:E.
  - by apply (ik_domains _ Hi) in E as ->.
  - split; [done|]. destruct Hi as [H1 H2 H3]. split; [done| |done]. cbn. intros s' t [[-> ->]|[_ Ht]]%lookup_insert_Some; [done|by apply H2].
Qed.

Lemma intern_domains_same l : forall i, intern_ok i -> (intern_domains l i).1 = l /\ intern_ok (intern_domains l i).2.
Proof.
  induction l as [|d l IH]; intros i Hi; [done|]. cbn. destruct (intern_domain_same d i Hi) as [Hd Hi1].
  destruct (intern_domain d i) as [d1 i1]. cbn in *. subst d1. destruct (IH i1 Hi1) as [Hl Hi2].
  destruct (intern_domains l i1) as [l2 i2]. cbn in *. by subst l2.
Qed.

Lemma intern_tuple_same l i : intern_ok i -> Forall clean l -> (intern_tuple l i).1 = l /\ intern_ok (intern_tuple l i).2.
Proof.
  intros Hi Hl. unfold intern_tuple. destruct l as [|d l]; [done|]. destruct (it_tuples i !! tuple_key (d :: l)) as [t|] eqn:E.
  - apply (ik_tuples _ Hi) in E as (Hk & Ht & Hne). split; [|done]. by apply tuple_key_inj.
  - destruct (intern_domains_same (d :: l) i Hi) as [Hs Hi1]. destruct (intern_domains (d :: l) i) as [l1 i1]. cbn [fst snd] in *. subst l1.
    split; [done|]. destruct Hi1 as [H1 H2 H3]. split; [done|done|]. cbn [it_tuples]. intros k t.
    change (it_tuples (i1 <| it_tuples ::= <[tuple_key (d :: l) := d :: l]> |>)) with (<[tuple_key (d :: l) := d :: l]> (it_tuples i1)).
    intros [[<- <-]|[_ Ht]]%lookup_insert_Some; [done|by apply H3].
Qed.

(** ** The aggregates are those of the nodes *)

Definition stats_of (l : list nodeFacts) : option DomainStats :=
  match l with [] => None | _ => Some (foldr (fun n => fold_stats n 1) zero_stats l) end.

Definition in_domain (ordinal : nat) (d : Domain) (l : list nodeFacts) : list nodeFacts :=
  List.filter (fun n => bool_decide (facts_domain n ordinal = d)) l.

Definition row_agrees (l : list nodeFacts) (ordinal : nat) (row : gmap Domain DomainStats) : Prop :=
  forall d, row !! d = stats_of (in_domain ordinal d l).

Lemma sum_stats_nodes l : st_Nodes (foldr (fun n => fold_stats n 1) zero_stats l) = Z.of_nat (length l).
Proof. induction l as [|n l IH]; [done|]. cbn [foldr length]. unfold fold_stats at 1. cbn [st_Nodes]. lia. Qed.

Lemma fold_stats_comm n n' s : fold_stats n 1 (fold_stats n' 1 s) = fold_stats n' 1 (fold_stats n 1 s).
Proof. unfold fold_stats. cbn. f_equal; lia. Qed.

Lemma fold_stats_undo n s : fold_stats n (-1) (fold_stats n 1 s) = s.
Proof. destruct s. unfold fold_stats. cbn. f_equal; lia. Qed.

#[global] Instance stats_of_perm : Proper ((≡ₚ) ==> (=)) stats_of.
Proof.
  intros l l' Hp. assert (foldr (fun n => fold_stats n 1) zero_stats l = foldr (fun n => fold_stats n 1) zero_stats l') as He.
  { induction Hp as [|x l l' _ IH|x y l|l l' l'' _ IH1 _ IH2]; cbn; [done|by rewrite IH|apply fold_stats_comm|congruence]. }
  apply Permutation_length in Hp. unfold stats_of. destruct l, l'; cbn in Hp; try lia; [done|]. by rewrite He.
Qed.

#[global] Instance in_domain_perm ordinal d : Proper ((≡ₚ) ==> (≡ₚ)) (in_domain ordinal d).
Proof. induction 1; cbn; repeat case_bool_decide; solve [done|by constructor|by etrans]. Qed.

Lemma row_agrees_perm l l' ordinal row : l ≡ₚ l' -> row_agrees l ordinal row -> row_agrees l' ordinal row.
Proof. intros Hp Hr d. by rewrite <- Hp. Qed.

Lemma stats_of_cons n l : stats_of (n :: l) = Some (fold_stats n 1 (default zero_stats (stats_of l))).
Proof. by destruct l. Qed.

Lemma in_domain_same n l ordinal d : facts_domain n ordinal = d -> in_domain ordinal d (n :: l) = n :: in_domain ordinal d l.
Proof. intros. unfold in_domain. cbn. by rewrite bool_decide_eq_true_2. Qed.

Lemma in_domain_other n l ordinal d : facts_domain n ordinal <> d -> in_domain ordinal d (n :: l) = in_domain ordinal d l.
Proof. intros. unfold in_domain. cbn. by rewrite bool_decide_eq_false_2. Qed.

Lemma stats_of_nodes l : 0 <= st_Nodes (default zero_stats (stats_of l)) /\ (st_Nodes (default zero_stats (stats_of l)) = 0 <-> stats_of l = None).
Proof.
  destruct l as [|n l]; [done|]. rewrite stats_of_cons. unfold fold_stats. cbn [default from_option st_Nodes].
  assert (default zero_stats (stats_of l) = foldr (fun n => fold_stats n 1) zero_stats l) as -> by by destruct l.
  rewrite sum_stats_nodes. unfold id. cbn [st_Nodes]. split; [lia|]. split; [lia|done].
Qed.

Lemma stats_row_add n l ordinal row : row_agrees l ordinal row -> row_agrees (n :: l) ordinal (stats_row n 1 ordinal row).
Proof.
  intros Hr d. set (dn := facts_domain n ordinal).
  assert (stats_row n 1 ordinal row = <[dn := fold_stats n 1 (default zero_stats (row !! dn))]> row) as ->.
  { unfold stats_row. fold dn. rewrite (Hr dn). destruct (stats_of_nodes (in_domain ordinal dn l)) as [Hn _].
    assert (0 < st_Nodes (fold_stats n 1 (default zero_stats (stats_of (in_domain ordinal dn l))))) as Hp by (cbn; lia).
    destruct (stats_of (in_domain ordinal dn l)) as [s|]; cbn [default from_option] in *; unfold id in *.
    - by destruct (Z.leb_spec (st_Nodes (fold_stats n 1 s)) 0); [lia|].
    - by destruct (Z.leb_spec (st_Nodes (fold_stats n 1 zero_stats)) 0); [lia|]. }
  destruct (decide (dn = d)) as [<-|Hne].
  - rewrite lookup_insert_eq. rewrite in_domain_same, stats_of_cons by done. by rewrite (Hr dn).
  - rewrite lookup_insert_ne, in_domain_other by done. apply Hr.
Qed.

Lemma stats_row_sub n l ordinal row : row_agrees (n :: l) ordinal row -> row_agrees l ordinal (stats_row n (-1) ordinal row).
Proof.
  intros Hr d. set (dn := facts_domain n ordinal). pose proof (Hr dn) as Hd. rewrite in_domain_same, stats_of_cons in Hd by done.
  destruct (stats_of_nodes (in_domain ordinal dn l)) as [Hn H0]. set (s := stats_of (in_domain ordinal dn l)) in *.
  assert (stats_row n (-1) ordinal row = match s with None => delete dn row | Some s => <[dn := s]> row end) as ->.
  { unfold stats_row. fold dn. rewrite Hd, fold_stats_undo. destruct (Z.leb_spec (st_Nodes (default zero_stats s)) 0) as [Hz|Hz].
    - by rewrite (proj1 H0) by lia.
    - destruct s; [done|]. cbn in Hz. lia. }
  destruct (decide (dn = d)) as [<-|Hne].
  - fold s. destruct s; [by rewrite lookup_insert_eq|by rewrite lookup_delete_eq].
  - rewrite <- (in_domain_other n l ordinal d Hne), <- Hr. destruct s; [by rewrite lookup_insert_ne|by rewrite lookup_delete_ne].
Qed.

(** ** The invariant of the inventory *)

Definition node_list (inv : Inventory) : list nodeFacts := (map_to_list (iv_nodes inv)).*2.

Record inv_ok (inv : Inventory) : Prop := {
  vo_keys : NoDup (iv_keys inv);
  vo_intern : intern_ok (iv_intern inv);
  vo_names : forall name n, iv_nodes inv !! name = Some n -> nf_name n = name;
  vo_length : length (iv_stats inv) = length (iv_keys inv);
  vo_stats : forall ordinal row, iv_stats inv !! ordinal = Some row -> row_agrees (node_list inv) ordinal row
}.

(** Label values as Kubernetes admits them. *)
Definition node_ok (node : Node) : Prop := forall k v, nd_Labels node !! k = Some v -> clean v.

Lemma add_key_nodup l : forall acc, NoDup acc -> NoDup (foldl add_key acc l).
Proof.
  induction l as [|k l IH]; intros acc Hacc; [done|]. cbn. apply IH. unfold add_key. destruct (_ || _) eqn:E; [done|]. btrue. by apply NoDup_snoc.
Qed.

Lemma NewInventory_ok keys : inv_ok (NewInventory keys).
Proof.
  split; cbn.
  - apply add_key_nodup. constructor.
  - apply newInterner_ok.
  - intros name n. by rewrite lookup_empty.
  - by rewrite length_fmap.
  - intros ordinal row Hr d. rewrite list_lookup_fmap in Hr. apply fmap_Some in Hr as (k & _ & ->). by rewrite lookup_empty.
Qed.

Lemma clean_label labels k : (forall k v, labels !! k = Some v -> clean v) -> clean (label labels k).
Proof. intros Hl. unfold label. destruct (labels !! k) eqn:E; cbn; [by eapply Hl|done]. Qed.

Lemma node_domains_clean keys node : node_ok node -> Forall clean (node_domains keys node).
Proof.
  intros Hn. unfold node_domains. apply Forall_fmap, Forall_true. intros key. cbn. unfold NormaliseDomain. case_bool_decide; [done|].
  unfold topologyValue. repeat case_match; try done; by apply clean_label.
Qed.

Lemma factsOf_spec node inv : intern_ok (iv_intern inv) -> node_ok node ->
  exists i, factsOf node inv = (facts_of_node (iv_keys inv) (nd_Name node) (node_domains (iv_keys inv) node) node, inv <| iv_intern := i |>) /\
    intern_ok i.
Proof.
  intros Hi Hn. unfold factsOf. destruct (intern_name_same (nd_Name node) _ Hi) as [H1 Hi1].
  destruct (intern_name _ _) as [name i1]. cbn in H1, Hi1. subst name.
  destruct (intern_tuple_same (node_domains (iv_keys inv) node) i1 Hi1 (node_domains_clean _ _ Hn)) as [H2 Hi2].
  destruct (intern_tuple _ _) as [ds i2]. cbn in H2, Hi2. subst ds. by exists i2.
Qed.

Lemma UnknownTuple_spec inv : intern_ok (iv_intern inv) ->
  exists i, UnknownTuple inv = (unknowns (iv_keys inv), inv <| iv_intern := i |>) /\ intern_ok i.
Proof.
  intros Hi. unfold UnknownTuple. assert (Forall clean (unknowns (iv_keys inv))) as Hc by by apply Forall_fmap, Forall_true.
  destruct (intern_tuple_same _ _ Hi Hc) as [H1 H2]. destruct (intern_tuple _ _) as [t i]. cbn in *. subst t. by exists i.
Qed.

Lemma set_intern_ok inv i : inv_ok inv -> intern_ok i -> inv_ok (inv <| iv_intern := i |>).
Proof. intros [] Hi. by split. Qed.

Lemma stats_rows n sign stats l l' : (forall ordinal row, row_agrees l ordinal row -> row_agrees l' ordinal (stats_row n sign ordinal row)) ->
  (forall ordinal row, stats !! ordinal = Some row -> row_agrees l ordinal row) ->
  forall ordinal row, imap (stats_row n sign) stats !! ordinal = Some row -> row_agrees l' ordinal row.
Proof. intros Hstep Hs ordinal row Hr. rewrite list_lookup_imap in Hr. apply fmap_Some in Hr as (row0 & H0 & ->). by apply Hstep, Hs. Qed.

Lemma node_list_insert (m : gmap string nodeFacts) name n : m !! name = None -> (map_to_list (<[name := n]> m)).*2 ≡ₚ n :: (map_to_list m).*2.
Proof. intros Hm. by rewrite (map_to_list_insert m name n Hm). Qed.

Lemma node_list_delete (m : gmap string nodeFacts) name n : m !! name = Some n -> (map_to_list m).*2 ≡ₚ n :: (map_to_list (delete name m)).*2.
Proof. intros Hm. by rewrite <- (map_to_list_delete m name n Hm). Qed.

Lemma node_list_replace (m : gmap string nodeFacts) name n : (map_to_list (<[name := n]> m)).*2 ≡ₚ n :: (map_to_list (delete name m)).*2.
Proof. rewrite <- insert_delete_eq. apply node_list_insert, lookup_delete_eq. Qed.

Lemma addStats_add n stats l l' : l' ≡ₚ n :: l -> (forall ordinal row, stats !! ordinal = Some row -> row_agrees l ordinal row) ->
  forall ordinal row, imap (stats_row n 1) stats !! ordinal = Some row -> row_agrees l' ordinal row.
Proof. intros Hp. apply stats_rows. intros ordinal row Hr. by eapply row_agrees_perm, stats_row_add. Qed.

Lemma addStats_sub n stats l l' : l ≡ₚ n :: l' -> (forall ordinal row, stats !! ordinal = Some row -> row_agrees l ordinal row) ->
  forall ordinal row, imap (stats_row n (-1)) stats !! ordinal = Some row -> row_agrees l' ordinal row.
Proof. intros Hp. apply stats_rows. intros ordinal row Hr. by eapply stats_row_sub, row_agrees_perm. Qed.

(** What a node event does to the domains of the nodes. *)
Definition domains_kept (name : string) (ch : Change) (inv inv' : Inventory) : Prop :=
  iv_keys inv' = iv_keys inv /\ (forall other, other <> name -> DomainsOf inv' other = DomainsOf inv other) /\
  (ch_DomainsChanged ch = false -> DomainsOf inv' name = DomainsOf inv name).

Lemma Upsert_ok now node inv : inv_ok inv -> node_ok node ->
  let '(inv', ch) := Upsert now node inv in inv_ok inv' /\ domains_kept (nd_Name node) ch inv inv' /\
    (nd_Name node <> "" -> DomainsOf inv' (nd_Name node) = node_domains (iv_keys inv) node).
Proof.
  intros Hok Hnode. destruct (factsOf_spec node inv (vo_intern _ Hok) Hnode) as (i & Hf & Hi). unfold Upsert.
  case_bool_decide as Hname; [split; [done|split; [by repeat split|done]]|]. rewrite Hf. destruct (set_intern_ok inv i Hok Hi) as [Hk Hin Hn Hl Hs]. clear Hf.
  set (next := facts_of_node _ _ _ _). cbn in Hk, Hin, Hn, Hl, Hs |- *. unfold node_list in Hs. cbn in Hs.
  destruct (iv_nodes inv !! nd_Name node) as [prev|] eqn:Ep.
  - set (next' := dated (Some prev) now next). destruct (negb (Any (facts_change prev next'))) eqn:Ec.
    + split; [by split|]. split; [by repeat split|]. intros _. unfold DomainsOf. cbn. rewrite Ep.
      apply negb_true_iff in Ec. unfold Any, facts_change in Ec. cbn in Ec. apply orb_false_iff in Ec as [Ec _]. btrue. done.
    + split; [split; cbn|split; [split; [done|split]|]].
      * done.
      * done.
      * intros name n [[<- <-]|[_ Hm]]%lookup_insert_Some; [done|by apply Hn].
      * by rewrite !length_imap.
      * eapply addStats_add; [apply node_list_replace|]. eapply addStats_sub; [by apply node_list_delete|done].
      * intros other Ho. unfold DomainsOf. cbn. by rewrite lookup_insert_ne.
      * cbn. intros Hd. btrue. unfold DomainsOf. cbn. by rewrite lookup_insert_eq, Ep.
      * intros _. unfold DomainsOf. cbn. by rewrite lookup_insert_eq.
  - set (next' := dated None now next). split; [split; cbn|split; [split; [done|split]|]].
    + done.
    + done.
    + intros name n [[<- <-]|[_ Hm]]%lookup_insert_Some; [done|by apply Hn].
    + by rewrite length_imap.
    + eapply addStats_add; [by apply node_list_insert|done].
    + intros other Ho. unfold DomainsOf. cbn. by rewrite lookup_insert_ne.
    + done.
    + intros _. unfold DomainsOf. cbn. by rewrite lookup_insert_eq.
Qed.

Lemma forget_ok s i : intern_ok i -> intern_ok (forget s i).
Proof. intros [H1 H2 H3]. split; [|done|done]. cbn. intros s' t [_ Ht]%lookup_delete_Some. by apply H1. Qed.

Lemma Remove_ok name inv : inv_ok inv ->
  let '(inv', ch) := Remove name inv in inv_ok inv' /\ domains_kept name ch inv inv' /\ DomainsOf inv' name = [] /\
    (ch_Removed ch = false -> iv_nodes inv !! name = None /\ inv' = inv) /\ (ch_Removed ch = true -> ch_DomainsChanged ch = true).
Proof.
  intros [Hk Hin Hn Hl Hs]. unfold Remove. destruct (iv_nodes inv !! name) as [prev|] eqn:Ep.
  - assert (iv_nodes (recordConsolidation prev inv) = iv_nodes inv /\ iv_stats (recordConsolidation prev inv) = iv_stats inv /\
            iv_keys (recordConsolidation prev inv) = iv_keys inv /\ iv_intern (recordConsolidation prev inv) = iv_intern inv) as (E1 & E2 & E3 & E4).
    { unfold recordConsolidation. by destruct (IsZero _). }
    set (inv1 := recordConsolidation prev inv) in *. clearbody inv1.
    split; [split; cbn|split; [split; [done|split]|split; [|done]]].
    + by rewrite E3.
    + rewrite E4. by apply forget_ok.
    + rewrite E1. intros name' n [_ Hm]%lookup_delete_Some. by apply Hn.
    + by rewrite length_imap, E2, E3.
    + unfold node_list. cbn. rewrite E1, E2. eapply addStats_sub; [by apply node_list_delete|done].
    + intros other Ho. unfold DomainsOf. cbn. by rewrite E1, lookup_delete_ne.
    + done.
    + unfold DomainsOf. cbn. by rewrite E1, lookup_delete_eq.
  - split; [by split|]. split; [by repeat split|]. split; [unfold DomainsOf; by rewrite Ep|]. done.
Qed.
