(* ===== verification/DriftState.v ===== *)
(** The pod index of the placement source (src/pkg/sources/topologydrift: state.go,
    subject.go, verify.go): the delta rules that keep every subject's distribution up to
    date from informer events, and the verifier that rebuilds one shard of them.

    [State] holds the inventory too: the pod handlers read it and intern through it. The
    subjects handed to the work queue are the list [ds_notified]. Intents and evaluations
    are stored and forgotten here and never read, so their types are parameters. The lock
    makes a handler one step. *)
From S2P Require Import Prelude GoTime GoStrings GoHash LeewayTopology DriftInventory.
From Stdlib Require Import Ascii.
Open Scope Z_scope.
Open Scope lookout_scope.

(** ** Pods and their subjects *)

Record ControllerRef := mkRef { cr_Kind : string; cr_Name : string; cr_Controller : option bool }.

Record PodCondition := mkCondition { pc_Type : string; pc_Status : string; pc_Reason : string }.

Record Pod := mkPod {
  pd_UID : string; pd_Namespace : string; pd_Name : string; pd_OwnerReferences : list ControllerRef;
  pd_NodeName : string; pd_Phase : string; pd_DeletionTimestamp : option Time; pd_Conditions : list PodCondition
}.

Definition PodSucceeded : string := "Succeeded".
Definition PodFailed : string := "Failed".
Definition PodPending : string := "Pending".
Definition PodScheduled : string := "PodScheduled".
Definition ConditionFalse : string := "False".
Definition PodReasonUnschedulable : string := "Unschedulable".

Definition unschedulable (pod : Pod) : bool :=
  match list_find (fun c => pc_Type c = PodScheduled) (pd_Conditions pod) with
  | Some (_, c) => (pc_Status c ==s ConditionFalse) && (pc_Reason c ==s PodReasonUnschedulable)
  | None => false
  end.

Definition podState (pod : Pod) : option CountState :=
  if (pd_Phase pod ==s PodSucceeded) || (pd_Phase pod ==s PodFailed) then None
  else if bool_decide (pd_DeletionTimestamp pod <> None) then Some StateTerminating
  else if pd_Phase pod ==s PodPending then Some (if unschedulable pod then StateUnschedulable else StatePending)
  else Some StateRunning.

Definition controllerOf (refs : list ControllerRef) : option ControllerRef :=
  snd <$> list_find (fun r => cr_Controller r = Some true) refs.

(** [lookup]: the owner of a ReplicaSet, as the caller's lister answers. *)
Definition resolveSubject (lookup : string -> string -> string -> option ControllerRef) (pod : Pod) : option SubjectRef :=
  match controllerOf (pd_OwnerReferences pod) with
  | None => None
  | Some ctrl =>
      if (cr_Kind ctrl ==s "StatefulSet") || (cr_Kind ctrl ==s "DaemonSet") || (cr_Kind ctrl ==s "Job")
      then Some (mkSubject (cr_Kind ctrl) (pd_Namespace pod) (cr_Name ctrl))
      else if cr_Kind ctrl ==s "ReplicaSet" then
        match lookup (pd_Namespace pod) "ReplicaSet" (cr_Name ctrl) with
        | Some owner =>
            if cr_Kind owner ==s "Deployment" then Some (mkSubject SubjectDeployment (pd_Namespace pod) (cr_Name owner)) else None
        | None => None
        end
      else None
  end.

(** ** The state *)

Notation Distributions := (gmap TopologyKey Distribution) (only parsing).
Notation UID := string (only parsing).

Record State {I E : Type} := mkState {
  ds_inv : Inventory;
  ds_placements : gmap UID Placement;
  ds_subjects : gmap UID SubjectRef;
  ds_byNode : gmap string (gmap UID unit);
  ds_counts : gmap SubjectRef Distributions;
  ds_groups : gmap SubjectRef Distributions;
  ds_representatives : gmap SubjectRef (UID * string);
  ds_intents : gmap SubjectRef (gmap TopologyKey I);
  ds_evaluations : gmap SubjectRef (list E);
  ds_notified : list SubjectRef
}.
Arguments State : clear implicits.

Definition NewState {I E} (inv : Inventory) : State I E := mkState I E inv ∅ ∅ ∅ ∅ ∅ ∅ ∅ ∅ [].

Definition link_uid (nodeName : string) (uid : UID) (m : gmap string (gmap UID unit)) : gmap string (gmap UID unit) :=
  <[nodeName := <[uid := tt]> (default ∅ (m !! nodeName))]> m.

Definition unlink_uid (nodeName : string) (uid : UID) (m : gmap string (gmap UID unit)) : gmap string (gmap UID unit) :=
  match m !! nodeName with
  | None => m
  | Some set => let set := delete uid set in if bool_decide (set = ∅) then delete nodeName m else <[nodeName := set]> m
  end.

Section state.
Context `{RangeOrder} {I E : Type}.
Context (owners : string -> string -> string -> option ControllerRef) (pinned : Pod -> bool).
Notation PodIndex := (State I E).

Definition enqueue (sub : SubjectRef) (s : PodIndex) : PodIndex := s <| ds_notified ::= (fun l => l ++ [sub]) |>.

Definition tracked (s : PodIndex) (sub : SubjectRef) : bool :=
  bool_decide (is_Some (ds_counts s !! sub)) || bool_decide (is_Some (ds_groups s !! sub)).

Definition forgetLocked (sub : SubjectRef) (s : PodIndex) : PodIndex :=
  s <| ds_representatives ::= delete sub |> <| ds_intents ::= delete sub |> <| ds_evaluations ::= delete sub |>.

Definition linkNode (nodeName : string) (uid : UID) (s : PodIndex) : PodIndex := s <| ds_byNode ::= link_uid nodeName uid |>.

Definition unlinkNode (nodeName : string) (uid : UID) (s : PodIndex) : PodIndex := s <| ds_byNode ::= unlink_uid nodeName uid |>.

(** One axis of [applyLocked]; [add] is [sign > 0]. *)
Definition apply_axis (p : Placement) (add : bool) (byKey : Distributions) (axis : nat * TopologyKey) : Distributions :=
  let '(ordinal, key) := axis in
  let d := Placement_Domain p ordinal in
  if add then <[key := Distribution_Add d (pl_State p) (pl_Pinned p) (default NewDistribution (byKey !! key))]> byKey
  else match byKey !! key with
       | None => byKey
       | Some dist =>
           let dist := Distribution_Remove d (pl_State p) (pl_Pinned p) dist in
           if dist_Total dist =? 0 then delete key byKey else <[key := dist]> byKey
       end.

Definition axes (keys : list TopologyKey) : list (nat * TopologyKey) := imap pair keys.

Definition apply_counts (keys : list TopologyKey) (sub : SubjectRef) (p : Placement) (add : bool)
    (counts : gmap SubjectRef Distributions) : gmap SubjectRef Distributions :=
  let put byKey :=
    let byKey := foldl (apply_axis p add) byKey (axes keys) in
    if bool_decide (byKey = ∅) then delete sub counts else <[sub := byKey]> counts in
  match counts !! sub with
  | Some byKey => put byKey
  | None => if add then put ∅ else counts
  end.

Definition applyLocked (sub : SubjectRef) (p : Placement) (add : bool) (s : PodIndex) : PodIndex :=
  s <| ds_counts ::= apply_counts (iv_keys (ds_inv s)) sub p add |>.

(** The domains of a node, or the unknown tuple. *)
Definition current_domains (nodeName : string) (s : PodIndex) : list Domain * PodIndex :=
  match DomainsOf (ds_inv s) nodeName with
  | [] => let '(t, inv) := UnknownTuple (ds_inv s) in (t, s <| ds_inv := inv |>)
  | domains => (domains, s)
  end.

Definition resolvePlacement (pod : Pod) (s : PodIndex) : option Placement * PodIndex :=
  match podState pod with
  | None => (None, s)
  | Some state =>
      let '(domains, s) := current_domains (pd_NodeName pod) s in
      (Some (mkPlacement (pd_NodeName pod) domains state (pinned pod)), s)
  end.

Definition subjectOf (pod : Pod) (uid : UID) (s : PodIndex) : option SubjectRef :=
  match ds_subjects s !! uid with
  | Some sub => Some sub
  | None => resolveSubject owners pod
  end.

Definition uncount (uid : UID) (s : PodIndex) : PodIndex * bool :=
  match ds_placements s !! uid with
  | None => (s, false)
  | Some p =>
      let hadSubject := ds_subjects s !! uid in
      let sub := default zero_subject hadSubject in
      let s := applyLocked sub p false s in
      let s := s <| ds_placements ::= delete uid |> <| ds_subjects ::= delete uid |> in
      let s := unlinkNode (pl_NodeName p) uid s in
      let s :=
        if negb (tracked s sub) then forgetLocked sub s
        else match ds_representatives s !! sub with
             | Some (uid', _) => if uid' ==s uid then s <| ds_representatives ::= delete sub |> else s
             | None => s
             end in
      (match hadSubject with Some _ => enqueue sub s | None => s end, true)
  end.

(** The pod counted under its new placement. *)
Definition seat (pod : Pod) (sub : SubjectRef) (next : Placement) (s : PodIndex) : PodIndex :=
  let uid := pd_UID pod in
  let s := s <| ds_placements ::= <[uid := next]> |> <| ds_subjects ::= <[uid := sub]> |> in
  let s := applyLocked sub next true (linkNode (pl_NodeName next) uid s) in
  if tracked s sub then s <| ds_representatives ::= <[sub := (uid, pd_Name pod)]> |> else s.

Definition OnPodUpdate (cur : Pod) (s : PodIndex) : PodIndex * bool :=
  let uid := pd_UID cur in
  let '(next, s) := resolvePlacement cur s in
  match next with
  | None => uncount uid s
  | Some next =>
      let prev := ds_placements s !! uid in
      if match prev with Some prev => Placement_Equal prev next | None => false end then (s, false)
      else
        match subjectOf cur uid s with
        | None => uncount uid s
        | Some sub =>
            let s :=
              match prev with
              | Some prev =>
                  let s := applyLocked sub prev false s in
                  if pl_NodeName prev <>s pl_NodeName next then unlinkNode (pl_NodeName prev) uid s else s
              | None => s
              end in
            (enqueue sub (seat cur sub next s), true)
        end
  end.

Definition OnPodAdd (pod : Pod) (s : PodIndex) : PodIndex * bool := OnPodUpdate pod s.

Definition OnPodDelete (pod : Pod) (s : PodIndex) : PodIndex * bool := uncount (pd_UID pod) s.

Definition remap_pod (domains : list Domain) (uid : UID) (x : PodIndex * gmap SubjectRef unit) : PodIndex * gmap SubjectRef unit :=
  let '(s, touched) := x in
  let prev := default zero_placement (ds_placements s !! uid) in
  let next := prev <| pl_Domains := domains |> in
  if Placement_Equal prev next then x
  else
    let sub := default zero_subject (ds_subjects s !! uid) in
    let s := applyLocked sub prev false s in
    let s := s <| ds_placements ::= <[uid := next]> |> in
    (applyLocked sub next true s, <[sub := tt]> touched).

Definition remapNode (nodeName : string) (s : PodIndex) : PodIndex :=
  let pods := default ∅ (ds_byNode s !! nodeName) in
  if bool_decide (pods = ∅) then s
  else
    let '(domains, s) := current_domains nodeName s in
    let '(s, touched) := range_loop (fun uid _ => remap_pod domains uid) (range 0 pods) (s, ∅) in
    range_loop (fun sub _ => enqueue sub) (range 1 touched) s.

Definition OnNodeUpsert (now : Time) (node : Node) (s : PodIndex) : PodIndex * Change :=
  let '(inv, ch) := Upsert now node (ds_inv s) in
  let s := s <| ds_inv := inv |> in
  (if ch_DomainsChanged ch then remapNode (nd_Name node) s else s, ch).

Definition OnNodeDelete (name : string) (s : PodIndex) : PodIndex * Change :=
  let '(inv, ch) := Remove name (ds_inv s) in
  let s := s <| ds_inv := inv |> in
  (if ch_Removed ch then remapNode name s else s, ch).

(** ** Reading and recording *)

Definition Snapshot (s : PodIndex) (sub : SubjectRef) : option Distributions :=
  match ds_counts s !! sub with
  | Some byKey => Some byKey
  | None => ds_groups s !! sub
  end.

Definition SetGroups (groups : gmap SubjectRef Distributions) (s : PodIndex) : PodIndex :=
  let s := range_loop (fun sub _ s => if bool_decide (groups !! sub = None) then forgetLocked sub s else s)
             (range 0 (ds_groups s)) s in
  s <| ds_groups := groups |>.

Definition SetRepresentative (sub : SubjectRef) (uid : UID) (name : string) (s : PodIndex) : PodIndex :=
  if negb (tracked s sub) then s else s <| ds_representatives ::= <[sub := (uid, name)]> |>.

Definition SetIntents (sub : SubjectRef) (intents : gmap TopologyKey I) (s : PodIndex) : PodIndex :=
  if negb (tracked s sub) then s
  else if bool_decide (size intents = 0%nat) then s <| ds_intents ::= delete sub |>
  else s <| ds_intents ::= <[sub := intents]> |>.

Definition SetEvaluations (sub : SubjectRef) (evals : list E) (s : PodIndex) : PodIndex :=
  if negb (tracked s sub) then s
  else match evals with
       | [] => s <| ds_evaluations ::= delete sub |>
       | _ => s <| ds_evaluations ::= <[sub := evals]> |>
       end.

(** ** The verifier *)

Definition fnv32a (bs : list Z) : Z := fold_left (fun h b => (Z.lxor h b * 16777619) mod 2 ^ 32) bs 2166136261.

Definition shardOf (sub : SubjectRef) (shards : Z) : Z :=
  if shards <=? 1 then 0 else fnv32a (bytes_of (SubjectRef_String sub)) mod shards.

Record Rebuilt := mkRebuilt { rb_Pods : list Pod; rb_Counts : Distributions }.

Definition rebuild_pod (shard shards : Z) (x : gmap SubjectRef Rebuilt * PodIndex) (pod : Pod) : gmap SubjectRef Rebuilt * PodIndex :=
  let '(out, s) := x in
  let '(p, s) := resolvePlacement pod s in
  match p with
  | None => (out, s)
  | Some p =>
      match subjectOf pod (pd_UID pod) s with
      | None => (out, s)
      | Some sub =>
          if negb (shardOf sub shards =? shard) then (out, s)
          else
            let r := default (mkRebuilt [] ∅) (out !! sub) in
            let counts := foldl (apply_axis p true) (rb_Counts r) (axes (iv_keys (ds_inv s))) in
            (<[sub := mkRebuilt (rb_Pods r ++ [pod]) counts]> out, s)
      end
  end.

Definition RebuildShard (pods : list Pod) (shard shards : Z) (s : PodIndex) : gmap SubjectRef Rebuilt * PodIndex :=
  foldl (rebuild_pod shard shards) (∅, s) pods.

Definition unseat_subject (sub : SubjectRef) (uid : UID) (cached : SubjectRef) (s : PodIndex) : PodIndex :=
  if negb (bool_decide (cached = sub)) then s
  else
    let s := match ds_placements s !! uid with Some p => unlinkNode (pl_NodeName p) uid s | None => s end in
    s <| ds_placements ::= delete uid |> <| ds_subjects ::= delete uid |>.

Definition repair_pod (sub : SubjectRef) (s : PodIndex) (pod : Pod) : PodIndex :=
  let '(p, s) := resolvePlacement pod s in
  match p with
  | None => s
  | Some p => seat pod sub p s
  end.

Definition Repair (sub : SubjectRef) (pods : list Pod) (s : PodIndex) : PodIndex :=
  let s := range_loop (unseat_subject sub) (range 0 (ds_subjects s)) s in
  let s := forgetLocked sub (s <| ds_counts ::= delete sub |>) in
  enqueue sub (foldl (repair_pod sub) s pods).

Definition sameDistributions (a b : Distributions) : bool :=
  forallb (fun '(key, da) => match b !! key with Some db => Distribution_Equal da db | None => false end) (map_to_list a) &&
  forallb (fun '(key, _) => bool_decide (is_Some (a !! key))) (map_to_list b).

Record Report := mkReport { rep_Shard : Z; rep_Subjects : Z; rep_Drifted : Z }.

(** The rebuild's subjects and those the index holds in the shard. *)
Definition with_held (shard shards : Z) (s : PodIndex) (want : gmap SubjectRef Rebuilt) : gmap SubjectRef Rebuilt :=
  range_loop (fun sub _ want =>
    if (shardOf sub shards =? shard) && bool_decide (want !! sub = None) then <[sub := mkRebuilt [] ∅]> want else want)
    (range 0 (ds_counts s)) want.

Definition verify_subject (sub : SubjectRef) (rebuilt : Rebuilt) (x : PodIndex * Z) : PodIndex * Z :=
  let '(s, drifted) := x in
  if sameDistributions (rb_Counts rebuilt) (default ∅ (Snapshot s sub)) then x
  else (Repair sub (rb_Pods rebuilt) s, drifted + 1).

(** [None]: the pod cache could not be read. *)
Definition VerifyShard (pods : option (list Pod)) (shard shards : Z) (s : PodIndex) : PodIndex * Report :=
  match pods with
  | None => (s, mkReport shard 0 0)
  | Some pods =>
      let '(want, s) := RebuildShard pods shard shards s in
      let want := with_held shard shards s want in
      let '(s, drifted) := range_loop verify_subject (range 1 want) (s, 0) in
      (s, mkReport shard (Z.of_nat (size want)) drifted)
  end.

Record Verifier := mkVerifier { ve_Shards : Z; ve_shard : Z }.

Definition DefaultVerifyShards : Z := 12.

Definition NewVerifier (shards : Z) : Verifier := mkVerifier (if shards <=? 0 then DefaultVerifyShards else shards) 0.

Definition Tick (pods : option (list Pod)) (v : Verifier) (s : PodIndex) : Verifier * (PodIndex * Report) :=
  (v <| ve_shard := (ve_shard v + 1) mod ve_Shards v |>, VerifyShard pods (ve_shard v) (ve_Shards v) s).
End state.
