(* ===== verification/DriftCensus.v ===== *)
(** The counts of the pod index as a census (src/pkg/sources/topologydrift/state.go): what
    [applyLocked] does to the row of a subject, against the distribution of a collection
    of placements counted from nothing. *)
From S2P Require Import Prelude GoTime GoStrings GoHash LeewayTopology DriftInventory DriftState.
Open Scope Z_scope.
Open Scope lookout_scope.

(** What a placement counts as on one axis. *)
Definition axis_at (ordinal : nat) (p : Placement) : Domain * CountState * bool := (Placement_Domain p ordinal, pl_State p, pl_Pinned p).

(** The distributions of a collection of placements, one per axis; none for an empty one. *)
Definition axes_row (keys : list TopologyKey) (l : list Placement) : gmap TopologyKey Distribution :=
  match l with
  | [] => ∅
  | _ => list_to_map (imap (fun ordinal key => (key, dist_of (axis_at ordinal <$> l))) keys)
  end.

Definition row (keys : list TopologyKey) (l : list Placement) : option (gmap TopologyKey Distribution) :=
  if bool_decide (axes_row keys l = ∅) then None else Some (axes_row keys l).

Lemma row_default keys l : default ∅ (row keys l) = axes_row keys l.
Proof. unfold row. case_bool_decide as E; [by rewrite E|done]. Qed.

Lemma row_nil keys : row keys [] = None.
Proof. done. Qed.

#[global] Instance axes_row_perm keys : Proper ((≡ₚ) ==> (=)) (axes_row keys).
Proof.
  intros l l' Hp. assert (imap (fun o k => (k, dist_of (axis_at o <$> l))) keys = imap (fun o k => (k, dist_of (axis_at o <$> l'))) keys) as He.
  { apply imap_ext. intros o k _. by rewrite Hp. }
  apply Permutation_length in Hp. unfold axes_row. destruct l, l'; cbn in Hp; try lia; [done|]. by rewrite He.
Qed.

#[global] Instance row_perm keys : Proper ((≡ₚ) ==> (=)) (row keys).
Proof. intros l l' Hp. unfold row. by rewrite (axes_row_perm keys l l' Hp). Qed.

(** ** One row *)

(** What [apply_axis] does to the distribution of its key. *)
Definition axis_step (p : Placement) (add : bool) (ordinal : nat) (d : option Distribution) : option Distribution :=
  if add then Some (dist_add (axis_at ordinal p) (default NewDistribution d))
  else match d with
       | None => None
       | Some d => let d := dist_remove (axis_at ordinal p) d in if dist_Total d =? 0 then None else Some d
       end.

Lemma apply_axis_lookup p add m ordinal key k :
  apply_axis p add m (ordinal, key) !! k = if decide (key = k) then axis_step p add ordinal (m !! k) else m !! k.
Proof.
  unfold apply_axis, axis_step. destruct add.
  - destruct (decide (key = k)) as [->|Hne]; [by rewrite lookup_insert_eq|by rewrite lookup_insert_ne].
  - destruct (decide (key = k)) as [->|Hne].
    + destruct (m !! k) as [d|] eqn:E; [|done]. unfold dist_remove, axis_at. cbn.
      destruct (_ =? 0); [by rewrite lookup_delete_eq|by rewrite lookup_insert_eq].
    + destruct (m !! key) as [d|]; [|done]. destruct (_ =? 0); [by rewrite lookup_delete_ne|by rewrite lookup_insert_ne].
Qed.

Lemma axes_snoc keys k : axes (keys ++ [k]) = axes keys ++ [(length keys, k)].
Proof. unfold axes. rewrite imap_app. cbn. by rewrite Nat.add_0_r. Qed.

Lemma fold_axes_out p add keys m k : k ∉ keys -> foldl (apply_axis p add) m (axes keys) !! k = m !! k.
Proof.
  induction keys as [|k' keys IH] using rev_ind; intros Hk; [done|]. rewrite axes_snoc, foldl_app. cbn [foldl].
  rewrite apply_axis_lookup, decide_False by set_solver. apply IH. set_solver.
Qed.

Lemma fold_axes_in p add keys m ordinal k : NoDup keys -> keys !! ordinal = Some k ->
  foldl (apply_axis p add) m (axes keys) !! k = axis_step p add ordinal (m !! k).
Proof.
  induction keys as [|k' keys IH] using rev_ind; intros Hnd Hk; [done|]. apply list.NoDup_app in Hnd as (Hnd & Hdis & _).
  rewrite axes_snoc, foldl_app. cbn [foldl]. rewrite apply_axis_lookup. apply lookup_app_Some in Hk as [Hk|[Hlen Hk]].
  - rewrite decide_False; [by apply IH|]. intros ->. apply (Hdis k); [by apply list_elem_of_lookup_2 in Hk|set_solver].
  - apply list_lookup_singleton_Some in Hk as [Hz ->]. rewrite decide_True by done. replace ordinal with (length keys) by lia.
    f_equal. apply fold_axes_out. intros Hin. apply (Hdis k Hin). set_solver.
Qed.

Lemma axes_row_in keys l ordinal k : NoDup keys -> keys !! ordinal = Some k ->
  axes_row keys l !! k = match l with [] => None | _ => Some (dist_of (axis_at ordinal <$> l)) end.
Proof.
  intros Hnd Hk. destruct l as [|p l]; [apply lookup_empty|]. unfold axes_row. set (l' := p :: l). clearbody l'.
  apply elem_of_list_to_map_1.
  - replace (imap _ keys).*1 with keys; [done|]. rewrite fmap_imap. symmetry. clear. unfold compose. cbn.
    induction keys as [|k' keys IH] using rev_ind; [done|]. by rewrite imap_app, IH.
  - apply list_elem_of_lookup. exists ordinal. by rewrite list_lookup_imap, Hk.
Qed.

Lemma axes_row_out keys l k : k ∉ keys -> axes_row keys l !! k = None.
Proof.
  intros Hk. destruct l as [|p l]; [apply lookup_empty|]. apply not_elem_of_list_to_map_1. intros Hin. apply Hk.
  apply list_elem_of_fmap in Hin as ([k' d] & -> & Hin). apply elem_of_lookup_imap in Hin as (o & k0 & [= -> ->] & Hk0).
  by apply list_elem_of_lookup_2 in Hk0.
Qed.

Lemma fold_axes_row add keys p m l l' : NoDup keys ->
  (forall k, k ∉ keys -> m !! k = axes_row keys l' !! k) ->
  (forall ordinal k, keys !! ordinal = Some k -> axis_step p add ordinal (m !! k) = match l' with [] => None | _ => Some (dist_of (axis_at ordinal <$> l')) end) ->
  m = axes_row keys l -> foldl (apply_axis p add) m (axes keys) = axes_row keys l'.
Proof.
  intros Hnd Hout Hin ->. apply map_eq. intros k. destruct (decide (k ∈ keys)) as [[ordinal Hk]%list_elem_of_lookup|Hk].
  - rewrite (fold_axes_in p add keys _ ordinal k) by done. rewrite (Hin ordinal k Hk). by rewrite (axes_row_in keys l' ordinal k).
  - rewrite fold_axes_out by done. by apply Hout.
Qed.

Lemma fold_axes_add keys p l : NoDup keys -> foldl (apply_axis p true) (axes_row keys l) (axes keys) = axes_row keys (p :: l).
Proof.
  intros Hnd. apply (fold_axes_row true keys p _ l (p :: l)); [done| | |done].
  - intros k Hk. by rewrite !axes_row_out.
  - intros ordinal k Hk. rewrite (axes_row_in keys l ordinal k) by done. cbn. by destruct l.
Qed.

Lemma fold_axes_remove keys p l : NoDup keys -> foldl (apply_axis p false) (axes_row keys (p :: l)) (axes keys) = axes_row keys l.
Proof.
  intros Hnd. apply (fold_axes_row false keys p _ (p :: l) l); [done| | |done].
  - intros k Hk. by rewrite !axes_row_out.
  - intros ordinal k Hk. rewrite (axes_row_in keys (p :: l) ordinal k) by done. cbn -[dist_of]. rewrite remove_dist_of, dist_of_total, length_fmap.
    by destruct l.
Qed.

(** ** The table of counts *)

Lemma apply_counts_add keys sub p l counts sub' : NoDup keys -> counts !! sub = row keys l ->
  apply_counts keys sub p true counts !! sub' = if decide (sub = sub') then row keys (p :: l) else counts !! sub'.
Proof.
  intros Hnd Hl. unfold apply_counts. assert (forall byKey, byKey = axes_row keys l ->
    (let byKey := foldl (apply_axis p true) byKey (axes keys) in if bool_decide (byKey = ∅) then delete sub counts else <[sub := byKey]> counts) !! sub'
    = if decide (sub = sub') then row keys (p :: l) else counts !! sub') as Hput.
  { intros byKey ->. cbv zeta. rewrite fold_axes_add by done. unfold row.
    destruct (decide (sub = sub')) as [<-|Hne]; case_bool_decide; simplify_map_eq; done. }
  rewrite <- (row_default keys l), <- Hl in Hput. destruct (counts !! sub); by apply Hput.
Qed.

Lemma apply_counts_remove keys sub p l counts sub' : NoDup keys -> counts !! sub = row keys (p :: l) ->
  apply_counts keys sub p false counts !! sub' = if decide (sub = sub') then row keys l else counts !! sub'.
Proof.
  intros Hnd Hl. unfold apply_counts. rewrite Hl. unfold row at 1. case_bool_decide as He.
  - destruct (decide (sub = sub')) as [<-|Hne]; [|done]. rewrite Hl. unfold row. rewrite bool_decide_eq_true_2 by done.
    destruct keys as [|k keys]; [by destruct l|]. exfalso. pose proof (axes_row_in (k :: keys) (p :: l) 0%nat k Hnd eq_refl) as Hk. by rewrite He, lookup_empty in Hk.
  - cbv zeta. rewrite fold_axes_remove by done. unfold row. destruct (decide (sub = sub')) as [<-|Hne]; case_bool_decide; simplify_map_eq; done.
Qed.

(** ** The placements counted under a subject *)

Notation seats := (gmap string (SubjectRef * Placement)) (only parsing).

Definition under (sub : SubjectRef) (l : list (SubjectRef * Placement)) : list Placement :=
  (List.filter (fun x => bool_decide (x.1 = sub)) l).*2.

Definition held (sub : SubjectRef) (m : seats) : list Placement := under sub (map_to_list m).*2.

#[global] Instance under_perm sub : Proper ((≡ₚ) ==> (≡ₚ)) (under sub).
Proof. unfold under. induction 1; cbn; repeat case_bool_decide; cbn; solve [done|by constructor|by etrans]. Qed.

Lemma under_cons sub x l : under sub (x :: l) = if decide (x.1 = sub) then x.2 :: under sub l else under sub l.
Proof. unfold under. cbn. case_bool_decide; [by rewrite decide_True|by rewrite decide_False]. Qed.

Lemma held_insert sub m uid x : m !! uid = None -> held sub (<[uid := x]> m) ≡ₚ if decide (x.1 = sub) then x.2 :: held sub m else held sub m.
Proof. intros Hm. unfold held. rewrite (map_to_list_insert m uid x Hm). cbn [fmap list_fmap]. by rewrite under_cons. Qed.

Lemma held_delete sub m uid x : m !! uid = Some x -> held sub m ≡ₚ if decide (x.1 = sub) then x.2 :: held sub (delete uid m) else held sub (delete uid m).
Proof. intros Hm. unfold held. rewrite <- (map_to_list_delete m uid x Hm) at 1. cbn [fmap list_fmap]. by rewrite under_cons. Qed.

(** Every row is that of the placements under its subject. *)
Definition counts_ok (keys : list TopologyKey) (m : seats) (counts : gmap SubjectRef (gmap TopologyKey Distribution)) : Prop :=
  forall sub, counts !! sub = row keys (held sub m).

Lemma counts_ok_insert keys m counts uid sub p : NoDup keys -> counts_ok keys m counts -> m !! uid = None ->
  counts_ok keys (<[uid := (sub, p)]> m) (apply_counts keys sub p true counts).
Proof.
  intros Hnd Hc Hm sub'. rewrite (apply_counts_add _ _ _ (held sub m)) by done. rewrite held_insert by done. cbn.
  destruct (decide (sub = sub')) as [<-|Hne]; [done|apply Hc].
Qed.

Lemma counts_ok_delete keys m counts uid sub p : NoDup keys -> counts_ok keys m counts -> m !! uid = Some (sub, p) ->
  counts_ok keys (delete uid m) (apply_counts keys sub p false counts).
Proof.
  intros Hnd Hc Hm sub'. pose proof (held_delete sub m uid _ Hm) as Hs. cbn in Hs. rewrite decide_True in Hs by done.
  rewrite (apply_counts_remove _ _ _ (held sub (delete uid m))); [|done|by rewrite Hc, Hs].
  destruct (decide (sub = sub')) as [<-|Hne]; [done|]. rewrite Hc. by rewrite (held_delete sub' m uid _ Hm), decide_False.
Qed.

Lemma counts_ok_move keys m counts uid sub p q : NoDup keys -> counts_ok keys m counts -> m !! uid = Some (sub, p) ->
  counts_ok keys (<[uid := (sub, q)]> m) (apply_counts keys sub q true (apply_counts keys sub p false counts)).
Proof.
  intros Hnd Hc Hm. rewrite <- insert_delete_eq. apply counts_ok_insert; [done|by apply counts_ok_delete|apply lookup_delete_eq].
Qed.
