(* ===== verification/DriftStateSpec.v ===== *)
(** The delta rules keep the census (src/pkg/sources/topologydrift/state.go, verify.go):
    after any history of pod and node events the counts are those of a rebuild from the
    pods that exist, so the verifier finds nothing to repair. *)
From S2P Require Import Prelude GoTime GoStrings GoHash LeewayTopology DriftInventory DriftState DriftCensus.
Open Scope Z_scope.
Open Scope lookout_scope.

(** ** The pods of a node *)

Record nodes_ok (byNode : gmap string (gmap string unit)) (placements : gmap string Placement) : Prop := {
  no_sets : forall node set, byNode !! node = Some set -> set <> ∅;
  no_pods : forall node uid, is_Some (default ∅ (byNode !! node) !! uid) <-> exists p, placements !! uid = Some p /\ pl_NodeName p = node
}.

Lemma link_uid_lookup node uid m node' uid' :
  is_Some (default ∅ (link_uid node uid m !! node') !! uid') <-> (node' = node /\ uid' = uid) \/ is_Some (default ∅ (m !! node') !! uid').
Proof.
  unfold link_uid. destruct (decide (node' = node)) as [->|Hn].
  - rewrite lookup_insert_eq. cbn. destruct (decide (uid' = uid)) as [->|Hu].
    + rewrite lookup_insert_eq. split; [by left|by eexists].
    + rewrite lookup_insert_ne by done. split; [by right|by intros [[_ ?]|?]].
  - rewrite lookup_insert_ne by done. split; [by right|by intros [[? _]|?]].
Qed.

Lemma unlink_uid_lookup node uid m node' uid' :
  is_Some (default ∅ (unlink_uid node uid m !! node') !! uid') <-> ~ (node' = node /\ uid' = uid) /\ is_Some (default ∅ (m !! node') !! uid').
Proof.
  unfold unlink_uid. destruct (decide (node' = node)) as [->|Hn].
  - assert (is_Some (delete uid (default ∅ (m !! node)) !! uid') <-> ~ (node = node /\ uid' = uid) /\ is_Some (default ∅ (m !! node) !! uid')) as Hd.
    { destruct (decide (uid' = uid)) as [->|Hu].
      - rewrite lookup_delete_eq. split; [by intros []|by intros [[] _]].
      - rewrite lookup_delete_ne by done. split; [|by intros []]. intros Hs. split; [by intros []|done]. }
    destruct (m !! node) as [set|] eqn:E; cbn in Hd |- *; [|rewrite E; exact Hd]. case_bool_decide as He.
    + rewrite lookup_delete_eq. cbn. by rewrite <- He.
    + by rewrite lookup_insert_eq.
  - assert (unlink_uid node uid m !! node' = m !! node') as Hm; [|unfold unlink_uid in Hm; rewrite Hm; split; [by split; [intros []|]|by intros []]].
    unfold unlink_uid. destruct (m !! node); [|done]. case_bool_decide; [by rewrite lookup_delete_ne|by rewrite lookup_insert_ne].
Qed.

Lemma link_ok byNode P uid p : nodes_ok byNode P -> (forall q, P !! uid = Some q -> pl_NodeName q = pl_NodeName p) ->
  nodes_ok (link_uid (pl_NodeName p) uid byNode) (<[uid := p]> P).
Proof.
  intros [Hs Hp] Hq. split.
  - unfold link_uid. intros node set [[_ <-]|[_ Hset]]%lookup_insert_Some; [apply insert_non_empty|by eapply Hs].
  - intros node uid'. rewrite link_uid_lookup, Hp. split.
    + intros [[-> ->]|(q & Hq' & <-)]; [exists p; by rewrite lookup_insert_eq|].
      destruct (decide (uid' = uid)) as [->|Hu]; [exists p; rewrite lookup_insert_eq; by rewrite (Hq q Hq')|exists q; by rewrite lookup_insert_ne].
    + intros (q & [[-> ->]|[Hu Hq']]%lookup_insert_Some & <-); [by left|right; by exists q].
Qed.

Lemma unlink_ok byNode P uid p : nodes_ok byNode P -> P !! uid = Some p -> nodes_ok (unlink_uid (pl_NodeName p) uid byNode) (delete uid P).
Proof.
  intros [Hs Hp] Huid. split.
  - unfold unlink_uid. intros node set. destruct (byNode !! pl_NodeName p); [|by apply Hs]. case_bool_decide.
    + intros [_ Hset]%lookup_delete_Some. by eapply Hs.
    + intros [[_ <-]|[_ Hset]]%lookup_insert_Some; [done|by eapply Hs].
  - intros node uid'. rewrite unlink_uid_lookup, Hp. split.
    + intros [Hne (q & Hq & <-)]. exists q. rewrite lookup_delete_ne; [done|]. intros ->. apply Hne. by simplify_eq.
    + intros (q & [Hu Hq]%lookup_delete_Some & <-). split; [by intros [_ ->]|by exists q].
Qed.

(** A placement that stays on its node. *)
Lemma same_node_ok byNode P uid p q : nodes_ok byNode P -> P !! uid = Some p -> pl_NodeName q = pl_NodeName p -> nodes_ok byNode (<[uid := q]> P).
Proof.
  intros [Hs Hp] Huid Hn. split; [done|]. intros node uid'. rewrite Hp. split.
  - intros (r & Hr & <-). destruct (decide (uid' = uid)) as [->|Hu]; [exists q; rewrite lookup_insert_eq; by simplify_eq|exists r; by rewrite lookup_insert_ne].
  - intros (r & [[-> ->]|[Hu Hr]]%lookup_insert_Some & <-); [by exists p|by exists r].
Qed.

(** ** The invariant of the index *)

Definition domains_now (inv : Inventory) (node : string) : list Domain :=
  match DomainsOf inv node with [] => unknowns (iv_keys inv) | ds => ds end.

Section spec.
Context `{RangeOrder} {I E : Type}.
Context (owners : string -> string -> string -> option ControllerRef) (pinned : Pod -> bool).
Notation PodIndex := (State I E).
Implicit Types s : PodIndex.

Definition seated s : gmap string (SubjectRef * Placement) := map_zip (ds_subjects s) (ds_placements s).

(** The indexes agree with each other. *)
Record index_ok s : Prop := {
  ix_inv : inv_ok (ds_inv s);
  ix_dom : forall uid, is_Some (ds_subjects s !! uid) <-> is_Some (ds_placements s !! uid);
  ix_counts : counts_ok (iv_keys (ds_inv s)) (seated s) (ds_counts s);
  ix_nodes : nodes_ok (ds_byNode s) (ds_placements s);
  ix_kinds : forall uid sub, ds_subjects s !! uid = Some sub -> sr_Kind sub <> SubjectNodeGroup;
  ix_groups : forall sub, is_Some (ds_groups s !! sub) -> sr_Kind sub = SubjectNodeGroup
}.

(** Nothing is remembered of a subject that is not tracked. *)
Definition remembered s (sub : SubjectRef) : Prop :=
  is_Some (ds_representatives s !! sub) \/ is_Some (ds_intents s !! sub) \/ is_Some (ds_evaluations s !! sub).

Definition life_ok s : Prop := forall sub, remembered s sub -> tracked s sub = true.

(** Every placement has the domains its node has now. *)
Definition placed_ok s : Prop := forall uid p, ds_placements s !! uid = Some p -> pl_Domains p = domains_now (ds_inv s) (pl_NodeName p).

(** ** Tracked subjects *)

Lemma row_some keys p l : keys <> [] -> NoDup keys -> is_Some (row keys (p :: l)).
Proof.
  intros Hk Hnd. destruct keys as [|k keys]; [done|]. unfold row. rewrite bool_decide_eq_false_2; [by eexists|]. intros He.
  pose proof (axes_row_in (k :: keys) (p :: l) 0%nat k Hnd eq_refl) as Hr. by rewrite He, lookup_empty in Hr.
Qed.

Lemma row_none keys l : is_Some (row keys l) -> keys <> [] /\ l <> [].
Proof. unfold row. case_bool_decide as He; [by intros []|]. intros _. split; intros ->; apply He; [by destruct l|done]. Qed.

Lemma tracked_spec s sub : tracked s sub = true <-> is_Some (ds_counts s !! sub) \/ is_Some (ds_groups s !! sub).
Proof. unfold tracked. rewrite orb_true_iff, !bool_decide_eq_true. done. Qed.

Lemma seated_lookup s uid : seated s !! uid = match ds_subjects s !! uid, ds_placements s !! uid with Some sub, Some p => Some (sub, p) | _, _ => None end.
Proof. unfold seated. rewrite map_lookup_zip_with. by destruct (ds_subjects s !! uid), (ds_placements s !! uid). Qed.

Lemma seated_insert S P uid sub p : map_zip (<[uid := sub]> S) (<[uid := p]> P) = <[uid := (sub, p)]> (map_zip S P : gmap string (SubjectRef * Placement)).
Proof. symmetry. apply map_insert_zip_with. Qed.

Lemma seated_delete S P uid : map_zip (delete uid S) (delete uid P) = delete uid (map_zip S P : gmap string (SubjectRef * Placement)).
Proof. symmetry. apply map_delete_zip_with. Qed.

(** ** Interning changes nothing else *)

Definition interned_from s s' : Prop := exists i, intern_ok i /\ s' = s <| ds_inv := (ds_inv s) <| iv_intern := i |> |>.

Lemma interned_from_refl s : intern_ok (iv_intern (ds_inv s)) -> interned_from s s.
Proof. intros Hi. exists (iv_intern (ds_inv s)). split; [done|]. by destruct s as [[] ? ? ? ? ? ? ? ? ?]. Qed.

Lemma interned_index s s' : interned_from s s' -> index_ok s -> index_ok s'.
Proof. intros (i & Hi & ->) []. split; try done. by apply set_intern_ok. Qed.

Lemma current_domains_spec node s : inv_ok (ds_inv s) ->
  exists s', current_domains node s = (domains_now (ds_inv s) node, s') /\ interned_from s s'.
Proof.
  intros Hok. unfold current_domains, domains_now. destruct (DomainsOf (ds_inv s) node) as [|d ds].
  - destruct (UnknownTuple_spec (ds_inv s) (vo_intern _ Hok)) as (i & -> & Hi). eexists. split; [done|]. by exists i.
  - exists s. split; [done|]. apply interned_from_refl, Hok.
Qed.

(** Where a pod counts. *)
Definition place_of (inv : Inventory) (pod : Pod) : option Placement :=
  (fun state => mkPlacement (pd_NodeName pod) (domains_now inv (pd_NodeName pod)) state (pinned pod)) <$> podState pod.

Lemma resolvePlacement_spec pod s : inv_ok (ds_inv s) ->
  exists s', resolvePlacement pinned pod s = (place_of (ds_inv s) pod, s') /\ interned_from s s'.
Proof.
  intros Hok. unfold resolvePlacement, place_of. destruct (podState pod) as [st|]; cbn.
  - destruct (current_domains_spec (pd_NodeName pod) s Hok) as (s' & -> & Hs). by exists s'.
  - exists s. split; [done|]. apply interned_from_refl, Hok.
Qed.

(** ** Uncounting and seating *)

Lemma apply_counts_other keys sub p add counts sub' : sub <> sub' -> apply_counts keys sub p add counts !! sub' = counts !! sub'.
Proof.
  intros Hne. unfold apply_counts. destruct (counts !! sub); [|destruct add; [|done]]; cbv zeta; case_bool_decide;
    (by rewrite lookup_delete_ne) || by rewrite lookup_insert_ne.
Qed.

Lemma tracked_other s s' sub : ds_counts s' !! sub = ds_counts s !! sub -> ds_groups s' = ds_groups s -> tracked s' sub = tracked s sub.
Proof. intros Hc Hg. unfold tracked. by rewrite Hc, Hg. Qed.

Lemma index_subject s uid p : index_ok s -> ds_placements s !! uid = Some p ->
  exists sub, ds_subjects s !! uid = Some sub /\ seated s !! uid = Some (sub, p).
Proof.
  intros Hok Hp. assert (is_Some (ds_subjects s !! uid)) as [sub Hs] by (apply (ix_dom _ Hok); by eexists).
  exists sub. by rewrite seated_lookup, Hs, Hp.
Qed.

(** The state with a pod taken out of its four indexes. *)
Definition unseated (uid : string) (sub : SubjectRef) (p : Placement) s : PodIndex :=
  unlinkNode (pl_NodeName p) uid ((applyLocked sub p false s) <| ds_placements ::= delete uid |> <| ds_subjects ::= delete uid |>).

Lemma unseated_ok uid sub p s : index_ok s -> ds_placements s !! uid = Some p -> ds_subjects s !! uid = Some sub -> index_ok (unseated uid sub p s).
Proof.
  intros Hok Hp Hs. assert (seated s !! uid = Some (sub, p)) as Hseat by by rewrite seated_lookup, Hs, Hp. destruct Hok as [Hinv Hdom Hc Hn Hk Hg].
  split; cbn; try done.
  - intros uid'. destruct (decide (uid' = uid)) as [->|Hu]; [by rewrite !lookup_delete_eq|by rewrite !lookup_delete_ne].
  - unfold seated. cbn. rewrite seated_delete. apply counts_ok_delete; [apply Hinv|done|done].
  - by apply unlink_ok.
  - intros uid' sub' [_ Hs']%lookup_delete_Some. by eapply Hk.
Qed.

Lemma uncount_eq uid s : index_ok s ->
  (ds_placements s !! uid = None /\ ds_subjects s !! uid = None /\ uncount uid s = (s, false)) \/
  exists sub p, ds_placements s !! uid = Some p /\ ds_subjects s !! uid = Some sub /\
    let s1 := unseated uid sub p s in
    uncount uid s = (enqueue sub (if negb (tracked s1 sub) then forgetLocked sub s1
                                  else match ds_representatives s1 !! sub with
                                       | Some (uid', _) => if uid' ==s uid then s1 <| ds_representatives ::= delete sub |> else s1
                                       | None => s1
                                       end), true).
Proof.
  intros Hok. unfold uncount. destruct (ds_placements s !! uid) as [p|] eqn:Hp.
  - right. destruct (index_subject s uid p Hok Hp) as (sub & Hs & _). exists sub, p. rewrite Hs. done.
  - left. split; [done|]. split; [|done]. apply eq_None_not_Some. rewrite (ix_dom _ Hok), Hp. apply is_Some_None.
Qed.

Lemma uncount_ok uid s : index_ok s -> life_ok s -> let s' := (uncount uid s).1 in
  index_ok s' /\ life_ok s' /\ ds_placements s' = delete uid (ds_placements s) /\ ds_subjects s' = delete uid (ds_subjects s) /\ ds_inv s' = ds_inv s.
Proof.
  clear owners pinned. intros Hok Hlife. destruct (uncount_eq uid s Hok) as [(Hp & Hs & ->)|(sub & p & Hp & Hs & ->)]; cbn [fst].
  { by rewrite !delete_id. }
  pose proof (unseated_ok uid sub p s Hok Hp Hs) as Hok1. set (s1 := unseated uid sub p s) in *.
  assert (forall sub', sub' <> sub -> tracked s sub' = true -> tracked s1 sub' = true) as Hother.
  { intros sub' Hne <-. apply tracked_other; [|done]. by apply apply_counts_other. }
  assert (ds_placements s1 = delete uid (ds_placements s) /\ ds_subjects s1 = delete uid (ds_subjects s) /\ ds_inv s1 = ds_inv s /\
    ds_representatives s1 = ds_representatives s /\ ds_intents s1 = ds_intents s /\ ds_evaluations s1 = ds_evaluations s) as (E1 & E2 & E3 & E4 & E5 & E6) by done.
  clearbody s1. destruct (tracked s1 sub) eqn:Ht; cbn [negb].
  - assert (forall s2, remembered s2 = remembered s1 \/ (forall sub', remembered s2 sub' -> remembered s1 sub') -> tracked s2 = tracked s1 -> life_ok s2) as Hl.
    { intros s2 Hr Htr sub' Hs'. rewrite Htr. destruct (decide (sub' = sub)) as [->|Hne]; [done|]. apply Hother, Hlife; [done|].
      assert (remembered s1 sub') as Hr1 by (destruct Hr as [<-|Hr]; auto). revert Hr1. unfold remembered. by rewrite E4, E5, E6. }
    destruct (ds_representatives s1 !! sub) as [[uid' name]|]; [destruct (bool_decide _)|];
      (split; [by destruct Hok1; split|split; [|done]]); apply Hl; try done; auto.
    right. intros sub'. unfold remembered. cbn. intros [Hr|Hr]; [|by right]. left. revert Hr. rewrite lookup_delete_is_Some. by intros [].
  - split; [by destruct Hok1; split|]. split; [|done]. intros sub' Hr. unfold remembered in Hr. cbn in Hr.
    rewrite !lookup_delete_is_Some, E4, E5, E6 in Hr. assert (sub' <> sub) as Hne by naive_solver.
    change (tracked s1 sub' = true). apply Hother; [done|]. apply Hlife. unfold remembered. naive_solver.
Qed.

Lemma resolveSubject_kind pod sub : resolveSubject owners pod = Some sub -> sr_Kind sub <> SubjectNodeGroup.
Proof.
  unfold resolveSubject. destruct (controllerOf _) as [c|]; [|done]. destruct (_ || _) eqn:Ek.
  - intros [= <-]. cbn. rewrite !orb_true_iff, !bool_decide_eq_true in Ek. by destruct Ek as [[-> | ->]| ->].
  - repeat case_match; try done. by intros [= <-].
Qed.

Lemma held_seat (m : gmap string (SubjectRef * Placement)) uid sub p : m !! uid = Some (sub, p) -> exists l, held sub m ≡ₚ p :: l.
Proof. intros Hm. exists (held sub (delete uid m)). rewrite (held_delete sub m uid _ Hm). cbn. by rewrite decide_True. Qed.

(** A counted subject is tracked as soon as there is an axis. *)
Lemma seat_tracked s uid sub p : index_ok s -> seated s !! uid = Some (sub, p) -> iv_keys (ds_inv s) <> [] -> tracked s sub = true.
Proof.
  intros Hok Hm Hk. apply tracked_spec. left. destruct (held_seat _ _ _ _ Hm) as [l Hl]. rewrite (ix_counts _ Hok), Hl.
  apply row_some; [done|apply Hok].
Qed.

Lemma life_moved s s' uid sub p : index_ok s -> index_ok s' -> life_ok s -> seated s' !! uid = Some (sub, p) ->
  iv_keys (ds_inv s') = iv_keys (ds_inv s) -> ds_groups s' = ds_groups s ->
  (forall sub', sub' <> sub -> ds_counts s' !! sub' = ds_counts s !! sub') ->
  (forall sub', remembered s' sub' -> remembered s sub') -> life_ok s'.
Proof.
  intros Hok Hok' Hlife Hm Hk Hg Hc Hr sub' Hs'. apply Hr, Hlife in Hs'. destruct (decide (sub' = sub)) as [->|Hne].
  - apply tracked_spec in Hs' as [Hs'|Hs']; [|apply tracked_spec; right; by rewrite Hg]. rewrite (ix_counts _ Hok) in Hs'.
    apply row_none in Hs' as [Hne _]. eapply seat_tracked; [done..|]. by rewrite Hk.
  - by rewrite (tracked_other s s') by auto.
Qed.

(** Taking the old placement out, then putting the new one in. *)
Definition moved (pod : Pod) (sub : SubjectRef) (prev : option Placement) (next : Placement) s : PodIndex :=
  let uid := pd_UID pod in
  match prev with
  | Some prev =>
      let s := applyLocked sub prev false s in
      if pl_NodeName prev <>s pl_NodeName next then unlinkNode (pl_NodeName prev) uid s else s
  | None => s
  end.

Definition linked (uid : string) (sub : SubjectRef) (next : Placement) s : PodIndex :=
  applyLocked sub next true (linkNode (pl_NodeName next) uid (s <| ds_placements ::= <[uid := next]> |> <| ds_subjects ::= <[uid := sub]> |>)).

Lemma moved_fields pod sub prev next s : let s' := moved pod sub prev next s in
  ds_placements s' = ds_placements s /\ ds_subjects s' = ds_subjects s /\ ds_inv s' = ds_inv s /\ ds_groups s' = ds_groups s /\
  remembered s' = remembered s /\ (forall sub', sub' <> sub -> ds_counts s' !! sub' = ds_counts s !! sub').
Proof.
  unfold moved. destruct prev as [prev|]; [|done]. destruct (negb _); cbn; (do 5 (split; [done|])); intros; by apply apply_counts_other.
Qed.

Lemma linked_ok pod sub next s : index_ok s -> sr_Kind sub <> SubjectNodeGroup ->
  (forall p, ds_placements s !! pd_UID pod = Some p -> ds_subjects s !! pd_UID pod = Some sub) ->
  index_ok (linked (pd_UID pod) sub next (moved pod sub (ds_placements s !! pd_UID pod) next s)).
Proof.
  intros Hok Hkind Hsub. set (uid := pd_UID pod) in *. destruct (moved_fields pod sub (ds_placements s !! uid) next s) as (E1 & E2 & E3 & E4 & _).
  destruct Hok as [Hinv Hdom Hc Hn Hk Hg]. pose proof (seated_lookup s uid) as Hseat. set (s0 := moved pod sub _ next s) in *.
  assert (counts_ok (iv_keys (ds_inv s)) (<[uid := (sub, next)]> (seated s)) (apply_counts (iv_keys (ds_inv s)) sub next true (ds_counts s0))) as Hc'.
  { unfold s0, moved. destruct (ds_placements s !! uid) as [p|] eqn:Hp.
    - rewrite (Hsub p eq_refl) in Hseat.
      replace (ds_counts _) with (apply_counts (iv_keys (ds_inv s)) sub p false (ds_counts s)) by by case_match.
      by apply counts_ok_move; [apply Hinv|..].
    - apply counts_ok_insert; [apply Hinv|done|]. rewrite Hseat. by destruct (ds_subjects s !! uid). }
  assert (nodes_ok (link_uid (pl_NodeName next) uid (ds_byNode s0)) (<[uid := next]> (ds_placements s))) as Hn'.
  { unfold s0, moved. destruct (ds_placements s !! uid) as [p|] eqn:Hp; cbn.
    - case_bool_decide as Heq; cbn.
      + apply link_ok; [done|]. intros q Hq. by simplify_eq.
      + rewrite <- (insert_delete_eq _ uid next). apply link_ok; [by apply unlink_ok|]. intros q. by rewrite lookup_delete_eq.
    - apply link_ok; [done|]. intros q Hq. by rewrite Hp in Hq. }
  clearbody s0. split; cbn; rewrite ?E1, ?E2, ?E3, ?E4; try done.
  - intros uid'. destruct (decide (uid' = uid)) as [->|Hu]; [rewrite !lookup_insert_eq; split; by eexists|by rewrite !lookup_insert_ne].
  - unfold seated. cbn. by rewrite ?E1, ?E2, seated_insert.
  - intros uid' sub' [[_ <-]|[_ Hs]]%lookup_insert_Some; [done|by eapply Hk].
Qed.

Lemma seat_linked pod sub next s : seat pod sub next s =
  let s := linked (pd_UID pod) sub next s in if tracked s sub then s <| ds_representatives ::= <[sub := (pd_UID pod, pd_Name pod)]> |> else s.
Proof. done. Qed.

Lemma seat_moved_ok pod sub next s : index_ok s -> life_ok s -> sr_Kind sub <> SubjectNodeGroup ->
  (forall p, ds_placements s !! pd_UID pod = Some p -> ds_subjects s !! pd_UID pod = Some sub) ->
  let s' := seat pod sub next (moved pod sub (ds_placements s !! pd_UID pod) next s) in
  index_ok s' /\ life_ok s' /\ ds_placements s' = <[pd_UID pod := next]> (ds_placements s) /\
  ds_subjects s' = <[pd_UID pod := sub]> (ds_subjects s) /\ ds_inv s' = ds_inv s.
Proof.
  intros Hok Hlife Hkind Hsub. rewrite seat_linked. pose proof (linked_ok pod sub next s Hok Hkind Hsub) as Hok1.
  destruct (moved_fields pod sub (ds_placements s !! pd_UID pod) next s) as (E1 & E2 & E3 & E4 & E5 & E6).
  set (s0 := moved pod sub _ next s) in *. clearbody s0. cbv zeta. set (s1 := linked (pd_UID pod) sub next s0) in *.
  assert (ds_placements s1 = <[pd_UID pod := next]> (ds_placements s) /\ ds_subjects s1 = <[pd_UID pod := sub]> (ds_subjects s) /\ ds_inv s1 = ds_inv s) as (F1 & F2 & F3)
    by (cbn; by rewrite E1, E2, E3).
  assert (life_ok s1) as Hl1.
  { eapply (life_moved s s1 (pd_UID pod) sub next); try done.
    - rewrite seated_lookup, F1, F2. by rewrite !lookup_insert_eq.
    - by rewrite F3.
    - intros sub' Hne. cbn. rewrite apply_counts_other by done. by apply E6.
    - intros sub'. by rewrite <- E5. }
  clearbody s1. destruct (tracked s1 sub) eqn:Ht; [|done]. split; [by destruct Hok1; split|]. split; [|done].
  intros sub' Hr. change (tracked s1 sub' = true). destruct (decide (sub' = sub)) as [->|Hne]; [done|]. apply Hl1.
  unfold remembered in *. cbn in Hr. by rewrite lookup_insert_ne in Hr.
Qed.

Lemma notified_all s q : index_ok s -> life_ok s -> index_ok (s <| ds_notified := q |>) /\ life_ok (s <| ds_notified := q |>).
Proof. intros [] Hl. by split; [split|]. Qed.

(** The subject a pod is counted under: the one it was first counted under, or its owner's. *)
Definition subject_now s (pod : Pod) : option SubjectRef := subjectOf owners pod (pd_UID pod) s.

Definition all_ok s : Prop := index_ok s /\ life_ok s /\ placed_ok s.

Lemma interned_all s s' : interned_from s s' -> all_ok s -> all_ok s'.
Proof. intros Hi (H1 & H2 & H3). split; [by eapply interned_index|]. by destruct Hi as (i & _ & ->). Qed.

Lemma interned_facts pod s s1 : interned_from s s1 -> exists i, ds_placements s1 = ds_placements s /\ ds_subjects s1 = ds_subjects s /\
  ds_inv s1 = (ds_inv s) <| iv_intern := i |> /\ subjectOf owners pod (pd_UID pod) s1 = subject_now s pod /\
  place_of (ds_inv s1) pod = place_of (ds_inv s) pod.
Proof. intros (i & _ & ->). by exists i. Qed.

Lemma OnPodUpdate_eq pod s s1 : resolvePlacement pinned pod s = (place_of (ds_inv s) pod, s1) ->
  OnPodUpdate owners pinned pod s =
  match place_of (ds_inv s) pod with
  | None => uncount (pd_UID pod) s1
  | Some next =>
      if match ds_placements s1 !! pd_UID pod with Some prev => Placement_Equal prev next | None => false end then (s1, false)
      else match subjectOf owners pod (pd_UID pod) s1 with
           | None => uncount (pd_UID pod) s1
           | Some sub => (enqueue sub (seat pod sub next (moved pod sub (ds_placements s1 !! pd_UID pod) next s1)), true)
           end
  end.
Proof. intros Hres. unfold OnPodUpdate. by rewrite Hres. Qed.

(** The pod indexes after an event of [pod]. *)
Lemma OnPodUpdate_ok pod s : all_ok s -> let s' := (OnPodUpdate owners pinned pod s).1 in
  all_ok s' /\ (exists i, ds_inv s' = (ds_inv s) <| iv_intern := i |>) /\
  match place_of (ds_inv s) pod, subject_now s pod with
  | Some p, Some sub => ds_placements s' = <[pd_UID pod := p]> (ds_placements s) /\ ds_subjects s' = <[pd_UID pod := sub]> (ds_subjects s)
  | _, _ => ds_placements s' = delete (pd_UID pod) (ds_placements s) /\ ds_subjects s' = delete (pd_UID pod) (ds_subjects s)
  end.
Proof.
  intros Hall. destruct (resolvePlacement_spec pod s (ix_inv _ (proj1 Hall))) as (s1 & Hres & Hi). rewrite (OnPodUpdate_eq pod s s1 Hres).
  pose proof (interned_all _ _ Hi Hall) as (Hok & Hlife & Hpl). destruct (interned_facts pod s s1 Hi) as (i & E1 & E2 & E3 & E4 & E5).
  clear Hres Hi. rewrite <- E1, <- E2. rewrite E4.
  assert (all_ok (uncount (pd_UID pod) s1).1 /\ (exists i, ds_inv (uncount (pd_UID pod) s1).1 = (ds_inv s) <| iv_intern := i |>) /\
    ds_placements (uncount (pd_UID pod) s1).1 = delete (pd_UID pod) (ds_placements s1) /\
    ds_subjects (uncount (pd_UID pod) s1).1 = delete (pd_UID pod) (ds_subjects s1)) as Hun.
  { destruct (uncount_ok (pd_UID pod) s1 Hok Hlife) as (U1 & U2 & U3 & U4 & U5). split; [split; [done|split; [done|]]|].
    - intros uid p. rewrite U3, U5. intros [_ Hp]%lookup_delete_Some. exact (Hpl uid p Hp).
    - split; [exists i; by rewrite U5|done]. }
  destruct (place_of (ds_inv s) pod) as [next|] eqn:Hplace; [|exact Hun]. cbv zeta.
  destruct (subject_now s pod) as [sub|] eqn:Hsub.
  - assert (forall p, ds_placements s1 !! pd_UID pod = Some p -> ds_subjects s1 !! pd_UID pod = Some sub) as Hcached.
    { intros p Hp. destruct (index_subject s1 _ _ Hok Hp) as (sub' & Hs & _). unfold subjectOf in E4. rewrite Hs in E4. congruence. }
    assert (sr_Kind sub <> SubjectNodeGroup) as Hkind.
    { unfold subjectOf in E4. destruct (ds_subjects s1 !! pd_UID pod) as [sub'|] eqn:Hs; simplify_eq.
      - by eapply (ix_kinds _ Hok).
      - by eapply resolveSubject_kind. }
    destruct (match ds_placements s1 !! pd_UID pod with Some prev => Placement_Equal prev next | None => false end) eqn:Hsame.
    + destruct (ds_placements s1 !! pd_UID pod) as [prev|] eqn:Hp; [|done]. apply Placement_Equal_eq in Hsame as ->. cbn [fst].
      rewrite !insert_id by eauto. split; [by split|]. split; [by exists i|done].
    + destruct (seat_moved_ok pod sub next s1 Hok Hlife Hkind Hcached) as (M1 & M2 & M3 & M4 & M5).
      set (s2 := seat pod sub next _) in *. clearbody s2. cbn [fst].
      destruct (notified_all s2 (ds_notified s2 ++ [sub]) M1 M2) as [N1 N2]. change (enqueue sub s2) with (s2 <| ds_notified := ds_notified s2 ++ [sub] |>).
      split; [split; [exact N1|split; [exact N2|]]|].
      * intros uid p. cbn. rewrite M3, M5. intros [[<- <-]|[_ Hp]]%lookup_insert_Some; [|exact (Hpl uid p Hp)].
        assert (place_of (ds_inv s1) pod = Some next) as Hn by congruence. unfold place_of in Hn. apply fmap_Some in Hn as (st & _ & ->). done.
      * split; [exists i; cbn; by rewrite M5|done].
  - destruct (match ds_placements s1 !! pd_UID pod with Some prev => Placement_Equal prev next | None => false end) eqn:Hsame; [|exact Hun].
    destruct (ds_placements s1 !! pd_UID pod) as [prev|] eqn:Hp; [|done]. destruct (index_subject s1 _ _ Hok Hp) as (sub & Hs & _).
    unfold subjectOf in E4. by rewrite Hs in E4.
Qed.

(** ** Re-mapping the pods of a node *)

Lemma remap_pod_ok domains uid s t p : index_ok s -> life_ok s -> ds_placements s !! uid = Some p ->
  let s' := (remap_pod domains uid (s, t)).1 in
  index_ok s' /\ life_ok s' /\ ds_placements s' = <[uid := p <| pl_Domains := domains |>]> (ds_placements s) /\
  ds_subjects s' = ds_subjects s /\ ds_inv s' = ds_inv s.
Proof.
  intros Hok Hlife Hp. unfold remap_pod. rewrite Hp. cbn [default from_option id]. set (next := p <| pl_Domains := domains |>).
  destruct (Placement_Equal p next) eqn:Heq; cbn [fst].
  { apply Placement_Equal_eq in Heq. rewrite <- Heq. rewrite insert_id by done. done. }
  destruct (index_subject s uid p Hok Hp) as (sub & Hs & Hseat). rewrite Hs. cbn [default from_option id].
  assert (forall S : PodIndex, S = applyLocked sub next true ((applyLocked sub p false s) <| ds_placements ::= <[uid := next]> |>) ->
    index_ok S /\ life_ok S) as HS; [|split; [by eapply HS|split; [by eapply HS|done]]].
  intros S HS. assert (index_ok S) as HokS.
  { subst S. destruct Hok as [Hinv Hdom Hc Hn Hk Hg]. split; cbn; try done.
    - intros uid'. rewrite Hdom. destruct (decide (uid' = uid)) as [->|Hu]; [rewrite lookup_insert_eq, Hp; split; by eexists|by rewrite lookup_insert_ne].
    - unfold seated. cbn. rewrite <- (insert_id (ds_subjects s) uid sub Hs), seated_insert.
      by apply counts_ok_move; [apply Hinv|..].
    - by eapply same_node_ok. }
  split; [done|]. eapply (life_moved s S uid sub next); subst S; try done.
  - rewrite seated_lookup. cbn. by rewrite Hs, lookup_insert_eq.
  - intros sub' Hne. cbn. by rewrite !apply_counts_other.
Qed.

Lemma remap_loop_ok domains l : forall s t, index_ok s -> life_ok s -> (forall uid, uid ∈ l.*1 -> is_Some (ds_placements s !! uid)) ->
  let s' := (range_loop (fun uid (_ : unit) => remap_pod domains uid) l (s, t)).1 in
  index_ok s' /\ life_ok s' /\ ds_subjects s' = ds_subjects s /\ ds_inv s' = ds_inv s /\
  forall uid, ds_placements s' !! uid = if decide (uid ∈ l.*1) then (fun p => p <| pl_Domains := domains |>) <$> ds_placements s !! uid else ds_placements s !! uid.
Proof.
  induction l as [|[uid []] l IH]; intros s t Hok Hlife Hl; cbn [range_loop].
  { do 4 (split; [done|]). intros uid. rewrite decide_False by apply not_elem_of_nil. done. }
  assert (is_Some (ds_placements s !! uid)) as [p Hp] by (apply Hl; by left).
  destruct (remap_pod_ok domains uid s t p Hok Hlife Hp) as (R1 & R2 & R3 & R4 & R5).
  destruct (remap_pod domains uid (s, t)) as [s1 t1]. cbn [fst] in *.
  destruct (IH s1 t1 R1 R2) as (I1 & I2 & I3 & I4 & I5).
  { intros uid' Hin. rewrite R3. destruct (decide (uid' = uid)) as [->|Hu]; [rewrite lookup_insert_eq; by eexists|].
    rewrite lookup_insert_ne by done. apply Hl. by right. }
  split; [done|]. split; [done|]. split; [by rewrite I3|]. split; [by rewrite I4|]. intros uid'. rewrite I5, R3.
  destruct (decide (uid' = uid)) as [->|Hu].
  - rewrite lookup_insert_eq, Hp. destruct (decide (uid ∈ ((uid, tt) :: l).*1)) as [_|Hn]; [|destruct Hn; by left]. by case_decide.
  - rewrite !lookup_insert_ne by done. destruct (decide (uid' ∈ l.*1)) as [Hin|Hin].
    + destruct (decide (uid' ∈ ((uid, tt) :: l).*1)) as [_|Hn]; [done|destruct Hn; by right].
    + destruct (decide (uid' ∈ ((uid, tt) :: l).*1)) as [Hn|_]; [|done]. apply elem_of_cons in Hn as [?|?]; done.
Qed.

Lemma enqueue_all_fields l : forall s, let s' := range_loop (fun sub (_ : unit) => enqueue sub) l s in
  exists q, s' = s <| ds_notified := q |>.
Proof.
  induction l as [|[sub []] l IH]; intros s; cbn [range_loop]; [exists (ds_notified s); by destruct s|].
  destruct (IH (enqueue sub s)) as [q ->]. by exists q.
Qed.

(** After [remapNode] every placement on the node has the node's domains, and no other
    placement moved. *)
Lemma remapNode_ok node s : index_ok s -> life_ok s -> let s' := remapNode node s in
  index_ok s' /\ life_ok s' /\ ds_subjects s' = ds_subjects s /\ (exists i, ds_inv s' = (ds_inv s) <| iv_intern := i |>) /\
  forall uid, ds_placements s' !! uid =
    (fun p => if decide (pl_NodeName p = node) then p <| pl_Domains := domains_now (ds_inv s) node |> else p) <$> ds_placements s !! uid.
Proof.
  intros Hok Hlife. unfold remapNode. pose proof (no_pods _ _ (ix_nodes _ Hok) node) as Hpods. case_bool_decide as He.
  - split; [done|]. split; [done|]. split; [done|]. split; [exists (iv_intern (ds_inv s)); by destruct (ds_inv s)|]. intros uid.
    destruct (ds_placements s !! uid) as [p|] eqn:Hp; [|done]. cbn. case_decide as Hn; [|done]. exfalso.
    assert (is_Some (default ∅ (ds_byNode s !! node) !! uid)) as [? Hx] by (apply Hpods; by exists p). by rewrite He, lookup_empty in Hx.
  - destruct (current_domains_spec node s (ix_inv _ Hok)) as (s1 & -> & Hi). pose proof (interned_index _ _ Hi Hok) as Hok1.
    destruct Hi as (i & _ & Es1). assert (life_ok s1 /\ ds_placements s1 = ds_placements s /\ ds_subjects s1 = ds_subjects s /\
      ds_inv s1 = (ds_inv s) <| iv_intern := i |>) as (Hl1 & E1 & E2 & E3) by (by subst s1). clear Es1.
    assert (forall uid, uid ∈ (range 0 (default ∅ (ds_byNode s !! node))).*1 <-> exists p, ds_placements s !! uid = Some p /\ pl_NodeName p = node) as Hin.
    { intros uid. rewrite <- Hpods. rewrite list_elem_of_fmap. split.
      - intros ([uid' u] & -> & Hr%elem_of_range). by eexists.
      - intros [u Hu]. exists (uid, u). split; [done|by apply elem_of_range]. }
    destruct (remap_loop_ok (domains_now (ds_inv s) node) (range 0 (default ∅ (ds_byNode s !! node))) s1 ∅ Hok1 Hl1) as (L1 & L2 & L3 & L4 & L5).
    { intros uid (p & Hp & _)%Hin. rewrite E1. by eexists. }
    destruct (range_loop _ (range 0 _) (s1, ∅)) as [s2 touched]. cbn [fst] in *.
    destruct (enqueue_all_fields (range 1 touched) s2) as [q ->]. destruct (notified_all s2 q L1 L2) as [N1 N2].
    split; [done|]. split; [done|]. split; [change (ds_subjects s2 = ds_subjects s); by rewrite L3|]. split; [exists i; change (ds_inv s2 = (ds_inv s) <| iv_intern := i |>); by rewrite L4|]. intros uid. cbn. rewrite L5, E1.
    destruct (ds_placements s !! uid) as [p|] eqn:Hp; [|by case_decide]. cbn. destruct (decide (pl_NodeName p = node)) as [Hn|Hn].
    + rewrite decide_True; [done|]. apply Hin. by exists p.
    + rewrite decide_False; [done|]. rewrite Hin. intros (p' & Hp' & Hn'). by simplify_eq.
Qed.
End spec.
