(* ===== verification/DriftVerify.v ===== *)
(** Histories of the placement source and its verifier (src/pkg/sources/topologydrift:
    state.go, verify.go). *)
From S2P Require Import Prelude GoTime GoStrings GoHash LeewayTopology DriftInventory DriftState DriftCensus DriftStateSpec.
Open Scope Z_scope.
Open Scope lookout_scope.

Section spec.
Context `{RangeOrder} {I E : Type}.
Context (owners : string -> string -> string -> option ControllerRef) (pinned : Pod -> bool).
Notation PodIndex := (State I E).
Implicit Types s : PodIndex.

(** A state the source can be in, and the pods that exist then: the handlers run in any
    order on whatever pods and nodes the informers report. *)
Inductive watched : PodIndex -> gmap string Pod -> Prop :=
  | w_new keys : watched (NewState (NewInventory keys)) ∅
  | w_pod s live pod : watched s live -> watched (OnPodUpdate owners pinned pod s).1 (<[pd_UID pod := pod]> live)
  | w_pod_gone s live pod : watched s live -> watched (OnPodDelete pod s).1 (delete (pd_UID pod) live)
  | w_node s live now node : watched s live -> node_ok node -> watched (OnNodeUpsert now node s).1 live
  | w_node_gone s live name : watched s live -> watched (OnNodeDelete name s).1 live
  | w_groups s live groups : watched s live -> (forall sub, is_Some (groups !! sub) -> sr_Kind sub = SubjectNodeGroup) ->
      watched (SetGroups groups s) live
  | w_representative s live sub uid name : watched s live -> watched (SetRepresentative sub uid name s) live
  | w_intents s live sub intents : watched s live -> watched (SetIntents sub intents s) live
  | w_evaluations s live sub evals : watched s live -> watched (SetEvaluations sub evals s) live.

(** ** The pods that exist are the pods that are counted *)

Definition placed_as (pod : Pod) (p : Placement) : Prop :=
  podState pod = Some (pl_State p) /\ pl_NodeName p = pd_NodeName pod /\ pl_Pinned p = pinned pod.

Record live_ok (live : gmap string Pod) s : Prop := {
  lv_uid : forall uid pod, live !! uid = Some pod -> pd_UID pod = uid;
  lv_placed : forall uid p, ds_placements s !! uid = Some p -> exists pod, live !! uid = Some pod /\ placed_as pod p;
  lv_left : forall uid pod, live !! uid = Some pod -> ds_placements s !! uid = None -> podState pod = None \/ resolveSubject owners pod = None
}.

Lemma place_of_placed inv pod p : place_of pinned inv pod = Some p -> placed_as pod p.
Proof. unfold place_of. intros (st & Hst & ->)%fmap_Some. done. Qed.

Lemma live_pod live s s' pod : all_ok s -> live_ok live s ->
  match place_of pinned (ds_inv s) pod, subject_now owners s pod with
  | Some p, Some sub => ds_placements s' = <[pd_UID pod := p]> (ds_placements s) /\ ds_subjects s' = <[pd_UID pod := sub]> (ds_subjects s)
  | _, _ => ds_placements s' = delete (pd_UID pod) (ds_placements s) /\ ds_subjects s' = delete (pd_UID pod) (ds_subjects s)
  end -> live_ok (<[pd_UID pod := pod]> live) s'.
Proof.
  intros (Hok & _) [Hu Hp Hl] Hs'.
  assert (match place_of pinned (ds_inv s) pod, subject_now owners s pod with
          | Some p, Some sub => ds_placements s' = <[pd_UID pod := p]> (ds_placements s)
          | _, _ => ds_placements s' = delete (pd_UID pod) (ds_placements s) /\ (podState pod = None \/ resolveSubject owners pod = None)
          end) as Hpl.
  { unfold subject_now, subjectOf in *. destruct (place_of pinned (ds_inv s) pod) as [p|] eqn:Ep.
    - destruct (ds_subjects s !! pd_UID pod); [by destruct Hs'|]. destruct (resolveSubject owners pod) eqn:Er; [by destruct Hs'|].
      destruct Hs' as [-> _]. split; [done|]. by right.
    - destruct Hs' as [-> _]. split; [done|]. left. unfold place_of in Ep. by destruct (podState pod). }
  clear Hs'. split.
  - intros uid pod' [[<- <-]|[_ Hin]]%lookup_insert_Some; [done|by apply Hu].
  - intros uid p Huid. destruct (decide (uid = pd_UID pod)) as [->|Hne].
    + rewrite lookup_insert_eq. exists pod. split; [done|]. destruct (place_of pinned (ds_inv s) pod) as [q|] eqn:Eq; [destruct (subject_now owners s pod)|].
      * rewrite Hpl, lookup_insert_eq in Huid. simplify_eq. by eapply place_of_placed.
      * destruct Hpl as [Hpl _]. by rewrite Hpl, lookup_delete_eq in Huid.
      * destruct Hpl as [Hpl _]. by rewrite Hpl, lookup_delete_eq in Huid.
    + rewrite lookup_insert_ne by done. apply Hp. revert Huid.
      destruct (place_of pinned (ds_inv s) pod); [destruct (subject_now owners s pod)|]; [rewrite Hpl; by rewrite lookup_insert_ne|..];
        destruct Hpl as [-> _]; by rewrite lookup_delete_ne.
  - intros uid pod' [[<- <-]|[Hne Hin]]%lookup_insert_Some Hnone.
    + destruct (place_of pinned (ds_inv s) pod); [destruct (subject_now owners s pod)|]; [by rewrite Hpl, lookup_insert_eq in Hnone|by destruct Hpl..].
    + apply (Hl uid pod' Hin). revert Hnone.
      destruct (place_of pinned (ds_inv s) pod); [destruct (subject_now owners s pod)|]; [rewrite Hpl; by rewrite lookup_insert_ne|..];
        destruct Hpl as [-> _]; by rewrite lookup_delete_ne.
Qed.

Lemma live_gone live s s' uid : live_ok live s -> ds_placements s' = delete uid (ds_placements s) -> live_ok (delete uid live) s'.
Proof.
  intros [Hu Hp Hl] E'. split.
  - intros uid' pod [_ Hin]%lookup_delete_Some. by apply Hu.
  - rewrite E'. intros uid' p [Hne Hin]%lookup_delete_Some. rewrite lookup_delete_ne by done. by apply Hp.
  - intros uid' pod [Hne Hin]%lookup_delete_Some. rewrite E', lookup_delete_ne by done. by apply Hl.
Qed.

(** Placements may take new domains. *)
Lemma live_remap live s s' (f : Placement -> Placement) : live_ok live s -> (forall pod p, placed_as pod p -> placed_as pod (f p)) ->
  (forall uid, ds_placements s' !! uid = f <$> ds_placements s !! uid) -> live_ok live s'.
Proof.
  intros [Hu Hp Hl] Hf E'. split; [done|..].
  - intros uid p. rewrite E'. intros (q & Hq & ->)%fmap_Some. destruct (Hp uid q Hq) as (pod & Hpod & Hpl). exists pod. auto.
  - intros uid pod Hin. rewrite E'. intros Hn%fmap_None. by eapply Hl.
Qed.

Lemma live_same live s s' : live_ok live s -> ds_placements s' = ds_placements s -> live_ok live s'.
Proof. intros Hl E'. eapply (live_remap live s s' id Hl); [done|]. intros uid. rewrite E'. by destruct (ds_placements s !! uid). Qed.

(** ** Node events *)

Lemma set_inv_ok s inv : index_ok s -> life_ok s -> inv_ok inv -> iv_keys inv = iv_keys (ds_inv s) ->
  index_ok (s <| ds_inv := inv |>) /\ life_ok (s <| ds_inv := inv |>).
Proof. intros [H1 H2 H3 H4 H5 H6] Hl Hi Hk. split; [|done]. split; try done. cbn. by rewrite Hk. Qed.

Lemma domains_now_kept inv inv' node : iv_keys inv' = iv_keys inv -> DomainsOf inv' node = DomainsOf inv node -> domains_now inv' node = domains_now inv node.
Proof. intros Hk Hd. unfold domains_now. by rewrite Hd, Hk. Qed.

Lemma node_event_ok live s inv name ch (remap : bool) : all_ok s -> live_ok live s -> inv_ok inv -> domains_kept name ch (ds_inv s) inv ->
  (remap = false -> ch_DomainsChanged ch = false \/ inv = ds_inv s) ->
  let s1 := s <| ds_inv := inv |> in let s' := if remap then remapNode name s1 else s1 in all_ok s' /\ live_ok live s'.
Proof.
  intros (Hok & Hlife & Hpl) Hlive Hinv (Hk & Hother & Hsame) Hr. cbv zeta. destruct (set_inv_ok s inv Hok Hlife Hinv Hk) as [Hok1 Hl1].
  set (s1 := s <| ds_inv := inv |>) in *. assert (ds_placements s1 = ds_placements s /\ ds_inv s1 = inv) as [P1 I1] by done. clearbody s1.
  destruct remap.
  - destruct (remapNode_ok name s1 Hok1 Hl1) as (R1 & R2 & _ & [i R4] & R5). rewrite P1, I1 in *. set (s2 := remapNode name s1) in *. clearbody s2. split.
    + split; [done|split; [done|]]. intros uid p. rewrite R5. intros (q & Hq & ->)%fmap_Some. rewrite R4. case_decide as Hn.
      * by rewrite <- Hn.
      * rewrite (Hpl uid q Hq). symmetry. by apply domains_now_kept; [|apply Hother].
    + eapply (live_remap live s s2); [done| |exact R5]. intros pod p (? & ? & ?). by case_decide.
  - split; [|by eapply live_same]. split; [done|split; [done|]]. intros uid p. rewrite P1, I1. intros Hp. rewrite (Hpl uid p Hp). symmetry.
    destruct (decide (pl_NodeName p = name)) as [->|Hn]; [|by apply domains_now_kept; [|apply Hother]].
    destruct (Hr eq_refl) as [Hch|Hinv']; [by apply domains_now_kept; [|apply Hsame]|by rewrite Hinv'].
Qed.

Lemma all_ok_book s s' : all_ok s -> ds_inv s' = ds_inv s -> ds_placements s' = ds_placements s -> index_ok s' -> life_ok s' -> all_ok s'.
Proof. intros (_ & _ & Hp) Ei Ep Hi Hl. split; [done|split; [done|]]. intros uid p. rewrite Ei, Ep. exact (Hp uid p). Qed.

(** ** Bookkeeping *)

(** The indexes of [s] and [s'] are the same, and [s'] remembers less. *)
Definition forgets s s' : Prop :=
  ds_inv s' = ds_inv s /\ ds_placements s' = ds_placements s /\ ds_subjects s' = ds_subjects s /\ ds_byNode s' = ds_byNode s /\
  ds_counts s' = ds_counts s /\ ds_groups s' = ds_groups s /\ forall sub, remembered s' sub -> remembered s sub.

Lemma forgetLocked_forgets sub s : forgets s (forgetLocked sub s) /\ ~ remembered (forgetLocked sub s) sub.
Proof.
  split; [repeat split|]; unfold remembered; cbn.
  - intros sub'. rewrite !lookup_delete_is_Some. naive_solver.
  - rewrite !lookup_delete_is_Some. naive_solver.
Qed.

Lemma forget_groups (groups : gmap SubjectRef (gmap TopologyKey Distribution)) l : forall s,
  let s' := range_loop (fun sub (_ : gmap TopologyKey Distribution) s => if bool_decide (groups !! sub = None) then forgetLocked sub s else s) l s in
  forgets s s' /\ forall sub, sub ∈ l.*1 -> groups !! sub = None -> ~ remembered s' sub.
Proof.
  induction l as [|[sub g] l IH]; intros s; cbn [range_loop]; [split; [by repeat split|]; intros sub Hin; by apply not_elem_of_nil in Hin|].
  set (s1 := if bool_decide _ then _ else _). assert (forgets s s1 /\ (groups !! sub = None -> ~ remembered s1 sub)) as [F1 N1].
  { unfold s1. case_bool_decide; [|by split; [repeat split|]]. destruct (forgetLocked_forgets sub s). by split. }
  clearbody s1. destruct (IH s1) as [F2 N2]. set (s2 := range_loop _ l s1) in *. clearbody s2.
  destruct F1 as (A1 & A2 & A3 & A4 & A5 & A6 & A7), F2 as (B1 & B2 & B3 & B4 & B5 & B6 & B7).
  split; [unfold forgets; rewrite B1, B2, B3, B4, B5, B6; by auto 10|]. intros sub' [->|Hin]%elem_of_cons Hg; [|by apply N2].
  intros Hr%B7. by apply N1.
Qed.

Lemma SetGroups_ok groups s : (forall sub, is_Some (groups !! sub) -> sr_Kind sub = SubjectNodeGroup) -> all_ok s -> all_ok (SetGroups groups s).
Proof.
  intros Hk Hall. destruct (forget_groups groups (range 0 (ds_groups s)) s) as [(E1 & E2 & E3 & E4 & E5 & E6 & E7) Hn]. unfold SetGroups.
  set (s1 := range_loop _ _ s) in *. clearbody s1. eapply (all_ok_book s); [done|done|done|..]; destruct Hall as (Hok & Hlife & _).
  - destruct Hok as [H1 H2 H3 H4 H5 H6]. split; cbn; rewrite ?E1, ?E2, ?E3, ?E4, ?E5; try done; unfold seated; cbn; by rewrite ?E2, ?E3.
  - intros sub Hr. assert (remembered s1 sub) as Hr1 by done. pose proof (Hlife sub (E7 sub Hr1)) as Ht. apply tracked_spec in Ht as [Hc|Hg]; apply tracked_spec; cbn.
    + left. by rewrite E5.
    + right. destruct (groups !! sub) as [g|] eqn:Hgs; [by eexists|]. exfalso. apply (Hn sub); [|done|done].
      destruct Hg as [g Hg]. apply list_elem_of_fmap. exists (sub, g). split; [done|by apply elem_of_range].
Qed.

(** Remembering something of a tracked subject. *)
Lemma remember_ok s s' sub : all_ok s -> tracked s sub = true -> ds_inv s' = ds_inv s -> ds_placements s' = ds_placements s -> ds_subjects s' = ds_subjects s ->
  ds_byNode s' = ds_byNode s -> ds_counts s' = ds_counts s -> ds_groups s' = ds_groups s ->
  (forall sub', sub' <> sub -> remembered s' sub' -> remembered s sub') -> all_ok s'.
Proof.
  intros Hall Ht E1 E2 E3 E4 E5 E6 Hr. eapply (all_ok_book s); [done|done|done|..]; destruct Hall as (Hok & Hlife & _).
  - destruct Hok as [H1 H2 H3 H4 H5 H6]. split; rewrite ?E1, ?E2, ?E3, ?E4, ?E5, ?E6; try done. unfold seated. by rewrite E2, E3.
  - intros sub' Hs'. assert (tracked s' sub' = tracked s sub') as -> by (unfold tracked; by rewrite E5, E6).
    destruct (decide (sub' = sub)) as [->|Hne]; [done|]. by apply Hlife, Hr.
Qed.

Lemma remember_calls_ok s : all_ok s ->
  (forall sub uid name, all_ok (SetRepresentative sub uid name s)) /\ (forall sub intents, all_ok (SetIntents sub intents s)) /\
  (forall sub evals, all_ok (SetEvaluations sub evals s)).
Proof.
  intros Hall. split; [|split].
  - intros sub uid name. unfold SetRepresentative. destruct (tracked s sub) eqn:Ht; cbn; [|done]. eapply (remember_ok s _ sub); try done.
    intros sub' Hne. unfold remembered. cbn. by rewrite lookup_insert_ne.
  - intros sub intents. unfold SetIntents. destruct (tracked s sub) eqn:Ht; cbn; [|done]. case_bool_decide; eapply (remember_ok s _ sub); try done;
      intros sub' Hne; unfold remembered; cbn; by rewrite ?lookup_insert_ne, ?lookup_delete_ne.
  - intros sub evals. unfold SetEvaluations. destruct (tracked s sub) eqn:Ht; cbn; [|done]. case_match; eapply (remember_ok s _ sub); try done;
      intros sub' Hne; unfold remembered; cbn; by rewrite ?lookup_insert_ne, ?lookup_delete_ne.
Qed.

Lemma placements_SetGroups groups s : ds_placements (SetGroups groups s) = ds_placements s.
Proof. destruct (forget_groups groups (range 0 (ds_groups s)) s) as [(_ & E2 & _) _]. exact E2. Qed.

Lemma new_ok keys : all_ok (NewState (NewInventory keys) : PodIndex).
Proof.
  split; [|split].
  - split; [apply NewInventory_ok|..]; cbn.
    + intros uid. by rewrite !lookup_empty.
    + intros sub. cbn. rewrite lookup_empty. unfold seated. cbn. by rewrite map_zip_with_empty.
    + split; [intros node set; by rewrite lookup_empty|]. intros node uid. rewrite !lookup_empty. cbn. rewrite lookup_empty.
      split; [by intros []|intros (p & ? & _); done].
    + intros uid sub. by rewrite lookup_empty.
    + intros sub. rewrite lookup_empty. by intros [].
  - intros sub. unfold remembered. cbn. rewrite !lookup_empty. intros [[]|[[]|[]]]; done.
  - intros uid p. cbn. by rewrite lookup_empty.
Qed.

Lemma watched_ok s live : watched s live -> all_ok s /\ live_ok live s.
Proof.
  induction 1 as [keys|s live pod _ [Ha Hl]|s live pod _ [Ha Hl]|s live now node _ [Ha Hl] Hn|s live name _ [Ha Hl]
    |s live groups _ [Ha Hl] Hg|s live sub uid name _ [Ha Hl]|s live sub intents _ [Ha Hl]|s live sub evals _ [Ha Hl]].
  - split; [apply new_ok|]. split; intros uid x Hx; cbn in Hx; by rewrite lookup_empty in Hx.
  - destruct (OnPodUpdate_ok owners pinned pod s Ha) as (Ha' & _ & Hm). split; [done|]. exact (live_pod live s _ pod Ha Hl Hm).
  - destruct Ha as (Hok & Hlife & Hp). destruct (uncount_ok (pd_UID pod) s Hok Hlife) as (U1 & U2 & U3 & U4 & U5). split; [|by eapply live_gone].
    split; [done|split; [done|]]. intros uid p. unfold OnPodDelete. rewrite U3, U5. intros [_ Hin]%lookup_delete_Some. exact (Hp uid p Hin).
  - pose proof (Upsert_ok now node (ds_inv s) (ix_inv _ (proj1 Ha)) Hn) as Hu. unfold OnNodeUpsert. destruct (Upsert now node (ds_inv s)) as [inv ch].
    destruct Hu as (Hi & Hd & _). cbn [fst]. eapply node_event_ok; [done..|]. intros ->. by left.
  - pose proof (Remove_ok name (ds_inv s) (ix_inv _ (proj1 Ha))) as Hu. unfold OnNodeDelete. destruct (Remove name (ds_inv s)) as [inv ch].
    destruct Hu as (Hi & Hd & _ & Hr & _). cbn [fst]. eapply node_event_ok; [done..|]. intros Hf. right. by apply Hr.
  - split; [by apply SetGroups_ok|]. eapply live_same; [done|]. apply placements_SetGroups.
  - split; [by apply remember_calls_ok|]. eapply live_same; [done|]. unfold SetRepresentative. by destruct (negb _).
  - split; [by apply remember_calls_ok|]. eapply live_same; [done|]. unfold SetIntents. by repeat case_match.
  - split; [by apply remember_calls_ok|]. eapply live_same; [done|]. unfold SetEvaluations. by repeat case_match.
Qed.

(** ** The census *)

(** What a pod that exists counts as. *)
Definition entry s (pod : Pod) : option (SubjectRef * Placement) :=
  p ← place_of pinned (ds_inv s) pod; sub ← subject_now owners s pod; Some (sub, p).

Lemma placed_as_place pod p inv : placed_as pod p -> pl_Domains p = domains_now inv (pl_NodeName p) -> place_of pinned inv pod = Some p.
Proof. destruct p as [n ds st pin]. intros (Hs & Hn & Hp) Hd. cbn in *. unfold place_of. rewrite Hs. cbn. by rewrite <- Hn, <- Hp, <- Hd. Qed.

Lemma seated_entry s live uid : all_ok s -> live_ok live s -> seated s !! uid = live !! uid ≫= entry s.
Proof.
  intros (Hok & _ & Hpl) [Hu Hp Hl]. rewrite seated_lookup. destruct (ds_placements s !! uid) as [p|] eqn:Ep.
  - destruct (index_subject s uid p Hok Ep) as (sub & Hs & _). destruct (Hp uid p Ep) as (pod & Hpod & Has). rewrite Hs, Hpod. cbn. unfold entry.
    rewrite (placed_as_place pod p (ds_inv s) Has (Hpl uid p Ep)). cbn. unfold subject_now, subjectOf. by rewrite (Hu uid pod Hpod), Hs.
  - assert (ds_subjects s !! uid = None) as Hs. { apply eq_None_not_Some. rewrite (ix_dom _ Hok), Ep. apply is_Some_None. }
    rewrite Hs. destruct (live !! uid) as [pod|] eqn:Hpod; [|done]. cbn. unfold entry, subject_now, subjectOf, place_of. rewrite (Hu uid pod Hpod), Hs.
    destruct (Hl uid pod Hpod Ep) as [-> | ->]; [done|]. by destruct (podState pod).
Qed.

Lemma omap_values (m : gmap string Pod) (f : Pod -> option (SubjectRef * Placement)) : (map_to_list (omap f m)).*2 ≡ₚ omap f (map_to_list m).*2.
Proof.
  induction m as [|uid pod m Hm IH] using map_ind; [by rewrite omap_empty, !map_to_list_empty|].
  rewrite map_to_list_insert by done. cbn [fmap list_fmap snd]. destruct (f pod) as [x|] eqn:Ef.
  - rewrite (omap_insert_Some f m uid pod x Ef). rewrite map_to_list_insert by by rewrite lookup_omap, Hm. cbn. rewrite Ef. apply perm_skip, IH.
  - rewrite (omap_insert_None f m uid pod Ef). rewrite delete_id by by rewrite lookup_omap, Hm. cbn. by rewrite Ef.
Qed.

Lemma seated_values s live pods : all_ok s -> live_ok live s -> pods ≡ₚ (map_to_list live).*2 ->
  (map_to_list (seated s)).*2 ≡ₚ omap (entry s) pods.
Proof.
  intros Ha Hl Hp. assert (seated s = omap (entry s) live) as ->.
  { apply map_eq. intros uid. rewrite lookup_omap. by apply seated_entry. }
  rewrite omap_values. by rewrite Hp.
Qed.

(** ** The rebuild *)

Definition some_row (keys : list TopologyKey) (l : list Placement) : option (gmap TopologyKey Distribution) :=
  match l with [] => None | _ => Some (axes_row keys l) end.

#[local] Instance some_row_perm keys : Proper ((≡ₚ) ==> (=)) (some_row keys).
Proof.
  intros l l' Hp. pose proof (axes_row_perm keys l l' Hp) as He. apply Permutation_length in Hp. unfold some_row.
  destruct l, l'; cbn [length] in Hp; [done|lia|lia|by rewrite He].
Qed.

Definition rebuilt_row s (shard shards : Z) (sub : SubjectRef) (pods : list Pod) : option (gmap TopologyKey Distribution) :=
  if shardOf sub shards =? shard
  then some_row (iv_keys (ds_inv s)) (under sub (omap (entry s) pods)) else None.

Lemma interned_entry s s' pod : interned_from s s' -> entry s' pod = entry s pod.
Proof. by intros (i & _ & ->). Qed.

Lemma interned_trans s s1 s2 : interned_from s s1 -> interned_from s1 s2 -> interned_from s s2.
Proof. intros (i & _ & ->) (j & Hj & ->). by exists j. Qed.

Lemma rebuild_pod_entry shard shards out s pod : inv_ok (ds_inv s) ->
  exists s', interned_from s s' /\ rebuild_pod owners pinned shard shards (out, s) pod =
    (match entry s pod with
     | Some (sub, p) =>
         if shardOf sub shards =? shard then
           let r := default (mkRebuilt [] ∅) (out !! sub) in
           <[sub := mkRebuilt (rb_Pods r ++ [pod]) (foldl (apply_axis p true) (rb_Counts r) (axes (iv_keys (ds_inv s))))]> out
         else out
     | None => out
     end, s').
Proof.
  intros Hi. destruct (resolvePlacement_spec pinned pod s Hi) as (s' & Hres & Hs'). exists s'. split; [done|].
  unfold rebuild_pod, entry. rewrite Hres. destruct (interned_facts owners pinned pod s s' Hs') as (i & E1 & E2 & E3 & E4 & E5).
  destruct (place_of pinned (ds_inv s) pod) as [p|]; [|done]. cbn. rewrite E4. destruct (subject_now owners s pod) as [sub|]; [|done]. cbn.
  rewrite E3. by destruct (shardOf sub shards =? shard).
Qed.

(** The pods counted under a subject. *)
Definition pods_under s (sub : SubjectRef) (pods : list Pod) : list Pod :=
  List.filter (fun pod => match entry s pod with Some (sub', _) => bool_decide (sub' = sub) | None => false end) pods.

Lemma rebuild_spec shard shards pods s : inv_ok (ds_inv s) ->
  exists out s', RebuildShard owners pinned pods shard shards s = (out, s') /\ interned_from s s' /\
    (forall sub, rb_Counts <$> out !! sub = rebuilt_row s shard shards sub pods) /\
    (forall sub, shardOf sub shards = shard -> rb_Pods (default (mkRebuilt [] ∅) (out !! sub)) = pods_under s sub pods).
Proof.
  intros Hi. unfold RebuildShard. induction pods as [|pod pods IH] using rev_ind.
  - exists ∅, s. split; [done|]. split; [apply interned_from_refl, Hi|]. split; intros sub; rewrite lookup_empty; [|done]. unfold rebuilt_row. by destruct (_ =? _).
  - destruct IH as (out & s1 & Hf & Hs1 & Hout & Hpods). rewrite foldl_app, Hf. cbn [foldl].
    assert (inv_ok (ds_inv s1)) as Hi1 by (destruct Hs1 as (i & Hint & ->); by apply set_intern_ok).
    destruct (rebuild_pod_entry shard shards out s1 pod Hi1) as (s2 & Hs2 & ->). eexists _, s2. split; [done|].
    split; [by eapply interned_trans|]. rewrite (interned_entry s s1) by done.
    assert (iv_keys (ds_inv s1) = iv_keys (ds_inv s)) as -> by by destruct Hs1 as (i & _ & ->). split; intros sub.
    + pose proof (Hout sub) as Hsub. unfold rebuilt_row in *. rewrite omap_app. cbn [omap list_omap]. destruct (entry s pod) as [[sub' p]|]; [|by rewrite app_nil_r].
      assert (under sub (omap (entry s) pods ++ [(sub', p)]) ≡ₚ if decide (sub' = sub) then p :: under sub (omap (entry s) pods) else under sub (omap (entry s) pods)) as Hu.
      { rewrite <- Permutation_cons_append. by rewrite under_cons. }
      destruct (decide (sub' = sub)) as [->|Hne].
      * destruct (shardOf sub shards =? shard); [|done]. rewrite lookup_insert_eq. cbn [fmap option_fmap option_map rb_Counts].
        assert (rb_Counts (default (mkRebuilt [] ∅) (out !! sub)) = axes_row (iv_keys (ds_inv s)) (under sub (omap (entry s) pods))) as ->.
        { destruct (out !! sub), (under sub (omap (entry s) pods)); cbn in Hsub |- *; by simplify_eq. }
        rewrite fold_axes_add by apply Hi. by rewrite Hu.
      * transitivity (rb_Counts <$> out !! sub).
        { destruct (shardOf sub' shards =? shard); [by rewrite lookup_insert_ne|done]. }
        rewrite Hsub. by rewrite Hu.
    + intros Hsh. specialize (Hpods sub Hsh). unfold pods_under in *. rewrite List.filter_app. cbn [List.filter].
      destruct (entry s pod) as [[sub' p]|]; [|by rewrite app_nil_r]. case_bool_decide as Hb.
      * subst sub'. rewrite (proj2 (Z.eqb_eq _ _) Hsh), lookup_insert_eq. cbn [default from_option rb_Pods id]. by rewrite Hpods.
      * rewrite app_nil_r, <- Hpods. by destruct (shardOf sub' shards =? shard); [rewrite lookup_insert_ne|].
Qed.

(** ** What a pass of the verifier compares *)

Lemma counts_row s live pods sub : watched s live -> pods ≡ₚ (map_to_list live).*2 ->
  ds_counts s !! sub = row (iv_keys (ds_inv s)) (under sub (omap (entry s) pods)).
Proof.
  intros Hw Hp. destruct (watched_ok s live Hw) as [Ha Hl]. rewrite (ix_counts _ (proj1 Ha)). unfold held. by rewrite (seated_values s live pods).
Qed.

Lemma sameDistributions_refl a : sameDistributions a a = true.
Proof.
  unfold sameDistributions. apply andb_true_intro. split; apply forallb_forall; intros [k d] Hk%list_elem_of_In%elem_of_map_to_list; rewrite Hk.
  - by apply Distribution_Equal_eq.
  - by apply bool_decide_eq_true_2.
Qed.

Lemma with_held_lookup shard shards s want sub : with_held shard shards s want !! sub =
  match want !! sub with
  | Some r => Some r
  | None => if (shardOf sub shards =? shard) && bool_decide (is_Some (ds_counts s !! sub)) then Some (mkRebuilt [] ∅) else None
  end.
Proof.
  unfold with_held. assert (forall l (want : gmap SubjectRef Rebuilt), (range_loop (fun sub (_ : gmap TopologyKey Distribution) want =>
      if (shardOf sub shards =? shard) && bool_decide (want !! sub = None) then <[sub := mkRebuilt [] ∅]> want else want) l want) !! sub =
    match want !! sub with
    | Some r => Some r
    | None => if (shardOf sub shards =? shard) && bool_decide (sub ∈ l.*1) then Some (mkRebuilt [] ∅) else None
    end) as Hloop.
  { clear want. induction l as [|[sub' g] l IH]; intros want; cbn [range_loop].
    - destruct (want !! sub); [done|]. rewrite bool_decide_eq_false_2 by apply not_elem_of_nil. by rewrite andb_false_r.
    - rewrite IH. destruct (decide (sub' = sub)) as [->|Hne].
      + rewrite (bool_decide_eq_true_2 (sub ∈ ((sub, g) :: l).*1)) by by left. destruct (want !! sub) eqn:Hw.
        * rewrite bool_decide_eq_false_2 by done. by rewrite andb_false_r, Hw.
        * destruct (shardOf sub shards =? shard); [|cbn; by rewrite Hw]. rewrite bool_decide_eq_true_2 by done. cbn. by rewrite lookup_insert_eq.
      + assert (bool_decide (sub ∈ ((sub', g) :: l).*1) = bool_decide (sub ∈ l.*1)) as ->.
        { apply bool_decide_ext. cbn. rewrite elem_of_cons. naive_solver. }
        destruct (_ && bool_decide (want !! sub' = None)); [by rewrite lookup_insert_ne|done]. }
  rewrite Hloop. destruct (want !! sub); [done|]. f_equal. assert (bool_decide (sub ∈ (range 0 (ds_counts s)).*1) = bool_decide (is_Some (ds_counts s !! sub))) as ->; [|done].
  apply bool_decide_ext. rewrite list_elem_of_fmap. split.
  - intros ([sub' g] & -> & Hr%elem_of_range). by eexists.
  - intros [g Hg]. exists (sub, g). split; [done|by apply elem_of_range].
Qed.

(** The subject's counts agree with its rebuild. *)
Definition agrees s (sub : SubjectRef) (r : Rebuilt) : Prop := sameDistributions (rb_Counts r) (default ∅ (Snapshot s sub)) = true.

(** A subject that pods are counted under is no node group. *)
Lemma entry_kind s pod sub p : index_ok s -> entry s pod = Some (sub, p) -> sr_Kind sub <> SubjectNodeGroup.
Proof.
  intros Hok. unfold entry, subject_now, subjectOf. destruct (place_of pinned (ds_inv s) pod); [|done]. cbn.
  destruct (ds_subjects s !! pd_UID pod) as [sub'|] eqn:Hs; cbn.
  - intros [= <- _]. by eapply (ix_kinds _ Hok).
  - destruct (resolveSubject owners pod) as [sub'|] eqn:Hr; [|done]. cbn. intros [= <- _]. by eapply resolveSubject_kind.
Qed.

Lemma under_entry s pods sub p l : under sub (omap (entry s) pods) = p :: l -> exists pod q, entry s pod = Some (sub, q).
Proof.
  intros Hu. assert (p ∈ under sub (omap (entry s) pods)) as Hin by (rewrite Hu; by left). unfold under in Hin.
  apply list_elem_of_fmap in Hin as ([sub' q] & -> & Hin). apply list_elem_of_In, filter_In in Hin as [Hin Hb]. btrue. cbn in *. subst sub'.
  apply list_elem_of_In, list_elem_of_omap in Hin as (pod & _ & Hpod). by exists pod, q.
Qed.

Lemma snapshot_row s live pods sub p l : watched s live -> pods ≡ₚ (map_to_list live).*2 -> under sub (omap (entry s) pods) = p :: l ->
  default ∅ (Snapshot s sub) = axes_row (iv_keys (ds_inv s)) (p :: l).
Proof.
  intros Hw Hp Hu. pose proof (counts_row s live pods sub Hw Hp) as Hc. rewrite Hu in Hc. unfold Snapshot. rewrite <- row_default, <- Hc.
  destruct (ds_counts s !! sub) eqn:Ec; [done|]. destruct (watched_ok s live Hw) as [(Hok & _) _].
  destruct (ds_groups s !! sub) eqn:Eg; [|done]. destruct (under_entry s pods sub p l Hu) as (pod & q & He).
  destruct (entry_kind s pod sub q Hok He). apply (ix_groups _ Hok). by eexists.
Qed.

(** C26: the incremental counters are a census. After any history of pod and node events
    the counts of a subject on an axis are those of the pods that exist: their total is
    the number of pods counted under the subject, and the counter of each domain and
    state is the number of those pods in that domain, by the domains their nodes have
    now, and in that state. *)
Theorem drift_counts_are_census s live pods sub ordinal key : watched s live -> pods ≡ₚ (map_to_list live).*2 ->
  iv_keys (ds_inv s) !! ordinal = Some key ->
  let counted := under sub (omap (entry s) pods) in
  let dist := default NewDistribution (default ∅ (ds_counts s !! sub) !! key) in
  dist_Total dist = Z.of_nat (length counted) /\
  forall dom st, counted_in dist dom st =
    Z.of_nat (length (List.filter (fun p => (NormaliseDomain (Placement_Domain p ordinal) ==s dom) && bool_decide (pl_State p = st)) counted)).
Proof.
  intros Hw Hp Hk. cbv zeta. rewrite (counts_row s live pods sub Hw Hp), row_default. destruct (watched_ok s live Hw) as [(Hok & _) _].
  rewrite (axes_row_in _ _ ordinal key) by (done || apply Hok). set (l := under sub (omap (entry s) pods)).
  assert (default NewDistribution (match l with [] => None | _ => Some (dist_of (axis_at ordinal <$> l)) end) = dist_of (axis_at ordinal <$> l)) as -> by by destruct l.
  split; [by rewrite dist_of_total, length_fmap|]. intros dom st. rewrite counted_in_dist_of. f_equal. clear. induction l as [|p l IH]; [done|]. cbn.
  destruct (_ && _); cbn; by rewrite IH.
Qed.

Lemma rebuilt_agrees s live pods out sub r shard shards : watched s live -> pods ≡ₚ (map_to_list live).*2 ->
  (forall sub, rb_Counts <$> out !! sub = rebuilt_row s shard shards sub pods) ->
  with_held shard shards s out !! sub = Some r -> rb_Counts r = default ∅ (Snapshot s sub).
Proof.
  intros Hw Hp Hout. rewrite with_held_lookup. pose proof (Hout sub) as Hsub. unfold rebuilt_row in Hsub.
  destruct (out !! sub) as [r'|].
  - intros [= <-]. cbn in Hsub. destruct (shardOf sub shards =? shard); [|done].
    destruct (under sub (omap (entry s) pods)) as [|p l] eqn:Hu; [done|]. cbn in Hsub. injection Hsub as ->. symmetry. by eapply snapshot_row.
  - destruct (shardOf sub shards =? shard); cbn; [|done]. case_bool_decide as Hc; [|done]. rewrite (counts_row s live pods sub Hw Hp) in Hc.
    destruct (under sub (omap (entry s) pods)); [|done]. by destruct Hc.
Qed.

(** The verifier never finds drift. After any history, a verification pass over any
    shard, with the pod cache holding the pods that exist, reports no drifted subject
    and repairs nothing. *)
Theorem verifier_finds_no_drift s live pods shard shards : watched s live -> pods ≡ₚ (map_to_list live).*2 ->
  let '(s', rep) := VerifyShard owners pinned (Some pods) shard shards s in
  rep_Drifted rep = 0 /\ interned_from s s'.
Proof.
  intros Hw Hp. unfold VerifyShard. destruct (watched_ok s live Hw) as [(Hok & _) _].
  destruct (rebuild_spec shard shards pods s (ix_inv _ Hok)) as (out & s1 & -> & Hs1 & Hout & _).
  assert (forall want, with_held shard shards s1 want = with_held shard shards s want) as -> by by destruct Hs1 as (i & _ & ->).
  assert (range_loop (verify_subject pinned) (range 1 (with_held shard shards s out)) (s1, 0) = (s1, 0)) as ->; [|done].
  apply range_loop_inv; [done|]. intros sub r x Hin%elem_of_range ->. unfold verify_subject.
  assert (Snapshot s1 sub = Snapshot s sub) as -> by by destruct Hs1 as (i & _ & ->).
  by rewrite (rebuilt_agrees s live pods out sub r shard shards), sameDistributions_refl.
Qed.
End spec.

(** ** A small fleet *)
Module Fleet.
#[local] Existing Instance plain_range.

Definition no_owner (ns kind name : string) : option ControllerRef := None.
Definition free (pod : Pod) : bool := false.
Definition zone : TopologyKey := LabelTopologyZone.
Definition worker (name z : string) : Node := mkNode name {[zone := z]} false [] [(NodeReady, ConditionTrue)] (Some 4000) (Some 1000).
Definition replica (uid n : string) : Pod := mkPod uid "shop" uid [mkRef "StatefulSet" "db" (Some true)] n "Running" None [].
Definition db : SubjectRef := mkSubject "StatefulSet" "shop" "db".

(** A pod comes before its node, a second one follows, and the first node changes zone. *)
Notation history := (OnNodeUpsert 3 (worker "n1" "b")
  (OnPodUpdate no_owner free (replica "u2" "n2") (OnNodeUpsert 2 (worker "n2" "b") (OnNodeUpsert 1 (worker "n1" "a")
    (OnPodUpdate no_owner free (replica "u1" "n1") (NewState (I := unit) (E := unit) (NewInventory [zone]))).1).1).1).1).1 (only parsing).
Notation replicas := (<["u2" := replica "u2" "n2"]> (<["u1" := replica "u1" "n1"]> ∅)) (only parsing).

Lemma node_is_ok name z : clean z -> node_ok (worker name z).
Proof. intros Hz k v Hk. cbn in Hk. apply lookup_singleton_Some in Hk as [_ <-]. done. Qed.

Lemma history_watched : watched no_owner free history replicas.
Proof. repeat first [apply w_node; [|by apply node_is_ok] | apply (w_pod no_owner free _ _ (replica "u2" "n2")) | apply (w_pod no_owner free _ _ (replica "u1" "n1"))]. apply w_new. Qed.

Lemma drift_counts_are_census_witness :
  let dist := default NewDistribution (default ∅ (ds_counts history !! db) !! zone) in
  dist_Total dist = 2 /\ counted_in dist "b" StateRunning = 2 /\ counted_in dist "a" StateRunning = 0.
Proof.
  assert ([replica "u1" "n1"; replica "u2" "n2"] ≡ₚ (map_to_list (replicas : gmap string Pod)).*2) as Hp by (vm_compute; apply Permutation_refl || apply perm_swap).
  pose proof (drift_counts_are_census no_owner free history replicas _ db 0%nat zone history_watched Hp ltac:(vm_compute; reflexivity)) as [Ht Hc].
  split; [exact Ht|split]; [exact (Hc "b" StateRunning)|exact (Hc "a" StateRunning)].
Defined.

Lemma verifier_finds_no_drift_witness :
  rep_Subjects (VerifyShard no_owner free (Some [replica "u1" "n1"; replica "u2" "n2"]) 0 1 history).2 = 1 /\
  rep_Drifted (VerifyShard no_owner free (Some [replica "u1" "n1"; replica "u2" "n2"]) 0 1 history).2 = 0.
Proof.
  split; [vm_compute; reflexivity|].
  assert ([replica "u1" "n1"; replica "u2" "n2"] ≡ₚ (map_to_list (replicas : gmap string Pod)).*2) as Hp by (vm_compute; apply Permutation_refl || apply perm_swap).
  pose proof (verifier_finds_no_drift no_owner free history replicas _ 0 1 history_watched Hp) as Hv.
  destruct (VerifyShard no_owner free _ 0 1 history). exact (proj1 Hv).
Defined.
End Fleet.
