(* ===== verification/GoFloatMath.v ===== *)
(** The float64 operations of the placement scoring (package math, conversions), and how
    far a rounded operation is from the exact one: the standard model of rounding error,
    proved for Rocq's specification floats on positive normal numbers. *)
From S2P Require Import Prelude GoTime.
From Stdlib Require Import SpecFloat QArith Qround Qpower Lqa.
Open Scope Z_scope.

(** ** Operations *)

Definition f64_sub (x y : float64) : float64 := SFsub 53 1024 x y.
Definition f64_eqb (x y : float64) : bool := SFeqb x y.
Definition f64_abs (x : float64) : float64 := SFabs x.

Definition IsNaN (x : float64) : bool := match x with S754_nan => true | _ => false end.
Definition IsInf (x : float64) (sign : Z) : bool :=
  match x with
  | S754_infinity s => (sign =? 0) || (if s then sign <? 0 else 0 <? sign)
  | _ => false
  end.

(** The integer below a finite number. *)
Definition floor_Z (m : Z) (e : Z) : Z := if 0 <=? e then m * 2 ^ e else m / 2 ^ (- e).

(** [math.Floor]: NaN, the infinities and the zeros are their own floor. *)
Definition f64_floor (x : float64) : float64 :=
  match x with
  | S754_finite s m e => binary_normalize 53 1024 (floor_Z (cond_Zopp s (Zpos m)) e) 0 s
  | _ => x
  end.

(** [int64(x)] drops the fraction; what it gives for a NaN, an infinity or a value out of
    range is up to the machine. *)
Class FloatToInt := { unspecified_int64 : float64 -> Z }.

Definition int64_of `{FloatToInt} (x : float64) : Z :=
  match x with
  | S754_zero _ => 0
  | S754_finite s m e =>
      let z := cond_Zopp s (floor_Z (Zpos m) e) in
      if (int64_min <=? z) && (z <=? int64_max) then z else unspecified_int64 x
  | _ => unspecified_int64 x
  end.

(** amd64 gives the smallest integer. *)
#[global] Instance amd64_FloatToInt : FloatToInt | 100 := {| unspecified_int64 _ := int64_min |}.

(** [math.Min] and [math.Max]. *)
Definition f64_min (x y : float64) : float64 :=
  if IsInf x (-1) || IsInf y (-1) then S754_infinity true
  else if IsNaN x || IsNaN y then S754_nan
  else match x, y with
       | S754_zero s, S754_zero _ => if s then x else y
       | _, _ => if f64_lt x y then x else y
       end.
Definition f64_max (x y : float64) : float64 :=
  if IsInf x 1 || IsInf y 1 then S754_infinity false
  else if IsNaN x || IsNaN y then S754_nan
  else match x, y with
       | S754_zero s, S754_zero _ => if s then y else x
       | _, _ => if f64_lt y x then x else y
       end.

(** ** Values *)

(** [x] is the positive normal number of value [v]. *)
Definition f64_is (x : float64) (v : Q) : Prop :=
  exists m e, x = S754_finite false m e /\ 2 ^ 52 <= Zpos m < 2 ^ 53 /\ emin 53 1024 <= e <= 971 /\
    (v == inject_Z (Zpos m) * 2 ^ e)%Q.

(** The relative error of one rounding. *)
Definition ulp : Q := 2 ^ (-52).

Definition near (v x : Q) : Prop := (x * (1 - ulp) <= v <= x * (1 + ulp))%Q.

(** [v] is a rounding of [x]: near it, and [x] itself when that is a small integer. *)
Definition rounds (v x : Q) : Prop :=
  near v x /\ forall k, k < 2 ^ 53 -> (x == inject_Z k)%Q -> (v == x)%Q.

#[global] Instance near_proper : Proper (Qeq ==> Qeq ==> iff) near.
Proof. intros v v' Ev x x' Ex. unfold near. by rewrite Ev, Ex. Qed.

#[global] Instance rounds_proper : Proper (Qeq ==> Qeq ==> iff) rounds.
Proof. intros v v' Ev x x' Ex. unfold rounds. rewrite Ev, Ex. split; intros [H K]; (split; [done|]); intros k; specialize (K k); by rewrite Ev, Ex in *. Qed.

Lemma pow2_pos e : (0 < 2 ^ e)%Q.
Proof. by apply Qpower_0_lt. Qed.
Lemma pow2_nz e : ~ (2 ^ e == 0)%Q.
Proof. by apply Qnot_eq_sym, Qlt_not_eq, Qpower_0_lt. Qed.
Lemma pos_nz x : (0 < x)%Q -> ~ (x == 0)%Q.
Proof. intros H. by apply Qnot_eq_sym, Qlt_not_eq. Qed.
#[local] Hint Resolve pow2_pos pow2_nz pos_nz : core.

Lemma pow2_add a b : (2 ^ (a + b) == 2 ^ a * 2 ^ b)%Q.
Proof. by apply Qpower_plus. Qed.

Lemma pow2_inject n : 0 <= n -> (inject_Z (2 ^ n) == 2 ^ n)%Q.
Proof. intros H. by rewrite Zpower_Qpower. Qed.

Lemma pow2_le a b : a <= b -> (2 ^ a <= 2 ^ b)%Q.
Proof. intros H. apply Qpower_le_compat_l; [done|]. by apply Qle_bool_iff. Qed.

Lemma pow2_lt_inv a b : (2 ^ a < 2 ^ b)%Q -> a < b.
Proof. intros H. destruct (Z.lt_ge_cases a b) as [|Hge]; [done|]. apply pow2_le in Hge. lra. Qed.

Lemma inject_lt a b : a < b -> (inject_Z a < inject_Z b)%Q.
Proof. by rewrite <- Zlt_Qlt. Qed.
Lemma inject_lt_inv a b : (inject_Z a < inject_Z b)%Q -> a < b.
Proof. by rewrite <- Zlt_Qlt. Qed.
Lemma inject_le a b : a <= b -> (inject_Z a <= inject_Z b)%Q.
Proof. by rewrite <- Zle_Qle. Qed.

(** ** Digits *)

Lemma digits_bounds p : 2 ^ (Zpos (digits2_pos p) - 1) <= Zpos p < 2 ^ Zpos (digits2_pos p).
Proof.
  induction p as [p IH|p IH|]; cbn [digits2_pos]; [| |lia].
  all: rewrite Pos2Z.inj_succ, Z.pow_succ_r by lia; replace (Z.succ (Zpos (digits2_pos p)) - 1) with (Z.succ (Zpos (digits2_pos p) - 1)) by lia;
    rewrite Z.pow_succ_r by lia; lia.
Qed.

Lemma digits_unique p d : 0 < d -> 2 ^ (d - 1) <= Zpos p < 2 ^ d -> Zpos (digits2_pos p) = d.
Proof.
  intros Hd [Hl Hr]. pose proof (digits_bounds p) as [Hl' Hr'].
  assert (2 ^ (d - 1) < 2 ^ Zpos (digits2_pos p)) as H1%Z.pow_lt_mono_r_iff by lia; [|lia..].
  assert (2 ^ (Zpos (digits2_pos p) - 1) < 2 ^ d) as H2%Z.pow_lt_mono_r_iff by lia; lia.
Qed.

(** ** Shifting right *)

(** The record stands for the number [X]: its integer part, and whether anything is lost. *)
Definition stands (r : shr_record) (X : Q) : Prop :=
  0 <= shr_m r /\ (inject_Z (shr_m r) <= X < inject_Z (shr_m r + 1))%Q /\
  (shr_r r || shr_s r = false <-> (X == inject_Z (shr_m r))%Q).

Lemma stands_shr_1 r X : stands r X -> stands (shr_1 r) (X / 2).
Proof.
  destruct r as [m r s]. intros (Hm & HX & Hex). cbn [shr_m shr_r shr_s] in *.
  assert (exists h b, m = 2 * h + Z.b2z b /\ shr_1 {| shr_m := m; shr_r := r; shr_s := s |} = {| shr_m := h; shr_r := b; shr_s := r || s |} /\ 0 <= h)
    as (h & b & -> & -> & Hh).
  { destruct m as [|[p|p|]|p]; [exists 0, false|exists (Zpos p), true|exists (Zpos p), false|exists 0, true|lia]; repeat split; lia. }
  unfold stands. cbn [shr_m shr_r shr_s]. repeat rewrite inject_Z_plus in HX. rewrite inject_Z_plus in Hex. rewrite inject_Z_mult in HX, Hex. rewrite inject_Z_plus.
  assert (X == 2 * (X / 2))%Q as EY by field. set (Y := (X / 2)%Q) in *. clearbody Y.
  split; [done|]. destruct b; cbn [Z.b2z] in *; change (inject_Z 2) with 2%Q in *; change (inject_Z 1) with 1%Q in *; change (inject_Z 0) with 0%Q in *.
  - split; [split; lra|]. cbn. split; [done|]. intros. lra.
  - split; [split; lra|]. cbn. rewrite Hex. split; intros; lra.
Qed.

Lemma stands_ext r X Y : (X == Y)%Q -> stands r X -> stands r Y.
Proof. intros E (Hm & HX & Hex). split; [done|]. rewrite <- E. done. Qed.

Lemma stands_iter p : forall r X, stands r X -> stands (SpecFloat.iter_pos shr_1 p r) (X / 2 ^ Zpos p).
Proof.
  induction p as [p IH|p IH|]; intros r X H; cbn [SpecFloat.iter_pos].
  - eapply stands_ext; [|apply IH, IH, stands_shr_1, H].
    replace (Zpos p~1) with (Zpos p + Zpos p + 1) by lia. rewrite !pow2_add. change (2 ^ 1)%Q with 2%Q. field. auto.
  - eapply stands_ext; [|apply IH, IH, H].
    replace (Zpos p~0) with (Zpos p + Zpos p) by lia. rewrite !pow2_add. field. auto.
  - by apply stands_shr_1.
Qed.

Lemma stands_shr r X e n : 0 <= n -> stands r X -> stands (shr r e n).1 (X / 2 ^ n) /\ (shr r e n).2 = e + n.
Proof.
  intros Hn H. destruct n as [|p|p]; [|by split; [apply stands_iter|]|lia]. cbn. split; [|lia].
  eapply stands_ext; [|exact H]. change (2 ^ 0)%Q with 1%Q. field.
Qed.

(** Rounding a record gives one of the two integers around it, and an integer itself. *)
Lemma round_stands r X : stands r X ->
  let m := round_nearest_even (shr_m r) (loc_of_shr_record r) in
  0 <= m /\ (X - 1 <= inject_Z m <= X + 1)%Q /\ m <= shr_m r + 1 /\ shr_m r <= m /\
  (forall k, (X == inject_Z k)%Q -> m = k).
Proof.
  destruct r as [m r s]. intros (Hm & HX & Hex). cbn [shr_m shr_r shr_s] in *. rewrite inject_Z_plus in HX. change (inject_Z 1) with 1%Q in HX.
  assert ((X - 1 <= inject_Z m <= X + 1)%Q /\ (X - 1 <= inject_Z (m + 1) <= X + 1)%Q) as [Ha Hb].
  { rewrite inject_Z_plus. change (inject_Z 1) with 1%Q. split; split; lra. }
  assert (forall k, (X == inject_Z k)%Q -> m = k /\ r || s = false) as Hk.
  { intros k Ek. assert (m < k + 1) by (apply inject_lt_inv; rewrite inject_Z_plus; change (inject_Z 1) with 1%Q; lra).
    assert (k < m + 1) by (apply inject_lt_inv; rewrite inject_Z_plus; change (inject_Z 1) with 1%Q; lra).
    assert (m = k) as -> by lia. by rewrite Hex. }
  destruct r, s; cbn [loc_of_shr_record round_nearest_even]; [|destruct (Z.even m)| |]; cbn;
    repeat split; try (by apply Ha || apply Hb); try lia; intros k [E E']%Hk; done.
Qed.

(** ** Rounding *)

Lemma fexp_normal e : -1021 <= e -> fexp 53 1024 e = e - 53.
Proof. unfold fexp, emin. lia. Qed.

(** The exponent range of what a mantissa stands for. *)
Lemma stands_range p lx X ex : stands (shr_record_of_loc (Zpos p) lx) X ->
  let d := Zpos (digits2_pos p) in
  (2 ^ (d - 1) <= X /\ X < 2 ^ d)%Q /\
  ((2 ^ (-950) <= X * 2 ^ ex <= 2 ^ 950)%Q -> -950 < d + ex <= 951).
Proof.
  intros (_ & [Hl Hr] & _). assert (shr_m (shr_record_of_loc (Zpos p) lx) = Zpos p) as E by (by destruct lx as [|[]]). rewrite E in Hl, Hr.
  pose proof (digits_bounds p) as [Dl Dr]. set (d := Zpos (digits2_pos p)) in *. cbn zeta.
  assert (2 ^ (d - 1) <= X /\ X < 2 ^ d)%Q as [Xl Xr].
  { rewrite <- !pow2_inject by lia. apply inject_le in Dl. split; [lra|]. eapply Qlt_le_trans; [exact Hr|]. apply inject_le. lia. }
  split; [done|]. intros [Rl Rr]. split; [|apply Z.lt_succ_r]; apply pow2_lt_inv.
  - rewrite pow2_add. eapply Qle_lt_trans; [exact Rl|]. apply Qmult_lt_r; [done|lra].
  - assert (2 ^ (d - 1 + ex) <= 2 ^ 950)%Q as H.
    { rewrite pow2_add. eapply Qle_trans; [|exact Rr]. apply Qmult_le_r; [done|lra]. }
    eapply (Qle_lt_trans _ (2 ^ 950 * 2)); [|by vm_compute]. replace (d + ex) with (d - 1 + ex + 1) by lia. rewrite (pow2_add _ 1). change (2 ^ 1)%Q with 2%Q. lra.
Qed.

(** The rounded mantissa brought to 53 digits is a normal number. *)
Lemma finish_round m e : 2 ^ 52 <= m <= 2 ^ 53 -> -1021 <= e <= 960 ->
  f64_is (let '(r, e') := shr_fexp 53 1024 m e loc_Exact in
          match shr_m r with
          | Z0 => S754_zero false
          | Zpos m => if Z.leb e' (1024 - 53) then S754_finite false m e' else S754_infinity false
          | _ => S754_nan
          end) (inject_Z m * 2 ^ e).
Proof.
  intros Hm He. destruct m as [|p|p]; [lia| |lia]. unfold shr_fexp. cbn [Zdigits2].
  destruct (decide (Zpos p = 2 ^ 53)) as [[= ->]|Hp].
  - rewrite (digits_unique _ 54) by lia. rewrite fexp_normal by lia. replace (54 + e - 53 - e) with 1 by lia. cbn.
    rewrite (proj2 (Z.leb_le _ _)) by lia. eexists _, _. split; [done|]. split; [lia|]. split; [unfold emin; lia|].
    rewrite pow2_add. change (2 ^ 1)%Q with 2%Q. rewrite (Qmult_comm (2 ^ e)), Qmult_assoc. done.
  - rewrite (digits_unique p 53) by lia. rewrite fexp_normal by lia. replace (53 + e - 53 - e) with 0 by lia. cbn.
    rewrite (proj2 (Z.leb_le _ _)) by lia. exists p, e. split; [done|]. split; [lia|]. split; [unfold emin; lia|done].
Qed.

(** Rounding keeps a number in range within one part in [2 ^ 52]. *)
Lemma round_aux_near p ex lx X : stands (shr_record_of_loc (Zpos p) lx) X -> 53 <= Zpos (digits2_pos p) ->
  (2 ^ (-950) <= X * 2 ^ ex <= 2 ^ 950)%Q ->
  exists v, f64_is (binary_round_aux 53 1024 false (Zpos p) ex lx) v /\ rounds v (X * 2 ^ ex).
Proof.
  intros Hst Hd Hr. pose proof (stands_range p lx X ex Hst) as [[Xl Xr] He]. specialize (He Hr). set (d := Zpos (digits2_pos p)) in *.
  unfold binary_round_aux, shr_fexp at 1. cbn [Zdigits2]. fold d. rewrite fexp_normal by lia.
  replace (d + ex - 53 - ex) with (d - 53) by lia.
  pose proof (stands_shr _ X ex (d - 53) ltac:(lia) Hst) as [H1 H2]. destruct (shr _ ex (d - 53)) as [r e1] eqn:Es. cbn [fst snd] in H1, H2.
  set (X1 := (X / 2 ^ (d - 53))%Q) in *. assert (X1 * 2 ^ e1 == X * 2 ^ ex)%Q as EX.
  { unfold X1. rewrite H2, pow2_add. field. auto. }
  assert (2 ^ 52 <= X1 /\ X1 < 2 ^ 53)%Q as [X1l X1r].
  { unfold X1. split; [apply Qle_shift_div_l|apply Qlt_shift_div_r]; [done| |done|]; rewrite <- pow2_add; [by replace (52 + (d - 53)) with (d - 1) by lia|by replace (53 + (d - 53)) with d by lia]. }
  destruct H1 as (Hm0 & [Hm1 Hm2] & Hex) eqn:HH; clear HH. pose proof (round_stands r X1 (conj Hm0 (conj (conj Hm1 Hm2) Hex))) as (_ & Hnear & Hup & Hlo & Hid).
  set (m := round_nearest_even _ _) in *. assert (2 ^ 52 <= m <= 2 ^ 53) as Hm.
  { assert (2 ^ 52 < shr_m r + 1) by (apply inject_lt_inv; pose proof (pow2_inject 52 ltac:(lia)); lra). assert (shr_m r < 2 ^ 53) by (apply inject_lt_inv; pose proof (pow2_inject 53 ltac:(lia)); lra). lia. }
  exists (inject_Z m * 2 ^ e1)%Q. split; [apply finish_round; lia|]. split.
  - assert (X1 * ulp >= 1)%Q by (unfold ulp; change (2 ^ (-52))%Q with (/ 2 ^ 52)%Q; apply Qle_shift_div_l; [done|lra]).
    unfold near. rewrite <- EX. split; [apply (Qle_trans _ ((X1 - X1 * ulp) * 2 ^ e1)); [lra|]|apply (Qle_trans _ ((X1 + X1 * ulp) * 2 ^ e1)); [|lra]]; (apply Qmult_le_r; [done|lra]).
  - intros k Hk Ek. rewrite <- EX in Ek |- *. apply Qmult_comp; [|done].
    assert (2 ^ (d - 1 + ex) < 2 ^ 53)%Q as Hd53%pow2_lt_inv.
    { rewrite pow2_add. apply (Qle_lt_trans _ (X * 2 ^ ex)); [by apply Qmult_le_r|]. rewrite <- EX, Ek, <- (pow2_inject 53) by lia. by apply inject_lt. }
    assert (X1 == inject_Z (k * 2 ^ (- e1)))%Q as E1.
    { rewrite inject_Z_mult, pow2_inject, <- Ek, Qpower_opp by lia. field. auto. }
    by rewrite (Hid _ E1).
Qed.

Lemma iter_xO m d : Zpos (Pos.iter xO m d) = Zpos m * 2 ^ Zpos d.
Proof.
  revert m. induction d as [|d IH] using Pos.peano_ind; intros m; [cbn; lia|].
  rewrite Pos.iter_succ, Pos2Z.inj_xO, IH, Pos2Z.inj_succ, Z.pow_succ_r by lia. lia.
Qed.

(** Aligning to a lower exponent keeps the value. *)
Lemma shl_align_value m e e' : let r := shl_align m e e' in
  (inject_Z (Zpos r.1) * 2 ^ r.2 == inject_Z (Zpos m) * 2 ^ e)%Q /\ r.2 = Z.min e e' /\ Zpos r.1 = Zpos m * 2 ^ (e - Z.min e e').
Proof.
  unfold shl_align. destruct (e' - e) as [|d|d] eqn:E; cbn.
  1, 2: rewrite Z.min_l, Z.sub_diag by lia; repeat split; lia.
  rewrite Z.min_r by lia. replace (e - e') with (Zpos d) by lia. rewrite iter_xO. repeat split.
  rewrite inject_Z_mult, pow2_inject by lia. replace e with (Zpos d + e') by lia. rewrite pow2_add. ring.
Qed.

Lemma round_near p e : (2 ^ (-950) <= inject_Z (Zpos p) * 2 ^ e <= 2 ^ 950)%Q ->
  exists v, f64_is (binary_round 53 1024 false p e) v /\ rounds v (inject_Z (Zpos p) * 2 ^ e).
Proof.
  intros Hr. assert (forall q, stands (shr_record_of_loc (Zpos q) loc_Exact) (inject_Z (Zpos q))) as Hst.
  { intros q. split; [done|]. cbn [shr_m shr_record_of_loc]. split; [|done]. split; [lra|]. apply inject_lt. lia. }
  pose proof (stands_range p loc_Exact _ e (Hst p)) as [_ He]. specialize (He Hr). pose proof (digits_bounds p) as Hb. set (d := Zpos (digits2_pos p)) in *.
  unfold binary_round. fold d. rewrite fexp_normal by lia.
  pose proof (shl_align_value p e (d + e - 53)) as (Hv & H2 & H1). destruct (shl_align p e (d + e - 53)) as [q eq]. cbn [fst snd] in *.
  assert (Zpos (digits2_pos q) = Z.max 53 d) as Hq.
  { destruct (Z.le_ge_cases d 53).
    - rewrite Z.max_l by lia. apply digits_unique; [lia|]. rewrite H1. replace (e - _) with (53 - d) by lia.
      assert (2 ^ (53 - 1) = 2 ^ (d - 1) * 2 ^ (53 - d)) as -> by (rewrite <- Z.pow_add_r by lia; f_equal; lia).
      assert (2 ^ 53 = 2 ^ d * 2 ^ (53 - d)) as -> by (rewrite <- Z.pow_add_r by lia; f_equal; lia).
      pose proof (Z.pow_pos_nonneg 2 (53 - d)). nia.
    - rewrite Z.max_r by lia. apply digits_unique; [lia|]. rewrite H1, Z.min_l, Z.sub_diag by lia. lia. }
  destruct (round_aux_near q eq loc_Exact _ (Hst q)) as (v & Hf & Hn); [lia|by rewrite Hv|].
  exists v. split; [done|]. by rewrite <- Hv.
Qed.

(** A small integer converts exactly. *)
Lemma f64_of_Z_exact n : 0 < n < 2 ^ 53 -> f64_is (f64_of_Z n) (inject_Z n).
Proof.
  intros Hn. destruct n as [|p|p]; [lia| |lia]. unfold f64_of_Z. cbn [binary_normalize].
  assert (inject_Z (Zpos p) * 2 ^ 0 == inject_Z (Zpos p))%Q as E by (change (2 ^ 0)%Q with 1%Q; ring).
  destruct (round_near p 0) as (v & Hf & _ & Hx).
  - rewrite E. split.
    + apply (Qle_trans _ (inject_Z 1)); [by vm_compute|]. apply inject_le. lia.
    + apply (Qle_trans _ (inject_Z (2 ^ 53))); [apply inject_le; lia|by vm_compute].
  - destruct Hf as (m & e & -> & Hm & He & Hv). exists m, e. repeat split; try done; try lia. rewrite <- Hv, (Hx (Zpos p)) by (done || lia). done.
Qed.

(** ** The operations *)

Definition wide (v : Q) : Prop := (2 ^ (-950) <= v <= 2 ^ 950)%Q.

#[global] Instance wide_proper : Proper (Qeq ==> iff) wide.
Proof. intros v w E. unfold wide. by rewrite E. Qed.

Lemma f64_is_ext x v w : (v == w)%Q -> f64_is x v -> f64_is x w.
Proof. intros E (m & e & -> & Hm & He & Hv). exists m, e. by rewrite <- E. Qed.

Lemma f64_is_pos x v : f64_is x v -> (0 < v)%Q.
Proof. intros (m & e & -> & Hm & He & ->). apply Qmult_lt_0_compat; [|done]. by apply (inject_lt 0). Qed.

Lemma f64_is_unique x v w : f64_is x v -> f64_is x w -> (v == w)%Q.
Proof. intros (m & e & -> & _ & _ & ->) (m' & e' & [= <- <-] & _ & _ & ->). done. Qed.

Lemma f64_add_near x y vx vy : f64_is x vx -> f64_is y vy -> wide (vx + vy) ->
  exists v, f64_is (f64_add x y) v /\ rounds v (vx + vy).
Proof.
  intros (mx & ex & -> & Hmx & Hex & Ex) (my & ey & -> & Hmy & Hey & Ey) Hr. unfold f64_add. cbn [SFadd cond_Zopp].
  pose proof (shl_align_value mx ex (Z.min ex ey)) as (Hx & Hx2 & _). pose proof (shl_align_value my ey (Z.min ex ey)) as (Hy & Hy2 & _).
  replace (Z.min ex (Z.min ex ey)) with (Z.min ex ey) in Hx2 by lia. replace (Z.min ey (Z.min ex ey)) with (Z.min ex ey) in Hy2 by lia.
  destruct (shl_align mx ex _) as [a ea], (shl_align my ey _) as [b eb]. cbn [fst snd] in *. subst ea eb.
  rewrite <- Pos2Z.inj_add. cbn [binary_normalize].
  assert (inject_Z (Zpos (a + b)) * 2 ^ Z.min ex ey == vx + vy)%Q as E.
  { rewrite Pos2Z.inj_add, inject_Z_plus, Ex, Ey, <- Hx, <- Hy. ring. }
  destruct (round_near (a + b) (Z.min ex ey)) as (v & Hf & Hn); [unfold wide in Hr; by rewrite E|].
  exists v. split; [done|]. by rewrite <- E.
Qed.

Lemma digits_at_least p d : 0 <= d -> 2 ^ d <= Zpos p -> d + 1 <= Zpos (digits2_pos p).
Proof.
  intros H0 Hp. pose proof (digits_bounds p) as [_ Hr]. assert (2 ^ d < 2 ^ Zpos (digits2_pos p)) as H%Z.pow_lt_mono_r_iff by lia; lia.
Qed.

Lemma f64_mul_near x y vx vy : f64_is x vx -> f64_is y vy -> wide (vx * vy) ->
  exists v, f64_is (f64_mul x y) v /\ rounds v (vx * vy).
Proof.
  intros (mx & ex & -> & Hmx & Hex & Ex) (my & ey & -> & Hmy & Hey & Ey) Hr. unfold f64_mul. cbn [SFmul xorb].
  assert (inject_Z (Zpos (mx * my)) * 2 ^ (ex + ey) == vx * vy)%Q as E.
  { rewrite Pos2Z.inj_mul, inject_Z_mult, pow2_add, Ex, Ey. ring. }
  destruct (round_aux_near (mx * my) (ex + ey) loc_Exact (inject_Z (Zpos (mx * my)))) as (v & Hf & Hn).
  - split; [done|]. cbn [shr_m shr_record_of_loc]. split; [|done]. split; [lra|]. apply inject_lt. lia.
  - transitivity (104 + 1); [lia|]. apply digits_at_least; [lia|]. rewrite Pos2Z.inj_mul. nia.
  - unfold wide in Hr. by rewrite E.
  - exists v. split; [done|]. by rewrite <- E.
Qed.

(** What is left of a division is exact only when nothing is. *)
Lemma stands_location m2 q r : 0 < m2 -> 0 <= q -> 0 <= r < m2 ->
  stands (shr_record_of_loc q (new_location m2 r)) (inject_Z q + inject_Z r / inject_Z m2).
Proof.
  intros Hm Hq Hr. assert (shr_m (shr_record_of_loc q (new_location m2 r)) = q) as E by (by destruct (new_location m2 r) as [|[]]).
  assert (0 < inject_Z m2)%Q as Hm' by (by apply (inject_lt 0)).
  assert (0 <= inject_Z r / inject_Z m2 < 1)%Q as Hf.
  { split; [apply Qle_shift_div_l|apply Qlt_shift_div_r]; try done; [rewrite Qmult_0_l; apply (inject_le 0); lia|rewrite Qmult_1_l; apply inject_lt; lia]. }
  split; [by rewrite E|]. rewrite E. split; [rewrite inject_Z_plus; change (inject_Z 1) with 1%Q; split; lra|].
  destruct r as [|r|r]; [| |lia].
  - split; intros _; [change (inject_Z 0) with 0%Q; field; auto|]. unfold new_location. by destruct (Z.even m2).
  - assert (0 < inject_Z (Zpos r) / inject_Z m2)%Q by (apply Qlt_shift_div_l; [done|]; rewrite Qmult_0_l; by apply (inject_lt 0)).
    split; [intros Hx; exfalso|intros; exfalso; lra]. unfold new_location, new_location_even, new_location_odd in Hx.
    destruct (Z.even m2); [destruct (2 * Zpos r ?= m2)%Z|destruct (2 * Zpos r + 1 ?= m2)%Z]; done.
Qed.

Lemma f64_div_near x y vx vy : f64_is x vx -> f64_is y vy -> wide (vx / vy) ->
  exists v, f64_is (f64_div x y) v /\ rounds v (vx / vy).
Proof.
  intros (mx & ex & -> & Hmx & Hex & Ex) (my & ey & -> & Hmy & Hey & Ey) Hr. unfold f64_div. cbn [SFdiv xorb].
  unfold SFdiv_core_binary. cbn [Zdigits2]. rewrite (digits_unique mx 53), (digits_unique my 53) by lia.
  replace (53 + ex - (53 + ey)) with (ex - ey) by lia.
  assert (0 < inject_Z (Zpos my))%Q as Hmy' by (by apply (inject_lt 0)).
  assert (vx / vy == inject_Z (Zpos mx) / inject_Z (Zpos my) * 2 ^ (ex - ey))%Q as E.
  { rewrite Ex, Ey. unfold Z.sub. rewrite pow2_add, Qpower_opp. field. auto. }
  assert (-952 < ex - ey) as Hlo.
  { apply pow2_lt_inv. destruct Hr as [Hr _]. assert (inject_Z (Zpos mx) / inject_Z (Zpos my) < 2)%Q as Hq.
    { apply Qlt_shift_div_r; [done|]. change 2%Q with (inject_Z 2). rewrite <- inject_Z_mult. apply inject_lt. lia. }
    rewrite E in Hr. apply (Qmult_lt_r _ _ 2); [done|]. eapply (Qlt_le_trans _ (2 ^ (-950))); [by vm_compute|]. eapply Qle_trans; [exact Hr|].
    rewrite (Qmult_comm (2 ^ _)). apply Qmult_le_r; [done|lra]. }
  rewrite fexp_normal by lia. rewrite Z.min_l by lia. replace (ex - ey - (ex - ey - 53)) with 53 by lia.
  rewrite Z.shiftl_mul_pow2 by lia.
  pose proof (Z_div_mod (Zpos mx * 2 ^ 53) (Zpos my) ltac:(lia)) as Hdm. destruct (Z.div_eucl _ _) as [q r]. destruct Hdm as [Hq Hrm].
  assert (2 ^ 52 <= q) as Hq52 by nia. destruct q as [|q|q]; [lia| |lia].
  set (X := (inject_Z (Zpos q) + inject_Z r / inject_Z (Zpos my))%Q). assert (X * 2 ^ (ex - ey - 53) == vx / vy)%Q as EX.
  { rewrite E. replace (ex - ey) with (53 + (ex - ey - 53)) at 2 by lia. rewrite (pow2_add 53), Qmult_assoc. apply Qmult_comp; [|done].
    assert (inject_Z (Zpos mx) * 2 ^ 53 == inject_Z (Zpos my) * inject_Z (Zpos q) + inject_Z r)%Q as Hq'.
    { rewrite <- (pow2_inject 53), <- !inject_Z_mult, <- inject_Z_plus by lia. by rewrite Hq. }
    transitivity ((inject_Z (Zpos my) * inject_Z (Zpos q) + inject_Z r) / inject_Z (Zpos my))%Q; [unfold X; field; auto|].
    rewrite <- Hq'. field. auto. }
  destruct (round_aux_near q (ex - ey - 53) (new_location (Zpos my) r) X) as (v & Hf & Hn).
  - apply stands_location; lia.
  - transitivity (52 + 1); [lia|]. by apply digits_at_least.
  - unfold wide in Hr. by rewrite EX.
  - exists v. split; [done|]. by rewrite <- EX.
Qed.

(** ** Comparisons *)

Lemma f64_compare x y v w : f64_is x v -> f64_is y w ->
  exists c, SFcompare x y = Some c /\ match c with Lt => v < w | Eq => v == w | Gt => w < v end%Q.
Proof.
  assert (forall m1 m2 e1 e2, Zpos m1 < 2 ^ 53 -> 2 ^ 52 <= Zpos m2 -> e1 < e2 ->
    (inject_Z (Zpos m1) * 2 ^ e1 < inject_Z (Zpos m2) * 2 ^ e2)%Q) as Hlt.
  { intros m1 m2 e1 e2 H1%inject_lt H2%inject_le He. rewrite (pow2_inject 53) in H1 by lia. rewrite (pow2_inject 52) in H2 by lia.
    apply (Qlt_le_trans _ (2 ^ 53 * 2 ^ e1)); [by apply Qmult_lt_r|]. apply (Qle_trans _ (2 ^ 52 * 2 ^ e2)); [|by apply Qmult_le_r].
    rewrite <- !pow2_add. apply pow2_le. lia. }
  intros (m1 & e1 & -> & H1 & _ & E1) (m2 & e2 & -> & H2 & _ & E2). cbn [SFcompare]. eexists. split; [done|].
  change (Z.compare e1 e2) with (e1 ?= e2). destruct (Z.compare_spec e1 e2) as [->|He|He].
  - change (Pos.compare_cont Eq m1 m2) with (m1 ?= m2)%positive. destruct (Pos.compare_spec m1 m2) as [->|H|H].
    + by rewrite E1, E2.
    + rewrite E1, E2. apply Qmult_lt_r; [done|]. by apply inject_lt.
    + rewrite E1, E2. apply Qmult_lt_r; [done|]. by apply inject_lt.
  - rewrite E1, E2. apply Hlt; lia.
  - rewrite E1, E2. apply Hlt; lia.
Qed.

Lemma f64_le_iff x y v w : f64_is x v -> f64_is y w -> f64_le x y = true <-> (v <= w)%Q.
Proof.
  intros Hx Hy. destruct (f64_compare x y v w Hx Hy) as (c & E & H). unfold f64_le, SFleb. rewrite E. destruct c; split; (done || lra || intros ?; exfalso; lra).
Qed.

Lemma f64_lt_iff x y v w : f64_is x v -> f64_is y w -> f64_lt x y = true <-> (v < w)%Q.
Proof.
  intros Hx Hy. destruct (f64_compare x y v w Hx Hy) as (c & E & H). unfold f64_lt, SFltb. rewrite E. destruct c; split; (done || lra || intros ?; exfalso; lra).
Qed.

(** ** Floors *)

Lemma Qfloor_unique q z : (inject_Z z <= q < inject_Z (z + 1))%Q -> Qfloor q = z.
Proof.
  intros [Hl Hr]. pose proof (Qfloor_le q). pose proof (Qlt_floor q).
  assert (z < Qfloor q + 1) by (apply inject_lt_inv; lra). assert (Qfloor q < z + 1) by (apply inject_lt_inv; lra). lia.
Qed.

Lemma floor_Z_spec m e : floor_Z m e = Qfloor (inject_Z m * 2 ^ e).
Proof.
  symmetry. apply Qfloor_unique. unfold floor_Z. destruct (Z.leb_spec 0 e) as [He|He].
  - rewrite inject_Z_plus, inject_Z_mult, pow2_inject by done. change (inject_Z 1) with 1%Q. split; lra.
  - pose proof (Z_div_mod_eq_full m (2 ^ (- e))) as Hd. pose proof (Z.mod_pos_bound m (2 ^ (- e)) ltac:(apply Z.pow_pos_nonneg; lia)) as Hm.
    set (z := m / 2 ^ (- e)) in *. assert (2 ^ e == / inject_Z (2 ^ (- e)))%Q as Ep by (by rewrite pow2_inject, <- Qpower_opp, Z.opp_involutive by lia).
    rewrite Ep. change (inject_Z m * / inject_Z (2 ^ (- e)))%Q with (inject_Z m / inject_Z (2 ^ (- e)))%Q.
    assert (0 < inject_Z (2 ^ (- e)))%Q by (apply (inject_lt 0), Z.pow_pos_nonneg; lia). split.
    + apply Qle_shift_div_l; [done|]. rewrite <- inject_Z_mult. apply inject_le. lia.
    + apply Qlt_shift_div_r; [done|]. rewrite <- inject_Z_mult. apply inject_lt. lia.
Qed.

Lemma f64_floor_int x v : f64_is x v -> f64_floor x = f64_of_Z (Qfloor v).
Proof. intros (m & e & -> & _ & _ & E). unfold f64_floor, f64_of_Z. by rewrite E, <- floor_Z_spec. Qed.

Lemma int64_of_Z `{FloatToInt} n : 0 <= n < 2 ^ 53 -> int64_of (f64_of_Z n) = n.
Proof.
  intros Hn. destruct (decide (n = 0)) as [->|]; [done|]. destruct (f64_of_Z_exact n ltac:(lia)) as (m & e & -> & _ & _ & E).
  unfold int64_of. cbn [cond_Zopp]. assert (floor_Z (Zpos m) e = n) as -> by (by rewrite floor_Z_spec, <- E, Qfloor_Z).
  assert ((int64_min <=? n) && (n <=? int64_max) = true) as -> by (apply andb_true_intro; split; apply Z.leb_le; unfold int64_min, int64_max; lia).
  done.
Qed.

(** ** No NaN out of a rounding *)

Lemma round_aux_not_nan s m ex lx : 0 <= m -> binary_round_aux 53 1024 s m ex lx <> S754_nan.
Proof.
  intros Hm. assert (forall m l, 0 <= m -> exists X, stands (shr_record_of_loc m l) X) as Hst.
  { clear. intros m l H. assert (shr_m (shr_record_of_loc m l) = m) as E by (by destruct l as [|[]]).
    destruct (shr_r (shr_record_of_loc m l) || shr_s (shr_record_of_loc m l)) eqn:Ef.
    - exists (inject_Z m + (1 # 2))%Q. split; rewrite E; [done|]. rewrite inject_Z_plus. change (inject_Z 1) with 1%Q.
      split; [split; lra|]. rewrite Ef. split; [done|]. intros. lra.
    - exists (inject_Z m). split; rewrite E; [done|]. split; [|by rewrite Ef]. split; [lra|]. apply inject_lt. lia. }
  assert (forall r e n, (exists X, stands r X) -> exists X, stands (shr r e n).1 X) as Hshr.
  { intros r e n [X HX]. destruct (Z.le_gt_cases 0 n) as [Hn|Hn]; [by eexists; apply stands_shr|]. exists X. by destruct n; [lia..|]. }
  unfold binary_round_aux, shr_fexp. pose proof (Hshr _ ex (fexp 53 1024 (Zdigits2 m + ex) - ex) (Hst m lx Hm)) as [X HX].
  change (Z.sub (fexp 53 1024 (Z.add (Zdigits2 m) ex)) ex) with (fexp 53 1024 (Zdigits2 m + ex) - ex).
  destruct (shr _ _ _) as [r e1]. cbn [fst] in HX. apply round_stands in HX as (H0 & _). set (m1 := round_nearest_even _ _) in *.
  pose proof (Hshr _ e1 (fexp 53 1024 (Zdigits2 m1 + e1) - e1) (Hst m1 loc_Exact H0)) as [X2 [H2 _]].
  change (Z.sub (fexp 53 1024 (Z.add (Zdigits2 m1) e1)) e1) with (fexp 53 1024 (Zdigits2 m1 + e1) - e1).
  destruct (shr _ _ _) as [r2 e2]. cbn [fst] in H2. destruct (shr_m r2); [done| |lia]. by destruct (e2 <=? _).
Qed.

Lemma normalize_not_nan m e s : binary_normalize 53 1024 m e s <> S754_nan.
Proof.
  destruct m; cbn; [done|..]; unfold binary_round; destruct (shl_align _ _ _); by apply round_aux_not_nan.
Qed.
