(* ===== verification/LeewayApportion.v ===== *)
(** How many of a subject's objects each domain should hold (src/pkg/leeway/apportion.go):
    largest-remainder apportionment in float64, caps by water-filling, and the trigger of
    capacity weighting.

    The expectation is a list of integers that sums to what can be placed. The shares are
    computed in float64: [hamilton_sum] bounds their rounding error, so that the sum is
    exact for up to [2 ^ 31] objects over up to [2 ^ 16] domains whose weights are zero,
    unusable or within [2 ^ -400 .. 2 ^ 400]. [sort.Slice] orders by remainder, then index:
    a strict order as long as no remainder is a NaN, so any sort gives the same list. *)
From S2P Require Import Prelude GoTime GoFloatMath LeewayTopology.
From stdpp Require Import sorting.
From Stdlib Require Import SpecFloat QArith Qround Qpower Lqa.
Open Scope Z_scope.
Open Scope lookout_scope.

Definition Uncapped : Z := -1.

Record Apportionment := mkApportionment {
  ap_Expected : list Z; ap_Placed : Z; ap_Unplaceable : Z; ap_Saturated : list bool
}.

Section apportion.
Context `{FloatToInt}.

Definition f64_one : float64 := f64_of_Z 1.

Definition EqualWeights (m : nat) : list float64 := replicate m f64_one.

Definition sanitise (w : float64) : float64 := if IsNaN w || IsInf w 0 || f64_lt w f64_zero then f64_zero else w.
Definition sanitiseWeights (weights : list float64) : list float64 := sanitise <$> weights.

(** [sum += w] over a list of float64. *)
Definition f64_sum (l : list float64) : float64 := fold_left f64_add l f64_zero.

(** ** Largest remainders *)

Notation frac := (nat * float64)%type (only parsing).

Definition frac_less (a b : frac) : bool := if negb (f64_eqb a.2 b.2) then f64_lt b.2 a.2 else (a.1 <? b.1)%nat.
Definition frac_le (a b : frac) : Prop := frac_less b a = false.

#[global] Instance frac_le_dec : RelDecision frac_le.
Proof. intros a b. unfold frac_le. apply _. Defined.

Definition quotient (n : Z) (sum w : float64) : float64 := f64_div (f64_mul (f64_of_Z n) w) sum.

(** [for k := 0; k < deficit; k++ { out[rems[k % m].idx]++ }]. *)
Definition hand_out (order : list frac) (deficit : Z) (out : list Z) : list Z :=
  fold_left (fun out k => alter Z.succ (default O (fst <$> order !! (k mod length order)%nat)) out)
    (seq 0 (Z.to_nat deficit)) out.

Definition hamilton (n : Z) (weights : list float64) : list Z :=
  let m := length weights in
  if n <=? 0 then replicate m 0 else
  let sum := f64_sum weights in
  let '(weights, sum) := if f64_le sum f64_zero then (replicate m f64_one, f64_of_Z (Z.of_nat m)) else (weights, sum) in
  let qs := quotient n sum <$> weights in
  let out := (fun q => int64_of (f64_floor q)) <$> qs in
  let rems := imap (fun i q => (i, f64_sub q (f64_floor q))) qs in
  let allocated := fold_left (fun a z => wrap64 (a + z)) out 0 in
  let deficit := wrap64 (n - allocated) in
  if deficit <=? 0 then out else hand_out (merge_sort frac_le rems) deficit out.

(** ** Caps *)

(** What the loop keeps for one domain: its weight, its cap (negative for none), and its
    entries of [Expected], [Saturated] and [active]. *)
Record cell := mkCell {
  cl_weight : float64; cl_cap : Z; cl_Expected : Z; cl_Saturated : bool; cl_active : bool
}.

(** The first pass over the shares of the active domains: the ones over their cap freeze. *)
Fixpoint freeze (budget : Z) (cells : list cell) (share : list Z) : list cell * Z * bool :=
  match cells with
  | [] => ([], budget, false)
  | c :: cs =>
      if cl_active c then
        match share with
        | [] => (cells, budget, false)
        | want :: share =>
            let over := (0 <=? cl_cap c) && (cl_cap c <? want) in
            let c := if over then c <| cl_Expected := cl_cap c |> <| cl_Saturated := true |> <| cl_active := false |> else c in
            let budget := if over then budget - cl_cap c else budget in
            let '(cs, budget, froze) := freeze budget cs share in
            (c :: cs, budget, over || froze)
        end
      else let '(cs, budget, froze) := freeze budget cs share in (c :: cs, budget, froze)
  end.

(** The second pass, when none froze: every active domain takes its share. *)
Fixpoint take_shares (cells : list cell) (share : list Z) : list cell :=
  match cells with
  | [] => []
  | c :: cs =>
      if cl_active c then
        match share with
        | [] => cells
        | want :: share => c <| cl_Expected := want |> :: take_shares cs share
        end
      else c :: take_shares cs share
  end.

Definition active_cells (cells : list cell) : list cell := List.filter cl_active cells.

(** The loop: the cells at its end and what no domain could take. *)
Fixpoint waterfill (fuel : nat) (budget : Z) (cells : list cell) : list cell * Z :=
  match fuel with
  | O => (cells, budget)
  | S fuel =>
      match active_cells cells with
      | [] => (cells, budget)
      | act =>
          let share := hamilton budget (cl_weight <$> act) in
          let '(cells', budget', froze) := freeze budget cells share in
          if froze then waterfill fuel budget' cells' else (take_shares cells share, 0)
      end
  end.

(** [caps] is nil or as long as [weights]. *)
Definition cap_at (caps : option (list Z)) (i : nat) : Z :=
  match caps with None => Uncapped | Some l => default Uncapped (l !! i) end.

Definition Apportion (n : Z) (weights : list float64) (caps : option (list Z)) : Apportionment :=
  let m := length weights in
  if (m =? 0)%nat || (n <=? 0) then mkApportionment (replicate m 0) 0 (if 0 <? n then n else 0) (replicate m false) else
  let cells := imap (fun i w => mkCell w (cap_at caps i) 0 false true) (sanitiseWeights weights) in
  let '(cells, unplaceable) := waterfill (S m) n cells in
  mkApportionment (cl_Expected <$> cells) (sum_Z (cl_Expected <$> cells)) unplaceable (cl_Saturated <$> cells).

End apportion.

(** ** The trigger of capacity weighting *)

(** 1.25 *)
Definition CapacityWeightingRatioTrigger : float64 := f64_div (f64_of_Z 5) (f64_of_Z 4).

Definition usable_capacities (l : list float64) : list float64 :=
  List.filter (fun c => negb (IsNaN c || IsInf c 0 || f64_lt c f64_zero)) l.

Definition NeedsCapacityWeightingAt (capacities : list float64) (trigger : float64) : bool :=
  let trigger := if f64_le trigger f64_zero then CapacityWeightingRatioTrigger else trigger in
  if (length capacities <? 2)%nat then false else
  let cs := usable_capacities capacities in
  let minC := fold_left f64_min cs (S754_infinity false) in
  let maxC := fold_left f64_max cs (S754_infinity true) in
  if IsInf maxC (-1) then false
  else if f64_le minC f64_zero then true
  else f64_lt trigger (f64_div maxC minC).

Definition NeedsCapacityWeighting (capacities : list float64) : bool :=
  NeedsCapacityWeightingAt capacities CapacityWeightingRatioTrigger.

Example apportion_even : ap_Expected (Apportion 7 (EqualWeights 5) None) = [2; 2; 1; 1; 1].
Proof. vm_compute. done. Qed.

Example apportion_capped :
  Apportion 10 (EqualWeights 3) (Some [2; -1; -1]) = mkApportionment [2; 4; 4] 10 0 [true; false; false].
Proof. vm_compute. done. Qed.

(** ** Rounding errors of the shares *)

(** The value of a weight; a weight that is not a positive number weighs nothing. *)
Definition wval (w : float64) : Q :=
  match w with S754_finite false m e => inject_Z (Zpos m) * 2 ^ e | _ => 0 end.

(** A weight the shares are computed from: a zero, or a number of ordinary size. *)
Definition sane (w : float64) : Prop :=
  (exists s, w = S754_zero s) \/ (f64_is w (wval w) /\ (2 ^ (-400) <= wval w <= 2 ^ 400)%Q).

Definition Qsum (l : list Q) : Q := foldr Qplus 0%Q l.

Lemma Qsum_app l k : (Qsum (l ++ k) == Qsum l + Qsum k)%Q.
Proof. unfold Qsum. induction l as [|x l IH]; cbn [app foldr]; [symmetry; apply Qplus_0_l|]. rewrite IH. apply Qplus_assoc. Qed.

Lemma wval_nonneg w : (0 <= wval w)%Q.
Proof. destruct w as [| | |[] m e]; cbn; try lra. apply Qmult_le_0_compat; [by apply (inject_le 0)|]. apply Qlt_le_weak, pow2_pos. Qed.

Lemma sane_val w : sane w -> (wval w == 0 /\ exists s, w = S754_zero s)%Q \/ (f64_is w (wval w) /\ (2 ^ (-400) <= wval w <= 2 ^ 400)%Q).
Proof. intros [[s ->]|Hw]; [left; split; [apply Qeq_refl|by exists s]|by right]. Qed.

(** What is known of a float sum [x] of weights that sum to [S] exactly, after [k] roundings. *)
Definition summed (x : float64) (S : Q) (k : Z) : Prop :=
  (x = S754_zero false /\ (S == 0)%Q) \/
  exists v, f64_is x v /\ (S * (1 - inject_Z k * ulp) <= v /\ v * (1 - inject_Z k * ulp) <= S)%Q /\
    (2 ^ (-400) <= S <= inject_Z k * 2 ^ 400)%Q.

Lemma ulp_val : (0 < ulp /\ ulp * inject_Z (2 ^ 52) == 1)%Q.
Proof. by split. Qed.

(** The error after up to [2 ^ 20] roundings is small. *)
Lemma small_error k : 0 <= k < 2 ^ 20 -> (0 <= inject_Z k * ulp /\ inject_Z k * ulp <= 1 # 4294967296 /\ ulp <= 1 # 4503599627370496)%Q.
Proof.
  intros Hk. split; [apply Qmult_le_0_compat; [apply (inject_le 0); lia|by vm_compute]|]. split; [|by vm_compute].
  apply (Qle_trans _ (inject_Z (2 ^ 20) * ulp)); [|by vm_compute]. apply Qmult_le_compat_r; [apply inject_le; lia|by vm_compute].
Qed.

Lemma looser a b K : (0 <= a -> a * (1 - K * ulp) <= b -> a * (1 - (K + 1) * ulp) <= b)%Q.
Proof. intros Ha Hb. assert (0 <= a * ulp)%Q by (apply Qmult_le_0_compat; [done|by vm_compute]). lra. Qed.

(** One more addition costs one more rounding. *)
Lemma summed_add x S k w : 0 <= k < 2 ^ 20 -> summed x S k -> sane w -> summed (f64_add x w) (S + wval w) (k + 1).
Proof.
  intros Hk Hx Hw. assert (0 <= inject_Z k <= inject_Z (2 ^ 20))%Q as [Hk0 Hk1] by (split; [apply (inject_le 0)|apply inject_le]; lia).
  unfold summed in *. set (K := inject_Z k) in *. assert (inject_Z (k + 1) == K + 1)%Q as EK by (by rewrite inject_Z_plus).
  destruct ulp_val as [Hu _]. set (W := wval w) in *. assert (0 <= W)%Q as HW by apply wval_nonneg. set (B := (2 ^ 400)%Q) in *.
  assert (0 < B)%Q as HB by apply pow2_pos. assert (0 < 2 ^ (-400))%Q as Hb by apply pow2_pos.
  destruct (sane_val w Hw) as [[Ew [s Es]]|[Hw1 Hw2]]; [|fold W in Hw2; fold B in Hw2].
  - assert (f64_add x w = x) as -> by (rewrite Es; destruct Hx as [[-> _]|(v & (m & e & -> & _) & _)]; [by destruct s|done]).
    fold W in Ew. destruct Hx as [[-> E]|(v & Hv & [Hl Hr] & HS)]; [left; split; [done|]; lra|]. right. exists v. split; [done|].
    assert (0 < v)%Q by (by eapply f64_is_pos). assert (S + W == S)%Q as -> by lra. rewrite EK.
    split; [split; apply looser; lra|]. split; lra.
  - right. destruct Hx as [[-> E]|(v & Hv & [Hl Hr] & HS)].
    + exists W. assert (f64_add (S754_zero false) w = w) as -> by (by destruct Hw1 as (m & e & -> & _)). split; [done|].
      assert (S + W == W)%Q as -> by lra. assert (0 <= W * (K * ulp))%Q by (repeat apply Qmult_le_0_compat; lra).
      assert (0 <= K * B)%Q by (apply Qmult_le_0_compat; lra). rewrite EK. split; [split; apply looser; lra|]. split; lra.
    + assert (0 < v)%Q as Hv0 by (by eapply f64_is_pos). pose proof (small_error k Hk) as Hs. fold K in Hs. 
      assert (S <= inject_Z (2 ^ 20) * B)%Q by (apply (Qle_trans _ (K * B)); [lra|apply Qmult_le_compat_r; lra]).
      assert (v * (1 # 2) <= S)%Q by (apply (Qle_trans _ (v * (1 - K * ulp))); [|done]; rewrite !(Qmult_comm v); apply Qmult_le_compat_r; lra).
      destruct (f64_add_near x w v W Hv Hw1) as (v' & Hv' & [[Hnl Hnr] _]).
      { split; [apply (Qle_trans _ (2 ^ (-400))); [by vm_compute|lra]|].
        apply (Qle_trans _ (3 * (inject_Z (2 ^ 20) * B))); [|by vm_compute]. assert (B <= inject_Z (2 ^ 20) * B)%Q by (by vm_compute). lra. }
      exists v'. split; [done|]. rewrite EK. split; [split|].
      * assert (0 <= W * (K * ulp))%Q by (repeat apply Qmult_le_0_compat; lra). assert (0 <= (S + W) * (K * ulp * ulp))%Q by (repeat apply Qmult_le_0_compat; lra).
        apply (Qle_trans _ ((S + W) * (1 - K * ulp) * (1 - ulp))); [lra|]. eapply Qle_trans; [|exact Hnl]. apply Qmult_le_compat_r; lra.
      * assert (0 <= (v + W) * (ulp * ulp * (K + 1)))%Q by (repeat apply Qmult_le_0_compat; lra). assert (0 <= W * (K * ulp))%Q by (repeat apply Qmult_le_0_compat; lra).
        apply (Qle_trans _ ((v + W) * (1 + ulp) * (1 - (K + 1) * ulp))); [apply Qmult_le_compat_r; lra|]. lra.
      * split; lra.
Qed.

Lemma f64_sum_summed ws : Forall sane ws -> Z.of_nat (length ws) <= 2 ^ 20 ->
  summed (f64_sum ws) (Qsum (wval <$> ws)) (Z.of_nat (length ws)).
Proof.
  induction ws as [|w ws IH] using rev_ind; intros Hs Hl; [by left|].
  rewrite length_app in *. cbn [length] in *. apply Forall_app in Hs as [Hs Hw]. apply Forall_cons_1 in Hw as [Hw _].
  unfold f64_sum. rewrite fold_left_app. cbn [fold_left]. replace (Z.of_nat (length ws + 1)) with (Z.of_nat (length ws) + 1) by lia.
  pose proof (summed_add _ _ (Z.of_nat (length ws)) w ltac:(lia) (IH Hs ltac:(lia)) Hw) as [[E1 E2]|(v & Hv)].
  - left. split; [done|]. rewrite fmap_app, Qsum_app. cbn [fmap list_fmap]. unfold Qsum at 2. cbn [foldr]. rewrite Qplus_0_r. done.
  - right. exists v. assert (Qsum (wval <$> ws ++ [w]) == Qsum (wval <$> ws) + wval w)%Q as -> by (rewrite fmap_app, Qsum_app; cbn; unfold Qsum at 2; cbn [foldr]; by rewrite Qplus_0_r). done.
Qed.

(** The sum the shares are taken over: positive, and near the exact sum of the weights. *)
Definition divisor (ws : list float64) (x : float64) (v : Q) : Prop :=
  let S := Qsum (wval <$> ws) in let k := inject_Z (Z.of_nat (length ws)) in
  f64_is x v /\ (S * (1 - k * ulp) <= v /\ v * (1 - k * ulp) <= S)%Q /\ (2 ^ (-400) <= S <= k * 2 ^ 400)%Q.

Lemma sum_Z_nonneg l : Forall (Z.le 0) l -> 0 <= sum_Z l.
Proof. induction 1 as [|z l Hz Hl IH]; cbn [sum_Z foldr]; [lia|]. unfold sum_Z in IH. lia. Qed.

Section shares.
Context `{FloatToInt}.

(** An integer part off by the rounding of two operations at most. *)
Lemma share_bounds n x vs w : 0 < n <= 2 ^ 31 -> f64_is x vs -> (2 ^ (-401) <= vs <= 2 ^ 430)%Q -> (wval w <= 2 * vs)%Q -> sane w ->
  let z := int64_of (f64_floor (quotient n x w)) in
  0 <= z /\ (inject_Z z * vs <= inject_Z n * wval w * ((1 + ulp) * (1 + ulp)))%Q /\
  (inject_Z n * wval w * ((1 - ulp) * (1 - ulp)) <= (inject_Z z + 1) * vs)%Q.
Proof.
  intros Hn Hx Hvs Hle Hw. assert (0 < vs)%Q as Hv0 by (by eapply f64_is_pos). destruct ulp_val as [Hu _]. assert (ulp < 1 # 4)%Q as Hu1 by (by vm_compute).
  destruct (f64_of_Z_exact n ltac:(lia)) as (mn & en & En & Hmn). assert (f64_is (f64_of_Z n) (inject_Z n)) as HN by (rewrite En; exists mn, en; by split).
  unfold quotient. destruct (sane_val w Hw) as [[Ew [s ->]]|[Hw1 Hw2]].
  - rewrite En. destruct Hx as (m & e & -> & _). cbn [f64_mul SFmul f64_div SFdiv xorb f64_floor int64_of wval]. split; [done|]. change (inject_Z 0) with 0%Q. split; lra.
  - set (W := wval w) in *. set (N := inject_Z n) in *. assert (1 <= N <= inject_Z (2 ^ 31))%Q as [HN1 HN2] by (split; [apply (inject_le 1)|apply inject_le]; lia).
    assert (0 < W)%Q as HW0 by (by eapply f64_is_pos).
    assert (W <= N * W)%Q as HNW1 by (rewrite <- (Qmult_1_l W) at 1; apply Qmult_le_compat_r; lra).
    assert (N * W <= inject_Z (2 ^ 31) * W)%Q as HNW2 by (apply Qmult_le_compat_r; lra).
    destruct (f64_mul_near _ _ _ _ HN Hw1) as (p & Hp & [[Hpl Hpr] _]).
    { fold W. split; [apply (Qle_trans _ (2 ^ (-400))); [by vm_compute|lra]|]. apply (Qle_trans _ (inject_Z (2 ^ 31) * 2 ^ 400)); [|by vm_compute].
      eapply Qle_trans; [exact HNW2|]. rewrite !(Qmult_comm (inject_Z _)). apply Qmult_le_compat_r; [lra|by vm_compute]. }
    fold W in Hpl, Hpr. assert (0 < p)%Q as Hp0 by (by eapply f64_is_pos).
    assert (p / vs * vs == p)%Q as Edv by (field; by apply pos_nz).
    assert (p <= inject_Z (2 ^ 33) * vs)%Q as Hp33.
    { assert (N * W * ulp <= N * W)%Q by (rewrite <- (Qmult_1_r (N * W)) at 2; rewrite !(Qmult_comm (N * W)); apply Qmult_le_compat_r; lra).
      assert (inject_Z (2 ^ 31) * W <= inject_Z (2 ^ 31) * (2 * vs))%Q by (rewrite !(Qmult_comm (inject_Z _)); apply Qmult_le_compat_r; [lra|by vm_compute]).
      change (inject_Z (2 ^ 33)) with (4 * inject_Z (2 ^ 31))%Q. lra. }
    destruct (f64_div_near _ _ _ _ Hp Hx) as (q & Hq & [[Hql Hqr] _]).
    { split.
      - apply Qle_shift_div_l; [done|]. apply (Qle_trans _ (2 ^ (-950) * 2 ^ 430)); [rewrite !(Qmult_comm (2 ^ (-950))); apply Qmult_le_compat_r; [lra|by vm_compute]|].
        apply (Qle_trans _ (2 ^ (-400) * (3 # 4))); [by vm_compute|]. apply (Qle_trans _ (N * W * (3 # 4))); [apply Qmult_le_compat_r; lra|].
        eapply Qle_trans; [|exact Hpl]. rewrite !(Qmult_comm (N * W)). apply Qmult_le_compat_r; lra.
      - apply Qle_shift_div_r; [done|]. eapply Qle_trans; [exact Hp33|]. apply Qmult_le_compat_r; [by vm_compute|lra]. }
    rewrite (f64_floor_int _ _ Hq). assert (0 < q)%Q as Hq0 by (by eapply f64_is_pos).
    pose proof (Qfloor_le q) as Hf1. pose proof (Qlt_floor q) as Hf2. rewrite inject_Z_plus in Hf2. change (inject_Z 1) with 1%Q in Hf2.
    assert (0 <= Qfloor q) as Hz0 by (change 0 with (Qfloor 0); apply Qfloor_resp_le; lra).
    assert (q * vs <= p * (1 + ulp))%Q as Hqv1 by (rewrite <- Edv; apply (Qle_trans _ (p / vs * (1 + ulp) * vs)); [apply Qmult_le_compat_r; lra|lra]).
    assert (p * (1 - ulp) <= q * vs)%Q as Hqv2 by (rewrite <- Edv at 1; apply (Qle_trans _ (p / vs * (1 - ulp) * vs)); [lra|apply Qmult_le_compat_r; lra]).
    assert (Qfloor q < 2 ^ 53) as Hz53.
    { apply inject_lt_inv. eapply Qle_lt_trans; [exact Hf1|]. apply (Qle_lt_trans _ (inject_Z (2 ^ 34))); [|by vm_compute].
      apply (Qmult_le_r _ _ vs); [done|]. assert (p * ulp <= p * 1)%Q by (rewrite !(Qmult_comm p); apply Qmult_le_compat_r; lra).
      change (inject_Z (2 ^ 34)) with (2 * inject_Z (2 ^ 33))%Q. lra. }
    rewrite int64_of_Z by lia. cbn zeta. split; [done|]. split.
    + apply (Qle_trans _ (q * vs)); [apply Qmult_le_compat_r; lra|]. eapply Qle_trans; [exact Hqv1|].
      apply (Qle_trans _ (N * W * (1 + ulp) * (1 + ulp))); [apply Qmult_le_compat_r; lra|lra].
    + apply (Qle_trans _ (q * vs)); [|apply Qmult_le_compat_r; lra]. eapply Qle_trans; [|exact Hqv2].
      apply (Qle_trans _ (N * W * (1 - ulp) * (1 - ulp))); [lra|apply Qmult_le_compat_r; lra].
Qed.

Lemma wval_in_sum ws w : w ∈ ws -> (wval w <= Qsum (wval <$> ws))%Q.
Proof.
  unfold Qsum. induction ws as [|a ws IH]; [by intros ?%elem_of_nil|]. cbn [fmap list_fmap foldr]. intros [->|Hin]%elem_of_cons.
  - assert (0 <= foldr Qplus 0 (wval <$> ws))%Q; [|lra]. clear. induction ws as [|a ws IH]; cbn [fmap list_fmap foldr]; [lra|].
    pose proof (wval_nonneg a). lra.
  - specialize (IH Hin). pose proof (wval_nonneg a). lra.
Qed.

Lemma divisor_range ws x v : divisor ws x v -> Z.of_nat (length ws) <= 2 ^ 16 ->
  (2 ^ (-401) <= v <= 2 ^ 430 /\ Qsum (wval <$> ws) <= 2 * v)%Q.
Proof.
  intros (Hx & [Hl Hr] & HS) Hk. set (k := Z.of_nat (length ws)) in *. set (S := Qsum (wval <$> ws)) in *.
  pose proof (small_error k ltac:(lia)) as (He0 & He1 & _). set (eps := (inject_Z k * ulp)%Q) in *. assert (0 < v)%Q by (by eapply f64_is_pos).
  assert (0 < 2 ^ (-400))%Q as Hb0 by apply pow2_pos. assert (S <= 2 * v)%Q as HSv.
  { assert (S * (1 # 2) <= S * (1 - eps))%Q by (rewrite !(Qmult_comm S); apply Qmult_le_compat_r; lra). lra. }
  assert (v <= 2 * S)%Q as HvS.
  { assert (v * (1 # 2) <= v * (1 - eps))%Q by (rewrite !(Qmult_comm v); apply Qmult_le_compat_r; lra). lra. }
  split; [|done]. split; [change (2 ^ (-401))%Q with ((1 # 2) * 2 ^ (-400))%Q; lra|].
  apply (Qle_trans _ (2 * (inject_Z (2 ^ 16) * 2 ^ 400))); [|by vm_compute]. assert (inject_Z k * 2 ^ 400 <= inject_Z (2 ^ 16) * 2 ^ 400)%Q; [|lra].
  apply Qmult_le_compat_r; [apply inject_le; lia|by vm_compute].
Qed.

Definition floors (n : Z) (x : float64) (ws : list float64) : list Z := (fun w => int64_of (f64_floor (quotient n x w))) <$> ws.

(** The integer parts are no more than what there is to share, and leave at most one object
    per domain to the remainders. *)
Lemma floors_total n x v ws : 0 < n <= 2 ^ 31 -> Forall sane ws -> Z.of_nat (length ws) <= 2 ^ 16 -> divisor ws x v ->
  Forall (Z.le 0) (floors n x ws) /\ n - Z.of_nat (length ws) <= sum_Z (floors n x ws) <= n.
Proof.
  intros Hn Hs Hk Hd. pose proof (divisor_range _ _ _ Hd Hk) as [Hv HSv]. destruct Hd as (Hx & [Hl Hr] & HS & _).
  set (T := Qsum (wval <$> ws)) in *. set (k := Z.of_nat (length ws)) in *.
  assert (forall w, w ∈ ws -> let z := int64_of (f64_floor (quotient n x w)) in
    0 <= z /\ (inject_Z z * v <= inject_Z n * wval w * ((1 + ulp) * (1 + ulp)))%Q /\
    (inject_Z n * wval w * ((1 - ulp) * (1 - ulp)) <= (inject_Z z + 1) * v)%Q) as Hb.
  { intros w Hw. apply share_bounds; [done..| |]; [exact (Qle_trans _ _ _ (wval_in_sum ws w Hw) HSv)|by eapply list.Forall_forall in Hs]. }
  assert (Forall (Z.le 0) (floors n x ws)) as H0.
  { apply list.Forall_forall. intros z (w & -> & Hw)%list_elem_of_fmap. by apply Hb. }
  split; [done|]. set (Z0 := sum_Z (floors n x ws)).
  assert ((inject_Z Z0 * v <= inject_Z n * T * ((1 + ulp) * (1 + ulp)))%Q /\
    (inject_Z n * T * ((1 - ulp) * (1 - ulp)) <= (inject_Z Z0 + inject_Z k) * v)%Q) as [Hup Hlo].
  { unfold Z0, T, k. clear -Hb. unfold Qsum, floors, sum_Z. induction ws as [|w ws IH]; cbn [fmap list_fmap foldr length].
    - change (inject_Z 0) with 0%Q. change (inject_Z (Z.of_nat 0)) with 0%Q. split; lra.
    - destruct (IH (fun w' Hw' => Hb w' (list_elem_of_further _ _ _ Hw'))) as [IH1 IH2]. destruct (Hb w (list_elem_of_here _ _)) as (_ & B1 & B2).
      rewrite Nat2Z.inj_succ. unfold Z.succ. repeat rewrite inject_Z_plus. change (inject_Z 1) with 1%Q. split; lra. }
  pose proof (small_error k ltac:(lia)) as (He0 & He1 & Hu1). destruct ulp_val as [Hu0 _]. set (eps := (inject_Z k * ulp)%Q) in *. clearbody eps.
  assert (0 < 2 ^ (-400))%Q by apply pow2_pos. assert (0 < T)%Q as HT by lra. assert (0 < v)%Q by (by eapply f64_is_pos).
  set (N := inject_Z n) in *. assert (1 <= N <= 2147483648)%Q as [HN1 HN2] by (split; [apply (inject_le 1)|apply (inject_le _ 2147483648)]; lia).
  assert (0 <= N * ulp /\ N * ulp <= 1 # 1024)%Q as [HNu0 HNu].
  { split; [apply Qmult_le_0_compat; lra|]. apply (Qle_trans _ (2147483648 * ulp)); [apply Qmult_le_compat_r; lra|by vm_compute]. }
  assert (N * eps <= 1 # 2)%Q as HNe.
  { apply (Qle_trans _ (2147483648 * eps)); [apply Qmult_le_compat_r; lra|lra]. }
  assert (N * ulp * ulp <= 1 # 1024)%Q as HNuu.
  { apply (Qle_trans _ (1 * (1 # 1024))); [|by vm_compute]. rewrite (Qmult_comm _ ulp). apply Qmult_le_compat_nonneg; lra. }
  split.
  - assert (0 <= Z0 + k) as Hzk by (pose proof (sum_Z_nonneg _ H0); lia).
    assert (n < Z0 + k + 1); [|lia]. apply inject_lt_inv. rewrite !inject_Z_plus. fold N. change (inject_Z 1) with 1%Q.
    apply (inject_le 0) in Hzk. rewrite inject_Z_plus in Hzk. change (inject_Z 0) with 0%Q in Hzk. set (Y := (inject_Z Z0 + inject_Z k)%Q) in *.
    assert (N * ((1 - ulp) * (1 - ulp)) * (1 - eps) <= Y)%Q as HY.
    { apply (Qmult_le_r _ _ T); [done|]. apply (Qle_trans _ (Y * v * (1 - eps))).
      - apply (Qle_trans _ (N * T * ((1 - ulp) * (1 - ulp)) * (1 - eps))); [lra|]. apply Qmult_le_compat_r; lra.
      - rewrite <- Qmult_assoc, !(Qmult_comm Y). apply Qmult_le_compat_r; lra. }
    assert (0 <= N * ulp * eps)%Q by (repeat apply Qmult_le_0_compat; lra). assert (0 <= N * ulp * ulp * (1 - eps))%Q by (repeat apply Qmult_le_0_compat; lra). lra.
  - destruct (Z.le_gt_cases Z0 n) as [|Hgt]; [done|exfalso].
    assert (N + 1 <= inject_Z Z0)%Q as HZ by (change 1%Q with (inject_Z 1); unfold N; rewrite <- inject_Z_plus; apply inject_le; lia).
    assert ((N + 1) * (1 - eps) <= N * ((1 + ulp) * (1 + ulp)))%Q; [|lra]. apply (Qmult_le_r _ _ T); [done|].
    apply (Qle_trans _ ((N + 1) * v)); [rewrite <- Qmult_assoc, !(Qmult_comm (N + 1)); apply Qmult_le_compat_r; lra|].
    apply (Qle_trans _ (inject_Z Z0 * v)); [apply Qmult_le_compat_r; lra|]. eapply Qle_trans; [exact Hup|]. lra.
Qed.

(** ** The remainders *)

Lemma sum_alter i (l : list Z) : (i < length l)%nat -> sum_Z (alter Z.succ i l) = sum_Z l + 1.
Proof.
  revert i. unfold sum_Z. induction l as [|z l IH]; intros [|i] Hi; cbn in Hi; [lia..| |]; cbn [foldr alter list_alter]; [lia|]. rewrite IH by lia. lia.
Qed.

Lemma alter_nonneg i (l : list Z) : Forall (Z.le 0) l -> Forall (Z.le 0) (alter Z.succ i l).
Proof. intros H0. revert i. induction H0 as [|z l Hz Hl IH]; intros [|i]; cbn; constructor; first [done|lia|apply IH]. Qed.

Lemma hand_out_ok order d out : order <> [] -> (forall f, f ∈ order -> (f.1 < length out)%nat) -> Forall (Z.le 0) out ->
  length (hand_out order d out) = length out /\ Forall (Z.le 0) (hand_out order d out) /\
  sum_Z (hand_out order d out) = sum_Z out + Z.max 0 d.
Proof.
  intros Hne Hin H0. unfold hand_out. replace (Z.max 0 d) with (Z.of_nat (length (seq 0 (Z.to_nat d)))) by (rewrite length_seq; lia).
  generalize (seq 0 (Z.to_nat d)) as ks. intros ks. revert out H0 Hin. induction ks as [|k ks IH]; intros out H0 Hin; [cbn [fold_left length]; repeat split; [done|lia]|].
  cbn [fold_left length]. set (i := default O _). assert (i < length out)%nat as Hi.
  { unfold i. destruct (lookup_lt_is_Some_2 order (k mod length order)) as [f Hf].
    - apply Nat.mod_upper_bound. by destruct order.
    - rewrite Hf. cbn. apply Hin. by eapply list_elem_of_lookup_2. }
  destruct (IH (alter Z.succ i out)) as (L & N & S); [by apply alter_nonneg|by rewrite length_alter|].
  rewrite length_alter in L. rewrite sum_alter in S by done. repeat split; [done..|]. lia.
Qed.

Lemma wrapped_sum l : Forall (Z.le 0) l -> sum_Z l <= int64_max -> fold_left (fun a z => wrap64 (a + z)) l 0 = sum_Z l.
Proof.
  intros H0 Hm. assert (forall a, 0 <= a -> a + sum_Z l <= int64_max -> fold_left (fun a z => wrap64 (a + z)) l a = a + sum_Z l) as Hg; [|by rewrite Hg; [|lia..]].
  clear Hm. unfold sum_Z. induction H0 as [|z l Hz Hl IH]; intros a Ha Hm; cbn [fold_left foldr] in *; [lia|].
  pose proof (sum_Z_nonneg l Hl) as Hs. unfold sum_Z in Hs. rewrite wrap64_id by (unfold in_int64, int64_min, int64_max in *; lia). rewrite IH; lia.
Qed.

Lemma ones_divisor m : (0 < m)%nat -> Z.of_nat m <= 2 ^ 16 ->
  Forall sane (replicate m f64_one) /\ divisor (replicate m f64_one) (f64_of_Z (Z.of_nat m)) (inject_Z (Z.of_nat m)).
Proof.
  intros H0 Hm. assert (f64_is f64_one (wval f64_one)) as H1 by (eexists _, _; repeat split; by vm_compute).
  assert (Qsum (wval <$> replicate m f64_one) == inject_Z (Z.of_nat m))%Q as E.
  { clear. unfold Qsum. induction m as [|m IH]; [done|]. rewrite replicate_S. cbn [fmap list_fmap foldr]. rewrite IH, Nat2Z.inj_succ.
    unfold Z.succ. rewrite inject_Z_plus, (Qplus_comm (inject_Z (Z.of_nat m))). by apply Qplus_comp. }
  split; [apply Forall_replicate; right; split; [done|by split; vm_compute]|].
  split; [apply f64_of_Z_exact; lia|]. rewrite length_replicate, E. set (M := inject_Z (Z.of_nat m)).
  assert (1 <= M)%Q by (apply (inject_le 1); lia). assert (0 <= M * ulp)%Q by (apply Qmult_le_0_compat; [lra|by vm_compute]).
  assert (0 <= M * (M * ulp))%Q by (apply Qmult_le_0_compat; lra). split; [split; lra|]. split.
  - apply (Qle_trans _ 1); [by vm_compute|done].
  - rewrite <- (Qmult_1_r M) at 1. rewrite !(Qmult_comm M). apply Qmult_le_compat_r; [by vm_compute|lra].
Qed.

Lemma f64_is_not_le_zero x v : f64_is x v -> f64_le x f64_zero = false.
Proof. by intros (m & e & -> & _). Qed.

(** The shares are not negative and sum to what was to be shared. *)
Lemma hamilton_sum n ws : 0 <= n <= 2 ^ 31 -> Forall sane ws -> (0 < length ws)%nat -> Z.of_nat (length ws) <= 2 ^ 16 ->
  length (hamilton n ws) = length ws /\ Forall (Z.le 0) (hamilton n ws) /\ sum_Z (hamilton n ws) = n.
Proof.
  intros Hn Hs H0 Hk. unfold hamilton. destruct (Z.leb_spec n 0) as [Hn0|Hn0].
  { rewrite length_replicate. split; [done|]. split; [by apply Forall_replicate|]. clear -Hn Hn0. unfold sum_Z. induction (length ws); cbn; [lia|done]. }
  destruct (if f64_le (f64_sum ws) f64_zero then _ else _) as [ws' x] eqn:E.
  assert (length ws' = length ws /\ Forall sane ws' /\ exists v, divisor ws' x v) as (Hlen & Hs' & v & Hd).
  { destruct (f64_sum_summed ws Hs ltac:(lia)) as [[Ez _]|(v & Hv)].
    - rewrite Ez in E. injection E as <- <-. rewrite length_replicate. destruct (ones_divisor (length ws)); eauto.
    - rewrite (f64_is_not_le_zero _ v) in E by apply Hv. injection E as <- <-. eauto. }
  cbn zeta. rewrite <- list_fmap_compose. change ((fun q => int64_of (f64_floor q)) ∘ quotient n x <$> ws') with (floors n x ws').
  destruct (floors_total n x v ws' ltac:(lia) Hs' ltac:(lia) Hd) as [Hf0 Hft]. assert (length (floors n x ws') = length ws) as Hfl by (unfold floors; by rewrite length_fmap).
  rewrite wrapped_sum by (done || unfold int64_max; lia). pose proof (sum_Z_nonneg _ Hf0).
  rewrite wrap64_id by (unfold in_int64, int64_min, int64_max; lia).
  destruct (Z.leb_spec (n - sum_Z (floors n x ws')) 0); [by repeat split; [..|lia]|].
  set (rems := imap _ _). assert (length rems = length ws) as Hrl by (unfold rems; by rewrite length_imap, length_fmap).
  destruct (hand_out_ok (merge_sort frac_le rems) (n - sum_Z (floors n x ws')) (floors n x ws')) as (L & N & S); [| |done|].
  - intros En. apply (f_equal length) in En. rewrite merge_sort_Permutation in En. cbn in En. lia.
  - intros f Hf. rewrite merge_sort_Permutation in Hf. apply list_elem_of_lookup in Hf as [i Hi]. unfold rems in Hi. rewrite list_lookup_imap in Hi.
    destruct (_ !! i) as [q|] eqn:Eq; [|done]. injection Hi as <-. cbn. apply lookup_lt_Some in Eq. rewrite length_fmap in Eq. lia.
  - rewrite L. repeat split; [done..|]. lia.
Qed.

End shares.

(** ** Water-filling *)

Section waterfilling.
Context `{FloatToInt}.

(** A cell during the loop: still absorbing and empty, or frozen at its cap. *)
Definition cell_ok (c : cell) : Prop :=
  sane (cl_weight c) /\
  if cl_active c then cl_Expected c = 0 /\ cl_Saturated c = false
  else 0 <= cl_cap c /\ cl_Expected c = cl_cap c /\ cl_Saturated c = true.

(** A cell when the loop is over. *)
Definition cell_done (c : cell) : Prop :=
  0 <= cl_Expected c /\ (0 <= cl_cap c -> cl_Expected c <= cl_cap c) /\
  (cl_Saturated c = true -> 0 <= cl_cap c /\ cl_Expected c = cl_cap c).

Definition expected_of (cells : list cell) : Z := sum_Z (cl_Expected <$> cells).
Definition active_count (cells : list cell) : nat := length (active_cells cells).

Lemma expected_cons c cs : expected_of (c :: cs) = cl_Expected c + expected_of cs.
Proof. done. Qed.
Lemma sum_Z_cons z l : sum_Z (z :: l) = z + sum_Z l.
Proof. done. Qed.

Lemma active_cells_cons c cs : active_cells (c :: cs) = if cl_active c then c :: active_cells cs else active_cells cs.
Proof. done. Qed.

(** A round that freezes: the books balance, budget is left, and fewer domains are active. *)
Lemma freeze_ok cells : forall budget share, Forall cell_ok cells -> length share = active_count cells -> Forall (Z.le 0) share ->
  let '(cells', budget', froze) := freeze budget cells share in
  cl_cap <$> cells' = cl_cap <$> cells /\ Forall cell_ok cells' /\
  expected_of cells' + budget' = expected_of cells + budget /\ budget - sum_Z share <= budget' <= budget /\
  (active_count cells' <= active_count cells)%nat /\
  if froze then (active_count cells' < active_count cells)%nat /\ budget - sum_Z share < budget'
  else cells' = cells /\ Forall cell_done (take_shares cells share) /\
       cl_cap <$> take_shares cells share = cl_cap <$> cells /\ expected_of (take_shares cells share) = expected_of cells + sum_Z share.
Proof.
  unfold active_count. induction cells as [|c cs IH]; intros budget share Hok Hlen Hnn.
  { destruct share; [|done]. cbn [freeze take_shares]. change (sum_Z []) with 0. repeat split; first [done|lia]. }
  apply Forall_cons_1 in Hok as [Hc Hok]. destruct Hc as [Hsane Hc]. cbn [freeze take_shares]. rewrite active_cells_cons in *.
  destruct (cl_active c) eqn:Ea.
  - destruct Hc as [He Hsat]. destruct share as [|want share]; [done|]. cbn in Hlen. apply Forall_cons_1 in Hnn as [Hw Hnn].
    set (over := (0 <=? cl_cap c) && (cl_cap c <? want)).
    set (c' := if over then _ else c). set (b := if over then _ else budget). specialize (IH b share Hok ltac:(lia) Hnn).
    destruct (freeze b cs share) as [[cs' b'] froze]. destruct IH as (Hcap & Hok' & Hbook & Hbud & Hact & Hfr).
    rewrite !expected_cons, !sum_Z_cons, !fmap_cons, active_cells_cons.
    destruct over eqn:Eo; unfold over in Eo; cbn [orb].
    + apply andb_prop in Eo as [Ec%Z.leb_le Ew%Z.ltb_lt].
      assert (cl_Expected c' = cl_cap c /\ cl_cap c' = cl_cap c /\ cl_active c' = false /\ cell_ok c') as (-> & -> & -> & Hc') by (by repeat split).
      assert (b = budget - cl_cap c) as Eb by done. split; [by f_equal|]. split; [by constructor|]. cbn [length]. repeat split; lia.
    + assert (0 <= cl_cap c -> want <= cl_cap c) as Hle by (apply andb_false_iff in Eo as [?%Z.leb_gt|?%Z.ltb_ge]; lia).
      unfold c', b in *. rewrite Ea. split; [by f_equal|]. split; [constructor; [split; [done|by rewrite Ea]|done]|].
      split; [lia|]. split; [lia|]. split; [cbn; lia|].
      destruct froze; [split; [cbn; lia|lia]|]. destruct Hfr as (-> & Hd & Hcs & Hsum). split; [done|].
      split; [constructor; [|done]; split; [exact Hw|]; split; [exact Hle|]; intros Hs; change (cl_Saturated c = true) in Hs; congruence|]. split; [cbn [fmap list_fmap]; f_equal; exact Hcs|].
      rewrite Hsum, He. change (want + (expected_of cs + sum_Z share) = 0 + expected_of cs + (want + sum_Z share)). lia.
  - specialize (IH budget share Hok Hlen Hnn). destruct (freeze budget cs share) as [[cs' b'] froze]. destruct IH as (Hcap & Hok' & Hbook & Hbud & Hact & Hfr).
    rewrite !expected_cons, !fmap_cons, active_cells_cons, Ea. split; [by f_equal|]. split; [constructor; [split; [done|by rewrite Ea]|done]|].
    split; [lia|]. split; [lia|]. split; [lia|]. destruct froze; [lia|]. destruct Hfr as (-> & Hd & Hcs & Hsum).
    split; [done|]. split; [constructor; [|done]|split; [by f_equal|lia]].
    destruct Hc as (Hc0 & Hc1 & Hc2). unfold cell_done. rewrite Hc1. repeat split; lia.
Qed.

Lemma frozen_done cells : Forall cell_ok cells -> active_cells cells = [] -> Forall cell_done cells /\ Forall (fun c => cl_Saturated c = true) cells.
Proof.
  induction 1 as [|c cs [_ Hc] Hcs IH]; [done|]. rewrite active_cells_cons. destruct (cl_active c); [done|]. intros [Hd Hs]%IH.
  destruct Hc as (Hc0 & Hc1 & Hc2). split; constructor; try done. unfold cell_done. rewrite Hc1. repeat split; lia.
Qed.

(** The loop ends within one round per domain, and places everything the caps allow. *)
Lemma waterfill_ok fuel : forall budget cells, 0 < budget <= 2 ^ 31 -> Z.of_nat (length cells) <= 2 ^ 16 -> Forall cell_ok cells ->
  (active_count cells < fuel)%nat ->
  let '(cells', u) := waterfill fuel budget cells in
  cl_cap <$> cells' = cl_cap <$> cells /\ Forall cell_done cells' /\ 0 <= u /\
  expected_of cells' + u = expected_of cells + budget /\ (u = 0 \/ Forall (fun c => cl_Saturated c = true) cells').
Proof.
  induction fuel as [|fuel IH]; intros budget cells Hb Hl Hok Hf; [lia|]. cbn [waterfill].
  destruct (active_cells cells) as [|a act] eqn:Ea.
  { destruct (frozen_done cells Hok Ea) as [Hd Hs]. repeat split; try done; [lia|by right]. }
  assert (length (active_cells cells) <= length cells)%nat as Hal by apply List.filter_length_le.
  assert (length (cl_weight <$> a :: act) = active_count cells) as Hwl by (by rewrite length_fmap; unfold active_count; rewrite Ea).
  destruct (hamilton_sum budget (cl_weight <$> a :: act)) as (Hsl & Hs0 & Hss).
  - lia.
  - apply Forall_fmap. rewrite <- Ea. apply list.Forall_forall. intros c Hc%list_elem_of_In%List.filter_In%proj1%list_elem_of_In. cbn.
    eapply list.Forall_forall in Hok; [|done]. apply Hok.
  - rewrite Hwl. unfold active_count. rewrite Ea. cbn. lia.
  - rewrite Hwl. unfold active_count. lia.
  - set (share := hamilton budget (cl_weight <$> a :: act)) in *. clearbody share. rewrite Hwl in Hsl.
    pose proof (freeze_ok cells budget share Hok Hsl Hs0) as Hfz. destruct (freeze budget cells share) as [[cells' b'] froze].
    destruct Hfz as (Hcap & Hok' & Hbook & Hbud & Hact & Hfr). destruct froze.
    + specialize (IH b' cells' ltac:(lia)). apply (f_equal length) in Hcap as Hlc. rewrite !length_fmap in Hlc. specialize (IH ltac:(lia) Hok' ltac:(lia)).
      destruct (waterfill fuel b' cells') as [cells'' u]. destruct IH as (H1 & H2 & H3 & H4 & H5). rewrite H1. repeat split; [done..|lia|done].
    + destruct Hfr as (-> & Hd & Hcs & Hsum). repeat split; [done..|lia|by left].
Qed.

(** What the domains have room for: no limit when one of them has no cap. *)
Definition placeable (n : Z) (caps : list Z) : Z :=
  if existsb (fun c => c <? 0) caps then n else Z.min n (sum_Z caps).

Lemma done_sum cells : Forall cell_done cells -> Forall (fun c => 0 <= cl_cap c) cells -> expected_of cells <= sum_Z (cl_cap <$> cells).
Proof.
  induction 1 as [|c cs (_ & Hc & _) _ IH]; [done|]. intros [H0 Hcs]%Forall_cons_1. rewrite expected_cons, fmap_cons, sum_Z_cons. specialize (IH Hcs). specialize (Hc H0). lia.
Qed.

Lemma saturated_sum cells : Forall cell_done cells -> Forall (fun c => cl_Saturated c = true) cells ->
  expected_of cells = sum_Z (cl_cap <$> cells) /\ Forall (fun c => 0 <= cl_cap c) cells.
Proof.
  induction 1 as [|c cs (_ & _ & Hc) _ IH]; [done|]. intros [H0 Hcs]%Forall_cons_1. destruct (Hc H0) as [Hc0 Hc1]. destruct (IH Hcs) as [E F].
  rewrite expected_cons, fmap_cons, sum_Z_cons. split; [lia|by constructor].
Qed.

Lemma placed_is_placeable n cells u : Forall cell_done cells -> 0 <= u -> expected_of cells + u = n ->
  u = 0 \/ Forall (fun c => cl_Saturated c = true) cells -> expected_of cells = placeable n (cl_cap <$> cells).
Proof.
  intros Hd Hu Hn [->|Hs]; unfold placeable.
  - destruct (existsb _ _) eqn:Ex; [lia|]. rewrite Z.min_l; [lia|]. rewrite <- Hn, Z.add_0_r. apply done_sum; [done|].
    apply list.Forall_forall. intros c Hc. destruct (Z.le_gt_cases 0 (cl_cap c)) as [|Hlt]; [done|exfalso].
    apply not_true_iff_false in Ex. apply Ex, existsb_exists. exists (cl_cap c). split; [|by apply Z.ltb_lt].
    by apply list_elem_of_In, list_elem_of_fmap_2.
  - destruct (saturated_sum cells Hd Hs) as [E F]. destruct (existsb _ _) eqn:Ex; [exfalso|lia].
    apply existsb_exists in Ex as (c & Hc & Hlt%Z.ltb_lt). apply list_elem_of_In, list_elem_of_fmap in Hc as (c' & -> & Hc').
    eapply list.Forall_forall in F; [|exact Hc']. cbn in F. lia.
Qed.

End waterfilling.

(** C21: apportioning is exact although the shares are computed in float64. Up to [2 ^ 31] objects
    over up to [2 ^ 16] domains, each weight unusable (NaN, infinite, negative: it counts as
    zero), zero, or a number of ordinary size: every domain expects between none and its cap;
    a domain marked saturated is at its cap; the expectations sum to [Placed]; [Placed] is
    what the caps have room for, all of it when some domain has no cap; and what is not
    placed is reported as unplaceable. The water-filling ends within a round per domain. *)
Theorem apportionment_is_exact `{FloatToInt} n weights caps :
  n <= 2 ^ 31 -> Z.of_nat (length weights) <= 2 ^ 16 -> Forall (fun w => sane (sanitise w)) weights ->
  let ap := Apportion n weights caps in
  let limits := imap (fun i _ => cap_at caps i) weights in
  length (ap_Expected ap) = length weights /\
  (forall i e, ap_Expected ap !! i = Some e -> 0 <= e /\ (0 <= cap_at caps i -> e <= cap_at caps i)) /\
  (forall i, ap_Saturated ap !! i = Some true -> 0 <= cap_at caps i /\ ap_Expected ap !! i = Some (cap_at caps i)) /\
  sum_Z (ap_Expected ap) = ap_Placed ap /\
  ap_Placed ap + ap_Unplaceable ap = Z.max 0 n /\
  ap_Placed ap = placeable (Z.max 0 n) limits.
Proof.
  intros Hn Hl Hs. cbn zeta. unfold Apportion. destruct ((length weights =? 0)%nat || (n <=? 0)) eqn:E0.
  { cbn [ap_Expected ap_Placed ap_Unplaceable ap_Saturated]. rewrite length_replicate. split; [done|].
    assert (sum_Z (replicate (length weights) 0) = 0) as Ez by (clear; unfold sum_Z; induction (length weights); cbn [replicate foldr]; [done|lia]).
    split; [intros i e [-> _]%lookup_replicate; lia|]. split; [by intros i [? _]%lookup_replicate|]. split; [done|]. split; [destruct (Z.ltb_spec 0 n); lia|].
    unfold placeable. apply orb_prop in E0 as [E0%Nat.eqb_eq|E0%Z.leb_le]; [apply nil_length_inv in E0 as ->; cbn; lia|].
    rewrite Z.max_l by done. destruct (existsb _ _) eqn:Ex; [done|]. rewrite Z.min_l; [done|]. apply sum_Z_nonneg, list.Forall_forall.
    intros c Hc. destruct (Z.le_gt_cases 0 c) as [|Hlt]; [done|exfalso]. apply not_true_iff_false in Ex. apply Ex, existsb_exists. exists c.
    split; [by apply list_elem_of_In|by apply Z.ltb_lt]. }
  apply orb_false_iff in E0 as [Hm%Nat.eqb_neq Hn0%Z.leb_gt]. set (cells := imap _ (sanitiseWeights weights)).
  assert (length cells = length weights) as Hcl by (unfold cells, sanitiseWeights; by rewrite length_imap, length_fmap).
  assert (cl_cap <$> cells = imap (fun i _ => cap_at caps i) weights) as Hcaps.
  { unfold cells, sanitiseWeights. rewrite fmap_imap, imap_fmap. done. }
  assert (forall c, c ∈ cells -> cell_ok c /\ cl_Expected c = 0) as Hc.
  { intros c [i Hi]%list_elem_of_lookup. unfold cells in Hi. rewrite list_lookup_imap in Hi. unfold sanitiseWeights in Hi. rewrite list_lookup_fmap in Hi.
    destruct (weights !! i) as [w|] eqn:Ew; [|done]. injection Hi as <-. split; [|done]. split; [|done]. eapply Forall_lookup_1 in Hs; [|exact Ew]. done. }
  assert (expected_of cells = 0) as He0.
  { unfold expected_of, sum_Z. clearbody cells. clear -Hc. induction cells as [|c cs IH]; [done|]. cbn [fmap list_fmap foldr].
    rewrite (proj2 (Hc c (list_elem_of_here _ _))), IH; [done|]. intros c' Hc'. apply Hc. by right. }
  pose proof (waterfill_ok (S (length weights)) n cells) as W. destruct (waterfill _ n cells) as [cells' u].
  destruct W as (Hcap & Hd & Hu & Hbook & Hor); [lia|lia|apply list.Forall_forall; intros; by apply Hc| |].
  { apply Nat.lt_succ_r. rewrite <- Hcl. apply List.filter_length_le. }
  assert (length cells' = length weights) as Hcl' by (apply (f_equal length) in Hcap; rewrite !length_fmap in Hcap; lia).
  cbn [ap_Expected ap_Placed ap_Unplaceable ap_Saturated]. change (sum_Z (cl_Expected <$> cells')) with (expected_of cells').
  assert (forall i c, cells' !! i = Some c -> cl_cap c = cap_at caps i) as Hci.
  { intros i c Hi. assert ((cl_cap <$> cells') !! i = Some (cl_cap c)) as E by (by rewrite list_lookup_fmap, Hi).
    rewrite Hcap, Hcaps, list_lookup_imap in E. destruct (weights !! i); [|done]. by injection E as <-. }
  split; [by rewrite length_fmap|]. split.
  { intros i e (c & -> & Hi)%list_lookup_fmap_Some. rewrite <- (Hci i c Hi). eapply Forall_lookup_1 in Hd; [|exact Hi]. by destruct Hd as (? & ? & _). }
  split.
  { intros i (c & Hsat & Hi)%list_lookup_fmap_Some. rewrite <- (Hci i c Hi), list_lookup_fmap, Hi. cbn. eapply Forall_lookup_1 in Hd; [|exact Hi].
    destruct Hd as (_ & _ & Hd). destruct (Hd (eq_sym Hsat)) as [H1 H2]. by rewrite H2. }
  split; [done|]. split; [lia|]. rewrite Z.max_r, <- Hcaps, <- Hcap by lia. apply placed_is_placeable with u; [done..|lia|done].
Qed.

(** ** Equal weights *)

Lemma SFcompare_opp x y : SFcompare y x = CompOpp <$> SFcompare x y.
Proof.
  destruct x as [sx|sx| |sx mx ex], y as [sy|sy| |sy my ey]; cbn [SFcompare fmap option_fmap option_map]; try done; try (by destruct sx); try (by destruct sy);
    try (by destruct sx, sy). f_equal. change (Z.compare ey ex) with (ey ?= ex). change (Z.compare ex ey) with (ex ?= ey). rewrite (Z.compare_antisym ex ey).
  change (Pos.compare_cont Eq my mx) with (my ?= mx)%positive. change (Pos.compare_cont Eq mx my) with (mx ?= my)%positive. rewrite (Pos.compare_antisym mx my).
  destruct sx, sy, (ex ?= ey), (mx ?= my)%positive; done.
Qed.

#[global] Instance frac_le_total : Total frac_le.
Proof.
  intros [i x] [j y]. unfold frac_le, frac_less, f64_eqb, f64_lt, SFeqb, SFltb. cbn [fst snd]. rewrite (SFcompare_opp x y).
  destruct (SFcompare x y) as [[]|]; cbn; try (by left); try (by right).
  destruct (Nat.ltb_spec j i); [right; apply Nat.ltb_ge; lia|left; apply Nat.ltb_ge; lia].
Qed.

Lemma SFcompare_refl x : x <> S754_nan -> SFcompare x x = Some Eq.
Proof.
  destruct x as [[]|[]| |[] m e]; try done; intros _; cbn [SFcompare]; change (Z.compare e e) with (e ?= e); rewrite Z.compare_refl;
    change (Pos.compare_cont Eq m m) with (m ?= m)%positive; by rewrite Pos.compare_refl.
Qed.

Lemma seq_sorted m : forall a, Sorted Nat.le (seq a m).
Proof. induction m as [|m IH]; intros a; cbn; constructor; [done|]. destruct m; cbn; constructor. lia. Qed.

(** Equal remainders keep the order of the domains. *)
Lemma equal_rems_order m x : x <> S754_nan -> fst <$> merge_sort frac_le (imap (fun i q => (i, q)) (replicate m x)) = seq 0 m.
Proof.
  intros Hx. set (rems := imap _ _). assert (fst <$> rems = seq 0 m) as Hr.
  { unfold rems. apply list_eq. intros i. rewrite list_lookup_fmap, list_lookup_imap. destruct (decide (i < m)%nat).
    - rewrite lookup_replicate_2, lookup_seq_lt by done. done.
    - rewrite (lookup_ge_None_2 (replicate m x)), lookup_seq_ge by (rewrite ?length_replicate; lia). done. }
  assert (Forall (fun f => f.2 = x) (merge_sort frac_le rems)) as Hall.
  { apply list.Forall_forall. intros f Hf. rewrite merge_sort_Permutation in Hf. apply list_elem_of_lookup in Hf as [i Hi].
    unfold rems in Hi. rewrite list_lookup_imap in Hi. destruct (replicate m x !! i) as [q|] eqn:E; [|done]. apply lookup_replicate in E as [-> _]. by injection Hi as <-. }
  apply (Sorted_unique Nat.le).
  - pose proof (Sorted_merge_sort frac_le rems) as Hs.
    induction Hs as [|f l Hs IH Hd]; [constructor|]. apply Forall_cons_1 in Hall as [Ef Hall]. cbn [fmap list_fmap]. constructor; [by apply IH|].
    destruct Hd as [|g l Hfg]; [constructor|]. cbn [fmap list_fmap]. constructor. apply Forall_cons_1 in Hall as [Eg _].
    unfold frac_le, frac_less, f64_eqb, SFeqb in Hfg. rewrite Ef, Eg, SFcompare_refl in Hfg by done. cbn in Hfg. by apply Nat.ltb_ge.
  - apply seq_sorted.
  - rewrite <- Hr. by rewrite merge_sort_Permutation.
Qed.

Lemma f64_one_is : f64_is f64_one 1.
Proof. exact (f64_of_Z_exact 1 ltac:(lia)). Qed.

Lemma wide_int z : 0 < z < 2 ^ 60 -> wide (inject_Z z).
Proof.
  intros Hz. split.
  - apply (Qle_trans _ (inject_Z 1)); [by vm_compute|]. apply inject_le. lia.
  - apply (Qle_trans _ (inject_Z (2 ^ 60))); [|by vm_compute]. apply inject_le. lia.
Qed.

Lemma f64_sum_ones m : (0 < m)%nat -> Z.of_nat m <= 2 ^ 16 -> f64_is (f64_sum (replicate m f64_one)) (inject_Z (Z.of_nat m)).
Proof.
  intros H0 Hm. destruct m as [|m]; [lia|]. clear H0. induction m as [|m IH]; [exact f64_one_is|].
  rewrite replicate_S_end. unfold f64_sum. rewrite fold_left_app. cbn [fold_left].
  assert (inject_Z (Z.of_nat (S m)) + 1 == inject_Z (Z.of_nat (S (S m))))%Q as E by (rewrite (Nat2Z.inj_succ (S m)); unfold Z.succ; by rewrite inject_Z_plus).
  destruct (f64_add_near _ _ _ _ (IH ltac:(lia)) f64_one_is) as (v & Hv & _ & Hx); [rewrite E; apply wide_int; lia|].
  eapply f64_is_ext; [|exact Hv]. rewrite (Hx (Z.of_nat (S (S m)))); [exact E|lia|exact E].
Qed.

Section equal.
Context `{FloatToInt}.

(** Under equal weights every integer part is the exact integer quotient. *)
Lemma equal_floor n m x : 0 < n <= 2 ^ 31 -> 0 < m <= 2 ^ 16 -> f64_is x (inject_Z m) ->
  int64_of (f64_floor (quotient n x f64_one)) = n / m /\ f64_sub (quotient n x f64_one) (f64_floor (quotient n x f64_one)) <> S754_nan.
Proof.
  intros Hn Hm Hx. unfold quotient. pose proof (f64_of_Z_exact n ltac:(lia)) as HN.
  destruct (f64_mul_near _ _ _ _ HN f64_one_is) as (p & Hp & _ & Ep); [unfold wide; rewrite Qmult_1_r; apply wide_int; lia|].
  apply (f64_is_ext _ _ _ (Qeq_trans _ _ _ (Ep n ltac:(lia) (Qmult_1_r _)) (Qmult_1_r _))) in Hp. clear Ep.
  assert (0 < inject_Z m)%Q as Hm0 by (apply (inject_lt 0); lia). set (M := inject_Z m) in *. set (N := inject_Z n) in *.
  assert (1 <= N <= 2147483648)%Q as [HN1 HN2] by (split; [apply (inject_le 1)|apply (inject_le _ 2147483648)]; lia).
  assert (1 <= M <= 65536)%Q as [HM1 HM2] by (split; [apply (inject_le 1)|apply (inject_le _ 65536)]; lia).
  destruct (f64_div_near _ _ _ _ Hp Hx) as (q & Hq & [Hql Hqr] & Eq).
  { split; [apply Qle_shift_div_l; [done|]|apply Qle_shift_div_r; [done|]].
    - apply (Qle_trans _ (2 ^ (-950) * 65536)); [rewrite !(Qmult_comm (2 ^ _)); apply Qmult_le_compat_r; [lra|by vm_compute]|]. apply (Qle_trans _ 1); [by vm_compute|lra].
    - apply (Qle_trans _ (2147483648 * 1)); [lra|]. apply (Qle_trans _ (2 ^ 950 * 1)); [by vm_compute|]. rewrite !(Qmult_comm (2 ^ _)). apply Qmult_le_compat_r; [lra|by vm_compute]. }
  assert (Qfloor q = n / m) as Ef.
  { pose proof (Z_div_mod_eq_full n m) as Hdm. pose proof (Z.mod_pos_bound n m ltac:(lia)) as Hr. set (k := n / m) in *. set (r := n mod m) in *.
    assert (N == M * inject_Z k + inject_Z r)%Q as EN by (unfold N, M; rewrite <- inject_Z_mult, <- inject_Z_plus, <- Hdm; done).
    assert (N / M * M == N)%Q as Ed by (field; by apply pos_nz). set (D := (N / M)%Q) in *.
    destruct (decide (r = 0)) as [E0|E0].
    - rewrite E0 in EN. change (inject_Z 0) with 0%Q in EN. assert (D == inject_Z k)%Q as ED by (apply (Qmult_inj_r _ _ M); [by apply pos_nz|lra]).
      rewrite (Eq k), ED; [by apply Qfloor_Z| |done]. assert (k <= n) by (unfold k; apply Z.div_le_upper_bound; nia). lia.
    - apply Qfloor_unique. assert (1 <= inject_Z r)%Q as Hr1 by (apply (inject_le 1); lia). assert (inject_Z r + 1 <= M)%Q as Hr2.
      { change 1%Q with (inject_Z 1). rewrite <- inject_Z_plus. apply inject_le. lia. }
      rewrite inject_Z_plus. change (inject_Z 1) with 1%Q. assert (N * ulp <= 1 # 1024)%Q as HNu.
      { apply (Qle_trans _ (2147483648 * ulp)); [apply Qmult_le_compat_r; [lra|by vm_compute]|by vm_compute]. }
      split.
      + eapply Qle_trans; [|exact Hql]. apply (Qmult_le_r _ _ M); [done|]. assert (D * (1 - ulp) * M == N * (1 - ulp))%Q as -> by (rewrite <- Ed; ring). lra.
      + eapply Qle_lt_trans; [exact Hqr|]. apply (Qmult_lt_r _ _ M); [done|]. assert (D * (1 + ulp) * M == N * (1 + ulp))%Q as -> by (rewrite <- Ed; ring). lra. }
  rewrite (f64_floor_int _ _ Hq), Ef. split.
  - apply int64_of_Z. pose proof (Z.div_pos n m). assert (n / m <= n) by (apply Z.div_le_upper_bound; nia). lia.
  - destruct Hq as (mq & eq & -> & _). unfold f64_sub, f64_of_Z. destruct (binary_normalize 53 1024 (n / m) 0 false) eqn:Er; [done..| |].
    + by apply normalize_not_nan in Er.
    + apply normalize_not_nan.
Qed.

Lemma hand_out_first (order : list (nat * float64)) (m r : nat) q : fst <$> order = seq 0 m -> (r <= m)%nat ->
  hand_out order (Z.of_nat r) (replicate m q) = replicate r (q + 1) ++ replicate (m - r) q.
Proof.
  intros Ho Hr. assert (length order = m) as Hl by (rewrite <- (length_fmap fst), Ho; apply length_seq). unfold hand_out. rewrite Nat2Z.id.
  induction r as [|r IH]; [cbn; by rewrite Nat.sub_0_r|]. rewrite seq_S, fold_left_app, IH by lia. cbn [fold_left plus].
  rewrite <- list_lookup_fmap, Ho, Hl, Nat.mod_small, lookup_seq_lt by lia. change (default O (Some (0 + r)%nat)) with r.
  rewrite alter_app_r_alt by (rewrite length_replicate; lia). rewrite length_replicate, Nat.sub_diag.
  replace (m - r)%nat with (S (m - S r)) by lia. rewrite replicate_S. cbn [alter list_alter]. rewrite replicate_S_end, <- app_assoc. done.
Qed.

(** Equal weights: every domain gets the quotient, and the first ones the remainder. *)
Lemma hamilton_equal n m : 0 < n <= 2 ^ 31 -> (0 < m)%nat -> Z.of_nat m <= 2 ^ 16 ->
  let q := n / Z.of_nat m in let r := Z.to_nat (n mod Z.of_nat m) in
  hamilton n (EqualWeights m) = replicate r (q + 1) ++ replicate (m - r) q.
Proof.
  intros Hn H0 Hm. cbn zeta. unfold hamilton, EqualWeights. rewrite length_replicate. rewrite (proj2 (Z.leb_gt _ _)) by lia.
  pose proof (f64_sum_ones m H0 Hm) as Hsum. rewrite (f64_is_not_le_zero _ _ Hsum). set (x := f64_sum _) in *. clearbody x. rewrite !fmap_replicate.
  destruct (equal_floor n (Z.of_nat m) x Hn ltac:(lia) Hsum) as [Ef Hnan]. rewrite Ef. set (q := n / Z.of_nat m) in *.
  assert (forall k z, sum_Z (replicate k z) = Z.of_nat k * z) as Hrep by (clear; intros k z; unfold sum_Z; induction k; cbn [replicate foldr]; lia).
  pose proof (Z_div_mod_eq_full n (Z.of_nat m)) as Hdm. fold q in Hdm. pose proof (Z.mod_pos_bound n (Z.of_nat m) ltac:(lia)) as Hr.
  pose proof (Z.div_pos n (Z.of_nat m) ltac:(lia) ltac:(lia)) as Hq. fold q in Hq. set (r := n mod Z.of_nat m) in *.
  rewrite wrapped_sum; [|by apply Forall_replicate|rewrite Hrep; unfold int64_max; lia]. rewrite Hrep.
  rewrite wrap64_id by (unfold in_int64, int64_min, int64_max; lia). replace (n - Z.of_nat m * q) with r by lia.
  destruct (Z.leb_spec r 0) as [Hr0|Hr0]; [replace r with 0 by lia; cbn; by rewrite Nat.sub_0_r|].
  rewrite <- (Z2Nat.id r) at 1 by lia. apply hand_out_first; [|lia].
  rewrite <- (equal_rems_order m _ Hnan). do 2 f_equal. rewrite <- (fmap_replicate (fun q => f64_sub q (f64_floor q))), imap_fmap. done.
Qed.

Lemma freeze_uncapped cells : forall budget share, Forall (fun c => cl_active c = true /\ cl_cap c < 0) cells -> length share = length cells ->
  freeze budget cells share = (cells, budget, false) /\ cl_Expected <$> take_shares cells share = share /\ active_cells cells = cells.
Proof.
  induction cells as [|c cs IH]; intros budget share Hc Hl; destruct share as [|want share]; try done. apply Forall_cons_1 in Hc as [[Ha Hneg] Hc].
  cbn [freeze take_shares active_cells List.filter]. rewrite Ha, (proj2 (Z.leb_gt _ _)) by done. cbn [andb].
  destruct (IH budget share Hc ltac:(cbn in Hl; lia)) as (-> & Hs & Hact). split; [done|]. split; [cbn [fmap list_fmap]; by f_equal|]. f_equal. exact Hact.
Qed.

Lemma apportion_equal n m : 0 < n <= 2 ^ 31 -> (0 < m)%nat -> Z.of_nat m <= 2 ^ 16 ->
  let q := n / Z.of_nat m in let r := Z.to_nat (n mod Z.of_nat m) in
  ap_Expected (Apportion n (EqualWeights m) None) = replicate r (q + 1) ++ replicate (m - r) q.
Proof.
  intros Hn H0 Hm. cbn zeta. unfold Apportion. assert (length (EqualWeights m) = m) as -> by apply length_replicate.
  rewrite (proj2 (Nat.eqb_neq _ _)), (proj2 (Z.leb_gt _ _)) by lia. cbn [orb].
  assert (sanitiseWeights (EqualWeights m) = EqualWeights m) as -> by (unfold sanitiseWeights, EqualWeights; by rewrite fmap_replicate).
  set (cells := imap _ _). assert (cl_weight <$> cells = EqualWeights m) as Hw.
  { unfold cells. rewrite fmap_imap. apply list_eq. intros i. rewrite list_lookup_imap. by destruct (EqualWeights m !! i). }
  assert (length cells = m) as Hl by (unfold cells; rewrite length_imap; apply length_replicate).
  pose proof (hamilton_equal n m Hn H0 Hm) as He. cbn zeta in He. pose proof (Z.mod_pos_bound n (Z.of_nat m) ltac:(lia)).
  destruct (freeze_uncapped cells n (hamilton n (EqualWeights m))) as (Hf & Hs & Ha).
  - apply list.Forall_forall. intros c [i Hi]%list_elem_of_lookup. unfold cells in Hi. rewrite list_lookup_imap in Hi. destruct (EqualWeights m !! i); [|done].
    by injection Hi as <-.
  - rewrite Hl, He, length_app, !length_replicate. lia.
  - cbn [waterfill]. rewrite Ha. destruct cells as [|c cs] eqn:Ec; [cbn in Hl; lia|]. rewrite <- Ec in *. rewrite Hw, Hf. cbn [ap_Expected]. by rewrite Hs.
Qed.

End equal.

(** A node count, or a capacity in whole units, is a sane weight. *)
Lemma sane_of_Z n : 0 <= n < 2 ^ 53 -> sane (f64_of_Z n).
Proof.
  intros Hn. destruct (decide (n = 0)) as [->|]; [left; by exists false|]. right.
  pose proof (f64_of_Z_exact n ltac:(lia)) as (m & e & E & Hm & He & Hv). rewrite E. cbn [wval]. split; [by exists m, e|]. rewrite <- Hv. split.
  - apply (Qle_trans _ (inject_Z 1)); [by vm_compute|]. apply inject_le. lia.
  - apply (Qle_trans _ (inject_Z (2 ^ 53))); [apply inject_le; lia|by vm_compute].
Qed.

(** Ten objects over four zones: one may hold two, one only one, and one gave no capacity
    reading. *)
Module Zones.

Definition weights : list float64 := [f64_of_Z 4; f64_of_Z 2; S754_nan; f64_of_Z 1].
Definition caps : option (list Z) := Some [2; -1; 3; 1].

Lemma apportionment_is_exact_witness :
  let ap := Apportion 10 weights caps in
  ap = mkApportionment [2; 7; 0; 1] 10 0 [true; false; false; true] /\
  ap_Placed ap = placeable 10 [2; -1; 3; 1] /\ sum_Z (ap_Expected ap) = ap_Placed ap.
Proof.
  assert (Forall (fun w => sane (sanitise w)) weights) as Hs.
  { unfold weights. rewrite !list.Forall_cons. split; [apply (sane_of_Z 4); lia|]. split; [apply (sane_of_Z 2); lia|].
    split; [left; by exists false|]. split; [apply (sane_of_Z 1); lia|done]. }
  pose proof (apportionment_is_exact 10 weights caps ltac:(lia) ltac:(cbn; lia) Hs) as (_ & _ & _ & Hsum & _ & Hp).
  split; [vm_compute; done|]. split; [exact Hp|exact Hsum].
Defined.

End Zones.
