(* ===== verification/LeewayIntent.v ===== *)
(** What a subject wants on a topology key (src/pkg/leeway/intent.go): intents from every
    source in one shape, their precedence, and the bound Kubernetes enforces that precedence
    must not lose. *)
From S2P Require Import Prelude GoTime GoStrings LeewayTopology.
From stdpp Require Import sorting.
Open Scope Z_scope.
Open Scope lookout_scope.

Inductive IntentMode := ModeSpread | ModeColocate | ModeIgnore.

#[global] Instance IntentMode_eq_dec : EqDecision IntentMode.
Proof. solve_decision. Defined.

(** In precedence order, highest first. *)
Inductive IntentSource :=
  | SourcePolicyCRD | SourceWorkloadAnnotation | SourceTopologySpreadConstraint | SourcePodAntiAffinityRequired
  | SourcePodAffinityRequired | SourceClusterDefaultDeclared | SourcePodAntiAffinityPreferred | SourcePodAffinityPreferred
  | SourceLearnedBaseline | SourceClusterDefaultAssumed.

#[global] Instance IntentSource_eq_dec : EqDecision IntentSource.
Proof. solve_decision. Defined.

(** The value of the constant. *)
Definition source_value (s : IntentSource) : nat :=
  match s with
  | SourcePolicyCRD => 0 | SourceWorkloadAnnotation => 1 | SourceTopologySpreadConstraint => 2 | SourcePodAntiAffinityRequired => 3
  | SourcePodAffinityRequired => 4 | SourceClusterDefaultDeclared => 5 | SourcePodAntiAffinityPreferred => 6 | SourcePodAffinityPreferred => 7
  | SourceLearnedBaseline => 8 | SourceClusterDefaultAssumed => 9
  end%nat.

Definition IntentSource_String (s : IntentSource) : string :=
  match s with
  | SourcePolicyCRD => "policy-crd"
  | SourceWorkloadAnnotation => "workload-annotation"
  | SourceTopologySpreadConstraint => "topology-spread-constraint"
  | SourcePodAntiAffinityRequired => "pod-anti-affinity-required"
  | SourcePodAffinityRequired => "pod-affinity-required"
  | SourceClusterDefaultDeclared => "cluster-default-declared"
  | SourceClusterDefaultAssumed => "cluster-default-assumed"
  | SourcePodAntiAffinityPreferred => "pod-anti-affinity-preferred"
  | SourcePodAffinityPreferred => "pod-affinity-preferred"
  | SourceLearnedBaseline => "learned-baseline"
  end.

Definition Outranks (s other : IntentSource) : bool := (source_value s <? source_value other)%nat.

Inductive Confidence := ConfidenceDeclared | ConfidenceInferred | ConfidenceAssumed | ConfidenceLearned.

Inductive Weighting := WeightAuto | WeightEqual | WeightNodeCount | WeightAllocatableCPU | WeightAllocatableMemory.

#[global] Instance Weighting_eq_dec : EqDecision Weighting.
Proof. solve_decision. Defined.

Record EvidenceItem := mkEvidence { ei_Source : IntentSource; ei_Detail : string; ei_Ignored : bool }.

(** The constants of the API. *)
Definition DoNotSchedule : string := "DoNotSchedule".
Definition ScheduleAnyway : string := "ScheduleAnyway".
Definition NodeInclusionPolicyHonor : string := "Honor".
Definition NodeInclusionPolicyIgnore : string := "Ignore".

Record NodeInclusionPolicies := mkPolicies { np_NodeAffinityPolicy : string; np_NodeTaintsPolicy : string }.

Definition DefaultNodeInclusionPolicies : NodeInclusionPolicies := mkPolicies NodeInclusionPolicyHonor NodeInclusionPolicyIgnore.

Record Intent := mkIntent {
  in_TopologyKey : TopologyKey;
  in_Mode : IntentMode;
  in_Source : IntentSource;
  in_MaxSkew : option Z;
  in_MinDomains : option Z;
  in_WhenUnsatisfiable : string;
  in_MaxPerDomain : option Z;
  in_Weighting : Weighting;
  in_EligibleDomains : gset Domain;
  in_DomainCaps : gmap Domain Z;
  in_ExplicitShares : gmap Domain float64;
  in_Bands : gmap Domain float64;
  in_Policies : NodeInclusionPolicies;
  in_Severity : string;
  in_Confidence : Confidence;
  in_Evidence : list EvidenceItem
}.

(** The zero value. *)
Definition zero_intent : Intent :=
  mkIntent "" ModeSpread SourcePolicyCRD None None "" None WeightAuto ∅ ∅ ∅ ∅ (mkPolicies "" "") "" ConfidenceDeclared [].

Definition EligibilityPolicies (i : option Intent) : NodeInclusionPolicies :=
  let out := DefaultNodeInclusionPolicies in
  match i with
  | None => out
  | Some i =>
      let out := if np_NodeAffinityPolicy (in_Policies i) <>s "" then out <| np_NodeAffinityPolicy := np_NodeAffinityPolicy (in_Policies i) |> else out in
      if np_NodeTaintsPolicy (in_Policies i) <>s "" then out <| np_NodeTaintsPolicy := np_NodeTaintsPolicy (in_Policies i) |> else out
  end.

(** ** Contracts *)

Definition declaredContract (i : option Intent) : bool :=
  match i with None => false | Some i => bool_decide (in_Source i <> SourceClusterDefaultAssumed) end.

Definition HardPerDomainContract (i : option Intent) : bool :=
  declaredContract i && match i with Some i => bool_decide (in_MaxPerDomain i <> None) | None => false end.

Definition HardSkewContract (i : option Intent) : bool :=
  declaredContract i &&
  match i with Some i => bool_decide (in_MaxSkew i <> None) && (in_WhenUnsatisfiable i ==s DoNotSchedule) | None => false end.

Definition HardContract (i : option Intent) : bool := HardPerDomainContract i || HardSkewContract i.

(** ** Resolution *)

Definition carryContract (winner losing : Intent) : Intent :=
  if bool_decide (in_Mode winner = ModeIgnore) then winner
  else if bool_decide (in_MaxSkew winner <> None) || bool_decide (in_MaxSkew losing = None) then winner
  else if bool_decide (in_Source losing = SourceClusterDefaultAssumed) || (in_WhenUnsatisfiable losing <>s DoNotSchedule) then winner
  else winner <| in_MaxSkew := in_MaxSkew losing |> <| in_WhenUnsatisfiable := in_WhenUnsatisfiable losing |>.

Definition demote (losing : Intent) : list EvidenceItem :=
  mkEvidence (in_Source losing) "superseded by higher-precedence source" true ::
  ((fun e => e <| ei_Ignored := true |>) <$> in_Evidence losing).

(** One candidate against the incumbent of its key. *)
Definition contest (c cur : Intent) : Intent :=
  if Outranks (in_Source c) (in_Source cur)
  then carryContract (c <| in_Evidence ::= (fun l => l ++ demote cur) |>) cur
  else carryContract (cur <| in_Evidence ::= (fun l => l ++ demote c) |>) c.

Definition ResolveIntents (candidates : list Intent) : gmap TopologyKey Intent :=
  fold_left (fun winners c =>
    match winners !! in_TopologyKey c with
    | None => <[in_TopologyKey c := c]> winners
    | Some cur => <[in_TopologyKey c := contest c cur]> winners
    end) candidates ∅.

(** The keys of a map in lexicographic order. *)
Definition SortedKeys {V} (byKey : gmap TopologyKey V) : list TopologyKey := merge_sort string_le ((map_to_list byKey).*1).

(** ** Who wins a key *)

Definition resolve_key (cs : list Intent) : option Intent :=
  fold_left (fun cur c => Some match cur with None => c | Some w => contest c w end) cs None.

Definition on_key (k : TopologyKey) (candidates : list Intent) : list Intent :=
  List.filter (fun c => in_TopologyKey c ==s k) candidates.

(** The field that tells the winner from the candidate it is: the evidence it collected, and
    the bound it was given. *)
Definition described_by (w c : Intent) : Prop :=
  w <| in_Evidence := in_Evidence c |> <| in_MaxSkew := in_MaxSkew c |> <| in_WhenUnsatisfiable := in_WhenUnsatisfiable c |> = c.

Definition outranked_by (c c' : Intent) : Prop := (source_value (in_Source c) < source_value (in_Source c'))%nat.
Definition not_outranked (c c' : Intent) : Prop := (source_value (in_Source c) <= source_value (in_Source c'))%nat.

(** A bound the scheduler enforces, and a bound that is only a preference. *)
Definition hard (c : Intent) : Prop := HardSkewContract (Some c) = true.
Definition soft (c : Intent) : Prop := in_MaxSkew c <> None /\ ~ hard c.

(** Enforced bounds come before preferred ones, from sources at least as strong. *)
Definition hard_first (cs : list Intent) : Prop :=
  forall i j s h, cs !! i = Some s -> cs !! j = Some h -> soft s -> hard h -> (j < i)%nat /\ not_outranked h s.

(** Only a policy declares a key uninteresting. *)
Definition ignore_by_policy (cs : list Intent) : Prop :=
  forall c, c ∈ cs -> in_Mode c = ModeIgnore -> in_Source c = SourcePolicyCRD.

Lemma hard_iff c : hard c <-> in_Source c <> SourceClusterDefaultAssumed /\ in_MaxSkew c <> None /\ in_WhenUnsatisfiable c = DoNotSchedule.
Proof.
  unfold hard, HardSkewContract, declaredContract. rewrite !andb_true_iff, !bool_decide_eq_true. done.
Qed.

Lemma carry_described w l c : described_by w c -> described_by (carryContract w l) c.
Proof. unfold carryContract. intros E. repeat case_match; done. Qed.

(** What carrying does to the bound. *)
Lemma carry_bound w l : in_Source (carryContract w l) = in_Source w /\ in_Mode (carryContract w l) = in_Mode w /\
  in_Evidence (carryContract w l) = in_Evidence w /\
  (in_MaxSkew w <> None -> carryContract w l = w) /\
  (in_Mode w <> ModeIgnore -> in_Source w <> SourceClusterDefaultAssumed -> in_MaxSkew w = None -> hard l -> hard (carryContract w l)) /\
  (in_MaxSkew (carryContract w l) = in_MaxSkew w \/ hard l).
Proof.
  rewrite !hard_iff. unfold carryContract. repeat case_bool_decide; cbn [orb]; repeat split; try done; try tauto; intros; btrue.
  all: try (right; tauto).
Qed.

(** The winner [w] of the candidates [cs]: the first of the strongest, with the others as
    evidence, its own bound kept, and an enforced bound carried. *)
Record wins (cs : list Intent) (w : Intent) : Prop := {
  won : exists l c l', cs = l ++ c :: l' /\ described_by w c /\ Forall (outranked_by c) l /\ Forall (not_outranked c) l' /\
    (in_MaxSkew c <> None -> in_MaxSkew w = in_MaxSkew c /\ in_WhenUnsatisfiable w = in_WhenUnsatisfiable c) /\
    (in_MaxSkew w <> None -> in_MaxSkew c <> None \/ exists h, h ∈ cs /\ hard h) /\
    (exists ev, in_Evidence w = in_Evidence c ++ ev) /\
    (forall c', c' ∈ l ++ l' -> exists e, e ∈ in_Evidence w /\ ei_Source e = in_Source c' /\ ei_Ignored e = true);
  kept : hard_first cs -> ignore_by_policy cs -> in_Mode w <> ModeIgnore -> forall h, h ∈ cs -> hard h -> hard w
}.

Lemma demote_first c : exists e, e ∈ demote c /\ ei_Source e = in_Source c /\ ei_Ignored e = true.
Proof. eexists. split; [apply list_elem_of_here|done]. Qed.

Lemma demote_evidence c e : e ∈ in_Evidence c -> exists e', e' ∈ demote c /\ ei_Source e' = ei_Source e /\ ei_Ignored e' = true.
Proof. intros He. exists (e <| ei_Ignored := true |>). split; [|done]. apply list_elem_of_further. by apply list_elem_of_fmap_2. Qed.

Lemma described_source w c : described_by w c -> in_Source w = in_Source c /\ in_Mode w = in_Mode c.
Proof. unfold described_by. intros <-. done. Qed.

Lemma wins_one c : wins [c] c.
Proof.
  constructor.
  - exists [], c, []. split; [done|]. split; [by destruct c|]. split; [constructor|]. split; [constructor|]. split; [done|].
    split; [by left|]. split; [exists []; by rewrite app_nil_r|]. intros c' Hc. by apply elem_of_nil in Hc.
  - intros _ _ _ h ->%list_elem_of_singleton. done.
Qed.

(** An enforced bound on the winner is some candidate's. *)
Lemma wins_hard cs w : wins cs w -> hard w -> exists h, h ∈ cs /\ hard h.
Proof.
  intros [(l & c & l' & -> & Hd & _ & _ & Hown & Hbound & _) _] Hw. pose proof (proj1 (hard_iff w) Hw) as (Hs & Hm & Hu).
  destruct (Hbound Hm) as [Hc|]; [|done]. destruct (Hown Hc) as [Em Eu]. exists c. split; [apply elem_of_app; right; apply list_elem_of_here|].
  apply hard_iff. destruct (described_source _ _ Hd) as [<- _]. rewrite <- Eu. done.
Qed.

Lemma wins_strongest cs w x : wins cs w -> x ∈ cs -> not_outranked w x.
Proof.
  intros [(l & c & l' & -> & Hd & Hl & Hl' & _) _] Hx. unfold not_outranked. destruct (described_source _ _ Hd) as [-> _].
  apply elem_of_app in Hx as [Hx|[->|Hx]%elem_of_cons]; [| lia|].
  - eapply list.Forall_forall in Hl; [|exact Hx]. unfold outranked_by in Hl. lia.
  - eapply list.Forall_forall in Hl'; [|exact Hx]. exact Hl'.
Qed.

Lemma hard_first_app l l' : hard_first (l ++ l') -> hard_first l.
Proof. intros H i j s h Hi Hj. apply H; by apply lookup_app_l_Some. Qed.

Lemma ignore_by_policy_app l l' : ignore_by_policy (l ++ l') -> ignore_by_policy l.
Proof. intros H c Hc. apply H, elem_of_app. by left. Qed.

Lemma value_bound s : (source_value s <= 9)%nat.
Proof. destruct s; cbn; lia. Qed.

Lemma below_assumed s t : (source_value s < source_value t)%nat -> s <> SourceClusterDefaultAssumed.
Proof. intros Hlt ->. pose proof (value_bound t). cbn in Hlt. lia. Qed.

(** A stronger candidate takes the key over. *)
Lemma wins_stronger cs w c : wins cs w -> outranked_by c w -> wins (cs ++ [c]) (carryContract (c <| in_Evidence ::= (fun l => l ++ demote w) |>) w).
Proof.
  intros Hw Er. set (c' := c <| in_Evidence ::= _ |>). pose proof (carry_bound c' w) as (Bs & Bm & Be & Bown & Bhard & Bor).
  assert (Forall (outranked_by c) cs) as Hall.
  { apply list.Forall_forall. intros x Hx. pose proof (wins_strongest cs w x Hw Hx). unfold not_outranked, outranked_by in *. lia. }
  constructor.
  - exists cs, c, []. split; [done|]. split; [apply carry_described; by destruct c|]. split; [done|]. split; [constructor|].
    split; [intros Hm; by rewrite (Bown Hm)|]. split.
    { intros Hm. destruct Bor as [E|Hh]; [left; rewrite E in Hm; exact Hm|]. right. destruct (wins_hard cs w Hw Hh) as (h & Hin & Hhard). exists h.
      split; [apply elem_of_app; by left|done]. }
    split; [exists (demote w); by rewrite Be|]. intros x Hx. rewrite app_nil_r in Hx. rewrite Be.
    assert (exists e, e ∈ demote w /\ ei_Source e = in_Source x /\ ei_Ignored e = true) as (e & He & Hes).
    { destruct Hw as [(l & c0 & l' & -> & Hd & _ & _ & _ & _ & _ & Hlost) _]. destruct (described_source _ _ Hd) as [Es _].
      apply elem_of_app in Hx as [Hx|[->|Hx]%elem_of_cons]; [|rewrite <- Es; apply demote_first|].
      all: destruct (Hlost x) as (e & He & <- & _); [apply elem_of_app; tauto|by apply demote_evidence]. }
    exists e. split; [apply elem_of_app; by right|done].
  - intros Hf Hi Hm h Hh Hhard. rewrite Bm in Hm. destruct (decide (in_MaxSkew c = None)) as [En|En].
    + apply Bhard; [done|by eapply below_assumed|done|]. apply elem_of_app in Hh as [Hh| ->%list_elem_of_singleton].
      2: { apply hard_iff in Hhard as (_ & Hno & _). done. }
      apply (kept cs w Hw (hard_first_app _ _ Hf) (ignore_by_policy_app _ _ Hi)) with h; [|done..].
      intros Hig. destruct Hw as [(l & c0 & l' & -> & Hd & _) _]. destruct (described_source _ _ Hd) as [Es Em].
      unfold outranked_by in Er. rewrite Es, (Hi c0) in Er; [cbn in Er; lia| |by rewrite <- Em]. apply elem_of_app. left. apply elem_of_app. right. apply list_elem_of_here.
    + rewrite (Bown En). assert (hard c -> hard c') as Hcc by (by rewrite !hard_iff). apply Hcc. destruct (decide (HardSkewContract (Some c) = true)) as [|Hnh]; [done|exfalso].
      apply elem_of_app in Hh as [[j Hj]%list_elem_of_lookup| ->%list_elem_of_singleton]; [|done].
      destruct (Hf (length cs) j c h) as [_ Hle]; [by rewrite lookup_app_r, Nat.sub_diag by lia|by apply lookup_app_l_Some|done..|].
      eapply list_elem_of_lookup_2, (list.Forall_forall _ cs) in Hj; [|exact Hall]. unfold not_outranked, outranked_by in *. lia.
Qed.

(** A weaker one, or one as strong, is kept as evidence. *)
Lemma wins_weaker cs w c : wins cs w -> not_outranked w c -> wins (cs ++ [c]) (carryContract (w <| in_Evidence ::= (fun l => l ++ demote c) |>) c).
Proof.
  intros Hw Er. set (w' := w <| in_Evidence ::= _ |>). pose proof (carry_bound w' c) as (Bs & Bm & Be & Bown & Bhard & Bor).
  destruct Hw as [(l & c0 & l' & Ecs & Hd & Hl & Hl' & Hown & Hbound & (ev & Hev) & Hlost) Hkept] eqn:EHw; clear EHw.
  pose proof (described_source _ _ Hd) as [Es Em]. constructor.
  - exists l, c0, (l' ++ [c]). split; [by rewrite Ecs, <- app_assoc|]. split; [apply carry_described; exact Hd|]. split; [done|].
    split; [apply Forall_app; split; [done|]; constructor; [unfold not_outranked in *; by rewrite <- Es|constructor]|].
    split; [intros Hm; destruct (Hown Hm) as [E1 E2]; rewrite Bown; [by split|]; change (in_MaxSkew w <> None); by rewrite E1|]. split.
    { intros Hm. destruct Bor as [E|Hh]; [|right; exists c; split; [apply elem_of_app; right; apply list_elem_of_here|done]].
      rewrite E in Hm. destruct (Hbound Hm) as [|(h & Hin & Hh)]; [by left|]. right. exists h. split; [apply elem_of_app; by left|done]. }
    split; [exists (ev ++ demote c); rewrite Be; change (in_Evidence w ++ demote c = in_Evidence c0 ++ ev ++ demote c); by rewrite Hev, app_assoc|].
    intros x Hx. rewrite Be. rewrite app_assoc in Hx. apply elem_of_app in Hx as [Hx| ->%list_elem_of_singleton].
    + destruct (Hlost x Hx) as (e & He & Hes). exists e. split; [apply elem_of_app; by left|done].
    + destruct (demote_first c) as (e & He & Hes). exists e. split; [apply elem_of_app; by right|done].
  - intros Hf Hi Hm h Hh Hhard. rewrite Bm in Hm. pose proof (Hkept (hard_first_app _ _ Hf) (ignore_by_policy_app _ _ Hi) Hm) as Hk.
    assert (hard w -> hard w') as Hww by (by rewrite !hard_iff). destruct (decide (in_MaxSkew w = None)) as [En|En].
    + apply elem_of_app in Hh as [Hh| ->%list_elem_of_singleton]; [by apply Hk, hard_iff in Hhard as (_ & ? & _)|].
      apply Bhard; [done| |done|done]. apply hard_iff in Hhard as [Hs _]. intros E. change (in_Source w = SourceClusterDefaultAssumed) in E. unfold not_outranked in Er. rewrite E in Er.
      destruct (in_Source c); cbn in Er; try lia; done.
    + rewrite (Bown En). apply Hww. apply elem_of_app in Hh as [Hh| ->%list_elem_of_singleton]; [by apply (Hk h)|].
      destruct (Hbound En) as [Hc0|(h' & Hin & Hh')]; [|by apply (Hk h')].
      destruct (decide (HardSkewContract (Some c0) = true)) as [Hh0|Hnh]; [apply (Hk c0); [|done]; rewrite Ecs; apply elem_of_app; right; apply list_elem_of_here|exfalso].
      destruct (Hf (length l) (length cs) c0 c) as [Hlt _]; [by rewrite Ecs, <- app_assoc, lookup_app_r, Nat.sub_diag by lia|by rewrite lookup_app_r, Nat.sub_diag by lia|done..|].
      rewrite Ecs, length_app in Hlt. lia.
Qed.

Lemma resolve_key_wins cs : cs <> [] -> exists w, resolve_key cs = Some w /\ wins cs w.
Proof.
  induction cs as [|c cs IH] using rev_ind; [done|]. intros _. unfold resolve_key. rewrite fold_left_app. cbn [fold_left].
  destruct (decide (cs = [])) as [->|Hne]; [exists c; split; [done|apply wins_one]|]. destruct (IH Hne) as (w & E & Hw). unfold resolve_key in E. rewrite E.
  eexists. split; [done|]. unfold contest. destruct (Outranks _ _) eqn:Er.
  - apply wins_stronger; [done|]. by apply Nat.ltb_lt.
  - apply wins_weaker; [done|]. apply Nat.ltb_ge in Er. exact Er.
Qed.

Lemma ResolveIntents_at k candidates : ResolveIntents candidates !! k = resolve_key (on_key k candidates).
Proof.
  unfold ResolveIntents, resolve_key, on_key. induction candidates as [|c cs IH] using rev_ind; [done|].
  rewrite List.filter_app, !fold_left_app. cbn [fold_left List.filter]. rewrite <- IH. clear IH. set (winners := fold_left _ cs ∅). clearbody winners.
  case_bool_decide as E; cbn [fold_left].
  - rewrite E. destruct (winners !! k) eqn:Ew; by rewrite lookup_insert_eq.
  - destruct (winners !! in_TopologyKey c); by rewrite lookup_insert_ne.
Qed.

(** Resolution keeps §5.1's promises on every key. A key has an intent exactly when some
    candidate names it; the intent is the first of the candidates of the strongest source,
    in every field but the evidence and a bound it did not have; every other candidate is
    kept as ignored evidence; and a skew bound the scheduler enforces is never lost to
    precedence: as long as enforced constraints are listed before preferred ones and only a
    policy may ignore a key, a key with an enforced bound resolves to an intent with one,
    unless it resolves to Ignore. *)
Theorem resolution_keeps_contracts candidates k :
  let cs := on_key k candidates in
  match ResolveIntents candidates !! k with
  | None => cs = []
  | Some w =>
      (exists l c l', cs = l ++ c :: l' /\ described_by w c /\ Forall (outranked_by c) l /\ Forall (not_outranked c) l' /\
        (in_MaxSkew c <> None -> in_MaxSkew w = in_MaxSkew c /\ in_WhenUnsatisfiable w = in_WhenUnsatisfiable c) /\
        (exists ev, in_Evidence w = in_Evidence c ++ ev) /\
        (forall c', c' ∈ l ++ l' -> exists e, e ∈ in_Evidence w /\ ei_Source e = in_Source c' /\ ei_Ignored e = true)) /\
      (hard_first cs -> ignore_by_policy cs -> in_Mode w <> ModeIgnore ->
        (exists h, h ∈ cs /\ HardSkewContract (Some h) = true) -> HardSkewContract (Some w) = true)
  end.
Proof.
  cbn zeta. rewrite ResolveIntents_at. destruct (decide (on_key k candidates = [])) as [->|Hne]; [done|].
  destruct (resolve_key_wins _ Hne) as (w & -> & [(l & c & l' & E & Hd & Hl & Hl' & Hown & _ & Hev & Hlost) Hkept]). split.
  - exists l, c, l'. exact (conj E (conj Hd (conj Hl (conj Hl' (conj Hown (conj Hev Hlost)))))).
  - intros Hf Hi Hm (h & Hh & Hhard). exact (Hkept Hf Hi Hm h Hh Hhard).
Qed.

(** Two constraints and a policy on the zone key. *)
Module Declared.

Definition tsc (skew : Z) (action : string) : Intent :=
  zero_intent <| in_TopologyKey := "zone" |> <| in_Source := SourceTopologySpreadConstraint |> <| in_MaxSkew := Some skew |> <| in_WhenUnsatisfiable := action |>.
Definition policy : Intent := zero_intent <| in_TopologyKey := "zone" |> <| in_Severity := "warning" |>.
Definition candidates : list Intent := [tsc 1 DoNotSchedule; tsc 5 ScheduleAnyway; policy].

(** The policy wins the key and keeps the constraint's bound. *)
Example policy_keeps_bound :
  (fun w => (in_Source w, in_Severity w, in_MaxSkew w)) <$> ResolveIntents candidates !! ("zone" : string) = Some (SourcePolicyCRD, "warning", Some 1).
Proof. vm_compute. done. Qed.

End Declared.
