(* ===== verification/LeewayEligible.v ===== *)
(** Where a subject may go (src/pkg/leeway/eligible.go): the domains with a node it can be
    scheduled onto, in canonical order, the padding a minimum number of domains asks for,
    and the weights an intent gives them. *)
From S2P Require Import Prelude GoTime GoStrings GoFmt GoFloatMath LeewayTopology LeewayIntent LeewayApportion.
From stdpp Require Import sorting pretty.
From Stdlib Require Import SpecFloat.
Open Scope Z_scope.
Open Scope lookout_scope.

(** ** Canonical order *)

Definition is_unknown (d : Domain) : bool := d ==s DomainUnknown.

(** Lexicographic, the unlabelled bucket last. *)
Definition domain_le (a b : Domain) : Prop :=
  if negb (Bool.eqb (is_unknown a) (is_unknown b)) then is_unknown b = true else string_le a b.

#[global] Instance domain_le_dec : RelDecision domain_le.
Proof. intros a b. unfold domain_le. destruct (negb _); apply _. Defined.

#[global] Instance domain_le_trans : Transitive domain_le.
Proof.
  intros a b c. unfold domain_le. destruct (is_unknown a) eqn:Ea, (is_unknown b) eqn:Eb, (is_unknown c) eqn:Ec; cbn; try done; apply transitivity.
Qed.

#[global] Instance domain_le_total : Total domain_le.
Proof.
  intros a b. unfold domain_le. destruct (is_unknown a) eqn:Ea, (is_unknown b) eqn:Eb; cbn; try (by left); try (by right); apply total, _.
Qed.

#[global] Instance domain_le_antisymm : AntiSymm (=) domain_le.
Proof.
  intros a b. unfold domain_le. destruct (is_unknown a) eqn:Ea, (is_unknown b) eqn:Eb; cbn; try done; apply anti_symm, _.
Qed.

Definition SortDomains (domains : list Domain) : list Domain := merge_sort domain_le domains.

(** ** Nodes *)

Record NodeView := mkNodeView {
  nv_Name : string; nv_Domain : Domain; nv_Ready : bool; nv_Schedulable : bool;
  nv_MatchesSelector : bool; nv_Tolerated : bool; nv_AllocatableCPU : float64; nv_AllocatableMemory : float64
}.

Record EligibilityOptions := mkOptions {
  eo_Policies : NodeInclusionPolicies; eo_MinDomains : option Z; eo_RequireReady : bool; eo_RequireSchedulable : bool;
  eo_CapacityRatioTrigger : float64; eo_UndeclaredWeighting : Weighting
}.

Definition DefaultEligibilityOptions : EligibilityOptions :=
  mkOptions DefaultNodeInclusionPolicies None true true CapacityWeightingRatioTrigger WeightAuto.

Record Eligibility := mkEligibility {
  el_Domains : list Domain; el_CapacityCPU : list float64; el_CapacityMemory : list float64;
  el_CapacityRatioTrigger : float64; el_UndeclaredWeighting : Weighting; el_NodeCount : list Z;
  el_Excluded : gmap Domain string; el_Unready : list Domain; el_SyntheticDomains : nat
}.

(** Why a node is not usable; nothing when it is. *)
Definition nodeUsable (n : NodeView) (opts : EligibilityOptions) : option string :=
  if (np_NodeAffinityPolicy (eo_Policies opts) ==s NodeInclusionPolicyHonor) && negb (nv_MatchesSelector n)
  then Some "selector or required affinity does not match"
  else if (np_NodeTaintsPolicy (eo_Policies opts) ==s NodeInclusionPolicyHonor) && negb (nv_Tolerated n)
  then Some "tainted against this subject"
  else if eo_RequireReady opts && negb (nv_Ready n) then Some "NotReady"
  else if eo_RequireSchedulable opts && negb (nv_Schedulable n) then Some "cordoned"
  else None.

Definition nodeReachable (n : NodeView) (opts : EligibilityOptions) : bool :=
  if (np_NodeAffinityPolicy (eo_Policies opts) ==s NodeInclusionPolicyHonor) && negb (nv_MatchesSelector n) then false
  else (np_NodeTaintsPolicy (eo_Policies opts) <>s NodeInclusionPolicyHonor) || nv_Tolerated n.

Record domainAgg := mkAgg {
  da_seen : Z; da_eligible : Z; da_unready : Z; da_cpu : float64; da_memory : float64; da_reasons : list string
}.

Definition zero_agg : domainAgg := mkAgg 0 0 0 f64_zero f64_zero [].

Definition note (r : string) (a : domainAgg) : domainAgg :=
  if bool_decide (r ∈ da_reasons a) then a else a <| da_reasons ::= (fun l => l ++ [r]) |>.

Definition agg_reason (a : domainAgg) : string :=
  match da_reasons a with
  | [] => "no nodes in this domain"
  | rs => "no usable nodes: " +:+ String.concat ", " rs
  end.

(** One node counted into its domain. *)
Definition count_node (opts : EligibilityOptions) (n : NodeView) (a : domainAgg) : domainAgg :=
  let a := a <| da_seen ::= Z.succ |> in
  match nodeUsable n opts with
  | Some reason =>
      let a := note reason a in
      if eo_RequireReady opts && negb (nv_Ready n) && nodeReachable n opts then a <| da_unready ::= Z.succ |> else a
  | None =>
      a <| da_eligible ::= Z.succ |> <| da_cpu ::= (fun c => f64_add c (nv_AllocatableCPU n)) |>
        <| da_memory ::= (fun c => f64_add c (nv_AllocatableMemory n)) |>
  end.

Definition add_node (opts : EligibilityOptions) (agg : gmap Domain domainAgg) (n : NodeView) : gmap Domain domainAgg :=
  let d := NormaliseDomain (nv_Domain n) in
  <[d := count_node opts n (default zero_agg (agg !! d))]> agg.

Definition aggregate (nodes : list NodeView) (opts : EligibilityOptions) : gmap Domain domainAgg := fold_left (add_node opts) nodes ∅.

Definition syntheticPrefix : string := "__absent__/".
Definition syntheticDomain (i : nat) : Domain := syntheticPrefix +:+ itoa (Z.of_nat i).
Definition IsSynthetic (d : Domain) : bool := (String.length syntheticPrefix <? String.length d)%nat && HasPrefix d syntheticPrefix.

(** The domains of the aggregate that satisfy a condition. *)
Definition domains_where (f : domainAgg -> bool) (agg : gmap Domain domainAgg) : list Domain :=
  (List.filter (fun '(_, a) => f a) (map_to_list agg)).*1.

(** How many present-with-zero domains a minimum asks for. *)
Definition padding (opts : EligibilityOptions) (domains : nat) : nat :=
  match eo_MinDomains opts with Some want => (Z.to_nat want - domains)%nat | None => O end.

Definition EligibleDomains (nodes : list NodeView) (opts : EligibilityOptions) : Eligibility :=
  let agg := aggregate nodes opts in
  let agg_of d := default zero_agg (agg !! d) in
  let unusable a := da_eligible a =? 0 in
  let domains := SortDomains (domains_where (fun a => 0 <? da_eligible a) agg) in
  let pad := padding opts (length domains) in
  {| el_Domains := domains ++ (syntheticDomain <$> seq (length domains) pad);
     el_CapacityCPU := ((fun d => da_cpu (agg_of d)) <$> domains) ++ replicate pad f64_zero;
     el_CapacityMemory := ((fun d => da_memory (agg_of d)) <$> domains) ++ replicate pad f64_zero;
     el_CapacityRatioTrigger := eo_CapacityRatioTrigger opts;
     el_UndeclaredWeighting := eo_UndeclaredWeighting opts;
     el_NodeCount := ((fun d => da_eligible (agg_of d)) <$> domains) ++ replicate pad 0;
     el_Excluded := agg_reason <$> base.filter (fun p => da_eligible p.2 = 0) agg;
     el_Unready := SortDomains (domains_where (fun a => unusable a && (0 <? da_unready a)) agg);
     el_SyntheticDomains := pad |}.

(** ** The unlabelled bucket *)

(** [slices.Delete(s, i, i+1)], when [i] is an index of [s]. *)
Definition drop_at {A} (i : nat) (l : list A) : list A := base.delete i l.

Definition DropEmptyUnknown (e : Eligibility) (actual : list Z) : Eligibility * list Z :=
  match list_find (fun d => d = DomainUnknown) (el_Domains e) with
  | Some (i, _) =>
      if bool_decide (actual !! i = Some 0) then
        (e <| el_Domains ::= drop_at i |> <| el_CapacityCPU ::= drop_at i |> <| el_CapacityMemory ::= drop_at i |> <| el_NodeCount ::= drop_at i |>
           <| el_Excluded ::= insert DomainUnknown "nodes carry no value for the topology key and hold none of this subject's objects" |>,
         drop_at i actual)
      else (e, actual)
  | None => (e, actual)
  end.

(** ** Weights *)

Definition realCapacityCPU (e : Eligibility) : list float64 := take (length (el_CapacityCPU e) - el_SyntheticDomains e) (el_CapacityCPU e).

Definition EffectiveWeighting (e : Eligibility) (i : option Intent) : Weighting :=
  let undeclared :=
    if bool_decide (el_UndeclaredWeighting e <> WeightAuto) then el_UndeclaredWeighting e
    else if NeedsCapacityWeightingAt (realCapacityCPU e) (el_CapacityRatioTrigger e) then WeightAllocatableCPU
    else WeightEqual in
  match i with
  | None => undeclared
  | Some i =>
      if bool_decide (in_Weighting i <> WeightAuto) then in_Weighting i
      else if bool_decide (in_MaxSkew i <> None) || bool_decide (in_MaxPerDomain i <> None) then WeightEqual
      else undeclared
  end.

Definition Weights (e : Eligibility) (w : Weighting) : list float64 :=
  match w with
  | WeightNodeCount => f64_of_Z <$> el_NodeCount e
  | WeightAllocatableCPU => el_CapacityCPU e
  | WeightAllocatableMemory => el_CapacityMemory e
  | _ => EqualWeights (length (el_Domains e))
  end.

Definition WeightsFor (e : Eligibility) (i : option Intent) : list float64 :=
  match i with
  | Some i =>
      if bool_decide (in_ExplicitShares i <> ∅) then (fun d => default f64_zero (in_ExplicitShares i !! d)) <$> el_Domains e
      else Weights e (EffectiveWeighting e (Some i))
  | None => Weights e (EffectiveWeighting e None)
  end.

(** ** What is eligible *)

Definition of_domain (d : Domain) (n : NodeView) : Prop := NormaliseDomain (nv_Domain n) = d.
Definition usable (opts : EligibilityOptions) (n : NodeView) : Prop := nodeUsable n opts = None.
Definition only_unready (opts : EligibilityOptions) (n : NodeView) : Prop :=
  eo_RequireReady opts = true /\ nv_Ready n = false /\ nodeReachable n opts = true.

Definition nodes_in (d : Domain) (nodes : list NodeView) : list NodeView := List.filter (fun n => NormaliseDomain (nv_Domain n) ==s d) nodes.

Lemma elem_of_nodes_in d nodes n : n ∈ nodes_in d nodes <-> n ∈ nodes /\ of_domain d n.
Proof. unfold nodes_in. rewrite elem_of_lfilter, bool_decide_eq_true. done. Qed.

Lemma aggregate_at nodes opts d : aggregate nodes opts !! d =
  match nodes_in d nodes with [] => None | l => Some (fold_left (fun a n => count_node opts n a) l zero_agg) end.
Proof.
  unfold aggregate. induction nodes as [|n nodes IH] using rev_ind; [done|]. rewrite fold_left_app. cbn [fold_left]. unfold add_node at 1.
  unfold nodes_in. rewrite List.filter_app. cbn [List.filter]. fold (nodes_in d nodes). case_bool_decide as E.
  - rewrite E, lookup_insert_eq, IH. destruct (nodes_in d nodes) as [|x l]; [done|]. cbn [app]. change (x :: l ++ [n]) with ((x :: l) ++ [n]). by rewrite fold_left_app.
  - rewrite lookup_insert_ne, IH, app_nil_r by done. done.
Qed.

Lemma count_eligible opts l : forall a, da_eligible (fold_left (fun a n => count_node opts n a) l a) =
  da_eligible a + Z.of_nat (length (List.filter (fun n => bool_decide (usable opts n)) l)).
Proof.
  induction l as [|n l IH]; intros a; cbn [fold_left List.filter]; [cbn; lia|]. rewrite IH. unfold count_node, usable. destruct (nodeUsable n opts) as [r|].
  - rewrite bool_decide_eq_false_2 by done. f_equal. unfold note. by repeat case_match.
  - rewrite bool_decide_eq_true_2 by done. cbn. lia.
Qed.

Lemma count_unready opts l : forall a, 0 <= da_unready a ->
  let u := da_unready (fold_left (fun a n => count_node opts n a) l a) in
  da_unready a <= u /\ (da_unready a < u <-> exists n, n ∈ l /\ ~ usable opts n /\ only_unready opts n).
Proof.
  induction l as [|n l IH]; intros a Ha; cbn [fold_left]; [split; [lia|]; split; [lia|]; intros (n & Hn & _); by apply elem_of_nil in Hn|].
  assert (da_unready (count_node opts n a) = da_unready a + (if bool_decide (~ usable opts n /\ only_unready opts n) then 1 else 0)) as E.
  { unfold count_node, usable, only_unready. destruct (nodeUsable n opts) as [r|].
    - assert (da_unready (note r (a <| da_seen ::= Z.succ |>)) = da_unready a) as En by (unfold note; by case_match).
      destruct (eo_RequireReady opts && negb (nv_Ready n) && nodeReachable n opts) eqn:Ec.
      + apply andb_prop in Ec as [[H1 H2%negb_true_iff]%andb_prop H3]. rewrite bool_decide_eq_true_2 by done. cbn. rewrite En. lia.
      + rewrite bool_decide_eq_false_2; [lia|]. intros (_ & H1 & H2 & H3). by rewrite H1, H2, H3 in Ec.
    - rewrite bool_decide_eq_false_2 by (intros [? _]; done). cbn. lia. }
  specialize (IH (count_node opts n a)). cbn zeta in IH. rewrite E in IH.
  case_bool_decide as Eb; (destruct IH as [IH1 IH2]; [lia|]).
  - split; [lia|]. split; [|lia]. intros _. exists n. split; [apply list_elem_of_here|done].
  - split; [lia|]. replace (da_unready a) with (da_unready a + 0) at 1 by lia. rewrite IH2. split; intros (x & Hx & Hp); exists x; (split; [|done]).
    + by apply list_elem_of_further.
    + apply elem_of_cons in Hx as [->|]; [by destruct Eb|done].
Qed.

Lemma elem_of_domains_where f (agg : gmap Domain domainAgg) d : d ∈ domains_where f agg <-> exists a, agg !! d = Some a /\ f a = true.
Proof.
  unfold domains_where. rewrite list_elem_of_fmap. split.
  - intros ([d' a] & -> & Hin). apply list_elem_of_In, List.filter_In in Hin as [Hin%list_elem_of_In%elem_of_map_to_list Hf]. by exists a.
  - intros (a & Ha & Hf). exists (d, a). split; [done|]. apply list_elem_of_In, List.filter_In. split; [|done]. by apply list_elem_of_In, elem_of_map_to_list.
Qed.

Lemma NoDup_domains_where f (agg : gmap Domain domainAgg) : NoDup (domains_where f agg).
Proof.
  unfold domains_where. pose proof (NoDup_fst_map_to_list agg) as Hn. induction (map_to_list agg) as [|[d a] l IH]; cbn [List.filter]; [constructor|].
  apply list.NoDup_cons in Hn as [Hd Hn]. destruct (f a); [|by apply IH]. apply list.NoDup_cons. split; [|by apply IH].
  intros ([d' a'] & E & Hin)%list_elem_of_fmap. apply list_elem_of_In, List.filter_In in Hin as [Hin%list_elem_of_In _].
  apply Hd, list_elem_of_fmap. by exists (d', a').
Qed.

(** Whether some node of a domain is usable, and whether none is. *)
Lemma eligible_count nodes opts d a : aggregate nodes opts !! d = Some a ->
  da_eligible a = Z.of_nat (length (List.filter (fun n => bool_decide (usable opts n)) (nodes_in d nodes))) /\
  (0 < da_eligible a <-> exists n, n ∈ nodes /\ of_domain d n /\ usable opts n).
Proof.
  rewrite aggregate_at. intros Ha. assert (da_eligible a = Z.of_nat (length (List.filter (fun n => bool_decide (usable opts n)) (nodes_in d nodes)))) as E.
  { assert (a = fold_left (fun a n => count_node opts n a) (nodes_in d nodes) zero_agg) as -> by (destruct (nodes_in d nodes); congruence).
    rewrite count_eligible. apply Z.add_0_l. }
  split; [done|]. rewrite E. split.
  - intros Hpos. destruct (List.filter _ _) as [|n l] eqn:Ef; [cbn in Hpos; lia|]. assert (In n (n :: l)) as Hin by (by left).
    rewrite <- Ef in Hin. apply List.filter_In in Hin as [Hin%list_elem_of_In Hu]. apply bool_decide_eq_true in Hu. apply elem_of_nodes_in in Hin as [Hn Hd]. by exists n.
  - intros (n & Hn & Hd & Hu). assert (In n (List.filter (fun n => bool_decide (usable opts n)) (nodes_in d nodes))) as Hin.
    { apply List.filter_In. split; [by apply list_elem_of_In, elem_of_nodes_in|by apply bool_decide_eq_true]. }
    destruct (List.filter _ _); [done|]. cbn. lia.
Qed.

Lemma unready_count nodes opts d a : aggregate nodes opts !! d = Some a ->
  0 < da_unready a <-> exists n, n ∈ nodes /\ of_domain d n /\ ~ usable opts n /\ only_unready opts n.
Proof.
  rewrite aggregate_at. intros Ha. assert (a = fold_left (fun a n => count_node opts n a) (nodes_in d nodes) zero_agg) as -> by (destruct (nodes_in d nodes); congruence).
  destruct (count_unready opts (nodes_in d nodes) zero_agg ltac:(done)) as [_ Hu]. cbn zeta in Hu. change (da_unready zero_agg) with 0 in Hu. rewrite Hu.
  split; intros (n & Hn & Hp); exists n; [apply elem_of_nodes_in in Hn as [? ?]; tauto|]. split; [apply elem_of_nodes_in; tauto|tauto].
Qed.

Lemma aggregate_seen nodes opts d : is_Some (aggregate nodes opts !! d) <-> exists n, n ∈ nodes /\ of_domain d n.
Proof.
  rewrite aggregate_at. destruct (nodes_in d nodes) as [|x l] eqn:E.
  - split; [by intros []|]. intros (n & Hn). apply elem_of_nodes_in in Hn. rewrite E in Hn. by apply elem_of_nil in Hn.
  - split; [intros _|by eauto]. exists x. apply elem_of_nodes_in. rewrite E. apply list_elem_of_here.
Qed.

Definition real_domains (e : Eligibility) : list Domain := take (length (el_Domains e) - el_SyntheticDomains e) (el_Domains e).

Lemma real_domains_eq nodes opts :
  real_domains (EligibleDomains nodes opts) = SortDomains (domains_where (fun a => 0 <? da_eligible a) (aggregate nodes opts)).
Proof.
  unfold real_domains, EligibleDomains. cbn [el_Domains el_SyntheticDomains]. rewrite length_app, length_fmap, length_seq, Nat.add_sub, take_app_length. done.
Qed.

Lemma elem_of_real nodes opts d : d ∈ real_domains (EligibleDomains nodes opts) <-> exists n, n ∈ nodes /\ of_domain d n /\ usable opts n.
Proof.
  rewrite real_domains_eq. unfold SortDomains. rewrite merge_sort_Permutation, elem_of_domains_where. split.
  - intros (a & Ha & Hp%Z.ltb_lt). by apply (eligible_count _ _ _ _ Ha).
  - intros (n & Hn & Hd & Hu). destruct (proj2 (aggregate_seen nodes opts d)) as [a Ha]; [by exists n|]. exists a. split; [done|].
    apply Z.ltb_lt, (eligible_count _ _ _ _ Ha). by exists n.
Qed.

Lemma none_usable nodes opts d a : aggregate nodes opts !! d = Some a ->
  da_eligible a = 0 <-> forall n, n ∈ nodes -> of_domain d n -> ~ usable opts n.
Proof.
  intros Ha. destruct (eligible_count _ _ _ _ Ha) as [E Hp]. split.
  - intros H0 n Hn Hd Hu. assert (0 < da_eligible a); [|lia]. apply Hp. by exists n.
  - intros Hno. destruct (decide (0 < da_eligible a)) as [H0|H0]; [|lia]. apply Hp in H0 as (n & Hn & Hd & Hu). by destruct (Hno n Hn Hd).
Qed.

Lemma pretty_go_nonempty x : forall s, s <> "" -> pretty_N_go x s <> "".
Proof.
  induction (N.lt_wf_0 x) as [x _ IH]; intros s Hs. destruct (decide (x = 0)%N) as [->|Hx]; [by rewrite pretty_N_go_0|].
  rewrite pretty_N_go_step by lia. apply IH; [apply N.div_lt; lia|done].
Qed.

Lemma itoa_nonempty z : itoa z <> "".
Proof.
  assert (forall p : positive, (pretty p : string) <> "") as Hp.
  { intros p. unfold pretty, pretty_positive, pretty, pretty_N. rewrite decide_False by done. rewrite pretty_N_go_step by lia. by apply pretty_go_nonempty. }
  unfold itoa, pretty, pretty_Z. destruct z as [|p|p]; [done|apply Hp|done].
Qed.

Lemma syntheticDomain_is i : IsSynthetic (syntheticDomain i) = true.
Proof.
  unfold IsSynthetic, syntheticDomain. apply andb_true_intro. split; [|apply HasPrefix_spec; by eexists].
  apply Nat.ltb_lt. pose proof (itoa_nonempty (Z.of_nat i)). destruct (itoa (Z.of_nat i)) as [|c r]; [done|]. cbn. lia.
Qed.

(** Eligibility is exactly "some node of the domain can take the subject". The eligible
    domains are in canonical order without repetition, and a domain is among them just when
    one of its nodes passes every check the options turn on; each carries the number of
    such nodes; the other domains that have nodes are the excluded ones; an excluded domain
    is unready just when a node of it fails on readiness alone; and when a minimum number of
    domains is required, placeholders make up the difference, so that every per-domain list
    has one entry per domain. *)
Theorem eligible_when_some_node_fits nodes opts :
  let e := EligibleDomains nodes opts in
  Sorted domain_le (real_domains e) /\ NoDup (real_domains e) /\
  (forall d, d ∈ real_domains e <-> exists n, n ∈ nodes /\ of_domain d n /\ usable opts n) /\
  (forall i d, real_domains e !! i = Some d ->
     el_NodeCount e !! i = Some (Z.of_nat (length (List.filter (fun n => bool_decide (usable opts n)) (nodes_in d nodes))))) /\
  (forall d, is_Some (el_Excluded e !! d) <->
     (exists n, n ∈ nodes /\ of_domain d n) /\ forall n, n ∈ nodes -> of_domain d n -> ~ usable opts n) /\
  (forall d, d ∈ el_Unready e <-> is_Some (el_Excluded e !! d) /\ exists n, n ∈ nodes /\ of_domain d n /\ only_unready opts n) /\
  Z.of_nat (length (el_Domains e)) = Z.max (Z.of_nat (length (real_domains e))) (default 0 (eo_MinDomains opts)) /\
  Forall (fun d => IsSynthetic d = true) (drop (length (real_domains e)) (el_Domains e)) /\
  length (el_CapacityCPU e) = length (el_Domains e) /\ length (el_CapacityMemory e) = length (el_Domains e) /\
  length (el_NodeCount e) = length (el_Domains e).
Proof.
  cbn zeta. set (agg := aggregate nodes opts). set (e := EligibleDomains nodes opts).
  pose proof (real_domains_eq nodes opts) as Er. fold e agg in Er. set (real := real_domains e) in *.
  assert (forall d, is_Some (el_Excluded e !! d) <-> (exists n, n ∈ nodes /\ of_domain d n) /\ forall n, n ∈ nodes -> of_domain d n -> ~ usable opts n) as Hex.
  { intros d. unfold e, EligibleDomains. cbn [el_Excluded]. fold agg. rewrite lookup_fmap, fmap_is_Some, <- aggregate_seen. fold agg. split.
    - intros [a Ha]. apply map_lookup_filter_Some in Ha as [Ha H0]. split; [by exists a|]. by apply (none_usable _ _ _ _ Ha).
    - intros [[a Ha] Hno]. exists a. apply map_lookup_filter_Some. split; [done|]. by apply (none_usable _ _ _ _ Ha). }
  split; [rewrite Er; apply Sorted_merge_sort, _|]. split; [rewrite Er; unfold SortDomains; rewrite merge_sort_Permutation; apply NoDup_domains_where|].
  split; [intros d; apply elem_of_real|]. split.
  { intros i d Hi. unfold e, EligibleDomains. cbn [el_NodeCount]. fold agg. rewrite <- Er. rewrite lookup_app_l by (rewrite length_fmap; by eapply lookup_lt_Some).
    rewrite list_lookup_fmap, Hi. cbn [fmap option_fmap option_map]. f_equal. assert (d ∈ real) as Hd by (by eapply list_elem_of_lookup_2).
    apply elem_of_real in Hd as (n & Hn & Hnd & _). destruct (proj2 (aggregate_seen nodes opts d)) as [a Ha]; [by exists n|].
    fold agg in Ha. rewrite Ha. cbn [default]. apply (eligible_count _ _ _ _ Ha). }
  split; [exact Hex|]. split.
  { intros d. rewrite Hex. unfold e, EligibleDomains. cbn [el_Unready]. fold agg. unfold SortDomains. rewrite merge_sort_Permutation, elem_of_domains_where. split.
    - intros (a & Ha & [H0%Z.eqb_eq Hu%Z.ltb_lt]%andb_prop). split; [split; [apply (aggregate_seen nodes opts d); by exists a|by apply (none_usable _ _ _ _ Ha)]|].
      apply (unready_count _ _ _ _ Ha) in Hu as (n & Hn & Hd & _ & Ho). by exists n.
    - intros [[Hsome Hno] (n & Hn & Hd & Ho)]. apply (aggregate_seen nodes opts) in Hsome as [a Ha]. exists a. split; [done|]. apply andb_true_intro. split; [by apply Z.eqb_eq, (none_usable _ _ _ _ Ha)|].
      apply Z.ltb_lt, (unready_count _ _ _ _ Ha). exists n. split; [done|]. split; [done|]. split; [by apply Hno|done]. }
  assert (el_Domains e = real ++ (syntheticDomain <$> seq (length real) (padding opts (length real)))) as Ed by (rewrite Er; done).
  assert (length (el_Domains e) = length real + padding opts (length real))%nat as El by (by rewrite Ed, length_app, length_fmap, length_seq).
  split; [rewrite El; unfold padding; destruct (eo_MinDomains opts) as [w|]; [change (default 0 (Some w)) with w|change (default 0 (@None Z)) with 0]; lia|].
  split.
  { rewrite Ed, drop_app_length. apply Forall_fmap, list.Forall_forall. intros i _. apply syntheticDomain_is. }
  rewrite El. unfold e, EligibleDomains. cbn [el_CapacityCPU el_CapacityMemory el_NodeCount]. fold agg. rewrite <- Er.
  rewrite !length_app, !length_fmap, !length_replicate. done.
Qed.
