(* ===== verification/LeewayScore.v ===== *)
(** How far a distribution is from what was expected, and what is concluded
    (src/pkg/leeway/score.go, tier.go, transient.go): the scores, the breach rules in their
    order, the confidence tier and severity, the states of the cluster that excuse a skew,
    and which verdicts become signals.

    Counts are integers; shares, drift and thresholds are float64 as in the code. *)
From S2P Require Import Prelude GoTime GoStrings GoFloatMath LeewayTopology DriftInventory LeewayIntent LeewayApportion.
From Stdlib Require Import SpecFloat.
Open Scope Z_scope.
Open Scope lookout_scope.

(** ** Scores *)

Record Thresholds := mkThresholds {
  th_MinReplicasForScoring : Z; th_SmallNThreshold : Z; th_MinRelocationSmallN : Z; th_Drift : float64; th_MaxDomainShare : float64
}.

(** 0.2 and 0.5 as float64. *)
Definition DefaultThresholds : Thresholds := mkThresholds 3 10 2 f64_0_20 (f64_div (f64_of_Z 1) (f64_of_Z 2)).

Inductive GateReason := GateNone | GateNoDomains | GateNoObjects | GateBelowMinReplicas | GateModeIgnore.

Definition GateReason_String (g : GateReason) : string :=
  match g with
  | GateNone => ""
  | GateNoDomains => "no eligible domains"
  | GateNoObjects => "no objects counted"
  | GateBelowMinReplicas => "below minReplicasForScoring"
  | GateModeIgnore => "intent mode is Ignore"
  end.

Record Scores := mkScores {
  sc_Domains : list Domain; sc_Actual : list Z; sc_Expected : list Z; sc_Total : Z;
  sc_MaxDomainObjects : Z; sc_ObservedSkew : Z; sc_MinAchievableSkew : Z; sc_ExcessSkew : Z; sc_Relocation : Z;
  sc_Drift : float64; sc_Concentration : float64; sc_MaxDomainShare : float64;
  sc_ChiSquare : float64; sc_ChiSquareValid : bool; sc_DegreesOfFreedom : Z;
  sc_Unplaceable : Z; sc_Evaluable : bool; sc_Gate : GateReason
}.

Definition zero_scores : Scores :=
  mkScores [] [] [] 0 0 0 0 0 0 f64_zero f64_zero f64_zero f64_zero false 0 0 false GateNone.

(** The smallest and the largest of a list that starts with [x]. *)
Definition least (l : list Z) : Z := match l with [] => 0 | x :: l => fold_left Z.min l x end.
Definition greatest (l : list Z) : Z := match l with [] => 0 | x :: l => fold_left Z.max l x end.

Definition f64_ratio (a b : Z) : float64 := f64_div (f64_of_Z a) (f64_of_Z b).

(** Objects above what their domain should hold. *)
Definition surplus (actual expected : list Z) : Z := sum_Z (zip_with (fun a e => Z.max 0 (a - e)) actual expected).

Definition chiSquare (actual expected : list Z) : float64 * bool :=
  if negb (length actual =? length expected)%nat || (length actual =? 0)%nat then (f64_zero, false) else
  fold_left (fun '(x2, valid) '(a, e) =>
    let valid := if e <? 5 then false else valid in
    if e <=? 0 then (x2, valid)
    else let d := f64_of_Z (a - e) in (f64_add x2 (f64_div (f64_mul d d) (f64_of_Z e)), valid))
    (zip actual expected) (f64_zero, true).

Definition Score (domains : list Domain) (actual : list Z) (ap : Apportionment) (maxSkew : option Z) (t : Thresholds) : Scores :=
  let s := zero_scores <| sc_Domains := domains |> <| sc_Actual := actual |> <| sc_Expected := ap_Expected ap |> <| sc_Unplaceable := ap_Unplaceable ap |> in
  let m := length domains in
  if (m =? 0)%nat then s <| sc_Gate := GateNoDomains |> else
  let total := sum_Z actual in
  let s := s <| sc_Total := total |> in
  if total =? 0 then s <| sc_Gate := GateNoObjects |> else
  let observed := greatest actual - least actual in
  let aligned := (length (ap_Expected ap) =? m)%nat in
  let achievable := if aligned then greatest (ap_Expected ap) - least (ap_Expected ap) else 0 in
  let floor := match maxSkew with Some k => if achievable <? k then k else achievable | None => achievable end in
  let relocation := if aligned then surplus actual (ap_Expected ap) else 0 in
  let chi := chiSquare actual (ap_Expected ap) in
  let s := s <| sc_ObservedSkew := observed |> <| sc_MaxDomainObjects := greatest actual |>
             <| sc_MaxDomainShare := f64_ratio (greatest actual) total |>
             <| sc_MinAchievableSkew := achievable |>
             <| sc_ExcessSkew := if 0 <? observed - floor then observed - floor else 0 |>
             <| sc_Relocation := relocation |>
             <| sc_Drift := f64_ratio relocation total |>
             <| sc_Concentration := fold_left (fun c a => let share := f64_ratio a total in f64_add c (f64_mul share share)) actual f64_zero |>
             <| sc_ChiSquare := chi.1 |> <| sc_ChiSquareValid := chi.2 |> <| sc_DegreesOfFreedom := Z.of_nat m - 1 |> in
  if total <? th_MinReplicasForScoring t then s <| sc_Gate := GateBelowMinReplicas |> else s <| sc_Evaluable := true |>.

Definition Dispersion (s : Scores) : float64 := if sc_Total s =? 0 then f64_zero else f64_sub (f64_of_Z 1) (sc_MaxDomainShare s).

Definition Scattered (s : Scores) : Z := sc_Total s - sc_MaxDomainObjects s.

Definition Escalate (s : Scores) (t : Thresholds) : bool := sc_Evaluable s && f64_lt (th_MaxDomainShare t) (sc_MaxDomainShare s).

Definition ExpectedShares (s : Scores) : list float64 :=
  let total := sum_Z (sc_Expected s) in
  if total =? 0 then replicate (length (sc_Expected s)) f64_zero else (fun e => f64_ratio e total) <$> sc_Expected s.

(** ** Breach rules *)

Inductive BreachKind := BreachNone | BreachPerDomainCeiling | BreachMaxSkew | BreachDrift | BreachBaseline.

#[global] Instance BreachKind_eq_dec : EqDecision BreachKind.
Proof. solve_decision. Defined.

Definition BreachKind_String (b : BreachKind) : string :=
  match b with
  | BreachPerDomainCeiling => "per-domain-ceiling"
  | BreachMaxSkew => "max-skew"
  | BreachDrift => "drift"
  | BreachBaseline => "baseline"
  | BreachNone => ""
  end.

Definition Contract (b : BreachKind) : bool :=
  match b with BreachPerDomainCeiling | BreachMaxSkew => true | _ => false end.

Definition small_n (s : Scores) (t : Thresholds) (moved : Z) : bool :=
  (sc_Total s <? th_SmallNThreshold t) && (moved <? th_MinRelocationSmallN t).

(** The domain furthest outside its learned band. *)
Definition worst_domain (s : Scores) (bands : gmap Domain float64) : option Domain :=
  let expected := ExpectedShares s in
  (fold_left (fun '(worst, worstDev) '(i, d) =>
     match bands !! d with
     | None => (worst, worstDev)
     | Some band =>
         let share := match sc_Actual s !! i with Some a => if 0 <? sc_Total s then f64_ratio a (sc_Total s) else f64_zero | None => f64_zero end in
         let want := default f64_zero (expected !! i) in
         let dev := f64_abs (f64_sub share want) in
         if f64_lt band dev && f64_lt worstDev dev then (Some d, dev) else (worst, worstDev)
     end) (imap (fun i d => (i, d)) (sc_Domains s)) (None, f64_zero)).1.

Definition breachBaseline (s : Scores) (intent : Intent) (t : Thresholds) : BreachKind * string :=
  match worst_domain s (in_Bands intent) with
  | None => (BreachNone, "")
  | Some worst =>
      if small_n s t (sc_Relocation s) then (BreachNone, "small-n: relocation below floor")
      else (BreachBaseline, "domain " +:+ worst +:+ " is outside its learned band")
  end.

Definition breachColocate (s : Scores) (t : Thresholds) : BreachKind * string :=
  if f64_le (Dispersion s) (th_Drift t) then (BreachNone, "")
  else if small_n s t (Scattered s) then (BreachNone, "small-n: scattered objects below floor")
  else (BreachDrift, "objects scattered across domains against a colocation intent").

Definition breachDrift (s : Scores) (t : Thresholds) : BreachKind * string :=
  if f64_le (sc_Drift s) (th_Drift t) then (BreachNone, "")
  else if small_n s t (sc_Relocation s) then (BreachNone, "small-n: relocation below floor")
  else (BreachDrift, "normalised drift over threshold").

Definition breach (s : Scores) (intent : option Intent) (t : Thresholds) : BreachKind * string :=
  if match intent with Some i => bool_decide (in_Mode i = ModeIgnore) | None => false end
  then (BreachNone, GateReason_String GateModeIgnore)
  else if negb (sc_Evaluable s) then (BreachNone, GateReason_String (sc_Gate s))
  else if HardPerDomainContract intent &&
          match intent with Some i => match in_MaxPerDomain i with Some c => c <? sc_MaxDomainObjects s | None => false end | None => false end
  then (BreachPerDomainCeiling, "a domain holds more objects than the declared per-domain ceiling")
  else if HardSkewContract intent then
    if 0 <? sc_ExcessSkew s then (BreachMaxSkew, "observed skew exceeds the declared maxSkew")
    else (BreachNone, "observed skew within the declared maxSkew")
  else match intent with
       | Some i =>
           if bool_decide (in_Mode i = ModeColocate) then breachColocate s t
           else if bool_decide (in_Bands i <> ∅) then breachBaseline s i t
           else breachDrift s t
       | None => breachDrift s t
       end.

(** ** Tiers *)

Inductive Tier := TierNone | TierA | TierB | TierC.

#[global] Instance Tier_eq_dec : EqDecision Tier.
Proof. solve_decision. Defined.

Definition severityInfo : string := "info".
Definition severityWarning : string := "warning".
Definition severityCritical : string := "critical".

Definition ValidSeverity (s : string) : bool := (s ==s severityInfo) || (s ==s severityWarning) || (s ==s severityCritical).

Definition Tier_Severity (t : Tier) : string :=
  match t with TierA => severityCritical | TierB => severityWarning | TierC => severityInfo | TierNone => "" end.

Definition classify (intent : option Intent) (k : BreachKind) : Tier :=
  match intent with
  | None => TierC
  | Some i =>
      if bool_decide (in_Source i = SourceLearnedBaseline) then TierC
      else if Contract k then TierA else TierB
  end.

Inductive TransientState := TransientNone | TransientWarmup | TransientDomainOutage | TransientRollout | TransientDrain | TransientScale.

Record Verdict := mkVerdict {
  ve_Breached : bool; ve_Kind : BreachKind; ve_Tier : Tier; ve_Severity : string; ve_Reason : string; ve_Escalated : bool;
  ve_Transient : TransientState; ve_Suppressed : bool; ve_Relaxed : bool; ve_SeverityFromPolicy : bool
}.

Definition zero_verdict : Verdict := mkVerdict false BreachNone TierNone "" "" false TransientNone false false false.

Definition Judge (s : Scores) (intent : option Intent) (t : Thresholds) : Verdict :=
  let '(kind, reason) := breach s intent t in
  let v := zero_verdict <| ve_Kind := kind |> <| ve_Reason := reason |> <| ve_Breached := bool_decide (kind <> BreachNone) |> in
  if negb (ve_Breached v) then v else
  let tier := classify intent kind in
  let escalated := if match intent with None => true | Some i => bool_decide (in_Mode i <> ModeColocate) end then Escalate s t else false in
  let severity := if escalated && bool_decide (tier = TierC) then severityWarning else Tier_Severity tier in
  let v := v <| ve_Tier := tier |> <| ve_Severity := severity |> <| ve_Escalated := escalated |> in
  match intent with
  | Some i => if ValidSeverity (in_Severity i) then v <| ve_Severity := in_Severity i |> <| ve_SeverityFromPolicy := true |> else v
  | None => v
  end.

Record Delivery := mkDelivery { dl_Signal : bool; dl_Severity : string; dl_Reason : string }.

Definition Route (v : Verdict) (tierCSignals : bool) : Delivery :=
  if ve_Suppressed v then mkDelivery false "" (ve_Reason v)
  else if negb (ve_Breached v) then mkDelivery false "" "no breach"
  else if bool_decide (ve_Tier v = TierC) && negb tierCSignals && negb (ve_SeverityFromPolicy v)
  then mkDelivery false "" "tier C is metrics-only unless enabled by policy"
  else mkDelivery true (ve_Severity v) "".

(** ** Expected skew *)

Record TransientConfig := mkTransientConfig {
  tc_ScaleSettleWindow : Duration; tc_DrainSettleWindow : Duration; tc_OutageWindow : Duration; tc_Multiplier : float64
}.

(** A multiplier of 2.5. *)
Definition DefaultTransientConfig : TransientConfig :=
  mkTransientConfig (5 * Minute) (10 * Minute) (15 * Minute) (f64_div (f64_of_Z 5) (f64_of_Z 2)).

Definition TransientConfig_normalize (c : TransientConfig) : TransientConfig :=
  let d := DefaultTransientConfig in
  let c := if tc_ScaleSettleWindow c <=? 0 then c <| tc_ScaleSettleWindow := tc_ScaleSettleWindow d |> else c in
  let c := if tc_DrainSettleWindow c <=? 0 then c <| tc_DrainSettleWindow := tc_DrainSettleWindow d |> else c in
  let c := if tc_OutageWindow c <=? 0 then c <| tc_OutageWindow := tc_OutageWindow d |> else c in
  if f64_lt (tc_Multiplier c) (f64_of_Z 1) then c <| tc_Multiplier := tc_Multiplier d |> else c.

Record Transients := mkTransients {
  tr_RolloutInProgress : bool; tr_ScaledAt : Time; tr_DrainedAt : Time; tr_Warming : bool; tr_DomainOutage : bool
}.

Record Suppression := mkSuppression {
  su_State : TransientState; su_Suppress : bool; su_Relax : bool; su_Multiplier : float64; su_Reason : string
}.

Definition no_suppression : Suppression := mkSuppression TransientNone false false f64_zero "".

Definition relaxed (s : TransientState) (reason : string) (mult : float64) : Suppression := mkSuppression s false true mult reason.

Definition recent (now at_ : Time) (window : Duration) : bool :=
  if IsZero at_ then false else let age := Sub now at_ in (age <? window) && (wrap64 (- window) <? age).

Definition Transients_Classify (tr : Transients) (now : Time) (c : TransientConfig) : Suppression :=
  let c := TransientConfig_normalize c in
  if tr_Warming tr then mkSuppression TransientWarmup true false f64_zero "the cluster sentinel has not armed, so the counts are a partial view"
  else if tr_DomainOutage tr then mkSuppression TransientDomainOutage true false f64_zero "an eligible domain lost more than half its ready nodes"
  else if tr_RolloutInProgress tr then relaxed TransientRollout "a rollout is in progress" (tc_Multiplier c)
  else if recent now (tr_DrainedAt tr) (tc_DrainSettleWindow c) then relaxed TransientDrain "a node was cordoned inside the drain settle window" (tc_Multiplier c)
  else if recent now (tr_ScaledAt tr) (tc_ScaleSettleWindow c) then relaxed TransientScale "the replica count changed inside the scale settle window" (tc_Multiplier c)
  else no_suppression.

Definition DomainOutage (c : TransientConfig) (history : list ReadyCount) (ready : Z) (now : Time) : bool :=
  let cutoff := Add now (wrap64 (- tc_OutageWindow (TransientConfig_normalize c))) in
  let peak := fold_left (fun peak h => if After (rc_At h) cutoff && (peak <? rc_Ready h) then rc_Ready h else peak) history 0 in
  let peak := if peak <? ready then ready else peak in
  (0 <? peak) && (ready * 2 <? peak).

Section relaxing.
Context `{FloatToInt}.

(** [math.Ceil] of a float64, as a float64. *)
Definition f64_ceil (x : float64) : float64 := SFopp (f64_floor (SFopp x)).

Definition scaleCount (n : Z) (mult : float64) : Z := if n <=? 0 then n else int64_of (f64_ceil (f64_mul (f64_of_Z n) mult)).

Definition Thresholds_Relaxed (t : Thresholds) (mult : float64) : Thresholds :=
  if f64_le mult (f64_of_Z 1) then t
  else t <| th_Drift ::= (fun d => f64_mul d mult) |> <| th_MaxDomainShare ::= (fun d => f64_min (f64_of_Z 1) (f64_mul d mult)) |>
         <| th_SmallNThreshold ::= (fun n => scaleCount n mult) |> <| th_MinRelocationSmallN ::= (fun n => scaleCount n mult) |>.

Definition JudgeTransient (s : Scores) (intent : option Intent) (t : Thresholds) (sup : Suppression) : Verdict :=
  if su_Suppress sup then zero_verdict <| ve_Transient := su_State sup |> <| ve_Suppressed := true |> <| ve_Reason := su_Reason sup |>
  else
    let t := if su_Relax sup then Thresholds_Relaxed t (su_Multiplier sup) else t in
    let v := Judge s intent t in
    let v := v <| ve_Transient := su_State sup |> <| ve_Relaxed := su_Relax sup |> in
    if su_Relax sup && ve_Breached v
    then v <| ve_Reason ::= (fun r => r +:+ "; " +:+ su_Reason sup +:+ ", and the relaxed threshold was exceeded anyway") |>
    else v.

End relaxing.

Example relaxed_default : Thresholds_Relaxed DefaultThresholds (tc_Multiplier DefaultTransientConfig) =
  mkThresholds 3 25 5 (f64_div (f64_of_Z 1) (f64_of_Z 2)) (f64_of_Z 1).
Proof. vm_compute. done. Qed.
