(* ===== verification/LeewayScoreSpec.v ===== *)
(** What the scores and verdicts of LeewayScore promise. *)
From S2P Require Import Prelude GoTime GoStrings GoFloatMath LeewayTopology LeewayIntent LeewayApportion LeewayScore.
From Stdlib Require Import SpecFloat QArith Qpower Lqa.
Open Scope Z_scope.
Open Scope lookout_scope.

(** ** Counts *)

Lemma greatest_cons x l : greatest (x :: l) = match l with [] => x | _ => Z.max x (greatest l) end.
Proof.
  cbn. destruct l as [|y l]; [done|]. cbn [fold_left greatest]. revert y. induction l as [|z l IH]; intros y; cbn [fold_left]; [done|].
  rewrite <- Z.max_assoc, IH. done.
Qed.

Lemma least_cons x l : least (x :: l) = match l with [] => x | _ => Z.min x (least l) end.
Proof.
  cbn. destruct l as [|y l]; [done|]. cbn [fold_left least]. revert y. induction l as [|z l IH]; intros y; cbn [fold_left]; [done|].
  rewrite <- Z.min_assoc, IH. done.
Qed.

(** The least and the greatest bound the list and are reached. *)
Lemma least_greatest l : l <> [] -> Forall (fun a => least l <= a <= greatest l) l /\ least l ∈ l /\ greatest l ∈ l.
Proof.
  induction l as [|x l IH]; [done|]. intros _. rewrite greatest_cons, least_cons. destruct l as [|y l].
  - repeat split; [constructor; [lia|constructor]|apply list_elem_of_here..].
  - destruct (IH ltac:(done)) as (Hb & Hl & Hg). set (lo := least (y :: l)) in *. set (hi := greatest (y :: l)) in *. split; [|split].
    + constructor; [lia|]. eapply Forall_impl; [|exact Hb]. cbn. lia.
    + destruct (Z.min_spec x lo) as [[_ ->]|[_ ->]]; [apply list_elem_of_here|by apply list_elem_of_further].
    + destruct (Z.max_spec x hi) as [[_ ->]|[_ ->]]; [by apply list_elem_of_further|apply list_elem_of_here].
Qed.

Lemma sum_Z_app l k : sum_Z (l ++ k) = sum_Z l + sum_Z k.
Proof. unfold sum_Z. induction l as [|x l IH]; cbn [app foldr]; lia. Qed.

Lemma sum_Z_replicate m z : sum_Z (replicate m z) = Z.of_nat m * z.
Proof. unfold sum_Z. induction m as [|m IH]; cbn [replicate foldr]; lia. Qed.

(** An even expectation: the quotient everywhere, one more in the first domains. *)
Definition even (n : Z) (m : nat) : list Z :=
  let q := n / Z.of_nat m in let r := Z.to_nat (n mod Z.of_nat m) in replicate r (q + 1) ++ replicate (m - r) q.

Lemma even_length n m : (0 < m)%nat -> length (even n m) = m.
Proof. intros H0. pose proof (Z.mod_pos_bound n (Z.of_nat m) ltac:(lia)). unfold even. rewrite length_app, !length_replicate. lia. Qed.

Lemma even_skew n m : (0 < m)%nat -> 0 <= greatest (even n m) - least (even n m) <= 1.
Proof.
  intros H0. pose proof (even_length n m H0) as Hl. destruct (least_greatest (even n m)) as (Hb & Hlo & Hhi); [by intros E; rewrite E in Hl; cbn in Hl; lia|].
  assert (forall x, x ∈ even n m -> n / Z.of_nat m <= x <= n / Z.of_nat m + 1) as Hx.
  { intros x [[-> _]%elem_of_replicate|[-> _]%elem_of_replicate]%elem_of_app; lia. }
  pose proof (Hx _ Hlo). pose proof (Hx _ Hhi). eapply list.Forall_forall in Hb; [|exact Hlo]. lia.
Qed.

(** An even placement of as many objects holds the same counts in some order. *)
Lemma even_counts actual q : actual <> [] -> greatest actual - least actual <= 1 -> q = sum_Z actual / Z.of_nat (length actual) ->
  Forall (fun a => q <= a <= q + 1) actual /\ sum_Z actual = Z.of_nat (length actual) * q + sum_Z actual mod Z.of_nat (length actual).
Proof.
  intros Hne Hskew ->. destruct (least_greatest actual Hne) as (Hb & Hlo & _). set (lo := least actual) in *. set (m := Z.of_nat (length actual)).
  assert (0 < m) as Hm by (unfold m; destruct actual; [done|cbn; lia]).
  assert (m * lo <= sum_Z actual < m * (lo + 1)) as Hsum.
  { split.
    - unfold m, sum_Z. clear -Hb. induction Hb as [|a l [Ha _] Hl IH]; cbn [length foldr]; lia.
    - apply list_elem_of_split in Hlo as (l1 & l2 & E). unfold m. rewrite E, sum_Z_app, sum_Z_cons, length_app. cbn [length].
      rewrite E in Hb. apply Forall_app in Hb as [Hb1 Hb2]. apply Forall_cons_1 in Hb2 as [_ Hb2].
      assert (forall l, Forall (fun a => lo <= a <= greatest (l1 ++ lo :: l2)) l -> sum_Z l <= Z.of_nat (length l) * (lo + 1)) as Hs.
      { intros l Hl. rewrite E in Hskew. unfold sum_Z. induction Hl as [|a l Ha Hl IH]; cbn [length foldr]; lia. }
      pose proof (Hs _ Hb1). pose proof (Hs _ Hb2). lia. }
  assert (sum_Z actual / m = lo) as Eq by (symmetry; apply (Z.div_unique _ _ _ (sum_Z actual - m * lo)); lia).
  rewrite Eq. split; [eapply Forall_impl; [|exact Hb]; cbn; lia|]. rewrite <- Eq. apply Z_div_mod_eq_full.
Qed.

Lemma surplus_bound actual q r : Forall (fun a => q <= a <= q + 1) actual -> (r <= length actual)%nat ->
  sum_Z actual = Z.of_nat (length actual) * q + Z.of_nat r ->
  0 <= surplus actual (replicate r (q + 1) ++ replicate (length actual - r) q) <= Z.min (Z.of_nat r) (Z.of_nat (length actual - r)).
Proof.
  intros Hq Hr Hsum. set (m := length actual) in *. assert (exists l1 l2, actual = l1 ++ l2 /\ length l1 = r /\ length l2 = (m - r)%nat) as (l1 & l2 & E & <- & H2).
  { exists (take r actual), (drop r actual). rewrite take_drop, length_take, length_drop. repeat split; lia. }
  rewrite E in *. apply Forall_app in Hq as [Hq1 Hq2]. rewrite sum_Z_app in Hsum. unfold surplus. rewrite zip_with_app, sum_Z_app by (by rewrite length_replicate).
  rewrite <- H2.
  assert (forall l, Forall (fun a => q <= a <= q + 1) l -> sum_Z (zip_with (fun a e => Z.max 0 (a - e)) l (replicate (length l) (q + 1))) = 0 /\
    sum_Z (zip_with (fun a e => Z.max 0 (a - e)) l (replicate (length l) q)) = sum_Z l - Z.of_nat (length l) * q /\
    Z.of_nat (length l) * q <= sum_Z l <= Z.of_nat (length l) * (q + 1)) as Hz.
  { clear. unfold sum_Z. induction 1 as [|a l Ha Hl (IH1 & IH2 & IH3)]; cbn [length replicate zip_with foldr]; lia. }
  destruct (Hz l1 Hq1) as (-> & _ & ?). destruct (Hz l2 Hq2) as (_ & -> & ?). lia.
Qed.

(** ** Drift *)

Lemma ratio_near a b : 0 < a <= 2 ^ 31 -> 0 < b <= 2 ^ 31 -> exists v, f64_is (f64_ratio a b) v /\ rounds v (inject_Z a / inject_Z b).
Proof.
  intros Ha Hb. apply f64_div_near; [apply f64_of_Z_exact; lia..|].
  assert (1 <= inject_Z a <= 2147483648)%Q as [Ha1 Ha2] by (split; [apply (inject_le 1)|apply (inject_le _ 2147483648)]; lia).
  assert (1 <= inject_Z b <= 2147483648)%Q as [Hb1 Hb2] by (split; [apply (inject_le 1)|apply (inject_le _ 2147483648)]; lia). split.
  - apply Qle_shift_div_l; [lra|]. apply (Qle_trans _ (2 ^ (-950) * 2147483648)); [|apply (Qle_trans _ 1); [by vm_compute|done]].
    rewrite !(Qmult_comm (2 ^ _)). apply Qmult_le_compat_r; [done|by vm_compute].
  - apply Qle_shift_div_r; [lra|]. apply (Qle_trans _ (2 ^ 950 * 1)); [apply (Qle_trans _ 2147483648); [done|by vm_compute]|].
    rewrite !(Qmult_comm (2 ^ _)). apply Qmult_le_compat_r; [done|by vm_compute].
Qed.

(** One object out of ten or more is no drift at the default threshold. *)
Lemma drift_of_one r n : 0 <= r <= 1 -> 10 <= n <= 2 ^ 31 -> f64_le (f64_ratio r n) f64_0_20 = true.
Proof.
  intros Hr Hn. destruct (ratio_near 1 5 ltac:(lia) ltac:(lia)) as (v5 & H5 & [[H5l _] _]). change (f64_ratio 1 5) with f64_0_20 in H5.
  destruct (decide (r = 0)) as [->|Hr0].
  - unfold f64_ratio. destruct (f64_of_Z_exact n ltac:(lia)) as (m & e & -> & _). destruct H5 as (m5 & e5 & -> & _). done.
  - replace r with 1 by lia. destruct (ratio_near 1 n ltac:(lia) ltac:(lia)) as (v & Hv & [[_ Hvr] _]). apply (f64_le_iff _ _ _ _ Hv H5).
    apply (Qle_trans _ ((1 # 10) * (1 + ulp))); [|apply (Qle_trans _ ((1 # 5) * (1 - ulp))); [by vm_compute|exact H5l]].
    eapply Qle_trans; [exact Hvr|]. apply Qmult_le_compat_r; [|by vm_compute]. apply Qle_shift_div_r; [apply (inject_lt 0); lia|].
    change (inject_Z 1) with 1%Q. assert (10 <= inject_Z n)%Q by (apply (inject_le 10); lia). lra.
Qed.

(** The excess skew is how far the observed skew exceeds both the declared bound and what
    arithmetic imposes. *)
Lemma Score_fields domains actual ap maxSkew t : domains <> [] -> sum_Z actual <> 0 ->
  let s := Score domains actual ap maxSkew t in
  sc_Actual s = actual /\ sc_Total s = sum_Z actual /\ sc_MaxDomainObjects s = greatest actual /\
  sc_Evaluable s = (th_MinReplicasForScoring t <=? sum_Z actual) /\
  (length (ap_Expected ap) = length domains ->
    let floor := Z.max (greatest (ap_Expected ap) - least (ap_Expected ap)) (default 0 maxSkew) in
    (0 <= greatest (ap_Expected ap) - least (ap_Expected ap) -> sc_ExcessSkew s = Z.max 0 (greatest actual - least actual - floor)) /\
    sc_Relocation s = surplus actual (ap_Expected ap) /\ sc_Drift s = f64_ratio (surplus actual (ap_Expected ap)) (sum_Z actual)).
Proof.
  intros Hd Hn. unfold Score. rewrite (proj2 (Nat.eqb_neq _ _)) by (by destruct domains). rewrite (proj2 (Z.eqb_neq _ _) Hn).
  destruct (Z.ltb_spec (sum_Z actual) (th_MinReplicasForScoring t)); cbn -[Z.ltb Nat.eqb Z.max Z.sub surplus sum_Z].
  all: split; [done|]; split; [done|]; split; [done|]; (split; [symmetry; first [by apply Z.leb_gt|by apply Z.leb_le]|]).
  all: intros El; rewrite El, Nat.eqb_refl; (split; [|done]); intros H0; destruct maxSkew as [k|]; cbn [default from_option id].
  all: repeat match goal with |- context [?a <? ?b] => destruct (Z.ltb_spec a b) | H : context [?a <? ?b] |- _ => destruct (Z.ltb_spec a b) end.
  all: change (default 0 (@None Z)) with 0 in *; lia.
Qed.

(** ** Verdicts *)

(** What a verdict takes from the rule that fired. *)
Lemma Judge_fields s intent t : let v := Judge s intent t in let kind := (breach s intent t).1 in
  ve_Kind v = kind /\ ve_Breached v = bool_decide (kind <> BreachNone) /\ ve_Suppressed v = false /\
  ve_Tier v = (if bool_decide (kind <> BreachNone) then classify intent kind else TierNone) /\
  ve_SeverityFromPolicy v = (bool_decide (kind <> BreachNone) && match intent with Some i => ValidSeverity (in_Severity i) | None => false end) /\
  (kind <> BreachNone -> ValidSeverity (ve_Severity v) = true).
Proof.
  unfold Judge. destruct (breach s intent t) as [kind reason]. cbn [fst]. cbn [ve_Breached]. 
  destruct (bool_decide (kind <> BreachNone)) eqn:E; cbn [negb].
  2: { split; [done|]. split; [done|]. split; [done|]. split; [done|]. split; [done|]. intros Hk. by apply bool_decide_eq_false in E. }
  assert (forall k, ValidSeverity (if (if match intent with Some i => bool_decide (in_Mode i <> ModeColocate) | None => true end then Escalate s t else false) && bool_decide (classify intent k = TierC) then severityWarning else Tier_Severity (classify intent k)) = true) as Hv.
  { intros k. destruct (_ && bool_decide (classify intent k = TierC)); [done|]. unfold classify. destruct intent as [i|]; [|done].
    destruct (bool_decide (in_Source i = SourceLearnedBaseline)); [done|]. by destruct (Contract k). }
  destruct intent as [i|]; [|repeat split; try done; intros _; apply Hv].
  destruct (ValidSeverity (in_Severity i)) eqn:Es; repeat split; try done. intros _. apply Hv.
Qed.

Section transient.
Context `{FloatToInt}.

Definition effective (t : Thresholds) (sup : Suppression) : Thresholds :=
  if su_Relax sup then Thresholds_Relaxed t (su_Multiplier sup) else t.

Lemma JudgeTransient_fields s intent t sup : su_Suppress sup = false ->
  let v := JudgeTransient s intent t sup in let v0 := Judge s intent (effective t sup) in
  ve_Kind v = ve_Kind v0 /\ ve_Breached v = ve_Breached v0 /\ ve_Tier v = ve_Tier v0 /\ ve_Severity v = ve_Severity v0 /\
  ve_Suppressed v = ve_Suppressed v0 /\ ve_SeverityFromPolicy v = ve_SeverityFromPolicy v0.
Proof. intros Hs. unfold JudgeTransient, effective. rewrite Hs. cbn zeta. by destruct (su_Relax sup && _). Qed.

(** The rules on declared bounds do not read the thresholds. *)
Lemma contract_rules_ignore_thresholds s intent t t' :
  Contract (breach s intent t).1 = Contract (breach s intent t').1 /\
  (Contract (breach s intent t).1 = true -> (breach s intent t).1 = (breach s intent t').1) /\
  (HardSkewContract intent = true -> (breach s intent t).1 = (breach s intent t').1).
Proof.
  assert (forall t, Contract (breachColocate s t).1 = false /\ Contract (breachDrift s t).1 = false /\ forall i, Contract (breachBaseline s i t).1 = false) as Hno.
  { intros t0. unfold breachColocate, breachDrift, breachBaseline. split; [by repeat case_match|]. split; [by repeat case_match|]. intros i. by repeat case_match. }
  destruct (Hno t) as (A1 & A2 & A3), (Hno t') as (B1 & B2 & B3). unfold breach.
  destruct (match intent with Some i => bool_decide (in_Mode i = ModeIgnore) | None => false end); [done|].
  destruct (negb (sc_Evaluable s)); [done|]. destruct (HardPerDomainContract intent && _); [done|].
  destruct (HardSkewContract intent); [by destruct (0 <? sc_ExcessSkew s)|].
  destruct intent as [i|]; [|rewrite A2, B2; by repeat split].
  destruct (bool_decide (in_Mode i = ModeColocate)); [rewrite A1, B1; by repeat split|].
  destruct (bool_decide (in_Bands i <> ∅)); [rewrite A3, B3; by repeat split|rewrite A2, B2; by repeat split].
Qed.

Lemma contract_needs_bound s intent t : Contract (breach s intent t).1 = true -> HardContract intent = true.
Proof.
  unfold breach, HardContract. destruct (match intent with Some i => bool_decide (in_Mode i = ModeIgnore) | None => false end); [done|].
  destruct (negb (sc_Evaluable s)); [done|]. destruct (HardPerDomainContract intent); cbn [andb orb]; [done|].
  destruct (HardSkewContract intent); [done|]. unfold breachColocate, breachDrift, breachBaseline. by repeat case_match.
Qed.

(** What becomes a signal. A verdict is delivered exactly when the cluster's state does not
    suppress it, a rule fired under the thresholds in force, and the finding is above tier C
    or tier C was asked for, by the option or by a policy that set a severity; what is
    delivered has one of the three severities. Tier A means a bound somebody declared: never
    an assumed default, never the subject's own history. And a transient relaxes tolerances
    only: the rules on declared bounds decide the same with and without it. *)
Theorem signals_are_earned s intent t sup tierCSignals :
  let v := JudgeTransient s intent t sup in
  let kind := (breach s intent (effective t sup)).1 in
  let d := Route v tierCSignals in
  (dl_Signal d = true <->
     su_Suppress sup = false /\ kind <> BreachNone /\
     (classify intent kind = TierC -> tierCSignals = true \/ match intent with Some i => ValidSeverity (in_Severity i) | None => false end = true)) /\
  (dl_Signal d = true -> ValidSeverity (dl_Severity d) = true) /\
  (ve_Tier v = TierA -> exists i, intent = Some i /\ HardContract intent = true /\
     in_Source i <> SourceClusterDefaultAssumed /\ in_Source i <> SourceLearnedBaseline) /\
  (su_Suppress sup = false -> Contract (ve_Kind v) = Contract (breach s intent t).1).
Proof.
  cbn zeta. set (kind := (breach s intent (effective t sup)).1). destruct (su_Suppress sup) eqn:Hs.
  { unfold JudgeTransient. rewrite Hs. cbn. repeat split; try done; intros (Hf & _); done. }
  destruct (JudgeTransient_fields s intent t sup Hs) as (E1 & E2 & E3 & E4 & E5 & E6).
  destruct (Judge_fields s intent (effective t sup)) as (F1 & F2 & F3 & F4 & F5 & F6). fold kind in F1, F2, F4, F5, F6.
  rewrite F1 in E1. rewrite F2 in E2. rewrite F3 in E5. rewrite F4 in E3. rewrite F5 in E6. unfold Route. rewrite E2, E3, E4, E5, E6.
  destruct (decide (kind = BreachNone)) as [Hk|Hk].
  - rewrite Hk, !bool_decide_eq_false_2 by (intros ?; done). cbn. split; [split; [done|]; intros (_ & ? & _); done|]. split; [done|]. split; [done|].
    intros _. rewrite E1, Hk. rewrite (proj1 (contract_rules_ignore_thresholds s intent t (effective t sup))). fold kind. by rewrite Hk.
  - rewrite (bool_decide_eq_true_2 (kind <> BreachNone)) by done. cbn [negb andb]. split; [|split; [|split]].
    + destruct (bool_decide (classify intent kind = TierC)) eqn:Ec.
      * apply bool_decide_eq_true in Ec. destruct tierCSignals; cbn [negb andb]; [split; [intros _; split; [done|]; split; [done|]; by left|done]|].
        destruct (match intent with Some i => ValidSeverity (in_Severity i) | None => false end) eqn:Ev; cbn [negb andb dl_Signal].
        -- split; [intros _; split; [done|]; split; [done|]; by right|done].
        -- split; [done|]. intros (_ & _ & H1). by destruct (H1 Ec).
      * apply bool_decide_eq_false in Ec. cbn [andb dl_Signal]. split; [intros _; split; [done|]; split; [done|]; intros; done|done].
    + destruct (_ && _ && _); [done|]. intros _. by apply F6.
    + intros Ht. unfold classify in Ht. destruct intent as [i|]; [|done]. exists i. destruct (bool_decide (in_Source i = SourceLearnedBaseline)) eqn:El; [done|].
      apply bool_decide_eq_false in El. destruct (Contract kind) eqn:Eck; [|done]. assert (HardContract (Some i) = true) as Hh by (by eapply contract_needs_bound).
      split; [done|]. split; [done|]. split; [|done]. unfold HardContract, HardPerDomainContract, HardSkewContract, declaredContract in Hh.
      destruct (bool_decide (in_Source i <> SourceClusterDefaultAssumed)) eqn:Ea; [by apply bool_decide_eq_true in Ea|done].
    + intros _. rewrite E1. apply contract_rules_ignore_thresholds.
Qed.

End transient.
