(* ===== verification/DriftScore.v ===== *)
(** Scoring a subject (src/pkg/sources/topologydrift/score.go): what each axis of a resolved
    subject measures and concludes, composed of the eligible set, the apportioned
    expectation, the scores and the verdict; and the two questions an operator asks of it:
    when is a bound of the scheduler reported as broken, and when is an even spread left
    alone. *)
From S2P Require Import Prelude GoTime GoStrings GoFmt GoFloatMath LeewayTopology LeewayIntent LeewayApportion LeewayEligible LeewayScore LeewayScoreSpec.
From stdpp Require Import sorting.
From Stdlib Require Import SpecFloat QArith Qpower Lqa.
Open Scope Z_scope.
Open Scope lookout_scope.

Record Evaluation := mkEvaluation {
  ev_Key : TopologyKey; ev_Intent : option Intent; ev_Eligible : Eligibility; ev_Apportionment : Apportionment;
  ev_Scores : Scores; ev_Suppression : Suppression; ev_Verdict : Verdict
}.

Record Resolution := mkResolution { re_Intents : gmap TopologyKey Intent; re_Eligible : gmap TopologyKey Eligibility }.

(** Nil when the intent declares no ceiling. *)
Definition capsFor (intent : option Intent) (eligible : Eligibility) : option (list Z) :=
  match intent with
  | None => None
  | Some i =>
      if bool_decide (in_MaxPerDomain i = None) && bool_decide (in_DomainCaps i = ∅) then None
      else Some ((fun d => match in_DomainCaps i !! d with
                           | Some c => c
                           | None => default Uncapped (in_MaxPerDomain i)
                           end) <$> el_Domains eligible)
  end.

Section scoring.
Context `{FloatToInt}.

Definition ScoreAxis (key : TopologyKey) (intent : option Intent) (eligible : Eligibility) (dist : option Distribution)
    (t : Thresholds) (sup : Suppression) : Evaluation :=
  let actual := match dist with
                | Some d => Counts d (el_Domains eligible) [StateRunning]
                | None => replicate (length (el_Domains eligible)) 0
                end in
  let '(eligible, actual) := DropEmptyUnknown eligible actual in
  let n := sum_Z actual in
  let maxSkew := match intent with Some i => in_MaxSkew i | None => None end in
  let ap := Apportion n (WeightsFor eligible intent) (capsFor intent eligible) in
  let s := Score (el_Domains eligible) actual ap maxSkew t in
  mkEvaluation key intent eligible ap s sup (JudgeTransient s intent t sup).

(** A nil suppressor is "no transient". *)
Definition ScoreSubject (res : Resolution) (dists : gmap TopologyKey Distribution) (t : Thresholds)
    (sup : option (TopologyKey -> Eligibility -> Suppression)) : list Evaluation :=
  (fun key =>
     let eligible := default (mkEligibility [] [] [] f64_zero WeightAuto [] ∅ [] 0) (re_Eligible res !! key) in
     let s := match sup with Some f => f key eligible | None => no_suppression end in
     ScoreAxis key (re_Intents res !! key) eligible (dists !! key) t s) <$> SortedKeys (re_Eligible res).

End scoring.

(** ** What is measured *)

Lemma bool_decide_ne_self {A} (x : A) `{Decision (x <> x)} : bool_decide (x <> x) = false.
Proof. apply bool_decide_eq_false_2. by intros []. Qed.

Lemma sum_drop_zero i (l : list Z) : l !! i = Some 0 -> sum_Z (base.delete i l) = sum_Z l.
Proof. intros Hi. rewrite <- (take_drop_middle l i 0 Hi) at 2. rewrite delete_take_drop, !sum_Z_app, sum_Z_cons. lia. Qed.

(** The domains and counts that are scored: aligned, and with the same objects. *)
Lemma scored_counts e actual : length actual = length (el_Domains e) -> Forall (Z.le 0) actual ->
  let r := DropEmptyUnknown e actual in
  length r.2 = length (el_Domains r.1) /\ (length (el_Domains r.1) <= length (el_Domains e))%nat /\
  sum_Z r.2 = sum_Z actual /\ Forall (Z.le 0) r.2.
Proof.
  intros Hl H0. unfold DropEmptyUnknown. destruct (list_find _ _) as [[i d]|] eqn:Ef; [|done]. case_bool_decide as Ei; [|done].
  cbn [fst snd]. apply list_find_Some in Ef as (Hd & _). unfold drop_at.
  assert (length (el_Domains (e <| el_Domains ::= base.delete i |>)) = length (base.delete i (el_Domains e))) as E by done.
  pose proof (lookup_lt_Some _ _ _ Hd). pose proof (lookup_lt_Some _ _ _ Ei).
  split; [|split; [|split]].
  - change (length (base.delete i actual) = length (base.delete i (el_Domains e))). rewrite !length_delete by by eexists. lia.
  - change (length (base.delete i (el_Domains e)) <= length (el_Domains e))%nat. rewrite length_delete by by eexists. lia.
  - by apply sum_drop_zero.
  - by apply Forall_delete.
Qed.

Section verdicts.
Context `{FloatToInt}.

(** The counts an axis starts from. *)
Definition running (dist : option Distribution) (domains : list Domain) : list Z :=
  match dist with Some d => Counts d domains [StateRunning] | None => replicate (length domains) 0 end.

Definition sound (dist : option Distribution) : Prop := match dist with Some d => dist_ok d | None => True end.

Lemma running_ok dist domains : sound dist -> length (running dist domains) = length domains /\ Forall (Z.le 0) (running dist domains).
Proof.
  destruct dist as [d|]; intros Hd; [|by split; [apply length_replicate|apply Forall_replicate]]. cbn [running]. unfold Counts. split; [apply length_fmap|].
  apply Forall_fmap, list.Forall_forall. intros dom _. cbn. destruct (ByDomain d !! dom) as [c|] eqn:E; [|done]. destruct (Hd _ _ E) as [(Hr & _) _]. cbn. lia.
Qed.

(** An axis apportioned evenly: the expectation is the even one. *)
Lemma even_expectation n (e : Eligibility) : 0 < n <= 2 ^ 31 -> el_Domains e <> [] -> Z.of_nat (length (el_Domains e)) <= 2 ^ 16 ->
  ap_Expected (Apportion n (EqualWeights (length (el_Domains e))) None) = even n (length (el_Domains e)).
Proof. intros Hn Hne Hm. apply apportion_equal; [done| |done]. destruct (el_Domains e); [done|cbn; lia]. Qed.

(** The parts of an evaluation. *)
Lemma ScoreAxis_parts key intent eligible dist t sup : sound dist ->
  let ev := ScoreAxis key intent eligible dist t sup in
  let e := ev_Eligible ev in
  exists actual, length actual = length (el_Domains e) /\ Forall (Z.le 0) actual /\ (length (el_Domains e) <= length (el_Domains eligible))%nat /\
    sum_Z actual = sum_Z (running dist (el_Domains eligible)) /\
    ev_Scores ev = Score (el_Domains e) actual (Apportion (sum_Z actual) (WeightsFor e intent) (capsFor intent e))
                     match intent with Some i => in_MaxSkew i | None => None end t /\
    ev_Verdict ev = JudgeTransient (ev_Scores ev) intent t sup.
Proof.
  intros Hd. destruct (running_ok dist (el_Domains eligible) Hd) as [Hl H0]. cbn zeta. unfold ScoreAxis.
  change (match dist with Some d => Counts d (el_Domains eligible) [StateRunning] | None => replicate (length (el_Domains eligible)) 0 end) with (running dist (el_Domains eligible)).
  destruct (scored_counts eligible _ Hl H0) as (L & Le & S & N). destruct (DropEmptyUnknown eligible _) as [e actual]. cbn [fst snd] in *.
  cbn [ev_Eligible ev_Scores ev_Verdict]. exists actual. repeat split; try done.
Qed.

Lemma Score_gated domains actual ap k t : domains = [] \/ sum_Z actual = 0 ->
  let s := Score domains actual ap k t in sc_Actual s = actual /\ sc_Evaluable s = false.
Proof.
  intros Hg. unfold Score. destruct domains as [|d ds]; [done|]. destruct Hg as [|Hg]; [done|]. cbn [length Nat.eqb]. by rewrite Hg.
Qed.

Lemma not_evaluable s intent t : sc_Evaluable s = false -> (breach s intent t).1 = BreachNone.
Proof. intros E. unfold breach. rewrite E. by destruct (match intent with Some i => _ | None => _ end). Qed.

(** ** The scheduler's bound *)

(** An axis with an enforced skew bound and no other shaping. *)
Record plain_contract (i : Intent) (k : Z) : Prop := {
  pc_hard : HardSkewContract (Some i) = true;
  pc_skew : in_MaxSkew i = Some k;
  pc_positive : 1 <= k;
  pc_mode : in_Mode i <> ModeIgnore;
  pc_ceiling : in_MaxPerDomain i = None;
  pc_caps : in_DomainCaps i = ∅;
  pc_shares : in_ExplicitShares i = ∅;
  pc_weighting : in_Weighting i = WeightAuto
}.

Lemma plain_weights i k e : plain_contract i k -> WeightsFor e (Some i) = EqualWeights (length (el_Domains e)) /\ capsFor (Some i) e = None.
Proof.
  intros [_ Hk _ _ Hc Hd Hs Hw]. unfold WeightsFor, EffectiveWeighting, capsFor. rewrite Hk, Hc, Hd, Hs, Hw.
  rewrite !bool_decide_ne_self, !bool_decide_eq_true_2 by done. done.
Qed.

(** C22: a declared bound is reported as the scheduler would judge it. For a subject with a
    DoNotSchedule constraint of maximum skew [k] on an axis, and no ceiling, caps, shares or
    weighting of its own: the axis is breached exactly when enough replicas run and the
    fullest domain holds more than [k] over the emptiest, over the scored domains; then the
    rule is the skew rule and the finding tier A (C if the intent is only the subject's own
    history). No transient that relaxes changes it: drift thresholds play no part. *)
Theorem declared_skew_decides key i k eligible dist t sup :
  plain_contract i k -> sound dist -> su_Suppress sup = false ->
  Z.of_nat (length (el_Domains eligible)) <= 2 ^ 16 -> sum_Z (running dist (el_Domains eligible)) <= 2 ^ 31 ->
  let ev := ScoreAxis key (Some i) eligible dist t sup in
  let counts := sc_Actual (ev_Scores ev) in
  (ve_Breached (ev_Verdict ev) = true <->
     0 < sum_Z counts /\ th_MinReplicasForScoring t <= sum_Z counts /\ k < greatest counts - least counts) /\
  (ve_Breached (ev_Verdict ev) = true ->
     ve_Kind (ev_Verdict ev) = BreachMaxSkew /\
     ve_Tier (ev_Verdict ev) = if bool_decide (in_Source i = SourceLearnedBaseline) then TierC else TierA).
Proof.
  intros Hp Hd Hs Hm Hn. cbn zeta. destruct (ScoreAxis_parts key (Some i) eligible dist t sup Hd) as (actual & Hl & H0 & Hle & Hsum & Esc & Ev).
  set (ev := ScoreAxis key (Some i) eligible dist t sup) in *. set (e := ev_Eligible ev) in *. set (s := ev_Scores ev) in *.
  destruct (plain_weights i k e Hp) as [Ew Ec]. rewrite Ew, Ec, (pc_skew _ _ Hp) in Esc. pose proof (sum_Z_nonneg _ H0) as Hnn.
  destruct (JudgeTransient_fields s (Some i) t sup Hs) as (E1 & E2 & E3 & _). destruct (Judge_fields s (Some i) (effective t sup)) as (F1 & F2 & _ & F4 & _).
  rewrite Ev, E1, E2, E3, F1, F2, F4. clear E1 E2 E3 F1 F2 F4.
  destruct (decide (el_Domains e = [] \/ sum_Z actual = 0)) as [Hg|Hg].
  { destruct (Score_gated (el_Domains e) actual (Apportion (sum_Z actual) (EqualWeights (length (el_Domains e))) None) (Some k) t Hg) as [Ea Ee].
    rewrite <- Esc in Ea, Ee. rewrite (not_evaluable s (Some i) (effective t sup) Ee), Ea. cbn. split; [|done]. split; [done|]. intros (Hpos & _).
    destruct Hg as [Hg|Hg]; [rewrite Hg in Hl; destruct actual; [cbn in Hpos; lia|done]|lia]. }
  assert (el_Domains e <> [] /\ sum_Z actual <> 0) as [Hne Hn0] by tauto.
  set (ap := Apportion (sum_Z actual) (EqualWeights (length (el_Domains e))) None) in *.
  assert (ap_Expected ap = even (sum_Z actual) (length (el_Domains e))) as Eap by (apply even_expectation; [lia|done|lia]).
  assert (0 < length (el_Domains e))%nat as Hm0 by (destruct (el_Domains e); [done|cbn; lia]).
  destruct (Score_fields (el_Domains e) actual ap (Some k) t Hne Hn0) as (Ea & _ & _ & Eev & Hx).
  destruct (Hx ltac:(rewrite Eap; by apply even_length)) as (Exc & _). rewrite Eap in Exc. pose proof (even_skew (sum_Z actual) (length (el_Domains e)) Hm0) as Hsk.
  specialize (Exc ltac:(lia)). change (default 0 (Some k)) with k in Exc. rewrite <- Esc in Ea, Eev, Exc. rewrite Ea. pose proof (pc_positive _ _ Hp) as Hk1.
  set (sk := greatest (even _ _) - least (even _ _)) in *. rewrite (Z.max_r sk k) in Exc by lia.
  assert ((breach s (Some i) (effective t sup)).1 = if (th_MinReplicasForScoring t <=? sum_Z actual) && (k <? greatest actual - least actual) then BreachMaxSkew else BreachNone) as Eb.
  { unfold breach. rewrite bool_decide_eq_false_2 by apply Hp. rewrite Eev. destruct (th_MinReplicasForScoring t <=? sum_Z actual); [|done]. cbn [negb andb].
    unfold HardPerDomainContract. rewrite (pc_ceiling _ _ Hp), (bool_decide_eq_false_2 (None <> None)), andb_false_r, (pc_hard _ _ Hp) by (intros ?; done). cbn [andb].
    destruct (Z.ltb_spec k (greatest actual - least actual)); rewrite Exc; [rewrite (proj2 (Z.ltb_lt _ _)) by lia|rewrite (proj2 (Z.ltb_ge _ _)) by lia]; done. }
  rewrite Eb. destruct (Z.leb_spec (th_MinReplicasForScoring t) (sum_Z actual)), (Z.ltb_spec k (greatest actual - least actual)); cbn [andb].
  - rewrite bool_decide_eq_true_2 by done. split; [split; [lia|done]|]. intros _. split; [done|]. unfold classify. by destruct (bool_decide _).
  - rewrite bool_decide_eq_false_2 by (intros ?; done). split; [split; [done|lia]|done].
  - rewrite bool_decide_eq_false_2 by (intros ?; done). split; [split; [done|lia]|done].
  - rewrite bool_decide_eq_false_2 by (intros ?; done). split; [split; [done|lia]|done].
Qed.

(** ** An even spread *)

(** An axis judged by drift alone: nothing but a preference to spread, or nothing at all. *)
Definition spread_only (intent : option Intent) : Prop :=
  match intent with
  | None => True
  | Some i => in_Mode i = ModeSpread /\ HardSkewContract (Some i) = false /\ in_MaxPerDomain i = None /\
              in_DomainCaps i = ∅ /\ in_ExplicitShares i = ∅ /\ in_Bands i = ∅
  end.

Lemma spread_only_shape intent e : spread_only intent -> EffectiveWeighting e intent = WeightEqual ->
  WeightsFor e intent = EqualWeights (length (el_Domains e)) /\ capsFor intent e = None.
Proof.
  destruct intent as [i|]; cbn [spread_only]; unfold WeightsFor; [|by intros _ ->]. intros (_ & _ & Hc & Hd & Hs & _) Ew. unfold capsFor. rewrite Hc, Hd, Hs.
  rewrite bool_decide_ne_self, !bool_decide_eq_true_2 by done. by rewrite Ew.
Qed.

Lemma spread_only_rule s intent t : spread_only intent -> sc_Evaluable s = true -> breach s intent t = breachDrift s t.
Proof.
  intros Hs He. unfold breach. rewrite He. destruct intent as [i|]; [|done]. destruct Hs as (Hm & Hh & Hc & _ & _ & Hb). unfold HardPerDomainContract.
  rewrite Hm, Hh, Hc, Hb, !bool_decide_ne_self. by rewrite andb_false_r.
Qed.

(** C23: an even spread is left alone. Over up to three equally weighted domains, with nothing but
    a preference to spread, a subject whose domains differ by at most one object is never
    reported at the default thresholds, however its odd objects fall: the integer
    expectation differs from it by at most one object, which small subjects are excused
    and large ones do not notice. *)
Theorem even_spread_is_no_drift key intent eligible dist sup :
  spread_only intent -> sound dist -> su_Relax sup = false -> sum_Z (running dist (el_Domains eligible)) <= 2 ^ 31 ->
  let ev := ScoreAxis key intent eligible dist DefaultThresholds sup in
  let counts := sc_Actual (ev_Scores ev) in
  EffectiveWeighting (ev_Eligible ev) intent = WeightEqual -> (length (el_Domains (ev_Eligible ev)) <= 3)%nat ->
  greatest counts - least counts <= 1 -> ve_Breached (ev_Verdict ev) = false.
Proof.
  intros Hp Hd Hr Hn. cbn zeta. destruct (ScoreAxis_parts key intent eligible dist DefaultThresholds sup Hd) as (actual & Hl & H0 & Hle & Hsum & Esc & Ev).
  set (ev := ScoreAxis key intent eligible dist DefaultThresholds sup) in *. set (e := ev_Eligible ev) in *. set (s := ev_Scores ev) in *. intros Hw Hm Hskew.
  destruct (spread_only_shape intent e Hp Hw) as [Ew Ec]. rewrite Ew, Ec in Esc. pose proof (sum_Z_nonneg _ H0) as Hnn. rewrite Ev.
  destruct (su_Suppress sup) eqn:Hs; [unfold JudgeTransient; by rewrite Hs|].
  destruct (JudgeTransient_fields s intent DefaultThresholds sup Hs) as (_ & -> & _). destruct (Judge_fields s intent (effective DefaultThresholds sup)) as (_ & -> & _).
  unfold effective. rewrite Hr. apply bool_decide_eq_false_2. intros Hb. apply Hb. clear Hb.
  destruct (sc_Evaluable s) eqn:Ee; [|by apply not_evaluable]. rewrite spread_only_rule by done.
  destruct (decide (el_Domains e = [] \/ sum_Z actual = 0)) as [Hg|Hg].
  { rewrite Esc in Ee. destruct (Score_gated (el_Domains e) actual (Apportion (sum_Z actual) (EqualWeights (length (el_Domains e))) None) (match intent with Some i => in_MaxSkew i | None => None end) DefaultThresholds Hg) as [_ Ee'].
    by rewrite Ee' in Ee. }
  assert (el_Domains e <> [] /\ sum_Z actual <> 0) as [Hne Hn0] by tauto. set (m := length (el_Domains e)) in *.
  assert (0 < m)%nat as Hm0 by (unfold m; destruct (el_Domains e); [done|cbn; lia]).
  set (ap := Apportion (sum_Z actual) (EqualWeights m) None) in *.
  assert (ap_Expected ap = even (sum_Z actual) m) as Eap by (apply even_expectation; [lia|done|unfold m in *; lia]).
  destruct (Score_fields (el_Domains e) actual ap (match intent with Some i => in_MaxSkew i | None => None end) DefaultThresholds Hne Hn0) as (Ea & Et & _ & _ & Hx).
  destruct (Hx ltac:(rewrite Eap; by apply even_length)) as (_ & Erel & Edr). rewrite <- Esc in Ea, Et, Erel, Edr. rewrite Ea in Hskew.
  assert (0 <= surplus actual (ap_Expected ap) <= 1) as Hsur.
  { assert (actual <> []) as Hane by (intros ->; by destruct Hn0). destruct (even_counts actual _ Hane Hskew eq_refl) as [Hb Hs2].
    rewrite Eap. unfold even. rewrite <- Hl in *. pose proof (Z.mod_pos_bound (sum_Z actual) (Z.of_nat (length actual)) ltac:(lia)) as Hmod.
    pose proof (surplus_bound actual (sum_Z actual / Z.of_nat (length actual)) (Z.to_nat (sum_Z actual mod Z.of_nat (length actual))) Hb ltac:(lia) ltac:(lia)). lia. }
  unfold breachDrift. rewrite Edr. change (th_Drift DefaultThresholds) with f64_0_20. destruct (f64_le _ f64_0_20) eqn:Efl; [done|].
  unfold small_n. rewrite Et, Erel. change (th_SmallNThreshold DefaultThresholds) with 10. change (th_MinRelocationSmallN DefaultThresholds) with 2.
  destruct (Z.ltb_spec (sum_Z actual) 10).
  - by rewrite (proj2 (Z.ltb_lt _ _)) by lia.
  - rewrite drift_of_one in Efl by lia. done.
Qed.

End verdicts.

(** ** Concrete subjects *)

Module Shops.

Definition zones (names : list Domain) : Eligibility :=
  mkEligibility names (replicate (length names) (f64_of_Z 4000)) (replicate (length names) (f64_of_Z 8192)) f64_zero WeightAuto
    (replicate (length names) 1) ∅ [] 0.

Definition pods (l : list (Domain * nat)) : Distribution :=
  dist_of (l ≫= fun '(d, n) => replicate n (d, StateRunning, false)).

Definition constraint (skew : Z) (action : string) : Intent :=
  zero_intent <| in_TopologyKey := "zone" |> <| in_Source := SourceTopologySpreadConstraint |> <| in_MaxSkew := Some skew |> <| in_WhenUnsatisfiable := action |>.

Definition three : Eligibility := zones ["a"; "b"; "c"].
Definition four : Eligibility := zones ["a"; "b"; "c"; "f"].

Definition lopsided : Distribution := pods [("a", 4%nat); ("b", 1%nat); ("c", 1%nat)].

Lemma declared_skew_decides_witness :
  let ev := ScoreAxis "zone" (Some (constraint 1 DoNotSchedule)) three (Some lopsided) DefaultThresholds no_suppression in
  ve_Breached (ev_Verdict ev) = true /\ ve_Tier (ev_Verdict ev) = TierA.
Proof.
  destruct (declared_skew_decides "zone" (constraint 1 DoNotSchedule) 1 three (Some lopsided) DefaultThresholds no_suppression) as [H1 H2].
  - by constructor.
  - apply dist_of_ok.
  - done.
  - by vm_compute.
  - by vm_compute.
  - assert (ve_Breached (ev_Verdict (ScoreAxis "zone" (Some (constraint 1 DoNotSchedule)) three (Some lopsided) DefaultThresholds no_suppression)) = true) as Hb
      by (apply H1; by vm_compute).
    split; [exact Hb|]. destruct (H2 Hb) as [_ Ht]. exact Ht.
Defined.

Definition odd : Distribution := pods [("a", 2%nat); ("b", 2%nat); ("c", 3%nat)].

Lemma even_spread_is_no_drift_witness :
  let ev := ScoreAxis "zone" None three (Some odd) DefaultThresholds no_suppression in
  sc_Actual (ev_Scores ev) = [2; 2; 3] /\ sc_Expected (ev_Scores ev) = [3; 2; 2] /\ ve_Breached (ev_Verdict ev) = false.
Proof.
  split; [by vm_compute|]. split; [by vm_compute|].
  apply (even_spread_is_no_drift "zone" None three (Some odd) no_suppression); [done|apply dist_of_ok|done|by vm_compute..|vm_compute; lia|by vm_compute].
Defined.

(** Six pods over four zones, as even as they can be, are reported as drift: the odd pods
    are in the last zones and the expectation puts them in the first. The constraint only
    prefers a skew of one, and the placement has it. *)
Definition even_over_four : Distribution := pods [("a", 1%nat); ("b", 1%nat); ("c", 2%nat); ("f", 2%nat)].

Lemma even_spread_over_four_drifts :
  let ev := ScoreAxis "zone" (Some (constraint 1 ScheduleAnyway)) four (Some even_over_four) DefaultThresholds no_suppression in
  sc_Actual (ev_Scores ev) = [1; 1; 2; 2] /\ sc_Expected (ev_Scores ev) = [2; 2; 1; 1] /\ sc_ExcessSkew (ev_Scores ev) = 0 /\
  ve_Kind (ev_Verdict ev) = BreachDrift /\ dl_Signal (Route (ev_Verdict ev) false) = true.
Proof. vm_compute. done. Qed.

End Shops.
