(* ===== verification/DriftPolicy.v ===== *)
(** Declared intent (src/pkg/leeway/parse.go, src/pkg/sources/topologydrift: policy.go,
    policystore.go): the vocabulary read back from a document, the validation of a policy
    document, the store of policies and the policy that governs a subject.

    Label selectors are k8s.io/apimachinery's: the class [SelectorLib], of which nothing is
    assumed. A document is taken decoded into [policyObject], and the store one call at a
    time. *)
From S2P Require Import Prelude GoTime GoStrings GoFloatMath LeewayTopology LeewayIntent LeewayScore.
From stdpp Require Import sorting.
From Stdlib Require Import SpecFloat Ascii.
Open Scope Z_scope.
Open Scope lookout_scope.

Record LabelSelectorRequirement := mkSelectorRequirement { lr_Key : string; lr_Operator : string; lr_Values : list string }.

Record LabelSelector := mkLabelSelector { ls_MatchLabels : gmap string string; ls_MatchExpressions : list LabelSelectorRequirement }.

Class SelectorLib := {
  Selector : Type;
  LabelSelectorAsSelector : LabelSelector -> option Selector;
  Everything : Selector;
  Matches : Selector -> gmap string string -> bool;
  Selector_Empty : Selector -> bool;
  Selector_String : Selector -> string
}.

(** ** The vocabulary *)

Definition IntentMode_String (m : IntentMode) : string :=
  match m with ModeSpread => "Spread" | ModeColocate => "Colocate" | ModeIgnore => "Ignore" end.

Definition Weighting_String (w : Weighting) : string :=
  match w with
  | WeightAuto => "Auto" | WeightEqual => "Equal" | WeightNodeCount => "NodeCount"
  | WeightAllocatableCPU => "AllocatableCPU" | WeightAllocatableMemory => "AllocatableMemory"
  end.

Definition IntentModes : list IntentMode := [ModeSpread; ModeColocate; ModeIgnore].
Definition Weightings : list Weighting := [WeightAuto; WeightEqual; WeightNodeCount; WeightAllocatableCPU; WeightAllocatableMemory].
Definition IntentSources : list IntentSource :=
  [SourcePolicyCRD; SourceWorkloadAnnotation; SourceTopologySpreadConstraint; SourcePodAntiAffinityRequired; SourcePodAffinityRequired;
   SourceClusterDefaultDeclared; SourcePodAntiAffinityPreferred; SourcePodAffinityPreferred; SourceLearnedBaseline; SourceClusterDefaultAssumed].

Section vocabulary.
Context `{UnicodeCase}.

Definition fold_name (s : string) : string := ReplaceAll (ReplaceAll (ToLower (TrimSpace s)) "-" "") "_" "".

(** The first value whose name folds to the same spelling. *)
Definition parse_name {A} (name : A -> string) (values : list A) (s : string) : option A :=
  List.find (fun v => fold_name (name v) ==s fold_name s) values.

Definition ParseIntentMode : string -> option IntentMode := parse_name IntentMode_String IntentModes.
Definition ParseWeighting : string -> option Weighting := parse_name Weighting_String Weightings.
Definition ParseIntentSource : string -> option IntentSource := parse_name IntentSource_String IntentSources.

End vocabulary.

Definition ascii_upper (c : Ascii.ascii) : Ascii.ascii :=
  let n := Ascii.nat_of_ascii c in
  if (Nat.leb 97 n && Nat.leb n 122)%bool then byte_of (n - 32) else c.

Definition api_part (p : string) : string :=
  match p with
  | EmptyString => p
  | String c r => if p ==s "crd" then "CRD" else String (ascii_upper c) r
  end.

Definition APIName (s : IntentSource) : string := String.concat "" (api_part <$> SplitByte "-"%char (IntentSource_String s)).

(** ** Policies *)

Record PolicyKey := mkPolicyKey {
  pk_Key : TopologyKey; pk_Mode : IntentMode; pk_Weighting : Weighting; pk_ExpectedDistribution : gmap Domain float64; pk_Severity : string
}.

(** [ic_Sources] is none for an allowlist that was not written. *)
Record InferenceConfig := mkInference { ic_Enabled : bool; ic_Sources : option (gset nat) }.

Definition Allows (c : InferenceConfig) (s : IntentSource) : bool :=
  if negb (ic_Enabled c) then false
  else match ic_Sources c with None => true | Some srcs => bool_decide (source_value s ∈ srcs) end.

Definition filterBySources (candidates : list Intent) (cfg : InferenceConfig) : list Intent :=
  List.filter (fun c => bool_decide (in_Source c = SourcePolicyCRD) || Allows cfg (in_Source c)) candidates.

Definition PolicyKind : string := "LeewayPolicy".
Definition ClusterPolicyKind : string := "ClusterLeewayPolicy".

Section policies.
Context `{SelectorLib}.

Record Policy := mkPolicy {
  pc_Name : string; pc_Namespace : string; pc_Selector : Selector; pc_SubjectKinds : list SubjectKind;
  pc_Keys : gmap TopologyKey PolicyKey; pc_Inference : InferenceConfig
}.

Definition policy_ref (ns name : string) : string :=
  if ns ==s "" then ClusterPolicyKind +:+ "/" +:+ name else PolicyKind +:+ "/" +:+ ns +:+ "/" +:+ name.

Definition ref (p : Policy) : string := policy_ref (pc_Namespace p) (pc_Name p).

Definition ClusterScoped (p : Policy) : bool := pc_Namespace p ==s "".

Definition Policy_Matches (p : Policy) (sub : SubjectRef) (podLabels : gmap string string) : bool :=
  if (pc_Namespace p <>s "") && (pc_Namespace p <>s sr_Namespace sub) then false
  else match pc_SubjectKinds p with
       | [] => Matches (pc_Selector p) podLabels
       | ks => if bool_decide (sr_Kind sub ∈ ks) then Matches (pc_Selector p) podLabels else false
       end.

Definition policyIntent (p : Policy) (pk : PolicyKey) : Intent :=
  let i := zero_intent <| in_TopologyKey := pk_Key pk |> <| in_Mode := pk_Mode pk |> <| in_Source := SourcePolicyCRD |> <| in_Confidence := ConfidenceDeclared |>
    <| in_Weighting := pk_Weighting pk |> <| in_ExplicitShares := pk_ExpectedDistribution pk |> <| in_Severity := pk_Severity pk |> in
  let detail := ref p +:+ " declares " +:+ IntentMode_String (pk_Mode pk) +:+ " on " +:+ pk_Key pk in
  let detail := if pk_Severity pk <>s "" then detail +:+ " with severity " +:+ pk_Severity pk else detail in
  i <| in_Evidence := [mkEvidence SourcePolicyCRD detail false] |>.

Definition Intents (p : Policy) : list Intent := omap (fun k => policyIntent p <$> pc_Keys p !! k) (SortedKeys (pc_Keys p)).

(** ** Documents *)

Record policyTopologyKey := mkDocKey {
  dk_Key : string; dk_Mode : string; dk_Weighting : string; dk_ExpectedDistribution : gmap string Z; dk_Severity : option string
}.

Record policyInference := mkDocInference { di_Enabled : option bool; di_Sources : option (list string) }.

Record policyObject := mkDoc {
  do_Name : string; do_Namespace : string; do_Selector : option LabelSelector; do_SubjectKinds : list string;
  do_TopologyKeys : list policyTopologyKey; do_Inference : option policyInference
}.

Inductive keyError :=
  | EmptyKey | UnknownMode (mode : string) | UnknownWeighting (w : string) | EmptyDomain | NegativeShare | ZeroShares
  | DistributionOnIgnore | UnknownSeverity (s : string) | SeverityOnIgnore.

Inductive policyError :=
  | NoNamespace | BadSelector | EmptySubjectKind | BadKey (i : nat) (e : keyError) | DuplicateKey (k : string) | UnknownSource (s : string).

Context `{UnicodeCase}.

(** The named value, the default when nothing is named, or the error. *)
Definition named {A E} (parse : string -> option A) (dflt : A) (err : string -> E) (s : string) : E + A :=
  if s ==s "" then inr dflt else match parse s with Some v => inr v | None => inl (err s) end.

(** Which bad entry of several is reported depends on the map's order: here an empty domain
    comes first, and the entry is left out of the error. *)
Definition decodeShares (shares : gmap string Z) : keyError + gmap Domain float64 :=
  if bool_decide (shares !! "" <> None) then inl EmptyDomain
  else if existsb (fun '(_, share) => share <? 0) (map_to_list shares) then inl NegativeShare
  else
    let out := f64_of_Z <$> shares in
    if bool_decide (out <> ∅) && f64_eqb (fold_left (fun sum '(_, v) => f64_add sum v) (map_to_list out) f64_zero) f64_zero then inl ZeroShares
    else inr out.

Definition decodePolicyKey (k : policyTopologyKey) : keyError + PolicyKey :=
  if dk_Key k ==s "" then inl EmptyKey else
  match named ParseIntentMode ModeSpread UnknownMode (dk_Mode k) with
  | inl e => inl e
  | inr mode =>
      match named ParseWeighting WeightEqual UnknownWeighting (dk_Weighting k) with
      | inl e => inl e
      | inr w =>
          match decodeShares (dk_ExpectedDistribution k) with
          | inl e => inl e
          | inr shares =>
              if bool_decide (mode = ModeIgnore) && bool_decide (shares <> ∅) then inl DistributionOnIgnore else
              match dk_Severity k with
              | Some sev =>
                  if sev ==s "" then inr (mkPolicyKey (dk_Key k) mode w shares "")
                  else if negb (ValidSeverity sev) then inl (UnknownSeverity sev)
                  else if bool_decide (mode = ModeIgnore) then inl SeverityOnIgnore
                  else inr (mkPolicyKey (dk_Key k) mode w shares sev)
              | None => inr (mkPolicyKey (dk_Key k) mode w shares "")
              end
          end
      end
  end.

Fixpoint decodeKeys (i : nat) (ks : list policyTopologyKey) (keys : gmap TopologyKey PolicyKey) : policyError + gmap TopologyKey PolicyKey :=
  match ks with
  | [] => inr keys
  | k :: ks =>
      match decodePolicyKey k with
      | inl e => inl (BadKey i e)
      | inr key =>
          if bool_decide (keys !! pk_Key key <> None) then inl (DuplicateKey (pk_Key key))
          else decodeKeys (S i) ks (<[pk_Key key := key]> keys)
      end
  end.

Fixpoint decodeSources (names : list string) (srcs : gset nat) : policyError + gset nat :=
  match names with
  | [] => inr srcs
  | name :: names =>
      match ParseIntentSource name with
      | Some src => decodeSources names ({[source_value src]} ∪ srcs)
      | None => inl (UnknownSource name)
      end
  end.

Definition decodeInference (inf : option policyInference) : policyError + InferenceConfig :=
  match inf with
  | None => inr (mkInference true None)
  | Some inf =>
      let enabled := default true (di_Enabled inf) in
      match di_Sources inf with
      | None => inr (mkInference enabled None)
      | Some names => match decodeSources names ∅ with inl e => inl e | inr srcs => inr (mkInference enabled (Some srcs)) end
      end
  end.

Definition DecodePolicy (obj : policyObject) (clusterScoped : bool) : policyError + Policy :=
  if negb clusterScoped && (do_Namespace obj ==s "") then inl NoNamespace else
  let ns := if clusterScoped then "" else do_Namespace obj in
  match (match do_Selector obj with None => Some Everything | Some ls => LabelSelectorAsSelector ls end) with
  | None => inl BadSelector
  | Some sel =>
      if bool_decide ("" ∈ do_SubjectKinds obj) then inl EmptySubjectKind else
      match decodeKeys 0 (do_TopologyKeys obj) ∅ with
      | inl e => inl e
      | inr keys =>
          match decodeInference (do_Inference obj) with
          | inl e => inl e
          | inr inf => inr (mkPolicy (do_Name obj) ns sel (do_SubjectKinds obj) keys inf)
          end
      end
  end.

(** ** The store *)

Definition PolicyStore : Type := gmap string Policy.

Definition NewPolicyStore : PolicyStore := ∅.
Definition Upsert (p : Policy) (s : PolicyStore) : PolicyStore := <[ref p := p]> s.
Definition Delete (ns name : string) (s : PolicyStore) : PolicyStore := base.delete (policy_ref ns name) s.

Record PolicyMatch := mkMatch { pm_Policy : option Policy; pm_Ambiguous : bool; pm_Competing : list string }.

Definition name_le (p q : Policy) : Prop := string_le (pc_Name p) (pc_Name q).

#[global] Instance name_le_dec : RelDecision name_le.
Proof. intros p q. unfold name_le. apply _. Defined.

#[global] Instance name_le_trans : Transitive name_le.
Proof. intros p q r. unfold name_le. apply transitivity. Qed.

#[global] Instance name_le_total : Total name_le.
Proof. intros p q. unfold name_le. apply total, _. Qed.

Definition matching (s : PolicyStore) (sub : SubjectRef) (podLabels : gmap string string) : list Policy :=
  List.filter (fun p => Policy_Matches p sub podLabels) (snd <$> map_to_list s).

Definition For (s : PolicyStore) (sub : SubjectRef) (podLabels : gmap string string) : PolicyMatch :=
  let matched := matching s sub podLabels in
  let namespaced := List.filter (fun p => negb (ClusterScoped p)) matched in
  let clusterScoped := List.filter ClusterScoped matched in
  match merge_sort name_le (match namespaced with [] => clusterScoped | winners => winners end) with
  | [] => mkMatch None false []
  | [p] => mkMatch (Some p) false []
  | (p :: _) as winners => mkMatch (Some p) true (ref <$> winners)
  end.

(** ** What the informers deliver *)

Inductive policyEvent := PolicyApplied (obj : policyObject) (clusterScoped : bool) | PolicyDeleted (namespace name : string).

Definition onPolicy (obj : policyObject) (clusterScoped : bool) (s : PolicyStore) : PolicyStore :=
  match DecodePolicy obj clusterScoped with inl _ => s | inr p => Upsert p s end.

Definition policy_step (s : PolicyStore) (e : policyEvent) : PolicyStore :=
  match e with PolicyApplied obj cs => onPolicy obj cs s | PolicyDeleted ns name => Delete ns name s end.

Definition policies_after (events : list policyEvent) : PolicyStore := fold_left policy_step events NewPolicyStore.

(** What an event says about the identity [r]: a document it applies, or its removal. *)
Definition says (r : string) (e : policyEvent) : option (option Policy) :=
  match e with
  | PolicyApplied obj cs => match DecodePolicy obj cs with inr p => if ref p ==s r then Some (Some p) else None | inl _ => None end
  | PolicyDeleted ns name => if policy_ref ns name ==s r then Some None else None
  end.

(** [p] is in force: the last event about its identity that says anything applied it. *)
Definition in_force (events : list policyEvent) (p : Policy) : Prop :=
  exists pre e post, events = pre ++ e :: post /\ says (ref p) e = Some (Some p) /\ Forall (fun e => says (ref p) e = None) post.

Lemma step_says s e r : policy_step s e !! r = match says r e with Some o => o | None => s !! r end.
Proof.
  destruct e as [obj cs|ns name]; cbn [policy_step says].
  - unfold onPolicy. destruct (DecodePolicy obj cs) as [|p]; [done|]. unfold Upsert. case_bool_decide as E.
    + rewrite E. apply lookup_insert_eq.
    + by apply lookup_insert_ne.
  - unfold Delete. case_bool_decide as E.
    + rewrite E. apply lookup_delete_eq.
    + by apply lookup_delete_ne.
Qed.

Lemma says_ref r e p : says r e = Some (Some p) -> ref p = r.
Proof. destruct e as [obj cs|ns name]; cbn; [|by case_bool_decide]. destruct (DecodePolicy obj cs); [done|]. case_bool_decide; congruence. Qed.

Lemma after_stored events r p : policies_after events !! r = Some p <-> ref p = r /\ in_force events p.
Proof.
  unfold policies_after. induction events as [|e events IH] using rev_ind.
  { split; [intros [=]|]. intros (_ & pre & e & post & E & _). by destruct pre. }
  rewrite fold_left_app. cbn [fold_left]. rewrite step_says. destruct (says r e) as [o|] eqn:Es.
  - split.
    + intros ->. pose proof (says_ref _ _ _ Es) as <-. split; [done|]. exists events, e, []. done.
    + intros (<- & pre & e' & post & E & Hs & Hpost). induction post as [|x post _] using rev_ind.
      * apply app_inj_tail in E as [_ ->]. congruence.
      * rewrite app_comm_cons, app_assoc in E. apply app_inj_tail in E as [_ ->]. apply Forall_app in Hpost as [_ Hx]. inversion Hx. congruence.
  - rewrite IH. split; intros (<- & pre & e' & post & E & Hs & Hpost); (split; [done|]).
    + exists pre, e', (post ++ [e]). rewrite E, <- app_assoc. split; [done|]. split; [done|]. apply Forall_app. split; [done|]. by constructor.
    + induction post as [|x post _] using rev_ind.
      * apply app_inj_tail in E as [_ ->]. congruence.
      * rewrite app_comm_cons, app_assoc in E. apply app_inj_tail in E as [-> _]. apply Forall_app in Hpost as [Hpost _]. by exists pre, e', post.
Qed.

(** ** What a decoded policy is *)

#[local] Instance float_eq_dec : EqDecision float64.
Proof. solve_decision. Defined.

Record key_ok (pk : PolicyKey) : Prop := {
  key_named : pk_Key pk <> "";
  key_severity : pk_Severity pk = "" \/ ValidSeverity (pk_Severity pk) = true;
  key_ignore : pk_Mode pk = ModeIgnore -> pk_ExpectedDistribution pk = ∅ /\ pk_Severity pk = "";
  key_shares : forall d v, pk_ExpectedDistribution pk !! d = Some v -> d <> "" /\ exists share, 0 <= share /\ v = f64_of_Z share;
  key_asks : pk_ExpectedDistribution pk <> ∅ -> exists d v, pk_ExpectedDistribution pk !! d = Some v /\ v <> f64_zero
}.

Record policy_ok (p : Policy) : Prop := {
  policy_keys : forall k pk, pc_Keys p !! k = Some pk -> pk_Key pk = k /\ key_ok pk;
  policy_kinds : "" ∉ pc_SubjectKinds p
}.

Lemma zero_sum (l : list (Domain * float64)) : Forall (fun x => x.2 = f64_zero) l -> fold_left (fun sum '(_, v) => f64_add sum v) l f64_zero = f64_zero.
Proof. induction 1 as [|[d v] l Hv _ IH]; cbn in *; [done|]. subst v. exact IH. Qed.

Lemma decodeShares_ok shares out : decodeShares shares = inr out ->
  (forall d v, out !! d = Some v -> d <> "" /\ exists share, 0 <= share /\ v = f64_of_Z share) /\
  (out <> ∅ -> exists d v, out !! d = Some v /\ v <> f64_zero).
Proof.
  unfold decodeShares. case_bool_decide as Hd; [done|]. destruct (existsb _ _) eqn:Hneg; [done|]. destruct (_ && _) eqn:Hz; intros [= <-]. split.
  - intros d v. rewrite lookup_fmap, fmap_Some. intros (share & Hs & ->). split; [intros ->; congruence|]. exists share. split; [|done].
    destruct (Z.leb_spec 0 share) as [|Hlt]; [done|exfalso]. enough (existsb (fun '(_, share) => share <? 0) (map_to_list shares) = true) by congruence.
    apply existsb_exists. exists (d, share). split; [by apply list_elem_of_In, elem_of_map_to_list|lia].
  - intros Hne. rewrite bool_decide_eq_true_2 in Hz by done. set (m := f64_of_Z <$> shares) in *.
    destruct (decide (Forall (fun x => x.2 = f64_zero) (map_to_list m))) as [Hall|Hno].
    + by rewrite zero_sum in Hz.
    + apply not_Forall_Exists in Hno; [|apply _]. apply Exists_exists in Hno as ([d v] & Hin & Hv). exists d, v. split; [by apply elem_of_map_to_list|done].
Qed.

Lemma decodePolicyKey_ok k pk : decodePolicyKey k = inr pk -> pk_Key pk = dk_Key k /\ key_ok pk.
Proof.
  unfold decodePolicyKey. case_bool_decide as Hk; [done|]. destruct (named ParseIntentMode _ _ _) as [|mode]; [done|].
  destruct (named ParseWeighting _ _ _) as [|w]; [done|]. destruct (decodeShares _) as [|shares] eqn:Es; [done|].
  pose proof (decodeShares_ok _ _ Es) as [Hs Hn]. destruct (bool_decide (mode = ModeIgnore) && _) eqn:Hi; [done|].
  assert (mode = ModeIgnore -> shares = ∅) as Hmi.
  { intros ->. rewrite bool_decide_eq_true_2 in Hi by done. cbn in Hi. apply bool_decide_eq_false in Hi. by apply dec_stable. }
  assert (key_ok (mkPolicyKey (dk_Key k) mode w shares "")) as Hplain by (constructor; cbn; auto).
  destruct (dk_Severity k) as [sev|]; [|by intros [= <-]]. destruct (sev ==s "") eqn:Hsev; [by intros [= <-]|].
  destruct (negb (ValidSeverity sev)) eqn:Hv; [done|]. apply negb_false_iff in Hv. destruct (bool_decide (mode = ModeIgnore)) eqn:Hm; [done|]. apply bool_decide_eq_false in Hm. intros [= <-].
  split; [done|]. constructor; cbn; auto. done.
Qed.

Lemma decodeKeys_ok ks : forall i keys out, decodeKeys i ks keys = inr out -> (forall k pk, keys !! k = Some pk -> pk_Key pk = k /\ key_ok pk) ->
  forall k pk, out !! k = Some pk -> pk_Key pk = k /\ key_ok pk.
Proof.
  induction ks as [|k ks IH]; intros i keys out E Hok; cbn in E; [by injection E as <-|]. destruct (decodePolicyKey k) as [|key] eqn:Ek; [done|].
  case_bool_decide as Hdup; [done|]. eapply IH; [exact E|]. intros k' pk. destruct (decide (pk_Key key = k')) as [<-|Hne].
  - rewrite lookup_insert_eq. intros [= <-]. split; [done|]. by eapply decodePolicyKey_ok.
  - rewrite lookup_insert_ne by done. apply Hok.
Qed.

Lemma DecodePolicy_ok obj cs p : DecodePolicy obj cs = inr p -> policy_ok p /\ ClusterScoped p = cs.
Proof.
  unfold DecodePolicy. destruct (negb cs && _) eqn:Hns; [done|]. destruct (match do_Selector obj with None => _ | Some _ => _ end) as [sel|]; [|done].
  destruct (bool_decide ("" ∈ do_SubjectKinds obj)) eqn:Hk; [done|]. apply bool_decide_eq_false in Hk. destruct (decodeKeys _ _ _) as [|keys] eqn:Ek; [done|]. destruct (decodeInference _) as [|inf]; [done|]. intros [= <-]. split.
  - constructor; cbn; [|done]. eapply decodeKeys_ok; [exact Ek|]. intros k pk Hno. by rewrite lookup_empty in Hno.
  - unfold ClusterScoped. cbn. destruct cs; [done|]. cbn in Hns. done.
Qed.

Lemma in_force_ok events p : in_force events p -> policy_ok p.
Proof.
  intros (pre & e & post & _ & Hs & _). destruct e as [obj cs|ns name]; cbn in Hs; [|by case_bool_decide].
  destruct (DecodePolicy obj cs) as [|q] eqn:Ed; [done|]. case_bool_decide; [|done]. injection Hs as ->. by eapply DecodePolicy_ok.
Qed.

(** ** Which policy governs *)

Lemma elem_of_matching events sub labels p :
  p ∈ matching (policies_after events) sub labels <-> in_force events p /\ Policy_Matches p sub labels = true.
Proof.
  unfold matching. rewrite elem_of_lfilter, list_elem_of_fmap. split; intros [Hp Hm]; (split; [|done]).
  - destruct Hp as ([r q] & -> & Hr%elem_of_map_to_list). by apply after_stored in Hr as [_ ?].
  - exists (ref p, p). split; [done|]. apply elem_of_map_to_list, after_stored. done.
Qed.

Lemma NoDup_matching events sub labels : NoDup (matching (policies_after events) sub labels).
Proof.
  apply NoDup_ListNoDup, List.NoDup_filter, NoDup_ListNoDup. apply (NoDup_fmap_1 ref). rewrite <- list_fmap_compose.
  rewrite (list_fmap_ext _ fst); [apply NoDup_fst_map_to_list|]. intros i [r p] Hi%list_elem_of_lookup_2. apply elem_of_map_to_list, after_stored in Hi. apply Hi.
Qed.

(** The policies that match at the specificity that decides. *)
Definition contenders (s : PolicyStore) (sub : SubjectRef) (labels : gmap string string) : list Policy :=
  let matched := matching s sub labels in
  match List.filter (fun p => negb (ClusterScoped p)) matched with
  | [] => List.filter ClusterScoped matched
  | l => l
  end.

Lemma elem_of_contenders s sub labels p : p ∈ contenders s sub labels <->
  p ∈ matching s sub labels /\ forall q, q ∈ matching s sub labels -> ClusterScoped p = true -> ClusterScoped q = true.
Proof.
  unfold contenders. set (l := matching s sub labels). clearbody l.
  pose proof (fun f q => elem_of_lfilter f l q) as Hf.
  destruct (List.filter _ l) as [|x l'] eqn:El.
  - assert (forall q, q ∈ l -> ClusterScoped q = true) as Hall.
    { intros q Hq. destruct (ClusterScoped q) eqn:Ec; [done|exfalso]. pose proof (proj2 (Hf (fun p => negb (ClusterScoped p)) q)) as Hin. rewrite El in Hin.
      eapply elem_of_nil, Hin. split; [done|by rewrite Ec]. }
    rewrite Hf. split; [intros [Hp _]; split; [done|]; intros; by apply Hall|]. intros [Hp _]. split; [done|by apply Hall].
  - rewrite <- El, Hf. assert (x ∈ l /\ negb (ClusterScoped x) = true) as [Hx Hn] by (apply (Hf (fun p => negb (ClusterScoped p)) x); rewrite El; apply list_elem_of_here). split.
    + intros [Hp Hc]. split; [done|]. intros q _ Hcs. by rewrite Hcs in Hc.
    + intros [Hp Hc]. split; [done|]. destruct (ClusterScoped p); [|done]. by rewrite (Hc x Hx eq_refl) in Hn.
Qed.

Lemma NoDup_contenders events sub labels : NoDup (contenders (policies_after events) sub labels).
Proof.
  unfold contenders. destruct (List.filter _ _) eqn:El; [|rewrite <- El]; apply NoDup_ListNoDup, List.NoDup_filter, NoDup_ListNoDup, NoDup_matching.
Qed.

(** Contenders have different names: they are all cluster-scoped, or all of the subject's
    namespace. *)
Lemma contenders_names events sub labels p q :
  p ∈ contenders (policies_after events) sub labels -> q ∈ contenders (policies_after events) sub labels -> pc_Name p = pc_Name q -> p = q.
Proof.
  rewrite !elem_of_contenders. intros [Hp Cp] [Hq Cq] En. pose proof (Cp q Hq) as C1. pose proof (Cq p Hp) as C2.
  apply elem_of_matching in Hp as [Fp Mp]. apply elem_of_matching in Hq as [Fq Mq].
  assert (pc_Namespace p = pc_Namespace q) as Ens.
  { unfold ClusterScoped in *. unfold Policy_Matches in Mp, Mq. repeat case_bool_decide; cbn in *; congruence || naive_solver. }
  assert (ref p = ref q) as Er by (unfold ref; by rewrite Ens, En).
  pose proof (proj2 (after_stored events (ref p) p) (conj eq_refl Fp)) as Sp. pose proof (proj2 (after_stored events (ref p) q) (conj (eq_sym Er) Fq)) as Sq. congruence.
Qed.

Lemma For_contenders s sub labels : For s sub labels =
  match merge_sort name_le (contenders s sub labels) with
  | [] => mkMatch None false []
  | [p] => mkMatch (Some p) false []
  | (p :: _) as winners => mkMatch (Some p) true (ref <$> winners)
  end.
Proof. unfold For, contenders. by destruct (List.filter _ _). Qed.

(** C25: the policy that governs a subject, as a function of what the informers delivered.
    A policy is in force when the last valid document about its identity applied it and it
    was not deleted since; documents that do not decode change nothing. A subject is
    governed exactly when a policy in force matches it. The one that governs is a valid
    policy of the most specific scope that matches, the first of them by name; and
    the match is reported ambiguous, with every competitor named and the winner first,
    exactly when another policy in force matches at the same scope. *)
Theorem governing_policy events sub labels :
  let m := For (policies_after events) sub labels in
  let matches q := in_force events q /\ Policy_Matches q sub labels = true in
  match pm_Policy m with
  | None => forall q, ~ matches q
  | Some p =>
      matches p /\ policy_ok p /\
      (forall q, matches q -> ClusterScoped p = true -> ClusterScoped q = true) /\
      (forall q, matches q -> ClusterScoped q = ClusterScoped p -> q <> p -> String.ltb (pc_Name p) (pc_Name q) = true) /\
      (pm_Ambiguous m = true <-> exists q, matches q /\ ClusterScoped q = ClusterScoped p /\ q <> p) /\
      (pm_Ambiguous m = true -> exists rest, pm_Competing m = ref p :: rest /\
         forall q, matches q -> ClusterScoped q = ClusterScoped p -> ref q ∈ pm_Competing m)
  end.
Proof.
  cbn zeta. rewrite For_contenders.
  pose proof (NoDup_contenders events sub labels) as Hnd. pose proof (contenders_names events sub labels) as Hnames.
  pose proof (elem_of_contenders (policies_after events) sub labels) as Hc. setoid_rewrite elem_of_matching in Hc.
  set (cs := contenders _ _ _) in *. clearbody cs.
  assert (forall p q, p ∈ cs -> (in_force events q /\ Policy_Matches q sub labels = true) -> ClusterScoped q = ClusterScoped p -> q ∈ cs) as Hsame.
  { intros p q [_ Hp]%Hc Hq E. apply Hc. split; [done|]. rewrite E. exact Hp. }
  pose proof (merge_sort_Permutation name_le cs) as Hp. pose proof (StronglySorted_merge_sort name_le cs) as Hs.
  rewrite <- Hp in Hnd. assert (forall q, q ∈ cs <-> q ∈ merge_sort name_le cs) as Hin by (intros q; by rewrite Hp).
  destruct (merge_sort name_le cs) as [|p l]; cbn.
  - intros q Hq. destruct (ClusterScoped q) eqn:Ec.
    + destruct (decide (Exists (fun x => ClusterScoped x = false) (matching (policies_after events) sub labels))) as [Hx|Hx].
      * apply Exists_exists in Hx as (x & Hx & Hn). apply elem_of_matching in Hx. eapply elem_of_nil, Hin, Hc. split; [exact Hx|]. congruence.
      * eapply elem_of_nil, Hin, (Hc q). split; [done|]. intros x Hxm _. destruct (ClusterScoped x) eqn:E; [done|exfalso]. apply Hx, Exists_exists.
        exists x. by rewrite elem_of_matching.
    + eapply elem_of_nil, Hin, (Hc q). split; [done|]. congruence.
  - assert (p ∈ cs) as Hpc by (apply Hin, list_elem_of_here). pose proof (proj1 (Hc p) Hpc) as [Hm Hscope].
    assert (forall q, q ∈ l -> q <> p) as Hne by (apply list.NoDup_cons in Hnd as [Hnp _]; intros q Hq ->; done).
    assert (forall q, (in_force events q /\ Policy_Matches q sub labels = true) -> ClusterScoped q = ClusterScoped p -> q <> p -> q ∈ l) as Hrest.
    { intros q Hq E Hqp. apply (Hsame p q Hpc Hq), Hin, elem_of_cons in E as [->|]; done. }
    assert (forall q, q ∈ l -> ClusterScoped q = ClusterScoped p) as Hscopes.
    { intros q Hq. assert (q ∈ cs) as [Hqm Hqs]%Hc by (by apply Hin, list_elem_of_further). specialize (Hscope q Hqm). specialize (Hqs p Hm).
      destruct (ClusterScoped p), (ClusterScoped q); naive_solver. }
    assert (forall q, (in_force events q /\ Policy_Matches q sub labels = true) -> ClusterScoped q = ClusterScoped p -> q <> p ->
              String.ltb (pc_Name p) (pc_Name q) = true) as Hfirst.
    { intros q Hq E Hqp. pose proof (Hrest q Hq E Hqp) as Hql. destruct (String.ltb _ _) eqn:El; [done|exfalso]. apply Hqp, eq_sym, Hnames; [done|by apply Hin, list_elem_of_further|].
      apply ltb_total; [done|]. apply StronglySorted_inv in Hs as [_ Hs]. eapply list.Forall_forall in Hs; [|exact Hql]. exact Hs. }
    assert (l = [] <-> ~ exists q, (in_force events q /\ Policy_Matches q sub labels = true) /\ ClusterScoped q = ClusterScoped p /\ q <> p) as Hamb.
    { split; [intros -> (q & Hq & E & Hqp); by apply (Hrest q Hq E), elem_of_nil in Hqp|]. intros Hno. destruct l as [|q l]; [done|exfalso]. apply Hno. exists q.
      assert (q ∈ q :: l) as Hq by apply list_elem_of_here. split; [|split; [by apply Hscopes|by apply Hne]]. by apply (Hc q), Hin, list_elem_of_further. }
    assert (policy_ok p) as Hok by (eapply in_force_ok, Hm).
    destruct l as [|q l]; cbn; (split; [exact Hm|]); (split; [exact Hok|]); (split; [exact Hscope|]); (split; [exact Hfirst|]); (split; [|]).
    + split; [done|]. intros Hex. exfalso. by apply (proj1 Hamb).
    + done.
    + split; [|done]. intros _. exists q. assert (q ∈ q :: l) as Hq by apply list_elem_of_here. split; [by apply (Hc q), Hin, list_elem_of_further|].
      split; [by apply Hscopes|by apply Hne].
    + intros _. eexists. split; [done|]. intros x Hx E. change (ref x ∈ ref <$> p :: q :: l). apply list_elem_of_fmap_2, Hin. by apply (Hsame p).
Qed.

End policies.

(** Every name the vocabulary prints is read back, in both spellings of a source. *)
Theorem names_read_back `{UnicodeCase} :
  (forall m, ParseIntentMode (IntentMode_String m) = Some m) /\ (forall w, ParseWeighting (Weighting_String w) = Some w) /\
  (forall s, ParseIntentSource (IntentSource_String s) = Some s /\ ParseIntentSource (APIName s) = Some s).
Proof. split; [|split]; intros []; vm_compute; done. Qed.
