(* ===== verification/DriftPredicate.v ===== *)
(** Which nodes a pod may be scheduled onto (src/pkg/sources/topologydrift/predicate.go, the
    node projection of inventory.go): node selector, required node affinity and
    tolerations of an admitted pod, evaluated against the inventory. *)
From S2P Require Import Prelude GoTime GoStrings GoFmt LeewayTopology DriftInventory LeewayIntent LeewayEligible.
From stdpp Require Import sorting.
Open Scope Z_scope.
Open Scope lookout_scope.

(** ** The placement fields of a pod *)

Record Toleration := mkToleration { tl_Key : string; tl_Operator : string; tl_Value : string; tl_Effect : string }.

Record NodeSelectorRequirement := mkRequirement { nr_Key : string; nr_Operator : string; nr_Values : list string }.

Record NodeSelectorTerm := mkTerm { nt_MatchExpressions : list NodeSelectorRequirement; nt_MatchFields : list NodeSelectorRequirement }.

Definition TaintEffectNoSchedule : string := "NoSchedule".
Definition TaintEffectNoExecute : string := "NoExecute".
Definition TolerationOpExists : string := "Exists".
Definition TolerationOpEqual : string := "Equal".
Definition NodeSelectorOpIn : string := "In".
Definition NodeSelectorOpNotIn : string := "NotIn".
Definition NodeSelectorOpExists : string := "Exists".
Definition NodeSelectorOpDoesNotExist : string := "DoesNotExist".
Definition NodeSelectorOpGt : string := "Gt".
Definition NodeSelectorOpLt : string := "Lt".

Record Constraints := mkConstraints {
  cs_NodeSelector : gmap string string; cs_RequiredNodeAffinity : option (list NodeSelectorTerm); cs_Tolerations : list Toleration
}.

(** ** Requirements *)

Definition contains (values : list string) (v : string) : bool := bool_decide (v ∈ values).

Definition compareInt (req : NodeSelectorRequirement) (value : option string) : bool :=
  match value, nr_Values req with
  | Some value, [want] =>
      match ParseInt value, ParseInt want with
      | Some have, Some want => if nr_Operator req ==s NodeSelectorOpGt then want <? have else have <? want
      | _, _ => false
      end
  | _, _ => false
  end.

(** [value] is none when the label is absent. *)
Definition requirementMatches (req : NodeSelectorRequirement) (value : option string) : bool :=
  let op := nr_Operator req in
  if op ==s NodeSelectorOpIn then match value with Some v => contains (nr_Values req) v | None => false end
  else if op ==s NodeSelectorOpNotIn then match value with Some v => negb (contains (nr_Values req) v) | None => true end
  else if op ==s NodeSelectorOpExists then bool_decide (value <> None)
  else if op ==s NodeSelectorOpDoesNotExist then bool_decide (value = None)
  else if (op ==s NodeSelectorOpGt) || (op ==s NodeSelectorOpLt) then compareInt req value
  else false.

Definition matchExpressions (reqs : list NodeSelectorRequirement) (labels : gmap string string) : bool :=
  forallb (fun r => requirementMatches r (labels !! nr_Key r)) reqs.

Definition matchFields (reqs : list NodeSelectorRequirement) (name : string) : bool :=
  forallb (fun r => (nr_Key r ==s "metadata.name") && requirementMatches r (Some name)) reqs.

Definition matchNodeSelectorTerms (terms : list NodeSelectorTerm) (name : string) (labels : gmap string string) : bool :=
  existsb (fun t =>
    match nt_MatchExpressions t, nt_MatchFields t with
    | [], [] => false
    | _, _ => matchExpressions (nt_MatchExpressions t) labels && matchFields (nt_MatchFields t) name
    end) terms.

Definition MatchesNode (c : Constraints) (name : string) (labels : gmap string string) : bool :=
  if forallb (fun '(k, v) => bool_decide (labels !! k = Some v)) (map_to_list (cs_NodeSelector c)) then
    match cs_RequiredNodeAffinity c with
    | None => true
    | Some terms => matchNodeSelectorTerms terms name labels
    end
  else false.

(** ** Tolerations *)

Definition tolerationMatches (tol : Toleration) (taint : Taint) : bool :=
  if (tl_Effect tol <>s "") && (tl_Effect tol <>s tn_Effect taint) then false
  else if tl_Key tol ==s "" then tl_Operator tol ==s TolerationOpExists
  else if tl_Key tol <>s tn_Key taint then false
  else if tl_Operator tol ==s TolerationOpExists then true
  else if (tl_Operator tol ==s TolerationOpEqual) || (tl_Operator tol ==s "") then tl_Value tol ==s tn_Value taint
  else false.

Definition toleratesTaint (c : Constraints) (taint : Taint) : bool := existsb (fun tol => tolerationMatches tol taint) (cs_Tolerations c).

Definition ToleratesNode (c : Constraints) (taints : list Taint) : bool :=
  forallb (fun t =>
    if (tn_Effect t <>s TaintEffectNoSchedule) && (tn_Effect t <>s TaintEffectNoExecute) then true else toleratesTaint c t) taints.

(** ** The inventory as eligibility reads it *)

Definition view_of (c : Constraints) (ordinal : nat) (n : nodeFacts) : NodeView :=
  mkNodeView (nf_name n) (facts_domain n ordinal) (nf_ready n) (nf_schedulable n)
    (MatchesNode c (nf_name n) (nf_labels n)) (ToleratesNode c (nf_taints n)) (f64_of_Z (nf_cpuMilli n)) (f64_of_Z (nf_memBytes n)).

Definition view_le (a b : NodeView) : Prop := string_le (nv_Name a) (nv_Name b).

#[global] Instance view_le_dec : RelDecision view_le.
Proof. intros a b. unfold view_le. apply _. Defined.

Definition NodeViews (inv : Inventory) (key : TopologyKey) (c : Constraints) : list NodeView :=
  match Ordinal inv key with
  | None => []
  | Some ordinal => merge_sort view_le ((fun '(_, n) => view_of c ordinal n) <$> map_to_list (iv_nodes inv))
  end.

Lemma elem_of_NodeViews inv key c v :
  v ∈ NodeViews inv key c <-> exists ordinal name n, Ordinal inv key = Some ordinal /\ iv_nodes inv !! name = Some n /\ v = view_of c ordinal n.
Proof.
  unfold NodeViews. destruct (Ordinal inv key) as [ordinal|].
  - rewrite merge_sort_Permutation, list_elem_of_fmap. split.
    + intros ([name n] & -> & Hin%elem_of_map_to_list). by exists ordinal, name, n.
    + intros (o & name & n & [= <-] & Hn & ->). exists (name, n). split; [done|]. by apply elem_of_map_to_list.
  - split; [intros Hv; by apply elem_of_nil in Hv|]. by intros (? & ? & ? & ? & _).
Qed.
