(* ===== verification/DriftInfer.v ===== *)
(** What a pod asks of its placement (src/pkg/sources/topologydrift: infer.go, affinity.go,
    clusterdefault.go, resolve.go): candidate intents from
    its spread constraints and affinities, from the cluster's defaults, from baselines and
    from the policy that governs it; and their resolution into one intent and one eligible
    set per axis. *)
From S2P Require Import Prelude GoTime GoStrings GoFmt GoFloatMath LeewayTopology DriftInventory LeewayIntent LeewayApportion LeewayEligible DriftPolicy DriftPredicate DriftScore.
From stdpp Require Import sorting.
From Stdlib Require Import SpecFloat.
Open Scope Z_scope.
Open Scope lookout_scope.

(** ** Pods *)

Record TopologySpreadConstraint := mkTSC {
  ts_TopologyKey : string; ts_MaxSkew : Z; ts_WhenUnsatisfiable : string; ts_LabelSelector : option LabelSelector; ts_MinDomains : option Z;
  ts_NodeAffinityPolicy : option string; ts_NodeTaintsPolicy : option string; ts_MatchLabelKeys : list string
}.

Record PodAffinityTerm := mkAffinityTerm {
  pt_LabelSelector : option LabelSelector; pt_Namespaces : list string; pt_TopologyKey : string; pt_NamespaceSelector : option LabelSelector;
  pt_MatchLabelKeys : list string; pt_MismatchLabelKeys : list string
}.

(** Pod affinity and anti-affinity have the same shape. *)
Record AffinityTerms := mkAffinityTerms { at_Required : list PodAffinityTerm; at_Preferred : list (Z * PodAffinityTerm) }.

(** [af_NodeAffinity] is its required part. *)
Record Affinity := mkAffinity {
  af_NodeAffinity : option (option (list NodeSelectorTerm)); af_PodAffinity : option AffinityTerms; af_PodAntiAffinity : option AffinityTerms
}.

Record AdmittedPod := mkAdmitted {
  po_Namespace : string; po_Labels : gmap string string; po_TopologySpreadConstraints : list TopologySpreadConstraint;
  po_Affinity : option Affinity; po_NodeSelector : gmap string string; po_Tolerations : list Toleration
}.

Definition ConstraintsOf (pod : AdmittedPod) : Constraints :=
  mkConstraints (po_NodeSelector pod)
    match po_Affinity pod with
    | Some a => match af_NodeAffinity a with Some required => required | None => None end
    | None => None
    end (po_Tolerations pod).

(** ** Spread constraints *)

Definition enforced (c : TopologySpreadConstraint) : bool := ts_WhenUnsatisfiable c <>s ScheduleAnyway.

Definition whenUnsatisfiable (c : TopologySpreadConstraint) : string := if enforced c then DoNotSchedule else ScheduleAnyway.

Notation indexed l := (imap (fun (i : nat) x => (i, x)) l).

(** A stable sort with the enforced constraints first. *)
Definition constraintOrder (tscs : list TopologySpreadConstraint) : list (nat * TopologySpreadConstraint) :=
  List.filter (fun p => enforced p.2) (indexed tscs) ++ List.filter (fun p => negb (enforced p.2)) (indexed tscs).

Definition spreadIntent (c : TopologySpreadConstraint) : Intent * list string :=
  let i := zero_intent <| in_TopologyKey := ts_TopologyKey c |> <| in_Mode := ModeSpread |> <| in_WhenUnsatisfiable := whenUnsatisfiable c |>
             <| in_MaxSkew := Some (ts_MaxSkew c) |> in
  let pol := mkPolicies (default "" (ts_NodeAffinityPolicy c)) (default "" (ts_NodeTaintsPolicy c)) in
  let i := i <| in_Policies := pol |> in
  match ts_MinDomains c with
  | Some min => if enforced c then (i <| in_MinDomains := Some min |>, []) else (i, ["minDomains ignored: only honoured with DoNotSchedule"])
  | None => (i, [])
  end.

(** [; note] for each note. *)
Definition notes_text (notes : list string) : string := String.concat "" ((fun n => "; " +:+ n) <$> notes).

Section inference.
Context `{SelectorLib} `{FloatToInt}.

Definition describeConstraint (c : TopologySpreadConstraint) (pos : nat) (sel : Selector) (notes : list string) : string :=
  "topologySpreadConstraints[" +:+ itoa (Z.of_nat pos) +:+ "]: topologyKey=" +:+ ts_TopologyKey c +:+ " maxSkew=" +:+ itoa (ts_MaxSkew c) +:+
  " whenUnsatisfiable=" +:+ whenUnsatisfiable c +:+
  match ts_MinDomains c with Some m => " minDomains=" +:+ itoa m | None => "" end +:+
  (if Selector_String sel <>s "" then " labelSelector=" +:+ Selector_String sel else "") +:+ notes_text notes.

Definition intentFromConstraint (c : TopologySpreadConstraint) (pos : nat) (podLabels : gmap string string) : option Intent :=
  if ts_TopologyKey c ==s "" then None else
  match ts_LabelSelector c with
  | None => None
  | Some ls =>
      match LabelSelectorAsSelector ls with
      | None => None
      | Some sel =>
          if negb (Matches sel podLabels) then None else
          let notes := if Selector_Empty sel
            then ["labelSelector is empty: the constraint spreads every pod in the namespace, of which this subject is only a part"] else [] in
          let '(i, spreadNotes) := spreadIntent c in
          let i := i <| in_Source := SourceTopologySpreadConstraint |> <| in_Confidence := ConfidenceDeclared |> in
          let notes := notes ++ spreadNotes in
          let notes := match ts_MatchLabelKeys c with [] => notes | ks => notes ++ ["matchLabelKeys=" +:+ String.concat "," ks] end in
          Some (i <| in_Evidence := [mkEvidence SourceTopologySpreadConstraint (describeConstraint c pos sel notes) false] |>)
      end
  end.

Definition SpreadConstraintIntents (pod : AdmittedPod) : list Intent :=
  omap (fun '(i, c) => intentFromConstraint c i (po_Labels pod)) (constraintOrder (po_TopologySpreadConstraints pod)).

(** ** Affinities *)

Definition onePerDomain : Z := 1.

Definition selects_everything (s : LabelSelector) : bool := bool_decide (ls_MatchLabels s = ∅) && bool_decide (length (ls_MatchExpressions s) = O).

Definition describeNamespaceScope (t : PodAffinityTerm) : string :=
  match pt_NamespaceSelector t, pt_Namespaces t with
  | None, [] => ""
  | sel, nss =>
      let parts := match nss with [] => [] | _ => ["namespaces=" +:+ String.concat "," nss] end ++
                   match sel with
                   | None => []
                   | Some s => [if selects_everything s then "namespaceSelector matches every namespace"
                                else "namespaceSelector is set and was not evaluated: this package does not watch Namespace objects"]
                   end in
      "term scope is not this namespace alone: " +:+ String.concat "; " parts
  end.

Definition usableTerm (t : PodAffinityTerm) : option (Selector * list string) :=
  if pt_TopologyKey t ==s "" then None else
  match pt_LabelSelector t with
  | None => None
  | Some ls =>
      match LabelSelectorAsSelector ls with
      | None => None
      | Some sel =>
          let notes := if Selector_Empty sel then ["labelSelector is empty: the term reaches every pod in scope, of which this subject is only a part"] else [] in
          let scope := describeNamespaceScope t in
          let notes := if scope <>s "" then notes ++ [scope] else notes in
          let notes := match pt_MatchLabelKeys t with [] => notes | ks => notes ++ ["matchLabelKeys=" +:+ String.concat "," ks] end in
          let notes := match pt_MismatchLabelKeys t with [] => notes | ks => notes ++ ["mismatchLabelKeys=" +:+ String.concat "," ks] end in
          Some (sel, notes)
      end
  end.

Definition termScopeIncludesOwnNamespace (t : PodAffinityTerm) (ns : string) : bool :=
  match pt_NamespaceSelector t, pt_Namespaces t with
  | None, [] => true
  | sel, nss => match sel with Some s => selects_everything s | None => false end || bool_decide (ns ∈ nss)
  end.

Definition describeTerm (t : PodAffinityTerm) (pos : nat) (sel : Selector) (src : IntentSource) (weight : Z) (notes : list string) : string :=
  IntentSource_String src +:+ "[" +:+ itoa (Z.of_nat pos) +:+ "]: topologyKey=" +:+ pt_TopologyKey t +:+
  (if weight =? 0 then "" else " weight=" +:+ itoa weight) +:+
  (if Selector_String sel <>s "" then " labelSelector=" +:+ Selector_String sel else "") +:+ notes_text notes.

Definition antiAffinityIntent (t : PodAffinityTerm) (pos : nat) (ns : string) (podLabels : gmap string string) (src : IntentSource) (weight : Z) : option Intent :=
  match usableTerm t with
  | None => None
  | Some (sel, notes) =>
      if negb (Matches sel podLabels) then None
      else if negb (termScopeIncludesOwnNamespace t ns) then None
      else
        let i := zero_intent <| in_TopologyKey := pt_TopologyKey t |> <| in_Mode := ModeSpread |> <| in_Source := src |> <| in_Confidence := ConfidenceInferred |> in
        let i := if bool_decide (src = SourcePodAntiAffinityRequired)
                 then i <| in_MaxPerDomain := Some onePerDomain |> <| in_WhenUnsatisfiable := DoNotSchedule |>
                 else i <| in_WhenUnsatisfiable := ScheduleAnyway |> in
        Some (i <| in_Evidence := [mkEvidence src (describeTerm t pos sel src weight notes) false] |>)
  end.

Definition affinityIntent (t : PodAffinityTerm) (pos : nat) (podLabels : gmap string string) (src : IntentSource) (weight : Z) : option Intent :=
  match usableTerm t with
  | None => None
  | Some (sel, notes) =>
      let notes := if negb (Matches sel podLabels)
        then notes ++ ["colocation is induced: the term names another population, so the subject concentrates only as far as that population is itself concentrated"]
        else notes in
      Some (zero_intent <| in_TopologyKey := pt_TopologyKey t |> <| in_Mode := ModeColocate |> <| in_Source := src |> <| in_Confidence := ConfidenceInferred |>
              <| in_Evidence := [mkEvidence src (describeTerm t pos sel src weight notes) false] |>)
  end.

Definition AffinityIntents (pod : AdmittedPod) : list Intent :=
  match po_Affinity pod with
  | None => []
  | Some aff =>
      let required o := match o with Some a => at_Required a | None => [] end in
      let preferred o := match o with Some a => at_Preferred a | None => [] end in
      let ls := po_Labels pod in let ns := po_Namespace pod in
      omap (fun '(i, t) => antiAffinityIntent t i ns ls SourcePodAntiAffinityRequired 0) (indexed (required (af_PodAntiAffinity aff))) ++
      omap (fun '(i, t) => affinityIntent t i ls SourcePodAffinityRequired 0) (indexed (required (af_PodAffinity aff))) ++
      omap (fun '(i, (w, t)) => antiAffinityIntent t i ns ls SourcePodAntiAffinityPreferred w) (indexed (preferred (af_PodAntiAffinity aff))) ++
      omap (fun '(i, (w, t)) => affinityIntent t i ls SourcePodAffinityPreferred w) (indexed (preferred (af_PodAffinity aff)))
  end.

(** ** Cluster defaults *)

Definition LabelHostname : string := "kubernetes.io/hostname".

Definition default_constraint (key : string) (skew : Z) (action : string) : TopologySpreadConstraint := mkTSC key skew action None None None None [].

Definition SystemDefaultConstraints : list TopologySpreadConstraint :=
  [default_constraint LabelHostname 3 ScheduleAnyway; default_constraint LabelTopologyZone 5 ScheduleAnyway].

Definition describeClusterDefault (c : TopologySpreadConstraint) (pos : nat) (assumed : bool) (notes : list string) : string :=
  (if assumed then "ASSUMED cluster default (kube-scheduler PodTopologySpread defaultingType=System; not readable from a managed control plane, see spike S4) — declare --topology-cluster-defaults to replace this guess"
   else "configured cluster default") +:+
  "[" +:+ itoa (Z.of_nat pos) +:+ "]: topologyKey=" +:+ ts_TopologyKey c +:+ " maxSkew=" +:+ itoa (ts_MaxSkew c) +:+
  " whenUnsatisfiable=" +:+ whenUnsatisfiable c +:+ match ts_MinDomains c with Some m => " minDomains=" +:+ itoa m | None => "" end +:+
  "; applies because the pod declares no topologySpreadConstraints of its own" +:+ notes_text notes.

Definition defaultIntent (source : IntentSource) (confidence : Confidence) (assumed : bool) (p : nat * TopologySpreadConstraint) : option Intent :=
  let '(i, c) := p in
  if ts_TopologyKey c ==s "" then None else
  let '(intent, notes) := spreadIntent c in
  Some (intent <| in_Source := source |> <| in_Confidence := confidence |>
          <| in_Evidence := [mkEvidence source (describeClusterDefault c i assumed notes) false] |>).

(** [declared] is none when the flag is unset. *)
Definition ClusterDefaultIntents (pod : AdmittedPod) (declared : option (list TopologySpreadConstraint)) : list Intent :=
  match po_TopologySpreadConstraints pod with
  | [] =>
      match declared with
      | None => omap (defaultIntent SourceClusterDefaultAssumed ConfidenceAssumed true) (indexed SystemDefaultConstraints)
      | Some constraints => omap (defaultIntent SourceClusterDefaultDeclared ConfidenceDeclared false) (indexed constraints)
      end
  | _ => []
  end.

Definition onlyTrackedAxes (intents : list Intent) (inv : Inventory) : list Intent :=
  List.filter (fun i => bool_decide (Ordinal inv (in_TopologyKey i) <> None)) intents.

Definition nestsWithin (fine coarse : TopologyKey) : bool :=
  if fine ==s coarse then false
  else if fine ==s LabelHostname then true
  else if (fine ==s LabelTopologyZone) || (fine ==s LabelFailureDomainBetaZone)
  then (coarse ==s LabelTopologyRegion) || (coarse ==s LabelFailureDomainBetaRegion)
  else false.

Definition colocatedKeys (candidates : list Intent) : list TopologyKey :=
  in_TopologyKey <$> List.filter (fun c => bool_decide (in_Source c = SourcePodAffinityRequired) && bool_decide (in_Mode c = ModeColocate)) candidates.

Definition dropAssumedDefaultsContradicted (candidates : list Intent) : list Intent :=
  match colocatedKeys candidates with
  | [] => candidates
  | colocated =>
      List.filter (fun c => negb (bool_decide (in_Source c = SourceClusterDefaultAssumed) &&
                                  existsb (fun fine => nestsWithin fine (in_TopologyKey c)) colocated)) candidates
  end.

(** ** Resolution *)

Record ResolveConfig := mkResolveConfig {
  rc_ClusterDefaults : option (list TopologySpreadConstraint); rc_Policy : option Policy;
  rc_Baselines : gmap TopologyKey Intent; rc_CapacityRatioTrigger : float64
}.

(** A finite positive value with two decimals, as [fmt] prints it: the exact value rounded to
    nearest, ties to even. *)
Definition hundredths (m : positive) (e : Z) : Z :=
  if 0 <=? e then Z.pos m * 100 * 2 ^ e
  else
    let d := 2 ^ (- e) in let n := Z.pos m * 100 in let q := n / d in let r := n mod d in
    if d <? 2 * r then q + 1 else if 2 * r =? d then (if Z.even q then q else q + 1) else q.

Definition two_digits (n : Z) : string := if n <? 10 then "0" +:+ itoa n else itoa n.

Definition fixed2 (x : float64) : string :=
  match x with
  | S754_nan => "NaN"
  | S754_infinity s => if s then "-Inf" else "+Inf"
  | S754_zero s => if s then "-0.00" else "0.00"
  | S754_finite s m e => let h := hundredths m e in (if s then "-" else "") +:+ itoa (h / 100) +:+ "." +:+ two_digits (h mod 100)
  end.

Definition capacityRatio (e : Eligibility) : float64 :=
  let caps := if (el_SyntheticDomains e <=? length (el_CapacityCPU e))%nat
              then take (length (el_CapacityCPU e) - el_SyntheticDomains e) (el_CapacityCPU e) else el_CapacityCPU e in
  let '(minC, maxC) := fold_left (fun '(minC, maxC) c =>
    if IsNaN c || IsInf c 0 || f64_lt c f64_zero then (minC, maxC) else (f64_min minC c, f64_max maxC c)) caps (S754_infinity false, f64_zero) in
  if f64_le minC f64_zero || IsInf minC 1 then S754_infinity false else f64_div maxC minC.

Definition triggerOf (e : Eligibility) : float64 :=
  if f64_lt f64_zero (el_CapacityRatioTrigger e) then el_CapacityRatioTrigger e else CapacityWeightingRatioTrigger.

Definition applyWeighting (i : Intent) (eligible : Eligibility) : Intent :=
  if bool_decide (in_Weighting i <> WeightAuto) then i else
  let i := i <| in_Weighting := EffectiveWeighting eligible (Some i) |> in
  if bool_decide (in_Weighting i = WeightEqual) then i else
  i <| in_Evidence ::= (fun l => l ++ [mkEvidence (in_Source i)
    ("apportioned by allocatable CPU: eligible domains differ in capacity by " +:+ fixed2 (capacityRatio eligible) +:+ "× (over the " +:+
     fixed2 (triggerOf eligible) +:+ "× trigger), so an equal expectation would reserve a share the smallest domain cannot hold") false]) |>.

(** The candidates of a pod, as the policy leaves them. *)
Definition candidates_of (pod : AdmittedPod) (inv : Inventory) (cfg : ResolveConfig) : list Intent :=
  let candidates := SpreadConstraintIntents pod ++ AffinityIntents pod ++
                    onlyTrackedAxes (ClusterDefaultIntents pod (rc_ClusterDefaults cfg)) inv ++
                    omap (fun key => rc_Baselines cfg !! key) (SortedKeys (rc_Baselines cfg)) in
  let candidates := match rc_Policy cfg with
                    | Some p => filterBySources candidates (pc_Inference p) ++ Intents p
                    | None => candidates
                    end in
  dropAssumedDefaultsContradicted candidates.

Definition eligibility_options (intent : option Intent) (trigger : float64) : EligibilityOptions :=
  DefaultEligibilityOptions <| eo_Policies := EligibilityPolicies intent |> <| eo_CapacityRatioTrigger := trigger |>
    <| eo_MinDomains := match intent with Some i => in_MinDomains i | None => None end |>.

(** One axis of the inventory. *)
Definition resolve_axis (pod : AdmittedPod) (inv : Inventory) (cfg : ResolveConfig) (res : Resolution) (key : TopologyKey) : Resolution :=
  let intent := re_Intents res !! key in
  let eligible := EligibleDomains (NodeViews inv key (ConstraintsOf pod)) (eligibility_options intent (rc_CapacityRatioTrigger cfg)) in
  let res := res <| re_Eligible ::= insert key eligible |> in
  match intent with
  | None => res
  | Some i => res <| re_Intents ::= insert key (applyWeighting (i <| in_EligibleDomains := list_to_set (el_Domains eligible) |>) eligible) |>
  end.

Definition Resolve (pod : AdmittedPod) (inv : Inventory) (cfg : ResolveConfig) : Resolution :=
  fold_left (resolve_axis pod inv cfg) (iv_keys inv) (mkResolution (ResolveIntents (candidates_of pod inv cfg)) ∅).

(** ** What resolution keeps *)

(** The enforced constraints of the pod on a key that spread the pod itself, in order. *)
Definition selects_itself (pod : AdmittedPod) (c : TopologySpreadConstraint) : bool :=
  match ts_LabelSelector c with
  | None => false
  | Some ls => match LabelSelectorAsSelector ls with None => false | Some sel => Matches sel (po_Labels pod) end
  end.

Definition enforced_on (pod : AdmittedPod) (k : TopologyKey) : list TopologySpreadConstraint :=
  List.filter (fun c => (ts_TopologyKey c ==s k) && enforced c && selects_itself pod c) (po_TopologySpreadConstraints pod).

(** An intent that carries the enforced bound [s]. *)
Definition holds (s : Z) (w : Intent) : Prop :=
  in_MaxSkew w = Some s /\ in_WhenUnsatisfiable w = DoNotSchedule /\ in_Mode w <> ModeIgnore /\
  (in_Source w = SourcePolicyCRD \/ in_Source w = SourceTopologySpreadConstraint).

(** A candidate that cannot take the bound away: one of the pod's own constraints or weaker,
    or a policy with no bound of its own that does not ignore the key. *)
Definition harmless (c : Intent) : Prop :=
  (in_Source c = SourcePolicyCRD /\ in_MaxSkew c = None /\ in_Mode c <> ModeIgnore) \/ (2 <= source_value (in_Source c))%nat.

Lemma contest_holds s c w : harmless c -> holds s w -> holds s (contest c w).
Proof.
  intros Hc (Hm & Hu & Hi & Hs). unfold contest, Outranks. destruct (Nat.ltb_spec (source_value (in_Source c)) (source_value (in_Source w))) as [Hlt|Hge].
  - destruct Hc as [(Es & En & Hmode)|Hv]; [|destruct Hs as [E|E]; rewrite E in Hlt; cbn in Hlt; lia]. unfold carryContract. cbn.
    rewrite En, Hm, Hu. unfold holds. repeat case_bool_decide; cbn; try done; try (destruct Hs; congruence). by repeat split; auto.
  - unfold carryContract. cbn. rewrite Hm. repeat case_bool_decide; done.
Qed.

Lemma resolve_key_holds s h l : holds s h -> Forall harmless l -> exists w, resolve_key (h :: l) = Some w /\ holds s w.
Proof.
  unfold resolve_key. cbn [fold_left]. revert h. induction l as [|c l IH]; intros h Hh Hl; [by exists h|]. inversion Hl; subst. cbn [fold_left].
  apply IH; [|done]. by apply contest_holds.
Qed.

(** ** The candidates *)

Lemma spreadIntent_bound c : in_TopologyKey (spreadIntent c).1 = ts_TopologyKey c /\ in_MaxSkew (spreadIntent c).1 = Some (ts_MaxSkew c) /\
  in_WhenUnsatisfiable (spreadIntent c).1 = whenUnsatisfiable c /\ in_Mode (spreadIntent c).1 = ModeSpread.
Proof. unfold spreadIntent. by repeat case_match. Qed.

Lemma own_intent c i pod intent : intentFromConstraint c i (po_Labels pod) = Some intent ->
  in_TopologyKey intent = ts_TopologyKey c /\ in_MaxSkew intent = Some (ts_MaxSkew c) /\ in_WhenUnsatisfiable intent = whenUnsatisfiable c /\
  in_Mode intent = ModeSpread /\ in_Source intent = SourceTopologySpreadConstraint /\ selects_itself pod c = true.
Proof.
  unfold intentFromConstraint, selects_itself. case_bool_decide; [done|]. destruct (ts_LabelSelector c) as [ls|]; [|done].
  destruct (LabelSelectorAsSelector ls) as [sel|]; [|done]. destruct (Matches sel _); [cbn [negb]|done]. pose proof (spreadIntent_bound c) as (B1 & B2 & B3 & B4).
  destruct (spreadIntent c) as [intent' notes]. cbn in *. intros [= <-]. by repeat split.
Qed.

Lemma own_intent_some c i pod : ts_TopologyKey c <> "" -> selects_itself pod c = true -> exists intent, intentFromConstraint c i (po_Labels pod) = Some intent.
Proof.
  unfold intentFromConstraint, selects_itself. intros Hk. rewrite bool_decide_eq_false_2 by done. destruct (ts_LabelSelector c) as [ls|]; [|done].
  destruct (LabelSelectorAsSelector ls) as [sel|]; [|done]. intros ->. cbn. destruct (spreadIntent c). eauto.
Qed.

Lemma filter_indexed {A} (f : A -> bool) (l : list A) : forall (g : nat -> nat),
  (List.filter (fun p => f p.2) (imap (fun i x => (g i, x)) l)).*2 = List.filter f l.
Proof. induction l as [|x l IH]; intros g; [done|]. cbn. destruct (f x); cbn; [f_equal|]; apply (IH (g ∘ S)). Qed.

(** The intents of the pod's own constraints on a key: the first enforced one leads. *)
Lemma own_first pod k c rest : k <> "" -> enforced_on pod k = c :: rest ->
  exists h l, on_key k (SpreadConstraintIntents pod) = h :: l /\ holds (ts_MaxSkew c) h /\ Forall (fun i => in_Source i = SourceTopologySpreadConstraint) (h :: l).
Proof.
  intros Hk He. unfold SpreadConstraintIntents, constraintOrder. rewrite omap_app. set (soft := omap _ (List.filter (fun p => negb _) _)).
  assert (Forall (fun i => in_Source i = SourceTopologySpreadConstraint) soft) as Hsoft.
  { apply list.Forall_forall. intros i ([n c'] & _ & Hi)%list_elem_of_omap. by apply own_intent in Hi as (_ & _ & _ & _ & ? & _). }
  clearbody soft. set (enf := List.filter (fun p => enforced p.2) _).
  assert (enf.*2 = List.filter enforced (po_TopologySpreadConstraints pod)) as Henf by apply (filter_indexed _ _ (fun i => i)).
  unfold enforced_on in He. rewrite (List.filter_ext _ (fun c => enforced c && ((ts_TopologyKey c ==s k) && selects_itself pod c))) in He.
  2: { intros x. destruct (ts_TopologyKey x ==s k), (enforced x); done. }
  rewrite <- filter_both, <- Henf in He.
  assert (Forall (fun p => enforced p.2 = true) enf) as Hall.
  { apply list.Forall_forall. intros p Hp%elem_of_lfilter. apply Hp. }
  assert (Forall (fun i => in_Source i = SourceTopologySpreadConstraint) (omap (fun '(i, c) => intentFromConstraint c i (po_Labels pod)) enf ++ soft)) as Hsrc.
  { apply Forall_app. split; [|done]. apply list.Forall_forall. intros i ([n c'] & _ & Hi)%list_elem_of_omap. by apply own_intent in Hi as (_ & _ & _ & _ & ? & _). }
  clear Henf Hsoft. clearbody enf. induction enf as [|[n c0] enf IH]; [done|]. apply Forall_cons in Hall as [Hc0 Hall]. cbn in He, Hc0, Hsrc |- *.
  destruct ((ts_TopologyKey c0 ==s k) && selects_itself pod c0) eqn:E.
  - injection He as -> _. apply andb_true_iff in E as [Ek%bool_decide_eq_true Esel]. destruct (own_intent_some c n pod) as [h Eh]; [congruence|done|].
    rewrite Eh in Hsrc |- *. apply own_intent in Eh as (Hkey & Hskew & Hwhen & Hmode & Hsource & _). unfold on_key. cbn [app List.filter].
    rewrite bool_decide_eq_true_2 by congruence. eexists _, _. split; [done|]. split.
    + unfold holds. rewrite Hwhen, Hmode. unfold whenUnsatisfiable. rewrite Hc0. auto.
    + apply Forall_cons in Hsrc as [? Hrest]. constructor; [done|]. by apply Forall_lfilter.
  - destruct (intentFromConstraint c0 n (po_Labels pod)) as [i|] eqn:Ei; [|by apply IH]. apply own_intent in Ei as (Hkey & _ & _ & _ & _ & Hsel).
    apply Forall_cons in Hsrc as [_ Hsrc]. unfold on_key in *. cbn [app List.filter]. rewrite bool_decide_eq_false_2; [by apply IH|].
    rewrite Hkey. intros Ek. rewrite Hsel, bool_decide_eq_true_2 in E by done. done.
Qed.

(** ** Every other candidate *)

Lemma affinity_harmless pod i : i ∈ AffinityIntents pod -> (3 <= source_value (in_Source i))%nat.
Proof.
  unfold AffinityIntents. destruct (po_Affinity pod) as [aff|]; [|intros Hi; by apply elem_of_nil in Hi]. rewrite !elem_of_app, !list_elem_of_omap.
  assert (forall t n ns ls src w, antiAffinityIntent t n ns ls src w = Some i -> in_Source i = src) as Hanti.
  { intros t n ns ls src w. unfold antiAffinityIntent. destruct (usableTerm t) as [[sel notes]|]; [|done]. repeat (case_match; try done); by intros [= <-]. }
  assert (forall t n ls src w, affinityIntent t n ls src w = Some i -> in_Source i = src) as Haff.
  { intros t n ls src w. unfold affinityIntent. destruct (usableTerm t) as [[sel notes]|]; [|done]. by intros [= <-]. }
  intros [([n t] & _ & E%Hanti)|[([n t] & _ & E%Haff)|[([n [w t]] & _ & E%Hanti)|([n [w t]] & _ & E%Haff)]]]; rewrite E; cbn; lia.
Qed.

Lemma default_harmless pod declared i : i ∈ ClusterDefaultIntents pod declared -> (5 <= source_value (in_Source i))%nat.
Proof.
  unfold ClusterDefaultIntents. destruct (po_TopologySpreadConstraints pod); [|intros Hi; by apply elem_of_nil in Hi].
  assert (forall src conf b p, defaultIntent src conf b p = Some i -> in_Source i = src) as Hd.
  { intros src conf b [n c]. unfold defaultIntent. case_bool_decide; [done|]. destruct (spreadIntent c). by intros [= <-]. }
  destruct declared as [cs|]; intros (p & _ & E%Hd)%list_elem_of_omap; rewrite E; cbn; lia.
Qed.

(** A candidate list led on [k] by an enforced bound of the pod's own. *)
Definition leads (k : TopologyKey) (s : Z) (l : list Intent) : Prop :=
  exists h l', on_key k l = h :: l' /\ holds s h /\ in_Source h = SourceTopologySpreadConstraint /\ Forall harmless l'.

Lemma leads_app k s l l' : leads k s l -> (forall i, i ∈ l' -> in_TopologyKey i = k -> harmless i) -> leads k s (l ++ l').
Proof.
  intros (h & rest & E & Hh & Hs & Hrest) Hl. exists h, (rest ++ on_key k l'). unfold on_key in *. rewrite List.filter_app, E. split; [done|]. split; [done|]. split; [done|].
  apply Forall_app. split; [done|]. apply list.Forall_forall. intros i [Hi Hk%bool_decide_eq_true]%elem_of_lfilter. by apply Hl.
Qed.

Lemma leads_filter k s f l : (forall i, in_Source i = SourceTopologySpreadConstraint -> f i = true) -> leads k s l -> leads k s (List.filter f l).
Proof.
  intros Hf (h & rest & E & Hh & Hs & Hrest). exists h, (List.filter f rest). unfold on_key in *.
  assert (List.filter (fun c => in_TopologyKey c ==s k) (List.filter f l) = List.filter f (List.filter (fun c => in_TopologyKey c ==s k) l)) as ->.
  { rewrite !filter_both. apply List.filter_ext. intros x. apply andb_comm. }
  rewrite E. cbn. rewrite (Hf h Hs). split; [done|]. split; [done|]. split; [done|]. by apply Forall_lfilter.
Qed.

(** What the configuration must be for the pod's own constraints to count on [k]: baselines
    are learned ones, and a policy lets them contribute and does not ignore the key. *)
Record counts_on (cfg : ResolveConfig) (k : TopologyKey) : Prop := {
  baselines_learned : forall key i, rc_Baselines cfg !! key = Some i -> in_Source i = SourceLearnedBaseline;
  policy_lets : forall p, rc_Policy cfg = Some p -> policy_ok p /\ Allows (pc_Inference p) SourceTopologySpreadConstraint = true /\
    forall pk, pc_Keys p !! k = Some pk -> pk_Mode pk <> ModeIgnore
}.

Lemma drop_leads k s l : leads k s l -> leads k s (dropAssumedDefaultsContradicted l).
Proof. unfold dropAssumedDefaultsContradicted. destruct (colocatedKeys l); [done|]. apply leads_filter. intros i ->. done. Qed.

Lemma policy_harmless p k i : policy_ok p -> (forall pk, pc_Keys p !! k = Some pk -> pk_Mode pk <> ModeIgnore) -> i ∈ Intents p -> in_TopologyKey i = k -> harmless i.
Proof.
  intros Hp Hmode (key & _ & Hi)%list_elem_of_omap Hk. apply fmap_Some in Hi as (pk & Epk & ->). left. cbn in Hk. split; [done|]. split; [done|].
  cbn. apply Hmode. destruct (policy_keys p Hp _ _ Epk) as [E _]. congruence.
Qed.

Lemma candidates_lead pod inv cfg k c rest : k <> "" -> enforced_on pod k = c :: rest -> counts_on cfg k -> leads k (ts_MaxSkew c) (candidates_of pod inv cfg).
Proof.
  intros Hk He [Hbase Hpol]. apply drop_leads.
  assert (leads k (ts_MaxSkew c) (SpreadConstraintIntents pod)) as Hown.
  { destruct (own_first pod k c rest Hk He) as (h & l & E & Hh & [Hs Hl]%Forall_cons). exists h, l. split; [done|]. split; [done|]. split; [done|].
    eapply Forall_impl; [exact Hl|]. intros i Hi. right. rewrite Hi. done. }
  set (others := AffinityIntents pod ++ _). assert (forall i, i ∈ others -> harmless i) as Hothers.
  { intros i. unfold others. rewrite !elem_of_app. intros [Hi%affinity_harmless|[Hi|Hi]]; right.
    - lia.
    - apply elem_of_lfilter in Hi as [Hi%default_harmless _]. lia.
    - apply list_elem_of_omap in Hi as (key & _ & Hi). rewrite (Hbase _ _ Hi). cbn. lia. }
  assert (leads k (ts_MaxSkew c) (SpreadConstraintIntents pod ++ others)) as Hall by (apply leads_app; auto).
  destruct (rc_Policy cfg) as [p|]; [|exact Hall]. destruct (Hpol p eq_refl) as (Hp & Hallow & Hmode). apply leads_app.
  - apply leads_filter; [|exact Hall]. intros i ->. by rewrite Hallow, orb_true_r.
  - intros i Hi Hkey. by eapply policy_harmless.
Qed.

(** ** What the axes do to an intent *)

Definition alike (w i : Intent) : Prop :=
  in_MaxSkew i = in_MaxSkew w /\ in_WhenUnsatisfiable i = in_WhenUnsatisfiable w /\ in_Mode i = in_Mode w /\ in_Source i = in_Source w /\
  in_MinDomains i = in_MinDomains w /\ in_Policies i = in_Policies w.

Lemma alike_trans a b c : alike a b -> alike b c -> alike a c.
Proof. unfold alike. intros (-> & -> & -> & -> & -> & ->). done. Qed.

Lemma alike_options w i t : alike w i -> eligibility_options (Some i) t = eligibility_options (Some w) t.
Proof. unfold alike, eligibility_options, EligibilityPolicies. intros (_ & _ & _ & _ & -> & ->). done. Qed.

Lemma effective_decided e i : EffectiveWeighting e (Some i) <> WeightAuto.
Proof.
  unfold EffectiveWeighting. case_bool_decide; [done|]. destruct (_ || _); [done|]. case_bool_decide; [done|]. by destruct (NeedsCapacityWeightingAt _ _).
Qed.

Lemma applyWeighting_alike i e : alike i (applyWeighting i e) /\ in_EligibleDomains (applyWeighting i e) = in_EligibleDomains i /\
  in_Weighting (applyWeighting i e) = EffectiveWeighting e (Some i).
Proof.
  unfold applyWeighting, alike. destruct (bool_decide (in_Weighting i <> WeightAuto)) eqn:E.
  - repeat split; try done. unfold EffectiveWeighting. by rewrite E.
  - destruct (bool_decide (_ = WeightEqual)); repeat split; try done.
Qed.

(** The state of the loop over the axes, from the intents [m0] and with [axes] done. *)
Record resolved (pod : AdmittedPod) (inv : Inventory) (cfg : ResolveConfig) (m0 : gmap TopologyKey Intent) (axes : list TopologyKey) (res : Resolution) : Prop := {
  resolved_intents : forall k, match m0 !! k with
    | None => re_Intents res !! k = None
    | Some w => exists i, re_Intents res !! k = Some i /\ alike w i /\
        (k ∈ axes -> exists e, re_Eligible res !! k = Some e /\ in_EligibleDomains i = list_to_set (el_Domains e) /\ in_Weighting i <> WeightAuto)
    end;
  resolved_eligible : forall k, re_Eligible res !! k = if bool_decide (k ∈ axes)
    then Some (EligibleDomains (NodeViews inv k (ConstraintsOf pod)) (eligibility_options (m0 !! k) (rc_CapacityRatioTrigger cfg))) else None
}.

Lemma axis_resolved pod inv cfg m0 axes res key : resolved pod inv cfg m0 axes res -> resolved pod inv cfg m0 (axes ++ [key]) (resolve_axis pod inv cfg res key).
Proof.
  intros [Hi He]. unfold resolve_axis. set (e := EligibleDomains _ _).
  assert (e = EligibleDomains (NodeViews inv key (ConstraintsOf pod)) (eligibility_options (m0 !! key) (rc_CapacityRatioTrigger cfg))) as Ee.
  { unfold e. f_equal. specialize (Hi key). destruct (m0 !! key) as [w|]; [|by rewrite Hi]. destruct Hi as (i & -> & Ha & _). by apply alike_options. }
  assert (forall k, <[key := e]> (re_Eligible res) !! k = if bool_decide (k ∈ axes ++ [key])
    then Some (EligibleDomains (NodeViews inv k (ConstraintsOf pod)) (eligibility_options (m0 !! k) (rc_CapacityRatioTrigger cfg))) else None) as Hins.
  { intros k. destruct (decide (key = k)) as [<-|Hne].
    - rewrite lookup_insert_eq, bool_decide_eq_true_2, Ee; [done|]. apply elem_of_app. right. apply list_elem_of_here.
    - rewrite lookup_insert_ne, He by done. erewrite bool_decide_ext; [done|]. rewrite elem_of_app, list_elem_of_singleton. naive_solver. }
  clearbody e. constructor; [|by destruct (re_Intents res !! key)]. intros k. pose proof (Hi k) as Hk. pose proof (Hi key) as Hkey.
  destruct (decide (key = k)) as [<-|Hne].
  - destruct (m0 !! key) as [w|]; [|by rewrite Hk]. destruct Hk as (i & Ei & Ha & _). rewrite Ei.
    cbn. rewrite !lookup_insert_eq. destruct (applyWeighting_alike (i <| in_EligibleDomains := list_to_set (el_Domains e) |>) e) as (A1 & A2 & A3).
    eexists. split; [done|]. split; [eapply alike_trans; [exact Ha|exact A1]|]. intros _. exists e. split; [done|]. split; [exact A2|]. intros Hauto. eapply effective_decided. rewrite <- A3. exact Hauto.
  - assert (re_Intents (match re_Intents res !! key with
      | Some i => res <| re_Eligible ::= insert key e |> <| re_Intents ::= insert key (applyWeighting (i <| in_EligibleDomains := list_to_set (el_Domains e) |>) e) |>
      | None => res <| re_Eligible ::= insert key e |> end) !! k = re_Intents res !! k) as ->.
    { destruct (re_Intents res !! key); [|done]. by apply lookup_insert_ne. }
    destruct (m0 !! k) as [w|]; [|done]. destruct Hk as (i & Ei & Ha & Hdone). exists i. split; [done|]. split; [done|].
    intros [Hin| ->%list_elem_of_singleton]%elem_of_app; [|done]. destruct (Hdone Hin) as (e' & He' & Hd). exists e'. split; [|done].
    destruct (re_Intents res !! key); cbn; by rewrite lookup_insert_ne.
Qed.

Lemma Resolve_resolved pod inv cfg : resolved pod inv cfg (ResolveIntents (candidates_of pod inv cfg)) (iv_keys inv) (Resolve pod inv cfg).
Proof.
  unfold Resolve. set (m0 := ResolveIntents _). generalize (iv_keys inv) as axes. intros axes. induction axes as [|key axes IH] using rev_ind.
  - constructor; [|done]. intros k. cbn. destruct (m0 !! k) as [w|]; [|done]. exists w. split; [done|]. split; [done|]. intros Hk. by apply elem_of_nil in Hk.
  - rewrite fold_left_app. by apply axis_resolved.
Qed.

(** C24: a spread constraint the scheduler enforces on the pod reaches its evaluation as a
    hard contract. When the pod has an enforced constraint on [k] that selects the pod
    itself, the resolved intent on [k] carries the skew bound of the first of them as a
    hard contract, whatever else the affinities, the cluster defaults, the baselines and
    the policy say about the axis (short of the policy excluding the source or ignoring the
    key); and on an axis the inventory tracks, the eligible domains it is scored against
    are those of the nodes the pod may use under that intent's own inclusion policies and
    minimum, and the weighting is decided. *)
Theorem own_constraint_is_enforced pod inv cfg k c rest :
  k <> "" -> enforced_on pod k = c :: rest -> counts_on cfg k ->
  exists i, re_Intents (Resolve pod inv cfg) !! k = Some i /\
    HardSkewContract (Some i) = true /\ in_MaxSkew i = Some (ts_MaxSkew c) /\ in_Mode i <> ModeIgnore /\
    (k ∈ iv_keys inv -> exists e, re_Eligible (Resolve pod inv cfg) !! k = Some e /\
       e = EligibleDomains (NodeViews inv k (ConstraintsOf pod)) (eligibility_options (Some i) (rc_CapacityRatioTrigger cfg)) /\
       in_EligibleDomains i = list_to_set (el_Domains e) /\ in_Weighting i <> WeightAuto).
Proof.
  intros Hk He Hcfg. destruct (candidates_lead pod inv cfg k c rest Hk He Hcfg) as (h & l & El & Hh & _ & Hl).
  destruct (resolve_key_holds _ h l Hh Hl) as (w & Ew & Hm & Hu & Hi & Hs). rewrite <- El, <- ResolveIntents_at in Ew.
  destruct (Resolve_resolved pod inv cfg) as [HI HE]. specialize (HI k). specialize (HE k). rewrite Ew in HI, HE. destruct HI as (i & Ei & Ha & Hdone).
  pose proof Ha as (A1 & A2 & A3 & A4 & _). exists i. split; [done|]. split.
  { apply hard_iff. rewrite A1, A2, A4, Hm. split; [destruct Hs as [-> | ->]; done|]. done. }
  split; [by rewrite A1|]. split; [by rewrite A3|]. intros Hin. destruct (Hdone Hin) as (e & Ee & Hd). exists e. split; [done|].
  rewrite bool_decide_eq_true_2, Ee in HE by done. injection HE as HE. split; [|done]. rewrite HE. f_equal. symmetry. by apply alike_options.
Qed.

End inference.
