(* ===== verification/DriftDefaults.v ===== *)
(** The declared cluster defaults (src/pkg/sources/topologydrift/clusterdefault.go): the
    three states of the flag that declares them, and what a declaration does to the intents
    of a pod. *)
From S2P Require Import Prelude GoTime GoStrings GoFmt GoFloatMath LeewayTopology DriftInventory LeewayIntent LeewayEligible LeewayApportion LeewayScore DriftPolicy DriftPredicate DriftScore DriftInfer.
From Stdlib Require Import SpecFloat Ascii.
Open Scope Z_scope.
Open Scope lookout_scope.

(** ** Reading the flag *)

Inductive defaultsError := NotAField (field : string) | NoKey (field : string) | BadAction (field : string) | NotANumber (field : string) | TooSmall (field : string) | NoConstraints (raw : string).

Definition is_digit (c : ascii) : bool := let n := Ascii.nat_of_ascii c in (48 <=? n)%nat && (n <=? 57)%nat.

Fixpoint digits_of (s : string) : string :=
  match s with
  | EmptyString => ""
  | String c r => if is_digit c then String c (digits_of r) else ""
  end.

(** [fmt.Sscanf(s, "%d", &x)] for an int32, when [s] does not start with a space: an optional
    sign and the digits that follow it, in range; what comes after them is left unread. *)
Definition Sscanf_int32 (s : string) : option Z :=
  let tok := match s with
             | String c r => if (Ascii.eqb c "+" || Ascii.eqb c "-")%char then String c (digits_of r) else digits_of s
             | EmptyString => ""
             end in
  match ParseInt tok with
  | Some n => if (-2 ^ 31 <=? n) && (n <? 2 ^ 31) then Some n else None
  | None => None
  end.

(** One field, already trimmed and not empty. *)
Definition parseDefault (field : string) : defaultsError + TopologySpreadConstraint :=
  let '(key, rest, ok) := CutByte "="%char field in
  if negb ok then inl (NotAField field) else
  let key := TrimSpace key in
  if key ==s "" then inl (NoKey field) else
  let '(text, actionText, hasAction) := CutByte ":"%char rest in
  let action := if negb hasAction then Some ScheduleAnyway
                else if TrimSpace actionText ==s DoNotSchedule then Some DoNotSchedule
                else if TrimSpace actionText ==s ScheduleAnyway then Some ScheduleAnyway
                else None in
  match action with
  | None => inl (BadAction field)
  | Some action =>
      match Sscanf_int32 (TrimSpace text) with
      | None => inl (NotANumber field)
      | Some skew => if skew <? 1 then inl (TooSmall field) else inr (default_constraint key skew action)
      end
  end.

Fixpoint parseFields (fields : list string) (out : list TopologySpreadConstraint) : defaultsError + list TopologySpreadConstraint :=
  match fields with
  | [] => inr out
  | field :: fields =>
      let field := TrimSpace field in
      if field ==s "" then parseFields fields out
      else match parseDefault field with
           | inl e => inl e
           | inr c => parseFields fields (out ++ [c])
           end
  end.

Definition ParseClusterDefaults (raw : string) : defaultsError + option (list TopologySpreadConstraint) :=
  let raw := TrimSpace raw in
  if raw ==s "" then inr None
  else if raw ==s "none" then inr (Some [])
  else match parseFields (SplitByte ","%char raw) [] with
       | inl e => inl e
       | inr [] => inl (NoConstraints raw)
       | inr out => inr (Some out)
       end.

Definition DescribeClusterDefaults (declared : option (list TopologySpreadConstraint)) : string :=
  let '(constraints, origin) := match declared with None => (SystemDefaultConstraints, "assumed") | Some cs => (cs, "declared") end in
  match constraints with
  | [] => "cluster default topology spread: none (declared empty)"
  | _ => "cluster default topology spread (" +:+ origin +:+ "): " +:+
         String.concat ", " ((fun c => ts_TopologyKey c +:+ " maxSkew=" +:+ itoa (ts_MaxSkew c) +:+ " " +:+ whenUnsatisfiable c) <$> constraints)
  end.

(** ** What is accepted *)

(** A constraint some scheduler could be running. *)
Definition default_ok (c : TopologySpreadConstraint) : Prop :=
  ts_TopologyKey c <> "" /\ 1 <= ts_MaxSkew c < 2 ^ 31 /\ (ts_WhenUnsatisfiable c = DoNotSchedule \/ ts_WhenUnsatisfiable c = ScheduleAnyway) /\
  ts_MinDomains c = None /\ ts_LabelSelector c = None.

Lemma parseDefault_ok field c : parseDefault field = inr c -> default_ok c /\ (ts_WhenUnsatisfiable c = DoNotSchedule -> contains_byte ":"%char field = true).
Proof.
  unfold parseDefault, CutByte. destruct (cut_byte "="%char field) as [[k rest]|] eqn:Ef; [|done]. cbn [negb].
  destruct (TrimSpace k ==s "") eqn:Ek; [done|]. apply bool_decide_eq_false in Ek.
  assert (forall text actionText hasAction, (hasAction = true -> contains_byte ":"%char field = true) ->
    match (if negb hasAction then Some ScheduleAnyway else if TrimSpace actionText ==s DoNotSchedule then Some DoNotSchedule
           else if TrimSpace actionText ==s ScheduleAnyway then Some ScheduleAnyway else None) with
    | None => inl (BadAction field)
    | Some action => match Sscanf_int32 (TrimSpace text) with
      | None => inl (NotANumber field)
      | Some skew => if skew <? 1 then inl (TooSmall field) else inr (default_constraint (TrimSpace k) skew action)
      end
    end = inr c -> default_ok c /\ (ts_WhenUnsatisfiable c = DoNotSchedule -> contains_byte ":"%char field = true)) as Hgo.
  { intros text actionText hasAction Hcolon. set (action := if negb hasAction then _ else _).
    assert (forall a, action = Some a -> (a = DoNotSchedule /\ hasAction = true) \/ a = ScheduleAnyway) as Ha.
    { intros a. unfold action. destruct hasAction; cbn [negb]; repeat case_bool_decide; intros [= <-]; auto. }
    destruct action as [a|]; [|done]. specialize (Ha a eq_refl). unfold Sscanf_int32. destruct (ParseInt _) as [n|]; [|done]. destruct (_ && _) eqn:Hr; [|done].
    destruct (n <? 1) eqn:Hn; [done|]. intros [= <-]. unfold default_ok. cbn. split; [|intros ->; destruct Ha as [[_ ?]|]; [auto|done]].
    split; [done|]. split; [lia|]. split; [tauto|done]. }
  destruct (cut_byte ":"%char rest) as [[a b]|] eqn:Er; apply Hgo; [|done]. intros _. apply cut_byte_Some in Ef as [-> _]. apply cut_byte_Some in Er as [-> _].
  rewrite contains_byte_app. cbn. rewrite contains_byte_app. cbn. by rewrite !orb_true_r.
Qed.

Lemma parseFields_ok fields : forall out cs, Forall default_ok out -> parseFields fields out = inr cs ->
  Forall default_ok cs /\ (length cs <= length out + length fields)%nat.
Proof.
  induction fields as [|f fields IH]; intros out cs Hout E; cbn in E; [injection E as <-; cbn; split; [done|lia]|].
  destruct (TrimSpace f ==s ""); [destruct (IH out cs Hout E); cbn; split; [done|lia]|].
  destruct (parseDefault (TrimSpace f)) as [|c] eqn:Ec; [done|]. apply parseDefault_ok in Ec as [Hc _].
  destruct (IH (out ++ [c]) cs) as [? Hlen]; [by apply Forall_app; split; [|constructor]|done|]. rewrite length_app in Hlen. cbn in *. split; [done|lia].
Qed.

(** The three states of the declared defaults. The flag is unset exactly when it is
    blank; it declares the empty set exactly when it is [none]; and otherwise, when it is
    accepted, every constraint it declares names a key, has a skew the API would accept and
    one of the two actions. *)
Theorem defaults_three_states raw :
  (ParseClusterDefaults raw = inr None <-> TrimSpace raw = "") /\
  (ParseClusterDefaults raw = inr (Some []) <-> TrimSpace raw = "none") /\
  (forall cs, ParseClusterDefaults raw = inr (Some cs) -> Forall default_ok cs /\ (length cs <= length (SplitByte ","%char (TrimSpace raw)))%nat).
Proof.
  unfold ParseClusterDefaults. destruct (TrimSpace raw ==s "") eqn:E1; [apply bool_decide_eq_true in E1|apply bool_decide_eq_false in E1].
  { rewrite E1. done. }
  destruct (TrimSpace raw ==s "none") eqn:E2; [apply bool_decide_eq_true in E2|apply bool_decide_eq_false in E2].
  { rewrite E2. split; [done|]. split; [done|]. intros cs [= <-]. split; [constructor|cbn; lia]. }
  destruct (parseFields _ _) as [e|cs] eqn:Ep; [done|]. apply parseFields_ok in Ep as [Hok Hlen]; [|constructor].
  destruct cs as [|c cs]; [done|]. split; [done|]. split; [done|]. intros cs' [= <-]. done.
Qed.

(** ** A cluster of two zones *)

Module Fleet.

(** Selectors as the labels they ask for. *)
#[local] Instance label_selectors : SelectorLib := {|
  Selector := gmap string string;
  LabelSelectorAsSelector ls := match ls_MatchExpressions ls with [] => Some (ls_MatchLabels ls) | _ => None end;
  Everything := ∅;
  Matches sel ls := forallb (fun '(k, v) => bool_decide (ls !! k = Some v)) (map_to_list sel);
  Selector_Empty sel := bool_decide (sel = ∅);
  Selector_String sel := String.concat "," ((fun '(k, v) => k +:+ "=" +:+ v) <$> map_to_list sel)
|}.

Definition zone : TopologyKey := LabelTopologyZone.
Definition worker (name z : string) : Node := mkNode name {[zone := z]} false [] [(NodeReady, ConditionTrue)] (Some 4000) (Some 1000).
Definition inventory : Inventory :=
  (DriftInventory.Upsert 5 (worker "n2" "b") (DriftInventory.Upsert 4 (worker "n1" "a") (NewInventory [zone])).1).1.

Definition labels : gmap string string := {["app" := "shop"]}.
Definition constraint (skew : Z) (action : string) : TopologySpreadConstraint :=
  mkTSC zone skew action (Some (mkLabelSelector labels [])) None None None [].
Definition pod (cs : list TopologySpreadConstraint) : AdmittedPod := mkAdmitted "prod" labels cs None ∅ [].

(** A policy that spreads by node count on the zone. *)
Definition policy : Policy :=
  mkPolicy "spread" "prod" ∅ [] {[zone := mkPolicyKey zone ModeSpread WeightNodeCount ∅ "warning"]} (mkInference true None).
Definition config : ResolveConfig := mkResolveConfig None (Some policy) ∅ f64_zero.
Definition own : list TopologySpreadConstraint := [constraint 5 ScheduleAnyway; constraint 1 DoNotSchedule].

Lemma policy_valid : policy_ok policy.
Proof.
  constructor; cbn; [|apply not_elem_of_nil]. intros k pk [<- <-]%lookup_singleton_Some. split; [done|]. constructor; cbn; try done.
  - by right.
Qed.

Lemma config_counts : counts_on config zone.
Proof.
  constructor; cbn.
  - intros key i Hi. by rewrite lookup_empty in Hi.
  - intros p [= <-]. split; [apply policy_valid|]. split; [done|]. intros pk Hpk. cbn in Hpk. apply lookup_singleton_Some in Hpk as [_ <-]. done.
Qed.

Lemma own_constraint_is_enforced_witness :
  exists i, re_Intents (Resolve (pod own) inventory config) !! zone = Some i /\ HardSkewContract (Some i) = true /\ in_MaxSkew i = Some 1.
Proof.
  destruct (own_constraint_is_enforced (pod own) inventory config zone (constraint 1 DoNotSchedule) []) as (i & Ei & Hh & Hm & _).
  - done.
  - vm_compute. done.
  - exact config_counts.
  - exact (ex_intro _ i (conj Ei (conj Hh Hm))).
Defined.

(** The policy won the key, and it is weighted by node count over both zones. *)
Example policy_wins : (fun i => (in_Source i, in_Weighting i, elements (in_EligibleDomains i))) <$> re_Intents (Resolve (pod own) inventory config) !! zone =
  Some (SourcePolicyCRD, WeightNodeCount, ["a"; "b"]).
Proof. vm_compute. done. Qed.

(** A cluster that declares a preference and an enforced bound on the same axis loses the
    bound: declared defaults are taken in the order they are written, where a pod's own
    constraints are sorted enforced first. *)
Theorem declared_default_bound_lost :
  exists cs, ParseClusterDefaults "topology.kubernetes.io/zone=5,topology.kubernetes.io/zone=1:DoNotSchedule" = inr (Some cs) /\
    (fun i => (in_Source i, in_MaxSkew i, HardSkewContract (Some i))) <$> re_Intents (Resolve (pod []) inventory (mkResolveConfig (Some cs) None ∅ f64_zero)) !! zone =
      Some (SourceClusterDefaultDeclared, Some 5, false) /\
    (fun i => (in_Source i, in_MaxSkew i, HardSkewContract (Some i))) <$> re_Intents (Resolve (pod own) inventory (mkResolveConfig (Some cs) None ∅ f64_zero)) !! zone =
      Some (SourceTopologySpreadConstraint, Some 1, true).
Proof. eexists. split; [vm_compute; reflexivity|]. split; vm_compute; done. Qed.

(** Text after the number is not read: an action written after a space is dropped, and a
    fraction or an exponent is cut. *)
Theorem trailing_text_is_dropped :
  ParseClusterDefaults "zone=5 DoNotSchedule" = inr (Some [default_constraint "zone" 5 ScheduleAnyway]) /\
  ParseClusterDefaults "zone=1e3:DoNotSchedule" = inr (Some [default_constraint "zone" 1 DoNotSchedule]) /\
  ParseClusterDefaults "zone=x5" = inl (NotANumber "zone=x5").
Proof. vm_compute. done. Qed.

End Fleet.
