(* ===== verification/LeewayScaleUp.v ===== *)
(** The autoscaler's latest word on a pending pod (src/pkg/leeway/scaleup.go): its events
    folded into one verdict by their own timestamps. *)
From S2P Require Import Prelude GoTime.
Open Scope Z_scope.
Open Scope lookout_scope.

Definition ReasonTriggeredScaleUp : string := "TriggeredScaleUp".
Definition ReasonNotTriggerScaleUp : string := "NotTriggerScaleUp".
Definition ReasonFailedScaleUp : string := "FailedScaleUp".

Definition IsScaleUpReason (reason : string) : bool :=
  (reason ==s ReasonTriggeredScaleUp) || (reason ==s ReasonNotTriggerScaleUp) || (reason ==s ReasonFailedScaleUp).

Inductive ScaleUpVerdict := ScaleUpUnheard | ScaleUpProvisioning | ScaleUpDeclined.

#[global] Instance ScaleUpVerdict_eq_dec : EqDecision ScaleUpVerdict.
Proof. solve_decision. Defined.

Record AutoscalerEvent := mkAutoscalerEvent { ae_Reason : string; ae_At : Time; ae_PodUID : string }.

(** The verdict an event carries; none when its reason is not one. *)
Definition event_verdict (ev : AutoscalerEvent) : option ScaleUpVerdict :=
  if ae_Reason ev ==s ReasonTriggeredScaleUp then Some ScaleUpProvisioning
  else if (ae_Reason ev ==s ReasonNotTriggerScaleUp) || (ae_Reason ev ==s ReasonFailedScaleUp) then Some ScaleUpDeclined
  else None.

Definition LatestScaleUp_step (podUID : string) (podCreated : Time) (st : ScaleUpVerdict * Time) (ev : AutoscalerEvent) : ScaleUpVerdict * Time :=
  let '(verdict, latest) := st in
  match event_verdict ev with
  | None => st
  | Some v =>
      if (podUID <>s "") && (ae_PodUID ev <>s "") && (ae_PodUID ev <>s podUID) then st
      else if negb (IsZero podCreated) && Before (ae_At ev) podCreated then st
      else if bool_decide (verdict = ScaleUpUnheard) || After (ae_At ev) latest then (v, ae_At ev)
      else if (ae_At ev =? latest) && bool_decide (v = ScaleUpProvisioning) then (v, latest)
      else st
  end.

Definition LatestScaleUp (events : list AutoscalerEvent) (podUID : string) (podCreated : Time) : ScaleUpVerdict :=
  (fold_left (LatestScaleUp_step podUID podCreated) events (ScaleUpUnheard, zero_time)).1.

(** ** The verdict is the latest one *)

(** An event about this pod that carries a verdict. *)
Definition about (podUID : string) (podCreated : Time) (ev : AutoscalerEvent) : Prop :=
  event_verdict ev <> None /\ (podUID = "" \/ ae_PodUID ev = "" \/ ae_PodUID ev = podUID) /\ (podCreated = zero_time \/ podCreated <= ae_At ev).

(** The latest of the events about the pod: a trigger wins a tie. *)
Definition latest_word (events : list AutoscalerEvent) (podUID : string) (podCreated : Time) (v : ScaleUpVerdict) (at_ : Time) : Prop :=
  exists ev, ev ∈ events /\ about podUID podCreated ev /\ event_verdict ev = Some v /\ ae_At ev = at_ /\
    forall ev', ev' ∈ events -> about podUID podCreated ev' ->
      ae_At ev' < at_ \/ ae_At ev' = at_ /\ (event_verdict ev' = Some ScaleUpProvisioning -> v = ScaleUpProvisioning).

#[local] Instance about_dec uid created ev : Decision (about uid created ev).
Proof. unfold about. apply _. Defined.

Lemma step_about uid created st ev : LatestScaleUp_step uid created st ev =
  match event_verdict ev with
  | Some v => if bool_decide (about uid created ev) then
      (if bool_decide (st.1 = ScaleUpUnheard) || (st.2 <? ae_At ev) then (v, ae_At ev)
       else if (ae_At ev =? st.2) && bool_decide (v = ScaleUpProvisioning) then (v, st.2) else st)
      else st
  | None => st
  end.
Proof.
  unfold LatestScaleUp_step. destruct st as [verdict latest]. destruct (event_verdict ev) as [v|] eqn:E; [|done]. cbn [fst snd]. unfold After, Before, IsZero.
  destruct ((uid <>s "") && (ae_PodUID ev <>s "") && (ae_PodUID ev <>s uid)) eqn:E1.
  { rewrite (bool_decide_eq_false_2 (about uid created ev)); [done|]. btrue. intros (_ & Hu & _). tauto. }
  destruct (negb (created =? zero_time) && (ae_At ev <? created)) eqn:E2.
  { rewrite (bool_decide_eq_false_2 (about uid created ev)); [done|]. apply andb_prop in E2 as [H1%negb_true_iff%Z.eqb_neq H2%Z.ltb_lt]. intros (_ & _ & [|]); lia. }
  rewrite (bool_decide_eq_true_2 (about uid created ev)); [done|]. split; [by rewrite E|]. split.
  - destruct (decide (uid = "")), (decide (ae_PodUID ev = "")), (decide (ae_PodUID ev = uid)); try tauto. exfalso. apply not_true_iff_false in E1. apply E1.
    by rewrite !andb_true_iff, ?negb_true_iff, ?bool_decide_eq_true, ?bool_decide_eq_false.
  - apply andb_false_iff in E2 as [E2|E2%Z.ltb_ge]; [left; by apply negb_false_iff, Z.eqb_eq in E2|by right].
Qed.

Lemma fold_latest events uid created :
  let st := fold_left (LatestScaleUp_step uid created) events (ScaleUpUnheard, zero_time) in
  (st.1 = ScaleUpUnheard /\ forall ev, ev ∈ events -> ~ about uid created ev) \/
  (st.1 <> ScaleUpUnheard /\ latest_word events uid created st.1 st.2).
Proof.
  induction events as [|ev events IH] using rev_ind; [left; split; [done|]; intros ev Hev; by apply elem_of_nil in Hev|].
  cbn zeta in *. rewrite fold_left_app. cbn [fold_left]. set (st := fold_left _ events _) in *. rewrite step_about.
  assert (forall v, event_verdict ev = Some v -> v <> ScaleUpUnheard) as Hv by (unfold event_verdict; intros v; repeat case_match; congruence).
  assert (~ about uid created ev -> (st.1 = ScaleUpUnheard /\ forall ev', ev' ∈ events ++ [ev] -> ~ about uid created ev') \/
    (st.1 <> ScaleUpUnheard /\ latest_word (events ++ [ev]) uid created st.1 st.2)) as Hskip.
  { intros Hno. destruct IH as [[E Hn]|[E (x & Hx & Ha & Hw & Hat & Hall)]].
    - left. split; [done|]. intros ev' [?| ->%list_elem_of_singleton]%elem_of_app; [by apply Hn|done].
    - right. split; [done|]. exists x. split; [apply elem_of_app; by left|]. split; [done|]. split; [done|]. split; [done|].
      intros ev' [?| ->%list_elem_of_singleton]%elem_of_app Hab; [by apply Hall|done]. }
  destruct (event_verdict ev) as [v|] eqn:Ev; [|apply Hskip; intros (? & _); done]. case_bool_decide as Hab; [|by apply Hskip]. clear Hskip.
  specialize (Hv v eq_refl). right.
  assert (ev ∈ events ++ [ev]) as Hin by (apply elem_of_app; right; apply list_elem_of_here).
  assert (ae_At ev = ae_At ev) as Hrefl by done.
  destruct IH as [[E Hn]|[E (x & Hx & Ha & Hw & Hat & Hall)]].
  - rewrite E. cbn [fst snd orb bool_decide]. rewrite bool_decide_eq_true_2 by done. cbn [orb fst snd]. split; [done|]. exists ev. repeat split; try done.
    1-3: apply Hab. intros ev' [?%Hn| ->%list_elem_of_singleton]%elem_of_app Hab'; [done|]. right. split; [done|]. intros Hp. rewrite Ev in Hp. by injection Hp.
  - rewrite bool_decide_eq_false_2 by done. cbn [orb]. destruct (Z.ltb_spec st.2 (ae_At ev)) as [Hlt|Hge].
    + cbn [fst snd]. split; [done|]. exists ev. split; [done|]. split; [done|]. split; [done|]. split; [done|].
      intros ev' [Hev'| ->%list_elem_of_singleton]%elem_of_app Hab'.
      * left. destruct (Hall ev' Hev' Hab') as [?|[? _]]; lia.
      * right. split; [done|]. intros Hp. rewrite Ev in Hp. by injection Hp.
    + destruct ((ae_At ev =? st.2) && bool_decide (v = ScaleUpProvisioning)) eqn:Et.
      * apply andb_prop in Et as [Eq%Z.eqb_eq Evp]. apply bool_decide_eq_true in Evp. subst v. cbn [fst snd]. split; [done|]. exists ev. split; [done|]. split; [done|]. split; [done|]. split; [done|].
        intros ev' [Hev'| ->%list_elem_of_singleton]%elem_of_app Hab'; [|by right]. destruct (Hall ev' Hev' Hab') as [?|[? _]]; [by left|by right].
      * split; [done|]. exists x. split; [apply elem_of_app; by left|]. split; [done|]. split; [done|]. split; [done|].
        intros ev' [Hev'| ->%list_elem_of_singleton]%elem_of_app Hab'; [by apply Hall|].
        destruct (Z.eq_dec (ae_At ev) st.2) as [Heq|Hne]; [|left; lia]. right. split; [done|]. intros Hp. rewrite Ev in Hp. injection Hp as ->.
        apply andb_false_iff in Et as [Et%Z.eqb_neq|Et]; [done|]. by apply bool_decide_eq_false in Et.
Qed.

Lemma latest_word_unique events uid created v a v' a' : latest_word events uid created v a -> latest_word events uid created v' a' -> v = v'.
Proof.
  intros (x & Hx & Hax & Hv & Hat & Hall) (y & Hy & Hay & Hv' & Hat' & Hall').
  assert (forall e w, event_verdict e = Some w -> w = ScaleUpProvisioning \/ w = ScaleUpDeclined) as Hw.
  { intros e w. unfold event_verdict. repeat case_match; intros [= <-]; tauto. }
  destruct (Hall y Hy Hay) as [?|[E1 P1]], (Hall' x Hx Hax) as [?|[E2 P2]]; [lia..|].
  destruct (Hw _ _ Hv) as [->| ->], (Hw _ _ Hv') as [->| ->]; try done; [by rewrite P2|by rewrite P1].
Qed.

Lemma latest_word_perm events events' uid created v a : events ≡ₚ events' -> latest_word events uid created v a -> latest_word events' uid created v a.
Proof. intros P (x & Hx & Hrest). exists x. setoid_rewrite <- P. done. Qed.

(** The verdict is the autoscaler's latest word on the pod, and a trigger wins a tie: unheard
    exactly when no event is about this pod, and otherwise the verdict of an event about it
    that no other is later than. It depends on the events' own times, not on the order they
    arrived in. *)
Theorem scale_up_verdict_is_latest events uid created :
  match LatestScaleUp events uid created with
  | ScaleUpUnheard => forall ev, ev ∈ events -> ~ about uid created ev
  | v => exists a, latest_word events uid created v a
  end /\
  forall events', events ≡ₚ events' -> LatestScaleUp events' uid created = LatestScaleUp events uid created.
Proof.
  unfold LatestScaleUp. pose proof (fold_latest events uid created) as H. cbn zeta in H. split.
  - destruct H as [[-> Hn]|[Hne Hl]]; [done|]. destruct (fold_left _ _ _).1 eqn:E; [done|by eexists..].
  - intros events' P. pose proof (fold_latest events' uid created) as H'. cbn zeta in H'.
    destruct H as [[-> Hn]|[Hne Hl]], H' as [[-> Hn']|[Hne' Hl']]; [done|..].
    + destruct Hl' as (x & Hx & Ha & _). exfalso. apply (Hn x); [|done]. by rewrite P.
    + destruct Hl as (x & Hx & Ha & _). exfalso. apply (Hn' x); [|done]. by rewrite <- P.
    + eapply latest_word_unique; [exact Hl'|]. by eapply latest_word_perm.
Qed.
