(* ===== verification/LeewayAlert.v ===== *)
(** The alert state machine (src/pkg/leeway/alert.go, reconcile.go): how a sequence of
    instantaneous verdicts becomes a finding that fires and resolves, its flap history,
    and how a persisted state meets the first verdict after a restart.

    An [AlertState] is a value: the pointer receivers become state passing, and the fire
    history is a list (the code prunes it in place in one slice that only the state
    holds). Phases are a byte, so a decoded record can hold one this build does not
    know. *)
From S2P Require Import Prelude GoTime.
Open Scope Z_scope.
Open Scope lookout_scope.

(** ** Phases and transitions *)

(** [PhaseOther n]: a byte above [PhaseResolving]. *)
Inductive AlertPhase := PhaseOK | PhasePending | PhaseFiring | PhaseResolving | PhaseOther (n : Z).

#[global] Instance AlertPhase_eq_dec : EqDecision AlertPhase.
Proof. solve_decision. Defined.

Definition AlertPhase_String (p : AlertPhase) : string :=
  match p with
  | PhaseOK => "ok"
  | PhasePending => "pending"
  | PhaseFiring => "firing"
  | PhaseResolving => "resolving"
  | PhaseOther _ => "unknown"
  end.

Definition ParseAlertPhase (s : string) : AlertPhase * bool :=
  if s ==s "ok" then (PhaseOK, true)
  else if s ==s "pending" then (PhasePending, true)
  else if s ==s "firing" then (PhaseFiring, true)
  else if s ==s "resolving" then (PhaseResolving, true)
  else (PhaseOK, false).

Definition Firing (p : AlertPhase) : bool := bool_decide (p = PhaseFiring) || bool_decide (p = PhaseResolving).

Inductive Transition :=
| TransitionNone | TransitionPending | TransitionFiring | TransitionClearing | TransitionResolved | TransitionAbandoned.

#[global] Instance Transition_eq_dec : EqDecision Transition.
Proof. solve_decision. Defined.

Definition Transition_String (t : Transition) : string :=
  match t with
  | TransitionPending => "pending"
  | TransitionFiring => "firing"
  | TransitionClearing => "clearing"
  | TransitionResolved => "resolved"
  | TransitionAbandoned => "abandoned"
  | TransitionNone => ""
  end.

Definition Emits (t : Transition) : bool :=
  bool_decide (t = TransitionFiring) || bool_decide (t = TransitionResolved).

(** ** Timing *)

Record Dwell := mkDwell { dw_For : Duration; dw_Resolve : Duration; dw_FlapCount : Z; dw_FlapWindow : Duration }.

Definition DefaultDwell : Dwell := mkDwell (10 * Minute) (30 * Minute) 3 Hour.

Definition normalize (d : Dwell) : Dwell :=
  let d := if dw_For d <=? 0 then d <| dw_For := dw_For DefaultDwell |> else d in
  let d := if dw_Resolve d <=? 0 then d <| dw_Resolve := wrap64 (3 * dw_For d) |> else d in
  let d := if dw_FlapCount d <=? 0 then d <| dw_FlapCount := dw_FlapCount DefaultDwell |> else d in
  if dw_FlapWindow d <=? 0 then d <| dw_FlapWindow := dw_FlapWindow DefaultDwell |> else d.

(** ** The machine *)

Record AlertState := mkAlert {
  as_Phase : AlertPhase; as_FirstSeenAt : Time; as_Since : Time; as_ClearSince : Time; as_Fires : list Time
}.

#[global] Instance AlertState_eq_dec : EqDecision AlertState.
Proof. solve_decision. Defined.

Definition zero_alert : AlertState := mkAlert PhaseOK zero_time zero_time zero_time [].

Definition reset (s : AlertState) : AlertState := zero_alert <| as_Fires := as_Fires s |>.

(** The firings after [cutoff]. *)
Definition fires_after (cutoff : Time) (fires : list Time) : list Time := List.filter (fun t => After t cutoff) fires.

Definition fire (now : Time) (d : Dwell) (s : AlertState) : AlertState :=
  s <| as_Phase := PhaseFiring |>
    <| as_Fires := fires_after (Add now (- dw_FlapWindow d)) (as_Fires s) ++ [now] |>.

Definition Advance (breached : bool) (now : Time) (d : Dwell) (s : AlertState) : AlertState * Transition :=
  let d := normalize d in
  match as_Phase s with
  | PhaseOK =>
      if negb breached then (s, TransitionNone)
      else (s <| as_Phase := PhasePending |> <| as_FirstSeenAt := now |>, TransitionPending)
  | PhasePending =>
      if negb breached then (reset s, TransitionAbandoned)
      else if dw_For d <=? Sub now (as_FirstSeenAt s) then ((fire now d s) <| as_Since := now |>, TransitionFiring)
      else (s, TransitionNone)
  | PhaseFiring =>
      if breached then (s, TransitionNone)
      else (s <| as_Phase := PhaseResolving |> <| as_ClearSince := now |>, TransitionClearing)
  | PhaseResolving =>
      if breached then ((fire now d s) <| as_ClearSince := zero_time |>, TransitionFiring)
      else if dw_Resolve d <=? Sub now (as_ClearSince s) then (reset s, TransitionResolved)
      else (s, TransitionNone)
  | PhaseOther _ => (s, TransitionNone)
  end.

(** ** The flap history *)

Definition Recurrences (now : Time) (d : Dwell) (s : AlertState) : Z :=
  let n := Z.of_nat (length (fires_after (Add now (- dw_FlapWindow (normalize d))) (as_Fires s))) in
  if n =? 0 then 0 else n - 1.

Definition Flapping (now : Time) (d : Dwell) (s : AlertState) : bool :=
  dw_FlapCount (normalize d) <? Recurrences now d s.

(** The doubling loop, [n] rounds of it. *)
Fixpoint backoff_loop (n : nat) (window backoff : Duration) : Duration :=
  match n with
  | O => backoff
  | S n => let backoff := wrap64 (backoff * 2) in if window <=? backoff then window else backoff_loop n window backoff
  end.

Definition DeliveryBackoff (now : Time) (d : Dwell) (s : AlertState) : Duration :=
  let d := normalize d in
  let excess := Recurrences now d s - dw_FlapCount d in
  if excess <=? 0 then 0 else backoff_loop (Z.to_nat (excess - 1)) (dw_FlapWindow d) (dw_For d).

(** ** Restarts *)

Record AlertRecord := mkRecord {
  ar_Cluster : string; ar_SubjectKey : string; ar_TopologyKey : string; ar_State : AlertState; ar_UpdatedAt : Time
}.

Definition notAfter (t now : Time) : Time := if After t now then now else t.

Definition repair (now : Time) (s : AlertState) : AlertState :=
  match as_Phase s with
  | PhaseOther _ => zero_alert
  | _ =>
      let s := mkAlert (as_Phase s) (notAfter (as_FirstSeenAt s) now) (notAfter (as_Since s) now)
                 (notAfter (as_ClearSince s) now) ((fun t => notAfter t now) <$> as_Fires s) in
      let s := if bool_decide (as_Phase s <> PhaseOK) && IsZero (as_FirstSeenAt s) then s <| as_FirstSeenAt := now |> else s in
      if Firing (as_Phase s) && IsZero (as_Since s) then s <| as_Since := now |> else s
  end.

(** A decoded state made safe to run, its clear-side clock restarted. *)
Definition arrival (now : Time) (s : AlertState) : AlertState :=
  let st := repair now s in
  if bool_decide (as_Phase st = PhaseResolving) then st <| as_ClearSince := now |> else st.

Definition Reconcile (persisted : AlertRecord) (breached : bool) (now : Time) (d : Dwell) : AlertRecord * Transition :=
  let '(st, tr) := Advance breached now d (arrival now (ar_State persisted)) in
  (persisted <| ar_State := st |>, tr).

(** ** What a history of verdicts says

    A history is the verdicts with their instants, newest first. *)

Notation verdicts := (list (bool * Time)) (only parsing).

(** The state after a history, and the move its newest verdict made. *)
Definition run (d : Dwell) (h : verdicts) : AlertState := foldr (fun x s => (Advance x.1 x.2 d s).1) zero_alert h.

(** When the newest verdicts began to be [b], without a break since. *)
Fixpoint streak (b : bool) (h : verdicts) : option Time :=
  match h with
  | (b', t) :: h' => if Bool.eqb b b' then Some (default t (streak b h')) else None
  | [] => None
  end.

(** The newest verdicts have been [b] for [dur], without a break. *)
Definition held (b : bool) (dur : Duration) (h : verdicts) : bool :=
  match h, streak b h with
  | (_, now) :: _, Some t => dur <=? Sub now t
  | _, _ => false
  end.

(** The finding that is outstanding, as hysteresis: it starts when a breach has held for
    [For] and ends when its absence has held for [Resolve]. With it, when the breach was
    first seen and when the finding started. *)
Fixpoint outstanding (d : Dwell) (h : verdicts) : option (Time * Time) :=
  match h with
  | [] => None
  | (_, now) :: h' =>
      match outstanding d h' with
      | Some f => if held false (dw_Resolve d) h then None else Some f
      | None => if held true (dw_For d) h then Some (default now (streak true h), now) else None
      end
  end.

(** The phase is the finding and the newest verdict. *)
Definition spec_phase (d : Dwell) (h : verdicts) : AlertPhase :=
  match outstanding d h, bool_decide (streak true h = None) with
  | Some _, false => PhaseFiring
  | Some _, true => PhaseResolving
  | None, false => PhasePending
  | None, true => PhaseOK
  end.

(** The state apart from the fire history. *)
Definition spec_state (d : Dwell) (h : verdicts) (fires : list Time) : AlertState :=
  mkAlert (spec_phase d h)
    (match outstanding d h with Some f => f.1 | None => default zero_time (streak true h) end)
    (match outstanding d h with Some f => f.2 | None => zero_time end)
    (match outstanding d h with Some f => default zero_time (streak false h) | None => zero_time end)
    fires.

(** The move from one history to the next, as the outside sees it. *)
Definition spec_transition (d : Dwell) (h : verdicts) (x : bool * Time) : Transition :=
  match outstanding d h, outstanding d (x :: h), x.1, streak x.1 h with
  | None, Some _, _, _ => TransitionFiring
  | Some _, None, _, _ => TransitionResolved
  | Some _, Some _, true, None => TransitionFiring
  | Some _, Some _, false, None => TransitionClearing
  | None, None, true, None => TransitionPending
  | None, None, false, None => if decide (h = []) then TransitionNone else TransitionAbandoned
  | _, _, _, Some _ => TransitionNone
  end.

(** ** Lemmas *)

Lemma normalize_For d : 0 < dw_For (normalize d).
Proof.
  unfold normalize. destruct d as [f r c w]. cbn -[Z.leb Z.mul wrap64].
  destruct (f <=? 0) eqn:Ef; cbn -[Z.leb Z.mul wrap64]; repeat case_match; cbn; unfold Minute, Second; lia.
Qed.

(** [3*For] is within 64 bits: a [For] under 97 years. *)
Definition dwell_ok (d : Dwell) : Prop := dw_For d <= int64_max / 3.

Lemma normalize_Resolve d : dwell_ok d -> 0 < dw_Resolve (normalize d).
Proof.
  unfold dwell_ok, normalize. destruct d as [f r c w]. change (int64_max / 3) with 3074457345618258602.
  cbn -[Z.leb Z.mul wrap64]. intros Hf.
  assert (forall f', 0 < f' -> f' <= 3074457345618258602 -> 0 < wrap64 (3 * f')) as Hw
    by (intros f' ? ?; rewrite wrap64_id; [|unfold in_int64, int64_min, int64_max]; lia).
  destruct (f <=? 0) eqn:Ef; cbn -[Z.leb Z.mul wrap64]; destruct (r <=? 0) eqn:Er; cbn -[Z.leb Z.mul wrap64];
    repeat case_match; cbn -[Z.mul wrap64]; try lia; apply Hw; unfold Minute, Second; lia.
Qed.
#[export] Hint Resolve normalize_For normalize_Resolve : lookout.

Lemma streak_cons b t h b' : streak b ((b', t) :: h) = if Bool.eqb b b' then Some (default t (streak b h)) else None.
Proof. done. Qed.

(** The newest verdict is of one kind. *)
Lemma streak_one h : (h = [] /\ streak true h = None /\ streak false h = None) \/
  (h <> [] /\ is_Some (streak true h) /\ streak false h = None) \/ (h <> [] /\ streak true h = None /\ is_Some (streak false h)).
Proof. destruct h as [|[[] t] h]; cbn; eauto 6. Qed.

Lemma held_fresh b dur t h : 0 < dur -> streak b h = None -> held b dur ((b, t) :: h) = false.
Proof. intros Hd Hs. unfold held. rewrite streak_cons, Hs, eqb_reflx. cbn [default]. rewrite Sub_diag. lia. Qed.

Lemma held_again b dur t h t0 : streak b h = Some t0 -> held b dur ((b, t) :: h) = (dur <=? Sub t t0).
Proof. intros Hs. unfold held. by rewrite streak_cons, Hs, eqb_reflx. Qed.

Lemma held_other b dur t h : held b dur ((negb b, t) :: h) = false.
Proof. unfold held. rewrite streak_cons. by destruct b. Qed.

(** The fire history after a move. *)
Definition next_fires (d : Dwell) (now : Time) (tr : Transition) (fires : list Time) : list Time :=
  if bool_decide (tr = TransitionFiring) then fires_after (Add now (- dw_FlapWindow d)) fires ++ [now] else fires.

(** One step of the machine on a state the history describes. *)
Lemma advance_spec d b t h fires : dwell_ok d ->
  let tr := spec_transition (normalize d) h (b, t) in
  Advance b t d (spec_state (normalize d) h fires) = (spec_state (normalize d) ((b, t) :: h) (next_fires (normalize d) t tr fires), tr).
Proof.
  intros Hd. pose proof (normalize_For d) as HF. pose proof (normalize_Resolve d Hd) as HR.
  unfold Advance, spec_state, spec_phase, spec_transition, next_fires. cbn [as_Phase as_FirstSeenAt as_Since as_ClearSince as_Fires outstanding fst snd].
  destruct (streak_one h) as [(-> & Ht & Hf)|[(Hh & [s Ht] & Hf)|(Hh & Ht & [s Hf])]];
    destruct b; destruct (outstanding (normalize d) _) as [f|] eqn:Ho; try (cbn in Ho; done);
    rewrite ?streak_cons, ?Ht, ?Hf; cbn [Bool.eqb default];
    rewrite ?(held_fresh true), ?(held_fresh false), ?(held_again true _ _ _ s), ?(held_again false _ _ _ s), ?(held_other true), ?(held_other false) by done.
  all: cbn; try (destruct (_ <=? _)); cbn; rewrite ?decide_True, ?decide_False by done; reflexivity.
Qed.

Lemma run_spec d h : dwell_ok d -> run d h = spec_state (normalize d) h (as_Fires (run d h)).
Proof.
  intros Hd. induction h as [|[b t] h IH]; [done|]. cbn [run foldr fst snd]. fold (run d h).
  rewrite IH, advance_spec by done. done.
Qed.

Lemma run_fires d b t h : dwell_ok d ->
  as_Fires (run d ((b, t) :: h)) = next_fires (normalize d) t (spec_transition (normalize d) h (b, t)) (as_Fires (run d h)).
Proof. intros Hd. cbn [run foldr fst snd]. fold (run d h). by rewrite (run_spec d h), advance_spec. Qed.

(** C27: the machine is hysteresis: after every history of verdicts, whatever their instants,
    its phase, first sighting, start and clear instant are those of the finding the
    history says is outstanding (started by a breach that held for [For] without a break,
    ended by an absence that held for [Resolve] without one), and the move it reports is
    the one from the finding before the verdict to the one after it. *)
Theorem alert_machine_is_hysteresis (d : Dwell) (h : verdicts) (b : bool) (t : Time) (Hd : dwell_ok d) :
  (exists fires, run d h = spec_state (normalize d) h fires) /\
  (Advance b t d (run d h)).2 = spec_transition (normalize d) h (b, t).
Proof.
  split; [eexists; by apply run_spec|]. rewrite (run_spec d h), advance_spec by done. done.
Qed.

Lemma alert_machine_is_hysteresis_witness :
  let h := [(true, 10 * Minute); (true, 5 * Minute); (true, 0); (false, -1)] in
  (exists fires, run DefaultDwell h = spec_state (normalize DefaultDwell) h fires) /\
  (Advance false (11 * Minute) DefaultDwell (run DefaultDwell h)).2 = TransitionClearing.
Proof.
  intros h. destruct (alert_machine_is_hysteresis DefaultDwell h false (11 * Minute)) as [H1 H2]; [unfold dwell_ok; vm_compute; done|].
  split; [exact H1|]. exact H2.
Defined.

(** ** The flap history *)

(** The instants at which a history's findings started or came back, oldest first. *)
Fixpoint fired (d : Dwell) (h : verdicts) : list Time :=
  match h with
  | [] => []
  | x :: h' => fired d h' ++ (if bool_decide (spec_transition d h' x = TransitionFiring) then [x.2] else [])
  end.

(** The clock does not run backwards: each verdict is no earlier than those before it. *)
Fixpoint in_order (now : Time) (h : verdicts) : Prop :=
  match h with [] => True | x :: h' => x.2 <= now /\ in_order x.2 h' end.

Lemma fires_after_app c l1 l2 : fires_after c (l1 ++ l2) = fires_after c l1 ++ fires_after c l2.
Proof. apply List.filter_app. Qed.

Lemma fires_after_twice c c' l : c <= c' -> fires_after c' (fires_after c l) = fires_after c' l.
Proof.
  intros Hc. induction l as [|t l IH]; [done|]. unfold fires_after, After in *. cbn.
  destruct (c <? t) eqn:E; cbn; rewrite IH; [done|]. destruct (c' <? t) eqn:E'; [lia|done].
Qed.

Lemma fires_kept d h now : dwell_ok d -> in_order now h ->
  let c := Add now (- dw_FlapWindow (normalize d)) in fires_after c (as_Fires (run d h)) = fires_after c (fired (normalize d) h).
Proof.
  intros Hd. revert now. induction h as [|[b t] h IH]; intros now; [done|]. intros [Ht Ho] c. cbn [snd] in *.
  rewrite run_fires by done. cbn [fired]. rewrite fires_after_app. unfold next_fires. cbn [snd].
  assert (in_order now h) as Ho' by (destruct h as [|y h]; [done|destruct Ho; split; [lia|done]]).
  case_bool_decide; [|by rewrite app_nil_r; apply IH].
  rewrite fires_after_app, fires_after_twice by (unfold c, Add; lia). f_equal. by apply IH.
Qed.

(** The recurrences the machine reports are the firings of the whole history that lie
    inside the window, less the one that started the sequence: pruning the history at
    each firing loses none of them. *)
Theorem recurrences_are_exact (d : Dwell) (h : verdicts) (now : Time) (Hd : dwell_ok d) (Ho : in_order now h) :
  Recurrences now d (run d h) =
  Z.max 0 (Z.of_nat (length (List.filter (fun t => now - dw_FlapWindow (normalize d) <? t) (fired (normalize d) h))) - 1).
Proof.
  unfold Recurrences. rewrite (fires_kept d h now Hd Ho). unfold fires_after, After, Add.
  replace (now + - dw_FlapWindow (normalize d)) with (now - dw_FlapWindow (normalize d)) by lia.
  case_match; lia.
Qed.

(** A finding that clears and comes back every other minute. *)
Definition flappy : verdicts :=
  ((fun n => (negb (Z.even n), n * Minute)) <$> [21; 20; 19; 18; 17; 16; 15; 14; 13; 12]) ++ [(true, 11 * Minute); (true, Minute)].

Lemma recurrences_are_exact_witness :
  Recurrences (22 * Minute) DefaultDwell (run DefaultDwell flappy) = 5 /\
  Flapping (22 * Minute) DefaultDwell (run DefaultDwell flappy) = true.
Proof.
  split; [|vm_compute; reflexivity].
  pose proof (recurrences_are_exact DefaultDwell flappy (22 * Minute)) as H.
  refine (eq_trans (H _ _) _); [unfold dwell_ok; vm_compute; done| |vm_compute; reflexivity].
  vm_compute. repeat split; discriminate.
Defined.

(** ** Sustained verdicts *)

Lemma held_newest b dur h : held b dur h = true -> is_Some (streak b h).
Proof. unfold held. destruct h as [|[b' t] h]; [done|]. destruct (streak b _); [eauto|done]. Qed.

Lemma held_starts d h : held true (dw_For d) h = true -> outstanding d h <> None.
Proof.
  intros Hh. pose proof (held_newest _ _ _ Hh) as [s Hs]. destruct h as [|[b t] h]; [done|]. cbn [outstanding].
  destruct (outstanding d h); [|by rewrite Hh]. destruct b; [|by cbn in Hs]. by rewrite (held_other false).
Qed.

Lemma held_ends d h : held false (dw_Resolve d) h = true -> outstanding d h = None.
Proof.
  intros Hh. pose proof (held_newest _ _ _ Hh) as [s Hs]. destruct h as [|[b t] h]; [done|]. cbn [outstanding]. rewrite Hh.
  destruct (outstanding d h); [done|]. destruct b; [by cbn in Hs|]. by rewrite (held_other true).
Qed.

(** A breach that has held for [For] is firing, and an absence that has held for
    [Resolve] has ended the finding, whatever came before: no history keeps the machine
    from either. *)
Theorem sustained_verdict_settles (d : Dwell) (h : verdicts) (Hd : dwell_ok d) :
  (held true (dw_For (normalize d)) h = true -> as_Phase (run d h) = PhaseFiring) /\
  (held false (dw_Resolve (normalize d)) h = true -> as_Phase (run d h) = PhaseOK).
Proof.
  rewrite (run_spec d h Hd). cbn [spec_state as_Phase]. unfold spec_phase. split; intros Hh; pose proof (held_newest _ _ _ Hh) as [s Hs].
  - pose proof (held_starts _ _ Hh). rewrite Hs. by destruct (outstanding _ _).
  - rewrite (held_ends _ _ Hh). destruct (streak_one h) as [(_ & _ & Hf)|[(_ & _ & Hf)|(_ & Ht & _)]]; [congruence..|]. by rewrite Ht.
Qed.

Lemma sustained_verdict_settles_witness :
  as_Phase (run DefaultDwell ((true, 31 * Minute) :: flappy)) = PhaseFiring /\
  as_Phase (run DefaultDwell ((false, 62 * Minute) :: (false, 32 * Minute) :: flappy)) = PhaseOK.
Proof.
  assert (dwell_ok DefaultDwell) as Hd by (unfold dwell_ok; vm_compute; done). split.
  - apply (proj1 (sustained_verdict_settles DefaultDwell ((true, 31 * Minute) :: flappy) Hd)). vm_compute. reflexivity.
  - apply (proj2 (sustained_verdict_settles DefaultDwell ((false, 62 * Minute) :: (false, 32 * Minute) :: flappy) Hd)). vm_compute. reflexivity.
Defined.

(** ** Restarts *)

(** The state after a restart at which [rec] met the verdict [x], and then the verdicts [h]. *)
Definition resume (d : Dwell) (rec : AlertRecord) (x : bool * Time) (h : verdicts) : AlertState :=
  foldr (fun y s => (Advance y.1 y.2 d s).1) (ar_State (Reconcile rec x.1 x.2 d).1) h.

Lemma repair_phase now s : as_Phase (repair now s) = match as_Phase s with PhaseOther _ => PhaseOK | p => p end.
Proof. unfold repair. destruct s as [[] f si c l]; cbn; repeat case_match; done. Qed.

Lemma arrival_phase now s : as_Phase (arrival now s) = match as_Phase s with PhaseOther _ => PhaseOK | p => p end.
Proof. unfold arrival. rewrite <- (repair_phase now s). case_bool_decide; done. Qed.

Lemma arrival_clear now s : as_Phase (arrival now s) = PhaseResolving -> as_ClearSince (arrival now s) = now.
Proof. unfold arrival. case_bool_decide; cbn; [done|congruence]. Qed.

Lemma Reconcile_eq rec b now d :
  Reconcile rec b now d = (rec <| ar_State := (Advance b now d (arrival now (ar_State rec))).1 |>, (Advance b now d (arrival now (ar_State rec))).2).
Proof. unfold Reconcile. by destruct (Advance _ _ _ _). Qed.

(** What the verdicts [h] alone say of a state that came out of them: a firing one was
    just breached, a resolving one has been clear since [ClearSince]. *)
Definition clear_known (h : verdicts) (s : AlertState) : Prop :=
  (as_Phase s = PhaseFiring -> streak false h = None) /\ (as_Phase s = PhaseResolving -> streak false h = Some (as_ClearSince s)).

Lemma advance_clear_known d b t h s : clear_known h s -> clear_known ((b, t) :: h) (Advance b t d s).1.
Proof.
  unfold clear_known, Advance. intros [Hf Hr]. destruct (as_Phase s) eqn:Hp; destruct b; cbn; try case_match; cbn; rewrite ?Hp; try (split; congruence).
  - rewrite Hf by done. split; [done|]. by intros _.
  - rewrite Hr by done. split; [done|]. by intros _.
Qed.

Lemma reconcile_clear_known d rec x : clear_known [x] (ar_State (Reconcile rec x.1 x.2 d).1).
Proof.
  destruct x as [b now]. rewrite Reconcile_eq. cbn [fst snd ar_State].
  pose proof (arrival_clear now (ar_State rec)) as Hst. set (st := arrival _ _) in *.
  unfold Advance. destruct (as_Phase st) eqn:Hp; destruct b; cbn; try case_match; cbn; unfold clear_known; rewrite ?Hp; cbn; try (split; congruence).
  rewrite Hst by done. done.
Qed.

Lemma resume_clear_known d rec x h : clear_known (h ++ [x]) (resume d rec x h).
Proof.
  induction h as [|[b t] h IH]; [apply reconcile_clear_known|]. cbn [resume foldr fst snd]. by apply advance_clear_known.
Qed.

(** A restart ends no finding early. Whatever the persisted record holds, the first
    verdict after the restart never resolves it; a finding that was outstanding still is
    after that verdict; and a later verdict resolves it only when the verdicts since the
    restart have been clear for [Resolve] without a break, however long the process was
    down. *)
Theorem restart_ends_no_finding_early (d : Dwell) (rec : AlertRecord) (b0 : bool) (t0 : Time) (h : verdicts) (b : bool) (t : Time) (Hd : dwell_ok d) :
  (Reconcile rec b0 t0 d).2 <> TransitionResolved /\
  (Firing (as_Phase (ar_State rec)) = true -> Firing (as_Phase (ar_State (Reconcile rec b0 t0 d).1)) = true) /\
  ((Advance b t d (resume d rec (b0, t0) h)).2 = TransitionResolved ->
    held false (dw_Resolve (normalize d)) ((b, t) :: h ++ [(b0, t0)]) = true).
Proof.
  pose proof (normalize_Resolve d Hd) as HR. split; [|split].
  - rewrite Reconcile_eq. unfold Advance. pose proof (arrival_clear t0 (ar_State rec)) as Hst. set (st := arrival _ _) in *.
    destruct (as_Phase st) eqn:Hp; destruct b0; cbn; try (case_match; cbn); try done.
    rewrite Hst, Sub_diag in * by done. lia.
  - rewrite Reconcile_eq. pose proof (arrival_phase t0 (ar_State rec)) as Hp. pose proof (arrival_clear t0 (ar_State rec)) as Hst. intros Hf.
    destruct (as_Phase (ar_State rec)) eqn:Hr; try done; unfold Advance; rewrite Hp; destruct b0; cbn; rewrite ?Hp; try done.
    rewrite Hst, Sub_diag by done. destruct (_ <=? 0) eqn:E; [lia|]. cbn. by rewrite Hp.
  - intros Hr. pose proof (resume_clear_known d rec (b0, t0) h) as [_ Hk]. unfold Advance in Hr.
    destruct (as_Phase (resume _ _ _ _)) eqn:Hp; destruct b; cbn in Hr; try (case_match; cbn in Hr); try done.
    rewrite (held_again _ _ _ _ _ (Hk eq_refl)). done.
Qed.

(** A process that was down for two hours while its finding was resolving. *)
Definition stale : AlertRecord := mkRecord "" "Deployment/shop/web" "zone" (mkAlert PhaseResolving 100 200 300 [200]) 300.

Lemma restart_ends_no_finding_early_witness :
  (Reconcile stale false (2 * Hour) DefaultDwell).2 = TransitionNone /\
  Firing (as_Phase (ar_State (Reconcile stale false (2 * Hour) DefaultDwell).1)) = true /\
  held false (30 * Minute) [(false, 2 * Hour + 30 * Minute); (false, 2 * Hour + Minute); (false, 2 * Hour)] = true.
Proof.
  destruct (restart_ends_no_finding_early DefaultDwell stale false (2 * Hour) [(false, 2 * Hour + Minute)] false (2 * Hour + 30 * Minute)) as (_ & Hf & Hr);
    [unfold dwell_ok; vm_compute; done|].
  split; [vm_compute; reflexivity|]. split; [apply Hf; vm_compute; reflexivity|]. exact (Hr ltac:(vm_compute; reflexivity)).
Defined.

(** ** Delivery backoff *)

Lemma backoff_loop_exact n window b : 0 < b < 2 ^ 62 -> window <= 2 ^ 62 ->
  backoff_loop n window b = if (n =? 0)%nat then b else Z.min window (b * 2 ^ Z.of_nat n).
Proof.
  intros Hb Hw. revert b Hb. induction n as [|n IH]; intros b Hb; [done|]. cbn [backoff_loop Nat.eqb].
  rewrite wrap64_id by (unfold in_int64, int64_min, int64_max; lia). rewrite Nat2Z.inj_succ, Z.pow_succ_r by lia.
  assert (1 <= 2 ^ Z.of_nat n) as Hp by (pose proof (Z.pow_pos_nonneg 2 (Z.of_nat n)); lia).
  destruct (window <=? b * 2) eqn:E; [apply Z.leb_le in E; nia|].
  rewrite IH by lia. destruct n; [cbn in *; lia|]. cbn [Nat.eqb]. f_equal. lia.
Qed.

(** The wait before a flapping finding is delivered again: none until it is flapping,
    then [For], then [For] doubled once per further recurrence up to the window, with no
    wrap-around. The first wait is [For] even when the window is shorter. *)
Theorem delivery_backoff_doubles (d : Dwell) (now : Time) (s : AlertState)
    (Hf : dw_For (normalize d) < 2 ^ 62) (Hw : dw_FlapWindow (normalize d) <= 2 ^ 62) :
  let excess := Recurrences now (normalize d) s - dw_FlapCount (normalize d) in
  DeliveryBackoff now d s =
    (if excess <=? 0 then 0
     else if excess =? 1 then dw_For (normalize d)
     else Z.min (dw_FlapWindow (normalize d)) (dw_For (normalize d) * 2 ^ (excess - 1))).
Proof.
  unfold DeliveryBackoff. cbv zeta. set (excess := Recurrences _ _ _ - _). destruct (excess <=? 0) eqn:E; [done|].
  pose proof (normalize_For d). rewrite backoff_loop_exact by lia. destruct (excess =? 1) eqn:E1.
  - replace (Z.to_nat (excess - 1)) with 0%nat by lia. done.
  - destruct (Z.to_nat (excess - 1) =? 0)%nat eqn:E0; [apply Nat.eqb_eq in E0; lia|]. f_equal. f_equal. f_equal. lia.
Qed.

(** A window shorter than [For] does not cap the first wait. *)
Lemma delivery_backoff_doubles_witness :
  DeliveryBackoff (22 * Minute) DefaultDwell (run DefaultDwell flappy) = 20 * Minute /\
  DeliveryBackoff (21 * Minute) (mkDwell (10 * Minute) 0 1 (5 * Minute)) (run (mkDwell (10 * Minute) 0 1 (5 * Minute)) flappy) = 10 * Minute.
Proof.
  split.
  - refine (eq_trans (delivery_backoff_doubles DefaultDwell (22 * Minute) (run DefaultDwell flappy) _ _) _); vm_compute; [reflexivity|discriminate|reflexivity].
  - refine (eq_trans (delivery_backoff_doubles (mkDwell (10 * Minute) 0 1 (5 * Minute)) (21 * Minute) _ _ _) _); vm_compute; [reflexivity|discriminate|reflexivity].
Defined.
