(* ===== verification/DriftAlerts.v ===== *)
(** The episodes of the placement source (src/pkg/sources/topologydrift: alerts.go, the
    alert half of source.go, emit.go): one alert machine per subject and axis, the pass
    that runs them all against one set of verdicts, and the rows that persist them.

    A pass runs under the lock, so it is one step. The rows are a map of the keys the
    store uses; a write that fails leaves them as they were, and [ok] says which writes
    succeed. *)
From S2P Require Import Prelude GoTime GoStrings LeewayTopology LeewayScore LeewayAlert.
From Stdlib Require Import Ascii.
Open Scope Z_scope.
Open Scope lookout_scope.

(** ** Episodes *)

Notation alertKey := (SubjectRef * TopologyKey)%type (only parsing).

Record alertEntry := mkEntry { en_state : AlertState; en_tier : Tier }.

Record Alerts := mkAlerts {
  al_dwell : Dwell; al_byKey : gmap alertKey alertEntry; al_pending : gmap alertKey AlertRecord; al_pendingAt : Time
}.

Definition NewAlerts (d : Dwell) : Alerts := mkAlerts d ∅ ∅ zero_time.

Record Outcome := mkOutcome {
  oc_Subject : SubjectRef; oc_Key : TopologyKey; oc_Transition : Transition; oc_State : AlertState; oc_Tier : Tier; oc_Gone : bool
}.

Definition outcome (k : alertKey) (tr : Transition) (st : AlertState) (tier : Tier) (gone : bool) : Outcome :=
  mkOutcome k.1 k.2 tr st tier gone.

Record Judgement := mkJudgement { jd_Subject : SubjectRef; jd_Key : TopologyKey; jd_Breached : bool; jd_Tier : Tier }.

Definition scoredHere (kind : SubjectKind) : bool :=
  bool_decide (kind ∈ [SubjectDeployment; SubjectStatefulSet; SubjectDaemonSet; SubjectJob; SubjectNodeGroup; SubjectCustom; SubjectDomain]).

(** The key of a record this source owns. *)
Definition record_key (rec : AlertRecord) : option alertKey :=
  match ParseSubjectRef (ar_SubjectKey rec) with
  | Some sub => if scoredHere (sr_Kind sub) then Some (sub, ar_TopologyKey rec) else None
  | None => None
  end.

Definition Load (records : list AlertRecord) (at_ : Time) (a : Alerts) : Alerts * Z :=
  let pending := foldl (fun m rec => match record_key rec with Some k => <[k := rec]> m | None => m end) ∅ records in
  (a <| al_pending := pending |> <| al_pendingAt := at_ |>, Z.of_nat (size pending)).

Definition jd_key (j : Judgement) : alertKey := (jd_Subject j, jd_Key j).

(** One verdict of a pass. *)
Definition pass_one (now : Time) (x : Alerts * list Outcome) (j : Judgement) : Alerts * list Outcome :=
  let '(a, out) := x in
  let k := jd_key j in
  match al_byKey a !! k with
  | Some entry =>
      let '(st, tr) := Advance (jd_Breached j) now (al_dwell a) (en_state entry) in
      if bool_decide (as_Phase st = PhaseOK) then (a <| al_byKey ::= delete k |>, out ++ [outcome k tr st (jd_Tier j) true])
      else (a <| al_byKey ::= <[k := mkEntry st (jd_Tier j)]> |>,
            if bool_decide (tr = TransitionNone) then out else out ++ [outcome k tr st (jd_Tier j) false])
  | None =>
      match al_pending a !! k with
      | Some rec =>
          let a := a <| al_pending ::= delete k |> in
          let '(rec, tr) := Reconcile rec (jd_Breached j) now (al_dwell a) in
          if bool_decide (as_Phase (ar_State rec) = PhaseOK) then (a, out ++ [outcome k tr (ar_State rec) (jd_Tier j) true])
          else (a <| al_byKey ::= <[k := mkEntry (ar_State rec) (jd_Tier j)]> |>, out ++ [outcome k tr (ar_State rec) (jd_Tier j) false])
      | None =>
          if negb (jd_Breached j) then (a, out)
          else
            let '(st, tr) := Advance true now (al_dwell a) zero_alert in
            (a <| al_byKey ::= <[k := mkEntry st (jd_Tier j)]> |>, out ++ [outcome k tr st (jd_Tier j) false])
      end
  end.

Section pass.
Context `{RangeOrder}.

Definition sweep_untracked (seen : gset alertKey) (x : Alerts * list Outcome) (ke : alertKey * alertEntry) : Alerts * list Outcome :=
  let '(a, out) := x in
  if bool_decide (ke.1 ∈ seen) then x
  else (a <| al_byKey ::= delete ke.1 |>, out ++ [outcome ke.1 TransitionNone (en_state ke.2) (en_tier ke.2) true]).

Definition Pass (js : list Judgement) (now : Time) (reconcileGrace : Duration) (a : Alerts) : Alerts * list Outcome :=
  let seen := list_to_set (jd_key <$> js) in
  let x := foldl (pass_one now) (a, []) js in
  let '(a, out) := foldl (sweep_untracked seen) x (range 60 (al_byKey x.1)) in
  if (0 <? Z.of_nat (size (al_pending a))) && (reconcileGrace <=? Sub now (al_pendingAt a))
  then (a <| al_pending := ∅ |>, out ++ ((fun kr => outcome kr.1 TransitionNone zero_alert TierNone true) <$> range 61 (al_pending a)))
  else (a, out).

Definition Alerts_Len (a : Alerts) : Z := Z.of_nat (size (al_byKey a)).
Definition PendingLen (a : Alerts) : Z := Z.of_nat (size (al_pending a)).

Definition StateOf (a : Alerts) (sub : SubjectRef) (key : TopologyKey) : AlertState * bool :=
  match al_byKey a !! (sub, key) with Some entry => (en_state entry, true) | None => (zero_alert, false) end.

(** ** Rows and emission *)

Notation rows := (gmap (string * string) AlertRecord) (only parsing).

Definition row_key (k : alertKey) : string * string := (SubjectRef_String k.1, k.2).

Definition persistOutcome (cluster : string) (ok : Outcome -> bool) (now : Time) (store : rows) (o : Outcome) : rows :=
  let k := (oc_Subject o, oc_Key o) in
  if oc_Gone o then if ok o then delete (row_key k) store else store
  else if bool_decide (oc_Transition o = TransitionNone) then store
  else if ok o then <[row_key k := mkRecord cluster (row_key k).1 (row_key k).2 (oc_State o) now]> store
  else store.

(** The outcomes a pass announces: [emitFinding] is called on each. *)
Definition announced (out : list Outcome) : list Outcome := List.filter (fun o => bool_decide (oc_Transition o = TransitionFiring)) out.

Definition runAlertPass (cluster : string) (ok : Outcome -> bool) (js : list Judgement) (now : Time) (reconcileGrace : Duration)
    (x : Alerts * rows) : (Alerts * rows) * list Outcome :=
  let '(a, out) := Pass js now reconcileGrace x.1 in
  ((a, foldl (persistOutcome cluster ok now) x.2 out), announced out).

(** A new process: the machine is empty and reads the rows, in some order; [None]: the read fails. *)
Definition loadAlertState (d : Dwell) (records : option (list AlertRecord)) (now : Time) : Alerts :=
  match records with
  | None => NewAlerts d
  | Some records => (Load records now (NewAlerts d)).1
  end.
End pass.

(** ** A pass, one key at a time *)

(** The outcomes of one key. *)
Definition outs_at (k : alertKey) (out : list Outcome) : list Outcome :=
  List.filter (fun o => bool_decide ((oc_Subject o, oc_Key o) = k)) out.
#[local] Arguments outs_at : simpl never.
#[local] Arguments outcome : simpl never.

(** An episode after a move: dropped once it is over; a live one that did not move is not reported. *)
Definition settle (k : alertKey) (tier : Tier) (p : option AlertRecord) (st : AlertState) (tr : Transition) (live : bool)
    : option alertEntry * option AlertRecord * list Outcome :=
  if bool_decide (as_Phase st = PhaseOK) then (None, p, [outcome k tr st tier true])
  else (Some (mkEntry st tier), p, if live && bool_decide (tr = TransitionNone) then [] else [outcome k tr st tier false]).

(** What the verdict on a key does to its episode, its waiting record and its outcomes. *)
Definition judge_at (d : Dwell) (now : Time) (k : alertKey) (b : bool) (tier : Tier)
    (e : option alertEntry) (p : option AlertRecord) : option alertEntry * option AlertRecord * list Outcome :=
  match e, p with
  | Some entry, _ => let '(st, tr) := Advance b now d (en_state entry) in settle k tier p st tr true
  | None, Some rec => let '(rec, tr) := Reconcile rec b now d in settle k tier None (ar_State rec) tr false
  | None, None => if b then let '(st, tr) := Advance true now d zero_alert in settle k tier None st tr false else (None, None, [])
  end.

(** What a whole pass does to them. *)
Definition step_at (d : Dwell) (now : Time) (expired : bool) (k : alertKey) (v : option Judgement)
    (e : option alertEntry) (p : option AlertRecord) : option alertEntry * option AlertRecord * list Outcome :=
  let '(e, p, out) :=
    match v with
    | Some j => judge_at d now k (jd_Breached j) (jd_Tier j) e p
    | None => (None, p, match e with Some entry => [outcome k TransitionNone (en_state entry) (en_tier entry) true] | None => [] end)
    end in
  if expired then (e, None, out ++ match p with Some _ => [outcome k TransitionNone zero_alert TierNone true] | None => [] end) else (e, p, out).

Definition verdict_on (k : alertKey) (js : list Judgement) : option Judgement := snd <$> list_find (fun j => jd_key j = k) js.

Lemma outs_at_app k l1 l2 : outs_at k (l1 ++ l2) = outs_at k l1 ++ outs_at k l2.
Proof. apply List.filter_app. Qed.

Lemma outs_at_cons k o l : outs_at k (o :: l) = outs_at k [o] ++ outs_at k l.
Proof. apply (outs_at_app k [o]). Qed.

Lemma outs_at_same k tr st tier gone : outs_at k [outcome k tr st tier gone] = [outcome k tr st tier gone].
Proof. destruct k. unfold outs_at, outcome. cbn. by rewrite bool_decide_eq_true_2. Qed.

Lemma outs_at_other k k' tr st tier gone : k' <> k -> outs_at k [outcome k' tr st tier gone] = [].
Proof. destruct k'. intros Hk. unfold outs_at, outcome. cbn. by rewrite bool_decide_eq_false_2. Qed.

(** One key's share of a pass in progress. *)
Definition at_key (k : alertKey) (x : Alerts * list Outcome) : option alertEntry * option AlertRecord * list Outcome :=
  (al_byKey x.1 !! k, al_pending x.1 !! k, outs_at k x.2).

Lemma pass_one_same now a out j :
  let '(e, p, l) := judge_at (al_dwell a) now (jd_key j) (jd_Breached j) (jd_Tier j) (al_byKey a !! jd_key j) (al_pending a !! jd_key j) in
  at_key (jd_key j) (pass_one now (a, out) j) = (e, p, outs_at (jd_key j) out ++ l).
Proof.
  unfold judge_at, settle, pass_one, at_key. destruct (al_byKey a !! jd_key j) as [entry|] eqn:He.
  - destruct (Advance _ _ _ _) as [st tr]. repeat case_bool_decide; cbn;
      rewrite ?lookup_delete_eq, ?lookup_insert_eq, ?outs_at_app, ?outs_at_same, ?app_nil_r; done.
  - destruct (al_pending a !! jd_key j) as [rec|] eqn:Hp.
    + destruct (Reconcile _ _ _ _) as [rec' tr]. case_bool_decide; cbn;
        rewrite ?He, ?lookup_delete_eq, ?lookup_insert_eq, ?outs_at_app, ?outs_at_same; done.
    + destruct (jd_Breached j); cbn; [|by rewrite He, Hp, app_nil_r].
      rewrite lookup_insert_eq, Hp, outs_at_app, outs_at_same. done.
Qed.

Lemma pass_one_other now x j k : jd_key j <> k -> at_key k (pass_one now x j) = at_key k x.
Proof.
  intros Hk. destruct x as [a out]. unfold pass_one, at_key. repeat case_match; simplify_eq/=;
    rewrite ?lookup_delete_ne, ?lookup_insert_ne, ?outs_at_app, ?outs_at_other, ?app_nil_r by done; done.
Qed.

Lemma pass_one_dwell now x j : al_dwell (pass_one now x j).1 = al_dwell x.1 /\ al_pendingAt (pass_one now x j).1 = al_pendingAt x.1.
Proof. destruct x as [a out]. unfold pass_one. repeat case_match; simplify_eq/=; done. Qed.

Lemma pass_fold_other now k js x : Forall (fun j => jd_key j <> k) js -> at_key k (foldl (pass_one now) x js) = at_key k x.
Proof. revert x. induction js as [|j js IH]; intros x Hjs; [done|]. inversion_clear Hjs. cbn. rewrite IH by done. by apply pass_one_other. Qed.

Lemma pass_fold_dwell now js x : al_dwell (foldl (pass_one now) x js).1 = al_dwell x.1 /\ al_pendingAt (foldl (pass_one now) x js).1 = al_pendingAt x.1.
Proof.
  revert x. induction js as [|j js IH]; intros x; [done|]. cbn. destruct (IH (pass_one now x j)) as [-> ->]. apply pass_one_dwell.
Qed.

Lemma verdict_on_cons k j js : verdict_on k (j :: js) = if decide (jd_key j = k) then Some j else verdict_on k js.
Proof. unfold verdict_on. cbn. destruct (decide _); [done|]. by destruct (list_find _ js) as [[]|]. Qed.

Lemma pass_fold_at now k js x : NoDup (jd_key <$> js) ->
  at_key k (foldl (pass_one now) x js) =
  match verdict_on k js with
  | Some j => let '(e, p, l) := judge_at (al_dwell x.1) now k (jd_Breached j) (jd_Tier j) (al_byKey x.1 !! k) (al_pending x.1 !! k) in (e, p, outs_at k x.2 ++ l)
  | None => at_key k x
  end.
Proof.
  revert x. induction js as [|j js IH]; intros x Hnd; [done|]. cbn [fmap list_fmap] in Hnd. apply list.NoDup_cons in Hnd as [Hj Hnd].
  rewrite verdict_on_cons. cbn [foldl]. destruct (decide (jd_key j = k)) as [<-|Hk].
  - rewrite pass_fold_other.
    + destruct x as [a out]. pose proof (pass_one_same now a out j) as Hs. cbn [fst snd]. by destruct (judge_at _ _ _ _ _ _ _) as [[e p] l].
    + apply list.Forall_forall. intros j' Hj' Heq. apply Hj. rewrite <- Heq. apply list_elem_of_fmap. eauto.
  - rewrite IH by done. destruct (pass_one_dwell now x j) as [-> _]. pose proof (pass_one_other now x j k Hk) as Ho. unfold at_key in Ho |- *.
    injection Ho as -> -> ->. done.
Qed.

Section pass_at.
Context `{RangeOrder}.

(** The sweep touches the keys it visits, once each. *)
Lemma sweep_fold_at seen k l x : NoDup l.*1 ->
  at_key k (foldl (sweep_untracked seen) x l) =
  match list_find (fun ke => ke.1 = k) l with
  | Some (_, ke) => if decide (k ∈ seen) then at_key k x
                    else (None, al_pending x.1 !! k, outs_at k x.2 ++ [outcome k TransitionNone (en_state ke.2) (en_tier ke.2) true])
  | None => at_key k x
  end /\ al_dwell (foldl (sweep_untracked seen) x l).1 = al_dwell x.1 /\ al_pendingAt (foldl (sweep_untracked seen) x l).1 = al_pendingAt x.1
  /\ al_pending (foldl (sweep_untracked seen) x l).1 = al_pending x.1.
Proof.
  revert x. induction l as [|[k' e] l IH]; intros x Hnd; [done|]. cbn [fmap list_fmap fst] in Hnd. apply list.NoDup_cons in Hnd as [Hk' Hnd].
  cbn [foldl]. destruct (IH (sweep_untracked seen x (k', e)) Hnd) as (-> & -> & -> & ->). destruct x as [a out].
  split; [|unfold sweep_untracked; cbn; case_bool_decide; done]. cbn [list_find fst].
  destruct (decide (k' = k)) as [->|Hk].
  - assert (list_find (fun ke : alertKey * alertEntry => ke.1 = k) l = None) as ->.
    { apply list_find_None, list.Forall_forall. intros [k1 e1] Hin Heq. cbn in Heq. subst k1. apply Hk'. apply list_elem_of_fmap. by exists (k, e1). }
    unfold sweep_untracked, at_key. cbn [fst snd]. rewrite <- decide_bool_decide. destruct (decide (k ∈ seen)); [done|]. cbn.
    by rewrite lookup_delete_eq, outs_at_app, outs_at_same.
  - assert (at_key k (sweep_untracked seen (a, out) (k', e)) = at_key k (a, out)) as Heq.
    { unfold sweep_untracked, at_key. case_bool_decide; [done|]. cbn. by rewrite lookup_delete_ne, outs_at_app, outs_at_other, app_nil_r. }
    rewrite Heq. unfold at_key in Heq. pose proof (f_equal (fun z => z.1.2) Heq) as H1. pose proof (f_equal snd Heq) as H2.
    cbn [fst snd] in H1, H2. rewrite H1, H2. by destruct (list_find _ l) as [[? ?]|].
Qed.
Lemma outs_at_pending k (l : list (alertKey * AlertRecord)) : NoDup l.*1 ->
  outs_at k ((fun kr => outcome kr.1 TransitionNone zero_alert TierNone true) <$> l) =
  match list_find (fun kr => kr.1 = k) l with Some _ => [outcome k TransitionNone zero_alert TierNone true] | None => [] end.
Proof.
  induction l as [|[k' r] l IH]; intros Hnd; [done|]. cbn [fmap list_fmap fst] in Hnd. apply list.NoDup_cons in Hnd as [Hk' Hnd].
  cbn [fmap list_fmap fst list_find]. rewrite outs_at_cons, IH by done. destruct (decide (k' = k)) as [->|Hk].
  - assert (list_find (fun kr : alertKey * AlertRecord => kr.1 = k) l = None) as ->.
    { apply list_find_None, list.Forall_forall. intros [k1 r1] Hin Heq. cbn in Heq. subst k1. apply Hk'. apply list_elem_of_fmap. by exists (k, r1). }
    by rewrite outs_at_same.
  - rewrite outs_at_other by done. by destruct (list_find _ l) as [[? ?]|].
Qed.

Lemma find_range {V} (visit : nat) (m : gmap alertKey V) (k : alertKey) :
  match list_find (fun kv => kv.1 = k) (range visit m) with Some (_, kv) => kv.1 = k /\ m !! k = Some kv.2 | None => m !! k = None end.
Proof.
  destruct (list_find _ _) as [[i [k' v]]|] eqn:Hf.
  - apply list_find_Some in Hf as (Hi & Hk & _). cbn in *. subst k'. split; [done|]. apply (elem_of_range visit), list_elem_of_lookup. eauto.
  - apply list_find_None in Hf. apply eq_None_not_Some. intros [v Hv]. apply (elem_of_range visit) in Hv.
    rewrite list.Forall_forall in Hf. by apply (Hf _ Hv).
Qed.

(** A pass over verdicts with one per key does to each key what its own verdict says. *)
Lemma Pass_at js now grace a k : NoDup (jd_key <$> js) ->
  at_key k (Pass js now grace a) =
  step_at (al_dwell a) now (grace <=? Sub now (al_pendingAt a)) k (verdict_on k js) (al_byKey a !! k) (al_pending a !! k).
Proof.
  intros Hnd. unfold Pass, step_at. set (seen := list_to_set _).
  pose proof (pass_fold_at now k js (a, []) Hnd) as Hat. destruct (pass_fold_dwell now js (a, [])) as [Hd Hpa]. cbn [fst snd] in *.
  set (x := foldl (pass_one now) (a, []) js) in *.
  destruct (sweep_fold_at seen k (range 60 (al_byKey x.1)) x (NoDup_fst_range _ _)) as (Hs & _ & Hsa & Hsp).
  pose proof (find_range 60 (al_byKey x.1) k) as Hfr.
  destruct (foldl (sweep_untracked seen) x (range 60 (al_byKey x.1))) as [a' out'] eqn:Hx'. cbn [fst snd] in *. rewrite Hsa, Hsp, Hpa.
  assert (at_key k (a', out') = match verdict_on k js with
    | Some j => judge_at (al_dwell a) now k (jd_Breached j) (jd_Tier j) (al_byKey a !! k) (al_pending a !! k)
    | None => (None, al_pending a !! k, match al_byKey a !! k with Some entry => [outcome k TransitionNone (en_state entry) (en_tier entry) true] | None => [] end)
    end) as Hmid.
  { rewrite Hs. destruct (verdict_on k js) as [j|] eqn:Hv.
    - destruct (judge_at _ _ _ _ _ _ _) as [[e p] l]. change (outs_at k [] ++ l) with l in Hat. rewrite <- Hat. destruct (list_find _ _) as [[? ke]|]; [|done]. rewrite decide_True; [done|].
      unfold verdict_on in Hv. destruct (list_find _ js) as [[i j']|] eqn:Hf; [|done]. apply list_find_Some in Hf as (Hi & <- & _).
      unfold seen. apply elem_of_list_to_set, list_elem_of_fmap. exists j'. split; [done|]. apply list_elem_of_lookup. eauto.
    - unfold at_key in Hat. pose proof (f_equal (fun z => z.1.1) Hat) as Hb. pose proof (f_equal (fun z => z.1.2) Hat) as Hp.
      pose proof (f_equal snd Hat) as Ho. cbn [fst snd] in Hb, Hp, Ho. rewrite <- Hb, <- Hp in *. unfold at_key.
      destruct (list_find _ _) as [[? ke]|]; [|by rewrite Hfr, Ho]. destruct Hfr as [_ ->]. rewrite decide_False; [by rewrite Ho|].
      { unfold seen. rewrite elem_of_list_to_set, list_elem_of_fmap. intros (j & -> & Hj).
        unfold verdict_on in Hv. destruct (list_find _ js) as [[? ?]|] eqn:Hf; [done|]. apply list_find_None in Hf. rewrite list.Forall_forall in Hf. by apply (Hf j). } }
  rewrite <- Hmid. destruct (grace <=? Sub now (al_pendingAt a)); cbn [at_key fst snd].
  - rewrite andb_true_r, <- Hsp. pose proof (find_range 61 (al_pending a') k) as Hp.
    destruct (0 <? _) eqn:Hsize.
    + unfold at_key. cbn. rewrite outs_at_app, outs_at_pending by apply NoDup_fst_range.
      destruct (list_find _ (range 61 _)) as [[? ?]|]; [destruct Hp as [_ ->]|rewrite Hp]; done.
    + assert (al_pending a' = ∅) as Hnil by (apply map_size_empty_iff; lia). unfold at_key. cbn. by rewrite Hnil, lookup_empty, app_nil_r.
  - rewrite andb_false_r. done.
Qed.

Lemma Pass_dwell js now grace a : al_dwell (Pass js now grace a).1 = al_dwell a /\ al_pendingAt (Pass js now grace a).1 = al_pendingAt a.
Proof.
  unfold Pass. destruct (pass_fold_dwell now js (a, [])) as [Hd Hpa]. set (x := foldl (pass_one now) (a, []) js) in *. cbn [fst] in *.
  destruct (sweep_fold_at (list_to_set (jd_key <$> js)) (zero_subject, "") (range 60 (al_byKey x.1)) x (NoDup_fst_range _ _)) as (_ & Hsd & Hsa & _).
  destruct (foldl (sweep_untracked _) _ _) as [a' out']. cbn [fst] in *. case_match; cbn; by rewrite ?Hsd, ?Hsa.
Qed.
End pass_at.

(** ** Episodes follow the verdicts on their key *)

Section episodes.
Context `{RangeOrder}.

(** The passes of one process, newest first. *)
Notation passes := (list (list Judgement * Time)) (only parsing).

(** A process reads the rows at [at_] ([None]: the read fails), then runs its passes. *)
Definition run_passes (d : Dwell) (records : option (list AlertRecord)) (at_ : Time) (grace : Duration) (ps : passes) : Alerts :=
  foldr (fun p a => (Pass p.1 p.2 grace a).1) (loadAlertState d records at_) ps.

Definition one_per_key (p : list Judgement * Time) : Prop := NoDup (jd_key <$> p.1).

(** The record of a key that was read: the last one. *)
Definition restored (k : alertKey) (records : option (list AlertRecord)) : option AlertRecord :=
  list.last (List.filter (fun r => bool_decide (record_key r = Some k)) (default [] records)).

(** Grace is over when a pass runs this long after the rows were read. *)
Definition grace_over (grace : Duration) (records : option (list AlertRecord)) (at_ now : Time) : bool :=
  grace <=? Sub now (match records with Some _ => at_ | None => zero_time end).

(** What a key has behind it: a record that waits for its first verdict; a record that met
    the verdict [x] and then the verdicts [h]; or the verdicts [h] since there was nothing. *)
Inductive key_past :=
  | Waiting (rec : AlertRecord)
  | Resumed (rec : AlertRecord) (x : bool * Time) (h : list (bool * Time))
  | Fresh (h : list (bool * Time)).

(** The episode that came out of a record, as long as it lasts. *)
Definition resumed (d : Dwell) (rec : AlertRecord) (x : bool * Time) (h : list (bool * Time)) : key_past :=
  if bool_decide (as_Phase (resume d rec x h) = PhaseOK) then Fresh [] else Resumed rec x h.

Definition next_past (d : Dwell) (over : bool) (now : Time) (v : option Judgement) (past : key_past) : key_past :=
  match past, v with
  | Waiting rec, Some j => resumed d rec (jd_Breached j, now) []
  | Waiting rec, None => if over then Fresh [] else Waiting rec
  | Resumed rec x h, Some j => resumed d rec x ((jd_Breached j, now) :: h)
  | Fresh h, Some j => Fresh ((jd_Breached j, now) :: h)
  | Resumed _ _ _, None | Fresh _, None => Fresh []
  end.

(** What the passes, and the record read before them, say of a key. *)
Definition past_of (d : Dwell) (records : option (list AlertRecord)) (at_ : Time) (grace : Duration) (k : alertKey) (ps : passes) : key_past :=
  foldr (fun p => next_past d (grace_over grace records at_ p.2) p.2 (verdict_on k p.1))
    (match restored k records with Some rec => Waiting rec | None => Fresh [] end) ps.

(** The episode a history of verdicts describes: none when there is nothing to say. *)
Definition episode_is (d : Dwell) (h : list (bool * Time)) (e : option alertEntry) : Prop :=
  match e with
  | Some e => spec_phase d h <> PhaseOK /\ exists fires, en_state e = spec_state d h fires
  | None => spec_phase d h = PhaseOK
  end.

(** The transition and the end a state machine reports on a verdict. *)
Definition moved (st : AlertState) (tr : Transition) (always : bool) : list (Transition * bool) :=
  if bool_decide (as_Phase st = PhaseOK) then [(tr, true)] else if negb always && bool_decide (tr = TransitionNone) then [] else [(tr, false)].

(** The outcomes a pass owes a key with this past: its transition when there is one (a record's
    first verdict is always reported), with whether it ended the episode; the end of the
    episode when the key is missing; the end of a record no verdict came for in time. *)
Definition owed (d : Dwell) (over : bool) (now : Time) (v : option Judgement) (past : key_past) : list (Transition * bool) :=
  match past, v with
  | Waiting rec, Some j => let '(rec, tr) := Reconcile rec (jd_Breached j) now d in moved (ar_State rec) tr true
  | Waiting rec, None => if over then [(TransitionNone, true)] else []
  | Resumed rec x h, Some j => let '(st, tr) := Advance (jd_Breached j) now d (resume d rec x h) in moved st tr false
  | Resumed _ _ _, None => [(TransitionNone, true)]
  | Fresh h, Some j =>
      let tr := spec_transition (normalize d) h (jd_Breached j, now) in
      if bool_decide (tr = TransitionNone) then []
      else [(tr, bool_decide (spec_phase (normalize d) ((jd_Breached j, now) :: h) = PhaseOK))]
  | Fresh h, None => if bool_decide (spec_phase (normalize d) h = PhaseOK) then [] else [(TransitionNone, true)]
  end.

(** The episode and the waiting record a past describes. *)
Definition past_is (d : Dwell) (past : key_past) (e : option alertEntry) (w : option AlertRecord) : Prop :=
  match past with
  | Waiting rec => e = None /\ w = Some rec
  | Resumed rec x h => w = None /\ as_Phase (resume d rec x h) <> PhaseOK /\ exists entry, e = Some entry /\ en_state entry = resume d rec x h
  | Fresh h => w = None /\ episode_is (normalize d) h e
  end.

(** The end of an episode is always a transition. *)
Lemma ending_moves d h x : spec_phase d h <> PhaseOK -> spec_phase d (x :: h) = PhaseOK -> spec_transition d h x <> TransitionNone.
Proof.
  destruct x as [b t]. unfold spec_phase, spec_transition. cbn [fst].
  destruct (outstanding d h), (outstanding d ((b, t) :: h)), (streak_one h) as [(-> & Ht & Hf)|[(Hh & [s Ht] & Hf)|(Hh & Ht & [s Hf])]]; rewrite ?Ht, ?Hf;
    destruct b; cbn; rewrite ?Ht, ?Hf; cbn; rewrite ?decide_False by done; try done.
Qed.

Lemma quiet_is_quiet d h now : spec_phase d h = PhaseOK -> 0 < dw_For d ->
  spec_phase d ((false, now) :: h) = PhaseOK /\ spec_transition d h (false, now) = TransitionNone.
Proof.
  unfold spec_phase, spec_transition. cbn [fst outstanding]. intros Hp HF.
  destruct (outstanding d h), (streak_one h) as [(-> & Ht & Hf)|[(Hh & [s Ht] & Hf)|(Hh & Ht & [s Hf])]]; rewrite ?Ht, ?Hf in *; cbn in Hp; try done;
    rewrite (held_other true); cbn; rewrite ?Hf; done.
Qed.

Lemma ok_is_zero d h : spec_phase d h = PhaseOK -> zero_alert = spec_state d h [].
Proof.
  unfold spec_state, spec_phase. destruct (outstanding d h); [by case_bool_decide|]. case_bool_decide as Hs; [|done]. rewrite Hs. done.
Qed.

(** One step of a key with nothing but verdicts behind it. *)
Lemma fresh_step d now over k v e h : dwell_ok d -> episode_is (normalize d) h e ->
  let '(e', p', out) := step_at d now over k v e None in
  past_is d (next_past d over now v (Fresh h)) e' p' /\ (fun o => (oc_Transition o, oc_Gone o)) <$> out = owed d over now v (Fresh h).
Proof.
  intros Hd He. pose proof (normalize_For d) as HF. unfold step_at, owed, past_is, next_past. destruct v as [j|].
  - destruct e as [entry|]; cbn [episode_is judge_at] in *.
    + destruct He as [Hp [fires Hs]]. rewrite Hs, advance_spec by done. unfold settle. cbn [as_Phase spec_state]. case_bool_decide as Hp'.
      * pose proof (ending_moves _ _ _ Hp Hp'). rewrite bool_decide_eq_false_2 by done. by destruct over.
      * cbn [andb]. case_bool_decide; destruct over; cbn; (split; [split; [done|]; split; [done|]; by eexists|done]).
    + destruct (jd_Breached j).
      * pose proof (advance_spec d true now h [] Hd) as Ha. cbv zeta in Ha. rewrite <- (ok_is_zero _ _ He) in Ha.
        apply pair_equal_spec in Ha as [Hst Htr]. change (TransitionPending = spec_transition (normalize d) h (true, now)) in Htr. rewrite <- Htr in *.
        pose proof (f_equal as_Phase Hst) as Hp. change (PhasePending = spec_phase (normalize d) ((true, now) :: h)) in Hp. rewrite <- Hp.
        unfold settle. cbn [Advance as_Phase zero_alert negb] in Hst |- *.
        destruct over; (split; [split; [done|]; split; [congruence|]; eexists; exact Hst|done]).
      * destruct (quiet_is_quiet (normalize d) h now He HF) as [Hq ->]. by destruct over.
  - destruct e as [entry|]; cbn [episode_is] in *.
    + destruct He as [Hp _]. rewrite bool_decide_eq_false_2 by done. by destruct over.
    + rewrite bool_decide_eq_true_2 by done. by destruct over.
Qed.

(** A state machine on its own, and what the pass does with its new state. *)
Lemma settle_moved over k tier st tr live :
  let '(e, p, out) := settle k tier None st tr live in
  let out := if over : bool then out ++ match p with Some _ => [outcome k TransitionNone zero_alert TierNone true] | None => [] end else out in
  p = None /\ (fun o => (oc_Transition o, oc_Gone o)) <$> out = moved st tr (negb live) /\
  e = (if bool_decide (as_Phase st = PhaseOK) then None else Some (mkEntry st tier)).
Proof.
  unfold settle, moved. rewrite negb_involutive. case_bool_decide; [by destruct over|]. destruct (_ && _), over; cbn; rewrite ?app_nil_r; done.
Qed.

Lemma resumed_is d rec x h tier :
  past_is d (resumed d rec x h) (if bool_decide (as_Phase (resume d rec x h) = PhaseOK) then None else Some (mkEntry (resume d rec x h) tier)) None.
Proof. unfold resumed. case_bool_decide as Hp; [done|]. cbn. split; [done|]. split; [done|]. by eexists. Qed.

Lemma step_at_follows d now over k v e w past : dwell_ok d -> past_is d past e w ->
  let '(e', p', out) := step_at d now over k v e w in
  past_is d (next_past d over now v past) e' p' /\ (fun o => (oc_Transition o, oc_Gone o)) <$> out = owed d over now v past.
Proof.
  intros Hd Hp. destruct past as [rec|rec x h|h]; cbn [past_is] in Hp.
  - destruct Hp as [-> ->]. unfold step_at, owed, next_past. destruct v as [j|]; [|by destruct over]. cbn [judge_at].
    rewrite (surjective_pairing (Reconcile _ _ _ _)). set (r := Reconcile rec _ now d).
    pose proof (settle_moved over k (jd_Tier j) (ar_State r.1) r.2 false) as Hs. destruct (settle _ _ _ _ _ _) as [[e' p'] out]. cbv zeta in Hs.
    destruct Hs as (-> & Ho & ->). rewrite app_nil_r in Ho. change (ar_State r.1) with (resume d rec (jd_Breached j, now) []).
    destruct over; rewrite ?app_nil_r; (split; [apply resumed_is|exact Ho]).
  - destruct Hp as (-> & Hph & entry & -> & Hs0). unfold step_at, owed, next_past. destruct v as [j|]; [|by destruct over]. cbn [judge_at]. rewrite Hs0.
    rewrite (surjective_pairing (Advance _ _ _ _)). set (r := Advance _ now d _).
    pose proof (settle_moved over k (jd_Tier j) r.1 r.2 true) as Hs. destruct (settle _ _ _ _ _ _) as [[e' p'] out]. cbv zeta in Hs.
    destruct Hs as (-> & Ho & ->). rewrite app_nil_r in Ho. change r.1 with (resume d rec x ((jd_Breached j, now) :: h)).
    destruct over; rewrite ?app_nil_r; (split; [apply resumed_is|exact Ho]).
  - destruct Hp as [-> He]. by apply fresh_step.
Qed.

Lemma load_restored d records at_ k : al_pending (loadAlertState d records at_) !! k = restored k records.
Proof.
  destruct records as [l|]; [|done]. unfold restored. change (default [] (Some l)) with l. cbn [loadAlertState Load fst]. change (al_pending _) with
    (foldl (fun m rec => match record_key rec with Some k => <[k := rec]> m | None => m end) (∅ : gmap alertKey AlertRecord) l).
  induction l as [|r l IH] using rev_ind; [done|]. rewrite foldl_app, List.filter_app. cbn. destruct (record_key r) as [k'|] eqn:Ek.
  - destruct (decide (k' = k)) as [->|Hne].
    + rewrite bool_decide_eq_true_2 by done. by rewrite lookup_insert_eq, list.last_snoc.
    + rewrite bool_decide_eq_false_2 by congruence. by rewrite lookup_insert_ne, app_nil_r.
  - rewrite bool_decide_eq_false_2 by done. by rewrite app_nil_r.
Qed.

Lemma run_passes_follows d records at_ grace ps k : dwell_ok d -> Forall one_per_key ps ->
  let a := run_passes d records at_ grace ps in
  al_dwell a = d /\ (forall now, (grace <=? Sub now (al_pendingAt a)) = grace_over grace records at_ now) /\
  past_is d (past_of d records at_ grace k ps) (al_byKey a !! k) (al_pending a !! k).
Proof.
  intros Hd. induction ps as [|[js now] ps IH]; intros Hps.
  { cbn. rewrite load_restored. split; [by destruct records|]. split; [by destruct records|].
    assert (al_byKey (loadAlertState d records at_) !! k = None) as -> by (by destruct records). destruct (restored k records); [done|].
    cbn. split; [done|]. unfold spec_phase. done. }
  inversion_clear Hps as [|? ? Hp Hps']. specialize (IH Hps') as (Hdw & Hov & He).
  cbn [run_passes foldr fst snd past_of]. fold (run_passes d records at_ grace ps). fold (past_of d records at_ grace k ps).
  set (a := run_passes d records at_ grace ps) in *. cbv zeta. destruct (Pass_dwell js now grace a) as [-> ->]. split; [done|]. split; [done|].
  pose proof (Pass_at js now grace a k Hp) as Hat. rewrite Hdw, Hov in Hat.
  pose proof (step_at_follows d now (grace_over grace records at_ now) k (verdict_on k js) _ _ _ Hd He) as Hs.
  rewrite <- Hat in Hs. cbn in Hs. by destruct Hs.
Qed.

(** C28: every episode follows the verdicts on its own subject and axis, and the record read for
    it when the process started, and nothing else. The process reads the rows, or fails to, and
    then makes any passes; no pass judges a key twice, and the dwell [For] is under 97 years, so
    that its triple does not overflow. Whatever the other keys did:
    a key that had no record, or whose record is over, has an episode exactly when the
    hysteresis of its verdicts (since it was last missing from a pass, or since the record's
    episode ended) says it is pending, firing or resolving, with the phase and the instants
    the hysteresis gives; a record waits, without an episode, for the key's first verdict
    until the grace is over; from that verdict on the episode is the one a machine of its
    own, resumed from the record, is in, until it ends or the key is missing; and the next
    pass reports for the key exactly the transition that makes, once, and whether it ended
    the episode. *)
Theorem episodes_follow_their_verdicts (d : Dwell) (records : option (list AlertRecord)) (at_ : Time) (grace : Duration)
    (ps : passes) (js : list Judgement) (now : Time) (k : alertKey)
    (Hd : dwell_ok d) (Hps : Forall one_per_key ((js, now) :: ps)) :
  let a := run_passes d records at_ grace ps in
  let past := past_of d records at_ grace k ps in
  past_is d past (al_byKey a !! k) (al_pending a !! k) /\
  (fun o => (oc_Transition o, oc_Gone o)) <$> outs_at k (Pass js now grace a).2 =
    owed d (grace_over grace records at_ now) now (verdict_on k js) past.
Proof.
  inversion_clear Hps as [|? ? Hp Hps']. destruct (run_passes_follows d records at_ grace ps k Hd Hps') as (Hdw & Hov & He). cbv zeta. split; [done|].
  set (a := run_passes d records at_ grace ps) in *. pose proof (Pass_at js now grace a k Hp) as Hat. rewrite Hdw, Hov in Hat.
  pose proof (step_at_follows d now (grace_over grace records at_ now) k (verdict_on k js) _ _ _ Hd He) as Hs.
  rewrite <- Hat in Hs. cbn in Hs. by destruct Hs as (_ & Hs).
Qed.
End episodes.

(** ** Examples *)

Module Shop.
#[local] Existing Instance plain_range.

Definition web : SubjectRef := mkSubject "Deployment" "shop" "web".
Definition cart : SubjectRef := mkSubject "StatefulSet" "shop" "cart".
Definition says (sub : SubjectRef) (b : bool) : Judgement := mkJudgement sub "zone" b TierB.

Notation past := [([says web true; says cart false], 11 * Minute); ([says web true; says cart true], Minute)] (only parsing).

Lemma past_ok js now : NoDup (jd_key <$> js) -> Forall one_per_key ((js, now) :: past).
Proof. intros Hjs. repeat constructor; try done; unfold one_per_key; cbn; set_solver. Qed.

(** A finding that was outstanding when the process before stopped. *)
Definition open_row : AlertRecord := mkRecord "c1" "Deployment/shop/api" "zone" (mkAlert PhaseFiring 5 10 0 [10]) 10.
Definition api : SubjectRef := mkSubject "Deployment" "shop" "api".
Notation rows_read := (Some [open_row]) (only parsing).

(** The web finding fired and clears; the cart's was abandoned within its dwell; the restored one,
    breached again, goes on firing where a fresh one would be pending. *)
Lemma episodes_follow_their_verdicts_witness :
  let a := run_passes DefaultDwell rows_read 20 Hour past in
  (fun o => (oc_Transition o, oc_Gone o)) <$> outs_at (web, "zone") (Pass [says web false; says api true] (12 * Minute) Hour a).2 = [(TransitionClearing, false)] /\
  al_byKey a !! (cart, "zone") = None /\ al_pending a !! (api, "zone") = Some open_row /\
  exists e, al_byKey (run_passes DefaultDwell rows_read 20 Hour (([says web false; says api true], 12 * Minute) :: past)) !! (api, "zone") = Some e /\ as_Phase (en_state e) = PhaseFiring.
Proof.
  cbv zeta. assert (dwell_ok DefaultDwell) as Hd by (unfold dwell_ok; vm_compute; done).
  assert (NoDup (jd_key <$> [says web false; says api true])) as Hj by (apply (bool_decide_unpack _); vm_compute; exact I).
  assert (Forall one_per_key ((([], 13 * Minute) :: ([says web false; says api true], 12 * Minute) :: past))) as Hps by (constructor; [constructor|exact (past_ok _ _ Hj)]).
  pose proof (episodes_follow_their_verdicts DefaultDwell rows_read 20 Hour past [says web false; says api true] (12 * Minute) (web, "zone") Hd (past_ok _ _ Hj)) as [_ Ho].
  pose proof (episodes_follow_their_verdicts DefaultDwell rows_read 20 Hour past [says web false; says api true] (12 * Minute) (cart, "zone") Hd (past_ok _ _ Hj)) as [He _].
  pose proof (episodes_follow_their_verdicts DefaultDwell rows_read 20 Hour past [says web false; says api true] (12 * Minute) (api, "zone") Hd (past_ok _ _ Hj)) as [Hw _].
  pose proof (episodes_follow_their_verdicts DefaultDwell rows_read 20 Hour (([says web false; says api true], 12 * Minute) :: past) [] (13 * Minute) (api, "zone") Hd Hps) as [Hr _].
  split; [refine (eq_trans Ho _); vm_compute; reflexivity|]. split; [|split].
  - assert (past_of DefaultDwell rows_read 20 Hour (cart, "zone") past = Fresh [(false, 11 * Minute); (true, Minute)]) as Ep by (vm_compute; reflexivity).
    cbv zeta in He. rewrite Ep in He. destruct He as [_ He]. destruct (al_byKey _ !! (cart, "zone")); [|done]. exfalso. destruct He as [He _]. apply He. vm_compute. reflexivity.
  - assert (past_of DefaultDwell rows_read 20 Hour (api, "zone") past = Waiting open_row) as Ep by (vm_compute; reflexivity).
    cbv zeta in Hw. rewrite Ep in Hw. exact (proj2 Hw).
  - assert (past_of DefaultDwell rows_read 20 Hour (api, "zone") (([says web false; says api true], 12 * Minute) :: past) = Resumed open_row (true, 12 * Minute) []) as Ep
      by (vm_compute; reflexivity).
    cbv zeta in Hr. rewrite Ep in Hr. destruct Hr as (_ & _ & e & Ee & Es). exists e. split; [exact Ee|]. rewrite Es. vm_compute. reflexivity.
Defined.

(** One minute of dwell on both sides, and a workload that drifts and recovers every four
    minutes: breached twice, then clear twice. *)
Definition brisk : Dwell := mkDwell Minute Minute 3 Hour.
Definition cycles : list (bool * Time) :=
  (fun n => (bool_decide (n mod 4 < 2), n * Minute)) <$> reverse (seqZ 4 18).

(** The flap history does not survive a resolution. On verdicts that fire five times
    within the window, the machine on its own reports four recurrences and a flapping
    subject; the pass, which drops an episode as soon as it is over, reports none. *)
Theorem resolution_forgets_flapping :
  let now := 21 * Minute in
  let a := run_passes brisk None 0 Hour ((fun v => ([says web v.1], v.2)) <$> cycles) in
  length (fired (normalize brisk) cycles) = 5%nat /\
  Recurrences now brisk (run brisk cycles) = 4 /\ Flapping now brisk (run brisk cycles) = true /\
  exists e, al_byKey a !! (web, "zone") = Some e /\ Recurrences now brisk (en_state e) = 0 /\ Flapping now brisk (en_state e) = false.
Proof.
  cbv zeta. split; [vm_compute; reflexivity|]. split; [vm_compute; reflexivity|]. split; [vm_compute; reflexivity|].
  eexists. split; [vm_compute; reflexivity|]. split; vm_compute; reflexivity.
Qed.
End Shop.
