(* ===== verification/DriftAlertStore.v ===== *)
(** The rows of the alert table mirror the episodes (src/pkg/sources/topologydrift:
    alerts.go, source.go; src/pkg/leeway/reconcile.go): over any sequence of passes and
    restarts, writes and reads failing or not, each open episode whose last write
    succeeded has its row, a row without an episode waits for its first verdict or is
    deleted, and rows of other sources are left alone. *)
From S2P Require Import Prelude GoTime GoStrings LeewayTopology LeewayScore LeewayAlert DriftAlerts.
From Stdlib Require Import Ascii.
Open Scope Z_scope.
Open Scope lookout_scope.

(** ** Keys and row keys *)

(** A key this source can own: its subject reads back from its rendering and is of a
    scored kind. *)
Definition own_key (k : alertKey) : Prop := ParseSubjectRef (SubjectRef_String k.1) = Some k.1 /\ scoredHere (sr_Kind k.1) = true.

Lemma parse_subject_inverse s sub : ParseSubjectRef s = Some sub -> SubjectRef_String sub = s.
Proof.
  unfold ParseSubjectRef, SubjectRef_String. intros Hp. rewrite <- (concat_SplitByte "/" s).
  destruct (SplitByte "/" s) as [|a [|b [|c [|? ?]]]]; try done; case_match eqn:E; simplify_eq/=; [done|].
  apply orb_false_elim in E as [[_ Hb]%orb_false_elim _]. by rewrite Hb.
Qed.

Lemma row_key_inj k k' : own_key k -> own_key k' -> row_key k = row_key k' -> k = k'.
Proof. destruct k, k'. unfold own_key, row_key. cbn. intros [H1 _] [H2 _] [= Hs ->]. rewrite Hs in H1. congruence. Qed.

Lemma record_key_own rec k : record_key rec = Some k <-> own_key k /\ row_key k = (ar_SubjectKey rec, ar_TopologyKey rec).
Proof.
  unfold record_key, own_key, row_key. split.
  - destruct (ParseSubjectRef _) as [sub|] eqn:Hp; [|done]. destruct (scoredHere _) eqn:Hs; [|done]. intros [= <-]. cbn.
    by rewrite (parse_subject_inverse _ _ Hp).
  - destruct k as [sub key]. cbn. intros [[Hp Hs] [= Hsub Hkey]]. rewrite <- Hsub, Hp, Hs. by subst.
Qed.

(** ** Loading *)

Notation rows := (gmap (string * string) AlertRecord) (only parsing).

#[global] Instance own_key_dec k : Decision (own_key k).
Proof. unfold own_key. apply _. Defined.

(** Rows are filed under their own keys. *)
Definition filed (st : rows) : Prop := forall key rec, st !! key = Some rec -> key = (ar_SubjectKey rec, ar_TopologyKey rec).

Definition load_one (m : gmap alertKey AlertRecord) (rec : AlertRecord) : gmap alertKey AlertRecord :=
  match record_key rec with Some k => <[k := rec]> m | None => m end.

Lemma load_fold_none k l m : (forall r, r ∈ l -> record_key r <> Some k) -> foldl load_one m l !! k = m !! k.
Proof.
  revert m. induction l as [|r l IH]; intros m Hl; [done|]. cbn [foldl]. rewrite IH by (intros r' Hr'; apply Hl; set_solver).
  unfold load_one. destruct (record_key r) as [k'|] eqn:Hk; [|done]. apply lookup_insert_ne. intros ->. by apply (Hl r); [set_solver|].
Qed.

Lemma load_fold_some k rec l m : record_key rec = Some k -> (forall r, r ∈ l -> record_key r = Some k -> r = rec) ->
  m !! k = Some rec \/ rec ∈ l -> foldl load_one m l !! k = Some rec.
Proof.
  intros Hrec. revert m. induction l as [|r l IH]; intros m Hl Hm; [set_solver|]. cbn [foldl]. apply IH; [intros r' Hr'; apply Hl; set_solver|].
  unfold load_one. destruct (record_key r) as [k'|] eqn:Hk; [|destruct Hm as [Hm|Hm]; [by left|]; right; apply elem_of_cons in Hm as [->|Hm]; [congruence|done]].
  destruct (decide (k' = k)) as [->|Hne]; [left; rewrite lookup_insert_eq; f_equal; apply Hl; [set_solver|done]|].
  rewrite lookup_insert_ne by done. destruct Hm as [Hm|Hm]; [by left|]. right. apply elem_of_cons in Hm as [->|Hm]; [congruence|done].
Qed.

Lemma load_lookup d st records now k : filed st -> records ≡ₚ (map_to_list st).*2 ->
  al_pending (loadAlertState d (Some records) now) !! k = if decide (own_key k) then st !! row_key k else None.
Proof.
  intros Hst Hr. cbn [loadAlertState Load fst]. change (foldl _ ∅ records) with (foldl load_one ∅ records).
  assert (forall rec, rec ∈ records <-> exists key, st !! key = Some rec) as Hin.
  { intros rec. rewrite Hr, list_elem_of_fmap. split.
    - intros ([key r] & -> & Hk%elem_of_map_to_list). eauto.
    - intros [key Hk]. exists (key, rec). split; [done|]. by apply elem_of_map_to_list. }
  change (al_pending _) with (foldl load_one ∅ records).
  assert (forall r, r ∈ records -> record_key r = Some k -> own_key k /\ st !! row_key k = Some r) as Hkey.
  { intros r [key Hr']%Hin Hk. apply record_key_own in Hk as [Hown ->]. by rewrite <- (Hst _ _ Hr'). }
  assert (own_key k -> forall r, st !! row_key k = Some r -> r ∈ records /\ record_key r = Some k) as Hback.
  { intros Hown r Hrow. split; [apply Hin; eauto|]. apply record_key_own. split; [done|]. by apply Hst. }
  destruct (decide (own_key k)) as [Hown|Hown]; [|apply load_fold_none; intros r Hr' Hk; by destruct (Hkey r Hr' Hk)].
  destruct (st !! row_key k) as [rec|] eqn:Hrow.
  - destruct (Hback Hown rec eq_refl) as [Hin' Hk]. apply load_fold_some; [done| |by right]. intros r Hr' Hk'. destruct (Hkey r Hr' Hk'). congruence.
  - apply load_fold_none. intros r Hr' Hk'. destruct (Hkey r Hr' Hk'). congruence.
Qed.

(** ** What a row keeps *)

Definition open_phase (p : AlertPhase) : bool := match p with PhasePending | PhaseFiring | PhaseResolving => true | _ => false end.

(** A state the machine wrote: an open phase, and instants between the epoch and [t]. *)
Definition timed (t : Time) (s : AlertState) : Prop :=
  open_phase (as_Phase s) = true /\ 0 < as_FirstSeenAt s <= t /\ as_Since s <= t /\
  (Firing (as_Phase s) = true -> 0 < as_Since s) /\ as_ClearSince s <= t /\ Forall (fun f => f <= t) (as_Fires s).

(** A row keeps its episode but for the clear instant, which a restart moves in memory only. *)
Definition same_episode (row s : AlertState) : Prop :=
  as_Phase row = as_Phase s /\ as_FirstSeenAt row = as_FirstSeenAt s /\ as_Since row = as_Since s /\ as_Fires row = as_Fires s /\
  (as_Phase s <> PhaseResolving -> as_ClearSince row = as_ClearSince s).

Lemma timed_later t t' s : t <= t' -> timed t s -> timed t' s.
Proof. unfold timed. intros Ht (? & ? & ? & ? & ? & Hf). repeat split; try done; try lia.
  eapply list.Forall_impl; [exact Hf|]. intros f Hf'. cbn in Hf'. lia. Qed.

Lemma notAfter_id u now : u <= now -> notAfter u now = u.
Proof. unfold notAfter, After. intros. case_match; lia. Qed.

(** A state the machine wrote needs no repair. *)
Lemma repair_timed t now s : t <= now -> timed t s -> repair now s = s.
Proof.
  intros Ht (Hp & Hf & Hs & Hs' & Hc & Hl). unfold repair.
  assert ((fun u => notAfter u now) <$> as_Fires s = as_Fires s) as Hfires.
  { rewrite <- (list_fmap_id (as_Fires s)) at 2. apply list_fmap_ext. intros i u Hu. apply notAfter_id. pose proof (proj1 (list.Forall_lookup _ _) Hl i u Hu) as Hu'. cbn in Hu'. unfold id. lia. }
  rewrite !notAfter_id, Hfires by lia. destruct s as [ph f si c l]. cbn [as_Phase as_FirstSeenAt as_Since as_ClearSince as_Fires] in *.
  unfold IsZero, zero_time. destruct (f =? 0) eqn:Ef; [lia|].
  destruct ph; try done; cbn in *; rewrite !andb_false_r; specialize (Hs' eq_refl); cbn; (destruct (si =? 0) eqn:Es; [lia|done]).
Qed.

Lemma arrival_timed t now s : t <= now -> timed t s ->
  arrival now s = if bool_decide (as_Phase s = PhaseResolving) then s <| as_ClearSince := now |> else s.
Proof. intros Ht Hs. unfold arrival. by rewrite (repair_timed t now s). Qed.

Lemma same_episode_refl s : same_episode s s.
Proof. done. Qed.

Lemma arrival_same t now s : t <= now -> timed t s -> same_episode s (arrival now s) /\ timed now (arrival now s).
Proof.
  intros Ht Hs. rewrite (arrival_timed t) by done. apply (timed_later t now) in Hs; [|done]. case_bool_decide as Hp; [|done].
  destruct s; cbn in *. unfold same_episode, timed in *. cbn in *. split; [done|]. destruct Hs as (? & ? & ? & ? & ? & ?). repeat split; try done; lia.
Qed.

Lemma fires_after_le c t l : Forall (fun f => f <= t) l -> Forall (fun f => f <= t) (fires_after c l).
Proof. rewrite !list.Forall_forall. intros Hl f Hf. apply Hl. unfold fires_after in Hf. rewrite list_elem_of_In in *. by apply filter_In in Hf as [? _]. Qed.

Lemma fire_timed t now d s : timed t s -> t <= now -> Forall (fun f => f <= now) (as_Fires (fire now d s)).
Proof.
  intros (_ & _ & _ & _ & _ & Hl) Ht. cbn. apply list.Forall_app. split; [|by constructor]. apply fires_after_le.
  eapply list.Forall_impl; [exact Hl|]. intros f Hf. cbn in Hf. lia.
Qed.

(** A move of the machine on an open state leaves an open state or ends the episode. *)
Lemma advance_timed b t now d s : t <= now -> timed t s ->
  as_Phase (Advance b now d s).1 = PhaseOK \/ timed now (Advance b now d s).1.
Proof.
  intros Ht Hs. pose proof (timed_later t now s Ht Hs) as Hs'. pose proof (fire_timed t now (normalize d) s Hs Ht) as Hf.
  unfold Advance. destruct Hs' as (Hp & H1 & H2 & H3 & H4 & H5).
  destruct (as_Phase s) eqn:Hph; try done; destruct b; cbn [negb]; try (case_match; cbn [fst]); cbn [fst];
    try (by left); right; unfold timed; cbn; rewrite ?Hph; cbn; repeat split; try done; try lia; try (by apply H3).
  unfold zero_time. lia.
Qed.

Lemma pending_timed now d : 0 < now -> timed now (Advance true now d zero_alert).1.
Proof. intros. unfold timed. cbn. unfold zero_time. repeat split; try done; lia. Qed.

(** A move that reports nothing changes nothing. *)
Lemma advance_none b now d s : (Advance b now d s).2 = TransitionNone -> (Advance b now d s).1 = s.
Proof. unfold Advance. destruct (as_Phase s), b; cbn; try done; case_match; done. Qed.

(** ** Writing the outcomes *)

Section mirror.
Context `{RangeOrder} (d : Dwell) (cluster : string) (grace : Duration).

Notation persist ok now := (persistOutcome cluster ok now) (only parsing).

Definition oc_key (o : Outcome) : alertKey := (oc_Subject o, oc_Key o).

Lemma persist_same ok now st o : persist ok now st o !! row_key (oc_key o) =
  if oc_Gone o then if ok o then None else st !! row_key (oc_key o)
  else if bool_decide (oc_Transition o = TransitionNone) then st !! row_key (oc_key o)
  else if ok o then Some (mkRecord cluster (row_key (oc_key o)).1 (row_key (oc_key o)).2 (oc_State o) now) else st !! row_key (oc_key o).
Proof.
  unfold persistOutcome. fold (oc_key o). destruct (oc_Gone o), (ok o); rewrite ?lookup_delete_eq; try done; case_bool_decide; rewrite ?lookup_insert_eq; done.
Qed.

Lemma persist_other ok now st o key : row_key (oc_key o) <> key -> persistOutcome cluster ok now st o !! key = st !! key.
Proof.
  intros Hk. unfold persistOutcome. fold (oc_key o). destruct (oc_Gone o), (ok o); rewrite ?lookup_delete_ne by done; try done; case_bool_decide; rewrite ?lookup_insert_ne by done; done.
Qed.

Lemma persist_fold_other ok now key out st : (forall o, o ∈ out -> row_key (oc_key o) <> key) ->
  foldl (persistOutcome cluster ok now) st out !! key = st !! key.
Proof.
  revert st. induction out as [|o out IH]; intros st Ho; [done|]. cbn [foldl]. rewrite IH by (intros o' Ho'; apply Ho; set_solver).
  apply persist_other, Ho. set_solver.
Qed.

(** The row of a key follows the outcomes of that key. *)
Lemma persist_fold_at ok now k out st st' : own_key k -> (forall o, o ∈ out -> own_key (oc_key o)) -> st !! row_key k = st' !! row_key k ->
  foldl (persist ok now) st out !! row_key k = foldl (persist ok now) st' (outs_at k out) !! row_key k.
Proof.
  intros Hk. revert st st'. induction out as [|o out IH]; intros st st' Ho Hst; [done|]. rewrite outs_at_cons. cbn [foldl].
  assert (forall o', o' ∈ out -> own_key (oc_key o')) as Ho' by (intros o' ?; apply Ho; set_solver).
  unfold outs_at at 1. cbn [List.filter]. case_bool_decide as Heq; cbn [app foldl].
  - apply IH; [done|]. fold (oc_key o) in Heq. rewrite <- Heq in *. rewrite !persist_same. by rewrite Hst.
  - apply IH; [done|]. rewrite persist_other; [done|]. intros Hr. apply Heq. apply row_key_inj; [apply Ho; set_solver|done|done].
Qed.

Lemma persist_filed ok now st out : filed st -> filed (foldl (persistOutcome cluster ok now) st out).
Proof.
  revert st. induction out as [|o out IH]; intros st Hst; [done|]. cbn [foldl]. apply IH. clear IH. unfold persistOutcome.
  destruct (oc_Gone o), (ok o); try done; [intros key rec Hl; apply lookup_delete_Some in Hl as [_ Hl]; by apply Hst|..];
  case_bool_decide; try done. intros key rec Hl. apply lookup_insert_Some in Hl as [[<- <-]|[_ Hl]]; [done|by apply Hst].
Qed.

(** ** The mirror *)

Definition row_timed (t : Time) (row : option AlertRecord) : Prop := match row with Some r => timed t (ar_State r) | None => True end.

(** An outcome the store is told of. *)
Definition due (o : Outcome) : bool := oc_Gone o || negb (bool_decide (oc_Transition o = TransitionNone)).

(** Whether a key is in step with the table after its outcomes of a pass: when one was due to
    be written, the write decides. *)
Definition written (ok : Outcome -> bool) (before : bool) (out : list Outcome) : bool :=
  match List.filter due out with [] => before | l => forallb ok l end.

(** A key in step: an episode has its row, a waiting record is its row, and a key with neither
    has none. Of a key that is not, only that its row is an earlier state. *)
Definition mirror_at (t : Time) (in_step : bool) (e : option alertEntry) (p row : option AlertRecord) : Prop :=
  match e, p with
  | Some e, None => timed t (en_state e) /\ row_timed t row /\ (in_step = true -> exists r, row = Some r /\ same_episode (ar_State r) (en_state e))
  | None, Some r => in_step = true /\ row = Some r /\ timed t (ar_State r)
  | None, None => row_timed t row /\ (in_step = true -> row = None)
  | Some _, Some _ => False
  end.

Lemma row_timed_later t t' row : t <= t' -> row_timed t row -> row_timed t' row.
Proof. destruct row; [|done]. apply timed_later. Qed.

(** An outcome ends the episode or the record. *)
Lemma gone_mirror ok now k o store in_step : oc_key o = k -> oc_Gone o = true -> row_timed now (store !! row_key k) ->
  mirror_at now (written ok in_step [o]) None None (foldl (persist ok now) store [o] !! row_key k).
Proof.
  intros <- Hg Hr. unfold written. cbn [List.filter foldl forallb]. unfold due. rewrite Hg. cbn. rewrite andb_true_r, persist_same, Hg. destruct (ok o); cbn; done.
Qed.

Lemma settle_mirror ok now k tier st tr live store in_step : as_Phase st = PhaseOK \/ timed now st -> row_timed now (store !! row_key k) ->
  (tr = TransitionNone -> in_step = true -> exists r, store !! row_key k = Some r /\ same_episode (ar_State r) st) ->
  let '(e, p, out) := settle k tier None st tr live in mirror_at now (written ok in_step out) e p (foldl (persist ok now) store out !! row_key k).
Proof.
  intros Hst Hrow Hnone. unfold settle. assert (forall gone, oc_key (outcome k tr st tier gone) = k) as Hk by (intros; by destruct k).
  pose proof (fun gone => persist_same ok now store (outcome k tr st tier gone)) as Hp. cbn [oc_Gone oc_Transition oc_State outcome] in Hp.
  destruct (decide (as_Phase st = PhaseOK)) as [Hph|Hph];
    [rewrite (bool_decide_eq_true_2 (as_Phase st = PhaseOK)) by done; by apply gone_mirror|rewrite (bool_decide_eq_false_2 (as_Phase st = PhaseOK)) by done].
  destruct Hst as [?|Hst]; [done|]. specialize (Hp false). rewrite Hk in Hp.
  case_bool_decide as Htr; [specialize (Hnone Htr)|rewrite andb_false_r].
  - destruct live; cbn [andb foldl mirror_at]; [done|]. rewrite Hp.
    assert (written ok in_step [outcome k tr st tier false] = in_step) as -> by (unfold written, due; cbn; by rewrite bool_decide_eq_true_2). done.
  - unfold written. cbn [List.filter foldl]. unfold due. cbn [oc_Gone oc_Transition outcome orb]. rewrite bool_decide_eq_false_2 by done.
    cbn [negb forallb]. rewrite andb_true_r, Hp. cbn [mirror_at]. split; [done|]. destruct (ok _); [|done]. split; [done|]. intros _. eexists. by split.
Qed.

(** An episode that was judged leaves no record to expire. *)
Lemma expire_settled expired k tier st tr live :
  (let '(e, p, out) := settle k tier None st tr live in
   if expired : bool then (e, None, out ++ match p with Some _ => [outcome k TransitionNone zero_alert TierNone true] | None => [] end) else (e, p, out))
  = settle k tier None st tr live.
Proof. unfold settle. destruct (bool_decide _), expired; rewrite ?app_nil_r; done. Qed.

(** One step of one key keeps the mirror. *)
Lemma step_mirror ok t now expired k v e p store in_step : 0 < now -> t <= now -> mirror_at t in_step e p (store !! row_key k) ->
  let '(e', p', out) := step_at d now expired k v e p in
  mirror_at now (written ok in_step out) e' p' (foldl (persist ok now) store out !! row_key k).
Proof.
  intros Hnow Ht Hm. assert (forall tr st tier gone, oc_key (outcome k tr st tier gone) = k) as Hk by (intros; by destruct k).
  unfold step_at. destruct v as [j|].
  - destruct e as [e|], p as [rec|]; cbn [judge_at mirror_at] in *; [done|..].
    + destruct Hm as (Hte & Hrow & Hsame). pose proof (advance_timed (jd_Breached j) t now d (en_state e) Ht Hte) as Ha.
      pose proof (advance_none (jd_Breached j) now d (en_state e)) as Hn. destruct (Advance _ _ _ _) as [st tr]. cbn [fst snd] in *.
      rewrite expire_settled. apply settle_mirror; [done|by eapply row_timed_later|]. intros Hnone. by rewrite (Hn Hnone).
    + destruct Hm as (-> & Hr & Htr). rewrite Reconcile_eq. pose proof (arrival_same t now (ar_State rec) Ht Htr) as [Hsame Hta].
      pose proof (advance_timed (jd_Breached j) now now d (arrival now (ar_State rec)) ltac:(lia) Hta) as Ha.
      pose proof (advance_none (jd_Breached j) now d (arrival now (ar_State rec))) as Hn. destruct (Advance _ _ _ _) as [st tr]. cbn [fst snd ar_State] in *.
      rewrite expire_settled. apply settle_mirror; [done|rewrite Hr; by eapply timed_later|]. intros Hnone _. rewrite (Hn Hnone). eauto.
    + destruct Hm as [Hrow Hno]. destruct (jd_Breached j).
      * pose proof (settle_mirror ok now k (jd_Tier j) (Advance true now d zero_alert).1 TransitionPending false store in_step (or_intror (pending_timed now d Hnow))) as Hs.
        cbn [Advance as_Phase zero_alert negb fst] in Hs |- *. rewrite expire_settled. apply Hs; [by eapply row_timed_later|done].
      * destruct expired; cbn; (split; [by eapply row_timed_later|done]).
  - destruct e as [e|], p as [rec|]; cbn [mirror_at] in Hm; [done|..].
    + destruct Hm as (_ & Hrow & _). destruct expired; cbn [app]; (apply gone_mirror; [apply Hk|done|by eapply row_timed_later]).
    + destruct Hm as (-> & Hr & Htr). destruct expired; cbn [app]; [apply gone_mirror; [apply Hk|done|rewrite Hr; by eapply timed_later]|].
      cbn. split; [done|]. split; [done|]. by eapply timed_later.
    + destruct Hm as [Hrow Hno]. destruct expired; cbn; (split; [by eapply row_timed_later|done]).
Qed.

(** ** A deployment *)

(** A process that read nothing is in step on the keys without a row. *)
Definition blind (st : rows) (k : alertKey) : bool := bool_decide (st !! row_key k = None).

(** What a deployment can reach: the machine, the rows, the clock, and the keys in step. It
    starts on a table [st0] whose own rows, if any, an earlier process wrote; then come, in
    any order, processes that read the rows or fail to, and passes, whose writes may fail
    ([ok]). The clock never runs backwards and each pass judges its own keys once each. *)
Inductive deployed (st0 : rows) : Alerts -> rows -> Time -> (alertKey -> bool) -> Prop :=
| dp_table now : 0 < now -> filed st0 -> (forall k r, own_key k -> st0 !! row_key k = Some r -> timed now (ar_State r)) ->
    deployed st0 (NewAlerts d) st0 now (blind st0)
| dp_read a st t in_step records now : deployed st0 a st t in_step -> t <= now -> records ≡ₚ (map_to_list st).*2 ->
    deployed st0 (loadAlertState d (Some records) now) st now (fun _ => true)
| dp_unread a st t in_step now : deployed st0 a st t in_step -> t <= now ->
    deployed st0 (loadAlertState d None now) st now (blind st)
| dp_pass a st t in_step ok js now : deployed st0 a st t in_step -> t <= now -> NoDup (jd_key <$> js) -> Forall (fun j => own_key (jd_key j)) js ->
    let x := (runAlertPass cluster ok js now grace (a, st)).1 in
    deployed st0 x.1 x.2 now (fun k => written ok (in_step k) (outs_at k (Pass js now grace a).2)).

Record mirrored (st0 : rows) (a : Alerts) (st : rows) (t : Time) (in_step : alertKey -> bool) : Prop := {
  mi_clock : 0 < t;
  mi_dwell : al_dwell a = d;
  mi_filed : filed st;
  mi_rows : forall k, own_key k -> mirror_at t (in_step k) (al_byKey a !! k) (al_pending a !! k) (st !! row_key k);
  mi_keys : forall k, ~ own_key k -> al_byKey a !! k = None /\ al_pending a !! k = None;
  mi_others : forall key, (forall k, own_key k -> row_key k <> key) -> st !! key = st0 !! key
}.

Lemma mirror_row t in_step e p row : mirror_at t in_step e p row -> row_timed t row.
Proof. unfold mirror_at. destruct e, p; [done|by intros (_ & ? & _)|intros (_ & -> & ?); done|by intros [? _]]. Qed.

Lemma load_byKey records now : al_byKey (loadAlertState d records now) = ∅ /\ al_dwell (loadAlertState d records now) = d.
Proof. by destruct records. Qed.

(** A pass speaks only of the source's own keys. *)
Lemma pass_own st0 a st t in_step js now : mirrored st0 a st t in_step -> t <= now -> NoDup (jd_key <$> js) -> Forall (fun j => own_key (jd_key j)) js ->
  (forall o, o ∈ (Pass js now grace a).2 -> own_key (oc_key o)) /\
  (forall k, ~ own_key k -> al_byKey (Pass js now grace a).1 !! k = None /\ al_pending (Pass js now grace a).1 !! k = None).
Proof.
  intros Hm Ht Hnd Hjs.
  assert (forall k, ~ own_key k -> at_key k (Pass js now grace a) = (None, None, [])) as Hnone.
  { intros k Hk. rewrite Pass_at by done. destruct (mi_keys _ _ _ _ _ Hm k Hk) as [-> ->].
    assert (verdict_on k js = None) as ->; [|unfold step_at; by case_match].
    unfold verdict_on. destruct (list_find _ js) as [[i j]|] eqn:Hf; [|done]. apply list_find_Some in Hf as (Hi & <- & _).
    rewrite list.Forall_forall in Hjs. destruct Hk. apply Hjs. by eapply list_elem_of_lookup_2. }
  split.
  - intros o Ho. destruct (decide (own_key (oc_key o))) as [|Hk]; [done|]. exfalso. specialize (Hnone _ Hk). unfold at_key in Hnone.
    pose proof (f_equal snd Hnone) as Hout. cbn [snd] in Hout. unfold outs_at in Hout.
    assert (o ∈ List.filter (fun o' => bool_decide ((oc_Subject o', oc_Key o') = oc_key o)) (Pass js now grace a).2) as Hin.
    { rewrite list_elem_of_In in *. apply filter_In. split; [done|]. by apply bool_decide_eq_true. }
    rewrite Hout in Hin. by apply not_elem_of_nil in Hin.
  - intros k Hk. specialize (Hnone _ Hk). unfold at_key in Hnone. by injection Hnone as -> -> _.
Qed.

(** A process that read nothing. *)
Lemma blind_mirrored st0 st t : 0 < t -> filed st -> (forall k, own_key k -> row_timed t (st !! row_key k)) ->
  (forall key, (forall k, own_key k -> row_key k <> key) -> st !! key = st0 !! key) -> mirrored st0 (NewAlerts d) st t (blind st).
Proof.
  intros Ht Hf Hrow Ho. split; try done. intros k Hk. cbn. rewrite !lookup_empty. cbn. split; [by apply Hrow|]. unfold blind. by intros ?%bool_decide_eq_true.
Qed.

Lemma deployed_mirrored st0 a st t in_step : deployed st0 a st t in_step -> mirrored st0 a st t in_step.
Proof.
  induction 1 as [now Hnow Hf Hn|a st t in_step records now Hd IH Ht Hr|a st t in_step now Hd IH Ht|a st t in_step ok js now Hd IH Ht Hnd Hjs x].
  - apply blind_mirrored; try done. intros k Hk. destruct (st0 !! row_key k) eqn:E; [by eapply Hn|done].
  - destruct IH as [Hc Hdw Hf Hrows Hk Ho]. destruct (load_byKey (Some records) now) as [Hb Hdw']. split; try done; [lia|..].
    + intros k Hkown. rewrite Hb, lookup_empty, (load_lookup d st), decide_True by done. pose proof (mirror_row _ _ _ _ _ (Hrows k Hkown)) as Hrow.
      destruct (st !! row_key k) as [r|] eqn:Er; [|done]. cbn. split; [done|]. split; [done|]. by eapply timed_later.
    + intros k Hk'. rewrite Hb, lookup_empty, (load_lookup d st) by done. by rewrite decide_False.
  - destruct IH as [Hc Hdw Hf Hrows Hk Ho]. apply blind_mirrored; try done; [lia|]. intros k Hkown. eapply row_timed_later; [exact Ht|]. by eapply mirror_row, Hrows.
  - destruct (pass_own st0 a st t in_step js now IH Ht Hnd Hjs) as [Hown Hkeys]. destruct IH as [Hc Hdw Hf Hrows Hk Ho].
    subst x. unfold runAlertPass. cbn [fst snd]. pose proof (fun k => Pass_at js now grace a k Hnd) as Hat. destruct (Pass_dwell js now grace a) as [Hdw' _].
    destruct (Pass js now grace a) as [a' out]. cbn [fst snd] in *. split; [lia|congruence|by apply persist_filed| |done|].
    + intros k Hkown. rewrite (persist_fold_at ok now k out st st) by done. specialize (Hat k). rewrite Hdw in Hat.
      pose proof (step_mirror ok t now (grace <=? Sub now (al_pendingAt a)) k (verdict_on k js) _ _ st (in_step k) ltac:(lia) Ht (Hrows k Hkown)) as Hs.
      rewrite <- Hat in Hs. exact Hs.
    + intros key Hkey. rewrite persist_fold_other by (intros o Ho'; apply Hkey; by apply Hown). by apply Ho.
Qed.

(** C29: the rows mirror the episodes, so a restart loses nothing that was written. Passes,
    restarts that read the table, restarts that fail to and writes that fail come in any
    order, on a table that may hold rows of an earlier process; the clock does not run
    backwards, and a pass judges each key once. A key is in step from a restart that reads
    the table on (after one that does not, if it has no row), until a write its episode
    was due fails, and again from the next such write that succeeds. A key in step has a row
    exactly when it has an episode or a record waiting for its first verdict, and reading
    the rows back gives its open episode a record whose state, once made safe to run, is the
    state the process had, except that the clear clock of a resolving one starts anew. A
    waiting record is its row whatever failed, and rows of other sources are as they were. *)
Theorem rows_mirror_episodes (st0 : rows) (a : Alerts) (st : rows) (t : Time) (in_step : alertKey -> bool) (Hd : deployed st0 a st t in_step) :
  (forall k, own_key k -> in_step k = true -> is_Some (st !! row_key k) <-> is_Some (al_byKey a !! k) \/ is_Some (al_pending a !! k)) /\
  (forall k e records now, in_step k = true -> al_byKey a !! k = Some e -> records ≡ₚ (map_to_list st).*2 -> t <= now ->
    exists r, al_pending (loadAlertState d (Some records) now) !! k = Some r /\
      arrival now (ar_State r) = if bool_decide (as_Phase (en_state e) = PhaseResolving) then (en_state e) <| as_ClearSince := now |> else en_state e) /\
  (forall k r, al_pending a !! k = Some r -> st !! row_key k = Some r) /\
  (forall key, (forall k, own_key k -> row_key k <> key) -> st !! key = st0 !! key).
Proof.
  apply deployed_mirrored in Hd as [Hc Hdw Hf Hrows Hk Ho]. split; [|split; [|split; [|done]]].
  - intros k Hkown Hin. specialize (Hrows k Hkown). rewrite Hin in Hrows. unfold mirror_at in Hrows. destruct (al_byKey a !! k), (al_pending a !! k); try done.
    + destruct Hrows as (_ & _ & Hr). destruct (Hr eq_refl) as (r & -> & _). split; eauto.
    + destruct Hrows as (_ & -> & _). split; eauto.
    + destruct Hrows as [_ Hr]. rewrite (Hr eq_refl). split; [intros [? ?]; done|intros [[? ?]|[? ?]]; done].
  - intros k e records now Hin He Hr Ht. assert (own_key k) as Hkown by (destruct (decide (own_key k)) as [|Hn]; [done|]; destruct (Hk k Hn); congruence).
    specialize (Hrows k Hkown). rewrite He, Hin in Hrows. unfold mirror_at in Hrows. destruct (al_pending a !! k); [done|].
    destruct Hrows as (Hte & Htr & Hsame). destruct (Hsame eq_refl) as (r & Hrow & Hs). rewrite Hrow in Htr. exists r. rewrite (load_lookup d st), decide_True by done. split; [done|].
    rewrite (arrival_timed t) by done. destruct Hs as (H1 & H2 & H3 & H4 & H5). destruct e as [[ph f si c l] ti], r as [? ? ? [ph' f' si' c' l'] ?].
    cbn in *. subst. case_bool_decide; cbn; [done|]. by rewrite H5.
  - intros k r Hp. destruct (decide (own_key k)) as [Hkown|Hn]; [|destruct (Hk k Hn); congruence]. specialize (Hrows k Hkown). rewrite Hp in Hrows.
    destruct (al_byKey a !! k); [done|]. by destruct Hrows as (_ & ? & _).
Qed.
End mirror.

(** ** Example *)

Module Table.
#[local] Existing Instance plain_range.

Definition web : SubjectRef := mkSubject "Deployment" "shop" "web".
Definition foreign : AlertRecord := mkRecord "c1" "PreferenceAxis/spot" "rule" zero_alert 5.
Definition table : gmap (string * string) AlertRecord := {[("PreferenceAxis/spot", "rule") := foreign]}.
Notation breach := [mkJudgement web "zone" true TierB] (only parsing).

Lemma own_web : own_key (web, "zone").
Proof. split; vm_compute; reflexivity. Qed.

Lemma table_filed : filed table.
Proof. intros key rec Hl. unfold table in Hl. apply lookup_singleton_Some in Hl as [<- <-]. done. Qed.

Lemma foreign_key k : own_key k -> row_key k <> ("PreferenceAxis/spot", "rule").
Proof. destruct k as [sub key]. intros [Hp Hs] [= Hsub ->]. cbn [fst] in *. rewrite Hsub in Hp. vm_compute in Hp. injection Hp as <-. vm_compute in Hs. discriminate. Qed.

Lemma judged_once : NoDup (jd_key <$> breach) /\ Forall (fun j => own_key (jd_key j)) breach.
Proof. split; [repeat constructor; set_solver|]. repeat constructor; apply own_web. Qed.

(** A breach is judged and the process restarts; the write of the pass fails ([ok = false]) or not. *)
Definition booted : Alerts := loadAlertState DefaultDwell (Some [foreign]) 1.
Definition after_pass (ok : bool) : Alerts * gmap (string * string) AlertRecord := (runAlertPass "c1" (fun _ => ok) breach Minute Hour (booted, table)).1.

Lemma table_reached ok : exists in_step, deployed DefaultDwell "c1" Hour table (after_pass ok).1 (after_pass ok).2 Minute in_step /\ in_step (web, "zone") = ok.
Proof.
  assert (deployed DefaultDwell "c1" Hour table (NewAlerts DefaultDwell) table 1 (blind table)) as H0.
  { apply dp_table; [done|apply table_filed|]. intros k r Hk Hr. unfold table in Hr. apply lookup_singleton_Some in Hr as [Hr _]. by destruct (foreign_key k Hk). }
  assert (deployed DefaultDwell "c1" Hour table booted table 1 (fun _ => true)) as H1.
  { eapply dp_read; [exact H0|done|]. unfold table. by rewrite map_to_list_singleton. }
  eexists. split; [exact (dp_pass _ _ _ _ _ _ _ _ (fun _ => ok) breach Minute H1 ltac:(done) (proj1 judged_once) (proj2 judged_once))|].
  destruct ok; vm_compute; reflexivity.
Qed.

(** The row is written and the episode can be read back; when the write fails there is an episode
    without a row, and the key is not in step. *)
Lemma rows_mirror_episodes_witness :
  (is_Some ((after_pass true).2 !! row_key (web, "zone")) <-> is_Some (al_byKey (after_pass true).1 !! (web, "zone")) \/ is_Some (al_pending (after_pass true).1 !! (web, "zone"))) /\
  is_Some ((after_pass true).2 !! row_key (web, "zone")) /\ (after_pass true).2 !! ("PreferenceAxis/spot", "rule") = Some foreign /\
  is_Some (al_byKey (after_pass false).1 !! (web, "zone")) /\ (after_pass false).2 !! row_key (web, "zone") = None.
Proof.
  destruct (table_reached true) as (in_step & Hd & Hs). destruct (rows_mirror_episodes _ _ _ _ _ _ _ _ Hd) as (Hrows & _ & _ & Ho).
  split; [exact (Hrows _ own_web Hs)|]. split; [vm_compute; eexists; reflexivity|]. split; [rewrite Ho; [vm_compute; reflexivity|exact foreign_key]|].
  split; [vm_compute; eexists; reflexivity|vm_compute; reflexivity].
Defined.
End Table.
