(* ===== verification/DriftClearance.v ===== *)
(** Findings and their recovery (src/pkg/sources/topologydrift/emit.go, clearance.go): the
    identity a finding is emitted under, and what the source answers when the recovery
    tracker asks whether that finding is over. *)
From S2P Require Import Prelude GoTime GoStrings Signal Recovery LeewayTopology LeewayScore LeewayAlert DriftAlerts DriftAlertStore.
From Stdlib Require Import Ascii.
Open Scope Z_scope.
Open Scope lookout_scope.

Definition uidPrefix : string := "leeway:".
Definition uidAxisSep : ascii := "|".

Definition findingUID (sub : SubjectRef) (key : TopologyKey) : string :=
  uidPrefix +:+ SubjectRef_String sub +:+ String uidAxisSep "" +:+ key.

Definition parseFindingUID (uid : string) : option (SubjectRef * TopologyKey) :=
  match strip_prefix uidPrefix uid with
  | None => None
  | Some rest =>
      match cut_byte uidAxisSep rest with
      | None => None
      | Some (subject, key) =>
          match ParseSubjectRef subject with
          | Some sub => if scoredHere (sr_Kind sub) then Some (sub, key) else None
          | None => None
          end
      end
  end.

(** [synced]: the source's caches have synced; [inIndex]: which subjects the pod index tracks. *)
Definition Source_Clearance (synced : bool) (inIndex : SubjectRef -> bool) (a : Alerts) (inc : Incident) : option Clearance :=
  match parseFindingUID (UID (inc_Key inc)) with
  | None => None
  | Some (sub, key) =>
      if negb synced then None
      else if (sr_Kind sub <>s SubjectDomain) && negb (inIndex sub) then Some (mkClearance true zero_time ResolutionObjectDeleted)
      else
        let '(st, live) := StateOf a sub key in
        if live && Firing (as_Phase st) then Some (mkClearance false zero_time "")
        else if live then Some (mkClearance false zero_time "")
        else Some (mkClearance true zero_time ResolutionRecovered)
  end.

(** ** Theorems *)

(** No pipe in the rendering of a subject: kinds, namespaces and names have none. *)
Definition pipe_free (sub : SubjectRef) : Prop := contains_byte uidAxisSep (SubjectRef_String sub) = false.

Lemma parse_finding_uid sub key : own_key (sub, key) -> pipe_free sub -> parseFindingUID (findingUID sub key) = Some (sub, key).
Proof.
  intros [Hp Hs] Hf. unfold parseFindingUID, findingUID. rewrite strip_prefix_app.
  assert (cut_byte uidAxisSep (SubjectRef_String sub +:+ String uidAxisSep "" +:+ key) = Some (SubjectRef_String sub, key)) as -> by (by apply cut_byte_Some).
  cbn [fst] in *. by rewrite Hp, Hs.
Qed.

Lemma parse_finding_own uid sub key : parseFindingUID uid = Some (sub, key) -> own_key (sub, key) /\ pipe_free sub /\ uid = findingUID sub key.
Proof.
  unfold parseFindingUID, findingUID. destruct (strip_prefix _ _) as [rest|] eqn:Hr; [|done]. apply strip_prefix_Some in Hr as ->.
  destruct (cut_byte _ _) as [[subject key']|] eqn:Hc; [|done]. apply cut_byte_Some in Hc as [-> Hf].
  destruct (ParseSubjectRef subject) as [sub'|] eqn:Hp; [|done]. destruct (scoredHere _) eqn:Hs; [|done]. intros [= <- <-].
  pose proof (parse_subject_inverse _ _ Hp) as Heq. unfold own_key, pipe_free. cbn [fst]. by rewrite Heq.
Qed.

Section clearance.
Context `{RangeOrder}.

(** Whether the source takes a subject and axis to be over: the hysteresis of what this
    process has seen of them is at rest. A record read back at the start and not yet judged
    counts as over, whatever the record says. *)
Definition at_rest (d : Dwell) (past : key_past) : bool :=
  match past with
  | Waiting _ => true
  | Resumed _ _ _ => false
  | Fresh h => bool_decide (spec_phase (normalize d) h = PhaseOK)
  end.

Lemma at_rest_spec d past e w : past_is d past e w -> at_rest d past = bool_decide (e = None).
Proof.
  destruct past as [rec|rec x h|h]; cbn [past_is at_rest].
  - intros [-> _]. done.
  - intros (_ & _ & entry & -> & _). done.
  - intros [_ He]. destruct e; cbn [episode_is] in He.
    + rewrite !bool_decide_eq_false_2; [done..|by destruct He].
    + by rewrite !bool_decide_eq_true_2.
Qed.

(** What the recovery tracker hears of a placement finding, over any passes of the source
    and any records it read back. The source answers for the incidents it raised and no
    others, and only once its caches have synced. While the finding's subject has objects (a
    domain needs none), it says the symptom is gone exactly when the hysteresis of that
    subject and axis is at rest, or a record of them still waits for its first verdict:
    never inside a dwell and never while the finding is still resolving. *)
Theorem clearance_waits_for_hysteresis (d : Dwell) (records : option (list AlertRecord)) (at_ : Time) (grace : Duration) (ps : list (list Judgement * Time))
    (synced : bool) (inIndex : SubjectRef -> bool) (inc : Incident)
    (Hd : dwell_ok d) (Hps : Forall one_per_key ps) :
  match Source_Clearance synced inIndex (run_passes d records at_ grace ps) inc with
  | None => synced = false \/ forall sub key, own_key (sub, key) -> pipe_free sub -> UID (inc_Key inc) <> findingUID sub key
  | Some c => synced = true /\ exists sub key, own_key (sub, key) /\ pipe_free sub /\ UID (inc_Key inc) = findingUID sub key /\
      if (sr_Kind sub ==s SubjectDomain) || inIndex sub
      then Cleared c = at_rest d (past_of d records at_ grace (sub, key) ps)
      else Cleared c = true /\ cl_Resolution c = ResolutionObjectDeleted
  end.
Proof.
  unfold Source_Clearance. destruct (parseFindingUID _) as [[sub key]|] eqn:Hp.
  - destruct (parse_finding_own _ _ _ Hp) as (Hown & Hfree & Huid). destruct synced; [|by left]. cbn [negb].
    destruct (run_passes_follows d records at_ grace ps (sub, key) Hd Hps) as (_ & _ & He). apply at_rest_spec in He. unfold StateOf.
    destruct (sr_Kind sub ==s SubjectDomain) eqn:Hk, (inIndex sub) eqn:Ht; cbn [negb andb orb];
      [..|split; [done|]; exists sub, key; rewrite Hk, Ht; done];
      destruct (al_byKey _ !! _) as [e|]; cbn [andb] in *; try (destruct (Firing _));
      (split; [done|]; exists sub, key; rewrite Hk, ?Ht; cbn [orb Cleared]; by rewrite He).
  - right. intros sub key Hown Hf Huid. rewrite Huid, (parse_finding_uid sub key Hown Hf) in Hp. done.
Qed.
End clearance.

Module Asked.
#[local] Existing Instance plain_range.

Notation web := (mkSubject "Deployment" "shop" "web") (only parsing).
Notation says b := (mkJudgement web "zone" b TierB) (only parsing).

(** A finding that fired at 11 minutes and has been clear for one. *)
Notation past := [([says false], 13 * Minute); ([says false], 12 * Minute); ([says true], 11 * Minute); ([says true], Minute)] (only parsing).

Definition finding : Incident := mkIncident (mkEventKey (findingUID web "zone") "drift") "s1" 0 (mkIncidentRef "" "" "" "" "" "" "").

Lemma clearance_waits_for_hysteresis_witness :
  (Cleared <$> Source_Clearance true (fun _ => true) (run_passes DefaultDwell None 0 Hour past) finding) = Some false /\
  exists h, past_of DefaultDwell None 0 Hour (web, "zone") past = Fresh h /\ spec_phase (normalize DefaultDwell) h = PhaseResolving.
Proof.
  assert (dwell_ok DefaultDwell) as Hd by (unfold dwell_ok; vm_compute; done).
  assert (Forall one_per_key past) as Hps by (repeat constructor; unfold one_per_key; cbn; set_solver).
  pose proof (clearance_waits_for_hysteresis DefaultDwell None 0 Hour past true (fun _ => true) finding Hd Hps) as Hc.
  split; [|eexists; split; vm_compute; reflexivity]. destruct (Source_Clearance _ _ _ _) as [c|].
  - destruct Hc as (_ & sub & key & Hown & Hfree & Huid & Hc). rewrite orb_true_r in Hc. cbn. f_equal. rewrite Hc.
    assert (Some (sub, key) = Some (web, "zone")) as [= -> ->]; [|vm_compute; reflexivity].
    rewrite <- (parse_finding_uid sub key Hown Hfree), <- Huid. vm_compute. reflexivity.
  - destruct Hc as [Hc|Hc]; [done|]. destruct (Hc web "zone"); vm_compute; done.
Defined.

(** A firing record read back after a restart and not yet judged: the source says the
    finding is over although no resolve dwell has run, and the record says it fires. *)
Lemma restored_finding_reads_as_recovered :
  let row := mkRecord "c1" (SubjectRef_String web) "zone" (mkAlert PhaseFiring Minute (11 * Minute) zero_time [11 * Minute]) (11 * Minute) in
  let a := run_passes DefaultDwell (Some [row]) (20 * Minute) Hour [] in
  Firing (as_Phase (ar_State row)) = true /\ al_pending a !! (web, "zone") = Some row /\
  Source_Clearance true (fun _ => true) a finding = Some (mkClearance true zero_time ResolutionRecovered).
Proof. vm_compute. done. Qed.
End Asked.
