(* ===== verification/DriftCoalesce.v ===== *)
(** The evaluation queue of the placement source (src/pkg/sources/topologydrift/coalesce.go):
    bursts of enqueues collapse into one evaluation per subject, delayed while the subject
    keeps moving and never past a bound.

    The clock is an argument of each operation. The timers are a [container/heap] whose
    entries may be stale; the run loop's channel and timer only decide when [takeReady] is
    called. Times are unbounded integers here, as [Time.Add] is far from its range. *)
From S2P Require Import Prelude GoTime GoSort LeewayTopology.
Import Heap.
Open Scope Z_scope.
Open Scope lookout_scope.

Definition DefaultCoalesceWindow : Duration := 2 * Second.
Definition DefaultRolloutCoalesceWindow : Duration := 15 * Second.
Definition DefaultMaxCoalesceDelay : Duration := 60 * Second.

Record coalesceWindows := mkWindows { cw_window : Duration; cw_rollout : Duration; cw_maxDelay : Duration }.

Definition normalise (w : coalesceWindows) : coalesceWindows :=
  let w := if cw_window w <=? 0 then w <| cw_window := DefaultCoalesceWindow |> else w in
  let w := if cw_rollout w <=? 0 then w <| cw_rollout := DefaultRolloutCoalesceWindow |> else w in
  let w := if cw_maxDelay w <=? 0 then w <| cw_maxDelay := DefaultMaxCoalesceDelay |> else w in
  let w := if cw_rollout w <? cw_window w then w <| cw_rollout := cw_window w |> else w in
  if cw_maxDelay w <? cw_rollout w then w <| cw_maxDelay := cw_rollout w |> else w.

Record pendingEntry := mkPending { pe_first : Time; pe_readyAt : Time; pe_hits : Z }.

Definition zero_pendingEntry : pendingEntry := mkPending zero_time zero_time 0.

Record heapItem := mkItem { hi_sub : SubjectRef; hi_readyAt : Time; hi_seq : Z }.

#[global] Instance heapItem_inhabited : Inhabited heapItem := populate (mkItem zero_subject zero_time 0).

Definition Less (x y : heapItem) : bool :=
  if hi_readyAt x =? hi_readyAt y then hi_seq x <? hi_seq y else Before (hi_readyAt x) (hi_readyAt y).

Definition reschedule (w : coalesceWindows) (now : Time) (e : pendingEntry) : pendingEntry :=
  if pe_hits e =? 0 then mkPending now (Add now (cw_window w)) 1
  else
    let e := e <| pe_hits ::= Z.succ |> in
    let next := Add now (cw_rollout w) in
    let limit := Add (pe_first e) (cw_maxDelay w) in
    let next := if After next limit then limit else next in
    if After next (pe_readyAt e) then e <| pe_readyAt := next |> else e.

Record coalescer := mkCoalescer {
  co_windows : coalesceWindows; co_pending : gmap SubjectRef pendingEntry; co_timers : list heapItem; co_seq : Z; co_enqueued : Z; co_evaluated : Z
}.

Definition newCoalescer (w : coalesceWindows) : coalescer := mkCoalescer (normalise w) ∅ [] 0 0 0.

Definition Enqueue (sub : SubjectRef) (now : Time) (c : coalescer) : coalescer :=
  let e := default zero_pendingEntry (co_pending c !! sub) in
  let before := pe_readyAt e in
  let e := reschedule (co_windows c) now e in
  let c := c <| co_pending ::= <[sub := e]> |> <| co_enqueued ::= Z.succ |> in
  if negb (pe_readyAt e =? before) then
    let seq := Z.succ (co_seq c) in
    c <| co_seq := seq |> <| co_timers ::= heap_Push Less (mkItem sub (pe_readyAt e) seq) |>
  else c.

Definition Pending (c : coalescer) : Z := Z.of_nat (size (co_pending c)).

Definition stats (c : coalescer) : Z * Z := (co_enqueued c, co_evaluated c).

(** The loop of [takeReady]: each round that goes on pops a timer. *)
Fixpoint take_loop (fuel : nat) (now : Time) (c : coalescer) : coalescer * option SubjectRef * Duration :=
  match fuel, co_timers c with
  | S fuel, item :: _ =>
      match co_pending c !! hi_sub item with
      | Some e =>
          if negb (pe_readyAt e =? hi_readyAt item) then take_loop fuel now (c <| co_timers ::= heap_Pop Less |>)
          else if After (pe_readyAt e) now then (c, None, Sub (pe_readyAt e) now)
          else (c <| co_timers ::= heap_Pop Less |> <| co_pending ::= delete (hi_sub item) |> <| co_evaluated ::= Z.succ |>, Some (hi_sub item), 0)
      | None => take_loop fuel now (c <| co_timers ::= heap_Pop Less |>)
      end
  | _, _ => (c, None, 0)
  end.

Definition takeReady (now : Time) (c : coalescer) : coalescer * option SubjectRef * Duration := take_loop (length (co_timers c)) now c.

(** ** The order of the timers *)

Lemma Less_le_trans x y z : le Less x y -> le Less y z -> le Less x z.
Proof. unfold le, Less, Before. repeat case_match; lia. Qed.

Lemma Less_asym x y : Less x y = true -> le Less x y.
Proof. unfold le, Less, Before. repeat case_match; lia. Qed.

Lemma le_readyAt x y : le Less x y -> hi_readyAt x <= hi_readyAt y.
Proof. unfold le, Less, Before. case_match; lia. Qed.

(** ** The windows *)

Definition windows_ok (w : coalesceWindows) : Prop := 0 < cw_window w <= cw_rollout w /\ cw_rollout w <= cw_maxDelay w.

Lemma normalise_ok w : windows_ok (normalise w).
Proof.
  destruct w as [a b c]. unfold windows_ok, normalise. cbn -[Z.leb Z.ltb].
  destruct (a <=? 0) eqn:Ea; cbn -[Z.leb Z.ltb]; destruct (b <=? 0) eqn:Eb; cbn -[Z.leb Z.ltb]; destruct (c <=? 0) eqn:Ec; cbn -[Z.leb Z.ltb];
    repeat (case_match; cbn -[Z.leb Z.ltb] in * ); unfold DefaultCoalesceWindow, DefaultRolloutCoalesceWindow, DefaultMaxCoalesceDelay, Second in *; lia.
Qed.

(** ** Histories *)

(** What happened to the queue, newest first: enqueues with their instants, and subjects taken for evaluation. *)
Inductive event := Enq (sub : SubjectRef) (t : Time) | Took (sub : SubjectRef).

(** The enqueues of a subject since it was last taken, newest first. *)
Fixpoint burst (sub : SubjectRef) (h : list event) : list Time :=
  match h with
  | [] => []
  | Enq s t :: h => if decide (s = sub) then t :: burst sub h else burst sub h
  | Took s :: h => if decide (s = sub) then [] else burst sub h
  end.

Fixpoint burst_first (l : list Time) : Time :=
  match l with [] => 0 | [t] => t | _ :: l => burst_first l end.

(** When a burst is due: a window after a single enqueue; a rollout window after the newest of
    several, within the longest delay of the first. *)
Definition due_at (w : coalesceWindows) (l : list Time) : Time :=
  match l with
  | [] => 0
  | [t] => t + cw_window w
  | t :: _ => Z.min (burst_first l + cw_maxDelay w) (t + cw_rollout w)
  end.

Inductive queue_run (w : coalesceWindows) : list event -> Time -> coalescer -> Prop :=
| q_new t : 0 < t -> queue_run w [] t (newCoalescer w)
| q_enqueue h t c sub now : queue_run w h t c -> t <= now -> queue_run w (Enq sub now :: h) now (Enqueue sub now c)
| q_take h t c now c' sub wait : queue_run w h t c -> t <= now -> takeReady now c = (c', Some sub, wait) -> queue_run w (Took sub :: h) now c'
| q_wait h t c now c' wait : queue_run w h t c -> t <= now -> takeReady now c = (c', None, wait) -> queue_run w h now c'.

(** ** The invariant *)

(** A subject waits exactly when it has a burst, with the burst's instants, and a timer stands for it. *)
Record queue_ok (h : list event) (c : coalescer) : Prop := {
  qo_windows : windows_ok (co_windows c);
  qo_heap : is_heap Less (length (co_timers c)) (co_timers c);
  qo_pending : forall sub, co_pending c !! sub =
    match burst sub h with [] => None | l => Some (mkPending (burst_first l) (due_at (co_windows c) l) (Z.of_nat (length l))) end;
  qo_timer : forall sub e, co_pending c !! sub = Some e -> exists x, x ∈ co_timers c /\ hi_sub x = sub /\ hi_readyAt x = pe_readyAt e
}.

(** The instants of a history are in order and after the epoch. *)
Definition bounded (t : Time) (h : list event) : Prop := forall sub, Forall (fun u => 0 < u <= t) (burst sub h).

Lemma burst_first_cons t u l : burst_first (t :: u :: l) = burst_first (u :: l).
Proof. done. Qed.

Lemma reschedule_spec w now l : windows_ok w -> 0 < now -> Forall (fun u => 0 < u <= now) l ->
  reschedule w now (match l with [] => zero_pendingEntry | _ => mkPending (burst_first l) (due_at w l) (Z.of_nat (length l)) end) =
  mkPending (burst_first (now :: l)) (due_at w (now :: l)) (Z.of_nat (length (now :: l))).
Proof.
  intros [Hw Hr] Hnow Hl. destruct l as [|u l]; [done|]. inversion_clear Hl as [|? ? Hu Hl']. cbn beta in Hu. unfold reschedule. cbn [pe_hits].
  destruct (Z.of_nat (length (u :: l)) =? 0) eqn:E; [apply Z.eqb_eq in E; done|]. rewrite burst_first_cons.
  assert (due_at w (now :: u :: l) = Z.min (burst_first (u :: l) + cw_maxDelay w) (now + cw_rollout w)) as -> by done.
  set (f := burst_first (u :: l)). set (n := Z.of_nat (length (u :: l))).
  assert (Z.of_nat (length (now :: u :: l)) = Z.succ n) as -> by (unfold n; cbn; lia).
  assert (due_at w (u :: l) <= Z.min (f + cw_maxDelay w) (now + cw_rollout w)) as Hd by (unfold f; destruct l; cbn [due_at burst_first]; lia).
  set (due := due_at w (u :: l)) in *. clearbody due f n. cbn -[Z.add Z.min]. unfold After, Add.
  destruct (f + cw_maxDelay w <? now + cw_rollout w) eqn:E1; [destruct (due <? f + cw_maxDelay w) eqn:E2|destruct (due <? now + cw_rollout w) eqn:E2];
    unfold set; cbn; f_equal; lia.
Qed.

Lemma bounded_later t t' h : t <= t' -> bounded t h -> bounded t' h.
Proof. intros Ht Hb sub. eapply list.Forall_impl; [apply (Hb sub)|]. intros u Hu. cbn in *. lia. Qed.

Lemma Enqueue_ok h c t sub now : queue_ok h c -> bounded t h -> t <= now -> 0 < now -> queue_ok (Enq sub now :: h) (Enqueue sub now c).
Proof.
  intros [Hw Hh Hp Ht] Hb Hle Hnow. set (e := reschedule (co_windows c) now (default zero_pendingEntry (co_pending c !! sub))).
  assert (e = mkPending (burst_first (now :: burst sub h)) (due_at (co_windows c) (now :: burst sub h)) (Z.of_nat (length (now :: burst sub h)))) as He.
  { rewrite <- reschedule_spec; [|done|done|by apply (bounded_later t now)]. unfold e. rewrite Hp. by destruct (burst sub h). }
  assert (forall s, (<[sub := e]> (co_pending c)) !! s = match burst s (Enq sub now :: h) with [] => None | l => Some (mkPending (burst_first l) (due_at (co_windows c) l) (Z.of_nat (length l))) end) as Hp'.
  { intros s. cbn [burst]. destruct (decide (sub = s)) as [<-|Hs]; [by rewrite lookup_insert_eq, He|by rewrite lookup_insert_ne]. }
  unfold Enqueue. fold e. destruct (pe_readyAt e =? _) eqn:Heq; cbn [negb].
  - split; try done. cbn. intros s e' Hs. destruct (decide (sub = s)) as [<-|Hne]; [|rewrite lookup_insert_ne in Hs by done; by apply Ht].
    rewrite lookup_insert_eq in Hs. injection Hs as <-. apply Z.eqb_eq in Heq. destruct (co_pending c !! sub) as [e0|] eqn:H0.
    + destruct (Ht _ _ H0) as (x & Hx & Hxs & Hxr). exists x. by rewrite Heq.
    + exfalso. rewrite Hp in H0. rewrite He in Heq. destruct (burst sub h); [|done]. cbn in Heq. unfold zero_time in Heq. destruct Hw. lia.
  - destruct (heap_Push_ok Less Less_le_trans Less_asym (mkItem sub (pe_readyAt e) (Z.succ (co_seq c))) (co_timers c) Hh) as [Hperm Hheap]. split; try done.
    cbn. intros s e' Hs. setoid_rewrite Hperm. destruct (decide (sub = s)) as [<-|Hne].
    + rewrite lookup_insert_eq in Hs. injection Hs as <-. eexists. split; [by left|]. done.
    + rewrite lookup_insert_ne in Hs by done. destruct (Ht _ _ Hs) as (x & Hx & Hxs & Hxr). exists x. split; [by right|done].
Qed.

(** A timer that stands for no subject can go. *)
Lemma pop_ok h h' c item rest pending' : queue_ok h c -> co_timers c = item :: rest ->
  (forall sub, pending' !! sub = match burst sub h' with [] => None | l => Some (mkPending (burst_first l) (due_at (co_windows c) l) (Z.of_nat (length l))) end) ->
  (forall sub e, pending' !! sub = Some e -> co_pending c !! sub = Some e /\ (hi_sub item <> sub \/ hi_readyAt item <> pe_readyAt e)) ->
  forall c', co_timers c' = heap_Pop Less (co_timers c) -> co_windows c' = co_windows c -> co_pending c' = pending' ->
  queue_ok h' c' /\ length (co_timers c') = length rest.
Proof.
  intros [Hw Hh _ Ht] Htm Hp Hlive c' Hc1 Hc2 Hc3. rewrite Htm in Hh, Hc1.
  destruct (heap_Pop_ok Less Less_le_trans Less_asym item rest Hh) as [Hperm Hheap]. rewrite <- Hc1 in *.
  split; [|by rewrite Hperm]. split; [by rewrite Hc2|done|by rewrite Hc2, Hc3|].
  intros sub e He. rewrite Hc3 in He. destruct (Hlive _ _ He) as [He' Hne]. destruct (Ht _ _ He') as (x & Hx & Hxs & Hxr). exists x.
  split; [|done]. rewrite Hperm. rewrite Htm in Hx. apply elem_of_cons in Hx as [->|Hx]; [|done]. by destruct Hne.
Qed.

(** The timers bound every waiting subject from below. *)
Lemma root_least h c item rest sub e : queue_ok h c -> co_timers c = item :: rest -> co_pending c !! sub = Some e -> hi_readyAt item <= pe_readyAt e.
Proof.
  intros [_ Hh _ Ht] Htm He. destruct (Ht _ _ He) as (x & Hx & _ & <-). apply le_readyAt. apply list_elem_of_lookup in Hx as [i Hi].
  pose proof (heap_root Less Less_le_trans Less_asym _ _ i Hh) as Hroot. rewrite Htm in *. cbn in Hroot.
  rewrite (list_lookup_total_correct _ _ _ Hi) in Hroot. apply Hroot. apply lookup_lt_Some in Hi. done.
Qed.

(** What [takeReady] answers. *)
Definition answers (now : Time) (h : list event) (c : coalescer) (r : coalescer * option SubjectRef * Duration) : Prop :=
  match r with
  | (c', Some sub, _) =>
      queue_ok (Took sub :: h) c' /\ exists e, co_pending c !! sub = Some e /\ pe_readyAt e <= now /\
      forall sub' e', co_pending c !! sub' = Some e' -> pe_readyAt e <= pe_readyAt e'
  | (c', None, wait) =>
      queue_ok h c' /\
      ((co_pending c = ∅ /\ wait = 0) \/
       exists sub e, co_pending c !! sub = Some e /\ now < pe_readyAt e /\ wait = Sub (pe_readyAt e) now /\
       forall sub' e', co_pending c !! sub' = Some e' -> pe_readyAt e <= pe_readyAt e')
  end /\ co_windows r.1.1 = co_windows c.

Lemma take_loop_answers now h fuel c : queue_ok h c -> (length (co_timers c) <= fuel)%nat -> answers now h c (take_loop fuel now c).
Proof.
  revert c. induction fuel as [|fuel IH]; intros c Hok Hfuel.
  - assert (co_timers c = []) as Htm by (apply nil_length_inv; lia). cbn [take_loop]. split; [|done]. split; [done|]. left. split; [|done].
    apply map_eq. intros sub. rewrite lookup_empty. destruct (co_pending c !! sub) as [e|] eqn:He; [|done].
    destruct (qo_timer _ _ Hok _ _ He) as (x & Hx & _). rewrite Htm in Hx. by apply not_elem_of_nil in Hx.
  - cbn [take_loop]. destruct (co_timers c) as [|item rest] eqn:Htm.
    { destruct (IH c Hok) as [Ha Hb]; [rewrite Htm; cbn; lia|]. unfold answers. cbn [fst]. split; [|done]. split; [done|]. left. split; [|done].
      apply map_eq. intros sub. rewrite lookup_empty. destruct (co_pending c !! sub) as [e|] eqn:He; [|done].
      destruct (qo_timer _ _ Hok _ _ He) as (x & Hx & _). rewrite Htm in Hx. by apply not_elem_of_nil in Hx. }
    assert (forall sub e, co_pending c !! sub = Some e -> hi_readyAt item <= pe_readyAt e) as Hleast by (intros; by eapply root_least).
    pose proof (qo_pending _ _ Hok) as Hpend.
    assert ((forall sub e, co_pending c !! sub = Some e -> hi_sub item <> sub \/ hi_readyAt item <> pe_readyAt e) ->
      answers now h c (take_loop fuel now (c <| co_timers ::= heap_Pop Less |>))) as Hstale.
    { intros Hne. destruct (pop_ok h h c item rest (co_pending c) Hok Htm Hpend (fun sub e He => conj He (Hne sub e He)) (c <| co_timers ::= heap_Pop Less |>)) as [Hok' Hlen]; try done.
      cbn [length] in Hfuel. specialize (IH (c <| co_timers ::= heap_Pop Less |>) Hok' ltac:(rewrite Hlen; lia)). exact IH. }
    destruct (co_pending c !! hi_sub item) as [e|] eqn:He.
    + destruct (pe_readyAt e =? hi_readyAt item) eqn:Heq; cbn [negb].
      * apply Z.eqb_eq in Heq. destruct (After (pe_readyAt e) now) eqn:Haf; unfold After in Haf; unfold answers; cbn [fst].
        -- split; [|done]. split; [done|]. right. exists (hi_sub item), e. split; [done|]. split; [lia|]. split; [done|]. intros. rewrite Heq. by eapply Hleast.
        -- split; [|done]. split; [|exists e; split; [done|]; split; [lia|]; intros; rewrite Heq; by eapply Hleast].
           eapply (pop_ok h (Took (hi_sub item) :: h) c item rest (delete (hi_sub item) (co_pending c)) Hok Htm); try done.
           ++ intros sub. cbn [burst]. destruct (decide (hi_sub item = sub)) as [<-|Hs]; [by rewrite lookup_delete_eq|]. rewrite lookup_delete_ne by done. apply Hpend.
           ++ intros sub e' He'. apply lookup_delete_Some in He' as [Hs He']. split; [done|by left].
      * apply Z.eqb_neq in Heq. apply Hstale. intros sub e' He'. destruct (decide (hi_sub item = sub)) as [<-|Hs]; [right; congruence|by left].
    + apply Hstale. intros sub e' He'. left. intros <-. congruence.
Qed.

(** ** The queue over a history *)

Lemma queue_run_ok w h t c : queue_run w h t c -> queue_ok h c /\ co_windows c = normalise w /\ bounded t h /\ 0 < t.
Proof.
  induction 1 as [t Ht|h t c sub now Hr (Hok & Hw & Hb & Ht) Hle|h t c now c' sub wait Hr (Hok & Hw & Hb & Ht) Hle Htake|h t c now c' wait Hr (Hok & Hw & Hb & Ht) Hle Htake].
  - split; [|split; [done|split; [intros sub; constructor|done]]]. split; [apply normalise_ok|intros k Hk; cbn in Hk; lia|done|done].
  - split; [by eapply Enqueue_ok; [done|done|done|lia]|]. split; [unfold Enqueue; by case_match|]. split; [|lia].
    intros s. cbn [burst]. case_decide; [constructor; [lia|]|]; by apply (bounded_later t now).
  - pose proof (take_loop_answers now h (length (co_timers c)) c Hok ltac:(lia)) as [Ha Hw']. unfold takeReady in Htake. rewrite Htake in Ha, Hw'. cbn [fst] in *.
    split; [by destruct Ha|]. split; [congruence|]. split; [|lia]. intros s. cbn [burst]. case_decide; [done|]. by apply (bounded_later t now).
  - pose proof (take_loop_answers now h (length (co_timers c)) c Hok ltac:(lia)) as [Ha Hw']. unfold takeReady in Htake. rewrite Htake in Ha, Hw'. cbn [fst] in *.
    split; [by destruct Ha|]. split; [congruence|]. split; [|lia]. by apply (bounded_later t now).
Qed.

(** The burst's due instant lies within the longest delay of its first enqueue. *)
Lemma due_bounds w l : windows_ok w -> l <> [] -> due_at w l <= burst_first l + cw_maxDelay w.
Proof. intros [Hw Hr] Hl. destruct l as [|t [|u l]]; [done|cbn; lia|]. unfold due_at. lia. Qed.

(** C30: the queue evaluates exactly what is due, in order, and nothing waits past its bound.
    After any history of enqueues and evaluations, a subject is taken only when its
    burst is due: a window after a lone enqueue, a rollout window after the newest of
    several, but never later than the longest delay after the burst's first enqueue; no
    other waiting subject was due earlier. When the queue has nothing to hand out, every
    waiting subject is still to become due, so one whose first enqueue is the longest
    delay ago is never left; and the wait it reports is the time to the earliest. *)
Theorem queue_takes_what_is_due (w : coalesceWindows) (h : list event) (t now : Time) (c : coalescer) (Hr : queue_run w h t c) (Ht : t <= now) :
  let due sub := due_at (normalise w) (burst sub h) in
  match takeReady now c with
  | (_, Some sub, _) => burst sub h <> [] /\ due sub <= now /\ forall sub', burst sub' h <> [] -> due sub <= due sub'
  | (_, None, wait) =>
      (forall sub, burst sub h <> [] -> now < due sub <= burst_first (burst sub h) + cw_maxDelay (normalise w)) /\
      ((forall sub, burst sub h = []) /\ wait = 0 \/
       exists sub, burst sub h <> [] /\ wait = Sub (due sub) now /\ forall sub', burst sub' h <> [] -> due sub <= due sub')
  end.
Proof.
  destruct (queue_run_ok _ _ _ _ Hr) as (Hok & Hw & _ & _). pose proof (take_loop_answers now h (length (co_timers c)) c Hok ltac:(lia)) as [Ha _].
  pose proof (qo_pending _ _ Hok) as Hp. rewrite Hw in Hp. cbv zeta.
  assert (forall sub e, co_pending c !! sub = Some e -> burst sub h <> [] /\ pe_readyAt e = due_at (normalise w) (burst sub h)) as Hsome
    by (intros sub e He; rewrite Hp in He; destruct (burst sub h); [done|]; by injection He as <-).
  assert (forall sub, burst sub h <> [] -> exists e, co_pending c !! sub = Some e) as Hburst by (intros sub Hb; rewrite Hp; destruct (burst sub h); [done|eauto]).
  assert (forall x, (forall sub' e', co_pending c !! sub' = Some e' -> x <= pe_readyAt e') -> forall sub', burst sub' h <> [] -> x <= due_at (normalise w) (burst sub' h)) as Hmin.
  { intros x Hx sub' Hb. destruct (Hburst _ Hb) as [e' He']. destruct (Hsome _ _ He') as [_ <-]. by eapply Hx. }
  unfold takeReady. destruct (take_loop _ now c) as [[c' [sub|]] wait]; cbn [answers fst] in Ha.
  - destruct Ha as (_ & e & He & Hnow & Hle). destruct (Hsome _ _ He) as [Hb Heq]. rewrite <- Heq. split; [done|]. split; [done|]. by apply Hmin.
  - destruct Ha as [_ Ha]. destruct Ha as [[Hnil ->]|(sub & e & He & Hnow & -> & Hle)].
    + assert (forall sub, burst sub h = []) as Hb by (intros sub; specialize (Hp sub); rewrite Hnil, lookup_empty in Hp; by destruct (burst sub h)).
      split; [intros sub Hn; by rewrite Hb in Hn|]. by left.
    + destruct (Hsome _ _ He) as [Hb Heq]. rewrite Heq in *. split; [|right; exists sub; split; [done|]; split; [done|]; by apply Hmin].
      intros sub' Hb'. pose proof (Hmin _ Hle sub' Hb'). split; [lia|]. apply due_bounds; [apply normalise_ok|done].
Qed.

(** ** Example *)

Module Busy.
Definition web : SubjectRef := mkSubject "Deployment" "shop" "web".
Definition cart : SubjectRef := mkSubject "StatefulSet" "shop" "cart".

(** The web's pods never stop moving; the cart moved once, later. *)
Notation moves := [Enq web (60 * Second); Enq cart (58 * Second); Enq web (50 * Second); Enq web (1 * Second)] (only parsing).
Notation busy_queue := (Enqueue web (60 * Second) (Enqueue cart (58 * Second) (Enqueue web (50 * Second) (Enqueue web (1 * Second) (newCoalescer (mkWindows 0 0 0)))))) (only parsing).

Lemma moves_run : queue_run (mkWindows 0 0 0) moves (60 * Second) busy_queue.
Proof.
  apply (q_enqueue _ _ (58 * Second)); [|vm_compute; discriminate]. apply (q_enqueue _ _ (50 * Second)); [|vm_compute; discriminate].
  apply (q_enqueue _ _ (1 * Second)); [|vm_compute; discriminate]. apply (q_enqueue _ _ 1); [|vm_compute; discriminate]. by apply q_new.
Qed.

Lemma queue_takes_what_is_due_witness :
  (takeReady (62 * Second) busy_queue).1.2 = Some cart /\
  due_at (normalise (mkWindows 0 0 0)) (burst cart moves) <= due_at (normalise (mkWindows 0 0 0)) (burst web moves) /\
  due_at (normalise (mkWindows 0 0 0)) (burst web moves) = 61 * Second.
Proof.
  assert ((takeReady (62 * Second) busy_queue).1.2 = Some cart) as Hr by (vm_compute; reflexivity). split; [exact Hr|]. split; [|vm_compute; reflexivity].
  pose proof (queue_takes_what_is_due _ _ _ (62 * Second) _ moves_run ltac:(vm_compute; discriminate)) as H. cbv zeta in H.
  destruct (takeReady (62 * Second) busy_queue) as [[c r] wait]. cbn [fst snd] in Hr. subst r. destruct H as (_ & _ & H). by apply H.
Defined.
End Busy.
