(* ===== verification/Findings.v ===== *)
(** The run-to-run diff of findings (src/pkg/findings: subject.go, normalize.go, diff.go,
    report.go; the finding rows of src/pkg/store/findings.go; src/pkg/checks/findings/diff.go):
    which subject a finding is about, how it changed since the last run, and the rows and
    acks kept between runs.

    The table of rows is a map by subject key, its primary key; a statement that fails
    leaves it as it was. Row times are kept to the nanosecond, as the store does. The store
    is taken open, writable and of the current schema, and the command from where its flags
    and its report (Report.v) have been read. *)
From S2P Require Import Prelude GoTime GoStrings GoHash Signal.
From stdpp Require Import sorting.
From Stdlib Require Import Ascii.
Open Scope Z_scope.
Open Scope lookout_scope.

(** ** Subjects *)

Definition generatedAlphabet : string := "bcdfghjklmnpqrstvwxz2456789".
Definition minGeneratedLen : nat := 5.
Definition maxGeneratedLen : nat := 10.
Definition maxGeneratedSuffixes : nat := 2.

(** Every rune of the alphabet is one byte, so a byte outside it is or begins a rune outside it. *)
Definition isGeneratedSegment (seg : string) : bool :=
  (minGeneratedLen <=? String.length seg)%nat && (String.length seg <=? maxGeneratedLen)%nat &&
  forall_bytes (fun c => contains_byte c generatedAlphabet) seg.

(** The loop over the segments, the last one first. *)
Fixpoint strip_generated (fuel : nat) (rev_segs : list string) : list string :=
  match fuel, rev_segs with
  | S fuel, seg :: (_ :: _) as rest => if isGeneratedSegment seg then strip_generated fuel (tail rev_segs) else rev_segs
  | _, _ => rev_segs
  end.

Definition NormalizeName (name : string) : string :=
  if name ==s "" then ""
  else String.concat "-" (reverse (strip_generated maxGeneratedSuffixes (reverse (SplitByte "-" name)))).

Definition SubjectKey (cluster namespace kindOfObject name canonicalReason : string) : string :=
  String.concat "/" [cluster; namespace; kindOfObject; NormalizeName name; canonicalReason].

(** ** Findings and observations *)

(** The fields of an [emit.Finding] the diff reads. *)
Record Finding := mkFinding {
  fi_Severity : string; fi_Namespace : string; fi_KindOfObject : string; fi_Name : string; fi_Reason : string; fi_Message : string; fi_Fingerprint : string
}.

Record DiffObservation := mkObservation {
  ob_SubjectKey : string; ob_Fingerprint : string; ob_Cluster : string; ob_Namespace : string; ob_KindOfObject : string;
  ob_Name : string; ob_Reason : string; ob_Severity : string; ob_Message : string
}.

Definition ObservationOf (cluster : string) (f : Finding) : DiffObservation :=
  let reason := CanonicalReason (fi_Reason f) in
  mkObservation (SubjectKey cluster (fi_Namespace f) (fi_KindOfObject f) (fi_Name f) reason) (fi_Fingerprint f) cluster
    (fi_Namespace f) (fi_KindOfObject f) (fi_Name f) reason (fi_Severity f) (fi_Message f).

(** ** The diff *)

Inductive DiffTransition := DiffNew | DiffOngoing | DiffEscalated | DiffResolved | DiffSuppressed.

#[global] Instance DiffTransition_eq_dec : EqDecision DiffTransition.
Proof. solve_decision. Defined.

Definition transitionOrder (t : DiffTransition) : Z :=
  match t with DiffEscalated => 0 | DiffNew => 1 | DiffResolved => 2 | DiffOngoing => 3 | DiffSuppressed => 4 end.

Definition severityRank (s : string) : Z :=
  if s ==s "critical" then 3 else if s ==s "warning" then 2 else if s ==s "info" then 1 else 0.

Record FindingState := mkFindingState {
  fs_SubjectKey : string; fs_Fingerprint : string; fs_Cluster : string; fs_Namespace : string; fs_KindOfObject : string; fs_Name : string;
  fs_Reason : string; fs_Severity : string; fs_FirstSeen : Time; fs_LastSeen : Time; fs_AckUntil : Time; fs_AckBy : string
}.

Definition Acked (now : Time) (s : FindingState) : bool := negb (IsZero (fs_AckUntil s)) && Before now (fs_AckUntil s).

Record DiffChange := mkChange {
  ch_Transition : DiffTransition; ch_Observation : DiffObservation; ch_PrevSeverity : string; ch_FirstSeen : Time; ch_LastSeen : Time; ch_AckUntil : Time; ch_AckBy : string
}.

Record DiffResult := mkResult { dr_Changes : list DiffChange; dr_Next : list FindingState }.

Definition change_key (c : DiffChange) : string := ob_SubjectKey (ch_Observation c).

(** One observation against the row of its subject. *)
Definition observe_one (now : Time) (old : option FindingState) (obs : DiffObservation) : DiffChange * FindingState :=
  let next := mkFindingState (ob_SubjectKey obs) (ob_Fingerprint obs) (ob_Cluster obs) (ob_Namespace obs) (ob_KindOfObject obs) (ob_Name obs)
                (ob_Reason obs) (ob_Severity obs) now now zero_time "" in
  match old with
  | None => (mkChange DiffNew obs "" now now zero_time "", next)
  | Some old =>
      let next := next <| fs_FirstSeen := fs_FirstSeen old |> <| fs_AckUntil := fs_AckUntil old |> <| fs_AckBy := fs_AckBy old |> in
      if Acked now old
      then (mkChange DiffSuppressed obs (fs_Severity old) (fs_FirstSeen old) now (fs_AckUntil old) (fs_AckBy old), next <| fs_Severity := fs_Severity old |>)
      else if severityRank (fs_Severity old) <? severityRank (ob_Severity obs)
      then (mkChange DiffEscalated obs (fs_Severity old) (fs_FirstSeen old) now zero_time "", next)
      else (mkChange DiffOngoing obs (fs_Severity old) (fs_FirstSeen old) now zero_time "", next)
  end.

(** The loop over the current run; the subjects seen so far. *)
Definition diff_obs (prevByKey : gmap string FindingState) (now : Time) (x : gset string * DiffResult) (obs : DiffObservation) : gset string * DiffResult :=
  let '(seen, res) := x in
  if bool_decide (ob_SubjectKey obs ∈ seen) then x
  else
    let '(ch, next) := observe_one now (prevByKey !! ob_SubjectKey obs) obs in
    ({[ob_SubjectKey obs]} ∪ seen, mkResult (dr_Changes res ++ [ch]) (dr_Next res ++ [next])).

Definition resolve_one (old : FindingState) : DiffChange :=
  mkChange DiffResolved
    (mkObservation (fs_SubjectKey old) (fs_Fingerprint old) (fs_Cluster old) (fs_Namespace old) (fs_KindOfObject old) (fs_Name old) (fs_Reason old) (fs_Severity old) "")
    (fs_Severity old) (fs_FirstSeen old) (fs_LastSeen old) zero_time "".

Definition change_le (a b : DiffChange) : Prop :=
  let oa := transitionOrder (ch_Transition a) in
  let ob := transitionOrder (ch_Transition b) in
  oa < ob \/ oa = ob /\ string_le (change_key a) (change_key b).

#[global] Instance change_le_dec a b : Decision (change_le a b).
Proof. unfold change_le. apply _. Defined.

Definition state_le (a b : FindingState) : Prop := string_le (fs_SubjectKey a) (fs_SubjectKey b).

#[global] Instance state_le_dec a b : Decision (state_le a b).
Proof. unfold state_le. apply _. Defined.

Definition Diff (prev : list FindingState) (cur : list DiffObservation) (now : Time) : DiffResult :=
  let prevByKey := foldl (fun m s => <[fs_SubjectKey s := s]> m) ∅ prev in
  let '(seen, res) := foldl (diff_obs prevByKey now) (∅, mkResult [] []) cur in
  let gone := List.filter (fun old => negb (bool_decide (fs_SubjectKey old ∈ seen))) prev in
  mkResult (merge_sort change_le (dr_Changes res ++ (resolve_one <$> gone))) (merge_sort state_le (dr_Next res)).

(** ** The rows *)

Notation table := (gmap string FindingState) (only parsing).

Definition FindingStates (cluster : string) (t : table) : list FindingState :=
  merge_sort state_le (List.filter (fun s => fs_Cluster s ==s cluster) (map_to_list t).*2).

(** [None]: the swap is refused or its transaction fails on a key another cluster holds. *)
Definition ReplaceFindingStates (cluster : string) (next : list FindingState) (t : table) : option table :=
  if existsb (fun s => fs_Cluster s <>s cluster) next then None
  else
    let kept := filter (fun ks => fs_Cluster ks.2 <> cluster) t in
    foldl (fun acc s => t ← acc; if bool_decide (is_Some (t !! fs_SubjectKey s)) then None else Some (<[fs_SubjectKey s := s]> t)) (Some kept) next.

Definition AckFinding (subjectKey by_ : string) (until : Time) (t : table) : option (table * FindingState) :=
  if (subjectKey ==s "") || IsZero until then None
  else match t !! subjectKey with
       | None => None
       | Some s => let s := s <| fs_AckUntil := until |> <| fs_AckBy := by_ |> in Some (<[subjectKey := s]> t, s)
       end.

Definition UnackFinding (subjectKey : string) (t : table) : option (table * FindingState) :=
  match t !! subjectKey with
  | None => None
  | Some s => let s := s <| fs_AckUntil := zero_time |> <| fs_AckBy := "" |> in Some (<[subjectKey := s]> t, s)
  end.

(** A diff command on parsed observations: the rows are swapped before anything is printed.
    [persist]: neither a dry run nor run as a filtered caller; [want]: the transitions to print. *)
Definition runDiff (cluster : string) (observations : list DiffObservation) (now : Time) (persist : bool) (want : DiffTransition -> bool) (t : table)
    : option (table * list DiffChange) :=
  let res := Diff (FindingStates cluster t) observations now in
  let emitted := List.filter (fun c => want (ch_Transition c)) (dr_Changes res) in
  if persist then t' ← ReplaceFindingStates cluster (dr_Next res) t; Some (t', emitted)
  else Some (t, emitted).

(** ** Subjects: theorems *)

Lemma concat_two sep a b : String.concat sep [a; b] = a +:+ sep +:+ b.
Proof. done. Qed.

Lemma concat_snoc sep l b : l <> [] -> String.concat sep (l ++ [b]) = String.concat sep l +:+ sep +:+ b.
Proof.
  induction l as [|a l IH]; [done|]. intros _. destruct l as [|a' l]; [done|].
  change (String.concat sep ((a :: a' :: l) ++ [b])) with (a +:+ sep +:+ String.concat sep ((a' :: l) ++ [b])). rewrite IH by done.
  change (String.concat sep (a :: a' :: l)) with (a +:+ sep +:+ String.concat sep (a' :: l)). by rewrite !app_assoc_string.
Qed.

(** A generated segment has no dash. *)
Lemma generated_no_dash seg : isGeneratedSegment seg = true -> contains_byte "-" seg = false.
Proof.
  unfold isGeneratedSegment. intros [_ Hg]%andb_prop. induction seg as [|c seg IH]; [done|]. cbn [forall_bytes contains_byte] in *.
  apply andb_prop in Hg as [Hc Hg]. rewrite (IH Hg), orb_false_r. destruct (Ascii.eqb "-" c) eqn:E; [|done]. apply Ascii.eqb_eq in E. subst c. done.
Qed.

Lemma SplitByte_snoc c a b : contains_byte c b = false -> SplitByte c (a +:+ String c b) = SplitByte c a ++ [b].
Proof.
  intros Hb. induction a as [|d a IH]; [cbn; by rewrite Ascii.eqb_refl, SplitByte_one|].
  change (String d a +:+ String c b) with (String d (a +:+ String c b)). cbn [SplitByte]. rewrite IH. destruct (Ascii.eqb c d); [done|].
  pose proof (SplitByte_nonempty c a). by destruct (SplitByte c a).
Qed.

Lemma NormalizeName_two base g1 g2 : isGeneratedSegment g1 = true -> isGeneratedSegment g2 = true ->
  NormalizeName (base +:+ "-" +:+ g1 +:+ "-" +:+ g2) = base.
Proof.
  intros H1 H2. unfold NormalizeName. rewrite bool_decide_eq_false_2 by (destruct base; done).
  assert (SplitByte "-" (base +:+ "-" +:+ g1 +:+ "-" +:+ g2) = SplitByte "-" base ++ [g1; g2]) as ->.
  { change (base +:+ "-" +:+ g1 +:+ "-" +:+ g2) with (base +:+ String "-" g1 +:+ String "-" g2).
    rewrite <- app_assoc_string, (SplitByte_snoc _ (base +:+ String "-" g1)) by (by apply generated_no_dash).
    rewrite SplitByte_snoc by (by apply generated_no_dash). by rewrite <- app_assoc. }
  rewrite reverse_app. change (reverse [g1; g2]) with [g2; g1]. pose proof (SplitByte_nonempty "-" base) as Hn.
  destruct (reverse (SplitByte "-" base)) as [|r rs] eqn:Hr; [apply (f_equal reverse) in Hr; rewrite reverse_involutive in Hr; done|].
  cbn [app strip_generated maxGeneratedSuffixes tail]. rewrite H2, H1. rewrite <- Hr, reverse_involutive. apply concat_SplitByte.
Qed.

Lemma sep_inj c a r a' r' : contains_byte c a = false -> contains_byte c a' = false -> a +:+ String c r = a' +:+ String c r' -> a = a' /\ r = r'.
Proof.
  intros Ha Ha' Heq. assert (cut_byte c (a +:+ String c r) = Some (a, r)) as H1 by (by apply cut_byte_Some).
  rewrite Heq in H1. assert (cut_byte c (a' +:+ String c r') = Some (a', r')) as H2 by (by apply cut_byte_Some). rewrite H1 in H2. by injection H2.
Qed.

Lemma contains_concat c sep l : contains_byte c sep = false -> Forall (fun s => contains_byte c s = false) l -> contains_byte c (String.concat sep l) = false.
Proof.
  intros Hs Hl. induction Hl as [|a l Ha Hl IH]; [done|]. destruct l as [|b l]; [done|].
  change (String.concat sep (a :: b :: l)) with (a +:+ sep +:+ String.concat sep (b :: l)). by rewrite !contains_byte_app, Ha, Hs, IH.
Qed.

Lemma SplitByte_free c d s : contains_byte c s = false -> Forall (fun x => contains_byte c x = false) (SplitByte d s).
Proof.
  induction s as [|e s IH]; [by repeat constructor|]. cbn [contains_byte SplitByte]. intros [He Hs]%orb_false_elim. specialize (IH Hs).
  destruct (Ascii.eqb d e); [by constructor|]. destruct (SplitByte d s) as [|x xs]; [repeat constructor; cbn; by rewrite He|].
  inversion_clear IH as [|? ? Hx Hxs]. constructor; [|done]. cbn. by rewrite He, Hx.
Qed.

Lemma strip_generated_suffix fuel l : exists l', l = l' ++ strip_generated fuel l.
Proof.
  revert l. induction fuel as [|fuel IH]; intros l; [by exists []|]. destruct l as [|a [|b l]]; [by exists []..|]. cbn [strip_generated].
  destruct (isGeneratedSegment a); [|by exists []]. destruct (IH (tail (a :: b :: l))) as [l' Hl']. exists (a :: l'). cbn [tail] in *. by rewrite <- app_comm_cons, <- Hl'.
Qed.

Lemma NormalizeName_free c name : c <> "-"%char -> contains_byte c name = false -> contains_byte c (NormalizeName name) = false.
Proof.
  intros Hc Hn. unfold NormalizeName. case_bool_decide; [done|]. apply contains_concat; [cbn; by rewrite (proj2 (Ascii.eqb_neq _ _) Hc)|].
  apply Forall_reverse. destruct (strip_generated_suffix maxGeneratedSuffixes (reverse (SplitByte "-" name))) as [l' Hl'].
  pose proof (SplitByte_free c "-" name Hn) as Hf. apply Forall_reverse in Hf. rewrite Hl' in Hf. by apply list.Forall_app in Hf as [_ ?].
Qed.

(** The subject of a finding is the workload. Two pods that one workload's controllers
    generated, whatever their suffixes, are one subject; and two findings with one subject
    key agree on cluster, namespace, kind, normalized name and reason, whichever of those
    are empty. *)
Theorem subject_key_names_the_workload (cluster namespace kind reason : string) :
  (forall base g1 g2, isGeneratedSegment g1 = true -> isGeneratedSegment g2 = true ->
    SubjectKey cluster namespace kind (base +:+ "-" +:+ g1 +:+ "-" +:+ g2) reason = String.concat "/" [cluster; namespace; kind; base; reason]) /\
  (forall name cluster' namespace' kind' name' reason',
    Forall (fun s => contains_byte "/" s = false) [cluster; namespace; kind; name; cluster'; namespace'; kind'; name'] ->
    SubjectKey cluster namespace kind name reason = SubjectKey cluster' namespace' kind' name' reason' ->
    (cluster, namespace, kind, NormalizeName name, reason) = (cluster', namespace', kind', NormalizeName name', reason')).
Proof.
  split.
  - intros base g1 g2 H1 H2. unfold SubjectKey. by rewrite NormalizeName_two.
  - intros name cluster' namespace' kind' name' reason' Hf Heq. rewrite !list.Forall_cons in Hf. destruct Hf as (H1 & H2 & H3 & H4 & H5 & H6 & H7 & H8 & _).
    unfold SubjectKey in Heq. cbn [String.concat] in Heq.
    pose proof (NormalizeName_free "/" name ltac:(done) H4) as H4'. pose proof (NormalizeName_free "/" name' ltac:(done) H8) as H8'.
    apply sep_inj in Heq as [-> Heq]; [|done..]. apply sep_inj in Heq as [-> Heq]; [|done..]. apply sep_inj in Heq as [-> Heq]; [|done..].
    apply sep_inj in Heq as [-> ->]; [|done..]. done.
Qed.

Lemma subject_key_names_the_workload_witness :
  SubjectKey "prod" "shop" "Pod" "payment-backend-7d9f8-x9k2l" "CrashLoopBackOff" = "prod/shop/Pod/payment-backend/CrashLoopBackOff" /\
  NormalizeName "db-0" <> NormalizeName "db-1".
Proof.
  destruct (subject_key_names_the_workload "prod" "shop" "Pod" "CrashLoopBackOff") as [H1 _]. split; [|vm_compute; discriminate].
  refine (eq_trans (H1 "payment-backend" "7d9f8" "x9k2l" _ _) _); vm_compute; reflexivity.
Defined.

(** ** One subject at a time *)

Definition first_obs (k : string) (cur : list DiffObservation) : option DiffObservation := snd <$> list_find (fun o => ob_SubjectKey o = k) cur.

Definition changes_at (k : string) (l : list DiffChange) : list DiffChange := List.filter (fun c => change_key c ==s k) l.
Definition states_at (k : string) (l : list FindingState) : list FindingState := List.filter (fun s => fs_SubjectKey s ==s k) l.

(** What a run does to one subject: its change, and its row afterwards. *)
Definition subject_change (now : Time) (old : option FindingState) (obs : option DiffObservation) : list DiffChange :=
  match obs, old with
  | Some obs, _ => [(observe_one now old obs).1]
  | None, Some old => [resolve_one old]
  | None, None => []
  end.

Definition subject_next (now : Time) (old : option FindingState) (obs : option DiffObservation) : option FindingState :=
  (fun obs => (observe_one now old obs).2) <$> obs.

Lemma observe_one_key now old obs : change_key (observe_one now old obs).1 = ob_SubjectKey obs /\ fs_SubjectKey (observe_one now old obs).2 = ob_SubjectKey obs
  /\ fs_Cluster (observe_one now old obs).2 = ob_Cluster obs.
Proof. unfold observe_one. destruct old as [old|]; [|done]. destruct (Acked now old); [done|]. by destruct (_ <? _). Qed.

Lemma first_obs_cons k o cur : first_obs k (o :: cur) = if decide (ob_SubjectKey o = k) then Some o else first_obs k cur.
Proof. unfold first_obs. cbn. destruct (decide _); [done|]. by destruct (list_find _ cur) as [[]|]. Qed.

Lemma first_obs_key k cur o : first_obs k cur = Some o -> ob_SubjectKey o = k /\ o ∈ cur.
Proof.
  unfold first_obs. destruct (list_find _ cur) as [[i o']|] eqn:Hf; [|done]. intros [= <-]. apply list_find_Some in Hf as (Hi & Hk & _).
  split; [done|]. by eapply list_elem_of_lookup_2.
Qed.

(** The loop over the current run, at one key. *)
Lemma diff_fold_at prev now k cur x :
  let y := foldl (diff_obs prev now) x cur in
  (k ∈ y.1 <-> k ∈ x.1 \/ is_Some (first_obs k cur)) /\
  changes_at k (dr_Changes y.2) = changes_at k (dr_Changes x.2) ++ (if bool_decide (k ∈ x.1) then [] else match first_obs k cur with Some o => [(observe_one now (prev !! k) o).1] | None => [] end) /\
  states_at k (dr_Next y.2) = states_at k (dr_Next x.2) ++ (if bool_decide (k ∈ x.1) then [] else match first_obs k cur with Some o => [(observe_one now (prev !! k) o).2] | None => [] end).
Proof.
  revert x. induction cur as [|o cur IH]; intros [seen res].
  { cbn. case_bool_decide; rewrite !app_nil_r; (split; [|done]); split; [by left|by intros [?|[? ?]]|by left|by intros [?|[? ?]]]. }
  cbn [foldl]. destruct (IH (diff_obs prev now (seen, res) o)) as (H1 & H2 & H3). cbv zeta in *. rewrite H2, H3. rewrite first_obs_cons.
  destruct (observe_one_key now (prev !! ob_SubjectKey o) o) as (Hk1 & Hk2 & _).
  unfold diff_obs in *. case_bool_decide as Hseen; cbn [fst snd] in *.
  - split; [|case_bool_decide as Hn; [done|]; rewrite (decide_False (P := ob_SubjectKey o = k)) by (intros <-; done); done].
    rewrite H1. destruct (decide (ob_SubjectKey o = k)) as [<-|]; [|done]. split; [intros [?|?]; [by left|by left]|intros [?|?]; by left].
  - destruct (observe_one now (prev !! ob_SubjectKey o) o) as [ch next] eqn:Ho. cbn [fst snd dr_Changes dr_Next] in *. unfold changes_at, states_at.
    rewrite !List.filter_app. cbn [List.filter]. rewrite Hk1, Hk2. destruct (decide (ob_SubjectKey o = k)) as [<-|Hne].
    + rewrite (bool_decide_eq_true_2 (ob_SubjectKey o = ob_SubjectKey o)), (bool_decide_eq_true_2 (_ ∈ {[_]} ∪ _)), (bool_decide_eq_false_2 (_ ∈ seen)) by set_solver.
      rewrite Ho, !app_nil_r. split; [|done]. rewrite H1. split; [intros _; right; eauto|]. intros _. left. set_solver.
    + rewrite (bool_decide_eq_false_2 (ob_SubjectKey o = k)) by done. rewrite !app_nil_r.
      assert (k ∈ {[ob_SubjectKey o]} ∪ seen <-> k ∈ seen) as Hin by set_solver.
      rewrite (bool_decide_ext _ _ Hin). split; [rewrite H1, Hin; done|done].
Qed.

Definition row_at (k : string) (prev : list FindingState) : option FindingState := snd <$> list_find (fun s => fs_SubjectKey s = k) prev.

Lemma row_at_cons k s prev : row_at k (s :: prev) = if decide (fs_SubjectKey s = k) then Some s else row_at k prev.
Proof. unfold row_at. cbn. destruct (decide _); [done|]. by destruct (list_find _ prev) as [[]|]. Qed.

Lemma row_at_None k prev : k ∉ fs_SubjectKey <$> prev -> row_at k prev = None.
Proof. induction prev as [|s prev IH]; [done|]. rewrite row_at_cons, fmap_cons, not_elem_of_cons. intros [Hk Hp]. rewrite decide_False by done. by apply IH. Qed.

Lemma row_at_Some k prev s : row_at k prev = Some s -> fs_SubjectKey s = k /\ s ∈ prev.
Proof.
  unfold row_at. destruct (list_find _ prev) as [[i s']|] eqn:Hf; [|done]. intros [= <-]. apply list_find_Some in Hf as (Hi & Hk & _).
  split; [done|]. by eapply list_elem_of_lookup_2.
Qed.

Lemma row_at_elem k prev s : NoDup (fs_SubjectKey <$> prev) -> s ∈ prev -> fs_SubjectKey s = k -> row_at k prev = Some s.
Proof.
  induction prev as [|s' prev IH]; intros Hnd Hs Hk; [by apply not_elem_of_nil in Hs|]. rewrite row_at_cons. rewrite fmap_cons in Hnd. apply list.NoDup_cons in Hnd as [Hs' Hnd].
  apply elem_of_cons in Hs as [->|Hs]; [by rewrite decide_True|]. rewrite decide_False; [by apply IH|]. intros Heq. apply Hs'. rewrite Heq, <- Hk. by apply list_elem_of_fmap_2.
Qed.

Lemma prev_map_at k prev (m : gmap string FindingState) : NoDup (fs_SubjectKey <$> prev) ->
  foldl (fun m s => <[fs_SubjectKey s := s]> m) m prev !! k = match row_at k prev with Some s => Some s | None => m !! k end.
Proof.
  revert m. induction prev as [|s prev IH]; intros m Hnd; [done|]. rewrite fmap_cons in Hnd. apply list.NoDup_cons in Hnd as [Hs Hnd]. cbn [foldl]. rewrite IH, row_at_cons by done.
  destruct (decide (fs_SubjectKey s = k)) as [<-|Hk]; [by rewrite row_at_None, lookup_insert_eq|]. by rewrite lookup_insert_ne.
Qed.

Lemma resolved_at seen k prev : NoDup (fs_SubjectKey <$> prev) ->
  changes_at k (resolve_one <$> List.filter (fun old => negb (bool_decide (fs_SubjectKey old ∈ (seen : gset string)))) prev) =
  if bool_decide (k ∈ seen) then [] else match row_at k prev with Some old => [resolve_one old] | None => [] end.
Proof.
  unfold changes_at. induction prev as [|s prev IH]; intros Hnd; [by case_bool_decide|]. rewrite fmap_cons in Hnd. apply list.NoDup_cons in Hnd as [Hs Hnd]. specialize (IH Hnd).
  rewrite row_at_cons. cbn [List.filter]. destruct (decide (fs_SubjectKey s = k)) as [<-|Hk].
  - rewrite row_at_None in IH by done. destruct (bool_decide (fs_SubjectKey s ∈ seen)) eqn:Hin; cbn [negb]; [exact IH|].
    cbn [fmap list_fmap List.filter]. change (change_key (resolve_one s)) with (fs_SubjectKey s). rewrite bool_decide_eq_true_2 by done. by rewrite IH.
  - destruct (bool_decide (fs_SubjectKey s ∈ seen)); cbn [negb]; [exact IH|]. cbn [fmap list_fmap List.filter].
    change (change_key (resolve_one s)) with (fs_SubjectKey s). rewrite bool_decide_eq_false_2 by done. exact IH.
Qed.

#[global] Instance change_le_trans : Transitive change_le.
Proof. intros a b c. unfold change_le. intros [?|[? H1]] [?|[? H2]]; [left; lia..|]. right. split; [lia|]. by etrans. Qed.

#[global] Instance change_le_total : Total change_le.
Proof.
  intros a b. unfold change_le. destruct (Z.lt_trichotomy (transitionOrder (ch_Transition a)) (transitionOrder (ch_Transition b))) as [?|[?|?]]; [by left; left| |by right; left].
  destruct (total string_le (change_key a) (change_key b)); [left; by right|right; right; split; [lia|done]].
Qed.

#[global] Instance state_le_trans : Transitive state_le.
Proof. intros a b c. unfold state_le. apply transitivity. Qed.

#[global] Instance state_le_total : Total state_le.
Proof. intros a b. unfold state_le. apply total, _. Qed.

Lemma filter_perm {A} (f : A -> bool) (l l' : list A) : l ≡ₚ l' -> List.filter f l ≡ₚ List.filter f l'.
Proof.
  induction 1 as [|x l l' _ IH|x y l|l l' l'' _ IH _ IH']; cbn; [done|by destruct (f x); rewrite ?IH|destruct (f x), (f y); try done; apply perm_swap|by etrans].
Qed.

Lemma filter_one {A} (f : A -> bool) (l l' : list A) (r : option A) : l ≡ₚ l' -> List.filter f l' = option_list r -> List.filter f l = option_list r.
Proof.
  intros Hp%(filter_perm f) Hf. rewrite Hf in Hp. destruct r; [by apply Permutation_singleton_r in Hp|by apply Permutation_nil_r in Hp].
Qed.

Lemma once_NoDup {A} (key : A -> string) (l : list A) : (forall k, (length (List.filter (fun x => key x ==s k) l) <= 1)%nat) -> NoDup (key <$> l).
Proof.
  induction l as [|x l IH]; intros Hl; [constructor|]. rewrite fmap_cons. apply list.NoDup_cons. split.
  - intros (y & Hk & Hy)%list_elem_of_fmap. specialize (Hl (key x)). cbn in Hl. rewrite bool_decide_eq_true_2 in Hl by done. cbn in Hl.
    assert (y ∈ List.filter (fun z => key z ==s key x) l) as Hin by (rewrite list_elem_of_In in *; apply filter_In; split; [done|]; by apply bool_decide_eq_true).
    destruct (List.filter _ l); [by apply not_elem_of_nil in Hin|cbn in Hl; lia].
  - apply IH. intros k. specialize (Hl k). cbn in Hl. destruct (key x ==s k); cbn in Hl; lia.
Qed.

(** A run does to each subject what its own row and its first observation say. *)
Lemma Diff_at prev cur now k : NoDup (fs_SubjectKey <$> prev) ->
  changes_at k (dr_Changes (Diff prev cur now)) = subject_change now (row_at k prev) (first_obs k cur) /\
  states_at k (dr_Next (Diff prev cur now)) = option_list (subject_next now (row_at k prev) (first_obs k cur)).
Proof.
  intros Hnd. unfold Diff. set (m := foldl _ ∅ prev).
  pose proof (diff_fold_at m now k cur (∅, mkResult [] [])) as (Hseen & Hc & Hn). cbv zeta in *.
  assert (m !! k = row_at k prev) as Hm by (unfold m; rewrite prev_map_at by done; by destruct (row_at k prev)).
  destruct (foldl (diff_obs m now) (∅, mkResult [] []) cur) as [seen res]. cbn [fst snd dr_Changes dr_Next] in *.
  rewrite bool_decide_eq_false_2 in Hc, Hn by set_solver. rewrite Hm in Hc, Hn. cbn in Hc, Hn. split.
  - assert (changes_at k (dr_Changes res ++ (resolve_one <$> List.filter (fun old => negb (bool_decide (fs_SubjectKey old ∈ seen))) prev)) =
      option_list (head (subject_change now (row_at k prev) (first_obs k cur)))) as Hall.
    { unfold changes_at. rewrite List.filter_app. unfold changes_at in Hc. rewrite Hc. pose proof (resolved_at seen k prev Hnd) as Hres. unfold changes_at in Hres. rewrite Hres.
      destruct (first_obs k cur) as [o|].
      - rewrite bool_decide_eq_true_2 by (apply Hseen; right; eauto). done.
      - rewrite bool_decide_eq_false_2 by (rewrite Hseen; intros [?|[? ?]]; [set_solver|done]). by destruct (row_at k prev). }
    unfold changes_at. rewrite (filter_one _ _ _ _ (merge_sort_Permutation change_le _) Hall). destruct (first_obs k cur), (row_at k prev); done.
  - apply (filter_one _ _ (dr_Next res)); [apply merge_sort_Permutation|]. unfold states_at in Hn. rewrite Hn. by destruct (first_obs k cur).
Qed.

(** Every subject changes once and keeps one row. *)
Lemma Diff_once prev cur now : NoDup (fs_SubjectKey <$> prev) ->
  NoDup (change_key <$> dr_Changes (Diff prev cur now)) /\ NoDup (fs_SubjectKey <$> dr_Next (Diff prev cur now)).
Proof.
  intros Hnd. split; apply once_NoDup; intros k; destruct (Diff_at prev cur now k Hnd) as [Hc Hn].
  - unfold changes_at in Hc. rewrite Hc. destruct (first_obs k cur), (row_at k prev); cbn; lia.
  - unfold states_at in Hn. rewrite Hn. destruct (subject_next _ _ _); cbn; lia.
Qed.

Lemma Diff_sorted prev cur now : Sorted change_le (dr_Changes (Diff prev cur now)) /\ Sorted state_le (dr_Next (Diff prev cur now)).
Proof. unfold Diff. destruct (foldl _ _ cur) as [seen res]. cbn. split; apply Sorted_merge_sort; apply _. Qed.

Lemma states_at_row k l : NoDup (fs_SubjectKey <$> l) -> states_at k l = option_list (row_at k l).
Proof.
  induction l as [|s l IH]; intros Hnd; [done|]. rewrite fmap_cons in Hnd. apply list.NoDup_cons in Hnd as [Hs Hnd]. specialize (IH Hnd).
  rewrite row_at_cons. unfold states_at in *. cbn [List.filter]. destruct (decide (fs_SubjectKey s = k)) as [<-|Hk].
  - rewrite bool_decide_eq_true_2 by done. rewrite IH, row_at_None by done. done.
  - rewrite bool_decide_eq_false_2 by done. exact IH.
Qed.
