(* ===== verification/FindingsRuns.v ===== *)
(** The findings diff over many runs (src/pkg/findings/diff.go, src/pkg/store/findings.go,
    src/pkg/checks/findings/diff.go): what consecutive runs and acks on one shared table
    report of a subject. *)
From S2P Require Import Prelude GoTime GoStrings GoHash Signal Findings.
From stdpp Require Import sorting.
From Stdlib Require Import Ascii.
Open Scope Z_scope.
Open Scope lookout_scope.

(** ** Rows by cluster *)

(** The cluster a subject key begins with. *)
Definition key_cluster (k : string) : string := match cut_byte "/" k with Some (c, _) => c | None => k end.

Definition slash_free (c : string) : Prop := contains_byte "/" c = false.

Lemma key_cluster_of c f : slash_free c -> key_cluster (ob_SubjectKey (ObservationOf c f)) = c.
Proof.
  intros Hc. unfold key_cluster. cbn [ObservationOf ob_SubjectKey]. unfold SubjectKey.
  assert (exists r, String.concat "/" [c; fi_Namespace f; fi_KindOfObject f; NormalizeName (fi_Name f); CanonicalReason (fi_Reason f)] = c +:+ String "/" r) as [r ->] by (eexists; reflexivity).
  assert (cut_byte "/" (c +:+ String "/" r) = Some (c, r)) as -> by (by apply cut_byte_Some). done.
Qed.

Definition table_ok (t : gmap string FindingState) : Prop := forall k s, t !! k = Some s -> fs_SubjectKey s = k /\ fs_Cluster s = key_cluster k.

Lemma rows_elem t s : table_ok t -> s ∈ (map_to_list t).*2 <-> t !! fs_SubjectKey s = Some s.
Proof.
  intros Ht. rewrite list_elem_of_fmap. split.
  - intros ([k s'] & -> & Hk%elem_of_map_to_list). cbn. destruct (Ht _ _ Hk) as [-> _]. done.
  - intros Hs. exists (fs_SubjectKey s, s). split; [done|]. by apply elem_of_map_to_list.
Qed.

Lemma NoDup_keyed c (l : list (string * FindingState)) : NoDup l.*1 -> (forall x, x ∈ l -> fs_SubjectKey x.2 = x.1) ->
  NoDup (fs_SubjectKey <$> List.filter (fun s => fs_Cluster s ==s c) l.*2).
Proof.
  induction l as [|[k s] l IH]; intros Hnd Hk; [constructor|]. cbn [fmap list_fmap fst snd] in *. apply list.NoDup_cons in Hnd as [Hn Hnd].
  assert (forall x, x ∈ l -> fs_SubjectKey x.2 = x.1) as Hk' by (intros x Hx; apply Hk; set_solver). specialize (IH Hnd Hk').
  cbn [List.filter]. destruct (fs_Cluster s ==s c); [|done]. rewrite fmap_cons. apply list.NoDup_cons. split; [|done].
  intros (s' & Hs' & Hin)%list_elem_of_fmap. apply Hn. rewrite list_elem_of_In in Hin. apply filter_In in Hin as [Hin _]. rewrite <- list_elem_of_In in Hin.
  apply list_elem_of_fmap in Hin as (x & -> & Hx). apply list_elem_of_fmap. exists x. split; [|done]. rewrite <- (Hk' x Hx), <- Hs'. symmetry. apply (Hk (k, s)). set_solver.
Qed.

Lemma NoDup_rows c t : table_ok t -> NoDup (fs_SubjectKey <$> FindingStates c t).
Proof.
  intros Ht. unfold FindingStates. rewrite (merge_sort_Permutation state_le). apply NoDup_keyed; [apply NoDup_fst_map_to_list|].
  intros [k s] Hk%elem_of_map_to_list. by destruct (Ht _ _ Hk).
Qed.

Lemma FindingStates_row c t k : table_ok t -> row_at k (FindingStates c t) = if decide (key_cluster k = c) then t !! k else None.
Proof.
  intros Ht. pose proof (NoDup_rows c t Ht) as Hnd.
  assert (forall s, s ∈ FindingStates c t <-> t !! fs_SubjectKey s = Some s /\ fs_Cluster s = c) as Hin.
  { intros s. unfold FindingStates. rewrite (merge_sort_Permutation state_le), list_elem_of_In, filter_In, <- list_elem_of_In, rows_elem by done. by rewrite bool_decide_eq_true. }
  destruct (row_at k (FindingStates c t)) as [s|] eqn:Hr.
  - apply row_at_Some in Hr as [<- Hs]. apply Hin in Hs as [Hs Hc]. destruct (Ht _ _ Hs) as [_ Hc']. by rewrite decide_True by congruence.
  - case_decide as Hc; [|done]. destruct (t !! k) as [s|] eqn:Hs; [|done]. destruct (Ht _ _ Hs) as [Hk Hc'].
    rewrite (row_at_elem k _ s Hnd) in Hr; [done| |done]. apply Hin. rewrite Hk. split; [done|congruence].
Qed.

(** ** The swap *)

Definition insert_row (acc : option (gmap string FindingState)) (s : FindingState) : option (gmap string FindingState) :=
  t ← acc; if bool_decide (is_Some (t !! fs_SubjectKey s)) then None else Some (<[fs_SubjectKey s := s]> t).

Lemma insert_rows_ok next t : NoDup (fs_SubjectKey <$> next) -> (forall s, s ∈ next -> t !! fs_SubjectKey s = None) ->
  exists t', foldl insert_row (Some t) next = Some t' /\ forall k, t' !! k = match row_at k next with Some s => Some s | None => t !! k end.
Proof.
  revert t. induction next as [|s next IH]; intros t Hnd Hn; [by exists t|]. rewrite fmap_cons in Hnd. apply list.NoDup_cons in Hnd as [Hs Hnd].
  cbn [foldl]. unfold insert_row at 2. cbn [mbind option_bind]. rewrite (Hn s) by set_solver. rewrite bool_decide_eq_false_2 by (intros [? ?]; done).
  destruct (IH (<[fs_SubjectKey s := s]> t) Hnd) as (t' & Ht' & Hk).
  { intros s' Hs'. rewrite lookup_insert_ne; [apply Hn; set_solver|]. intros Heq. apply Hs. rewrite Heq. by apply list_elem_of_fmap_2. }
  exists t'. split; [done|]. intros k. rewrite Hk, row_at_cons. destruct (decide (fs_SubjectKey s = k)) as [<-|Hne]; [by rewrite row_at_None, lookup_insert_eq|]. by rewrite lookup_insert_ne.
Qed.

Lemma Replace_ok c next t : table_ok t -> NoDup (fs_SubjectKey <$> next) -> (forall s, s ∈ next -> fs_Cluster s = c /\ key_cluster (fs_SubjectKey s) = c) ->
  exists t', ReplaceFindingStates c next t = Some t' /\ forall k, t' !! k = if decide (key_cluster k = c) then row_at k next else t !! k.
Proof.
  intros Ht Hnd Hc. unfold ReplaceFindingStates.
  assert (existsb (fun s => fs_Cluster s <>s c) next = false) as ->.
  { apply not_true_is_false. intros (s & Hs & Hne)%existsb_exists. rewrite <- list_elem_of_In in Hs. destruct (Hc s Hs) as [Heq _]. by rewrite bool_decide_eq_true_2 in Hne. }
  set (kept := filter _ t).
  assert (forall k, kept !! k = if decide (key_cluster k = c) then None else t !! k) as Hkept.
  { intros k. unfold kept. destruct (t !! k) as [s|] eqn:Hs.
    - destruct (Ht _ _ Hs) as [_ Hcl]. case_decide as Hd; [apply map_lookup_filter_None_2; right; intros s' Hs'; simplify_eq; cbn; congruence|].
      apply map_lookup_filter_Some_2; [done|]. cbn. congruence.
    - rewrite (map_lookup_filter_None_2 _ t k) by (by left). by case_decide. }
  destruct (insert_rows_ok next kept Hnd) as (t' & Ht' & Hk).
  { intros s Hs. rewrite Hkept, decide_True; [done|]. by apply Hc. }
  exists t'. split; [exact Ht'|]. intros k. rewrite Hk, Hkept. destruct (row_at k next) as [s|] eqn:Hr; [|by case_decide].
  apply row_at_Some in Hr as [<- Hs]. rewrite decide_True; [done|]. by apply Hc.
Qed.

(** One run, at one key: it never fails, leaves other clusters alone, and does what the subject's row says. *)
Lemma runDiff_at c fs now want t : table_ok t -> slash_free c ->
  exists t', let obs := ObservationOf c <$> fs in
  runDiff c obs now true want t = Some (t', List.filter (fun ch => want (ch_Transition ch)) (dr_Changes (Diff (FindingStates c t) obs now))) /\ table_ok t' /\
  forall k, t' !! k = if decide (key_cluster k = c) then subject_next now (t !! k) (first_obs k obs) else t !! k.
Proof.
  intros Ht Hc. set (obs := ObservationOf c <$> fs). pose proof (NoDup_rows c t Ht) as Hnd. destruct (Diff_once (FindingStates c t) obs now Hnd) as [_ Hnd'].
  set (res := Diff (FindingStates c t) obs now) in *.
  assert (forall k, row_at k (dr_Next res) = subject_next now (row_at k (FindingStates c t)) (first_obs k obs)) as Hrow.
  { intros k. destruct (Diff_at (FindingStates c t) obs now k Hnd) as [_ Hn]. fold res in Hn. rewrite states_at_row in Hn by done.
    destruct (row_at k (dr_Next res)), (subject_next _ _ _); cbn in Hn; by simplify_eq. }
  assert (forall k s, row_at k (dr_Next res) = Some s -> fs_SubjectKey s = k /\ fs_Cluster s = c /\ key_cluster k = c) as Hcl.
  { intros k s Hs. rewrite Hrow in Hs. unfold subject_next in Hs. destruct (first_obs k obs) as [o|] eqn:Ho; [|done]. cbn in Hs. injection Hs as <-.
    apply first_obs_key in Ho as [Hk Ho]. unfold obs in Ho. apply list_elem_of_fmap in Ho as (f & -> & _).
    destruct (observe_one_key now (row_at k (FindingStates c t)) (ObservationOf c f)) as (_ & -> & ->). split; [done|]. split; [done|]. rewrite <- Hk. by apply key_cluster_of. }
  destruct (Replace_ok c (dr_Next res) t Ht Hnd') as (t' & Hrep & Hk).
  { intros s Hs. destruct (Hcl (fs_SubjectKey s) s) as (_ & ? & ?); [|done]. by apply row_at_elem. }
  assert (forall k, t' !! k = if decide (key_cluster k = c) then subject_next now (t !! k) (first_obs k obs) else t !! k) as Hk'.
  { intros k. rewrite Hk. destruct (decide (key_cluster k = c)) as [Hkc|]; [|done]. rewrite Hrow, FindingStates_row by done. by rewrite decide_True. }
  exists t'. cbv zeta. split; [|split; [|done]].
  - unfold runDiff. fold res. rewrite Hrep. done.
  - intros k s Hs. rewrite Hk in Hs. destruct (decide (key_cluster k = c)) as [Hkc|]; [|by apply Ht]. destruct (Hcl k s Hs) as (? & ? & ?). split; [done|congruence].
Qed.

(** ** Histories *)

(** What operators do to the table: a diff run over a cluster's report, an ack, an ack taken back. *)
Inductive finding_event :=
| EvDiff (cluster : string) (fs : list Finding) (now : Time)
| EvAck (key by_ : string) (until : Time)
| EvUnack (key : string).

Definition run_event (ev : finding_event) (t : gmap string FindingState) : gmap string FindingState :=
  match ev with
  | EvDiff c fs now => default t (fst <$> runDiff c (ObservationOf c <$> fs) now true (fun _ => true) t)
  | EvAck key by_ until => default t (fst <$> AckFinding key by_ until t)
  | EvUnack key => default t (fst <$> UnackFinding key t)
  end.

(** Events, newest first. *)
Definition run_events (evs : list finding_event) : gmap string FindingState := foldr run_event ∅ evs.

Definition labelled (ev : finding_event) : Prop := match ev with EvDiff c _ _ => slash_free c | _ => True end.

(** The observation of a subject in a run of its cluster. *)
Definition seen_in (k c : string) (fs : list Finding) : option DiffObservation := first_obs k (ObservationOf c <$> fs).

(** The subject was in its cluster's last run. *)
Fixpoint is_open (k : string) (evs : list finding_event) : bool :=
  match evs with
  | [] => false
  | EvDiff c fs _ :: evs => if c ==s key_cluster k then bool_decide (is_Some (seen_in k c fs)) else is_open k evs
  | _ :: evs => is_open k evs
  end.

(** The expiry of the ack it carries; 0 for none. An ack ends with the occurrence it was taken on. *)
Fixpoint ack_on (k : string) (evs : list finding_event) : Time :=
  match evs with
  | [] => 0
  | EvDiff c fs _ :: evs => if c ==s key_cluster k then (if bool_decide (is_Some (seen_in k c fs)) then ack_on k evs else 0) else ack_on k evs
  | EvAck key _ until :: evs => if (key ==s k) && (key <>s "") && is_open k evs && negb (until =? 0) then until else ack_on k evs
  | EvUnack key :: evs => if (key ==s k) && is_open k evs then 0 else ack_on k evs
  end.

Definition acked_at (now until : Time) : bool := negb (until =? 0) && (now <? until).

(** The severity operators last heard of: of the newest run that was not inside an ack. *)
Fixpoint reported (k : string) (evs : list finding_event) : string :=
  match evs with
  | [] => ""
  | EvDiff c fs now :: evs =>
      if c ==s key_cluster k then
        match seen_in k c fs with
        | Some o => if is_open k evs && acked_at now (ack_on k evs) then reported k evs else ob_Severity o
        | None => ""
        end
      else reported k evs
  | _ :: evs => reported k evs
  end.

(** The run that started the unbroken presence. *)
Fixpoint present_since (k : string) (evs : list finding_event) : Time :=
  match evs with
  | [] => 0
  | EvDiff c fs now :: evs =>
      if c ==s key_cluster k then (if bool_decide (is_Some (seen_in k c fs)) && is_open k evs then present_since k evs else now) else present_since k evs
  | _ :: evs => present_since k evs
  end.

Definition row_is (k : string) (evs : list finding_event) (row : option FindingState) : Prop :=
  match row with
  | Some s => is_open k evs = true /\ fs_Severity s = reported k evs /\ fs_FirstSeen s = present_since k evs /\ fs_AckUntil s = ack_on k evs
  | None => is_open k evs = false /\ ack_on k evs = 0
  end.

Lemma subject_next_is k c fs now evs row : c = key_cluster k -> row_is k evs row ->
  row_is k (EvDiff c fs now :: evs) (subject_next now row (seen_in k c fs)).
Proof.
  intros Hc Hr. unfold subject_next. destruct (seen_in k c fs) as [o|] eqn:Ho; cbn [fmap option_fmap option_map row_is is_open ack_on reported present_since];
    rewrite (bool_decide_eq_true_2 (c = key_cluster k)) by done; rewrite Ho.
  - rewrite (bool_decide_eq_true_2 (is_Some (Some o))) by eauto. split; [done|]. destruct row as [s|]; cbn [row_is] in Hr.
    + destruct Hr as (-> & Hsev & Hfirst & Hack). unfold observe_one, Acked, IsZero, Before, zero_time, acked_at. rewrite Hack. cbn [andb].
      destruct (negb (ack_on k evs =? 0) && (now <? ack_on k evs)); [done|]. by destruct (_ <? _).
    + destruct Hr as [-> ->]. done.
  - rewrite bool_decide_eq_false_2 by (intros [? ?]; done). done.
Qed.

Lemma row_other k c fs now evs row : c <> key_cluster k -> row_is k evs row -> row_is k (EvDiff c fs now :: evs) row.
Proof. intros Hc Hr. unfold row_is in *. cbn [is_open ack_on reported present_since]. by rewrite (bool_decide_eq_false_2 (c = key_cluster k)). Qed.

Lemma table_set t k s s' : table_ok t -> t !! k = Some s -> fs_SubjectKey s' = fs_SubjectKey s -> fs_Cluster s' = fs_Cluster s -> table_ok (<[k := s']> t).
Proof. intros Ht Hs Hk Hc k1 s1 [[<- <-]|[_ H1]]%lookup_insert_Some; [destruct (Ht _ _ Hs); split; congruence|by apply Ht]. Qed.

(** Setting the ack of an open row. *)
Lemma row_acked k k' ev evs (t : gmap string FindingState) s until by_ : (forall x, is_open x (ev :: evs) = is_open x evs /\ reported x (ev :: evs) = reported x evs /\ present_since x (ev :: evs) = present_since x evs) ->
  (forall x, ack_on x (ev :: evs) = if decide (x = k') then until else ack_on x evs) ->
  t !! k' = Some s -> row_is k evs (t !! k) -> row_is k (ev :: evs) (<[k' := (s <| fs_AckUntil := until |> <| fs_AckBy := by_ |>)]> t !! k).
Proof.
  intros Hsame Hack Hs Hr. destruct (Hsame k) as (H1 & H2 & H3). unfold row_is in *. rewrite H1, H2, H3, Hack. destruct (decide (k = k')) as [->|Hk].
  - rewrite lookup_insert_eq. rewrite Hs in Hr. destruct Hr as (? & ? & ? & _). done.
  - by rewrite lookup_insert_ne.
Qed.

Lemma row_same k ev evs row : is_open k (ev :: evs) = is_open k evs -> reported k (ev :: evs) = reported k evs -> present_since k (ev :: evs) = present_since k evs ->
  ack_on k (ev :: evs) = ack_on k evs -> row_is k evs row -> row_is k (ev :: evs) row.
Proof. unfold row_is. by intros -> -> -> ->. Qed.

Lemma run_events_rows evs : Forall labelled evs -> table_ok (run_events evs) /\ forall k, row_is k evs (run_events evs !! k).
Proof.
  induction evs as [|ev evs IH]; intros Hl; [by split|]. inversion_clear Hl as [|? ? Hev Hl']. destruct (IH Hl') as [Ht Hr]. cbn [run_events foldr]. fold (run_events evs).
  set (t := run_events evs) in *. assert (forall k, is_open k evs = bool_decide (is_Some (t !! k))) as Hopen.
  { intros k. specialize (Hr k). destruct (t !! k) as [s|]; [destruct Hr as [-> _]; by rewrite bool_decide_eq_true_2 by eauto|destruct Hr as [-> _]; by rewrite bool_decide_eq_false_2 by (intros [? ?]; done)]. }
  destruct ev as [c fs now|key by_ until|key]; cbn [run_event].
  - destruct (runDiff_at c fs now (fun _ => true) t Ht Hev) as (t' & -> & Ht' & Hk). cbn. split; [done|]. intros k. rewrite Hk. unfold seen_in in *.
    destruct (decide (key_cluster k = c)) as [<-|Hne]; [by apply subject_next_is|]. by apply row_other.
  - unfold AckFinding, IsZero, zero_time. destruct ((key ==s "") || (until =? 0)) eqn:Hbad.
    + split; [done|]. intros k. apply row_same; try done. cbn [ack_on]. apply orb_prop in Hbad as [Hb|Hb]; rewrite Hb; cbn [negb]; by rewrite ?andb_false_r, ?andb_false_l.
    + apply orb_false_elim in Hbad as [Hb Hz]. destruct (t !! key) as [s|] eqn:Hs; cbn.
      * split; [by apply (table_set t key s)|]. intros k. apply (row_acked k key _ evs t s); try done. intros x. cbn [ack_on]. rewrite Hb, Hz.
        destruct (decide (x = key)) as [->|Hx]; [rewrite Hopen, Hs, !bool_decide_eq_true_2 by eauto; done|]. by rewrite bool_decide_eq_false_2.
      * split; [done|]. intros k. apply row_same; try done. cbn [ack_on]. destruct (key ==s k) eqn:Hk; [|done]. apply bool_decide_eq_true in Hk as <-.
        rewrite Hopen, Hs. by rewrite andb_false_r.
  - unfold UnackFinding. destruct (t !! key) as [s|] eqn:Hs; cbn.
    + split; [by apply (table_set t key s)|]. intros k. apply (row_acked k key _ evs t s); try done. intros x. cbn [ack_on].
      destruct (decide (x = key)) as [->|Hx]; [rewrite Hopen, Hs, !bool_decide_eq_true_2 by eauto; done|]. by rewrite bool_decide_eq_false_2.
    + split; [done|]. intros k. apply row_same; try done. cbn [ack_on]. destruct (key ==s k) eqn:Hk; [|done]. apply bool_decide_eq_true in Hk as <-. by rewrite Hopen, Hs.
Qed.

(** What a run tells of one subject. *)
Definition told (k : string) (evs : list finding_event) (now : Time) (o : option DiffObservation) : list (DiffTransition * string * Time) :=
  match o, is_open k evs with
  | Some o, false => [(DiffNew, "", now)]
  | Some o, true =>
      let tr := if acked_at now (ack_on k evs) then DiffSuppressed
                else if severityRank (reported k evs) <? severityRank (ob_Severity o) then DiffEscalated else DiffOngoing in
      [(tr, reported k evs, present_since k evs)]
  | None, true => [(DiffResolved, reported k evs, present_since k evs)]
  | None, false => []
  end.

(** C31: each run tells each subject once and against what was last told. Over any history of
    runs, acks and acks taken back, on a table that clusters share, the next run of a
    cluster succeeds and reports for each of its subjects exactly one transition when the
    subject is in it or was in the last one, none otherwise. A subject is new when its
    cluster's last run did not have it; inside an ack it is suppressed; else it has
    escalated exactly when its severity is above the one last reported outside an ack, so
    an escalation inside an ack is told when the ack ends; and the first-seen instant is
    that of the run that started its unbroken presence. *)
Theorem runs_report_what_changed (evs : list finding_event) (c k : string) (fs : list Finding) (now : Time)
    (Hl : Forall labelled evs) (Hc : slash_free c) (Hk : key_cluster k = c) :
  exists t' changes, runDiff c (ObservationOf c <$> fs) now true (fun _ => true) (run_events evs) = Some (t', changes) /\
    (fun ch => (ch_Transition ch, ch_PrevSeverity ch, ch_FirstSeen ch)) <$> changes_at k changes = told k evs now (seen_in k c fs).
Proof.
  destruct (run_events_rows evs Hl) as [Ht Hr]. destruct (runDiff_at c fs now (fun _ => true) _ Ht Hc) as (t' & Hrun & _).
  eexists t', _. split; [exact Hrun|].
  assert (forall l : list DiffChange, List.filter (fun _ => true) l = l) as -> by (induction l as [|? ? IH]; cbn; congruence).
  destruct (Diff_at (FindingStates c (run_events evs)) (ObservationOf c <$> fs) now k (NoDup_rows c _ Ht)) as [-> _].
  rewrite FindingStates_row, decide_True by done. specialize (Hr k). unfold seen_in, subject_change, told. set (o := first_obs k _). clearbody o.
  destruct (run_events evs !! k) as [s|]; cbn [row_is] in Hr.
  - destruct Hr as (-> & Hsev & Hfirst & Hack). destruct o as [o|]; [|cbn; by rewrite Hsev, Hfirst].
    unfold observe_one, Acked, IsZero, Before, zero_time, acked_at. rewrite Hack, Hsev, Hfirst.
    destruct (negb (ack_on k evs =? 0) && (now <? ack_on k evs)); cbn; [done|]. by destruct (_ <? _).
  - destruct Hr as [-> _]. by destruct o.
Qed.

(** ** Example *)

Module Oncall.
Definition crash (severity : string) : Finding := mkFinding severity "shop" "Pod" "web-7d9f8-x9k2l" "CrashLoopBackOff" "" "".
Notation subject := "prod/shop/Pod/web/CrashLoopBackOff" (only parsing).

(** Seen as a warning, acked for an hour, critical inside the ack; another cluster runs too. *)
Notation night := [EvDiff "prod" [crash "critical"] (20 * Minute); EvDiff "test" [] (15 * Minute); EvAck subject "ana" (70 * Minute); EvDiff "prod" [crash "warning"] (5 * Minute)] (only parsing).

(** The escalation is told after the ack, against the warning. *)
Lemma runs_report_what_changed_witness : exists t' changes,
  runDiff "prod" (ObservationOf "prod" <$> [crash "critical"]) (80 * Minute) true (fun _ => true) (run_events night) = Some (t', changes) /\
  (fun ch => (ch_Transition ch, ch_PrevSeverity ch, ch_FirstSeen ch)) <$> changes_at subject changes = [(DiffEscalated, "warning", 5 * Minute)].
Proof.
  destruct (runs_report_what_changed night "prod" subject [crash "critical"] (80 * Minute)) as (t' & changes & Hr & Hc).
  - repeat constructor.
  - vm_compute. reflexivity.
  - vm_compute. reflexivity.
  - exists t', changes. split; [exact Hr|]. refine (eq_trans Hc _). vm_compute. reflexivity.
Defined.
End Oncall.
