(* ===== verification/AxNames.v ===== *)
(** Where an incident lives in the Agent Executor (src/internal/axsink/axsink.go): the name of
    its task, and the ids that name a session in a task. *)
From S2P Require Import Prelude GoTime GoStrings GoFmt GoHash Signal Wire.
From Stdlib Require Import Ascii.
Open Scope Z_scope.
Open Scope lookout_scope.

(** ** Task names *)

Inductive Scope := ScopeIncident | ScopeCluster.

#[global] Instance Scope_eq_dec : EqDecision Scope.
Proof. solve_decision. Defined.

Definition is_label_byte (c : ascii) : bool :=
  let n := nat_of_ascii c in ((97 <=? n) && (n <=? 122) || (48 <=? n) && (n <=? 57))%nat.

(** A rune of the lower-cased name: itself when it is [a-z0-9], else a dash. *)
Definition slug_rune (r : string) : string :=
  match r with
  | String c EmptyString => if is_label_byte c then r else "-"
  | _ => "-"
  end.

(** [strings.TrimLeft(s, "-")] and [strings.TrimRight(s, "-")]. *)
Fixpoint trim_dashes (s : string) : string :=
  match s with
  | String c r => if Ascii.eqb c "-" then trim_dashes r else s
  | EmptyString => ""
  end.

Definition trim_right_dashes (s : string) : string := string_rev (trim_dashes (string_rev s)).

Section names.
Context `{UnicodeCase}.

Definition clusterTaskName (prefix cluster : string) : string :=
  let suffix := "-" +:+ hex_encode (take 4 (SHA256.sum (bytes_of cluster))) in
  let slug := trim_right_dashes (trim_dashes (String.concat "" (slug_rune <$> Runes (ToLower cluster)))) in
  let limit := (63 - String.length prefix - String.length suffix)%nat in
  let slug := if (limit <? String.length slug)%nat then trim_right_dashes (String.substring 0 limit slug) else slug in
  let slug := if slug ==s "" then "cluster" else slug in
  prefix +:+ slug +:+ suffix.

Definition NUL : string := String (byte_of 0) "".

Definition taskFor (scope : Scope) (key : IncidentKey) : string :=
  if bool_decide (scope = ScopeCluster) then clusterTaskName "lookout-" (ik_Cluster key)
  else match ik_Kind key with
       | IncidentKeyWatchboard => clusterTaskName "lookout-wb-" (ik_Cluster key)
       | k => "lookout-" +:+ hex_encode (take 8 (SHA256.sum (bytes_of (ik_Cluster key +:+ NUL +:+ IncidentKeyKind_String k +:+ NUL +:+ ik_ID key))))
       end.

End names.

Definition splitID (id : string) : string * string * bool :=
  let '(task, sid, ok) := CutByte "/"%char id in (task, sid, ok && (task <>s "") && (sid <>s "")).

(** The top-level JSON fields a key is rebuilt from; strings are taken to be valid UTF-8, which
    the encoding leaves as they are. *)
Definition key_fields (payload : wire) : string * string * string * string * (string * string * string) :=
  match payload with
  | WPayload p => (pl_Cluster p, pl_UID p, pl_Reason p, pl_ReasonClass p, ("", "", ""))
  | WStorm p => (sp_Cluster p, "", sp_Reason p, "", (sp_AncestorKind p, sp_AncestorNamespace p, sp_AncestorName p))
  | WStormMember p => (smp_Cluster p, "", "", "", (smp_AncestorKind p, smp_AncestorNamespace p, smp_AncestorName p))
  | WStormUpdate p => (sup_Cluster p, "", "", "", (sup_AncestorKind p, sup_AncestorNamespace p, sup_AncestorName p))
  | WTriageRegressed p => (trp_Cluster p, trp_UID p, trp_Reason p, trp_ReasonClass p, ("", "", ""))
  | WFamilyMember p => (fm_Cluster p, fm_UID p, fm_Reason p, "", ("", "", ""))
  | WDigest p => (wd_Cluster p, "", "", "", ("", "", ""))
  | WRotated p => (wr_Cluster p, "", "", "", ("", "", ""))
  | WResolved p => (rp_Cluster p, rp_UID p, rp_Reason p, "", ("", "", ""))
  end.

Definition keyFromPayload (payload : wire) : IncidentKey :=
  let '(cluster, uid, reason, class, (kind, ns, name)) := key_fields payload in
  if uid <>s "" then mkIncidentKey cluster IncidentKeyIncident (uid +:+ "/" +:+ (if class ==s "" then reason else class))
  else if kind <>s "" then mkIncidentKey cluster IncidentKeyStorm (kind +:+ "/" +:+ ns +:+ "/" +:+ name)
  else mkIncidentKey cluster IncidentKeyWatchboard "".

(** ** Names are labels *)

Definition label_byte (c : ascii) : bool := is_label_byte c || Ascii.eqb c "-".

(** Lower-case letters, digits and dashes only. *)
Definition label (s : string) : Prop := forall_bytes label_byte s = true.

Lemma label_app a b : label (a +:+ b) <-> label a /\ label b.
Proof. unfold label. induction a as [|c a IH]; cbn; [tauto|]. rewrite !andb_true_iff, IH. tauto. Qed.

Lemma label_rev_append s : forall acc, label s -> label acc -> label (string_rev_append s acc).
Proof.
  unfold label. induction s as [|c s IH]; intros acc Hs Hacc; [done|]. cbn in *. apply andb_true_iff in Hs as [Hc Hs]. apply IH; [done|]. cbn. by rewrite Hc.
Qed.

Lemma label_rev s : label s -> label (string_rev s).
Proof. intros Hs. by apply label_rev_append. Qed.

Lemma label_trim s : label s -> label (trim_dashes s).
Proof. unfold label. induction s as [|c s IH]; [done|]. intros Hs. cbn. destruct (Ascii.eqb c "-"); [|done]. apply IH. cbn in Hs. by apply andb_true_iff in Hs as [_ ?]. Qed.

Lemma label_trim_right s : label s -> label (trim_right_dashes s).
Proof. intros Hs. by apply label_rev, label_trim, label_rev. Qed.

Lemma label_substring s : forall n, label s -> label (String.substring 0 n s).
Proof. unfold label. induction s as [|c s IH]; intros [|n] Hs; try done. cbn in *. apply andb_true_iff in Hs as [-> Hs]. cbn. by apply IH. Qed.

Lemma label_concat l : Forall label l -> label (String.concat "" l).
Proof.
  induction 1 as [|x l Hx _ IH]; [done|]. destruct l as [|y l]; [done|]. change (label (x +:+ "" +:+ String.concat "" (y :: l))). rewrite !label_app. done.
Qed.

Lemma slug_rune_label r : label (slug_rune r).
Proof. unfold slug_rune. destruct r as [|c [|d r]]; try done. destruct (is_label_byte c) eqn:E; [|done]. unfold label, label_byte. cbn. by rewrite E. Qed.

Lemma hex_digit_label n : 0 <= n < 16 -> label_byte (hex_digit n) = true.
Proof.
  intros Hn. assert (n ∈ [0; 1; 2; 3; 4; 5; 6; 7; 8; 9; 10; 11; 12; 13; 14; 15]) as Hin by (rewrite !elem_of_cons; lia).
  repeat (apply elem_of_cons in Hin as [-> |Hin]; [vm_compute; done|]). by apply elem_of_nil in Hin.
Qed.

Lemma hex_label bs : Forall (fun b => 0 <= b < 256) bs -> label (hex_encode bs).
Proof.
  unfold label. induction 1 as [|b bs Hb _ IH]; [done|].
  change (hex_encode (b :: bs)) with (String (hex_digit (b / 16)) (String (hex_digit (b mod 16)) (hex_encode bs))). cbn [forall_bytes].
  rewrite !hex_digit_label, IH; [done|apply Z.mod_pos_bound; lia|].
  split; [apply Z.div_pos; lia|]. apply Z.div_lt_upper_bound; lia.
Qed.

Lemma hex_length bs : String.length (hex_encode bs) = (2 * length bs)%nat.
Proof. induction bs as [|b bs IH]; [done|]. change (S (S (String.length (hex_encode bs))) = (2 * S (length bs))%nat). lia. Qed.

Lemma sum_bytes bs : Forall (fun b => 0 <= b < 256) (SHA256.sum bs).
Proof.
  unfold SHA256.sum. generalize (SHA256.blocks (length (SHA256.words (SHA256.pad bs))) (SHA256.words (SHA256.pad bs)) SHA256.H0) as ws. intros ws.
  assert (forall n z, Forall (fun b => 0 <= b < 256) (SHA256.be_bytes n z)) as Hbe.
  { induction n as [|n IH]; intros z; [constructor|]. cbn. constructor; [apply Z.mod_pos_bound; lia|apply IH]. }
  induction ws as [|w ws IH]; [constructor|]. apply Forall_app. split; [apply Hbe|exact IH].
Qed.

Lemma hash_label n bs : label (hex_encode (take n (SHA256.sum bs))) /\ (String.length (hex_encode (take n (SHA256.sum bs))) <= 2 * n)%nat.
Proof. split; [apply hex_label, Forall_take, sum_bytes|]. rewrite hex_length, length_take. lia. Qed.

Lemma length_string_rev s : String.length (string_rev s) = String.length s.
Proof. induction s as [|c s IH]; [done|]. rewrite string_rev_cons, length_string_app. cbn. lia. Qed.

Lemma length_trim s : (String.length (trim_dashes s) <= String.length s)%nat.
Proof. induction s as [|c s IH]; [done|]. cbn. destruct (Ascii.eqb c "-"); cbn; lia. Qed.

Lemma length_trim_right s : (String.length (trim_right_dashes s) <= String.length s)%nat.
Proof. unfold trim_right_dashes. rewrite length_string_rev. etrans; [apply length_trim|]. by rewrite length_string_rev. Qed.

Lemma length_prefix s : forall n, (String.length (String.substring 0 n s) <= n)%nat.
Proof. induction s as [|c s IH]; intros [|n]; cbn; try lia. specialize (IH n). lia. Qed.

Lemma clusterTaskName_label `{UnicodeCase} prefix cluster : label prefix -> (String.length prefix <= 47)%nat ->
  label (clusterTaskName prefix cluster) /\ (String.length (clusterTaskName prefix cluster) <= 63)%nat.
Proof.
  intros Hp Hlen. unfold clusterTaskName. destruct (hash_label 4 (bytes_of cluster)) as [Hh Hhl]. set (suffix := "-" +:+ hex_encode _).
  assert (label suffix) as Hs by (apply label_app; done). assert (String.length suffix <= 9)%nat as Hsl by (unfold suffix; rewrite length_string_app; cbn [String.length]; lia).
  clearbody suffix. clear Hh Hhl. set (slug := trim_right_dashes _).
  assert (label slug) as Hl. { apply label_trim_right, label_trim, label_concat, list.Forall_forall. intros x (r & -> & _)%list_elem_of_fmap. apply slug_rune_label. }
  clearbody slug. set (limit := (63 - String.length prefix - String.length suffix)%nat). set (cut := if (limit <? _)%nat then _ else slug).
  assert (label cut /\ (String.length cut <= limit)%nat) as [Hc Hcl].
  { unfold cut. destruct (Nat.ltb_spec limit (String.length slug)); [|by split].
    split; [by apply label_trim_right, label_substring|]. etrans; [apply length_trim_right|]. apply length_prefix. }
  assert (7 <= limit)%nat by (unfold limit; lia). set (final := if cut ==s "" then "cluster" else cut).
  assert (label final /\ (String.length final <= limit)%nat) as [Hf Hfl] by (unfold final; case_bool_decide; [split; [done|cbn; lia]|done]).
  rewrite !label_app, !length_string_app. unfold limit in Hfl. split; [done|]. lia.
Qed.

(** Every task name is a DNS label: not empty, at most 63 bytes of [a-z0-9-]. *)
Theorem task_names_are_labels `{UnicodeCase} scope key :
  taskFor scope key <> "" /\ label (taskFor scope key) /\ (String.length (taskFor scope key) <= 63)%nat.
Proof.
  split; [unfold taskFor, clusterTaskName; destruct (bool_decide _); [done|]; by destruct (ik_Kind key)|]. unfold taskFor.
  assert (forall k, label ("lookout-" +:+ hex_encode (take 8 (SHA256.sum k))) /\ (String.length ("lookout-" +:+ hex_encode (take 8 (SHA256.sum k))) <= 63)%nat) as Hk.
  { intros k. destruct (hash_label 8 k) as [Hl Hn]. split; [by apply label_app|]. rewrite length_string_app. cbn [String.length]. lia. }
  destruct (bool_decide _); [apply clusterTaskName_label; [done|cbn; lia]|]. destruct (ik_Kind key); [apply Hk..|apply clusterTaskName_label; [done|cbn; lia]].
Qed.

Lemma label_no_slash s : label s -> contains_byte "/"%char s = false.
Proof.
  unfold label. induction s as [|c s IH]; [done|]. cbn [forall_bytes contains_byte]. intros [Hc Hs]%andb_true_iff. rewrite IH by done. rewrite orb_false_r.
  destruct (Ascii.eqb_spec "/"%char c) as [<-|]; [vm_compute in Hc; done|done].
Qed.

(** ** Session ids *)

Lemma taskFor_nonempty `{UnicodeCase} scope key : taskFor scope key <> "".
Proof. unfold taskFor, clusterTaskName. destruct (bool_decide _); [done|]. by destruct (ik_Kind key). Qed.

Lemma splitID_task id task sid : splitID id = (task, sid, true) -> task <> "".
Proof. unfold splitID. destruct (CutByte _ _) as [[t s] ok]. intros [= -> -> E]. intros ->. by rewrite bool_decide_eq_true_2, andb_false_r in E. Qed.

Lemma splitID_ok id task sid : splitID id = (task, sid, true) -> task <> "" /\ sid <> "" /\ id = task +:+ "/" +:+ sid.
Proof.
  unfold splitID, CutByte. destruct (cut_byte _ _) as [[a b]|] eqn:Ec; [|done]. intros [= -> -> E]. cbn in E. apply cut_byte_Some in Ec as [-> _].
  split; [|split]; [intros ->..|done]; [done|by rewrite andb_false_r in E].
Qed.

Lemma splitID_join task sid : task <> "" -> sid <> "" -> contains_byte "/"%char task = false -> splitID (task +:+ "/" +:+ sid) = (task, sid, true).
Proof.
  intros Ht Hs Hc. unfold splitID, CutByte. destruct (cut_byte "/"%char (task +:+ "/" +:+ sid)) as [[a b]|] eqn:E.
  - apply cut_byte_Some in E as [E Ha]. assert (a = task /\ b = sid) as [-> ->].
    { clear Ht Hs. revert a E Ha Hc. induction task as [|c task IH]; intros [|d a] E Ha Hc; cbn in *.
      - by injection E.
      - injection E as <- _. done.
      - injection E as -> _. done.
      - injection E as <- E. apply orb_false_iff in Ha as [_ Ha], Hc as [_ Hc]. destruct (IH a E Ha Hc) as [-> ->]. done. }
    cbn. by rewrite !bool_decide_eq_false_2.
  - apply cut_byte_None in E. rewrite contains_byte_app in E. cbn in E. by rewrite orb_true_r in E.
Qed.

