(* ===== verification/AxSink.v ===== *)
(** The Agent Executor sink (src/internal/axsink: axsink.go, hold.go): each incident runs in
    a task of its own or of its cluster, its payloads reach the agent through a router, and
    a reminder for an idle task is held until something worth waking it for arrives.

    An operation is a computation over [axWorld], the state of the sink with the calls it
    made. What is outside answers through [Executor]: every answer, the clock included, is
    an arbitrary function of the calls made before. Operations run one at a time; log lines
    and the text of errors are left out. *)
From S2P Require Import Prelude GoTime GoStrings GoFmt GoHash Signal Effects Wire AxNames.
From stdpp Require Import sorting.
From Stdlib Require Import Ascii.
Open Scope Z_scope.
Open Scope lookout_scope.

(** ** What is outside *)

Inductive action :=
  | CreateTask (task : string) | GetTask (task : string) | ResumeTask (task : string) | WaitReady (task : string)
  | PostSession (task : string) | PostInject (task sid : string) (payload : wire)
  | LookupSession (cluster key : string) | PutSession (cluster key id : string).

(** What [GetTask] answers: the phase and the (type, reason) of each condition, or an error. *)
Inductive taskAnswer := GotTask (phase : string) (conditions : list (string * string)) | GetNotFound | GetFailed.

(** [wait_ready] is the outcome of polling the task's readiness until the deadline;
    [post_session] is the session id of a valid answer; [sink_session] is none on an error. *)
Class Executor := {
  clock : list action -> Time;
  create_task : list action -> string -> bool;
  get_task : list action -> string -> taskAnswer;
  resume_task : list action -> string -> bool;
  wait_ready : list action -> string -> bool;
  post_session : list action -> string -> option string;
  post_inject : list action -> string -> string -> wire -> option sink_error;
  sink_session : list action -> string -> string -> option (option string)
}.

(** ** State *)

Definition maxRemembered : Z := 4096.
Definition maxInjectors : Z := 4096.
Definition maxHeld : Z := 4096.
Definition heldTTL : Duration := 3 * Hour.

Inductive ReminderOutcome := ReminderHeld | ReminderSuperseded | ReminderDelivered | ReminderDirect | ReminderDropped.

#[global] Instance ReminderOutcome_eq_dec : EqDecision ReminderOutcome.
Proof. solve_decision. Defined.

Record heldReminder := mkHeld { hr_payload : wire; hr_cluster : string; hr_at : Time }.

(** [ax_counts] is every call of a registered counter, in order. *)
Record axWorld := mkAx {
  ax_injectors : gmap string Time;
  ax_remembered : gmap string string;
  ax_lastReal : gmap string Time;
  ax_held : gmap string heldReminder;
  ax_owed : gmap string unit;
  ax_counts : list (string * ReminderOutcome);
  ax_trace : list action
}.

(** [ax_stores] and [ax_counters] are the clusters that registered a session store and a
    counter. *)
Record axConfig := mkAxConfig { ax_scope : Scope; ax_idleAfter : Duration; ax_stores : gset string; ax_counters : gset string }.

Definition newSink : axWorld := mkAx ∅ ∅ ∅ ∅ ∅ [] [].

Definition reminder (payload : wire) : option string :=
  match payload with WPayload p => if 0 <? pl_RepeatCount p then Some (pl_Cluster p) else None | _ => None end.

Definition held_in (task : string) (id : string) : bool := let '(t, _, _) := splitID id in t ==s task.

Definition phaseSuspended : string := "Suspended".
Definition phaseUnknown : string := "Unknown".
Definition phaseFailed : string := "Failed".
Definition conditionReady : string := "Ready".
Definition reasonActorNotFound : string := "ActorNotFound".

Definition taskGoneIn (a : taskAnswer) : bool :=
  match a with
  | GetNotFound => true
  | GetFailed => false
  | GotTask phase conditions =>
      (phase ==s phaseFailed) &&
      match List.find (fun c => c.1 ==s conditionReady) conditions with
      | Some c => c.2 ==s reasonActorNotFound
      | None => false
      end
  end.

Inductive taskState := taskAwake | taskIdle | taskGone.

(** What the sink makes of an answer, given whether it delivered something real lately. *)
Definition judge_task (recent : bool) (a : taskAnswer) : taskState :=
  if taskGoneIn a then taskGone
  else match a with
       | GotTask phase _ =>
           if phase ==s phaseUnknown then if recent then taskAwake else taskIdle
           else if negb recent || (phase ==s phaseSuspended) then taskIdle
           else taskAwake
       | _ => if recent then taskAwake else taskIdle
       end.

Section sink.
Context `{RangeOrder} `{UnicodeCase} `{Executor}.
Context (cfg : axConfig).
Notation X := (M axWorld).

(** ** Calls *)

Definition now_of (w : axWorld) : Time := clock (ax_trace w).
Definition now : X Time := gets now_of.

(** A call and its answer. *)
Definition act {A} (a : action) (answer : list action -> A) : X A :=
  fun w => (answer (ax_trace w), w <| ax_trace ::= (fun l => l ++ [a]) |>).

Definition countReminder (cluster : string) (o : ReminderOutcome) : X unit :=
  when (bool_decide (cluster ∈ ax_counters cfg)) (modify (fun w => w <| ax_counts ::= (fun l => l ++ [(cluster, o)]) |>)).

(** [len(m) >= limit] for a key that is not there forgets an arbitrary entry. *)
Definition forget_one {V} (visit : nat) (limit : Z) (k : string) (m : gmap string V) : gmap string V :=
  if bool_decide (m !! k = None) && (limit <=? Z.of_nat (size m))
  then match range visit m with (old, _) :: _ => base.delete old m | [] => m end
  else m.

(** The injector cache: the entry used longest ago makes room. *)
Definition oldest_injector (m : gmap string Time) : string :=
  (fold_left (fun '(oldest, at_) '(k, t) => if (oldest ==s "") || Before t at_ then (k, t) else (oldest, at_)) (range 0 m) ("", zero_time)).1.

Definition injectorFor (task : string) : X unit :=
  fun w =>
    let t := now_of w in
    let m := ax_injectors w in
    let m := if bool_decide (m !! task = None) && (maxInjectors <=? Z.of_nat (size m))
             then let oldest := oldest_injector m in if oldest <>s "" then base.delete oldest m else m
             else m in
    (tt, w <| ax_injectors := <[task := t]> m |>).

(** The core-agent injector, through the router. *)
Definition inj_CreateSession (task : string) : X (option string) :=
  r ← act (PostSession task) (fun t => post_session t task);
  mret (match r with Some sid => if sid ==s "" then None else Some sid | None => None end).

Definition inj_Append (task sid : string) (payload : wire) : X (option sink_error) :=
  if sid ==s "" then mret (Some (mkSinkError None))
  else act (PostInject task sid payload) (fun t => post_inject t task sid payload).

(** The session opened, if one was, and the error. *)
Definition inj_OpenIncident (task : string) (payload : wire) : X (string * option sink_error) :=
  r ← inj_CreateSession task;
  match r with
  | None => mret ("", Some (mkSinkError None))
  | Some sid => err ← inj_Append task sid payload; mret (sid, err)
  end.

(** ** Held reminders (hold.go) *)

Definition recently_real (w : axWorld) (task : string) : bool :=
  match ax_lastReal w !! task with Some last => Sub (now_of w) last <? ax_idleAfter cfg | None => false end.

Definition isTaskKnownAwake (task : string) : X bool := gets (fun w => recently_real w task).

Definition clearAwake (task : string) : X unit := modify (fun w => w <| ax_lastReal ::= base.delete task |>).

Definition stateOf (task : string) : X taskState :=
  recent ← isTaskKnownAwake task;
  a ← act (GetTask task) (fun t => get_task t task);
  mret (judge_task recent a).

Definition goneError : sink_error := mkSinkError (Some 404).

Definition owe (id : string) : X unit :=
  modify (fun w => w <| ax_owed ::= (fun m => <[id := tt]> (forget_one 1 maxRemembered id m)) |>).
Definition paid (id : string) : X unit := modify (fun w => w <| ax_owed ::= base.delete id |>).
Definition owes (id : string) : X bool := gets (fun w => bool_decide (ax_owed w !! id <> None)).

Definition noteReal (task : string) : X unit :=
  modify (fun w => w <| ax_lastReal ::= (fun m => <[task := now_of w]> (forget_one 2 maxRemembered task m)) |>).

(** Takes the reminders that satisfy a test out of the map, in the order of the loop. *)
Definition take_held (visit : nat) (test : string -> heldReminder -> bool) : X (list (string * heldReminder)) :=
  fun w =>
    let taken := List.filter (fun '(id, h) => test id h) (range visit (ax_held w)) in
    (taken, w <| ax_held ::= (fun m => fold_left (fun m '(id, _) => base.delete id m) taken m) |>).

Definition dropHeldIn (task : string) : X unit :=
  dropped ← take_held 3 (fun id _ => held_in task id);
  for_each dropped (fun '(_, h) => countReminder (hr_cluster h) ReminderDropped).

(** The first of the oldest in the order of the loop. *)
Definition oldest_held (visit : nat) (m : gmap string heldReminder) : option (string * heldReminder) :=
  fold_left (fun best '(k, h) => match best with
    | None => Some (k, h)
    | Some (_, b) => if Before (hr_at h) (hr_at b) then Some (k, h) else best
    end) (range visit m) None.

(** The loop that evicts past the limit, at most [fuel] turns: the reminders evicted. *)
Fixpoint evict_held (fuel : nat) (m : gmap string heldReminder) : gmap string heldReminder * list heldReminder :=
  match fuel with
  | O => (m, [])
  | S fuel =>
      if maxHeld <? Z.of_nat (size m) then
        match oldest_held (4 + fuel) m with
        | Some (k, h) => let '(m, dropped) := evict_held fuel (base.delete k m) in (m, h :: dropped)
        | None => (m, [])
        end
      else (m, [])
  end.

Definition expired (t : Time) (h : heldReminder) : bool := heldTTL <=? Sub t (hr_at h).

Definition holdReminder (id cluster : string) (payload : wire) : X unit :=
  t ← now;
  old ← gets (fun w => ax_held w !! id);
  _ ← modify (fun w => w <| ax_held ::= <[id := mkHeld payload cluster t]> |>);
  stale ← take_held 3 (fun _ h => expired t h);
  evicted ← (fun w => let '(m, dropped) := evict_held (size (ax_held w)) (ax_held w) in (dropped, w <| ax_held := m |>));
  _ ← countReminder cluster ReminderHeld;
  _ ← match old with Some h => countReminder (hr_cluster h) ReminderSuperseded | None => mret tt end;
  for_each ((snd <$> stale) ++ evicted) (fun h => countReminder (hr_cluster h) ReminderDropped).

Definition forgetHeld (id : string) : X unit :=
  old ← gets (fun w => ax_held w !! id);
  _ ← modify (fun w => w <| ax_held ::= base.delete id |>);
  match old with Some h => countReminder (hr_cluster h) ReminderSuperseded | None => mret tt end.

Definition earlier (a b : string * heldReminder) : Prop := hr_at a.2 <= hr_at b.2.

#[global] Instance earlier_dec : RelDecision earlier.
Proof. intros a b. unfold earlier. apply _. Defined.

Definition deliver_held (task : string) (t : Time) (d : string * heldReminder) : X unit :=
  if expired t d.2 then countReminder (hr_cluster d.2) ReminderDropped
  else
    let '(_, sid, _) := splitID d.1 in
    err ← inj_Append task sid (hr_payload d.2);
    countReminder (hr_cluster d.2) (match err with Some _ => ReminderDropped | None => ReminderDelivered end).

Definition flushHeld (task : string) : X unit :=
  t ← now;
  batch ← take_held 3 (fun id _ => held_in task id);
  _ ← injectorFor task;
  for_each (merge_sort earlier batch) (deliver_held task t).

Definition gone_status (err : sink_error) : bool := sessionGone err.

(** A failed delivery becomes a 404 when the task or its actor is gone. *)
Definition confirmGone (task : string) (err : option sink_error) : X (option sink_error) :=
  match err with
  | None => mret None
  | Some e =>
      if gone_status e then mret (Some e)
      else
        a ← act (GetTask task) (fun t => get_task t task);
        if negb (taskGoneIn a) then mret (Some e)
        else _ ← dropHeldIn task; _ ← clearAwake task; mret (Some goneError)
  end.

(** ** Where incidents live *)

Definition recall (key : IncidentKey) : X (option string) :=
  known ← gets (fun w => ax_remembered w !! IncidentKey_String key);
  match known with
  | Some id => mret (Some id)
  | None =>
      if bool_decide (ik_Cluster key ∈ ax_stores cfg) then
        r ← act (LookupSession (ik_Cluster key) (IncidentKey_String key)) (fun t => sink_session t (ik_Cluster key) (IncidentKey_String key));
        mret (default None r)
      else mret None
  end.

Definition remember (key : IncidentKey) (id : string) : X unit :=
  let k := IncidentKey_String key in
  _ ← modify (fun w => w <| ax_remembered ::= (fun m => <[k := id]> (forget_one 1 maxRemembered k m)) |>);
  when (bool_decide (ik_Cluster key ∈ ax_stores cfg)) (act (PutSession (ik_Cluster key) k id) (fun _ => tt)).

(** False when the task could not be started. *)
Definition startTask (task : string) : X bool :=
  created ← act (CreateTask task) (fun t => create_task t task);
  exists_ ← (if created : bool then mret true
             else a ← act (GetTask task) (fun t => get_task t task);
                  mret (match a with GotTask _ _ => true | _ => false end));
  if negb exists_ then mret false else
  resumed ← act (ResumeTask task) (fun t => resume_task t task);
  if negb resumed then mret false else act (WaitReady task) (fun t => wait_ready t task).

(** ** The verbs *)

(** The payload of [key] arrived in [id]. *)
Definition settled (key : IncidentKey) (task id : string) : X unit :=
  _ ← remember key id; _ ← paid id; noteReal task.

(** The session of [task] a recalled id names. *)
Definition recalled_in (task : string) (recalled : option string) : option (string * string) :=
  match recalled with
  | None => None
  | Some id => let '(t, sid, ok) := splitID id in if ok && (t ==s task) then Some (id, sid) else None
  end.

(** A new session in a running task; nothing when none was opened. *)
Definition open_new (key : IncidentKey) (task : string) (payload : wire) : X (option (string * option sink_error) * option sink_error) :=
  '(sid, err) ← inj_OpenIncident task payload;
  if sid ==s "" then mret (None, err)
  else
    let id := task +:+ "/" +:+ sid in
    match err with
    | Some e => _ ← remember key id; _ ← owe id; mret (Some (id, Some e), None)
    | None => _ ← settled key task id; mret (Some (id, None), None)
    end.

(** The payload into the recalled session; nothing when the session is gone. *)
Definition reopen (key : IncidentKey) (task id sid : string) (err : option sink_error) : X (option (string * option sink_error)) :=
  match err with
  | None => _ ← settled key task id; mret (Some (id, None))
  | Some e => if gone_status e then mret None else _ ← owe id; mret (Some (id, Some e))
  end.

(** The attempt on a task known awake: an answer, or whether the recalled session is gone. *)
Definition fast_path (key : IncidentKey) (task : string) (recalled : option string) (payload : wire) : X (string * option sink_error + bool) :=
  _ ← flushHeld task;
  match recalled with
  | Some _ =>
      match recalled_in task recalled with
      | Some (id, sid) =>
          err ← inj_Append task sid payload;
          err ← confirmGone task err;
          r ← reopen key task id sid err;
          match r with
          | Some r => mret (inl r)
          | None => _ ← clearAwake task; mret (inr true)
          end
      | None => mret (inr false)
      end
  | None =>
      '(r, _) ← open_new key task payload;
      match r with
      | Some r => mret (inl r)
      | None => _ ← clearAwake task; mret (inr false)
      end
  end.

Definition OpenIncidentKeyed (key : IncidentKey) (payload : wire) : X (string * option sink_error) :=
  let task := taskFor (ax_scope cfg) key in
  _ ← injectorFor task;
  recalled ← recall key;
  awake ← isTaskKnownAwake task;
  r ← (if awake : bool then fast_path key task recalled payload else mret (inr false));
  match r with
  | inl r => mret r
  | inr recalledGone =>
      started ← startTask task;
      if negb started then mret ("", Some (mkSinkError None)) else
      _ ← flushHeld task;
      r ← match (if recalledGone : bool then None else recalled_in task recalled) with
          | Some (id, sid) => err ← inj_Append task sid payload; reopen key task id sid err
          | None => mret None
          end;
      match r with
      | Some r => mret r
      | None =>
          '(r, err) ← open_new key task payload;
          mret (default ("", err) r)
      end
  end.

Definition CreateSessionKeyed (key : IncidentKey) : X (string * option sink_error) :=
  let task := taskFor (ax_scope cfg) key in
  _ ← injectorFor task;
  awake ← isTaskKnownAwake task;
  r ← (if awake : bool
       then _ ← flushHeld task;
            r ← inj_CreateSession task;
            match r with
            | Some sid => _ ← noteReal task; mret (Some sid)
            | None => _ ← clearAwake task; mret None
            end
       else mret None);
  match r with
  | Some sid => mret (task +:+ "/" +:+ sid, None)
  | None =>
      started ← startTask task;
      if negb started then mret ("", Some (mkSinkError None)) else
      _ ← flushHeld task;
      r ← inj_CreateSession task;
      match r with
      | None => mret ("", Some (mkSinkError None))
      | Some sid => _ ← noteReal task; mret (task +:+ "/" +:+ sid, None)
      end
  end.

Definition ax_OpenIncident (payload : wire) : X (string * option sink_error) := OpenIncidentKeyed (keyFromPayload payload) payload.

Definition ax_CreateSession : X (string * option sink_error) := CreateSessionKeyed (mkIncidentKey "" IncidentKeyWatchboard "").

Definition append_reminder (id task sid cluster : string) (payload : wire) : X (option sink_error) :=
  owed ← owes id;
  st ← (if owed : bool then mret taskAwake else stateOf task);
  match st with
  | taskGone => _ ← dropHeldIn task; mret (Some goneError)
  | taskIdle => _ ← holdReminder id cluster payload; mret None
  | taskAwake =>
      _ ← forgetHeld id;
      _ ← injectorFor task;
      err ← inj_Append task sid payload;
      err ← confirmGone task err;
      match err with
      | None => _ ← paid id; _ ← countReminder cluster ReminderDirect; mret None
      | Some e => mret (Some e)
      end
  end.

Definition append_real (id task sid : string) (payload : wire) : X (option sink_error) :=
  _ ← flushHeld task;
  _ ← injectorFor task;
  err ← inj_Append task sid payload;
  err ← confirmGone task err;
  match err with
  | Some e => _ ← owe id; mret (Some e)
  | None => _ ← paid id; _ ← noteReal task; mret None
  end.

Definition ax_Append (id : string) (payload : wire) : X (option sink_error) :=
  let '(task, sid, ok) := splitID id in
  if negb ok then mret (Some (mkSinkError None))
  else match reminder payload with
       | Some cluster => append_reminder id task sid cluster payload
       | None => append_real id task sid payload
       end.

(** A call of the dispatcher. *)
Definition ax_call (c : call) : M axWorld unit :=
  match c with
  | CallOpen key p => _ ← match key with Some key => OpenIncidentKeyed key p | None => ax_OpenIncident p end; mret tt
  | CallAppend id p => _ ← ax_Append id p; mret tt
  | CallCreate key => _ ← match key with Some key => CreateSessionKeyed key | None => ax_CreateSession end; mret tt
  end.

(** The sink as the dispatcher sees it: the answer to a call is what the call returns after
    the calls before it. *)
Definition ax_after (h : list call) : axWorld := (for_each h ax_call newSink).2.

Definition ax_sink : Sink := {|
  keyed := true;
  session_opener := true;
  OpenIncident h key p := (match key with Some key => OpenIncidentKeyed key p | None => ax_OpenIncident p end (ax_after h)).1;
  Append h id p := (ax_Append id p (ax_after h)).1;
  CreateSession h key := (match key with Some key => CreateSessionKeyed key | None => ax_CreateSession end (ax_after h)).1
|}.

End sink.
