(* ===== verification/AxSinkSpec.v ===== *)
(** What the Agent Executor sink promises: held reminders are accounted for and bounded,
    a reminder never wakes a task, a real payload goes after what was held, and an open
    reports what happened. *)
From S2P Require Import Prelude GoTime GoStrings GoFmt GoHash Signal Effects Wire AxNames AxSink.
From stdpp Require Import sorting.
From Stdlib Require Import Ascii.
Open Scope Z_scope.
Open Scope lookout_scope.

(** ** Maps as bags *)

Notation delete_all l start := (fold_left (fun m '(k, _) => base.delete k m) l start).

Lemma delete_all_perm {V} (l : list (string * V)) : forall m : gmap string V, NoDup l.*1 -> (forall k v, (k, v) ∈ l -> m !! k = Some v) ->
  map_to_list m ≡ₚ l ++ map_to_list (delete_all l m).
Proof.
  induction l as [|[k v] l IH]; intros m Hnd Hin; [done|]. apply list.NoDup_cons in Hnd as [Hk Hnd]. cbn [fold_left app].
  rewrite <- IH; [|done|].
  - symmetry. apply map_to_list_delete, Hin. apply list_elem_of_here.
  - intros k' v' Hin'. rewrite lookup_delete_ne; [by apply Hin, list_elem_of_further|]. intros ->. apply Hk, list_elem_of_fmap. by exists (k', v').
Qed.

Lemma lookup_delete_all {V} (l : list (string * V)) k : forall m : gmap string V, delete_all l m !! k = if bool_decide (k ∈ l.*1) then None else m !! k.
Proof.
  induction l as [|[k' v] l IH]; intros m; [done|]. cbn [fold_left]. rewrite IH. cbn [fmap list_fmap fst]. destruct (decide (k' = k)) as [->|Hne].
  - rewrite lookup_delete_eq. rewrite (bool_decide_eq_true_2 (k ∈ k :: _)) by apply list_elem_of_here. by case_bool_decide.
  - rewrite lookup_delete_ne by done. erewrite bool_decide_ext; [done|]. rewrite elem_of_cons. naive_solver.
Qed.

Section maps.
Context `{RangeOrder}.

Lemma filter_range_NoDup {V} visit (f : string * V -> bool) m : NoDup (List.filter f (range visit m)).*1.
Proof.
  pose proof (NoDup_fst_range visit m) as Hnd. induction (range visit m) as [|[k v] l IH]; [constructor|]. apply list.NoDup_cons in Hnd as [Hk Hnd].
  cbn. destruct (f (k, v)); [|by apply IH]. cbn. constructor; [|by apply IH]. intros Hin. apply Hk. apply list_elem_of_fmap in Hin as ([k' v'] & E & [Hin _]%elem_of_lfilter).
  apply list_elem_of_fmap. by exists (k', v').
Qed.

Lemma elem_of_filter_range {V} visit (f : string * V -> bool) m k v : (k, v) ∈ List.filter f (range visit m) <-> m !! k = Some v /\ f (k, v) = true.
Proof. by rewrite elem_of_lfilter, elem_of_range. Qed.

(** Making room leaves at most [limit] entries, or the entries there were. *)
Lemma forget_one_bound {V} visit limit k (m : gmap string V) v : 0 < limit -> Z.of_nat (size m) <= limit ->
  Z.of_nat (size (<[k := v]> (forget_one visit limit k m))) <= limit.
Proof.
  intros Hl Hm. unfold forget_one. destruct (m !! k) as [x|] eqn:Ek; cbn.
  - rewrite map_size_insert_Some by (by exists x). done.
  - destruct (Z.leb_spec limit (Z.of_nat (size m))) as [Hge|Hlt]; [|rewrite map_size_insert_None by done; lia].
    destruct (range visit m) as [|[old x] l] eqn:Er.
    { assert (size m = O) by (by rewrite <- (length_range visit), Er). lia. }
    assert (m !! old = Some x) as Eo by (apply (elem_of_range visit); rewrite Er; apply list_elem_of_here).
    rewrite map_size_insert_None by (rewrite lookup_delete_ne by congruence; done). rewrite map_size_delete_Some by (by exists x).
    assert (size m <> O) by (apply map_size_ne_0_lookup; by exists old, x). lia.
Qed.

Lemma oldest_held_in visit (m : gmap string heldReminder) k h : oldest_held visit m = Some (k, h) -> m !! k = Some h.
Proof.
  unfold oldest_held. intros E. apply (elem_of_range visit). revert E. generalize (range visit m) as l. intros l.
  enough (forall best, (fold_left (fun best '(k, h) => match best with None => Some (k, h) | Some (_, b) => if Before (hr_at h) (hr_at b) then Some (k, h) else best end) l best = Some (k, h)) ->
    (k, h) ∈ l \/ best = Some (k, h)) as Hgo. { intros E. by destruct (Hgo None E). }
  induction l as [|[k' h'] l IH]; intros best E; cbn in E; [by right|]. apply IH in E as [|E]; [left; by apply list_elem_of_further|].
  destruct best as [[kb b]|]; [destruct (Before _ _)|]; try (injection E as -> ->; left; apply list_elem_of_here). by right.
Qed.

Lemma oldest_held_some visit (m : gmap string heldReminder) : m <> ∅ -> oldest_held visit m <> None.
Proof.
  intros Hm. pose proof (range_nonempty visit m Hm) as Hr. unfold oldest_held. destruct (range visit m) as [|[k h] l]; [done|]. clear Hr. cbn [fold_left].
  generalize (k, h) as b. induction l as [|[k' h'] l IH]; intros [kb b]; [done|]. cbn [fold_left]. destruct (Before _ _); apply IH.
Qed.

(** The eviction loop takes out what it reports and stops at the limit. *)
Lemma evict_held_spec fuel : forall m, (size m <= fuel)%nat -> let '(m', dropped) := evict_held fuel m in
  (map_to_list m).*2 ≡ₚ dropped ++ (map_to_list m').*2 /\ Z.of_nat (size m') <= Z.max maxHeld 0 /\ (forall k h, m' !! k = Some h -> m !! k = Some h) /\
  (Z.of_nat (size m) <= maxHeld -> m' = m).
Proof.
  induction fuel as [|fuel IH]; intros m Hs; cbn [evict_held].
  { assert (size m = O) as E by lia. split; [done|]. split; [lia|]. done. }
  destruct (Z.ltb_spec maxHeld (Z.of_nat (size m))) as [Hlt|Hge]; [|split; [done|]; split; [lia|]; done].
  destruct (oldest_held (4 + fuel) m) as [[k h]|] eqn:Eo.
  2: { exfalso. apply (oldest_held_some (4 + fuel) m); [|done]. intros ->. rewrite map_size_empty in Hlt. unfold maxHeld in Hlt. lia. }
  pose proof (oldest_held_in _ _ _ _ Eo) as Ek. specialize (IH (base.delete k m)). rewrite map_size_delete_Some in IH by (by exists h). specialize (IH ltac:(lia)).
  destruct (evict_held fuel (base.delete k m)) as [m' dropped]. destruct IH as (Hp & Hb & Hsub & _). split.
  - cbn [app]. rewrite <- Hp. rewrite <- (map_to_list_delete m k h) by done. done.
  - split; [done|]. split; [|lia]. intros k' h' Hk'%Hsub. by apply lookup_delete_Some in Hk' as [_ ?].
Qed.
End maps.

(** ** The books *)

Definition of_cluster (c : string) (hs : list heldReminder) : Z := Z.of_nat (length (List.filter (fun h => hr_cluster h ==s c) hs)).
Definition n_counted (c : string) (o : ReminderOutcome) (w : axWorld) : Z :=
  Z.of_nat (length (List.filter (fun x => (x.1 ==s c) && bool_decide (x.2 = o)) (ax_counts w))).
Definition held_reminders (w : axWorld) : list heldReminder := (map_to_list (ax_held w)).*2.

(** Reminders of [c] that were held and have not been accounted for. *)
Definition outstanding (c : string) (w : axWorld) : Z :=
  n_counted c ReminderHeld w - n_counted c ReminderSuperseded w - n_counted c ReminderDelivered w - n_counted c ReminderDropped w.

Definition balance (c : string) (w : axWorld) : Z := outstanding c w - of_cluster c (held_reminders w).

Lemma of_cluster_app c l l' : of_cluster c (l ++ l') = of_cluster c l + of_cluster c l'.
Proof. unfold of_cluster. rewrite List.filter_app, length_app. lia. Qed.

Lemma of_cluster_nil c : of_cluster c [] = 0.
Proof. done. Qed.

Lemma of_cluster_cons c h l : of_cluster c (h :: l) = (if hr_cluster h ==s c then 1 else 0) + of_cluster c l.
Proof. unfold of_cluster. cbn. destruct (hr_cluster h ==s c); cbn [length]; lia. Qed.

#[global] Instance of_cluster_perm c : Proper ((≡ₚ) ==> eq) (of_cluster c).
Proof. intros l l' Hp. induction Hp; rewrite ?of_cluster_cons; lia. Qed.

Section books.
Context `{RangeOrder} `{UnicodeCase} `{Executor} (cfg : axConfig).
Notation X := (M axWorld).

(** An operation that touches neither the held reminders nor the counts. *)
Definition same_books (w w' : axWorld) : Prop := ax_held w' = ax_held w /\ ax_counts w' = ax_counts w.

#[global] Instance same_books_preorder : PreOrder same_books.
Proof. split; [by intros w|]. intros a b c [E1 E2] [E3 E4]. split; congruence. Qed.

Lemma n_counted_add c o x w : n_counted c o (w <| ax_counts ::= (fun l => l ++ [x]) |>) = n_counted c o w + (if (x.1 ==s c) && bool_decide (x.2 = o) then 1 else 0).
Proof. unfold n_counted. cbn. rewrite List.filter_app, length_app. cbn. destruct (_ && _); cbn [length]; lia. Qed.

(** What counting does, for a cluster that counts. *)
Lemma count_counts cl o w c : (countReminder cfg cl o w).1 = tt /\ ax_held (countReminder cfg cl o w).2 = ax_held w /\
  ax_trace (countReminder cfg cl o w).2 = ax_trace w /\
  (c ∈ ax_counters cfg -> forall o', n_counted c o' (countReminder cfg cl o w).2 = n_counted c o' w + if (cl ==s c) && bool_decide (o = o') then 1 else 0).
Proof.
  unfold countReminder, when. case_bool_decide as Hc; cbn.
  - split; [done|]. split; [done|]. split; [done|]. intros _ o'. by rewrite n_counted_add.
  - split; [done|]. split; [done|]. split; [done|]. intros Hin o'. rewrite bool_decide_eq_false_2 by (intros ->; done). cbn. lia.
Qed.

Definition keeps_balance (c : string) : axWorld -> axWorld -> Prop := fun w w' => balance c w' = balance c w.

#[global] Instance keeps_balance_preorder c : PreOrder (keeps_balance c).
Proof. split; [by intros w|]. unfold keeps_balance. intros x y z E1 E2. congruence. Qed.

Lemma same_books_balance c w w' : same_books w w' -> keeps_balance c w w'.
Proof. unfold same_books, keeps_balance, balance, outstanding, n_counted, held_reminders. intros [-> ->]. done. Qed.

Lemma keeps_same_balance {A} c (m : X A) : keeps same_books m -> keeps (keeps_balance c) m.
Proof. intros Hm w. apply same_books_balance, Hm. Qed.

(** Taking reminders out. *)
Lemma take_held_spec visit test w : let '(taken, w') := take_held visit test w in
  ax_counts w' = ax_counts w /\ ax_trace w' = ax_trace w /\ held_reminders w ≡ₚ taken.*2 ++ held_reminders w' /\
  (forall k h, ax_held w' !! k = Some h <-> ax_held w !! k = Some h /\ test k h = false) /\
  (forall k h, (k, h) ∈ taken <-> ax_held w !! k = Some h /\ test k h = true) /\ NoDup taken.*1 /\
  w' = w <| ax_held := ax_held w' |> /\ (size (ax_held w') <= size (ax_held w))%nat.
Proof.
  unfold take_held. set (taken := List.filter _ _). cbn.
  assert (forall k h, (k, h) ∈ taken <-> ax_held w !! k = Some h /\ test k h = true) as Htaken by (intros k h; apply elem_of_filter_range).
  assert (NoDup taken.*1) as Hnd by apply filter_range_NoDup.
  assert (map_to_list (ax_held w) ≡ₚ taken ++ map_to_list (delete_all taken (ax_held w))) as Hperm.
  { apply delete_all_perm; [done|]. intros k v Hin. by apply Htaken. }
  split; [done|]. split; [done|]. split; [unfold held_reminders; cbn; by rewrite Hperm, fmap_app|]. split.
  { intros k h. rewrite lookup_delete_all. case_bool_decide as Hin.
    - split; [done|]. intros [Hk Ht]. apply list_elem_of_fmap in Hin as ([k' h'] & -> & Hin). apply Htaken in Hin as [Hk' Ht']. cbn in Hk, Ht. congruence.
    - split; [|tauto]. intros Hk. split; [done|]. destruct (test k h) eqn:Et; [|done]. exfalso. apply Hin, list_elem_of_fmap. exists (k, h). by rewrite Htaken. }
  split; [done|]. split; [done|]. split; [done|]. apply (f_equal length) in Hperm || apply Permutation_length in Hperm.
  rewrite length_app, !length_map_to_list in Hperm. lia.
Qed.

(** Counting one outcome for each of a list. *)
Lemma count_each {A} (body : A -> X unit) (cl : A -> heldReminder) (l : list A) c (Hc : c ∈ ax_counters cfg)
    (Hbody : forall a w, ax_held (body a w).2 = ax_held w /\ outstanding c (body a w).2 = outstanding c w - if hr_cluster (cl a) ==s c then 1 else 0) :
  forall w, ax_held (for_each l body w).2 = ax_held w /\ outstanding c (for_each l body w).2 = outstanding c w - of_cluster c (cl <$> l).
Proof.
  induction l as [|a l IH]; intros w; cbn [for_each fmap list_fmap].
  - split; [done|]. unfold of_cluster. cbn. lia.
  - unfold mbind, M_bind. destruct (Hbody a w) as [Eh Eo]. destruct (body a w) as [u w1]. cbn [snd] in Eh, Eo. destruct (IH w1) as [Eh' Eo'].
    split; [congruence|]. rewrite Eo', Eo, of_cluster_cons. lia.
Qed.

Lemma count_outstanding cl o c w : c ∈ ax_counters cfg -> ax_held (countReminder cfg cl o w).2 = ax_held w /\
  outstanding c (countReminder cfg cl o w).2 = outstanding c w + if cl ==s c then match o with ReminderHeld => 1 | ReminderDirect => 0 | _ => -1 end else 0.
Proof.
  intros Hc. destruct (count_counts cl o w c) as (_ & Eh & _ & Ec). specialize (Ec Hc). split; [done|]. unfold outstanding. rewrite !Ec.
  destruct (cl ==s c), o; repeat (case_bool_decide; try done); cbn; lia.
Qed.

(** *** Operations that hold nothing *)

Ltac quiet := repeat first
  [ apply keeps_ret, _ | apply keeps_gets, _ | apply keeps_modify; by intros
  | apply keeps_when; [apply _|] | apply keeps_bind; [apply _| |intros]
  | match goal with |- keeps _ (match ?x with _ => _ end) => destruct x end
  | match goal with |- keeps _ (if ?x then _ else _) => destruct x end
  | by intros ? ].

Lemma act_same {A} a (f : list action -> A) : keeps same_books (act a f).
Proof. by intros w. Qed.
Lemma injectorFor_same task : keeps same_books (injectorFor task).
Proof. by intros w. Qed.
Lemma CreateSession_same task : keeps same_books (inj_CreateSession task).
Proof. unfold inj_CreateSession. quiet. Qed.
Lemma Append_same task sid p : keeps same_books (inj_Append task sid p).
Proof. unfold inj_Append. quiet. Qed.
Lemma Open_same task p : keeps same_books (inj_OpenIncident task p).
Proof. unfold inj_OpenIncident. quiet. all: first [apply CreateSession_same|apply Append_same]. Qed.
Lemma stateOf_same task : keeps same_books (stateOf cfg task).
Proof. unfold stateOf, isTaskKnownAwake. quiet. Qed.
Lemma recall_same key : keeps same_books (recall cfg key).
Proof. unfold recall. quiet. Qed.
Lemma remember_same key id : keeps same_books (remember cfg key id).
Proof. unfold remember. quiet. Qed.
Lemma startTask_same task : keeps same_books (startTask task).
Proof. unfold startTask. quiet. Qed.
Lemma settled_same key task id : keeps same_books (settled cfg key task id).
Proof. unfold settled. apply keeps_bind; [apply _|apply remember_same|]. intros _. unfold paid, noteReal. quiet. Qed.

(** *** Operations on what is held *)

Lemma dropHeldIn_balance c task : c ∈ ax_counters cfg -> keeps (keeps_balance c) (dropHeldIn cfg task).
Proof.
  intros Hc w. unfold dropHeldIn, mbind, M_bind. pose proof (take_held_spec 3 (fun id _ => held_in task id) w) as Ht. destruct (take_held _ _ w) as [taken w1].
  destruct Ht as (Hcount & _ & Hperm & _).
  destruct (count_each (fun '(_, h) => countReminder cfg (hr_cluster h) ReminderDropped) snd taken c Hc) with (w := w1) as [Eh Eo].
  { intros [id h] w2. destruct (count_outstanding (hr_cluster h) ReminderDropped c w2 Hc) as [-> ->]. split; [done|]. cbn. destruct (_ ==s _); lia. }
  unfold keeps_balance, balance, held_reminders. rewrite Eh, Eo. fold (held_reminders w1) (held_reminders w). rewrite Hperm, of_cluster_app.
  unfold outstanding, n_counted. rewrite Hcount. lia.
Qed.

Lemma forgetHeld_balance c id : c ∈ ax_counters cfg -> keeps (keeps_balance c) (forgetHeld cfg id).
Proof.
  intros Hc w. unfold forgetHeld, mbind, M_bind, gets, modify. set (w1 := w <| ax_held ::= base.delete id |>).
  destruct (ax_held w !! id) as [h|] eqn:Eh; cbn.
  - destruct (count_outstanding (hr_cluster h) ReminderSuperseded c w1 Hc) as [E1 E2]. unfold keeps_balance, balance, held_reminders. rewrite E1, E2.
    rewrite <- (map_to_list_delete (ax_held w) id h) by done. cbn. rewrite of_cluster_cons. change (outstanding c w1) with (outstanding c w). cbn. destruct (_ ==s _); lia.
  - unfold keeps_balance, balance, held_reminders, w1. cbn. rewrite delete_id by done. done.
Qed.

Lemma deliver_held_balance c task t d w : c ∈ ax_counters cfg ->
  ax_held (deliver_held cfg task t d w).2 = ax_held w /\ outstanding c (deliver_held cfg task t d w).2 = outstanding c w - if hr_cluster d.2 ==s c then 1 else 0.
Proof.
  intros Hc. unfold deliver_held. destruct (expired t d.2).
  - destruct (count_outstanding (hr_cluster d.2) ReminderDropped c w Hc) as [-> ->]. split; [done|]. destruct (_ ==s _); lia.
  - destruct (splitID d.1) as [[tk sid] ok]. unfold mbind, M_bind. pose proof (Append_same task sid (hr_payload d.2) w) as [Ah Ac].
    destruct (inj_Append _ _ _ w) as [err w1]. cbn [snd] in Ah, Ac. set (o := match err with Some _ => _ | None => _ end).
    destruct (count_outstanding (hr_cluster d.2) o c w1 Hc) as [-> ->]. split; [done|].
    assert (outstanding c w1 = outstanding c w) as -> by (unfold outstanding, n_counted; by rewrite Ac). unfold o. destruct (_ ==s _), err; lia.
Qed.

Lemma flushHeld_balance c task : c ∈ ax_counters cfg -> keeps (keeps_balance c) (flushHeld cfg task).
Proof.
  intros Hc w. unfold flushHeld, now, gets, mbind, M_bind. pose proof (take_held_spec 3 (fun id _ => held_in task id) w) as Ht. destruct (take_held _ _ w) as [taken w1].
  destruct Ht as (Hcount & _ & Hperm & _). pose proof (injectorFor_same task w1) as [Ih Ic]. destruct (injectorFor task w1) as [u w2]. cbn [snd] in Ih, Ic.
  destruct (count_each (deliver_held cfg task (now_of w)) snd (merge_sort earlier taken) c Hc) with (w := w2) as [Eh Eo].
  { intros d w3. by apply deliver_held_balance. }
  unfold keeps_balance, balance, held_reminders. rewrite Eh, Eo, Ih. fold (held_reminders w1) (held_reminders w). rewrite Hperm, of_cluster_app.
  rewrite (of_cluster_perm c (snd <$> merge_sort earlier taken) taken.*2) by (by rewrite merge_sort_Permutation).
  unfold outstanding, n_counted. rewrite Ic, Hcount. lia.
Qed.

Lemma holdReminder_balance c id cl p : c ∈ ax_counters cfg -> keeps (keeps_balance c) (holdReminder cfg id cl p).
Proof.
  intros Hc w. unfold holdReminder, now, gets, modify, mbind, M_bind. set (h := mkHeld p cl (now_of w)). set (w1 := w <| ax_held ::= <[id := h]> |>).
  pose proof (take_held_spec 3 (fun _ x => expired (now_of w) x) w1) as Ht. destruct (take_held _ _ w1) as [stale w2]. destruct Ht as (Hcount & _ & Hperm & _).
  pose proof (evict_held_spec (size (ax_held w2)) (ax_held w2) (le_n _)) as He. destruct (evict_held _ (ax_held w2)) as [m3 evicted]. destruct He as (Hev & _).
  set (w3 := w2 <| ax_held := m3 |>). destruct (count_outstanding cl ReminderHeld c w3 Hc) as [A1 A2]. destruct (countReminder cfg cl ReminderHeld w3) as [u w4]. cbn [snd] in A1, A2.
  set (sup := match ax_held w !! id with Some h => _ | None => _ end : M axWorld unit).
  assert (ax_held (sup w4).2 = ax_held w4 /\ outstanding c (sup w4).2 = outstanding c w4 - of_cluster c (match ax_held w !! id with Some old => [old] | None => [] end)) as [B1 B2].
  { unfold sup. destruct (ax_held w !! id) as [old|]; [|cbn; split; [done|rewrite of_cluster_nil; lia]].
    destruct (count_outstanding (hr_cluster old) ReminderSuperseded c w4 Hc) as [-> ->]. split; [done|]. rewrite of_cluster_cons, of_cluster_nil.
    destruct (hr_cluster old ==s c); lia. }
  destruct (sup w4) as [u5 w5]. cbn [snd] in B1, B2.
  destruct (count_each (fun h => countReminder cfg (hr_cluster h) ReminderDropped) (fun h => h) ((snd <$> stale) ++ evicted) c Hc) with (w := w5) as [E1 E2].
  { intros x w6. destruct (count_outstanding (hr_cluster x) ReminderDropped c w6 Hc) as [-> ->]. split; [done|]. destruct (hr_cluster x ==s c); lia. }
  unfold keeps_balance, balance. cbn [snd]. rewrite list_fmap_id in E2.
  assert (of_cluster c (held_reminders w1) = of_cluster c (held_reminders w) - of_cluster c (match ax_held w !! id with Some old => [old] | None => [] end) + if cl ==s c then 1 else 0) as Hins.
  { unfold held_reminders, w1. cbn. destruct (ax_held w !! id) as [old|] eqn:Eo.
    - rewrite <- insert_delete_eq. rewrite map_to_list_insert by apply lookup_delete_eq. rewrite <- (map_to_list_delete (ax_held w) id old) by done.
      cbn. rewrite !of_cluster_cons, of_cluster_nil. unfold h. cbn. lia.
    - rewrite map_to_list_insert by done. cbn. rewrite of_cluster_cons, of_cluster_nil. unfold h. cbn. lia. }
  assert (outstanding c w3 = outstanding c w) as E3 by (unfold outstanding, n_counted, w3; cbn; by rewrite Hcount).
  rewrite E2, B2, A2, E3. unfold held_reminders at 1. rewrite E1, B1, A1. cbn [ax_held w3]. unfold held_reminders in Hperm, Hins |- *.
  rewrite Hperm, Hev in Hins. rewrite !of_cluster_app in *. change (ax_held w3) with m3. lia.
Qed.

End books.

(** ** What every verb keeps

    A relation the primitives keep is kept by the verbs. *)

Section verbs.
Context `{RangeOrder} `{UnicodeCase} `{Executor} (cfg : axConfig).
Context (R : axWorld -> axWorld -> Prop) `{!PreOrder R}.
Hypothesis act_keeps : forall a w, R w (w <| ax_trace ::= (fun l => l ++ [a]) |>).
Hypothesis injectorFor_keeps : forall task, task <> "" -> keeps R (injectorFor task).
Hypothesis clearAwake_keeps : forall task, keeps R (clearAwake task).
Hypothesis noteReal_keeps : forall task, keeps R (noteReal task).
Hypothesis owe_keeps : forall id, keeps R (owe id).
Hypothesis paid_keeps : forall id, keeps R (paid id).
Hypothesis note_keeps : forall k id w, R w (w <| ax_remembered ::= (fun m => <[k := id]> (forget_one 1 maxRemembered k m)) |>).
Hypothesis direct_keeps : forall c, keeps R (countReminder cfg c ReminderDirect).
Hypothesis drop_keeps : forall task, keeps R (dropHeldIn cfg task).
Hypothesis forget_keeps : forall id, keeps R (forgetHeld cfg id).
Hypothesis flush_keeps : forall task, task <> "" -> keeps R (flushHeld cfg task).
Hypothesis hold_keeps : forall id cl p, (splitID id).2 = true -> reminder p = Some cl -> keeps R (holdReminder cfg id cl p).

Ltac step := repeat first
  [ apply keeps_ret, _ | apply keeps_gets, _ | apply injectorFor_keeps; done | apply clearAwake_keeps | apply noteReal_keeps | apply owe_keeps
  | apply paid_keeps | apply direct_keeps | apply drop_keeps | apply forget_keeps | apply flush_keeps; done
  | (intros ?; apply act_keeps) | (intros ?; apply note_keeps)
  | apply keeps_when; [apply _|] | apply keeps_bind; [apply _| |intros]
  | match goal with |- keeps _ (match ?x with _ => _ end) => destruct x end
  | match goal with |- keeps _ (if ?x then _ else _) => destruct x end ].

Lemma remember_keeps key id : keeps R (remember cfg key id).
Proof. unfold remember. step. Qed.

Lemma inj_Create_keeps task : keeps R (inj_CreateSession task).
Proof. unfold inj_CreateSession. step. Qed.

Lemma inj_Append_keeps task sid p : keeps R (inj_Append task sid p).
Proof. unfold inj_Append. step. Qed.

Lemma inj_Open_keeps task p : keeps R (inj_OpenIncident task p).
Proof.
  unfold inj_OpenIncident. apply keeps_bind; [apply _|apply inj_Create_keeps|]. intros [sid|]; [|step]. apply keeps_bind; [apply _|apply inj_Append_keeps|]. intros. step.
Qed.

Lemma startTask_keeps task : keeps R (startTask task).
Proof. unfold startTask. step. Qed.

Lemma confirmGone_keeps task err : keeps R (confirmGone cfg task err).
Proof. unfold confirmGone. step. Qed.

Lemma settled_keeps key task id : keeps R (settled cfg key task id).
Proof. unfold settled. apply keeps_bind; [apply _|apply remember_keeps|]. intros. step. Qed.

Lemma open_new_keeps key task p : keeps R (open_new cfg key task p).
Proof.
  unfold open_new. apply keeps_bind; [apply _|apply inj_Open_keeps|]. intros [sid err]. destruct (sid ==s ""); [step|]. destruct err.
  - apply keeps_bind; [apply _|apply remember_keeps|]. intros. step.
  - apply keeps_bind; [apply _|apply settled_keeps|]. intros. step.
Qed.

Lemma reopen_keeps key task id sid err : keeps R (reopen cfg key task id sid err).
Proof. unfold reopen. destruct err; [step|]. apply keeps_bind; [apply _|apply settled_keeps|]. intros. step. Qed.

Lemma fast_path_keeps key task recalled p : task <> "" -> keeps R (fast_path cfg key task recalled p).
Proof.
  intros Hne. unfold fast_path. apply keeps_bind; [apply _|by apply flush_keeps|]. intros _. destruct recalled as [r|].
  - destruct (recalled_in task (Some r)) as [[id sid]|]; [|step]. apply keeps_bind; [apply _|apply inj_Append_keeps|]. intros err.
    apply keeps_bind; [apply _|apply confirmGone_keeps|]. intros err'. apply keeps_bind; [apply _|apply reopen_keeps|]. intros. step.
  - apply keeps_bind; [apply _|apply open_new_keeps|]. intros [r _]. step.
Qed.

Lemma OpenIncidentKeyed_keeps key p : keeps R (OpenIncidentKeyed cfg key p).
Proof.
  pose proof (taskFor_nonempty (ax_scope cfg) key) as Hne. unfold OpenIncidentKeyed. apply keeps_bind; [apply _|by apply injectorFor_keeps|]. intros _. apply keeps_bind; [apply _|unfold recall; step|]. intros recalled.
  apply keeps_bind; [apply _|apply keeps_gets, _|]. intros awake. apply keeps_bind; [apply _|destruct awake; [by apply fast_path_keeps|step]|]. intros [r|gone]; [step|].
  apply keeps_bind; [apply _|apply startTask_keeps|]. intros started. destruct (negb started); [step|]. apply keeps_bind; [apply _|by apply flush_keeps|]. intros _.
  apply keeps_bind; [apply _| |].
  - destruct (if gone then None else recalled_in _ recalled) as [[id sid]|]; [|step]. apply keeps_bind; [apply _|apply inj_Append_keeps|]. intros. apply reopen_keeps.
  - intros [r|]; [step|]. apply keeps_bind; [apply _|apply open_new_keeps|]. intros [r err]. step.
Qed.

Lemma CreateSessionKeyed_keeps key : keeps R (CreateSessionKeyed cfg key).
Proof.
  pose proof (taskFor_nonempty (ax_scope cfg) key) as Hne. unfold CreateSessionKeyed. apply keeps_bind; [apply _|by apply injectorFor_keeps|]. intros _. apply keeps_bind; [apply _|apply keeps_gets, _|]. intros awake.
  apply keeps_bind; [apply _| |].
  - destruct awake; [|step]. apply keeps_bind; [apply _|by apply flush_keeps|]. intros _. apply keeps_bind; [apply _|apply inj_Create_keeps|]. intros. step.
  - intros [sid|]; [step|]. apply keeps_bind; [apply _|apply startTask_keeps|]. intros started. destruct (negb started); [step|].
    apply keeps_bind; [apply _|by apply flush_keeps|]. intros _. apply keeps_bind; [apply _|apply inj_Create_keeps|]. intros. step.
Qed.

Lemma Append_keeps id p : keeps R (ax_Append cfg id p).
Proof.
  unfold ax_Append. destruct (splitID id) as [[task sid] ok] eqn:Es. destruct ok; [cbn [negb]|step]. pose proof (splitID_task _ _ _ Es) as Hne. destruct (reminder p) as [cl|] eqn:Er.
  - unfold append_reminder. apply keeps_bind; [apply _|apply keeps_gets, _|]. intros owed. apply keeps_bind; [apply _|destruct owed; unfold stateOf, isTaskKnownAwake; step|].
    intros [].
    + step; [apply inj_Append_keeps|]. apply confirmGone_keeps.
    + apply keeps_bind; [apply _| |intros; step]. apply hold_keeps; [by rewrite Es|done].
    + step.
  - unfold append_real. step; [apply inj_Append_keeps|]. apply confirmGone_keeps.
Qed.

Lemma ax_call_keeps c : keeps R (ax_call cfg c).
Proof.
  destruct c as [[key|] p|id p|[key|]]; cbn; (apply keeps_bind; [apply _| |intros; apply keeps_ret, _]).
  - apply OpenIncidentKeyed_keeps.
  - apply OpenIncidentKeyed_keeps.
  - apply Append_keeps.
  - apply CreateSessionKeyed_keeps.
  - apply CreateSessionKeyed_keeps.
Qed.

Lemma ax_calls_keep l : keeps R (for_each l (ax_call cfg)).
Proof. apply keeps_for_each; [apply _|]. apply ax_call_keeps. Qed.

End verbs.

(** ** Bounds *)

Record within (cfg : axConfig) (w : axWorld) : Prop := {
  within_held : Z.of_nat (size (ax_held w)) <= maxHeld;
  within_remembered : Z.of_nat (size (ax_remembered w)) <= maxRemembered;
  within_real : Z.of_nat (size (ax_lastReal w)) <= maxRemembered;
  within_owed : Z.of_nat (size (ax_owed w)) <= maxRemembered;
  within_named : ax_injectors w !! "" = None;
  within_injectors : Z.of_nat (size (ax_injectors w)) <= maxInjectors;
  held_for_session : forall id h, ax_held w !! id = Some h -> (splitID id).2 = true /\ reminder (hr_payload h) = Some (hr_cluster h)
}.

Definition stays (cfg : axConfig) (w w' : axWorld) : Prop := within cfg w -> within cfg w'.

#[global] Instance stays_preorder cfg : PreOrder (stays cfg).
Proof. split; unfold stays; [by intros w|]. auto. Qed.

Section bounds.
Context `{RangeOrder} `{UnicodeCase} `{Executor} (cfg : axConfig).

Lemma size_delete_le {V} k (m : gmap string V) n : Z.of_nat (size m) <= n -> Z.of_nat (size (base.delete k m)) <= n.
Proof. intros Hm. destruct (m !! k) eqn:E; [rewrite map_size_delete_Some by (by eexists); lia|by rewrite map_size_delete_None]. Qed.

(** The counters do not matter. *)
Lemma count_stays c o : keeps (stays cfg) (countReminder cfg c o).
Proof. unfold countReminder. apply keeps_when; [apply _|]. apply keeps_modify. intros w []. by constructor. Qed.

Lemma counts_stay {A} (l : list A) body : (forall x, exists c o, body x = countReminder cfg c o) -> keeps (stays cfg) (for_each l body).
Proof. intros Hb. apply keeps_for_each; [apply _|]. intros x. destruct (Hb x) as (c & o & ->). apply count_stays. Qed.

(** Fewer reminders held. *)
Lemma fewer_stays w m : (size m <= size (ax_held w))%nat -> (forall id h, m !! id = Some h -> ax_held w !! id = Some h) -> stays cfg w (w <| ax_held := m |>).
Proof. intros Hs Hm []. constructor; cbn; try done; [lia|]. auto. Qed.

Lemma take_stays visit test : keeps (stays cfg) (take_held visit test).
Proof.
  intros w. pose proof (take_held_spec visit test w) as Ht. destruct (take_held visit test w) as [taken w']. destruct Ht as (_ & _ & _ & Hsub & _ & _ & -> & Hsize).
  cbn [snd]. apply fewer_stays; [done|]. intros id h Hi. by apply Hsub in Hi as [? _].
Qed.

Lemma deliver_held_stays task t d : keeps (stays cfg) (deliver_held cfg task t d).
Proof.
  unfold deliver_held. destruct (expired t d.2); [apply count_stays|]. destruct (splitID d.1) as [[? sid] ?]. apply keeps_bind; [apply _| |intros; apply count_stays].
  unfold inj_Append. destruct (sid ==s ""); [apply keeps_ret, _|]. intros w []. by constructor.
Qed.

Lemma oldest_injector_in (m : gmap string Time) : m <> ∅ -> m !! "" = None -> oldest_injector m <> "" /\ m !! oldest_injector m <> None.
Proof.
  intros Hm Hno. pose proof (range_nonempty 0 m Hm) as Hr. unfold oldest_injector.
  assert (forall k t, (k, t) ∈ range 0 m -> k <> "" /\ m !! k <> None) as Hin.
  { intros k t Hk%elem_of_range. split; congruence. }
  destruct (range 0 m) as [|[k t] l]; [done|]. clear Hr Hm. cbn [fold_left]. rewrite (bool_decide_eq_true_2 ("" = "")) by done. cbn [orb]. pose proof (Hin k t (list_elem_of_here _ _)) as Hk.
  assert (forall k t, (k, t) ∈ l -> k <> "" /\ m !! k <> None) as Hl by (intros; eapply Hin, list_elem_of_further; done). clear Hin Hno.
  revert k t Hk. induction l as [|[k' t'] l IH]; intros k t Hk; [done|]. cbn [fold_left]. specialize (IH ltac:(intros; eapply Hl, list_elem_of_further; done)).
  destruct (_ || _); apply IH; [|done]. apply (Hl k' t'), list_elem_of_here.
Qed.

Lemma injectorFor_stays task : task <> "" -> keeps (stays cfg) (injectorFor task).
Proof.
  intros Hne w []. constructor; cbn; try done.
  { rewrite lookup_insert_ne by done. case_match; [|done]. case_match; [|done]. rewrite lookup_delete_None. by right. }
  destruct (ax_injectors w !! task) as [t|] eqn:Et; cbn.
  { rewrite map_size_insert_Some by (by exists t). done. }
  destruct (Z.leb_spec maxInjectors (Z.of_nat (size (ax_injectors w)))) as [Hge|Hlt]; [|rewrite map_size_insert_None by done; lia].
  destruct (oldest_injector_in (ax_injectors w)) as [Hno Hin]; [intros E; rewrite E, map_size_empty in Hge; unfold maxInjectors in Hge; lia|done|].
  rewrite (bool_decide_eq_false_2 (oldest_injector _ = "")) by done. cbn. destruct (ax_injectors w !! oldest_injector (ax_injectors w)) as [t|] eqn:Eo; [|done].
  rewrite map_size_insert_None by (apply lookup_delete_None; by right). rewrite map_size_delete_Some by (by exists t).
  assert (size (ax_injectors w) <> O) by (apply map_size_ne_0_lookup; eauto). lia.
Qed.

(** Holding one more: what is stale and what is over the limit goes. *)
Lemma holdReminder_stays id cl p : (splitID id).2 = true -> reminder p = Some cl -> keeps (stays cfg) (holdReminder cfg id cl p).
Proof.
  intros Hid Hp w Hw. unfold holdReminder, now, gets, modify, mbind, M_bind. set (w1 := w <| ax_held ::= _ |>).
  pose proof (take_held_spec 3 (fun _ x => expired (now_of w) x) w1) as Ht. destruct (take_held _ _ w1) as [stale w2]. destruct Ht as (_ & _ & _ & Hsub & _ & _ & E2 & Hsize).
  pose proof (evict_held_spec (size (ax_held w2)) (ax_held w2) (le_n _)) as He. destruct (evict_held _ (ax_held w2)) as [m3 evicted]. destruct He as (_ & Hb & Hsub3 & _).
  assert (within cfg (w2 <| ax_held := m3 |>)) as H3.
  { rewrite E2. destruct Hw. constructor; cbn; try done. intros id' h Hi%Hsub3. apply Hsub in Hi as [Hi _]. unfold w1 in Hi. cbn in Hi.
    apply lookup_insert_Some in Hi as [[<- <-]|[_ Hi]]; [done|by apply held_for_session0]. }
  pose proof (count_stays cl ReminderHeld _ H3) as H4. destruct (countReminder _ _ _ _) as [u4 w4]. cbn [snd] in H4.
  set (sup := match ax_held w !! id with Some h => _ | None => _ end : M axWorld unit). assert (within cfg (sup w4).2) as H5.
  { unfold sup. destruct (ax_held w !! id); [by apply count_stays|done]. }
  destruct (sup w4) as [u5 w5]. apply counts_stay; [|done]. eauto.
Qed.

(** Every primitive stays within the bounds. *)
Lemma stays_all l : keeps (stays cfg) (for_each l (ax_call cfg)).
Proof.
  assert (0 < maxRemembered) as Hmax by done.
  apply ax_calls_keep; [apply _|..].
  - intros a w []. by constructor.
  - apply injectorFor_stays.
  - intros task w []. constructor; cbn; try done. by apply size_delete_le.
  - intros task w []. constructor; cbn; try done. by apply forget_one_bound.
  - intros id w []. constructor; cbn; try done. by apply forget_one_bound.
  - intros id w []. constructor; cbn; try done. by apply size_delete_le.
  - intros k id w []. constructor; cbn; try done. by apply forget_one_bound.
  - intros c. apply count_stays.
  - intros task. unfold dropHeldIn. apply keeps_bind; [apply _|apply take_stays|]. intros taken. apply counts_stay. intros [id h]. eauto.
  - intros id. unfold forgetHeld. apply keeps_bind; [apply _|apply keeps_gets, _|]. intros old. apply keeps_bind; [apply _| |].
    + apply keeps_modify. intros w. assert (w <| ax_held ::= base.delete id |> = w <| ax_held := base.delete id (ax_held w) |>) as -> by done. apply (fewer_stays w (base.delete id (ax_held w))); [apply map_subseteq_size, delete_subseteq|].
      intros id' h. by intros [_ ?]%lookup_delete_Some.
    + intros _. destruct old; [apply count_stays|apply keeps_ret, _].
  - intros task Hne. unfold flushHeld. apply keeps_bind; [apply _|apply keeps_gets, _|]. intros t. apply keeps_bind; [apply _|apply take_stays|]. intros batch.
    apply keeps_bind; [apply _|by apply injectorFor_stays|]. intros _. apply keeps_for_each; [apply _|]. intros d. apply deliver_held_stays.
  - intros id cl p Hid Hp. apply holdReminder_stays; done.
Qed.

Lemma newSink_within : within cfg newSink.
Proof. constructor; cbn; try done. Qed.

Lemma balance_all c l : c ∈ ax_counters cfg -> keeps (keeps_balance c) (for_each l (ax_call cfg)).
Proof.
  intros Hc. apply ax_calls_keep; [apply _|..]; try (by intros).
  - intros cl w. destruct (count_outstanding cfg cl ReminderDirect c w Hc) as [E1 E2]. unfold keeps_balance, balance, held_reminders. rewrite E1, E2. destruct (cl ==s c); lia.
  - intros. by apply dropHeldIn_balance.
  - intros. by apply forgetHeld_balance.
  - intros. by apply flushHeld_balance.
  - intros. by apply holdReminder_balance.
Qed.

End bounds.

(** C9: the sink's memory is bounded and its reminders are accounted for. After any sequence
    of calls, whatever the executor, the router and the store answered, the five tables are
    within their limits, each held reminder belongs to a session and is a reminder; and for
    every cluster that counts, each reminder that was held was superseded, delivered or
    dropped, or is still held. *)
Theorem reminders_are_accounted_for `{RangeOrder} `{UnicodeCase} `{Executor} cfg (calls : list call) :
  let w := ax_after cfg calls in
  within cfg w /\
  forall c, c ∈ ax_counters cfg ->
    n_counted c ReminderHeld w = n_counted c ReminderSuperseded w + n_counted c ReminderDelivered w + n_counted c ReminderDropped w + of_cluster c (held_reminders w).
Proof.
  cbn zeta. split; [apply stays_all, newSink_within|]. intros c Hc. pose proof (balance_all cfg c calls Hc newSink) as Hb. fold (ax_after cfg calls) in Hb.
  unfold keeps_balance, balance, outstanding in Hb. assert (of_cluster c (held_reminders newSink) = 0) as E by done. rewrite E in Hb.
  change (n_counted c ReminderHeld newSink) with 0 in Hb. change (n_counted c ReminderSuperseded newSink) with 0 in Hb.
  change (n_counted c ReminderDelivered newSink) with 0 in Hb. change (n_counted c ReminderDropped newSink) with 0 in Hb. lia.
Qed.

(** ** Order on the wire *)

Section wire.
Context `{RangeOrder} `{UnicodeCase} `{Executor} (cfg : axConfig).

Definition session_of (id : string) : string := let '(_, sid, _) := splitID id in sid.
Definition delivery (task : string) (d : string * heldReminder) : action := PostInject task (session_of d.1) (hr_payload d.2).

(** The reminders held for a task that are still worth delivering. *)
Definition due_in (task : string) (t : Time) (w : axWorld) : list (string * heldReminder) :=
  List.filter (fun d => held_in task d.1 && negb (expired t d.2)) (map_to_list (ax_held w)).

#[local] Instance earlier_trans : Transitive earlier.
Proof. intros a b c. unfold earlier. lia. Qed.
#[local] Instance earlier_total : Total earlier.
Proof. intros a b. unfold earlier. lia. Qed.

Lemma StronglySorted_lfilter {A} (R : A -> A -> Prop) f (l : list A) : StronglySorted R l -> StronglySorted R (List.filter f l).
Proof. induction 1 as [|x l _ IH Hx]; [constructor|]. cbn. destruct (f x); [|done]. constructor; [done|]. by apply Forall_lfilter. Qed.

Lemma deliver_held_trace task t d w : (splitID d.1).2 = true ->
  ax_trace (deliver_held cfg task t d w).2 = ax_trace w ++ (if expired t d.2 then [] else [delivery task d]).
Proof.
  intros Hok. unfold deliver_held, delivery, session_of. destruct (expired t d.2).
  - destruct (count_counts cfg (hr_cluster d.2) ReminderDropped w "") as (_ & _ & -> & _). by rewrite app_nil_r.
  - destruct (splitID d.1) as [[tk sid] ok] eqn:Es. cbn in Hok. subst ok. assert (sid <> "") as Hsid.
    { revert Es. unfold splitID. destruct (CutByte _ _) as [[a b] ok]. intros [= -> -> E]. intros ->. by rewrite andb_false_r in E. }
    unfold inj_Append, mbind, M_bind. rewrite bool_decide_eq_false_2 by done. unfold act. cbn.
    set (w1 := w <| ax_trace ::= _ |>). set (o := match _ with Some _ => ReminderDropped | None => _ end).
    destruct (count_counts cfg (hr_cluster d.2) o w1 "") as (_ & _ & -> & _). done.
Qed.

Lemma flush_all_trace task t l : forall w, (forall d, d ∈ l -> (splitID d.1).2 = true) ->
  ax_trace (for_each l (deliver_held cfg task t) w).2 = ax_trace w ++ (delivery task <$> List.filter (fun d => negb (expired t d.2)) l).
Proof.
  induction l as [|d l IH]; intros w Hok; [cbn; by rewrite app_nil_r|]. cbn [for_each]. unfold mbind, M_bind.
  pose proof (deliver_held_trace task t d w (Hok d (list_elem_of_here _ _))) as E. destruct (deliver_held cfg task t d w) as [u w1]. cbn [snd] in E.
  rewrite IH by (intros; by apply Hok, list_elem_of_further). rewrite E, <- app_assoc. cbn [List.filter]. by destruct (expired t d.2).
Qed.

Lemma flush_all_rest task t l : keeps (fun w w' => ax_held w' = ax_held w /\ ax_owed w' = ax_owed w /\ ax_lastReal w' = ax_lastReal w) (for_each l (deliver_held cfg task t)).
Proof.
  set (R := fun w w' : axWorld => _). assert (PreOrder R) as HR.
  { split; unfold R; [done|]. intros a b c (-> & -> & ->) (-> & -> & ->). done. }
  apply keeps_for_each; [apply _|]. intros d. unfold deliver_held. assert (forall c o, keeps R (countReminder cfg c o)) as Hcount.
  { intros c o. unfold countReminder. apply keeps_when; [apply _|]. by intros w. }
  destruct (expired t d.2); [done|]. destruct (splitID d.1) as [[tk sid] ok]. apply keeps_bind; [apply _| |done]. unfold inj_Append. destruct (sid ==s ""); by intros w.
Qed.

(** What flushing does: the reminders of the task, oldest first, and they are held no more. *)
Lemma flushHeld_spec task w : within cfg w -> let w' := (flushHeld cfg task w).2 in
  exists due, due ≡ₚ due_in task (now_of w) w /\ StronglySorted earlier due /\ ax_trace w' = ax_trace w ++ (delivery task <$> due) /\
    (forall k h, ax_held w' !! k = Some h <-> ax_held w !! k = Some h /\ held_in task k = false) /\
    ax_owed w' = ax_owed w /\ ax_lastReal w' = ax_lastReal w.
Proof.
  intros Hw. cbn zeta. unfold flushHeld, now, gets, mbind, M_bind. pose proof (take_held_spec 3 (fun id _ => held_in task id) w) as Ht.
  assert (forall d, d ∈ (take_held 3 (fun id _ => held_in task id) w).1 -> (splitID d.1).2 = true) as Hok.
  { destruct (take_held _ _ w) as [taken w1]. destruct Ht as (_ & _ & _ & _ & Hin & _). cbn. intros [k h] Hd. apply Hin in Hd as [Hd _]. by apply (held_for_session cfg w Hw) in Hd as [? _]. }
  assert ((take_held 3 (fun id _ => held_in task id) w).1 ≡ₚ List.filter (fun d => held_in task d.1) (map_to_list (ax_held w))) as Hp.
  { cbn. rewrite <- (range_perm 3 (ax_held w)). erewrite List.filter_ext; [done|]. by intros []. }
  destruct (take_held _ _ w) as [taken w1]. destruct Ht as (_ & Et & _ & Hheld & _ & _ & Ew & _). cbn in Hok, Hp.
  pose proof (flush_all_rest task (now_of w) (merge_sort earlier taken) (injectorFor task w1).2) as (R1 & R2 & R3).
  pose proof (flush_all_trace task (now_of w) (merge_sort earlier taken) (injectorFor task w1).2) as Etr.
  destruct (injectorFor task w1) as [u w2] eqn:Ei. assert (w2 = (injectorFor task w1).2) as E2 by (by rewrite Ei). cbn [snd] in *.
  exists (List.filter (fun d => negb (expired (now_of w) d.2)) (merge_sort earlier taken)). split; [|split; [|split; [|split; [|split]]]].
  - rewrite (merge_sort_Permutation earlier taken), Hp, filter_both. done.
  - apply StronglySorted_lfilter. apply (StronglySorted_merge_sort earlier).
  - rewrite Etr; [|intros d Hd; apply Hok; by rewrite merge_sort_Permutation in Hd]. f_equal. by rewrite E2.
  - intros k h. rewrite R1, E2. apply Hheld.
  - rewrite R2, E2. cbn. by rewrite Ew.
  - rewrite R3, E2. cbn. by rewrite Ew.
Qed.

(** What confirming does with a failed delivery. *)
Lemma confirmGone_spec task e w : let '(err, w') := confirmGone cfg task (Some e) w in
  (ax_trace w' = ax_trace w \/ ax_trace w' = ax_trace w ++ [GetTask task]) /\ ax_owed w' = ax_owed w /\ (err = Some e \/ err = Some goneError).
Proof.
  unfold confirmGone. destruct (gone_status e); [cbn; auto|]. unfold act, mbind, M_bind. set (w1 := w <| ax_trace ::= _ |>). destruct (negb _); [cbn; auto|].
  assert (keeps (fun a b => ax_trace b = ax_trace a /\ ax_owed b = ax_owed a) (dropHeldIn cfg task)) as Hd.
  { set (R := fun a b : axWorld => _). assert (PreOrder R). { split; unfold R; [done|]. intros x y z [-> ->] [-> ->]. done. }
    unfold dropHeldIn. apply keeps_bind; [apply _|by intros x|]. intros l. apply keeps_for_each; [apply _|]. intros [id h]. unfold countReminder.
    apply keeps_when; [apply _|]. by intros x. }
  destruct (Hd w1) as [E1 E2]. destruct (dropHeldIn cfg task w1) as [u w2]. cbn in *. rewrite E1, E2. auto.
Qed.

Lemma confirmGone_held task err w k h : ax_held (confirmGone cfg task err w).2 !! k = Some h -> ax_held w !! k = Some h.
Proof.
  assert (keeps (fun a b => forall k h, ax_held b !! k = Some h -> ax_held a !! k = Some h) (confirmGone cfg task err)) as Hk; [|apply Hk].
  set (R := fun a b : axWorld => _). assert (PreOrder R). { split; unfold R; [by intros x|]. intros x y z A B k' h' Hk'. auto. }
  unfold confirmGone. destruct err as [e|]; [|apply keeps_ret, _]. destruct (gone_status e); [apply keeps_ret, _|]. apply keeps_bind; [apply _|intros x; by unfold R|].
  intros a. destruct (negb _); [apply keeps_ret, _|]. apply keeps_bind; [apply _| |intros; apply keeps_bind; [apply _|intros y; by unfold R|intros; apply keeps_ret, _]].
  unfold dropHeldIn. apply keeps_bind; [apply _| |].
  - intros x. pose proof (take_held_spec 3 (fun id _ => held_in task id) x) as Ht. destruct (take_held _ _ x) as [taken x']. destruct Ht as (_ & _ & _ & Hsub & _).
    intros k' h' Hk'. by apply Hsub in Hk' as [? _].
  - intros l. apply keeps_for_each; [apply _|]. intros [id h']. unfold countReminder. apply keeps_when; [apply _|]. intros x; by unfold R.
Qed.

End wire.

(** C10: a real payload follows what was held. When something other than a reminder is appended
    to a session, the reminders held for its task that have not expired go first, oldest
    first, each to its own session, and none stays held; then the payload goes out. Success
    is reported exactly when the payload was accepted, and then the task counts as awake
    and nothing is owed; a failure is reported as the receiver's or as a lost session,
    and the session is owed a payload, so that its next reminder is not held. *)
Theorem real_payload_follows_reminders `{RangeOrder} `{UnicodeCase} `{Executor} cfg w id task sid p
    (Hw : within cfg w) (Hid : splitID id = (task, sid, true)) (Hp : reminder p = None) :
  let '(err, w') := ax_Append cfg id p w in
  exists due asked, due ≡ₚ due_in task (now_of w) w /\ StronglySorted earlier due /\
    ax_trace w' = (ax_trace w ++ (delivery task <$> due)) ++ PostInject task sid p :: asked /\ (asked = [] \/ asked = [GetTask task]) /\
    (forall k h, ax_held w' !! k = Some h -> held_in task k = false) /\
    match post_inject (ax_trace w ++ (delivery task <$> due)) task sid p with
    | None => err = None /\ ax_owed w' !! id = None /\ ax_lastReal w' !! task = Some (now_of w')
    | Some e => (err = Some e \/ err = Some goneError) /\ ax_owed w' !! id = Some tt
    end.
Proof.
  unfold ax_Append. rewrite Hid. cbn [negb]. rewrite Hp. unfold append_real, mbind, M_bind. pose proof (splitID_ok _ _ _ Hid) as (Ht & Hs & _).
  destruct (flushHeld_spec cfg task w Hw) as (due & Hperm & Hsort & Etr & Hheld & _ & _). destruct (flushHeld cfg task w) as [u1 w1]. cbn [snd] in *.
  unfold inj_Append. rewrite bool_decide_eq_false_2 by done. unfold act. cbn [injectorFor].
  set (w2 := w1 <| ax_injectors := _ |>). set (w3 := w2 <| ax_trace ::= (fun l => l ++ [PostInject task sid p]) |>).
  assert (ax_trace w2 = ax_trace w ++ (delivery task <$> due)) as E2 by (unfold w2; cbn; exact Etr). rewrite E2.
  assert (ax_trace w3 = (ax_trace w ++ (delivery task <$> due)) ++ [PostInject task sid p]) as E3 by (unfold w3; cbn; by rewrite Etr).
  assert (forall k h, ax_held w3 !! k = Some h -> held_in task k = false) as H3 by (intros k h Hk; by apply Hheld in Hk as [_ ?]).
  destruct (post_inject _ task sid p) as [e|] eqn:Ep.
  - pose proof (confirmGone_spec cfg task e w3) as Hc. pose proof (confirmGone_held cfg task (Some e) w3) as Hh. destruct (confirmGone cfg task (Some e) w3) as [err w4]. destruct Hc as (Hct & _ & Herr).
    assert (exists e', err = Some e' /\ (e' = e \/ e' = goneError)) as (e' & -> & He') by (destruct Herr as [-> | ->]; eauto). cbn [snd] in Hh.
    exists due. destruct Hct as [Hct|Hct]; [exists []|exists [GetTask task]]; (split; [done|]); (split; [done|]); cbn.
    all: rewrite Hct, E3, <- ?app_assoc; (split; [done|]); (split; [auto|]); (split; [intros k h Hk; eapply H3, Hh, Hk|]); rewrite Ep; (split; [destruct He' as [-> | ->]; auto|]).
    all: apply lookup_insert_eq.
  - exists due, []. cbn. rewrite <- E3. split; [done|]. split; [done|]. split; [done|]. split; [auto|]. split; [exact H3|]. rewrite Ep. split; [done|].
    split; [apply lookup_delete_eq|]. apply lookup_insert_eq.
Qed.

Section holding.
Context `{RangeOrder} `{UnicodeCase} `{Executor} (cfg : axConfig).

Lemma counts_quiet {A} (l : list A) body : (forall x, exists c o, body x = countReminder cfg c o) ->
  keeps (fun a b => ax_trace b = ax_trace a /\ ax_held b = ax_held a) (for_each l body).
Proof.
  intros Hb. set (R := fun a b : axWorld => _). assert (PreOrder R). { split; unfold R; [done|]. intros x y z [-> ->] [-> ->]. done. }
  apply keeps_for_each; [apply _|]. intros x. destruct (Hb x) as (c & o & ->). unfold countReminder. apply keeps_when; [apply _|]. by intros w.
Qed.

Lemma expired_fresh t p cl : expired t (mkHeld p cl t) = false.
Proof. unfold expired, Sub. cbn. rewrite Z.sub_diag. done. Qed.

Lemma holdReminder_spec id cl p w : let w' := (holdReminder cfg id cl p w).2 in
  ax_trace w' = ax_trace w /\ (Z.of_nat (size (ax_held w)) < maxHeld -> ax_held w' !! id = Some (mkHeld p cl (now_of w))).
Proof.
  cbn zeta. unfold holdReminder, now, gets, modify, mbind, M_bind. set (h := mkHeld p cl (now_of w)). set (w1 := w <| ax_held ::= <[id := h]> |>).
  pose proof (take_held_spec 3 (fun _ x => expired (now_of w) x) w1) as Ht. destruct (take_held _ _ w1) as [stale w2]. destruct Ht as (_ & Htr & _ & Hsub & _ & _ & _ & Hsize).
  pose proof (evict_held_spec (size (ax_held w2)) (ax_held w2) (le_n _)) as He. destruct (evict_held _ (ax_held w2)) as [m3 evicted]. destruct He as (_ & _ & _ & Hsame).
  set (w3 := w2 <| ax_held := m3 |>). destruct (count_counts cfg cl ReminderHeld w3 "") as (_ & A1 & A2 & _). destruct (countReminder cfg cl ReminderHeld w3) as [u w4]. cbn [snd] in A1, A2.
  set (sup := match ax_held w !! id with Some h => _ | None => _ end : M axWorld unit).
  assert (ax_held (sup w4).2 = ax_held w4 /\ ax_trace (sup w4).2 = ax_trace w4) as [B1 B2].
  { unfold sup. destruct (ax_held w !! id) as [old|]; [|done]. by destruct (count_counts cfg (hr_cluster old) ReminderSuperseded w4 "") as (_ & -> & -> & _). }
  destruct (sup w4) as [u5 w5]. cbn [snd] in B1, B2.
  destruct (counts_quiet ((snd <$> stale) ++ evicted) (fun h => countReminder cfg (hr_cluster h) ReminderDropped) ltac:(eauto) w5) as [C1 C2].
  rewrite C1, C2, B1, B2, A1, A2. unfold w3. cbn. rewrite Htr. split; [done|]. intros Hlt. rewrite Hsame.
  - apply Hsub. split; [apply lookup_insert_eq|]. apply expired_fresh.
  - unfold w1 in Hsize. cbn in Hsize. destruct (ax_held w !! id) as [old|] eqn:Eo; [rewrite map_size_insert_Some in Hsize by (by exists old)|rewrite map_size_insert_None in Hsize by done]; lia.
Qed.

Lemma dropHeldIn_spec task w : let w' := (dropHeldIn cfg task w).2 in
  ax_trace w' = ax_trace w /\ forall k h, ax_held w' !! k = Some h <-> ax_held w !! k = Some h /\ held_in task k = false.
Proof.
  cbn zeta. unfold dropHeldIn, mbind, M_bind. pose proof (take_held_spec 3 (fun id _ => held_in task id) w) as Ht. destruct (take_held _ _ w) as [taken w1].
  destruct Ht as (_ & Etr & _ & Hsub & _).
  destruct (counts_quiet taken (fun '(_, h) => countReminder cfg (hr_cluster h) ReminderDropped) ltac:(intros []; eauto) w1) as [E1 E2].
  rewrite E1, E2. auto.
Qed.

End holding.

(** C11: a reminder never wakes a task. A reminder for a session nothing is owed to, in a task
    that had no real payload within its idle window or that is suspended, makes one call:
    the read of the task's record. If the task or its actor is gone the reminder is
    answered as a lost session, and everything held for the task is dropped; otherwise it
    is accepted and, while there is room, held as the latest of its session. *)
Theorem reminder_never_wakes `{RangeOrder} `{UnicodeCase} `{Executor} cfg w id task sid p cluster
    (Hid : splitID id = (task, sid, true)) (Hp : reminder p = Some cluster) (Howed : ax_owed w !! id = None)
    (Hidle : recently_real cfg w task = false \/ exists conditions, get_task (ax_trace w) task = GotTask phaseSuspended conditions) :
  let '(err, w') := ax_Append cfg id p w in
  ax_trace w' = ax_trace w ++ [GetTask task] /\
  if taskGoneIn (get_task (ax_trace w) task)
  then err = Some goneError /\ sessionGone goneError = true /\ (forall k h, ax_held w' !! k = Some h -> held_in task k = false)
  else err = None /\ (Z.of_nat (size (ax_held w)) < maxHeld -> ax_held w' !! id = Some (mkHeld p cluster (clock (ax_trace w ++ [GetTask task])))).
Proof.
  unfold ax_Append. rewrite Hid. cbn [negb]. rewrite Hp. unfold append_reminder, owes, gets, mbind, M_bind. rewrite Howed. cbn [stateOf].
  rewrite bool_decide_eq_false_2 by (intros Hn; by apply Hn). unfold stateOf, isTaskKnownAwake, gets, act, mbind, M_bind. cbn.
  set (a := get_task (ax_trace w) task) in *. set (w1 := w <| ax_trace ::= _ |>).
  destruct (taskGoneIn a) eqn:Eg.
  - unfold judge_task. rewrite Eg. pose proof (dropHeldIn_spec cfg task w1) as [E1 E2]. destruct (dropHeldIn cfg task w1) as [u w2]. cbn [snd] in *. cbn.
    rewrite E1. split; [done|]. split; [done|]. split; [done|]. intros k h Hk. by apply E2 in Hk as [_ ?].
  - assert (judge_task (recently_real cfg w task) a = taskIdle) as ->.
    { unfold judge_task. rewrite Eg. destruct Hidle as [-> |(cs & ->)]; cbn.
      - destruct a; [|done..]. by case_bool_decide.
      - by rewrite orb_true_r. }
    pose proof (holdReminder_spec cfg id cluster p w1) as [E1 E2]. destruct (holdReminder cfg id cluster p w1) as [u w2]. cbn [snd] in *. cbn. rewrite E1.
    split; [done|]. split; [done|]. exact E2.
Qed.

(** ** Opening *)

Section opening.
Context `{RangeOrder} `{UnicodeCase} `{Executor} (cfg : axConfig).

Definition grows (w w' : axWorld) : Prop := exists l, ax_trace w' = ax_trace w ++ l.

#[global] Instance grows_preorder : PreOrder grows.
Proof.
  split; [intros w; exists []; by rewrite app_nil_r|]. intros a b c [l E] [l' E']. exists (l ++ l'). by rewrite E', E, app_assoc.
Qed.

(** The calls made since, none of which opens a session. *)
Definition no_session (a : action) : Prop := match a with PostSession _ => False | _ => True end.
Definition quiet (w w' : axWorld) : Prop := exists l, ax_trace w' = ax_trace w ++ l /\ Forall no_session l.

#[global] Instance quiet_preorder : PreOrder quiet.
Proof.
  split; [intros w; exists []; by rewrite app_nil_r|]. intros a b c (l & E & Hl) (l' & E' & Hl'). exists (l ++ l').
  rewrite E', E, app_assoc. split; [done|]. by apply Forall_app_2.
Qed.

Lemma quiet_grows {A} (m : M axWorld A) : keeps quiet m -> keeps grows m.
Proof. intros Hm w. destruct (Hm w) as (l & E & _). by exists l. Qed.

Lemma trace_quiet w w' : ax_trace w' = ax_trace w -> quiet w w'.
Proof. intros E. exists []. by rewrite app_nil_r. Qed.

Lemma trace_grows w w' : ax_trace w' = ax_trace w -> grows w w'.
Proof. intros E. exists []. by rewrite app_nil_r. Qed.

Lemma count_quiet c o : keeps quiet (countReminder cfg c o).
Proof. intros w. apply trace_quiet. by destruct (count_counts cfg c o w "") as (_ & _ & ? & _). Qed.

Lemma act_grows a w : grows w (w <| ax_trace ::= (fun l => l ++ [a]) |>).
Proof. by exists [a]. Qed.

Lemma act_quiet a w : no_session a -> quiet w (w <| ax_trace ::= (fun l => l ++ [a]) |>).
Proof. intros Ha. exists [a]. split; [done|]. by constructor. Qed.

Lemma inj_Append_quiet task sid p : keeps quiet (inj_Append task sid p).
Proof. unfold inj_Append. destruct (sid ==s ""); [apply keeps_ret, _|]. intros w. by apply act_quiet. Qed.

Lemma flushHeld_quiet task : keeps quiet (flushHeld cfg task).
Proof.
  unfold flushHeld. apply keeps_bind; [apply _|apply keeps_gets, _|]. intros t. apply keeps_bind; [apply _|intros w; by apply trace_quiet|]. intros batch.
  apply keeps_bind; [apply _|intros w; by apply trace_quiet|]. intros _. apply keeps_for_each; [apply _|]. intros d. unfold deliver_held.
  destruct (expired t d.2); [apply count_quiet|]. destruct (splitID d.1) as [[? sid] ?].
  apply keeps_bind; [apply _|apply inj_Append_quiet|intros; apply count_quiet].
Qed.

Lemma flush_grows task : keeps grows (flushHeld cfg task).
Proof. apply quiet_grows, flushHeld_quiet. Qed.

(** The payload went to [sid] of [task] after [w], and the answer was [err]. *)
Definition attempted (w w' : axWorld) (task sid : string) (p : wire) (err : option sink_error) : Prop :=
  exists before after, ax_trace w' = ax_trace w ++ before ++ PostInject task sid p :: after /\
    (err = None <-> post_inject (ax_trace w ++ before) task sid p = None).

Lemma attempted_before w0 w w' task sid p err : grows w0 w -> attempted w w' task sid p err -> attempted w0 w' task sid p err.
Proof. intros [l E] (before & after & Ht & He). exists (l ++ before), after. rewrite Ht, E in *. rewrite <- !app_assoc in *. done. Qed.

Lemma attempted_after w w' w'' task sid p err : attempted w w' task sid p err -> grows w' w'' -> attempted w w'' task sid p err.
Proof. intros (before & after & Ht & He) [l E]. exists before, (after ++ l). rewrite E, Ht, <- !app_assoc. done. Qed.

Lemma attempted_err w w' task sid p err err' : attempted w w' task sid p err -> (err = None <-> err' = None) -> attempted w w' task sid p err'.
Proof. intros (before & after & Ht & He) Hiff. exists before, after. split; [done|]. by rewrite <- Hiff. Qed.

Lemma inj_Append_attempts task sid p w : sid <> "" -> let '(err, w') := inj_Append task sid p w in attempted w w' task sid p err.
Proof.
  intros Hs. unfold inj_Append. rewrite bool_decide_eq_false_2 by done. unfold act. exists [], []. cbn. by rewrite app_nil_r.
Qed.

(** What the caller is told of a session. *)
Record told (key : IncidentKey) (w w' : axWorld) (task : string) (p : wire) (r : string * option sink_error) : Prop := {
  told_where : exists sid, sid <> "" /\ r.1 = task +:+ "/" +:+ sid /\ attempted w w' task sid p r.2;
  told_owed : ax_owed w' !! r.1 = match r.2 with None => None | Some _ => Some tt end;
  told_remembered : r.2 = None -> ax_remembered w' !! IncidentKey_String key = Some r.1
}.

Lemma told_before key w0 w w' task p r : grows w0 w -> told key w w' task p r -> told key w0 w' task p r.
Proof. intros Hg [(sid & Hs & E & Ha) Ho Hr]. constructor; [|done..]. exists sid. split; [done|]. split; [done|]. by eapply attempted_before. Qed.

Lemma remember_spec key id w : let w' := (remember cfg key id w).2 in
  grows w w' /\ ax_remembered w' !! IncidentKey_String key = Some id /\ ax_owed w' = ax_owed w.
Proof.
  cbn zeta. unfold remember, mbind, M_bind, modify, when. case_bool_decide; cbn; (split; [|split; [apply lookup_insert_eq|done]]); [eexists; done|by apply trace_grows].
Qed.

Lemma settled_spec key task id w : let w' := (settled cfg key task id w).2 in
  grows w w' /\ ax_remembered w' !! IncidentKey_String key = Some id /\ ax_owed w' !! id = None.
Proof.
  cbn zeta. unfold settled, mbind, M_bind, paid, noteReal, modify. pose proof (remember_spec key id w) as (Hg & Hr & Ho). destruct (remember cfg key id w) as [u w1]. cbn in *.
  split; [done|]. split; [done|]. apply lookup_delete_eq.
Qed.

Lemma reopen_spec key task id sid err w w0 p : sid <> "" -> id = task +:+ "/" +:+ sid -> attempted w0 w task sid p err ->
  let '(r, w') := reopen cfg key task id sid err w in grows w w' /\ match r with Some r => told key w0 w' task p r | None => True end.
Proof.
  intros Hs Hid Ha. unfold reopen. destruct err as [e|].
  - destruct (gone_status e); [split; [apply trace_grows|]; done|]. unfold owe, modify, mbind, M_bind. cbn. split; [by apply trace_grows|]. constructor; cbn.
    + exists sid. split; [done|]. split; [done|]. eapply attempted_after; [exact Ha|by apply trace_grows].
    + apply lookup_insert_eq.
    + done.
  - unfold mbind, M_bind. pose proof (settled_spec key task id w) as (Hg & Hr & Ho). destruct (settled cfg key task id w) as [u w1]. cbn in *. split; [done|]. constructor; cbn; [|done..].
    exists sid. split; [done|]. split; [done|]. by eapply attempted_after.
Qed.

Lemma open_new_spec key task p w :
  let '((r, err), w') := open_new cfg key task p w in grows w w' /\ match r with Some r => told key w w' task p r | None => err <> None end.
Proof.
  unfold open_new, inj_OpenIncident, inj_CreateSession, act, mbind, M_bind. set (w1 := w <| ax_trace ::= _ |>). assert (grows w w1) as Hg1 by apply act_grows.
  cbn. destruct (match post_session _ task with Some sid => _ | None => None end) as [sid|] eqn:Es; [|cbn; done].
  assert (sid <> "") as Hs. { destruct (post_session _ _) as [s|]; [|done]. revert Es. case_bool_decide; [done|]. by intros [= <-]. }
  cbn. pose proof (inj_Append_attempts task sid p w1 Hs) as Ha. destruct (inj_Append task sid p w1) as [err w2]. unfold mret, M_ret. cbn. rewrite bool_decide_eq_false_2 by done.
  assert (grows w1 w2) as Hg2. { destruct Ha as (b & a & E & _). by eexists. } destruct err as [e|].
  - unfold mbind, M_bind. pose proof (remember_spec key (task +:+ "/" +:+ sid) w2) as (Hg & Hr & Ho). destruct (remember cfg key _ w2) as [u w3]. cbn in *.
    split; [etrans; [exact Hg1|]; etrans; [exact Hg2|]; etrans; [exact Hg|]; by apply trace_grows|]. constructor; cbn; [|apply lookup_insert_eq|done].
    exists sid. split; [done|]. split; [done|]. eapply attempted_before; [exact Hg1|]. eapply attempted_after; [exact Ha|]. etrans; [exact Hg|]. by apply trace_grows.
  - unfold mbind, M_bind. pose proof (settled_spec key task (task +:+ "/" +:+ sid) w2) as (Hg & Hr & Ho). destruct (settled cfg key task _ w2) as [u w3]. cbn in *.
    split; [etrans; [exact Hg1|]; etrans; [exact Hg2|exact Hg]|]. constructor; cbn; [|done..].
    exists sid. split; [done|]. split; [done|]. eapply attempted_before; [exact Hg1|]. by eapply attempted_after.
Qed.

Lemma recalled_in_spec task recalled id sid : recalled_in task recalled = Some (id, sid) -> sid <> "" /\ id = task +:+ "/" +:+ sid.
Proof.
  unfold recalled_in. destruct recalled as [r|]; [|done]. destruct (splitID r) as [[t s] ok] eqn:Es. destruct ok; [|done]. cbn. case_bool_decide; [|done]. intros [= -> ->]. subst t.
  by apply splitID_ok in Es as (_ & ? & ?).
Qed.

Lemma confirm_quiet task err : keeps quiet (confirmGone cfg task err).
Proof.
  unfold confirmGone. destruct err as [e|]; [|apply keeps_ret, _]. destruct (gone_status e); [apply keeps_ret, _|]. apply keeps_bind; [apply _|intros w; by apply act_quiet|].
  intros a. destruct (negb _); [apply keeps_ret, _|]. apply keeps_bind; [apply _| |intros; apply keeps_bind; [apply _|intros w; by apply trace_quiet|intros; apply keeps_ret, _]].
  intros w. apply trace_quiet. by destruct (dropHeldIn_spec cfg task w) as [? _].
Qed.

Lemma confirm_grows task err : keeps grows (confirmGone cfg task err).
Proof. apply quiet_grows, confirm_quiet. Qed.

Lemma confirm_None task err w : (confirmGone cfg task err w).1 = None <-> err = None.
Proof.
  destruct err as [e|]; [|done]. pose proof (confirmGone_spec cfg task e w) as Hc. destruct (confirmGone cfg task (Some e) w) as [err' w']. destruct Hc as (_ & _ & [-> | ->]); done.
Qed.

Lemma fast_path_spec key task recalled p w :
  let '(r, w') := fast_path cfg key task recalled p w in grows w w' /\ match r with inl r => told key w w' task p r | inr _ => True end.
Proof.
  unfold fast_path, mbind, M_bind. pose proof (flush_grows task w) as Hf. destruct (flushHeld cfg task w) as [u w1]. cbn [snd] in Hf. destruct recalled as [rc|].
  - destruct (recalled_in task (Some rc)) as [[id sid]|] eqn:Er; [|done]. apply recalled_in_spec in Er as [Hs Hid].
    pose proof (inj_Append_attempts task sid p w1 Hs) as Ha. destruct (inj_Append task sid p w1) as [err w2]. pose proof (confirm_grows task err w2) as Hcg. pose proof (confirm_None task err w2) as Hcn.
    destruct (confirmGone cfg task err w2) as [err' w3]. cbn [fst snd] in *.
    assert (attempted w w3 task sid p err') as Ha'. { eapply attempted_before; [exact Hf|]. eapply attempted_err; [by eapply attempted_after|]. by rewrite Hcn. }
    pose proof (reopen_spec key task id sid err' w3 w p Hs Hid Ha') as Hr. destruct (reopen cfg key task id sid err' w3) as [r w4]. destruct Hr as [Hg Hr].
    assert (grows w w4) as Hall. { destruct Ha' as (b & a & E & _). etrans; [|exact Hg]. by eexists. } destruct r as [r|]; [done|]. cbn. split; [|done]. etrans; [exact Hall|by apply trace_grows].
  - pose proof (open_new_spec key task p w1) as Ho. destruct (open_new cfg key task p w1) as [[r err] w2]. destruct Ho as [Hg Hr]. destruct r as [r|]; cbn.
    + split; [by etrans|]. by eapply told_before.
    + split; [|done]. etrans; [exact Hf|]. etrans; [exact Hg|]. by apply trace_grows.
Qed.

Lemma startTask_quiet task : keeps quiet (startTask task).
Proof.
  assert (forall A a (f : list action -> A), no_session a -> keeps quiet (act a f)) as Hact by (intros A a f Ha w; by apply act_quiet). unfold startTask.
  apply keeps_bind; [apply _|by apply Hact|]. intros created. apply keeps_bind; [apply _| |].
  - destruct created; [apply keeps_ret, _|]. apply keeps_bind; [apply _|by apply Hact|]. intros. apply keeps_ret, _.
  - intros e. destruct (negb e); [apply keeps_ret, _|]. apply keeps_bind; [apply _|by apply Hact|]. intros r. destruct (negb r); [apply keeps_ret, _|by apply Hact].
Qed.

Lemma startTask_grows task : keeps grows (startTask task).
Proof. apply quiet_grows, startTask_quiet. Qed.

Lemma recall_quiet key : keeps quiet (recall cfg key).
Proof.
  unfold recall. apply keeps_bind; [apply _|apply keeps_gets, _|]. intros [id|]; [apply keeps_ret, _|]. case_bool_decide; [|apply keeps_ret, _].
  apply keeps_bind; [apply _|intros w; by apply act_quiet|]. intros. apply keeps_ret, _.
Qed.

Lemma recall_grows key : keeps grows (recall cfg key).
Proof. apply quiet_grows, recall_quiet. Qed.

(** The part of an open after the task was started. *)
Lemma open_started key task recalled p w :
  let m := r ← match recalled with Some (id, sid) => err ← inj_Append task sid p; reopen cfg key task id sid err | None => mret None end;
           match r with Some r => mret r | None => '(r, err) ← open_new cfg key task p; mret (default ("", err) r) end in
  (forall id sid, recalled = Some (id, sid) -> sid <> "" /\ id = task +:+ "/" +:+ sid) ->
  let '(r, w') := m w in (r.1 = "" /\ r.2 <> None) \/ told key w w' task p r.
Proof.
  cbn zeta. intros Hrec.
  assert (forall w1, grows w w1 -> let '(r, w') := ('(r, err) ← open_new cfg key task p; mret (default ("", err) r)) w1 in (r.1 = "" /\ r.2 <> None) \/ told key w w' task p r) as Hnew.
  { intros w1 Hg1. unfold mbind, M_bind. pose proof (open_new_spec key task p w1) as Ho. destruct (open_new cfg key task p w1) as [[r err] w2]. destruct Ho as [_ Hr].
    destruct r as [r|]; cbn; [right; by eapply told_before|by left]. }
  unfold mbind, M_bind. destruct recalled as [[id sid]|]; [|exact (Hnew w (reflexivity w))]. destruct (Hrec id sid eq_refl) as [Hs Hid].
  pose proof (inj_Append_attempts task sid p w Hs) as Ha. destruct (inj_Append task sid p w) as [err w1].
  pose proof (reopen_spec key task id sid err w1 w p Hs Hid Ha) as Hr. destruct (reopen cfg key task id sid err w1) as [r w2]. destruct Hr as [Hg Hr].
  destruct r as [r|]; [by right|]. apply Hnew. destruct Ha as (b & a & E & _). etrans; [|exact Hg]. by eexists.
Qed.

Lemma open_spec key p w : let task := taskFor (ax_scope cfg) key in
  let '(r, w') := OpenIncidentKeyed cfg key p w in (r.1 = "" /\ r.2 <> None) \/ told key w w' task p r.
Proof.
  cbn zeta. unfold OpenIncidentKeyed. set (task := taskFor _ _). unfold mbind at 1. unfold M_bind at 1.
  destruct (injectorFor task w) as [u w1] eqn:E1. assert (grows w w1) as G1 by (apply trace_grows; unfold injectorFor in E1; by injection E1 as _ <-).
  unfold mbind at 1. unfold M_bind at 1. pose proof (recall_grows key w1) as G2. destruct (recall cfg key w1) as [recalled w2]. cbn [snd] in G2.
  assert (grows w w2) as G by (by etrans). clear G1 G2 E1. unfold mbind at 1. unfold M_bind at 1. unfold isTaskKnownAwake, gets.
  set (fast := if recently_real cfg w2 task then _ else _). assert (let '(r, w3) := fast w2 in grows w w3 /\ match r with inl r => told key w w3 task p r | inr _ => True end) as Hf.
  { unfold fast. destruct (recently_real cfg w2 task); [|done]. pose proof (fast_path_spec key task recalled p w2) as Hfp. destruct (fast_path _ _ _ _ _ w2) as [r w3].
    destruct Hfp as [Hg Hr]. split; [by etrans|]. destruct r; [by eapply told_before|done]. }
  unfold mbind at 1. unfold M_bind at 1. destruct (fast w2) as [[r|gone] w3]; destruct Hf as [G3 Hr]; [by right|]. clear fast G.
  unfold mbind at 1. unfold M_bind at 1. pose proof (startTask_grows task w3) as G4. destruct (startTask task w3) as [started w4]. cbn [snd] in G4.
  destruct (negb started); [by left|]. unfold mbind at 1. unfold M_bind at 1. pose proof (flush_grows task w4) as G5. destruct (flushHeld cfg task w4) as [u5 w5]. cbn [snd] in G5.
  pose proof (open_started key task (if gone then None else recalled_in task recalled) p w5) as Hs. cbn zeta in Hs.
  match goal with |- match ?t with (_, _) => _ end => destruct t as [r w6] end. destruct Hs as [Hs|Hs]; [|by left|].
  - intros id sid Hid. destruct gone; [done|]. by eapply recalled_in_spec.
  - right. eapply told_before; [|exact Hs]. etrans; [exact G3|]. etrans; [exact G4|exact G5].
Qed.

(** ** Going back to a known session *)

(** The payload was refused by the session [sid], which is gone: the receiver said so, or its
    task's record did when asked next. *)
Definition found_gone (w w' : axWorld) (task sid : string) (p : wire) : Prop :=
  exists before after e, ax_trace w' = ax_trace w ++ before ++ PostInject task sid p :: after /\
    post_inject (ax_trace w ++ before) task sid p = Some e /\
    (sessionGone e = true \/
     exists rest, after = GetTask task :: rest /\ taskGoneIn (get_task (ax_trace w ++ before ++ [PostInject task sid p]) task) = true).

Lemma found_gone_before w0 w w' task sid p : grows w0 w -> found_gone w w' task sid p -> found_gone w0 w' task sid p.
Proof.
  intros [l E] (before & after & e & Ht & He & Hg). exists (l ++ before), after, e. rewrite E in *. rewrite <- !app_assoc in *. done.
Qed.

Lemma found_gone_after w w' w'' task sid p : found_gone w w' task sid p -> grows w' w'' -> found_gone w w'' task sid p.
Proof.
  intros (before & after & e & Ht & He & Hg) [l E]. exists before, (after ++ l), e. split; [by rewrite E, Ht, <- !app_assoc|].
  split; [done|]. destruct Hg as [Hg|(rest & -> & Hg)]; [by left|right]. by exists (rest ++ l).
Qed.

(** Where the sink knows an incident's session from: its table, or else its cluster's store. *)
Definition known_session (w : axWorld) (key : IncidentKey) (id : string) : Prop :=
  let k := IncidentKey_String key in
  ax_remembered w !! k = Some id \/
  ax_remembered w !! k = None /\ ik_Cluster key ∈ ax_stores cfg /\ sink_session (ax_trace w) (ik_Cluster key) k = Some (Some id).

Lemma recall_known w key id : known_session w key id -> (recall cfg key w).1 = Some id.
Proof.
  unfold known_session, recall, gets, mbind, M_bind. cbn zeta. intros [->|(-> & Hc & Hs)]; [done|].
  rewrite bool_decide_eq_true_2 by done. unfold act, mbind, M_bind. cbn. by rewrite Hs.
Qed.

Lemma settled_quiet key task id : keeps quiet (settled cfg key task id).
Proof.
  unfold settled, remember. repeat (apply keeps_bind; [apply _| |intros _]); try (intros w; by apply trace_quiet).
  apply keeps_when; [apply _|]. intros w. by apply act_quiet.
Qed.

(** The answer of the session is final unless the session is gone. *)
Lemma reopen_returns key task id sid err w :
  let '(r, w') := reopen cfg key task id sid err w in quiet w w' /\
  match r with Some r => r.1 = id | None => exists e, err = Some e /\ sessionGone e = true end.
Proof.
  unfold reopen. destruct err as [e|].
  - destruct (gone_status e) eqn:Eg; [split; [by apply trace_quiet|eauto]|]. unfold owe, modify, mbind, M_bind. cbn. split; [by apply trace_quiet|done].
  - unfold mbind, M_bind. pose proof (settled_quiet key task id w) as Hq. destruct (settled cfg key task id w) as [u w1]. done.
Qed.

Lemma confirm_found task e e' w : let '(err, w') := confirmGone cfg task (Some e) w in
  err = Some e' -> sessionGone e' = true -> sessionGone e = true \/
  exists rest, ax_trace w' = ax_trace w ++ GetTask task :: rest /\ taskGoneIn (get_task (ax_trace w) task) = true.
Proof.
  unfold confirmGone, gone_status. destruct (sessionGone e) eqn:Eg; [by left|]. unfold act, mbind, M_bind. set (w1 := w <| ax_trace ::= _ |>).
  destruct (taskGoneIn _) eqn:Et; cbn [negb]; [|intros [= ->] ?; congruence]. destruct (dropHeldIn_spec cfg task w1) as [Ed _].
  destruct (dropHeldIn cfg task w1) as [u w2]. cbn in *. intros _ _. right. exists []. by rewrite Ed.
Qed.

(** Appending to a known session: it answered, or it is gone. *)
Lemma append_returns key task id sid p w (confirm : bool) : sid <> "" ->
  let m := err ← inj_Append task sid p; err ← (if confirm then confirmGone cfg task err else mret err); reopen cfg key task id sid err in
  let '(r, w') := m w in match r with Some r => r.1 = id /\ quiet w w' | None => found_gone w w' task sid p end.
Proof.
  intros Hs. cbn zeta. unfold mbind at 1, M_bind at 1. pose proof (inj_Append_quiet task sid p w) as Q1.
  unfold inj_Append in *. rewrite bool_decide_eq_false_2 in * by done. unfold act in *. cbn [snd] in Q1.
  set (w1 := w <| ax_trace ::= (fun l => l ++ [PostInject task sid p]) |>) in *. set (err := post_inject _ _ _ _) in *.
  assert (ax_trace w1 = ax_trace w ++ [PostInject task sid p]) as E1 by done.
  unfold mbind at 1, M_bind at 1. set (m2 := if confirm then _ else _).
  assert (quiet w1 (m2 w1).2 /\ forall e', (m2 w1).1 = Some e' -> sessionGone e' = true -> exists e, err = Some e /\
    (sessionGone e = true \/ exists rest, ax_trace (m2 w1).2 = ax_trace w1 ++ GetTask task :: rest /\ taskGoneIn (get_task (ax_trace w1) task) = true)) as [Q2 H2].
  { unfold m2. destruct confirm; [|split; [by apply trace_quiet|cbn; eauto]]. split; [apply confirm_quiet|]. destruct err as [e|]; [|done]. intros e' E' G'.
    exists e. split; [done|]. pose proof (confirm_found task e e' w1) as Hc. destruct (confirmGone cfg task (Some e) w1) as [x w2]. by apply Hc. }
  destruct (m2 w1) as [err2 w2]. cbn [fst snd] in *. clear m2. pose proof (reopen_returns key task id sid err2 w2) as Hr.
  destruct (reopen cfg key task id sid err2 w2) as [r w3]. destruct Hr as [Q3 Hr].
  destruct r as [r|]; [split; [done|]; etrans; [exact Q1|]; by etrans|]. destruct Hr as (e' & -> & G').
  destruct (H2 e' eq_refl G') as (e & Ee & Hg). destruct Q3 as (l3 & E3 & _). destruct Q2 as (l2 & E2 & _).
  exists [], (l2 ++ l3), e. rewrite E3, E2, E1, !app_nil_r, <- !app_assoc. split; [done|]. split; [exact Ee|].
  destruct Hg as [Hg|(rest & Er & Hg)]; [by left|]. right. rewrite Er in E2. apply app_inv_head in E2. subst l2. exists (rest ++ l3).
  split; [done|]. exact Hg.
Qed.

(** An open of an incident whose session of this task is known goes there. *)
Lemma open_returns key p w id sid : let task := taskFor (ax_scope cfg) key in known_session w key id -> splitID id = (task, sid, true) ->
  let '(r, w') := OpenIncidentKeyed cfg key p w in
  found_gone w w' task sid p \/ ((r.1 = id \/ r.1 = "") /\ quiet w w').
Proof.
  cbn zeta. intros Hk Hid. unfold OpenIncidentKeyed. set (task := taskFor _ _) in *. pose proof (splitID_ok _ _ _ Hid) as (_ & Hs & _).
  assert (recalled_in task (Some id) = Some (id, sid)) as Hrec by (unfold recalled_in; rewrite Hid; by rewrite bool_decide_eq_true_2).
  unfold mbind at 1. unfold M_bind at 1. destruct (injectorFor task w) as [u w1] eqn:E1.
  assert (quiet w w1 /\ known_session w1 key id) as [Q1 Hk1] by (unfold injectorFor in E1; injection E1 as _ <-; split; [by apply trace_quiet|done]).
  unfold mbind at 1. unfold M_bind at 1. pose proof (recall_quiet key w1) as Q2. pose proof (recall_known w1 key id Hk1) as Ek.
  destruct (recall cfg key w1) as [recalled w2]. cbn [fst snd] in *. subst recalled. assert (quiet w w2) as Q by (by etrans). clear Q1 Q2 E1 Hk1.
  unfold mbind at 1. unfold M_bind at 1. unfold isTaskKnownAwake, gets. set (fast := if recently_real cfg w2 task then _ else _).
  assert (let '(r, w3) := fast w2 in match r with inl r => found_gone w w3 task sid p \/ (r.1 = id /\ quiet w w3)
    | inr true => found_gone w w3 task sid p | inr false => quiet w w3 end) as Hf.
  { unfold fast. destruct (recently_real cfg w2 task); [|done]. unfold fast_path. rewrite Hrec. unfold mbind at 1. unfold M_bind at 1.
    pose proof (flushHeld_quiet task w2) as Qf. destruct (flushHeld cfg task w2) as [u3 w3]. cbn [snd] in Qf.
    assert (quiet w w3) as Q3 by (by etrans). pose proof (append_returns key task id sid p w3 true Hs) as Ha. unfold mbind, M_bind in *. cbn zeta in Ha.
    destruct (inj_Append task sid p w3) as [e4 w4]. destruct (confirmGone cfg task e4 w4) as [e5 w5]. destruct (reopen cfg key task id sid e5 w5) as [r w6].
    destruct r as [r|]; [right; destruct Ha; split; [done|by etrans]|]. cbn.
    eapply found_gone_before; [destruct Q3 as (l & E & _); by exists l|]. eapply found_gone_after; [exact Ha|by apply trace_grows]. }
  unfold mbind at 1. unfold M_bind at 1. destruct (fast w2) as [[r|gone] w3]; [cbn; destruct Hf as [|[? ?]]; auto|]. clear fast.
  unfold mbind at 1. unfold M_bind at 1. pose proof (startTask_quiet task w3) as Q4. destruct (startTask task w3) as [started w4]. cbn [snd] in Q4.
  assert (forall w5, found_gone w w5 task sid p -> let '(r, w') := ('(r, err) ← open_new cfg key task p; mret (default ("", err) r)) w5 in
    found_gone w w' task sid p) as Hnew.
  { intros w5 Hg. unfold mbind, M_bind. pose proof (open_new_spec key task p w5) as Ho. destruct (open_new cfg key task p w5) as [[r err] w6].
    destruct Ho as [Ho _]. by eapply found_gone_after. }
  destruct (negb started); [destruct gone; [left; eapply found_gone_after; [exact Hf|]; destruct Q4 as (l & E & _); by exists l|right; split; [by right|by etrans]]|].
  unfold mbind at 1. unfold M_bind at 1. pose proof (flushHeld_quiet task w4) as Q5. destruct (flushHeld cfg task w4) as [u5 w5]. cbn [snd] in Q5.
  assert (quiet w3 w5) as Q35 by (by etrans). destruct gone.
  - specialize (Hnew w5). unfold mbind, M_bind in Hnew |- *. cbn. destruct (open_new cfg key task p w5) as [[r err] w6]. left. apply Hnew.
    eapply found_gone_after; [exact Hf|]. destruct Q35 as (l & E & _). by exists l.
  - assert (quiet w w5) as Q05 by (by etrans). rewrite Hrec. pose proof (append_returns key task id sid p w5 false Hs) as Ha. unfold mbind, M_bind in Ha, Hnew |- *. cbn zeta in Ha.
    destruct (inj_Append task sid p w5) as [e6 w6]. cbn in Ha. destruct (reopen cfg key task id sid e6 w6) as [r w7]. destruct r as [r|].
    + destruct Ha as [Ea Qa]. right. split; [by left|by etrans].
    + assert (found_gone w w7 task sid p) as Hg by (eapply found_gone_before; [|exact Ha]; destruct Q05 as (l & E & _); by exists l).
      specialize (Hnew w7 Hg). destruct (open_new cfg key task p w7) as [[r err] w8]. by left.
Qed.


End opening.

