(* ===== verification/AxDispatch.v ===== *)
(** The dispatcher over the Agent Executor sink: the sink keeps the promise the dispatcher
    relies on, so what is proved of the dispatcher holds of the two together; and a task
    that sleeps while its incident goes on. *)
From S2P Require Import Prelude GoTime GoStrings GoFmt GoHash Signal Repeat Dedup Effects Wire Routing Watchboard Payloads Dispatch DispatchSpec AxNames AxSink AxSinkSpec.
From Stdlib Require Import Ascii.
Open Scope Z_scope.
Open Scope lookout_scope.

(** Every result satisfies [Q]. *)
Definition answers {W A} (Q : A -> Prop) (m : M W A) : Prop := forall w, Q (m w).1.

Lemma answers_bind {W A B} (Q : B -> Prop) (m : M W A) (f : A -> M W B) : (forall x, answers Q (f x)) -> answers Q (m ≫= f).
Proof. intros Hf w. unfold mbind, M_bind. destruct (m w) as [x w']. apply Hf. Qed.

Lemma answers_ret {W A} (Q : A -> Prop) (x : A) : Q x -> answers (W := W) Q (mret x).
Proof. by intros Hx w. Qed.

(** A session the sink says it created is named. *)
Definition named_if_ok (r : string * option sink_error) : Prop := r.2 = None -> r.1 <> "".

Lemma created_named `{RangeOrder} `{UnicodeCase} `{Executor} cfg key : answers named_if_ok (CreateSessionKeyed cfg key).
Proof.
  assert (forall s, named_if_ok (taskFor (ax_scope cfg) key +:+ "/" +:+ s, None)) as Hne.
  { intros s _ E. pose proof (taskFor_nonempty (ax_scope cfg) key) as Ht. cbn in E. by destruct (taskFor _ _). }
  unfold CreateSessionKeyed. repeat (apply answers_bind; intros ?). case_match; [by apply answers_ret|].
  apply answers_bind; intros started. destruct (negb started); [by apply answers_ret|]. do 2 (apply answers_bind; intros ?). case_match; [|by apply answers_ret].
  apply answers_bind; intros _. by apply answers_ret.
Qed.

Section composed.
Context `{RangeOrder} `{UnicodeCase} `{JSON} `{Masking} `{Executor} (cfg : axConfig).
#[local] Existing Instance ax_sink.

Lemma ax_names h key sid : CreateSession (Sink := ax_sink cfg) h key = (sid, None) -> sid <> "".
Proof.
  cbn. destruct key as [key|]; intros E.
  - pose proof (created_named cfg key (ax_after cfg h)) as Hn. rewrite E in Hn. by apply Hn.
  - pose proof (created_named cfg (mkIncidentKey "" IncidentKeyWatchboard "") (ax_after cfg h)) as Hn. unfold ax_CreateSession in E. rewrite E in Hn. by apply Hn.
Qed.
End composed.

(** The dispatcher and the sink together: over any run, from a sink that has just started,
    every append names a session, and the sink the calls leave behind is within its
    bounds, with its reminders accounted for. *)
Theorem dispatcher_over_executor `{RangeOrder} `{UnicodeCase} `{JSON} `{Masking} `{Executor} cfg (d : dispatcher) (l : list event) (w : world)
    (Htarget : d_mode d <> PerIncident -> d_targetSid d <> "") (Hboard : wb_dryRun (d_board d) = d_dryRun d) (Hfresh : w_calls w = []) :
  let calls := w_calls (run (H3 := ax_sink cfg) d l w).2 in
  (forall sid p, CallAppend sid p ∈ calls -> sid <> "") /\ within cfg (ax_after cfg calls) /\
  forall c, c ∈ ax_counters cfg -> balance c (ax_after cfg calls) = 0.
Proof.
  cbn zeta. set (calls := w_calls _). assert (forall sid p, CallAppend sid p ∈ calls -> sid <> "") as Hsid.
  { pose proof (run_calls (H3 := ax_sink cfg) d (fun c => match c with CallAppend sid _ => sid <> "" | _ => True end) l) as Hk.
    destruct (Hk ltac:(done) ltac:(done) ltac:(done) ltac:(intros _; apply ax_names) ltac:(intros; by apply Htarget) Hboard w) as (cs & Hc & HP).
    intros sid p Hin. unfold calls in Hin. rewrite Hc, Hfresh in Hin. eapply list.Forall_forall in HP; [|exact Hin]. exact HP. }
  split; [exact Hsid|]. split; [apply stays_all, newSink_within|]. intros c Hc. by apply (balance_all cfg c calls Hc newSink).
Qed.

(** ** A task that sleeps *)

Module Sleeping.

(** Each call takes a minute; the task is up until the first five, then it is suspended. *)
#[local] Instance sleepy : Executor := {|
  clock t := Hour + Z.of_nat (length t) * Minute;
  create_task _ _ := true;
  get_task t _ := GotTask (if (length t <? 5)%nat then "Running" else phaseSuspended) [];
  resume_task _ _ := true;
  wait_ready _ _ := true;
  post_session t _ := Some ("s" +:+ itoa (Z.of_nat (length t)));
  post_inject _ _ _ _ := None;
  sink_session _ _ _ := Some None
|}.

#[local] Instance ranged : RangeOrder := plain_range.
#[local] Instance cased : UnicodeCase := demo_case.
#[local] Instance masked : Masking := plain_masking.

Definition config : axConfig := mkAxConfig ScopeIncident (10 * Minute) ∅ {["prod"]}.
Definition key : IncidentKey := mkIncidentKey "prod" IncidentKeyIncident "u1/CrashLoopBackOff".
Definition task : string := Eval vm_compute in taskFor ScopeIncident key.
Definition session : string := task +:+ "/s3".

(** The incident, and the n-th reminder of it. *)
Definition signal : Signal := (pod_event "u1" "CrashLoopBackOff" "back-off" Hour) <| sig_Cluster := "prod" |>.
Definition incident : wire := WPayload (incidentPayload signal (mkDedupResult DedupNewIncident "" 1 "" 0 "" false false)).
Definition again (n : Z) : wire := WPayload (repeatPayload signal (mkDedupResult DedupDuplicate session 1 "" n "" false false)).

Definition opened : list call := [CallOpen (Some key) incident].
Definition reminded : list call := opened ++ [CallAppend session (again 1); CallAppend session (again 2)].

(** The task was created, resumed and waited for; the session is its fourth call. *)
Example opened_trace : ax_trace (ax_after config opened) =
  [CreateTask task; ResumeTask task; WaitReady task; PostSession task; PostInject task "s3" incident].
Proof. vm_compute. reflexivity. Qed.

(** Two reminders were held, the first superseded by the second. *)
Lemma reminders_are_accounted_for_witness :
  let w := ax_after config reminded in
  "prod" ∈ ax_counters config /\ n_counted "prod" ReminderHeld w = 2 /\ n_counted "prod" ReminderSuperseded w = 1 /\ of_cluster "prod" (held_reminders w) = 1 /\ within config w.
Proof.
  destruct (reminders_are_accounted_for config reminded) as [Hw Hb]. assert ("prod" ∈ ax_counters config) as Hin by (vm_compute; done). specialize (Hb "prod" Hin).
  split; [exact Hin|]. split; [vm_compute; reflexivity|]. split; [vm_compute; reflexivity|]. split; [vm_compute; reflexivity|]. exact Hw.
Defined.

Lemma reminder_never_wakes_witness :
  ax_trace (ax_Append config session (again 1) (ax_after config opened)).2 = ax_trace (ax_after config opened) ++ [GetTask task].
Proof.
  pose proof (reminder_never_wakes config (ax_after config opened) session task "s3" (again 1) "prod") as Hr.
  destruct (ax_Append config session (again 1) (ax_after config opened)) as [err w'].
  apply Hr; [vm_compute; reflexivity|vm_compute; reflexivity|vm_compute; reflexivity|]. right. exists []. vm_compute. reflexivity.
Defined.

(** The reminder that was held goes ahead of the incident's next payload. *)
Lemma real_payload_follows_reminders_witness :
  (exists due asked, due ≡ₚ due_in task (now_of (ax_after config reminded)) (ax_after config reminded) /\
     ax_trace (ax_Append config session incident (ax_after config reminded)).2 =
       (ax_trace (ax_after config reminded) ++ (delivery task <$> due)) ++ PostInject task "s3" incident :: asked) /\
  drop 7 (ax_trace (ax_Append config session incident (ax_after config reminded)).2) = [PostInject task "s3" (again 2); PostInject task "s3" incident].
Proof.
  split; [|vm_compute; reflexivity]. pose proof (real_payload_follows_reminders config (ax_after config reminded) session task "s3" incident) as Hr.
  destruct (ax_Append config session incident (ax_after config reminded)) as [err w'].
  destruct Hr as (due & asked & Hdue & _ & Ht & _); [apply stays_all, newSink_within|vm_compute; reflexivity|vm_compute; reflexivity|].
  exact (ex_intro _ due (ex_intro _ asked (conj Hdue Ht))).
Defined.

End Sleeping.
