(* ===== verification/CronSched.v ===== *)
(** Cron schedules (src/pkg/cronsched/cronsched.go): a CronJob's schedule as the
    sequence of its activations, how many of them a stretch of time holds, and when
    one is overdue.

    The parser and the search for the next activation are the library robfig/cron: the
    class [CronLib]. What the package relies on is [later] and [finds_first], the
    documented behaviour of a schedule's [Next]. *)
From stdpp Require Import sorting.
From S2P Require Import Prelude GoTime GoStrings.
From Stdlib Require Import Ascii.

(** [cron.ParseStandard] and the [Next] of the schedule it returns. *)
Class CronLib := {
  cron_Schedule : Type;
  ParseStandard : string -> option cron_Schedule;
  cron_Next : cron_Schedule -> Time -> Time
}.

Section Schedules.
Context `{CronLib}.

(** [inner] is nil in the zero value. *)
Record Schedule := mkSchedule { sc_inner : option cron_Schedule; sc_spec : string }.

Definition hasZonePrefix (schedule : string) : bool :=
  Nat.leb 3 (String.length schedule) &&
  ((String.substring 0 3 schedule ==s "TZ=") ||
   (Nat.leb 8 (String.length schedule) && (String.substring 0 8 schedule ==s "CRON_TZ="))).

(** The string handed to the parser. *)
Definition parsed_spec (schedule timeZone : string) : string :=
  if timeZone <>s "" then "CRON_TZ=" +:+ timeZone +:+ " " +:+ schedule
  else if (schedule <>s "") && negb (hasZonePrefix schedule) then "CRON_TZ=UTC " +:+ schedule
  else schedule.

Definition Parse (schedule timeZone : string) : option Schedule :=
  let spec := parsed_spec schedule timeZone in
  match ParseStandard spec with
  | None => None
  | Some inner => Some (mkSchedule (Some inner) (if timeZone <>s "" then spec else schedule))
  end.

Definition Next (s : Schedule) (t : Time) : Time :=
  match sc_inner s with
  | None => zero_time
  | Some inner => cron_Next inner t
  end.

Definition maxWalk : nat := 10000.

(** The loop of [MissedSince]: [fuel] is what [n] lacks to [maxWalk]. *)
Fixpoint walk_activations (s : Schedule) (now : Time) (fuel : nat) (t : Time) (n : Z) : Z * bool :=
  match fuel with
  | O => (n, true)
  | S fuel =>
      let t := Next s t in
      if IsZero t || After t now then (n, false) else walk_activations s now fuel t (n + 1)
  end.

Definition MissedSince (s : Schedule) (anchor now : Time) : Z * bool :=
  if bool_decide (sc_inner s = None) || IsZero anchor || negb (Before anchor now) then (0, false)
  else walk_activations s now maxWalk anchor 0.

Definition Overdue (s : Schedule) (anchor now : Time) (grace : Duration) : Time * bool :=
  if bool_decide (sc_inner s = None) || IsZero anchor then (zero_time, false)
  else
    let expected := Next s anchor in
    if IsZero expected then (zero_time, false)
    else (expected, negb (Before now (Add expected grace))).

(** ** What a schedule's [Next] promises

    [Next] answers with the first activation after the given time, or with the zero
    time when it finds none in the five years it searches. The descriptor [@every],
    whose activations count from the time asked about, has only the first half,
    [later]. *)

Definition cron_horizon : Duration := 5 * 365 * 24 * Hour.

Definition activation (s : Schedule) (a : Time) : Prop := a <> zero_time /\ Next s (a - 1) = a.

Definition later (s : Schedule) : Prop := forall t, 0 <= t -> Next s t = zero_time \/ t < Next s t.

Record finds_first (s : Schedule) : Prop := {
  first_later : later s;
  first_skips_none : forall t u, 0 <= t <= u -> u < Next s t -> Next s u = Next s t;
  first_searched : forall t a, 0 <= t -> Next s t = zero_time -> t < a <= t + cron_horizon -> ~ activation s a
}.

Lemma next_is_activation s t : finds_first s -> 0 <= t -> Next s t <> zero_time -> activation s (Next s t).
Proof.
  intros F Ht Hz. destruct (first_later s F t Ht) as [?|Hlt]; [done|]. split; [done|].
  apply (first_skips_none s F); lia.
Qed.

Lemma activation_bounds_next s t a :
  finds_first s -> 0 <= t -> Next s t <> zero_time -> t < a -> activation s a -> Next s t <= a.
Proof.
  intros F Ht Hz Hlt [_ Ha]. destruct (decide (a < Next s t)) as [Hin|]; [exfalso|lia].
  rewrite (first_skips_none s F t (a - 1)) in Ha; lia.
Qed.

(** The activations the walk counts. *)
Lemma walk_counts s now fuel t n :
  finds_first s -> 0 <= t -> now <= t + cron_horizon ->
  exists l, (walk_activations s now fuel t n).1 = n + Z.of_nat (length l) /\
    StronglySorted Z.lt l /\ Forall (fun a => t < a <= now /\ activation s a) l /\
    if (walk_activations s now fuel t n).2 then length l = fuel
    else forall a, t < a <= now -> activation s a -> a ∈ l.
Proof.
  intros F. revert t n. induction fuel as [|fuel IH]; intros t n Ht Hh; simpl.
  { exists []. split_and!; [cbn; lia|apply SSorted_nil|apply Forall_nil_2|done]. }
  destruct (IsZero (Next s t)) eqn:Ez; simpl.
  { apply Z.eqb_eq in Ez. exists []. split_and!; [cbn; lia|apply SSorted_nil|apply Forall_nil_2|].
    intros a Ha Hact. destruct (first_searched s F t a); [done|done|lia|done]. }
  apply Z.eqb_neq in Ez. destruct (first_later s F t Ht) as [?|Hlt]; [done|].
  destruct (After (Next s t) now) eqn:Ea; simpl.
  { apply Z.ltb_lt in Ea. exists []. split_and!; [cbn; lia|apply SSorted_nil|apply Forall_nil_2|].
    intros a Ha Hact. pose proof (activation_bounds_next s t a F Ht Ez ltac:(lia) Hact). lia. }
  apply Z.ltb_ge in Ea. destruct (IH (Next s t) (n + 1)) as (l & En & Hs & Hl & Hc); [lia|lia|].
  exists (Next s t :: l). split_and!.
  - rewrite En. cbn [length]. lia.
  - constructor; [done|]. refine (list.Forall_impl _ _ _ Hl _). simpl. intros a Ha. lia.
  - constructor; [split; [lia|by apply next_is_activation]|].
    refine (list.Forall_impl _ _ _ Hl _). simpl. intros a [Ha ?]. split; [lia|done].
  - destruct (walk_activations s now fuel (Next s t) (n + 1)).2; [simpl; lia|].
    intros a Ha Hact. apply list_elem_of_In. destruct (decide (a = Next s t)) as [->|Hne]; [by left|].
    right. apply list_elem_of_In, Hc; [|done].
    pose proof (activation_bounds_next s t a F Ht Ez ltac:(lia) Hact). lia.
Qed.

(** Among the activations of a stretch of time, the first is the one [Overdue] names. *)
Lemma overdue_spec s anchor now grace :
  sc_inner s <> None -> later s -> 0 < anchor -> 0 <= grace ->
  let '(expected, overdue) := Overdue s anchor now grace in
  expected = Next s anchor /\
  (overdue = true <-> Next s anchor <> zero_time /\ anchor < Next s anchor /\ Next s anchor + grace <= now).
Proof.
  intros Hi L Ha Hg. unfold Overdue. rewrite bool_decide_eq_false_2 by done.
  assert (IsZero anchor = false) as -> by (apply Z.eqb_neq; unfold zero_time; lia). cbn [orb].
  destruct (IsZero (Next s anchor)) eqn:Ez; cbv zeta iota beta.
  - apply Z.eqb_eq in Ez. rewrite Ez. split; [done|]. split; [done|]. by intros [? _].
  - apply Z.eqb_neq in Ez. split; [done|]. destruct (L anchor ltac:(lia)) as [?|Hl]; [done|].
    rewrite negb_true_iff. unfold Before, Add. rewrite Z.ltb_ge. tauto.
Qed.

(** C35: [MissedSince] answers the question it is asked, how many activations fell in
    [(anchor, now]]: the walk's count is exact when it is not capped and a floor of ten
    thousand when it is, and the walk always ends. The stretch is no longer than the
    search of the next activation reaches. *)
Theorem missed_since_counts (s : Schedule) (anchor now : Time)
    (Hs : sc_inner s <> None) (F : finds_first s)
    (Ha : 0 < anchor) (Hn : now <= anchor + cron_horizon) :
  let '(n, capped) := MissedSince s anchor now in
  exists l : list Time,
    n = Z.of_nat (length l) /\ StronglySorted Z.lt l /\
    Forall (fun a => anchor < a <= now /\ activation s a) l /\
    (capped = false -> forall a, anchor < a <= now -> activation s a -> a ∈ l) /\
    (capped = true -> length l = maxWalk).
Proof.
  unfold MissedSince. rewrite bool_decide_eq_false_2 by done.
  assert (IsZero anchor = false) as -> by (apply Z.eqb_neq; unfold zero_time; lia). cbn [orb].
  destruct (Before anchor now) eqn:Eb; cbn [negb].
  - destruct (walk_counts s now maxWalk anchor 0 F ltac:(lia) Hn) as (l & En & Hl & Hf & Hc).
    destruct (walk_activations s now maxWalk anchor 0) as [n capped]. simpl in *. exists l.
    split_and!; [lia|done|done|by intros ->|by intros ->].
  - apply Z.ltb_ge in Eb. exists []. split_and!; [done|apply SSorted_nil|apply Forall_nil_2| |done].
    intros _ a Ha'. lia.
Qed.

(** [Spec] is documented as the string handed to the parser; of a CronJob without a
    time zone the parser is handed [CRON_TZ=UTC] in front of it. *)
Theorem spec_is_not_what_was_parsed (schedule : string) (s : Schedule) :
  schedule <> "" -> hasZonePrefix schedule = false -> Parse schedule "" = Some s ->
  sc_spec s = schedule /\ parsed_spec schedule "" = "CRON_TZ=UTC " +:+ schedule.
Proof.
  intros Hs Hp. unfold Parse, parsed_spec. rewrite Hp, !bool_decide_eq_true_2 by done.
  rewrite bool_decide_eq_false_2 by done. cbn [negb andb]. destruct (ParseStandard _); [|done].
  intros [= <-]. done.
Qed.
End Schedules.

(** A schedule of every ten minutes, for the witnesses. *)
Module EveryTenMinutes.
Definition period : Duration := 10 * Minute.

#[local] Instance lib : CronLib :=
  {| cron_Schedule := Duration;
     ParseStandard := fun s => if s ==s "CRON_TZ=UTC */10 * * * *" then Some period else None;
     cron_Next := fun p t => (t / p + 1) * p |}.

Definition every_period (spec : string) : Schedule := mkSchedule (Some period) spec.
Definition tens : Schedule := every_period "*/10 * * * *".

Lemma tens_parsed : Parse "*/10 * * * *" "" = Some tens.
Proof. vm_compute. reflexivity. Qed.

Lemma every_period_first spec : finds_first (every_period spec).
Proof.
  set (tens := every_period spec).
  assert (forall t, Next tens t = (t / period + 1) * period) as En by done.
  assert (0 < period) as Hp by (unfold period; done).
  assert (forall t, 0 <= t -> t < Next tens t) as Hl.
  { intros t Ht. rewrite En. pose proof (Z.mod_pos_bound t period Hp). pose proof (Z.div_mod t period). nia. }
  split.
  - intros t Ht. right. by apply Hl.
  - intros t u Htu. rewrite !En. intros Hu. f_equal. f_equal. symmetry.
    apply (Z.div_unique_pos u period (t / period) (u - period * (t / period))); [|lia].
    pose proof (Z.mul_div_le t period Hp). nia.
  - intros t a Ht Hz. exfalso. specialize (Hl t Ht). unfold zero_time in Hz. lia.
Qed.

Lemma missed_since_counts_witness :
  MissedSince tens (Hour + 1) (2 * Hour) = (6, false) /\
  let '(n, capped) := MissedSince tens (Hour + 1) (2 * Hour) in
  exists l : list Time,
    n = Z.of_nat (length l) /\ StronglySorted Z.lt l /\
    Forall (fun a => Hour + 1 < a <= 2 * Hour /\ activation tens a) l /\
    (capped = false -> forall a, Hour + 1 < a <= 2 * Hour -> activation tens a -> a ∈ l) /\
    (capped = true -> length l = maxWalk).
Proof.
  split; [vm_compute; reflexivity|].
  apply (missed_since_counts tens (Hour + 1) (2 * Hour)); [done|apply every_period_first|done|done].
Defined.
End EveryTenMinutes.
