(* ===== verification/Workload.v ===== *)
(** The workload source (src/pkg/sources/workload/workload.go): the Jobs and CronJobs it
    mirrors, the failures and missed runs it signals, and when it calls one cleared.

    An operation takes the source's state and returns the next one with the signals handed to
    the pipeline; the entries of the four maps are reached through the maps only, so a map
    update stands for a write through the pointer. An operation runs under the source's lock
    and the clock is an argument. Informers, log lines and the goroutine behind the emitter are
    left out. *)
From S2P Require Import Prelude GoTime GoStrings GoFmt GoTimeFmt GoQuote GoHash Signal Recovery CronSched.
From Stdlib Require Import Ascii.
Open Scope Z_scope.
Open Scope lookout_scope.

Definition KindJobFailed := "workload.job_failed".
Definition KindCronMissed := "workload.cron_missed".
Definition ReasonJobFailed := "job_failed".
Definition ReasonCronMissed := "cron_missed".
Definition CriticalMisses : Z := 3.

(** ** The objects the informers deliver *)

Record JobCondition := mkJobCondition { jc_Type : string; jc_Status : string; jc_Reason : string }.
Record JobOwner := mkJobOwner { or_UID : string; or_Kind : string; or_Name : string; or_Controller : option bool }.

Record Job := mkJob {
  job_UID : string;
  job_Namespace : string;
  job_Name : string;
  job_OwnerReferences : list JobOwner;
  job_Conditions : list JobCondition;
  job_Failed : Z;
  job_Succeeded : Z
}.

Record CronJob := mkCronJob {
  cj_UID : string;
  cj_Namespace : string;
  cj_Name : string;
  cj_Schedule : string;
  cj_TimeZone : option string;
  cj_Suspend : option bool;
  cj_LastScheduleTime : option Time;
  cj_Creation : Time
}.

Definition JobFailed := "Failed".
Definition JobComplete := "Complete".
Definition ConditionTrue := "True".

(** ** State *)

Record Config := mkConfig { Grace : Duration; TickInterval : Duration }.

Definition DefaultConfig : Config := mkConfig (5 * Minute) (30 * Second).

Definition normalize_config (c : Config) : Config :=
  let c := if Grace c <=? 0 then c <| Grace := Grace DefaultConfig |> else c in
  if TickInterval c <=? 0 then c <| TickInterval := TickInterval DefaultConfig |> else c.

Record jobEntry := mkJobEntry {
  je_namespace : string;
  je_name : string;
  je_ownerCron : string;
  je_ownerName : string;
  je_failed : bool;
  je_complete : bool;
  je_fired : bool;
  je_failedObservedAt : Time
}.

Record cronEntry := mkCronEntry {
  ce_namespace : string;
  ce_name : string;
  ce_schedule : string;
  ce_timeZone : string;
  ce_suspend : bool;
  ce_lastSchedule : Time;
  ce_creation : Time
}.

Record cronTrack := mkCronTrack {
  ct_consecutive : Z;
  ct_lastMissed : Time;
  ct_runObservedAt : Time;
  ct_suspendedAt : Time;
  ct_prevSuspend : bool;
  ct_prevLastSchedule : Time;
  ct_parseWarned : string
}.

Definition zero_job : jobEntry := mkJobEntry "" "" "" "" false false false zero_time.
Definition zero_track : cronTrack := mkCronTrack 0 zero_time zero_time zero_time false zero_time "".

(** [src_successes] keeps the [observedAt] of a [cronSuccess]; [src_emit] says whether [Run]
    has set the emitter. *)
Record Source := mkSource {
  src_cfg : Config;
  src_armed : bool;
  src_armedAt : Time;
  src_emit : bool;
  src_jobs : gmap string jobEntry;
  src_crons : gmap string cronEntry;
  src_tracks : gmap string cronTrack;
  src_successes : gmap string Time
}.

Definition NewWorkload (cfg : Config) : Source := mkSource (normalize_config cfg) false zero_time false ∅ ∅ ∅ ∅.

(** The two writes of [Run] to the state: the emitter, before the handlers are registered, and
    the arming, after both caches have synced. *)
Definition start (s : Source) : Source := s <| src_emit := true |>.
Definition arm_source (now : Time) (s : Source) : Source := s <| src_armed := true |> <| src_armedAt := now |>.

Definition send_signals (s : Source) (sigs : list Signal) : list Signal := if src_emit s then sigs else [].

(** ** Jobs *)

Definition jobCondition (j : Job) (t : string) : string * bool :=
  match List.find (fun c => jc_Type c ==s t) (job_Conditions j) with
  | Some c => (jc_Reason c, jc_Status c ==s ConditionTrue)
  | None => ("", false)
  end.

Definition controls_cron (ref : JobOwner) : bool :=
  match or_Controller ref with Some true => or_Kind ref ==s "CronJob" | _ => false end.

Definition controllingCron (j : Job) : string * string :=
  match List.find controls_cron (job_OwnerReferences j) with
  | Some ref => (or_UID ref, or_Name ref)
  | None => ("", "")
  end.

Definition newJobFailed (j : Job) (reason ownerName : string) (ts : Time) : Signal :=
  let reason := if reason ==s "" then "JobFailed" else reason in
  let msg := "Job failed: " +:+ reason +:+ " (failed=" +:+ itoa (job_Failed j) +:+ " succeeded=" +:+ itoa (job_Succeeded j) +:+ ")" in
  let msg := msg +:+ (if ownerName <>s ""
    then " — run of CronJob " +:+ ownerName +:+ "; its next successful run clears this incident (§7.4)"
    else " — standalone Job: a Failed condition is terminal, the incident clears only when the Job is deleted") in
  zero_signal
    <| sig_Kind := KindJobFailed |> <| sig_Source := SourceSentinel |> <| sig_Severity := SeverityWarning |>
    <| sig_Event := zero_event
         <| te_Key := mkEventKey (job_UID j) ReasonJobFailed |> <| te_Namespace := job_Namespace j |>
         <| te_KindOfObject := "Job" |> <| te_Name := job_Name j |> <| te_Message := msg |>
         <| te_FirstSeen := ts |> <| te_LastSeen := ts |> <| te_Count := 1 |> |>.

Definition onJob (now : Time) (j : Job) (s : Source) : Source * list Signal :=
  let '(failedReason, failed) := jobCondition j JobFailed in
  let '(_, complete) := jobCondition j JobComplete in
  let '(ownerUID, ownerName) := controllingCron j in
  let e := default zero_job (src_jobs s !! job_UID j) in
  let wasFailed := je_failed e in
  let wasComplete := je_complete e in
  let e := e <| je_namespace := job_Namespace j |> <| je_name := job_Name j |>
             <| je_ownerCron := ownerUID |> <| je_ownerName := ownerName |>
             <| je_failed := failed |> <| je_complete := complete |> in
  let armed := src_armed s in
  let '(e, sigs) :=
    if armed && failed && negb wasFailed && negb (je_fired e)
    then (e <| je_fired := true |> <| je_failedObservedAt := now |>, [newJobFailed j failedReason ownerName now])
    else (e, []) in
  let s := s <| src_jobs := <[job_UID j := e]> (src_jobs s) |> in
  let s :=
    if armed && complete && negb wasComplete && (ownerUID <>s "")
    then s <| src_successes := <[ownerUID := now]> (src_successes s) |> else s in
  (s, send_signals s sigs).

Definition onJobDelete (j : Job) (s : Source) : Source := s <| src_jobs := delete (job_UID j) (src_jobs s) |>.

(** ** CronJobs *)

(** [trackFor]; the track it creates is written back by its callers. *)
Definition trackFor (uid : string) (s : Source) : cronTrack := default zero_track (src_tracks s !! uid).

Definition cron_mirror (c : CronJob) : cronEntry :=
  mkCronEntry (cj_Namespace c) (cj_Name c) (cj_Schedule c) (default "" (cj_TimeZone c))
    (default false (cj_Suspend c)) (default zero_time (cj_LastScheduleTime c)) (cj_Creation c).

(** The track after an update of the mirror to [e]; [known]: it was mirrored before. *)
Definition track_update (armed known : bool) (now : Time) (e : cronEntry) (tr : cronTrack) : cronTrack :=
  let tr := if ce_suspend e && negb (ct_prevSuspend tr) then tr <| ct_suspendedAt := now |> else tr in
  let tr := tr <| ct_prevSuspend := ce_suspend e |> in
  let tr :=
    if armed && known && After (ce_lastSchedule e) (ct_prevLastSchedule tr) && IsZero (ct_runObservedAt tr)
    then tr <| ct_runObservedAt := now |> else tr in
  let tr := tr <| ct_prevLastSchedule := ce_lastSchedule e |> in
  if negb (IsZero (ct_lastMissed tr)) && negb (Before (ce_lastSchedule e) (ct_lastMissed tr))
  then tr <| ct_consecutive := 0 |> else tr.

Definition onCronJob (now : Time) (c : CronJob) (s : Source) : Source :=
  let known := bool_decide (is_Some (src_crons s !! cj_UID c)) in
  let e := cron_mirror c in
  let tr := track_update (src_armed s) known now e (trackFor (cj_UID c) s) in
  s <| src_crons := <[cj_UID c := e]> (src_crons s) |> <| src_tracks := <[cj_UID c := tr]> (src_tracks s) |>.

Definition onCronJobDelete (c : CronJob) (s : Source) : Source :=
  s <| src_crons := delete (cj_UID c) (src_crons s) |> <| src_tracks := delete (cj_UID c) (src_tracks s) |>
    <| src_successes := delete (cj_UID c) (src_successes s) |>.

(** ** The sweep *)

Definition specKey (schedule timeZone : string) : string := schedule +:+ String (byte_of 0) timeZone.

Section Sweep.
Context `{CronLib} `{UnicodePrint} `{RangeOrder}.

(** From when on activations are judged. *)
Definition cron_anchor (s : Source) (e : cronEntry) (tr : cronTrack) : Time :=
  let anchor := ce_lastSchedule e in
  let anchor := if After (ce_creation e) anchor then ce_creation e else anchor in
  let anchor := if After (src_armedAt s) anchor then src_armedAt s else anchor in
  if After (ct_lastMissed tr) anchor then ct_lastMissed tr else anchor.

Definition cronMissed (grace : Duration) (uid : string) (e : cronEntry) (consecutive : Z) (expected now : Time) : Signal :=
  let severity := if CriticalMisses <=? consecutive then SeverityCritical else SeverityWarning in
  let msg := "CronJob missed its scheduled run at " +:+ RFC3339_utc expected +:+ " (schedule " +:+ Quote (ce_schedule e) +:+
    "): no job created within the " +:+ Duration_String grace +:+ " grace window" in
  let msg := if 1 <? consecutive then msg +:+ "; consecutive_missed=" +:+ itoa consecutive else msg in
  let msg := msg +:+ (if IsZero (ce_lastSchedule e) then " last_schedule=never"
                      else " last_schedule=" +:+ RFC3339_utc (ce_lastSchedule e)) in
  let msg := msg +:+ " — the schedule is not producing runs (controller wedged, startingDeadlineSeconds starvation, or concurrencyPolicy=Forbid behind a stuck run)" in
  zero_signal
    <| sig_Kind := KindCronMissed |> <| sig_Source := SourceSentinel |> <| sig_Severity := severity |>
    <| sig_Event := zero_event
         <| te_Key := mkEventKey uid ReasonCronMissed |> <| te_Namespace := ce_namespace e |>
         <| te_KindOfObject := "CronJob" |> <| te_Name := ce_name e |> <| te_Message := msg |>
         <| te_FirstSeen := now |> <| te_LastSeen := now |> <| te_Count := 1 |> |>.

Definition evalCron (uid : string) (e : cronEntry) (now : Time) (s : Source) : Source * option Signal :=
  if ce_suspend e then (s, None)
  else
    let tr := trackFor uid s in
    let put tr := s <| src_tracks := <[uid := tr]> (src_tracks s) |> in
    match Parse (ce_schedule e) (ce_timeZone e) with
    | None => (put (tr <| ct_parseWarned := specKey (ce_schedule e) (ce_timeZone e) |>), None)
    | Some sched =>
        let '(expected, overdue) := Overdue sched (cron_anchor s e tr) now (Grace (src_cfg s)) in
        if negb overdue then (put tr, None)
        else if negb (Before (ce_lastSchedule e) expected) then (put tr, None)
        else
          let tr := tr <| ct_lastMissed := expected |> <| ct_consecutive := ct_consecutive tr + 1 |>
                       <| ct_runObservedAt := zero_time |> in
          (put tr, Some (cronMissed (Grace (src_cfg s)) uid e (ct_consecutive tr) expected now))
    end.

Definition sweep_cron (now : Time) (uid : string) (e : cronEntry) (acc : Source * list Signal) : Source * list Signal :=
  let '(s, sig) := evalCron uid e now acc.1 in
  (s, acc.2 ++ match sig with Some sig => [sig] | None => [] end).

Definition sweep (visit : nat) (now : Time) (s : Source) : Source * list Signal :=
  if src_armed s then range_loop (sweep_cron now) (range visit (src_crons s)) (s, []) else (s, []).

(** A tick of the loop in [Run]. *)
Definition tick (visit : nat) (now : Time) (s : Source) : Source * list Signal :=
  let '(s, sigs) := sweep visit now s in (s, send_signals s sigs).
End Sweep.

(** ** Clearance *)

Definition jobClearance (s : Source) (inc : Incident) : option Clearance :=
  if negb (src_armed s) then None
  else match src_jobs s !! UID (inc_Key inc) with
  | None => Some (mkClearance true zero_time ResolutionObjectDeleted)
  | Some e =>
      match (if je_ownerCron e <>s "" then src_successes s !! je_ownerCron e else None) with
      | Some observedAt =>
          if After observedAt (je_failedObservedAt e) then Some (mkClearance true observedAt ResolutionRecovered)
          else Some (mkClearance false zero_time ResolutionRecovered)
      | None => Some (mkClearance false zero_time ResolutionRecovered)
      end
  end.

Definition cronClearance (s : Source) (inc : Incident) : option Clearance :=
  if negb (src_armed s) then None
  else
    let uid := UID (inc_Key inc) in
    match src_crons s !! uid with
    | None => Some (mkClearance true zero_time ResolutionObjectDeleted)
    | Some e =>
        let tr := src_tracks s !! uid in
        if ce_suspend e then Some (mkClearance true (from_option ct_suspendedAt zero_time tr) ResolutionRecovered)
        else
          let lastMissed := from_option ct_lastMissed zero_time tr in
          let cleared :=
            if negb (IsZero lastMissed) then negb (Before (ce_lastSchedule e) lastMissed)
            else After (ce_lastSchedule e) (src_armedAt s) in
          if cleared then Some (mkClearance true (from_option ct_runObservedAt zero_time tr) ResolutionRecovered)
          else Some (mkClearance false zero_time ResolutionRecovered)
    end.

Definition workload_Clearance (s : Source) (inc : Incident) : option Clearance :=
  let reason := CanonicalReason (Reason (inc_Key inc)) in
  if reason ==s ReasonJobFailed then jobClearance s inc
  else if reason ==s ReasonCronMissed then cronClearance s inc
  else None.

(** ** What happens to the source *)

Inductive workload_event :=
  | EvStart
  | EvArm (now : Time)
  | EvJob (now : Time) (j : Job)
  | EvJobDelete (j : Job)
  | EvCronJob (now : Time) (c : CronJob)
  | EvCronJobDelete (c : CronJob)
  | EvTick (visit : nat) (now : Time).

Section Runs.
Context `{CronLib} `{UnicodePrint} `{RangeOrder}.

Definition wstep (ev : workload_event) (s : Source) : Source * list Signal :=
  match ev with
  | EvStart => (start s, [])
  | EvArm now => (arm_source now s, [])
  | EvJob now j => onJob now j s
  | EvJobDelete j => (onJobDelete j s, [])
  | EvCronJob now c => (onCronJob now c s, [])
  | EvCronJobDelete c => (onCronJobDelete c s, [])
  | EvTick visit now => tick visit now s
  end.

Fixpoint wrun (evs : list workload_event) (s : Source) : Source * list Signal :=
  match evs with
  | [] => (s, [])
  | ev :: evs =>
      let '(s, sigs) := wstep ev s in
      let '(s, rest) := wrun evs s in (s, sigs ++ rest)
  end.
End Runs.
