(* ===== verification/WorkloadSpec.v ===== *)
(** What the workload source promises of a CronJob: its history as the source sees it, that an
    activation is called missed once and rightly, that misses escalate, and that a recovery
    follows the miss it ends. *)
From S2P Require Import Prelude GoTime GoStrings GoFmt GoTimeFmt GoQuote GoHash Signal Recovery CronSched Workload.
From Stdlib Require Import Ascii.
Open Scope Z_scope.
Open Scope lookout_scope.

(** ** The history of one CronJob

    Newest first: the source was armed, a mirror update said when the schedule last ran and
    whether it is suspended, a sweep called an activation missed, the object was deleted. *)

Inductive cron_note :=
  | Armed (t : Time)
  | Seen (last : Time) (suspended : bool) (t : Time)
  | Missed (a : Time) (severity : Severity) (t : Time)
  | Gone.

(** The newest missed activation, 0 when there is none; the object's deletion ends its memory. *)
Fixpoint lastMiss (h : list cron_note) : Time :=
  match h with
  | [] | Gone :: _ => 0
  | Missed a _ _ :: _ => a
  | _ :: h => lastMiss h
  end.

(** Misses in a row: a run at or past the newest missed activation ends the row. *)
Fixpoint missStreak (h : list cron_note) : Z :=
  match h with
  | [] | Gone :: _ => 0
  | Missed _ _ _ :: h => 1 + missStreak h
  | Seen last _ _ :: h => if negb (lastMiss h =? 0) && (lastMiss h <=? last) then 0 else missStreak h
  | Armed _ :: h => missStreak h
  end.

(** The newest mirror of the object, if it is there. *)
Fixpoint lastSeen (h : list cron_note) : option (Time * bool) :=
  match h with
  | [] | Gone :: _ => None
  | Seen last suspended _ :: _ => Some (last, suspended)
  | _ :: h => lastSeen h
  end.

Fixpoint armedSince (h : list cron_note) : option Time :=
  match h with
  | [] => None
  | Armed t :: _ => Some t
  | _ :: h => armedSince h
  end.

(** What was noted since the object's last deletion. *)
Fixpoint life (h : list cron_note) : list cron_note :=
  match h with
  | [] | Gone :: _ => []
  | n :: h => n :: life h
  end.

Section Histories.
Context `{CronLib} `{UnicodePrint} `{RangeOrder}.
Implicit Types (s : Source) (u : string) (h : list cron_note) (e : cronEntry) (tr : cronTrack).

Definition missed_of (u : string) (sig : Signal) : bool :=
  (sig_Kind sig ==s KindCronMissed) && (UID (te_Key (sig_Event sig)) ==s u).

(** What one event adds to the history of [u]. *)
Definition cron_notes_of (u : string) (ev : workload_event) (s : Source) : list cron_note :=
  match ev with
  | EvArm t => [Armed t]
  | EvCronJob t c => if cj_UID c ==s u then [Seen (ce_lastSchedule (cron_mirror c)) (ce_suspend (cron_mirror c)) t] else []
  | EvCronJobDelete c => if cj_UID c ==s u then [Gone] else []
  | EvTick visit t =>
      let '(s', sigs) := tick visit t s in
      (fun sig => Missed (ct_lastMissed (trackFor u s')) (sig_Severity sig) t) <$> List.filter (missed_of u) sigs
  | _ => []
  end.

Fixpoint history (u : string) (evs : list workload_event) (s : Source) (h : list cron_note) : list cron_note :=
  match evs with
  | [] => h
  | ev :: evs => history u evs (wstep ev s).1 (cron_notes_of u ev s ++ h)
  end.

(** The clock of an event. *)
Definition event_time (ev : workload_event) : option Time :=
  match ev with
  | EvArm t | EvJob t _ | EvCronJob t _ | EvTick _ t => Some t
  | _ => None
  end.

Definition ticking (evs : list workload_event) : Prop := Forall (fun ev => from_option (Z.lt 0) True (event_time ev)) evs.

(** ** One CronJob in one sweep *)

Definition own u s : option cronTrack := src_tracks s !! u.

(** All but the tracks. *)
Definition same_frame s1 s2 : Prop :=
  src_cfg s1 = src_cfg s2 /\ src_armed s1 = src_armed s2 /\ src_armedAt s1 = src_armedAt s2 /\ src_emit s1 = src_emit s2 /\
  src_jobs s1 = src_jobs s2 /\ src_crons s1 = src_crons s2 /\ src_successes s1 = src_successes s2.

#[local] Instance same_frame_equiv : Equivalence same_frame.
Proof. split; repeat intro; unfold same_frame in *; intuition congruence. Qed.

Ltac split_eval :=
  repeat match goal with
  | |- context [match Parse ?a ?b with _ => _ end] => destruct (Parse a b) eqn:?
  | |- context [let '(_, _) := Overdue ?a ?b ?c ?d in _] => destruct (Overdue a b c d) eqn:?
  | |- context [if ?b then _ else _] => destruct b eqn:?
  end.

Lemma evalCron_frame uid e now s : same_frame s (evalCron uid e now s).1.
Proof. unfold evalCron. split_eval; done. Qed.

Lemma evalCron_others uid e now s u : u <> uid -> own u (evalCron uid e now s).1 = own u s.
Proof. intros Hu. unfold evalCron, own. split_eval; cbn; by rewrite ?lookup_insert_ne by done. Qed.

Lemma evalCron_local uid e now s1 s2 : same_frame s1 s2 -> own uid s1 = own uid s2 ->
  (evalCron uid e now s1).2 = (evalCron uid e now s2).2 /\
  own uid (evalCron uid e now s1).1 = own uid (evalCron uid e now s2).1.
Proof.
  intros (Ec & _ & Ea & _) Eo. unfold own in *. unfold evalCron, cron_anchor, trackFor. rewrite Ec, Ea, Eo.
  split_eval; cbn; rewrite ?lookup_insert_eq; done.
Qed.

Lemma sweep_loop now s0 l s out :
  NoDup l.*1 -> same_frame s0 s -> (forall u, u ∈ l.*1 -> own u s = own u s0) ->
  let r := range_loop (sweep_cron now) l (s, out) in
  r.2 = out ++ omap (fun p => (evalCron p.1 p.2 now s0).2) l /\ same_frame s0 r.1 /\
  (forall u e, (u, e) ∈ l -> own u r.1 = own u (evalCron u e now s0).1) /\
  (forall u, u ∉ l.*1 -> own u r.1 = own u s).
Proof.
  revert s out. induction l as [|[uid e] l IH]; intros s out Hnd Hf Ho r.
  { subst r. cbn. rewrite app_nil_r. split_and!; [done|done|set_solver|done]. }
  cbn in Hnd. apply list.NoDup_cons in Hnd as [Hnot Hnd].
  destruct (evalCron_local uid e now s0 s Hf) as [Es Eo]; [symmetry; apply Ho; cbn; set_solver|].
  assert (range_loop (sweep_cron now) ((uid, e) :: l) (s, out) =
          range_loop (sweep_cron now) l ((evalCron uid e now s).1, out ++ option_list (evalCron uid e now s).2)) as Er.
  { cbn [range_loop]. unfold sweep_cron at 2. cbn. destruct (evalCron uid e now s) as [s' [sig|]]; done. }
  destruct (IH (evalCron uid e now s).1 (out ++ option_list (evalCron uid e now s).2)) as (H1' & H2' & H3' & H4').
  - done.
  - etrans; [exact Hf|]. apply evalCron_frame.
  - intros u Hu. rewrite evalCron_others by (intros ->; done). apply Ho. cbn. set_solver.
  - subst r. rewrite Er. split_and!.
    + rewrite H1', <- app_assoc. f_equal. cbn. rewrite Es. by destruct (evalCron uid e now s).2.
    + done.
    + intros u e' [[= -> ->]|Hin]%elem_of_cons; [by rewrite H4', Eo|by apply H3'].
    + intros u Hu. cbn in Hu. rewrite H4' by set_solver. apply evalCron_others. set_solver.
Qed.

(** A tick at [u]: nothing unless the source is armed and mirrors it, else [evalCron]. *)
Lemma tick_own visit now s u :
  same_frame s (tick visit now s).1 /\
  own u (tick visit now s).1 =
    match src_crons s !! u with
    | Some e => if src_armed s then own u (evalCron u e now s).1 else own u s
    | None => own u s
    end /\
  (tick visit now s).2 =
    if src_armed s then send_signals s (omap (fun p => (evalCron p.1 p.2 now s).2) (range visit (src_crons s))) else [].
Proof.
  unfold tick, sweep. destruct (src_armed s) eqn:Ea.
  - destruct (sweep_loop now s (range visit (src_crons s)) s [] (NoDup_fst_range _ _) ltac:(done) ltac:(done)) as (E1 & E2 & E3 & E4).
    destruct (range_loop _ _ _) as [s' sigs]. cbn in *. subst sigs. split_and!; [done| |].
    + destruct (src_crons s !! u) as [e|] eqn:Eu; [by apply E3, elem_of_range|]. apply E4.
      intros ([u' e] & -> & Hin)%list_elem_of_fmap. apply elem_of_range in Hin. cbn in Eu. congruence.
    + unfold send_signals. destruct E2 as (_ & _ & _ & Ee & _). by rewrite Ee.
  - unfold send_signals. split_and!; [done| |by destruct (src_emit s)]. by destruct (src_crons s !! u).
Qed.

Lemma evalCron_signal uid e now s sig u :
  (evalCron uid e now s).2 = Some sig -> missed_of u sig = bool_decide (uid = u).
Proof. unfold evalCron. split_eval; cbn; try done. intros [= <-]. done. Qed.

Lemma filter_absent u now s l :
  u ∉ l.*1 -> List.filter (missed_of u) (omap (fun p => (evalCron p.1 p.2 now s).2) l) = [].
Proof.
  induction l as [|[uid e] l IH]; [done|]. cbn. intros Hu.
  destruct (evalCron uid e now s).2 as [sig|] eqn:E; [|apply IH; set_solver].
  cbn. rewrite (evalCron_signal _ _ _ _ _ u E), bool_decide_eq_false_2 by set_solver. apply IH. set_solver.
Qed.

Lemma filter_present u e now s l : NoDup l.*1 -> (u, e) ∈ l ->
  List.filter (missed_of u) (omap (fun p => (evalCron p.1 p.2 now s).2) l) = option_list (evalCron u e now s).2.
Proof.
  induction l as [|[uid e'] l IH]; [set_solver|]. cbn. intros [Hnot Hnd]%list.NoDup_cons [[= -> ->]|Hin]%elem_of_cons.
  - destruct (evalCron uid e' now s).2 as [sig|] eqn:E; cbn; [|by apply filter_absent].
    rewrite (evalCron_signal _ _ _ _ _ uid E), bool_decide_eq_true_2 by done. by rewrite filter_absent.
  - assert (uid <> u) as Hne by (intros ->; apply Hnot, list_elem_of_fmap; by exists (u, e)).
    destruct (evalCron uid e' now s).2 as [sig|] eqn:E; cbn; [|by apply IH].
    rewrite (evalCron_signal _ _ _ _ _ u E), bool_decide_eq_false_2 by done. by apply IH.
Qed.

(** The signals of a tick for [u]. *)
Lemma tick_missed_of visit now s u :
  List.filter (missed_of u) (tick visit now s).2 =
  match src_crons s !! u with
  | Some e => if src_armed s && src_emit s then option_list (evalCron u e now s).2 else []
  | None => []
  end.
Proof.
  destruct (tick_own visit now s u) as (_ & _ & ->). unfold send_signals.
  destruct (src_armed s), (src_emit s); cbn [andb]; try by destruct (src_crons s !! u).
  destruct (src_crons s !! u) as [e|] eqn:Eu.
  - apply filter_present; [apply NoDup_fst_range|by apply elem_of_range].
  - apply filter_absent. intros ([u' e] & -> & Hin%elem_of_range)%list_elem_of_fmap. cbn in Eu. congruence.
Qed.

(** ** What a sweep decides for one CronJob *)

Definition lawful : Prop := forall schedule timeZone sched, Parse schedule timeZone = Some sched -> later sched.

Lemma Parse_inner schedule timeZone sched : Parse schedule timeZone = Some sched -> sc_inner sched <> None.
Proof. unfold Parse. destruct (ParseStandard _); [|done]. by intros [= <-]. Qed.

Lemma anchor_max s e tr :
  cron_anchor s e tr = Z.max (Z.max (ce_lastSchedule e) (ce_creation e)) (Z.max (src_armedAt s) (ct_lastMissed tr)).
Proof. unfold cron_anchor, After. repeat case_match; lia. Qed.

(** A miss: what it says of the activation, and what the track remembers. *)
Definition calls_missed s uid e now (a : Time) : Prop :=
  exists sched, Parse (ce_schedule e) (ce_timeZone e) = Some sched /\ ce_suspend e = false /\
    Next sched (cron_anchor s e (trackFor uid s)) = a /\ cron_anchor s e (trackFor uid s) < a /\
    a + Grace (src_cfg s) <= now.

Definition after_miss (a : Time) tr : cronTrack :=
  tr <| ct_lastMissed := a |> <| ct_consecutive := ct_consecutive tr + 1 |> <| ct_runObservedAt := zero_time |>.

(** What [evalCron] keeps when it reports nothing. *)
Definition same_memory tr1 tr2 : Prop :=
  ct_lastMissed tr1 = ct_lastMissed tr2 /\ ct_consecutive tr1 = ct_consecutive tr2 /\
  ct_runObservedAt tr1 = ct_runObservedAt tr2 /\ ct_prevLastSchedule tr1 = ct_prevLastSchedule tr2 /\
  ct_suspendedAt tr1 = ct_suspendedAt tr2 /\ ct_prevSuspend tr1 = ct_prevSuspend tr2.

Lemma evalCron_cases uid e now s :
  lawful -> 0 < src_armedAt s -> 0 <= Grace (src_cfg s) ->
  match (evalCron uid e now s).2 with
  | Some sig => exists a, calls_missed s uid e now a /\
      sig = cronMissed (Grace (src_cfg s)) uid e (ct_consecutive (trackFor uid s) + 1) a now /\
      own uid (evalCron uid e now s).1 = Some (after_miss a (trackFor uid s))
  | None => (forall a, ~ calls_missed s uid e now a) /\
      same_memory (trackFor uid (evalCron uid e now s).1) (trackFor uid s) /\
      (own uid (evalCron uid e now s).1 = None -> own uid s = None)
  end.
Proof.
  intros L Ha Hg. unfold evalCron, calls_missed, own, trackFor at 1.
  destruct (ce_suspend e) eqn:Es; cbn; [split_and!; [|done|done]; intros a (? & _ & ? & _); done|].
  destruct (Parse _ _) as [sched|] eqn:Ep; cbn.
  2: { split_and!; [by intros a (? & ? & _)| |by rewrite lookup_insert_eq]. unfold trackFor. cbn. by rewrite lookup_insert_eq. }
  assert (0 < cron_anchor s e (trackFor uid s)) as Hpos by (rewrite anchor_max; lia).
  pose proof (overdue_spec sched (cron_anchor s e (trackFor uid s)) now (Grace (src_cfg s))
    (Parse_inner _ _ _ Ep) (L _ _ _ Ep) Hpos Hg) as Hov.
  destruct (Overdue _ _ _ _) as [x overdue]. destruct Hov as [-> Hov]. destruct overdue; cbn.
  2: { split_and!; [|unfold trackFor; cbn; by rewrite lookup_insert_eq|by rewrite lookup_insert_eq].
    intros a (sched' & [= <-] & _ & <- & Hlt & Hle). assert (false = true); [|done]. apply Hov.
    split_and!; [unfold zero_time; lia|done|done]. }
  destruct Hov as [(Hz & Hlt & Hle) _]; [done|].
  assert (ce_lastSchedule e < Next sched (cron_anchor s e (trackFor uid s))) as Hlast.
  { eapply Z.le_lt_trans; [|exact Hlt]. rewrite anchor_max. lia. }
  apply Z.ltb_lt in Hlast. unfold Before. rewrite Hlast. cbn.
  exists (Next sched (cron_anchor s e (trackFor uid s))). split_and!; [|done|by rewrite lookup_insert_eq].
  exists sched. done.
Qed.

(** ** The state is what the history says *)

Definition quiet (n : cron_note) : bool := match n with Missed _ _ _ | Gone => false | _ => true end.

(** [t] is when, after the newest miss, the source saw the schedule's last run advance. *)
Definition ran_after h (t : Time) : Prop :=
  exists h1 h2 last suspended, h = h2 ++ Seen last suspended t :: h1 /\ forallb quiet h2 = true /\
    lastMiss h1 = lastMiss h /\ from_option fst 0 (lastSeen h1) < last.

Definition mirrors u h s : Prop :=
  match lastSeen h, src_crons s !! u with
  | None, None => own u s = None
  | Some (last, suspended), Some e => ce_lastSchedule e = last /\ ce_suspend e = suspended /\
      exists tr, own u s = Some tr /\ ct_prevLastSchedule tr = last
  | _, _ => False
  end.

(** No run was seen since the miss, or the first one is dated. *)
Definition run_dated u h s : Prop :=
  lastMiss h <> 0 ->
  if IsZero (ct_runObservedAt (trackFor u s)) then from_option fst 0 (lastSeen h) < lastMiss h
  else ran_after h (ct_runObservedAt (trackFor u s)).

Record tracked u h s : Prop := {
  tk_emit : src_emit s = true;
  tk_grace : 0 <= Grace (src_cfg s);
  tk_armed : armedSince h = if src_armed s then Some (src_armedAt s) else None;
  tk_armedAt : src_armed s = true -> 0 < src_armedAt s;
  tk_mirror : mirrors u h s;
  tk_missed : ct_lastMissed (trackFor u s) = lastMiss h;
  tk_streak : ct_consecutive (trackFor u s) = missStreak h;
  tk_run : run_dated u h s;
  tk_live : lastMiss h <> 0 -> src_armed s = true
}.

(** What is true of a miss, given what was noted before it. *)
Definition good_miss (grace : Duration) h1 (a : Time) (severity : Severity) (t : Time) : Prop :=
  (exists t0, armedSince h1 = Some t0 /\ t0 < a) /\
  (exists last, lastSeen h1 = Some (last, false) /\ last < a) /\
  lastMiss h1 < a /\ a + grace <= t /\
  severity = if 3 <=? 1 + missStreak h1 then SeverityCritical else SeverityWarning.

(** An event that touches nothing of [u]'s. *)
Lemma tracked_frame u h s s' :
  tracked u h s -> src_cfg s' = src_cfg s -> src_armed s' = src_armed s -> src_armedAt s' = src_armedAt s ->
  src_emit s' = src_emit s -> src_crons s' !! u = src_crons s !! u -> own u s' = own u s -> tracked u h s'.
Proof.
  intros [T1 T2 T3 T4 T5 T6 T7 T8 T9] Ec Ea Et Ee Em Eo.
  assert (trackFor u s' = trackFor u s) as Etr by (unfold trackFor; unfold own in Eo; by rewrite Eo).
  split; rewrite ?Ec, ?Ea, ?Et, ?Ee, ?Etr; try done.
  - unfold mirrors. by rewrite Em, Eo.
  - unfold run_dated. by rewrite Etr.
Qed.

Lemma tracked_arm u h s t : 0 < t -> tracked u h s -> tracked u (Armed t :: h) (arm_source t s).
Proof.
  intros Ht [T1 T2 T3 T4 T5 T6 T7 T8 T9]. split; try done.
  intros Hm. specialize (T8 Hm). cbn in *. change (trackFor u (arm_source t s)) with (trackFor u s).
  destruct (IsZero _); [done|]. destruct T8 as (h1 & h2 & last & sus & -> & Hq & Hl & Ha).
  exists h1, (Armed t :: h2), last, sus. done.
Qed.

Lemma normalize_grace c : 0 < Grace (normalize_config c).
Proof.
  unfold normalize_config. destruct (Grace c <=? 0) eqn:E.
  - by destruct (TickInterval _ <=? 0).
  - apply Z.leb_gt in E. by destruct (TickInterval _ <=? 0).
Qed.

Lemma tracked_new u cfg : tracked u [] (start (NewWorkload cfg)).
Proof.
  split; try done; [|by intros Hm]. apply Z.lt_le_incl, normalize_grace.
Qed.

Lemma tracked_gone u h s c : cj_UID c = u -> tracked u h s -> tracked u (Gone :: h) (onCronJobDelete c s).
Proof.
  intros <- [T1 T2 T3 T4 T5 T6 T7 T8 T9].
  assert (own (cj_UID c) (onCronJobDelete c s) = None) as Eo by (unfold own; cbn; by rewrite lookup_delete_eq).
  assert (trackFor (cj_UID c) (onCronJobDelete c s) = zero_track) as Et by (unfold trackFor; unfold own in Eo; by rewrite Eo).
  split; rewrite ?Et; try done; [|by intros Hm]. unfold mirrors. cbn. by rewrite lookup_delete_eq.
Qed.

(** The track after a mirror update, field by field. *)
Lemma track_update_fields armed known now e tr :
  let tr' := track_update armed known now e tr in
  ct_lastMissed tr' = ct_lastMissed tr /\ ct_prevLastSchedule tr' = ce_lastSchedule e /\
  ct_consecutive tr' = (if negb (ct_lastMissed tr =? 0) && (ct_lastMissed tr <=? ce_lastSchedule e) then 0 else ct_consecutive tr) /\
  ct_runObservedAt tr' =
    (if armed && known && After (ce_lastSchedule e) (ct_prevLastSchedule tr) && IsZero (ct_runObservedAt tr)
     then now else ct_runObservedAt tr).
Proof.
  unfold track_update, Before, IsZero, After, zero_time. rewrite (Z.leb_antisym _ (ct_lastMissed tr)).
  destruct (ce_suspend e && negb (ct_prevSuspend tr)); cbn;
  destruct (armed && known && (ct_prevLastSchedule tr <? ce_lastSchedule e) && (ct_runObservedAt tr =? 0)) eqn:E; cbn;
  rewrite ?E; cbn; destruct (negb (ct_lastMissed tr =? 0) && negb (ce_lastSchedule e <? ct_lastMissed tr)); done.
Qed.

Lemma tracked_seen u h s t c : cj_UID c = u -> 0 < t -> tracked u h s ->
  tracked u (Seen (ce_lastSchedule (cron_mirror c)) (ce_suspend (cron_mirror c)) t :: h) (onCronJob t c s).
Proof.
  intros <- Ht [T1 T2 T3 T4 T5 T6 T7 T8 T9]. set (u := cj_UID c) in *. set (e := cron_mirror c).
  set (known := bool_decide (is_Some (src_crons s !! u))).
  set (tr' := track_update (src_armed s) known t e (trackFor u s)).
  assert (own u (onCronJob t c s) = Some tr') as Eo by (unfold own; cbn; by rewrite lookup_insert_eq).
  assert (trackFor u (onCronJob t c s) = tr') as Et by (unfold trackFor; unfold own in Eo; by rewrite Eo).
  destruct (track_update_fields (src_armed s) known t e (trackFor u s)) as (F1 & F2 & F3 & F4). fold tr' in F1, F2, F3, F4.
  split; rewrite ?Et; try done.
  - unfold mirrors. cbn [lastSeen]. rewrite Eo. cbn. rewrite lookup_insert_eq. eauto.
  - by rewrite F1.
  - by rewrite F3, T6, T7.
  - unfold run_dated. rewrite Et, F4. cbn [lastMiss lastSeen from_option fst]. intros Hm. specialize (T8 Hm).
    assert (exists p, lastSeen h = Some p) as [[last sus] Hseen].
    { unfold mirrors in T5. destruct (lastSeen h) as [p|]; [by exists p|]. exfalso. apply Hm. rewrite <- T6. unfold trackFor.
      destruct (src_crons s !! u); [done|]. unfold own in T5. by rewrite T5. }
    unfold mirrors in T5. rewrite Hseen in T5. destruct (src_crons s !! u) as [e0|] eqn:Eu; [|done].
    destruct T5 as (El & _ & tr & Etr & Ep). assert (trackFor u s = tr) as Etr' by (unfold trackFor; unfold own in Etr; by rewrite Etr).
    rewrite Etr' in *. rewrite Hseen in T8. cbn in T8.
    assert (known = true) as -> by (unfold known; apply bool_decide_eq_true_2; rewrite ?Eu; eauto).
    destruct (IsZero (ct_runObservedAt tr)) eqn:Ez.
    + rewrite (T9 Hm), andb_true_r, Ep. cbn [andb]. unfold After. destruct (last <? ce_lastSchedule e) eqn:Ead.
      * apply Z.ltb_lt in Ead. assert (IsZero t = false) as -> by (apply Z.eqb_neq; unfold zero_time; lia).
        exists h, [], (ce_lastSchedule e), (ce_suspend e). rewrite Hseen. done.
      * apply Z.ltb_ge in Ead. rewrite Ez. lia.
    + rewrite andb_false_r, Ez. destruct T8 as (h1 & h2 & l' & s' & -> & Hq & Hl & Ha).
      exists h1, (Seen (ce_lastSchedule e) (ce_suspend e) t :: h2), l', s'. done.
Qed.

Lemma own_track u s tr : own u s = Some tr -> trackFor u s = tr.
Proof. unfold own, trackFor. by intros ->. Qed.

(** A tick notes at most one miss, and a good one. *)
Lemma tracked_tick u h s visit t : lawful -> tracked u h s ->
  let n := cron_notes_of u (EvTick visit t) s in
  tracked u (n ++ h) (tick visit t s).1 /\
  (n = [] \/ exists a sev, n = [Missed a sev t] /\ good_miss (Grace (src_cfg s)) h a sev t).
Proof.
  intros L T n. destruct (tick_own visit t s u) as (Hf & Ho & _). pose proof (tick_missed_of visit t s u) as Hn.
  unfold n, cron_notes_of. destruct (tick visit t s) as [s' sigs]. cbn in Hf, Ho, Hn. cbn [fst]. rewrite Hn.
  destruct Hf as (Fc & Fa & Ft & Fe & _ & Fm & _).
  destruct (src_crons s !! u) as [e|] eqn:Eu; [|split; [|by left]; apply (tracked_frame u h s); rewrite ?Fm; done].
  destruct (src_armed s) eqn:Ea; [|split; [|by left]; apply (tracked_frame u h s); rewrite ?Fm, ?Ea; done].
  destruct T as [T1 T2 T3 T4 T5 T6 T7 T8 T9]. rewrite T1. cbn [andb].
  pose proof (evalCron_cases u e t s L (T4 Ea) T2) as Hc. rewrite Ea in T3, T9. unfold mirrors in T5. rewrite Eu in T5.
  destruct (lastSeen h) as [[last sus]|] eqn:Hs; [|done]. destruct T5 as (El & Esus & tr & Etr & Ep).
  destruct ((evalCron u e t s).2) as [sig|]; cbn.
  - destruct Hc as (a & (sched & _ & Hsus & Hnext & Hlt & Hle) & -> & Eown). rewrite Eown in Ho.
    rewrite (own_track _ _ _ Ho). rewrite anchor_max in Hlt. pose proof (T4 Ea) as Hpos. cbn [app].
    assert (0 < a) as Ha by lia. split.
    + split; rewrite ?(own_track _ _ _ Ho); cbn; rewrite ?T7; try (congruence || lia).
      * by rewrite <- Fa, <- Ft.
      * unfold mirrors. cbn [lastSeen]. rewrite Hs, <- Fm, Eu, Ho. split_and!; [done|done|]. eexists. split; [done|].
        cbn. by rewrite (own_track _ _ _ Etr).
      * unfold run_dated. rewrite (own_track _ _ _ Ho). cbn. rewrite Hs. cbn. lia.
    + right. eexists a, _. split; [done|]. unfold good_miss. rewrite T3, Hs, <- T6, <- T7. split_and!.
      * eexists. split; [done|]. lia.
      * exists last. split; [congruence|]. lia.
      * lia.
      * done.
      * unfold cronMissed. cbn. by rewrite Z.add_comm.
  - destruct Hc as (_ & (M1 & M2 & M3 & M4 & _) & _). split; [|by left].
    assert (exists tr', own u s' = Some tr') as [tr' Etr'].
    { rewrite Ho. unfold evalCron. split_eval; unfold own; cbn; rewrite ?lookup_insert_eq; eauto. }
    assert (trackFor u s' = trackFor u (evalCron u e t s).1) as Et by (unfold trackFor; unfold own in Ho; by rewrite Ho).
    rewrite <- Et in M1, M2, M3, M4. split; try congruence; rewrite <- ?Ft, <- ?Fa; [done|by intros _; apply T4| |].
    + unfold mirrors. rewrite Hs, <- Fm, Eu, Etr'. split_and!; [done|done|]. exists tr'. split; [done|].
      rewrite <- (own_track _ _ _ Etr'), M4, (own_track _ _ _ Etr). done.
    + unfold run_dated. rewrite M3. unfold run_dated in T8. rewrite Hs in *. exact T8.
Qed.

Lemma tracked_step u h s ev : lawful -> from_option (Z.lt 0) True (event_time ev) -> tracked u h s ->
  tracked u (cron_notes_of u ev s ++ h) (wstep ev s).1 /\ src_cfg (wstep ev s).1 = src_cfg s /\
  forall a sev t h1 h2, cron_notes_of u ev s ++ h = h2 ++ Missed a sev t :: h1 ->
    (h2 = [] /\ h1 = h /\ good_miss (Grace (src_cfg s)) h a sev t) \/ (exists h3, h = h3 ++ Missed a sev t :: h1).
Proof.
  intros L Ht T. destruct ev as [|t|t j|j|t c|c|visit t]; cbn in Ht.
  - split_and!; [apply (tracked_frame u h s); try done; symmetry; apply T|done|]. intros. right. by exists h2.
  - split_and!; [by apply tracked_arm|done|]. intros a sev t' h1 [|n h2]; [done|]. cbn. intros [= _ ->]. right. by exists h2.
  - unfold wstep, onJob. destruct (jobCondition j JobFailed), (jobCondition j JobComplete), (controllingCron j). cbv zeta.
    split_and!; [| |intros; right; by exists h2].
    + repeat case_match; simplify_eq; by apply (tracked_frame u h s).
    + repeat case_match; by simplify_eq.
  - split_and!; [by apply (tracked_frame u h s)|done|]. intros. right. by exists h2.
  - unfold wstep, cron_notes_of. cbn [fst]. destruct (cj_UID c ==s u) eqn:Eu.
    + apply bool_decide_eq_true in Eu. split_and!; [by apply tracked_seen|done|].
      intros a sev t' h1 [|n h2]; [done|]. cbn. intros [= _ ->]. right. by exists h2.
    + apply bool_decide_eq_false in Eu. split_and!; [|done|intros; right; by exists h2].
      apply (tracked_frame u h s); try done; unfold own; cbn; by rewrite lookup_insert_ne.
  - unfold wstep, cron_notes_of. cbn [fst]. destruct (cj_UID c ==s u) eqn:Eu.
    + apply bool_decide_eq_true in Eu. split_and!; [by apply tracked_gone|done|].
      intros a sev t' h1 [|n h2]; [done|]. cbn. intros [= _ ->]. right. by exists h2.
    + apply bool_decide_eq_false in Eu. split_and!; [|done|intros; right; by exists h2].
      apply (tracked_frame u h s); try done; unfold own; cbn; by rewrite lookup_delete_ne.
  - destruct (tracked_tick u h s visit t L T) as [T' Hn]. cbn [wstep]. split_and!; [done| |].
    + destruct (tick_own visit t s u) as ((? & _) & _). done.
    + intros a sev t' h1 h2. destruct Hn as [->|(a' & sev' & -> & Hg)]; [intros; right; by exists h2|].
      destruct h2 as [|n h2]; cbn; [intros [= -> -> -> ->]; by left|]. intros [= _ ->]. right. by exists h2.
Qed.

Lemma history_tracked u evs s h : lawful -> ticking evs -> tracked u h s ->
  tracked u (history u evs s h) (wrun evs s).1 /\
  forall a sev t h1 h2, history u evs s h = h2 ++ Missed a sev t :: h1 ->
    good_miss (Grace (src_cfg s)) h1 a sev t \/ (exists h3, h = h3 ++ Missed a sev t :: h1).
Proof.
  intros L. revert s h. induction evs as [|ev evs IH]; intros s h Ht T; cbn [history wrun].
  { split; [done|]. intros. right. by exists h2. }
  apply list.Forall_cons in Ht as [Hev Ht]. destruct (tracked_step u h s ev L Hev T) as (T' & Ec & Hs).
  destruct (wstep ev s) as [s1 sigs]. cbn [fst] in *. destruct (IH s1 _ Ht T') as [T2 Hg].
  destruct (wrun evs s1) as [s2 rest]. split; [done|]. intros a sev t h1 h2 Eh.
  destruct (Hg a sev t h1 h2 Eh) as [?|[h3 E3]]; [left; by rewrite <- Ec|].
  destruct (Hs a sev t h1 h3 E3) as [(_ & -> & ?)|?]; [by left|by right].
Qed.

(** Every miss of a life is at most the newest. *)
Lemma life_le_newest h grace :
  (forall a sev t h1 h2, h = h2 ++ Missed a sev t :: h1 -> good_miss grace h1 a sev t) ->
  forall a sev t, Missed a sev t ∈ life h -> a <= lastMiss h.
Proof.
  induction h as [|n h IH]; [cbn; intros _ a sev t Hin; set_solver|]. intros Hg a sev t.
  assert (forall a sev t h1 h2, h = h2 ++ Missed a sev t :: h1 -> good_miss grace h1 a sev t) as Hg'.
  { intros a' sev' t' h1 h2 ->. by apply (Hg a' sev' t' h1 (n :: h2)). }
  specialize (IH Hg'). destruct n as [t0|last sus t0|a0 sev0 t0|]; cbn; rewrite ?elem_of_cons.
  - intros [?|?]; [done|by eapply IH].
  - intros [?|?]; [done|by eapply IH].
  - destruct (Hg a0 sev0 t0 h [] eq_refl) as (_ & _ & Hlt & _).
    intros [[= -> -> ->]|Hin%IH]; lia.
  - intros Hin. set_solver.
Qed.

(** ** The theorems *)

(** C13: in the life of a source, an activation of a CronJob is called missed only when it is
    past the arming of the source, later than the run last seen of a CronJob that is not
    suspended, past its grace, and later than every activation called missed before in the
    CronJob's life, so none is reported twice; and the report is critical exactly from the
    third miss in a row, a row ending when a run at or past the newest missed activation is
    seen. *)
Theorem misses_are_called_once (cfg : Config) (evs : list workload_event) (u : string) (L : lawful) (Ht : ticking evs)
    (a : Time) (sev : Severity) (t : Time) (h1 h2 : list cron_note)
    (Hh : history u evs (start (NewWorkload cfg)) [] = h2 ++ Missed a sev t :: h1) :
  (exists t0, armedSince h1 = Some t0 /\ t0 < a) /\
  (exists last, lastSeen h1 = Some (last, false) /\ last < a) /\
  a + Grace (normalize_config cfg) <= t /\
  (forall a' sev' t', Missed a' sev' t' ∈ life h1 -> a' < a) /\
  sev = if 3 <=? 1 + missStreak h1 then SeverityCritical else SeverityWarning.
Proof.
  destruct (history_tracked u evs (start (NewWorkload cfg)) [] L Ht (tracked_new u cfg)) as [_ Hg].
  assert (forall a sev t h1 h2, history u evs (start (NewWorkload cfg)) [] = h2 ++ Missed a sev t :: h1 ->
    good_miss (Grace (normalize_config cfg)) h1 a sev t) as Hall.
  { intros a' sev' t' h1' h2' Eh. destruct (Hg a' sev' t' h1' h2' Eh) as [?|[h3 Hnil]]; [done|by destruct h3]. }
  destruct (Hall a sev t h1 h2 Hh) as (Ha & Hl & Hlt & Hgr & Hsev). split_and!; [done|done|done| |done].
  intros a' sev' t' Hin. apply (Z.le_lt_trans _ (lastMiss h1)); [|done].
  apply (life_le_newest h1 (Grace (normalize_config cfg))) in Hin; [done|].
  intros b sevb tb h1' h2' ->. apply (Hall b sevb tb h1' (h2 ++ Missed a sev t :: h2')). rewrite Hh, <- app_assoc. done.
Qed.

(** C14: of a CronJob with a miss, not suspended, the source says cleared exactly when the
    run it last saw is at or past the newest missed activation; the stability it reports is
    then counted from an update it saw after that miss, one in which the last run advanced. *)
Theorem recovery_follows_the_miss (cfg : Config) (evs : list workload_event) (u : string) (L : lawful) (Ht : ticking evs)
    (inc : Incident) (last : Time)
    (Hk : inc_Key inc = mkEventKey u ReasonCronMissed)
    (Hm : lastMiss (history u evs (start (NewWorkload cfg)) []) <> 0)
    (Hs : lastSeen (history u evs (start (NewWorkload cfg)) []) = Some (last, false)) :
  let h := history u evs (start (NewWorkload cfg)) [] in
  let verdict := workload_Clearance (wrun evs (start (NewWorkload cfg))).1 inc in
  if lastMiss h <=? last
  then exists since, verdict = Some (mkClearance true since ResolutionRecovered) /\ since <> 0 /\ ran_after h since
  else verdict = Some (mkClearance false zero_time ResolutionRecovered).
Proof.
  cbv zeta. destruct (history_tracked u evs (start (NewWorkload cfg)) [] L Ht (tracked_new u cfg)) as [[T1 T2 T3 T4 T5 T6 T7 T8 T9] _].
  revert Hm Hs T1 T2 T3 T4 T5 T6 T7 T8 T9. generalize (history u evs (start (NewWorkload cfg)) []). intros h. generalize (wrun evs (start (NewWorkload cfg))).1.
  intros s Hm Hs T1 T2 T3 T4 T5 T6 T7 T8 T9. unfold workload_Clearance. rewrite Hk.
  change (CanonicalReason (Reason (mkEventKey u ReasonCronMissed))) with ReasonCronMissed.
  rewrite (bool_decide_eq_false_2 (ReasonCronMissed = ReasonJobFailed)), (bool_decide_eq_true_2 (ReasonCronMissed = _)) by done.
  unfold cronClearance. rewrite (T9 Hm), Hk. cbn [negb UID]. unfold mirrors in T5. rewrite Hs in T5.
  destruct (src_crons s !! u) as [e|]; [|done]. destruct T5 as (El & -> & tr & Etr & _).
  unfold own in Etr. unfold run_dated in T8. rewrite (own_track u s tr Etr) in *. rewrite Etr. cbn [from_option].
  rewrite T6, El, Hs in *. specialize (T8 Hm). assert (IsZero (lastMiss h) = false) as -> by (by apply Z.eqb_neq).
  unfold Before. cbn [negb]. rewrite <- Z.leb_antisym. destruct (lastMiss h <=? last) eqn:Ele; [|done].
  apply Z.leb_le in Ele. destruct (IsZero (ct_runObservedAt tr)) eqn:Ez; [cbn in T8; lia|].
  apply Z.eqb_neq in Ez. eauto.
Qed.

(** The first activation after [anchor] is past its grace. *)
Definition first_overdue (sched : Schedule) (anchor : Time) (grace : Duration) (now a : Time) : Prop :=
  activation sched a /\ anchor < a /\ a + grace <= now /\
  forall b, anchor < b -> activation sched b -> a <= b.

Lemma first_overdue_next sched anchor grace now a :
  finds_first sched -> 0 <= anchor -> 0 <= grace -> now <= anchor + cron_horizon ->
  first_overdue sched anchor grace now a <->
  Next sched anchor = a /\ anchor < a /\ a + grace <= now.
Proof.
  intros F Ha Hg Hn. split.
  - intros (Hact & Hlt & Hle & Hfirst). split_and!; [|done|done].
    destruct (decide (Next sched anchor = zero_time)) as [Hz|Hz].
    + destruct (first_searched sched F anchor a); [done|done|lia|done].
    + pose proof (activation_bounds_next sched anchor a F Ha Hz Hlt Hact).
      pose proof (next_is_activation sched anchor F Ha Hz) as Hnext.
      destruct (first_later sched F anchor Ha) as [?|Hl]; [done|]. specialize (Hfirst _ Hl Hnext). lia.
  - intros (<- & Hlt & Hle). assert (Next sched anchor <> zero_time) as Hz by (unfold zero_time; lia).
    split_and!; [by apply next_is_activation|done|done|]. intros b Hb Hact. by apply activation_bounds_next.
Qed.

(** C15: a sweep of an armed source reports the missed run of a CronJob whose schedule has
    fixed activations (the CronJob's own schedule, not the other ones', finds the first of
    them: every schedule but [@every] does) exactly when there is one: the CronJob is
    mirrored and not suspended, its schedule parses, and the first activation after the
    newest of its last run, its creation, the arming and the last one reported is past its
    grace. It is then reported once, whatever the order of the sweep. Of the schedules of
    the other CronJobs nothing is asked but that [Next] answers a later time or none. *)
Theorem sweep_reports_missed_runs (s : Source) (visit : nat) (now : Time) (u : string)
    (L : lawful)
    (F : forall e sched, src_crons s !! u = Some e -> Parse (ce_schedule e) (ce_timeZone e) = Some sched -> finds_first sched)
    (Ha : src_armed s = true) (He : src_emit s = true) (Hpos : 0 < src_armedAt s) (Hg : 0 <= Grace (src_cfg s))
    (Hn : now <= src_armedAt s + cron_horizon) :
  let newest e := Z.max (Z.max (ce_lastSchedule e) (ce_creation e)) (Z.max (src_armedAt s) (ct_lastMissed (trackFor u s))) in
  let overdue e a := exists sched, ce_suspend e = false /\ Parse (ce_schedule e) (ce_timeZone e) = Some sched /\
    first_overdue sched (newest e) (Grace (src_cfg s)) now a in
  let reports := List.filter (missed_of u) (tick visit now s).2 in
  (forall e a, src_crons s !! u = Some e -> overdue e a ->
     reports = [cronMissed (Grace (src_cfg s)) u e (ct_consecutive (trackFor u s) + 1) a now]) /\
  ((forall e a, src_crons s !! u = Some e -> ~ overdue e a) -> reports = []).
Proof.
  intros newest overdue reports.
  assert (forall e a, src_crons s !! u = Some e -> overdue e a <-> calls_missed s u e now a) as Hiff.
  { intros e a Eu. unfold overdue, calls_missed, newest. rewrite <- (anchor_max s e (trackFor u s)).
    assert (src_armedAt s <= cron_anchor s e (trackFor u s)) by (rewrite anchor_max; lia).
    split; intros (sched & H3 & H4 & H5).
    - apply first_overdue_next in H5; [|by eapply F|lia|done|lia]. exists sched. tauto.
    - exists sched. split_and!; [tauto|done|]. apply first_overdue_next; [by eapply F|lia|done|lia|]. tauto. }
  unfold reports. rewrite tick_missed_of, Ha, He. cbn [andb]. split.
  - intros e a Eu Hov. rewrite Eu. apply Hiff in Hov; [|done]. pose proof (evalCron_cases u e now s L Hpos Hg) as Hc.
    destruct ((evalCron u e now s).2) as [sig|]; [|exfalso; destruct Hc as [Hno _]; by apply (Hno a)].
    destruct Hc as (a' & (sched' & Ep' & _ & Hx & _) & -> & _). destruct Hov as (sched & Ep & _ & Hy & _).
    cbn. congruence.
  - intros Hno. destruct (src_crons s !! u) as [e|] eqn:Eu; [|done]. pose proof (evalCron_cases u e now s L Hpos Hg) as Hc.
    destruct ((evalCron u e now s).2) as [sig|]; [|done]. destruct Hc as (a & Hc & _).
    exfalso. apply (Hno e a); [done|]. by apply Hiff.
Qed.

(** ** Failed Jobs *)

Definition failed_of (u : string) (sig : Signal) : bool :=
  (sig_Kind sig ==s KindJobFailed) && (UID (te_Key (sig_Event sig)) ==s u).

Definition job_mirror (u : string) (s : Source) : jobEntry := default zero_job (src_jobs s !! u).

Definition deletes_job (u : string) (ev : workload_event) : bool :=
  match ev with EvJobDelete j => job_UID j ==s u | _ => false end.

(** A failure of [u] the source sees happen. *)
Definition fails_now (u : string) (ev : workload_event) (s : Source) : bool :=
  match ev with
  | EvJob _ j => (job_UID j ==s u) && src_armed s && (jobCondition j JobFailed).2 && negb (je_failed (job_mirror u s))
  | _ => false
  end.

Lemma tick_job visit now s u : List.filter (failed_of u) (tick visit now s).2 = [].
Proof.
  destruct (tick_own visit now s u) as (_ & _ & ->). unfold send_signals. destruct (src_armed s), (src_emit s); try done.
  induction (range visit (src_crons s)) as [|[uid e] l IH]; [done|]. cbn.
  destruct ((evalCron uid e now s).2) as [sig|] eqn:E; [|done]. cbn.
  assert (failed_of u sig = false) as ->; [|done].
  revert E. unfold evalCron. split_eval; cbn; try done. by intros [= <-].
Qed.

(** One event and the failures of [u]. *)
Lemma job_step u ev s : src_emit s = true -> deletes_job u ev = false ->
  src_emit (wstep ev s).1 = true /\
  length (List.filter (failed_of u) (wstep ev s).2) = (if fails_now u ev s && negb (je_fired (job_mirror u s)) then 1 else 0)%nat /\
  je_fired (job_mirror u (wstep ev s).1) = je_fired (job_mirror u s) || fails_now u ev s && negb (je_fired (job_mirror u s)).
Proof.
  intros He Hd. destruct ev as [|t|t j|j|t c|c|visit t]; cbn [fails_now andb]; rewrite ?orb_false_r.
  all: try (split_and!; done).
  - unfold wstep, onJob, job_mirror. destruct (jobCondition j JobFailed) as [r failed], (jobCondition j JobComplete) as [r' complete], (controllingCron j) as [o n].
    cbv zeta. destruct (job_UID j ==s u) eqn:Eu.
    + apply bool_decide_eq_true in Eu. subst u. cbn [snd andb]. set (e := default zero_job (src_jobs s !! job_UID j)).
      change (je_fired (e <| je_namespace := _ |> <| je_name := _ |> <| je_ownerCron := _ |> <| je_ownerName := _ |> <| je_failed := _ |> <| je_complete := _ |>)) with (je_fired e).
      destruct (src_armed s && failed && negb (je_failed e) && negb (je_fired e)) eqn:Ef;
      destruct (src_armed s && complete && negb (je_complete e) && (o <>s "")); unfold send_signals; cbn; rewrite He, lookup_insert_eq; cbn;
      rewrite ?orb_false_r; unfold failed_of; cbn; rewrite ?bool_decide_eq_true_2 by done; split_and!; try done; by rewrite ?orb_true_r.
    + apply bool_decide_eq_false in Eu. cbn [andb]. rewrite orb_false_r.
      destruct (src_armed s && failed && negb _ && negb _), (src_armed s && complete && negb _ && _); unfold send_signals; cbn; rewrite He, lookup_insert_ne by done; cbn;
      unfold failed_of; cbn; rewrite ?(bool_decide_eq_false_2 (job_UID j = u)), ?andb_false_r by done; done.
  - unfold wstep, job_mirror. cbn in *. apply bool_decide_eq_false in Hd. by rewrite lookup_delete_ne.
  - cbn [wstep]. rewrite tick_job. destruct (tick_own visit t s u) as ((_ & _ & _ & Ee & Ej & _) & _).
    unfold job_mirror. rewrite <- Ee, <- Ej. done.
Qed.

Lemma fired_is_silent u evs s : src_emit s = true -> forallb (fun ev => negb (deletes_job u ev)) evs = true ->
  je_fired (job_mirror u s) = true -> List.filter (failed_of u) (wrun evs s).2 = [].
Proof.
  revert s. induction evs as [|ev evs IH]; intros s He Hd Hf; [done|]. cbn in Hd. apply andb_prop in Hd as [Hev Hd].
  apply negb_true_iff in Hev. destruct (job_step u ev s He Hev) as (He' & Hl & Hf'). cbn [wrun].
  destruct (wstep ev s) as [s1 sigs]. cbn in He', Hl, Hf'. rewrite Hf, andb_false_r in Hl. rewrite Hf in Hf'.
  specialize (IH s1 He' Hd Hf'). destruct (wrun evs s1) as [s2 rest]. cbn in *.
  rewrite List.filter_app, IH, app_nil_r. by destruct (List.filter _ sigs).
Qed.

(** While a Job is not deleted, its failure is signalled at most once, and it is
    signalled exactly when the source, armed, sees the Failed condition turn true: a Job that
    had failed when the source armed is history. *)
Theorem job_failure_signalled_once (u : string) (evs : list workload_event) (s : Source)
    (He : src_emit s = true) (Hd : forallb (fun ev => negb (deletes_job u ev)) evs = true)
    (Hf : je_fired (job_mirror u s) = false) :
  let signals := List.filter (failed_of u) (wrun evs s).2 in
  (length signals <= 1)%nat /\
  (signals <> [] <-> exists evs1 ev evs2, evs = evs1 ++ ev :: evs2 /\ fails_now u ev (wrun evs1 s).1 = true).
Proof.
  cbv zeta. revert s He Hf. induction evs as [|ev evs IH]; intros s He Hf.
  { cbn. split; [lia|]. split; [done|]. by intros ([|] & ? & ? & ? & _). }
  pose proof Hd as Hd'. cbn in Hd'. apply andb_prop in Hd' as [Hev Hd'].
  apply negb_true_iff in Hev. destruct (job_step u ev s He Hev) as (He' & Hl & Hf'). rewrite Hf, andb_true_r in *. cbn [negb orb] in Hf'.
  assert (forall evs1, (wrun (ev :: evs1) s).1 = (wrun evs1 (wstep ev s).1).1) as Hrun.
  { intros evs1. cbn [wrun]. destruct (wstep ev s) as [s1 ?]. cbn. by destruct (wrun evs1 s1). }
  assert ((wrun (ev :: evs) s).2 = (wstep ev s).2 ++ (wrun evs (wstep ev s).1).2) as ->.
  { cbn [wrun]. destruct (wstep ev s) as [s1 ?]. cbn. by destruct (wrun evs s1). }
  rewrite List.filter_app. destruct (fails_now u ev s) eqn:Hn.
  - rewrite (fired_is_silent u evs), app_nil_r by done. split; [lia|].
    split; [|by intros _ Hnil; rewrite Hnil in Hl]. intros _. by exists [], ev, evs.
  - destruct (List.filter _ (wstep ev s).2); [|done]. cbn [app]. destruct (IH Hd' (wstep ev s).1 He' Hf') as [Hle Hiff].
    split; [done|]. rewrite Hiff. split.
    + intros (evs1 & ev' & evs2 & -> & Hx). exists (ev :: evs1), ev', evs2. by rewrite Hrun.
    + intros ([|ev0 evs1] & ev' & evs2 & [= -> ->] & Hx); [cbn in Hx; congruence|].
      exists evs1, ev', evs2. by rewrite Hrun in Hx.
Qed.
End Histories.

(** A CronJob of every ten minutes that stops running, for the witnesses. *)
Module Stalled.
Import EveryTenMinutes.
#[local] Existing Instance lib.
#[local] Instance ascii_print : UnicodePrint := fun _ => true.
#[local] Existing Instance plain_range.

Definition cfg : Config := mkConfig Minute (30 * Second).
Definition nightly (last : Time) : CronJob := mkCronJob "u1" "batch" "nightly" "*/10 * * * *" None None (Some last) Hour.
Definition report (conditions : list JobCondition) : Job :=
  mkJob "j1" "batch" "report" [mkJobOwner "u1" "CronJob" "nightly" (Some true)] conditions 1 0.

(** Armed at three o'clock, the last run at a quarter to; misses at ten, twenty and thirty
    past are called in three sweeps, then the run of forty past is seen. *)
Definition stalled : list workload_event :=
  [EvCronJob (3 * Hour - 60) (nightly (3 * Hour - 15 * Minute)); EvArm (3 * Hour);
   EvTick 0 (3 * Hour + 5 * Minute); EvTick 1 (3 * Hour + 11 * Minute);
   EvTick 2 (3 * Hour + 21 * Minute); EvTick 3 (3 * Hour + 31 * Minute)].
Definition resumed : list workload_event := stalled ++ [EvCronJob (3 * Hour + 41 * Minute) (nightly (3 * Hour + 40 * Minute))].

Definition two_misses : list cron_note :=
  [Missed (3 * Hour + 20 * Minute) SeverityWarning (3 * Hour + 21 * Minute);
   Missed (3 * Hour + 10 * Minute) SeverityWarning (3 * Hour + 11 * Minute);
   Armed (3 * Hour); Seen (3 * Hour - 15 * Minute) false (3 * Hour - 60)].

Lemma laws : forall schedule timeZone sched, Parse schedule timeZone = Some sched -> finds_first sched.
Proof.
  intros schedule timeZone sched. unfold Parse. cbn. destruct (_ ==s _); [|done]. intros [= <-]. apply every_period_first.
Qed.

Lemma lawful_tens : lawful.
Proof. intros ? ? ? Ep. by apply (first_later _ (laws _ _ _ Ep)). Qed.

Lemma misses_are_called_once_witness :
  (exists t0, armedSince two_misses = Some t0 /\ t0 < 3 * Hour + 30 * Minute) /\
  (exists last, lastSeen two_misses = Some (last, false) /\ last < 3 * Hour + 30 * Minute) /\
  3 * Hour + 30 * Minute + Grace (normalize_config cfg) <= 3 * Hour + 31 * Minute /\
  (forall a' sev' t', Missed a' sev' t' ∈ life two_misses -> a' < 3 * Hour + 30 * Minute) /\
  SeverityCritical = if 3 <=? 1 + missStreak two_misses then SeverityCritical else SeverityWarning.
Proof.
  apply (misses_are_called_once cfg stalled "u1" lawful_tens) with (t := 3 * Hour + 31 * Minute) (h2 := []).
  - unfold ticking, stalled. repeat constructor.
  - vm_compute. reflexivity.
Defined.

Definition the_incident : Incident := mkIncident (mkEventKey "u1" ReasonCronMissed) "sess" (3 * Hour + 11 * Minute) zero_ref.

Lemma recovery_follows_the_miss_witness :
  exists since, workload_Clearance (wrun resumed (start (NewWorkload cfg))).1 the_incident = Some (mkClearance true since ResolutionRecovered) /\
    since <> 0 /\ ran_after (history "u1" resumed (start (NewWorkload cfg)) []) since.
Proof.
  assert (lastMiss (history "u1" resumed (start (NewWorkload cfg)) []) <=? 3 * Hour + 40 * Minute = true) as E by (vm_compute; reflexivity).
  assert (ticking resumed) as Ht by (unfold ticking, resumed, stalled; repeat constructor).
  assert (lastMiss (history "u1" resumed (start (NewWorkload cfg)) []) <> 0) as Hm by (vm_compute; discriminate).
  assert (lastSeen (history "u1" resumed (start (NewWorkload cfg)) []) = Some (3 * Hour + 40 * Minute, false)) as Hs by (vm_compute; reflexivity).
  pose proof (recovery_follows_the_miss cfg resumed "u1" lawful_tens Ht the_incident (3 * Hour + 40 * Minute) eq_refl Hm Hs) as Hr.
  cbv zeta in Hr. rewrite E in Hr. exact Hr.
Defined.

Definition armed_at_three : Source :=
  (wrun [EvCronJob (3 * Hour - 60) (nightly (3 * Hour - 15 * Minute)); EvArm (3 * Hour)] (start (NewWorkload cfg))).1.

Definition entry : cronEntry := cron_mirror (nightly (3 * Hour - 15 * Minute)).

Lemma ten_past_overdue :
  first_overdue (every_period "*/10 * * * *")
    (Z.max (Z.max (ce_lastSchedule entry) (ce_creation entry)) (Z.max (src_armedAt armed_at_three) (ct_lastMissed (trackFor "u1" armed_at_three))))
    Minute (3 * Hour + 11 * Minute) (3 * Hour + 10 * Minute).
Proof.
  apply first_overdue_next; [apply every_period_first|vm_compute; discriminate|vm_compute; discriminate|vm_compute; discriminate|].
  split_and!; [vm_compute; reflexivity|vm_compute; reflexivity|vm_compute; discriminate].
Qed.

Lemma sweep_reports_missed_runs_witness :
  List.filter (missed_of "u1") (tick 0 (3 * Hour + 11 * Minute) armed_at_three).2 =
    [cronMissed (Grace (src_cfg armed_at_three)) "u1" entry (ct_consecutive (trackFor "u1" armed_at_three) + 1)
       (3 * Hour + 10 * Minute) (3 * Hour + 11 * Minute)] /\
  List.filter (missed_of "u2") (tick 0 (3 * Hour + 11 * Minute) armed_at_three).2 = [].
Proof.
  assert (src_armed armed_at_three = true) as Ha by (vm_compute; reflexivity).
  assert (src_emit armed_at_three = true) as He by (vm_compute; reflexivity).
  assert (0 < src_armedAt armed_at_three) as Hpos by (vm_compute; reflexivity).
  assert (0 <= Grace (src_cfg armed_at_three)) as Hg by (vm_compute; discriminate).
  assert (3 * Hour + 11 * Minute <= src_armedAt armed_at_three + cron_horizon) as Hn by (vm_compute; discriminate).
  assert (src_crons armed_at_three !! "u1" = Some entry) as E1 by (vm_compute; reflexivity).
  assert (src_crons armed_at_three !! "u2" = None) as E2 by (vm_compute; reflexivity).
  assert (Parse (ce_schedule entry) (ce_timeZone entry) = Some (every_period "*/10 * * * *")) as Ep by (vm_compute; reflexivity).
  assert (Grace (src_cfg armed_at_three) = Minute) as Eg by (vm_compute; reflexivity).
  pose proof (sweep_reports_missed_runs armed_at_three 0 (3 * Hour + 11 * Minute) "u1" lawful_tens (fun _ _ _ => laws _ _ _) Ha He Hpos Hg Hn) as [Hm _].
  pose proof (sweep_reports_missed_runs armed_at_three 0 (3 * Hour + 11 * Minute) "u2" lawful_tens (fun _ _ _ => laws _ _ _) Ha He Hpos Hg Hn) as [_ Hno].
  split.
  - apply Hm; [exact E1|]. exists (every_period "*/10 * * * *"). split_and!; [reflexivity|exact Ep|].
    rewrite Eg. apply ten_past_overdue.
  - apply Hno. intros e a Eu. rewrite E2 in Eu. discriminate.
Defined.

(** The Job was running when the source armed; its failure is seen twice. *)
Definition failing : list workload_event :=
  [EvJob 10 (report []); EvArm 20; EvJob 30 (report [mkJobCondition "Failed" "True" "BackoffLimitExceeded"]);
   EvJob 40 (report [mkJobCondition "Failed" "True" "BackoffLimitExceeded"])].

Lemma job_failure_signalled_once_witness :
  let signals := List.filter (failed_of "j1") (wrun failing (start (NewWorkload cfg))).2 in
  length signals = 1%nat /\ (length signals <= 1)%nat /\
  (signals <> [] <-> exists evs1 ev evs2, failing = evs1 ++ ev :: evs2 /\ fails_now "j1" ev (wrun evs1 (start (NewWorkload cfg))).1 = true).
Proof.
  split; [vm_compute; reflexivity|]. apply (job_failure_signalled_once "j1" failing (start (NewWorkload cfg))); reflexivity.
Defined.
End Stalled.
