(* ===== verification/Logfmt.v ===== *)
(** The logfmt records of a report (src/pkg/emit/writer.go, src/pkg/findings/report.go): the
    encoder, the reader that answers with ordered pairs, and the one that answers with a map.

    Both readers invert the encoder. *)
From S2P Require Import Prelude GoTime GoStrings GoFmt GoQuote.
From Stdlib Require Import Ascii.
Open Scope Z_scope.
Open Scope lookout_scope.

Record Field := mkField { Key : string; Value : string }.

#[global] Instance Field_eq_dec : EqDecision Field.
Proof. solve_decision. Defined.

(** The pattern [^[a-z][a-z0-9_]*$]. *)
Definition key_head (c : ascii) : bool := byte_in 97 122 c.
Definition key_byte (c : ascii) : bool := byte_in 97 122 c || byte_in 48 57 c || is_byte 95 c.

Definition keyPattern (key : string) : bool :=
  match key with String c rest => key_head c && forall_bytes key_byte rest | EmptyString => false end.

(** A rune below U+0020 or equal to U+007F is the byte of that value. *)
Definition logfmtNeedsQuoting (v : string) : bool :=
  ContainsAny v (" =" +:+ dquote) || negb (forall_bytes (fun c => byte_in 32 126 c || negb (is_ascii c)) v).

Section Encode.
Context `{UnicodePrint}.

Definition logfmt_value (v : string) : string := if logfmtNeedsQuoting v then Quote v else v.

Definition logfmt_pair (p : Field) : string := Key p +:+ "=" +:+ logfmt_value (Value p).

Definition newline : string := String (byte_of 10) "".

Definition EncodeLogfmt (pairs : list Field) : string := String.concat " " (logfmt_pair <$> pairs) +:+ newline.
End Encode.

(** ** [ParseLogfmt] *)

Definition TrimSuffix (s suffix : string) : string :=
  match strip_prefix (string_rev suffix) (string_rev s) with Some r => string_rev r | None => s end.

(** A value at the head of [rest], and what follows it: quoted, or up to the next space. *)
Definition parse_value (rest : string) : option (string * string) :=
  if HasPrefix rest dquote then read_quoted rest
  else match cut_byte " " rest with
  | Some (val, after) => Some (val, " " +:+ after)
  | None => Some (rest, "")
  end.

Fixpoint parse_logfmt_pairs (fuel : nat) (rest : string) : option (list Field) :=
  match fuel, rest with
  | _, EmptyString => Some []
  | O, _ => None
  | S fuel, _ =>
      match cut_byte "=" rest with
      | Some (key, rest) =>
          if keyPattern key then
            '(val, rest) ← parse_value rest;
            match rest with
            | EmptyString => Some [mkField key val]
            | String c rest => if is_byte 32 c then cons (mkField key val) <$> parse_logfmt_pairs fuel rest else None
            end
          else None
      | None => None
      end
  end.

Definition ParseLogfmt (line : string) : option (list Field) :=
  let rest := TrimSuffix line newline in parse_logfmt_pairs (String.length rest) rest.

(** ** [parseLogfmtRecord] *)

(** The index of the closing quote: the text between the quotes and the text after; a
    backslash skips the byte after it. *)
Fixpoint closing_quote (skip : bool) (s : string) : option (string * string) :=
  match s with
  | EmptyString => None
  | String c s =>
      if negb skip && is_byte 34 c then Some ("", s)
      else '(inside, after) ← closing_quote (negb skip && is_byte 92 c) s; Some (String c inside, after)
  end.

(** The loop, as the pairs it writes to the map in order. *)
Fixpoint record_pairs (fuel : nat) (text : string) : option (list Field) :=
  match fuel, text with
  | _, EmptyString => Some []
  | O, _ => None
  | S fuel, String c text' =>
      if is_byte 32 c then record_pairs fuel text'
      else match cut_byte "=" text with
      | None => None
      | Some (key, rest) =>
          if key ==s "" then None
          else match rest with
          | String q body =>
              if is_byte 34 q then
                '(inside, after) ← closing_quote false body;
                v ← Unquote (dquote +:+ inside +:+ dquote);
                cons (mkField key v) <$> record_pairs fuel after
              else match cut_byte " " rest with
              | None => Some [mkField key rest]
              | Some (v, after) => cons (mkField key v) <$> record_pairs fuel after
              end
          | EmptyString => Some [mkField key ""]
          end
      end
  end.

Definition put_field (out : gmap string string) (p : Field) : gmap string string := <[Key p := Value p]> out.

Definition parseLogfmtRecord (text : string) : option (gmap string string) :=
  pairs ← record_pairs (String.length text) text; Some (fold_left put_field pairs ∅).

(** ** The readers invert the encoder *)

Section Back.
Context `{UnicodePrint}.

Lemma forall_bytes_contains p c s : forall_bytes p s = true -> p c = false -> contains_byte c s = false.
Proof.
  intros Hs Hc. induction s as [|d s IH]; [done|]. cbn in *. apply andb_prop in Hs as [Hd Hs].
  destruct (Ascii.eqb c d) eqn:E; [apply Ascii.eqb_eq in E; congruence|]. by apply IH.
Qed.

Lemma keyPattern_clean key c : keyPattern key = true -> key_byte c = false -> contains_byte c key = false.
Proof.
  destruct key as [|d rest]; [done|]. cbn [keyPattern]. intros [Hd Hr]%andb_prop Hc. cbn.
  destruct (Ascii.eqb c d) eqn:E; [|by eapply forall_bytes_contains].
  apply Ascii.eqb_eq in E as ->. unfold key_byte in Hc. unfold key_head in Hd. by rewrite Hd in Hc.
Qed.

Lemma cut_byte_app c a b : contains_byte c a = false -> cut_byte c (a +:+ String c b) = Some (a, b).
Proof.
  induction a as [|d a IH]; cbn; [by rewrite Ascii.eqb_refl|]. intros [-> Ha]%orb_false_elim. by rewrite IH.
Qed.

Lemma unquoted_clean v : logfmtNeedsQuoting v = false ->
  contains_byte " " v = false /\ contains_byte "=" v = false /\ contains_byte (byte_of 34) v = false /\ contains_byte (byte_of 10) v = false.
Proof.
  unfold logfmtNeedsQuoting. intros [Ha Hb]%orb_false_elim. cbn in Ha. rewrite orb_false_r in Ha.
  apply orb_false_elim in Ha as [H1 [H2 H3]%orb_false_elim]. apply negb_false_iff in Hb. split_and!; try done.
  by eapply forall_bytes_contains.
Qed.

(** What may follow a value: nothing, or a space. *)
Definition tail_ok (tail : string) : Prop := tail = "" \/ exists r, tail = " " +:+ r.

Lemma parse_value_back v tail : tail_ok tail -> parse_value (logfmt_value v +:+ tail) = Some (v, tail).
Proof.
  intros Ht. unfold parse_value, logfmt_value. destruct (logfmtNeedsQuoting v) eqn:Eq.
  - unfold HasPrefix, Quote at 1. rewrite app_assoc_string, strip_prefix_app. apply read_quoted_Quote.
  - destruct (unquoted_clean v Eq) as (Hsp & _ & Hq & _).
    assert (HasPrefix (v +:+ tail) dquote = false) as ->.
    { destruct (HasPrefix (v +:+ tail) dquote) eqn:E; [|done]. apply HasPrefix_spec in E as [r E].
      destruct v as [|c v]; cbn in E; [destruct Ht as [->|[r' ->]]; done|]. injection E as -> _. cbn in Hq. done. }
    destruct Ht as [->|[r ->]].
    + rewrite string_app_nil_r. by rewrite (proj2 (cut_byte_None " " v)).
    + cbn [String.append]. by rewrite cut_byte_app.
Qed.

Lemma concat_cons (x : string) (l : list string) :
  String.concat " " (x :: l) = x +:+ match l with [] => "" | _ => " " +:+ String.concat " " l end.
Proof. destruct l; [cbn; by rewrite string_app_nil_r|done]. Qed.

Lemma pair_text key v tail : (key +:+ "=" +:+ logfmt_value v) +:+ tail = key +:+ String "=" (logfmt_value v +:+ tail).
Proof. by rewrite !app_assoc_string. Qed.

Lemma keyPattern_cons key : keyPattern key = true -> exists c k, key = String c k /\ is_byte 32 c = false.
Proof.
  destruct key as [|c k]; [done|]. intros [Hc _]%andb_prop. exists c, k. split; [done|].
  apply byte_in_bounds in Hc. apply Nat.eqb_neq. lia.
Qed.

(** The text that follows a pair of a record. *)
Definition after_pair (pairs : list Field) : string :=
  match logfmt_pair <$> pairs with [] => "" | _ => " " +:+ String.concat " " (logfmt_pair <$> pairs) end.

Lemma after_pair_ok pairs : tail_ok (after_pair pairs).
Proof. unfold after_pair. destruct (logfmt_pair <$> pairs); [by left|right; eauto]. Qed.

Lemma concat_pairs p pairs :
  String.concat " " (logfmt_pair <$> p :: pairs) = Key p +:+ String "=" (logfmt_value (Value p) +:+ after_pair pairs).
Proof. rewrite fmap_cons, concat_cons. apply pair_text. Qed.

Lemma parse_pairs_back pairs fuel :
  Forall (fun p => keyPattern (Key p) = true) pairs ->
  (String.length (String.concat " " (logfmt_pair <$> pairs)) <= fuel)%nat ->
  parse_logfmt_pairs fuel (String.concat " " (logfmt_pair <$> pairs)) = Some pairs.
Proof.
  intros Hk. revert fuel. induction Hk as [|[key v] pairs Hkey Hk IH]; intros fuel; [by destruct fuel|].
  rewrite concat_pairs. cbn [Key Value] in *. rewrite length_string_app. cbn [String.length]. rewrite length_string_app.
  intros Hl. destruct fuel as [|fuel]; [lia|].
  assert (forall X, parse_logfmt_pairs (S fuel) (key +:+ String "=" X) =
    '(val, rest) ← parse_value X;
    match rest with
    | EmptyString => Some [mkField key val]
    | String c rest => if is_byte 32 c then cons (mkField key val) <$> parse_logfmt_pairs fuel rest else None
    end) as ->.
  { intros X. pose proof (cut_byte_app "=" key X (keyPattern_clean key "=" Hkey eq_refl)) as Hcut.
    destruct (keyPattern_cons key Hkey) as (c & k & -> & _). cbn [String.append] in *. cbn [parse_logfmt_pairs]. by rewrite Hcut, Hkey. }
  rewrite parse_value_back by apply after_pair_ok. cbn [mbind option_bind]. unfold after_pair in *.
  destruct pairs as [|p pairs]; [done|]. rewrite fmap_cons in *. cbn [String.append is_byte]. cbn -[String.concat logfmt_pair parse_logfmt_pairs].
  change (is_byte 32 " ") with true. cbv iota. rewrite IH; [done|]. cbn [String.length String.append] in Hl. lia.
Qed.

Lemma TrimSuffix_app a b : TrimSuffix (a +:+ b) b = a.
Proof. unfold TrimSuffix. rewrite string_rev_app, strip_prefix_app. apply string_rev_involutive. Qed.

Lemma logfmt_round_trip pairs : Forall (fun p => keyPattern (Key p) = true) pairs -> ParseLogfmt (EncodeLogfmt pairs) = Some pairs.
Proof. intros Hk. unfold ParseLogfmt, EncodeLogfmt. rewrite TrimSuffix_app. by apply parse_pairs_back. Qed.

(** ** The closing quote is found *)

Definition plain (c : ascii) : bool := negb (is_byte 34 c) && negb (is_byte 92 c).

(** The scan passes over [q] and looks for the quote in what follows. *)
Definition passes (q : string) : Prop :=
  forall X, closing_quote false (q +:+ X) = '(inside, after) ← closing_quote false X; Some (q +:+ inside, after).

Lemma passes_app a b : passes a -> passes b -> passes (a +:+ b).
Proof.
  intros Ha Hb X. rewrite app_assoc_string, Ha, Hb. destruct (closing_quote false X) as [[i r]|]; [|done]. cbn.
  by rewrite app_assoc_string.
Qed.

Lemma passes_plain q : forall_bytes plain q = true -> passes q.
Proof.
  induction q as [|c q IH]; [intros _ X; cbn; by destruct (closing_quote false X) as [[? ?]|]|].
  cbn. intros [[Hq Hb]%andb_prop Hr]%andb_prop X. apply negb_true_iff in Hq, Hb. cbn. rewrite Hq, Hb, IH by done.
  by destruct (closing_quote false X) as [[? ?]|].
Qed.

Lemma passes_escape c q : forall_bytes plain q = true -> passes (backslash +:+ String c q).
Proof.
  intros Hq X. cbn. change (is_byte 34 (byte_of 92)) with false. change (is_byte 92 (byte_of 92)) with true. cbn.
  rewrite (passes_plain q Hq X). by destruct (closing_quote false X) as [[? ?]|].
Qed.

Lemma forall_bytes_app p a b : forall_bytes p (a +:+ b) = forall_bytes p a && forall_bytes p b.
Proof. induction a as [|c a IH]; cbn; [done|]. by rewrite IH, andb_assoc. Qed.

Lemma hex_plain w n : 0 <= n -> forall_bytes plain (hex w n) = true.
Proof.
  revert n. induction w as [|w IH]; intros n Hn; [done|]. cbn [hex]. rewrite forall_bytes_app, IH by (apply Z.div_pos; lia).
  destruct (hex_digit_back (n mod 16)) as (c & -> & Hc); [apply Z.mod_pos_bound; lia|]. cbn. rewrite andb_true_r. unfold plain, is_byte.
  destruct (Nat.eqb (Ascii.nat_of_ascii c) 34) eqn:E1; [apply Nat.eqb_eq in E1; unfold unhex in Hc; by rewrite E1 in Hc|].
  destruct (Nat.eqb (Ascii.nat_of_ascii c) 92) eqn:E2; [apply Nat.eqb_eq in E2; unfold unhex in Hc; by rewrite E2 in Hc|done].
Qed.

Lemma passes_ascii c : is_ascii c = true -> passes (ascii_quoted c).
Proof.
  destruct c as [[] [] [] [] [] [] [] []]; intros Hc; try discriminate Hc; clear Hc;
    first [apply passes_plain; vm_compute; reflexivity|apply passes_escape; vm_compute; reflexivity].
Qed.

Lemma high_plain c : (128 <= Ascii.nat_of_ascii c)%nat -> plain c = true.
Proof. intros Hc. unfold plain, is_byte. rewrite !(proj2 (Nat.eqb_neq _ _)) by lia. done. Qed.

Lemma take_cont_plain n lo hi t : (128 <= lo)%nat -> take_cont n lo hi t = Some t -> forall_bytes plain t = true.
Proof.
  revert lo hi t. induction n as [|n IH]; intros lo hi t Hlo; [intros [= <-]; done|]. destruct t as [|c t]; [done|]. cbn.
  destruct (byte_in lo hi c) eqn:Eb; [|done]. intros (t' & Ht & [= <-])%fmap_Some. apply byte_in_bounds in Eb.
  rewrite high_plain by lia. by apply (IH 128%nat 191%nat); [lia|].
Qed.

Lemma passes_rune c n lo hi t : rune_lead c = Some (S n, lo, hi) -> take_cont (S n) lo hi t = Some t -> passes (rune_quoted c t).
Proof.
  intros Hc Ht. pose proof (rune_lead_cases _ _ _ _ Hc) as Hcases. cbv zeta in Hcases.
  destruct (rune_code_back _ _ _ _ _ _ Hc Ht) as (_ & _ & Hr & _). unfold rune_quoted.
  destruct (unicode_print (String c t)); [|destruct (_ <? _); apply passes_escape, hex_plain; done].
  apply passes_plain. cbn. rewrite high_plain by lia. apply (take_cont_plain (S n) lo hi); [lia|done].
Qed.

Lemma closing_quote_back s X : closing_quote false (quote_from 0 s +:+ dquote +:+ X) = Some (quote_from 0 s, X).
Proof.
  assert (passes (quote_from 0 s)) as Hp.
  { apply (quote_from_ind (fun _ q => passes q)).
    - intros Y. cbn. by destruct (closing_quote false Y) as [[? ?]|].
    - intros c s' q Hc Hq. by apply passes_app; [apply passes_ascii|].
    - intros c s' q Hq. apply passes_app; [|done]. apply passes_escape, hex_plain. lia.
    - intros c n lo hi t s' q Hc Ht Hq. apply passes_app; [by eapply passes_rune|done]. }
  rewrite Hp. change (closing_quote false (dquote +:+ X)) with (Some ("", X)). cbn. by rewrite string_app_nil_r.
Qed.

Lemma not_quote q : Ascii.eqb (byte_of 34) q = false -> is_byte 34 q = false.
Proof.
  intros Hq%Ascii.eqb_neq. apply Nat.eqb_neq. intros En. apply Hq. by rewrite <- (Ascii.ascii_nat_embedding q), En.
Qed.

Lemma record_pairs_back pairs fuel :
  Forall (fun p => keyPattern (Key p) = true) pairs ->
  (String.length (String.concat " " (logfmt_pair <$> pairs)) <= fuel)%nat ->
  record_pairs fuel (String.concat " " (logfmt_pair <$> pairs)) = Some pairs.
Proof.
  intros Hk. revert fuel. induction Hk as [|[key v] pairs Hkey Hk IH]; intros fuel; [by destruct fuel|].
  rewrite concat_pairs. cbn [Key Value] in *. rewrite length_string_app. cbn [String.length]. rewrite length_string_app.
  intros Hl. destruct fuel as [|fuel]; [lia|].
  assert (forall fuel', (String.length (after_pair pairs) <= fuel')%nat -> record_pairs fuel' (after_pair pairs) = Some pairs) as Hafter.
  { intros fuel' Hl'. unfold after_pair in *. destruct pairs as [|p pairs]; [by destruct fuel'|]. rewrite fmap_cons in *.
    cbn [String.length String.append] in Hl'. destruct fuel' as [|fuel']; [lia|]. cbn [String.append record_pairs].
    change (is_byte 32 " ") with true. cbv iota. apply IH. lia. }
  pose proof (cut_byte_app "=" key (logfmt_value v +:+ after_pair pairs) (keyPattern_clean key "=" Hkey eq_refl)) as Hcut.
  destruct (keyPattern_cons key Hkey) as (c & k & -> & Hc). cbn [String.append] in *. cbn [record_pairs]. rewrite Hc, Hcut.
  rewrite bool_decide_eq_false_2 by done. clear Hcut Hc. unfold logfmt_value in *. destruct (logfmtNeedsQuoting v) eqn:Eq.
  - assert (Quote v +:+ after_pair pairs = String (byte_of 34) (quote_from 0 v +:+ dquote +:+ after_pair pairs)) as ->
      by (unfold Quote; by rewrite !app_assoc_string).
    change (is_byte 34 (byte_of 34)) with true. cbv iota. rewrite closing_quote_back. cbn [mbind option_bind].
    assert (Unquote (dquote +:+ quote_from 0 v +:+ dquote) = Some v) as -> by apply Unquote_Quote. cbn [mbind option_bind].
    rewrite Hafter by lia. done.
  - destruct (unquoted_clean v Eq) as (Hsp & _ & Hq & _). destruct (after_pair_ok pairs) as [E|[r E]]; rewrite E in *.
    + rewrite string_app_nil_r. assert (pairs = []) as ->.
      { unfold after_pair in E. destruct pairs; [done|]. by rewrite fmap_cons in E. }
      destruct v as [|q v']; [done|]. cbn in Hq. apply orb_false_elim in Hq as [Hq _].
      rewrite (not_quote q Hq). by rewrite (proj2 (cut_byte_None " " (String q v'))).
    + specialize (Hafter (S fuel)). cbn [record_pairs String.append String.length] in Hafter. change (is_byte 32 " ") with true in Hafter. cbv iota in Hafter.
      cbn [String.append String.length] in Hl |- *. rewrite (cut_byte_app " " v r Hsp).
      rewrite Hafter by lia. destruct v as [|q v']; [done|]. cbn in Hq. apply orb_false_elim in Hq as [Hq _].
      cbn [String.append]. by rewrite (not_quote q Hq).
Qed.

(** ** A record has no control byte *)

Definition printing (c : ascii) : bool := Nat.leb 32 (Ascii.nat_of_ascii c).
#[local] Arguments printing : simpl never.

Lemma forall_bytes_impl (p q : ascii -> bool) s : (forall c, p c = true -> q c = true) -> forall_bytes p s = true -> forall_bytes q s = true.
Proof. intros Hpq. induction s as [|c s IH]; [done|]. cbn. intros [Hc Hs]%andb_prop. by rewrite (Hpq c Hc), IH. Qed.

Lemma hex_printing w n : 0 <= n -> forall_bytes printing (hex w n) = true.
Proof.
  revert n. induction w as [|w IH]; intros n Hn; [done|]. cbn [hex]. rewrite forall_bytes_app, IH by (apply Z.div_pos; lia).
  destruct (hex_digit_back (n mod 16)) as (c & -> & Hc); [apply Z.mod_pos_bound; lia|]. cbn. rewrite andb_true_r. unfold printing.
  apply Nat.leb_le. unfold unhex in Hc. repeat match type of Hc with context [if ?b then _ else _] => destruct b eqn:? end; try done; lia.
Qed.

Lemma take_cont_printing n lo hi t : (128 <= lo)%nat -> take_cont n lo hi t = Some t -> forall_bytes printing t = true.
Proof.
  revert lo hi t. induction n as [|n IH]; intros lo hi t Hlo; [intros [= <-]; done|]. destruct t as [|c t]; [done|]. cbn.
  destruct (byte_in lo hi c) eqn:Eb; [|done]. intros (t' & Ht & [= <-])%fmap_Some. apply byte_in_bounds in Eb.
  assert (printing c = true) as -> by (apply Nat.leb_le; lia). by apply (IH 128%nat 191%nat); [lia|].
Qed.

Lemma quote_printing s : forall_bytes printing (quote_from 0 s) = true.
Proof.
  apply (quote_from_ind (fun _ q => forall_bytes printing q = true)); [done| | |].
  - intros c s' q Hc Hq. rewrite forall_bytes_app, Hq, andb_true_r. clear -Hc.
    destruct c as [[] [] [] [] [] [] [] []]; try discriminate Hc; vm_compute; reflexivity.
  - intros c s' q Hq. rewrite !forall_bytes_app, Hq, andb_true_r, hex_printing by lia. done.
  - intros c n lo hi t s' q Hc Ht Hq. rewrite forall_bytes_app, Hq, andb_true_r.
    pose proof (rune_lead_cases _ _ _ _ Hc) as Hcases. cbv zeta in Hcases. destruct (rune_code_back _ _ _ _ _ _ Hc Ht) as (_ & _ & Hr & _).
    unfold rune_quoted. destruct (unicode_print _); [|destruct (_ <? _); rewrite !forall_bytes_app, hex_printing by done; done].
    cbn [forall_bytes]. assert (printing c = true) as -> by (apply Nat.leb_le; lia). apply (take_cont_printing (S n) lo hi); [lia|done].
Qed.

Lemma value_printing v : forall_bytes printing (logfmt_value v) = true.
Proof.
  unfold logfmt_value. destruct (logfmtNeedsQuoting v) eqn:Eq.
  - unfold Quote. rewrite !forall_bytes_app, quote_printing. done.
  - unfold logfmtNeedsQuoting in Eq. apply orb_false_elim in Eq as [_ Eq]. apply negb_false_iff in Eq.
    eapply forall_bytes_impl; [|exact Eq]. intros c [Hc%byte_in_bounds|Hc]%orb_prop; apply Nat.leb_le; [lia|].
    unfold is_ascii in Hc. apply negb_true_iff, Nat.ltb_ge in Hc. lia.
Qed.

Lemma key_printing key : keyPattern key = true -> forall_bytes printing key = true.
Proof.
  assert (forall c, key_byte c = true -> printing c = true) as Hb.
  { unfold key_byte, is_byte. intros c [[Hc%byte_in_bounds|Hc%byte_in_bounds]%orb_prop|Hc%Nat.eqb_eq]%orb_prop; apply Nat.leb_le; lia. }
  destruct key as [|c k]; [done|]. cbn. intros [Hc Hk]%andb_prop. rewrite Hb by (unfold key_byte; unfold key_head in Hc; by rewrite Hc).
  by eapply forall_bytes_impl.
Qed.

Lemma record_printing pairs : Forall (fun p => keyPattern (Key p) = true) pairs ->
  forall_bytes printing (String.concat " " (logfmt_pair <$> pairs)) = true.
Proof.
  induction 1 as [|p pairs Hk Hks IH]; [done|]. rewrite concat_pairs, forall_bytes_app, key_printing by done. cbn [forall_bytes].
  rewrite forall_bytes_app, value_printing. unfold after_pair. destruct pairs as [|p' pairs]; [done|]. rewrite fmap_cons in *.
  cbn [String.append forall_bytes]. by rewrite IH.
Qed.
End Back.
