(* ===== verification/EmitWriter.v ===== *)
(** The report writer (src/pkg/emit: finding.go, writer.go, findings_format.go): the one place
    every finding of a check passes on its way to the stream.

    A [Writer] is its state, with the interfaces it was given (sanitizer, exemptions,
    visibility, policy, folds) as functions and each watcher as the findings it was called
    with. The stream is the lines written so far; whether a write succeeds is the class
    [Output]. [json.Marshal] of a string and the upper case of runes past ASCII are classes.
    The text of an error is left out. *)
From S2P Require Import Prelude GoTime GoStrings GoFmt GoQuote Logfmt.
From Stdlib Require Import Ascii.
Open Scope Z_scope.
Open Scope lookout_scope.

Class Output := write_ok : list string -> string -> bool.
Class JsonString := marshal_string : string -> string.
Class UnicodeUpper := unicode_upper : string -> string.

(** ** Findings *)

Record Finding := mkFinding {
  f_Kind : string;
  f_Severity : string;
  f_Namespace : string;
  f_KindOfObject : string;
  f_Name : string;
  f_Reason : string;
  f_Message : string;
  f_Fingerprint : string;
  f_ExemptReason : string;
  f_ExemptExpires : string;
  f_Details : list Field
}.

Definition EnvelopeFields : list string :=
  ["kind"; "severity"; "namespace"; "kind_of_object"; "name"; "reason"; "message"; "fingerprint"; "exempt_reason"; "exempt_expires"].
Definition ResponseNoteFields : list string := ["response_truncated"; "response_truncated_severity"; "response_hint"].
Definition SummaryNoteFields : list string :=
  ["exempt"; "context"; "clusters"; "clusters_failed"; "hidden"; "policy"; "suppressed"] ++ ResponseNoteFields.

Definition envelope (f : Finding) : list Field :=
  [mkField "kind" (f_Kind f); mkField "severity" (f_Severity f); mkField "namespace" (f_Namespace f);
   mkField "kind_of_object" (f_KindOfObject f); mkField "name" (f_Name f); mkField "reason" (f_Reason f);
   mkField "message" (f_Message f); mkField "fingerprint" (f_Fingerprint f);
   mkField "exempt_reason" (f_ExemptReason f); mkField "exempt_expires" (f_ExemptExpires f)].

(** Empty values are omitted. *)
Definition pairs (f : Finding) : list Field := List.filter (fun p => Value p <>s "") (envelope f ++ f_Details f).

Definition validate_finding (f : Finding) : bool := (f_Kind f <>s "") && forallb (fun d => keyPattern (Key d)) (f_Details f).

(** ** The writer *)

Inductive Format := FormatLogfmt | FormatJSON | FormatFindings.

Definition ParseFormat (s : string) : option Format :=
  if s ==s "logfmt" then Some FormatLogfmt else if s ==s "json" then Some FormatJSON
  else if s ==s "findings" then Some FormatFindings else None.

Record CheckPolicy := mkPolicy { policy_Name : string; Decide : string -> string -> string -> bool * string }.

Record Writer := mkWriter {
  w_out : list string;
  w_format : Format;
  w_sanitize : Finding -> Finding;
  w_exempt : option (string -> string -> string -> option (string * string));
  w_visible : option (string -> bool);
  w_policy : option CheckPolicy;
  w_findings : Z;
  w_exempted : Z;
  w_hidden : Z;
  w_suppressed : Z;
  w_notes : list Field;
  w_stamps : list Field;
  w_watchers : list (list Finding);
  w_folds : list (Finding -> bool)
}.

Definition SetPolicy (p : option CheckPolicy) (w : Writer) : Writer :=
  match p, w_policy w with
  | None, _ | _, None => w <| w_policy := p |>
  | Some _, Some _ => w
  end.

Definition NewWriter (format : string) (sanitize : Finding -> Finding)
    (exempt : option (string -> string -> string -> option (string * string))) (visible : option (string -> bool))
    (policy : option CheckPolicy) : option Writer :=
  format ← ParseFormat format;
  Some (SetPolicy policy (mkWriter [] format sanitize exempt visible None 0 0 0 0 [] [] [] [])).

Definition isPolicyMetaKind (kind : string) : bool :=
  HasSuffix kind ".unavailable" || HasPrefix kind "scan." || (kind ==s "audit.policy_rule").

(** *** Stamps, watchers, folds and notes *)

(** The first field of the key, replaced; none when no field has it. *)
Fixpoint replace_value (key value : string) (l : list Field) : option (list Field) :=
  match l with
  | [] => None
  | p :: l => if Key p ==s key then Some (mkField (Key p) value :: l) else cons p <$> replace_value key value l
  end.

Fixpoint remove_key (key : string) (l : list Field) : list Field :=
  match l with [] => [] | p :: l => if Key p ==s key then l else p :: remove_key key l end.

Definition Stamp (key value : string) (w : Writer) : Writer * bool :=
  if negb (keyPattern key) || bool_decide (key ∈ EnvelopeFields) then (w, false)
  else match replace_value key value (w_stamps w) with
  | Some stamps => (w <| w_stamps := if value ==s "" then remove_key key (w_stamps w) else stamps |>, true)
  | None => (if value <>s "" then w <| w_stamps := w_stamps w ++ [mkField key value] |> else w, true)
  end.

Definition apply_stamps (w : Writer) (f : Finding) : Finding :=
  match w_stamps w with
  | [] => f
  | stamps =>
      let missing s := negb (bool_decide (Key s ∈ Key <$> f_Details f)) in
      f <| f_Details := List.filter missing stamps ++ f_Details f |>
  end.

Definition Watch (w : Writer) : Writer := w <| w_watchers := w_watchers w ++ [[]] |>.
Definition Fold (fn : Finding -> bool) (w : Writer) : Writer := w <| w_folds := w_folds w ++ [fn] |>.

(** [note], the path without the guard on reserved keys. *)
Definition note_key (key value : string) (w : Writer) : Writer * bool :=
  if negb (keyPattern key) then (w, false)
  else match replace_value key value (w_notes w) with
  | Some notes => (w <| w_notes := notes |>, true)
  | None => (w <| w_notes := w_notes w ++ [mkField key value] |>, true)
  end.

Definition Note (key value : string) (w : Writer) : Writer * bool :=
  if negb (keyPattern key) then (w, false)
  else if bool_decide (key ∈ ["scanned"; "findings"; "elapsed"]) then (w, false)
  else if bool_decide (key ∈ SummaryNoteFields) then (w, false)
  else note_key key value w.

(** ** Encodings *)

Section Encodings.
Context `{UnicodePrint} `{JsonString} `{UnicodeUpper}.

Definition encodeJSON (ps : list Field) : string :=
  "{" +:+ String.concat "," ((fun p => dquote +:+ Key p +:+ dquote +:+ ":" +:+ marshal_string (Value p)) <$> ps) +:+ "}" +:+ newline.

Definition encodeJSONSummary (ps : list Field) (scanned findings : Z) : string :=
  "{" +:+ dquote +:+ "scanned" +:+ dquote +:+ ":" +:+ itoa scanned +:+ "," +:+ dquote +:+ "findings" +:+ dquote +:+ ":" +:+ itoa findings +:+
  foldr String.append "" ((fun p => "," +:+ Quote (Key p) +:+ ":" +:+ marshal_string (Value p)) <$> drop 2 ps) +:+ "}" +:+ newline.

Definition ascii_upper (c : ascii) : ascii :=
  let n := Ascii.nat_of_ascii c in if Nat.leb 97 n && Nat.leb n 122 then Ascii.ascii_of_nat (n - 32) else c.
Definition ToUpper (s : string) : string := if forall_bytes is_ascii s then map_bytes ascii_upper s else unicode_upper s.

Definition findingSubject (f : Finding) : string :=
  let obj := f_KindOfObject f <>s "" in
  let ns := f_Namespace f <>s "" in
  let nm := f_Name f <>s "" in
  if obj && ns && nm then f_KindOfObject f +:+ "/" +:+ f_Namespace f +:+ "/" +:+ f_Name f
  else if obj && nm then f_KindOfObject f +:+ "/" +:+ f_Name f
  else if ns && nm then f_Namespace f +:+ "/" +:+ f_Name f
  else if nm then f_Name f
  else if ns then f_Namespace f
  else if obj then f_KindOfObject f
  else "".

Definition ticked (s : string) : string := "`" +:+ s +:+ "`".

Definition encodeFindings (f : Finding) : string :=
  let sev := ToUpper (f_Severity f) in
  let sev := if sev ==s "" then "INFO" else sev in
  let head := "### [" +:+ sev +:+ "] " +:+ f_Kind f in
  let head := if f_Reason f <>s "" then head +:+ " (" +:+ ticked (f_Reason f) +:+ ")" else head in
  let subj := findingSubject f in
  let head := if subj <>s "" then head +:+ " — " +:+ ticked subj else head in
  let status := if f_ExemptReason f <>s "" then "EXEMPT" else "FAIL" in
  let status := "- **Status:** " +:+ status +:+ newline in
  let detail := if f_Message f <>s "" then "- **Detail:** " +:+ f_Message f +:+ newline else "" in
  let exemption :=
    if f_ExemptReason f <>s "" then
      if f_ExemptExpires f <>s ""
      then "- **Exemption:** " +:+ f_ExemptReason f +:+ " (expires " +:+ ticked (f_ExemptExpires f) +:+ ")" +:+ newline
      else "- **Exemption:** " +:+ f_ExemptReason f +:+ newline
    else "" in
  let ev := (fun d => ticked (Key d +:+ "=" +:+ Value d)) <$> List.filter (fun d => Value d <>s "") (f_Details f) in
  let ev :=
    if f_ExemptReason f <>s "" then
      ev ++ [ticked ("exempt_reason=" +:+ f_ExemptReason f)] ++
      (if f_ExemptExpires f <>s "" then [ticked ("exempt_expires=" +:+ f_ExemptExpires f)] else [])
    else ev in
  let evidence := match ev with [] => "" | _ => "- **Evidence:** " +:+ String.concat ", " ev +:+ newline end in
  head +:+ newline +:+ status +:+ detail +:+ exemption +:+ evidence +:+ newline.

Definition encodeFindingsSummary (ps : list Field) : string :=
  "### Summary" +:+ newline +:+
  foldr String.append "" ((fun p => "- **" +:+ Key p +:+ ":** " +:+ ticked (Value p) +:+ newline) <$> ps) +:+ newline +:+ EncodeLogfmt ps.

Definition encode_finding (format : Format) (f : Finding) : string :=
  match format with
  | FormatJSON => encodeJSON (pairs f)
  | FormatFindings => encodeFindings f
  | FormatLogfmt => EncodeLogfmt (pairs f)
  end.

(** ** [Emit] *)

Definition write `{Output} (line : string) (w : Writer) : Writer * bool :=
  if write_ok (w_out w) line then (w <| w_out := w_out w ++ [line] |>, true) else (w, false).

(** The policy's word on a finding: withheld, or passed with its severity. *)
Definition apply_policy (w : Writer) (f : Finding) : option Finding :=
  match w_policy w with
  | Some p =>
      if isPolicyMetaKind (f_Kind f) then Some f
      else
        let '(enabled, outSev) := Decide p (f_Kind f) (f_Reason f) (f_Severity f) in
        if negb enabled then None
        else Some (if outSev <>s "" then f <| f_Severity := outSev |> else f)
  | None => Some f
  end.

Definition annotate (w : Writer) (f : Finding) : Finding * bool :=
  match w_exempt w with
  | Some exempt =>
      match exempt (f_Kind f) (f_Namespace f) (f_Name f) with
      | Some (reason, expires) => (f <| f_ExemptReason := reason |> <| f_ExemptExpires := expires |>, true)
      | None => (f, false)
      end
  | None => (f, false)
  end.

Definition is_visible (w : Writer) (f : Finding) : bool :=
  match w_visible w with Some visible => visible (f_Namespace f) | None => true end.

(** The writer after it, and whether it returned without an error. *)
Definition Emit `{Output} (f : Finding) (w : Writer) : Writer * bool :=
  let f := w_sanitize w f in
  if negb (is_visible w f) then (w <| w_hidden := w_hidden w + 1 |>, true)
  else
    let f := apply_stamps w f in
    if existsb (fun fold => fold f) (w_folds w) then (w, true)
    else if negb (validate_finding f) then (w, false)
    else match apply_policy w f with
    | None => (w <| w_suppressed := w_suppressed w + 1 |>, true)
    | Some f =>
        let '(f, exempted) := annotate w f in
        let '(w, ok) := write (encode_finding (w_format w) f) w in
        if negb ok then (w, false)
        else
          let w := w <| w_findings := w_findings w + 1 |> in
          let w := if exempted then w <| w_exempted := w_exempted w + 1 |> else w in
          (w <| w_watchers := (fun seen => seen ++ [f]) <$> w_watchers w |>, true)
    end.

(** ** [Summary] *)

Definition summary_pairs (scanned : Z) (elapsed : Duration) (w : Writer) : list Field :=
  [mkField "scanned" (itoa scanned); mkField "findings" (itoa (w_findings w)); mkField "elapsed" (Duration_String elapsed)] ++
  w_notes w ++
  match w_policy w with
  | Some p => (if policy_Name p <>s "" then [mkField "policy" (policy_Name p)] else []) ++ [mkField "suppressed" (itoa (w_suppressed w))]
  | None => []
  end ++
  match w_exempt w with Some _ => [mkField "exempt" (itoa (w_exempted w))] | None => [] end ++
  match w_visible w with Some _ => [mkField "hidden" (itoa (w_hidden w))] | None => [] end.

Definition Summary `{Output} (scanned : Z) (elapsed : Duration) (w : Writer) : Writer * bool :=
  let ps := summary_pairs scanned elapsed w in
  write (match w_format w with
         | FormatJSON => encodeJSONSummary ps scanned (w_findings w)
         | FormatFindings => encodeFindingsSummary ps
         | FormatLogfmt => EncodeLogfmt ps
         end) w.
End Encodings.

(** ** Every finding is accounted for

    Each one offered is written, hidden, folded, suppressed or refused, and counted as what it
    was; the stream, the counters and the watchers agree. *)

Section Accounting.
Context `{UnicodePrint} `{JsonString} `{UnicodeUpper} `{Output}.
Implicit Types (w : Writer) (f g : Finding).

(** What a writer was given, which no [Emit] changes. *)
Definition same_setup w1 w2 : Prop :=
  w_format w1 = w_format w2 /\ w_sanitize w1 = w_sanitize w2 /\ w_exempt w1 = w_exempt w2 /\ w_visible w1 = w_visible w2 /\
  w_policy w1 = w_policy w2 /\ w_notes w1 = w_notes w2 /\ w_stamps w1 = w_stamps w2 /\ w_folds w1 = w_folds w2.

#[local] Instance same_setup_equiv : Equivalence same_setup.
Proof. split; repeat intro; unfold same_setup in *; intuition congruence. Qed.

(** A finding as it comes to the policy. *)
Definition prepared w f : Finding := apply_stamps w (w_sanitize w f).

Definition folded w f : bool := is_visible w (w_sanitize w f) && existsb (fun fold => fold (prepared w f)) (w_folds w).
Definition hides w f : bool := negb (is_visible w (w_sanitize w f)).

(** The finding that is written for [f], with its exemption; none when there is none. *)
Definition passes_to w f : option (Finding * bool) :=
  if hides w f || folded w f || negb (validate_finding (prepared w f)) then None
  else annotate w <$> apply_policy w (prepared w f).

Definition withheld w f : bool :=
  negb (hides w f || folded w f || negb (validate_finding (prepared w f))) && negb (bool_decide (is_Some (apply_policy w (prepared w f)))).

Definition Zcount {A} (p : A -> bool) (l : list A) : Z := Z.of_nat (length (List.filter p l)).
Definition Zb (b : bool) : Z := if b then 1 else 0.

Lemma Zcount_cons {A} (p : A -> bool) x l : Zcount p (x :: l) = Zb (p x) + Zcount p l.
Proof. unfold Zcount. cbn. destruct (p x); cbn; lia. Qed.

(** The state after a finding, with the finding that reached the stream if one did. *)
Definition after_emit w (written : option (Finding * bool)) (hid sup : bool) : Writer :=
  match written with
  | Some (g, exempted) =>
      w <| w_out := w_out w ++ [encode_finding (w_format w) g] |> <| w_findings := w_findings w + 1 |>
        <| w_exempted := w_exempted w + Zb exempted |> <| w_watchers := (fun seen => seen ++ [g]) <$> w_watchers w |>
  | None => w <| w_hidden := w_hidden w + Zb hid |> <| w_suppressed := w_suppressed w + Zb sup |>
  end.

(** One finding: it is hidden, folded, suppressed, refused, or it is written. *)
Lemma emit_cases w f :
  exists written, (Emit f w).1 = after_emit w written (hides w f) (withheld w f) /\
    match written with
    | Some g => passes_to w f = Some g /\ hides w f = false /\ folded w f = false /\ withheld w f = false /\ (Emit f w).2 = true
    | None => Zb (hides w f) + Zb (folded w f) + Zb (withheld w f) + Zb (negb (Emit f w).2) = 1 /\
        ((Emit f w).2 = true -> passes_to w f = None)
    end.
Proof.
  unfold Emit, passes_to, withheld, hides, folded. fold (prepared w f).
  assert (forall b c, w <| w_hidden := w_hidden w + Zb b |> <| w_suppressed := w_suppressed w + Zb c |> =
    after_emit w None b c) as Hnone by done.
  assert (after_emit w None false false = w) as Hw by (destruct w; unfold after_emit, Zb; cbn; by rewrite !Z.add_0_r).
  destruct (is_visible w (w_sanitize w f)) eqn:Ev; cbn [negb orb andb].
  2: { exists None. split; [|done]. destruct w; unfold after_emit, Zb; cbn. by rewrite Z.add_0_r. }
  destruct (existsb _ (w_folds w)) eqn:Ef; cbn [orb negb andb]; [exists None; by rewrite Hw|].
  destruct (validate_finding (prepared w f)) eqn:Evl; cbn [orb negb andb]; [|exists None; by rewrite Hw].
  destruct (apply_policy w (prepared w f)) as [g|] eqn:Ep; cbn [fmap option_fmap option_map].
  2: { exists None. split; [|done]. destruct w; unfold after_emit, Zb; cbn. by rewrite Z.add_0_r. }
  rewrite bool_decide_eq_true_2 by eauto. cbn [negb]. destruct (annotate w g) as [g' exempted] eqn:Ea.
  unfold write. destruct (write_ok (w_out w) _) eqn:Ew; cbn [negb].
  - exists (Some (g', exempted)). split; [|done]. destruct w, exempted; unfold after_emit, Zb; cbn; by rewrite ?Z.add_0_r.
  - exists None. by rewrite Hw.
Qed.

Fixpoint emit_all (fs : list Finding) (w : Writer) : Writer * list bool :=
  match fs with
  | [] => (w, [])
  | f :: fs => let '(w, ok) := Emit f w in let '(w, oks) := emit_all fs w in (w, ok :: oks)
  end.

Lemma after_emit_setup w written b c : same_setup w (after_emit w written b c).
Proof. unfold after_emit. destruct written as [[g e]|]; done. Qed.

(** The tests look at the setup only. *)
Lemma setup_tests w1 w2 f : same_setup w1 w2 ->
  hides w1 f = hides w2 f /\ folded w1 f = folded w2 f /\ withheld w1 f = withheld w2 f /\ passes_to w1 f = passes_to w2 f.
Proof.
  intros (E1 & E2 & E3 & E4 & E5 & E6 & E7 & E8).
  assert (hides w1 f = hides w2 f) as Hh by (unfold hides, is_visible; by rewrite E2, E4).
  assert (prepared w1 f = prepared w2 f) as Hp by (unfold prepared, apply_stamps; by rewrite E2, E7).
  assert (folded w1 f = folded w2 f) as Hf by (unfold folded, is_visible; by rewrite Hp, E2, E4, E8).
  assert (forall g, apply_policy w1 g = apply_policy w2 g) as Ha by (intros g; unfold apply_policy; by rewrite E5).
  assert (forall g, annotate w1 g = annotate w2 g) as Hn by (intros g; unfold annotate; by rewrite E3).
  split_and!; [done|done| |].
  - unfold withheld. by rewrite Hh, Hf, Hp, Ha.
  - unfold passes_to. rewrite Hh, Hf, Hp, Ha. destruct (_ || _); [done|]. destruct (apply_policy w2 _); [|done]. cbn. by rewrite Hn.
Qed.

Lemma Zcount_le {A} (p : A -> bool) l : 0 <= Zcount p l <= Z.of_nat (length l).
Proof. induction l as [|x l IH]; [done|]. rewrite Zcount_cons. cbn [length]. unfold Zb. destruct (p x); lia. Qed.

Lemma Zcount_ext {A} (p q : A -> bool) l : (forall x, p x = q x) -> Zcount p l = Zcount q l.
Proof. intros Hpq. induction l as [|x l IH]; [done|]. by rewrite !Zcount_cons, Hpq, IH. Qed.

(** The account of a run: what reached the stream, and the counters. *)
Definition accounted (fs : list Finding) w w' (oks : list bool) (gs : list (Finding * bool)) : Prop :=
    gs `sublist_of` omap (passes_to w) fs /\ (forallb id oks = true -> gs = omap (passes_to w) fs) /\
    w_out w' = w_out w ++ (encode_finding (w_format w) <$> gs.*1) /\
    w_watchers w' = (fun seen => seen ++ gs.*1) <$> w_watchers w /\
    w_findings w' - w_findings w = Z.of_nat (length gs) /\
    w_exempted w' - w_exempted w = Zcount snd gs /\ Zcount snd gs <= Z.of_nat (length gs) /\
    w_hidden w' - w_hidden w = Zcount (hides w) fs /\
    w_suppressed w' - w_suppressed w = Zcount (withheld w) fs /\
    Z.of_nat (length fs) = Z.of_nat (length gs) + Zcount (hides w) fs + Zcount (folded w) fs + Zcount (withheld w) fs + Zcount negb oks.

Lemma emit_all_accounted fs w : let '(w', oks) := emit_all fs w in same_setup w w' /\ exists gs, accounted fs w w' oks gs.
Proof.
  revert w. induction fs as [|f fs IH]; intros w; cbn [emit_all].
  { split; [done|]. exists []. split_and!; try done; cbn; rewrite ?app_nil_r; unfold Zcount; cbn; try lia; try done.
    rewrite <- (list_fmap_id (w_watchers w)) at 1. apply list_fmap_ext. intros i seen _. cbn. by rewrite app_nil_r. }
  destruct (emit_cases w f) as (written & Ew & Hw). destruct (Emit f w) as [w1 ok]. cbn [fst snd] in *.
  pose proof (after_emit_setup w written (hides w f) (withheld w f)) as Hset. rewrite <- Ew in Hset.
  specialize (IH w1). destruct (emit_all fs w1) as [w2 oks]. destruct IH as (Hset2 & gs & Hsub & Hall & Ho & Hwt & Hf & He & Hle & Hh & Hs & Hc).
  assert (forall g, hides w1 g = hides w g) as T1 by (intros g; by destruct (setup_tests w w1 g Hset) as (-> & _)).
  assert (forall g, folded w1 g = folded w g) as T2 by (intros g; by destruct (setup_tests w w1 g Hset) as (_ & -> & _)).
  assert (forall g, withheld w1 g = withheld w g) as T3 by (intros g; by destruct (setup_tests w w1 g Hset) as (_ & _ & -> & _)).
  assert (omap (passes_to w1) fs = omap (passes_to w) fs) as T4.
  { apply list_omap_ext. apply Forall_Forall2_diag, list.Forall_forall. intros g _. by destruct (setup_tests w w1 g Hset) as (_ & _ & _ & ->). }
  rewrite T4 in Hsub, Hall. rewrite (Zcount_ext _ _ fs T1) in Hh, Hc. rewrite (Zcount_ext _ _ fs T2) in Hc. rewrite (Zcount_ext _ _ fs T3) in Hs, Hc.
  assert (w_format w1 = w_format w) as T5 by (by destruct Hset).
  split; [by transitivity w1|].
  destruct written as [[g ex]|]; subst w1; cbn [after_emit] in *.
  - destruct Hw as (Hp & E1 & E2 & E3 & Eok). exists ((g, ex) :: gs). unfold accounted. cbn [omap list_omap]. rewrite Hp.
    rewrite !Zcount_cons, E1, E2, E3, Eok. cbn in Ho, Hwt, Hf, He, Hh, Hs |- *. split_and!; try done; try lia.
    + by apply sublist_skip.
    + intros Ha. by rewrite Hall.
    + by rewrite Ho, <- app_assoc.
    + rewrite Hwt, <- list_fmap_compose. apply list_fmap_ext. intros i seen _. cbn. by rewrite <- app_assoc.
    + unfold Zb. destruct ex; lia.
  - destruct Hw as (Hone & Hpass). exists gs. unfold accounted. cbn [omap list_omap]. rewrite !Zcount_cons. cbn in Ho, Hwt, Hf, He, Hh, Hs |- *.
    split_and!; try done; try lia.
    + destruct (passes_to w f); [by apply sublist_cons|done].
    + intros [Hok Ha]%andb_prop. rewrite (Hpass Hok). by apply Hall.
Qed.

(** C33: a run of findings through a writer: each of them is written, hidden from the
    caller, folded, suppressed by the policy or refused, and the counters say how many were
    which; nothing but the findings that pass is written, in order; [findings] counts the
    lines, [exempt] those that carry an exemption, never more; and every watcher has seen what
    was written. *)
Theorem findings_are_accounted_for (fs : list Finding) (w : Writer) :
  let '(w', oks) := emit_all fs w in
  exists gs : list (Finding * bool),
    gs `sublist_of` omap (passes_to w) fs /\ (forallb id oks = true -> gs = omap (passes_to w) fs) /\
    w_out w' = w_out w ++ (encode_finding (w_format w) <$> gs.*1) /\
    w_watchers w' = (fun seen => seen ++ gs.*1) <$> w_watchers w /\
    w_findings w' - w_findings w = Z.of_nat (length gs) /\
    w_exempted w' - w_exempted w = Zcount snd gs /\ Zcount snd gs <= Z.of_nat (length gs) /\
    w_hidden w' - w_hidden w = Zcount (hides w) fs /\
    w_suppressed w' - w_suppressed w = Zcount (withheld w) fs /\
    Z.of_nat (length fs) = Z.of_nat (length gs) + Zcount (hides w) fs + Zcount (folded w) fs + Zcount (withheld w) fs + Zcount negb oks.
Proof.
  pose proof (emit_all_accounted fs w) as Ha. destruct (emit_all fs w) as [w' oks]. destruct Ha as (_ & gs & Ha). by exists gs.
Qed.
End Accounting.
