(* ===== verification/Report.v ===== *)
(** Reading a report back (src/pkg/findings/report.go): the stream of a read-only command as the
    observations a diff is made from.

    The decoding of a JSON line is the class [JsonObject]: for each key of the object the raw
    value and, when it is a string, the string. The text of an error is left out. *)
From S2P Require Import Prelude GoTime GoStrings GoFmt GoQuote Signal Findings Logfmt EmitWriter.
From Stdlib Require Import Ascii.
Open Scope Z_scope.
Open Scope lookout_scope.

Class JsonObject := unmarshal_object : string -> option (gmap string (string * option string)).

Definition maxReportLine : Z := 2 ^ 20.

(** The lines of [bufio.Scanner]: none when one does not fit its buffer. *)
Definition dropCR (line : string) : string := TrimSuffix line (String (byte_of 13) "").

Definition scan_lines (text : string) : option (list string) :=
  let lines := SplitByte (byte_of 10) text in
  let lines := if List.last lines "" ==s "" then removelast lines else lines in
  if existsb (fun l => maxReportLine <=? Z.of_nat (String.length l)) lines then None else Some (dropCR <$> lines).

Section Reading.
Context `{JsonObject}.

Definition json_value (v : string * option string) : string := match v.2 with Some s => s | None => TrimSpace v.1 end.
Definition parseJSONRecord (text : string) : option (gmap string string) :=
  match unmarshal_object text with Some raw => Some (fmap (M := gmap string) json_value raw) | None => None end.

Definition parseRecord (text : string) : option (gmap string string) :=
  if HasPrefix text "{" then parseJSONRecord text else parseLogfmtRecord text.

Definition field (fields : gmap string string) (key : string) : string := default "" (fields !! key).

Definition isSummary (fields : gmap string string) : bool :=
  bool_decide (is_Some (fields !! "scanned")) && bool_decide (is_Some (fields !! "findings")).

(** The state of the loop: the observations, the records without a subject, and the count the
    summary line declared, once it was seen. *)
Record reading := mkReading { rd_out : list DiffObservation; rd_noSubject : Z; rd_declared : option Z }.

Definition finding_of (fields : gmap string string) : Findings.Finding :=
  Findings.mkFinding (field fields "severity") (field fields "namespace") (field fields "kind_of_object") (field fields "name")
    (field fields "reason") (field fields "message") (field fields "fingerprint").

Definition read_line (cluster : string) (r : reading) (line : string) : option reading :=
  let text := TrimSpace line in
  if text ==s "" then Some r
  else
    fields ← parseRecord text;
    match fields !! "kind" with
    | None =>
        if isSummary fields then
          match ParseInt (field fields "findings") with
          | Some n => if n <? 0 then None else Some (r <| rd_declared := Some n |>)
          | None => None
          end
        else None
    | Some _ =>
        match rd_declared r with
        | Some _ => None
        | None =>
            if (field fields "kind_of_object" ==s "") && (field fields "name" ==s "")
            then Some (r <| rd_noSubject := rd_noSubject r + 1 |>)
            else Some (r <| rd_out := rd_out r ++ [ObservationOf cluster (finding_of fields)] |>)
        end
    end.

Fixpoint read_lines (cluster : string) (lines : list string) (r : reading) : option reading :=
  match lines with
  | [] => Some r
  | line :: lines => r ← read_line cluster r line; read_lines cluster lines r
  end.

Definition ParseReport (cluster text : string) : option (list DiffObservation * Z) :=
  lines ← scan_lines text;
  r ← read_lines cluster lines (mkReading [] 0 None);
  match rd_declared r with
  | None => None
  | Some declared =>
      if Z.of_nat (length (rd_out r)) + rd_noSubject r =? declared then Some (rd_out r, rd_noSubject r) else None
  end.

(** ** What is written is read back *)

Context `{UnicodePrint}.

(** The map a list of pairs makes. *)
Lemma put_all_other l m k : k ∉ Key <$> l -> fold_left put_field l m !! k = m !! k.
Proof.
  revert m. induction l as [|p l IH]; intros m Hk; [done|]. cbn in *. rewrite IH by set_solver.
  unfold put_field. apply lookup_insert_ne. set_solver.
Qed.

Lemma put_all_nonempty l m k v : NoDup (Key <$> l) -> mkField k v ∈ l -> m !! k = None ->
  field (fold_left put_field (List.filter (fun p => Value p <>s "") l) m) k = v.
Proof.
  revert m. induction l as [|[k' v'] l IH]; intros m; [set_solver|]. rewrite fmap_cons, list.NoDup_cons. intros [Hnot Hnd] Hin Hm.
  cbn [List.filter Key Value] in *. apply elem_of_cons in Hin as [[= -> ->]|Hin].
  - assert (k' ∉ Key <$> List.filter (fun p => Value p <>s "") l) as Hk.
    { intros (p & -> & [Hp _]%elem_of_lfilter)%list_elem_of_fmap. apply Hnot, list_elem_of_fmap. eauto. }
    destruct (v' ==s "") eqn:Ev; cbn [negb fold_left].
    + apply bool_decide_eq_true in Ev as ->. unfold field. rewrite put_all_other by done. by rewrite Hm.
    + unfold field, put_field at 2. rewrite put_all_other by done. cbn. by rewrite lookup_insert_eq.
  - assert (k <> k') as Hne by (intros ->; apply Hnot, list_elem_of_fmap; by exists (mkField k' v)).
    destruct (v' <>s ""); [|by apply IH]. cbn [fold_left]. apply IH; [done|done|].
    unfold put_field. cbn. by rewrite lookup_insert_ne.
Qed.

Definition record_text (ps : list Field) : string := String.concat " " (logfmt_pair <$> ps).

Definition keyed (ps : list Field) : Prop := Forall (fun p => keyPattern (Key p) = true) ps.

(** A record whose last value ends in no space of Unicode, and that fits a line of the reader. *)
Definition tidy (ps : list Field) : Prop :=
  TrimSpace (record_text ps) = record_text ps /\ Z.of_nat (String.length (record_text ps)) < maxReportLine.

Lemma record_clean ps c : keyed ps -> (Ascii.nat_of_ascii c < 32)%nat -> contains_byte c (record_text ps) = false.
Proof.
  intros Hk Hc. eapply forall_bytes_contains; [by apply record_printing|]. apply Nat.leb_gt. lia.
Qed.

Lemma dropCR_clean line : contains_byte (byte_of 13) line = false -> dropCR line = line.
Proof.
  intros Hc. unfold dropCR, TrimSuffix. destruct (strip_prefix _ _) as [r|] eqn:E; [|done]. exfalso.
  apply strip_prefix_Some in E. assert (line = string_rev r +:+ String (byte_of 13) "") as El.
  { rewrite <- (string_rev_involutive line), E, string_rev_app. done. }
  rewrite El, contains_byte_app in Hc. cbn in Hc. by rewrite orb_true_r in Hc.
Qed.

(** The lines of a stream of records. *)
Definition stream (recs : list (list Field)) : string := foldr String.append "" (EncodeLogfmt <$> recs).

Lemma split_stream recs : Forall keyed recs -> SplitByte (byte_of 10) (stream recs) = (record_text <$> recs) ++ [""].
Proof.
  induction 1 as [|ps recs Hk Hks IH]; [done|]. unfold stream in *. cbn. unfold EncodeLogfmt at 1. rewrite app_assoc_string.
  change (newline +:+ ?x) with (String (byte_of 10) x). rewrite SplitByte_app by (by apply record_clean; [|vm_compute; lia]). by rewrite IH.
Qed.

Lemma scan_stream recs : Forall keyed recs -> Forall tidy recs -> scan_lines (stream recs) = Some (record_text <$> recs).
Proof.
  intros Hk Ht. unfold scan_lines. rewrite split_stream by done. rewrite List.last_last, List.removelast_last, bool_decide_eq_true_2 by done.
  destruct (existsb _ _) eqn:E.
  - exfalso. apply List.existsb_exists in E as (l & Hin & Hl). apply list_elem_of_In, list_elem_of_fmap in Hin as (ps & -> & Hps).
    apply Z.leb_le in Hl. rewrite list.Forall_forall in Ht. destruct (Ht ps Hps). lia.
  - f_equal. rewrite <- list_fmap_compose. apply list_fmap_ext. intros i ps Hi. cbn. apply dropCR_clean, record_clean; [|vm_compute; lia].
    rewrite list.Forall_forall in Hk. apply Hk. by eapply list_elem_of_lookup_2.
Qed.

(** A record is parsed into the map of its pairs. *)
Lemma parse_record ps : keyed ps -> ps <> [] -> TrimSpace (record_text ps) = record_text ps ->
  (TrimSpace (record_text ps) ==s "") = false /\ parseRecord (TrimSpace (record_text ps)) = Some (fold_left put_field ps ∅).
Proof.
  intros Hk Hne ->. destruct ps as [|p ps]; [done|]. unfold record_text.
  pose proof (record_pairs_back (p :: ps) (String.length (String.concat " " (logfmt_pair <$> p :: ps))) Hk ltac:(done)) as Hr.
  inversion Hk as [|? ? Hp Hps]; subst. unfold parseRecord, parseLogfmtRecord. rewrite Hr. rewrite concat_pairs.
  destruct (Key p) as [|c k]; [done|]. cbn [String.append]. split; [by apply bool_decide_eq_false_2|].
  cbn [keyPattern] in Hp. apply andb_prop in Hp as [Hc%byte_in_bounds _].
  assert (HasPrefix (String c (k +:+ String "=" (logfmt_value (Value p) +:+ after_pair ps))) "{" = false) as ->; [|done].
  destruct (HasPrefix _ _) eqn:E; [|done]. apply HasPrefix_spec in E as [r [= -> _]]. vm_compute in Hc. destruct Hc as [? Hc]. by destruct Hc.
Qed.

(** *** A finding's line *)

(** The envelope's keys are its own. *)
Definition own_keys (g : Finding) : Prop := Forall (fun d => Key d ∉ EnvelopeFields) (f_Details g).

Lemma envelope_field g k v : own_keys g -> mkField k v ∈ envelope g -> field (fold_left put_field (pairs g) ∅) k = v.
Proof.
  intros Ho Hin. unfold pairs. rewrite List.filter_app, fold_left_app. unfold field. rewrite put_all_other.
  - apply put_all_nonempty; [|done|done]. apply (bool_decide_unpack _). vm_compute. done.
  - assert (k ∈ EnvelopeFields) as Hk.
    { change EnvelopeFields with (Key <$> envelope g). apply list_elem_of_fmap. by exists (mkField k v). }
    intros (p & -> & [Hp _]%elem_of_lfilter)%list_elem_of_fmap. unfold own_keys in Ho. rewrite list.Forall_forall in Ho. by apply (Ho p).
Qed.

Lemma pairs_keyed g : validate_finding g = true -> keyed (pairs g).
Proof.
  unfold validate_finding. intros [_ Hd]%andb_prop. apply Forall_lfilter, Forall_app. split; [repeat constructor|].
  apply list.Forall_forall. intros d Hin. rewrite forallb_forall in Hd. by apply Hd, list_elem_of_In.
Qed.

Definition named (g : Finding) : bool := negb ((f_KindOfObject g ==s "") && (f_Name g ==s "")).

Definition diffed (g : Finding) : Findings.Finding :=
  Findings.mkFinding (f_Severity g) (f_Namespace g) (f_KindOfObject g) (f_Name g) (f_Reason g) (f_Message g) (f_Fingerprint g).

Definition read_finding (cluster : string) (r : reading) (g : Finding) : reading :=
  if named g then r <| rd_out := rd_out r ++ [ObservationOf cluster (diffed g)] |> else r <| rd_noSubject := rd_noSubject r + 1 |>.

Lemma kind_present g : own_keys g -> f_Kind g <> "" -> fold_left put_field (pairs g) ∅ !! "kind" = Some (f_Kind g).
Proof.
  intros Ho Hk. assert (field (fold_left put_field (pairs g) ∅) "kind" = f_Kind g) as Hf by (apply envelope_field; [done|set_solver]).
  unfold field in Hf. destruct (_ !! "kind"); cbn in Hf; [by rewrite Hf|by destruct Hk].
Qed.

Lemma finding_line cluster r g : validate_finding g = true -> own_keys g -> tidy (pairs g) -> rd_declared r = None ->
  read_line cluster r (record_text (pairs g)) = Some (read_finding cluster r g).
Proof.
  intros Hv Ho [Ht _] Hd. assert (f_Kind g <> "") as Hk.
  { unfold validate_finding in Hv. apply andb_prop in Hv as [Hv _]. intros E. by rewrite E in Hv. }
  assert (pairs g <> []) as Hne.
  { intros E. pose proof (kind_present g Ho Hk) as Hp. by rewrite E in Hp. }
  destruct (parse_record (pairs g) (pairs_keyed g Hv) Hne Ht) as [E1 E2].
  unfold read_line. rewrite E1, E2. cbn [mbind option_bind]. rewrite (kind_present g Ho Hk), Hd.
  assert (forall k v, mkField k v ∈ envelope g -> field (fold_left put_field (pairs g) ∅) k = v) as Hf by (intros; by apply envelope_field).
  unfold finding_of. rewrite (Hf "kind_of_object" (f_KindOfObject g)), (Hf "name" (f_Name g)), (Hf "severity" (f_Severity g)),
    (Hf "namespace" (f_Namespace g)), (Hf "reason" (f_Reason g)), (Hf "message" (f_Message g)), (Hf "fingerprint" (f_Fingerprint g))
    by (unfold envelope; repeat (apply list_elem_of_here || apply list_elem_of_further)).
  unfold read_finding, named, diffed. by destruct ((f_KindOfObject g ==s "") && (f_Name g ==s "")).
Qed.

Lemma read_lines_app cluster l1 l2 r : read_lines cluster (l1 ++ l2) r = r ← read_lines cluster l1 r; read_lines cluster l2 r.
Proof. revert r. induction l1 as [|l l1 IH]; intros r; [done|]. cbn. destruct (read_line cluster r l); [apply IH|done]. Qed.

Lemma finding_lines cluster gs r :
  Forall (fun g => validate_finding g = true /\ own_keys g /\ tidy (pairs g)) gs -> rd_declared r = None ->
  read_lines cluster ((fun g => record_text (pairs g)) <$> gs) r =
  Some (mkReading (rd_out r ++ (ObservationOf cluster ∘ diffed <$> List.filter named gs)) (rd_noSubject r + Zcount (fun g => negb (named g)) gs) None).
Proof.
  intros Hg. revert r. induction Hg as [|g gs (Hv & Ho & Ht) Hgs IH]; intros r Hd.
  { cbn. f_equal. destruct r as [out n d]. cbn in *. subst d. unfold Zcount. cbn. by rewrite app_nil_r, Z.add_0_r. }
  rewrite fmap_cons. cbn [read_lines]. rewrite (finding_line cluster r g Hv Ho Ht Hd). cbn [mbind option_bind].
  rewrite IH by (unfold read_finding; by destruct (named g)). rewrite Zcount_cons. unfold read_finding.
  cbn [List.filter]. destruct (named g); cbn; do 2 f_equal; [by rewrite <- app_assoc|lia].
Qed.

(** *** The summary's line *)

Definition notes_ok (w : Writer) : Prop :=
  Forall (fun p => keyPattern (Key p) = true /\ Key p ∉ ["kind"; "scanned"; "findings"]) (w_notes w).

Lemma replace_value_keys key value l l' : replace_value key value l = Some l' -> Key <$> l' = Key <$> l.
Proof.
  revert l'. induction l as [|p l IH]; intros l'; [done|]. cbn. destruct (Key p ==s key); [intros [= <-]; done|].
  intros (l0 & Hl & ->)%fmap_Some. cbn. by rewrite (IH l0).
Qed.

Lemma Note_ok key value w : key <> "kind" -> notes_ok w -> notes_ok (Note key value w).1.
Proof.
  intros Hk Hw. unfold Note, note_key. destruct (keyPattern key) eqn:Ek; cbn [negb]; [|done].
  destruct (bool_decide (key ∈ ["scanned"; "findings"; "elapsed"])) eqn:E1; [done|]. apply bool_decide_eq_false in E1.
  destruct (bool_decide (key ∈ SummaryNoteFields)); [done|].
  assert (keyPattern key = true /\ key ∉ ["kind"; "scanned"; "findings"]) as Hnew by (split; [done|set_solver]).
  unfold notes_ok in *. destruct (replace_value key value (w_notes w)) as [l'|] eqn:Er; cbn.
  - apply replace_value_keys in Er. rewrite list.Forall_forall in *. intros p Hp.
    assert (Key p ∈ Key <$> w_notes w) as (q & -> & Hq)%list_elem_of_fmap by (rewrite <- Er; apply list_elem_of_fmap; eauto). by apply Hw.
  - apply Forall_app. split; [done|]. by constructor.
Qed.

Lemma summary_keys scanned elapsed w : notes_ok w ->
  keyed (summary_pairs scanned elapsed w) /\ "kind" ∉ Key <$> summary_pairs scanned elapsed w.
Proof.
  intros Hn. unfold notes_ok in Hn. rewrite list.Forall_forall in Hn.
  assert (forall p, p ∈ summary_pairs scanned elapsed w -> keyPattern (Key p) = true /\ Key p <> "kind") as Hall.
  { intros p. unfold summary_pairs. rewrite !elem_of_app. intros [Hp|[Hp|[Hp|[Hp|Hp]]]].
    - repeat (apply elem_of_cons in Hp as [->|Hp]; [done|]). by apply not_elem_of_nil in Hp.
    - destruct (Hn p Hp) as [? Hk]. split; [done|]. set_solver.
    - destruct (w_policy w) as [pol|]; [|by apply not_elem_of_nil in Hp].
      apply elem_of_app in Hp as [Hp| ->%list_elem_of_singleton]; [|done]. destruct (_ <>s _); [|by apply not_elem_of_nil in Hp].
      by apply list_elem_of_singleton in Hp as ->.
    - destruct (w_exempt w); [|by apply not_elem_of_nil in Hp]. by apply list_elem_of_singleton in Hp as ->.
    - destruct (w_visible w); [|by apply not_elem_of_nil in Hp]. by apply list_elem_of_singleton in Hp as ->. }
  split; [apply list.Forall_forall; intros p Hp; by apply Hall|].
  intros (p & E & Hp)%list_elem_of_fmap. by destruct (Hall p Hp).
Qed.

Lemma summary_line cluster r scanned elapsed w :
  notes_ok w -> tidy (summary_pairs scanned elapsed w) -> 0 <= w_findings w <= int64_max ->
  read_line cluster r (record_text (summary_pairs scanned elapsed w)) =
    Some (mkReading (rd_out r) (rd_noSubject r) (Some (w_findings w))).
Proof.
  intros Hn [Ht _] Hf. destruct (summary_keys scanned elapsed w Hn) as [Hk Hkind].
  destruct (parse_record _ Hk ltac:(done) Ht) as [E1 E2]. unfold read_line. rewrite E1, E2. cbn [mbind option_bind].
  rewrite put_all_other, lookup_empty by done.
  assert (forall k, k = "scanned" \/ k = "findings" -> fold_left put_field (summary_pairs scanned elapsed w) ∅ !! k =
    fold_left put_field [mkField "scanned" (itoa scanned); mkField "findings" (itoa (w_findings w)); mkField "elapsed" (Duration_String elapsed)] ∅ !! k) as Hl.
  { intros k Hin. unfold summary_pairs. rewrite fold_left_app. apply put_all_other.
    assert (forall p, p ∈ w_notes w -> Key p <> k) as Hnotes.
    { unfold notes_ok in Hn. rewrite list.Forall_forall in Hn. intros p Hp <-. destruct (Hn p Hp) as [_ Hno]. apply Hno.
      destruct Hin as [-> | ->]; repeat (apply list_elem_of_here || apply list_elem_of_further). }
    intros (p & E & Hp)%list_elem_of_fmap. rewrite !elem_of_app in Hp. subst k.
    destruct Hp as [Hp|[Hp|[Hp|Hp]]]; [by apply (Hnotes p)| | |].
    - destruct (w_policy w) as [pol|]; [|by apply not_elem_of_nil in Hp].
      apply elem_of_app in Hp as [Hp| ->%list_elem_of_singleton]; [|by destruct Hin].
      destruct (_ <>s _); [|by apply not_elem_of_nil in Hp]. apply list_elem_of_singleton in Hp as ->. by destruct Hin.
    - destruct (w_exempt w); [|by apply not_elem_of_nil in Hp]. apply list_elem_of_singleton in Hp as ->. by destruct Hin.
    - destruct (w_visible w); [|by apply not_elem_of_nil in Hp]. apply list_elem_of_singleton in Hp as ->. by destruct Hin. }
  assert (forall a b c, fold_left put_field [mkField "scanned" a; mkField "findings" b; mkField "elapsed" c] (∅ : gmap string string) !! "scanned" = Some a /\
    fold_left put_field [mkField "scanned" a; mkField "findings" b; mkField "elapsed" c] (∅ : gmap string string) !! "findings" = Some b) as H3
    by (intros; split; reflexivity).
  unfold isSummary, field. rewrite (Hl "scanned"), (Hl "findings") by auto. rewrite (proj1 (H3 _ _ _)), (proj2 (H3 _ _ _)).
  rewrite !bool_decide_eq_true_2 by (by eexists). cbn [andb default from_option id].
  rewrite ParseInt_itoa by done. assert (w_findings w <? 0 = false) as -> by (apply Z.ltb_ge; lia). done.
Qed.

(** *** The whole stream *)

Context `{JsonString} `{UnicodeUpper} `{Output}.

Lemma passes_to_valid w f g e : passes_to w f = Some (g, e) -> validate_finding g = true.
Proof.
  unfold passes_to. destruct (hides w f || folded w f || negb (validate_finding (prepared w f))) eqn:E; [done|].
  apply orb_false_elim in E as [_ Hv%negb_false_iff]. intros (f1 & Hp & Ha)%fmap_Some.
  assert (validate_finding f1 = true) as Hv1.
  { unfold apply_policy in Hp. destruct (w_policy w) as [p|]; [|by injection Hp as <-].
    destruct (isPolicyMetaKind _); [by injection Hp as <-|]. destruct (Decide _ _ _ _) as [[] sev]; [|done].
    injection Hp as <-. by destruct (sev <>s ""). }
  unfold annotate in Ha. destruct (w_exempt w) as [ex|]; [|by injection Ha as -> _].
  destruct (ex _ _ _) as [[reason expires]|]; injection Ha as -> _; done.
Qed.

(** C32: what a command writes in logfmt is what the differ reads: when every finding was
    emitted without an error and the summary was written, the report parses, its observations
    are those of the findings written that name an object, in order, and the rest are counted.
    The findings' detail keys are not the envelope's, no note is called kind, and every record
    fits a line and ends in no space of Unicode. *)
Theorem report_round_trip (cluster : string) (w w1 w2 : Writer) (fs : list Finding) (oks : list bool)
    (scanned : Z) (elapsed : Duration)
    (Hw : w_format w = FormatLogfmt /\ w_out w = [] /\ w_findings w = 0 /\ notes_ok w)
    (He : emit_all fs w = (w1, oks)) (Hok : forallb id oks = true) (Hs : Summary scanned elapsed w1 = (w2, true))
    (Hg : Forall (fun g => own_keys g /\ tidy (pairs g)) (omap (passes_to w) fs).*1)
    (Ht : tidy (summary_pairs scanned elapsed w1)) (Hlen : Z.of_nat (length fs) <= int64_max) :
  let written := (omap (passes_to w) fs).*1 in
  ParseReport cluster (foldr String.append "" (w_out w2)) =
  Some (ObservationOf cluster ∘ diffed <$> List.filter named written, Zcount (fun g => negb (named g)) written).
Proof.
  intros written. destruct Hw as (Hfmt & Hout & Hzero & Hnotes).
  pose proof (emit_all_accounted fs w) as Ha. rewrite He in Ha. destruct Ha as (Hset & gs & _ & Hgs & Ho & _ & Hf & _ & _ & _ & _ & Hc).
  specialize (Hgs Hok). subst gs. fold written in Ho. rewrite Hout, Hfmt in Ho. cbn [app] in Ho.
  destruct Hset as (Ef & _ & _ & _ & _ & En & _).
  assert (keyed (summary_pairs scanned elapsed w1)) as Hk by (apply summary_keys; unfold notes_ok; by rewrite <- En).
  assert (Forall (fun g => validate_finding g = true /\ own_keys g /\ tidy (pairs g)) written) as Hall.
  { rewrite list.Forall_forall in Hg |- *. intros g Hin. destruct (Hg g Hin) as [? ?]. split_and!; [|done|done].
    apply list_elem_of_fmap in Hin as ([g' e] & -> & (f & _ & Hp)%list_elem_of_omap). by eapply passes_to_valid. }
  assert (w_out w2 = EncodeLogfmt <$> ((pairs <$> written) ++ [summary_pairs scanned elapsed w1])) as ->.
  { unfold Summary, write in Hs. rewrite <- Ef, Hfmt in Hs. destruct (write_ok _ _); [|done]. injection Hs as <-.
    transitivity (w_out w1 ++ [EncodeLogfmt (summary_pairs scanned elapsed w1)]); [done|].
    rewrite Ho, fmap_app, <- list_fmap_compose. done. }
  change (foldr String.append "" (EncodeLogfmt <$> ?l)) with (stream l). unfold ParseReport. rewrite scan_stream.
  2: { apply Forall_app. split; [|by constructor]. apply Forall_fmap. eapply list.Forall_impl; [exact Hall|]. intros g (Hv & _). by apply pairs_keyed. }
  2: { apply Forall_app. split; [|by constructor]. apply Forall_fmap. eapply list.Forall_impl; [exact Hall|]. intros g (_ & _ & ?). done. }
  cbn [mbind option_bind]. rewrite fmap_app, <- list_fmap_compose, read_lines_app. change (record_text ∘ pairs) with (fun g => record_text (pairs g)).
  rewrite (finding_lines cluster written (mkReading [] 0 None) Hall eq_refl). cbn [mbind option_bind fmap list_fmap read_lines].
  assert (w_findings w1 = Z.of_nat (length written)) as Ew by (unfold written; rewrite length_fmap; lia).
  pose proof (Zcount_le (hides w) fs). pose proof (Zcount_le (folded w) fs). pose proof (Zcount_le (withheld w) fs). pose proof (Zcount_le negb oks).
  rewrite summary_line; [|unfold notes_ok; by rewrite <- En|done|unfold written in Ew; rewrite length_fmap in Ew; lia].
  cbn [mbind option_bind rd_out rd_noSubject rd_declared app]. rewrite length_fmap, Ew, Z.add_0_l, (proj2 (Z.eqb_eq _ _)); [done|].
  clear. induction written as [|g l IH]; [done|]. rewrite Zcount_cons. cbn [List.filter length]. destruct (named g); cbn; lia.
Qed.
End Reading.

(** A report of a failing pod and of a scorecard row, for the witness. *)
Module Piped.
#[local] Instance all_print : UnicodePrint := fun _ => true.
#[local] Instance no_object : JsonObject := fun _ => None.
#[local] Instance bare_json : JsonString := fun s => s.
#[local] Instance same_case : UnicodeUpper := fun s => s.
#[local] Instance stdout : Output := fun _ _ => true.

Definition exempt_web (kind namespace name : string) : option (string * string) :=
  if name ==s "web-1" then Some ("known = accepted", "2027-01-01") else None.

Definition writer : Writer := mkWriter [] FormatLogfmt id (Some exempt_web) None None 0 0 0 0 [mkField "source" "live"] [] [] [].

Definition crashing : Finding :=
  mkFinding "pod.crashloop" "critical" "shop" "Pod" "web-1" "CrashLoopBackOff" ("exit=1: " +:+ dquote +:+ "no route" +:+ dquote) "f1" "" ""
    [mkField "restarts" "12"; mkField "node" ""].
Definition row : Finding := mkFinding "health.category" "info" "" "" "" "" "pods ok" "" "" "" [].

Definition emitted : Writer := (emit_all [crashing; row] writer).1.
Definition finished : Writer := (Summary 7 (2 * Second) emitted).1.

Lemma report_round_trip_witness :
  ParseReport "prod" (foldr String.append "" (w_out finished)) = Some ([ObservationOf "prod" (diffed crashing)], 1).
Proof.
  assert (Forall (fun g => own_keys g /\ tidy (pairs g)) (omap (passes_to writer) [crashing; row]).*1) as Hg.
  { assert ((omap (passes_to writer) [crashing; row]).*1 =
      [crashing <| f_ExemptReason := "known = accepted" |> <| f_ExemptExpires := "2027-01-01" |>; row]) as -> by (vm_compute; reflexivity).
    repeat constructor; apply (bool_decide_unpack _); vm_compute; done. }
  assert (tidy (summary_pairs 7 (2 * Second) emitted)) as Ht by (split; vm_compute; reflexivity).
  assert (notes_ok writer) as Hn by (repeat constructor; apply (bool_decide_unpack _); vm_compute; done).
  assert (emit_all [crashing; row] writer = (emitted, [true; true])) as He by (vm_compute; reflexivity).
  assert (Summary 7 (2 * Second) emitted = (finished, true)) as Hs by (vm_compute; reflexivity).
  pose proof (report_round_trip "prod" writer emitted finished [crashing; row] [true; true] 7 (2 * Second)
    (conj eq_refl (conj eq_refl (conj eq_refl Hn))) He eq_refl Hs Hg Ht ltac:(vm_compute; discriminate)) as Hr.
  cbv zeta in Hr. rewrite Hr. vm_compute. reflexivity.
Defined.

(** A message that ends in a no-break space comes back without it when it is the last value
    of its record: the value is written unquoted and the reader trims the line. *)
Definition padded : Finding := mkFinding "pod.oom" "warning" "shop" "Pod" "web-2" "OOMKilled" ("limit" +:+ string_of_bytes [194; 160]%nat) "" "" "" [].
Definition padded_out : Writer := (Summary 1 Second (emit_all [padded] writer).1).1.

Theorem trailing_space_rune_is_lost :
  exists obs, ParseReport "prod" (foldr String.append "" (w_out padded_out)) = Some ([obs], 0) /\
    ob_Message obs = "limit" /\ ob_Message (ObservationOf "prod" (diffed padded)) <> ob_Message obs.
Proof. eexists. split; [vm_compute; reflexivity|]. split; [reflexivity|]. vm_compute. discriminate. Qed.
End Piped.
