(* ===== verification/Exempt.v ===== *)
(** Exemptions (src/pkg/exempt/exempt.go) and their audit (src/pkg/checks/audit/exemptions.go):
    the reviewed entries of a file, which of them covers a finding, and which have lapsed.

    The decoder of the file is the class [ExemptionFile]; the reading of it is an argument.
    Errors are left without their text. *)
From S2P Require Import Prelude GoTime GoStrings GoFmt GoTimeFmt GoHash Signal GoQuote Logfmt EmitWriter.
From Stdlib Require Import Ascii SpecFloat.
Open Scope Z_scope.
Open Scope lookout_scope.

(** ** The entries *)

(** [en_expires] is the field [expires], zero until the entry is validated. *)
Record Entry := mkEntry {
  en_Kind : string;
  en_Namespace : string;
  en_Name : string;
  en_Reason : string;
  en_Expires : string;
  en_Owner : string;
  en_expires : Time
}.

(** [yaml.UnmarshalStrict] of the file: its entries. *)
Class ExemptionFile := unmarshal_strict : string -> option (list Entry).

Definition Subject (e : Entry) : string :=
  if (en_Namespace e <>s "") && (en_Name e <>s "") then en_Kind e +:+ " on " +:+ en_Namespace e +:+ "/" +:+ en_Name e
  else if en_Namespace e <>s "" then en_Kind e +:+ " in " +:+ en_Namespace e
  else en_Kind e.

Definition parseExpiry (s : string) : option Time :=
  match Parse_date s with
  | Some t => Some t
  | None => Parse_RFC3339 s
  end.

Definition validate_entry (e : Entry) : option Entry :=
  if TrimSpace (en_Kind e) ==s "" then None
  else if TrimSpace (en_Reason e) ==s "" then None
  else if TrimSpace (en_Expires e) ==s "" then None
  else t ← parseExpiry (en_Expires e); Some (e <| en_expires := t |>).

Definition entry_expired (now : Time) (e : Entry) : bool := negb (Before now (en_expires e)).

(** ** The set *)

Record ExemptSet := mkSet { es_now : Time; es_entries : list Entry; es_byKind : gmap string (list Entry) }.

Definition add_entry (s : ExemptSet) (e : Entry) : ExemptSet :=
  let s := s <| es_entries := es_entries s ++ [e] |> in
  if entry_expired (es_now s) e then s
  else s <| es_byKind := <[en_Kind e := default [] (es_byKind s !! en_Kind e) ++ [e]]> (es_byKind s) |>.

Fixpoint load_entries (es : list Entry) (s : ExemptSet) : option ExemptSet :=
  match es with
  | [] => Some s
  | e :: es => e ← validate_entry e; load_entries es (add_entry s e)
  end.

(** [raw] is what [os.ReadFile] answered. *)
Definition LoadExemptions `{ExemptionFile} (raw : option string) (now : Time) : option ExemptSet :=
  match raw with
  | None => None
  | Some raw => match unmarshal_strict raw with Some es => load_entries es (mkSet now [] ∅) | None => None end
  end.

(** A nil set is usable. *)
Definition Set_Now (s : option ExemptSet) : Time := match s with Some s => es_now s | None => zero_time end.

Definition entry_less (a b : Entry) : bool :=
  if negb (en_expires a =? en_expires b) then Before (en_expires a) (en_expires b) else String.ltb (Subject a) (Subject b).

(** [sort.SliceStable]: an entry goes in front of those it is not greater than. *)
Fixpoint insert_stable (x : Entry) (l : list Entry) : list Entry :=
  match l with
  | [] => [x]
  | y :: l => if entry_less y x then y :: insert_stable x l else x :: y :: l
  end.
Definition sort_entries (l : list Entry) : list Entry := foldr insert_stable [] l.

Definition Set_Entries (s : option ExemptSet) : list Entry :=
  match s with Some s => sort_entries (es_entries s) | None => [] end.

Definition Set_Expired (s : option ExemptSet) (e : Entry) : bool :=
  match s with Some s => entry_expired (es_now s) e | None => false end.

(** ** Matching *)

Definition moreSpecific (a b : Entry) : bool :=
  if xorb (en_Name a <>s "") (en_Name b <>s "") then en_Name a <>s ""
  else if xorb (en_Namespace a <>s "") (en_Namespace b <>s "") then en_Namespace a <>s ""
  else String.ltb (en_Reason a) (en_Reason b).

Definition in_scope (namespace name : string) (e : Entry) : bool :=
  negb ((en_Namespace e <>s "") && (en_Namespace e <>s namespace)) && negb ((en_Name e <>s "") && (en_Name e <>s name)).

Definition best_entry (namespace name : string) (best : option Entry) (e : Entry) : option Entry :=
  if negb (in_scope namespace name e) then best
  else match best with
  | None => Some e
  | Some b => if moreSpecific e b then Some e else Some b
  end.

Definition Exempt (s : option ExemptSet) (kind namespace name : string) : option (string * string) :=
  match s with
  | None => None
  | Some s =>
      match fold_left (best_entry namespace name) (default [] (es_byKind s !! kind)) None with
      | Some best => Some (en_Reason best, en_Expires best)
      | None => None
      end
  end.

(** ** The audit of the file *)

Definition kindExpired := "audit.exemption_expired".
Definition kindExpiring := "audit.exemption_expiring".

(** [int(x)] of a finite [x] within an int64. *)
Definition int_trunc (x : float64) : Z :=
  match x with
  | S754_finite s m e =>
      let v := if 0 <=? e then Zpos m * 2 ^ e else Zpos m / 2 ^ (- e) in if s then - v else v
  | _ => 0
  end.

Definition roundDays (d : Duration) : string :=
  let days := int_trunc (f64_div (Hours d) (f64_of_Z 24)) in
  if 1 <=? days then itoa days +:+ "d" else Duration_String (d - Z.rem d Hour).

(** The unary minus of a Duration wraps. *)
Definition neg64 (d : Duration) : Duration := wrap64 (- d).

Definition exemptionFinding (e : Entry) (now : Time) (within : Duration) : option Finding :=
  let left := Sub (en_expires e) now in
  let '(kind, severity, reason, message, detail) :=
    if left <=? 0 then
      (kindExpired, SeverityWarning, "ExemptionExpired",
       "exemption for " +:+ Subject e +:+ " lapsed " +:+ roundDays (neg64 left) +:+ " ago and no longer annotates anything; renew it or fix what it covered",
       mkField "expired_for" (roundDays (neg64 left)))
    else
      (kindExpiring, SeverityInfo, "ExemptionExpiring",
       "exemption for " +:+ Subject e +:+ " expires in " +:+ roundDays left, mkField "expires_in" (roundDays left)) in
  if (0 <? left) && (within <? left) then None
  else Some (mkFinding kind severity (en_Namespace e) "" (en_Name e) reason message (PostureFingerprint kind reason "") "" ""
    ([mkField "exempt_kind" (en_Kind e); mkField "subject" (Subject e); mkField "expires" (RFC3339_utc (en_expires e)); detail] ++
     (if en_Owner e <>s "" then [mkField "owner" (en_Owner e)] else []) ++ [mkField "justification" (en_Reason e)])).

Section Audit.
Context `{UnicodePrint} `{JsonString} `{UnicodeUpper} `{Output}.

Fixpoint emit_entries (es : list Entry) (now : Time) (within : Duration) (w : Writer) : Writer * bool :=
  match es with
  | [] => (w, true)
  | e :: es =>
      match exemptionFinding e now within with
      | None => emit_entries es now within w
      | Some f => let '(w, ok) := Emit f w in if ok then emit_entries es now within w else (w, false)
      end
  end.

(** The count of entries, or an error. *)
Definition runExemptions (set : option ExemptSet) (within : Duration) (w : Writer) : Writer * option Z :=
  match set with
  | None => (w, None)
  | Some _ =>
      if within <? 0 then (w, None)
      else
        let entries := Set_Entries set in
        let '(w, ok) := emit_entries entries (Set_Now set) within w in
        (w, if ok then Some (Z.of_nat (length entries)) else None)
  end.
End Audit.

(** ** What matches *)

Definition covers (kind namespace name : string) (e : Entry) : bool := (en_Kind e ==s kind) && in_scope namespace name e.

Lemma moreSpecific_irrefl a : moreSpecific a a = false.
Proof. unfold moreSpecific. rewrite !xorb_nilpotent. destruct (String.ltb _ _) eqn:E; [|done]. pose proof (ltb_trans _ _ _ E E) as E2. apply ltb_lt in E. by apply OrderedTypeEx.String_as_OT.lt_not_eq in E. Qed.

Lemma moreSpecific_trans a b c : moreSpecific a b = true -> moreSpecific b c = true -> moreSpecific a c = true.
Proof.
  unfold moreSpecific. destruct (en_Name a <>s ""), (en_Name b <>s ""), (en_Name c <>s ""); cbn [xorb]; try done;
  destruct (en_Namespace a <>s ""), (en_Namespace b <>s ""), (en_Namespace c <>s ""); cbn [xorb]; try done; apply ltb_trans.
Qed.

Lemma ltb_negtrans a b c : String.ltb a b = false -> String.ltb b c = false -> String.ltb a c = false.
Proof.
  intros Hab Hbc. destruct (String.ltb a c) eqn:Hac; [|done]. destruct (String.ltb b a) eqn:Hba.
  - by rewrite (ltb_trans b a c Hba Hac) in Hbc.
  - rewrite (ltb_total a b Hab Hba) in Hac. congruence.
Qed.

Lemma moreSpecific_negtrans a b c : moreSpecific a b = false -> moreSpecific b c = false -> moreSpecific a c = false.
Proof.
  unfold moreSpecific. destruct (en_Name a <>s ""), (en_Name b <>s ""), (en_Name c <>s ""); cbn [xorb]; try done;
  destruct (en_Namespace a <>s ""), (en_Namespace b <>s ""), (en_Namespace c <>s ""); cbn [xorb]; try done; apply ltb_negtrans.
Qed.

(** The best of the entries in scope. *)
Lemma best_of namespace name l b0 :
  (forall b, b0 = Some b -> in_scope namespace name b = true) ->
  match fold_left (best_entry namespace name) l b0 with
  | Some best => in_scope namespace name best = true /\ (b0 = Some best \/ best ∈ l) /\
      (forall e, (b0 = Some e \/ e ∈ l) -> in_scope namespace name e = true -> moreSpecific e best = false)
  | None => b0 = None /\ forall e, e ∈ l -> in_scope namespace name e = false
  end.
Proof.
  revert b0. induction l as [|x l IH]; intros b0 Hb; cbn [fold_left].
  { destruct b0 as [b|]; [|split; [done|]; intros e He; by apply not_elem_of_nil in He].
    split_and!; [by apply Hb|by left|]. intros e [[= <-]|He] _; [apply moreSpecific_irrefl|by apply not_elem_of_nil in He]. }
  assert (forall b, best_entry namespace name b0 x = Some b -> in_scope namespace name b = true) as Hb'.
  { unfold best_entry. intros b. destruct (in_scope namespace name x) eqn:E; cbn [negb]; [|apply Hb].
    destruct b0 as [b'|]; [|by intros [= <-]]. destruct (moreSpecific x b'); [by intros [= <-]|]. intros [= <-]. by apply Hb. }
  specialize (IH _ Hb'). destruct (fold_left _ l _) as [best|].
  - destruct IH as (Hs & Hin & Hmax). split_and!; [done| |].
    + unfold best_entry in Hin. destruct (negb (in_scope namespace name x)); [rewrite elem_of_cons; tauto|].
      destruct b0 as [b|]; [destruct (moreSpecific x b)|]; rewrite elem_of_cons; destruct Hin as [[= <-]|Hin]; tauto.
    + intros e He Hse. destruct (moreSpecific e best) eqn:Em; [exfalso|done].
      assert (forall c, best_entry namespace name b0 x = Some c -> moreSpecific c best = false) as Hc by (intros c Ec; apply Hmax; [by left|by apply Hb']).
      destruct He as [He|[->|He]%elem_of_cons]; [| |by rewrite (Hmax e (or_intror He) Hse) in Em]; unfold best_entry in Hc.
      * subst b0. destruct (negb (in_scope namespace name x)); [by rewrite (Hc e eq_refl) in Em|].
        destruct (moreSpecific x e) eqn:Ex; [|by rewrite (Hc e eq_refl) in Em].
        specialize (Hc x eq_refl). by rewrite (moreSpecific_trans x e best Ex Em) in Hc.
      * rewrite Hse in Hc. cbn [negb] in Hc. destruct b0 as [b|]; [|by rewrite (Hc x eq_refl) in Em].
        destruct (moreSpecific x b) eqn:Ex; [by rewrite (Hc x eq_refl) in Em|].
        specialize (Hc b eq_refl). by rewrite (moreSpecific_negtrans x b best Ex Hc) in Em.
  - destruct IH as [Hn Hnone]. unfold best_entry in Hn.
    destruct (in_scope namespace name x) eqn:E; cbn [negb] in Hn; [destruct b0 as [b|]; [by destruct (moreSpecific x b)|done]|].
    split; [done|]. intros e [->|He]%elem_of_cons; [done|by apply Hnone].
Qed.

(** ** What a loaded set holds *)

(** The live entries of a kind, in the order of the file. *)
Definition live_of (now : Time) (kind : string) (es : list Entry) : list Entry :=
  List.filter (fun e => (en_Kind e ==s kind) && negb (entry_expired now e)) es.

Definition indexed (s : ExemptSet) : Prop :=
  forall kind, default [] (es_byKind s !! kind) = live_of (es_now s) kind (es_entries s).

Lemma add_entry_indexed s e : indexed s -> indexed (add_entry s e).
Proof.
  intros Hs kind. unfold add_entry, live_of. specialize (Hs kind). unfold live_of in Hs. cbn.
  destruct (entry_expired (es_now s) e) eqn:Ee; cbn; rewrite List.filter_app; cbn; rewrite ?Ee, ?andb_false_r, ?andb_true_r.
  - by rewrite app_nil_r.
  - destruct (en_Kind e ==s kind) eqn:Ek; cbn.
    + apply bool_decide_eq_true in Ek as <-. rewrite lookup_insert_eq. cbn. by rewrite Hs.
    + apply bool_decide_eq_false in Ek. by rewrite lookup_insert_ne, app_nil_r.
Qed.

Lemma load_entries_spec es s s' : load_entries es s = Some s' -> indexed s ->
  indexed s' /\ es_now s' = es_now s /\ exists vs, Forall2 (fun e v => validate_entry e = Some v) es vs /\ es_entries s' = es_entries s ++ vs.
Proof.
  revert s. induction es as [|e es IH]; intros s; cbn [load_entries].
  { intros [= <-] Hs. split_and!; [done|done|]. exists []. by rewrite app_nil_r. }
  destruct (validate_entry e) as [v|] eqn:Ev; [|done]. cbn [mbind option_bind]. intros Hl Hs.
  destruct (IH _ Hl (add_entry_indexed s v Hs)) as (Hi & Hn & vs & Hvs & He). split_and!; [done| |].
  - rewrite Hn. unfold add_entry. cbn. by destruct (entry_expired _ _).
  - exists (v :: vs). split; [by constructor|]. rewrite He. unfold add_entry. cbn. destruct (entry_expired _ _); cbn; by rewrite <- app_assoc.
Qed.

Lemma validate_entry_spec e v : validate_entry e = Some v ->
  en_Kind v = en_Kind e /\ en_Namespace v = en_Namespace e /\ en_Name v = en_Name e /\ en_Reason v = en_Reason e /\ en_Expires v = en_Expires e /\
  TrimSpace (en_Kind e) <> "" /\ TrimSpace (en_Reason e) <> "" /\ parseExpiry (en_Expires e) = Some (en_expires v).
Proof.
  unfold validate_entry. destruct (TrimSpace (en_Kind e) ==s "") eqn:E1; [done|]. destruct (TrimSpace (en_Reason e) ==s "") eqn:E2; [done|].
  destruct (TrimSpace (en_Expires e) ==s ""); [done|]. apply bool_decide_eq_false in E1, E2.
  destruct (parseExpiry (en_Expires e)) as [t|]; [|done]. cbn. intros [= <-]. done.
Qed.

(** C34: a file loads only when every entry of it names a kind, a reason and an expiry that
    parses; and of a loaded file, a finding is annotated with the reason and the expiry of an
    entry of it that names the finding's kind, is in its scope and has not expired at the
    instant of loading, none such entry being more specific, and is left alone exactly when
    there is none: an expired entry never annotates. *)
Theorem most_specific_live_exemption `{ExemptionFile} (raw : string) (now : Time) (es : list Entry) (s : ExemptSet)
    (Hf : unmarshal_strict raw = Some es) (Hl : LoadExemptions (Some raw) now = Some s) (kind namespace name : string) :
  let expires e := default zero_time (parseExpiry (en_Expires e)) in
  let applies e := covers kind namespace name e && Before now (expires e) in
  Forall (fun e => TrimSpace (en_Kind e) <> "" /\ TrimSpace (en_Reason e) <> "" /\ is_Some (parseExpiry (en_Expires e))) es /\
  match Exempt (Some s) kind namespace name with
  | Some (reason, exp) => exists e, e ∈ es /\ applies e = true /\ reason = en_Reason e /\ exp = en_Expires e /\
      forall e', e' ∈ es -> applies e' = true -> moreSpecific e' e = false
  | None => forall e, e ∈ es -> applies e = false
  end.
Proof.
  intros expires applies. unfold LoadExemptions in Hl. rewrite Hf in Hl.
  destruct (load_entries_spec es _ s Hl) as (Hi & Hn & vs & Hvs & He); [intros k; cbn; by rewrite lookup_empty|]. cbn in Hn, He.
  assert (forall e v, validate_entry e = Some v -> applies e = covers kind namespace name v && negb (entry_expired now v)) as Happ.
  { intros e v Hv. destruct (validate_entry_spec e v Hv) as (E1 & E2 & E3 & _ & _ & _ & _ & E4).
    unfold applies, expires, covers, in_scope, entry_expired. by rewrite E1, E2, E3, E4, negb_involutive. }
  split.
  - apply list.Forall_forall. intros e Hin. apply list_elem_of_lookup in Hin as [i Hi']. destruct (Forall2_lookup_l _ _ _ _ _ Hvs Hi') as (v & _ & Hv).
    destruct (validate_entry_spec e v Hv) as (_ & _ & _ & _ & _ & ? & ? & ->). split_and!; [done|done|by eexists].
  - unfold Exempt. rewrite Hi, Hn, He.
    assert (forall e v, validate_entry e = Some v -> v ∈ vs -> (v ∈ live_of now kind vs /\ in_scope namespace name v = true <-> applies e = true)) as Hlive.
    { intros e v Hv Hin. rewrite (Happ e v Hv). unfold live_of, covers. rewrite elem_of_lfilter, !andb_true_iff. tauto. }
    pose proof (best_of namespace name (live_of now kind vs) None ltac:(done)) as Hbest.
    destruct (fold_left _ _ None) as [best|].
    + destruct Hbest as (Hs & [?|Hin] & Hmax); [done|]. pose proof Hin as Hvin. unfold live_of in Hvin. apply elem_of_lfilter in Hvin as [Hvin _].
      apply list_elem_of_lookup in Hvin as [i Hi']. destruct (Forall2_lookup_r _ _ _ _ _ Hvs Hi') as (e & He' & Hv).
      apply list_elem_of_lookup_2 in Hi', He'. destruct (validate_entry_spec e best Hv) as (E1 & E2 & E3 & E4 & E5 & _).
      exists e. split_and!; [done|by apply (Hlive e best Hv Hi')|done|done|]. intros e2 Hin2 Happ2.
      apply list_elem_of_lookup in Hin2 as [i2 Hi2]. destruct (Forall2_lookup_l _ _ _ _ _ Hvs Hi2) as (v2 & Hv2' & Hv2). apply list_elem_of_lookup_2 in Hv2'.
      destruct (validate_entry_spec e2 v2 Hv2) as (F1 & F2 & F3 & F4 & F5 & _). destruct (proj2 (Hlive e2 v2 Hv2 Hv2') Happ2) as [Hl2 Hs2].
      specialize (Hmax v2 (or_intror Hl2) Hs2). unfold moreSpecific in *. by rewrite E2, E3, E4, F2, F3, F4 in Hmax.
    + destruct Hbest as [_ Hnone]. intros e Hin. apply list_elem_of_lookup in Hin as [i Hi']. destruct (Forall2_lookup_l _ _ _ _ _ Hvs Hi') as (v & Hv' & Hv).
      apply list_elem_of_lookup_2 in Hv'. destruct (applies e) eqn:Ea; [|done]. destruct (proj2 (Hlive e v Hv Hv') Ea) as [Hl2 Hs2].
      by rewrite (Hnone v Hl2) in Hs2.
Qed.

(** The audit and the matching agree: what it calls expired is what no longer annotates, and
    what it leaves out is live past the window. *)
Theorem audit_reports_the_lapsed (e : Entry) (now : Time) (within : Duration) :
  0 <= within ->
  match exemptionFinding e now within with
  | Some f => (f_Kind f = kindExpired <-> entry_expired now e = true) /\ (f_Kind f = kindExpiring <-> entry_expired now e = false)
  | None => entry_expired now e = false /\ within < en_expires e - now
  end.
Proof.
  intros Hw. unfold exemptionFinding, entry_expired, Before.
  assert (Sub (en_expires e) now <=? 0 = negb (now <? en_expires e)) as -> by (unfold_time; lia).
  assert (0 <? Sub (en_expires e) now = (now <? en_expires e)) as -> by (unfold_time; lia).
  destruct (now <? en_expires e) eqn:En; cbn [negb andb]; [|done].
  destruct (within <? Sub (en_expires e) now) eqn:Ew; [|done].
  split; [done|]. apply Z.ltb_lt in En. unfold_time. lia.
Qed.

(** A namespace-wide entry, one for a single object, and one that has lapsed. *)
Module Reviewed.
Definition entries : list Entry :=
  [mkEntry "audit.no_pdb" "shop" "" "batch only" "2027-01-01" "team-a" 0;
   mkEntry "audit.no_pdb" "shop" "web" "stateless" "2026-12-31T00:00:00Z" "" 0;
   mkEntry "audit.no_pdb" "" "web" "migration" "2025-06-01" "" 0].

#[local] Instance the_file : ExemptionFile := fun raw => if raw ==s "exemptions" then Some entries else None.

Definition today : Time := at_utc 2026 8 1 12 0 0.
Definition loaded : ExemptSet := default (mkSet 0 [] ∅) (LoadExemptions (Some "exemptions") today).

Lemma most_specific_live_exemption_witness :
  Exempt (Some loaded) "audit.no_pdb" "shop" "web" = Some ("stateless", "2026-12-31T00:00:00Z") /\
  Exempt (Some loaded) "audit.no_pdb" "other" "web" = None /\
  let expires e := default zero_time (parseExpiry (en_Expires e)) in
  let applies e := covers "audit.no_pdb" "shop" "web" e && Before today (expires e) in
  Forall (fun e => TrimSpace (en_Kind e) <> "" /\ TrimSpace (en_Reason e) <> "" /\ is_Some (parseExpiry (en_Expires e))) entries /\
  match Exempt (Some loaded) "audit.no_pdb" "shop" "web" with
  | Some (reason, exp) => exists e, e ∈ entries /\ applies e = true /\ reason = en_Reason e /\ exp = en_Expires e /\
      forall e', e' ∈ entries -> applies e' = true -> moreSpecific e' e = false
  | None => forall e, e ∈ entries -> applies e = false
  end.
Proof.
  assert (LoadExemptions (Some "exemptions") today = Some loaded) as Hl by (vm_compute; reflexivity).
  split; [vm_compute; reflexivity|]. split; [vm_compute; reflexivity|].
  exact (most_specific_live_exemption "exemptions" today entries loaded eq_refl Hl "audit.no_pdb" "shop" "web").
Defined.
End Reviewed.
