(* ===== verification/PosturePolicy.v ===== *)
(** The posture policy (src/pkg/policy: policy.go, profiles.go): which findings of a check are
    reported and at what severity, from four layers: the detector's defaults, a built-in profile,
    a policy file and the command's flags.

    The decoder of the file is the class [PolicyFile], [path.Match] the class [Glob] (none is
    a bad pattern). Errors are left without their text. *)
From S2P Require Import Prelude GoTime GoStrings GoFmt Signal GoQuote Logfmt EmitWriter.
From Stdlib Require Import Ascii.
Open Scope Z_scope.
Open Scope lookout_scope.

Class Glob := path_Match : string -> string -> option bool.

(** ** Rules and profiles *)

Record CheckRule := mkRule { cr_Enabled : option bool; cr_Severity : string; cr_Params : gmap string string }.

Record profileSpec := mkProfile { ps_name : string; ps_onlyAllowlist : option (gset string); ps_checks : gmap string CheckRule }.

Definition ProfileDefault := "default".
Definition ProfileStrict := "strict".
Definition ProfileOnboarding := "onboarding".
Definition ProfileGKEAutopilot := "gke-autopilot".

Definition at_severity (sev : string) : CheckRule := mkRule None sev ∅.
Definition switched (b : bool) : CheckRule := mkRule (Some b) "" ∅.

Definition onboarding_kinds : list string :=
  ["audit.podsecurity_gaps"; "audit.default_sa_automount"; "audit.no_network_policy"; "audit.netpol_missing";
   "audit.no_resource_quota"; "audit.no_limit_range"; "audit.namespace_onboarding_gaps"; "audit.cluster_admin_binding";
   "audit.wildcard_grant"; "audit.wildcard_rbac"].

Definition autopilot_kinds : list string :=
  ["audit.nodepool_cannot_grow"; "audit.legacy_metadata"; "audit.single_zone_nodepool"; "audit.privileged_container";
   "audit.host_namespace"; "audit.hostpath_mount"].

Definition strict_targets : list string :=
  ["audit.no_liveness_probe"; "audit.no_spread"; "audit.image_floating_tag";
   "audit.liveness_preempts_readiness/LivenessDeadlineTiesReadiness"; "audit.liveness_preempts_readiness/LivenessFiresFirst"].

Definition rules_for (r : CheckRule) (targets : list string) : gmap string CheckRule := list_to_map ((fun t => (t, r)) <$> targets).

Definition builtinProfiles : list profileSpec :=
  [mkProfile ProfileDefault None ∅;
   mkProfile ProfileStrict None (rules_for (at_severity SeverityWarning) strict_targets);
   mkProfile ProfileOnboarding (Some (list_to_set onboarding_kinds)) (rules_for (switched true) onboarding_kinds);
   mkProfile ProfileGKEAutopilot None (rules_for (switched false) autopilot_kinds)].

Definition lookupProfile (name : string) : option profileSpec :=
  let name := if name ==s "" then ProfileDefault else name in
  List.find (fun p => ps_name p ==s name) builtinProfiles.

(** ** Policies *)

Record PosturePolicy := mkPosture {
  pp_NameValue : string;
  pp_Profile : string;
  pp_MinSeverity : string;
  pp_SystemNS : list string;
  pp_Checks : gmap string CheckRule;
  pp_flagOnly : list string;
  pp_flagSkip : list string;
  pp_flagMinSeverity : string;
  pp_flagParams : gmap string (gmap string string);
  pp_loadedFromFile : bool;
  pp_explicitProfile : bool
}.

Definition ForProfile (name : string) : option PosturePolicy :=
  prof ← lookupProfile name;
  Some (mkPosture (ps_name prof) (ps_name prof) "" [] ∅ [] [] "" ∅ false (name <>s "")).

Definition policySeverityRank (s : string) : Z :=
  if s ==s SeverityCritical then 3 else if s ==s SeverityWarning then 2 else if s ==s SeverityInfo then 1 else 0.

Definition validateSeverity (s : string) : bool := (s ==s SeverityCritical) || (s ==s SeverityWarning) || (s ==s SeverityInfo).

Definition splitKindReason (target : string) : string * string :=
  match cut_byte "/" target with Some (kind, reason) => (kind, reason) | None => (target, "") end.

Definition validateCheckKey (key : string) : bool :=
  let trimmed := TrimSpace key in
  if trimmed ==s "" then false
  else
    let '(kind, reason) := splitKindReason trimmed in
    Contains kind "." && negb (Contains trimmed "/" && (reason ==s "")).

(** What the decoder makes of a policy file. *)
Record rawPolicy := mkRawPolicy {
  rp_Name : string; rp_Profile : string; rp_MinSeverity : string; rp_SystemNS : list string; rp_Checks : gmap string CheckRule
}.

Class PolicyFile := unmarshal_policy : string -> option rawPolicy.

Section Load.
Context `{Glob}.

Definition valid_rule (key : string) (rule : CheckRule) : bool :=
  validateCheckKey key && ((cr_Severity rule ==s "") || validateSeverity (cr_Severity rule)).

Definition policy_of (raw : rawPolicy) : option PosturePolicy :=
  let profName := if rp_Profile raw ==s "" then ProfileDefault else rp_Profile raw in
  match lookupProfile profName with
  | None => None
  | Some _ =>
      if (rp_MinSeverity raw <>s "") && negb (validateSeverity (rp_MinSeverity raw)) then None
      else if existsb (fun pat => bool_decide (path_Match pat "ns" = None)) (rp_SystemNS raw) then None
      else if negb (forallb (fun p => valid_rule p.1 p.2) (map_to_list (rp_Checks raw))) then None
      else Some (mkPosture (if rp_Name raw ==s "" then profName else rp_Name raw) profName (rp_MinSeverity raw) (rp_SystemNS raw)
                   (rp_Checks raw) [] [] "" ∅ true (rp_Profile raw <>s ""))
  end.

Definition LoadBytes `{PolicyFile} (data : string) : option PosturePolicy :=
  match unmarshal_policy data with Some raw => policy_of raw | None => None end.

Definition SetProfile (name : string) (p : PosturePolicy) : option PosturePolicy :=
  prof ← lookupProfile name;
  let p := p <| pp_Profile := ps_name prof |> <| pp_explicitProfile := true |> in
  Some (if negb (pp_loadedFromFile p) || (pp_NameValue p ==s "") then p <| pp_NameValue := ps_name prof |> else p).

Definition Policy_Name (p : option PosturePolicy) : string :=
  match p with
  | None => ProfileDefault
  | Some p => if pp_NameValue p <>s "" then pp_NameValue p else if pp_Profile p <>s "" then pp_Profile p else ProfileDefault
  end.

Definition IsActive (p : option PosturePolicy) : bool :=
  match p with
  | None => false
  | Some p => pp_loadedFromFile p || pp_explicitProfile p || negb (bool_decide (pp_flagOnly p = [])) || negb (bool_decide (pp_flagSkip p = [])) ||
      (pp_flagMinSeverity p <>s "") || negb (bool_decide (pp_flagParams p = ∅))
  end.

(** ** Flags *)

Definition expandGlobs (raw : list string) : option (list string) :=
  let pats := List.filter (fun pat => pat <>s "") (TrimSpace <$> (raw ≫= SplitByte ",")) in
  if existsb (fun pat => bool_decide (path_Match pat "audit.example" = None)) pats then None else Some pats.

Definition split_step (out : list string) (part : string) : list string :=
  let trimmed := TrimSpace part in
  if trimmed ==s "" then out
  else if Contains trimmed "=" then out ++ [trimmed]
  else match reverse out with
  | [] => [trimmed]
  | last :: before => reverse before ++ [last +:+ "," +:+ trimmed]
  end.

Definition splitSetAssignments (raw : string) : list string := fold_left split_step (SplitByte "," raw) [].

Definition parseSetAssignment (token : string) : option (string * string * string) :=
  match cut_byte "=" token with
  | None => None
  | Some (lhs, val) =>
      if (lhs ==s "") || (val ==s "") then None
      else
        let lhs := TrimSpace lhs in
        let val := TrimSpace val in
        if val ==s "" then None
        else match cut_last_byte "." lhs with
        | None => None
        | Some (kind, param) => if (kind ==s "") || (param ==s "") || negb (Contains kind ".") then None else Some (kind, param, val)
        end
  end.

(** The assignments up to the first that does not parse, and whether there is none such. *)
Fixpoint apply_sets (tokens : list string) (params : gmap string (gmap string string)) : gmap string (gmap string string) * bool :=
  match tokens with
  | [] => (params, true)
  | token :: tokens =>
      match parseSetAssignment token with
      | None => (params, false)
      | Some (kind, param, val) => apply_sets tokens (<[kind := <[param := val]> (default ∅ (params !! kind))]> params)
      end
  end.

Definition ApplyFlags (only skip : list string) (minSeverity : string) (sets : list string) (p : PosturePolicy) : PosturePolicy * bool :=
  match expandGlobs only, expandGlobs skip with
  | Some only, Some skip =>
      if (minSeverity <>s "") && negb (validateSeverity minSeverity) then (p, false)
      else
        let '(params, ok) := apply_sets (sets ≫= splitSetAssignments) (pp_flagParams p) in
        let p := p <| pp_flagParams := params |> in
        if negb ok then (p, false)
        else
          let p := p <| pp_flagOnly := pp_flagOnly p ++ only |> <| pp_flagSkip := pp_flagSkip p ++ skip |> in
          (if minSeverity <>s "" then p <| pp_flagMinSeverity := minSeverity |> else p, true)
  | _, _ => (p, false)
  end.

(** ** The decision *)

Inductive RuleSource := SourceDefault | SourceProfile | SourceFile | SourceFlag.

Definition applyRule (enabled : bool) (sev : string) (rule : CheckRule) : bool * string :=
  (default enabled (cr_Enabled rule), if cr_Severity rule <>s "" then cr_Severity rule else sev).

Definition glob_ok (pat name : string) : bool := bool_decide (path_Match pat name = Some true).

Definition matchesAnyGlob (patterns : list string) (kind reason : string) : bool :=
  existsb (fun pat => glob_ok pat kind || (reason <>s "") && glob_ok pat (kind +:+ "/" +:+ reason)) patterns.

Definition decision : Type := bool * string * RuleSource.

(** The rule of a target, when the layer has one. *)
Definition layer_rule (source : RuleSource) (checks : gmap string CheckRule) (target : string) (d : decision) : decision :=
  match checks !! target with
  | Some rule => let '(enabled, sev, _) := d in (applyRule enabled sev rule, source)
  | None => d
  end.

Definition layer_rules (source : RuleSource) (checks : gmap string CheckRule) (kind reason : string) (d : decision) : decision :=
  let d := layer_rule source checks kind d in
  if reason <>s "" then layer_rule source checks (kind +:+ "/" +:+ reason) d else d.

Definition profile_layer (prof : profileSpec) (kind reason : string) (d : decision) : decision :=
  let d := match ps_onlyAllowlist prof with
           | Some allow => let '(_, sev, _) := d in (bool_decide (kind ∈ allow), sev, SourceProfile)
           | None => d
           end in
  layer_rules SourceProfile (ps_checks prof) kind reason d.

Definition decideDetailed (p : PosturePolicy) (kind reason defaultSev : string) : decision :=
  let d := (true, defaultSev, SourceDefault) in
  let d := match lookupProfile (pp_Profile p) with Some prof => profile_layer prof kind reason d | None => d end in
  let d := layer_rules SourceFile (pp_Checks p) kind reason d in
  let d :=
    let '(enabled, sev, source) := d in
    if (pp_MinSeverity p <>s "") && (policySeverityRank sev <? policySeverityRank (pp_MinSeverity p))
    then (false, sev, if enabled then SourceFile else source) else d in
  let d :=
    let '(enabled, sev, source) := d in
    match pp_flagOnly p with
    | [] => d
    | only => (matchesAnyGlob only kind reason, sev, SourceFlag)
    end in
  let d :=
    let '(enabled, sev, source) := d in
    if matchesAnyGlob (pp_flagSkip p) kind reason then (false, sev, SourceFlag) else d in
  let '(enabled, sev, source) := d in
  if (pp_flagMinSeverity p <>s "") && (policySeverityRank sev <? policySeverityRank (pp_flagMinSeverity p))
  then (false, sev, SourceFlag) else d.

Definition Policy_Decide (p : option PosturePolicy) (kind reason defaultSev : string) : bool * string :=
  let defaultSev := if defaultSev ==s "" then SeverityInfo else defaultSev in
  match p with
  | None => (true, defaultSev)
  | Some p =>
      if isPolicyMetaKind kind then (true, defaultSev)
      else let '(enabled, sev, _) := decideDetailed p kind reason defaultSev in (enabled, sev)
  end.

(** ** Parameters *)

Definition rawParam (p : option PosturePolicy) (kind key : string) : option string :=
  match p with
  | None => None
  | Some p =>
      match pp_flagParams p !! kind ≫= lookup key with
      | Some v => Some v
      | None =>
          match pp_Checks p !! kind ≫= (fun rule => cr_Params rule !! key) with
          | Some v => Some v
          | None => prof ← lookupProfile (pp_Profile p); rule ← ps_checks prof !! kind; cr_Params rule !! key
          end
      end
  end.

Definition IntParam (p : option PosturePolicy) (kind key : string) (def : Z) : Z :=
  match rawParam p kind key with
  | None => def
  | Some raw => if raw ==s "" then def else default def (ParseInt (TrimSpace raw))
  end.

Definition StringSliceParam (p : option PosturePolicy) (kind key : string) (def : list string) : list string :=
  match rawParam p kind key with
  | None => def
  | Some raw => match List.filter (fun part => part <>s "") (TrimSpace <$> SplitByte "," raw) with [] => def | out => out end
  end.

Definition DefaultSystemNamespaces : list string :=
  ["kube-system"; "kube-public"; "kube-node-lease"; "gke-*"; "gmp-*"; "istio-system"; "asm-system"; "config-management-system"].

Definition add_new (out : list string) (ns : string) : list string := if bool_decide (ns ∈ out) then out else out ++ [ns].

Definition SystemNamespaces (p : option PosturePolicy) : list string :=
  let out := fold_left add_new DefaultSystemNamespaces [] in
  match p with
  | None => out
  | Some p => fold_left (fun out ns => let trimmed := TrimSpace ns in if trimmed ==s "" then out else add_new out trimmed) (pp_SystemNS p) out
  end.

Definition IsSystemNamespace (p : option PosturePolicy) (ns : string) : bool :=
  existsb (fun pattern => (pattern ==s ns) || glob_ok pattern ns) (SystemNamespaces p).

(** ** The layers, flattened

    The rules that bear on a finding, weakest first: the profile's for the kind and for the kind
    with the reason, then the file's. *)

Definition rules_of (checks : gmap string CheckRule) (kind reason : string) : list CheckRule :=
  option_list (checks !! kind) ++ (if reason <>s "" then option_list (checks !! (kind +:+ "/" +:+ reason)) else []).

Definition applicable (p : PosturePolicy) (kind reason : string) : list CheckRule :=
  match lookupProfile (pp_Profile p) with Some prof => rules_of (ps_checks prof) kind reason | None => [] end ++
  rules_of (pp_Checks p) kind reason.

(** What the last rule that says anything says. *)
Definition last_enabled (rules : list CheckRule) (start : bool) : bool := fold_left (fun b r => default b (cr_Enabled r)) rules start.
Definition last_severity (rules : list CheckRule) (start : string) : string :=
  fold_left (fun s r => if cr_Severity r <>s "" then cr_Severity r else s) rules start.

Definition in_profile (p : PosturePolicy) (kind : string) : bool :=
  match lookupProfile (pp_Profile p) with
  | Some prof => match ps_onlyAllowlist prof with Some allow => bool_decide (kind ∈ allow) | None => true end
  | None => true
  end.

Definition below (sev floor : string) : bool := (floor <>s "") && (policySeverityRank sev <? policySeverityRank floor).

Lemma layer_rules_flat source checks kind reason enabled sev src :
  (layer_rules source checks kind reason (enabled, sev, src)).1 =
  (last_enabled (rules_of checks kind reason) enabled, last_severity (rules_of checks kind reason) sev).
Proof.
  unfold layer_rules, layer_rule, rules_of, last_enabled, last_severity.
  destruct (checks !! kind) as [r1|]; destruct (reason <>s ""); try destruct (checks !! (kind +:+ "/" +:+ reason)) as [r2|]; done.
Qed.

Lemma last_enabled_app a b start : last_enabled (a ++ b) start = last_enabled b (last_enabled a start).
Proof. apply fold_left_app. Qed.
Lemma last_severity_app a b start : last_severity (a ++ b) start = last_severity b (last_severity a start).
Proof. apply fold_left_app. Qed.

Lemma profile_layer_flat p kind reason sev :
  let d := match lookupProfile (pp_Profile p) with Some prof => profile_layer prof kind reason (true, sev, SourceDefault) | None => (true, sev, SourceDefault) end in
  let rules := match lookupProfile (pp_Profile p) with Some prof => rules_of (ps_checks prof) kind reason | None => [] end in
  d.1 = (last_enabled rules (in_profile p kind), last_severity rules sev).
Proof.
  cbv zeta. unfold in_profile. destruct (lookupProfile (pp_Profile p)) as [prof|]; [|done]. unfold profile_layer.
  destruct (ps_onlyAllowlist prof); apply layer_rules_flat.
Qed.

(** The decision on a finding that is no meta finding, as its documented precedence: the severity
    is what the last rule with one says; without [--only] the finding is enabled when the last
    rule that says so, or the profile's allowlist, enables it and it is not below the file's
    floor; with [--only], when that matches it; and [--skip] and [--min-severity] withhold it
    whatever else says. A meta finding is never withheld. *)
Theorem policy_decision_is_layered (p : PosturePolicy) (kind reason sev0 : string) :
  let sev0 := if sev0 ==s "" then SeverityInfo else sev0 in
  Policy_Decide (Some p) kind reason sev0 =
  if isPolicyMetaKind kind then (true, sev0)
  else
    let rules := applicable p kind reason in
    let sev := last_severity rules sev0 in
    let base := match pp_flagOnly p with
                | [] => last_enabled rules (in_profile p kind) && negb (below sev (pp_MinSeverity p))
                | only => matchesAnyGlob only kind reason
                end in
    (base && negb (matchesAnyGlob (pp_flagSkip p) kind reason) && negb (below sev (pp_flagMinSeverity p)), sev).
Proof.
  cbv zeta. unfold Policy_Decide. set (s0 := if sev0 ==s "" then SeverityInfo else sev0).
  assert ((if s0 ==s "" then SeverityInfo else s0) = s0) as -> by (unfold s0; destruct (sev0 ==s "") eqn:E; rewrite ?E; done).
  destruct (isPolicyMetaKind kind); [done|]. unfold decideDetailed, applicable. rewrite last_enabled_app, last_severity_app.
  pose proof (profile_layer_flat p kind reason s0) as Hp. cbv zeta in Hp.
  destruct (match lookupProfile (pp_Profile p) with Some prof => profile_layer prof kind reason (true, s0, SourceDefault) | None => (true, s0, SourceDefault) end) as [[e1 s1] src1].
  cbn [fst] in Hp. injection Hp as -> ->.
  pose proof (layer_rules_flat SourceFile (pp_Checks p) kind reason) as Hf.
  set (e1 := last_enabled _ (in_profile p kind)). set (s1 := last_severity _ s0). specialize (Hf e1 s1 src1).
  destruct (layer_rules SourceFile (pp_Checks p) kind reason (e1, s1, src1)) as [[e2 s2] src2]. cbn [fst] in Hf. injection Hf as -> ->.
  set (e2 := last_enabled _ e1). set (s2 := last_severity _ s1). unfold below.
  destruct ((pp_MinSeverity p <>s "") && (policySeverityRank s2 <? policySeverityRank (pp_MinSeverity p)));
  destruct (pp_flagOnly p) as [|o only]; cbv beta iota; destruct (matchesAnyGlob (pp_flagSkip p) kind reason); cbv beta iota;
  destruct ((pp_flagMinSeverity p <>s "") && (policySeverityRank s2 <? policySeverityRank (pp_flagMinSeverity p)));
  cbn [negb]; rewrite ?andb_false_r, ?andb_true_r; done.
Qed.
End Load.

(** A rule whose key carries a space is accepted, its trimmed form being well formed, and never
    applies: the map keeps the key as it was written. *)
Module Padded.
#[local] Instance no_glob : Glob := fun _ _ => Some false.

Definition raw : rawPolicy := mkRawPolicy "" "" "" [] {["audit.no_pdb " := switched false]}.

Theorem padded_check_key_never_applies :
  exists p, policy_of raw = Some p /\ Policy_Decide (Some p) "audit.no_pdb" "" SeverityWarning = (true, SeverityWarning).
Proof.
  exists (mkPosture ProfileDefault ProfileDefault "" [] (rp_Checks raw) [] [] "" ∅ true false).
  split; [|vm_compute; reflexivity]. unfold policy_of.
  assert (forallb (fun p => valid_rule p.1 p.2) (map_to_list (rp_Checks raw)) = true) as -> by (vm_compute; reflexivity).
  reflexivity.
Qed.
End Padded.
